(* ===== verification/_CoqProject ===== *)
-Q . S2P
Prelude.v
MultiBuffer.v
RwLock.v
EventMessage.v
ByteStream.v
EvBuffer.v
EvBufferMove.v
EvBufferSpace.v
EvBufferPtr.v
EvBufferSpec.v
EvBufferCalls.v
Timeval.v
Text.v
Evutil.v
EvutilOk.v
EvutilText.v
EvutilRand.v
TokenBucket.v
DnsWire.v
DnsFormat.v
DnsSafe.v
DnsOk.v
DnsQuery.v
DnsFlaws.v
EventTagging.v
Event.v
MinHeap.v
EvMap.v
EventBase.v
EventBaseOk.v
RateLimit.v
RateLimitOk.v
RateLimitSystem.v
EventApi.v
EventCheck.v
EventCalls.v
EventLive.v
EventSystem.v
RateLimitBase.v
EventTimeout.v
EventDispatch.v
EventProcess.v
EventLoop.v
EpollTable.v
Epoll.v
EpollOk.v
EpollSystem.v
Changelist.v
Bufferevent.v
BuffereventOk.v
BuffereventCalls.v
BuffereventRun.v
BuffereventSystem.v
LibeventHandle.v
EventMessHandle.v
LockManager.v
LockClient.v
JsonRpcPacket.v
IdServer.v
