(* ===== verification/Prelude.v ===== *)
(** * Verification of multi-master-tool

    ** The program

    multi-master-tool is a set of building blocks for a multi-master database cluster.

    - multi_net_io/ moves messages between hosts.  [LibeventHandle] (src/libevent_handle.cc) keeps a
      table of TCP connections on top of libevent's bufferevents and frames byte strings with a
      four-byte length.  [EventMessageHandle] (src/event_mess_handle.cc) puts typed messages between
      named hosts on top of it: each group of hosts has a [LibeventHandle], each type of message a
      callback or a list of messages that have not been read.  [JsonRpcPacket]
      (src/json_rpc_packet.cc) packs keyed values into a buffer that comes from
      src/multi_buffer.cc.  libevent itself is part of the source tree (multi_net_io/libevent/).
    - centralized-lock-table/ is a lock server for database pages: the server answers lock requests
      that arrive as messages, the client sends a request and waits for its reply.
    - id-increment/ is a service that hands out increasing numbers.
    - easy_logger/ wraps the spdlog library.

    ** The development

    Every file models the source files its own header names; definitions have the names of the
    functions, types and members they translate.  A function that can crash, fail an assertion, spin
    for ever or otherwise leave the defined behaviour of the language answers [None] there, so that
    a theorem which says what a function answers also says that it does not.

    The application, from the bottom:

    - [MultiBuffer]: the block-wise buffer and the fixed buffer of multi_buffer.cc.
    - [RwLock]: the spin locks of libevent_handle.cc, as functions and as atomic steps of threads.
    - [EventMessage]: the wire format of messages; a message keeps offsets into its own bytes.
    - [ByteStream]: the interface between the network handle and the buffers of a connection, a
      class of byte queues.  [EvBuffer] gives the instance for libevent's evbuffer; everything
      above is proved for any instance.
    - [LibeventHandle]: the connection table, framing, sending, receiving and the callbacks.
    - [EventMessHandle]: groups of hosts, the dispatch of received messages, reading and sending.
    - [LockManager], [LockClient]: the lock table and its decisions; the callback that answers
      requests; the client that waits for its reply.
    - [JsonRpcPacket]: building packets and reading them back.
    - [IdServer]: the request handler of the id service.

    libevent, from the bottom:

    - [EvBuffer], [EvBufferMove], [EvBufferSpace], [EvBufferPtr]: the chained byte queue of
      buffer.c: adding and removing; moving between buffers; reserving, reading and writing;
      positions, searching and lines.  [EvBufferSpec] states the queue of bytes as a step relation
      and as a function, and relates every sequence of operations to it.  [EvBufferCalls] says which
      callbacks of a buffer are called and what they are told.
    - [EventTagging]: the encoding of tagged values of event_tagging.c.
    - [Timeval], [Event], [MinHeap], [EvMap]: points in time, struct event, the heap of timers
      (minheap-internal.h), the maps from descriptors and signals to events with the calls of the
      backend (evmap.c).
    - [EventBase]: struct event_base and the functions of event.c that set up, add, delete and
      activate events.  [EventBaseOk] is its invariant, [EventApi] and [EventCalls] are what each
      function does, [EventCheck] relates the invariant to the check of the source,
      [EventLive] adds what holds between the callbacks (no event that is being finalized is on a
      list, the signal closure under way owns the counter its event points to), [EventSystem] is about
      programs that call the interface, [EventTimeout] about expired timers and the calls of a signal.
    - [EventDispatch], [EventProcess], [EventLoop]: the rest of the life of an event.  What the back
      end reports is activated (evmap_io_active_, evmap_signal_active_), the callbacks of the active
      queues are called (event_process_active), and event_base_loop goes round until nothing is left.
    - [EpollTable], [Epoll]: the back end of epoll.c with its table of operations, and the list of changes
      of evmap.c.  [EpollOk] is what a change does to the kernel, [EpollSystem] an event base on top of
      epoll, [Changelist] the list of changes compared with changes made at once.
    - [Bufferevent]: bufferevents on sockets (bufferevent.c, bufferevent_sock.c), two events of an event
      base and two evbuffers.  [BuffereventOk] is the invariant of one and what its internal functions do
      to it, [BuffereventCalls] the interface, [BuffereventRun] the callbacks of the events,
      [BuffereventSystem] a program that uses it from creation on.
    - [TokenBucket], [RateLimit]: the rate limits of bufferevents (bufferevent_ratelim.c), buckets and
      groups with timers that refill them.  The timers are an interface, the class [Timers] with the laws
      [TimersLaws].  [RateLimitOk] is the invariant and what each function does, [RateLimitSystem] is
      about programs that use them, and [RateLimitBase] shows that the timers of an event base keep
      the laws.
    - [Text], [Evutil]: the tables of characters and the C library's numerals; of evutil.c addresses to
      and from text, the order of addresses, strings and the weak random generator.  [EvutilOk] is about
      addresses, [EvutilText] about characters and strings, [EvutilRand] about the generator.
    - [DnsWire], [DnsFormat]: the packets of evdns.c, reading and writing.  [DnsSafe] says that packets are
      read within their bounds, [DnsOk] that names that are written are read again, [DnsQuery] follows a
      question to the server and its answer back, [DnsFlaws] has the packets that are handled wrongly.

    ** Conventions

    Integers are [Z]; where the code relies on their width, the wrap-around is written out ([uint32],
    [int32], [int_chk]).  Bytes are [byte], memory blocks lists of bytes with [slice] and [splice] for
    the accesses.  Objects that the code shares through pointers live in finite maps from addresses
    ([gmap]), so that aliasing and dangling pointers are visible.  The functions of event.c are written
    in a state monad.  What the source does not contain is an argument: the allocator (does the k-th
    request succeed?), the clock (the k-th reading), the system calls (what do readv, writev and connect
    answer?), the backend of libevent, which one of several files chosen at run time provides
    ([epollops] is the one for Linux, on top of a kernel of which only what the manual page of epoll_ctl
    says is known), and the callbacks of the application.  A callback of an event is any computation on
    the base that keeps its invariant; the theorems instantiate it by [program], which gives for the
    k-th call the calls of the interface the callback makes, those that are not [EventSystem.allowed]
    left out.

    What theorems about programs ask of a program is a predicate on its calls: [EventSystem.allowed],
    [BuffereventSystem.op_allowed], [RateLimitSystem.rl_allowed], [Changelist.cl_allowed].  Each asks what
    the documentation asks, and leaves out calls on which the code is known to fail; its comment names
    them, and examples or findings show the failures.

    Loops that the structure of the data does not bound take fuel; the fuel is computed by the
    function that starts the loop, and the theorem about that function shows that it is enough:
    the number of timers for [timeout_process], the length of the queue for
    [common_timeout_callback] and [event_queue_make_later_events_active], two levels for
    [event_add_nolock_] (the timer of a common queue is never in a common queue itself), 64
    rounds for the doubling of the size of a chain, 32 for the table of descriptors, the number of bytes and
    chains for a search, the number of received frames for the dispatch of messages, the characters of
    a text.  evutil_weakrand_range_ takes its fuel from outside: 2^31 is enough.

    A pass over an active queue and event_base_loop can be kept busy by the callbacks, so they take
    fuel from outside and answer [running] when it is used up.  [queue_pass_ends] says how much a pass
    needs: the callbacks it may count and the active timers of common queues, which it does not count;
    [process_active_returns] bounds the latter by 256.  The number of rounds of event_base_loop is not
    bounded, and [event_loop_safe] holds for any.

    ** The theorems

    - End to end: framed messages of more than four bytes arrive whole and in order however the stream
      is cut ([framed_stream_delivers]); the dispatch loop delivers each message once, in order, to the
      queue of its type, up to the first one of an unregistered type ([message_delivery]); the lock
      server refines an abstract table of readers and writers ([lock_service_refinement]).
    - Refinement and equivalence: an evbuffer is a byte queue ([evbuffer_refines_queue],
      [evbuffer_is_queue]); the timer heap is a finite map of deadlines ([heap_refines_deadlines]).
    - The event base: any sequence of allowed calls runs without a failed assertion and keeps the base
      consistent ([event_base_consistent]); what event_add, event_del, a ready descriptor, the expiry of
      timers and the call of a persistent event do to an event.
    - The event loop: whichever allowed calls the callbacks make, the loop fails no assertion and follows no
      dangling pointer, and its result says why it ended ([event_loop_safe]); each pass
      over a queue ends ([queue_pass_ends]).
    - The back end: the kernel watches what the events of the base wait for, whatever fails on the way
      ([epoll_watches]); collecting changes in a list makes no difference but for
      edge-triggering ([changelist_equivalent]).
    - Bufferevents: no byte is lost, invented or reordered, and the socket is watched exactly when there
      is something to do ([bufferevent_reliable]), for callbacks that are not deferred, without
      timeouts, and connections that are not made at once.  The proof uses the operations of the
      evbuffers and of the event base through their theorems only.
    - Rate limits: what is taken from a bucket keeps to its rate ([rate_guaranteed]); whatever waits for
      bandwidth has a timer that refills its bucket, unless event_add was refused
      ([rate_limits_kept]).
    - Round trips: messages, packets, tagged values, socket addresses as text.
    - Texts of addresses are read within the arrays of the code, whatever the text ([inet_pton_safe]);
      the weak random generator finds a number of any range ([weakrand_range_total]).
    - DNS packets: a question and its answer arrive as they were sent ([dns_query_answered]); replies are
      read within the packet whatever its bytes are, and reading ends ([reply_parse_safe]).
    - Behaviour on every branch of the operations of each component, errors included.
    - What does not hold: theorems that exhibit a failure (a writer let in next to another one, a
      lock released by a host that does not hold it, bytes delivered out of order) are
      statements about the code as it is; the manifest lists them as findings.

    ** Not modelled

    Start-up and the listener's socket calls; the endless loops of server threads; the text of JSON
    documents (rapidjson) and generated protobuf code; logging.  Of libevent: file segments,
    evbuffer_add_buffer_reference, evbuffer_add_printf and overlapped I/O of buffer.c; the back ends the
    program does not run on (poll.c, select.c, kqueue.c, devpoll.c, evport.c, win32select.c), of epoll.c
    creating its descriptor and timerfd, signal.c and the rest of evutil.c (files, sockets, interfaces,
    getaddrinfo), which wrap system calls; host names and the finalization of bufferevents, the
    bufferevents that are not on sockets, and what the limits of [RateLimit] do to the reads and writes
    of [Bufferevent], which does without them; http.c and evrpc.c, which the program does not use, and
    what evdns.c does besides packets (name servers, search domains, configuration files, getaddrinfo);
    locking of the event base, which is modelled for one thread; event_base_once, event_base_loopexit,
    event_reinit, the debugging maps and dumps of event.c.

    ** Plan

    Next are bufferevents with timeouts, deferred callbacks and rate limits, the [ByteStream] instance that
    [LibeventHandle] could get from them, and event_base_once and event_base_loopexit. *)

From Stdlib Require Import String.
From Stdlib Require Strings.Byte.
From stdpp Require Export base gmap strings list fin_maps.
From Stdlib Require Export Init.Byte.

Declare Scope mmt_scope.
Delimit Scope mmt_scope with mmt.
Open Scope Z_scope.

(** ** Bytes *)

#[export] Instance byte_eq_dec : EqDecision byte := Strings.Byte.byte_eq_dec.

#[export] Program Instance byte_countable : Countable byte := {|
  encode b := encode (A:=N) (Strings.Byte.to_N b);
  decode p := n ← decode (A:=N) p; Strings.Byte.of_N n
|}.
Next Obligation. intros b. cbv beta. rewrite (decode_encode (A:=N)). simpl. apply Strings.Byte.of_to_N. Qed.

Definition Z_of_byte (b : byte) : Z := Z.of_N (Strings.Byte.to_N b).
Definition byte_of_Z (z : Z) : byte := default x00 (Strings.Byte.of_N (Z.to_N (z mod 256))).

(** A string literal as the bytes of the C string it denotes (without the NUL). *)
Definition bs (s : string) : list byte := String.list_byte_of_string s.

Lemma Z_of_byte_range b : 0 <= Z_of_byte b < 256.
Proof. unfold Z_of_byte. pose proof (Strings.Byte.to_N_bounded b). lia. Qed.

Lemma Z_of_byte_of_Z z : Z_of_byte (byte_of_Z z) = z mod 256.
Proof.
  unfold Z_of_byte, byte_of_Z.
  pose proof (Z.mod_pos_bound z 256 ltac:(lia)) as Hr.
  destruct (Strings.Byte.of_N (Z.to_N (z mod 256))) as [b|] eqn:E; simpl.
  - apply Strings.Byte.to_of_N in E. rewrite E. lia.
  - apply Strings.Byte.of_N_None_iff in E. lia.
Qed.

Lemma byte_of_Z_of_byte b : byte_of_Z (Z_of_byte b) = b.
Proof.
  unfold Z_of_byte, byte_of_Z.
  pose proof (Strings.Byte.to_N_bounded b).
  rewrite Z.mod_small by lia. by rewrite N2Z.id, Strings.Byte.of_to_N.
Qed.

Lemma Z_of_byte_inj b c : Z_of_byte b = Z_of_byte c → b = c.
Proof. intros H. rewrite <- (byte_of_Z_of_byte b), <- (byte_of_Z_of_byte c). by f_equal. Qed.

Lemma byte_of_Z_mod z : byte_of_Z (z mod 256) = byte_of_Z z.
Proof. unfold byte_of_Z. by rewrite Z.mod_mod by lia. Qed.

(** ** Machine integers *)

Definition wrap (w : Z) (z : Z) : Z := z mod 2 ^ w.
Definition uint32 (z : Z) : Z := wrap 32 z.
Definition uint64 (z : Z) : Z := wrap 64 z.
(** Two's complement reinterpretation of the low [w] bits. *)
Definition swrap (w : Z) (z : Z) : Z := (z + 2 ^ (w - 1)) mod 2 ^ w - 2 ^ (w - 1).
Definition int32 (z : Z) : Z := swrap 32 z.

Definition INT_MAX : Z := 2147483647.
Definition INT_MIN : Z := -2147483648.
Definition SIZE_MAX : Z := 18446744073709551615.

(** Signed [int] arithmetic: an overflow is undefined behaviour, [None]. *)
Definition int_chk (z : Z) : option Z :=
  if (INT_MIN <=? z) && (z <=? INT_MAX) then Some z else None.

Lemma int_chk_Some z : INT_MIN <= z <= INT_MAX → int_chk z = Some z.
Proof. intros [H1 H2]. unfold int_chk. apply Z.leb_le in H1, H2. by rewrite H1, H2. Qed.

Lemma uint32_id z : 0 <= z < 2 ^ 32 → uint32 z = z.
Proof. apply Z.mod_small. Qed.
Lemma uint64_id z : 0 <= z < 2 ^ 64 → uint64 z = z.
Proof. apply Z.mod_small. Qed.
Lemma int32_id z : INT_MIN <= z <= INT_MAX → int32 z = z.
Proof. unfold INT_MIN, INT_MAX. intros. unfold int32, swrap. rewrite Z.mod_small; lia. Qed.

(** Disjoint bits add up. *)
Lemma lor_low a b k : 0 <= k → 0 <= b < 2 ^ k → Z.lor (a * 2 ^ k) b = a * 2 ^ k + b.
Proof.
  intros Hk Hb. assert (Z.land (a * 2 ^ k) b = 0) as H0; [|by rewrite <- Z.lxor_lor, Z.add_nocarry_lxor].
  apply Z.bits_inj_0. intros n. rewrite Z.land_spec, <- Z.shiftl_mul_pow2 by done.
  destruct (Z_lt_le_dec n 0); [by rewrite Z.testbit_neg_r|].
  destruct (Z_lt_le_dec n k); [by rewrite Z.shiftl_spec_low|].
  destruct (Z.eq_dec b 0) as [->|]; [by rewrite Z.bits_0, andb_false_r|].
  rewrite (Z.bits_above_log2 b n), andb_false_r; [done|lia|].
  apply Z.lt_le_trans with k; [apply Z.log2_lt_pow2; lia|done].
Qed.

(** ** Memory blocks

    A block of memory is a list of bytes.  Reading or writing outside of it is
    undefined behaviour, written [None]. *)

Abbreviation Zlen l := (Z.of_nat (length l)).

(** Lengths of blocks put together from others. *)
Create Rewrite HintDb lens.
#[export] Hint Rewrite @length_app @length_take @length_drop @length_replicate @length_reverse @length_fmap
  @length_resize : lens.
Ltac lens := autorewrite with lens; lia.

(** [n] elements of [l] from offset [off]. *)
Definition slice {A} (l : list A) (off n : Z) : option (list A) :=
  if (0 <=? off) && (0 <=? n) && (off + n <=? Zlen l)
  then Some (take (Z.to_nat n) (drop (Z.to_nat off) l)) else None.

(** [memcpy(l + off, d, |d|)]. *)
Definition splice {A} (l : list A) (off : Z) (d : list A) : option (list A) :=
  if (0 <=? off) && (off + Zlen d <=? Zlen l)
  then Some (take (Z.to_nat off) l ++ d ++ drop (Z.to_nat off + length d) l) else None.

Lemma slice_Some {A} (l : list A) off n :
  0 <= off → 0 <= n → off + n <= Zlen l →
  slice l off n = Some (take (Z.to_nat n) (drop (Z.to_nat off) l)).
Proof.
  intros H1 H2 H3. unfold slice.
  by rewrite (proj2 (Z.leb_le _ _) H1), (proj2 (Z.leb_le _ _) H2), (proj2 (Z.leb_le _ _) H3).
Qed.

Lemma slice_inv {A} (l k : list A) off n :
  slice l off n = Some k →
  0 <= off ∧ 0 <= n ∧ off + n <= Zlen l ∧ k = take (Z.to_nat n) (drop (Z.to_nat off) l).
Proof.
  unfold slice. destruct (_ && _) eqn:E; [|done]. intros [= <-].
  rewrite !andb_true_iff, !Z.leb_le in E. by destruct E as [[? ?] ?].
Qed.

Lemma slice_length {A} (l k : list A) off n : slice l off n = Some k → Zlen k = n.
Proof. intros (?&?&?&->)%slice_inv. rewrite length_take, length_drop. lia. Qed.

(** The middle of a concatenation. *)
Lemma slice_app {A} (l d k : list A) :
  slice (l ++ d ++ k) (Zlen l) (Zlen d) = Some d.
Proof.
  rewrite slice_Some by (lens).
  rewrite !Nat2Z.id, drop_app_length, take_app_length. done.
Qed.

Lemma slice_app_eq {A} (l d k m : list A) off n :
  m = l ++ d ++ k → off = Zlen l → n = Zlen d → slice m off n = Some d.
Proof. intros -> -> ->. apply slice_app. Qed.

Lemma splice_Some {A} (l d : list A) off :
  0 <= off → off + Zlen d <= Zlen l →
  splice l off d = Some (take (Z.to_nat off) l ++ d ++ drop (Z.to_nat off + length d) l).
Proof.
  intros H1 H2. unfold splice.
  by rewrite (proj2 (Z.leb_le _ _) H1), (proj2 (Z.leb_le _ _) H2).
Qed.

Lemma splice_inv {A} (l l' d : list A) off :
  splice l off d = Some l' →
  0 <= off ∧ off + Zlen d <= Zlen l ∧
  l' = take (Z.to_nat off) l ++ d ++ drop (Z.to_nat off + length d) l.
Proof.
  unfold splice. destruct (_ && _) eqn:E; [|done]. intros [= <-].
  rewrite !andb_true_iff, !Z.leb_le in E. by destruct E.
Qed.

Lemma splice_length {A} (l l' d : list A) off :
  splice l off d = Some l' → length l' = length l.
Proof.
  intros (?&?&->)%splice_inv. rewrite !length_app, length_take, length_drop. lia.
Qed.

Lemma splice_app {A} (l d d' k : list A) :
  length d = length d' →
  splice (l ++ d ++ k) (Zlen l) d' = Some (l ++ d' ++ k).
Proof.
  intros Hl. rewrite splice_Some by (lens).
  rewrite Nat2Z.id, take_app_length. do 3 f_equal.
  rewrite <- drop_drop, drop_app_length, <- Hl. by rewrite drop_app_length.
Qed.

Lemma splice_app_eq {A} (l d d' k m : list A) off :
  m = l ++ d ++ k → off = Zlen l → length d = length d' →
  splice m off d' = Some (l ++ d' ++ k).
Proof. intros -> -> ?. by apply splice_app. Qed.

(** A block split at an in-range window. *)
Lemma split_at {A} (l : list A) off n :
  0 <= off → 0 <= n → off + n <= Zlen l →
  ∃ a d k, l = a ++ d ++ k ∧ Zlen a = off ∧ Zlen d = n.
Proof.
  intros. exists (take (Z.to_nat off) l), (take (Z.to_nat n) (drop (Z.to_nat off) l)),
    (drop (Z.to_nat n) (drop (Z.to_nat off) l)).
  rewrite !take_drop, !length_take, length_drop. split; [done|lia].
Qed.

(** Reading back what was written. *)
Lemma slice_splice {A} (l l' d : list A) off :
  splice l off d = Some l' → slice l' off (Zlen d) = Some d.
Proof.
  intros (?&?&->)%splice_inv. eapply slice_app_eq; [done| |done].
  rewrite length_take. lia.
Qed.

(** Bytes outside the written window are unchanged. *)
Lemma splice_lookup_ne {A} (l l' d : list A) off (i : nat) :
  splice l off d = Some l' → Z.of_nat i < off ∨ off + Zlen d <= Z.of_nat i →
  l' !! i = l !! i.
Proof.
  intros (?&?&->)%splice_inv [Hi|Hi].
  - rewrite lookup_app_l by (lens). by rewrite lookup_take_lt by lia.
  - rewrite lookup_app_r by (lens).
    rewrite lookup_app_r by (lens).
    rewrite lookup_drop, length_take. f_equal. lia.
Qed.

(** Writing inside a prefix of the block. *)
Lemma splice_take {A} (l l' d : list A) off (n : nat) :
  splice l off d = Some l' → off + Zlen d <= Z.of_nat n → (n <= length l)%nat →
  splice (take n l) off d = Some (take n l').
Proof.
  intros Hs Hn Hl. pose proof (splice_length _ _ _ _ Hs) as Hlen.
  apply splice_inv in Hs as (Ho & Hr & Heq).
  rewrite splice_Some by (lens). f_equal. apply list_eq. intros i.
  destruct (decide (i < n)%nat).
  - rewrite lookup_take_lt, Heq by done. rewrite take_take, Nat.min_l by lia.
    destruct (decide (i < Z.to_nat off + length d)%nat).
    + rewrite !(assoc_L (++)), !(lookup_app_l (take _ l ++ d)) by (lens). done.
    + rewrite !(assoc_L (++)), !(lookup_app_r (take _ l ++ d)) by (lens).
      rewrite !lookup_drop, lookup_take_lt; [done|]. rewrite length_app, length_take. lia.
  - rewrite lookup_take_ge by lia. apply lookup_ge_None_2.
    rewrite !length_app, length_drop, !length_take. lia.
Qed.

(** Taking an element out of a list without duplicates. *)
Lemma NoDup_middle {A} (l1 l2 : list A) x :
  NoDup (l1 ++ x :: l2) →
  NoDup (l1 ++ l2) ∧ ∀ y, y ∈ l1 ++ l2 ↔ y ∈ l1 ++ x :: l2 ∧ y ≠ x.
Proof.
  rewrite <- Permutation_middle. intros [Hx Hl]%NoDup_cons. split; [done|]. intros y.
  rewrite <- Permutation_middle, elem_of_cons. split.
  - intros Hy. split; [by right|]. by intros ->.
  - intros [[->|Hy] Hne]; done.
Qed.

(** Unlinking [x] from a linked list: [None] when it is not on it. *)
Fixpoint unlink `{EqDecision A} (x : A) (l : list A) : option (list A) :=
  match l with
  | [] => None
  | y :: l => if decide (x = y) then Some l else (y ::.) <$> unlink x l
  end.

Lemma unlink_ok `{EqDecision A} (x : A) l :
  x ∈ l → ∃ l1 l2, l = l1 ++ x :: l2 ∧ unlink x l = Some (l1 ++ l2).
Proof.
  induction l as [|y l IH]; [by intros H%not_elem_of_nil|]. intros Hx. cbn.
  destruct (decide (x = y)) as [->|Hne]; [by exists [], l|].
  destruct IH as (l1 & l2 & -> & ->); [by apply elem_of_cons in Hx as [|]|].
  by exists (y :: l1), l2.
Qed.

(** Unlinking from a list without duplicates. *)
Lemma unlink_nodup `{EqDecision A} (x : A) l :
  NoDup l → x ∈ l → ∃ l', unlink x l = Some l' ∧ l ≡ₚ x :: l' ∧ NoDup l' ∧ (∀ y, y ∈ l' ↔ y ∈ l ∧ y ≠ x) ∧
    sublist l' l.
Proof.
  intros Hnd Hx. destruct (unlink_ok x l Hx) as (l1 & l2 & -> & ->). eexists. split; [done|].
  destruct (NoDup_middle l1 l2 x Hnd) as [? ?].
  split_and!; [by rewrite Permutation_middle|done..|]. apply sublist_app; [done|by constructor].
Qed.

(** ** Little-endian words in memory *)

Fixpoint le_bytes (n : nat) (z : Z) : list byte :=
  match n with O => [] | S n => byte_of_Z z :: le_bytes n (z / 256) end.

Fixpoint le_val (l : list byte) : Z :=
  match l with [] => 0 | b :: l => Z_of_byte b + 256 * le_val l end.

Lemma le_bytes_length n z : length (le_bytes n z) = n.
Proof. revert z. induction n; intros; simpl; [done|by f_equal]. Qed.
#[export] Hint Rewrite le_bytes_length : lens.

Lemma le_val_range l : 0 <= le_val l < 256 ^ Zlen l.
Proof.
  induction l as [|b l IH]; simpl; [lia|]. pose proof (Z_of_byte_range b).
  rewrite Nat2Z.inj_succ, Z.pow_succ_r by lia. lia.
Qed.

Lemma le_val_bytes n z : le_val (le_bytes n z) = z mod 256 ^ Z.of_nat n.
Proof.
  revert z. induction n as [|n IH]; intros z; simpl; [by rewrite Z.mod_1_r|].
  rewrite IH, Z_of_byte_of_Z, Nat2Z.inj_succ, Z.pow_succ_r by lia.
  rewrite (Z.rem_mul_r z 256) by lia. done.
Qed.

Lemma le_bytes_val l : le_bytes (length l) (le_val l) = l.
Proof.
  induction l as [|b l IH]; simpl; [done|]. pose proof (Z_of_byte_range b). f_equal.
  - apply Z_of_byte_inj. rewrite Z_of_byte_of_Z.
    rewrite (Z.mul_comm 256), Z_mod_plus_full. by apply Z.mod_small.
  - rewrite Z.add_comm, Z.mul_comm, Z.div_add_l, Z.div_small by lia. by rewrite Z.add_0_r.
Qed.

#[global] Arguments le_bytes : simpl never.

(** A 4-byte unsigned word. *)
Definition word_at (m : list byte) (off : Z) : option Z := le_val <$> slice m off 4.

Lemma le_val_bytes4 z : 0 <= z < 2 ^ 32 → le_val (le_bytes 4 z) = z.
Proof. intros. rewrite le_val_bytes. apply Z.mod_small. lia. Qed.

(** ** C strings *)

(** The bytes before the first NUL; [None] when the block has no NUL. *)
Fixpoint cstr (m : list byte) : option (list byte) :=
  match m with
  | [] => None
  | b :: m => if decide (b = x00) then Some [] else (b ::.) <$> cstr m
  end.

Definition cstr_at (m : list byte) (off : Z) : option (list byte) :=
  if (0 <=? off) && (off <=? Zlen m) then cstr (drop (Z.to_nat off) m) else None.

(** The bytes of a C string hold no NUL. *)
Definition no_nul (s : list byte) : Prop := x00 ∉ s.
#[export] Instance no_nul_dec s : Decision (no_nul s).
Proof. unfold no_nul. apply _. Defined.

Lemma cstr_app s m : no_nul s → cstr (s ++ x00 :: m) = Some s.
Proof.
  intros Hs. induction s as [|b s IH]; simpl; [done|].
  apply not_elem_of_cons in Hs as [Hb Hs].
  rewrite decide_False by congruence. by rewrite IH.
Qed.

Lemma cstr_at_app a s m off :
  no_nul s → off = Zlen a → cstr_at (a ++ s ++ x00 :: m) off = Some s.
Proof.
  intros Hs ->. unfold cstr_at. rewrite (proj2 (Z.leb_le _ _)) by lia.
  rewrite (proj2 (Z.leb_le _ _)) by (lens). simpl.
  rewrite Nat2Z.id, drop_app_length. by apply cstr_app.
Qed.

(** [lia] with Euclidean division. *)
Ltac dlia := Z.to_euclidean_division_equations; lia.
