(* ===== verification/MultiBuffer.v ===== *)
(** * In-memory buffers (multi_net_io/src/multi_buffer.cc, include/multi_buffer.h)

    [DynamicBuffer] is a vector of 1024-byte blocks with the fill level of the last
    block; [FixedBuffer] is a caller-supplied array with a tail offset.  Undefined
    behaviour (an access outside a block, an [int] overflow) is [None]. *)

From S2P Require Import Prelude.

Module DynamicBuffer.

Definition BLOCK_SIZE : Z := 1024.

Record t := mk {
  blocks_list : list (list byte);
  tail_offset_in_block : Z
}.

Definition empty : t := mk [] 0.

(** [new char[BLOCK_SIZE]{0}] *)
Definition new_block : list byte := replicate 1024 x00.

Definition clear (b : t) : t :=
  mk ((λ blk, replicate (length blk) x00) <$> blocks_list b) 0.

Definition destory (b : t) : t := mk [] 0.

Definition size (b : t) : option Z :=
  let count := int32 (Zlen (blocks_list b)) in
  let count := if 0 <? count then count - 1 else count in
  int_chk (count * BLOCK_SIZE + tail_offset_in_block b).

Definition capacity (b : t) : Z := int32 (uint64 (Zlen (blocks_list b) * BLOCK_SIZE)).

Definition add_blocks (b : t) (i : Z) : t :=
  mk (blocks_list b ++ replicate (Z.to_nat i) new_block) (tail_offset_in_block b).

(** The returned flag and the buffer after a possible expansion. *)
Definition check_space (b : t) (offset sz : Z) (expand : bool) : option (bool * t) :=
  stop ← int_chk (offset + sz);
  if capacity b <? stop then
    if negb expand then Some (false, b)
    else
      require ← int_chk (stop - capacity b);
      let require :=
        if Z.rem require BLOCK_SIZE =? 0 then Z.quot require BLOCK_SIZE
        else Z.quot require BLOCK_SIZE + 1 in
      Some (true, add_blocks b require)
  else Some (true, b).

(** The block iterator [blocks_list.begin() + index]: the blocks before it and
    the ones from it on. *)
Definition block_it (b : t) (index : Z) : option (list (list byte) * list (list byte)) :=
  if (0 <=? index) && (index <=? Zlen (blocks_list b))
  then Some (take (Z.to_nat index) (blocks_list b), drop (Z.to_nat index) (blocks_list b))
  else None.

(** The [while (size != 0)] loop of [put].  The [data] pointer is not advanced
    when the loop moves to the next block. *)
Fixpoint put_loop (bl : list (list byte)) (data : list byte) (offset sz : Z)
    (append_byte : bool) (tail : Z) : option (list (list byte) * Z) :=
  if sz =? 0 then Some (bl, tail)
  else
    match bl with
    | [] => None
    | blk :: bl' =>
        if BLOCK_SIZE - offset <? sz then
          d ← slice data 0 (BLOCK_SIZE - offset);
          blk' ← splice blk offset d;
          '(bl'', tail') ← put_loop bl' data 0 (sz - (BLOCK_SIZE - offset)) append_byte tail;
          Some (blk' :: bl'', tail')
        else
          d ← slice data 0 sz;
          blk' ← splice blk offset d;
          Some (blk' :: bl', if append_byte then offset + sz else tail)
    end.

Definition put (b : t) (data : list byte) (offset sz : Z) : option (bool * t) :=
  '(_, b) ← check_space b offset sz true;
  stop ← int_chk (offset + sz);
  s ← size b;
  let append_byte := s <? stop in
  let index := Z.quot offset BLOCK_SIZE in
  let offset := Z.rem offset BLOCK_SIZE in
  '(before, from) ← block_it b index;
  '(from', tail) ← put_loop from data offset sz append_byte (tail_offset_in_block b);
  Some (true, mk (before ++ from') tail).

(** A non-null address is a block index and an offset in that block. *)
Definition get_address (b : t) (offset : Z) : option (option (Z * Z)) :=
  s ← size b;
  if s <? offset then Some None
  else
    let index := Z.quot offset BLOCK_SIZE in
    let off := Z.rem offset BLOCK_SIZE in
    '(_, from) ← block_it b index;
    match from with [] => None | _ :: _ => Some (Some (index, off)) end.

(** The loop of [get]; the bytes stored through [data]. *)
Fixpoint get_loop (bl : list (list byte)) (offset sz : Z) : option (list byte) :=
  if sz =? 0 then Some []
  else
    match bl with
    | [] => None
    | blk :: bl' =>
        if BLOCK_SIZE - offset <? sz then
          d ← slice blk offset (BLOCK_SIZE - offset);
          rest ← get_loop bl' 0 (sz - (BLOCK_SIZE - offset));
          Some (d ++ rest)
        else slice blk offset sz
    end.

(** [false] is [Some None]; [true] comes with the bytes copied to [data]. *)
Definition get (b : t) (offset sz : Z) : option (option (list byte)) :=
  '(ok, b) ← check_space b offset sz false;
  if negb ok then Some None
  else
    let index := Z.quot offset BLOCK_SIZE in
    let offset := Z.rem offset BLOCK_SIZE in
    '(_, from) ← block_it b index;
    Some <$> get_loop from offset sz.

Definition append (b : t) (data : list byte) (data_size : Z) : option (Z * t) :=
  offset ← size b;
  '(_, b') ← put b data offset data_size;
  Some (offset, b').

(** ** Well-formedness and the byte sequence a buffer denotes *)

Record wf (b : t) : Prop := {
  wf_blocks : Forall (λ blk, length blk = 1024%nat) (blocks_list b);
  wf_tail : 0 <= tail_offset_in_block b <= BLOCK_SIZE;
  wf_nil : blocks_list b = [] → tail_offset_in_block b = 0;
  wf_cap : Zlen (blocks_list b) * BLOCK_SIZE <= INT_MAX
}.

Definition memory (b : t) : list byte := concat (blocks_list b).
Definition fill (b : t) : Z :=
  Z.max 0 (Zlen (blocks_list b) - 1) * BLOCK_SIZE + tail_offset_in_block b.
Definition contents (b : t) : list byte := take (Z.to_nat (fill b)) (memory b).

Lemma concat_blocks_length bl :
  Forall (λ blk : list byte, length blk = 1024%nat) bl → Zlen (concat bl) = Zlen bl * 1024.
Proof. induction 1; simpl; [done|]. rewrite length_app. lia. Qed.

Lemma capacity_wf b : wf b → capacity b = Zlen (blocks_list b) * BLOCK_SIZE.
Proof.
  intros [_ _ _ Hc]. unfold capacity. unfold BLOCK_SIZE, INT_MAX in *.
  rewrite uint64_id by lia. apply int32_id. unfold INT_MAX, INT_MIN. lia.
Qed.

Lemma memory_length b : wf b → Zlen (memory b) = capacity b.
Proof. intros Hb. rewrite capacity_wf by done. apply concat_blocks_length, Hb. Qed.

Lemma fill_bounds b : wf b → 0 <= fill b <= capacity b.
Proof.
  intros Hb. rewrite capacity_wf by done. destruct Hb as [_ Ht Hn _]. unfold fill, BLOCK_SIZE in *.
  destruct (blocks_list b); [rewrite Hn by done; simpl; lia|]. rewrite length_cons. lia.
Qed.

Lemma size_wf b : wf b → size b = Some (fill b).
Proof.
  intros Hb. pose proof (fill_bounds b Hb) as Hf. rewrite capacity_wf in Hf by done.
  destruct Hb as [_ _ _ Hc]. unfold size, fill, BLOCK_SIZE, INT_MAX in *.
  rewrite int32_id by (unfold INT_MIN, INT_MAX; lia).
  replace (if 0 <? _ then _ else _) with (Z.max 0 (Zlen (blocks_list b) - 1)).
  - apply int_chk_Some. unfold INT_MIN, INT_MAX. lia.
  - destruct (Z.ltb_spec 0 (Zlen (blocks_list b))); lia.
Qed.

(** ** Loops over blocks as operations on the concatenated memory *)

Lemma slice_concat_cons (blk : list byte) bl off n :
  length blk = 1024%nat → 0 <= off <= 1024 → 1024 - off < n →
  slice (concat (blk :: bl)) off n =
    (d ← slice blk off (1024 - off); rest ← slice (concat bl) 0 (n - (1024 - off)); Some (d ++ rest)).
Proof.
  intros Hb Ho Hn. rewrite (slice_Some blk) by lia. simpl.
  unfold slice. rewrite length_app, Nat2Z.inj_add, Z.add_0_l.
  destruct (Z.leb_spec 0 off), (Z.leb_spec 0 n), (Z.leb_spec 0 (n - (1024 - off))); try lia. simpl.
  destruct (Z.leb_spec (off + n) (Zlen blk + Zlen (concat bl))) as [H2|H2];
    destruct (Z.leb_spec (n - (1024 - off)) (Zlen (concat bl))) as [H3|H3]; simpl; try lia; [|done].
  rewrite drop_app_le by lia. rewrite take_app_ge by (lens).
  rewrite length_drop, drop_0, (take_ge (drop _ _)) by (lens).
  do 2 f_equal. f_equal. lia.
Qed.

Lemma get_loop_slice bl off n :
  Forall (λ blk : list byte, length blk = 1024%nat) bl →
  0 <= off < 1024 → 0 <= n → off + n <= Zlen bl * 1024 →
  get_loop bl off n = slice (concat bl) off n.
Proof.
  intros Hbl. revert off n. induction Hbl as [|blk bl Hb Hbl IH]; intros off n Ho Hn Hle.
  - simpl in *. destruct (Z.eqb_spec n 0) as [->|]; [|lia].
    rewrite slice_Some by (simpl; lia). by rewrite drop_nil.
  - cbn [get_loop]. rewrite length_cons in Hle.
    destruct (Z.eqb_spec n 0) as [->|Hn0].
    { rewrite slice_Some; [done|lia|lia|].
      rewrite concat_blocks_length by (by constructor). rewrite length_cons. lia. }
    unfold BLOCK_SIZE. destruct (Z.ltb_spec (1024 - off) n) as [Hc|Hc].
    + rewrite slice_concat_cons by lia. rewrite IH by lia. done.
    + simpl. rewrite !slice_Some by (lens).
      rewrite drop_app_le by lia. rewrite take_app_le; [done|]. rewrite length_drop. lia.
Qed.

(** A store that stays inside one block. *)
Lemma put_loop_one blk bl data off n ap tail :
  length blk = 1024%nat → 0 <= off → 0 < n → off + n <= 1024 → n <= Zlen data →
  ∃ blk', put_loop (blk :: bl) data off n ap tail =
      Some (blk' :: bl, if ap then off + n else tail) ∧
    length blk' = 1024%nat ∧ splice blk off (take (Z.to_nat n) data) = Some blk'.
Proof.
  intros Hb Ho Hn Hle Hd. cbn [put_loop]. unfold BLOCK_SIZE.
  destruct (Z.eqb_spec n 0); [lia|]. destruct (Z.ltb_spec (1024 - off) n); [lia|].
  rewrite slice_Some by lia. simpl. rewrite drop_0.
  set (d := take (Z.to_nat n) data). assert (length d = Z.to_nat n) as Hdl.
  { unfold d. rewrite length_take. lia. }
  destruct (splice blk off d) as [blk'|] eqn:E.
  - exists blk'. simpl. split; [done|]. split; [|done]. by rewrite (splice_length _ _ _ _ E).
  - exfalso. rewrite splice_Some in E by lia. done.
Qed.

Lemma block_it_Some b i :
  0 <= i <= Zlen (blocks_list b) →
  block_it b i = Some (take (Z.to_nat i) (blocks_list b), drop (Z.to_nat i) (blocks_list b)).
Proof.
  intros [H1 H2]. unfold block_it.
  by rewrite (proj2 (Z.leb_le _ _) H1), (proj2 (Z.leb_le _ _) H2).
Qed.

Lemma check_space_fits b off n e :
  wf b → 0 <= off → 0 <= n → off + n <= capacity b → check_space b off n e = Some (true, b).
Proof.
  intros Hb Ho Hn Hle. unfold check_space.
  assert (capacity b <= INT_MAX) by (rewrite capacity_wf by done; apply Hb).
  rewrite int_chk_Some by (unfold INT_MIN; lia). simpl.
  destruct (Z.ltb_spec (capacity b) (off + n)); [lia|done].
Qed.

Lemma quot_rem_div off : 0 <= off →
  Z.quot off BLOCK_SIZE = off / 1024 ∧ Z.rem off BLOCK_SIZE = off mod 1024.
Proof. intros. unfold BLOCK_SIZE. rewrite Z.quot_div_nonneg, Z.rem_mod_nonneg by lia. done. Qed.

(** [get] on an in-range window is a slice of the memory. *)
Lemma get_slice b off n :
  wf b → 0 <= off → 0 <= n → off + n <= capacity b →
  get b off n = Some <$> slice (memory b) off n.
Proof.
  intros Hb Ho Hn Hle. unfold get. rewrite check_space_fits by done. simpl.
  destruct (quot_rem_div off Ho) as [-> ->].
  rewrite capacity_wf in Hle by done. unfold BLOCK_SIZE in Hle.
  rewrite block_it_Some by (split; [apply Z.div_pos; lia|apply Z.div_le_upper_bound; lia]). simpl.
  pose proof (Z.div_mod off 1024 ltac:(lia)) as Hdm.
  pose proof (Z.mod_pos_bound off 1024 ltac:(lia)) as Hm.
  pose proof (Z.div_pos off 1024 Ho ltac:(lia)) as Hq.
  set (q := off / 1024) in *. set (r := off mod 1024) in *.
  assert (q <= Zlen (blocks_list b)) as Hql by nia.
  assert (Forall (λ blk, length blk = 1024%nat) (drop (Z.to_nat q) (blocks_list b)))
    as Hfd by (apply Forall_drop, Hb).
  rewrite get_loop_slice; [|done|lia|lia|lens]. f_equal.
  unfold memory. rewrite <- (take_drop (Z.to_nat q) (blocks_list b)) at 2.
  rewrite concat_app.
  assert (Zlen (concat (take (Z.to_nat q) (blocks_list b))) = q * 1024) as Hpre.
  { rewrite concat_blocks_length by (apply Forall_take, Hb). rewrite length_take. lia. }
  assert (Zlen (concat (drop (Z.to_nat q) (blocks_list b))) =
    (Zlen (blocks_list b) - q) * 1024) as Hpost.
  { rewrite concat_blocks_length by done. rewrite length_drop. lia. }
  rewrite !slice_Some by (lens). f_equal. f_equal.
  rewrite drop_app_ge by lia. f_equal. lia.
Qed.

(** The position of the block that holds offset [off]. *)
Lemma block_split b off :
  wf b → 0 <= off < capacity b →
  ∃ pre blk post, blocks_list b = pre ++ blk :: post ∧ Zlen pre = off / 1024 ∧
    length blk = 1024%nat ∧ Zlen (concat pre) = off / 1024 * 1024.
Proof.
  intros Hb Hoff. rewrite capacity_wf in Hoff by done. unfold BLOCK_SIZE in Hoff.
  assert (0 <= off / 1024 < Zlen (blocks_list b)) as [Hq1 Hq2].
  { split; [apply Z.div_pos; lia|apply Z.div_lt_upper_bound; lia]. }
  destruct (lookup_lt_is_Some_2 (blocks_list b) (Z.to_nat (off / 1024)) ltac:(lia)) as [blk Hblk].
  exists (take (Z.to_nat (off / 1024)) (blocks_list b)), blk,
    (drop (S (Z.to_nat (off / 1024))) (blocks_list b)).
  rewrite take_drop_middle by done. split; [done|].
  split; [lens|]. pose proof (wf_blocks b Hb) as Hf. split.
  - eapply Forall_lookup_1 in Hf; [|done]. done.
  - rewrite concat_blocks_length by (by apply Forall_take). rewrite length_take. lia.
Qed.

(** A store inside one of the blocks is a store in the concatenated memory. *)
Lemma splice_concat pre blk blk' post off (d : list byte) :
  splice blk off d = Some blk' →
  splice (concat (pre ++ blk :: post)) (Zlen (concat pre) + off) d =
    Some (concat (pre ++ blk' :: post)).
Proof.
  intros (Ho & Hle & ->)%splice_inv. rewrite !concat_app. simpl.
  destruct (split_at blk off (Zlen d) Ho ltac:(lia) Hle) as (x & y & z & -> & Hx & Hy).
  replace (Z.to_nat off) with (length x) by lia.
  rewrite take_app_length, <- drop_drop, drop_app_length.
  replace (length d) with (length y) by lia. rewrite drop_app_length, <- !(assoc_L (++)).
  eapply eq_trans; [apply (splice_app_eq (concat pre ++ x) y d (z ++ concat post))|];
    rewrite ?length_app, <- ?(assoc_L (++)); (done || lia).
Qed.

(** Replacing one block keeps well-formedness; the fill level follows the tail. *)
Lemma fill_replace b pre blk blk' post tail :
  blocks_list b = pre ++ blk :: post →
  fill (mk (pre ++ blk' :: post) tail) = Zlen (pre ++ post) * BLOCK_SIZE + tail.
Proof.
  intros Hb. unfold fill, BLOCK_SIZE. simpl. rewrite !length_app, length_cons. lia.
Qed.

Lemma wf_replace b pre blk blk' post tail :
  wf b → blocks_list b = pre ++ blk :: post → length blk' = 1024%nat →
  0 <= tail <= BLOCK_SIZE → wf (mk (pre ++ blk' :: post) tail).
Proof.
  intros [Hf _ _ Hc] Hb Hl Ht. rewrite Hb in Hf, Hc.
  apply Forall_app in Hf as [Hf1 [_ Hf2]%Forall_cons].
  constructor; simpl; [|done|by destruct pre|].
  - apply Forall_app. split; [done|]. by constructor.
  - rewrite !length_app, !length_cons in *. done.
Qed.

(** [put] of [n] bytes inside one block of the memory the buffer already has. *)
Lemma put_in_block b data off n :
  wf b → 0 <= off → 0 < n → off mod 1024 + n <= 1024 → off + n <= capacity b →
  n <= Zlen data →
  ∃ b', put b data off n = Some (true, b') ∧ wf b' ∧ fill b' = Z.max (fill b) (off + n) ∧
    splice (memory b) off (take (Z.to_nat n) data) = Some (memory b').
Proof.
  intros Hb Ho Hn Hm Hle Hd.
  pose proof (capacity_wf b Hb) as Hcap. pose proof (wf_cap b Hb) as Hmax.
  destruct (block_split b off Hb ltac:(lia)) as (pre & blk & post & Hbl & Hpre & Hblk & Hcpre).
  pose proof (Z.div_mod off 1024 ltac:(lia)) as Hdm.
  pose proof (Z.mod_pos_bound off 1024 ltac:(lia)) as Hmb.
  unfold put. rewrite check_space_fits by (done || lia). simpl.
  rewrite int_chk_Some by (unfold INT_MIN; lia). simpl. rewrite size_wf by done. simpl.
  destruct (quot_rem_div off Ho) as [-> ->].
  rewrite block_it_Some by (rewrite Hbl, length_app, length_cons; lia). simpl.
  rewrite Hbl, <- Hpre, Nat2Z.id, take_app_length, drop_app_length.
  set (q := off / 1024) in *. set (r := off mod 1024) in *.
  destruct (put_loop_one blk post data r n (fill b <? off + n)
    (tail_offset_in_block b)) as (blk' & -> & Hblk' & Hsp); [done|lia..|]. simpl.
  pose proof (wf_tail b Hb) as Ht.
  pose proof (fill_replace b pre blk blk post (tail_offset_in_block b) Hbl) as Hfb.
  rewrite <- Hbl in Hfb. change (fill (mk _ _)) with (fill b) in Hfb.
  eexists. split; [done|]. split; [|split].
  - eapply wf_replace; [done..|]. unfold BLOCK_SIZE in *. destruct (fill b <? off + n); lia.
  - erewrite fill_replace by done. rewrite Hfb, length_app in *.
    rewrite Hcap, Hbl, length_app, length_cons in Hle. unfold BLOCK_SIZE in *.
    destruct (Z.ltb_spec (Z.of_nat (length pre + length post) * 1024 + tail_offset_in_block b)
      (off + n)); lia.
  - unfold memory. rewrite Hbl. replace off with (Zlen (concat pre) + r) by lia.
    by apply splice_concat.
Qed.

Lemma put_zero b data off :
  wf b → 0 <= off <= fill b → put b data off 0 = Some (true, b).
Proof.
  intros Hb Ho. pose proof (fill_bounds b Hb) as Hf. pose proof (capacity_wf b Hb) as Hc.
  pose proof (wf_cap b Hb). unfold put. rewrite check_space_fits by (done || lia). simpl.
  rewrite int_chk_Some by (unfold INT_MIN; lia). simpl. rewrite size_wf by done. simpl.
  destruct (quot_rem_div off) as [-> _]; [lia|]. unfold BLOCK_SIZE in *.
  rewrite block_it_Some by (split; [apply Z.div_pos; lia|apply Z.div_le_upper_bound; lia]).
  simpl. destruct (drop _ _) eqn:E; simpl; rewrite <- E, take_drop; by destruct b.
Qed.

Lemma fill_in_last_block b n :
  wf b → 0 < n → fill b + n <= capacity b → fill b mod 1024 + n <= 1024.
Proof.
  intros Hb Hn. rewrite capacity_wf by done. destruct Hb as [_ Ht Hnil _].
  unfold fill, BLOCK_SIZE in *. destruct (blocks_list b) as [|x l] eqn:E.
  - rewrite Hnil by done. simpl. lia.
  - rewrite length_cons. intros Hle.
    replace (Z.max 0 (Z.of_nat (S (length l)) - 1)) with (Zlen l) in * by lia.
    rewrite (Z.add_comm (Zlen l * 1024)), Z_mod_plus_full. rewrite Z.mod_small; lia.
Qed.

(** [append] while the data fits in the blocks already allocated. *)
Lemma append_fits b data n :
  wf b → 0 <= n <= Zlen data → fill b + n <= capacity b →
  ∃ b', append b data n = Some (fill b, b') ∧ wf b' ∧ capacity b' = capacity b ∧
    fill b' = fill b + n ∧ contents b' = contents b ++ take (Z.to_nat n) data.
Proof.
  intros Hb Hn Hle. pose proof (fill_bounds b Hb) as Hf.
  unfold append. rewrite size_wf by done. simpl.
  destruct (decide (n = 0)) as [->|Hn0].
  { rewrite put_zero by (done || lia). simpl. exists b.
    rewrite take_0, app_nil_r. split; [done|]. split; [done|]. split; [done|]. split; [lia|done]. }
  pose proof (fill_in_last_block b n Hb ltac:(lia) Hle) as Hm.
  destruct (put_in_block b data (fill b) n) as (b' & -> & Hb' & Hf' & Hsp); [done|lia..|].
  simpl. exists b'. split; [done|]. split; [done|].
  rewrite Z.max_r in Hf' by lia. pose proof (splice_length _ _ _ _ Hsp) as Hl.
  split; [rewrite <- !memory_length by done; congruence|]. split; [done|].
  unfold contents. rewrite Hf'. apply splice_inv in Hsp as (? & Hd & ->).
  rewrite length_take in *. pose proof (memory_length b Hb).
  rewrite (assoc_L (++)), take_app_le by (lens).
  apply take_ge. rewrite length_app, !length_take. lia.
Qed.

(** ** Properties *)

(** Appending to a well-formed dynamic buffer whose allocated blocks have room
    returns the old size as the offset, keeps the buffer well-formed, and makes its
    contents the old contents followed by exactly the appended bytes. *)
Theorem append_spec b data n :
  wf b → 0 <= n <= Zlen data → fill b + n <= capacity b →
  ∃ b', append b data n = Some (fill b, b') ∧ wf b' ∧ size b' = Some (fill b + n) ∧
    contents b' = contents b ++ take (Z.to_nat n) data.
Proof.
  intros Hb Hn Hle. destruct (append_fits b data n) as (b' & ? & ? & _ & Hf & ?); [done..|].
  exists b'. split; [done|]. split; [done|]. split; [|done]. by rewrite size_wf, Hf.
Qed.

Lemma append_spec_witness :
  ∃ b', append (mk [new_block] 2) (bs "xyz") 3 = Some (2, b') ∧ wf b' ∧ size b' = Some 5 ∧
    contents b' = [x00; x00] ++ bs "xyz".
Proof.
  apply (append_spec (mk [new_block] 2) (bs "xyz") 3); [|vm_compute; intuition congruence..].
  constructor; [by repeat constructor|vm_compute; intuition congruence|done|done].
Defined.

(** A [put] that stays within one block can be read back by [get], leaves every
    other byte of the buffer's memory unchanged, and extends the size to the end of
    the window when the window reaches past it. *)
Theorem put_get b data off n :
  wf b → 0 <= off → 0 < n → off mod 1024 + n <= 1024 → off + n <= capacity b →
  n <= Zlen data →
  ∃ b', put b data off n = Some (true, b') ∧ wf b' ∧
    get b' off n = Some (Some (take (Z.to_nat n) data)) ∧
    (∀ i : nat, Z.of_nat i < off ∨ off + n <= Z.of_nat i → memory b' !! i = memory b !! i) ∧
    size b' = Some (Z.max (fill b) (off + n)).
Proof.
  intros Hb Ho Hn Hm Hle Hd.
  destruct (put_in_block b data off n) as (b' & ? & Hb' & Hf' & Hsp); [done..|].
  exists b'. split; [done|]. split; [done|].
  assert (Zlen (take (Z.to_nat n) data) = n) as Hl by (lens).
  split; [|split].
  - rewrite get_slice; [|done|lia..|].
    + rewrite <- Hl at 1. by erewrite slice_splice.
    + rewrite <- memory_length, (splice_length _ _ _ _ Hsp), memory_length by done. done.
  - intros i Hi. eapply splice_lookup_ne; [done|]. rewrite Hl. done.
  - by rewrite size_wf, Hf'.
Qed.

Lemma put_get_witness :
  ∃ b', put (mk [new_block; new_block] 7) (bs "abcd") 1030 4 = Some (true, b') ∧ wf b' ∧
    get b' 1030 4 = Some (Some (bs "abcd")) ∧
    (∀ i : nat, Z.of_nat i < 1030 ∨ 1034 <= Z.of_nat i →
       memory b' !! i = memory (mk [new_block; new_block] 7) !! i) ∧
    size b' = Some 1034.
Proof.
  apply (put_get (mk [new_block; new_block] 7) (bs "abcd") 1030 4); try (vm_compute; congruence).
  constructor; [by repeat constructor|vm_compute; intuition congruence|done|done].
Defined.

(** The loop over a full block: the whole block is overwritten with the first
    bytes of [data], and the next block starts over from the first byte. *)
Lemma put_loop_full blk bl data n ap tail :
  length blk = 1024%nat → 1024 < n → n <= Zlen data →
  put_loop (blk :: bl) data 0 n ap tail =
    '(bl', tail') ← put_loop bl data 0 (n - 1024) ap tail;
    Some (take 1024 data :: bl', tail').
Proof.
  intros Hb Hn Hd. cbn [put_loop]. unfold BLOCK_SIZE.
  destruct (Z.eqb_spec n 0); [lia|]. destruct (Z.ltb_spec (1024 - 0) n); [|lia].
  change (1024 - 0) with 1024. rewrite slice_Some by lia. simpl. rewrite drop_0.
  change (Z.to_nat 1024) with 1024%nat.
  assert (length (take 1024 data) = 1024%nat) as Hl by (lens).
  rewrite splice_Some by lia. simpl. rewrite Hl, drop_ge, app_nil_r by lia. done.
Qed.

(** Overwriting two consecutive blocks. *)
Lemma two_blocks_replaced b pre x y post x' y' tail :
  wf b → blocks_list b = pre ++ x :: y :: post → length x' = 1024%nat → length y' = 1024%nat →
  0 <= tail <= BLOCK_SIZE →
  wf (mk (pre ++ x' :: y' :: post) tail) ∧
  capacity (mk (pre ++ x' :: y' :: post) tail) = capacity b.
Proof.
  intros Hb Hbl Hx Hy Ht.
  assert (wf (mk (pre ++ x' :: y :: post) tail)) as Hb1 by (by eapply wf_replace).
  assert (wf (mk (pre ++ x' :: y' :: post) tail)) as Hb2.
  { replace (pre ++ x' :: y' :: post) with ((pre ++ [x']) ++ y' :: post) by (by rewrite <- (assoc_L (++))).
    eapply wf_replace; [exact Hb1| |done..]. simpl. by rewrite <- (assoc_L (++)). }
  split; [done|]. rewrite !capacity_wf by done. simpl. rewrite Hbl, !length_app. done.
Qed.

Lemma put_loop_two x y post data n ap tail :
  length x = 1024%nat → length y = 1024%nat → 1024 < n <= 2048 → n <= Zlen data →
  ∃ y', put_loop (x :: y :: post) data 0 n ap tail =
      Some (take 1024 data :: y' :: post, if ap then n - 1024 else tail) ∧
    length y' = 1024%nat ∧ ∃ r, y' = take (Z.to_nat (n - 1024)) data ++ r.
Proof.
  intros Hx Hy Hn Hd. rewrite put_loop_full by lia.
  destruct (put_loop_one y post data 0 (n - 1024) ap tail) as (y' & -> & Hy' & Hsp);
    [done|lia..|]. exists y'. split; [done|]. split; [done|].
  apply splice_inv in Hsp as (_ & _ & ->). simpl. eauto.
Qed.

(** A defect of [put]: the source pointer is not advanced at a block boundary.
    A block-aligned [put] of between 1025 and 2048 bytes reports success, and reading
    the window back gives the first 1024 bytes of the data followed by the first
    bytes of the data again, instead of the bytes from 1024 on. *)
Theorem put_across_blocks_repeats_data b data off n :
  wf b → 0 <= off → off mod 1024 = 0 → 1024 < n <= 2048 → off + n <= capacity b →
  n <= Zlen data →
  ∃ b', put b data off n = Some (true, b') ∧
    get b' off n = Some (Some (take 1024 data ++ take (Z.to_nat (n - 1024)) data)).
Proof.
  intros Hb Ho Hal Hn Hle Hd.
  pose proof (capacity_wf b Hb) as Hcap. pose proof (wf_cap b Hb) as Hmax.
  destruct (block_split b off Hb ltac:(lia)) as (pre & blk & post & Hbl & Hpre & Hblk & Hcpre).
  pose proof (Z.div_mod off 1024 ltac:(lia)) as Hdm. rewrite Hal in Hdm.
  set (q := off / 1024) in *.
  rewrite Hcap, Hbl, length_app, length_cons in Hle. unfold BLOCK_SIZE in Hle.
  pose proof (wf_blocks b Hb) as Hf. rewrite Hbl in Hf.
  apply Forall_app in Hf as [_ [_ Hfpost]%Forall_cons].
  destruct post as [|blk2 post]; [simpl in Hle; lia|].
  apply Forall_cons in Hfpost as [Hblk2 _]. rewrite length_cons in Hle.
  unfold put. rewrite check_space_fits;
    [|done|lia..|rewrite Hcap, Hbl, length_app, !length_cons; unfold BLOCK_SIZE; lia].
  assert (off + n <= INT_MAX).
  { rewrite Hbl, length_app, !length_cons in Hmax. unfold BLOCK_SIZE in *. lia. }
  cbn [mbind option_bind]. rewrite int_chk_Some by (unfold INT_MIN; lia). simpl.
  rewrite size_wf by done. simpl. destruct (quot_rem_div off Ho) as [-> ->]. fold q. rewrite Hal.
  rewrite block_it_Some by (rewrite Hbl, length_app, length_cons; lia). simpl.
  rewrite Hbl, <- Hpre, Nat2Z.id, take_app_length, drop_app_length.
  destruct (put_loop_two blk blk2 post data n (fill b <? off + n) (tail_offset_in_block b))
    as (blk2' & -> & Hblk2' & [r ->]); [done|done|lia..|]. simpl. eexists. split; [done|].
  pose proof (wf_tail b Hb). destruct (two_blocks_replaced b pre blk blk2 post (take 1024 data)
    (take (Z.to_nat (n - 1024)) data ++ r)
    (if fill b <? off + n then n - 1024 else tail_offset_in_block b)) as [Hb' Hc'];
    [done|done|lens|done|unfold BLOCK_SIZE in *; destruct (_ <? _); lia|].
  rewrite get_slice; [|done|lia..|].
  2: { rewrite Hc', Hcap, Hbl, length_app, !length_cons. unfold BLOCK_SIZE. lia. }
  unfold memory. simpl. rewrite concat_app. simpl.
  rewrite (slice_app_eq (concat pre) (take 1024 data ++ take (Z.to_nat (n - 1024)) data)
    (r ++ concat post)); [done| |lia|].
  - by rewrite <- !(assoc_L (++)).
  - rewrite length_app, !length_take. lia.
Qed.

Lemma put_across_blocks_repeats_data_witness :
  let data := replicate 1024 x41 ++ [x42] in
  ∃ b', put (mk [new_block; new_block] 0) data 0 1025 = Some (true, b') ∧
    get b' 0 1025 = Some (Some (replicate 1024 x41 ++ [x41])).
Proof.
  apply (put_across_blocks_repeats_data (mk [new_block; new_block] 0)
    (replicate 1024 x41 ++ [x42]) 0 1025); try (vm_compute; intuition congruence).
  constructor; [by repeat constructor|vm_compute; intuition congruence|done|vm_compute; congruence].
Defined.

(** The loop of [put] without the tail update succeeds whenever the blocks hold the
    window, and keeps the shape of the blocks. *)
Lemma put_loop_total bl data off n tail :
  Forall (λ blk : list byte, length blk = 1024%nat) bl →
  0 <= off <= 1024 → 0 <= n <= Zlen data → off + n <= Zlen bl * 1024 →
  ∃ bl', put_loop bl data off n false tail = Some (bl', tail) ∧
    length bl' = length bl ∧ Forall (λ blk, length blk = 1024%nat) bl'.
Proof.
  intros Hbl. revert off n. induction Hbl as [|blk bl Hb Hbl IH]; intros off n Ho Hn Hle.
  { simpl in *. destruct (Z.eqb_spec n 0); [by exists []|lia]. }
  rewrite length_cons in Hle. cbn [put_loop].
  destruct (Z.eqb_spec n 0) as [->|Hn0]; [exists (blk :: bl); eauto|].
  unfold BLOCK_SIZE. destruct (Z.ltb_spec (1024 - off) n) as [Hc|Hc].
  - rewrite slice_Some by lia. simpl. rewrite drop_0.
    rewrite splice_Some by (lens). simpl.
    destruct (IH 0 (n - (1024 - off))) as (bl' & -> & Hl & Hf); [lia..|]. simpl.
    eexists. split; [done|]. simpl. split; [by f_equal|]. constructor; [|done].
    rewrite !length_app, !length_take, length_drop. lia.
  - rewrite slice_Some by lia. simpl. rewrite drop_0.
    rewrite splice_Some by (lens). simpl.
    eexists. split; [done|]. split; [done|]. constructor; [|done].
    rewrite !length_app, !length_take, length_drop. lia.
Qed.

Lemma add_blocks_wf b i :
  wf b → blocks_list b ≠ [] → 0 <= i → capacity b + i * 1024 <= INT_MAX →
  wf (add_blocks b i) ∧ capacity (add_blocks b i) = capacity b + i * 1024 ∧
  fill (add_blocks b i) = fill b + i * 1024.
Proof.
  intros Hb Hne Hi Hmax. pose proof (capacity_wf b Hb) as Hc.
  assert (wf (add_blocks b i)) as Hb'.
  { destruct Hb as [Hf Ht Hn Hm]. constructor; simpl; [|done| |].
    - apply Forall_app. split; [done|]. by apply Forall_replicate.
    - intros Hnil. by destruct (blocks_list b).
    - rewrite length_app, length_replicate. unfold BLOCK_SIZE in *. lia. }
  split; [done|]. rewrite (capacity_wf _ Hb'), Hc. unfold fill, add_blocks. simpl.
  rewrite length_app, length_replicate. unfold BLOCK_SIZE.
  destruct (blocks_list b); [done|]. rewrite !length_cons. lia.
Qed.

(** A second defect: [check_space] grows the block list before [put] compares the
    window with [size()], so an [append] that needs one new block leaves the fill
    level of the last block as it was and the reported size grows by exactly one
    block instead of by the appended length. *)
Theorem append_new_block_size b data n :
  wf b → blocks_list b ≠ [] → 0 < n <= 1024 → capacity b < fill b + n →
  capacity b + 1024 <= INT_MAX → n <= Zlen data →
  ∃ b', append b data n = Some (fill b, b') ∧ size b' = Some (fill b + 1024).
Proof.
  intros Hb Hne Hn Hgt Hmax Hd. pose proof (fill_bounds b Hb) as Hf.
  destruct (add_blocks_wf b 1 Hb Hne ltac:(lia) ltac:(lia)) as (Hb1 & Hc1 & Hf1).
  set (b1 := add_blocks b 1) in *. unfold append. rewrite size_wf by done. simpl.
  unfold put, check_space. rewrite int_chk_Some by (unfold INT_MIN; lia). simpl.
  destruct (Z.ltb_spec (capacity b) (fill b + n)); [|lia]. simpl.
  rewrite int_chk_Some by (unfold INT_MIN; lia). simpl.
  replace (if Z.rem _ _ =? 0 then _ else _) with 1.
  2: { destruct (quot_rem_div (fill b + n - capacity b)) as [-> ->]; [lia|].
       destruct (Z.eqb_spec ((fill b + n - capacity b) mod 1024) 0); dlia. }
  fold b1. assert (tail_offset_in_block b = tail_offset_in_block b1) as Htl by done.
  clearbody b1. rewrite Htl. rewrite size_wf by done. simpl.
  destruct (Z.ltb_spec (fill b1) (fill b + n)); [lia|].
  destruct (quot_rem_div (fill b)) as [-> ->]; [lia|].
  pose proof (capacity_wf b1 Hb1) as Hcap1. unfold BLOCK_SIZE in Hcap1.
  rewrite block_it_Some by dlia. simpl.
  destruct (put_loop_total (drop (Z.to_nat (fill b / 1024)) (blocks_list b1)) data
    (fill b mod 1024) n (tail_offset_in_block b1)) as (bl' & -> & Hl & Hfl);
    [apply Forall_drop, Hb1|dlia|lia|rewrite length_drop; dlia|]. simpl.
  eexists. split; [done|].
  assert (Forall (λ blk, length blk = 1024%nat) (take (Z.to_nat (fill b / 1024)) (blocks_list b1)))
    by (apply Forall_take, Hb1).
  rewrite size_wf.
  - replace (fill b + 1024) with (fill b1) by lia. unfold fill. simpl. do 2 f_equal.
    rewrite length_app, Hl, <- length_app, take_drop. done.
  - destruct Hb1 as [_ Ht1 Hn1 Hm1]. constructor; simpl; [by apply Forall_app|done| |].
    + intros [Htk ->]%app_nil. apply Hn1. rewrite <- (take_drop (Z.to_nat (fill b / 1024)) (blocks_list b1)).
      rewrite Htk. simpl. by apply nil_length_inv.
    + rewrite length_app, Hl, <- length_app, take_drop. done.
Qed.


Lemma append_new_block_size_witness :
  ∃ b', append (mk [new_block] 1000) (replicate 100 x41) 100 = Some (1000, b') ∧
    size b' = Some 2024.
Proof.
  apply (append_new_block_size (mk [new_block] 1000) (replicate 100 x41) 100);
    try (vm_compute; intuition congruence).
  constructor; [by repeat constructor|vm_compute; intuition congruence|done|vm_compute; congruence].
Defined.

End DynamicBuffer.

Module FixedBuffer.

(** [base] is the address [bytes] points to, [bytes] the memory found there. *)
Record t := mk {
  length_ : Z;
  tail_offset : Z;
  base : Z;
  bytes : list byte
}.

Definition clear (b : t) : t :=
  mk (length_ b) (tail_offset b) (base b)
     (replicate (Z.to_nat (length_ b)) x00 ++ drop (Z.to_nat (length_ b)) (bytes b)).

Definition new : t := clear (mk 0 0 0 []).

Definition setBuffer (b : t) (addr : Z) (buffer : list byte) (len : Z) : t :=
  clear (mk len 0 addr buffer).

Definition put (b : t) (data : list byte) (offset sz : Z) : option (bool * t) :=
  stop ← int_chk (offset + sz);
  if length_ b <? stop then Some (false, b)
  else
    let tail := if tail_offset b <? stop then stop else tail_offset b in
    d ← slice data 0 sz;
    m ← splice (bytes b) offset d;
    Some (true, mk (length_ b) tail (base b) m).

(** The bytes copied to [data]; the C++ function has no [return] statement. *)
Definition get (b : t) (offset sz : Z) : option (list byte) := slice (bytes b) offset sz.

Definition append (b : t) (data : list byte) (sz : Z) : option (Z * t) :=
  let before_append := tail_offset b in
  '(_, b') ← put b data (tail_offset b) sz;
  Some (before_append, b').

Definition get_address (b : t) (offset : Z) : Z := base b + offset.
Definition size (b : t) : Z := tail_offset b.
Definition capacity (b : t) : Z := length_ b.
(** [delete [] bytes]: the memory is gone, the fields keep their values. *)
Definition destory (b : t) : t := mk (length_ b) (tail_offset b) (base b) [].

Record wf (b : t) : Prop := {
  wf_len : length_ b = Zlen (bytes b);
  wf_tail : 0 <= tail_offset b <= length_ b;
  wf_max : length_ b <= INT_MAX
}.

Definition contents (b : t) : list byte := take (Z.to_nat (tail_offset b)) (bytes b).

Lemma setBuffer_wf b addr m len :
  len = Zlen m → len <= INT_MAX →
  wf (setBuffer b addr m len) ∧ contents (setBuffer b addr m len) = [].
Proof.
  intros -> Hm. unfold setBuffer, clear. simpl. split; [|done].
  constructor; simpl; [|lia|done]. rewrite length_app, length_replicate, length_drop. lia.
Qed.

Lemma put_fits b data off n :
  wf b → 0 <= off → 0 <= n <= Zlen data → off + n <= length_ b →
  ∃ m, splice (bytes b) off (take (Z.to_nat n) data) = Some m ∧
    put b data off n =
      Some (true, mk (length_ b) (Z.max (tail_offset b) (off + n)) (base b) m).
Proof.
  intros [Hl Ht Hm] Ho Hn Hle. unfold put.
  rewrite int_chk_Some by (unfold INT_MIN; lia). simpl.
  destruct (Z.ltb_spec (length_ b) (off + n)); [lia|].
  rewrite slice_Some by lia. simpl. rewrite drop_0.
  rewrite splice_Some by (lens). simpl. eexists. split; [done|].
  do 3 f_equal. destruct (Z.ltb_spec (tail_offset b) (off + n)); lia.
Qed.

Lemma fixed_append_fits b data n :
  wf b → 0 <= n <= Zlen data → tail_offset b + n <= length_ b →
  ∃ b', append b data n = Some (tail_offset b, b') ∧ wf b' ∧ base b' = base b ∧
    length_ b' = length_ b ∧ tail_offset b' = tail_offset b + n ∧
    contents b' = contents b ++ take (Z.to_nat n) data.
Proof.
  intros Hb Hn Hle. pose proof Hb as [Hl Ht Hm]. unfold append.
  destruct (put_fits b data (tail_offset b) n) as (m & Hs & ->); [done|lia..|]. simpl.
  eexists. split; [done|]. simpl. pose proof (splice_length _ _ _ _ Hs).
  split; [constructor; simpl; lia|]. split; [done|]. split; [done|]. split; [lia|].
  apply splice_inv in Hs as (? & ? & ->). unfold contents. simpl.
  rewrite length_take in *.
  rewrite (assoc_L (++)), take_app_le by (lens).
  apply take_ge. rewrite length_app, !length_take. lia.
Qed.

(** [FixedBuffer::put]: a window past the end is refused and changes nothing; a
    window inside the buffer is stored, can be read back, moves the tail only forward
    and leaves all other bytes alone. *)
Theorem put_spec b data off n :
  wf b → 0 <= off → 0 <= n <= Zlen data → off + n <= INT_MAX →
  (length_ b < off + n → put b data off n = Some (false, b)) ∧
  (off + n <= length_ b → ∃ b', put b data off n = Some (true, b') ∧ wf b' ∧
     get b' off n = Some (take (Z.to_nat n) data) ∧
     size b' = Z.max (size b) (off + n) ∧
     ∀ i : nat, Z.of_nat i < off ∨ off + n <= Z.of_nat i → bytes b' !! i = bytes b !! i).
Proof.
  intros Hb Ho Hn Hmx. pose proof Hb as [Hl Ht Hm]. split; intros Hc.
  { unfold put. rewrite int_chk_Some by (unfold INT_MIN; lia). simpl.
    destruct (Z.ltb_spec (length_ b) (off + n)); [done|lia]. }
  destruct (put_fits b data off n) as (m & Hs & ->); [done..|].
  assert (Zlen (take (Z.to_nat n) data) = n) as Hln by (lens).
  pose proof (splice_length _ _ _ _ Hs). eexists. split; [done|].
  split; [constructor; simpl; lia|]. split; [|split; [done|]].
  - unfold get. simpl. rewrite <- Hln at 1. by erewrite slice_splice.
  - intros i Hi. eapply splice_lookup_ne; [done|]. rewrite Hln. done.
Qed.

Lemma put_spec_witness :
  (6 < 4 + 3 → put (mk 6 2 64 (bs "abcdef")) (bs "xyz") 4 3 =
     Some (false, mk 6 2 64 (bs "abcdef"))) ∧
  (4 + 3 <= 6 → ∃ b', put (mk 6 2 64 (bs "abcdef")) (bs "xyz") 4 3 = Some (true, b') ∧ wf b' ∧
     get b' 4 3 = Some (bs "xyz") ∧ size b' = Z.max 2 7 ∧
     ∀ i : nat, Z.of_nat i < 4 ∨ 4 + 3 <= Z.of_nat i → bytes b' !! i = bs "abcdef" !! i).
Proof.
  apply (put_spec (mk 6 2 64 (bs "abcdef")) (bs "xyz") 4 3);
    [constructor|..]; vm_compute; intuition congruence.
Defined.

End FixedBuffer.

(** * The appending interface of [BufferAPI]

    What the classes derived from [BufferAPI] promise to a client that only appends:
    within [buf_room], an append returns the old size and extends the contents. *)

Class BufferAPI (B : Type) := {
  buf_inv : B → Prop;
  buf_contents : B → list byte;
  buf_room : B → Z;
  buf_append : B → list byte → Z → option (Z * B);
  buf_append_ok b d n :
    buf_inv b → 0 <= n <= Zlen d → n <= buf_room b →
    ∃ b', buf_append b d n = Some (Zlen (buf_contents b), b') ∧ buf_inv b' ∧
      buf_contents b' = buf_contents b ++ take (Z.to_nat n) d ∧
      buf_room b' = buf_room b - n
}.

#[export] Program Instance DynamicBuffer_API : BufferAPI DynamicBuffer.t := {
  buf_inv := DynamicBuffer.wf;
  buf_contents := DynamicBuffer.contents;
  buf_room b := DynamicBuffer.capacity b - DynamicBuffer.fill b;
  buf_append := DynamicBuffer.append
}.
Next Obligation.
  intros b d n Hb Hn Hr; simpl in *.
  destruct (DynamicBuffer.append_fits b d n) as (b' & Ha & Hb' & Hc & Hf & Hcc); [done|done|lia|].
  exists b'. split; [|split; [done|split; [done|lia]]]. rewrite Ha. do 2 f_equal.
  unfold DynamicBuffer.contents. rewrite length_take.
  pose proof (DynamicBuffer.fill_bounds b Hb). pose proof (DynamicBuffer.memory_length b Hb). lia.
Qed.

#[export] Program Instance FixedBuffer_API : BufferAPI FixedBuffer.t := {
  buf_inv := FixedBuffer.wf;
  buf_contents := FixedBuffer.contents;
  buf_room b := FixedBuffer.length_ b - FixedBuffer.tail_offset b;
  buf_append := FixedBuffer.append
}.
Next Obligation.
  intros b d n Hb Hn Hr; simpl in *.
  destruct (FixedBuffer.fixed_append_fits b d n) as (b' & Ha & Hb' & _ & Hl & Ht & Hcc); [done|done|lia|].
  exists b'. split; [|split; [done|split; [done|lia]]]. rewrite Ha. do 2 f_equal.
  unfold FixedBuffer.contents. rewrite length_take. destruct Hb. lia.
Qed.

Section append_client.
Context {B : Type} `{!BufferAPI B}.

(** Appending items one after the other; the offsets returned. *)
Fixpoint append_all (b : B) (items : list (list byte)) : option (list Z * B) :=
  match items with
  | [] => Some ([], b)
  | d :: items =>
      '(off, b) ← buf_append b d (Zlen d);
      '(offs, b) ← append_all b items;
      Some (off :: offs, b)
  end.

(** The start offset of each item when laid out from [pos] on. *)
Fixpoint layout (pos : Z) (items : list (list byte)) : list Z :=
  match items with [] => [] | d :: items => pos :: layout (pos + Zlen d) items end.

Lemma append_all_layout b items :
  buf_inv b → Zlen (concat items) <= buf_room b →
  ∃ b', append_all b items = Some (layout (Zlen (buf_contents b)) items, b') ∧ buf_inv b' ∧
    buf_contents b' = buf_contents b ++ concat items.
Proof.
  revert b. induction items as [|d items IH]; intros b Hb Hr; simpl in *.
  { exists b. by rewrite app_nil_r. }
  rewrite length_app in Hr.
  destruct (buf_append_ok b d (Zlen d)) as (b1 & -> & Hb1 & Hc1 & Hr1); [done|lia..|]. simpl.
  rewrite Nat2Z.id, take_ge in Hc1 by lia.
  destruct (IH b1) as (b2 & -> & Hb2 & Hc2); [done|lia|]. simpl.
  exists b2. rewrite Hc2, Hc1, length_app, Nat2Z.inj_add, (assoc_L (++)). done.
Qed.
End append_client.
