(* ===== verification/RwLock.v ===== *)
(** * The spin locks of LibeventHandle (multi_net_io/src/libevent_handle.cc, rw_* functions)

    A lock is one [std::atomic<int>]: positive counts readers, negative counts writers.
    Each operation is a test (a [load], repeated by the lock operations) followed by a
    separate atomic increment or decrement, so another thread can run in between. *)

From S2P Require Import Prelude.

Inductive op := RLock | WLock | RUnlock | WUnlock.

#[export] Instance op_eq_dec : EqDecision op.
Proof. solve_decision. Defined.

(** The test each operation makes on the loaded value. *)
Definition test (o : op) (signal_int : Z) : bool :=
  match o with
  | RLock => negb (signal_int <? 0)     (* while (load() < 0) {} *)
  | WLock => negb (0 <? signal_int)     (* while (load() > 0) {} *)
  | RUnlock => 0 <? signal_int          (* if (load() > 0) *)
  | WUnlock => signal_int <? 0          (* if (load() < 0) *)
  end.

(** The atomic update after the test. *)
Definition update (o : op) (signal_int : Z) : Z :=
  match o with
  | RLock => signal_int + 1
  | WLock => signal_int - 1
  | RUnlock => signal_int - 1
  | WUnlock => signal_int + 1
  end.

(** ** One thread running alone

    [None]: the thread spins for ever. *)

Definition rw_r_lock (signal_int : Z) : option Z :=
  if test RLock signal_int then Some (update RLock signal_int) else None.
Definition rw_w_lock (signal_int : Z) : option Z :=
  if test WLock signal_int then Some (update WLock signal_int) else None.
Definition rw_r_unlock (signal_int : Z) : Z :=
  if test RUnlock signal_int then update RUnlock signal_int else signal_int.
Definition rw_w_unlock (signal_int : Z) : Z :=
  if test WUnlock signal_int then update WUnlock signal_int else signal_int.

(** ** Interleaved threads *)

(** A thread's remaining operations; [passed]: it is between the test and the update of
    the first one. *)
Record thread := Thread { prog : list op; passed : bool }.

Definition is_lock (o : op) : bool :=
  match o with RLock | WLock => true | RUnlock | WUnlock => false end.

(** One atomic action of a thread; [None] when it has finished.  A failed test repeats
    for a lock operation and ends an unlock operation. *)
Definition thread_step (signal_int : Z) (t : thread) : option (Z * thread) :=
  match prog t with
  | [] => None
  | o :: p =>
      if passed t then Some (update o signal_int, Thread p false)
      else if test o signal_int then Some (signal_int, Thread (o :: p) true)
      else if is_lock o then Some (signal_int, t)
      else Some (signal_int, Thread p false)
  end.

Record state := State { signal : Z; threads : list thread }.

Inductive step : state → state → Prop :=
| step_thread i t s ts s' t' :
    ts !! i = Some t → thread_step s t = Some (s', t') →
    step (State s ts) (State s' (<[i := t']> ts)).

(** Running a schedule: the numbers of the threads that take the next action. *)
Fixpoint run (sched : list nat) (st : state) : state :=
  match sched with
  | [] => st
  | i :: sched =>
      run sched
        match threads st !! i with
        | None => st
        | Some t =>
            match thread_step (signal st) t with
            | None => st
            | Some (s', t') => State s' (<[i := t']> (threads st))
            end
        end
  end.

Lemma run_steps sched st : rtc step st (run sched st).
Proof.
  revert st. induction sched as [|i sched IH]; intros [s ts]; simpl; [done|].
  destruct (ts !! i) as [t|] eqn:Ht; [|apply IH].
  destruct (thread_step s t) as [[s' t']|] eqn:E; [|apply IH].
  eapply rtc_l; [by econstructor|apply IH].
Qed.

Definition start (p : list op) : thread := Thread p false.

(** The thread is inside a section it locked: its next operation is the unlock. *)
Definition inside (t : thread) : bool :=
  match prog t with (RUnlock | WUnlock) :: _ => true | _ => false end.
Definition writing (t : thread) : bool :=
  match prog t with WUnlock :: _ => true | _ => false end.

(** ** Sequential use *)

Lemma rw_r_lock_ok s : 0 <= s → rw_r_lock s = Some (s + 1).
Proof. intros. unfold rw_r_lock, test. destruct (Z.ltb_spec s 0); [lia|done]. Qed.
Lemma rw_r_lock_spin s : s < 0 → rw_r_lock s = None.
Proof. intros. unfold rw_r_lock, test. destruct (Z.ltb_spec s 0); [done|lia]. Qed.
Lemma rw_w_lock_ok s : s <= 0 → rw_w_lock s = Some (s - 1).
Proof. intros. unfold rw_w_lock, test. destruct (Z.ltb_spec 0 s); [lia|done]. Qed.
Lemma rw_w_lock_spin s : 0 < s → rw_w_lock s = None.
Proof. intros. unfold rw_w_lock, test. destruct (Z.ltb_spec 0 s); [done|lia]. Qed.
Lemma rw_r_unlock_pos s : 0 <= s → rw_r_unlock (s + 1) = s.
Proof. intros. unfold rw_r_unlock, test. destruct (Z.ltb_spec 0 (s + 1)); simpl; lia. Qed.
Lemma rw_w_unlock_neg s : s <= 0 → rw_w_unlock (s - 1) = s.
Proof. intros. unfold rw_w_unlock, test. destruct (Z.ltb_spec (s - 1) 0); simpl; lia. Qed.

(** ** Readers only *)

(** A program of well-bracketed read sections; [true]: it starts inside one. *)
Inductive reads : bool → list op → Prop :=
| reads_nil : reads false []
| reads_lock p : reads true p → reads false (RLock :: p)
| reads_unlock p : reads false p → reads true (RUnlock :: p).

Definition reader (t : thread) : Prop := reads (inside t) (prog t).

Definition n_inside (ts : list thread) : Z := Z.of_nat (length (filter (λ t, inside t = true) ts)).

Definition b2z (b : bool) : Z := if b then 1 else 0.

Lemma n_inside_cons t ts : n_inside (t :: ts) = b2z (inside t) + n_inside ts.
Proof. unfold n_inside. rewrite filter_cons. destruct (inside t); simpl; lia. Qed.

Lemma n_inside_insert ts i t t' :
  ts !! i = Some t → n_inside (<[i := t']> ts) = n_inside ts - b2z (inside t) + b2z (inside t').
Proof.
  revert i. induction ts as [|u ts IH]; intros [|i] H; simpl in *; [done|done| |].
  - simplify_eq. rewrite !n_inside_cons. lia.
  - rewrite !n_inside_cons, (IH _ H). lia.
Qed.

Lemma n_inside_lookup ts i t : ts !! i = Some t → b2z (inside t) <= n_inside ts.
Proof.
  revert i. induction ts as [|u ts IH]; intros [|i] H; simpl in *; [done|done| |];
    rewrite n_inside_cons.
  - simplify_eq. unfold n_inside. lia.
  - specialize (IH _ H). destruct (inside u); simpl; lia.
Qed.

(** The remaining actions of a thread. *)
Definition work (t : thread) : nat := 2 * length (prog t) - (if passed t then 1 else 0).
Definition total_work (ts : list thread) : nat := sum_list_with work ts.

Lemma total_work_insert ts i t t' :
  ts !! i = Some t → (work t' < work t)%nat → (total_work (<[i := t']> ts) < total_work ts)%nat.
Proof.
  revert i. induction ts as [|u ts IH]; intros [|i] H Hw; simpl in *; [done|done| |].
  - simplify_eq. unfold total_work. simpl. lia.
  - specialize (IH _ H Hw). unfold total_work in *. simpl. lia.
Qed.

(** The state invariant: the signal counts the readers inside. *)
Definition readers_inv (st : state) : Prop :=
  Forall reader (threads st) ∧ Forall (λ t, passed t = true → prog t ≠ []) (threads st) ∧
  signal st = n_inside (threads st).

(** An action of a reader: it never spins, adjusts the signal with its own status, and
    uses up work. *)
Lemma reader_step s t s' t' :
  reader t → b2z (inside t) <= s → thread_step s t = Some (s', t') →
  reader t' ∧ s' = s - b2z (inside t) + b2z (inside t') ∧ (work t' < work t)%nat ∧
  (passed t' = true → prog t' ≠ []).
Proof.
  destruct t as [p pa]. unfold reader, inside, thread_step, work. simpl. intros Hr Hs.
  inversion Hr as [Hp|p' Hr' Hp Hq|p' Hr' Hp Hq]; destruct p as [|[] p0]; simplify_eq; simpl in *.
  - done.
  - destruct pa.
    + intros [= <- <-]. simpl. inversion Hr'; subst; simpl; (split; [by constructor|]); lia.
    + destruct (Z.ltb_spec s 0); [lia|]. intros [= <- <-]. simpl. split; [done|]. split; [lia|].
      split; [lia|done].
  - destruct pa.
    + intros [= <- <-]. simpl. inversion Hr'; subst; simpl; (split; [by constructor|]); lia.
    + destruct (Z.ltb_spec 0 s); [|lia]. intros [= <- <-]. simpl. split; [done|]. split; [lia|].
      split; [lia|done].
Qed.

Lemma step_inv st st' :
  step st st' → ∃ i t t', threads st !! i = Some t ∧
    thread_step (signal st) t = Some (signal st', t') ∧ threads st' = <[i := t']> (threads st).
Proof. intros []. naive_solver. Qed.

Lemma readers_inv_step st st' :
  readers_inv st → step st st' →
  readers_inv st' ∧ (total_work (threads st') < total_work (threads st))%nat.
Proof.
  intros (Hr & Hp & Hs) (i & t & t' & Ht & Hstep & Hts)%step_inv.
  pose proof (Forall_lookup_1 _ _ _ _ Hr Ht) as Hrt.
  pose proof (n_inside_lookup _ _ _ Ht) as Hin. rewrite <- Hs in Hin.
  destruct (reader_step _ _ _ _ Hrt Hin Hstep) as (Hr' & Hs' & Hw & Hp').
  split; [|rewrite Hts; by eapply total_work_insert].
  split; [rewrite Hts; by apply Forall_insert|].
  split; [rewrite Hts; by apply Forall_insert|].
  rewrite Hts, (n_inside_insert _ _ _ _ Ht). lia.
Qed.

Lemma readers_inv_steps st st' : readers_inv st → rtc step st st' → readers_inv st'.
Proof.
  intros Hi Hs. revert Hi. induction Hs as [|x y z Hxy _ IH]; [done|]. intros Hi.
  apply IH. by apply (readers_inv_step x y).
Qed.

Lemma readers_inv_start progs :
  Forall (reads false) progs → readers_inv (State 0 (start <$> progs)).
Proof.
  intros H. split; [|split]; simpl.
  - apply Forall_fmap. eapply Forall_impl; [done|]. intros p Hp. unfold reader, start, inside.
    simpl. inversion Hp; subst; simpl; by constructor.
  - apply Forall_fmap. by apply Forall_true.
  - induction H as [|p ps Hp Hps IH]; [done|].
    rewrite fmap_cons, n_inside_cons, <- IH. inversion Hp; done.
Qed.

(** A reader that has not finished can act. *)
Lemma reader_progress s t :
  0 <= s → prog t ≠ [] → ∃ r, thread_step s t = Some r.
Proof.
  intros Hs Hp. unfold thread_step. destruct (prog t) as [|o p]; [done|].
  destruct (passed t), (test o s), (is_lock o); eauto.
Qed.

Lemma n_inside_finished ts : Forall (λ t, prog t = []) ts → n_inside ts = 0.
Proof.
  induction 1 as [|t ts Ht _ IH]; [done|]. rewrite n_inside_cons, IH. unfold inside. by rewrite Ht.
Qed.

(** Threads that only take well-bracketed read sections are safe under every
    interleaving: in each reachable state the signal equals the number of threads inside
    a section, every action brings the threads closer to the end (no spinning), and the
    only states without a next action are those where all threads have finished, with
    the signal back at zero. *)
Theorem readers_only_correct progs st :
  Forall (reads false) progs → rtc step (State 0 (start <$> progs)) st →
  signal st = n_inside (threads st) ∧
  (∀ st', step st st' → (total_work (threads st') < total_work (threads st))%nat) ∧
  ((∀ st', ¬ step st st') → Forall (λ t, prog t = []) (threads st) ∧ signal st = 0).
Proof.
  intros Hps Hst.
  pose proof (readers_inv_steps _ _ (readers_inv_start _ Hps) Hst) as Hi.
  split; [apply Hi|]. split; [intros; by apply readers_inv_step|]. intros Hstuck.
  assert (Forall (λ t, prog t = []) (threads st)) as Hf.
  { apply Forall_lookup. intros i t Ht. destruct (decide (prog t = [])) as [|Hne]; [done|].
    exfalso. destruct Hi as (_ & _ & Hs).
    destruct (reader_progress (signal st) t) as [[s' t'] Hstep]; [|done|].
    - pose proof (n_inside_lookup _ _ _ Ht). rewrite Hs. unfold n_inside. lia.
    - apply (Hstuck (State s' (<[i := t']> (threads st)))). destruct st. by econstructor. }
  split; [done|]. destruct Hi as (_ & _ & ->). by apply n_inside_finished.
Qed.

Lemma readers_only_correct_witness :
  let progs := [[RLock; RUnlock]; [RLock; RUnlock; RLock; RUnlock]] in
  let st := run [0; 1; 0; 1]%nat (State 0 (start <$> progs)) in
  signal st = n_inside (threads st) ∧
  (∀ st', step st st' → (total_work (threads st') < total_work (threads st))%nat) ∧
  ((∀ st', ¬ step st st') → Forall (λ t, prog t = []) (threads st) ∧ signal st = 0).
Proof.
  intros progs st. apply (readers_only_correct progs st); [|apply run_steps].
  repeat constructor.
Defined.

(** ** What the write lock does not exclude *)

Lemma writers_enter k m :
  rtc step (State (- Z.of_nat k) (replicate k (start [WUnlock]) ++ replicate m (start [WLock; WUnlock])))
    (State (- Z.of_nat (k + m)) (replicate (k + m) (start [WUnlock]))).
Proof.
  revert k. induction m as [|m IH]; intros k.
  { simpl. rewrite Nat.add_0_r, app_nil_r. done. }
  assert (∀ t, (replicate k (start [WUnlock]) ++ t :: replicate m (start [WLock; WUnlock])) !! k =
    Some t) as Hk.
  { intros t. rewrite lookup_app_r by (lens).
    by rewrite length_replicate, Nat.sub_diag. }
  assert (∀ t u, <[k := u]> (replicate k (start [WUnlock]) ++ t :: replicate m (start [WLock; WUnlock])) =
    replicate k (start [WUnlock]) ++ u :: replicate m (start [WLock; WUnlock])) as Hi.
  { intros t u. rewrite insert_app_r_alt by (lens).
    by rewrite length_replicate, Nat.sub_diag. }
  simpl. eapply rtc_l.
  { eapply (step_thread k); [apply Hk|]. unfold thread_step. simpl.
    destruct (Z.ltb_spec 0 (- Z.of_nat k)); [lia|]. done. }
  rewrite Hi. eapply rtc_l.
  { eapply (step_thread k); [apply Hk|]. done. }
  rewrite Hi. simpl. specialize (IH (S k)). rewrite replicate_S_end, <- (assoc_L (++)) in IH.
  replace (- Z.of_nat k - 1) with (- Z.of_nat (S k)) by lia.
  replace (k + S m)%nat with (S k + m)%nat by lia. done.
Qed.

(** C30. A defect of the lock: [rw_w_lock] only waits for readers, so any number of
    writers can be inside their sections at once; and because the test and the update
    are separate actions, a reader and a writer can be inside at once, with the signal
    at zero as if the lock were free. *)
Theorem rw_lock_excludes_nobody :
  (∀ n, ∃ st, rtc step (State 0 (replicate n (start [WLock; WUnlock]))) st ∧
     threads st = replicate n (start [WUnlock]) ∧ Forall (λ t, writing t = true) (threads st)) ∧
  (∃ st r w, rtc step (State 0 [start [RLock; RUnlock]; start [WLock; WUnlock]]) st ∧
     threads st = [r; w] ∧ inside r = true ∧ writing w = true ∧ signal st = 0).
Proof.
  split.
  - intros n. eexists. split; [exact (writers_enter 0 n)|]. simpl. split; [done|].
    by apply Forall_replicate.
  - eexists _, _, _. split; [exact (run_steps [0; 1; 0; 1]%nat _)|]. vm_compute. done.
Qed.

(** A read lock that is never released stops every writer: when the signal is
    positive and the remaining threads are waiting for the write lock (or finished), no
    action changes the state any more. *)
Theorem leaked_reader_blocks_writers st st' :
  0 < signal st →
  Forall (λ t, passed t = false ∧ (prog t = [] ∨ head (prog t) = Some WLock)) (threads st) →
  rtc step st st' → st' = st.
Proof.
  intros Hs Hw Hst. induction Hst as [|st st1 st2 H1 _ IH]; [done|].
  assert (st1 = st) as ->; [|by apply IH].
  apply step_inv in H1 as (i & t & t' & Ht & Hstep & Hts).
  destruct (Forall_lookup_1 _ _ _ _ Hw Ht) as [Hp Hh].
  unfold thread_step in Hstep. destruct (prog t) as [|o p] eqn:Ep; [done|].
  destruct Hh as [|[= ->]]; [done|]. rewrite Hp in Hstep. simpl in Hstep.
  destruct (Z.ltb_spec 0 (signal st)); [|lia]. simpl in Hstep. injection Hstep as Hs1 <-.
  destruct st, st1; simpl in *. subst. by rewrite list_insert_id.
Qed.

Lemma leaked_reader_blocks_writers_witness :
  run [0; 0; 1]%nat (State 1 [start [WLock; WUnlock]; start [WLock; WUnlock]]) =
  State 1 [start [WLock; WUnlock]; start [WLock; WUnlock]].
Proof.
  apply (leaked_reader_blocks_writers (State 1 [start [WLock; WUnlock]; start [WLock; WUnlock]]));
    [done| |apply run_steps].
  do 2 (apply Forall_cons; split; [by auto|]). constructor.
Defined.
