(* ===== verification/EventMessage.v ===== *)
(** * Event messages (class EventMessage, multi_net_io/src/event_mess_handle.cc and
    include/event_mess_handle.h)

    An event message is serialised into one string: a cursor of six little-endian
    [uint32_t] words (offsets and the payload size), four NUL-terminated names and the
    payload.  A received message keeps pointers into its own copy of that string. *)

From S2P Require Import Prelude.

(** ** Errors *)

Inductive EventMessageErrorNo :=
| SUCCESS | INCOMPLETE_MESSAGE | GROUP_NOT_FOUND | MESS_TYPE_NOT_FOUND
| NONE_UNPROCESSED_MESSAGE | INVALID_HOST | NONE_REQUESTED_MESSAGE.

#[export] Instance EventMessageErrorNo_eq_dec : EqDecision EventMessageErrorNo.
Proof. solve_decision. Defined.

Definition errorno_val (e : EventMessageErrorNo) : Z :=
  match e with
  | SUCCESS => 0 | INCOMPLETE_MESSAGE => 1 | GROUP_NOT_FOUND => 2 | MESS_TYPE_NOT_FOUND => 3
  | NONE_UNPROCESSED_MESSAGE => 4 | INVALID_HOST => 5 | NONE_REQUESTED_MESSAGE => 6
  end.

Definition EVENT_ERROR_STRING : list (list byte) :=
  bs <$> ["The event message has none error"; "The message is incomplete";
          "Can't found this message group"; "Can't found this message type";
          "No outstanding messages"; "Invalid host"; "None requested messages"]%string.

Definition getEventErrorStr (no : EventMessageErrorNo) : option (list byte) :=
  EVENT_ERROR_STRING !! Z.to_nat (errorno_val no).

(** ** Messages *)

(** What a [const char *] field points to: memory outside of the message, given by the
    bytes found there, or an offset in the message's own [buffer_str]. *)
Inductive ptr := Null | Ext (mem : list byte) | Buf (off : Z).

#[export] Instance ptr_eq_dec : EqDecision ptr.
Proof. solve_decision. Defined.

Record t := mk {
  group_name : ptr;
  mess_type : ptr;
  send_host_name : ptr;
  recive_host_name : ptr;
  message : ptr;
  message_size : Z;
  error_no : EventMessageErrorNo;
  will_send : bool;
  will_recive : bool;
  cursor : bool;             (* points to the start of buffer_str, or null *)
  buffer_str : list byte;
  buffer_size : Z
}.

#[export] Instance eq_dec : EqDecision t.
Proof. solve_decision. Defined.

(** [clear()], also the default constructor. *)
Definition clear : t := mk Null Null Null Null Null 0 SUCCESS false false false [] 0.

Definition prepare_send (m : t) (g_name m_type r_host mess : list byte) (mess_size : Z) : t :=
  mk (Ext g_name) (Ext m_type) (send_host_name m) (Ext r_host) (Ext mess) mess_size
     SUCCESS true false (cursor m) (buffer_str m) (buffer_size m).

Definition prepare_recive (m : t) (g_name msg_type : list byte) : t :=
  mk (Ext g_name) (Ext msg_type) (send_host_name m) (recive_host_name m) (message m)
     (message_size m) (error_no m) false true (cursor m) (buffer_str m) (buffer_size m).

Definition set_error (m : t) (e : EventMessageErrorNo) : t :=
  mk (group_name m) (mess_type m) (send_host_name m) (recive_host_name m) (message m)
     (message_size m) e (will_send m) (will_recive m) (cursor m) (buffer_str m) (buffer_size m).

Definition set_send_host_name (m : t) (p : ptr) : t :=
  mk (group_name m) (mess_type m) p (recive_host_name m) (message m)
     (message_size m) (error_no m) (will_send m) (will_recive m) (cursor m) (buffer_str m)
     (buffer_size m).

Definition set_buffer (m : t) (b : list byte) (n : Z) : t :=
  mk (group_name m) (mess_type m) (send_host_name m) (recive_host_name m) (message m)
     (message_size m) (error_no m) (will_send m) (will_recive m) (cursor m) b n.

(** The memory behind [buffer_str.c_str()]. *)
Definition c_str (s : list byte) : list byte := s ++ [x00].

(** The C string a field points to. *)
Definition read_cstr (m : t) (p : ptr) : option (list byte) :=
  match p with
  | Null => None
  | Ext s => if decide (no_nul s) then Some s else None
  | Buf off => cstr_at (c_str (buffer_str m)) off
  end.

(** [n] bytes of the memory a field points to. *)
Definition read_mem (m : t) (p : ptr) (n : Z) : option (list byte) :=
  match p with
  | Null => None
  | Ext s => slice s 0 n
  | Buf off => slice (c_str (buffer_str m)) off n
  end.

(** ** Serialisation *)

Definition sizeof_EventMessageCursor : Z := 24.

(** [MESSAGE_CURSOR_PTR->field = v], the field at byte [off] of the cursor. *)
Definition store_cursor (buf : list byte) (off v : Z) : option (list byte) :=
  splice buf off (le_bytes 4 v).

(** The pointer of a message about to be serialised; a pointer into [buffer_str] dangles
    once [buffer_str = ""] has run. *)
Definition source (p : ptr) : option (list byte) :=
  match p with Ext s => Some s | _ => None end.

(** One name: the offset goes to the cursor, the bytes and a NUL to the end. *)
Definition put_name (cursor_off : Z) (p : ptr) (st : list byte * Z) : option (list byte * Z) :=
  let '(buf, buffer_size) := st in
  buf ← store_cursor buf cursor_off buffer_size;
  s ← source p;
  if decide (no_nul s) then
    let buf := buf ++ replicate (Z.to_nat (Zlen s + 1)) x00 in
    buf ← splice buf buffer_size s;
    Some (buf, uint32 (buffer_size + (Zlen s + 1)))
  else None.

Definition init_buffer_str (m : t) : option t :=
  let buf := replicate (Z.to_nat sizeof_EventMessageCursor) x00 in
  st ← put_name 0 (group_name m) (buf, sizeof_EventMessageCursor);
  st ← put_name 4 (mess_type m) st;
  st ← put_name 8 (send_host_name m) st;
  '(buf, bsz) ← put_name 12 (recive_host_name m) st;
  buf ← store_cursor buf 16 bsz;
  buf ← store_cursor buf 20 (message_size m);
  let buf := buf ++ replicate (Z.to_nat (message_size m)) x00 in
  src ← source (message m);
  d ← slice src 0 (message_size m);
  buf ← splice buf bsz d;
  Some (mk (group_name m) (mess_type m) (send_host_name m) (recive_host_name m) (message m)
           (message_size m) (error_no m) (will_send m) (will_recive m) true buf
           (uint32 (bsz + message_size m))).

Definition init_message_ptr (m : t) : option t :=
  if buffer_size m <=? sizeof_EventMessageCursor then Some m
  else
    let c := c_str (buffer_str m) in
    g ← word_at c 0; ty ← word_at c 4; s ← word_at c 8; r ← word_at c 12;
    mo ← word_at c 16; ms ← word_at c 20;
    Some (mk (Buf g) (Buf ty) (Buf s) (Buf r) (Buf mo) ms (error_no m) (will_send m)
             (will_recive m) true (buffer_str m) (buffer_size m)).

(** [dst.copy(src)]; also the copy constructor, where [dst] is the uninitialised object. *)
Definition copy (dst src : t) : option t :=
  init_message_ptr (set_buffer dst (buffer_str src) (buffer_size src)).

(** ** What a message says *)

Record content := Content {
  c_group : list byte; c_type : list byte; c_send : list byte; c_recive : list byte;
  c_payload : list byte
}.

#[export] Instance content_eq_dec : EqDecision content.
Proof. solve_decision. Defined.

(** The four names and the payload read through the pointers. *)
Definition read (m : t) : option content :=
  g ← read_cstr m (group_name m); ty ← read_cstr m (mess_type m);
  s ← read_cstr m (send_host_name m); r ← read_cstr m (recive_host_name m);
  p ← read_mem m (message m) (message_size m);
  Some (Content g ty s r p).

Definition names_ok (c : content) : Prop :=
  no_nul (c_group c) ∧ no_nul (c_type c) ∧ no_nul (c_send c) ∧ no_nul (c_recive c).

(** The length of the string a message is serialised to. *)
Definition wire_size (c : content) : Z :=
  24 + (Zlen (c_group c) + 1) + (Zlen (c_type c) + 1) + (Zlen (c_send c) + 1) +
  (Zlen (c_recive c) + 1) + Zlen (c_payload c).

(** The message is ready to be serialised and says [c]. *)
Definition ready (m : t) (c : content) : Prop :=
  group_name m = Ext (c_group c) ∧ mess_type m = Ext (c_type c) ∧
  send_host_name m = Ext (c_send c) ∧ recive_host_name m = Ext (c_recive c) ∧
  (∃ rest, message m = Ext (c_payload c ++ rest)) ∧ message_size m = Zlen (c_payload c).

(** ** Serialising *)

(** A cursor holding the words [ws]. *)
Definition cur (ws : list Z) : list byte := concat (le_bytes 4 <$> ws).

Lemma cur_length ws : Zlen (cur ws) = 4 * Zlen ws.
Proof.
  induction ws; [done|]. unfold cur in *.
  rewrite fmap_cons, concat_cons, length_app, le_bytes_length, length_cons. lia.
Qed.

Lemma cur_split ws (i : nat) v w :
  ws !! i = Some w →
  cur (<[i := v]> ws) = cur (take i ws) ++ le_bytes 4 v ++ cur (drop (S i) ws).
Proof.
  intros Hw. rewrite insert_take_drop by (by eapply lookup_lt_Some).
  unfold cur. by rewrite fmap_app, fmap_cons, concat_app, concat_cons.
Qed.

Lemma cur_split_id ws (i : nat) w :
  ws !! i = Some w → cur ws = cur (take i ws) ++ le_bytes 4 w ++ cur (drop (S i) ws).
Proof. intros Hw. rewrite <- (cur_split _ _ w w Hw). by rewrite list_insert_id. Qed.

Lemma store_cursor_cur ws body (i : nat) v :
  (i < length ws)%nat →
  store_cursor (cur ws ++ body) (4 * Z.of_nat i) v = Some (cur (<[i := v]> ws) ++ body).
Proof.
  intros Hi. destruct (lookup_lt_is_Some_2 ws i Hi) as [w Hw].
  rewrite (cur_split _ _ v w Hw), <- !(assoc_L (++)). apply splice_app_eq with (le_bytes 4 w).
  - by rewrite (cur_split_id _ _ w Hw), <- !(assoc_L (++)).
  - rewrite cur_length, length_take. lia.
  - by rewrite !le_bytes_length.
Qed.

Lemma word_at_cur ws rest (i : nat) w :
  ws !! i = Some w → 0 <= w < 2 ^ 32 → word_at (cur ws ++ rest) (4 * Z.of_nat i) = Some w.
Proof.
  intros Hw Hr. unfold word_at. rewrite (cur_split_id _ _ w Hw).
  rewrite (slice_app_eq (cur (take i ws)) (le_bytes 4 w) (cur (drop (S i) ws) ++ rest)).
  - by apply (f_equal Some), le_val_bytes4.
  - by rewrite <- !(assoc_L (++)).
  - rewrite cur_length, length_take. pose proof (lookup_lt_Some _ _ _ Hw). lia.
  - by rewrite le_bytes_length.
Qed.

Lemma put_name_spec ws (i : nat) body s sz :
  (i < length ws)%nat → sz = Zlen (cur ws ++ body) → no_nul s → sz + Zlen s + 1 < 2 ^ 32 →
  put_name (4 * Z.of_nat i) (Ext s) (cur ws ++ body, sz) =
    Some (cur (<[i := sz]> ws) ++ body ++ s ++ [x00], sz + Zlen s + 1).
Proof.
  intros Hi Hsz Hs Hlt. unfold put_name. rewrite store_cursor_cur by done. simpl.
  rewrite decide_True by done.
  replace (Z.to_nat (Zlen s + 1)) with (length s + 1)%nat by lia. rewrite replicate_add.
  rewrite (splice_app_eq (cur (<[i := sz]> ws) ++ body) (replicate (length s) x00) s [x00]).
  - simpl. rewrite uint32_id by lia. rewrite <- !(assoc_L (++)). do 2 f_equal. lia.
  - by rewrite <- !(assoc_L (++)).
  - rewrite Hsz, !length_app, !Nat2Z.inj_add, !cur_length, length_insert. done.
  - by rewrite length_replicate.
Qed.

Definition wire_words (c : content) : list Z :=
  let o2 := 24 + Zlen (c_group c) + 1 in
  let o3 := o2 + Zlen (c_type c) + 1 in
  let o4 := o3 + Zlen (c_send c) + 1 in
  let o5 := o4 + Zlen (c_recive c) + 1 in
  [24; o2; o3; o4; o5; Zlen (c_payload c)].

Definition wire_names (c : content) : list byte :=
  c_group c ++ [x00] ++ c_type c ++ [x00] ++ c_send c ++ [x00] ++ c_recive c ++ [x00].

(** The string a message is serialised to. *)
Definition wire (c : content) : list byte := cur (wire_words c) ++ wire_names c ++ c_payload c.

Lemma wire_length c : Zlen (wire c) = wire_size c.
Proof.
  unfold wire, wire_size, wire_names. rewrite length_app, Nat2Z.inj_add, cur_length.
  rewrite !length_app. simpl. lia.
Qed.

(** The next name of the string. *)
Ltac put_next i :=
  rewrite (put_name_spec _ i);
    [cbn [mbind option_bind list_insert insert]|simpl; lia
    |rewrite !length_app, !Nat2Z.inj_add, !cur_length; simpl; lia|done|lia].

(** The string built by [init_buffer_str]. *)
Lemma init_buffer_str_wire m c :
  ready m c → names_ok c → wire_size c < 2 ^ 32 →
  ∃ m', init_buffer_str m = Some m' ∧ buffer_str m' = wire c ∧ buffer_size m' = wire_size c ∧
    error_no m' = error_no m.
Proof.
  intros (Hg & Ht & Hs & Hr & [rest Hm] & Hms) (Ng & Nt & Ns & Nr) Hlt.
  pose proof (wire_length c) as Hwl. unfold wire_size in *.
  unfold init_buffer_str. rewrite Hg, Ht, Hs, Hr, Hm, Hms.
  change (replicate (Z.to_nat sizeof_EventMessageCursor) x00) with (cur [0;0;0;0;0;0] ++ []).
  unfold sizeof_EventMessageCursor.
  put_next 0%nat. put_next 1%nat. put_next 2%nat. put_next 3%nat.
  rewrite (store_cursor_cur _ _ 4) by (simpl; lia). cbn [mbind option_bind list_insert insert].
  rewrite (store_cursor_cur _ _ 5) by (simpl; lia). cbn [mbind option_bind list_insert insert source].
  rewrite (slice_app_eq [] (c_payload c) rest) by done. cbn [mbind option_bind].
  rewrite (splice_app_eq (cur (wire_words c) ++ wire_names c)
     (replicate (Z.to_nat (Zlen (c_payload c))) x00) (c_payload c) []); cbn [mbind option_bind].
  - eexists. split; [done|]. cbn [buffer_str buffer_size error_no]. rewrite uint32_id by lia.
    split; [|split; [lia|done]]. unfold wire. by rewrite app_nil_r, (assoc_L (++)).
  - unfold wire_names. by rewrite app_nil_r, <- !(assoc_L (++)).
  - unfold wire, wire_names in *. rewrite !length_app, !Nat2Z.inj_add, cur_length. simpl. lia.
  - rewrite length_replicate. lia.
Qed.

(** ** Reading a serialised message back *)

Lemma word_at_wire c rest (i : nat) w :
  wire_words c !! i = Some w → 0 <= w < 2 ^ 32 →
  word_at (wire c ++ rest) (4 * Z.of_nat i) = Some w.
Proof. unfold wire. rewrite <- (assoc_L (++)). apply word_at_cur. Qed.

(** The message a serialised string is decoded to. *)
Definition decoded (m : t) (c : content) : t :=
  let o2 := 24 + Zlen (c_group c) + 1 in
  let o3 := o2 + Zlen (c_type c) + 1 in
  let o4 := o3 + Zlen (c_send c) + 1 in
  let o5 := o4 + Zlen (c_recive c) + 1 in
  mk (Buf 24) (Buf o2) (Buf o3) (Buf o4) (Buf o5) (Zlen (c_payload c)) (error_no m)
     (will_send m) (will_recive m) true (wire c) (wire_size c).

Lemma init_message_ptr_wire m c :
  buffer_str m = wire c → buffer_size m = wire_size c → wire_size c < 2 ^ 32 →
  init_message_ptr m = Some (decoded m c).
Proof.
  intros Hb Hs Hlt. unfold init_message_ptr. rewrite Hb, Hs. unfold c_str.
  destruct (Z.leb_spec (wire_size c) sizeof_EventMessageCursor) as [Hle|_];
    unfold wire_size, sizeof_EventMessageCursor in *; [lia|].
  assert (∀ i w, wire_words c !! i = Some w → 0 <= w < 2 ^ 32 →
    word_at (wire c ++ [x00]) (4 * Z.of_nat i) = Some w) as Hw by (intros; by apply word_at_wire).
  pose proof (Hw 0%nat _ eq_refl ltac:(lia)) as H0. pose proof (Hw 1%nat _ eq_refl ltac:(lia)) as H1.
  pose proof (Hw 2%nat _ eq_refl ltac:(lia)) as H2. pose proof (Hw 3%nat _ eq_refl ltac:(lia)) as H3.
  pose proof (Hw 4%nat _ eq_refl ltac:(lia)) as H4. pose proof (Hw 5%nat _ eq_refl ltac:(lia)) as H5.
  change (4 * Z.of_nat 0) with 0 in H0. change (4 * Z.of_nat 1) with 4 in H1.
  change (4 * Z.of_nat 2) with 8 in H2. change (4 * Z.of_nat 3) with 12 in H3.
  change (4 * Z.of_nat 4) with 16 in H4. change (4 * Z.of_nat 5) with 20 in H5.
  by rewrite H0, H1, H2, H3, H4, H5.
Qed.

Lemma read_decoded m c : names_ok c → read (decoded m c) = Some c.
Proof.
  intros (Ng & Nt & Ns & Nr). pose proof (cur_length (wire_words c)) as Hcl.
  change (4 * Zlen (wire_words c)) with 24 in Hcl.
  unfold read, decoded, read_cstr, read_mem, c_str. cbn [group_name mess_type send_host_name
    recive_host_name message message_size buffer_str].
  assert (∀ a s k off, wire c ++ [x00] = a ++ s ++ [x00] ++ k → no_nul s → off = Zlen a →
    cstr_at (wire c ++ [x00]) off = Some s) as Hc by (intros ? ? ? ? -> ? ->; by apply cstr_at_app).
  set (h := cur (wire_words c)) in *.
  set (o2 := 24 + Zlen (c_group c) + 1). set (o3 := o2 + Zlen (c_type c) + 1).
  set (o4 := o3 + Zlen (c_send c) + 1). set (o5 := o4 + Zlen (c_recive c) + 1).
  rewrite (Hc h (c_group c) (c_type c ++ [x00] ++ c_send c ++ [x00] ++ c_recive c ++ [x00] ++
    c_payload c ++ [x00]) 24); [|unfold wire, wire_names; by rewrite <- !(assoc_L (++))|done|lia].
  cbn [mbind option_bind].
  rewrite (Hc (h ++ c_group c ++ [x00]) (c_type c) (c_send c ++ [x00] ++ c_recive c ++ [x00] ++
    c_payload c ++ [x00]) o2);
    [|unfold wire, wire_names; by rewrite <- !(assoc_L (++))|done|rewrite !length_app; simpl; lia].
  cbn [mbind option_bind].
  rewrite (Hc (h ++ c_group c ++ [x00] ++ c_type c ++ [x00]) (c_send c) (c_recive c ++ [x00] ++
    c_payload c ++ [x00]) o3);
    [|unfold wire, wire_names; by rewrite <- !(assoc_L (++))|done|rewrite !length_app; simpl; lia].
  cbn [mbind option_bind].
  rewrite (Hc (h ++ c_group c ++ [x00] ++ c_type c ++ [x00] ++ c_send c ++ [x00]) (c_recive c)
    (c_payload c ++ [x00]) o4);
    [|unfold wire, wire_names; by rewrite <- !(assoc_L (++))|done|rewrite !length_app; simpl; lia].
  cbn [mbind option_bind].
  rewrite (slice_app_eq (h ++ wire_names c) (c_payload c) [x00]).
  - simpl. by destruct c.
  - unfold wire, wire_names. by rewrite <- !(assoc_L (++)).
  - unfold wire_names. rewrite !length_app. simpl. lia.
  - done.
Qed.

Lemma read_fields m c :
  read m = Some c →
  read_cstr m (group_name m) = Some (c_group c) ∧ read_cstr m (mess_type m) = Some (c_type c) ∧
  read_cstr m (send_host_name m) = Some (c_send c) ∧
  read_cstr m (recive_host_name m) = Some (c_recive c) ∧
  read_mem m (message m) (message_size m) = Some (c_payload c).
Proof.
  unfold read. destruct (read_cstr m (group_name m)) as [g|]; simpl; [|done].
  destruct (read_cstr m (mess_type m)) as [ty|]; simpl; [|done].
  destruct (read_cstr m (send_host_name m)); simpl; [|done].
  destruct (read_cstr m (recive_host_name m)); simpl; [|done].
  destruct (read_mem _ _ _); simpl; [|done]. by intros [= <-].
Qed.

(** C20. Serialising and deserialising are inverse: a message that is ready to be sent and
    says [c] (names without NUL, total size below 2^32) is turned into a string of
    exactly [wire_size c] bytes, and any message object copied from it, whatever it held
    before, reads back as [c]. *)
Theorem event_message_roundtrip m c :
  ready m c → names_ok c → wire_size c < 2 ^ 32 →
  ∃ m', init_buffer_str m = Some m' ∧ Zlen (buffer_str m') = buffer_size m' ∧
    buffer_size m' = wire_size c ∧
    ∀ d, ∃ d', copy d m' = Some d' ∧ read d' = Some c.
Proof.
  intros Hm Hc Hlt. destruct (init_buffer_str_wire m c) as (m' & Hi & Hb & Hs & _); [done..|].
  exists m'. split; [done|]. rewrite Hb, Hs, wire_length. split; [done|]. split; [done|].
  intros d. eexists. split; [|by apply read_decoded].
  unfold copy. rewrite Hb, Hs. by apply init_message_ptr_wire.
Qed.

Lemma event_message_roundtrip_witness :
  let m := set_send_host_name (prepare_send clear (bs "g") (bs "t") (bs "r") (bs "payload") 7)
             (Ext (bs "s")) in
  ∃ m', init_buffer_str m = Some m' ∧ Zlen (buffer_str m') = buffer_size m' ∧
    buffer_size m' = 39 ∧
    ∀ d, ∃ d', copy d m' = Some d' ∧
      read d' = Some (Content (bs "g") (bs "t") (bs "s") (bs "r") (bs "payload")).
Proof.
  apply (event_message_roundtrip _ (Content (bs "g") (bs "t") (bs "s") (bs "r") (bs "payload")));
    [|repeat split; apply (bool_decide_unpack _); vm_compute; exact I|done].
  repeat split. by exists [].
Defined.

Lemma word_at_range m off w : word_at m off = Some w → 0 <= w < 2 ^ 32.
Proof.
  unfold word_at. destruct (slice m off 4) as [l|] eqn:E; [|done]. intros [= <-].
  pose proof (le_val_range l) as Hr. apply slice_length in E. by rewrite E in Hr.
Qed.

(** [init_message_ptr] does not validate the offsets it takes from the received
    string.  For every string longer than a cursor it succeeds, and when the first word
    lies past the end of the string, reading the group name of the resulting message is
    an access outside of its memory. *)
Theorem init_message_ptr_unchecked m :
  24 < buffer_size m → buffer_size m = Zlen (buffer_str m) →
  ∃ m' w, init_message_ptr m = Some m' ∧ word_at (buffer_str m) 0 = Some w ∧
    group_name m' = Buf w ∧
    (buffer_size m + 1 < w → read_cstr m' (group_name m') = None ∧ read m' = None).
Proof.
  intros Hs Hl. unfold init_message_ptr, sizeof_EventMessageCursor.
  destruct (Z.leb_spec (buffer_size m) 24); [lia|].
  assert (∀ x off, 0 <= off → off + 4 <= 24 → 24 < Zlen x → ∃ w, word_at x off = Some w) as Hw.
  { intros x off ???. unfold word_at. rewrite slice_Some by lia. simpl. eauto. }
  destruct (Hw (buffer_str m) 0) as [g Hg]; [lia..|].
  assert (word_at (c_str (buffer_str m)) 0 = Some g) as Hg'.
  { rewrite <- Hg. unfold word_at, c_str. rewrite !slice_Some by (lens).
    rewrite drop_app_le, take_app_le by (lens). done. }
  rewrite Hg'. assert (24 < Zlen (c_str (buffer_str m))) by (unfold c_str; rewrite length_app; simpl; lia).
  destruct (Hw (c_str (buffer_str m)) 4) as [w1 ->]; [lia..|].
  destruct (Hw (c_str (buffer_str m)) 8) as [w2 ->]; [lia..|].
  destruct (Hw (c_str (buffer_str m)) 12) as [w3 ->]; [lia..|].
  destruct (Hw (c_str (buffer_str m)) 16) as [w4 ->]; [lia..|].
  destruct (Hw (c_str (buffer_str m)) 20) as [w5 ->]; [lia..|]. simpl.
  eexists _, g. split; [done|]. split; [done|]. split; [done|]. intros Hbad.
  assert (read_cstr (mk (Buf g) (Buf w1) (Buf w2) (Buf w3) (Buf w4) w5 (error_no m) (will_send m)
    (will_recive m) true (buffer_str m) (buffer_size m)) (Buf g) = None) as Hn.
  { unfold read_cstr, cstr_at, c_str. simpl. rewrite length_app. simpl.
    destruct (Z.leb_spec 0 g); [|done]. destruct (Z.leb_spec g (Z.of_nat (length (buffer_str m) + 1))); [lia|done]. }
  split; [done|]. unfold read. cbn [group_name]. by rewrite Hn.
Qed.

Lemma init_message_ptr_unchecked_witness :
  let m := set_buffer clear (replicate 28 xff) 28 in
  ∃ m' w, init_message_ptr m = Some m' ∧ word_at (buffer_str m) 0 = Some w ∧
    group_name m' = Buf w ∧
    (29 < w → read_cstr m' (group_name m') = None ∧ read m' = None).
Proof. apply (init_message_ptr_unchecked (set_buffer clear (replicate 28 xff) 28)); done. Defined.
