(* ===== verification/ByteStream.v ===== *)
(** * The byte-queue interface

    What LibeventHandle relies on in the buffers of a [bufferevent]: a length, appending
    at the end and removing from the front, as evbuffer_get_length, evbuffer_add and
    evbuffer_remove do.  The evbuffer component provides an instance. *)

From S2P Require Import Prelude.

Class ByteStream (S : Type) := {
  str_inv : S → Prop;
  str_bytes : S → list byte;
  (** The empty buffer of a new bufferevent. *)
  str_new : S;
  str_length : S → Z;
  (** The return value (0 or -1) and the buffer afterwards. *)
  str_add : S → list byte → option (Z * S);
  (** The return value, the bytes copied out and the buffer afterwards. *)
  str_remove : S → Z → option (Z * list byte * S);

  str_new_ok : str_inv str_new ∧ str_bytes str_new = [];
  str_length_ok s : str_inv s → str_length s = Zlen (str_bytes s);
  str_add_ok s d r s' :
    str_inv s → str_add s d = Some (r, s') →
    str_inv s' ∧ (r = 0 ∧ str_bytes s' = str_bytes s ++ d ∨ r = -1 ∧ str_bytes s' = str_bytes s);
  str_remove_ok s n :
    str_inv s → 0 <= n → Zlen (str_bytes s) <= INT_MAX →
    ∃ s', str_remove s n =
        Some (Z.min n (Zlen (str_bytes s)), take (Z.to_nat n) (str_bytes s), s') ∧
      str_inv s' ∧ str_bytes s' = drop (Z.to_nat n) (str_bytes s)
}.

#[global] Hint Mode ByteStream ! : typeclass_instances.

(** The plain list of bytes, the simplest implementation of the interface. *)
#[export] Program Instance list_ByteStream : ByteStream (list byte) := {
  str_inv _ := True;
  str_bytes s := s;
  str_new := [];
  str_length s := Zlen s;
  str_add s d := Some (0, s ++ d);
  str_remove s n := Some (Z.min n (Zlen s), take (Z.to_nat n) s, drop (Z.to_nat n) s)
}.
Solve Obligations with naive_solver.
