(* ===== verification/EvBuffer.v ===== *)
(** * evbuffer: the chains, adding, draining and copying out

    Models libevent/buffer.c and libevent/evbuffer-internal.h: the chained byte queue behind
    every bufferevent of LibeventHandle.  This file holds the data, the callbacks, and
    evbuffer_add, evbuffer_drain, evbuffer_copyout_from and evbuffer_remove; it ends with the
    instance of the byte-queue interface that LibeventHandle is proved against.

    The linked list of chains is a list; [last_with_datap] is the position of the pointer it
    designates: 0 is [&buf->first], [n + 1] is [&chain->next] of chain number [n], so that
    [*last_with_datap] is [chains !! lwd].  [buf->last] is the last element of the list.  A
    chain's memory is its own block of bytes; nothing shares chains (evbuffer_add_buffer_reference
    and file segments are not modelled), so freeing a chain is dropping it from the list.
    A failed EVUTIL_ASSERT, a NULL dereference or an access outside of a block is [None]. *)

From S2P Require Import Prelude ByteStream.

(** ** Data *)

(** evbuffer-internal.h: the flags of a chain. *)
Definition EVBUFFER_FILESEGMENT : Z := 1.
Definition EVBUFFER_SENDFILE : Z := 2.
Definition EVBUFFER_REFERENCE : Z := 4.
Definition EVBUFFER_IMMUTABLE : Z := 8.
Definition EVBUFFER_MEM_PINNED_R : Z := 16.
Definition EVBUFFER_MEM_PINNED_W : Z := 32.
Definition EVBUFFER_MEM_PINNED_ANY : Z := Z.lor EVBUFFER_MEM_PINNED_R EVBUFFER_MEM_PINNED_W.

Definition EVBUFFER_CHAIN_MAX : Z := 9223372036854775807.
(** sizeof(struct evbuffer_chain) on a 64-bit target. *)
Definition EVBUFFER_CHAIN_SIZE : Z := 48.
Definition MIN_BUFFER_SIZE : Z := 1024.
Definition EVBUFFER_CHAIN_MAX_AUTO_SIZE : Z := 4096.
Definition MAX_TO_COPY_IN_EXPAND : Z := 4096.
Definition MAX_TO_REALIGN_IN_EXPAND : Z := 2048.

(** struct evbuffer_chain; [buffer_len] is the length of [buffer]. *)
Record evbuffer_chain := Chain {
  buffer : list byte;
  misalign : Z;
  off : Z;
  flags : Z
}.

Definition buffer_len (c : evbuffer_chain) : Z := Zlen (buffer c).

Definition CHAIN_PINNED (c : evbuffer_chain) : bool :=
  negb (Z.land (flags c) EVBUFFER_MEM_PINNED_ANY =? 0).
Definition CHAIN_PINNED_R (c : evbuffer_chain) : bool :=
  negb (Z.land (flags c) EVBUFFER_MEM_PINNED_R =? 0).
Definition CHAIN_IMMUTABLE (c : evbuffer_chain) : bool :=
  negb (Z.land (flags c) EVBUFFER_IMMUTABLE =? 0).
Definition CHAIN_SPACE_LEN (c : evbuffer_chain) : Z :=
  if CHAIN_IMMUTABLE c then 0 else buffer_len c - (misalign c + off c).

(** Flags of a callback entry. *)
Definition EVBUFFER_CB_ENABLED : Z := 1.
Definition EVBUFFER_CB_NODEFER : Z := 2.
Definition EVBUFFER_CB_OBSOLETE : Z := 262144.
Definition EVBUFFER_CB_INTERNAL_FLAGS : Z := 4294901760.

(** struct evbuffer_cb_entry: the function is a name, the argument an opaque value. *)
Record evbuffer_cb_entry := CbEntry { cb : Z; cbarg : Z; cb_flags : Z }.

(** One call of a callback: what evbuffer_cb_info holds, and the new size that the obsolete
    interface passes. *)
Record cb_call := CbCall {
  called : Z;
  called_arg : Z;
  obsolete : bool;
  orig_size : Z;
  n_added : Z;
  n_deleted : Z;
  new_size : Z
}.

(** struct evbuffer.  [lock_depth] is how often the caller's thread holds the (recursive) lock;
    [scheduled] whether the deferred callback is queued; [cb_log] the callback calls made,
    oldest first; [n_alloc] the number of allocations made, by which the allocator is indexed. *)
Record evbuffer := EvBuffer {
  chains : list evbuffer_chain;
  lwd : nat;
  total_len : Z;
  n_add_for_cb : Z;
  n_del_for_cb : Z;
  freeze_start : bool;
  freeze_end : bool;
  deferred_cbs : bool;
  refcnt : Z;
  callbacks : list evbuffer_cb_entry;
  scheduled : bool;
  lock_depth : Z;
  cb_log : list cb_call;
  n_alloc : nat
}.

Definition with_chains (cs : list evbuffer_chain) (l : nat) (t : Z) (b : evbuffer) : evbuffer :=
  EvBuffer cs l t (n_add_for_cb b) (n_del_for_cb b) (freeze_start b) (freeze_end b)
    (deferred_cbs b) (refcnt b) (callbacks b) (scheduled b) (lock_depth b) (cb_log b) (n_alloc b).
Definition with_counts (na nd : Z) (b : evbuffer) : evbuffer :=
  EvBuffer (chains b) (lwd b) (total_len b) na nd (freeze_start b) (freeze_end b)
    (deferred_cbs b) (refcnt b) (callbacks b) (scheduled b) (lock_depth b) (cb_log b) (n_alloc b).
Definition with_freeze (fs fe : bool) (b : evbuffer) : evbuffer :=
  EvBuffer (chains b) (lwd b) (total_len b) (n_add_for_cb b) (n_del_for_cb b) fs fe
    (deferred_cbs b) (refcnt b) (callbacks b) (scheduled b) (lock_depth b) (cb_log b) (n_alloc b).
Definition with_cbs (d : bool) (r : Z) (cbs : list evbuffer_cb_entry) (s : bool) (k : Z)
    (log : list cb_call) (b : evbuffer) : evbuffer :=
  EvBuffer (chains b) (lwd b) (total_len b) (n_add_for_cb b) (n_del_for_cb b)
    (freeze_start b) (freeze_end b) d r cbs s k log (n_alloc b).
Definition tick (b : evbuffer) : evbuffer :=
  EvBuffer (chains b) (lwd b) (total_len b) (n_add_for_cb b) (n_del_for_cb b)
    (freeze_start b) (freeze_end b) (deferred_cbs b) (refcnt b) (callbacks b) (scheduled b)
    (lock_depth b) (cb_log b) (S (n_alloc b)).

(** [buf->n_add_for_cb += n] and [buf->n_del_for_cb += n] on a size_t. *)
Definition count_add (n : Z) (b : evbuffer) : evbuffer :=
  with_counts (uint64 (n_add_for_cb b + n)) (n_del_for_cb b) b.
Definition count_del (n : Z) (b : evbuffer) : evbuffer :=
  with_counts (n_add_for_cb b) (uint64 (n_del_for_cb b + n)) b.

(** evbuffer_new, when its allocation succeeds. *)
Definition evbuffer_new : evbuffer :=
  EvBuffer [] 0 0 0 0 false false false 1 [] false 0 [] 0.

(** ** Callbacks *)

(** The mask, the value looked for, and whether the counters are cleared. *)
Definition cb_mask (running_deferred : bool) (b : evbuffer) : Z * Z * bool :=
  let both := Z.lor EVBUFFER_CB_NODEFER EVBUFFER_CB_ENABLED in
  if running_deferred then (both, EVBUFFER_CB_ENABLED, true)
  else if deferred_cbs b then (both, both, false)
  else (EVBUFFER_CB_ENABLED, EVBUFFER_CB_ENABLED, true).

(** The calls made over the callback list.  The callbacks themselves are the user's: what they
    are told is recorded. *)
Definition evbuffer_run_callbacks (b : evbuffer) (running_deferred : bool) : evbuffer :=
  let '(mask, masked_val, clear) := cb_mask running_deferred b in
  if decide (callbacks b = []) then with_counts 0 0 b
  else if (n_add_for_cb b =? 0) && (n_del_for_cb b =? 0) then b
  else
    let new_size := total_len b in
    let orig := uint64 (new_size + n_del_for_cb b - n_add_for_cb b) in
    let call e := CbCall (cb e) (cbarg e)
      (negb (Z.land (cb_flags e) EVBUFFER_CB_OBSOLETE =? 0)) orig (n_add_for_cb b)
      (n_del_for_cb b) new_size in
    let b := with_cbs (deferred_cbs b) (refcnt b) (callbacks b) (scheduled b) (lock_depth b)
      (cb_log b ++ (call <$> filter (λ e, Z.land (cb_flags e) mask = masked_val) (callbacks b))) b in
    if clear then with_counts 0 0 b else b.

(** The deferred callback is queued once: event_deferred_cb_schedule_ answers whether it was
    not queued yet.  The EVBUFFER_UNLOCK that pairs with evbuffer_incref_and_lock_ is executed
    in either case. *)
Definition evbuffer_invoke_callbacks_ (b : evbuffer) : evbuffer :=
  if decide (callbacks b = []) then with_counts 0 0 b
  else
    let b :=
      if deferred_cbs b then
        let b := if scheduled b then b
          else with_cbs (deferred_cbs b) (refcnt b + 1) (callbacks b) true (lock_depth b + 1)
            (cb_log b) b in
        with_cbs (deferred_cbs b) (refcnt b) (callbacks b) (scheduled b) (lock_depth b - 1)
          (cb_log b) b
      else b in
    evbuffer_run_callbacks b false.

(** The deferred callback, run by the event loop: the reference taken when it was queued is
    given back. *)
Definition evbuffer_deferred_callback (b : evbuffer) : evbuffer :=
  let b := evbuffer_run_callbacks b true in
  with_cbs (deferred_cbs b) (refcnt b - 1) (callbacks b) false (lock_depth b) (cb_log b) b.

Definition evbuffer_defer_callbacks (b : evbuffer) : evbuffer :=
  with_cbs true (refcnt b) (callbacks b) (scheduled b) (lock_depth b) (cb_log b) b.

Definition set_callbacks (cbs : list evbuffer_cb_entry) (b : evbuffer) : evbuffer :=
  with_cbs (deferred_cbs b) (refcnt b) cbs (scheduled b) (lock_depth b) (cb_log b) b.

(** A new entry goes to the head of the list. *)
Definition evbuffer_add_cb (b : evbuffer) (f arg : Z) : evbuffer :=
  set_callbacks (CbEntry f arg EVBUFFER_CB_ENABLED :: callbacks b) b.

Definition evbuffer_remove_all_callbacks (b : evbuffer) : evbuffer := set_callbacks [] b.

(** evbuffer_setcb: one obsolete callback replaces all; 0 is the NULL callback. *)
Definition evbuffer_setcb (b : evbuffer) (f arg : Z) : evbuffer :=
  let b := evbuffer_remove_all_callbacks b in
  if f =? 0 then b
  else set_callbacks [CbEntry f arg (Z.lor EVBUFFER_CB_ENABLED EVBUFFER_CB_OBSOLETE)] b.

Fixpoint remove_first_cb (f arg : Z) (l : list evbuffer_cb_entry) : option (list evbuffer_cb_entry) :=
  match l with
  | [] => None
  | e :: l => if (f =? cb e) && (arg =? cbarg e) then Some l else (e ::.) <$> remove_first_cb f arg l
  end.

Definition evbuffer_remove_cb (b : evbuffer) (f arg : Z) : Z * evbuffer :=
  match remove_first_cb f arg (callbacks b) with
  | Some l => (0, set_callbacks l b)
  | None => (-1, b)
  end.

Definition alter_cb (g : Z → Z) (i : nat) (b : evbuffer) : evbuffer :=
  set_callbacks (alter (λ e, CbEntry (cb e) (cbarg e) (g (cb_flags e))) i (callbacks b)) b.

(** [i] is the position of the entry in the callback list. *)
Definition evbuffer_cb_set_flags (b : evbuffer) (i : nat) (fl : Z) : evbuffer :=
  alter_cb (λ x, Z.lor x (Z.ldiff fl EVBUFFER_CB_INTERNAL_FLAGS)) i b.
Definition evbuffer_cb_clear_flags (b : evbuffer) (i : nat) (fl : Z) : evbuffer :=
  alter_cb (λ x, Z.ldiff x (Z.ldiff fl EVBUFFER_CB_INTERNAL_FLAGS)) i b.

Definition evbuffer_freeze (b : evbuffer) (start : bool) : evbuffer :=
  if start then with_freeze true (freeze_end b) b else with_freeze (freeze_start b) true b.
Definition evbuffer_unfreeze (b : evbuffer) (start : bool) : evbuffer :=
  if start then with_freeze false (freeze_end b) b else with_freeze (freeze_start b) false b.

(** ** Chains *)

(** The allocation size: powers of two from MIN_BUFFER_SIZE on. *)
Fixpoint round_up (fuel : nat) (to_alloc size : Z) : Z :=
  match fuel with
  | O => to_alloc
  | S fuel => if to_alloc <? size then round_up fuel (Z.shiftl to_alloc 1) size else to_alloc
  end.

Definition evbuffer_chain_pin_ (c : evbuffer_chain) (flag : Z) : option evbuffer_chain :=
  if Z.land (flags c) flag =? 0 then Some (Chain (buffer c) (misalign c) (off c) (Z.lor (flags c) flag))
  else None.

Definition evbuffer_chains_all_empty (cs : list evbuffer_chain) : bool :=
  forallb (λ c, off c =? 0) cs.

(** How many chains from [*ch] on are skipped before the first victim. *)
Fixpoint first_victim (cs : list evbuffer_chain) : nat :=
  match cs with
  | [] => 0
  | c :: cs => if negb (off c =? 0) || CHAIN_PINNED c then S (first_victim cs) else 0
  end.

Definition evbuffer_free_trailing_empty_chains (b : evbuffer) : option (nat * evbuffer) :=
  let ch := (lwd b + first_victim (drop (lwd b) (chains b)))%nat in
  if evbuffer_chains_all_empty (drop ch (chains b))
  then Some (ch, with_chains (take ch (chains b)) (lwd b) (total_len b) b) else None.

Definition evbuffer_chain_insert (b : evbuffer) (c : evbuffer_chain) : option evbuffer :=
  let total := uint64 (total_len b + off c) in
  match chains b !! lwd b with
  | None =>
      if decide (lwd b = 0%nat ∧ chains b = []) then Some (with_chains [c] 0 total b) else None
  | Some _ =>
      '(chp, b) ← evbuffer_free_trailing_empty_chains b;
      Some (with_chains (chains b ++ [c]) (if off c =? 0 then lwd b else chp) total b)
  end.

Definition evbuffer_chain_align (c : evbuffer_chain) : option evbuffer_chain :=
  if CHAIN_IMMUTABLE c || CHAIN_PINNED c then None else
  d ← slice (buffer c) (misalign c) (off c);
  m ← splice (buffer c) 0 d;
  Some (Chain m 0 (off c) (flags c)).

Definition evbuffer_chain_should_realign (c : evbuffer_chain) (datlen : Z) : bool :=
  (datlen <=? buffer_len c - off c) && (off c <? buffer_len c / 2) &&
  (off c <=? MAX_TO_REALIGN_IN_EXPAND).

(** A chain's data. *)
Definition chain_data (c : evbuffer_chain) : option (list byte) :=
  slice (buffer c) (misalign c) (off c).

(** memcpy into the free space and [chain->off += n]. *)
Definition chain_append (c : evbuffer_chain) (d : list byte) : option evbuffer_chain :=
  m ← splice (buffer c) (misalign c + off c) d;
  Some (Chain m (misalign c) (off c + Zlen d) (flags c)).

Definition evbuffer_get_length (b : evbuffer) : Z := total_len b.
Definition evbuffer_get_contiguous_space (b : evbuffer) : Z :=
  match chains b with c :: _ => off c | [] => 0 end.

Definition HAS_PINNED_R (b : evbuffer) : bool :=
  match last (chains b) with Some c => CHAIN_PINNED_R c | None => false end.

Definition ZERO_CHAIN (b : evbuffer) : evbuffer := with_chains [] 0 0 b.

(** ** Draining and copying out *)

(** The loop of evbuffer_drain over the chains, with the position of [last_with_datap]
    relative to the chain in hand ([None]: it was reset to [&buf->first]).  Answers the chain it
    stops at, still in the list, with what remains to be drained from it. *)
Fixpoint drain_loop (cs : list evbuffer_chain) (l : option nat) (remaining : Z)
    : option (list evbuffer_chain * option nat * Z) :=
  match cs with
  | [] => None
  | c :: cs' =>
      if off c <=? remaining then
        let remaining := remaining - off c in
        let l := match l with Some (S (S n)) => Some (S n) | _ => None end in
        if CHAIN_PINNED_R c then
          if remaining =? 0 then
            Some (Chain (buffer c) (misalign c + off c) 0 (flags c) :: cs', l, remaining)
          else None
        else drain_loop cs' l remaining
      else Some (cs, l, remaining)
  end.

Definition evbuffer_drain (b : evbuffer) (len : Z) : option (Z * evbuffer) :=
  let old_len := total_len b in
  if old_len =? 0 then Some (0, b) else
  if freeze_start b then Some (-1, b) else
  let finish len b := Some (0, evbuffer_invoke_callbacks_ (count_del len b)) in
  if (old_len <=? len) && negb (HAS_PINNED_R b) then finish old_len (ZERO_CHAIN b)
  else
    let len := if old_len <=? len then old_len else len in
    '(cs, l, remaining) ← drain_loop (chains b) (Some (lwd b)) len;
    match cs with
    | c :: cs' =>
        if remaining <=? off c then
          finish len (with_chains
            (Chain (buffer c) (misalign c + remaining) (off c - remaining) (flags c) :: cs')
            (default 0%nat l) (uint64 (total_len b - len)) b)
        else None
    | [] => None
    end.

(** The copy loop: from position [p] of the first chain. *)
Fixpoint copyout_loop (cs : list evbuffer_chain) (p datlen : Z) : option (list byte) :=
  if datlen =? 0 then Some [] else
  match cs with
  | [] => None
  | c :: cs' =>
      if off c - p <=? datlen then
        d ← slice (buffer c) (misalign c + p) (off c - p);
        rest ← copyout_loop cs' 0 (datlen - (off c - p));
        Some (d ++ rest)
      else if datlen + p <=? off c then slice (buffer c) (misalign c + p) datlen
      else None
  end.

(** struct evbuffer_ptr: [pchain] is the position of the chain in the list, [None] for NULL. *)
Record evbuffer_ptr := Ptr { pos : Z; pchain : option nat; pos_in_chain : Z }.

Definition EV_SSIZE_MAX : Z := 9223372036854775807.

(** The chains from the one a pointer designates on. *)
Definition chains_from (b : evbuffer) (p : option nat) : list evbuffer_chain :=
  match p with Some i => drop i (chains b) | None => [] end.

(** Return value and the bytes written to [data_out]. *)
Definition evbuffer_copyout_from (b : evbuffer) (p : option evbuffer_ptr) (datlen : Z)
    : option (Z * list byte) :=
  let copy cs q datlen :=
    if datlen =? 0 then Some (0, []) else
    if freeze_start b then Some (-1, []) else
    d ← copyout_loop cs q datlen;
    Some (datlen, d) in
  match p with
  | Some p =>
      if uint64 (EV_SSIZE_MAX - pos p) <? datlen then Some (-1, [])
      else copy (chains_from b (pchain p)) (pos_in_chain p)
        (if total_len b <? uint64 (datlen + pos p) then uint64 (total_len b - pos p) else datlen)
  | None =>
      copy (chains b) 0 (if total_len b <? datlen then total_len b else datlen)
  end.

Definition evbuffer_copyout (b : evbuffer) (datlen : Z) : option (Z * list byte) :=
  evbuffer_copyout_from b None datlen.

(** Return value, truncated to int, the bytes copied out, and the buffer. *)
Definition evbuffer_remove (b : evbuffer) (datlen : Z) : option (Z * list byte * evbuffer) :=
  '(n, d) ← evbuffer_copyout_from b None datlen;
  if 0 <? n then
    '(r, b) ← evbuffer_drain b n;
    Some (int32 (if r <? 0 then -1 else n), d, b)
  else Some (int32 n, d, b).

(** ** Adding

    [mm] is the allocator: the [k]-th allocation of a block of [n] bytes fails, or yields a
    block with some contents. *)

Section Alloc.
Variable mm : nat → Z → option (nat → byte).

Definition evbuffer_chain_new (k : nat) (size : Z) : option evbuffer_chain :=
  if EVBUFFER_CHAIN_MAX - EVBUFFER_CHAIN_SIZE <? size then None else
  let size := size + EVBUFFER_CHAIN_SIZE in
  let to_alloc :=
    if size <? EVBUFFER_CHAIN_MAX / 2 then round_up 64 MIN_BUFFER_SIZE size else size in
  f ← mm k to_alloc;
  Some (Chain (f <$> seq 0 (Z.to_nat (to_alloc - EVBUFFER_CHAIN_SIZE))) 0 0 0).

(** The next allocation of the buffer. *)
Definition chain_alloc (b : evbuffer) (size : Z) : option evbuffer_chain * evbuffer :=
  (evbuffer_chain_new (n_alloc b) size, tick b).

Definition evbuffer_chain_insert_new (b : evbuffer) (datlen : Z) : option (option nat * evbuffer) :=
  match chain_alloc b datlen with
  | (None, b) => Some (None, b)
  | (Some c, b) =>
      b ← evbuffer_chain_insert b c;
      Some (Some (pred (length (chains b))), b)
  end.

(** Replacing chain number [i], with [n] bytes more in the buffer, and the [out:] label. *)
Definition added_in_place (b : evbuffer) (i : nat) (c : evbuffer_chain) (n : Z) : Z * evbuffer :=
  (0, evbuffer_invoke_callbacks_ (count_add n
    (with_chains (<[i := c]> (chains b)) (lwd b) (uint64 (total_len b + n)) b))).

(** "we need to add another chain": [remain] bytes still fit into chain [i]. *)
Definition add_new_chain (b : evbuffer) (i : nat) (c : evbuffer_chain) (remain : Z) (data : list byte)
    : option (Z * evbuffer) :=
  let to_alloc := buffer_len c in
  let to_alloc := if to_alloc <=? EVBUFFER_CHAIN_MAX_AUTO_SIZE / 2 then Z.shiftl to_alloc 1
    else to_alloc in
  let to_alloc := if to_alloc <? Zlen data then Zlen data else to_alloc in
  match chain_alloc b to_alloc with
  | (None, b) => Some (-1, b)
  | (Some tmp, b) =>
      let d1 := take (Z.to_nat remain) data in
      let d2 := drop (Z.to_nat remain) data in
      b ← (if remain =? 0 then Some b else
        c ← chain_append c d1;
        Some (count_add remain
          (with_chains (<[i := c]> (chains b)) (lwd b) (uint64 (total_len b + remain)) b)));
      m ← splice (buffer tmp) 0 d2;
      b ← evbuffer_chain_insert b (Chain m (misalign tmp) (Zlen d2) (flags tmp));
      Some (0, evbuffer_invoke_callbacks_ (count_add (Zlen d2) b))
  end.

Definition add_at (b : evbuffer) (i : nat) (data : list byte) : option (Z * evbuffer) :=
  c ← chains b !! i;
  let datlen := Zlen data in
  if CHAIN_IMMUTABLE c then add_new_chain b i c 0 data
  else if negb ((0 <=? misalign c) && (misalign c <=? EVBUFFER_CHAIN_MAX)) then None
  else
    let remain := buffer_len c - misalign c - off c in
    if datlen <=? remain then
      c ← chain_append c data;
      Some (added_in_place b i c datlen)
    else if negb (CHAIN_PINNED c) && evbuffer_chain_should_realign c datlen then
      c ← evbuffer_chain_align c;
      c ← chain_append c data;
      Some (added_in_place b i c datlen)
    else add_new_chain b i c remain data.

Definition evbuffer_add (b : evbuffer) (data : list byte) : option (Z * evbuffer) :=
  if freeze_end b then Some (-1, b) else
  if SIZE_MAX - total_len b <? Zlen data then Some (-1, b) else
  match chains b !! lwd b, chains b with
  | Some _, _ => add_at b (lwd b) data
  | None, _ :: _ => add_at b (pred (length (chains b))) data
  | None, [] =>
      '(i, b) ← evbuffer_chain_insert_new b (Zlen data);
      match i with
      | None => Some (-1, b)
      | Some i => add_at b i data
      end
  end.

End Alloc.

(** ** The invariant *)

(** A chain's data lies in its block, which is no larger than a chain can be; no chain is pinned (only the Windows overlapped I/O code
    pins chains); an immutable chain (a reference to memory of the caller) has data,
    and no block is empty. *)
Definition chain_wf (c : evbuffer_chain) : Prop :=
  0 <= misalign c ∧ 0 <= off c ∧ misalign c + off c <= buffer_len c ∧
  buffer_len c <= EVBUFFER_CHAIN_MAX - EVBUFFER_CHAIN_SIZE ∧ CHAIN_PINNED c = false ∧
  (CHAIN_IMMUTABLE c = true → off c ≠ 0) ∧ 0 < buffer_len c.

Definition data (c : evbuffer_chain) : list byte :=
  take (Z.to_nat (off c)) (drop (Z.to_nat (misalign c)) (buffer c)).

(** The bytes of a list of chains, the abstract value of a buffer. *)
Definition cbytes (cs : list evbuffer_chain) : list byte := concat (data <$> cs).
Definition bytes (b : evbuffer) : list byte := cbytes (chains b).

Definition empty_chain (c : evbuffer_chain) : Prop := off c = 0.

(** [last_with_datap] designates the last chain with data, or the first chain. *)
Definition lwd_ok (cs : list evbuffer_chain) (n : nat) : Prop :=
  cs = [] ∧ n = 0%nat ∨
  ∃ l1 c l2, cs = l1 ++ c :: l2 ∧ n = length l1 ∧ Forall empty_chain l2 ∧ (l1 = [] ∨ off c ≠ 0).

Definition wf (b : evbuffer) : Prop :=
  Forall chain_wf (chains b) ∧ total_len b = Zlen (bytes b) ∧ total_len b <= SIZE_MAX ∧
  lwd_ok (chains b) (lwd b).

(** What no operation on the contents changes; requests of memory are only added. *)
Definition same_frame (b b' : evbuffer) : Prop :=
  freeze_start b' = freeze_start b ∧ freeze_end b' = freeze_end b ∧ (n_alloc b <= n_alloc b')%nat.
#[export] Hint Extern 0 (n_alloc _ <= n_alloc _)%nat => (progress cbn; lia) : core.

(** Linear arithmetic with the largest size of a chain. *)
Ltac elia := unfold EVBUFFER_CHAIN_MAX, EVBUFFER_CHAIN_SIZE in *; lia.

(** ** Chains *)

Lemma data_length c : chain_wf c → Zlen (data c) = off c.
Proof.
  intros (H1&H2&H3&_). unfold data, buffer_len in *. rewrite length_take, length_drop. lia.
Qed.

Lemma data_empty c : empty_chain c → data c = [].
Proof. unfold empty_chain, data. by intros ->. Qed.

Lemma chain_data_ok c : chain_wf c → chain_data c = Some (data c).
Proof. intros (?&?&?&_). unfold chain_data, data, buffer_len in *. by rewrite slice_Some by lia. Qed.

Lemma chain_slice c p n :
  chain_wf c → 0 <= p → 0 <= n → p + n <= off c →
  slice (buffer c) (misalign c + p) n = Some (take (Z.to_nat n) (drop (Z.to_nat p) (data c))).
Proof.
  intros (?&?&?&_) ???. unfold data, buffer_len in *. rewrite slice_Some by lia. f_equal.
  rewrite skipn_firstn_comm, take_take, drop_drop. f_equal; [lia|]. f_equal. lia.
Qed.

Lemma pinned_r c : CHAIN_PINNED c = false → CHAIN_PINNED_R c = false.
Proof.
  unfold CHAIN_PINNED, CHAIN_PINNED_R. rewrite !negb_false_iff, !Z.eqb_eq. intros H.
  change EVBUFFER_MEM_PINNED_R with (Z.land EVBUFFER_MEM_PINNED_ANY EVBUFFER_MEM_PINNED_R).
  by rewrite Z.land_assoc, H.
Qed.

Lemma cbytes_app l1 l2 : cbytes (l1 ++ l2) = cbytes l1 ++ cbytes l2.
Proof. unfold cbytes. by rewrite fmap_app, concat_app. Qed.

Lemma cbytes_cons c l : cbytes (c :: l) = data c ++ cbytes l.
Proof. done. Qed.

Lemma cbytes_empty l : Forall empty_chain l → cbytes l = [].
Proof. induction 1 as [|c l Hc _ IH]; [done|]. by rewrite cbytes_cons, IH, data_empty. Qed.

Lemma cbytes_nil_inv l : Forall chain_wf l → cbytes l = [] → Forall empty_chain l.
Proof.
  induction 1 as [|c l Hc _ IH]; [done|]. rewrite cbytes_cons. intros [Hd Hl]%app_nil.
  constructor; [|by apply IH]. pose proof (data_length c Hc) as H. by rewrite Hd in H.
Qed.

(** A window that ends where [a] ends. *)
Lemma window_end {A} (a r : list A) (m n : nat) :
  length a = (m + n)%nat → take n (drop m (a ++ r)) = drop m a.
Proof.
  intros H. rewrite drop_app_le, take_app_le by (lens).
  apply take_ge. rewrite length_drop. lia.
Qed.

(** Room for [d] after the data. *)
Lemma chain_append_ok c d :
  chain_wf c → misalign c + off c + Zlen d <= buffer_len c →
  ∃ c', chain_append c d = Some c' ∧ chain_wf c' ∧ data c' = data c ++ d ∧
    off c' = off c + Zlen d ∧ flags c' = flags c.
Proof.
  intros Hwf Hroom. destruct Hwf as (H1&H2&H3&H4&H5&H6&H7). unfold chain_append, buffer_len in *.
  destruct (split_at (buffer c) (misalign c + off c) (Zlen d)) as (a & w & k & Hm & Ha & Hw); [lia..|].
  rewrite (splice_app_eq a w d k) by (done || lia). cbn [mbind option_bind].
  eexists. split; [done|]. unfold chain_wf, data, buffer_len. cbn [buffer misalign off flags].
  rewrite Hm in *. rewrite !length_app in *.
  repeat split; try done; try lia; try (intros Him; pose proof (H6 Him); lia).
  rewrite (assoc_L (++) a), !window_end by (lens).
  by rewrite drop_app_le by lia.
Qed.

Lemma chain_align_ok c :
  chain_wf c → CHAIN_IMMUTABLE c = false →
  ∃ c', evbuffer_chain_align c = Some c' ∧ chain_wf c' ∧ data c' = data c ∧
    misalign c' = 0 ∧ off c' = off c ∧ buffer_len c' = buffer_len c ∧ flags c' = flags c.
Proof.
  intros Hwf Him. unfold evbuffer_chain_align. rewrite Him. pose proof Hwf as (H1&H2&H3&H4&H5&H6&H7).
  rewrite H5. cbn [orb].
  rewrite (slice_Some (buffer c)) by (unfold buffer_len in *; lia). cbn [mbind option_bind].
  change (take _ _) with (data c). pose proof (data_length c Hwf) as Hd.
  rewrite splice_Some by (unfold buffer_len in *; lia). cbn [mbind option_bind]. eexists. split; [done|].
  assert (take (Z.to_nat 0) (buffer c) = []) as -> by done. rewrite app_nil_l.
  unfold chain_wf, buffer_len, CHAIN_PINNED in *. cbn [buffer misalign off flags].
  rewrite length_app, length_drop. repeat split; try done; try lia.
  unfold data at 1. cbn [buffer misalign off flags]. cbn [Z.to_nat drop].
  replace (Z.to_nat (off c)) with (length (data c)) by lia. apply take_app_length.
Qed.

(** ** Allocation *)

Lemma round_up_spec fuel t s :
  0 < t → s <= t * 2 ^ Z.of_nat fuel →
  s <= round_up fuel t s ∧ t <= round_up fuel t s ∧ round_up fuel t s <= Z.max t (2 * s).
Proof.
  revert t. induction fuel as [|fuel IH]; intros t Ht Hs; cbn [round_up].
  - rewrite Z.mul_1_r in Hs. lia.
  - destruct (Z.ltb_spec t s); [|lia]. rewrite Z.shiftl_mul_pow2, Z.pow_1_r by lia.
    destruct (IH (t * 2)) as (?&?&?); [lia| |lia].
    rewrite Nat2Z.inj_succ, Z.pow_succ_r in Hs by lia. lia.
Qed.

Lemma chain_new_ok mm k size c :
  0 <= size → evbuffer_chain_new mm k size = Some c →
  chain_wf c ∧ misalign c = 0 ∧ off c = 0 ∧ flags c = 0 ∧ size <= buffer_len c.
Proof.
  intros Hs. unfold evbuffer_chain_new. case_match eqn:E; [done|]. apply Z.ltb_ge in E.
  set (ta := if _ <? _ then _ else _).
  destruct (mm k ta) as [f|]; [|done]. intros [= <-].
  unfold chain_wf, buffer_len, CHAIN_PINNED. cbn [buffer misalign off flags].
  rewrite length_fmap, length_seq. unfold EVBUFFER_CHAIN_SIZE, EVBUFFER_CHAIN_MAX in *.
  assert (size + 48 <= ta ∧ 1024 <= ta ∧ ta <= 9223372036854775807) as (Hlo & Hmin & Hhi).
  { subst ta. assert (9223372036854775807 / 2 = 4611686018427387903) as -> by done.
    case_match eqn:E2; [|apply Z.ltb_ge in E2; lia]. apply Z.ltb_lt in E2. unfold MIN_BUFFER_SIZE.
    destruct (round_up_spec 64 1024 (size + 48)) as (?&?&?); [lia| |lia].
    change (2 ^ Z.of_nat 64) with 18446744073709551616. lia. }
  repeat split; try done; lia.
Qed.

Lemma chain_new_total k size f :
  0 <= size <= EVBUFFER_CHAIN_MAX - EVBUFFER_CHAIN_SIZE →
  is_Some (evbuffer_chain_new (λ _ _, Some f) k size).
Proof.
  intros [_ H]. unfold evbuffer_chain_new. rewrite (proj2 (Z.ltb_ge _ _)) by done. by eexists.
Qed.

(** ** Inserting a chain *)

Lemma empty_all_empty cs : Forall empty_chain cs ↔ evbuffer_chains_all_empty cs = true.
Proof.
  unfold evbuffer_chains_all_empty. rewrite forallb_forall, Forall_forall.
  by setoid_rewrite list_elem_of_In; setoid_rewrite Z.eqb_eq.
Qed.

Lemma first_victim_empty cs : Forall chain_wf cs → Forall empty_chain cs → first_victim cs = 0%nat.
Proof.
  intros Hw He. destruct cs as [|c cs]; [done|]. cbn [first_victim].
  apply Forall_cons in Hw as [(?&?&?&?&->&_) _]. apply Forall_cons in He as [Hc _].
  unfold empty_chain in Hc. by rewrite Hc.
Qed.

(** Freeing the trailing empty chains: the chains up to the last one with data stay. *)
Lemma free_trailing_ok b :
  wf b → ∃ keep rest, chains b = keep ++ rest ∧ Forall empty_chain rest ∧
    evbuffer_free_trailing_empty_chains b =
      Some (length keep, with_chains keep (lwd b) (total_len b) b) ∧
    (keep = [] ∧ lwd b = 0%nat ∨
     ∃ l1 c, keep = l1 ++ [c] ∧ lwd b = length l1 ∧ off c ≠ 0).
Proof.
  intros (Hwf & _ & _ & Hl). unfold evbuffer_free_trailing_empty_chains.
  destruct Hl as [[Hc Hl]|(l1 & c & l2 & Hc & Hl & He & Hd)]; rewrite Hc, Hl in *.
  { exists [], []. repeat split; auto. }
  apply Forall_app in Hwf as [_ [(_&_&_&_&Hp&_) Hw2]%Forall_cons].
  rewrite drop_app_length. cbn [first_victim]. rewrite Hp, orb_false_r.
  destruct (Z.eqb_spec (off c) 0) as [H0|H0]; cbn [negb].
  - exists l1, (c :: l2). rewrite Nat.add_0_r, drop_app_length, take_app_length.
    assert (Forall empty_chain (c :: l2)) as HE by by constructor.
    rewrite (proj1 (empty_all_empty _) HE). destruct Hd as [->|]; [|done]. repeat split; auto.
  - exists (l1 ++ [c]), l2. rewrite first_victim_empty by done.
    rewrite <- (assoc_L (++)), length_app. cbn [app length].
    replace (l1 ++ c :: l2) with ((l1 ++ [c]) ++ l2) by by rewrite <- (assoc_L (++)).
    rewrite drop_app_length', take_app_length' by (rewrite length_app; done).
    rewrite (proj1 (empty_all_empty _) He). rewrite <- (assoc_L (++)). repeat split; auto.
    right. by exists l1, c.
Qed.

Lemma wf_total b : wf b → 0 <= total_len b <= SIZE_MAX.
Proof. intros (_ & -> & ? & _). lia. Qed.

Lemma wf_with_chains b cs l t :
  Forall chain_wf cs → lwd_ok cs l → t = Zlen (cbytes cs) → t <= SIZE_MAX →
  wf (with_chains cs l t b).
Proof. intros. done. Qed.

Lemma chain_insert_ok b c :
  wf b → chain_wf c → total_len b + off c <= SIZE_MAX →
  ∃ b', evbuffer_chain_insert b c = Some b' ∧ wf b' ∧ bytes b' = bytes b ++ data c ∧
    same_frame b b' ∧ n_alloc b' = n_alloc b ∧ (∃ l, chains b' = l ++ [c]) ∧
    (chains b = [] → chains b' = [c] ∧ lwd b' = 0%nat).
Proof.
  intros Hb Hc Hmax. pose proof (wf_total b Hb) as Ht. pose proof Hb as (Hwf & Hlen & _ & Hl).
  unfold evbuffer_chain_insert. pose proof Hc as (_ & Hoff & _).
  rewrite (uint64_id (total_len b + off c)) by (unfold SIZE_MAX in *; lia).
  assert (Zlen (data c) = off c) as Hd by by apply data_length.
  destruct (chains b !! lwd b) as [c0|] eqn:E.
  - destruct (free_trailing_ok b Hb) as (keep & rest & Hk & He & -> & Hkeep).
    cbn [mbind option_bind chains with_chains lwd total_len].
    assert (cbytes keep = bytes b) as Hby.
    { unfold bytes. by rewrite Hk, cbytes_app, (cbytes_empty rest), app_nil_r. }
    eexists. split; [done|]. split; [|split; [|split; [done|split; [done|split; [by eexists|]]]]].
    + rewrite Hk in Hwf. apply Forall_app in Hwf as [Hwk _].
      apply wf_with_chains.
      * apply Forall_app; auto.
      * right. destruct (Z.eqb_spec (off c) 0) as [H0|H0].
        -- destruct Hkeep as [[-> Hl0]|(l1 & c1 & -> & Hl0 & Hne)].
           ++ exists [], c, []. auto.
           ++ exists l1, c1, [c]. rewrite <- (assoc_L (++)). repeat split; auto.
        -- exists keep, c, []. auto.
      * rewrite cbytes_app, cbytes_cons, Hby, !length_app. cbn [cbytes fmap list_fmap concat length]. lia.
      * done.
    + unfold bytes at 1. cbn [chains with_chains]. rewrite cbytes_app, cbytes_cons, Hby.
      by rewrite app_nil_r.
    + intros Hn. by rewrite Hn, lookup_nil in E.
  - assert (chains b = [] ∧ lwd b = 0%nat) as [Hn Hl0].
    { destruct Hl as [|(l1 & c1 & l2 & Hc1 & Hl1 & _)]; [done|].
      rewrite Hc1, Hl1, list_lookup_middle in E by done. done. }
    rewrite decide_True by done. eexists. split; [done|].
    split; [|split; [|split; [done|split; [done|split; [by exists []|done]]]]].
    + apply wf_with_chains; [by apply Forall_singleton| |rewrite cbytes_cons, app_nil_r|done].
      * right. exists [], c, []. auto.
      * unfold bytes in Hlen. rewrite Hn in Hlen. cbn in Hlen. lia.
    + unfold bytes. rewrite Hn. cbn [chains with_chains]. by rewrite cbytes_cons, app_nil_r.
Qed.

(** ** Callbacks leave the contents alone *)

Lemma run_callbacks_frame b r :
  chains (evbuffer_run_callbacks b r) = chains b ∧ lwd (evbuffer_run_callbacks b r) = lwd b ∧
  total_len (evbuffer_run_callbacks b r) = total_len b ∧
  same_frame b (evbuffer_run_callbacks b r) ∧ n_alloc (evbuffer_run_callbacks b r) = n_alloc b.
Proof.
  unfold evbuffer_run_callbacks, same_frame. destruct (cb_mask r b) as [[mask v] clear].
  repeat case_match; done.
Qed.

Lemma invoke_frame b :
  chains (evbuffer_invoke_callbacks_ b) = chains b ∧ lwd (evbuffer_invoke_callbacks_ b) = lwd b ∧
  total_len (evbuffer_invoke_callbacks_ b) = total_len b ∧
  same_frame b (evbuffer_invoke_callbacks_ b) ∧
  n_alloc (evbuffer_invoke_callbacks_ b) = n_alloc b.
Proof.
  unfold evbuffer_invoke_callbacks_. case_match; [done|].
  set (b0 := if deferred_cbs b then _ else _).
  destruct (run_callbacks_frame b0 false) as (->&->&->&(H1&H2&_)&Hn).
  unfold same_frame. rewrite H1, H2, Hn. subst b0. repeat case_match; done.
Qed.

(** A buffer whose contents are those of a well-formed one. *)
Lemma wf_same b b' :
  chains b' = chains b → lwd b' = lwd b → total_len b' = total_len b → wf b → wf b'.
Proof. unfold wf, bytes. by intros -> -> ->. Qed.

Lemma finish_ok b :
  wf b → wf (evbuffer_invoke_callbacks_ b) ∧ bytes (evbuffer_invoke_callbacks_ b) = bytes b ∧
    same_frame b (evbuffer_invoke_callbacks_ b).
Proof.
  intros Hb. destruct (invoke_frame b) as (H1&H2&H3&H4&_).
  split; [by apply (wf_same b)|]. unfold bytes. by rewrite H1.
Qed.

(** ** evbuffer_add *)

Lemma same_frame_refl b : same_frame b b.
Proof. done. Qed.

Lemma same_frame_trans b1 b2 b3 : same_frame b1 b2 → same_frame b2 b3 → same_frame b1 b3.
Proof. unfold same_frame. intros (-> & -> & ?) (-> & -> & ?). split_and!; [done..|lia]. Qed.

Lemma same_frame_tick b b' : same_frame (tick b) b' → same_frame b b'.
Proof. apply same_frame_trans. done. Qed.

(** Replacing the chain at [last_with_datap] by one with [d] more bytes at its end. *)
Lemma replace_at_lwd b l1 c l2 c' d :
  wf b → chains b = l1 ++ c :: l2 → lwd b = length l1 → Forall empty_chain l2 →
  chain_wf c' → data c' = data c ++ d → off c' = off c + Zlen d → (l1 = [] ∨ off c ≠ 0) →
  total_len b + Zlen d <= SIZE_MAX →
  wf (with_chains (<[lwd b := c']> (chains b)) (lwd b) (uint64 (total_len b + Zlen d)) b) ∧
  cbytes (<[lwd b := c']> (chains b)) = bytes b ++ d.
Proof.
  intros Hb Hc Hl He Hc' Hd Ho Hne Hmax. pose proof (wf_total b Hb) as Ht.
  pose proof Hb as (Hwf & Hlen & _ & _). unfold bytes in *.
  rewrite (uint64_id (total_len b + Zlen d)) by (unfold SIZE_MAX in *; lia).
  rewrite Hc, Hl in *. rewrite insert_app_r_alt, Nat.sub_diag by lia. cbn [insert list_insert].
  assert (cbytes (l1 ++ c' :: l2) = cbytes (l1 ++ c :: l2) ++ d) as Hby.
  { by rewrite !cbytes_app, !cbytes_cons, (cbytes_empty l2), Hd, !app_nil_r, (assoc_L (++)). }
  split; [|done]. apply Forall_app in Hwf as [Hw1 [Hw2 Hw3]%Forall_cons].
  assert (0 <= off c) by by destruct Hw2 as (_ & ? & _).
  apply wf_with_chains; [|right|rewrite Hby, length_app; lia|lia].
  - apply Forall_app. split; [done|]. by constructor.
  - exists l1, c', l2. repeat split; try done. destruct Hne as [|]; [by left|right]. lia.
Qed.

(** Outcome of an append: all of [d], or nothing. *)
Definition appended (b b' : evbuffer) (r : Z) (d : list byte) : Prop :=
  wf b' ∧ same_frame b b' ∧ (r = 0 ∧ bytes b' = bytes b ++ d ∨ r = -1 ∧ bytes b' = bytes b).

Lemma appended_out b0 b b' n d :
  wf b → bytes b = bytes b0 ++ d → same_frame b0 b →
  b' = evbuffer_invoke_callbacks_ (count_add n b) → appended b0 b' 0 d.
Proof.
  intros Hb Hd Hf ->. destruct (finish_ok (count_add n b)) as (H1&H2&H3); [done|].
  split; [done|]. split; [by apply (same_frame_trans _ b)|]. left. by rewrite H2.
Qed.

(** The allocator has refused one of the requests from [k] on, before [k']. *)
Definition refused (mm : nat → Z → option (nat → byte)) (k k' : nat) : Prop :=
  ∃ i m, (k <= i < k')%nat ∧ mm i m = None.

(** No chain can be had for [n] bytes between the states [b] and [b']: they are more than half of the
    largest chain, or the allocator has refused a block that was asked for on the way. *)
Definition alloc_failed (mm : nat → Z → option (nat → byte)) (b b' : evbuffer) (n : Z) : Prop :=
  EVBUFFER_CHAIN_MAX / 2 < n ∨ refused mm (n_alloc b) (n_alloc b').

Lemma alloc_failed_new mm b m n :
  evbuffer_chain_new mm (n_alloc b) m = None → m <= Z.max (n + 4096) (EVBUFFER_CHAIN_MAX - EVBUFFER_CHAIN_SIZE) →
  alloc_failed mm b (tick b) n.
Proof.
  unfold evbuffer_chain_new, alloc_failed, EVBUFFER_CHAIN_MAX, EVBUFFER_CHAIN_SIZE. intros H Hm.
  case_match eqn:E; [apply Z.ltb_lt in E; left; dlia|]. right. clear Hm. revert H. set (ta := if _ <? _ then _ else _).
  destruct (mm (n_alloc b) ta) eqn:Hmm; [done|]. exists (n_alloc b), ta. split; [cbn; lia|done].
Qed.

Lemma alloc_failed_le mm b b' n n' : n <= n' → alloc_failed mm b b' n → alloc_failed mm b b' n'.
Proof. intros ? [|]; [left; lia|by right]. Qed.

(** More may have been asked for before and after. *)
Lemma alloc_failed_wide mm b0 b b' b1 n :
  alloc_failed mm b b' n → same_frame b0 b → same_frame b' b1 → alloc_failed mm b0 b1 n.
Proof.
  intros [?|(i & m & Hi & ?)] (_ & _ & H0) (_ & _ & H1); [by left|right]. exists i, m. split; [lia|done].
Qed.

Lemma alloc_failed_small mm b b' n : n <= EVBUFFER_CHAIN_MAX / 2 → alloc_failed mm b b' n → alloc_failed mm b b' 0.
Proof. intros ? [?|?]; [lia|by right]. Qed.

Lemma alloc_failed_total b b' n : 0 <= n <= EVBUFFER_CHAIN_MAX / 2 → ¬ alloc_failed (λ _ _, Some (λ _, x00)) b b' n.
Proof. intros ? [?|(k & m & _ & ?)]; [lia|done]. Qed.

Section AddProofs.
Variable mm : nat → Z → option (nat → byte).

(** The size asked for when another chain is needed. *)
Lemma new_size_ok c (d : list byte) :
  chain_wf c →
  let t := if buffer_len c <=? EVBUFFER_CHAIN_MAX_AUTO_SIZE / 2 then Z.shiftl (buffer_len c) 1
    else buffer_len c in
  let n := if t <? Zlen d then Zlen d else t in
  Zlen d <= n ∧ 0 <= n ∧ n <= Z.max (Zlen d) (EVBUFFER_CHAIN_MAX - EVBUFFER_CHAIN_SIZE).
Proof.
  intros (_&_&_&Hmax&_). unfold EVBUFFER_CHAIN_MAX, EVBUFFER_CHAIN_SIZE, EVBUFFER_CHAIN_MAX_AUTO_SIZE in *.
  cbn zeta. change (4096 / 2) with 2048. rewrite Z.shiftl_mul_pow2, Z.pow_1_r by lia.
  destruct (Z.leb_spec (buffer_len c) 2048); case_match eqn:E;
    rewrite ?Z.ltb_lt, ?Z.ltb_ge in E; lia.
Qed.

(** The case of a new chain; [c'] is the old chain once [remain] bytes are copied into it. *)
Lemma add_new_chain_ok b l1 c l2 remain d :
  wf b → chains b = l1 ++ c :: l2 → lwd b = length l1 → Forall empty_chain l2 →
  (l1 = [] ∨ off c ≠ 0) → 0 <= remain → remain <= Zlen d →
  (remain ≠ 0 → misalign c + off c + remain <= buffer_len c) →
  total_len b + Zlen d <= SIZE_MAX →
  ∃ r b', add_new_chain mm b (lwd b) c remain d = Some (r, b') ∧ appended b b' r d ∧
    (r = -1 → alloc_failed mm b b' (Zlen d)).
Proof.
  intros Hb Hc Hl He Hne Hr1 Hr2 Hroom Hmax. unfold add_new_chain, chain_alloc.
  set (n := if _ <? Zlen d then _ else _).
  pose proof Hb as (Hwf & _). rewrite Hc in Hwf. apply Forall_app in Hwf as [_ [Hwc _]%Forall_cons].
  assert (Zlen d <= n ∧ 0 <= n ∧ n <= Z.max (Zlen d) (EVBUFFER_CHAIN_MAX - EVBUFFER_CHAIN_SIZE))
    as (Hdn & Hn & Hnm) by (by apply new_size_ok).
  destruct (evbuffer_chain_new mm (n_alloc b) n) as [tmp|] eqn:En; cycle 1.
  { exists (-1), (tick b). split; [done|]. split; [|intros _; eapply alloc_failed_new; [exact En|lia]].
    split; [done|]. split; [done|]. by right. }
  destruct (chain_new_ok _ _ _ _ Hn En) as (Ht1 & Ht2 & Ht3 & Ht4 & Ht5).
  set (d1 := take (Z.to_nat remain) d). set (d2 := drop (Z.to_nat remain) d).
  assert (d = d1 ++ d2) as Hd by (unfold d1, d2; by rewrite take_drop).
  assert (Zlen d1 = remain) as Hd1 by (unfold d1; lens).
  assert (Zlen d1 + Zlen d2 = Zlen d) as Hd12 by (rewrite Hd, length_app; lia).
  (* the first part *)
  assert (∃ b1, (if remain =? 0 then Some (tick b) else
        c ← chain_append c d1;
        Some (count_add remain (with_chains (<[lwd b := c]> (chains (tick b))) (lwd (tick b))
          (uint64 (total_len (tick b) + remain)) (tick b)))) = Some b1 ∧
      wf b1 ∧ bytes b1 = bytes b ++ d1 ∧ same_frame b b1) as (b1 & -> & Hb1 & Hby1 & Hf1).
  { destruct (Z.eqb_spec remain 0) as [H0|H0].
    - exists (tick b). assert (d1 = []) as -> by (apply nil_length_inv; lia). by rewrite app_nil_r.
    - destruct (chain_append_ok c d1) as (c' & -> & Hc'1 & Hc'2 & Hc'3 & _); [done|lia|].
      cbn [mbind option_bind]. eexists. split; [done|].
      destruct (replace_at_lwd b l1 c l2 c' d1) as [Hw Hby]; try done; [lia|].
      rewrite Hd1 in Hw. done. }
  cbn [mbind option_bind].
  destruct (chain_append_ok tmp d2) as (t' & Ht' & Hw' & Hdat & Hoff & _); [done|lia|].
  unfold chain_append in Ht'. rewrite Ht2, Ht3, !Z.add_0_l in Ht'.
  destruct (splice (buffer tmp) 0 d2) as [m|]; [|done].
  cbn [mbind option_bind] in Ht' |- *. rewrite Ht2. injection Ht' as Ht'.
  rewrite Ht'. assert (data tmp = []) as Htmp by by apply data_empty.
  destruct (chain_insert_ok b1 t') as (b2 & -> & Hb2 & Hby2 & Hf2 & _); [done..| |].
  { destruct Hb1 as (_ & -> & _). destruct Hb as (_ & Hlen & _). rewrite Hby1, length_app. lia. }
  cbn [mbind option_bind]. eexists 0, _. split; [done|]. split; [|done].
  eapply (appended_out b b2); [done| |by apply (same_frame_trans _ b1)|done].
  rewrite Hby2, Hby1, Hdat, Htmp, Hd. cbn [app]. by rewrite (assoc_L (++)).
Qed.

Lemma add_at_ok b d :
  wf b → chains b ≠ [] → total_len b + Zlen d <= SIZE_MAX →
  ∃ r b', add_at mm b (lwd b) d = Some (r, b') ∧ appended b b' r d ∧
    (r = -1 → alloc_failed mm b b' (Zlen d)).
Proof.
  intros Hb Hnil Hmax. pose proof Hb as (Hwf & _ & _ & [[? _]|(l1 & c & l2 & Hc & Hl & He & Hne)]); [done|].
  rewrite Hc in Hwf. apply Forall_app in Hwf as [_ [Hwc _]%Forall_cons].
  unfold add_at. rewrite Hc, Hl, list_lookup_middle by done. rewrite <- Hl. cbn [mbind option_bind].
  pose proof Hwc as (H1 & H2 & H3 & H4 & H5 & H6 & H7).
  destruct (CHAIN_IMMUTABLE c) eqn:Him; [eapply add_new_chain_ok; (done || lia)|].
  rewrite (proj2 (Z.leb_le 0 _)) by done. rewrite (proj2 (Z.leb_le (misalign c) _)) by elia. cbn [andb negb].
  destruct (Z.leb_spec (Zlen d) (buffer_len c - misalign c - off c)) as [Hfit|Hfit].
  { destruct (chain_append_ok c d) as (c' & -> & Hw & Hd & Ho & _); [done|lia|]. cbn [mbind option_bind].
    destruct (replace_at_lwd b l1 c l2 c' d) as [Hw' Hby]; try done.
    eexists 0, _. split; [done|]. split; [|done]. eapply appended_out; [exact Hw'|done..]. }
  destruct (negb (CHAIN_PINNED c) && evbuffer_chain_should_realign c (Zlen d)) eqn:Hre.
  { apply andb_true_iff in Hre as [_ Hre]. unfold evbuffer_chain_should_realign in Hre.
    apply andb_true_iff in Hre as [[Hre%Z.leb_le _]%andb_true_iff _].
    destruct (chain_align_ok c) as (c1 & -> & Hw1 & Hd1 & Hm1 & Ho1 & Hb1 & _); [done..|].
    cbn [mbind option_bind].
    destruct (chain_append_ok c1 d) as (c' & -> & Hw & Hd & Ho & _); [done|lia|]. cbn [mbind option_bind].
    destruct (replace_at_lwd b l1 c l2 c' d) as [Hw' Hby]; try done; [congruence|lia|].
    eexists 0, _. split; [done|]. split; [|done]. eapply appended_out; [exact Hw'|done..]. }
  eapply add_new_chain_ok; try (done || lia).
Qed.

Lemma add_ok b d :
  wf b →
  ∃ r b', evbuffer_add mm b d = Some (r, b') ∧ appended b b' r d ∧
    (r = -1 → freeze_end b = true ∨ SIZE_MAX < total_len b + Zlen d ∨ alloc_failed mm b b' (Zlen d)).
Proof.
  intros Hb. unfold evbuffer_add.
  destruct (freeze_end b) eqn:Hfe; [exists (-1), b; split; [done|]; split; [|auto];
    split; [done|]; split; [done|by right]|].
  destruct (Z.ltb_spec (SIZE_MAX - total_len b) (Zlen d)) as [Hov|Hov].
  { exists (-1), b. split; [done|]. split; [|right; left; lia]. split; [done|]. split; [done|by right]. }
  assert (total_len b + Zlen d <= SIZE_MAX) as Hmax by lia.
  pose proof Hb as (_ & _ & _ & [[Hn Hl]|(l1 & c & l2 & Hc & Hl & _)]); cycle 1.
  { destruct (add_at_ok b d) as (r & b' & Hadd & Happ & Hr); [done|by rewrite Hc; destruct l1|done|].
    assert (chains b !! lwd b = Some c) as E by by rewrite Hc, Hl, list_lookup_middle.
    exists r, b'. rewrite E. auto 10. }
  rewrite Hn, Hl. cbn [lookup list_lookup]. unfold evbuffer_chain_insert_new, chain_alloc.
  destruct (evbuffer_chain_new mm (n_alloc b) (Zlen d)) as [c|] eqn:En; cycle 1.
  { exists (-1), (tick b). split; [done|]. split; [|intros _; right; right; eapply alloc_failed_new; [exact En|lia]].
    split; [done|]. split; [done|by right]. }
  destruct (chain_new_ok mm _ _ c (Nat2Z.is_nonneg _) En) as (Hc1 & Hc2 & Hc3 & Hc4 & Hc5).
  destruct (chain_insert_ok (tick b) c) as (b1 & -> & Hb1 & Hby & Hf & _ & _ & Hone);
    [done|done|cbn; lia|]. cbn [mbind option_bind].
  destruct (Hone Hn) as [Hch1 Hl1]. rewrite Hch1. cbn [length pred].
  assert (bytes b1 = bytes b) as Hby1.
  { rewrite Hby. unfold bytes at 1. cbn [chains tick]. by rewrite data_empty, app_nil_r by done. }
  destruct (add_at_ok b1 d) as (r & b' & Hadd & (Hw' & Hf' & Hr') & Hr); [done|by rewrite Hch1| |].
  { destruct Hb1 as (_ & -> & _). destruct Hb as (_ & Hlen & _). rewrite Hby1. lia. }
  apply same_frame_tick in Hf.
  rewrite Hl1 in Hadd. exists r, b'. split; [done|]. split; [|intros Hm; do 2 right; eapply alloc_failed_wide; [by apply Hr|done..]].
  split; [done|]. split; [by apply (same_frame_trans _ b1)|]. by rewrite Hby1 in Hr'.
Qed.

End AddProofs.

(** evbuffer_add never fails an assertion or writes outside of a chain.  It keeps the
    buffer well formed, with [last_with_datap] on the last chain with data; it appends all of
    the data and returns 0, or changes no byte and returns -1, and the latter only if the end is
    frozen, the length would overflow, or an allocation failed. *)
Theorem evbuffer_add_spec mm b d :
  wf b →
  ∃ r b', evbuffer_add mm b d = Some (r, b') ∧ appended b b' r d ∧
    (r = -1 → freeze_end b = true ∨ SIZE_MAX < total_len b + Zlen d ∨ alloc_failed mm b b' (Zlen d)).
Proof. apply add_ok. Qed.

(** ** evbuffer_drain *)

Lemma drain_loop_ok cs l rem :
  Forall chain_wf cs → 0 <= rem < Zlen (cbytes cs) →
  ∃ l1 c l2 l' r, cs = l1 ++ c :: l2 ∧ drain_loop cs l rem = Some (c :: l2, l', r) ∧
    Zlen (cbytes l1) + r = rem ∧ 0 <= r < off c ∧
    default 0%nat l' = (default 0 l - length l1)%nat.
Proof.
  revert l rem. induction cs as [|c cs IH]; intros l rem Hw Hr; [cbn in Hr; lia|].
  apply Forall_cons in Hw as [Hc Hw]. rewrite cbytes_cons, length_app in Hr.
  pose proof (data_length c Hc) as Hd. cbn [drain_loop].
  destruct (Z.leb_spec (off c) rem) as [Hle|Hlt].
  - rewrite pinned_r by by destruct Hc as (_&_&_&_&?&_).
    destruct (IH (match l with Some (S (S n)) => Some (S n) | _ => None end) (rem - off c))
      as (l1 & c' & l2 & l' & r & -> & -> & Hr1 & Hr2 & Hl'); [done|lia|].
    exists (c :: l1), c', l2, l', r. repeat split; try done; try lia.
    + rewrite cbytes_cons, length_app. lia.
    + rewrite Hl'. destruct l as [[|[|n]]|]; cbn; lia.
  - exists [], c, cs, l, rem. repeat split; try done; [lia..|]. cbn [length]. lia.
Qed.

(** Dropping the chains before [c] keeps [last_with_datap] right. *)
Lemma lwd_ok_drop l1 c l2 n c' :
  lwd_ok (l1 ++ c :: l2) n → off c ≠ 0 → lwd_ok (c' :: l2) (n - length l1).
Proof.
  intros [[H _]|(k1 & k & k2 & Heq & -> & He & Hne)] Hoff; [by destruct l1|right].
  apply app_eq_inv in Heq as [(m & -> & Heq)|(m & -> & Heq)]; destruct m as [|m0 m];
    rewrite ?app_nil_r, ?app_nil_l in *; simplify_eq/=.
  - eexists [], c', _. rewrite Nat.sub_diag. by split_and!; [| | |left].
  - exfalso. apply Forall_app in He as [_ [He _]%Forall_cons]. done.
  - eexists [], c', _. rewrite Nat.sub_diag. by split_and!; [| | |left].
  - exists (c' :: m), k, k2. rewrite length_app. cbn [length].
    repeat split; try done; [lia|]. right. destruct Hne as [Hnil|]; [by destruct l1|done].
Qed.

(** Advancing over the first [r] bytes of a chain. *)
Lemma chain_advance c r :
  chain_wf c → 0 <= r < off c →
  let c' := Chain (buffer c) (misalign c + r) (off c - r) (flags c) in
  chain_wf c' ∧ data c' = drop (Z.to_nat r) (data c).
Proof.
  intros (?&?&?&?&?&?&?) Hr. cbn zeta. unfold chain_wf, data, buffer_len, CHAIN_PINNED in *.
  cbn [buffer misalign off flags]. split; [repeat split; (done || lia)|].
  rewrite skipn_firstn_comm, drop_drop. f_equal; [lia|]. f_equal. lia.
Qed.

Lemma drain_ok b len :
  wf b → 0 <= len → freeze_start b = false →
  ∃ b', evbuffer_drain b len = Some (0, b') ∧ wf b' ∧ same_frame b b' ∧
    bytes b' = drop (Z.to_nat len) (bytes b).
Proof.
  intros Hb Hlen Hfs. pose proof (wf_total b Hb) as Ht. pose proof Hb as (Hwf & Htot & Hmax & Hl).
  unfold evbuffer_drain. destruct (Z.eqb_spec (total_len b) 0) as [H0|H0].
  { exists b. repeat split; try done. rewrite drop_ge; [|lia]. apply nil_length_inv. lia. }
  rewrite Hfs.
  assert (∀ n b1, wf b1 → bytes b1 = drop (Z.to_nat len) (bytes b) → same_frame b b1 →
    ∃ b', Some (0, evbuffer_invoke_callbacks_ (count_del n b1)) = Some (0, b') ∧ wf b' ∧ same_frame b b' ∧
      bytes b' = drop (Z.to_nat len) (bytes b)) as Hfin.
  { intros n b1 Hb1 Hby1 Hf1. eexists. split; [done|].
    destruct (finish_ok (count_del n b1)) as (?&Hy&?); [done|]. split; [done|].
    split; [by apply (same_frame_trans _ b1)|]. by rewrite Hy. }
  assert (HAS_PINNED_R b = false) as ->.
  { unfold HAS_PINNED_R. destruct (last (chains b)) as [c|] eqn:El; [|done].
    apply pinned_r. rewrite Forall_forall in Hwf. by apply (Hwf c), last_Some_elem_of. }
  rewrite andb_true_r. destruct (Z.leb_spec (total_len b) len) as [Hge|Hlt].
  { apply Hfin; [|unfold bytes at 1; cbn; rewrite drop_ge; [done|lia]|done].
    repeat split; try done. by left. }
  destruct (drain_loop_ok (chains b) (Some (lwd b)) len) as (l1 & c & l2 & l' & r & Hc & -> & Hr1 & Hr2 & Hl');
    [done|unfold bytes in Htot; lia|].
  cbn [mbind option_bind]. rewrite (proj2 (Z.leb_le _ _)) by lia.
  rewrite Hc in Hwf. apply Forall_app in Hwf as [Hw1 [Hwc Hw2]%Forall_cons].
  destruct (chain_advance c r Hwc) as [Hc' Hd']; [lia|].
  set (c' := Chain _ _ _ _) in *. rewrite uint64_id by (unfold SIZE_MAX in *; lia).
  assert (cbytes (c' :: l2) = drop (Z.to_nat len) (bytes b)) as Hby.
  { unfold bytes. rewrite Hc, cbytes_app, !cbytes_cons, Hd'. pose proof (data_length c Hwc).
    rewrite (drop_app_ge (cbytes l1)) by lia.
    replace (Z.to_nat len - length (cbytes l1))%nat with (Z.to_nat r) by lia.
    by rewrite drop_app_le by lia. }
  apply Hfin; [|done|done]. apply wf_with_chains; [by constructor| | |lia].
  - rewrite Hl'. cbn [from_option default]. rewrite Hc in Hl. eapply lwd_ok_drop; [exact Hl|lia].
  - rewrite Hby, length_drop. lia.
Qed.

(** evbuffer_drain never fails an assertion; unless the front is frozen it removes exactly
    the first [len] bytes (all of them if there are fewer), frees the chains before them, and
    leaves [last_with_datap] on the last chain with data. *)
Theorem evbuffer_drain_spec b len :
  wf b → 0 <= len → freeze_start b = false →
  ∃ b', evbuffer_drain b len = Some (0, b') ∧ wf b' ∧ same_frame b b' ∧
    bytes b' = drop (Z.to_nat len) (bytes b).
Proof. apply drain_ok. Qed.

(** ** Copying out *)

Lemma copyout_loop_ok cs p n :
  Forall chain_wf cs → 0 <= p → 0 <= n → p + n <= Zlen (cbytes cs) →
  match cs with c :: _ => p <= off c | [] => True end →
  copyout_loop cs p n = Some (take (Z.to_nat n) (drop (Z.to_nat p) (cbytes cs))).
Proof.
  revert p n. induction cs as [|c cs IH]; intros p n Hw Hp Hn Hpn Hpo.
  { cbn in Hpn. assert (n = 0) as -> by lia. done. }
  apply Forall_cons in Hw as [Hc Hw]. pose proof (data_length c Hc) as Hd.
  rewrite cbytes_cons in *. rewrite length_app in Hpn. cbn [copyout_loop].
  destruct (Z.eqb_spec n 0) as [->|Hn0]; [done|].
  rewrite drop_app_le by lia.
  destruct (Z.leb_spec (off c - p) n) as [Hle|Hgt].
  - rewrite chain_slice by (done || lia). cbn [mbind option_bind].
    rewrite IH by (done || lia || by destruct cs as [|c' ?]; [|apply Forall_cons in Hw as [(_&?&_) _]]).
    cbn [mbind option_bind]. cbn [Z.to_nat drop]. f_equal.
    rewrite (take_ge (drop _ _)) by (lens).
    rewrite (take_app_ge (drop _ _)) by (lens).
    rewrite length_drop. do 3 f_equal. lia.
  - rewrite (proj2 (Z.leb_le _ _)) by lia. rewrite chain_slice by (done || lia).
    by rewrite take_app_le by (lens).
Qed.

Lemma copyout_ok b n :
  wf b → 0 <= n → freeze_start b = false →
  evbuffer_copyout_from b None n =
    Some (Z.min n (Zlen (bytes b)), take (Z.to_nat n) (bytes b)).
Proof.
  intros (Hwf & Htot & Hmax & _) Hn Hfs. unfold evbuffer_copyout_from.
  replace (if total_len b <? n then total_len b else n) with (Z.min n (Zlen (bytes b)))
    by (destruct (Z.ltb_spec (total_len b) n); lia).
  set (m := Z.min n _). destruct (Z.eqb_spec m 0) as [H0|H0].
  { rewrite H0. do 2 f_equal. symmetry. apply nil_length_inv. rewrite length_take. lia. }
  rewrite Hfs, copyout_loop_ok; [|done|lia|lia|unfold bytes in *; lia|].
  - cbn [mbind option_bind]. cbn [Z.to_nat drop]. do 2 f_equal. change (cbytes (chains b)) with (bytes b).
    subst m. destruct (Z.min_spec n (Zlen (bytes b))) as [[? ->]|[? ->]]; [done|].
    change (drop (Z.to_nat 0) (bytes b)) with (bytes b). rewrite !take_ge by lia. done.
  - destruct (chains b); [done|]. apply Forall_cons in Hwf as [(_&?&_) _]. done.
Qed.

(** evbuffer_copyout copies the first [n] bytes, across chains, and changes nothing. *)
Theorem evbuffer_copyout_spec b n :
  wf b → 0 <= n → freeze_start b = false →
  evbuffer_copyout b n = Some (Z.min n (Zlen (bytes b)), take (Z.to_nat n) (bytes b)).
Proof. apply copyout_ok. Qed.

Lemma remove_ok b n :
  wf b → 0 <= n → freeze_start b = false →
  ∃ b', evbuffer_remove b n =
      Some (int32 (Z.min n (Zlen (bytes b))), take (Z.to_nat n) (bytes b), b') ∧
    wf b' ∧ same_frame b b' ∧ bytes b' = drop (Z.to_nat n) (bytes b).
Proof.
  intros Hb Hn Hfs. unfold evbuffer_remove. rewrite copyout_ok by done. cbn [mbind option_bind].
  set (m := Z.min n _). destruct (Z.ltb_spec 0 m) as [Hm|Hm].
  - destruct (drain_ok b m) as (b' & -> & Hw & Hf & Hby); [done|lia|done|]. cbn [mbind option_bind].
    exists b'. change (if 0 <? 0 then -1 else m) with m. split; [done|]. split; [done|].
    split; [done|]. rewrite Hby.
    destruct (Z.min_spec n (Zlen (bytes b))) as [[? Hm2]|[? Hm2]]; subst m; rewrite Hm2; [done|].
    rewrite !drop_ge by lia. done.
  - exists b. split; [done|]. split; [done|]. split; [done|].
    assert (m = 0) as H0 by lia. subst m. destruct (decide (n = 0)) as [->|]; [done|].
    rewrite drop_ge by lia. apply nil_length_inv. lia.
Qed.

(** evbuffer_remove returns the first [n] bytes and takes them off the buffer.  Its result is
    the number of bytes truncated to an int, so that it is that number below 2^31 only. *)
Theorem evbuffer_remove_spec b n :
  wf b → 0 <= n → freeze_start b = false →
  ∃ b', evbuffer_remove b n =
      Some (int32 (Z.min n (Zlen (bytes b))), take (Z.to_nat n) (bytes b), b') ∧
    wf b' ∧ same_frame b b' ∧ bytes b' = drop (Z.to_nat n) (bytes b).
Proof. apply remove_ok. Qed.

(** ** The byte-queue interface

    The buffers of a bufferevent, for any allocator. *)

Lemma wf_new : wf evbuffer_new.
Proof. split; [constructor|]. split; [done|]. split; [done|]. by left. Qed.

Program Definition evbuffer_ByteStream (mm : nat → Z → option (nat → byte)) : ByteStream evbuffer := {|
  str_inv b := wf b ∧ freeze_start b = false;
  str_bytes := bytes;
  str_new := evbuffer_new;
  str_length := evbuffer_get_length;
  str_add := evbuffer_add mm;
  str_remove := evbuffer_remove
|}.
Next Obligation. intros mm. split; [|done]. split; [exact wf_new|done]. Qed.
Next Obligation. intros mm s [(_ & Ht & _) _]. exact Ht. Qed.
Next Obligation.
  intros mm s d r s' [Hs Hf] Hadd. destruct (add_ok mm s d Hs) as (r0 & b0 & H0 & (Hw & [Hf1 _] & Hr) & _).
  rewrite H0 in Hadd. simplify_eq. split; [|done]. split; [done|congruence].
Qed.
Next Obligation.
  intros mm s n [Hs Hf] Hn Hmax. destruct (remove_ok s n Hs Hn Hf) as (b' & -> & Hw & [Hf1 _] & Hby).
  exists b'. rewrite int32_id by (unfold INT_MIN, INT_MAX in *; lia).
  split; [done|]. split; [|done]. split; [done|congruence].
Qed.

(** ** What callbacks are told *)

(** A change of a buffer that does not defer its callbacks calls every enabled callback once,
    with the length before the change, the bytes added and the bytes deleted since the last
    call, and starts counting again from 0. *)
Theorem callbacks_told b old :
  callbacks b ≠ [] → deferred_cbs b = false → 0 <= old < 2 ^ 64 →
  n_add_for_cb b ≠ 0 ∨ n_del_for_cb b ≠ 0 →
  total_len b = old + n_add_for_cb b - n_del_for_cb b →
  let b' := evbuffer_invoke_callbacks_ b in
  cb_log b' = cb_log b ++
    ((λ e, CbCall (cb e) (cbarg e) (negb (Z.land (cb_flags e) EVBUFFER_CB_OBSOLETE =? 0))
       old (n_add_for_cb b) (n_del_for_cb b) (total_len b)) <$>
     filter (λ e, Z.land (cb_flags e) EVBUFFER_CB_ENABLED = EVBUFFER_CB_ENABLED) (callbacks b)) ∧
  n_add_for_cb b' = 0 ∧ n_del_for_cb b' = 0 ∧ callbacks b' = callbacks b.
Proof.
  intros Hcb Hdef Hold Hcnt Htot. cbn zeta. unfold evbuffer_invoke_callbacks_.
  rewrite decide_False, Hdef by done. unfold evbuffer_run_callbacks, cb_mask. rewrite Hdef.
  rewrite decide_False by done.
  assert ((n_add_for_cb b =? 0) && (n_del_for_cb b =? 0) = false) as ->.
  { apply andb_false_iff. rewrite !Z.eqb_neq. tauto. }
  cbn [cb_log with_counts with_cbs n_add_for_cb n_del_for_cb callbacks].
  replace (uint64 (total_len b + n_del_for_cb b - n_add_for_cb b)) with old; [done|].
  rewrite Htot. replace (old + _ - _ + _ - _) with old by lia. by rewrite uint64_id.
Qed.

(** With deferred callbacks, the unlock that pairs with evbuffer_incref_and_lock_ is outside
    of the branch that locks: a change made while the deferred callback is already queued
    releases the caller's hold on the buffer's lock once too often. *)
Theorem deferred_unlock_unbalanced b :
  callbacks b ≠ [] → deferred_cbs b = true →
  lock_depth (evbuffer_invoke_callbacks_ b) = (if scheduled b then lock_depth b - 1 else lock_depth b) ∧
  scheduled (evbuffer_invoke_callbacks_ b) = true ∧
  refcnt (evbuffer_invoke_callbacks_ b) = (if scheduled b then refcnt b else refcnt b + 1).
Proof.
  intros Hcb Hd. unfold evbuffer_invoke_callbacks_. rewrite decide_False, Hd by done.
  set (b1 := if scheduled b then _ else _). set (b2 := with_cbs _ _ _ _ _ _ b1).
  assert (lock_depth (evbuffer_run_callbacks b2 false) = lock_depth b2 ∧
    scheduled (evbuffer_run_callbacks b2 false) = scheduled b2 ∧
    refcnt (evbuffer_run_callbacks b2 false) = refcnt b2) as (-> & -> & ->).
  { unfold evbuffer_run_callbacks. destruct (cb_mask false b2) as [[mask v] clear].
    repeat case_match; done. }
  subst b2 b1. destruct (scheduled b) eqn:Es; cbn; repeat split; try done; lia.
Qed.

(** ** Witnesses *)

(** An allocator that never fails. *)
Definition mm_zero (k : nat) (n : Z) : option (nat → byte) := Some (λ _, x00).

(** Three chains: "abc" at offset 1 of its block, "de", and an empty one. *)
Definition three_chains : evbuffer :=
  with_chains [Chain (bs "_abc__") 1 3 0; Chain (bs "de____") 0 2 0; Chain (bs "______") 0 0 0] 1 5
    (evbuffer_add_cb evbuffer_new 7 8).

Lemma three_chains_wf : wf three_chains.
Proof.
  split; [repeat constructor; vm_compute; congruence|]. split; [done|]. split; [done|].
  right. exists [Chain (bs "_abc__") 1 3 0], (Chain (bs "de____") 0 2 0), [Chain (bs "______") 0 0 0].
  repeat split; [by repeat constructor|by right].
Qed.

Lemma evbuffer_add_spec_witness :
  ∃ r b', evbuffer_add mm_zero three_chains (bs "fghijkl") = Some (r, b') ∧
    appended three_chains b' r (bs "fghijkl") ∧
    (r = -1 → freeze_end three_chains = true ∨
       SIZE_MAX < total_len three_chains + 7 ∨ alloc_failed mm_zero three_chains b' 7).
Proof. exact (evbuffer_add_spec mm_zero three_chains (bs "fghijkl") three_chains_wf). Defined.

(** Two bytes of room in the last chain with data, the rest in a new one. *)
Example add_three_chains :
  bytes <$> (snd <$> evbuffer_add mm_zero three_chains (bs "fghijkl")) = Some (bs "abcdefghijkl").
Proof. vm_compute. reflexivity. Qed.

Lemma evbuffer_drain_spec_witness :
  ∃ b', evbuffer_drain three_chains 4 = Some (0, b') ∧ wf b' ∧ same_frame three_chains b' ∧
    bytes b' = bs "e".
Proof.
  apply (evbuffer_drain_spec three_chains 4); [exact three_chains_wf|lia|reflexivity].
Defined.

Lemma evbuffer_copyout_spec_witness : evbuffer_copyout three_chains 4 = Some (4, bs "abcd").
Proof.
  apply (evbuffer_copyout_spec three_chains 4); [exact three_chains_wf|lia|reflexivity].
Defined.

Lemma evbuffer_remove_spec_witness :
  ∃ b', evbuffer_remove three_chains 4 = Some (4, bs "abcd", b') ∧
    wf b' ∧ same_frame three_chains b' ∧ bytes b' = bs "e".
Proof.
  apply (evbuffer_remove_spec three_chains 4); [exact three_chains_wf|lia|reflexivity].
Defined.

Lemma callbacks_told_witness :
  cb_log (evbuffer_invoke_callbacks_ (count_add 2 three_chains)) = [CbCall 7 8 false 3 2 0 5].
Proof.
  apply (callbacks_told (count_add 2 three_chains) 3);
    [discriminate|reflexivity|lia|left; discriminate|reflexivity].
Defined.

Lemma deferred_unlock_unbalanced_witness :
  let b := evbuffer_invoke_callbacks_ (count_add 2 (evbuffer_defer_callbacks three_chains)) in
  lock_depth b = 0 ∧ lock_depth (evbuffer_invoke_callbacks_ b) = -1.
Proof.
  split; [|apply deferred_unlock_unbalanced; [discriminate|reflexivity]].
  apply (deferred_unlock_unbalanced (count_add 2 (evbuffer_defer_callbacks three_chains)));
    [discriminate|reflexivity].
Defined.
