(* ===== verification/EvBufferMove.v ===== *)
(** * evbuffer: prepending, moving between buffers, pulling up

    Models evbuffer_prepend, evbuffer_add_buffer, evbuffer_prepend_buffer,
    evbuffer_remove_buffer, evbuffer_pullup and evbuffer_add_reference of libevent/buffer.c.
    The operations on two buffers are those on two distinct buffers: with the same buffer
    twice they return 0 at once.  The reference counts of evbuffer_add_buffer_reference are
    not modelled. *)

From S2P Require Import Prelude EvBuffer.

(** ** Moving chains *)

Definition COPY_CHAIN (dst src : evbuffer) : evbuffer :=
  with_chains (chains src) (lwd src) (total_len src) dst.

Definition APPEND_CHAIN (dst src : evbuffer) : option evbuffer :=
  '(chp, dst) ← evbuffer_free_trailing_empty_chains dst;
  Some (with_chains (chains dst ++ chains src) (chp + lwd src)
    (uint64 (total_len dst + total_len src)) dst).

(** [dst->last_with_datap] keeps designating the same [next] field, which now lies behind the
    chains of [src], unless it is [&dst->first]. *)
Definition PREPEND_CHAIN (dst src : evbuffer) : option evbuffer :=
  if decide (chains src = []) then None else
  let l := match chains dst !! lwd dst with
    | None => lwd src
    | Some _ => (length (chains src) + lwd dst)%nat
    end in
  Some (with_chains (chains src ++ chains dst) l (uint64 (total_len dst + total_len src)) dst).

(** The loop of advance_last_with_data, which goes on while the next chain has data: how far. *)
Fixpoint advance_count (cs : list evbuffer_chain) : nat :=
  match cs with
  | _ :: ((c :: _) as cs') => if off c =? 0 then 0%nat else S (advance_count cs')
  | _ => 0%nat
  end.

Definition advance_last_with_data (b : evbuffer) : evbuffer :=
  with_chains (chains b) (lwd b + advance_count (drop (lwd b) (chains b))) (total_len b) b.

(** The loop of evbuffer_remove_buffer over whole chains: how many it passes, where
    [last_with_datap] is relative to the chain it stops at ([None]: reset to [&src->first]),
    what is left of [datlen], and [nread]. *)
Fixpoint remove_buffer_loop (cs : list evbuffer_chain) (l : option nat) (datlen nread : Z)
    : option (nat * option nat * Z * Z) :=
  match cs with
  | [] => None
  | c :: cs' =>
      if off c <=? datlen then
        match l with
        | Some O => None
        | _ =>
            let l := match l with Some (S (S n)) => Some (S n) | _ => None end in
            '(k, l, datlen, nread) ← remove_buffer_loop cs' l (datlen - off c) (nread + off c);
            Some (S k, l, datlen, nread)
        end
      else Some (0%nat, l, datlen, nread)
  end.

(** ** Pulling up *)

(** Whether a pinned chain is met before [remaining] bytes are. *)
Fixpoint pullup_pinned (cs : list evbuffer_chain) (remaining : Z) : bool :=
  match cs with
  | [] => false
  | c :: cs => CHAIN_PINNED c || (if remaining <=? off c then false else pullup_pinned cs (remaining - off c))
  end.

(** "Copy and free every chunk that will be entirely pulled into tmp": [i] numbers the chains,
    [m] is tmp's block and [p] where the next byte goes.  Answers the chains left, how many were
    freed, the block, the position, the size left and the two flags. *)
Fixpoint pullup_loop (cs : list evbuffer_chain) (i : nat) (lwdata : option nat) (lwdp : nat)
    (m : list byte) (p size : Z) (rd rdp : bool)
    : option (list evbuffer_chain * nat * list byte * Z * Z * bool * bool) :=
  match cs with
  | [] => Some ([], 0%nat, m, p, size, rd, rdp)
  | c :: cs' =>
      if off c <=? size then
        d ← chain_data c;
        m ← splice m p d;
        '(rest, k, m, p, size, rd, rdp) ←
          pullup_loop cs' (S i) lwdata lwdp m (p + off c) (size - off c)
            (rd || bool_decide (lwdata = Some i)) (rdp || (S i =? lwdp)%nat);
        Some (rest, S k, m, p, size, rd, rdp)
      else Some (cs, 0%nat, m, p, size, rd, rdp)
  end.

(** The chunk that is pulled up in part. *)
Definition pullup_partial (rest : list evbuffer_chain) (m : list byte) (p size : Z)
    : option (list byte * list evbuffer_chain) :=
  match rest with
  | c :: rest =>
      d ← slice (buffer c) (misalign c) size;
      m ← splice m p d;
      Some (m, Chain (buffer c) (misalign c + size) (off c - size) (flags c) :: rest)
  | [] => Some (m, [])
  end.

Section Moves.
Variable mm : nat → Z → option (nat → byte).

(** The chains from the first read-pinned one on are taken off [src]; [None] inside: no memory
    for the copy of its data. *)
Definition PRESERVE_PINNED (src : evbuffer) : option (option (list evbuffer_chain) * evbuffer) :=
  if negb (HAS_PINNED_R src) then Some (Some [], src) else
  c0 ← chains src !! lwd src;
  let p := if CHAIN_PINNED_R c0 then lwd src else S (lwd src) in
  c ← chains src !! p;
  if negb (CHAIN_PINNED_R c) then None else
  let tail := drop (S p) (chains src) in
  if off c =? 0 then
    Some (Some (c :: tail), with_chains (take p (chains src)) (lwd src) (total_len src) src)
  else if negb (p =? lwd src)%nat then None
  else match chain_alloc mm src (off c) with
  | (None, src) => Some (None, src)
  | (Some tmp, src) =>
      d ← chain_data c;
      m ← splice (buffer tmp) 0 d;
      Some (Some (Chain (buffer c) (misalign c + off c) 0 (flags c) :: tail),
        with_chains (take (lwd src) (chains src) ++ [Chain m (misalign tmp) (off c) (flags tmp)])
          (lwd src) (total_len src) src)
  end.

Definition RESTORE_PINNED (src : evbuffer) (pinned : list evbuffer_chain) : evbuffer :=
  if decide (pinned = []) then ZERO_CHAIN src else with_chains pinned 0 0 src.

(** The end of the two moves of a whole buffer. *)
Definition moved (outbuf inbuf : evbuffer) (pinned : list evbuffer_chain) (n : Z)
    : Z * evbuffer * evbuffer :=
  (0, evbuffer_invoke_callbacks_ (count_add n outbuf),
   evbuffer_invoke_callbacks_ (count_del n (RESTORE_PINNED inbuf pinned))).

(** Result, [outbuf], [inbuf]. *)
Definition evbuffer_add_buffer (outbuf inbuf : evbuffer) : option (Z * evbuffer * evbuffer) :=
  let in_total_len := total_len inbuf in
  let out_total_len := total_len outbuf in
  if in_total_len =? 0 then Some (0, outbuf, inbuf) else
  if freeze_end outbuf || freeze_start inbuf then Some (-1, outbuf, inbuf) else
  '(pinned, inbuf) ← PRESERVE_PINNED inbuf;
  match pinned with
  | None => Some (-1, outbuf, inbuf)
  | Some pinned =>
      outbuf ← (if out_total_len =? 0 then Some (COPY_CHAIN outbuf inbuf)
        else APPEND_CHAIN outbuf inbuf);
      Some (moved outbuf inbuf pinned in_total_len)
  end.

Definition evbuffer_prepend_buffer (outbuf inbuf : evbuffer) : option (Z * evbuffer * evbuffer) :=
  let in_total_len := total_len inbuf in
  let out_total_len := total_len outbuf in
  if in_total_len =? 0 then Some (0, outbuf, inbuf) else
  if freeze_start outbuf || freeze_start inbuf then Some (-1, outbuf, inbuf) else
  '(pinned, inbuf) ← PRESERVE_PINNED inbuf;
  match pinned with
  | None => Some (-1, outbuf, inbuf)
  | Some pinned =>
      outbuf ← (if out_total_len =? 0 then Some (COPY_CHAIN outbuf inbuf)
        else PREPEND_CHAIN outbuf inbuf);
      Some (moved outbuf inbuf pinned in_total_len)
  end.

(** "we can remove the chain": [k] chains of [src] go to the end of [dst], if they hold data.
    Answers the two buffers and the number of the next chain in [src]. *)
Definition remove_buffer_chains (src dst : evbuffer) (k : nat) (l : option nat) (nread : Z)
    : option (evbuffer * evbuffer * nat) :=
  if nread =? 0 then
    Some (with_chains (chains src) (match l with Some n => k + n | None => 0 end)%nat
      (total_len src) src, dst, k)
  else
    '(_, dst) ← evbuffer_free_trailing_empty_chains dst;
    let dst := with_chains (chains dst ++ take k (chains src)) (lwd dst) (total_len dst) dst in
    let src := with_chains (drop k (chains src)) (default 0%nat l) (total_len src) src in
    let dst := advance_last_with_data dst in
    Some (src, count_add nread
      (with_chains (chains dst) (lwd dst) (uint64 (total_len dst + nread)) dst), 0%nat).

(** The part of evbuffer_remove_buffer after its loop: then [datlen] bytes of the next chain are
    copied, whatever evbuffer_add answers. *)
Definition remove_buffer_move (src dst : evbuffer) (k : nat) (l : option nat) (datlen nread : Z)
    : option (Z * evbuffer * evbuffer) :=
  '(src, dst, k) ← remove_buffer_chains src dst k l nread;
  c ← chains src !! k;
  d ← slice (buffer c) (misalign c) datlen;
  '(_, dst) ← evbuffer_add mm dst d;
  let nread := nread + datlen in
  let src := count_del nread (with_chains
    (<[k := Chain (buffer c) (misalign c + datlen) (off c - datlen) (flags c)]> (chains src))
    (lwd src) (uint64 (total_len src - nread)) src) in
  if nread =? 0 then Some (int32 nread, src, dst)
  else Some (int32 nread, evbuffer_invoke_callbacks_ src, evbuffer_invoke_callbacks_ dst).

(** Result, [src], [dst]. *)
Definition evbuffer_remove_buffer (src dst : evbuffer) (datlen : Z) : option (Z * evbuffer * evbuffer) :=
  if datlen =? 0 then Some (0, src, dst) else
  if freeze_end dst || freeze_start src then Some (-1, src, dst) else
  if total_len src <=? datlen then
    '(_, dst', src') ← evbuffer_add_buffer dst src;
    Some (int32 (total_len src), src', dst')
  else
    '(k, l, datlen, nread) ← remove_buffer_loop (chains src) (Some (lwd src)) datlen 0;
    remove_buffer_move src dst k l datlen nread.

(** The third part of evbuffer_prepend: a new first chain, its data at the end of its block. *)
Definition prepend_new_chain (b : evbuffer) (data : list byte) : option (Z * evbuffer) :=
  let datlen := Zlen data in
  match chain_alloc mm b datlen with
  | (None, b) => Some (-1, b)
  | (Some tmp, b) =>
      if buffer_len tmp <? datlen then None else
      m ← splice (buffer tmp) (buffer_len tmp - datlen) data;
      Some (0, evbuffer_invoke_callbacks_ (count_add datlen
        (with_chains (Chain m (buffer_len tmp - datlen) datlen (flags tmp) :: chains b)
          (S (lwd b)) (uint64 (total_len b + datlen)) b)))
  end.

(** "we can only fit some of the data": the last [k] bytes go before the data of the first
    chain.  Answers the buffer and the data left. *)
Definition prepend_room (b : evbuffer) (c : evbuffer_chain) (rest : list evbuffer_chain)
    (k : Z) (data : list byte) : option (evbuffer * list byte) :=
  if k =? 0 then
    Some (with_chains (Chain (buffer c) k (off c) (flags c) :: rest) (lwd b) (total_len b) b, data)
  else
    m ← splice (buffer c) 0 (drop (Z.to_nat (Zlen data - k)) data);
    Some (count_add k (with_chains (Chain m 0 (off c + k) (flags c) :: rest) (lwd b)
      (uint64 (total_len b + k)) b), take (Z.to_nat (Zlen data - k)) data).

Definition prepend_first (b : evbuffer) (data : list byte) : option (Z * evbuffer) :=
  let datlen := Zlen data in
  match chains b with
  | [] => None
  | c :: rest =>
      if CHAIN_IMMUTABLE c then prepend_new_chain b data
      else if negb ((0 <=? misalign c) && (misalign c <=? EVBUFFER_CHAIN_MAX)) then None
      else
        let k := if off c =? 0 then buffer_len c else misalign c in
        if datlen <=? k then
          m ← splice (buffer c) (k - datlen) data;
          Some (0, evbuffer_invoke_callbacks_ (count_add datlen
            (with_chains (Chain m (k - datlen) (off c + datlen) (flags c) :: rest) (lwd b)
              (uint64 (total_len b + datlen)) b)))
        else
          '(b, data) ← prepend_room b c rest k data;
          prepend_new_chain b data
  end.

Definition evbuffer_prepend (b : evbuffer) (data : list byte) : option (Z * evbuffer) :=
  if freeze_start b then Some (-1, b) else
  if SIZE_MAX - total_len b <? Zlen data then Some (-1, b) else
  match chains b with
  | [] =>
      '(i, b) ← evbuffer_chain_insert_new mm b (Zlen data);
      match i with
      | None => Some (-1, b)
      | Some _ => prepend_first b data
      end
  | _ => prepend_first b data
  end.

(** What follows the choice of [tmp]: its block, its start, where the copy goes and how much is
    still to copy; [i] is the number of the first chain to copy from, [lwdata] the number of
    [*last_with_datap] and [kept] how many of the old chains precede [i]. *)
Definition pullup_copy (b : evbuffer) (m : list byte) (mis fl newoff p size : Z)
    (i : nat) (lwdata : option nat) : option evbuffer :=
  '(rest, k, m, p, size, rd, rdp) ←
    pullup_loop (drop i (chains b)) i lwdata (lwd b) m p size false false;
  '(m, rest) ← pullup_partial rest m p size;
  let l :=
    if (rd : bool) then 0%nat
    else if (rdp : bool) then
      match rest with c :: _ => if off c =? 0 then 0%nat else 1%nat | [] => 0%nat end
    else if decide (lwd b = 0%nat) then 0%nat
    else (lwd b + 1 - i - k)%nat in
  Some (with_chains (Chain m mis newoff fl :: rest) l (total_len b) b).

(** [true]: a pointer to the data of the first chain; [false]: NULL. *)
Definition evbuffer_pullup (b : evbuffer) (size : Z) : option (bool * evbuffer) :=
  let size := if size <? 0 then total_len b else size in
  if (size =? 0) || (total_len b <? size) then Some (false, b) else
  match chains b with
  | [] => None
  | c :: rest =>
      if size <=? off c then Some (true, b) else
      let remaining := size - off c in
      if pullup_pinned rest remaining then Some (false, b) else
      let lwdata := match chains b !! lwd b with Some _ => Some (lwd b) | None => None end in
      if CHAIN_PINNED c then
        if CHAIN_SPACE_LEN c <? size - off c then Some (false, b) else
        b ← pullup_copy b (buffer c) (misalign c) (flags c) size (misalign c + off c)
          (size - off c) 1 lwdata;
        Some (true, b)
      else if size <=? buffer_len c - misalign c then
        b ← pullup_copy b (buffer c) (misalign c) (flags c) size (misalign c + off c)
          (size - off c) 1 lwdata;
        Some (true, b)
      else match chain_alloc mm b size with
      | (None, b) => Some (false, b)
      | (Some tmp, b) =>
          b ← pullup_copy b (buffer tmp) (misalign tmp) (flags tmp) size 0 size 0
            (if decide (lwd b = 0%nat) then None else lwdata);
          Some (true, b)
      end
  end.

(** sizeof(struct evbuffer_chain_reference). *)
Definition CHAIN_REFERENCE_SIZE : Z := 16.

(** The referenced memory becomes the block of an immutable chain.  The cleanup function is not
    modelled. *)
Definition evbuffer_add_reference (b : evbuffer) (data : list byte) : option (Z * evbuffer) :=
  match chain_alloc mm b CHAIN_REFERENCE_SIZE with
  | (None, b) => Some (-1, b)
  | (Some c, b) =>
      let c := Chain data 0 (Zlen data) (Z.lor (flags c) (Z.lor EVBUFFER_REFERENCE EVBUFFER_IMMUTABLE)) in
      if freeze_end b then Some (-1, b) else
      b ← evbuffer_chain_insert b c;
      Some (0, evbuffer_invoke_callbacks_ (count_add (Zlen data) b))
  end.

End Moves.

(** ** Moving whole buffers *)

Lemma wf_no_pins b : wf b → HAS_PINNED_R b = false.
Proof.
  intros (Hwf & _). unfold HAS_PINNED_R. destruct (last (chains b)) as [c|] eqn:El; [|done].
  apply pinned_r. rewrite Forall_forall in Hwf. by apply (Hwf c), last_Some_elem_of.
Qed.

(** In a buffer with data, [last_with_datap] designates a chain with data. *)
Lemma lwd_data b :
  wf b → total_len b ≠ 0 →
  ∃ l1 c l2, chains b = l1 ++ c :: l2 ∧ lwd b = length l1 ∧ Forall empty_chain l2 ∧ off c ≠ 0.
Proof.
  intros (Hwf & Ht & _ & [[Hn _]|(l1 & c & l2 & Hc & Hl & He & Hne)]) Htot.
  - unfold bytes in Ht. rewrite Hn in Ht. done.
  - exists l1, c, l2. repeat split; try done. destruct Hne as [->|]; [|done]. intros H0. apply Htot.
    rewrite Ht. unfold bytes. rewrite Hc. rewrite cbytes_empty; [done|]. by constructor.
Qed.

Lemma append_chain_ok dst src :
  wf dst → wf src → total_len src ≠ 0 → total_len dst + total_len src <= SIZE_MAX →
  ∃ b', APPEND_CHAIN dst src = Some b' ∧ wf b' ∧ same_frame dst b' ∧ bytes b' = bytes dst ++ bytes src.
Proof.
  intros Hd Hs H0 Hmax. pose proof (wf_total dst Hd). pose proof (wf_total src Hs).
  unfold APPEND_CHAIN.
  destruct (free_trailing_ok dst Hd) as (keep & rest & Hk & He & -> & _).
  destruct (lwd_data src Hs H0) as (l1 & c & l2 & Hc & Hl & He2 & Hoff).
  cbn [mbind option_bind chains lwd total_len with_chains].
  rewrite uint64_id by (unfold SIZE_MAX in *; lia).
  pose proof Hd as (Hwd & Htd & _ & _). pose proof Hs as (Hws & Hts & _ & _).
  assert (cbytes keep = bytes dst) as Hby.
  { unfold bytes. by rewrite Hk, cbytes_app, (cbytes_empty rest), app_nil_r. }
  assert (cbytes (keep ++ chains src) = bytes dst ++ bytes src) as Hall by by rewrite cbytes_app, Hby.
  eexists. split; [done|]. split; [|done]. apply wf_with_chains.
  - rewrite Hk in Hwd. apply Forall_app in Hwd as [? _]. by apply Forall_app.
  - right. exists (keep ++ l1), c, l2. rewrite Hc, Hl, length_app, <- (assoc_L (++)).
    repeat split; try done. by right.
  - rewrite Hall, length_app. lia.
  - done.
Qed.

Lemma prepend_chain_ok dst src :
  wf dst → wf src → total_len src ≠ 0 → total_len dst ≠ 0 →
  total_len dst + total_len src <= SIZE_MAX →
  ∃ b', PREPEND_CHAIN dst src = Some b' ∧ wf b' ∧ same_frame dst b' ∧ bytes b' = bytes src ++ bytes dst.
Proof.
  intros Hd Hs H0 H1 Hmax. pose proof (wf_total dst Hd). pose proof (wf_total src Hs).
  unfold PREPEND_CHAIN.
  destruct (lwd_data src Hs H0) as (k1 & k & k2 & Hk & _).
  destruct (lwd_data dst Hd H1) as (l1 & c & l2 & Hc & Hl & He2 & Hoff).
  rewrite decide_False by (rewrite Hk; by destruct k1).
  rewrite uint64_id by (unfold SIZE_MAX in *; lia).
  pose proof Hd as (Hwd & Htd & _ & _). pose proof Hs as (Hws & Hts & _ & _).
  assert (cbytes (chains src ++ chains dst) = bytes src ++ bytes dst) as Hall by by rewrite cbytes_app.
  assert (chains dst !! lwd dst = Some c) as -> by by rewrite Hc, Hl, list_lookup_middle.
  eexists. split; [done|]. split; [|done]. apply wf_with_chains.
  - by apply Forall_app.
  - right. exists (chains src ++ l1), c, l2. rewrite Hc, Hl, length_app, <- (assoc_L (++)).
    repeat split; try done. by right.
  - rewrite Hall, length_app. lia.
  - done.
Qed.

(** Replacing the (empty) contents of [dst]. *)
Lemma copy_chain_ok dst src :
  wf src → wf (COPY_CHAIN dst src) ∧ same_frame dst (COPY_CHAIN dst src) ∧
    bytes (COPY_CHAIN dst src) = bytes src.
Proof. done. Qed.

Lemma moved_ok dst dst' src n :
  wf dst' → same_frame dst dst' →
  ∃ b1 b2, moved dst' src [] n = (0, b1, b2) ∧ wf b1 ∧ wf b2 ∧ same_frame dst b1 ∧ same_frame src b2 ∧
    bytes b1 = bytes dst' ∧ bytes b2 = [].
Proof.
  intros Hd Hf. unfold moved, RESTORE_PINNED. rewrite decide_True by done.
  destruct (finish_ok (count_add n dst')) as (H1 & H2 & H3); [done|].
  destruct (finish_ok (count_del n (ZERO_CHAIN src))) as (H4 & H5 & H6).
  { split; [constructor|]. split; [done|]. split; [done|]. by left. }
  eexists _, _. split; [done|]. split; [done|]. split; [done|]. split; [by apply (same_frame_trans _ dst')|].
  split; [exact H6|]. by split.
Qed.

Lemma bytes_nil b : wf b → total_len b = 0 → bytes b = [].
Proof. intros (_ & Ht & _) H0. apply nil_length_inv. lia. Qed.

Section MoveProofs.
Variable mm : nat → Z → option (nat → byte).

Lemma add_buffer_ok outbuf inbuf :
  wf outbuf → wf inbuf → freeze_end outbuf = false → freeze_start inbuf = false →
  total_len outbuf + total_len inbuf <= SIZE_MAX →
  ∃ o' i', evbuffer_add_buffer mm outbuf inbuf = Some (0, o', i') ∧ wf o' ∧ wf i' ∧
    same_frame outbuf o' ∧ same_frame inbuf i' ∧
    bytes o' = bytes outbuf ++ bytes inbuf ∧ bytes i' = [].
Proof.
  intros Ho Hi Hfo Hfi Hmax. unfold evbuffer_add_buffer, PRESERVE_PINNED.
  destruct (Z.eqb_spec (total_len inbuf) 0) as [H0|H0].
  { exists outbuf, inbuf. rewrite (bytes_nil inbuf), app_nil_r by done. done. }
  rewrite Hfo, Hfi, wf_no_pins by done. cbn [orb negb mbind option_bind].
  destruct (Z.eqb_spec (total_len outbuf) 0) as [H1|H1]; cbn [mbind option_bind].
  - destruct (copy_chain_ok outbuf inbuf Hi) as (Hw & Hf & Hb).
    destruct (moved_ok outbuf (COPY_CHAIN outbuf inbuf) inbuf (total_len inbuf)) as (b1 & b2 & -> & ?&?&?&?&Hb1&?); [done..|].
    exists b1, b2. rewrite (bytes_nil outbuf) by done. rewrite Hb1, Hb. done.
  - destruct (append_chain_ok outbuf inbuf) as (o1 & -> & Hw & Hf & Hb); [done..|]. cbn [mbind option_bind].
    destruct (moved_ok outbuf o1 inbuf (total_len inbuf)) as (b1 & b2 & -> & ?&?&?&?&Hb1&?); [done..|].
    exists b1, b2. rewrite Hb1, Hb. done.
Qed.

(** evbuffer_add_buffer moves all the bytes of one buffer to the end of the other without
    copying, and leaves the first one empty; both stay well formed. *)
Theorem evbuffer_add_buffer_spec outbuf inbuf :
  wf outbuf → wf inbuf → freeze_end outbuf = false → freeze_start inbuf = false →
  total_len outbuf + total_len inbuf <= SIZE_MAX →
  ∃ o' i', evbuffer_add_buffer mm outbuf inbuf = Some (0, o', i') ∧ wf o' ∧ wf i' ∧
    same_frame outbuf o' ∧ same_frame inbuf i' ∧
    bytes o' = bytes outbuf ++ bytes inbuf ∧ bytes i' = [].
Proof. apply add_buffer_ok. Qed.

(** evbuffer_prepend_buffer moves all the bytes of one buffer to the front of the other;
    both stay well formed. *)
Theorem evbuffer_prepend_buffer_spec outbuf inbuf :
  wf outbuf → wf inbuf → freeze_start outbuf = false → freeze_start inbuf = false →
  total_len outbuf + total_len inbuf <= SIZE_MAX →
  ∃ o' i', evbuffer_prepend_buffer mm outbuf inbuf = Some (0, o', i') ∧ wf o' ∧ wf i' ∧
    same_frame outbuf o' ∧ same_frame inbuf i' ∧
    bytes o' = bytes inbuf ++ bytes outbuf ∧ bytes i' = [].
Proof.
  intros Ho Hi Hfo Hfi Hmax. unfold evbuffer_prepend_buffer, PRESERVE_PINNED.
  destruct (Z.eqb_spec (total_len inbuf) 0) as [H0|H0].
  { exists outbuf, inbuf. rewrite (bytes_nil inbuf) by done. done. }
  rewrite Hfo, Hfi, wf_no_pins by done. cbn [orb negb mbind option_bind].
  destruct (Z.eqb_spec (total_len outbuf) 0) as [H1|H1]; cbn [mbind option_bind].
  - destruct (copy_chain_ok outbuf inbuf Hi) as (Hw & Hf & Hb).
    destruct (moved_ok outbuf (COPY_CHAIN outbuf inbuf) inbuf (total_len inbuf)) as (b1 & b2 & -> & ?&?&?&?&Hb1&?); [done..|].
    exists b1, b2. rewrite (bytes_nil outbuf), app_nil_r by done. rewrite Hb1, Hb. done.
  - destruct (prepend_chain_ok outbuf inbuf) as (o1 & -> & Hw & Hf & Hb); [done..|]. cbn [mbind option_bind].
    destruct (moved_ok outbuf o1 inbuf (total_len inbuf)) as (b1 & b2 & -> & ?&?&?&?&Hb1&?); [done..|].
    exists b1, b2. rewrite Hb1, Hb. done.
Qed.

End MoveProofs.

(** ** evbuffer_prepend *)

(** Writing [d] right before position [k] of a chain, where its data starts. *)
Lemma chain_prepend_ok c k d :
  chain_wf c → 0 <= k → k + off c <= buffer_len c →
  take (Z.to_nat (off c)) (drop (Z.to_nat k) (buffer c)) = data c → Zlen d <= k →
  ∃ m, splice (buffer c) (k - Zlen d) d = Some m ∧
    let c' := Chain m (k - Zlen d) (off c + Zlen d) (flags c) in
    chain_wf c' ∧ data c' = d ++ data c.
Proof.
  intros (H1&H2&H3&H4&H5&H6&H7) Hk Hko Hdat Hd. unfold buffer_len in *.
  destruct (split_at (buffer c) (k - Zlen d) (Zlen d)) as (a & w & r & Hm & Ha & Hw); [lia..|].
  rewrite (splice_app_eq a w d r) by (done || lia). eexists. split; [done|]. cbn zeta.
  unfold chain_wf, data at 1, buffer_len. cbn [buffer misalign off flags].
  rewrite Hm in *. rewrite !length_app in *. split.
  - repeat split; try done; try lia. intros Him. pose proof (H6 Him). lia.
  - rewrite (drop_app_length' a) by lia. rewrite (take_app_ge d) by lia. f_equal.
    rewrite <- Hdat, (assoc_L (++) a), drop_app_length' by (lens).
    f_equal. lia.
Qed.

(** Outcome of a prepend: all of [d], or, without memory, a suffix of it. *)
Definition prepended (b b' : evbuffer) (r : Z) (d : list byte) : Prop :=
  wf b' ∧ same_frame b b' ∧
  (r = 0 ∧ bytes b' = d ++ bytes b ∨
   r = -1 ∧ ∃ d1 d2, d = d1 ++ d2 ∧ bytes b' = d2 ++ bytes b).

(** Replacing the first chain by one with [d] more bytes before its data. *)
Lemma replace_first b c rest c' d :
  wf b → chains b = c :: rest → chain_wf c' → data c' = d ++ data c → off c' = off c + Zlen d →
  total_len b + Zlen d <= SIZE_MAX →
  wf (with_chains (c' :: rest) (lwd b) (uint64 (total_len b + Zlen d)) b) ∧
  cbytes (c' :: rest) = d ++ bytes b.
Proof.
  intros Hb Hc Hc' Hd Ho Hmax. pose proof (wf_total b Hb) as Ht.
  pose proof Hb as (Hwf & Hlen & _ & Hl). unfold bytes in *. rewrite Hc in *.
  rewrite (uint64_id (total_len b + Zlen d)) by (unfold SIZE_MAX in *; lia).
  assert (cbytes (c' :: rest) = d ++ cbytes (c :: rest)) as Hby
    by by rewrite !cbytes_cons, Hd, (assoc_L (++)).
  split; [|done]. apply Forall_cons in Hwf as [(_ & ? & _) Hw].
  apply wf_with_chains; [by constructor| |rewrite Hby, length_app; lia|lia]. right.
  destruct Hl as [[? _]|(l1 & c0 & l2 & Heq & -> & He & Hne)]; [done|].
  destruct l1 as [|c1 l1]; simplify_eq/=.
  - exists [], c', l2. auto.
  - exists (c' :: l1), c0, l2. repeat split; try done. right. by destruct Hne.
Qed.

Lemma prepend_room_ok b c rest k d :
  wf b → chains b = c :: rest → 0 <= k < Zlen d → k + off c <= buffer_len c →
  (off c = 0 → 0 < k) → (off c ≠ 0 → k = misalign c) →
  total_len b + Zlen d <= SIZE_MAX →
  ∃ b1 d1 d2, prepend_room b c rest k d = Some (b1, d1) ∧ wf b1 ∧ same_frame b b1 ∧
    bytes b1 = d2 ++ bytes b ∧ d = d1 ++ d2 ∧ Zlen d2 = k ∧ total_len b1 ≠ 0.
Proof.
  intros Hb Hc Hk Hk1 Hk2 Hk3 Hmax. unfold prepend_room.
  pose proof Hb as (Hwf & Hlen & _). rewrite Hc in Hwf. apply Forall_cons in Hwf as [Hwc _].
  set (d1 := take (Z.to_nat (Zlen d - k)) d). set (d2 := drop (Z.to_nat (Zlen d - k)) d).
  assert (d = d1 ++ d2) as Hd by (unfold d1, d2; by rewrite take_drop).
  assert (Zlen d2 = k) as Hd2 by (unfold d2; lens).
  destruct (Z.eqb_spec k 0) as [E|E].
  - assert (off c ≠ 0) as Hoff by lia. rewrite (Hk3 Hoff). exists (with_chains (c :: rest) (lwd b) (total_len b) b), d, [].
    split; [by destruct c|]. rewrite app_nil_r, <- Hc. split; [by apply (wf_same b)|].
    repeat split; try done; [cbn; lia|]. cbn [total_len with_chains]. rewrite Hlen. unfold bytes.
    pose proof (data_length c Hwc). rewrite Hc, cbytes_cons, length_app.
    destruct Hwc as (_ & ? & _). lia.
  - destruct (chain_prepend_ok c k d2) as (m & Hm & Hc' & Hd'); [done|lia|done| |lia|].
    { destruct (decide (off c = 0)) as [E0|E0]; [by rewrite E0, data_empty|by rewrite (Hk3 E0)]. }
    rewrite Hd2, Z.sub_diag in *. rewrite Hm. cbn [mbind option_bind].
    destruct (replace_first b c rest (Chain m 0 (off c + k) (flags c)) d2) as [Hw Hby]; try done;
      [cbn; lia|lia|]. rewrite Hd2 in Hw.
    eexists _, _, d2. split; [done|]. repeat split; try done; try apply Hw.
    pose proof (wf_total b Hb). cbn [total_len count_add with_counts with_chains].
    rewrite uint64_id by (unfold SIZE_MAX in *; lia). lia.
Qed.

Section PrependProofs.
Variable mm : nat → Z → option (nat → byte).

Lemma prepend_new_chain_ok b d :
  wf b → total_len b ≠ 0 → total_len b + Zlen d <= SIZE_MAX →
  ∃ r b', prepend_new_chain mm b d = Some (r, b') ∧ wf b' ∧ same_frame b b' ∧
    (r = 0 ∧ bytes b' = d ++ bytes b ∨
     r = -1 ∧ bytes b' = bytes b ∧ alloc_failed mm b b' (Zlen d)).
Proof.
  intros Hb H0 Hmax. pose proof (wf_total b Hb) as Ht. unfold prepend_new_chain, chain_alloc.
  destruct (evbuffer_chain_new mm (n_alloc b) (Zlen d)) as [tmp|] eqn:En; cycle 1.
  { exists (-1), (tick b). repeat split; try done; try apply Hb. right. repeat split; try done.
    eapply alloc_failed_new; [exact En|lia]. }
  destruct (chain_new_ok _ _ _ _ (Nat2Z.is_nonneg _) En) as (Ht1 & Ht2 & Ht3 & Ht4 & Ht5).
  rewrite (proj2 (Z.ltb_ge _ _)) by done.
  destruct (chain_prepend_ok tmp (buffer_len tmp) d) as (m & -> & Hc' & Hd'); [done|lia|lia| |done|].
  { rewrite Ht3, data_empty by done. done. }
  rewrite Ht3, Z.add_0_l in Hc', Hd'. rewrite (data_empty tmp), app_nil_r in Hd' by done.
  cbn [mbind option_bind].
  set (c' := Chain m _ _ _) in *.
  rewrite (uint64_id (total_len (tick b) + Zlen d)) by (cbn; unfold SIZE_MAX in *; lia).
  set (b1 := with_chains _ _ _ _).
  destruct (lwd_data b Hb H0) as (l1 & c & l2 & Hc & Hl & He & Hoff).
  assert (wf b1) as Hb1.
  { apply wf_with_chains.
    - constructor; [done|]. apply Hb.
    - right. exists (c' :: l1), c, l2. cbn [chains lwd tick]. rewrite Hc, Hl. repeat split; auto.
    - rewrite cbytes_cons, length_app, Hd'. cbn [total_len tick chains]. fold (bytes b).
      destruct Hb as (_ & -> & _). lia.
    - done. }
  destruct (finish_ok (count_add (Zlen d) b1)) as (Hw & Hby & Hf); [done|].
  eexists 0, _. split; [done|]. split; [done|]. split; [by apply (same_frame_trans _ b1)|]. left. split; [done|].
  rewrite Hby. unfold bytes at 1. cbn [chains count_add with_counts b1 with_chains tick].
  by rewrite cbytes_cons, Hd'.
Qed.

Lemma prepend_first_ok b d :
  wf b → chains b ≠ [] → total_len b + Zlen d <= SIZE_MAX →
  ∃ r b', prepend_first mm b d = Some (r, b') ∧ prepended b b' r d ∧
    (r = -1 → alloc_failed mm b b' (Zlen d)).
Proof.
  intros Hb Hn Hmax. unfold prepend_first. destruct (chains b) as [|c rest] eqn:Hc; [done|].
  pose proof Hb as (Hwf & Hlen & _). rewrite Hc in Hwf. apply Forall_cons in Hwf as [Hwc _].
  pose proof (data_length c Hwc) as Hdl. pose proof Hwc as (H1&H2&H3&H4&H5&H6&H7).
  assert (off c ≠ 0 → total_len b ≠ 0) as Htot.
  { intros. rewrite Hlen. unfold bytes. rewrite Hc, cbytes_cons, length_app. lia. }
  destruct (CHAIN_IMMUTABLE c) eqn:Him.
  { destruct (prepend_new_chain_ok b d) as (r & b' & -> & Hw & Hf & Hr); [done|auto|done|].
    exists r, b'. split; [done|]. split; [|intros ->; destruct Hr as [[? _]|(_&_&?)]; [done|done]].
    split; [done|]. split; [done|]. destruct Hr as [?|(?&?&?)]; [by left|right].
    split; [done|]. exists d, []. by rewrite app_nil_r. }
  rewrite (proj2 (Z.leb_le 0 _)), (proj2 (Z.leb_le (misalign c) _)) by elia. cbn [andb negb].
  set (k := if off c =? 0 then _ else _).
  assert (0 <= k ∧ k + off c <= buffer_len c ∧ (off c = 0 → 0 < k) ∧
    take (Z.to_nat (off c)) (drop (Z.to_nat k) (buffer c)) = data c) as (Hk0 & Hk1 & Hk2 & Hk3).
  { subst k. destruct (Z.eqb_spec (off c) 0) as [E|E].
    - rewrite data_empty, E by done. repeat split; (done || lia).
    - repeat split; (done || lia). }
  destruct (Z.leb_spec (Zlen d) k) as [Hfit|Hfit].
  { destruct (chain_prepend_ok c k d) as (m & -> & Hc' & Hd'); [done..|]. cbn [mbind option_bind].
    destruct (replace_first b c rest (Chain m (k - Zlen d) (off c + Zlen d) (flags c)) d) as [Hw Hby]; try done.
    set (b1 := with_chains _ _ _ _) in *.
    destruct (finish_ok (count_add (Zlen d) b1)) as (Hw1 & Hby1 & Hf1); [done|].
    eexists 0, _. split; [done|]. split; [|done]. split; [done|]. split; [done|]. left.
    split; [done|]. by rewrite Hby1. }
  destruct (prepend_room_ok b c rest k d) as (b1 & d1 & d2 & -> & Hw1 & Hf1 & Hby1 & Hd & Hd2 & Hnz); try done.
  { intros Hoff. subst k. by destruct (Z.eqb_spec (off c) 0). }
  assert (Zlen d1 + Zlen d2 = Zlen d) as Hd12 by (rewrite Hd, length_app; lia).
  cbn [mbind option_bind].
  assert (total_len b1 = k + total_len b) as Ht1.
  { destruct Hw1 as (_ & -> & _). rewrite Hby1, length_app, Hlen. lia. }
  destruct (prepend_new_chain_ok b1 d1) as (r & b' & -> & Hw & Hf & Hr); [done|done|lia|].
  exists r, b'. split; [done|]. split; [|intros ->; destruct Hr as [[? _]|(_&_&Hr)]; [done|];
    apply (alloc_failed_le mm _ _ (Zlen d1)); [lia|by eapply alloc_failed_wide]].
  split; [done|]. split; [by apply (same_frame_trans _ b1)|].
  destruct Hr as [[-> Hr]|(->&Hr&_)]; [left|right]; (split; [done|]).
  - rewrite Hr, Hby1, Hd. by rewrite <- (assoc_L (++)).
  - exists d1, d2. by rewrite Hr.
Qed.

Lemma prepend_ok b d :
  wf b → freeze_start b = false →
  ∃ r b', evbuffer_prepend mm b d = Some (r, b') ∧ prepended b b' r d ∧
    (r = -1 → SIZE_MAX < total_len b + Zlen d ∨ alloc_failed mm b b' (Zlen d)).
Proof.
  intros Hb Hfs. unfold evbuffer_prepend. rewrite Hfs.
  destruct (Z.ltb_spec (SIZE_MAX - total_len b) (Zlen d)) as [Hov|Hmax].
  { exists (-1), b. split; [done|]. split; [|intros _; left; lia]. split; [done|]. split; [done|].
    right. split; [done|]. exists d, []. by rewrite app_nil_r. }
  assert (total_len b + Zlen d <= SIZE_MAX) as Hmax' by lia. clear Hmax.
  destruct (chains b) as [|c rest] eqn:Hc; cycle 1.
  { destruct (prepend_first_ok b d) as (r & b' & ? & ? & ?); [done|by rewrite Hc|done|]. exists r, b'. auto. }
  unfold evbuffer_chain_insert_new, chain_alloc.
  destruct (evbuffer_chain_new mm (n_alloc b) (Zlen d)) as [c|] eqn:En; cycle 1.
  { exists (-1), (tick b). split; [done|]. split; [|intros _; right; eapply alloc_failed_new; [exact En|lia]].
    split; [done|]. split; [done|]. right. split; [done|]. exists d, []. by rewrite app_nil_r. }
  destruct (chain_new_ok mm _ _ c (Nat2Z.is_nonneg _) En) as (Hc1 & Hc2 & Hc3 & Hc4 & Hc5).
  destruct (chain_insert_ok (tick b) c) as (b1 & -> & Hb1 & Hby & Hf & _ & _ & Hone);
    [done|done|cbn; lia|]. cbn [mbind option_bind]. destruct (Hone Hc) as [Hch1 Hl1].
  assert (bytes b1 = bytes b) as Hby1 by (rewrite Hby, data_empty, app_nil_r by done; done).
  destruct (prepend_first_ok b1 d) as (r & b' & Hadd & (Hw' & Hf' & Hr') & Hr); [done|by rewrite Hch1| |].
  { destruct Hb1 as (_ & -> & _). destruct Hb as (_ & Hlen & _). rewrite Hby1. lia. }
  apply same_frame_tick in Hf. exists r, b'. split; [done|]. split; [|intros Hm; right; eapply alloc_failed_wide; [by apply Hr|done..]].
  split; [done|]. split; [by apply (same_frame_trans _ b1)|]. by rewrite Hby1 in Hr'.
Qed.

(** evbuffer_prepend puts the data before the bytes of the buffer, using the room in front of
    the first chain and then a new chain.  When it returns -1 for want of memory it may already
    have put the end of the data there: the buffer is well formed, but not unchanged. *)
Theorem evbuffer_prepend_spec b d :
  wf b → freeze_start b = false →
  ∃ r b', evbuffer_prepend mm b d = Some (r, b') ∧ prepended b b' r d ∧
    (r = -1 → SIZE_MAX < total_len b + Zlen d ∨ alloc_failed mm b b' (Zlen d)).
Proof. apply prepend_ok. Qed.

End PrependProofs.

(** ** evbuffer_remove_buffer *)

Definition nonempty_chain (c : evbuffer_chain) : Prop := off c ≠ 0.

(** No empty chain before the last one with data. *)
Definition packed (b : evbuffer) : Prop := Forall nonempty_chain (take (lwd b) (chains b)).

Lemma remove_buffer_loop_ok l1 c l2 l datlen nread :
  Forall chain_wf (l1 ++ c :: l2) → Forall empty_chain l2 →
  0 <= datlen < Zlen (cbytes (l1 ++ c :: l2)) →
  l = Some (length l1) ∨ l1 = [] ∧ l = None →
  ∃ k1 h t l' r, l1 ++ c :: l2 = k1 ++ h :: t ∧
    remove_buffer_loop (l1 ++ c :: l2) l datlen nread =
      Some (length k1, l', r, nread + Zlen (cbytes k1)) ∧
    (∃ k2, l1 = k1 ++ k2) ∧ r + Zlen (cbytes k1) = datlen ∧ 0 <= r < off h ∧
    default 0%nat l' = (length l1 - length k1)%nat ∧ (k1 = [] → l' = l).
Proof.
  revert l datlen nread. induction l1 as [|x l1 IH]; intros l datlen nread Hw He Hr Hl; cbn [app] in *.
  - apply Forall_cons in Hw as [Hc _]. rewrite cbytes_cons, (cbytes_empty l2), app_nil_r in Hr by done.
    rewrite data_length in Hr by done. cbn [remove_buffer_loop].
    rewrite (proj2 (Z.leb_gt _ _)) by lia.
    exists [], c, l2, l, datlen. cbn [cbytes fmap list_fmap concat length]. rewrite !Z.add_0_r.
    split_and!; try done; try lia; [by exists []|]. by destruct Hl as [->|[_ ->]].
  - apply Forall_cons in Hw as [Hx Hw]. rewrite cbytes_cons, length_app in Hr.
    pose proof (data_length x Hx) as Hd. pose proof Hx as (_ & ? & _). destruct Hl as [->|[? _]]; [|done].
    cbn [remove_buffer_loop length].
    destruct (Z.leb_spec (off x) datlen) as [Hle|Hgt].
    + destruct (IH (match l1 with [] => None | _ => Some (length l1) end) (datlen - off x) (nread + off x))
        as (k1 & h & t & l' & r & Heq & Hloop & [k2 ->] & Hr1 & Hr2 & Hl' & _); [done|done|lia|by destruct l1; auto|].
      rewrite Heq in *. exists (x :: k1), h, t, l', r.
      assert ((match length (k1 ++ k2) with S n => Some (S n) | O => None end) =
        (match k1 ++ k2 with [] => None | _ => Some (length (k1 ++ k2)) end)) as ->
        by by destruct (k1 ++ k2).
      rewrite Hloop. cbn [mbind option_bind]. rewrite cbytes_cons, length_app.
      split_and!; try done; try lia; [|by exists k2]. do 2 f_equal. lia.
    + exists [], x, (l1 ++ c :: l2), (Some (S (length l1))), datlen.
      cbn [cbytes fmap list_fmap concat length]. rewrite !Z.add_0_r.
      split_and!; try done; try lia. by exists (x :: l1).
Qed.

Lemma advance_count_ok c l : Forall nonempty_chain l → advance_count (c :: l) = length l.
Proof.
  revert c. induction l as [|x l IH]; intros c Hl; [done|]. apply Forall_cons in Hl as [Hx Hl].
  change (advance_count (c :: x :: l)) with (if off x =? 0 then 0%nat else S (advance_count (x :: l))).
  rewrite (proj2 (Z.eqb_neq _ _)) by done. by rewrite IH.
Qed.

(** Appending non-empty chains to a buffer and moving [last_with_datap] along. *)
Lemma append_advance b ks n :
  wf b → Forall chain_wf ks → Forall nonempty_chain ks → ks ≠ [] →
  n = Zlen (cbytes ks) → total_len b + n <= SIZE_MAX →
  ∃ p b1, evbuffer_free_trailing_empty_chains b = Some (p, b1) ∧
    let b2 := advance_last_with_data (with_chains (chains b1 ++ ks) (lwd b1) (total_len b1) b1) in
    let b3 := with_chains (chains b2) (lwd b2) (uint64 (total_len b2 + n)) b2 in
    wf b3 ∧ same_frame b b3 ∧ bytes b3 = bytes b ++ cbytes ks.
Proof.
  intros Hb Hk Hne Hnil -> Hmax. pose proof (wf_total b Hb) as Ht.
  destruct (free_trailing_ok b Hb) as (keep & rest & Hc & He & -> & Hkeep).
  eexists _, _. split; [done|]. cbn zeta. unfold advance_last_with_data.
  cbn [chains lwd total_len with_chains]. rewrite uint64_id by (unfold SIZE_MAX in *; lia).
  destruct Hb as (Hwf & Hlen & _).
  assert (cbytes keep = bytes b) as Hby.
  { unfold bytes. by rewrite Hc, cbytes_app, (cbytes_empty rest), app_nil_r. }
  assert (cbytes (keep ++ ks) = bytes b ++ cbytes ks) as Hby2 by by rewrite cbytes_app, Hby.
  split; [|done]. apply wf_with_chains; [| |rewrite Hby2, length_app; lia|done].
  - rewrite Hc in Hwf. apply Forall_app in Hwf as [? _]. by apply Forall_app.
  - destruct (exists_last Hnil) as (ks' & x & Hks).
    assert (nonempty_chain x) as Hx by 
      (rewrite Hks in Hne; apply Forall_app in Hne as [_ [Hx _]%Forall_cons]; exact Hx).
    right. exists (keep ++ ks'), x, []. rewrite Hks, (assoc_L (++)). split; [done|]. split; [|by auto].
    rewrite length_app. destruct Hkeep as [[-> Hl]|(l1 & c & -> & Hl & _)]; rewrite Hl.
    + destruct ks' as [|y ks']; cbn [drop app]; [done|]. rewrite advance_count_ok.
      * cbn [length]. rewrite length_app. cbn. lia.
      * rewrite Hks in Hne. by apply Forall_cons in Hne as [_ Hne].
    + rewrite <- !(assoc_L (++)), drop_app_length. cbn [app].
      rewrite advance_count_ok by (rewrite Hks in Hne; done).
      rewrite !length_app. cbn. lia.
Qed.

(** The chain the loop stopped at, advanced over the bytes copied from it. *)
Lemma remove_buffer_src b k1 h t n r :
  wf b → chains b = k1 ++ h :: t → n = (lwd b - length k1)%nat → 0 <= r < off h →
  let h' := Chain (buffer h) (misalign h + r) (off h - r) (flags h) in
  let b' := with_chains (h' :: t) n (uint64 (total_len b - (Zlen (cbytes k1) + r))) b in
  wf b' ∧ bytes b' = drop (length (cbytes k1) + Z.to_nat r) (bytes b).
Proof.
  intros Hb Hc -> Hr. cbn zeta. pose proof (wf_total b Hb) as Ht. pose proof Hb as (Hwf & Hlen & _ & Hl).
  rewrite Hc in Hwf, Hl. apply Forall_app in Hwf as [_ [Hh Ht2]%Forall_cons].
  destruct (chain_advance h r Hh) as [Hh' Hd']; [lia|]. set (h' := Chain _ _ _ _) in *.
  pose proof (data_length h Hh) as Hdl.
  assert (cbytes (h' :: t) = drop (length (cbytes k1) + Z.to_nat r) (bytes b)) as Hby.
  { unfold bytes. rewrite Hc, cbytes_app, !cbytes_cons, Hd', <- drop_drop, drop_app_length.
    by rewrite drop_app_le by lia. }
  assert (Zlen (bytes b) = Zlen (cbytes k1) + off h + Zlen (cbytes t)) as Hlen2.
  { unfold bytes. rewrite Hc, cbytes_app, cbytes_cons, !length_app. lia. }
  rewrite uint64_id by (unfold SIZE_MAX in *; lia).
  split; [|done]. apply wf_with_chains; [by constructor| | |lia].
  - eapply lwd_ok_drop; [exact Hl|lia].
  - rewrite Hby, length_drop. lia.
Qed.

(** The move of the [k1] chains. *)
Lemma remove_buffer_chains_ok src dst k1 h t l :
  wf src → wf dst → total_len dst + total_len src <= SIZE_MAX →
  chains src = k1 ++ h :: t → Forall nonempty_chain k1 →
  default 0%nat l = (lwd src - length k1)%nat → (k1 = [] → l = Some (lwd src)) →
  ∃ src1 dst1, remove_buffer_chains src dst (length k1) l (Zlen (cbytes k1)) = Some (src1, dst1, 0%nat) ∧
    src1 = with_chains (h :: t) (lwd src - length k1) (total_len src) src ∧
    wf dst1 ∧ same_frame dst dst1 ∧ bytes dst1 = bytes dst ++ cbytes k1.
Proof.
  intros Hs Hd Hmax Hc Hk1 Hl Hl0. unfold remove_buffer_chains.
  pose proof Hs as (Hwf & Hlen & _). unfold bytes in Hlen. rewrite Hc in Hwf, Hlen.
  apply Forall_app in Hwf as [Hwk1 _]. rewrite cbytes_app, length_app in Hlen.
  destruct (Z.eqb_spec (Zlen (cbytes k1)) 0) as [E|E].
  - assert (k1 = []) as ->.
    { destruct k1 as [|x k1]; [done|]. apply Forall_cons in Hk1 as [Hx _]. apply Forall_cons in Hwk1 as [Hwx _].
      rewrite cbytes_cons, length_app in E. pose proof (data_length x Hwx). unfold nonempty_chain in Hx. lia. }
    rewrite (Hl0 eq_refl), Hc. cbn [app length Nat.add]. rewrite Nat.sub_0_r.
    eexists _, _. split; [done|]. rewrite app_nil_r. done.
  - assert (k1 ≠ []) as Hnil by by intros ->.
    destruct (append_advance dst k1 (Zlen (cbytes k1)) Hd Hwk1 Hk1 Hnil eq_refl) as (p & b1 & -> & H1 & H2 & H3); [lia|].
    cbn [mbind option_bind]. rewrite Hc, take_app_length, drop_app_length, Hl.
    eexists _, _. split; [done|]. done.
Qed.

(** Where the copy of the rest got to, by what evbuffer_add answered. *)
Lemma remove_buffer_copied mm src dst dst1 dst2 k1 h t r ra :
  wf dst → wf dst1 → same_frame dst dst1 → freeze_end dst = false →
  total_len dst + total_len src <= SIZE_MAX → total_len src = Zlen (bytes src) →
  bytes src = cbytes k1 ++ data h ++ cbytes t → bytes dst1 = bytes dst ++ cbytes k1 →
  0 <= r <= Zlen (data h) →
  appended dst1 dst2 ra (take (Z.to_nat r) (data h)) →
  (ra = -1 → freeze_end dst1 = true ∨ SIZE_MAX < total_len dst1 + r ∨ alloc_failed mm dst1 dst2 r) →
  ∃ m, bytes dst2 = bytes dst ++ take (Z.to_nat m) (bytes src) ∧
    0 <= m <= Zlen (cbytes k1) + r ∧
    (m = Zlen (cbytes k1) + r ∨ alloc_failed mm dst dst2 (Zlen (cbytes k1) + r - m)).
Proof.
  intros Hd Hwd1 Hfd Hfe Hmax Hlen Hbs Hbd1 Hr (_ & _ & [[-> Hb2]|[-> Hb2]]) Hfail.
  - exists (Zlen (cbytes k1) + r). split; [|split; [lia|by left]].
    rewrite Hb2, Hbd1, Hbs, <- (assoc_L (++)). f_equal. rewrite (take_app_ge (cbytes k1)) by lia. f_equal.
    replace (Z.to_nat _ - _)%nat with (Z.to_nat r) by lia. by rewrite take_app_le by lia.
  - exists (Zlen (cbytes k1)). split; [by rewrite Hb2, Hbd1, Hbs, Nat2Z.id, take_app_length|].
    split; [lia|right]. replace (_ + r - _) with r by lia.
    pose proof Hfd as (_ & Hfd1 & _).
    destruct (Hfail eq_refl) as [Hf|[Hf|Hf]]; [congruence| |by eapply alloc_failed_wide].
    destruct Hwd1 as (_ & Ht1 & _). destruct Hd as (_ & Hdl & _).
    rewrite Hbs, !length_app in Hlen. rewrite Ht1, Hbd1, length_app in Hf. lia.
Qed.

Section RemoveBufferProofs.
Variable mm : nat → Z → option (nat → byte).

(** The move of the [k1] chains and the copy of [r] bytes of the next chain. *)
Lemma remove_buffer_move_ok src dst k1 h t l r :
  wf src → wf dst → freeze_end dst = false → total_len dst + total_len src <= SIZE_MAX →
  chains src = k1 ++ h :: t → Forall nonempty_chain k1 → 0 <= r < off h →
  default 0%nat l = (lwd src - length k1)%nat → (k1 = [] → l = Some (lwd src)) →
  ∃ src' dst' m, remove_buffer_move mm src dst (length k1) l r (Zlen (cbytes k1)) =
      Some (int32 (Zlen (cbytes k1) + r), src', dst') ∧
    wf src' ∧ wf dst' ∧ same_frame src src' ∧ same_frame dst dst' ∧
    bytes src' = drop (Z.to_nat (Zlen (cbytes k1) + r)) (bytes src) ∧
    bytes dst' = bytes dst ++ take (Z.to_nat m) (bytes src) ∧
    0 <= m <= Zlen (cbytes k1) + r ∧
    (m = Zlen (cbytes k1) + r ∨ alloc_failed mm dst dst' (Zlen (cbytes k1) + r - m)).
Proof.
  intros Hs Hd Hfe Hmax Hc Hk1 Hr Hl Hl0. unfold remove_buffer_move.
  destruct (remove_buffer_src src k1 h t (lwd src - length k1) r Hs Hc eq_refl Hr) as [Hw1 Hby1].
  destruct (remove_buffer_chains_ok src dst k1 h t l) as (src1 & dst1 & -> & -> & Hwd1 & Hfd1 & Hbd1); [done..|].
  pose proof Hs as (Hwf & Hlen & _). rewrite Hc in Hwf. apply Forall_app in Hwf as [_ [Hwh _]%Forall_cons].
  pose proof (data_length h Hwh) as Hdl. cbn [mbind option_bind chains with_chains].
  change ((h :: t) !! 0%nat) with (Some h). cbn [mbind option_bind].
  assert (slice (buffer h) (misalign h) r = Some (take (Z.to_nat r) (data h))) as ->.
  { rewrite <- (Z.add_0_r (misalign h)). rewrite chain_slice by (done || lia). by rewrite drop_0. }
  cbn [mbind option_bind]. destruct (add_ok mm dst1 (take (Z.to_nat r) (data h)) Hwd1) as (ra & dst2 & -> & Happ & Hfail).
  pose proof Happ as (Hwd2 & Hfd2 & _). rewrite length_take, Nat2Z.inj_min, Z2Nat.id, Z.min_l in Hfail by lia.
  destruct (remove_buffer_copied mm src dst dst1 dst2 k1 h t r ra) as (m & Hm1 & Hm2 & Hm3); try done; [|lia|].
  { unfold bytes. by rewrite Hc, cbytes_app. }
  cbn [mbind option_bind].
  assert (Z.to_nat (Zlen (cbytes k1) + r) = (length (cbytes k1) + Z.to_nat r)%nat) as -> by lia.
  set (s2 := count_del _ _).
  assert (wf s2 ∧ same_frame src s2 ∧ bytes s2 = drop (length (cbytes k1) + Z.to_nat r) (bytes src)) as (Hs2&Hs3&Hs4) by done.
  assert (same_frame dst dst2) as Hfd by by apply (same_frame_trans _ dst1).
  destruct (_ =? 0).
  - exists s2, dst2, m. split_and!; try done; lia.
  - destruct (finish_ok s2 Hs2) as (?&Hy1&?). destruct (finish_ok dst2 Hwd2) as (?&Hy2&?).
    assert (same_frame src (evbuffer_invoke_callbacks_ s2)) by by apply (same_frame_trans _ s2).
    assert (same_frame dst (evbuffer_invoke_callbacks_ dst2)) by by apply (same_frame_trans _ dst2).
    eexists _, _, m. split; [done|]. rewrite Hy1, Hy2. split_and!; try done; try lia.
    destruct Hm3 as [?|Hm3]; [by left|right]. by eapply alloc_failed_wide.
Qed.

(** evbuffer_remove_buffer, on a source without empty chains before its last data: the first
    [n] bytes leave the source, and both buffers stay well formed.  The destination gets all of
    them if memory can be had; else it gets the whole chains only, and the bytes that were to be
    copied are in neither buffer, though the result counts them. *)
Theorem evbuffer_remove_buffer_spec src dst n :
  wf src → wf dst → packed src → 0 <= n → freeze_end dst = false → freeze_start src = false →
  total_len dst + total_len src <= SIZE_MAX →
  ∃ src' dst' m, evbuffer_remove_buffer mm src dst n =
      Some (int32 (Z.min n (Zlen (bytes src))), src', dst') ∧
    wf src' ∧ wf dst' ∧ same_frame src src' ∧ same_frame dst dst' ∧
    bytes src' = drop (Z.to_nat n) (bytes src) ∧
    bytes dst' = bytes dst ++ take (Z.to_nat m) (bytes src) ∧
    0 <= m <= n ∧ (m = n ∨ alloc_failed mm dst dst' (n - m)).
Proof.
  intros Hs Hd Hp Hn Hfe Hfs Hmax. unfold evbuffer_remove_buffer. pose proof Hs as (Hwf & Hlen & _).
  destruct (Z.eqb_spec n 0) as [->|H0].
  { exists src, dst, 0. rewrite Z.min_l by lia. cbn [Z.to_nat drop take]. rewrite app_nil_r, drop_0.
    split_and!; try done; lia. }
  rewrite Hfe, Hfs. cbn [orb]. destruct (Z.leb_spec (total_len src) n) as [Hge|Hlt].
  { destruct (add_buffer_ok mm dst src) as (d' & s' & -> & Hw1 & Hw2 & Hf1 & Hf2 & Hb1 & Hb2); [done..|].
    cbn [mbind option_bind]. exists s', d', n. rewrite Hlen, Z.min_r by lia. rewrite Hb1, Hb2, drop_ge, take_ge by lia.
    split_and!; try done; lia. }
  destruct (lwd_data src Hs) as (l1 & c & l2 & Hc & Hl & He & _); [lia|].
  rewrite Hc in Hwf. unfold bytes in Hlen. rewrite Hc in Hlen.
  destruct (remove_buffer_loop_ok l1 c l2 (Some (length l1)) n 0) as
    (k1 & h & t & l' & r & Heq & Hloop & [k2 Hk2] & Hr1 & Hr2 & Hl' & Hl0); [done|done|lia|by left|].
  assert (remove_buffer_loop (chains src) (Some (lwd src)) n 0 = Some (length k1, l', r, Zlen (cbytes k1)))
    as -> by by rewrite Hc, Hl, Hloop.
  cbn [mbind option_bind].
  destruct (remove_buffer_move_ok src dst k1 h t l' r) as (s' & d' & m & Hmv & Hres); try done.
  - by rewrite Hc, Heq.
  - unfold packed in Hp. rewrite Hc, Hl, take_app_length, Hk2 in Hp. by apply Forall_app in Hp as [? _].
  - by rewrite Hl.
  - rewrite Hl. done.
  - replace (Zlen (cbytes k1) + r) with n in * by lia. exists s', d', m.
    assert (n < Zlen (bytes src)) by (unfold bytes; rewrite Hc; lia). rewrite Z.min_l by lia. done.
Qed.

End RemoveBufferProofs.

(** ** evbuffer_pullup *)

(** Two adjacent writes are one. *)
Lemma splice_splice {A} (m m1 d1 d2 : list A) p :
  splice m p d1 = Some m1 → splice m1 (p + Zlen d1) d2 = splice m p (d1 ++ d2).
Proof.
  intros (H1 & H2 & ->)%splice_inv. unfold splice. rewrite !length_app, length_take, length_drop.
  replace (0 <=? p + Zlen d1) with true by lia. replace (0 <=? p) with true by lia.
  cbn [andb]. set (q := Z.of_nat (Nat.min _ _ + _)). replace q with (Zlen m) by (subst q; lia).
  replace (p + Z.of_nat (length d1 + length d2)) with (p + Zlen d1 + Zlen d2) by lia.
  destruct (_ <=? _) eqn:E; [|done]. apply Z.leb_le in E. f_equal.
  rewrite (assoc_L (++) _ d1), take_app_length' by (lens).
  rewrite <- !(assoc_L (++)). do 3 f_equal.
  rewrite (assoc_L (++) _ d1), drop_app_ge by (lens).
  rewrite drop_drop, length_app, length_take. f_equal. lia.
Qed.

Lemma pullup_pinned_wf cs n : Forall chain_wf cs → pullup_pinned cs n = false.
Proof.
  revert n. induction cs as [|c cs IH]; intros n Hw; [done|]. apply Forall_cons in Hw as [Hc Hw].
  cbn [pullup_pinned]. destruct Hc as (_&_&_&_&->&_). cbn [orb]. case_match; [done|by apply IH].
Qed.

(** Boolean identities between comparisons of naturals. *)
Ltac nat_bools :=
  repeat match goal with
    | |- context [(?a <=? ?b)%nat] => destruct (Nat.leb_spec a b)
    | |- context [(?a =? ?b)%nat] => destruct (Nat.eqb_spec a b)
    | |- context [(?a <? ?b)%nat] => destruct (Nat.ltb_spec a b)
    end; (done || (exfalso; lia)).

(** No chain number lies in an empty window. *)
Lemma window_empty i n : (i <=? n)%nat && (n <? i)%nat = false.
Proof. nat_bools. Qed.
Lemma window_empty' i n : (i <? n)%nat && (n <=? i)%nat = false.
Proof. nat_bools. Qed.
Lemma window_step i n k :
  bool_decide (Some n = Some i) || (S i <=? n)%nat && (n <? S i + k)%nat =
  (i <=? n)%nat && (n <? i + S k)%nat.
Proof.
  assert (bool_decide (Some n = Some i) = (n =? i)%nat) as ->.
  { destruct (Nat.eqb_spec n i); [by rewrite bool_decide_true by congruence|].
    by rewrite bool_decide_false by congruence. }
  nat_bools.
Qed.
Lemma window_step' i n k :
  (S i =? n)%nat || (S i <? n)%nat && (n <=? S i + k)%nat = (i <? n)%nat && (n <=? i + S k)%nat.
Proof.
  nat_bools.
Qed.

Lemma splice_nil {A} (m : list A) p : 0 <= p <= Zlen m → splice m p [] = Some m.
Proof.
  intros. rewrite splice_Some by (cbn; lia). f_equal. cbn [length app]. rewrite Nat.add_0_r.
  apply take_drop.
Qed.

Lemma pullup_loop_ok cs i n m p size rd rdp :
  Forall chain_wf cs → 0 <= p → 0 <= size → p + size <= Zlen m →
  ∃ k1 rest m', cs = k1 ++ rest ∧
    pullup_loop cs i (Some n) n m p size rd rdp =
      Some (rest, length k1, m', p + Zlen (cbytes k1), size - Zlen (cbytes k1),
        rd || ((i <=? n)%nat && (n <? i + length k1)%nat),
        rdp || ((i <? n)%nat && (n <=? i + length k1)%nat)) ∧
    splice m p (cbytes k1) = Some m' ∧ Zlen (cbytes k1) <= size ∧
    match rest with [] => True | c :: _ => size - Zlen (cbytes k1) < off c end.
Proof.
  revert i m p size rd rdp. induction cs as [|c cs IH]; intros i m p size rd rdp Hw Hp Hs Hm.
  { exists [], [], m. cbn [pullup_loop cbytes fmap list_fmap concat length app].
    rewrite Z.add_0_r, Z.sub_0_r, Nat.add_0_r.
    rewrite window_empty, window_empty', !orb_false_r, splice_nil by lia. split_and!; try done; lia. }
  apply Forall_cons in Hw as [Hc Hw]. pose proof (data_length c Hc) as Hd. cbn [pullup_loop].
  destruct (Z.leb_spec (off c) size) as [Hle|Hgt].
  - rewrite chain_data_ok by done. cbn [mbind option_bind].
    assert (∃ m1, splice m p (data c) = Some m1) as [m1 Hm1] by (eexists; apply splice_Some; lia).
    rewrite Hm1. cbn [mbind option_bind]. pose proof (splice_length _ _ _ _ Hm1) as Hlen.
    pose proof Hc as (_ & ? & _).
    destruct (IH (S i) m1 (p + off c) (size - off c) (rd || bool_decide (Some n = Some i)) (rdp || (S i =? n)%nat))
      as (k1 & rest & m' & -> & -> & Hsp & Hk & Hrest); [done|lia..|]. cbn [mbind option_bind].
    exists (c :: k1), rest, m'. rewrite cbytes_cons, length_app.
    rewrite <- Hd, (splice_splice _ _ _ _ _ Hm1) in Hsp. split; [done|]. split; [|split; [done|split; [lia|]]].
    + cbn [length]. rewrite <- !orb_assoc, window_step, window_step'.
      rewrite Nat2Z.inj_add, Hd, Z.add_assoc, Z.sub_add_distr. done.
    + destruct rest; [done|]. lia.
  - exists [], (c :: cs), m. cbn [cbytes fmap list_fmap concat length app].
    rewrite Z.add_0_r, Z.sub_0_r, Nat.add_0_r.
    rewrite window_empty, window_empty', !orb_false_r, splice_nil by lia. split_and!; try done; lia.
Qed.

(** [last_with_datap] after a pullup: the chains [pre ++ k1] were merged into [c'], and the head
    of [rest], if any, lost its first bytes. *)
Lemma pullup_lwd cs pre k1 rest c' rest' l1 c l2 n :
  cs = pre ++ k1 ++ rest → cs = l1 ++ c :: l2 → n = length l1 → Forall empty_chain l2 → off c ≠ 0 →
  (length pre <= n)%nat → n ≠ 0%nat →
  (rest = [] ∧ rest' = [] ∨ ∃ x x' t, rest = x :: t ∧ rest' = x' :: t ∧ off x ≠ 0 ∧ off x' ≠ 0) →
  lwd_ok (c' :: rest')
    (if (length pre <=? n)%nat && (n <? length pre + length k1)%nat then 0%nat
     else if (length pre <? n)%nat && (n <=? length pre + length k1)%nat then
       match rest' with c :: _ => if off c =? 0 then 0%nat else 1%nat | [] => 0%nat end
     else if decide (n = 0%nat) then 0%nat else (n + 1 - length pre - length k1)%nat).
Proof.
  intros Hcs1 Hcs2 Hn He Hoff Hpre Hn0 Hrest. right. rewrite Hcs1, (assoc_L (++)) in Hcs2.
  rewrite (proj2 (Nat.leb_le _ _)) by done. cbn [andb]. rewrite decide_False by done.
  apply app_eq_inv in Hcs2 as [(m & Hm & Heq)|(m & Hm & Heq)].
  - (* the last chain with data was pulled up, or is the head of [rest] *)
    assert (length pre + length k1 = n + length m)%nat as Hl.
    { subst n. apply (f_equal length) in Hm. by rewrite !length_app in Hm. }
    destruct m as [|m0 m]; cbn [app length] in *.
    + rewrite (proj2 (Nat.ltb_ge _ _)) by lia. subst rest.
      destruct Hrest as [[? _]|(x & x' & t & [= <- <-] & -> & _ & Hx')]; [done|].
      rewrite (proj2 (Z.eqb_neq _ _)) by done.
      replace (if (length pre <? n)%nat && (n <=? length pre + length k1)%nat then 1%nat else _) with 1%nat.
      * exists [c'], x', l2. repeat split; auto.
      * case_match; [done|]. lia.
    + rewrite (proj2 (Nat.ltb_lt _ _)) by lia. injection Heq as <- Heq. exists [], c', rest'.
      destruct Hrest as [[-> ->]|(x & x' & t & -> & _ & Hx & _)]; [by auto|].
      subst l2. apply Forall_app in He as [_ [He _]%Forall_cons]. done.
  - assert (n = length pre + length k1 + length m)%nat as Hl.
    { subst n l1. by rewrite !length_app. }
    rewrite (proj2 (Nat.ltb_ge _ _)) by lia.
    destruct Hrest as [[-> _]|(x & x' & t & -> & -> & _ & Hx')]; [by destruct m|].
    rewrite (proj2 (Z.eqb_neq _ _)) by done.
    destruct m as [|m0 m]; cbn [app length] in *; injection Heq as -> ->.
    + replace (if (length pre <? n)%nat && (n <=? length pre + length k1)%nat then 1%nat else _) with 1%nat.
      * exists [c'], x', l2. repeat split; auto.
      * case_match; [done|]. lia.
    + rewrite (proj2 (Nat.leb_gt n _)) by lia. rewrite andb_false_r.
      exists (c' :: x' :: m), c, l2. cbn [app length]. repeat split; auto. lia.
Qed.

Lemma pullup_partial_ok k1 rest m m1 p s :
  splice m p (cbytes k1) = Some m1 → Forall chain_wf rest → 0 <= p → p + s <= Zlen m →
  Zlen (cbytes k1) <= s <= Zlen (cbytes k1) + Zlen (cbytes rest) →
  match rest with [] => True | c :: _ => s - Zlen (cbytes k1) < off c end →
  ∃ m2 rest', pullup_partial rest m1 (p + Zlen (cbytes k1)) (s - Zlen (cbytes k1)) = Some (m2, rest') ∧
    splice m p (take (Z.to_nat s) (cbytes (k1 ++ rest))) = Some m2 ∧
    Forall chain_wf rest' ∧ cbytes rest' = drop (Z.to_nat s) (cbytes (k1 ++ rest)) ∧
    (rest = [] ∧ rest' = [] ∨ ∃ x x' t, rest = x :: t ∧ rest' = x' :: t ∧ off x ≠ 0 ∧ off x' ≠ 0).
Proof.
  intros Hm1 Hw Hp Hroom Hs Hrest. rewrite cbytes_app. set (r := s - _) in *.
  destruct rest as [|x t]; cbn [pullup_partial].
  - exists m1, []. rewrite app_nil_r, take_ge, drop_ge by (cbn in Hs; lia). split_and!; try done. by left.
  - apply Forall_cons in Hw as [Hwx Hwt]. pose proof (data_length x Hwx) as Hdx.
    assert (slice (buffer x) (misalign x) r = Some (take (Z.to_nat r) (data x))) as ->.
    { rewrite <- (Z.add_0_r (misalign x)). rewrite chain_slice by (done || lia). by rewrite drop_0. }
    cbn [mbind option_bind]. rewrite (splice_splice _ _ _ _ _ Hm1), cbytes_cons.
    rewrite (take_app_ge (cbytes k1)), (drop_app_ge (cbytes k1)) by lia.
    replace (Z.to_nat s - length (cbytes k1))%nat with (Z.to_nat r) by lia.
    rewrite take_app_le, drop_app_le by lia.
    destruct (chain_advance x r Hwx) as [Hx' Hdx']; [lia|].
    rewrite (splice_Some m) by (lens).
    cbn [mbind option_bind]. eexists _, _. split; [done|]. split; [done|].
    split; [by constructor|]. split; [by rewrite cbytes_cons, Hdx'|].
    right. eexists x, _, t. split_and!; try done; [lia|cbn; lia].
Qed.

(** The copy: [c0] is the chain that takes the data of the chains after [pre]. *)
Lemma pullup_copy_ok b c0 pre cs s :
  wf b → chains b = pre ++ cs → chain_wf c0 → 0 < s <= Zlen (cbytes cs) →
  misalign c0 + off c0 + s <= buffer_len c0 → cbytes pre = data c0 →
  (length pre <= lwd b)%nat → lwd b ≠ 0%nat →
  ∃ b', pullup_copy b (buffer c0) (misalign c0) (flags c0) (off c0 + s) (misalign c0 + off c0) s
      (length pre) (Some (lwd b)) = Some b' ∧
    wf b' ∧ same_frame b b' ∧ bytes b' = bytes b ∧
    ∃ c' rest, chains b' = c' :: rest ∧ off c' = off c0 + s.
Proof.
  intros Hb Hc Hw0 Hs Hroom Hpre Hl1 Hl2. unfold pullup_copy. rewrite Hc, drop_app_length.
  pose proof Hb as (Hwf & Hlen & _). rewrite Hc in Hwf. apply Forall_app in Hwf as [_ Hwcs].
  destruct (pullup_loop_ok cs (length pre) (lwd b) (buffer c0) (misalign c0 + off c0) s false false)
    as (k1 & rest & m1 & -> & -> & Hm1 & Hk1 & Hrest); [done|by destruct Hw0 as (?&?&_); lia|lia|unfold buffer_len in Hroom; lia|].
  cbn [mbind option_bind orb]. apply Forall_app in Hwcs as [Hwk Hwr].
  rewrite cbytes_app, length_app in Hs. set (r := s - Zlen (cbytes k1)) in *.
  destruct (pullup_partial_ok k1 rest (buffer c0) m1 (misalign c0 + off c0) s)
    as (m2 & rest' & Hpart & Hm2 & Hwr' & Hbr' & Hrel); try done; [|unfold buffer_len in *; lia|].
  { by destruct Hw0 as (?&?&_); lia. }
  fold r in Hpart. rewrite Hpart.
  cbn [mbind option_bind].
  set (d := take (Z.to_nat s) (cbytes (k1 ++ rest))) in *.
  assert (Zlen d = s) as Hd by (unfold d; rewrite length_take, cbytes_app, length_app; lia).
  destruct (chain_append_ok c0 d) as (c' & Hc' & Hwc' & Hdc' & Hoc' & _); [done|lia|].
  unfold chain_append in Hc'. rewrite Hm2, Hd in Hc'. injection Hc' as <-.
  assert (cbytes (Chain m2 (misalign c0) (off c0 + s) (flags c0) :: rest') = bytes b) as Hby.
  { rewrite cbytes_cons, Hdc', Hbr', <- (assoc_L (++)). unfold d. rewrite take_drop. unfold bytes.
    by rewrite Hc, (cbytes_app pre), Hpre. }
  eexists. split; [done|]. split; [|split; [done|split; [done|by eexists _, _]]].
  destruct (lwd_data b Hb) as (l1 & c & l2 & Hc2 & Hl & He & Hoff).
  { rewrite Hlen. unfold bytes. rewrite Hc, cbytes_app, length_app, cbytes_app, length_app. lia. }
  apply wf_with_chains; [by constructor| |by rewrite Hby|by apply wf_total].
  by eapply pullup_lwd.
Qed.

Section PullupProofs.
Variable mm : nat → Z → option (nat → byte).

Lemma pullup_ok b size :
  wf b →
  let n := if size <? 0 then total_len b else size in
  ∃ r b', evbuffer_pullup mm b size = Some (r, b') ∧ wf b' ∧ same_frame b b' ∧ bytes b' = bytes b ∧
    if (r : bool) then 0 < n ∧ ∃ c rest, chains b' = c :: rest ∧ n <= off c
    else n = 0 ∨ total_len b < n ∨ alloc_failed mm b b' n.
Proof.
  intros Hb n. unfold evbuffer_pullup. fold n. pose proof (wf_total b Hb) as Ht.
  destruct (Z.eqb_spec n 0) as [H0|H0]; [exists false, b; cbn [orb]; split_and!; try done; by left|]. cbn [orb].
  destruct (Z.ltb_spec (total_len b) n) as [Hlt|Hge]; [exists false, b; split_and!; try done; by right; left|].
  assert (0 < n) as Hn by (subst n; destruct (Z.ltb_spec size 0); lia).
  destruct (lwd_data b Hb) as (l1 & cl & l2 & Hc & Hl & He & Hoff); [lia|].
  destruct (chains b) as [|c rest] eqn:Hch; [by destruct l1|].
  destruct (Z.leb_spec n (off c)) as [Hle|Hgt].
  { exists true, b. split; [done|]. split; [done|]. split; [done|]. split; [done|]. split; [done|]. by exists c, rest. }
  pose proof Hb as (Hwf & Hlen & _). rewrite Hch in Hwf. apply Forall_cons in Hwf as [Hwc Hwr].
  pose proof (data_length c Hwc) as Hdc. unfold bytes in Hlen. rewrite Hch, cbytes_cons, length_app in Hlen.
  rewrite pullup_pinned_wf by done. pose proof Hwc as (H1&H2&H3&H4&Hp&_). rewrite Hp.
  assert (lwd b ≠ 0%nat) as Hl0.
  { intros E. rewrite E in Hl. destruct l1; [|done]. injection Hc as -> ->.
    rewrite (cbytes_empty l2) in Hlen by done. cbn in Hlen. lia. }
  assert (chains b !! lwd b = Some cl) as Hcl by (rewrite Hch, Hc, Hl; by rewrite list_lookup_middle).
  rewrite Hch in Hcl. rewrite Hcl.
  destruct (Z.leb_spec n (buffer_len c - misalign c)) as [Hfit|Hfit].
  - destruct (pullup_copy_ok b c [c] rest (n - off c)) as (b' & Hcopy & Hw & Hf & Hby & c' & r' & Hc' & Ho');
      [done|done|done|lia|lia|by rewrite cbytes_cons, app_nil_r|cbn; lia|done|].
    cbn [length] in Hcopy. replace (off c + (n - off c)) with n in Hcopy by lia. rewrite Hcopy.
    cbn [mbind option_bind]. exists true, b'. split; [done|]. split; [done|]. split; [done|]. split; [done|]. split; [done|].
    exists c', r'. split; [done|lia].
  - unfold chain_alloc. destruct (evbuffer_chain_new mm (n_alloc b) n) as [tmp|] eqn:En; cycle 1.
    { exists false, (tick b). repeat split; try done; try apply Hb. right. right. eapply alloc_failed_new; [exact En|lia]. }
    destruct (chain_new_ok _ _ _ _ (Z.lt_le_incl _ _ Hn) En) as (Ht1 & Ht2 & Ht3 & Ht4 & Ht5).
    destruct (pullup_copy_ok (tick b) tmp [] (c :: rest) n) as (b' & Hcopy & Hw & Hf & Hby & c' & r' & Hc' & Ho');
      [done|done|done|rewrite cbytes_cons, length_app; lia|lia|by rewrite data_empty|cbn; lia|done|].
    rewrite Ht2, Ht3, !Z.add_0_l in Hcopy. cbn [length lwd tick] in Hcopy.
    cbn [lwd tick]. rewrite decide_False, Ht2, Hcopy by done. cbn [mbind option_bind]. apply same_frame_tick in Hf.
    exists true, b'. split; [done|]. split; [done|]. split; [done|]. split; [done|]. split; [done|].
    exists c', r'. split; [done|lia].
Qed.

(** evbuffer_pullup never changes the bytes of the buffer.  Asked for [n] bytes (all, when
    negative) it leaves the first [n] of them contiguous in the first chain, and answers NULL
    only for 0 bytes, more than there are, or for want of memory. *)
Theorem evbuffer_pullup_spec b size :
  wf b →
  let n := if size <? 0 then total_len b else size in
  ∃ r b', evbuffer_pullup mm b size = Some (r, b') ∧ wf b' ∧ same_frame b b' ∧ bytes b' = bytes b ∧
    if (r : bool) then 0 < n ∧ ∃ c rest, chains b' = c :: rest ∧ n <= off c
    else n = 0 ∨ total_len b < n ∨ alloc_failed mm b b' n.
Proof. apply pullup_ok. Qed.

(** evbuffer_add_reference appends the caller's memory without copying it. *)
Theorem evbuffer_add_reference_spec b d :
  wf b → d ≠ [] → Zlen d <= EVBUFFER_CHAIN_MAX - EVBUFFER_CHAIN_SIZE → freeze_end b = false →
  total_len b + Zlen d <= SIZE_MAX →
  ∃ r b', evbuffer_add_reference mm b d = Some (r, b') ∧ appended b b' r d ∧
    (r = -1 → alloc_failed mm b b' CHAIN_REFERENCE_SIZE).
Proof.
  intros Hb Hd Hmax Hfe Htot. unfold evbuffer_add_reference, chain_alloc.
  destruct (evbuffer_chain_new mm (n_alloc b) CHAIN_REFERENCE_SIZE) as [c|] eqn:En; cycle 1.
  { exists (-1), (tick b). split; [done|]. split; [|intros _; eapply alloc_failed_new; [exact En|lia]].
    split; [done|]. split; [done|by right]. }
  destruct (chain_new_ok mm _ _ c ltac:(done) En) as (_ & _ & _ & -> & _).
  cbn [freeze_end tick]. rewrite Hfe. set (c' := Chain _ _ _ _).
  assert (0 < Zlen d) as Hpos by (destruct d; [done|cbn; lia]).
  assert (chain_wf c') as Hw.
  { unfold chain_wf, buffer_len. cbn. repeat split; try done; lia. }
  assert (data c' = d) as Hdc.
  { unfold data. cbn [c' buffer misalign off Z.to_nat]. rewrite drop_0, Nat2Z.id. by rewrite take_ge. }
  destruct (chain_insert_ok (tick b) c') as (b1 & -> & Hb1 & Hby & Hf%same_frame_tick & _); [done|done|done|].
  cbn [mbind option_bind]. eexists 0, _. split; [done|]. split; [|done].
  eapply (appended_out b b1); [done|by rewrite Hby, Hdc|done|done].
Qed.

End PullupProofs.

(** ** Witnesses *)

(** A buffer with one chain. *)
Definition one_chain : evbuffer := with_chains [Chain (bs "__xyz_") 2 3 0] 0 3 evbuffer_new.

Lemma one_chain_wf : wf one_chain.
Proof.
  split; [repeat constructor; vm_compute; congruence|]. split; [done|]. split; [done|].
  right. exists [], (Chain (bs "__xyz_") 2 3 0), []. by repeat split; [|left].
Qed.

Lemma evbuffer_add_buffer_spec_witness :
  ∃ o' i', evbuffer_add_buffer mm_zero three_chains one_chain = Some (0, o', i') ∧ wf o' ∧ wf i' ∧
    same_frame three_chains o' ∧ same_frame one_chain i' ∧
    bytes o' = bs "abcdexyz" ∧ bytes i' = [].
Proof.
  apply (evbuffer_add_buffer_spec mm_zero three_chains one_chain);
    [exact three_chains_wf|exact one_chain_wf|reflexivity|reflexivity|vm_compute; congruence].
Defined.

Lemma evbuffer_prepend_buffer_spec_witness :
  ∃ o' i', evbuffer_prepend_buffer mm_zero one_chain three_chains = Some (0, o', i') ∧ wf o' ∧ wf i' ∧
    same_frame one_chain o' ∧ same_frame three_chains i' ∧
    bytes o' = bs "abcdexyz" ∧ bytes i' = [].
Proof.
  apply (evbuffer_prepend_buffer_spec mm_zero one_chain three_chains);
    [exact one_chain_wf|exact three_chains_wf|reflexivity|reflexivity|vm_compute; congruence].
Defined.

Lemma evbuffer_prepend_spec_witness :
  ∃ r b', evbuffer_prepend mm_zero one_chain (bs "uvw") = Some (r, b') ∧
    prepended one_chain b' r (bs "uvw") ∧
    (r = -1 → SIZE_MAX < total_len one_chain + 3 ∨ alloc_failed mm_zero one_chain b' 3).
Proof.
  apply (evbuffer_prepend_spec mm_zero one_chain (bs "uvw")); [exact one_chain_wf|reflexivity].
Defined.

(** An allocator that always fails. *)
Definition mm_none (k : nat) (n : Z) : option (nat → byte) := None.

(** A failed prepend that has changed the buffer. *)
Example prepend_partial :
  (λ p, (fst p, bytes (snd p))) <$> evbuffer_prepend mm_none one_chain (bs "uvw") =
  Some (-1, bs "vwxyz").
Proof. vm_compute. reflexivity. Qed.

Lemma evbuffer_remove_buffer_spec_witness :
  ∃ src' dst' m, evbuffer_remove_buffer mm_zero three_chains one_chain 4 = Some (4, src', dst') ∧
    wf src' ∧ wf dst' ∧ same_frame three_chains src' ∧ same_frame one_chain dst' ∧
    bytes src' = bs "e" ∧ bytes dst' = bs "xyz" ++ take (Z.to_nat m) (bs "abcde") ∧
    0 <= m <= 4 ∧ (m = 4 ∨ alloc_failed mm_zero one_chain dst' (4 - m)).
Proof.
  apply (evbuffer_remove_buffer_spec mm_zero three_chains one_chain 4);
    [exact three_chains_wf|exact one_chain_wf|repeat constructor; vm_compute; congruence|lia
    |reflexivity|reflexivity|vm_compute; congruence].
Defined.

(** Without memory the copied bytes are lost, and the result is still 2. *)
Example remove_buffer_loses :
  (λ '(r, s, d), (r, bytes s, bytes d)) <$> evbuffer_remove_buffer mm_none three_chains evbuffer_new 2 =
  Some (2, bs "cde", []).
Proof. vm_compute. reflexivity. Qed.

Lemma evbuffer_pullup_spec_witness :
  ∃ r b', evbuffer_pullup mm_zero three_chains 4 = Some (r, b') ∧ wf b' ∧ same_frame three_chains b' ∧
    bytes b' = bs "abcde" ∧
    if (r : bool) then 0 < 4 ∧ ∃ c rest, chains b' = c :: rest ∧ 4 <= off c
    else 4 = 0 ∨ total_len three_chains < 4 ∨ alloc_failed mm_zero three_chains b' 4.
Proof. apply (evbuffer_pullup_spec mm_zero three_chains 4 three_chains_wf). Defined.

Lemma evbuffer_add_reference_spec_witness :
  ∃ r b', evbuffer_add_reference mm_zero three_chains (bs "fg") = Some (r, b') ∧
    appended three_chains b' r (bs "fg") ∧ (r = -1 → alloc_failed mm_zero three_chains b' CHAIN_REFERENCE_SIZE).
Proof.
  apply (evbuffer_add_reference_spec mm_zero three_chains (bs "fg"));
    [exact three_chains_wf|discriminate|vm_compute; congruence|reflexivity|vm_compute; congruence].
Defined.
