(* ===== verification/EvBufferSpace.v ===== *)
(** * evbuffer: making room, reserving and committing, reading and writing

    Models evbuffer_expand, evbuffer_expand_singlechain, evbuffer_expand_fast_,
    evbuffer_reserve_space, evbuffer_commit_space, evbuffer_add_iovec, evbuffer_read and
    evbuffer_write_atmost of libevent/buffer.c, as compiled with EVENT__HAVE_SYS_UIO_H and
    without sendfile.  What readv and writev do is an argument. *)

From S2P Require Import Prelude EvBuffer EvBufferMove.

(** ** Vectors *)

(** struct evbuffer_iovec: [iov_base] is offset [iov_off] in the block of chain [iov_chain]. *)
Record evbuffer_iovec := Iovec { iov_chain : nat; iov_off : Z; iov_len : Z }.

Definition NUM_READ_IOVEC : nat := 4.
Definition EVBUFFER_MAX_READ : Z := 4096.
Definition NUM_WRITE_IOVEC : nat := 128.

(** CHAIN_SPACE_PTR of chain [i]. *)
Definition space_vec (i : nat) (c : evbuffer_chain) (len : Z) : evbuffer_iovec :=
  Iovec i (misalign c + off c) len.

(** Whether a vector starts at CHAIN_SPACE_PTR of chain [i] and fits into its space. *)
Definition vec_at_space (v : evbuffer_iovec) (i : nat) (c : evbuffer_chain) : bool :=
  (iov_chain v =? i)%nat && (iov_off v =? misalign c + off c).

(** The first chain with space: [*last_with_datap], or the one after it. *)
Definition first_space (b : evbuffer) (c : evbuffer_chain) : nat :=
  if CHAIN_SPACE_LEN c =? 0 then S (lwd b) else lwd b.

(** The loop of evbuffer_read_setup_vecs_ from chain [i] on; a missing chain is a NULL
    dereference. *)
Fixpoint setup_vecs_loop (cs : list evbuffer_chain) (i : nat) (n_vecs : nat) (howmuch so_far : Z)
    (exact : bool) {struct n_vecs} : option (list evbuffer_iovec) :=
  match n_vecs with
  | O => Some []
  | S n_vecs =>
      if so_far <? howmuch then
        match cs with
        | [] => None
        | c :: cs =>
            let avail := CHAIN_SPACE_LEN c in
            let avail := if (howmuch - so_far <? avail) && exact then howmuch - so_far else avail in
            vs ← setup_vecs_loop cs (S i) n_vecs howmuch (so_far + avail) exact;
            Some (space_vec i c avail :: vs)
        end
      else Some []
  end.

(** The vectors and the number of the first chain; an empty list and [-1] for a negative size. *)
Definition evbuffer_read_setup_vecs_ (b : evbuffer) (howmuch : Z) (n_vecs : nat) (exact : bool)
    : option (Z * list evbuffer_iovec * nat) :=
  if howmuch <? 0 then Some (-1, [], lwd b) else
  c ← chains b !! lwd b;
  let first := first_space b c in
  vs ← setup_vecs_loop (drop first (chains b)) first n_vecs howmuch 0 exact;
  Some (Zlen vs, vs, first).

(** ** Committing *)

(** Pass 1: every vector lies at the space of its chain. *)
Fixpoint commit_check (cs : list evbuffer_chain) (i : nat) (vs : list evbuffer_iovec) : bool :=
  match vs, cs with
  | [], _ => true
  | v :: vs, c :: cs =>
      vec_at_space v i c && (iov_len v <=? CHAIN_SPACE_LEN c) && commit_check cs (S i) vs
  | _ :: _, [] => false
  end.

Definition grow (c : evbuffer_chain) (n : Z) : evbuffer_chain :=
  Chain (buffer c) (misalign c) (off c + n) (flags c).

(** Pass 2: the chains, the last one with data ([None] if no vector has bytes), the bytes added. *)
Fixpoint commit_loop (cs : list evbuffer_chain) (i : nat) (vs : list evbuffer_iovec)
    : list evbuffer_chain * option nat * Z :=
  match vs, cs with
  | v :: vs, c :: cs =>
      let '(cs, l, added) := commit_loop cs (S i) vs in
      (grow c (iov_len v) :: cs,
       match l with Some l => Some l | None => if iov_len v =? 0 then None else Some i end,
       iov_len v + added)
  | _, _ => (cs, None, 0)
  end.

Definition committed (b : evbuffer) (cs : list evbuffer_chain) (l : nat) (added : Z) : Z * evbuffer :=
  (0, evbuffer_invoke_callbacks_ (count_add added (with_chains cs l (uint64 (total_len b + added)) b))).

Definition evbuffer_commit_space (b : evbuffer) (vec : list evbuffer_iovec) : Z * evbuffer :=
  if freeze_end b then (-1, b) else
  let general :=
    match chains b !! lwd b with
    | None => (-1, b)
    | Some c =>
        let first := first_space b c in
        if commit_check (drop first (chains b)) first vec then
          let '(cs, l, added) := commit_loop (drop first (chains b)) first vec in
          committed b (take first (chains b) ++ cs) (default (lwd b) l) added
        else (-1, b)
    end in
  match vec, last (chains b) with
  | [], _ => (0, b)
  | [v], Some c =>
      let i := pred (length (chains b)) in
      if vec_at_space v i c then
        if CHAIN_SPACE_LEN c <? iov_len v then (-1, b) else
        let b1 := with_chains (<[i := grow c (iov_len v)]> (chains b)) (lwd b) (total_len b) b in
        let b1 := if iov_len v =? 0 then b1 else advance_last_with_data b1 in
        committed b1 (chains b1) (lwd b1) (iov_len v)
      else general
  | _, _ => general
  end.

(** ** Expanding *)

(** The loop of evbuffer_expand_fast_: the chains it has seen, with the empty ones realigned,
    and whether there is enough space, or else [used] and [avail]. *)
Fixpoint expand_loop (cs : list evbuffer_chain) (first : bool) (datlen avail : Z) (used n : nat)
    : option (list evbuffer_chain * option (nat * Z)) :=
  match cs with
  | [] => Some ([], Some (used, avail))
  | c :: cs' =>
      '(c, avail, used) ←
        (if off c =? 0 then
           Some (Chain (buffer c) 0 (off c) (flags c), uint64 (avail + buffer_len c), S used)
         else if negb first then None
         else if CHAIN_SPACE_LEN c =? 0 then Some (c, avail, used)
         else Some (c, uint64 (avail + CHAIN_SPACE_LEN c), S used));
      if datlen <=? avail then Some (c :: cs', None)
      else if (used =? n)%nat then Some (c :: cs', Some (used, avail))
      else
        '(cs', r) ← expand_loop cs' false datlen avail used n;
        Some (c :: cs', r)
  end.

Section Space.
Variable mm : nat → Z → option (nat → byte).

(** The number of the chain with the space, [None] for NULL. *)
Definition evbuffer_expand_singlechain (b : evbuffer) (datlen : Z) : option (option nat * evbuffer) :=
  let chainp := match chains b !! lwd b with
    | Some c => first_space b c
    | None => lwd b
    end in
  let checked (r : option (option nat * evbuffer)) :=
    '(i, b) ← r;
    match i with
    | None => Some (None, b)
    | Some i => c ← chains b !! i; if datlen <=? CHAIN_SPACE_LEN c then Some (Some i, b) else None
    end in
  let insert_new := checked (evbuffer_chain_insert_new mm b datlen) in
  match chains b !! chainp with
  | None => insert_new
  | Some c =>
      if CHAIN_IMMUTABLE c || CHAIN_PINNED c then insert_new
      else if datlen <=? CHAIN_SPACE_LEN c then checked (Some (Some chainp, b))
      else if off c =? 0 then insert_new
      else if evbuffer_chain_should_realign c datlen then
        c ← evbuffer_chain_align c;
        checked (Some (Some chainp, with_chains (<[chainp := c]> (chains b)) (lwd b) (total_len b) b))
      else if (CHAIN_SPACE_LEN c <? buffer_len c / 8) || (MAX_TO_COPY_IN_EXPAND <? off c) ||
              (EVBUFFER_CHAIN_MAX - off c <=? datlen) then
        match chains b !! S chainp with
        | Some c' => if datlen <=? CHAIN_SPACE_LEN c' then checked (Some (Some (S chainp), b))
                     else insert_new
        | None => insert_new
        end
      else
        match chain_alloc mm b (off c + datlen) with
        | (None, b) => Some (None, b)
        | (Some tmp, b) =>
            d ← chain_data c;
            m ← splice (buffer tmp) 0 d;
            checked (Some (Some chainp,
              with_chains (<[chainp := Chain m (misalign tmp) (off c) (flags tmp)]> (chains b))
                (lwd b) (total_len b) b))
        end
  end.

Definition evbuffer_expand (b : evbuffer) (datlen : Z) : option (Z * evbuffer) :=
  '(i, b) ← evbuffer_expand_singlechain b datlen;
  Some (match i with Some _ => 0 | None => -1 end, b).

(** A chain for all of [datlen]. *)
Definition expand_new (b : evbuffer) (datlen : Z) : option (Z * evbuffer) :=
  '(i, b) ← evbuffer_chain_insert_new mm b datlen;
  Some (match i with Some _ => 0 | None => -1 end, b).

(** "Nuke _all_ the empty chains", and add one with enough space. *)
Definition expand_nuke (b : evbuffer) (datlen : Z) : option (Z * evbuffer) :=
  c ← chains b !! lwd b;
  let rmv_all := off c =? 0 in
  if rmv_all && negb (lwd b =? 0)%nat then None else
  let avail := if rmv_all then 0 else CHAIN_SPACE_LEN c in
  let keep := if rmv_all then [] else take (S (lwd b)) (chains b) in
  if negb (evbuffer_chains_all_empty (drop (length keep) (chains b))) then None else
  if datlen <? avail then None else
  match chain_alloc mm b (datlen - avail) with
  | (None, b) =>
      Some (-1, if rmv_all then ZERO_CHAIN b else with_chains keep (lwd b) (total_len b) b)
  | (Some tmp, b) => Some (0, with_chains (keep ++ [tmp]) (lwd b) (total_len b) b)
  end.

Definition evbuffer_expand_fast_ (b : evbuffer) (datlen : Z) (n : nat) : option (Z * evbuffer) :=
  if (n <? 2)%nat then None else
  match last (chains b) with
  | None => expand_new b datlen
  | Some c =>
      if CHAIN_IMMUTABLE c then expand_new b datlen else
      '(cs, r) ← expand_loop (drop (lwd b) (chains b)) true datlen 0 0 n;
      let b := with_chains (take (lwd b) (chains b) ++ cs) (lwd b) (total_len b) b in
      match r with
      | None => Some (0, b)
      | Some (used, avail) =>
          if (used <? n)%nat then
            match chain_alloc mm b (uint64 (datlen - avail)) with
            | (None, b) => Some (-1, b)
            | (Some tmp, b) => Some (0, with_chains (chains b ++ [tmp]) (lwd b) (total_len b) b)
            end
          else expand_nuke b datlen
      end
  end.

Definition evbuffer_reserve_space (b : evbuffer) (size : Z) (n_vecs : nat)
    : option (Z * list evbuffer_iovec * evbuffer) :=
  if freeze_end b then Some (-1, [], b) else
  match n_vecs with
  | O => Some (-1, [], b)
  | S O =>
      '(i, b) ← evbuffer_expand_singlechain b (uint64 size);
      match i with
      | None => Some (-1, [], b)
      | Some i => c ← chains b !! i; Some (1, [space_vec i c (CHAIN_SPACE_LEN c)], b)
      end
  | _ =>
      '(r, b) ← evbuffer_expand_fast_ b (uint64 size) n_vecs;
      if r <? 0 then Some (-1, [], b) else
      '(n, vs, _) ← evbuffer_read_setup_vecs_ b size n_vecs false;
      Some (n, vs, b)
  end.

(** Adds the vectors while evbuffer_add succeeds; the bytes added. *)
Fixpoint add_iovec_loop (b : evbuffer) (vec : list (list byte)) (res : Z) : option (Z * evbuffer) :=
  match vec with
  | [] => Some (res, b)
  | d :: vec =>
      '(r, b) ← evbuffer_add mm b d;
      if r <? 0 then Some (res, b) else add_iovec_loop b vec (uint64 (res + Zlen d))
  end.

Definition evbuffer_add_iovec (b : evbuffer) (vec : list (list byte)) : option (Z * evbuffer) :=
  let to_alloc := uint64 (Zlen (concat vec)) in
  '(r, b) ← evbuffer_expand_fast_ b to_alloc 2;
  if r <? 0 then Some (0, b) else add_iovec_loop b vec 0.

(** ** Reading *)

(** readv: the bytes go to the vectors in turn. *)
Fixpoint readv_fill (cs : list evbuffer_chain) (vs : list evbuffer_iovec) (d : list byte)
    : option (list evbuffer_chain) :=
  match vs, cs with
  | [], _ => if decide (d = []) then Some cs else None
  | v :: vs, c :: cs =>
      let k := Z.to_nat (iov_len v) in
      m ← splice (buffer c) (iov_off v) (take k d);
      cs ← readv_fill cs vs (drop k d);
      Some (Chain m (misalign c) (off c) (flags c) :: cs)
  | _ :: _, [] => None
  end.

(** The loop that makes the bytes read part of the data: the chains and [last_with_datap]. *)
Fixpoint read_commit (cs : list evbuffer_chain) (i nvecs : nat) (remaining : Z) {struct nvecs}
    : option (list evbuffer_chain * option nat) :=
  match nvecs with
  | O => Some (cs, None)
  | S nvecs =>
      match cs with
      | [] => None
      | c :: cs =>
          let space := CHAIN_SPACE_LEN c in
          let space := if EVBUFFER_CHAIN_MAX <? space then EVBUFFER_CHAIN_MAX else space in
          if space <? remaining then
            '(cs, l) ← read_commit cs (S i) nvecs (remaining - space);
            Some (grow c space :: cs, l)
          else Some (grow c remaining :: cs, Some i)
      end
  end.

(** How much evbuffer_read asks for. *)
Definition read_howmuch (fionread howmuch : Z) : Z :=
  let n := if (fionread <=? 0) || (EVBUFFER_MAX_READ <? fionread) then EVBUFFER_MAX_READ else fionread in
  if (howmuch <? 0) || (n <? howmuch) then n else howmuch.

(** [fionread] is what ioctl(FIONREAD) answers, [got] what readv reads, [None] for -1. *)
Definition evbuffer_read (b : evbuffer) (fionread howmuch : Z) (got : option (list byte))
    : option (Z * evbuffer) :=
  if freeze_end b then Some (-1, b) else
  let howmuch := read_howmuch fionread howmuch in
  '(r, b) ← evbuffer_expand_fast_ b howmuch NUM_READ_IOVEC;
  if r =? -1 then Some (-1, b) else
  '(_, vs, first) ← evbuffer_read_setup_vecs_ b howmuch NUM_READ_IOVEC true;
  match got with
  | None => Some (-1, b)
  | Some [] => Some (0, b)
  | Some d =>
      cs ← readv_fill (drop first (chains b)) vs d;
      '(cs, l) ← read_commit cs first (length vs) (Zlen d);
      Some (Zlen d, evbuffer_invoke_callbacks_ (count_add (Zlen d)
        (with_chains (take first (chains b) ++ cs) (default (lwd b) l)
          (uint64 (total_len b + Zlen d)) b)))
  end.

(** ** Writing *)

(** The bytes the vectors of evbuffer_write_iovec cover, and how many vectors there are. *)
Fixpoint write_vecs (cs : list evbuffer_chain) (n : nat) (howmuch : Z) : option (list (list byte)) :=
  match n, cs with
  | O, _ | _, [] => Some []
  | S n, c :: cs =>
      if howmuch =? 0 then Some []
      else if off c <=? howmuch then
        d ← chain_data c;
        vs ← write_vecs cs n (howmuch - off c);
        Some (d :: vs)
      else
        d ← slice (buffer c) (misalign c) howmuch;
        Some [d]
  end.

(** [writev] answers how many of the bytes offered were written, or -1; [n] is an int. *)
Definition evbuffer_write_iovec (b : evbuffer) (writev : list byte → Z) (howmuch : Z) : option Z :=
  if howmuch <? 0 then Some (-1) else
  vs ← write_vecs (chains b) NUM_WRITE_IOVEC howmuch;
  Some (if decide (vs = []) then 0 else int32 (writev (concat vs))).

Definition evbuffer_write_atmost (b : evbuffer) (writev : list byte → Z) (howmuch : Z)
    : option (Z * evbuffer) :=
  if freeze_start b then Some (-1, b) else
  let howmuch := if (howmuch <? 0) || (total_len b <? howmuch) then total_len b else howmuch in
  n ← (if 0 <? howmuch then evbuffer_write_iovec b writev howmuch else Some (-1));
  if 0 <? n then
    '(_, b) ← evbuffer_drain b n;
    Some (n, b)
  else Some (n, b).

Definition evbuffer_write (b : evbuffer) (writev : list byte → Z) : option (Z * evbuffer) :=
  evbuffer_write_atmost b writev (-1).

End Space.

(** ** Replacing a chain by one with the same data *)

Lemma lwd_ok_lookup cs n :
  lwd_ok cs n ↔
  cs = [] ∧ n = 0%nat ∨
  ∃ c, cs !! n = Some c ∧ (n = 0%nat ∨ off c ≠ 0) ∧
    ∀ j x, (n < j)%nat → cs !! j = Some x → off x = 0.
Proof.
  split; (intros [?|H]; [by left|right]).
  - destruct H as (l1 & c & l2 & -> & -> & He & Hne). exists c. rewrite list_lookup_middle by done.
    split; [done|]. split; [destruct Hne as [->|]; auto|]. intros j x Hj Hx.
    rewrite lookup_app_r in Hx by lia. destruct (j - length l1)%nat as [|k] eqn:E; [lia|].
    cbn in Hx. rewrite Forall_lookup in He. by apply (He k).
  - destruct H as (c & Hc & Hne & He). exists (take n cs), c, (drop (S n) cs).
    rewrite take_drop_middle by done. apply lookup_lt_Some in Hc as Hlt.
    split; [done|]. rewrite length_take. split; [lia|]. split.
    + apply Forall_lookup. intros k x Hx. rewrite lookup_drop in Hx. apply (He (S n + k)%nat); [lia|done].
    + destruct Hne as [->|]; auto.
Qed.

Lemma lwd_ok_insert cs n i c c' :
  lwd_ok cs n → cs !! i = Some c → off c' = off c → lwd_ok (<[i := c']> cs) n.
Proof.
  rewrite !lwd_ok_lookup. intros [[-> _]|(x & Hx & Hne & He)] Hi Ho; [done|right].
  assert (∀ j y, <[i := c']> cs !! j = Some y → ∃ y0, cs !! j = Some y0 ∧ off y = off y0) as Hl.
  { intros j y [(-> & -> & _)|[_ ?]]%list_lookup_insert_Some; eauto. }
  assert (is_Some (<[i := c']> cs !! n)) as [y Hy].
  { apply lookup_lt_is_Some. rewrite length_insert. by eapply lookup_lt_Some. }
  exists y. split; [done|]. destruct (Hl _ _ Hy) as (y0 & Hy0 & Hoy). simplify_eq.
  split; [by rewrite Hoy|]. intros j z Hj Hz. destruct (Hl _ _ Hz) as (z0 & Hz0 & ->). eauto.
Qed.

Lemma cbytes_insert cs i c c' :
  cs !! i = Some c → data c' = data c → cbytes (<[i := c']> cs) = cbytes cs.
Proof.
  intros Hi Hd. rewrite <- (take_drop_middle cs i c) at 2 by done.
  rewrite insert_take_drop by by eapply lookup_lt_Some.
  by rewrite !cbytes_app, !cbytes_cons, Hd.
Qed.

Lemma replace_same b i c c' :
  wf b → chains b !! i = Some c → chain_wf c' → data c' = data c → off c' = off c →
  wf (with_chains (<[i := c']> (chains b)) (lwd b) (total_len b) b) ∧
  cbytes (<[i := c']> (chains b)) = bytes b.
Proof.
  intros (Hwf & Hlen & Hmax & Hl) Hi Hc' Hd Ho.
  assert (cbytes (<[i := c']> (chains b)) = bytes b) as Hby by by eapply cbytes_insert.
  split; [|done]. apply wf_with_chains; [by apply Forall_insert| |by rewrite Hby|done].
  by eapply lwd_ok_insert.
Qed.

(** ** evbuffer_expand *)

(** Chain [i] has room for [n] bytes, after all the data of the buffer. *)
Definition space_at (b : evbuffer) (i : nat) (n : Z) : Prop :=
  ∃ c, chains b !! i = Some c ∧ n <= CHAIN_SPACE_LEN c ∧
    (i = lwd b ∨ (lwd b < i)%nat ∧ off c = 0).

Lemma wf_lookup b i c : wf b → chains b !! i = Some c → chain_wf c.
Proof. intros (Hwf & _) Hi. by eapply Forall_lookup_1. Qed.

Lemma after_lwd b i c : wf b → (lwd b < i)%nat → chains b !! i = Some c → off c = 0.
Proof.
  intros (_ & _ & _ & Hl) Hi Hc. apply lwd_ok_lookup in Hl as [[Hn _]|(x & _ & _ & He)]; [|eauto].
  by rewrite Hn in Hc.
Qed.

(** All of a new chain is space. *)
Lemma fresh_space c :
  misalign c = 0 → off c = 0 → flags c = 0 → CHAIN_SPACE_LEN c = buffer_len c.
Proof.
  intros Hm Ho Hf. unfold CHAIN_SPACE_LEN, CHAIN_IMMUTABLE. rewrite Hf, Hm, Ho.
  change (negb (Z.land 0 EVBUFFER_IMMUTABLE =? 0)) with false. cbv iota. lia.
Qed.

Section SpaceProofs.
Variable mm : nat → Z → option (nat → byte).

(** What the expanding functions promise. *)
Definition expanded (b b' : evbuffer) : Prop := wf b' ∧ same_frame b b' ∧ bytes b' = bytes b.

Lemma insert_new_ok b n :
  wf b → 0 <= n →
  ∃ r b', evbuffer_chain_insert_new mm b n = Some (r, b') ∧ expanded b b' ∧
    match r with
    | None => alloc_failed mm b b' n
    | Some i => space_at b' i n
    end.
Proof.
  intros Hb Hn. unfold evbuffer_chain_insert_new, chain_alloc.
  destruct (evbuffer_chain_new mm (n_alloc b) n) as [c|] eqn:En; cycle 1.
  { exists None, (tick b). split; [done|]. split; [done|]. eapply alloc_failed_new; [exact En|lia]. }
  destruct (chain_new_ok _ _ _ _ Hn En) as (Hc & Hm & Ho & Hf & Hlen).
  destruct (chain_insert_ok (tick b) c) as (b' & -> & Hb' & Hby & Hfr%same_frame_tick & _ & [l Hl] & _); [done|done| |].
  { cbn [total_len tick]. pose proof (wf_total b Hb). lia. }
  cbn [mbind option_bind]. eexists _, b'. split; [done|]. split.
  { split; [done|]. split; [done|]. rewrite Hby, data_empty, app_nil_r by done. done. }
  rewrite Hl, length_app, Nat.add_comm. cbn [length Nat.add pred].
  exists c. rewrite Hl, list_lookup_middle by done. split; [done|]. split.
  - by rewrite fresh_space.
  - destruct Hb' as (_ & _ & _ & Hl'). apply lwd_ok_lookup in Hl' as [[Hn' _]|(x & Hx & _ & He)].
    + rewrite Hl in Hn'. by destruct l.
    + apply lookup_lt_Some in Hx. rewrite Hl, length_app in Hx. cbn in Hx.
      destruct (decide (length l = lwd b')); [by left|right]. split; [lia|done].
Qed.

Lemma first_space_ok b c :
  wf b → chains b !! lwd b = Some c →
  (CHAIN_SPACE_LEN c ≠ 0 ∧ first_space b c = lwd b) ∨ (CHAIN_SPACE_LEN c = 0 ∧ first_space b c = S (lwd b)).
Proof. intros _ _. unfold first_space. destruct (Z.eqb_spec (CHAIN_SPACE_LEN c) 0); auto. Qed.

(** The check at the [ok:] label succeeds. *)
Lemma singlechain_checked b b' i n :
  expanded b b' → space_at b' i n →
  ∃ r b1, ('(i, b) ← Some (Some i, b');
    match i with
    | None => Some (None, b)
    | Some i => c ← chains b !! i; if n <=? CHAIN_SPACE_LEN c then Some (Some i, b) else None
    end) = Some (r, b1) ∧ expanded b b1 ∧
    match r with None => alloc_failed mm b b1 n | Some i => space_at b1 i n end.
Proof.
  intros He Hs. pose proof Hs as (c & Hc & Hle & _). cbn [mbind option_bind]. rewrite Hc.
  cbn [mbind option_bind]. rewrite (proj2 (Z.leb_le _ _)) by done. by exists (Some i), b'.
Qed.

(** Copying the data of [c] to a new chain. *)
Lemma copy_into_ok tmp c n :
  chain_wf c → chain_wf tmp → misalign tmp = 0 → off tmp = 0 → flags tmp = 0 →
  0 <= n → off c + n <= buffer_len tmp →
  ∃ m, splice (buffer tmp) 0 (data c) = Some m ∧
    let t := Chain m (misalign tmp) (off c) (flags tmp) in
    chain_wf t ∧ data t = data c ∧ n <= CHAIN_SPACE_LEN t.
Proof.
  intros Hwc Ht1 Ht2 Ht3 Ht4 Hn Hroom. pose proof (data_length c Hwc) as Hdl.
  destruct (chain_append_ok tmp (data c)) as (t' & Ht' & Hw' & Hdat & Hoff & Hfl); [done|lia|].
  unfold chain_append in Ht'. rewrite Ht2, Ht3, !Z.add_0_l in Ht'.
  destruct (splice (buffer tmp) 0 (data c)) as [m|] eqn:Esp; [|done]. exists m. split; [done|]. cbn zeta.
  rewrite Ht2. cbn [mbind option_bind] in Ht'. injection Ht' as <-. rewrite Hdl in *.
  split; [done|]. split; [by rewrite Hdat, (data_empty tmp) by done|].
  unfold CHAIN_SPACE_LEN, CHAIN_IMMUTABLE. cbn [buffer misalign off flags]. rewrite Ht4.
  change (negb (Z.land 0 EVBUFFER_IMMUTABLE =? 0)) with false. cbv iota. unfold buffer_len at 1.
  cbn [buffer]. rewrite (splice_length _ _ _ _ Esp). fold (buffer_len tmp). lia.
Qed.

Lemma expand_singlechain_ok b n :
  wf b → 0 <= n →
  ∃ r b', evbuffer_expand_singlechain mm b n = Some (r, b') ∧ expanded b b' ∧
    match r with None => alloc_failed mm b b' n | Some i => space_at b' i n end.
Proof.
  intros Hb Hn. unfold evbuffer_expand_singlechain.
  set (chainp := match chains b !! lwd b with Some c => first_space b c | None => lwd b end).
  set (ins := '(i, b) ← evbuffer_chain_insert_new mm b n; _).
  assert (∃ r b', ins = Some (r, b') ∧ expanded b b' ∧
    match r with None => alloc_failed mm b b' n | Some i => space_at b' i n end) as Hins.
  { destruct (insert_new_ok b n Hb Hn) as ([i|] & b1 & E & He & Hr); subst ins; rewrite E.
    - by apply singlechain_checked.
    - cbn [mbind option_bind]. by exists None, b1. }
  clearbody ins. destruct (chains b !! chainp) as [c|] eqn:Hc; [|done].
  destruct (CHAIN_IMMUTABLE c || CHAIN_PINNED c) eqn:Him; [done|].
  apply orb_false_iff in Him as [Him Hpin]. pose proof (wf_lookup b _ _ Hb Hc) as Hwc.
  pose proof Hwc as (H1&H2&H3&H4&_).
  assert ((lwd b < chainp)%nat ∧ off c = 0 ∨ chainp = lwd b) as Hpos.
  { subst chainp. destruct (chains b !! lwd b) as [c0|] eqn:E; [|by right].
    destruct (first_space_ok b c0 Hb E) as [[_ ->]|[_ E2]]; [by right|left]. rewrite E2 in Hc |- *.
    split; [lia|]. eapply (after_lwd b); [done| |done]. lia. }
  destruct (Z.leb_spec n (CHAIN_SPACE_LEN c)) as [Hfit|Hfit].
  { apply singlechain_checked; [done|]. exists c. split; [done|]. split; [done|]. destruct Hpos as [[? ?]|]; auto. }
  destruct (Z.eqb_spec (off c) 0) as [H0|H0]; [done|].
  destruct Hpos as [[_ ?]|Hpos]; [done|]. rewrite Hpos in *.
  assert (CHAIN_SPACE_LEN c = buffer_len c - (misalign c + off c)) as Hsp by (unfold CHAIN_SPACE_LEN; by rewrite Him).
  destruct (evbuffer_chain_should_realign c n) eqn:Hre.
  { unfold evbuffer_chain_should_realign in Hre. apply andb_true_iff in Hre as [[Hre%Z.leb_le _]%andb_true_iff _].
    destruct (chain_align_ok c Hwc Him) as (c1 & -> & Hw1 & Hd1 & Hm1 & Ho1 & Hb1 & Hf1).
    cbn [mbind option_bind]. destruct (replace_same b (lwd b) c c1) as [Hw Hby]; [done..|].
    apply singlechain_checked; [done|]. exists c1. cbn [chains with_chains lwd].
    rewrite list_lookup_insert_eq by by eapply lookup_lt_Some. split; [done|]. split; [|by left].
    unfold CHAIN_SPACE_LEN, CHAIN_IMMUTABLE. rewrite Hf1. fold (CHAIN_IMMUTABLE c). rewrite Him. lia. }
  destruct (_ || _ || _) eqn:Hworth.
  { destruct (chains b !! S (lwd b)) as [c'|] eqn:Hc'; [|done].
    destruct (Z.leb_spec n (CHAIN_SPACE_LEN c')) as [Hfit'|]; [|done].
    apply singlechain_checked; [done|]. exists c'. split; [done|]. split; [done|]. right.
    split; [lia|]. eapply (after_lwd b); [done| |done]. lia. }
  unfold chain_alloc. destruct (evbuffer_chain_new mm (n_alloc b) (off c + n)) as [tmp|] eqn:En; cycle 1.
  { exists None, (tick b). split; [done|]. split; [done|]. eapply alloc_failed_new; [exact En|].
    apply orb_false_iff in Hworth as [[_ Hw1%Z.ltb_ge]%orb_false_iff Hw2%Z.leb_gt].
    unfold MAX_TO_COPY_IN_EXPAND in Hw1. lia. }
  destruct (chain_new_ok mm _ (off c + n) tmp ltac:(lia) En) as (Ht1 & Ht2 & Ht3 & Ht4 & Ht5).
  rewrite chain_data_ok by done. cbn [mbind option_bind].
  destruct (copy_into_ok tmp c n) as (m & -> & Hw' & Hdat & Hroom); [done..|]. cbn [mbind option_bind].
  set (t' := Chain m _ _ _) in *.
  destruct (replace_same (tick b) (lwd b) c t') as [Hw Hby]; [done..|].
  apply singlechain_checked; [done|]. exists t'. cbn [chains with_chains lwd tick].
  rewrite list_lookup_insert_eq by by eapply lookup_lt_Some. split; [done|]. split; [done|by left].
Qed.

Lemma expand_ok b n :
  wf b → 0 <= n →
  ∃ r b', evbuffer_expand mm b n = Some (r, b') ∧ expanded b b' ∧
    (r = 0 ∧ (∃ i, space_at b' i n) ∨ r = -1 ∧ alloc_failed mm b b' n).
Proof.
  intros Hb Hn. unfold evbuffer_expand.
  destruct (expand_singlechain_ok b n Hb Hn) as ([i|] & b' & -> & He & Hr); cbn [mbind option_bind].
  - exists 0, b'. eauto 10.
  - exists (-1), b'. auto 10.
Qed.

(** evbuffer_expand changes no byte.  Its chain has room for the size asked for, in one piece
    and behind all of the data; it fails for want of memory only. *)
Theorem evbuffer_expand_spec b n :
  wf b → 0 <= n →
  ∃ r b', evbuffer_expand mm b n = Some (r, b') ∧ expanded b b' ∧
    (r = 0 ∧ (∃ i, space_at b' i n) ∨ r = -1 ∧ alloc_failed mm b b' n).
Proof. apply expand_ok. Qed.

(** ** evbuffer_expand_fast_ *)

(** The space of the first [k] chains. *)
Fixpoint room (cs : list evbuffer_chain) (k : nat) {struct k} : Z :=
  match k, cs with S k, c :: cs => CHAIN_SPACE_LEN c + room cs k | _, _ => 0 end.

(** Room for [d] bytes in [k] chains from the first one with space. *)
Definition roomy (b : evbuffer) (d : Z) (k : nat) : Prop :=
  ∃ c, chains b !! lwd b = Some c ∧ d <= room (drop (first_space b c) (chains b)) k.

Lemma space_nonneg c : chain_wf c → 0 <= CHAIN_SPACE_LEN c <= EVBUFFER_CHAIN_MAX.
Proof.
  intros (H1&H2&H3&H4&_). unfold CHAIN_SPACE_LEN. case_match; elia.
Qed.

Lemma room_nonneg cs k : Forall chain_wf cs → 0 <= room cs k.
Proof.
  intros Hw. revert k. induction Hw as [|c cs Hc _ IH]; intros [|k]; cbn [room]; try lia.
  pose proof (space_nonneg c Hc). specialize (IH k). lia.
Qed.

Lemma room_app cs c k : (length cs < k)%nat → room (cs ++ [c]) k = room cs k + CHAIN_SPACE_LEN c.
Proof.
  revert k. induction cs as [|x cs IH]; intros [|k] Hk; cbn [app room length] in *; try lia.
  - by destruct k; cbn [room]; lia.
  - rewrite IH by lia. lia.
Qed.

(** Realigning an empty chain. *)
Lemma realign_empty c :
  chain_wf c → empty_chain c →
  let c' := Chain (buffer c) 0 (off c) (flags c) in
  chain_wf c' ∧ empty_chain c' ∧ CHAIN_SPACE_LEN c' = buffer_len c ∧ 0 < buffer_len c <= EVBUFFER_CHAIN_MAX.
Proof.
  intros (H1&H2&H3&H4&H5&H6&H7) He. unfold empty_chain in He. cbn zeta.
  assert (buffer_len c <= EVBUFFER_CHAIN_MAX) as Hmax by elia.
  assert (CHAIN_IMMUTABLE c = false) as Him by (destruct (CHAIN_IMMUTABLE c); [by destruct H6|done]).
  unfold chain_wf, empty_chain, CHAIN_SPACE_LEN, CHAIN_PINNED, CHAIN_IMMUTABLE, buffer_len in *.
  cbn [buffer misalign off flags]. rewrite Him, He in *. repeat split; first [assumption|lia|done].
Qed.

Lemma expand_loop_empty cs datlen avail used n :
  Forall chain_wf cs → Forall empty_chain cs → 0 <= avail < datlen → datlen <= EVBUFFER_CHAIN_MAX →
  (used < n)%nat →
  ∃ cs' r, expand_loop cs false datlen avail used n = Some (cs', r) ∧
    Forall chain_wf cs' ∧ Forall empty_chain cs' ∧
    match r with
    | None => datlen <= avail + room cs' (n - used)
    | Some (u, a) => (u <= n)%nat ∧ a < datlen ∧
        ((u < n)%nat → a = avail + room cs' (n - used) ∧ u = (used + length cs')%nat)
    end.
Proof.
  revert avail used. induction cs as [|c cs IH]; intros avail used Hw He Ha Hd Hu; cbn [expand_loop].
  { eexists [], (Some (used, avail)). cbn [length]. rewrite Nat.add_0_r. split_and!; try done; try lia.
    intros _. split; [|done]. destruct (n - used)%nat; cbn [room]; lia. }
  apply Forall_cons in Hw as [Hwc Hw]. apply Forall_cons in He as [Hec He].
  destruct (realign_empty c Hwc Hec) as (Hwc' & Hec' & Hsp & Hbl). set (c' := Chain _ _ _ _) in *.
  destruct (Z.eqb_spec (off c) 0) as [_|]; [|done]. cbn [mbind option_bind]. fold c'.
  rewrite uint64_id by (unfold EVBUFFER_CHAIN_MAX in *; lia).
  assert (∃ k, n - used = S k ∧ n - S used = k)%nat as (k & Hk & Hk') by (exists (n - S used)%nat; lia).
  destruct (Z.leb_spec datlen (avail + buffer_len c)) as [Hen|Hen].
  { exists (c' :: cs), None. split_and!; try done; try (by constructor). rewrite Hk. cbn [room].
    pose proof (room_nonneg cs k Hw). lia. }
  destruct (Nat.eqb_spec (S used) n) as [Hn|Hn].
  { exists (c' :: cs), (Some (S used, avail + buffer_len c)). split_and!; try done; try (by constructor); try lia. }
  destruct (IH (avail + buffer_len c) (S used)) as (cs' & r & -> & Hw' & He' & Hr); [done|done|lia|done|lia|].
  cbn [mbind option_bind]. exists (c' :: cs'), r. split_and!; try done; try (by constructor).
  rewrite Hk. rewrite Hk' in Hr. cbn [room length]. destruct r as [[u a]|]; [|lia].
  destruct Hr as (? & ? & Hr). split_and!; try lia.
Qed.

(** The room from the chain of [last_with_datap] on, which is skipped when it is full. *)
Definition roomf (c : evbuffer_chain) (cs : list evbuffer_chain) (n : nat) : Z :=
  if CHAIN_SPACE_LEN c =? 0 then room cs n else room (c :: cs) n.

Lemma roomf_roomy b l1 c l2 d n :
  chains b = l1 ++ c :: l2 → lwd b = length l1 → d <= roomf c l2 n → roomy b d n.
Proof.
  intros Hc Hl Hd. exists c. rewrite Hc, Hl, list_lookup_middle by done. split; [done|].
  unfold first_space, roomf in *. rewrite Hl. case_match.
  - replace (S (length l1)) with (length (l1 ++ [c])) by (rewrite length_app; cbn; lia).
    change (c :: l2) with ([c] ++ l2). by rewrite (assoc_L (++)), drop_app_length.
  - by rewrite drop_app_length.
Qed.

Lemma expand_loop_first c l2 datlen n :
  chain_wf c → Forall chain_wf l2 → Forall empty_chain l2 → 0 <= datlen <= EVBUFFER_CHAIN_MAX → (2 <= n)%nat →
  ∃ c' l2' r, expand_loop (c :: l2) true datlen 0 0 n = Some (c' :: l2', r) ∧
    chain_wf c' ∧ data c' = data c ∧ off c' = off c ∧ Forall chain_wf l2' ∧ Forall empty_chain l2' ∧
    match r with
    | None => datlen <= roomf c' l2' n
    | Some (u, a) => (u <= n)%nat ∧ a < datlen ∧ CHAIN_SPACE_LEN c' < datlen ∧
        ((u < n)%nat → 0 <= a ∧ a = roomf c' l2' n ∧ ∀ t, roomf c' (l2' ++ [t]) n = a + CHAIN_SPACE_LEN t)
    end.
Proof.
  intros Hwc Hw He Hd Hn. cbn [expand_loop].
  set (first := if off c =? 0 then _ else _).
  assert (∃ c' a u, first = Some (c', a, u) ∧ chain_wf c' ∧ data c' = data c ∧ off c' = off c ∧
    a = CHAIN_SPACE_LEN c' ∧ u = (if (CHAIN_SPACE_LEN c' =? 0)%Z then 0 else 1)%nat)
    as (c' & a & u & -> & Hwc' & Hdat & Hoff & Ha & Hu).
  { subst first. destruct (Z.eqb_spec (off c) 0) as [H0|H0].
    - destruct (realign_empty c Hwc H0) as (Hw' & He' & Hsp & Hpos). eexists _, _, _. split; [done|].
      rewrite Hsp, (proj2 (Z.eqb_neq _ _)) by lia. rewrite uint64_id by (unfold EVBUFFER_CHAIN_MAX in *; lia).
      split_and!; try done; try lia. by rewrite !data_empty.
    - cbn [negb]. pose proof (space_nonneg c Hwc). destruct (Z.eqb_spec (CHAIN_SPACE_LEN c) 0) as [H1|H1].
      + exists c, 0, 0%nat. rewrite H1. done.
      + exists c, (CHAIN_SPACE_LEN c), 1%nat. rewrite uint64_id by (unfold EVBUFFER_CHAIN_MAX in *; lia).
        rewrite (proj2 (Z.eqb_neq _ _)) by done. done. }
  cbn [mbind option_bind]. pose proof (space_nonneg c' Hwc') as Hsn.
  assert (∀ l, room l (n - u) + a = roomf c' l n) as Hroomf.
  { intros l. unfold roomf. destruct (Z.eqb_spec (CHAIN_SPACE_LEN c') 0) as [E|E]; rewrite Hu.
    - rewrite Nat.sub_0_r. lia.
    - destruct n as [|n]; [lia|]. replace (S n - 1)%nat with n by lia. cbn [room]. lia. }
  assert (u <= 1)%nat as Hu1 by (rewrite Hu; case_match; lia).
  destruct (Z.leb_spec datlen a) as [Hen|Hen].
  { exists c', l2, None. split_and!; try done. rewrite <- Hroomf. pose proof (room_nonneg l2 (n - u) Hw). lia. }
  destruct (Nat.eqb_spec u n) as [|_]; [lia|].
  destruct (expand_loop_empty l2 datlen a u n) as (l2' & r & -> & Hw' & He' & Hr); [done|done|lia|lia|lia|].
  cbn [mbind option_bind]. exists c', l2', r. split_and!; try done.
  destruct r as [[u' a']|]; [|rewrite <- Hroomf; lia]. destruct Hr as (H1 & H2 & H3).
  split_and!; try lia. intros Hlt. destruct (H3 Hlt) as [Heq Hlen].
  pose proof (room_nonneg l2' (n - u) Hw'). split; [lia|]. split; [rewrite <- Hroomf; lia|].
  intros t. rewrite <- Hroomf, room_app by lia. lia.
Qed.

(** When the last chain has data, [last_with_datap] designates it, and nothing is freed. *)
Lemma lwd_last b l x : wf b → chains b = l ++ [x] → off x ≠ 0 → lwd b = length l.
Proof.
  intros Hb Hl Hx. assert (chains b !! length l = Some x) as Hlx by by rewrite Hl, list_lookup_middle.
  destruct (Nat.lt_trichotomy (lwd b) (length l)) as [H|[H|H]]; [|done|]; exfalso.
  - by apply Hx, (after_lwd b (length l)).
  - destruct Hb as (_&_&_&Hok). apply lwd_ok_lookup in Hok as [[Hnil _]|(y & Hy & _)].
    + by rewrite Hnil in Hlx.
    + apply lookup_lt_Some in Hy. rewrite Hl, length_app in Hy. cbn in Hy. lia.
Qed.

Lemma insert_after_data b l x c :
  wf b → chains b = l ++ [x] → off x ≠ 0 → off c = 0 →
  evbuffer_chain_insert b c =
    Some (with_chains (chains b ++ [c]) (lwd b) (uint64 (total_len b + off c)) b).
Proof.
  intros Hb Hch Hox Hc. pose proof (lwd_last b l x Hb Hch Hox) as Hl.
  unfold evbuffer_chain_insert, evbuffer_free_trailing_empty_chains. rewrite Hc.
  rewrite Hch, Hl, list_lookup_middle, drop_app_length by done. cbn [first_victim].
  rewrite (proj2 (Z.eqb_neq (off x) 0)) by done. cbn [negb orb].
  replace (length l + 1)%nat with (length (l ++ [x])) by (rewrite length_app; cbn; lia).
  rewrite drop_all, take_ge by lia. done.
Qed.

(** A new chain when the last one is immutable (or there is none). *)
Lemma expand_new_ok b datlen n :
  wf b → 0 <= datlen → (1 <= n)%nat →
  match last (chains b) with None => True | Some c => CHAIN_IMMUTABLE c = true end →
  ∃ r b', expand_new mm b datlen = Some (r, b') ∧ expanded b b' ∧
    (r = 0 ∧ roomy b' datlen n ∨ r = -1 ∧ alloc_failed mm b b' datlen).
Proof.
  intros Hb Hd Hn Hlast. unfold expand_new, evbuffer_chain_insert_new, chain_alloc.
  destruct (evbuffer_chain_new mm (n_alloc b) datlen) as [c|] eqn:En; cycle 1.
  { exists (-1), (tick b). split; [done|]. split; [done|]. right. split; [done|]. eapply alloc_failed_new; [exact En|lia]. }
  destruct (chain_new_ok _ _ _ _ Hd En) as (Hc & Hm & Ho & Hf & Hlen).
  assert (CHAIN_SPACE_LEN c = buffer_len c ∧ 0 < buffer_len c) as [Hsp Hpos].
  { rewrite fresh_space by done. by destruct Hc as (_&_&_&_&_&_&?). }
  assert (datlen <= room [c] n) as Hroom by (destruct n; [lia|]; cbn [room]; destruct n; cbn [room]; lia).
  destruct (chain_insert_ok (tick b) c) as (b' & Hins & Hb' & Hby & Hfr%same_frame_tick & _ & _ & Hone); [done|done| |].
  { cbn [total_len tick]. pose proof (wf_total b Hb). lia. }
  rewrite Hins. cbn [mbind option_bind]. exists 0, b'. split; [done|]. split.
  { split; [done|]. split; [done|]. rewrite Hby, data_empty, app_nil_r by done. done. }
  left. split; [done|]. destruct (last (chains b)) as [x|] eqn:Hx; cycle 1.
  { apply last_None in Hx. destruct (Hone Hx) as [Hch Hl].
    apply (roomf_roomy b' [] c []); [done|done|]. unfold roomf.
    by rewrite (proj2 (Z.eqb_neq _ _)) by lia. }
  apply last_Some in Hx as [l Hch].
  assert (off x ≠ 0) as Hox.
  { destruct (wf_lookup b (length l) x Hb) as (_&_&_&_&_&Hi&_); [by rewrite Hch, list_lookup_middle|auto]. }
  rewrite (insert_after_data (tick b) l x) in Hins by done. injection Hins as <-.
  apply (roomf_roomy _ l x [c]).
  - cbn. by rewrite Hch, <- (assoc_L (++)).
  - by apply (lwd_last b l x).
  - unfold roomf, CHAIN_SPACE_LEN at 1. by rewrite Hlast.
Qed.

(** The chains that stay when the empty ones at the end are freed. *)
Definition nuke_keep (l1 : list evbuffer_chain) (c : evbuffer_chain) : list evbuffer_chain :=
  if off c =? 0 then [] else l1 ++ [c].

Lemma nuke_keep_ok b l1 c l2 :
  chains b = l1 ++ c :: l2 → lwd b = length l1 → Forall empty_chain l2 → (l1 = [] ∨ off c ≠ 0) →
  (if off c =? 0 then [] else take (S (lwd b)) (chains b)) = nuke_keep l1 c ∧
  Forall empty_chain (drop (length (nuke_keep l1 c)) (chains b)) ∧
  cbytes (nuke_keep l1 c) = bytes b.
Proof.
  intros Hc Hl He Hne. unfold nuke_keep, bytes. rewrite Hc, Hl.
  destruct (Z.eqb_spec (off c) 0) as [H0|H0].
  - destruct Hne as [->|]; [|done]. cbn [length app]. rewrite drop_0, cbytes_cons, (cbytes_empty l2), data_empty by done.
    split; [done|]. split; [by constructor|done].
  - change (c :: l2) with ([c] ++ l2). rewrite (assoc_L (++)), drop_app_length.
    rewrite take_app_length' by (rewrite length_app; cbn; lia).
    by rewrite (cbytes_app (l1 ++ [c])), (cbytes_empty l2), app_nil_r.
Qed.

(** New empty chains behind them. *)
Lemma nuke_expanded b b1 l1 c l2 cs :
  wf b → chains b = l1 ++ c :: l2 → lwd b = length l1 → Forall empty_chain l2 → (l1 = [] ∨ off c ≠ 0) →
  same_frame b b1 → Forall chain_wf cs → Forall empty_chain cs → cs ≠ [] ∨ off c ≠ 0 →
  expanded b (with_chains (nuke_keep l1 c ++ cs) (lwd b) (total_len b) b1).
Proof.
  intros (Hwf & Hlen & Hmax & _) Hc Hl He Hne Hf Hcs Hce Hor.
  destruct (nuke_keep_ok b l1 c l2 Hc Hl He Hne) as (_ & _ & Hkb).
  rewrite Hc in Hwf. apply Forall_app in Hwf as [Hw1 [Hwc _]%Forall_cons].
  unfold expanded, bytes at 1. cbn [chains with_chains].
  assert (cbytes (nuke_keep l1 c ++ cs) = bytes b) as Hby by by rewrite cbytes_app, (cbytes_empty cs), app_nil_r.
  split; [|done]. apply wf_with_chains; [| |by rewrite Hby|done].
  - apply Forall_app. split; [|done]. unfold nuke_keep. case_match; [done|].
    apply Forall_app. split; [done|]. by apply Forall_singleton.
  - right. unfold nuke_keep. destruct (Z.eqb_spec (off c) 0) as [H0|H0].
    + destruct cs as [|x cs]; [by destruct Hor|]. apply Forall_cons in Hce as [_ Hce].
      exists [], x, cs. destruct Hne as [->|]; [|done]. rewrite Hl. auto.
    + exists l1, c, cs. rewrite <- (assoc_L (++)), Hl. auto.
Qed.

(** Replacing all the empty chains at the end by one. *)
Lemma expand_nuke_ok b l1 c l2 datlen n :
  wf b → chains b = l1 ++ c :: l2 → lwd b = length l1 → Forall empty_chain l2 → (l1 = [] ∨ off c ≠ 0) →
  CHAIN_SPACE_LEN c < datlen → 0 <= datlen → (2 <= n)%nat →
  ∃ r b', expand_nuke mm b datlen = Some (r, b') ∧ expanded b b' ∧
    (r = 0 ∧ roomy b' datlen n ∨ r = -1 ∧ alloc_failed mm b b' datlen).
Proof.
  intros Hb Hc Hl He Hne Hsp Hd Hn. unfold expand_nuke.
  pose proof Hb as (Hwf & Hlen & Hmax & _). rewrite Hc in Hwf. apply Forall_app in Hwf as [Hw1 [Hwc Hw2]%Forall_cons].
  pose proof (space_nonneg c Hwc) as Hsn.
  assert (chains b !! lwd b = Some c) as -> by by rewrite Hc, Hl, list_lookup_middle.
  cbn [mbind option_bind].
  assert ((off c =? 0) && negb (lwd b =? 0)%nat = false) as ->.
  { destruct Hne as [->|Hne]; [by rewrite Hl, andb_false_r|]. by rewrite (proj2 (Z.eqb_neq _ _)). }
  destruct (nuke_keep_ok b l1 c l2 Hc Hl He Hne) as (-> & Hkd & Hkb).
  set (avail := if off c =? 0 then _ else _).
  assert (0 <= avail <= CHAIN_SPACE_LEN c) as Hav by (subst avail; case_match; lia).
  rewrite (proj1 (empty_all_empty _) Hkd), (proj2 (Z.ltb_ge _ _)) by lia. cbn [negb].
  unfold chain_alloc. destruct (evbuffer_chain_new mm (n_alloc b) (datlen - avail)) as [tmp|] eqn:En; cycle 1.
  { eexists (-1), _. split; [done|]. split; [|right; split; [done|]; eapply alloc_failed_wide; [eapply alloc_failed_new; [exact En|lia]|done|by case_match]].
    destruct (Z.eqb_spec (off c) 0) as [H0|H0].
    - unfold expanded. assert (bytes b = []) as Hn0 by (rewrite <- Hkb; unfold nuke_keep; by rewrite H0).
      rewrite Hn0. split; [|done]. apply wf_with_chains; [constructor|by left|done|done].
    - rewrite <- (app_nil_r (nuke_keep l1 c)). apply (nuke_expanded b (tick b) l1 c l2 []); try done. by right. }
  destruct (chain_new_ok mm _ (datlen - avail) tmp ltac:(lia) En) as (Ht1 & Ht2 & Ht3 & Ht4 & Ht5).
  eexists 0, _. split; [done|]. split.
  { apply (nuke_expanded b (tick b) l1 c l2 [tmp]); try done; [by apply Forall_singleton..|by left]. }
  left. split; [done|].
  pose proof (fresh_space tmp Ht2 Ht3 Ht4) as Hts.
  assert (0 < buffer_len tmp) as Htp by by destruct Ht1 as (_&_&_&_&_&_&?).
  destruct n as [|[|n]]; [lia..|].
  subst avail. unfold nuke_keep. destruct (Z.eqb_spec (off c) 0) as [H0|H0].
  - destruct Hne as [->|]; [|done]. apply (roomf_roomy _ [] tmp []); [done|done|].
    unfold roomf. rewrite (proj2 (Z.eqb_neq _ _)) by lia. cbn [room]. destruct n; lia.
  - apply (roomf_roomy _ l1 c [tmp]); [cbn; by rewrite <- (assoc_L (++))|done|].
    unfold roomf. destruct (Z.eqb_spec (CHAIN_SPACE_LEN c) 0); cbn [room]; destruct n; cbn [room]; lia.
Qed.

Lemma expanded_trans b1 b2 b3 : expanded b1 b2 → expanded b2 b3 → expanded b1 b3.
Proof.
  intros (_ & Hf1 & Hb1) (Hw & Hf2 & Hb2). split; [done|]. split; [by apply (same_frame_trans _ b2)|congruence].
Qed.

(** The chains from [last_with_datap] on replaced by others with the same data. *)
Lemma expanded_tail b b1 l1 c l2 c' l2' :
  wf b → same_frame b b1 → chains b = l1 ++ c :: l2 → lwd b = length l1 → Forall empty_chain l2 →
  (l1 = [] ∨ off c ≠ 0) → chain_wf c' → data c' = data c → off c' = off c →
  Forall chain_wf l2' → Forall empty_chain l2' →
  expanded b (with_chains (l1 ++ c' :: l2') (lwd b) (total_len b) b1).
Proof.
  intros (Hwf & Hlen & Hmax & _) Hf Hc Hl He Hne Hwc' Hd Ho Hw' He'.
  assert (cbytes (l1 ++ c' :: l2') = bytes b) as Hby.
  { unfold bytes. by rewrite Hc, !cbytes_app, !cbytes_cons, Hd, (cbytes_empty l2), (cbytes_empty l2'). }
  unfold expanded, bytes at 1. cbn [chains with_chains]. split; [|done].
  apply wf_with_chains; [| |by rewrite Hby|done].
  - rewrite Hc in Hwf. apply Forall_app in Hwf as [Hw1 _]. apply Forall_app. split; [done|]. by constructor.
  - right. exists l1, c', l2'. rewrite Ho. auto.
Qed.

Lemma expand_fast_ok b datlen n :
  wf b → 0 <= datlen <= EVBUFFER_CHAIN_MAX → (2 <= n)%nat →
  ∃ r b', evbuffer_expand_fast_ mm b datlen n = Some (r, b') ∧ expanded b b' ∧
    (r = 0 ∧ roomy b' datlen n ∨ r = -1 ∧ alloc_failed mm b b' datlen).
Proof.
  intros Hb Hd Hn. unfold evbuffer_expand_fast_. rewrite (proj2 (Nat.ltb_ge _ _)) by done.
  pose proof (expand_new_ok b datlen n Hb) as Hnew.
  destruct (last (chains b)) as [cl|] eqn:Hlast; [|apply Hnew; (done || lia)].
  destruct (CHAIN_IMMUTABLE cl) eqn:Him; [apply Hnew; (done || lia)|]. clear Hnew.
  pose proof Hb as (Hwf & _ & _ & [[Hnil _]|(l1 & c & l2 & Hc & Hl & He & Hne)]); [by rewrite Hnil in Hlast|].
  rewrite Hc in Hwf. apply Forall_app in Hwf as [Hw1 [Hwc Hw2]%Forall_cons].
  destruct (expand_loop_first c l2 datlen n) as (c' & l2' & r & Hloop & Hwc' & Hdc & Hoc & Hw' & He' & Hr); [done..|].
  assert (expand_loop (drop (lwd b) (chains b)) true datlen 0 0 n = Some (c' :: l2', r)) as ->
    by by rewrite Hc, Hl, drop_app_length.
  cbn [mbind option_bind].
  assert (take (lwd b) (chains b) = l1) as -> by by rewrite Hc, Hl, take_app_length.
  assert (expanded b (with_chains (l1 ++ c' :: l2') (lwd b) (total_len b) b)) as He1 by by eapply expanded_tail.
  set (b1 := with_chains _ _ _ b) in *. destruct r as [[u a]|]; cycle 1.
  { exists 0, b1. split; [done|]. split; [done|]. left. split; [done|]. by apply (roomf_roomy b1 l1 c' l2'). }
  destruct Hr as (Hu & Ha & Hsp & Hr). destruct (Nat.ltb_spec u n) as [Hlt|Hge].
  - destruct (Hr Hlt) as (Ha0 & _ & Hrt). unfold EVBUFFER_CHAIN_MAX in Hd. rewrite uint64_id by lia.
    unfold chain_alloc. destruct (evbuffer_chain_new mm (n_alloc b1) (datlen - a)) as [tmp|] eqn:En; cycle 1.
    { exists (-1), (tick b1). split; [done|]. split; [pose proof (proj1 He1); by apply (expanded_trans _ b1)|]. right. split; [done|].
      eapply alloc_failed_wide; [eapply alloc_failed_new; [exact En|lia]|done|done]. }
    destruct (chain_new_ok mm _ (datlen - a) tmp ltac:(lia) En) as (Ht1 & Ht2 & Ht3 & Ht4 & Ht5).
    eexists 0, _. split; [done|]. split.
    + cbn [chains tick b1 with_chains lwd total_len]. rewrite <- (assoc_L (++)). cbn [app].
      eapply (expanded_tail b); try done; (apply Forall_app; split; [done|by apply Forall_singleton]).
    + left. split; [done|]. apply (roomf_roomy _ l1 c' (l2' ++ [tmp])).
      * cbn. by rewrite <- (assoc_L (++)).
      * done.
      * rewrite Hrt, fresh_space by done. lia.
  - destruct (expand_nuke_ok b1 l1 c' l2' datlen n) as (r & b2 & -> & He2 & Hres); try done.
    + by destruct He1.
    + by rewrite Hoc.
    + lia.
    + exists r, b2. split; [done|]. split; [by apply (expanded_trans _ b1)|done].
Qed.

(** evbuffer_expand_fast_ changes no byte, and on success leaves room for the size asked for
    in at most [n] consecutive chains from the first one with space; it fails for want of memory
    only. *)
Theorem evbuffer_expand_fast_spec b datlen n :
  wf b → 0 <= datlen <= EVBUFFER_CHAIN_MAX → (2 <= n)%nat →
  ∃ r b', evbuffer_expand_fast_ mm b datlen n = Some (r, b') ∧ expanded b b' ∧
    (r = 0 ∧ roomy b' datlen n ∨ r = -1 ∧ alloc_failed mm b b' datlen).
Proof. apply expand_fast_ok. Qed.

(** ** evbuffer_write *)

Lemma write_vecs_ok cs n howmuch :
  Forall chain_wf cs → 0 <= howmuch <= Zlen (cbytes cs) →
  ∃ vs k, write_vecs cs n howmuch = Some vs ∧ concat vs = take k (cbytes cs) ∧ Z.of_nat k <= howmuch ∧
    (vs = [] → concat vs = []).
Proof.
  revert n howmuch. induction cs as [|c cs IH]; intros n h Hw Hh.
  { exists [], 0%nat. destruct n; split_and!; try done; lia. }
  destruct n as [|n]; [exists [], 0%nat; split_and!; try done; lia|]. cbn [write_vecs].
  destruct (Z.eqb_spec h 0) as [->|H0]; [exists [], 0%nat; split_and!; try done; lia|].
  apply Forall_cons in Hw as [Hc Hw]. rewrite cbytes_cons, length_app in *. pose proof (data_length c Hc) as Hd.
  destruct (Z.leb_spec (off c) h) as [Hle|Hgt].
  - rewrite chain_data_ok by done. cbn [mbind option_bind]. pose proof Hc as (_&?&_).
    destruct (IH n (h - off c) Hw) as (vs & k & -> & Hv & Hk & _); [lia|]. cbn [mbind option_bind].
    exists (data c :: vs), (length (data c) + k)%nat. split_and!; try done; try lia. cbn [concat].
    rewrite Hv. by rewrite take_app_add.
  - assert (slice (buffer c) (misalign c) h = Some (take (Z.to_nat h) (data c))) as ->.
    { rewrite <- (Z.add_0_r (misalign c)). rewrite chain_slice by (done || lia). by rewrite drop_0. }
    cbn [mbind option_bind]. exists [take (Z.to_nat h) (data c)], (Z.to_nat h).
    split_and!; try done; try lia. cbn [concat]. rewrite app_nil_r. by rewrite take_app_le by lia.
Qed.

Lemma write_atmost_ok b writev howmuch :
  wf b → freeze_start b = false → Zlen (bytes b) <= INT_MAX →
  (∀ d, -1 <= writev d <= Zlen d) →
  ∃ n b' k, evbuffer_write_atmost b writev howmuch = Some (n, b') ∧ wf b' ∧ same_frame b b' ∧
    n <= Z.of_nat k ∧ Z.of_nat k <= Zlen (bytes b) ∧ (0 <= howmuch → Z.of_nat k <= howmuch) ∧
    bytes b' = drop (Z.to_nat n) (bytes b) ∧
    (0 < n → n = writev (take k (bytes b))).
Proof.
  intros Hb Hfs Hmax Hwr. unfold evbuffer_write_atmost. rewrite Hfs. pose proof Hb as (Hwf & Hlen & _).
  set (h := if (_ || _) then _ else howmuch).
  assert (0 <= h <= Zlen (bytes b) ∧ (0 <= howmuch → h <= howmuch)) as [Hh Hh2].
  { subst h. destruct (Z.ltb_spec howmuch 0), (Z.ltb_spec (total_len b) howmuch); cbn [orb]; lia. }
  clearbody h. destruct (Z.ltb_spec 0 h) as [Hpos|Hz]; cycle 1.
  { exists (-1), b, 0%nat. cbn. split_and!; try done; lia. }
  unfold evbuffer_write_iovec. rewrite (proj2 (Z.ltb_ge _ _)) by lia.
  destruct (write_vecs_ok (chains b) NUM_WRITE_IOVEC h Hwf) as (vs & k & -> & Hv & Hk & _); [unfold bytes in Hh; lia|].
  cbn [mbind option_bind]. change (cbytes (chains b)) with (bytes b) in Hv.
  set (n := if decide (vs = []) then 0 else _).
  assert (n <= Z.of_nat k ∧ (0 < n → n = writev (take k (bytes b)))) as [Hn Hn2].
  { subst n. rewrite Hv. case_decide; [lia|]. pose proof (Hwr (take k (bytes b))) as Hw.
    rewrite length_take in Hw. rewrite int32_id by (unfold INT_MIN, INT_MAX in *; lia). lia. }
  clearbody n. destruct (Z.ltb_spec 0 n) as [Hnp|Hnn].
  - destruct (drain_ok b n) as (b' & -> & Hw' & Hf' & Hby); [done|lia|done|]. cbn [mbind option_bind].
    exists n, b', k. split_and!; try done; lia.
  - exists n, b, k. replace (Z.to_nat n) with 0%nat by lia. split_and!; try done; lia.
Qed.

(** evbuffer_write_atmost offers the kernel a prefix of the buffer, of at most [howmuch]
    bytes, and then removes exactly the bytes the kernel took: none twice, none lost. *)
Theorem evbuffer_write_atmost_spec b writev howmuch :
  wf b → freeze_start b = false → Zlen (bytes b) <= INT_MAX →
  (∀ d, -1 <= writev d <= Zlen d) →
  ∃ n b' k, evbuffer_write_atmost b writev howmuch = Some (n, b') ∧ wf b' ∧ same_frame b b' ∧
    n <= Z.of_nat k ∧ Z.of_nat k <= Zlen (bytes b) ∧ (0 <= howmuch → Z.of_nat k <= howmuch) ∧
    bytes b' = drop (Z.to_nat n) (bytes b) ∧
    (0 < n → n = writev (take k (bytes b))).
Proof. apply write_atmost_ok. Qed.

(** ** evbuffer_read *)

(** Reading nothing into the vectors. *)
Lemma fill_nil cs i n howmuch so_far exact vs :
  Forall chain_wf cs → setup_vecs_loop cs i n howmuch so_far exact = Some vs →
  readv_fill cs vs [] = Some cs.
Proof.
  revert cs i so_far vs. induction n as [|n IH]; intros cs i so_far vs Hw Hs; cbn [setup_vecs_loop] in Hs.
  { simplify_eq. by destruct cs. }
  destruct (so_far <? howmuch); [|simplify_eq; by destruct cs]. destruct cs as [|c cs]; [done|].
  set (a := if _ && _ then _ else _) in *.
  destruct (setup_vecs_loop cs (S i) n howmuch (so_far + a) exact) as [vs'|] eqn:E; [|done].
  cbn [mbind option_bind] in Hs. simplify_eq. apply Forall_cons in Hw as [Hc Hw].
  cbn [readv_fill space_vec iov_off iov_len]. rewrite take_nil, drop_nil.
  pose proof Hc as (?&?&?&_). rewrite splice_nil by (unfold buffer_len in *; lia). cbn [mbind option_bind].
  rewrite (IH _ _ _ _ Hw E). cbn [mbind option_bind]. by destruct c.
Qed.

(** With enough room the vectors exist. *)
Lemma setup_vecs_ok cs i n howmuch so_far :
  Forall chain_wf cs → howmuch - so_far <= room cs n →
  ∃ vs, setup_vecs_loop cs i n howmuch so_far true = Some vs.
Proof.
  revert cs i so_far. induction n as [|n IH]; intros cs i so_far Hw Hr; cbn [setup_vecs_loop room] in *; [eauto|].
  destruct (Z.ltb_spec so_far howmuch); [|eauto]. destruct cs as [|c cs]; [lia|].
  apply Forall_cons in Hw as [Hc Hw]. set (a := if _ && _ then _ else _).
  destruct (IH cs (S i) (so_far + a)) as [vs ->]; [done| |cbn; eauto].
  pose proof (room_nonneg cs n Hw). subst a.
  destruct (Z.ltb_spec (howmuch - so_far) (CHAIN_SPACE_LEN c)); cbn [andb]; lia.
Qed.

(** Bytes read into the space of a chain, and then made part of its data. *)
Lemma chain_fill_ok c d :
  chain_wf c → Zlen d <= CHAIN_SPACE_LEN c →
  ∃ m, splice (buffer c) (misalign c + off c) d = Some m ∧
    CHAIN_SPACE_LEN (Chain m (misalign c) (off c) (flags c)) = CHAIN_SPACE_LEN c ∧
    let c' := grow (Chain m (misalign c) (off c) (flags c)) (Zlen d) in
    chain_wf c' ∧ data c' = data c ++ d ∧ off c' = off c + Zlen d.
Proof.
  intros Hc Hd. destruct (chain_append_ok c d Hc) as (c' & Hc' & Hw' & Hdat & Hoff & _).
  { pose proof Hc as (_ & _ & Hc3 & _). unfold CHAIN_SPACE_LEN in Hd. case_match; lia. }
  unfold chain_append in Hc'. destruct (splice (buffer c) (misalign c + off c) d) as [m|] eqn:Es; [|done].
  cbn [mbind option_bind] in Hc'. exists m. split; [done|]. split; [|by simplify_eq].
  unfold CHAIN_SPACE_LEN, CHAIN_IMMUTABLE, buffer_len. cbn [buffer misalign off flags].
  by rewrite (splice_length _ _ _ _ Es).
Qed.

(** Reading [d] into the space of the chains and making it data. *)
Lemma read_into_ok cs i n howmuch so_far d :
  Forall chain_wf cs → Forall empty_chain (tail cs) →
  0 <= howmuch - so_far <= room cs n → 0 < Zlen d <= howmuch - so_far →
  ∃ vs cs1 k1 x k2, setup_vecs_loop cs i n howmuch so_far true = Some vs ∧
    readv_fill cs vs d = Some cs1 ∧
    read_commit cs1 i (length vs) (Zlen d) = Some (k1 ++ x :: k2, Some (i + length k1)%nat) ∧
    Forall chain_wf (k1 ++ x :: k2) ∧ Forall empty_chain k2 ∧ off x ≠ 0 ∧
    cbytes (k1 ++ x :: k2) = cbytes cs ++ d.
Proof.
  revert cs i so_far d. induction n as [|n IH]; intros cs i so_far d Hw He Hr Hd.
  { cbn [room] in Hr. lia. }
  cbn [setup_vecs_loop]. rewrite (proj2 (Z.ltb_lt _ _)) by lia.
  destruct cs as [|c cs]; [cbn [room] in Hr; lia|]. cbn [tail room] in *.
  apply Forall_cons in Hw as [Hc Hw]. pose proof (space_nonneg c Hc) as Hsp.
  set (h := howmuch - so_far) in *. rewrite andb_true_r.
  set (a := if h <? CHAIN_SPACE_LEN c then h else CHAIN_SPACE_LEN c).
  assert (a = Z.min h (CHAIN_SPACE_LEN c)) as Ha by (subst a; destruct (Z.ltb_spec h (CHAIN_SPACE_LEN c)); lia).
  clearbody a. rewrite cbytes_cons, (cbytes_empty cs), app_nil_r by done.
  destruct (Z.ltb_spec (CHAIN_SPACE_LEN c) (Zlen d)) as [Hlt|Hge].
  - (* the chain is filled *)
    assert (a = CHAIN_SPACE_LEN c) as -> by lia.
    set (d1 := take (Z.to_nat (CHAIN_SPACE_LEN c)) d). set (d2 := drop (Z.to_nat (CHAIN_SPACE_LEN c)) d).
    assert (Zlen d1 = CHAIN_SPACE_LEN c) as Hd1 by (unfold d1; lens).
    assert (Zlen d2 = Zlen d - CHAIN_SPACE_LEN c) as Hd2 by (unfold d2; lens).
    destruct (IH cs (S i) (so_far + CHAIN_SPACE_LEN c) d2) as (vs & cs1 & k1 & x & k2 & -> & Hf & Hcm & Hw2 & He2 & Hx & Hby);
      [done|by apply Forall_tail|lia|lia|].
    destruct (chain_fill_ok c d1 Hc) as (m & Hm & Hspm & Hg1 & Hg2 & _); [lia|]. rewrite Hd1 in *.
    cbn [mbind option_bind]. eexists (_ :: vs), _, (grow (Chain m (misalign c) (off c) (flags c)) (CHAIN_SPACE_LEN c) :: k1), x, k2.
    split; [done|]. cbn [readv_fill space_vec iov_off iov_len length read_commit]. fold d1 d2. rewrite Hm, Hf.
    cbn [mbind option_bind]. split; [done|]. cbn [read_commit]. rewrite Hspm.
    rewrite (proj2 (Z.ltb_ge EVBUFFER_CHAIN_MAX _)), (proj2 (Z.ltb_lt _ _)) by lia.
    rewrite <- Hd2, Hcm. cbn [mbind option_bind app]. split; [by rewrite Nat.add_succ_r|].
    split; [by constructor|]. split; [done|]. split; [done|].
    rewrite cbytes_cons, Hg2, Hby, (cbytes_empty cs) by done. rewrite <- (assoc_L (++)). cbn [app].
    unfold d1, d2. by rewrite take_drop.
  - (* the last chain *)
    assert (Zlen d <= a) as Hda by lia. pose proof (room_nonneg cs n Hw) as Hrn.
    destruct (setup_vecs_ok cs (S i) n howmuch (so_far + a)) as [vs Hvs]; [done|lia|]. rewrite Hvs.
    destruct (chain_fill_ok c d Hc) as (m & Hm & Hspm & Hg1 & Hg2 & Hg3); [lia|].
    cbn [mbind option_bind]. eexists (_ :: vs), _, [], (grow (Chain m (misalign c) (off c) (flags c)) (Zlen d)), cs.
    split; [done|]. cbn [readv_fill space_vec iov_off iov_len length]. rewrite take_ge, drop_ge by lia.
    rewrite Hm, (fill_nil _ _ _ _ _ _ _ Hw Hvs). cbn [mbind option_bind]. split; [done|].
    cbn [read_commit]. rewrite Hspm. rewrite (proj2 (Z.ltb_ge EVBUFFER_CHAIN_MAX _)), (proj2 (Z.ltb_ge _ _)) by lia.
    split; [by rewrite Nat.add_0_r|]. split; [by constructor|]. split; [done|]. split; [destruct Hc as (_ & ? & _); lia|].
    cbn [app]. by rewrite cbytes_cons, Hg2, (cbytes_empty cs), app_nil_r.
Qed.

Lemma read_howmuch_range f h : 0 <= read_howmuch f h <= EVBUFFER_MAX_READ.
Proof.
  unfold read_howmuch, EVBUFFER_MAX_READ.
  destruct (Z.leb_spec f 0), (Z.ltb_spec 4096 f); cbn [orb];
    match goal with |- context [?a <? h] => destruct (Z.ltb_spec h 0), (Z.ltb_spec a h) end; cbn [orb]; lia.
Qed.

(** The chains from the first one with space on. *)
Lemma first_space_split b c :
  wf b → chains b !! lwd b = Some c → CHAIN_SPACE_LEN c ≠ 0 ∨ (S (lwd b) < length (chains b))%nat →
  ∃ l1 h t, chains b = l1 ++ h :: t ∧ first_space b c = length l1 ∧ Forall empty_chain t.
Proof.
  intros Hb Hc Hor. assert (first_space b c < length (chains b))%nat as Hlt.
  { apply lookup_lt_Some in Hc. unfold first_space. destruct (Z.eqb_spec (CHAIN_SPACE_LEN c) 0); [|lia].
    destruct Hor; [done|lia]. }
  apply lookup_lt_is_Some in Hlt as [h Hh]. exists (take (first_space b c) (chains b)), h, (drop (S (first_space b c)) (chains b)).
  apply lookup_lt_Some in Hh as Hlt. rewrite take_drop_middle, length_take by done. split; [done|]. split; [lia|].
  apply Forall_lookup. intros k x Hx. rewrite lookup_drop in Hx. eapply (after_lwd b); [done| |exact Hx].
  unfold first_space. case_match; lia.
Qed.

Lemma read_ok b fionread howmuch got :
  wf b → freeze_end b = false → total_len b + EVBUFFER_MAX_READ <= SIZE_MAX →
  (∀ d, got = Some d → Zlen d <= read_howmuch fionread howmuch) →
  ∃ r b', evbuffer_read mm b fionread howmuch got = Some (r, b') ∧ wf b' ∧ same_frame b b' ∧
    (match got with
     | Some d => r = Zlen d ∧ bytes b' = bytes b ++ d
     | None => r = -1 ∧ bytes b' = bytes b
     end ∨ r = -1 ∧ bytes b' = bytes b ∧ alloc_failed mm b b' 0).
Proof.
  intros Hb Hfe Hmax Hgot. unfold evbuffer_read. rewrite Hfe.
  pose proof (read_howmuch_range fionread howmuch) as Hh. set (h := read_howmuch fionread howmuch) in *.
  clearbody h. unfold EVBUFFER_MAX_READ in *.
  destruct (expand_fast_ok b h NUM_READ_IOVEC Hb) as (r & b1 & -> & (Hw1 & Hf1 & Hby1) & Hr);
    [unfold EVBUFFER_CHAIN_MAX; lia|unfold NUM_READ_IOVEC; lia|]. cbn [mbind option_bind].
  destruct Hr as [[-> (c & Hc & Hroom)]|[-> Hfail]]; cycle 1.
  { exists (-1), b1. change (-1 =? -1) with true. split; [done|]. split; [done|]. split; [done|].
    right. split; [done|]. split; [done|]. apply (alloc_failed_small mm _ _ h); [|done].
    change (EVBUFFER_CHAIN_MAX / 2) with 4611686018427387903. lia. }
  change (0 =? -1) with false. cbv iota.
  unfold evbuffer_read_setup_vecs_. rewrite (proj2 (Z.ltb_ge _ _)), Hc by lia. cbn [mbind option_bind].
  assert (Forall chain_wf (drop (first_space b1 c) (chains b1))) as Hwd by (apply Forall_drop, Hw1).
  destruct (setup_vecs_ok (drop (first_space b1 c) (chains b1)) (first_space b1 c) NUM_READ_IOVEC h 0) as [vs Hvs];
    [done|lia|]. rewrite Hvs. cbn [mbind option_bind].
  destruct got as [d|]; [|exists (-1), b1; split; [done|]; split; [done|]; split; [done|by left]].
  destruct d as [|d0 d]; [exists 0, b1; rewrite app_nil_r; split; [done|]; split; [done|]; split; [done|by left]|]. set (dd := d0 :: d) in *.
  specialize (Hgot dd eq_refl). assert (0 < Zlen dd) as Hdp by (unfold dd; cbn; lia).
  destruct (first_space_split b1 c Hw1 Hc) as (l1 & hd & t & Hch & Hfs & Het).
  { destruct (decide (CHAIN_SPACE_LEN c = 0)) as [E|E]; [right|by left].
    destruct (decide (S (lwd b1) < length (chains b1))%nat) as [|Hn]; [done|exfalso].
    unfold first_space in Hroom. rewrite E in Hroom. cbn in Hroom. rewrite drop_ge in Hroom by lia. cbn in Hroom. lia. }
  rewrite Hch, Hfs, drop_app_length in *.
  destruct (read_into_ok (hd :: t) (length l1) NUM_READ_IOVEC h 0 dd) as
    (vs' & cs1 & k1 & x & k2 & Hvs' & Hfill & Hcm & Hw2 & He2 & Hx & Hby2); [done|done|lia|lia|].
  simplify_eq. rewrite Hfill. cbn [mbind option_bind]. rewrite Hcm. cbn [mbind option_bind from_option].
  rewrite take_app_length. pose proof Hw1 as (Hwf1 & Hlen1 & _ & _). rewrite Hch in Hwf1.
  apply Forall_app in Hwf1 as [Hwl1 _].
  assert (cbytes (l1 ++ k1 ++ x :: k2) = bytes b1 ++ dd) as Hby3.
  { rewrite cbytes_app, Hby2. unfold bytes. by rewrite Hch, cbytes_app, (assoc_L (++)). }
  destruct Hb as (_ & Hlen & _). rewrite uint64_id by (rewrite Hlen1, Hby1; unfold SIZE_MAX in *; lia).
  set (b2 := with_chains _ _ _ b1). assert (wf b2) as Hw3.
  { apply wf_with_chains.
    - by apply Forall_app.
    - right. exists (l1 ++ k1), x, k2. rewrite (assoc_L (++)), length_app. auto.
    - rewrite Hby3, length_app. lia.
    - rewrite Hlen1, Hby1. lia. }
  destruct (finish_ok (count_add (Zlen dd) b2) Hw3) as (Hw4 & Hby4 & Hf4).
  eexists (Zlen dd), _. split; [done|]. split; [done|]. split; [by apply (same_frame_trans _ b1)|].
  left. split; [done|]. rewrite Hby4. change (cbytes (l1 ++ k1 ++ x :: k2) = bytes b ++ dd). by rewrite Hby3, Hby1.
Qed.

(** evbuffer_read appends exactly the bytes that readv delivers, over up to four chains, and
    returns their number; it returns -1 and changes no byte when readv fails or there is no
    memory.  At most 4096 bytes are asked for. *)
Theorem evbuffer_read_spec b fionread howmuch got :
  wf b → freeze_end b = false → total_len b + EVBUFFER_MAX_READ <= SIZE_MAX →
  (∀ d, got = Some d → Zlen d <= read_howmuch fionread howmuch) →
  ∃ r b', evbuffer_read mm b fionread howmuch got = Some (r, b') ∧ wf b' ∧ same_frame b b' ∧
    (match got with
     | Some d => r = Zlen d ∧ bytes b' = bytes b ++ d
     | None => r = -1 ∧ bytes b' = bytes b
     end ∨ r = -1 ∧ bytes b' = bytes b ∧ alloc_failed mm b b' 0).
Proof. apply read_ok. Qed.

(** ** evbuffer_add_iovec *)

Lemma add_iovec_loop_ok b vec res :
  wf b → 0 <= res → total_len b + Zlen (concat vec) <= SIZE_MAX → res + Zlen (concat vec) <= SIZE_MAX →
  freeze_end b = false →
  ∃ b' k, add_iovec_loop mm b vec res = Some (res + Zlen (concat (take k vec)), b') ∧
    wf b' ∧ same_frame b b' ∧ bytes b' = bytes b ++ concat (take k vec) ∧
    ((length vec <= k)%nat ∨ alloc_failed mm b b' (Zlen (concat vec))).
Proof.
  revert b res. induction vec as [|d vec IH]; intros b res Hb Hres Hmax Hmax2 Hfe; cbn [add_iovec_loop].
  { exists b, 0%nat. cbn. rewrite Z.add_0_r, app_nil_r. split_and!; try done. by left. }
  cbn [concat] in Hmax, Hmax2 |- *. rewrite length_app in Hmax, Hmax2.
  destruct (add_ok mm b d Hb) as (r & b1 & -> & (Hw1 & Hf1 & Hr) & Hfail). cbn [mbind option_bind].
  destruct Hr as [[-> Hby]|[-> Hby]].
  - change (0 <? 0) with false. cbv iota. pose proof (wf_total b Hb) as Ht.
    rewrite uint64_id by (unfold SIZE_MAX in *; lia).
    destruct Hb as (_ & Hlen & _). pose proof Hw1 as (_ & Hlen1 & _). rewrite Hby, length_app in Hlen1.
    destruct (IH b1 (res + Zlen d) Hw1) as (b2 & k & -> & Hw2 & Hf2 & Hby2 & Hk); [lia|lia|lia|destruct Hf1 as (_ & ? & _); congruence|].
    exists b2, (S k). cbn [take concat length]. rewrite length_app.
    split; [do 2 f_equal; lia|]. split; [done|]. split; [by apply (same_frame_trans _ b1)|].
    split; [by rewrite Hby2, Hby, (assoc_L (++))|]. destruct Hk; [left; lia|right].
    apply (alloc_failed_le mm _ _ (Zlen (concat vec))); [lens|by eapply alloc_failed_wide].
  - change (-1 <? 0) with true. cbv iota. exists b1, 0%nat. cbn [take concat length].
    rewrite Z.add_0_r, app_nil_r. split_and!; try done. right.
    destruct (Hfail eq_refl) as [?|[?|?]]; [congruence|lia|].
    apply (alloc_failed_le mm _ _ (Zlen d)); [lens|done].
Qed.

(** evbuffer_add_iovec appends whole vectors, in order, and returns the number of bytes
    appended; it stops early for want of memory only. *)
Theorem evbuffer_add_iovec_spec b vec :
  wf b → freeze_end b = false → Zlen (concat vec) <= EVBUFFER_CHAIN_MAX →
  total_len b + Zlen (concat vec) <= SIZE_MAX →
  ∃ b' k, evbuffer_add_iovec mm b vec = Some (Zlen (concat (take k vec)), b') ∧
    wf b' ∧ same_frame b b' ∧ bytes b' = bytes b ++ concat (take k vec) ∧
    ((length vec <= k)%nat ∨ alloc_failed mm b b' (Zlen (concat vec))).
Proof.
  intros Hb Hfe Hmax Htot. unfold evbuffer_add_iovec. unfold EVBUFFER_CHAIN_MAX in Hmax.
  rewrite uint64_id by lia.
  destruct (expand_fast_ok b (Zlen (concat vec)) 2 Hb) as (r & b1 & -> & (Hw1 & Hf1 & Hby1) & Hr);
    [unfold EVBUFFER_CHAIN_MAX; lia|lia|]. cbn [mbind option_bind].
  destruct Hr as [[-> _]|[-> Hfail]].
  - change (0 <? 0) with false. cbv iota. destruct Hb as (_ & Hlen & _). pose proof Hw1 as (_ & Hlen1 & _).
    destruct (add_iovec_loop_ok b1 vec 0 Hw1) as (b2 & k & -> & Hw2 & Hf2 & Hby2 & Hk);
      [done|congruence|unfold SIZE_MAX; lia|destruct Hf1 as (_ & ? & _); congruence|].
    exists b2, k. rewrite Hby1 in Hby2. split_and!; try done; [by apply (same_frame_trans _ b1)|].
    destruct Hk; [by left|right; by eapply alloc_failed_wide].
  - change (-1 <? 0) with true. cbv iota. exists b1, 0%nat. cbn. rewrite app_nil_r. split_and!; try done. by right.
Qed.

(** ** evbuffer_commit_space *)

Lemma grow_ok c n d :
  chain_wf c → 0 <= n <= CHAIN_SPACE_LEN c → slice (buffer c) (misalign c + off c) n = Some d →
  chain_wf (grow c n) ∧ data (grow c n) = data c ++ d.
Proof.
  intros (H1&H2&H3&H4&H5&H6&H7) Hn (Hs1 & Hs2 & Hs3 & ->)%slice_inv. split.
  - unfold chain_wf, grow, buffer_len, CHAIN_PINNED in *. cbn. repeat split; try done; try lia.
    intros Him. change (CHAIN_IMMUTABLE c = true) in Him. specialize (H6 Him).
    unfold CHAIN_SPACE_LEN in Hn. rewrite Him in Hn. lia.
  - unfold data, grow. cbn [buffer misalign off].
    rewrite (Z2Nat.inj_add (off c)), (Z2Nat.inj_add (misalign c)) by lia.
    rewrite <- (drop_drop (buffer c)). by rewrite take_take_drop.
Qed.

(** advance_last_with_data reaches the last chain from the one before it. *)
Lemma advance_to_last l x k :
  off x ≠ 0 → length l = k ∨ length l = S k → (k + advance_count (drop k (l ++ [x])))%nat = length l.
Proof.
  intros Hx [<-|Hk]; [rewrite drop_app_length; cbn; lia|].
  destruct (exists_last (l := l)) as (l' & y & ->); [by intros ->|].
  rewrite length_app in Hk |- *. cbn in Hk |- *. replace k with (length l') by lia.
  rewrite <- (assoc_L (++)), drop_app_length. cbn. rewrite (proj2 (Z.eqb_neq _ _)) by done. lia.
Qed.

(** Committing bytes written to the space of the last chain, when that is the first chain with
    space or the one after it, appends them. *)
Theorem evbuffer_commit_last_spec b l c n d :
  wf b → freeze_end b = false → chains b = l ++ [c] →
  (length l = lwd b ∨ length l = S (lwd b)) → 0 <= n <= CHAIN_SPACE_LEN c →
  slice (buffer c) (misalign c + off c) n = Some d → total_len b + n <= SIZE_MAX →
  ∃ b', evbuffer_commit_space b [space_vec (length l) c n] = (0, b') ∧ wf b' ∧ same_frame b b' ∧
    bytes b' = bytes b ++ d.
Proof.
  intros Hb Hfe Hc Hpos Hn Hd Hmax. unfold evbuffer_commit_space. rewrite Hfe.
  rewrite Hc, last_snoc, length_app, Nat.add_comm. cbn [length Nat.add pred].
  assert (vec_at_space (space_vec (length l) c n) (length l) c = true) as ->.
  { unfold vec_at_space. cbn. by rewrite Nat.eqb_refl, Z.eqb_refl. }
  cbn [space_vec iov_len]. rewrite (proj2 (Z.ltb_ge _ _)) by lia.
  pose proof (wf_total b Hb) as Ht. pose proof Hb as (Hwf & Hlen & _ & Hl).
  assert (chains b !! length l = Some c) as Hlc by by rewrite Hc, list_lookup_middle.
  pose proof (wf_lookup b _ _ Hb Hlc) as Hwc. pose proof Hwc as (_&H2&_).
  rewrite insert_app_r_alt, Nat.sub_diag by lia. cbn [insert list_insert].
  assert (n = Zlen d) as Hnd by (apply slice_length in Hd; lia).
  assert (chain_wf (grow c n) ∧ data (grow c n) = data c ++ d) as [Hg1 Hg2].
  { by apply grow_ok. }
  assert (cbytes (l ++ [grow c n]) = bytes b ++ d) as Hby.
  { unfold bytes. by rewrite Hc, !cbytes_app, !cbytes_cons, Hg2, !app_nil_r, (assoc_L (++)). }
  unfold committed. set (b1 := if n =? 0 then _ else _).
  assert (chains b1 = l ++ [grow c n] ∧ lwd_ok (l ++ [grow c n]) (lwd b1) ∧ same_frame b b1) as (Hc1 & Hl1 & Hf1).
  { subst b1. destruct (Z.eqb_spec n 0) as [Hn0|Hn0]; cbn [chains with_chains lwd advance_last_with_data];
      (split; [done|]; split; [|done]).
    - replace (grow c n) with c by (rewrite Hn0; destruct c; unfold grow; cbn; f_equal; lia).
      by rewrite <- Hc.
    - rewrite advance_to_last by (done || cbn; lia). right. exists l, (grow c n), []. cbn. auto with lia. }
  assert (total_len b1 = total_len b) as Ht1 by (subst b1; by case_match).
  rewrite Ht1, uint64_id by (unfold SIZE_MAX in *; lia).
  set (b2 := with_chains _ _ _ b1). assert (wf b2) as Hw2.
  { apply wf_with_chains; rewrite ?Hc1; [|done|rewrite Hby, length_app; lia|lia].
    rewrite Hc in Hwf. apply Forall_app in Hwf as [? _]. apply Forall_app. split; [done|by apply Forall_singleton]. }
  destruct (finish_ok (count_add n b2) Hw2) as (Hw & Hb2 & Hf2). eexists. split; [done|]. split; [done|].
  split; [by apply (same_frame_trans _ b1)|]. rewrite Hb2. unfold bytes at 1. cbn. by rewrite Hc1.
Qed.

End SpaceProofs.

(** ** Where the code departs from its contracts *)

Definition buffer_of (s : list byte) : option evbuffer := snd <$> evbuffer_add mm_zero evbuffer_new s.

(** Three buffers "AA", "BB" and "CC", the first with space reserved in a second chain, joined to
    one buffer "AABBCC", from which five bytes are moved to an empty buffer. *)
Definition remove_after_reserve : option (list byte * list byte * list byte) :=
  a ← buffer_of (bs "AA"); b ← buffer_of (bs "BB"); c ← buffer_of (bs "CC");
  '(_, _, a) ← evbuffer_reserve_space mm_zero a 2000 2;
  '(_, b, _) ← evbuffer_prepend_buffer mm_zero b a;
  '(_, b, _) ← evbuffer_add_buffer mm_zero b c;
  '(_, b', d) ← evbuffer_remove_buffer mm_zero b evbuffer_new 5;
  Some (bytes b, bytes b', bytes d).

(** evbuffer_remove_buffer reorders bytes when an empty chain lies between chains with data:
    advance_last_with_data stops at the empty chain, so that the bytes copied after the moved
    chains are put before some of them: "AABBC" arrives as "AACBB". *)
Theorem remove_buffer_reorders :
  remove_after_reserve = Some (bs "AABBCC", bs "C", bs "AACBB").
Proof. vm_compute. reflexivity. Qed.

(** Space reserved in three chains, then a reservation in one chain, and the commit of ten bytes
    of it. *)
Definition reserve_then_commit : option (list evbuffer_iovec * Z) :=
  b ← buffer_of (repeat x41 900);
  '(_, _, b) ← evbuffer_reserve_space mm_zero b 1000 3;
  '(_, _, b) ← evbuffer_reserve_space mm_zero b 3000 3;
  '(_, vs, b) ← evbuffer_reserve_space mm_zero b 500 1;
  v ← head vs;
  Some (vs, fst (evbuffer_commit_space b [Iovec (iov_chain v) (iov_off v) 10])).

(** evbuffer_commit_space refuses the vector that evbuffer_reserve_space has just handed out
    when that is the space of a chain that is neither the first one with space nor the last. *)
Theorem commit_refuses_reserved :
  reserve_then_commit = Some ([Iovec 1 0 976], -1).
Proof. vm_compute. reflexivity. Qed.

(** An empty reference, a byte before it, and three reservations in two chains. *)
Definition empty_reference_then_reserve : option (option (Z * list evbuffer_iovec * evbuffer)) :=
  '(_, b) ← evbuffer_add_reference mm_zero evbuffer_new [];
  '(_, b) ← evbuffer_prepend mm_zero b (bs "x");
  '(_, _, b) ← evbuffer_reserve_space mm_zero b 100 2;
  '(_, _, b) ← evbuffer_reserve_space mm_zero b 2000 2;
  Some (evbuffer_reserve_space mm_zero b 8000 2).

(** After an empty reference evbuffer_prepend leaves [last_with_datap] on an empty chain that
    is not the first one, and evbuffer_expand_fast_ later fails its assertion. *)
Theorem empty_reference_breaks_invariant : empty_reference_then_reserve = Some None.
Proof. vm_compute. reflexivity. Qed.

(** ** Witnesses *)

Lemma evbuffer_expand_spec_witness :
  ∃ r b', evbuffer_expand mm_zero three_chains 100 = Some (r, b') ∧ expanded three_chains b' ∧
    (r = 0 ∧ (∃ i, space_at b' i 100) ∨ r = -1 ∧ alloc_failed mm_zero three_chains b' 100).
Proof. apply (evbuffer_expand_spec mm_zero three_chains 100); [exact three_chains_wf|lia]. Defined.

Lemma evbuffer_expand_fast_spec_witness :
  ∃ r b', evbuffer_expand_fast_ mm_zero three_chains 100 2 = Some (r, b') ∧ expanded three_chains b' ∧
    (r = 0 ∧ roomy b' 100 2 ∨ r = -1 ∧ alloc_failed mm_zero three_chains b' 100).
Proof.
  apply (evbuffer_expand_fast_spec mm_zero three_chains 100 2);
    [exact three_chains_wf|vm_compute; split; congruence|lia].
Defined.

(** A kernel that takes at most three bytes. *)
Definition writev3 (d : list byte) : Z := Z.min 3 (Zlen d).

Lemma evbuffer_write_atmost_spec_witness :
  ∃ n b' k, evbuffer_write_atmost three_chains writev3 4 = Some (n, b') ∧ wf b' ∧
    same_frame three_chains b' ∧ n <= Z.of_nat k ∧ Z.of_nat k <= 5 ∧ (0 <= 4 → Z.of_nat k <= 4) ∧
    bytes b' = drop (Z.to_nat n) (bs "abcde") ∧ (0 < n → n = writev3 (take k (bs "abcde"))).
Proof.
  apply (evbuffer_write_atmost_spec three_chains writev3 4);
    [exact three_chains_wf|reflexivity|vm_compute; congruence|intros d; unfold writev3; lia].
Defined.

Lemma evbuffer_read_spec_witness :
  ∃ r b', evbuffer_read mm_zero three_chains 10 (-1) (Some (bs "0123456789")) = Some (r, b') ∧ wf b' ∧
    same_frame three_chains b' ∧
    (r = 10 ∧ bytes b' = bs "abcde0123456789" ∨
     r = -1 ∧ bytes b' = bs "abcde" ∧ alloc_failed mm_zero three_chains b' 0).
Proof.
  apply (evbuffer_read_spec mm_zero three_chains 10 (-1) (Some (bs "0123456789")));
    [exact three_chains_wf|reflexivity|vm_compute; congruence|intros d [= <-]; vm_compute; congruence].
Defined.

Lemma evbuffer_add_iovec_spec_witness :
  ∃ b' k, evbuffer_add_iovec mm_zero three_chains [bs "fg"; bs "hij"] =
      Some (Zlen (concat (take k [bs "fg"; bs "hij"])), b') ∧
    wf b' ∧ same_frame three_chains b' ∧ bytes b' = bs "abcde" ++ concat (take k [bs "fg"; bs "hij"]) ∧
    ((2 <= k)%nat ∨ alloc_failed mm_zero three_chains b' 5).
Proof.
  apply (evbuffer_add_iovec_spec mm_zero three_chains [bs "fg"; bs "hij"]);
    [exact three_chains_wf|reflexivity|vm_compute; congruence|vm_compute; congruence].
Defined.

Lemma evbuffer_commit_last_spec_witness :
  ∃ b', evbuffer_commit_space three_chains [Iovec 2 0 3] = (0, b') ∧ wf b' ∧ same_frame three_chains b' ∧
    bytes b' = bs "abcde___".
Proof.
  apply (evbuffer_commit_last_spec three_chains
    [Chain (bs "_abc__") 1 3 0; Chain (bs "de____") 0 2 0] (Chain (bs "______") 0 0 0) 3 (bs "___"));
    [exact three_chains_wf|reflexivity|reflexivity|by right|vm_compute; split; congruence
    |reflexivity|vm_compute; congruence].
Defined.
