(* ===== verification/EvBufferPtr.v ===== *)
(** * evbuffer: positions, searching and reading lines

    Models struct evbuffer_ptr and the functions on it in libevent/buffer.c: evbuffer_ptr_set,
    evbuffer_search, evbuffer_search_range, evbuffer_search_eol, evbuffer_readln, evbuffer_find and
    evbuffer_peek.  A pointer to a chain is the chain's number in the list; [None] is NULL. *)

From S2P Require Import Prelude EvBuffer EvBufferMove.

(** ** Byte searches of the C library *)

(** memchr: the offset of the first [c]. *)
Fixpoint memchr (c : byte) (l : list byte) : option nat :=
  match l with
  | [] => None
  | x :: l => if decide (x = c) then Some 0%nat else S <$> memchr c l
  end.

(** memcmp: the sign of the first difference. *)
Fixpoint memcmp (l k : list byte) : Z :=
  match l, k with
  | x :: l, y :: k =>
      if Z_of_byte x <? Z_of_byte y then -1
      else if Z_of_byte y <? Z_of_byte x then 1 else memcmp l k
  | _, _ => 0
  end.

(** ** Positions *)

Inductive evbuffer_ptr_how := EVBUFFER_PTR_SET | EVBUFFER_PTR_ADD.

Definition PTR_NOT_FOUND : evbuffer_ptr := Ptr (-1) None 0.

(** The first chain of a buffer. *)
Definition first_chain (b : evbuffer) : option nat :=
  match chains b with [] => None | _ => Some 0%nat end.

(** The loop of evbuffer_ptr_set from chain [i] on: the chain it stops at, the position and what
    is left. *)
Fixpoint ptr_set_loop (cs : list evbuffer_chain) (i : nat) (position left : Z) : option nat * Z * Z :=
  match cs with
  | [] => (None, position, left)
  | c :: cs =>
      if off c <=? uint64 (position + left)
      then ptr_set_loop cs (S i) 0 (uint64 (left - (off c - position)))
      else (Some i, position, left)
  end.

Definition evbuffer_ptr_set (b : evbuffer) (p : evbuffer_ptr) (position : Z) (how : evbuffer_ptr_how)
    : option (Z * evbuffer_ptr) :=
  let go chain newpos start :=
    if SIZE_MAX - position <? start then None else
    let '(chain, start, rest) := ptr_set_loop (chains_from b chain) (default 0%nat chain) start position in
    match chain with
    | Some i => Some (0, Ptr newpos (Some i) (uint64 (start + rest)))
    | None => Some (if rest =? 0 then (0, Ptr newpos None 0) else (-1, PTR_NOT_FOUND))
    end in
  match how with
  | EVBUFFER_PTR_SET => go (first_chain b) position 0
  | EVBUFFER_PTR_ADD =>
      if (pos p <? 0) || (SIZE_MAX - position <? pos p) then Some (-1, p)
      else go (pchain p) (pos p + position) (pos_in_chain p)
  end.

Definition evbuffer_ptr_subtract (b : evbuffer) (p : evbuffer_ptr) (howfar : Z)
    : option (Z * evbuffer_ptr) :=
  if pos p <? 0 then Some (-1, p) else
  if pos p <? howfar then Some (-1, p) else
  match pchain p with
  | Some i =>
      if howfar <=? pos_in_chain p then Some (0, Ptr (pos p - howfar) (Some i) (pos_in_chain p - howfar))
      else evbuffer_ptr_set b p (pos p - howfar) EVBUFFER_PTR_SET
  | None => evbuffer_ptr_set b p (pos p - howfar) EVBUFFER_PTR_SET
  end.

Fixpoint ptr_memcmp_loop (cs : list evbuffer_chain) (position : Z) (mem : list byte) : option Z :=
  match mem, cs with
  | [], _ | _, [] => Some 0
  | _ :: _, c :: cs =>
      let n := if off c <? Zlen mem + position then off c - position else Zlen mem in
      d ← slice (buffer c) (misalign c + position) n;
      let r := memcmp d mem in
      if r =? 0 then ptr_memcmp_loop cs 0 (drop (Z.to_nat n) mem) else Some r
  end.

Definition evbuffer_ptr_memcmp (b : evbuffer) (p : evbuffer_ptr) (mem : list byte) : option Z :=
  if (pos p <? 0) || (SIZE_MAX - Zlen mem <? pos p) || (total_len b <? pos p + Zlen mem)
  then Some (-1)
  else ptr_memcmp_loop (chains_from b (pchain p)) (pos_in_chain p) mem.

(** ** Searching *)

(** The loop of evbuffer_search_range.  [i] is the number of the first of the chains [cs], [q] the
    position in it, [p] the position in the buffer.  An iteration ends in this chain or goes on in
    the next one; [fuel] bounds their number. *)
Fixpoint search_loop (fuel : nat) (b : evbuffer) (cs : list evbuffer_chain) (i : nat) (q p : Z)
    (first : byte) (what : list byte) (end_ : option evbuffer_ptr) : option evbuffer_ptr :=
  match fuel with
  | O => None
  | S fuel =>
      match cs with
      | [] => Some PTR_NOT_FOUND
      | c :: cs' =>
          d ← slice (buffer c) (misalign c + q) (off c - q);
          match memchr first d with
          | Some j =>
              let p := p + Z.of_nat j in
              let q := q + Z.of_nat j in
              r ← evbuffer_ptr_memcmp b (Ptr p (Some i) q) what;
              if r =? 0 then
                match end_ with
                | Some e => if pos e <? p + Zlen what then Some PTR_NOT_FOUND else Some (Ptr p (Some i) q)
                | None => Some (Ptr p (Some i) q)
                end
              else if q + 1 =? off c then search_loop fuel b cs' (S i) 0 (p + 1) first what end_
              else search_loop fuel b cs i (q + 1) (p + 1) first what end_
          | None =>
              match end_ with
              | Some e =>
                  if decide (pchain e = Some i) then Some PTR_NOT_FOUND
                  else search_loop fuel b cs' (S i) 0 (p + (off c - q)) first what end_
              | None => search_loop fuel b cs' (S i) 0 (p + (off c - q)) first what end_
              end
          end
      end
  end.

Definition search_fuel (b : evbuffer) : nat := (Z.to_nat (total_len b) + length (chains b) + 1)%nat.

Definition evbuffer_search_range (b : evbuffer) (what : list byte)
    (start end_ : option evbuffer_ptr) : option evbuffer_ptr :=
  let p := default (Ptr 0 (first_chain b) 0) start in
  match what with
  | [] => Some p
  | first :: _ =>
      if EV_SSIZE_MAX <? Zlen what then Some p else
      search_loop (search_fuel b) b (chains_from b (pchain p)) (default 0%nat (pchain p))
        (pos_in_chain p) (pos p) first what end_
  end.

Definition evbuffer_search (b : evbuffer) (what : list byte) (start : option evbuffer_ptr)
    : option evbuffer_ptr :=
  evbuffer_search_range b what start None.

(** The offset from the start of the buffer, after which the bytes are contiguous. *)
Definition evbuffer_find (mm : nat → Z → option (nat → byte)) (b : evbuffer) (what : list byte)
    : option (option Z * evbuffer) :=
  p ← evbuffer_search b what None;
  if pos p <? 0 then Some (None, b) else
  '(r, b) ← evbuffer_pullup mm b (pos p + Zlen what);
  Some (if (r : bool) then Some (pos p) else None, b).

(** ** Ends of lines *)

Inductive evbuffer_eol_style :=
  EVBUFFER_EOL_ANY | EVBUFFER_EOL_CRLF | EVBUFFER_EOL_CRLF_STRICT | EVBUFFER_EOL_LF | EVBUFFER_EOL_NUL.

Definition CHUNK_SZ : nat := 128.

(** find_eol_char: two memchrs per chunk. *)
Fixpoint find_eol_loop (fuel : nat) (s : list byte) (base : nat) : option nat :=
  match fuel with
  | O => None
  | S fuel =>
      if decide (s = []) then None else
      let chunk := take CHUNK_SZ s in
      match memchr x0d chunk, memchr x0a chunk with
      | Some cr, Some lf => Some (base + if (lf <? cr)%nat then lf else cr)%nat
      | Some cr, None => Some (base + cr)%nat
      | None, Some lf => Some (base + lf)%nat
      | None, None => find_eol_loop fuel (drop CHUNK_SZ s) (base + CHUNK_SZ)
      end
  end.

Definition find_eol_char (s : list byte) : option nat := find_eol_loop (S (length s)) s 0.

(** The common loop of evbuffer_strchr and evbuffer_find_eol_char: [find] searches one chain. *)
Fixpoint chain_search (find : list byte → option nat) (cs : list evbuffer_chain) (i : nat) (q p : Z)
    : option (option evbuffer_ptr) :=
  match cs with
  | [] => Some None
  | c :: cs =>
      d ← slice (buffer c) (misalign c + q) (off c - q);
      match find d with
      | Some j => Some (Some (Ptr (p + Z.of_nat j) (Some i) (q + Z.of_nat j)))
      | None => chain_search find cs (S i) 0 (p + (off c - q))
      end
  end.

(** The new position, [None] for -1. *)
Definition evbuffer_strchr (b : evbuffer) (it : evbuffer_ptr) (chr : byte) : option (option evbuffer_ptr) :=
  chain_search (memchr chr) (chains_from b (pchain it)) (default 0%nat (pchain it))
    (pos_in_chain it) (pos it).

Definition evbuffer_find_eol_char (b : evbuffer) (it : evbuffer_ptr) : option (option evbuffer_ptr) :=
  chain_search find_eol_char (chains_from b (pchain it)) (default 0%nat (pchain it))
    (pos_in_chain it) (pos it).

(** How many bytes of [d] are in [chrset] before the first that is not, and whether there is one. *)
Fixpoint span_in (chrset d : list byte) : nat * bool :=
  match d with
  | [] => (0%nat, false)
  | x :: d => if decide (x ∈ chrset) then let '(n, s) := span_in chrset d in (S n, s) else (0%nat, true)
  end.

(** [count] is an int: [None] also when it overflows. *)
Fixpoint strspn_loop (cs : list evbuffer_chain) (q : Z) (chrset : list byte) (count : Z) : option Z :=
  match cs with
  | [] => Some count
  | c :: cs =>
      d ← slice (buffer c) (misalign c + q) (off c - q);
      let '(n, stopped) := span_in chrset d in
      count ← int_chk (count + Z.of_nat n);
      if (stopped : bool) then Some count else strspn_loop cs 0 chrset count
  end.

(** evbuffer_strspn; its caller uses the count only. *)
Definition evbuffer_strspn (b : evbuffer) (p : evbuffer_ptr) (chrset : list byte) : option Z :=
  strspn_loop (chains_from b (pchain p)) (pos_in_chain p) chrset 0.

(** The byte at a position, -1 at the end. *)
Definition evbuffer_getchr (b : evbuffer) (p : evbuffer_ptr) : option Z :=
  match chains_from b (pchain p) with
  | [] => Some (-1)
  | c :: _ => x ← buffer c !! Z.to_nat (misalign c + pos_in_chain p); Some (Z_of_byte x)
  end.

(** The CRLF case: back up over a CR before the LF at [it], unless that is the start. *)
Definition crlf_back_up (b : evbuffer) (it : evbuffer_ptr) (start_pos : Z) : option (evbuffer_ptr * Z) :=
  if pos it =? start_pos then Some (it, 1) else
  '(r, it2) ← evbuffer_ptr_subtract b it 1;
  if r <? 0 then Some (it, 1) else
  ch ← evbuffer_getchr b it2;
  Some (if ch =? 13 then (it2, 2) else (it, 1)).

(** The position of the end of line and its length. *)
Definition evbuffer_search_eol (b : evbuffer) (start : option evbuffer_ptr) (style : evbuffer_eol_style)
    : option (evbuffer_ptr * Z) :=
  let it := default (Ptr 0 (first_chain b) 0) start in
  let found (r : option (option evbuffer_ptr)) (f : evbuffer_ptr → option (evbuffer_ptr * Z)) :=
    r ← r; match r with None => Some (PTR_NOT_FOUND, 0) | Some it => f it end in
  match start with
  | Some (Ptr _ None _) => Some (PTR_NOT_FOUND, 0)
  | _ =>
      match style with
      | EVBUFFER_EOL_ANY =>
          found (evbuffer_find_eol_char b it)
            (λ it, n ← evbuffer_strspn b it [x0d; x0a]; Some (it, n))
      | EVBUFFER_EOL_CRLF_STRICT =>
          it ← evbuffer_search b [x0d; x0a] (Some it);
          Some (if pos it <? 0 then (PTR_NOT_FOUND, 0) else (it, 2))
      | EVBUFFER_EOL_CRLF => found (evbuffer_strchr b it x0a) (λ it', crlf_back_up b it' (pos it))
      | EVBUFFER_EOL_LF => found (evbuffer_strchr b it x0a) (λ it, Some (it, 1))
      | EVBUFFER_EOL_NUL => found (evbuffer_strchr b it x00) (λ it, Some (it, 1))
      end
  end.

(** The line, [None] for NULL; [mem] answers whether its allocation succeeds. *)
Definition evbuffer_readln (b : evbuffer) (mem : Z → bool) (style : evbuffer_eol_style)
    : option (option (list byte) * evbuffer) :=
  if freeze_start b then Some (None, b) else
  '(it, extra_drain) ← evbuffer_search_eol b None style;
  if pos it <? 0 then Some (None, b) else
  if negb (mem (pos it + 1)) then Some (None, b) else
  '(_, line, b) ← evbuffer_remove b (pos it);
  '(_, b) ← evbuffer_drain b extra_drain;
  Some (Some line, b).

Definition evbuffer_readline (b : evbuffer) (mem : Z → bool) : option (option (list byte) * evbuffer) :=
  evbuffer_readln b mem EVBUFFER_EOL_ANY.

(** ** Peeking *)

(** The loop of evbuffer_peek: the vectors (as the bytes they cover) and their number. *)
Fixpoint peek_loop (cs : list evbuffer_chain) (idx n_vec : nat) (len len_so_far : Z)
    : option (nat * list (list byte)) :=
  match cs with
  | [] => Some (idx, [])
  | c :: cs =>
      if (0 <=? len) && (len <=? len_so_far) then Some (idx, [])
      else if (idx <? n_vec)%nat then
        d ← chain_data c;
        '(idx, vs) ← peek_loop cs (S idx) n_vec len (len_so_far + off c);
        Some (idx, d :: vs)
      else if len <? 0 then Some (idx, [])
      else peek_loop cs (S idx) n_vec len (len_so_far + off c)
  end.

Definition evbuffer_peek (b : evbuffer) (len : Z) (start_at : option evbuffer_ptr) (n_vec : nat)
    : option (nat * list (list byte)) :=
  match start_at with
  | Some (Ptr _ None _) => Some (0%nat, [])
  | Some (Ptr p (Some i) q) =>
      match drop i (chains b) with
      | [] => None
      | c :: cs =>
          d ← slice (buffer c) (misalign c + q) (off c - q);
          let len := if (n_vec =? 0)%nat && (len <? 0) then total_len b - p else len in
          '(n, vs) ← peek_loop cs 1 n_vec len (off c - q);
          Some (n, if (0 <? n_vec)%nat then d :: vs else vs)
      end
  | None =>
      let len := if (n_vec =? 0)%nat && (len <? 0) then total_len b else len in
      peek_loop (chains b) 0 n_vec len 0
  end.

(** ** Reference definitions on the bytes of a buffer *)

(** The first byte that satisfies [P]. *)
Fixpoint index_of (P : byte → bool) (l : list byte) : option nat :=
  match l with [] => None | x :: l => if P x then Some 0%nat else S <$> index_of P l end.

(** The first occurrence of [what]. *)
Fixpoint find_sub (what l : list byte) : option nat :=
  match l with
  | [] => None
  | _ :: l' => if decide (take (length what) l = what) then Some 0%nat else S <$> find_sub what l'
  end.

Definition is_byte (c x : byte) : bool := bool_decide (x = c).
Definition is_eol (x : byte) : bool := is_byte x0d x || is_byte x0a x.

(** The position and length of the first end of line in [l]. *)
Definition eol_find (style : evbuffer_eol_style) (l : list byte) : option (nat * nat) :=
  match style with
  | EVBUFFER_EOL_ANY => p ← index_of is_eol l; Some (p, fst (span_in [x0d; x0a] (drop p l)))
  | EVBUFFER_EOL_CRLF_STRICT => p ← find_sub [x0d; x0a] l; Some (p, 2%nat)
  | EVBUFFER_EOL_CRLF =>
      p ← index_of (is_byte x0a) l;
      Some (match p with
        | O => (p, 1%nat)
        | S k => if decide (l !! k = Some x0d) then (k, 2%nat) else (p, 1%nat)
        end)
  | EVBUFFER_EOL_LF => p ← index_of (is_byte x0a) l; Some (p, 1%nat)
  | EVBUFFER_EOL_NUL => p ← index_of (is_byte x00) l; Some (p, 1%nat)
  end.

Lemma memchr_index c l : memchr c l = index_of (is_byte c) l.
Proof.
  induction l as [|x l IH]; [done|]. cbn [memchr index_of]. unfold is_byte at 1. rewrite IH.
  by destruct (decide (x = c)); [rewrite bool_decide_true|rewrite bool_decide_false].
Qed.

Lemma index_of_app P l k :
  index_of P (l ++ k) = match index_of P l with Some j => Some j | None => Nat.add (length l) <$> index_of P k end.
Proof.
  induction l as [|x l IH]; cbn [app index_of length]; [by destruct (index_of P k)|].
  destruct (P x); [done|]. rewrite IH. by destruct (index_of P l), (index_of P k).
Qed.

Lemma index_of_lt P l j : index_of P l = Some j → (j < length l)%nat.
Proof.
  revert j. induction l as [|x l IH]; intros j; cbn [index_of length]; [done|].
  destruct (P x); [intros [= <-]; lia|]. destruct (index_of P l) as [k|]; [|done].
  intros [= <-]. specialize (IH k eq_refl). lia.
Qed.

Lemma index_of_or P Q l :
  index_of (λ x, P x || Q x) l =
  match index_of P l, index_of Q l with
  | Some a, Some b => Some (if (b <? a)%nat then b else a)
  | Some a, None => Some a
  | None, r => r
  end.
Proof.
  induction l as [|x l IH]; cbn [index_of]; [done|]. rewrite IH. destruct (P x), (Q x); cbn [orb].
  - done.
  - by destruct (index_of Q l).
  - by destruct (index_of P l).
  - destruct (index_of P l) as [a|], (index_of Q l) as [b|]; try done.
    cbn [fmap option_fmap option_map]. f_equal.
    destruct (Nat.ltb_spec b a), (Nat.ltb_spec (S b) (S a)); (done || lia).
Qed.

Lemma find_eol_loop_ok fuel s base :
  (length s < fuel)%nat → find_eol_loop fuel s base = Nat.add base <$> index_of is_eol s.
Proof.
  revert s base. induction fuel as [|fuel IH]; intros s base Hf; [lia|]. cbn [find_eol_loop].
  case_decide as Hs; [by rewrite Hs|].
  assert (index_of is_eol s = match index_of is_eol (take CHUNK_SZ s) with
    | Some j => Some j | None => Nat.add CHUNK_SZ <$> index_of is_eol (drop CHUNK_SZ s) end) as ->.
  { rewrite <- (take_drop CHUNK_SZ s) at 1. rewrite index_of_app, length_take.
    destruct (decide (length s <= CHUNK_SZ)%nat) as [Hle|Hgt]; [by rewrite drop_ge|].
    by rewrite Nat.min_l by lia. }
  rewrite !memchr_index. unfold is_eol at 1. rewrite index_of_or.
  destruct (index_of (is_byte x0d) (take CHUNK_SZ s)) as [cr|],
    (index_of (is_byte x0a) (take CHUNK_SZ s)) as [lf|]; try done.
  assert (0 < length s)%nat by (destruct s; [done|cbn; lia]).
  rewrite IH by (rewrite length_drop; unfold CHUNK_SZ; lia).
  destruct (index_of is_eol (drop CHUNK_SZ s)); [|done]. cbn [fmap option_fmap option_map]. f_equal. lia.
Qed.

Lemma find_eol_char_ok s : find_eol_char s = index_of is_eol s.
Proof.
  unfold find_eol_char. rewrite find_eol_loop_ok by lia. by destruct (index_of is_eol s).
Qed.

(** find_eol_char, which searches for CR and for LF in chunks of 128 bytes, finds the first
    byte that is either. *)
Theorem find_eol_char_spec s : find_eol_char s = index_of is_eol s.
Proof. apply find_eol_char_ok. Qed.

(** ** Valid positions *)

(** [p] designates position [pos p] of the buffer, in the chain it names. *)
Definition ptr_ok (b : evbuffer) (p : evbuffer_ptr) : Prop :=
  match pchain p with
  | Some i => ∃ l1 c l2, chains b = l1 ++ c :: l2 ∧ i = length l1 ∧ 0 <= pos_in_chain p <= off c ∧
      pos p = Zlen (cbytes l1) + pos_in_chain p
  | None => pos p = Zlen (bytes b) ∧ pos_in_chain p = 0
  end.

(** The bytes from a position on, by the chains. *)
Lemma ptr_rest b p :
  wf b → ptr_ok b p →
  0 <= pos p <= Zlen (bytes b) ∧ 0 <= pos_in_chain p ∧
  match chains_from b (pchain p) with [] => True | c :: _ => pos_in_chain p <= off c end ∧
  drop (Z.to_nat (pos_in_chain p)) (cbytes (chains_from b (pchain p))) = drop (Z.to_nat (pos p)) (bytes b).
Proof.
  intros Hb Hp. unfold ptr_ok in Hp. destruct (pchain p) as [i|]; cbn [chains_from].
  - destruct Hp as (l1 & c & l2 & Hc & -> & Hq & Hpos). rewrite Hc, drop_app_length.
    unfold bytes. rewrite Hc, cbytes_app, cbytes_cons, !length_app.
    assert (chain_wf c) as Hwc.
    { destruct Hb as (Hwf & _). rewrite Hc in Hwf. by apply Forall_app in Hwf as [_ [? _]%Forall_cons]. }
    pose proof (data_length c Hwc). split; [lia|]. split; [lia|]. split; [lia|].
    rewrite (drop_app_ge (cbytes l1)) by lia. f_equal. lia.
  - destruct Hp as [-> ->]. split; [lia|]. split; [done|]. split; [done|]. rewrite !drop_ge by (cbn; lia). done.
Qed.

Lemma first_ptr_ok b : wf b → ptr_ok b (Ptr 0 (first_chain b) 0).
Proof.
  intros Hb. unfold ptr_ok, first_chain. cbn. destruct (chains b) as [|c l] eqn:Hc; cbn.
  - split; [|done]. unfold bytes. by rewrite Hc.
  - exists [], c, l. split; [done|]. split; [done|]. split; [|done].
    destruct Hb as (Hwf & _). rewrite Hc in Hwf. apply Forall_cons in Hwf as [(_&?&_) _]. lia.
Qed.

Lemma wf_from b i : wf b → Forall chain_wf (drop i (chains b)).
Proof. intros (Hwf & _). by apply Forall_drop. Qed.

(** A position further on in the chains from [i] on. *)
Lemma ptr_ok_forward b i q p k1 c k2 q' j :
  ptr_ok b (Ptr p (Some i) q) → drop i (chains b) = k1 ++ c :: k2 → 0 <= q' <= off c →
  Zlen (cbytes k1) + q' = q + j → ptr_ok b (Ptr (p + j) (Some (i + length k1)%nat) q').
Proof.
  intros (l1 & c0 & l2 & Hc & Hi & Hq & Hp) Hd Hq' Heq. cbn in *. subst i.
  rewrite Hc, drop_app_length in Hd. exists (l1 ++ k1), c, k2. cbn.
  rewrite Hc, Hd, length_app, cbytes_app, length_app, <- (assoc_L (++)). repeat split; try done; lia.
Qed.

(** The rest of the first chain and the chains after it. *)
Lemma drop_cbytes_cons c cs q :
  chain_wf c → 0 <= q <= off c →
  drop (Z.to_nat q) (cbytes (c :: cs)) = drop (Z.to_nat q) (data c) ++ cbytes cs ∧
  slice (buffer c) (misalign c + q) (off c - q) = Some (drop (Z.to_nat q) (data c)) ∧
  Zlen (drop (Z.to_nat q) (data c)) = off c - q.
Proof.
  intros Hc Hq. pose proof (data_length c Hc) as Hd. rewrite cbytes_cons, drop_app_le by lia.
  split; [done|]. split; [|lens].
  rewrite chain_slice by (done || lia). by rewrite take_ge by (lens).
Qed.

Lemma chain_search_ok find P cs i q p :
  (∀ d, find d = index_of P d) → Forall chain_wf cs → 0 <= q →
  match cs with [] => True | c :: _ => q <= off c end →
  match index_of P (drop (Z.to_nat q) (cbytes cs)) with
  | None => chain_search find cs i q p = Some None
  | Some j => ∃ k1 c k2 q', cs = k1 ++ c :: k2 ∧
      chain_search find cs i q p = Some (Some (Ptr (p + Z.of_nat j) (Some (i + length k1)%nat) q')) ∧
      0 <= q' < off c ∧ Zlen (cbytes k1) + q' = q + Z.of_nat j
  end.
Proof.
  intros Hfind. revert i q p. induction cs as [|c cs IH]; intros i q p Hw Hq Hqc.
  { change (cbytes []) with (@nil byte). by rewrite drop_nil. }
  apply Forall_cons in Hw as [Hc Hw]. destruct (drop_cbytes_cons c cs q Hc) as (-> & Hsl & Hlen); [done|].
  cbn [chain_search]. rewrite Hsl, index_of_app. cbn [mbind option_bind]. rewrite Hfind.
  destruct (index_of P (drop (Z.to_nat q) (data c))) as [j|] eqn:Ej.
  { apply index_of_lt in Ej. exists [], c, cs, (q + Z.of_nat j). rewrite Nat.add_0_r. cbn.
    repeat split; try done; lia. }
  assert (match cs with [] => True | c :: _ => 0 <= off c end) as H0.
  { destruct cs; [done|]. by apply Forall_cons in Hw as [(_&?&_) _]. }
  specialize (IH (S i) 0 (p + (off c - q)) Hw ltac:(lia) H0). change (drop (Z.to_nat 0) (cbytes cs)) with (cbytes cs) in IH.
  destruct (index_of P (cbytes cs)) as [j|]; cbn [fmap option_fmap option_map]; [|done].
  destruct IH as (k1 & x & k2 & q' & -> & -> & Hq' & Heq). exists (c :: k1), x, k2, q'. split; [done|].
  pose proof (data_length c Hc). rewrite cbytes_cons, length_app. cbn [length].
  split; [|split; [done|lia]]. rewrite Nat.add_succ_r. do 3 f_equal. lia.
Qed.

(** evbuffer_strchr and evbuffer_find_eol_char on a buffer. *)
Lemma ptr_search_ok find P b it :
  (∀ d, find d = index_of P d) → wf b → ptr_ok b it →
  match index_of P (drop (Z.to_nat (pos it)) (bytes b)) with
  | None => chain_search find (chains_from b (pchain it)) (default 0%nat (pchain it)) (pos_in_chain it) (pos it) = Some None
  | Some j => ∃ i q,
      chain_search find (chains_from b (pchain it)) (default 0%nat (pchain it)) (pos_in_chain it) (pos it) =
        Some (Some (Ptr (pos it + Z.of_nat j) (Some i) q)) ∧
      ptr_ok b (Ptr (pos it + Z.of_nat j) (Some i) q)
  end.
Proof.
  intros Hfind Hb Hit. destruct (ptr_rest b it Hb Hit) as (_ & Hq & Hqc & <-).
  pose proof (chain_search_ok find P (chains_from b (pchain it)) (default 0%nat (pchain it)) (pos_in_chain it)
    (pos it) Hfind) as H. destruct it as [p [i|] q]; cbn [pos pchain pos_in_chain chains_from default from_option] in *.
  - specialize (H (wf_from b i Hb) Hq Hqc). destruct (index_of P _) as [j|]; [|done].
    destruct H as (k1 & c & k2 & q' & Hd & -> & Hq' & Heq). eexists _, _. split; [done|].
    eapply ptr_ok_forward; [done|done|lia|done].
  - specialize (H (Forall_nil_2 _) Hq Hqc). change (cbytes []) with (@nil byte) in *.
    rewrite drop_nil in *. done.
Qed.

(** ** Comparing *)

Lemma memcmp_zero l k : (length l <= length k)%nat → memcmp l k = 0 ↔ take (length l) k = l.
Proof.
  revert k. induction l as [|x l IH]; intros [|y k]; cbn [length memcmp take]; intros Hl; try done; try lia.
  destruct (Z.ltb_spec (Z_of_byte x) (Z_of_byte y)); [split; [done|intros [= -> _]; lia]|].
  destruct (Z.ltb_spec (Z_of_byte y) (Z_of_byte x)); [split; [done|intros [= -> _]; lia]|].
  assert (x = y) as -> by (apply Z_of_byte_inj; lia). rewrite IH by lia. split; [by intros ->|by intros [= ->]].
Qed.

Lemma ptr_memcmp_loop_ok cs q mem :
  Forall chain_wf cs → 0 <= q → match cs with [] => True | c :: _ => q <= off c end →
  Zlen mem <= Zlen (drop (Z.to_nat q) (cbytes cs)) →
  ∃ r, ptr_memcmp_loop cs q mem = Some r ∧
    (r = 0 ↔ take (length mem) (drop (Z.to_nat q) (cbytes cs)) = mem).
Proof.
  revert q mem. induction cs as [|c cs IH]; intros q mem Hw Hq Hqc Hlen.
  { change (cbytes []) with (@nil byte) in *. rewrite drop_nil in *. destruct mem; [by exists 0|cbn in Hlen; lia]. }
  destruct mem as [|y mem0]; [by exists 0|]. set (mem := y :: mem0) in *.
  apply Forall_cons in Hw as [Hc Hw]. destruct (drop_cbytes_cons c cs q Hc) as (Hdr & _ & Hdl); [done|].
  rewrite Hdr in *. rewrite length_app in Hlen. cbn [ptr_memcmp_loop]. fold mem.
  change (ptr_memcmp_loop (c :: cs) q mem) with
    (let n := if off c <? Zlen mem + q then off c - q else Zlen mem in
     d ← slice (buffer c) (misalign c + q) n;
     let r := memcmp d mem in
     if r =? 0 then ptr_memcmp_loop cs 0 (drop (Z.to_nat n) mem) else Some r).
  set (n := if _ <? _ then _ else _).
  assert (n = Z.min (off c - q) (Zlen mem)) as Hn by (subst n; destruct (Z.ltb_spec (off c) (Zlen mem + q)); lia).
  clearbody n. cbv zeta. rewrite chain_slice by (done || lia). cbn [mbind option_bind].
  set (x := drop (Z.to_nat q) (data c)) in *. set (d := take (Z.to_nat n) x).
  assert (Zlen d = n) as Hd by (unfold d; lens).
  assert (memcmp d mem = 0 ↔ take (length d) mem = d) as Hcmp by (apply memcmp_zero; lia).
  assert (take (length mem) (x ++ cbytes cs) = mem ↔
    take (length d) mem = d ∧ take (length mem - length d) (cbytes cs) = drop (length d) mem) as Hsplit.
  { assert (take (length mem) (x ++ cbytes cs) = d ++ take (length mem - length d) (cbytes cs)) as ->.
    { rewrite take_app. f_equal; unfold d.
      - destruct (decide (length mem <= length x)%nat); [f_equal; lia|rewrite !take_ge by lia; done].
      - rewrite length_take. destruct (decide (length mem <= length x)%nat); [|f_equal; lia].
        by replace (length mem - length x)%nat with 0%nat by lia; replace (length mem - _)%nat with 0%nat by lia. }
    set (X := take (length mem - length d) (cbytes cs)). clearbody X. split.
    - intros Heq. rewrite <- Heq. by rewrite take_app_length, drop_app_length.
    - intros [H1 ->]. rewrite <- H1 at 1. apply take_drop. }
  destruct (Z.eqb_spec (memcmp d mem) 0) as [E|E].
  - assert (Zlen (drop (Z.to_nat n) mem) = Zlen mem - n) as Hdm by (lens).
    destruct (IH 0 (drop (Z.to_nat n) mem)) as (r & -> & Hr); [done|done| |change (drop (Z.to_nat 0) (cbytes cs)) with (cbytes cs); lia|].
    { destruct cs; [done|]. by apply Forall_cons in Hw as [(_&?&_) _]. }
    exists r. split; [done|]. rewrite Hr, Hsplit. change (drop (Z.to_nat 0) (cbytes cs)) with (cbytes cs).
    replace (Z.to_nat n) with (length d) by lia. rewrite length_drop. tauto.
  - exists (memcmp d mem). split; [done|]. rewrite Hsplit. tauto.
Qed.

Lemma ptr_memcmp_ok b p mem :
  wf b → ptr_ok b p →
  ∃ r, evbuffer_ptr_memcmp b p mem = Some r ∧
    (r = 0 ↔ take (length mem) (drop (Z.to_nat (pos p)) (bytes b)) = mem ∧ pos p + Zlen mem <= Zlen (bytes b)).
Proof.
  intros Hb Hp. destruct (ptr_rest b p Hb Hp) as (Hpos & Hq & Hqc & Hrest).
  pose proof Hb as (Hwf & Hlen & Hmax & _). unfold evbuffer_ptr_memcmp.
  destruct (_ || _ || _) eqn:Hor.
  - exists (-1). split; [done|]. split; [done|]. intros [_ Hle]. exfalso.
    rewrite !orb_true_iff, !Z.ltb_lt in Hor. lia.
  - rewrite !orb_false_iff, !Z.ltb_ge in Hor.
    destruct (ptr_memcmp_loop_ok (chains_from b (pchain p)) (pos_in_chain p) mem) as (r & -> & Hr); try done.
    { destruct (pchain p); cbn; [by apply wf_from|done]. }
    { rewrite Hrest, length_drop. lia. }
    exists r. split; [done|]. rewrite Hr, Hrest. split; [intros; split; [done|lia]|tauto].
Qed.

(** ** Searching *)

Lemma find_sub_skip x w d r :
  index_of (is_byte x) d = None → find_sub (x :: w) (d ++ r) = Nat.add (length d) <$> find_sub (x :: w) r.
Proof.
  induction d as [|y d IH]; cbn [app index_of length]; [by destruct (find_sub (x :: w) r)|].
  unfold is_byte at 1. case_bool_decide as Hy; [done|]. intros Hd.
  destruct (index_of (is_byte x) d) eqn:E; [done|]. cbn [find_sub].
  rewrite decide_False by (cbn; congruence). rewrite IH by done. by destruct (find_sub (x :: w) r).
Qed.

Lemma index_of_take P d j : index_of P d = Some j → index_of P (take j d) = None.
Proof.
  revert j. induction d as [|y d IH]; intros j; cbn [index_of]; [done|].
  destruct (P y) eqn:E; [intros [= <-]; done|]. destruct (index_of P d) as [k|]; [|done].
  intros [= <-]. cbn [take index_of]. by rewrite E, IH.
Qed.

Lemma index_of_lookup P d j : index_of P d = Some j → ∃ x, d !! j = Some x ∧ P x = true.
Proof.
  revert j. induction d as [|y d IH]; intros j; cbn [index_of]; [done|].
  destruct (P y) eqn:E; [intros [= <-]; by exists y|]. destruct (index_of P d) as [k|]; [|done].
  intros [= <-]. by apply IH.
Qed.

Lemma find_sub_hit what l : l ≠ [] → take (length what) l = what → find_sub what l = Some 0%nat.
Proof. intros Hl Ht. destruct l; [done|]. cbn [find_sub]. by rewrite decide_True. Qed.

Lemma find_sub_miss what x l :
  take (length what) (x :: l) ≠ what → find_sub what (x :: l) = S <$> find_sub what l.
Proof. intros Ht. cbn [find_sub]. by rewrite decide_False. Qed.

(** The result for a first occurrence at offset [j] of position [p]. *)
Definition search_res (b : evbuffer) (r : option nat) (p len : Z) (end_ : option evbuffer_ptr)
    (res : evbuffer_ptr) : Prop :=
  let found j := ptr_ok b res ∧ pos res = p + Z.of_nat j ∧ pchain res ≠ None in
  match r with
  | None => res = PTR_NOT_FOUND
  | Some j =>
      match end_ with
      | Some e => if decide (p + Z.of_nat j + len <= pos e) then found j else res = PTR_NOT_FOUND
      | None => found j
      end
  end.

Lemma search_res_shift b r p k len end_ res :
  search_res b r (p + Z.of_nat k) len end_ res → search_res b (Nat.add k <$> r) p len end_ res.
Proof.
  destruct r as [j|]; [|done]. unfold search_res. cbn [fmap option_fmap option_map].
  by replace (p + Z.of_nat (k + j)) with (p + Z.of_nat k + Z.of_nat j) by lia.
Qed.

(** The state at the head of the loop. *)
Definition search_at (b : evbuffer) (cs : list evbuffer_chain) (i : nat) (q p : Z) : Prop :=
  cs = [] ∨ cs = drop i (chains b) ∧ ptr_ok b (Ptr p (Some i) q).

Lemma search_at_inv b c cs i q p :
  wf b → search_at b (c :: cs) i q p →
  chain_wf c ∧ Forall chain_wf cs ∧ 0 <= q <= off c ∧ ptr_ok b (Ptr p (Some i) q) ∧
  c :: cs = drop i (chains b) ∧
  drop (Z.to_nat q) (cbytes (c :: cs)) = drop (Z.to_nat p) (bytes b) ∧
  search_at b cs (S i) 0 (p + (off c - q)).
Proof.
  intros Hb [?|[Hd Hp]]; [done|]. pose proof (wf_from b i Hb) as Hw. rewrite <- Hd in Hw.
  apply Forall_cons in Hw as [Hc Hw]. destruct (ptr_rest b _ Hb Hp) as (_ & Hq & Hqc & Hr).
  cbn [pchain pos pos_in_chain chains_from] in *. rewrite <- Hd in Hqc, Hr. split_and!; try done.
  destruct cs as [|c' cs]; [by left|right]. split.
  - replace (S i) with (i + 1)%nat by lia. by rewrite <- drop_drop, <- Hd.
  - replace (S i) with (i + length [c])%nat by (cbn; lia).
    apply Forall_cons in Hw as [(_ & ? & _) _].
    apply (ptr_ok_forward b i q p [c] c' cs); [done|done|lia|].
    rewrite cbytes_cons, app_nil_r, (data_length c Hc). lia.
Qed.

(** The first byte of [what] at [j], and [what] there or not. *)
Lemma find_sub_at x w d r j :
  index_of (is_byte x) d = Some j →
  find_sub (x :: w) (d ++ r) =
    if decide (take (length (x :: w)) (drop j (d ++ r)) = x :: w) then Some j
    else Nat.add (S j) <$> find_sub (x :: w) (drop (S j) (d ++ r)).
Proof.
  intros Ej. pose proof (index_of_lt _ _ _ Ej) as Hj.
  assert (find_sub (x :: w) (d ++ r) = Nat.add j <$> find_sub (x :: w) (drop j (d ++ r))) as ->.
  { rewrite <- (take_drop j d) at 1. rewrite <- (assoc_L (++)), find_sub_skip by by apply index_of_take.
    by rewrite length_take, Nat.min_l, drop_app_le by lia. }
  replace (S j) with (j + 1)%nat by lia. rewrite <- (drop_drop (d ++ r)).
  destruct (drop j (d ++ r)) as [|y l] eqn:El.
  { apply (f_equal length) in El. rewrite length_drop, length_app in El. cbn in El. lia. }
  case_decide as Ht.
  - rewrite find_sub_hit by done. cbn [fmap option_fmap option_map]. f_equal. lia.
  - rewrite find_sub_miss by done. change (drop 1 (y :: l)) with l. destruct (find_sub (x :: w) l); [|done].
    cbn [fmap option_fmap option_map]. f_equal. lia.
Qed.

(** A position inside the chain at the head of the loop. *)
Lemma search_at_forward b c cs i q p j :
  wf b → search_at b (c :: cs) i q p → 0 <= j <= off c - q → search_at b (c :: cs) i (q + j) (p + j).
Proof.
  intros Hb Hat Hj. destruct (search_at_inv b c cs i q p Hb Hat) as (_ & _ & Hq & Hp & Hd & _).
  right. split; [done|]. replace i with (i + length (@nil evbuffer_chain))%nat by (cbn; lia).
  apply (ptr_ok_forward b i q p [] c cs); [done|done|lia|cbn; lia].
Qed.

Lemma search_at_ptr b c cs i q p : search_at b (c :: cs) i q p → ptr_ok b (Ptr p (Some i) q).
Proof. by intros [?|[_ ?]]. Qed.

(** The end lies in the chain in hand. *)
Lemma end_in_chain b c cs i q p e :
  search_at b (c :: cs) i q p → ptr_ok b e → pchain e = Some i → pos e <= p + (off c - q).
Proof.
  intros [?|[Hd Hp]] Hend He; [done|]. unfold ptr_ok in Hend, Hp. rewrite He in Hend. cbn in Hp.
  destruct Hend as (l1 & c1 & l2 & Hc1 & -> & Hq1 & Hpe). destruct Hp as (k1 & c2 & k2 & Hc2 & Hlk & Hq2 & Hpp).
  rewrite Hc1 in Hc2. apply app_inj_1 in Hc2 as [<- [= <- _]]; [|done].
  rewrite Hc1, drop_app_length in Hd. injection Hd as -> _. lia.
Qed.

(** What evbuffer_ptr_memcmp answers, in terms of the rest of the chains. *)
Lemma search_memcmp b c cs i q p what :
  wf b → search_at b (c :: cs) i q p →
  ∃ r, evbuffer_ptr_memcmp b (Ptr p (Some i) q) what = Some r ∧
    (r = 0 ↔ take (length what) (drop (Z.to_nat q) (cbytes (c :: cs))) = what).
Proof.
  intros Hb Hat. destruct (search_at_inv b c cs i q p Hb Hat) as (_ & _ & _ & Hp & _ & Hrest & _).
  destruct (ptr_memcmp_ok b _ what Hb Hp) as (r & Hr & Hiff). exists r. split; [done|].
  rewrite Hiff, Hrest. cbn [pos]. split; [tauto|]. intros Ht. split; [done|].
  apply (f_equal length) in Ht. rewrite length_take, length_drop in Ht.
  destruct (ptr_rest b _ Hb Hp) as (? & _). cbn [pos] in *. lia.
Qed.

Lemma search_loop_ok b first w end_ fuel cs i q p :
  wf b → (∀ e, end_ = Some e → ptr_ok b e) → search_at b cs i q p →
  (length (drop (Z.to_nat q) (cbytes cs)) + length cs < fuel)%nat →
  ∃ res, search_loop fuel b cs i q p first (first :: w) end_ = Some res ∧
    search_res b (find_sub (first :: w) (drop (Z.to_nat q) (cbytes cs))) p (Zlen (first :: w)) end_ res.
Proof.
  intros Hb Hend. revert cs i q p. induction fuel as [|fuel IH]; intros cs i q p Hat Hfuel; [lia|].
  cbn [search_loop]. destruct cs as [|c cs].
  { eexists. split; [done|]. change (cbytes []) with (@nil byte). by rewrite drop_nil. }
  destruct (search_at_inv b c cs i q p Hb Hat) as (Hc & Hw & Hq & Hp & Hd & _ & Hnext).
  destruct (drop_cbytes_cons c cs q Hc Hq) as (Hdr & -> & Hlen). cbn [mbind option_bind].
  rewrite Hdr in *. set (d := drop (Z.to_nat q) (data c)) in *. rewrite memchr_index.
  rewrite length_app in Hfuel. cbn [length] in Hfuel.
  destruct (index_of (is_byte first) d) as [j|] eqn:Ej.
  - pose proof (index_of_lt _ _ _ Ej) as Hj. rewrite (find_sub_at first w d (cbytes cs) j Ej).
    pose proof (search_at_forward b c cs i q p (Z.of_nat j) Hb Hat ltac:(lia)) as Hatj.
    destruct (search_memcmp b c cs i _ _ (first :: w) Hb Hatj) as (r & -> & Hr). cbn [mbind option_bind].
    assert (∀ k, drop (Z.to_nat (q + Z.of_nat k)) (cbytes (c :: cs)) = drop k (d ++ cbytes cs)) as Hdk.
    { intros k. rewrite <- Hdr, drop_drop. f_equal. lia. }
    rewrite Hdk in Hr. destruct (Z.eqb_spec r 0) as [Hr0|Hr0].
    + rewrite decide_True by by apply Hr. apply search_at_ptr in Hatj. destruct end_ as [e|]; [|by eexists].
      destruct (Z.ltb_spec (pos e) (p + Z.of_nat j + Zlen (first :: w))) as [Hlt|Hge];
        (eexists; split; [done|]; unfold search_res).
      * by rewrite decide_False by lia.
      * by rewrite decide_True by lia.
    + rewrite decide_False by tauto.
      assert (∀ m l k, search_res b (find_sub (first :: w) l) (p + Z.of_nat j + 1) m end_ k →
        search_res b (Nat.add (S j) <$> find_sub (first :: w) l) p m end_ k) as Hshift.
      { intros m l k Hk. apply search_res_shift. by replace (p + Z.of_nat (S j)) with (p + Z.of_nat j + 1) by lia. }
      destruct (Z.eqb_spec (q + Z.of_nat j + 1) (off c)) as [Hqe|Hqe].
      * destruct (IH cs (S i) 0 (p + Z.of_nat j + 1)) as (res & -> & Hres).
        { by replace (p + Z.of_nat j + 1) with (p + (off c - q)) by lia. }
        { change (drop (Z.to_nat 0) (cbytes cs)) with (cbytes cs). lia. }
        exists res. split; [done|]. apply Hshift. by rewrite drop_app_length' by lia.
      * destruct (IH (c :: cs) i (q + Z.of_nat j + 1) (p + Z.of_nat j + 1)) as (res & -> & Hres).
        { rewrite <- !Z.add_assoc. apply search_at_forward; [done|done|lia]. }
        { replace (q + Z.of_nat j + 1) with (q + Z.of_nat (S j)) by lia.
          rewrite Hdk, length_drop, length_app. cbn [length]. lia. }
        exists res. split; [done|]. apply Hshift. rewrite <- Hdk.
        by replace (q + Z.of_nat (S j)) with (q + Z.of_nat j + 1) by lia.
  - rewrite find_sub_skip by done.
    destruct (IH cs (S i) 0 (p + (off c - q)) Hnext) as (res & Hloop & Hres);
      [change (drop (Z.to_nat 0) (cbytes cs)) with (cbytes cs); lia|].
    rewrite Hloop. change (drop (Z.to_nat 0) (cbytes cs)) with (cbytes cs) in Hres. rewrite <- Hlen in Hres.
    apply search_res_shift in Hres. destruct end_ as [e|]; [|by exists res]. case_decide as He; [|by exists res].
    eexists. split; [done|]. destruct (find_sub (first :: w) (cbytes cs)) as [k|]; [|done].
    cbn [fmap option_fmap option_map search_res]. rewrite decide_False; [done|].
    pose proof (end_in_chain b c cs i q p e Hat (Hend e eq_refl) He). cbn [length]. lia.
Qed.

Lemma search_range_ok b what start end_ :
  wf b → (∀ p, start = Some p → ptr_ok b p) → (∀ e, end_ = Some e → ptr_ok b e) →
  what ≠ [] → Zlen what <= EV_SSIZE_MAX →
  let p := match start with Some p => pos p | None => 0 end in
  ∃ res, evbuffer_search_range b what start end_ = Some res ∧
    search_res b (find_sub what (drop (Z.to_nat p) (bytes b))) p (Zlen what) end_ res.
Proof.
  intros Hb Hstart Hend Hne Hlen p0. unfold evbuffer_search_range.
  set (p := default (Ptr 0 (first_chain b) 0) start).
  assert (ptr_ok b p ∧ pos p = p0) as [Hp Hp0].
  { subst p p0. destruct start as [p|]; [by split; [apply Hstart|]|]. split; [by apply first_ptr_ok|done]. }
  destruct what as [|first w]; [done|]. rewrite (proj2 (Z.ltb_ge _ _)) by done.
  destruct (ptr_rest b p Hb Hp) as (_ & _ & _ & Hrest). rewrite Hp0 in Hrest.
  destruct (search_loop_ok b first w end_ (search_fuel b) (chains_from b (pchain p)) (default 0%nat (pchain p))
    (pos_in_chain p) (pos p)) as (res & -> & Hres); [done|done| | |].
  - destruct p as [x [i|] q]; cbn; [right|by left]. done.
  - rewrite Hrest, length_drop. unfold search_fuel. destruct Hb as (_ & -> & _).
    assert (length (chains_from b (pchain p)) <= length (chains b))%nat; [|lia].
    destruct (pchain p); cbn; [lens|lia].
  - exists res. split; [done|]. by rewrite Hrest, Hp0 in Hres.
Qed.

(** C31. evbuffer_search_range terminates and finds the first occurrence of [what] at or after the
    start, wherever the chains divide the bytes; it reports none exactly if there is none or the
    first one passes the end. *)
Theorem evbuffer_search_range_spec b what start end_ :
  wf b → (∀ p, start = Some p → ptr_ok b p) → (∀ e, end_ = Some e → ptr_ok b e) →
  what ≠ [] → Zlen what <= EV_SSIZE_MAX →
  let p := match start with Some p => pos p | None => 0 end in
  ∃ res, evbuffer_search_range b what start end_ = Some res ∧
    search_res b (find_sub what (drop (Z.to_nat p) (bytes b))) p (Zlen what) end_ res.
Proof. apply search_range_ok. Qed.

(** ** Setting positions *)

Lemma ptr_set_loop_ok cs i position rest :
  Forall chain_wf cs → 0 <= position → 0 <= rest → position + rest <= SIZE_MAX →
  match cs with [] => position = 0 | c :: _ => position <= off c end →
  if decide (position + rest < Zlen (cbytes cs)) then
    ∃ k1 c k2 q r, cs = k1 ++ c :: k2 ∧ ptr_set_loop cs i position rest = (Some (i + length k1)%nat, q, r) ∧
      0 <= q ∧ 0 <= r ∧ q + r < off c ∧ Zlen (cbytes k1) + (q + r) = position + rest
  else ∃ q, ptr_set_loop cs i position rest = (None, q, position + rest - Zlen (cbytes cs)).
Proof.
  revert i position rest. induction cs as [|c cs IH]; intros i position rest Hw Hp Hr Hmax Hc.
  { rewrite decide_False by (cbn; lia). exists position. cbn. rewrite Hc, Z.sub_0_r. done. }
  apply Forall_cons in Hw as [Hwc Hw]. pose proof (data_length c Hwc) as Hd. pose proof Hwc as (_ & Ho & _).
  rewrite cbytes_cons, length_app. cbn [ptr_set_loop]. unfold SIZE_MAX in Hmax. rewrite uint64_id by lia.
  destruct (Z.leb_spec (off c) (position + rest)) as [Hle|Hgt].
  - rewrite uint64_id by lia. specialize (IH (S i) 0 (rest - (off c - position)) Hw ltac:(lia) ltac:(lia)).
    assert (match cs with [] => 0 = 0 | c :: _ => 0 <= off c end) as H0.
    { destruct cs; [done|]. by apply Forall_cons in Hw as [(_&?&_) _]. }
    specialize (IH ltac:(unfold SIZE_MAX; lia) H0). case_decide as Hdec.
    + rewrite decide_True by lia. destruct IH as (k1 & x & k2 & q & r & -> & -> & Hq & Hr' & Hlt & Heq).
      exists (c :: k1), x, k2, q, r. cbn [length app]. rewrite Nat.add_succ_r, cbytes_cons, length_app.
      split_and!; try done; lia.
    + rewrite decide_False by lia. destruct IH as [q ->]. exists q. f_equal. lia.
  - rewrite decide_True by lia. exists [], c, cs, position, rest. rewrite Nat.add_0_r. cbn [cbytes fmap list_fmap concat length].
    split_and!; try done; lia.
Qed.

(** The result of moving to position [n]: its chain, or the end, or failure beyond it. *)
Definition ptr_set_res (b : evbuffer) (n : Z) (r : Z) (p : evbuffer_ptr) : Prop :=
  if decide (n <= Zlen (bytes b)) then
    r = 0 ∧ pos p = n ∧ ptr_ok b p ∧
    (n < Zlen (bytes b) → ∃ i c, pchain p = Some i ∧ chains b !! i = Some c ∧ pos_in_chain p < off c)
  else r = -1 ∧ p = PTR_NOT_FOUND.

Lemma ptr_set_ok b p n :
  wf b → 0 <= n <= SIZE_MAX →
  ∃ r p', evbuffer_ptr_set b p n EVBUFFER_PTR_SET = Some (r, p') ∧ ptr_set_res b n r p'.
Proof.
  intros Hb Hn. unfold evbuffer_ptr_set. rewrite (proj2 (Z.ltb_ge _ _)) by lia.
  assert (chains_from b (first_chain b) = chains b ∧ default 0%nat (first_chain b) = 0%nat) as [-> ->].
  { unfold first_chain. by destruct (chains b) eqn:E; cbn; rewrite ?E. }
  pose proof Hb as (Hwf & Hlen & Hmax & _).
  pose proof (ptr_set_loop_ok (chains b) 0 0 n Hwf ltac:(lia) ltac:(lia) ltac:(lia)) as Hloop.
  assert (match chains b with [] => 0 = 0 | c :: _ => 0 <= off c end) as H0.
  { destruct (chains b); [done|]. by apply Forall_cons in Hwf as [(_&?&_) _]. }
  specialize (Hloop H0). rewrite Z.add_0_l in Hloop. change (cbytes (chains b)) with (bytes b) in Hloop.
  unfold ptr_set_res. case_decide as Hdec.
  - destruct Hloop as (k1 & c & k2 & q & r & Hc & -> & Hq & Hr & Hlt & Heq).
    assert (off c <= Zlen (bytes b)) as Hoff.
    { unfold bytes. rewrite Hc, cbytes_app, cbytes_cons, !length_app. rewrite Hc in Hwf.
      apply Forall_app in Hwf as [_ [Hwc _]%Forall_cons]. pose proof (data_length c Hwc). lia. }
    unfold SIZE_MAX in *. rewrite uint64_id by lia. eexists _, _. split; [done|].
    rewrite decide_True by lia. split; [done|]. split; [done|]. split.
    + exists k1, c, k2. cbn. split_and!; try done; lia.
    + intros _. exists (0 + length k1)%nat, c. cbn. rewrite Hc, list_lookup_middle by done. split_and!; try done; lia.
  - destruct Hloop as [q ->]. destruct (Z.eqb_spec (n - Zlen (bytes b)) 0) as [E|E].
    + eexists _, _. split; [done|]. rewrite decide_True by lia. split_and!; try done; try lia. cbn. split; [lia|done].
    + eexists _, _. split; [done|]. by rewrite decide_False by lia.
Qed.

(** evbuffer_ptr_set moves to any position up to the length of the buffer, and names the
    chain that holds its byte; beyond the end it fails. *)
Theorem evbuffer_ptr_set_spec b p n :
  wf b → 0 <= n <= SIZE_MAX →
  ∃ r p', evbuffer_ptr_set b p n EVBUFFER_PTR_SET = Some (r, p') ∧ ptr_set_res b n r p'.
Proof. apply ptr_set_ok. Qed.

(** ** Reading lines *)

Lemma span_in_app set d r :
  span_in set (d ++ r) =
    let '(n, s) := span_in set d in
    if (s : bool) then (n, true) else let '(m, s') := span_in set r in ((length d + m)%nat, s').
Proof.
  induction d as [|x d IH]; cbn [app span_in length]; [by destruct (span_in set r)|].
  case_decide; [|done]. rewrite IH. destruct (span_in set d) as [n []]; [done|].
  by destruct (span_in set r).
Qed.

Lemma span_in_all set d n : span_in set d = (n, false) → n = length d.
Proof.
  revert n. induction d as [|x d IH]; intros n; cbn [span_in length]; [by intros [= <-]|].
  case_decide; [|done]. destruct (span_in set d) as [m s]. intros [= <- ->]. by rewrite (IH m).
Qed.

Lemma strspn_loop_ok cs q set count :
  Forall chain_wf cs → 0 <= q → match cs with [] => True | c :: _ => q <= off c end →
  let n := Z.of_nat (fst (span_in set (drop (Z.to_nat q) (cbytes cs)))) in
  0 <= count → count + n <= INT_MAX → strspn_loop cs q set count = Some (count + n).
Proof.
  cbv zeta. revert q count. induction cs as [|c cs IH]; intros q count Hw Hq Hqc H0 Hmax.
  { change (cbytes []) with (@nil byte). rewrite drop_nil. cbn. f_equal. lia. }
  apply Forall_cons in Hw as [Hc Hw]. destruct (drop_cbytes_cons c cs q Hc) as (E & Hsl & _); [done|].
  revert Hmax. rewrite E. cbn [strspn_loop]. rewrite Hsl. cbn [mbind option_bind]. rewrite span_in_app.
  destruct (span_in set (drop (Z.to_nat q) (data c))) as [n s] eqn:Es.
  destruct s; cbn [fst]; [intros; by rewrite int_chk_Some by (unfold INT_MIN, INT_MAX in *; lia)|].
  apply span_in_all in Es as ->. specialize (IH 0). change (drop (Z.to_nat 0) (cbytes cs)) with (cbytes cs) in IH.
  destruct (span_in set (cbytes cs)) as [m s'] eqn:Em. cbn [fst] in *. intros Hmax.
  rewrite int_chk_Some by (unfold INT_MIN, INT_MAX in *; lia). cbn [mbind option_bind].
  rewrite IH; [f_equal; lia|done|lia|by destruct cs; [|apply Forall_cons in Hw as [(_&?&_) _]]|lia|lia].
Qed.

(** The byte at a position strictly inside a chain. *)
Lemma getchr_ok b i q p c :
  wf b → ptr_ok b (Ptr p (Some i) q) → chains b !! i = Some c → q < off c →
  ∃ x, bytes b !! Z.to_nat p = Some x ∧ evbuffer_getchr b (Ptr p (Some i) q) = Some (Z_of_byte x).
Proof.
  intros Hb Hp Hc Hq. destruct (ptr_rest b _ Hb Hp) as (_ & Hq0 & _ & Hrest).
  cbn [pchain pos pos_in_chain chains_from] in *. unfold evbuffer_getchr. cbn [pchain pos_in_chain chains_from].
  rewrite (drop_S _ c i Hc) in *.
  assert (chain_wf c) as Hw by (destruct Hb as (Hwf & _); by eapply Forall_lookup_1).
  pose proof (data_length c Hw) as Hdl. pose proof Hw as (Hm & Ho & Hbl & _). unfold buffer_len in Hbl.
  destruct (lookup_lt_is_Some_2 (data c) (Z.to_nat q)) as [x Hx]; [lia|]. exists x. split.
  - assert (drop (Z.to_nat p) (bytes b) !! 0%nat = Some x) as H0.
    { rewrite <- Hrest, lookup_drop, Nat.add_0_r, cbytes_cons. by apply lookup_app_l_Some. }
    by rewrite lookup_drop, Nat.add_0_r in H0.
  - unfold data in Hx. rewrite lookup_take_lt, lookup_drop in Hx by lia.
    rewrite Z2Nat.inj_add by lia. by rewrite Hx.
Qed.

(** Backing up one byte. *)
Lemma subtract_one_ok b it :
  wf b → ptr_ok b it → 0 < pos it → pchain it ≠ None →
  ∃ i q c, evbuffer_ptr_subtract b it 1 = Some (0, Ptr (pos it - 1) (Some i) q) ∧
    ptr_ok b (Ptr (pos it - 1) (Some i) q) ∧ chains b !! i = Some c ∧ q < off c.
Proof.
  intros Hb Hit Hpos Hsome. destruct (ptr_rest b it Hb Hit) as (Hp & _).
  unfold evbuffer_ptr_subtract. rewrite (proj2 (Z.ltb_ge _ 0)), (proj2 (Z.ltb_ge _ 1)) by lia.
  destruct (pchain it) as [i|] eqn:Ei; [|done]. destruct (Z.leb_spec 1 (pos_in_chain it)) as [Hq|Hq].
  - pose proof Hit as Hok. unfold ptr_ok in Hok. rewrite Ei in Hok.
    destruct Hok as (l1 & c & l2 & Hc & Hi & Hq2 & Hpe). eexists i, _, c. split; [done|]. split.
    + exists l1, c, l2. cbn. split_and!; try done; lia.
    + rewrite Hc, Hi, list_lookup_middle by done. split; [done|lia].
  - destruct (ptr_set_ok b it (pos it - 1) Hb) as (r & p' & -> & Hres).
    { destruct Hb as (_ & Hlen & Hmax & _). lia. }
    unfold ptr_set_res in Hres. rewrite decide_True in Hres by lia.
    destruct Hres as (-> & Hpp & Hok & Hin). destruct (Hin ltac:(lia)) as (i' & c & Hpi & Hc & Hlt).
    destruct p' as [pp pc pq]. cbn in *. subst pp pc. by exists i', pq, c.
Qed.

(** What evbuffer_search_eol finds from the start. *)
Definition eol_res (b : evbuffer) (r : option (nat * nat)) (p : evbuffer_ptr) (n : Z) : Prop :=
  match r with
  | Some (k, m) => pos p = Z.of_nat k ∧ n = Z.of_nat m
  | None => pos p < 0
  end.

Lemma crlf_ok b it start :
  wf b → ptr_ok b it → pchain it ≠ None → bytes b !! Z.to_nat (pos it) = Some x0a → start = 0 →
  ∃ p n, crlf_back_up b it start = Some (p, n) ∧
    eol_res b (Some match Z.to_nat (pos it) with
      | O => (O, 1%nat)
      | S k => if decide (bytes b !! k = Some x0d) then (k, 2%nat) else (S k, 1%nat)
      end) p n.
Proof.
  intros Hb Hit Hsome Hlf ->. destruct (ptr_rest b it Hb Hit) as (Hp & _). unfold crlf_back_up.
  destruct (Z.eqb_spec (pos it) 0) as [E|E].
  { eexists _, _. split; [done|]. rewrite E. cbn. by rewrite E. }
  destruct (subtract_one_ok b it) as (i & q & c & -> & Hok & Hc & Hq); [done|done|lia|done|].
  cbn [mbind option_bind]. change (0 <? 0) with false. cbv iota.
  destruct (getchr_ok b i q (pos it - 1) c Hb Hok Hc Hq) as (x & Hx & ->). cbn [mbind option_bind].
  destruct (Z.to_nat (pos it)) as [|k] eqn:Ek; [lia|]. replace (Z.to_nat (pos it - 1)) with k in Hx by lia.
  rewrite Hx. destruct (Z.eqb_spec (Z_of_byte x) 13) as [E13|E13]; (eexists _, _; split; [done|]).
  - assert (x = x0d) as -> by by apply Z_of_byte_inj. rewrite decide_True by done. cbn. lia.
  - rewrite decide_False by (intros [= ->]; done). cbn. lia.
Qed.

(** The styles that search for one byte. *)
Lemma eol_found find P b f (k : nat → nat * nat) :
  (∀ d, find d = index_of P d) → wf b →
  (∀ j i q, index_of P (bytes b) = Some j → ptr_ok b (Ptr (Z.of_nat j) (Some i) q) →
    ∃ p n, f (Ptr (Z.of_nat j) (Some i) q) = Some (p, n) ∧ eol_res b (Some (k j)) p n) →
  let it := Ptr 0 (first_chain b) 0 in
  ∃ p n, (r ← chain_search find (chains_from b (pchain it)) (default 0%nat (pchain it)) (pos_in_chain it) (pos it);
      match r with None => Some (PTR_NOT_FOUND, 0) | Some it => f it end) = Some (p, n) ∧
    eol_res b (j ← index_of P (bytes b); Some (k j)) p n.
Proof.
  intros Hfind Hb Hf it. pose proof (first_ptr_ok b Hb) as Hit.
  pose proof (ptr_search_ok find P b it Hfind Hb Hit) as Hs. change (pos it) with 0 in *.
  change (drop (Z.to_nat 0) (bytes b)) with (bytes b) in Hs.
  destruct (index_of P (bytes b)) as [j|] eqn:Ej.
  - destruct Hs as (i & q & -> & Hok). cbn [mbind option_bind]. rewrite Z.add_0_l in *. by apply Hf.
  - rewrite Hs. by exists PTR_NOT_FOUND, 0.
Qed.

(** The end of a line is so short that an int can count its characters; those of
    EVBUFFER_EOL_ANY may be any number of CRs and LFs. *)
Definition eol_fits (style : evbuffer_eol_style) (d : list byte) : Prop :=
  ∀ k n, eol_find style d = Some (k, n) → Z.of_nat n <= INT_MAX.

Lemma eol_fits_any j d : eol_fits EVBUFFER_EOL_ANY d → index_of is_eol d = Some j →
  Z.of_nat (fst (span_in [x0d; x0a] (drop j d))) <= INT_MAX.
Proof. intros Hf Hj. apply (Hf j). cbn. by rewrite Hj. Qed.

Lemma span_in_length set d : (fst (span_in set d) <= length d)%nat.
Proof. induction d as [|x d IH]; cbn; [lia|]. case_decide; [|cbn; lia]. destruct (span_in set d). cbn in *. lia. Qed.

(** Every line of a buffer of at most INT_MAX bytes is, and every line of another style. *)
Lemma eol_fits_ok style d : style ≠ EVBUFFER_EOL_ANY ∨ Zlen d <= INT_MAX → eol_fits style d.
Proof.
  intros H k n E. destruct style; cbn [eol_find] in E; apply bind_Some in E as (p & _ & E);
    try (unfold INT_MAX; repeat case_match; simplify_eq; lia).
  injection E as _ <-. destruct H as [?|H]; [done|]. pose proof (span_in_length [x0d; x0a] (drop p d)). rewrite length_drop in *. lia.
Qed.

Lemma search_eol_ok b style :
  wf b → eol_fits style (bytes b) →
  ∃ p n, evbuffer_search_eol b None style = Some (p, n) ∧ eol_res b (eol_find style (bytes b)) p n.
Proof.
  intros Hb Hfits. unfold evbuffer_search_eol, evbuffer_find_eol_char, evbuffer_strchr. cbn [default from_option].
  destruct style; cbn [eol_find].
  - apply eol_found; [apply find_eol_char_ok|done|]. intros j i q Hj Hok.
    destruct (ptr_rest b _ Hb Hok) as (_ & Hq & Hqc & Hrest). unfold evbuffer_strspn.
    pose proof (eol_fits_any j _ Hfits Hj) as Hn. cbn [pos] in Hrest. rewrite Nat2Z.id in Hrest.
    rewrite strspn_loop_ok by (rewrite ?Hrest; (done || lia || by apply wf_from)). rewrite Hrest. by eexists _, _.
  - apply eol_found; [apply memchr_index|done|]. intros j i q Hj Hok.
    destruct (index_of_lookup _ _ _ Hj) as (x & Hx & Hxe). apply bool_decide_eq_true in Hxe as ->.
    destruct (crlf_ok b (Ptr (Z.of_nat j) (Some i) q) 0 Hb Hok) as (p & n & Hp & Hres); [done|cbn [pos]; by rewrite Nat2Z.id|done|].
    cbn [pos] in *. rewrite Nat2Z.id in Hres. exists p, n. split; [done|]. by destruct j.
  - destruct (search_range_ok b [x0d; x0a] (Some (Ptr 0 (first_chain b) 0)) None Hb) as (res & Hs & Hres);
      [intros p [= <-]; by apply first_ptr_ok|done|done|done|].
    unfold evbuffer_search. rewrite Hs. cbn [mbind option_bind].
    change (drop (Z.to_nat (pos (Ptr 0 (first_chain b) 0))) (bytes b)) with (bytes b) in Hres.
    destruct (find_sub [x0d; x0a] (bytes b)) as [j|]; cbn [search_res mbind option_bind] in *.
    + destruct Hres as (_ & Hpos & _). cbn [pos] in Hpos. rewrite (proj2 (Z.ltb_ge _ _)) by lia.
      eexists _, _. split; [done|]. cbn. lia.
    + rewrite Hres. by eexists _, _.
  - apply (eol_found _ _ _ _ (λ j, (j, 1%nat))); [apply memchr_index|done|].
    intros j i q _ _. exists (Ptr (Z.of_nat j) (Some i) q), 1. done.
  - apply (eol_found _ _ _ _ (λ j, (j, 1%nat))); [apply memchr_index|done|].
    intros j i q _ _. exists (Ptr (Z.of_nat j) (Some i) q), 1. done.
Qed.

Lemma readln_ok b (mem : Z → bool) style :
  wf b → freeze_start b = false → eol_fits style (bytes b) →
  match eol_find style (bytes b) with
  | Some (k, n) =>
      if mem (Z.of_nat k + 1) then
        ∃ b', evbuffer_readln b mem style = Some (Some (take k (bytes b)), b') ∧ wf b' ∧
          same_frame b b' ∧ bytes b' = drop (k + n) (bytes b)
      else evbuffer_readln b mem style = Some (None, b)
  | None => evbuffer_readln b mem style = Some (None, b)
  end.
Proof.
  intros Hb Hfs Hfits. unfold evbuffer_readln. rewrite Hfs.
  destruct (search_eol_ok b style Hb Hfits) as (p & n & -> & Hres). cbn [mbind option_bind].
  destruct (eol_find style (bytes b)) as [[k m]|]; cbn [eol_res] in Hres; cycle 1.
  { by rewrite (proj2 (Z.ltb_lt _ _)). }
  destruct Hres as [Hp ->]. rewrite Hp, (proj2 (Z.ltb_ge _ _)) by lia.
  destruct (mem (Z.of_nat k + 1)); [|done]. cbn [negb].
  destruct (remove_ok b (Z.of_nat k) Hb) as (b1 & -> & Hw1 & Hf1 & Hby1); [lia|done|]. cbn [mbind option_bind].
  destruct (drain_ok b1 (Z.of_nat m) Hw1) as (b2 & -> & Hw2 & Hf2 & Hby2); [lia|destruct Hf1 as [? _]; congruence|].
  cbn [mbind option_bind]. exists b2. rewrite Nat2Z.id in *. split; [done|]. split; [done|].
  split; [by apply (same_frame_trans _ b1)|]. by rewrite Hby2, Hby1, drop_drop.
Qed.

(** evbuffer_readln returns the bytes before the first end of line, in each of the five
    styles, and removes them and the end of line; without an end of line, or without memory for
    the line, it returns NULL and the buffer is unchanged. *)
Theorem evbuffer_readln_spec b (mem : Z → bool) style :
  wf b → freeze_start b = false → eol_fits style (bytes b) →
  match eol_find style (bytes b) with
  | Some (k, n) =>
      if mem (Z.of_nat k + 1) then
        ∃ b', evbuffer_readln b mem style = Some (Some (take k (bytes b)), b') ∧ wf b' ∧
          same_frame b b' ∧ bytes b' = drop (k + n) (bytes b)
      else evbuffer_readln b mem style = Some (None, b)
  | None => evbuffer_readln b mem style = Some (None, b)
  end.
Proof. apply readln_ok. Qed.

(** ** evbuffer_find *)

(** evbuffer_find reports the offset of the first occurrence and leaves it contiguous with the
    bytes before it; it never changes the bytes. *)
Theorem evbuffer_find_spec mm b what :
  wf b → what ≠ [] → Zlen what <= EV_SSIZE_MAX →
  ∃ r b', evbuffer_find mm b what = Some (r, b') ∧ wf b' ∧ bytes b' = bytes b ∧
    match find_sub what (bytes b) with
    | None => r = None
    | Some k => r = Some (Z.of_nat k) ∧ (∃ c rest, chains b' = c :: rest ∧ Z.of_nat k + Zlen what <= off c) ∨
        r = None ∧ (total_len b < Z.of_nat k + Zlen what ∨ alloc_failed mm b b' (Z.of_nat k + Zlen what))
    end.
Proof.
  intros Hb Hne Hlen. unfold evbuffer_find, evbuffer_search.
  destruct (search_range_ok b what None None Hb) as (p & -> & Hres); [done..|]. cbn [mbind option_bind].
  change (drop (Z.to_nat 0) (bytes b)) with (bytes b) in Hres.
  destruct (find_sub what (bytes b)) as [k|]; cbn [search_res] in Hres; cycle 1.
  { rewrite Hres. by exists None, b. }
  destruct Hres as (_ & Hp & _). rewrite Hp, Z.add_0_l, (proj2 (Z.ltb_ge _ _)) by lia.
  assert (0 < Zlen what) by (destruct what; [done|cbn; lia]).
  destruct (pullup_ok mm b (Z.of_nat k + Zlen what) Hb) as (r & b' & -> & Hw & _ & Hby & Hr).
  rewrite (proj2 (Z.ltb_ge _ _)) in Hr by lia. cbn [mbind option_bind]. eexists _, b'. split; [done|].
  split; [done|]. split; [done|]. destruct r; [left|right]; (split; [done|]); [by destruct Hr|].
  destruct Hr as [?|?]; [lia|done].
Qed.

(** ** evbuffer_peek *)

Lemma peek_loop_ok cs idx n len so_far :
  Forall chain_wf cs → len < 0 → 
  ∃ r, peek_loop cs idx (idx + n) len so_far = Some r ∧
    r = ((idx + Nat.min n (length cs))%nat, data <$> take n cs).
Proof.
  intros Hw Hlen. revert idx n so_far. induction Hw as [|c cs Hc _ IH]; intros idx n so_far.
  { cbn. rewrite Nat.min_0_r, Nat.add_0_r, take_nil. eauto. }
  cbn [peek_loop]. replace (0 <=? len) with false by lia. cbn [andb].
  destruct n as [|n].
  - rewrite Nat.add_0_r, (proj2 (Nat.ltb_ge _ _)) by lia. replace (len <? 0) with true by lia.
    cbn. rewrite Nat.add_0_r. eauto.
  - rewrite (proj2 (Nat.ltb_lt _ _)) by lia. rewrite chain_data_ok by done. cbn [mbind option_bind].
    replace (idx + S n)%nat with (S idx + n)%nat by lia.
    destruct (IH (S idx) n (so_far + off c)) as (r & -> & ->). cbn [mbind option_bind].
    eexists. split; [done|]. cbn [length take fmap list_fmap]. f_equal. lia.
Qed.

(** evbuffer_peek, asked for everything with room for [n] vectors, exposes the data of the
    first [n] chains, in order; with room enough, all the bytes of the buffer. *)
Theorem evbuffer_peek_spec b n :
  wf b → (0 < n)%nat →
  ∃ vs, evbuffer_peek b (-1) None n = Some (Nat.min n (length (chains b)), vs) ∧
    concat vs = cbytes (take n (chains b)) ∧
    ((length (chains b) <= n)%nat → concat vs = bytes b).
Proof.
  intros (Hwf & _) Hn. unfold evbuffer_peek. rewrite (proj2 (Nat.eqb_neq _ _)) by lia. cbn [andb].
  destruct (peek_loop_ok (chains b) 0 n (-1) 0 Hwf ltac:(lia)) as (r & Hr & ->). cbn [Nat.add] in Hr.
  rewrite Hr. eexists. split; [done|]. split; [done|]. intros Hle. by rewrite take_ge.
Qed.

(** ** Witnesses *)

(** "GET" and an end of line divided over two chains. *)
Definition divided : evbuffer :=
  with_chains [Chain (bs "_GET" ++ [x0d]) 1 4 0; Chain ([x0a] ++ bs "Host") 0 5 0] 1 9 evbuffer_new.

Lemma divided_wf : wf divided.
Proof.
  split; [repeat constructor; vm_compute; congruence|]. split; [done|]. split; [done|].
  right. exists [Chain (bs "_GET" ++ [x0d]) 1 4 0], (Chain ([x0a] ++ bs "Host") 0 5 0), [].
  by repeat split; [|right].
Qed.

Lemma evbuffer_search_range_spec_witness :
  ∃ res, evbuffer_search_range divided ([x0d; x0a] ++ bs "H") None None = Some res ∧
    search_res divided (Some 3%nat) 0 3 None res.
Proof.
  apply (evbuffer_search_range_spec divided ([x0d; x0a] ++ bs "H") None None);
    [exact divided_wf|discriminate|discriminate|discriminate|vm_compute; congruence].
Defined.

Lemma evbuffer_ptr_set_spec_witness :
  ∃ r p', evbuffer_ptr_set divided PTR_NOT_FOUND 6 EVBUFFER_PTR_SET = Some (r, p') ∧
    ptr_set_res divided 6 r p'.
Proof.
  apply (evbuffer_ptr_set_spec divided PTR_NOT_FOUND 6); [exact divided_wf|vm_compute; split; congruence].
Defined.

Lemma evbuffer_readln_spec_witness :
  ∃ b', evbuffer_readln divided (λ _, true) EVBUFFER_EOL_CRLF = Some (Some (bs "GET"), b') ∧ wf b' ∧
    same_frame divided b' ∧ bytes b' = bs "Host".
Proof.
  refine (evbuffer_readln_spec divided (λ _, true) EVBUFFER_EOL_CRLF divided_wf eq_refl _).
  intros k n E. vm_compute in E. injection E as <- <-. done.
Defined.

Lemma evbuffer_find_spec_witness :
  ∃ r b', evbuffer_find mm_zero divided (bs "Ho") = Some (r, b') ∧ wf b' ∧ bytes b' = bytes divided ∧
    (r = Some 5 ∧ (∃ c rest, chains b' = c :: rest ∧ 5 + 2 <= off c) ∨
     r = None ∧ (total_len divided < 5 + 2 ∨ alloc_failed mm_zero divided b' (5 + 2))).
Proof.
  apply (evbuffer_find_spec mm_zero divided (bs "Ho"));
    [exact divided_wf|discriminate|vm_compute; congruence].
Defined.

Lemma evbuffer_peek_spec_witness :
  ∃ vs, evbuffer_peek divided (-1) None 2 = Some (2%nat, vs) ∧
    concat vs = bytes divided ∧ ((2 <= 2)%nat → concat vs = bytes divided).
Proof. apply (evbuffer_peek_spec divided 2); [exact divided_wf|lia]. Defined.
