(* ===== verification/EvBufferSpec.v ===== *)
(** * evbuffer: the abstract byte queue and the refinement

    What the users of a buffer see of it is a queue of bytes.  This file states that queue as a
    step relation on lists of bytes, and that every sequence of operations of libevent/buffer.c
    on one buffer runs to its end and answers what the queue answers, whatever the allocator
    does. *)

From S2P Require Import Prelude EvBuffer EvBufferMove EvBufferSpace EvBufferPtr.

(** ** Operations and their answers *)

Inductive buf_op :=
| OpAdd (d : list byte)
| OpPrepend (d : list byte)
| OpDrain (n : Z)
| OpRemove (n : Z)
| OpCopyout (n : Z)
| OpPullup (n : Z)
| OpExpand (n : Z)
| OpReadln (style : evbuffer_eol_style)
| OpSearch (what : list byte).

Inductive buf_answer :=
| AnsInt (z : Z)
| AnsBytes (z : Z) (d : list byte)
| AnsPtr (found : bool)
| AnsLine (line : option (list byte))
| AnsPos (p : Z).

Section Exec.
Variable mm : nat → Z → option (nat → byte).
Variable mem : Z → bool.

Definition buf_exec (b : evbuffer) (o : buf_op) : option (buf_answer * evbuffer) :=
  match o with
  | OpAdd d => '(r, b) ← evbuffer_add mm b d; Some (AnsInt r, b)
  | OpPrepend d => '(r, b) ← evbuffer_prepend mm b d; Some (AnsInt r, b)
  | OpDrain n => '(r, b) ← evbuffer_drain b n; Some (AnsInt r, b)
  | OpRemove n => '(r, d, b) ← evbuffer_remove b n; Some (AnsBytes r d, b)
  | OpCopyout n => '(r, d) ← evbuffer_copyout b n; Some (AnsBytes r d, b)
  | OpPullup n => '(r, b) ← evbuffer_pullup mm b n; Some (AnsPtr r, b)
  | OpExpand n => '(r, b) ← evbuffer_expand mm b n; Some (AnsInt r, b)
  | OpReadln style => '(l, b) ← evbuffer_readln b mem style; Some (AnsLine l, b)
  | OpSearch what => p ← evbuffer_search b what None; Some (AnsPos (pos p), b)
  end.

Fixpoint buf_run (b : evbuffer) (ops : list buf_op) : option (list buf_answer * evbuffer) :=
  match ops with
  | [] => Some ([], b)
  | o :: ops =>
      '(a, b) ← buf_exec b o;
      '(l, b) ← buf_run b ops;
      Some (a :: l, b)
  end.

End Exec.

(** Sizes are not negative; a search is for something. *)
Definition op_ok (o : buf_op) : Prop :=
  match o with
  | OpDrain n | OpRemove n | OpCopyout n | OpExpand n => 0 <= n
  | OpSearch what => what ≠ [] ∧ Zlen what <= EV_SSIZE_MAX
  | _ => True
  end.

(** What an operation may add to the buffer or ask of the allocator. *)
Definition op_size (o : buf_op) : Z :=
  match o with OpAdd d | OpPrepend d => Zlen d | OpExpand n => n | _ => 0 end.
Definition ops_size (ops : list buf_op) : Z := foldr Z.add 0 (op_size <$> ops).

(** EVBUFFER_EOL_ANY counts the characters of the end of a line by an int: lines are read in this
    style from a buffer that holds INT_MAX bytes at most. *)
Definition lines_fit (q : list byte) (ops : list buf_op) : Prop :=
  OpReadln EVBUFFER_EOL_ANY ∈ ops → Zlen q + ops_size ops <= INT_MAX.
Definition op_fits (q : list byte) (o : buf_op) : Prop :=
  match o with OpReadln style => eol_fits style q | _ => True end.

Lemma ops_size_pos ops : Forall op_ok ops → 0 <= ops_size ops.
Proof.
  unfold ops_size. induction 1 as [|o ops Ho _ IH]; cbn; [lia|].
  destruct o; cbn [op_size op_ok] in *; lia.
Qed.

Lemma lines_fit_cons q o ops :
  op_ok o → Forall op_ok ops → lines_fit q (o :: ops) →
  op_fits q o ∧ ∀ q', Zlen q' <= Zlen q + op_size o → lines_fit q' ops.
Proof.
  intros Ho Hops Hf. pose proof (ops_size_pos ops Hops).
  assert (Hs : ops_size (o :: ops) = op_size o + ops_size ops) by done. unfold lines_fit in *. rewrite Hs in Hf. split.
  - destruct o as [| | | | | | |style|]; try done. apply eol_fits_ok. destruct style; [right|by left..].
    cbn [op_size] in Hf. specialize (Hf ltac:(by left)). lia.
  - intros q' Hq' Hin. specialize (Hf ltac:(by right)). lia.
Qed.

(** ** The queue *)

Section Queue.
Variable mm : nat → Z → option (nat → byte).
Variable mem : Z → bool.

(** The number of bytes a pullup is asked for. *)
Definition pullup_size (q : list byte) (n : Z) : Z := if n <? 0 then Zlen q else n.

(** No chain for [n] bytes: they are too many, or one of the requests of memory that the operation
    makes, those from [k] on and before [k'], is refused. *)
Definition no_chain (k k' : nat) (n : Z) : Prop := EVBUFFER_CHAIN_MAX / 2 < n ∨ refused mm k k'.

(** One operation on the queue [q], by which the number of requests of memory goes from [k] to [k'].
    An operation may fail only where the allocator refuses a block that the operation itself asks
    for, or a size limit is exceeded. *)
Inductive queue_step (k k' : nat) (q : list byte) : buf_op → buf_answer → list byte → Prop :=
| queue_add d : queue_step k k' q (OpAdd d) (AnsInt 0) (q ++ d)
| queue_add_fails d :
    SIZE_MAX < Zlen q + Zlen d ∨ no_chain k k' (Zlen d) → queue_step k k' q (OpAdd d) (AnsInt (-1)) q
| queue_prepend d : queue_step k k' q (OpPrepend d) (AnsInt 0) (d ++ q)
| queue_prepend_fails d1 d2 :
    SIZE_MAX < Zlen q + Zlen (d1 ++ d2) ∨ no_chain k k' (Zlen (d1 ++ d2)) →
    queue_step k k' q (OpPrepend (d1 ++ d2)) (AnsInt (-1)) (d2 ++ q)
| queue_drain n : queue_step k k' q (OpDrain n) (AnsInt 0) (drop (Z.to_nat n) q)
| queue_remove n :
    queue_step k k' q (OpRemove n) (AnsBytes (int32 (Z.min n (Zlen q))) (take (Z.to_nat n) q))
      (drop (Z.to_nat n) q)
| queue_copyout n :
    queue_step k k' q (OpCopyout n) (AnsBytes (Z.min n (Zlen q)) (take (Z.to_nat n) q)) q
| queue_pullup n :
    0 < pullup_size q n <= Zlen q → queue_step k k' q (OpPullup n) (AnsPtr true) q
| queue_pullup_fails n :
    pullup_size q n = 0 ∨ Zlen q < pullup_size q n ∨ no_chain k k' (pullup_size q n) →
    queue_step k k' q (OpPullup n) (AnsPtr false) q
| queue_expand n : queue_step k k' q (OpExpand n) (AnsInt 0) q
| queue_expand_fails n : no_chain k k' n → queue_step k k' q (OpExpand n) (AnsInt (-1)) q
| queue_line style i n :
    eol_find style q = Some (i, n) → mem (Z.of_nat i + 1) = true →
    queue_step k k' q (OpReadln style) (AnsLine (Some (take i q))) (drop (i + n) q)
| queue_no_line style :
    eol_find style q = None → queue_step k k' q (OpReadln style) (AnsLine None) q
| queue_line_fails style i n :
    eol_find style q = Some (i, n) → mem (Z.of_nat i + 1) = false →
    queue_step k k' q (OpReadln style) (AnsLine None) q
| queue_search what :
    queue_step k k' q (OpSearch what)
      (AnsPos (match find_sub what q with Some i => Z.of_nat i | None => -1 end)) q.

Inductive queue_run : nat → list byte → list buf_op → list buf_answer → nat → list byte → Prop :=
| queue_run_nil k q : queue_run k q [] [] k q
| queue_run_cons k q o a k1 q1 ops l k2 q2 :
    (k <= k1)%nat → queue_step k k1 q o a q1 → queue_run k1 q1 ops l k2 q2 →
    queue_run k q (o :: ops) (a :: l) k2 q2.

End Queue.

(** The queue grows by what is added at most. *)
Lemma queue_step_size mm mem k k' q o a q' :
  queue_step mm mem k k' q o a q' → op_ok o → Zlen q' <= Zlen q + op_size o.
Proof.
  intros [] Ho; cbn [op_size op_ok] in *; rewrite ?length_app, ?length_drop; lia.
Qed.

Create HintDb evbuffer.
#[export] Hint Constructors queue_step queue_run : evbuffer.

(** ** The refinement *)

Section Refinement.
Variable mm : nat → Z → option (nat → byte).
Variable mem : Z → bool.

Definition thawed (b : evbuffer) : Prop := freeze_start b = false ∧ freeze_end b = false.

Lemma thawed_frame b b' : thawed b → same_frame b b' → thawed b'.
Proof. unfold thawed, same_frame. intros [? ?] (-> & -> & _). done. Qed.

(** What is proved of each operation: the buffer stays in order and it is a step of the queue. *)
Definition steps (b : evbuffer) (o : buf_op) (a : buf_answer) (b' : evbuffer) : Prop :=
  wf b' ∧ same_frame b b' ∧ queue_step mm mem (n_alloc b) (n_alloc b') (bytes b) o a (bytes b').

(** Where a length is not changed by an operation, neither is anything else of the queue. *)
Lemma unchanged_step b o a b' :
  wf b' → same_frame b b' → bytes b' = bytes b →
  queue_step mm mem (n_alloc b) (n_alloc b') (bytes b) o a (bytes b) → steps b o a b'.
Proof. intros Hw Hf E Hs. split; [done|]. split; [done|by rewrite E]. Qed.

Lemma add_step b d :
  wf b → thawed b → ∃ a b', buf_exec mm mem b (OpAdd d) = Some (a, b') ∧ steps b (OpAdd d) a b'.
Proof.
  intros Hb Ht. pose proof Hb as (_ & Hlen & _). cbn [buf_exec].
  destruct (add_ok mm b d Hb) as (r & b' & -> & (Hw & Hf & Hr) & Hfail). eexists _, b'. split; [done|].
  split; [done|]. split; [done|]. destruct Hr as [[-> ->]|[-> ->]]; [auto with evbuffer|].
  apply queue_add_fails. destruct (Hfail eq_refl) as [H|]; [destruct Ht; congruence|by rewrite <- Hlen].
Qed.

Lemma prepend_step b d :
  wf b → thawed b → ∃ a b', buf_exec mm mem b (OpPrepend d) = Some (a, b') ∧ steps b (OpPrepend d) a b'.
Proof.
  intros Hb Ht. pose proof Hb as (_ & Hlen & _). cbn [buf_exec].
  destruct (prepend_ok mm b d Hb (proj1 Ht)) as (r & b' & -> & (Hw & Hf & Hr) & Hfail). eexists _, b'.
  split; [done|]. split; [done|]. split; [done|].
  destruct Hr as [[-> ->]|(-> & d1 & d2 & -> & ->)]; [auto with evbuffer|].
  apply queue_prepend_fails. rewrite <- Hlen. by apply Hfail.
Qed.

Lemma pullup_step b n :
  wf b → ∃ a b', buf_exec mm mem b (OpPullup n) = Some (a, b') ∧ steps b (OpPullup n) a b'.
Proof.
  intros Hb. pose proof Hb as (_ & Hlen & _). cbn [buf_exec].
  destruct (pullup_ok mm b n Hb) as (r & b' & -> & Hw & Hf & Hby & Hr). eexists _, b'. split; [done|].
  apply unchanged_step; try done. rewrite Hlen in Hr. destruct r.
  - destruct Hr as (Hn & c & rest & Hc & Hle). apply queue_pullup. unfold pullup_size. split; [done|].
    assert (off c <= Zlen (bytes b)); [|lia].
    destruct Hw as (Hw & _). rewrite Hc in Hw. apply Forall_cons in Hw as [Hwc _].
    rewrite <- Hby. unfold bytes. rewrite Hc, cbytes_cons, length_app, <- (data_length c Hwc). lia.
  - by apply queue_pullup_fails.
Qed.

Lemma readln_step b style :
  wf b → thawed b → eol_fits style (bytes b) →
  ∃ a b', buf_exec mm mem b (OpReadln style) = Some (a, b') ∧ steps b (OpReadln style) a b'.
Proof.
  intros Hb Ht Hfits. cbn [buf_exec]. pose proof (readln_ok b mem style Hb (proj1 Ht) Hfits) as H.
  destruct (eol_find style (bytes b)) as [[k m]|] eqn:E; [destruct (mem (Z.of_nat k + 1)) eqn:Em|].
  - destruct H as (b' & -> & Hw & Hf & Hby). eexists _, b'. split; [done|]. split; [done|].
    split; [done|]. rewrite Hby. auto with evbuffer.
  - rewrite H. eexists _, b. split; [done|]. apply unchanged_step; [done..|eauto with evbuffer].
  - rewrite H. eexists _, b. split; [done|]. apply unchanged_step; [done..|auto with evbuffer].
Qed.

Lemma search_step b what :
  wf b → op_ok (OpSearch what) →
  ∃ a b', buf_exec mm mem b (OpSearch what) = Some (a, b') ∧ steps b (OpSearch what) a b'.
Proof.
  intros Hb [Hne Hlen]. cbn [buf_exec]. unfold evbuffer_search.
  destruct (search_range_ok b what None None Hb) as (p & -> & Hres); [done..|]. cbn [mbind option_bind].
  change (drop (Z.to_nat 0) (bytes b)) with (bytes b) in Hres. eexists _, b. split; [done|].
  apply unchanged_step; [done..|].
  assert (pos p = match find_sub what (bytes b) with Some k => Z.of_nat k | None => -1 end) as ->.
  { destruct (find_sub what (bytes b)) as [k|]; cbn [search_res] in Hres; [by destruct Hres as (_ & -> & _)|].
    by rewrite Hres. }
  auto with evbuffer.
Qed.

(** One operation is one step of the queue. *)
Lemma buf_exec_step b o :
  wf b → thawed b → op_ok o → op_fits (bytes b) o →
  ∃ a b', buf_exec mm mem b o = Some (a, b') ∧ steps b o a b'.
Proof.
  intros Hb Ht Ho Hfit. pose proof Ht as [Hfs Hfe].
  destruct o as [d|d|n|n|n|n|n|style|what];
    [by apply add_step|by apply prepend_step| | | |by apply pullup_step| |by apply readln_step|by apply search_step];
    cbn [buf_exec op_ok] in *.
  - destruct (drain_ok b n Hb Ho Hfs) as (b' & -> & Hw & Hf & Hby). eexists _, b'. split; [done|].
    split; [done|]. split; [done|]. rewrite Hby. auto with evbuffer.
  - destruct (remove_ok b n Hb Ho Hfs) as (b' & -> & Hw & Hf & Hby). eexists _, b'. split; [done|].
    split; [done|]. split; [done|]. rewrite Hby. auto with evbuffer.
  - unfold evbuffer_copyout. rewrite (copyout_ok b n Hb Ho Hfs). eexists _, b. split; [done|].
    apply unchanged_step; [done..|auto with evbuffer].
  - destruct (expand_ok mm b n Hb Ho) as (r & b' & -> & (Hw & Hf & Hby) & Hr). eexists _, b'. split; [done|].
    apply unchanged_step; try done. destruct Hr as [[-> _]|[-> Hr]]; auto with evbuffer.
Qed.

Lemma refines_queue_ok b ops :
  wf b → thawed b → Forall op_ok ops → lines_fit (bytes b) ops →
  ∃ l b', buf_run mm mem b ops = Some (l, b') ∧ wf b' ∧ thawed b' ∧
    queue_run mm mem (n_alloc b) (bytes b) ops l (n_alloc b') (bytes b').
Proof.
  intros Hb Ht Hops Hfit. revert b Hb Ht Hfit. induction Hops as [|o ops Ho Hops IH]; intros b Hb Ht Hfit.
  { exists [], b. auto with evbuffer. }
  destruct (lines_fit_cons _ _ _ Ho Hops Hfit) as [Hfo Hfs]. cbn [buf_run].
  destruct (buf_exec_step b o Hb Ht Ho Hfo) as (a & b1 & -> & Hw1 & Hf1 & Hs). cbn [mbind option_bind].
  assert (Ht1 : thawed b1) by by apply (thawed_frame b).
  destruct (IH b1 Hw1 Ht1) as (l & b2 & -> & Hw2 & Ht2 & Hr); [by apply Hfs, (queue_step_size mm mem (n_alloc b) (n_alloc b1) _ _ a)|].
  cbn [mbind option_bind]. exists (a :: l), b2. split; [done|]. split; [done|]. split; [done|].
  eapply queue_run_cons; [apply Hf1|done|done].
Qed.


End Refinement.

(** ** With memory

    When no block is refused and the sizes stay below half of the largest chain, the queue is a
    function. *)

Definition queue_do (q : list byte) (o : buf_op) : buf_answer * list byte :=
  match o with
  | OpAdd d => (AnsInt 0, q ++ d)
  | OpPrepend d => (AnsInt 0, d ++ q)
  | OpDrain n => (AnsInt 0, drop (Z.to_nat n) q)
  | OpRemove n =>
      (AnsBytes (int32 (Z.min n (Zlen q))) (take (Z.to_nat n) q), drop (Z.to_nat n) q)
  | OpCopyout n => (AnsBytes (Z.min n (Zlen q)) (take (Z.to_nat n) q), q)
  | OpPullup n => (AnsPtr ((0 <? pullup_size q n) && (pullup_size q n <=? Zlen q)), q)
  | OpExpand n => (AnsInt 0, q)
  | OpReadln style =>
      match eol_find style q with
      | Some (k, n) => (AnsLine (Some (take k q)), drop (k + n) q)
      | None => (AnsLine None, q)
      end
  | OpSearch what =>
      (AnsPos (match find_sub what q with Some k => Z.of_nat k | None => -1 end), q)
  end.

Fixpoint queue_eval (q : list byte) (ops : list buf_op) : list buf_answer * list byte :=
  match ops with
  | [] => ([], q)
  | o :: ops =>
      let '(a, q) := queue_do q o in
      let '(l, q) := queue_eval q ops in
      (a :: l, q)
  end.

Section Memory.
Variable mm : nat → Z → option (nat → byte).
Variable mem : Z → bool.
Hypothesis mm_total : ∀ k n, mm k n ≠ None.
Hypothesis mem_total : ∀ n, mem n = true.

Lemma never_fails k k' n : n <= EVBUFFER_CHAIN_MAX / 2 → ¬ no_chain mm k k' n.
Proof. intros ? [?|(i & m & _ & ?)]; [lia|by apply (mm_total i m)]. Qed.

Lemma queue_step_do k k' q o a q' :
  queue_step mm mem k k' q o a q' → op_ok o → Zlen q + op_size o <= EVBUFFER_CHAIN_MAX / 2 →
  queue_do q o = (a, q') ∧ Zlen q' <= Zlen q + op_size o.
Proof.
  intros Hs Ho Hmax. assert (EVBUFFER_CHAIN_MAX / 2 < SIZE_MAX) as Hlt by done.
  assert (0 <= op_size o) as Hpos by (destruct o; cbn [op_size op_ok] in *; lia).
  destruct Hs as [d|d Hf|d|d1 d2 Hf|n|n|n|n Hn|n Hn|n|n Hf|style i n E Em|style E|style i n E Em|what];
    cbn [queue_do op_size op_ok] in *; rewrite ?E, ?length_app, ?length_drop;
    try (split; [done|lia]).
  - destruct Hf as [|Hf]; [lia|]. apply never_fails in Hf; [done|lia].
  - destruct Hf as [Hf|Hf]; rewrite length_app in *; [lia|]. apply never_fails in Hf; [done|lia].
  - rewrite (proj2 (Z.ltb_lt _ _)), (proj2 (Z.leb_le _ _)) by lia. split; [done|lia].
  - split; [|lia]. do 2 f_equal. apply andb_false_iff. rewrite Z.ltb_ge, Z.leb_gt.
    destruct Hn as [?|[?|Hf]]; [left; lia|by right|].
    destruct (decide (pullup_size q n <= Zlen q)); [|right; lia]. apply never_fails in Hf; [done|lia].
  - apply never_fails in Hf; [done|lia].
  - by rewrite mem_total in Em.
Qed.

Lemma queue_run_eval k q ops l k' q' :
  queue_run mm mem k q ops l k' q' → Forall op_ok ops → Zlen q + ops_size ops <= EVBUFFER_CHAIN_MAX / 2 →
  queue_eval q ops = (l, q').
Proof.
  induction 1 as [|k q o a k1 q1 ops l k2 q2 _ Hs _ IH]; intros Hops Hmax; [done|].
  apply Forall_cons in Hops as [Ho Hops]. cbn [queue_eval]. pose proof (ops_size_pos ops Hops) as Hpos.
  assert (Hsize : ops_size (o :: ops) = op_size o + ops_size ops) by done. rewrite Hsize in Hmax.
  destruct (queue_step_do k k1 q o a q1 Hs Ho) as [-> Hlen]; [lia|].
  rewrite IH by (done || lia). done.
Qed.


End Memory.

(** ** Witness *)

Definition demo_ops : list buf_op :=
  [OpAdd (bs "bc"); OpPrepend (bs "a"); OpPullup 2; OpRemove 1; OpAdd [x0d; x0a]; OpReadln EVBUFFER_EOL_ANY].


