(* ===== verification/EvBufferCalls.v ===== *)
(** * What the callbacks of an evbuffer are told

    For the operations of buffer.c that a bufferevent uses: which callbacks they call, and with how
    many bytes added. *)

From S2P Require Import Prelude EvBuffer EvBufferMove EvBufferSpace.

(** What the functions that manage chains leave alone. *)
Definition cb_view (b : evbuffer) : list evbuffer_cb_entry * bool * list cb_call * Z * Z :=
  (callbacks b, deferred_cbs b, cb_log b, n_add_for_cb b, n_del_for_cb b).

(** No change is waiting to be told. *)
Definition calm (b : evbuffer) : Prop := deferred_cbs b = false ∧ n_add_for_cb b = 0 ∧ n_del_for_cb b = 0.

Definition on (e : evbuffer_cb_entry) : Prop := Z.land (cb_flags e) EVBUFFER_CB_ENABLED = EVBUFFER_CB_ENABLED.
#[export] Instance on_dec e : Decision (on e) := _.

(** From [b] to [b'] the enabled callbacks are called, unless nothing has changed. *)
Definition tells (b : evbuffer) (na nd : Z) (b' : evbuffer) : Prop :=
  callbacks b' = callbacks b ∧ calm b' ∧
  ∃ f : evbuffer_cb_entry → cb_call, (∀ e, called (f e) = cb e ∧ n_added (f e) = na) ∧
    cb_log b' = cb_log b ++ (if (na =? 0) && (nd =? 0) then [] else f <$> filter on (callbacks b)).

Lemma tells_nothing b b' : calm b → cb_view b' = cb_view b → tells b 0 0 b'.
Proof.
  intros [H1 [H2 H3]] Hv. unfold cb_view in Hv. injection Hv as E1 E2 E3 E4 E5.
  split; [done|]. split; [unfold calm; by rewrite E2, E4, E5|].
  exists (λ e, CbCall (cb e) 0 false 0 0 0 0). split; [done|]. by rewrite E3, app_nil_r.
Qed.

Lemma invoke_tells b : deferred_cbs b = false → tells b (n_add_for_cb b) (n_del_for_cb b) (evbuffer_invoke_callbacks_ b).
Proof.
  intros Hd. unfold evbuffer_invoke_callbacks_. rewrite Hd. case_decide as Hc.
  - split; [done|]. split; [done|]. exists (λ e, CbCall (cb e) 0 false 0 (n_add_for_cb b) 0 0). split; [done|].
    rewrite Hc. cbn. destruct (_ && _); by rewrite app_nil_r.
  - unfold evbuffer_run_callbacks, cb_mask. rewrite Hd, decide_False by done.
    destruct ((n_add_for_cb b =? 0) && (n_del_for_cb b =? 0)) eqn:E.
    + apply andb_true_iff in E as [E1%Z.eqb_eq E2%Z.eqb_eq]. split; [done|]. split; [done|].
      exists (λ e, CbCall (cb e) 0 false 0 (n_add_for_cb b) 0 0). split; [done|]. rewrite E1, E2. by rewrite app_nil_r.
    + split; [done|]. split; [done|]. rewrite E. eexists. split; [|reflexivity]. done.
Qed.

Lemma finish_tells b b1 na nd :
  cb_view b1 = (callbacks b, false, cb_log b, na, nd) → tells b na nd (evbuffer_invoke_callbacks_ b1).
Proof.
  intros Hv. unfold cb_view in Hv. injection Hv as E1 E2 E3 E4 E5.
  destruct (invoke_tells b1 E2) as (H1 & H2 & f & H3 & H4). rewrite E1, E3, E4, E5 in *.
  split; [done|]. split; [done|]. by exists f.
Qed.

Lemma calm_view b : calm b → cb_view b = (callbacks b, false, cb_log b, 0, 0).
Proof. intros [H1 [H2 H3]]. unfold cb_view. by rewrite H1, H2, H3. Qed.

(** ** Chains *)

Lemma insert_view b c b' : evbuffer_chain_insert b c = Some b' → cb_view b' = cb_view b.
Proof.
  unfold evbuffer_chain_insert, evbuffer_free_trailing_empty_chains. intros H.
  repeat (case_match; simplify_eq/=); done.
Qed.

Lemma expand_nuke_view mm b n r b' : expand_nuke mm b n = Some (r, b') → cb_view b' = cb_view b.
Proof.
  unfold expand_nuke, chain_alloc. destruct (chains b !! lwd b) as [c|]; [|done]. cbn [mbind option_bind]. intros H.
  repeat (case_match; simplify_eq/=); done.
Qed.

Lemma expand_new_view mm b n r b' : expand_new mm b n = Some (r, b') → cb_view b' = cb_view b.
Proof.
  unfold expand_new, evbuffer_chain_insert_new, chain_alloc. intros H.
  destruct (evbuffer_chain_new mm (n_alloc b) n) as [c|]; [|by simplify_eq/=].
  destruct (evbuffer_chain_insert (tick b) c) as [b1|] eqn:E; [|done]. simplify_eq/=. by apply insert_view in E.
Qed.

Lemma expand_fast_view mm b n k r b' : evbuffer_expand_fast_ mm b n k = Some (r, b') → cb_view b' = cb_view b.
Proof.
  unfold evbuffer_expand_fast_, chain_alloc. intros H. destruct (k <? 2)%nat; [done|].
  destruct (last (chains b)) as [c|]; [|by eapply expand_new_view]. destruct (CHAIN_IMMUTABLE c); [by eapply expand_new_view|].
  destruct (expand_loop _ _ _ _ _ _) as [[cs res]|]; [|done]. cbn [mbind option_bind] in H.
  destruct res as [[used avail]|]; [|by simplify_eq/=]. destruct (used <? k)%nat.
  - repeat (case_match; simplify_eq/=); done.
  - by apply expand_nuke_view in H.
Qed.

(** ** The operations *)

Lemma read_tells mm b fi howmuch got r b' :
  calm b → evbuffer_read mm b fi howmuch got = Some (r, b') →
  ∃ na, tells b na 0 b' ∧ (0 < r < 2 ^ 64 → na ≠ 0).
Proof.
  intros Hc. pose proof (calm_view b Hc) as Hv. unfold evbuffer_read.
  destruct (freeze_end b); [intros [= <- <-]; exists 0; split; [by apply tells_nothing|lia]|].
  destruct (evbuffer_expand_fast_ _ _ _ _) as [[r1 b1]|] eqn:E1; [|done]. cbn [mbind option_bind].
  apply expand_fast_view in E1. destruct (r1 =? -1); [intros [= <- <-]; exists 0; split; [by apply tells_nothing|lia]|].
  destruct (evbuffer_read_setup_vecs_ _ _ _ _) as [[[n vs] first]|]; [|done]. cbn [mbind option_bind].
  destruct got as [[|d0 d]|]; [intros [= <- <-]; exists 0; split; [by apply tells_nothing|lia]| |
    intros [= <- <-]; exists 0; split; [by apply tells_nothing|lia]].
  set (dd := d0 :: d). destruct (readv_fill _ _ _) as [cs|]; [|done]. cbn [mbind option_bind].
  destruct (read_commit _ _ _ _) as [[cs' l]|]; [|done]. cbn [mbind option_bind]. intros [= <- <-].
  rewrite Hv in E1. unfold cb_view in E1. injection E1 as V1 V2 V3 V4 V5.
  exists (uint64 (Zlen dd)). split.
  - apply finish_tells. unfold cb_view. cbn [callbacks deferred_cbs cb_log n_add_for_cb n_del_for_cb count_add with_counts with_chains].
    by rewrite V1, V2, V3, V4, V5.
  - intros Hr. rewrite uint64_id; unfold dd; cbn [length]; lia.
Qed.

Lemma drain_tells b len r b' :
  calm b → evbuffer_drain b len = Some (r, b') → 0 <= total_len b < 2 ^ 64 → 0 <= len →
  ∃ nd, tells b 0 nd b' ∧ (r = 0 → 0 < len → total_len b ≠ 0 → nd ≠ 0).
Proof.
  intros Hc Hd Ht Hl. pose proof (calm_view b Hc) as Hv. revert Hd. unfold evbuffer_drain.
  destruct (Z.eqb_spec (total_len b) 0) as [H0|H0]; [intros; simplify_eq; exists 0; split; [by apply tells_nothing|done]|].
  destruct (freeze_start b); [intros; simplify_eq; exists 0; split; [by apply tells_nothing|lia]|].
  assert (Hfin : ∀ n b1, cb_view b1 = cb_view b → 0 <= n < 2 ^ 64 → (0 < len → 0 < n) →
    Some (0, evbuffer_invoke_callbacks_ (count_del n b1)) = Some (r, b') →
    ∃ nd, tells b 0 nd b' ∧ (r = 0 → 0 < len → total_len b ≠ 0 → nd ≠ 0)).
  { intros n b1 Hb1 Hn Hpos [= <- <-]. rewrite Hv in Hb1. unfold cb_view in Hb1. injection Hb1 as V1 V2 V3 V4 V5.
    exists (uint64 n). split; [|rewrite uint64_id by lia; lia].
    apply finish_tells. unfold cb_view. cbn [callbacks deferred_cbs cb_log n_add_for_cb n_del_for_cb count_del with_counts].
    by rewrite V1, V2, V3, V4, V5. }
  destruct ((total_len b <=? len) && _); [apply Hfin; [done|lia|lia]|].
  destruct (drain_loop _ _ _) as [[[cs l] remaining]|]; [|done]. cbn [mbind option_bind].
  destruct cs as [|c cs]; [done|]. destruct (_ <=? _); [|done].
  destruct (Z.leb_spec (total_len b) len); (apply Hfin; [done|lia|lia]).
Qed.

Lemma remove_tells b n r d b' :
  calm b → evbuffer_remove b n = Some (r, d, b') → 0 <= total_len b < 2 ^ 64 → 0 <= n →
  ∃ nd, tells b 0 nd b' ∧ (freeze_start b = false → 0 < n → total_len b ≠ 0 → nd ≠ 0).
Proof.
  intros Hc Hr Ht Hn. unfold evbuffer_remove in Hr.
  destruct (evbuffer_copyout_from b None n) as [[m d']|] eqn:Em; [|done]. cbn [mbind option_bind] in Hr.
  assert (Hm : freeze_start b = false → 0 < n → total_len b ≠ 0 → 0 < m).
  { intros Hf H0 H1. unfold evbuffer_copyout_from in Em. destruct (Z.ltb_spec (total_len b) n).
    - rewrite (proj2 (Z.eqb_neq _ _)), Hf in Em by done. destruct (copyout_loop _ _ _); [|done]. simplify_eq/=. lia.
    - rewrite (proj2 (Z.eqb_neq _ _)), Hf in Em by lia. destruct (copyout_loop _ _ _); [|done]. simplify_eq/=. lia. }
  destruct (Z.ltb_spec 0 m) as [Hpos|Hneg].
  - destruct (evbuffer_drain b m) as [[rd b1]|] eqn:Ed; [|done]. simplify_eq/=.
    destruct (drain_tells b m rd b' Hc Ed) as (nd & H1 & H2); [done|lia|]. exists nd. split; [done|].
    intros Hf _ H0. apply H2; [|done|done]. revert Ed. unfold evbuffer_drain. rewrite (proj2 (Z.eqb_neq _ _)), Hf by done.
    destruct (_ && _); [by intros [= <-]|]. destruct (drain_loop _ _ _) as [[[[|c cs] l] rem]|]; try done. cbn [mbind option_bind].
    by destruct (_ <=? _); [intros [= <-]|].
  - simplify_eq. exists 0. split; [by apply tells_nothing|]. intros Hf H0 H1. specialize (Hm Hf H0 H1). lia.
Qed.

Lemma write_tells b wr howmuch r b' :
  calm b → evbuffer_write_atmost b wr howmuch = Some (r, b') → 0 <= total_len b < 2 ^ 64 →
  ∃ nd, tells b 0 nd b'.
Proof.
  intros Hc Hw Ht. unfold evbuffer_write_atmost in Hw.
  destruct (freeze_start b); [simplify_eq; exists 0; by apply tells_nothing|].
  set (h := if _ || _ then _ else _) in Hw. clearbody h.
  destruct (if 0 <? h then _ else _) as [n|]; [|done]. cbn [mbind option_bind] in Hw.
  destruct (Z.ltb_spec 0 n) as [Hn|Hn]; [|simplify_eq; exists 0; by apply tells_nothing].
  destruct (evbuffer_drain b n) as [[rd b1]|] eqn:Ed; [|done]. simplify_eq/=.
  destruct (drain_tells b r rd b' Hc Ed) as (nd & H1 & _); [done|lia|]. by exists nd.
Qed.

(** *** evbuffer_add *)

Lemma add_in_place_tells b b1 i c n r b' :
  cb_view b1 = (callbacks b, false, cb_log b, 0, 0) → 0 <= n < 2 ^ 64 → Some (added_in_place b1 i c n) = Some (r, b') →
  tells b n 0 b'.
Proof.
  intros Hv Hn [= <- <-]. unfold cb_view in Hv. injection Hv as V1 V2 V3 V4 V5. apply finish_tells. unfold cb_view.
  cbn [callbacks deferred_cbs cb_log n_add_for_cb n_del_for_cb count_add with_counts with_chains].
  rewrite V1, V2, V3, V4, V5. by rewrite uint64_id by lia.
Qed.

(** With the bytes that fit into the old chain. *)
Lemma add_new_chain_tells mm b b1 i c remain d r b' :
  cb_view b1 = (callbacks b, false, cb_log b, 0, 0) → deferred_cbs b = false → 0 <= remain < 2 ^ 62 → Zlen d < 2 ^ 62 →
  add_new_chain mm b1 i c remain d = Some (r, b') →
  ∃ na, tells b na 0 b' ∧ (r = 0 → 0 < Zlen d → na ≠ 0).
Proof.
  intros Hv Hd0 Hr Hd. unfold add_new_chain. unfold cb_view in Hv. injection Hv as V1 V2 V3 V4 V5.
  unfold chain_alloc. destruct (evbuffer_chain_new _ _ _) as [tmp|].
  2:{ intros [= <- <-]. exists 0. split; [|done]. split; [done|]. split; [done|].
      exists (λ e, CbCall (cb e) 0 false 0 0 0 0). split; [done|]. by rewrite app_nil_r. }
  set (d2 := drop (Z.to_nat remain) d). intros H.
  assert (∃ b2 m b3, Some b2 = (if remain =? 0 then Some (tick b1) else
        c ← chain_append c (take (Z.to_nat remain) d);
        Some (count_add remain
          (with_chains (<[i := c]> (chains (tick b1))) (lwd (tick b1)) (uint64 (total_len (tick b1) + remain)) (tick b1)))) ∧
      evbuffer_chain_insert b2 m = Some b3 ∧ r = 0 ∧ b' = evbuffer_invoke_callbacks_ (count_add (Zlen d2) b3))
    as (b2 & m & b3 & E2 & E3 & -> & ->).
  { destruct (if remain =? 0 then _ else _) as [b2|]; [|done]. cbn [mbind option_bind] in H.
    destruct (splice (buffer tmp) 0 d2) as [m|]; [|done]. cbn [mbind option_bind] in H.
    destruct (evbuffer_chain_insert b2 _) as [b3|] eqn:E; [|done]. injection H as <- <-. eauto 10. }
  assert (Hlen : Zlen d2 <= Zlen d) by (unfold d2; rewrite length_drop; lia).
  apply insert_view in E3. exists (remain + Zlen d2).
  assert (V' : cb_view b2 = (callbacks b, false, cb_log b, remain, 0)).
  { destruct (Z.eqb_spec remain 0) as [->|Hne].
    - injection E2 as ->. unfold cb_view. cbn. by rewrite V1, V2, V3, V4, V5.
    - destruct (chain_append c _); [|done]. cbn [mbind option_bind] in E2. injection E2 as ->. unfold cb_view.
      cbn [callbacks deferred_cbs cb_log n_add_for_cb n_del_for_cb count_add with_counts with_chains tick].
      rewrite V1, V2, V3, V4, V5. by rewrite uint64_id by lia. }
  rewrite V' in E3. unfold cb_view in E3. injection E3 as W1 W2 W3 W4 W5. split.
  - apply finish_tells. unfold cb_view. cbn [callbacks deferred_cbs cb_log n_add_for_cb n_del_for_cb count_add with_counts].
    rewrite W1, W2, W3, W4, W5. by rewrite uint64_id by lia.
  - intros _ Hpos. unfold d2. rewrite length_drop. lia.
Qed.

Lemma add_at_tells mm b b1 i d r b' :
  cb_view b1 = (callbacks b, false, cb_log b, 0, 0) → deferred_cbs b = false → Zlen d < 2 ^ 62 →
  (∀ c, chains b1 !! i = Some c → chain_wf c) → add_at mm b1 i d = Some (r, b') →
  ∃ na, tells b na 0 b' ∧ (r = 0 → 0 < Zlen d → na ≠ 0).
Proof.
  intros Hv Hd0 Hd Hwf. unfold add_at. destruct (chains b1 !! i) as [c|] eqn:Hc; [|done]. cbn [mbind option_bind].
  destruct (Hwf c eq_refl) as (W1 & W2 & W3 & W4 & _).
  destruct (CHAIN_IMMUTABLE c); [eapply add_new_chain_tells; [done|done|lia|lia]|]. destruct (negb _); [done|].
  assert (Hin : ∀ c', Some (added_in_place b1 i c' (Zlen d)) = Some (r, b') → ∃ na, tells b na 0 b' ∧ (r = 0 → 0 < Zlen d → na ≠ 0)).
  { intros c' H. exists (Zlen d). split; [by eapply add_in_place_tells; [|lia|]|lia]. }
  destruct (Z.leb_spec (Zlen d) (buffer_len c - misalign c - off c)).
  { destruct (chain_append c d); [apply Hin|done]. }
  destruct (_ && _).
  { destruct (evbuffer_chain_align c) as [c1|]; [|done]. cbn [mbind option_bind]. destruct (chain_append c1 d); [apply Hin|done]. }
  eapply add_new_chain_tells; [done|done| |lia]. unfold EVBUFFER_CHAIN_MAX, EVBUFFER_CHAIN_SIZE in *. lia.
Qed.

Lemma add_tells mm b d r b' :
  calm b → wf b → Zlen d < 2 ^ 62 → evbuffer_add mm b d = Some (r, b') →
  ∃ na, tells b na 0 b' ∧ (r = 0 → 0 < Zlen d → na ≠ 0).
Proof.
  intros Hc Hwf Hd. pose proof (calm_view b Hc) as Hv. pose proof Hc as [Hd0 _].
  assert (Hat : ∀ i, add_at mm b i d = Some (r, b') → ∃ na, tells b na 0 b' ∧ (r = 0 → 0 < Zlen d → na ≠ 0)).
  { intros i. apply add_at_tells; [done|done|done|]. intros c Hi. destruct Hwf as (H & _). by apply (Forall_lookup_1 _ _ _ _ H Hi). }
  assert (Hno : cb_view b = cb_view b → ∃ na, tells b na 0 b ∧ (-1 = 0 → 0 < Zlen d → na ≠ 0)) by (exists 0; split; [by apply tells_nothing|done]).
  unfold evbuffer_add. destruct (freeze_end b); [intros [= <- <-]; by apply Hno|].
  destruct (_ <? _); [intros [= <- <-]; by apply Hno|].
  destruct (chains b !! lwd b) eqn:E1; [apply Hat|]. destruct (chains b) as [|c0 cs] eqn:E2; [|apply Hat].
  unfold evbuffer_chain_insert_new, chain_alloc. destruct (evbuffer_chain_new mm (n_alloc b) (Zlen d)) as [c|] eqn:En.
  2:{ intros [= <- <-]. exists 0. split; [by apply tells_nothing|done]. }
  destruct (chain_new_ok mm _ _ c (Nat2Z.is_nonneg _) En) as (Hc1 & _).
  destruct (evbuffer_chain_insert (tick b) c) as [b1|] eqn:Ei; [|done]. cbn [mbind option_bind].
  assert (Hch : chains b1 = [c]).
  { unfold evbuffer_chain_insert in Ei. cbn [tick chains lwd] in Ei. rewrite E2 in Ei. cbn [lookup list_lookup] in Ei.
    case_decide; [|done]. by injection Ei as <-. }
  apply insert_view in Ei. apply add_at_tells; [by rewrite Ei|done|done|].
  intros c' Hc'. rewrite Hch in Hc'. destruct (pred _); [|done]. by injection Hc' as <-.
Qed.
