(* ===== verification/Timeval.v ===== *)
(** * Points in time and durations

    Models the timeval macros of libevent/include/event2/util.h.  The fields are 64-bit integers of
    the C library; sums of clock readings and timeouts are taken to stay below 2^63. *)

From S2P Require Import Prelude.

(** struct timeval *)
Record timeval := Timeval { tv_sec : Z; tv_usec : Z }.

#[export] Instance timeval_eq_dec : EqDecision timeval.
Proof. solve_decision. Defined.

Definition evutil_timerclear : timeval := Timeval 0 0.

Definition evutil_timerisset (tv : timeval) : bool :=
  negb (tv_sec tv =? 0) || negb (tv_usec tv =? 0).

Definition evutil_timeradd (t u : timeval) : timeval :=
  let s := tv_sec t + tv_sec u in
  let us := tv_usec t + tv_usec u in
  if 1000000 <=? us then Timeval (s + 1) (us - 1000000) else Timeval s us.

Definition evutil_timersub (t u : timeval) : timeval :=
  let s := tv_sec t - tv_sec u in
  let us := tv_usec t - tv_usec u in
  if us <? 0 then Timeval (s - 1) (us + 1000000) else Timeval s us.

(** [evutil_timercmp(t, u, cmp)] *)
Definition evutil_timercmp (cmp : Z → Z → bool) (t u : timeval) : bool :=
  if tv_sec t =? tv_sec u then cmp (tv_usec t) (tv_usec u) else cmp (tv_sec t) (tv_sec u).

(** ** The order of points in time *)

Definition tv_le (t u : timeval) : Prop := evutil_timercmp Z.leb t u = true.
Definition tv_lt (t u : timeval) : Prop := evutil_timercmp Z.ltb t u = true.

#[export] Instance tv_le_dec t u : Decision (tv_le t u).
Proof. unfold tv_le. apply _. Defined.
#[export] Instance tv_lt_dec t u : Decision (tv_lt t u).
Proof. unfold tv_lt. apply _. Defined.

(** A valid timeval: fewer than a million microseconds. *)
Definition tv_normal (t : timeval) : Prop := 0 <= tv_usec t < 1000000.

(** The value in microseconds. *)
Definition tv_micros (t : timeval) : Z := tv_sec t * 1000000 + tv_usec t.

(** Turns comparisons of timevals into comparisons of integers. *)
Ltac tvlia :=
  unfold tv_le, tv_lt, tv_normal, tv_micros, evutil_timercmp, evutil_timeradd, evutil_timersub,
    evutil_timerisset, evutil_timerclear in *;
  repeat match goal with
    | H : context [if ?a =? ?b then _ else _] |- _ => destruct (Z.eqb_spec a b)
    | |- context [if ?a =? ?b then _ else _] => destruct (Z.eqb_spec a b)
    | H : context [if ?a <=? ?b then _ else _] |- _ => destruct (Z.leb_spec a b)
    | |- context [if ?a <=? ?b then _ else _] => destruct (Z.leb_spec a b)
    | H : context [if ?a <? ?b then _ else _] |- _ => destruct (Z.ltb_spec a b)
    | |- context [if ?a <? ?b then _ else _] => destruct (Z.ltb_spec a b)
    end; cbn [tv_sec tv_usec] in *; try lia.

#[export] Instance tv_le_po : PreOrder tv_le.
Proof. split; [intros ?|intros ???]; tvlia. Qed.
#[export] Instance tv_le_antisymm : AntiSymm (=) tv_le.
Proof. intros [] []; unfold tv_le, evutil_timercmp; simpl; intros; f_equal; tvlia. Qed.
#[export] Instance tv_le_total : Total tv_le.
Proof. intros t u. destruct (decide (tv_le t u)); [by left|right]. tvlia. Qed.

Lemma tv_lt_nge t u : tv_lt t u ↔ ¬ tv_le u t.
Proof. split; tvlia. Qed.
Lemma tv_lt_le t u : tv_lt t u → tv_le t u.
Proof. tvlia. Qed.
Lemma tv_nle_le t u : ¬ tv_le t u → tv_le u t.
Proof. tvlia. Qed.

(** [evutil_timercmp(t, u, >)] *)
Lemma timercmp_gt_spec t u : reflect (tv_lt u t) (evutil_timercmp Z.gtb t u).
Proof.
  apply iff_reflect. unfold tv_lt, evutil_timercmp. rewrite (Z.eqb_sym (tv_sec u)).
  destruct (_ =? _); by rewrite Z.gtb_ltb.
Qed.

Lemma timercmp_gt_false t u : evutil_timercmp Z.gtb t u = false ↔ tv_le t u.
Proof.
  destruct (timercmp_gt_spec t u) as [H|H]; rewrite tv_lt_nge in H; split; try done.
  intros _. by apply dec_stable.
Qed.

(** On valid timevals the order is that of the microseconds, and the sums and differences of
    util.h are those of the microseconds. *)
Lemma tv_le_micros t u : tv_normal t → tv_normal u → tv_le t u ↔ tv_micros t <= tv_micros u.
Proof. intros. split; tvlia. Qed.

Lemma timeradd_micros t u : tv_micros (evutil_timeradd t u) = tv_micros t + tv_micros u.
Proof. tvlia. Qed.
Lemma timeradd_normal t u : tv_normal t → tv_normal u → tv_normal (evutil_timeradd t u).
Proof. tvlia. Qed.
Lemma timersub_micros t u : tv_micros (evutil_timersub t u) = tv_micros t - tv_micros u.
Proof. tvlia. Qed.
Lemma timersub_normal t u : tv_normal t → tv_normal u → tv_normal (evutil_timersub t u).
Proof. tvlia. Qed.
