(* ===== verification/Text.v ===== *)
(** * Characters and numerals

    What libevent's utilities use of the C library: conversions between numbers and text, searching a
    string; and the tables that evutil.c has in place of ctype.h.  A string is the list of its
    characters without the terminating 0. *)

From S2P Require Import Prelude.

(** ** The tables of evutil.c *)

Definition EVUTIL_ISALPHA_TABLE : list Z := [0; 0; 0x7fffffe; 0x7fffffe; 0; 0; 0; 0].
Definition EVUTIL_ISALNUM_TABLE : list Z := [0; 0x3ff0000; 0x7fffffe; 0x7fffffe; 0; 0; 0; 0].
Definition EVUTIL_ISSPACE_TABLE : list Z := [0x3e00; 0x1; 0; 0; 0; 0; 0; 0].
Definition EVUTIL_ISXDIGIT_TABLE : list Z := [0; 0x3ff0000; 0x7e; 0x7e; 0; 0; 0; 0].
Definition EVUTIL_ISDIGIT_TABLE : list Z := [0; 0x3ff0000; 0; 0; 0; 0; 0; 0].
Definition EVUTIL_ISPRINT_TABLE : list Z := [0; 0xffffffff; 0xffffffff; 0x7fffffff; 0; 0; 0; 0x0].
Definition EVUTIL_ISUPPER_TABLE : list Z := [0; 0; 0x7fffffe; 0; 0; 0; 0; 0].
Definition EVUTIL_ISLOWER_TABLE : list Z := [0; 0; 0; 0x7fffffe; 0; 0; 0; 0].

(** The body of IMPL_CTYPE_FN. *)
Definition in_table (t : list Z) (c : byte) : bool :=
  let u := Z_of_byte c in
  negb (Z.land (nth (Z.to_nat (Z.land (Z.shiftr u 5) 7)) t 0) (Z.shiftl 1 (Z.land u 31)) =? 0).

Definition EVUTIL_ISALPHA_ : byte → bool := in_table EVUTIL_ISALPHA_TABLE.
Definition EVUTIL_ISALNUM_ : byte → bool := in_table EVUTIL_ISALNUM_TABLE.
Definition EVUTIL_ISSPACE_ : byte → bool := in_table EVUTIL_ISSPACE_TABLE.
Definition EVUTIL_ISDIGIT_ : byte → bool := in_table EVUTIL_ISDIGIT_TABLE.
Definition EVUTIL_ISXDIGIT_ : byte → bool := in_table EVUTIL_ISXDIGIT_TABLE.
Definition EVUTIL_ISPRINT_ : byte → bool := in_table EVUTIL_ISPRINT_TABLE.
Definition EVUTIL_ISLOWER_ : byte → bool := in_table EVUTIL_ISLOWER_TABLE.
Definition EVUTIL_ISUPPER_ : byte → bool := in_table EVUTIL_ISUPPER_TABLE.

(** The tables for upper and lower case: the letters are moved, everything else stands for itself. *)
Definition case_table (first : Z) (by_ : Z) : list Z :=
  seqZ 0 first ++ seqZ (first + by_) 26 ++ seqZ (first + 26) (256 - first - 26).
Definition EVUTIL_TOUPPER_TABLE : list Z := case_table 97 (-32).
Definition EVUTIL_TOLOWER_TABLE : list Z := case_table 65 32.
Definition EVUTIL_TOLOWER_ (c : byte) : byte := byte_of_Z (nth (Z.to_nat (Z_of_byte c)) EVUTIL_TOLOWER_TABLE 0).
Definition EVUTIL_TOUPPER_ (c : byte) : byte := byte_of_Z (nth (Z.to_nat (Z_of_byte c)) EVUTIL_TOUPPER_TABLE 0).

(** ** The C library *)

Definition COLON : byte := Byte.x3a.
Definition DOT : byte := Byte.x2e.
Definition LBRACKET : byte := Byte.x5b.
Definition RBRACKET : byte := Byte.x5d.

(** A char, which is signed. *)
Definition char_val (c : byte) : Z := swrap 8 (Z_of_byte c).

Definition isspace (c : byte) : bool := let u := Z_of_byte c in (9 <=? u) && (u <=? 13) || (u =? 32).

Definition strchr (c : byte) (s : list byte) : option nat := fst <$> list_find (c =.) s.

(** The value of a digit. *)
Definition digit_val (base : Z) (c : byte) : option Z :=
  let u := Z_of_byte c in
  let d := if (48 <=? u) && (u <=? 57) then u - 48
    else if (97 <=? u) && (u <=? 122) then u - 87
    else if (65 <=? u) && (u <=? 90) then u - 55
    else base in
  if d <? base then Some d else None.

(** The number that the digits at the start of [s] denote after those before them, and the rest. *)
Fixpoint scan_digits (base : Z) (s : list byte) (before : Z) : Z * list byte :=
  match s with
  | c :: s' =>
      match digit_val base c with
      | Some d => scan_digits base s' (before * base + d)
      | None => (before, s)
      end
  | [] => (before, [])
  end.

Fixpoint skip_space (s : list byte) : list byte :=
  match s with c :: s' => if isspace c then skip_space s' else s | [] => [] end.

(** A number with a sign, and the rest; [None] if there is no digit. *)
Definition scan_number (base : Z) (s : list byte) : option (Z * list byte) :=
  let s := skip_space s in
  let '(neg, s) := match s with
    | Byte.x2d :: s' => (true, s')
    | Byte.x2b :: s' => (false, s')
    | _ => (false, s)
    end in
  let s := match s with
    | Byte.x30 :: x :: c :: s' =>
        if (base =? 16) && ((Z_of_byte x =? 120) || (Z_of_byte x =? 88)) && bool_decide (is_Some (digit_val base c))
        then c :: s' else s
    | _ => s
    end in
  match s with
  | c :: _ =>
      if decide (is_Some (digit_val base c)) then
        let '(v, rest) := scan_digits base s 0 in Some (if neg : bool then - v else v, rest)
      else None
  | [] => None
  end.

Definition LONG_MAX : Z := 9223372036854775807.

Definition strtol (base : Z) (s : list byte) : Z * list byte :=
  match scan_number base s with
  | Some (v, rest) => (Z.max (- LONG_MAX - 1) (Z.min LONG_MAX v), rest)
  | None => (0, s)
  end.

(** Undefined if the number is not an int. *)
Definition atoi (s : list byte) : option Z := int_chk (from_option fst 0 (scan_number 10 s)).

(** %u of sscanf: no match is [Some None]; undefined if the number is not an unsigned int. *)
Definition scan_u (s : list byte) : option (option (Z * list byte)) :=
  match scan_number 10 s with
  | None => Some None
  | Some (v, rest) => if (0 <=? v) && (v <? 2 ^ 32) then Some (Some (v, rest)) else None
  end.

(** %d, %u and %x of printf. *)
Definition digit_char (d : Z) : byte := byte_of_Z (if d <? 10 then 48 + d else 87 + d).
Fixpoint print_digits (fuel : nat) (base z : Z) : list byte :=
  match fuel with
  | O => []
  | S fuel => (if z <? base then [] else print_digits fuel base (z / base)) ++ [digit_char (z mod base)]
  end.
Definition print_number (base z : Z) : list byte := print_digits 64 base z.

(** What evutil_snprintf leaves of the text in [room] bytes. *)
Definition printed (room : Z) (s : list byte) : list byte := take (Z.to_nat (room - 1)) s.
Definition strlcpy (s : list byte) (room : Z) : list byte := take (Z.to_nat (room - 1)) s.

(** ** Lemmas *)

(** What the characters of numerals are and are not. *)
Definition digit_checked (d : Z) : bool :=
  let c := digit_char d in
  EVUTIL_ISXDIGIT_ c && Bool.eqb (EVUTIL_ISDIGIT_ c) (d <? 10) && negb (isspace c) &&
  bool_decide (c ∉ [COLON; DOT; LBRACKET; RBRACKET; x00; Byte.x2d; Byte.x2b; Byte.x78; Byte.x58]) &&
  bool_decide (digit_val 16 c = Some d) && (negb (d <? 10) || bool_decide (digit_val 10 c = Some d)).
Lemma digits_checked d : 0 <= d < 16 → digit_checked d = true.
Proof.
  intros Hd. assert (H : forallb digit_checked (seqZ 0 16) = true) by by vm_compute.
  rewrite forallb_forall in H. apply H, list_elem_of_In, elem_of_seqZ. lia.
Qed.

Definition is_digit (base : Z) (c : byte) : Prop := ∃ d, 0 <= d < base ∧ c = digit_char d.

Record digit_facts (c : byte) (d : Z) : Prop := {
  df_hex : EVUTIL_ISXDIGIT_ c = true;
  df_dec : EVUTIL_ISDIGIT_ c = (d <? 10);
  df_space : isspace c = false;
  df_not : c ∉ [COLON; DOT; LBRACKET; RBRACKET; x00; Byte.x2d; Byte.x2b; Byte.x78; Byte.x58];
  df_16 : digit_val 16 c = Some d;
  df_10 : d < 10 → digit_val 10 c = Some d
}.
Lemma digit_char_facts d : 0 <= d < 16 → digit_facts (digit_char d) d.
Proof.
  intros Hd. pose proof (digits_checked d Hd) as H. unfold digit_checked in H.
  apply andb_true_iff in H as [[[[[H1 H2%eqb_prop]%andb_true_iff H3%negb_true_iff]%andb_true_iff H4%bool_decide_eq_true]%andb_true_iff
    H5%bool_decide_eq_true]%andb_true_iff H6]. split; try done.
  intros H. rewrite (proj2 (Z.ltb_lt _ _) H) in H6. by apply bool_decide_eq_true in H6.
Qed.
Lemma digit_char_val base d : base = 10 ∨ base = 16 → 0 <= d < base → digit_val base (digit_char d) = Some d.
Proof. intros [-> | ->] Hd; [apply (df_10 _ _ (digit_char_facts d ltac:(lia))); lia|by apply df_16, digit_char_facts]. Qed.

Lemma print_digits_ne fuel base z : (0 < fuel)%nat → print_digits fuel base z ≠ [].
Proof. destruct fuel as [|fuel]; [lia|]. intros _. cbn. by destruct (if z <? base then _ else _). Qed.

Lemma print_digits_all fuel base z :
  base = 10 ∨ base = 16 → Forall (is_digit base) (print_digits fuel base z).
Proof.
  intros Hb. revert z. induction fuel as [|fuel IH]; intros z; cbn [print_digits]; [done|]. apply Forall_app. split.
  - by destruct (z <? base).
  - apply Forall_singleton. exists (z mod base). split; [apply Z.mod_pos_bound; lia|done].
Qed.

Lemma print_digits_length fuel base z n :
  2 <= base → 0 <= z < base ^ Z.of_nat n → (0 < n)%nat → (length (print_digits fuel base z) <= n)%nat.
Proof.
  intros Hb. revert z n. induction fuel as [|fuel IH]; intros z n Hz Hn; cbn [print_digits]; [cbn; lia|].
  rewrite length_app. cbn [length]. destruct (Z.ltb_spec z base) as [Hlt|Hge]; [cbn; lia|].
  destruct n as [|n]; [lia|]. destruct n as [|n].
  { change (Z.of_nat 1) with 1 in Hz. rewrite Z.pow_1_r in Hz. lia. }
  rewrite Nat2Z.inj_succ, Z.pow_succ_r in Hz by lia.
  specialize (IH (z / base) (S n)). pose proof (Z.div_lt_upper_bound z base (base ^ Z.of_nat (S n)) ltac:(lia) ltac:(lia)).
  pose proof (Z.div_pos z base ltac:(lia) ltac:(lia)). lia.
Qed.

Lemma scan_print fuel base z rest before :
  base = 10 ∨ base = 16 → 0 <= z < base ^ Z.of_nat fuel → (0 < fuel)%nat →
  scan_digits base (print_digits fuel base z ++ rest) before =
  scan_digits base rest (before * base ^ Zlen (print_digits fuel base z) + z).
Proof.
  intros Hb. revert z rest. induction fuel as [|fuel IH]; intros z rest Hz Hf; [lia|]. cbn [print_digits].
  assert (Hmod : 0 <= z mod base < base) by (apply Z.mod_pos_bound; lia).
  destruct (Z.ltb_spec z base) as [Hlt|Hge].
  - rewrite app_nil_l. cbn [app scan_digits length]. rewrite digit_char_val by done. change (Z.of_nat 1) with 1. rewrite Z.pow_1_r.
    by rewrite Z.mod_small by lia.
  - rewrite <- (assoc_L (++)). rewrite Nat2Z.inj_succ, Z.pow_succ_r in Hz by lia.
    pose proof (Z.div_lt_upper_bound z base (base ^ Z.of_nat fuel) ltac:(lia) ltac:(lia)).
    pose proof (Z.div_pos z base ltac:(lia) ltac:(lia)) as Hpos.
    assert (0 < z / base) by (apply Z.div_str_pos; lia).
    rewrite IH; [|lia|destruct fuel; [change (base ^ Z.of_nat 0) with 1 in *; lia|lia]].
    cbn [app scan_digits]. rewrite digit_char_val by done. f_equal. rewrite length_app. cbn [length]. rewrite Nat2Z.inj_add, Z.pow_add_r by lia.
    change (Z.of_nat 1) with 1. rewrite Z.pow_1_r. pose proof (Z.div_mod z base ltac:(lia)). nia.
Qed.

(** What may follow a numeral. *)
Definition stops (rest : list byte) : Prop := match rest with [] => True | c :: _ => c = COLON ∨ c = DOT end.

Lemma scan_stops base rest v : base = 10 ∨ base = 16 → stops rest → scan_digits base rest v = (v, rest).
Proof. intros Hb Hs. destruct rest as [|c rest]; [done|]. destruct Hs as [-> | ->], Hb as [-> | ->]; done. Qed.

Lemma print_number_range base z : base = 10 ∨ base = 16 → 0 <= z < 2 ^ 64 → 0 <= z < base ^ Z.of_nat 64.
Proof. intros [-> | ->] Hz; (split; [lia|]); (eapply Z.lt_trans; [apply Hz|]); by vm_compute. Qed.

(** The numeral of a number is read as that number. *)
Lemma scan_number_print base z rest :
  base = 10 ∨ base = 16 → 0 <= z < 2 ^ 64 → stops rest →
  scan_number base (print_number base z ++ rest) = Some (z, rest).
Proof.
  intros Hb Hz Hs. pose proof (print_number_range base z Hb Hz) as Hr.
  pose proof (print_digits_all 64 base z Hb) as Hall. pose proof (print_digits_ne 64 base z ltac:(lia)) as Hne.
  pose proof (scan_print 64 base z rest 0 Hb Hr ltac:(lia)) as Hscan. rewrite (scan_stops base rest) in Hscan by done.
  unfold print_number. destruct (print_digits 64 base z) as [|c l]; [done|]. clear Hne.
  apply Forall_cons in Hall as [(d & Hd & ->) Hall]. pose proof (digit_char_facts d ltac:(lia)) as [_ _ F1 F2 _ _].
  cbn [app] in *. unfold scan_number. cbn [skip_space]. rewrite F1.
  assert (Hsign : match digit_char d :: l ++ rest with
    | Byte.x2d :: s' => (true, s') | Byte.x2b :: s' => (false, s') | _ => (false, digit_char d :: l ++ rest) end = (false, digit_char d :: l ++ rest)).
  { destruct (digit_char d); try done; exfalso; apply F2; clear; set_solver. }
  rewrite Hsign. cbv iota beta.
  assert (Hx : match digit_char d :: l ++ rest with
    | Byte.x30 :: x :: c :: s' => if (base =? 16) && ((Z_of_byte x =? 120) || (Z_of_byte x =? 88)) && bool_decide (is_Some (digit_val base c))
        then c :: s' else digit_char d :: l ++ rest
    | _ => digit_char d :: l ++ rest end = digit_char d :: l ++ rest).
  { assert (Hnx : ∀ x s', l ++ rest = x :: s' → (Z_of_byte x =? 120) || (Z_of_byte x =? 88) = false).
    { intros x s' E. destruct l as [|y l]; cbn in E.
      - subst rest. destruct Hs as [-> | ->]; done.
      - injection E as -> _. apply Forall_cons in Hall as [(d' & Hd' & ->) _]. pose proof (digit_char_facts d' ltac:(lia)) as [_ _ _ F _ _].
        apply orb_false_iff. split; apply Z.eqb_neq; intros Hz'; apply F.
        + change 120 with (Z_of_byte Byte.x78) in Hz'. apply Z_of_byte_inj in Hz' as ->. clear; set_solver.
        + change 88 with (Z_of_byte Byte.x58) in Hz'. apply Z_of_byte_inj in Hz' as ->. clear; set_solver. }
    destruct (digit_char d); try done. destruct (l ++ rest) as [|x [|c s']]; try done. by rewrite (Hnx x _ eq_refl), andb_false_r. }
  rewrite Hx, decide_True by (rewrite digit_char_val by done; eauto). by rewrite Hscan.
Qed.

Lemma strtol_print base z rest :
  base = 10 ∨ base = 16 → 0 <= z <= LONG_MAX → stops rest → strtol base (print_number base z ++ rest) = (z, rest).
Proof.
  intros Hb Hz Hs. unfold strtol. rewrite scan_number_print; [|done|unfold LONG_MAX in *; lia|done].
  f_equal. unfold LONG_MAX in *. lia.
Qed.
Lemma scan_u_print z rest : 0 <= z < 2 ^ 32 → stops rest → scan_u (print_number 10 z ++ rest) = Some (Some (z, rest)).
Proof.
  intros Hz Hs. unfold scan_u. rewrite scan_number_print by (auto || lia).
  by rewrite (proj2 (Z.leb_le _ _)), (proj2 (Z.ltb_lt _ _)) by lia.
Qed.
Lemma atoi_print z : 0 <= z <= INT_MAX → atoi (print_number 10 z) = Some z.
Proof.
  intros Hz. unfold atoi. rewrite <- (app_nil_r (print_number 10 z)), scan_number_print; [|auto|unfold INT_MAX in *; lia|done].
  cbn. apply int_chk_Some. unfold INT_MIN, INT_MAX in *. lia.
Qed.

(** ** Searching *)

Lemma strchr_None c s : c ∉ s → strchr c s = None.
Proof.
  intros H. unfold strchr. destruct (list_find (c =.) s) as [[i x]|] eqn:E; [|done].
  apply list_find_Some in E as (E & -> & _). destruct H. by eapply list_elem_of_lookup_2.
Qed.
Lemma strchr_app c s rest : c ∉ s → strchr c (s ++ c :: rest) = Some (length s).
Proof.
  intros H. unfold strchr. rewrite list_find_app_r.
  2: { apply list_find_None, Forall_forall. by intros x Hx <-. }
  cbn. by rewrite decide_True by done.
Qed.
Lemma strchr_lookup c s i : strchr c s = Some i → s !! i = Some c ∧ c ∉ take i s.
Proof.
  unfold strchr. destruct (list_find (c =.) s) as [[j x]|] eqn:E; [|done]. intros [= ->].
  apply list_find_Some in E as (E & -> & Hlt). split; [done|].
  intros (j & Hj)%list_elem_of_lookup_1. apply lookup_take_Some in Hj as [Hj ?]. by eapply Hlt.
Qed.
