(* ===== verification/Evutil.v ===== *)
(** * Addresses and text

    Models the parts of libevent/evutil.c that do not wrap system calls: addresses to and from text,
    comparison of addresses and of strings, the weak random generator.  An in_addr or in6_addr is the
    list of its bytes in network order. *)

From S2P Require Import Prelude Text.

Definition AF_INET : Z := 2.
Definition AF_INET6 : Z := 10.

(** ** Addresses to text *)

(** ntohl and htonl on the bytes of a 32-bit number. *)
Definition ntohl (b : list byte) : Z := le_val (reverse b).
Definition htonl (a : Z) : list byte := reverse (le_bytes 4 a).

(** "%d.%d.%d.%d" *)
Definition dotted (a b c d : Z) : list byte :=
  print_number 10 a ++ DOT :: print_number 10 b ++ DOT :: print_number 10 c ++ DOT :: print_number 10 d.

(** The words of an IPv6 address. *)
Fixpoint words_of (a : list byte) : list Z :=
  match a with
  | hi :: lo :: a => Z.shiftl (Z_of_byte hi) 8 + Z_of_byte lo :: words_of a
  | _ => []
  end.

(** Is the address an IPv4 address as IPv6 writes it? *)
Definition is_ipv4 (ws : list Z) : bool :=
  let w (i : nat) := nth i ws 0 in
  (w 0%nat =? 0) && (w 1%nat =? 0) && (w 2%nat =? 0) && (w 3%nat =? 0) && (w 4%nat =? 0) &&
  ((w 5%nat =? 0) && negb (w 6%nat =? 0) && negb (w 7%nat =? 0) || (w 5%nat =? 0xffff)).

(** How many zeros start the list. *)
Fixpoint zero_run (ws : list Z) : nat :=
  match ws with w :: ws' => if w =? 0 then S (zero_run ws') else O | [] => O end.

(** The longest run of zeros, the first of them: position and length.  [fuel]: the number of words. *)
Fixpoint gap_loop (fuel : nat) (ws : list Z) (i : Z) (longestGapPos longestGapLen : Z) : Z * Z :=
  match fuel with
  | O => (longestGapPos, longestGapLen)
  | S fuel =>
      match ws with
      | [] => (longestGapPos, longestGapLen)
      | w :: ws' =>
          if w =? 0 then
            let n := zero_run ws in
            let curGapLen := Z.of_nat n in
            let rest := gap_loop fuel (drop n ws) (i + curGapLen) in
            if longestGapLen <? curGapLen then rest i curGapLen else rest longestGapPos longestGapLen
          else gap_loop fuel ws' (i + 1) longestGapPos longestGapLen
      end
  end.

(** buf has 64 bytes; [None] is an access outside of it. *)
Definition put_char (c : byte) (buf : list byte) : option (list byte) :=
  if Zlen buf <? 64 then Some (buf ++ [c]) else None.

Fixpoint print_words (fuel : nat) (ws : list Z) (i longestGapPos : Z) (buf : list byte) : option (list byte) :=
  match fuel with
  | O => Some buf
  | S fuel =>
      match ws with
      | [] => Some buf
      | w :: ws' =>
          if (w =? 0) && (longestGapPos =? i) then
            buf ← (if i =? 0 then put_char COLON buf else Some buf);
            buf ← put_char COLON buf;
            let n := zero_run ws in
            print_words fuel (drop n ws) (i + Z.of_nat n) longestGapPos buf
          else
            let buf := buf ++ printed (64 - Zlen buf) (print_number 16 w) in
            buf ← (if negb (i =? 7) then put_char COLON buf else Some buf);
            print_words fuel ws' (i + 1) longestGapPos buf
      end
  end.

(** [Some None] is NULL. *)
Definition evutil_inet_ntop (af : Z) (src : list byte) (len : Z) : option (option (list byte)) :=
  if af =? AF_INET then
    let a := ntohl src in
    let s := dotted (Z.land (Z.shiftr a 24) 0xff) (Z.land (Z.shiftr a 16) 0xff) (Z.land (Z.shiftr a 8) 0xff) (Z.land a 0xff) in
    Some (if len <=? Zlen s then None else Some (printed len s))
  else if af =? AF_INET6 then
    let ws := words_of src in
    let b (i : nat) := Z_of_byte (nth i src x00) in
    buf ← (if is_ipv4 ws then
        let v4 := dotted (b 12%nat) (b 13%nat) (b 14%nat) (b 15%nat) in
        Some (if nth 5 ws 0 =? 0 then printed 64 (COLON :: COLON :: v4)
              else printed 64 (COLON :: COLON :: print_number 16 (nth 5 ws 0) ++ COLON :: v4))
      else
        let '(pos, n) := gap_loop 8 ws 0 (-1) 0 in
        let pos := if n <=? 1 then -1 else pos in
        buf ← print_words 8 ws 0 pos [];
        if Zlen buf <? 64 then Some buf else None);
    Some (if len <? Zlen buf then None else Some (strlcpy buf len))
  else Some None.

(** ** Text to addresses *)

(** sscanf(s, "%u.%u.%u.%u%c") == 4: the numbers. *)
Definition scan_dot (r : option (option (Z * list byte))) : option (option (Z * list byte)) :=
  r ← r;
  Some (match r with
        | Some (v, c :: rest) => if decide (c = DOT) then Some (v, rest) else None
        | _ => None
        end).
Definition scan_quad (s : list byte) : option (option (Z * Z * Z * Z)) :=
  r ← scan_dot (scan_u s);
  match r with
  | None => Some None
  | Some (a, s) =>
      r ← scan_dot (scan_u s);
      match r with
      | None => Some None
      | Some (b, s) =>
          r ← scan_dot (scan_u s);
          match r with
          | None => Some None
          | Some (c, s) =>
              r ← scan_u s;
              Some (match r with Some (d, []) => Some (a, b, c, d) | _ => None end)
          end
      end
  end.

(** Where the words end if there is a '.' after [before]: behind the digits before it are none. *)
Fixpoint drop_digits (l : list byte) : list byte :=
  match l with c :: l' => if EVUTIL_ISDIGIT_ c then drop_digits l' else l | [] => [] end.
Definition end_of_words (before : list byte) : nat := length (drop_digits (reverse before)).

(** The words of the address, [None] where nothing has been stored; gapPos; setWords. *)
Record pton_state := Pton { words : list (option Z); pos : nat; gapPos : option nat; setWords : Z }.

(** Undefined outside of the array. *)
Definition store_word (v : Z) (st : pton_state) : option pton_state :=
  if (pos st <? length (words st))%nat
  then Some (Pton (<[pos st := Some (v mod 2 ^ 16)]> (words st)) (S (pos st)) (gapPos st) (setWords st + 1)) else None.
Definition set_gap (st : pton_state) : pton_state := Pton (words st) (pos st) (Some (pos st)) (setWords st).

(** [e]: what is left of the string at the end of the words.  [Some (Some st)] is the end of the loop,
    [Some None] "return 0".  [fuel]: one more than the characters. *)
Fixpoint words_loop (fuel : nat) (src : list byte) (e : nat) (st : pton_state) : option (option pton_state) :=
  match fuel with
  | O => None
  | S fuel =>
      if (length src <=? e)%nat then Some (Some st)
      else if (7 <? pos st)%nat then Some None
      else
        match src with
        | [] => Some None
        | c :: rest =>
            if EVUTIL_ISXDIGIT_ c then
              let '(r, next) := strtol 16 src in
              if (4 <? length src - length next)%nat then Some None
              else if (length src =? length next)%nat then Some None
              else if (r <? 0) || (65536 <? r) then Some None
              else
                st ← store_word r st;
                if negb (bool_decide (head next = Some COLON)) && negb (length next =? e)%nat then Some None
                else words_loop fuel (tail next) e st
            else if bool_decide (c = COLON) && (0 <? pos st)%nat && bool_decide (gapPos st = None) then
              words_loop fuel rest e (set_gap st)
            else if bool_decide (c = COLON) && (pos st =? 0)%nat && bool_decide (head rest = Some COLON) && bool_decide (gapPos st = None) then
              words_loop fuel (tail rest) e (set_gap st)
            else Some None
        end
  end.

(** memmove and memset for the gap: [None] for words outside of the array. *)
Definition fill_gap (ws : list (option Z)) (gap nToMove gapLen : nat) : option (list (option Z)) :=
  moved ← slice ws (Z.of_nat gap) (Z.of_nat nToMove);
  ws ← splice ws (Z.of_nat (gap + gapLen)) moved;
  splice ws (Z.of_nat gap) (replicate gapLen (Some 0)).

Definition bytes_of_words (ws : list Z) : list byte :=
  mjoin ((λ w, [byte_of_Z (Z.shiftr w 8); byte_of_Z (Z.land w 0xff)]) <$> ws).

(** The end of evutil_inet_pton for IPv6; [quad]: did the text end with an IPv4 address? *)
Definition pton_end (quad : bool) (st : pton_state) : option (Z * list byte) :=
  if (8 <? setWords st) || (setWords st =? 8) && negb (bool_decide (gapPos st = None)) ||
     (setWords st <? 8) && bool_decide (gapPos st = None) then Some (0, [])
  else
    ws ← (match gapPos st with
      | None => Some (Some (words st))
      | Some gap =>
          let nToMove := setWords st - (if quad then 2 else 0) - Z.of_nat gap in
          if nToMove <? 0 then Some None
          else Some <$> fill_gap (words st) gap (Z.to_nat nToMove) (Z.to_nat (8 - setWords st))
      end);
    match ws with
    | None => Some (-1, [])
    | Some ws => ws ← mapM id ws; Some (1, bytes_of_words ws)
    end.

Definition no_words : list (option Z) := replicate 8 None.

Definition inet_pton6 (src : list byte) : option (Z * list byte) :=
  let loop (e : nat) (st : pton_state) (quad : bool) :=
    r ← words_loop (S (length src)) src e st;
    match r with
    | None => Some (0, [])
    | Some st => pton_end quad st
    end in
  match strchr DOT src with
  | Some O => Some (0, [])
  | None => loop 0%nat (Pton no_words 0 None 0) false
  | Some dot =>
      let eow := drop (end_of_words (take dot src)) src in
      r ← scan_quad eow;
      match r with
      | Some (byte1, byte2, byte3, byte4) =>
          if (255 <? byte1) || (255 <? byte2) || (255 <? byte3) || (255 <? byte4) then Some (0, [])
          else
            let ws := <[7%nat := Some (Z.lor (Z.shiftl byte3 8) byte4)]>
                      (<[6%nat := Some (Z.lor (Z.shiftl byte1 8) byte2)]> no_words) in
            loop (length eow) (Pton ws 0 None 2) true
      | None => Some (0, [])
      end
  end.

(** The result, and dst when it is 1. *)
Definition evutil_inet_pton (af : Z) (src : list byte) : option (Z * list byte) :=
  if af =? AF_INET then
    r ← scan_quad src;
    Some (match r with
      | Some (a, b, c, d) =>
          if (255 <? a) || (255 <? b) || (255 <? c) || (255 <? d) then (0, [])
          else (1, htonl (Z.lor (Z.lor (Z.lor (Z.shiftl a 24) (Z.shiftl b 16)) (Z.shiftl c 8)) d))
      | None => (0, [])
      end)
  else if af =? AF_INET6 then inet_pton6 src
  else Some (-1, []).

(** ** Socket addresses *)

(** The family of [sa_other] is neither of the other two; the numbers are in host order. *)
Inductive sockaddr :=
  | sockaddr_in (sin_port : Z) (sin_addr : list byte)
  | sockaddr_in6 (sin6_port sin6_flowinfo : Z) (sin6_addr : list byte) (sin6_scope_id : Z)
  | sa_other (sa_family : Z).

Definition sa_family (sa : sockaddr) : Z :=
  match sa with sockaddr_in _ _ => AF_INET | sockaddr_in6 _ _ _ _ => AF_INET6 | sa_other f => f end.

(** The text of the address and the text of the port, if there is one; -1 is [None]. *)
Definition addr_and_port (s : list byte) : option (bool * list byte * option (list byte)) :=
  match s with
  | c :: s' =>
      if decide (c = LBRACKET) then
        match strchr RBRACKET s with
        | None => None
        | Some cp =>
            let len := (cp - 1)%nat in
            if 127 <? Z.of_nat len then None
            else Some (true, take len s', match drop (S cp) s with
              | c :: port => if decide (c = COLON) then Some port else None
              | [] => None
              end)
        end
      else
        match strchr COLON s with
        | None => Some (false, s, None)
        | Some cp =>
            if bool_decide (is_Some (strchr COLON (drop (S cp) s))) then Some (true, s, None)
            else if 127 <? Z.of_nat cp then None
            else Some (false, take cp s, Some (drop (S cp) s))
        end
  | [] => Some (false, s, None)
  end.

(** The result, what is written to [out] if it is 0, and *outlen. *)
Definition evutil_parse_sockaddr_port (s : list byte) (outlen : Z) : option (Z * option sockaddr * Z) :=
  match addr_and_port s with
  | None => Some (-1, None, outlen)
  | Some (is_ipv6, addr_part, port_part) =>
      port ← match port_part with
        | None => Some (Some 0)
        | Some p => n ← atoi p; Some (if (n <=? 0) || (65535 <? n) then None else Some n)
        end;
      match port with
      | None => Some (-1, None, outlen)
      | Some port =>
          '(r, addr) ← evutil_inet_pton (if is_ipv6 : bool then AF_INET6 else AF_INET) addr_part;
          let size := if is_ipv6 : bool then 28 else 16 in
          if negb (r =? 1) then Some (-1, None, outlen)
          else if outlen <? size then Some (-1, None, outlen)
          else Some (0, Some (if is_ipv6 : bool then sockaddr_in6 port 0 addr 0 else sockaddr_in port addr), size)
      end
  end.

Definition evutil_format_sockaddr_port_ (sa : sockaddr) (outlen : Z) : option (list byte) :=
  let other := printed outlen (bs "<addr with socktype " ++ print_number 10 (sa_family sa) ++ bs ">") in
  match sa with
  | sockaddr_in port addr =>
      b ← evutil_inet_ntop AF_INET addr 128;
      Some (from_option (λ b, printed outlen (b ++ COLON :: print_number 10 port)) other b)
  | sockaddr_in6 port _ addr _ =>
      b ← evutil_inet_ntop AF_INET6 addr 128;
      Some (from_option (λ b, printed outlen (LBRACKET :: b ++ RBRACKET :: COLON :: print_number 10 port)) other b)
  | sa_other _ => Some other
  end.

Fixpoint memcmp (a b : list byte) : Z :=
  match a, b with
  | x :: a, y :: b => if Z_of_byte x =? Z_of_byte y then memcmp a b else Z_of_byte x - Z_of_byte y
  | _, _ => 0
  end.

(** A port as it lies in memory. *)
Definition htons (port : Z) : Z := Z.land port 0xff * 256 + Z.shiftr port 8.

Definition evutil_sockaddr_cmp (sa1 sa2 : sockaddr) (include_port : bool) : Z :=
  let r := sa_family sa1 - sa_family sa2 in
  if negb (r =? 0) then r
  else
    match sa1, sa2 with
    | sockaddr_in port1 addr1, sockaddr_in port2 addr2 =>
        if le_val addr1 <? le_val addr2 then -1
        else if le_val addr2 <? le_val addr1 then 1
        else if include_port then htons port1 - htons port2 else 0
    | sockaddr_in6 port1 _ addr1 _, sockaddr_in6 port2 _ addr2 _ =>
        let r := memcmp addr1 addr2 in
        if negb (r =? 0) then r
        else if include_port then htons port1 - htons port2 else 0
    | _, _ => 1
    end.

Definition evutil_sockaddr_is_loopback_ (sa : sockaddr) : bool :=
  match sa with
  | sockaddr_in _ addr => Z.land (ntohl addr) 0xff000000 =? 0x7f000000
  | sockaddr_in6 _ _ addr _ => memcmp addr (replicate 15 x00 ++ [x01]) =? 0
  | sa_other _ => false
  end.

(** ** Strings *)

(** The end of a string compares as the character 0. *)
Definition next_char (s : list byte) : byte * list byte := match s with c :: s => (c, s) | [] => (x00, []) end.

(** [n]: at most so many characters are compared; the length of both strings and more is no limit. *)
Fixpoint casecmp (n : nat) (s1 s2 : list byte) : Z :=
  match n with
  | O => 0
  | S n =>
      let '(c1, s1) := next_char s1 in
      let '(c2, s2) := next_char s2 in
      let c1 := char_val (EVUTIL_TOLOWER_ c1) in
      let c2 := char_val (EVUTIL_TOLOWER_ c2) in
      if c1 <? c2 then -1 else if c2 <? c1 then 1 else if c1 =? 0 then 0 else casecmp n s1 s2
  end.
Definition evutil_ascii_strncasecmp (s1 s2 : list byte) (n : Z) : Z := casecmp (Z.to_nat n) s1 s2.
Definition evutil_ascii_strcasecmp (s1 s2 : list byte) : Z := casecmp (S (Nat.max (length s1) (length s2))) s1 s2.

Fixpoint drop_blanks (l : list byte) : list byte :=
  match l with
  | c :: l' => if decide (c = Byte.x20 ∨ c = Byte.x09) then drop_blanks l' else l
  | [] => []
  end.
(** From the end of the string. *)
Definition evutil_rtrim_lws_ (s : list byte) : list byte := reverse (drop_blanks (reverse s)).

Definition evutil_hex_char_to_int_ (c : byte) : Z := default (-1) (digit_val 16 c).

(** ** The weak random generator *)

Definition EVUTIL_WEAKRAND_MAX : Z := 0x7fffffff.
(** The time and the process take the place of the seed 0. *)
Definition evutil_weakrand_seed_ (seed tv_sec tv_usec pid : Z) : Z :=
  if seed =? 0 then uint32 (uint32 (uint32 tv_sec + uint32 tv_usec) + uint32 pid) else seed.
Definition evutil_weakrand_ (seed : Z) : Z := Z.land (uint32 (uint32 (seed * 1103515245) + 12345)) 0x7fffffff.
(** [None] when the fuel is used up; the number and the seed. *)
Fixpoint weakrand_loop (fuel : nat) (divisor top seed : Z) : option (Z * Z) :=
  match fuel with
  | O => None
  | S fuel =>
      let seed := evutil_weakrand_ seed in
      let result := Z.quot seed divisor in
      if top <=? result then weakrand_loop fuel divisor top seed else Some (result, seed)
  end.
Definition evutil_weakrand_range_ (fuel : nat) (top seed : Z) : option (Z * Z) :=
  weakrand_loop fuel (Z.quot EVUTIL_WEAKRAND_MAX top) top seed.
