(* ===== verification/EvutilOk.v ===== *)
(** * Addresses and text: what is proved

    Reading a text never leaves the arrays of evutil_inet_pton, whatever the text; what the text of an
    address is, and that it is read as that address; the order of addresses; the weak random generator. *)

From S2P Require Import Prelude Text Evutil.

(** ** Numerals in a text *)

Lemma print_number_all base z : base = 10 ∨ base = 16 → Forall (is_digit base) (print_number base z).
Proof. apply print_digits_all. Qed.

Lemma print_number_ne base z : print_number base z ≠ [].
Proof. apply print_digits_ne. lia. Qed.

Lemma is_digit_16 c : is_digit 10 c → is_digit 16 c.
Proof. intros (d & Hd & ->). exists d. split; [lia|done]. Qed.

Lemma digit_not c : is_digit 16 c → c ∉ [COLON; DOT; LBRACKET; RBRACKET; x00].
Proof.
  intros (d & Hd & ->) Hin. apply (df_not _ _ (digit_char_facts d Hd)).
  change [COLON; DOT; LBRACKET; RBRACKET; x00; Byte.x2d; Byte.x2b; Byte.x78; Byte.x58] with
    ([COLON; DOT; LBRACKET; RBRACKET; x00] ++ [Byte.x2d; Byte.x2b; Byte.x78; Byte.x58]).
  apply elem_of_app. by left.
Qed.

Lemma word_length w : 0 <= w < 65536 → (length (print_number 16 w) <= 4)%nat.
Proof. intros Hw. apply print_digits_length; [lia|exact Hw|lia]. Qed.
Lemma byte_length b : 0 <= b < 256 → (length (print_number 10 b) <= 3)%nat.
Proof. intros Hb. apply print_digits_length; [lia|change (10 ^ Z.of_nat 3) with 1000; lia|lia]. Qed.
Lemma port_length p : 0 <= p < 65536 → (length (print_number 10 p) <= 5)%nat.
Proof. intros Hb. apply print_digits_length; [lia|change (10 ^ Z.of_nat 5) with 100000; lia|lia]. Qed.

Lemma printed_all room s : Zlen s < room → printed room s = s.
Proof. intros H. unfold printed. apply take_ge. lia. Qed.

(** Characters of the text of an address. *)
Definition addr_char (c : byte) : Prop := is_digit 16 c ∨ c = COLON ∨ c = DOT.
Lemma addr_chars_not c s : Forall addr_char s → c ∈ [LBRACKET; RBRACKET; x00] → c ∉ s.
Proof.
  intros Hs Hc Hin. rewrite Forall_forall in Hs. destruct (Hs c Hin) as [Hd|[-> | ->]].
  - apply (digit_not c Hd). change [COLON; DOT; LBRACKET; RBRACKET; x00] with ([COLON; DOT] ++ [LBRACKET; RBRACKET; x00]).
    apply elem_of_app. by right.
  - by apply (bool_decide_eq_true_2 _) in Hc.
  - by apply (bool_decide_eq_true_2 _) in Hc.
Qed.

(** ** The words of a text *)

Lemma suffix_cons_of {A} (l k : list A) x : l `suffix_of` k → l `suffix_of` x :: k.
Proof. intros [p ->]. by exists (x :: p). Qed.

Lemma scan_digits_suffix base s v : (scan_digits base s v).2 `suffix_of` s.
Proof.
  revert v. induction s as [|c s IH]; intros v; cbn; [done|].
  destruct (digit_val base c); [|done]. apply suffix_cons_of, IH.
Qed.
Lemma skip_space_suffix s : skip_space s `suffix_of` s.
Proof. induction s as [|c s IH]; cbn; [done|]. destruct (isspace c); [by apply suffix_cons_of|done]. Qed.

Lemma scan_number_suffix base s v rest : scan_number base s = Some (v, rest) → rest `suffix_of` s.
Proof.
  unfold scan_number. pose proof (skip_space_suffix s) as Hs. set (s1 := skip_space s) in *. clearbody s1.
  set (p := match s1 with Byte.x2d :: _ => _ | _ => _ end).
  assert (Hp : p.2 `suffix_of` s1).
  { unfold p. destruct s1 as [|c s1]; [done|]. destruct c; cbn; try done; by apply suffix_cons_of. }
  clearbody p. destruct p as [neg s2]. cbn [snd] in Hp.
  set (s3 := match s2 with Byte.x30 :: _ => _ | _ => _ end).
  assert (Hs3 : s3 `suffix_of` s2).
  { unfold s3. destruct s2 as [|c s2]; [done|]. destruct c; try done. destruct s2 as [|x [|c s2]]; try done.
    destruct (_ && _); [|done]. by do 2 apply suffix_cons_of. }
  clearbody s3. destruct s3 as [|c s3]; [done|]. destruct (decide _); [|done].
  pose proof (scan_digits_suffix base (c :: s3) 0). destruct (scan_digits base (c :: s3) 0). intros [= _ <-].
  do 3 (etrans; [done|]). done.
Qed.

Lemma strtol_le base s : (length (strtol base s).2 <= length s)%nat.
Proof.
  unfold strtol. destruct (scan_number base s) as [[v rest]|] eqn:E; [|done].
  by eapply suffix_length, scan_number_suffix.
Qed.

(** One more than the characters is fuel enough. *)
Lemma words_loop_fuel f f' src e st :
  (length src < f)%nat → (length src < f')%nat → words_loop f src e st = words_loop f' src e st.
Proof.
  revert f' src st. induction f as [|f IH]; intros f' src st Hf Hf'; [lia|]. destruct f' as [|f']; [lia|].
  cbn [words_loop]. destruct (_ <=? _)%nat eqn:E1; [done|]. destruct (7 <? _)%nat; [done|].
  destruct src as [|c rest]; [done|]. pose proof (strtol_le 16 (c :: rest)) as Hle.
  destruct (strtol 16 (c :: rest)) as [r next]. cbn [snd] in Hle.
  assert (Ht : ∀ A (l : list A), (length (tail l) <= length l)%nat) by (intros A []; cbn; lia).
  pose proof (Ht _ next). pose proof (Ht _ rest). cbn [length] in *.
  assert (Hrec : ∀ l st', (length l <= length rest)%nat → words_loop f l e st' = words_loop f' l e st').
  { intros. apply IH; lia. }
  destruct (EVUTIL_ISXDIGIT_ c).
  - destruct (4 <? _)%nat; [done|]. destruct (Nat.eqb_spec (S (length rest)) (length next)); [done|].
    destruct (_ || _); [done|]. destruct (store_word r st); [|done]. cbn [mbind option_bind]. destruct (_ && _); [done|]. apply Hrec. lia.
  - rewrite !Hrec by lia. done.
Qed.

(** What holds of the words all along. *)
Record pton_inv (quad : bool) (st : pton_state) : Prop := {
  pi_len : length (words st) = 8%nat;
  pi_pos : (pos st <= 8)%nat;
  pi_set : setWords st = Z.of_nat (pos st) + (if quad then 2 else 0);
  pi_stored : ∀ i : nat, (i < pos st ∨ quad = true ∧ 6 <= i < 8)%nat → ∃ w, words st !! i = Some (Some w);
  pi_gap : ∀ g, gapPos st = Some g → (g <= pos st)%nat
}.

Definition with_word (v : Z) (st : pton_state) : pton_state :=
  Pton (<[pos st := Some (v mod 2 ^ 16)]> (words st)) (S (pos st)) (gapPos st) (setWords st + 1).
Lemma store_word_ok v st : (pos st < length (words st))%nat → store_word v st = Some (with_word v st).
Proof. intros H. unfold store_word. by rewrite (proj2 (Nat.ltb_lt _ _) H). Qed.

Lemma store_word_inv quad v st :
  (pos st <= 7)%nat → pton_inv quad st → store_word v st = Some (with_word v st) ∧ pton_inv quad (with_word v st).
Proof.
  intros Hp [I1 I2 I3 I4 I5]. split; [apply store_word_ok; lia|]. split; cbn.
  - by rewrite length_insert.
  - lia.
  - lia.
  - intros i Hi. destruct (decide (i = pos st)) as [->|Hne].
    + rewrite list_lookup_insert_eq by lia. eauto.
    + rewrite list_lookup_insert_ne by done. apply I4. destruct Hi; [left; lia|by right].
  - intros g Hg. specialize (I5 g Hg). lia.
Qed.
Lemma set_gap_inv quad st : pton_inv quad st → pton_inv quad (set_gap st).
Proof. intros [I1 I2 I3 I4 I5]. split; cbn; try done. by intros g [= <-]. Qed.

(** The loop ends, and stores nothing outside of the array. *)
Lemma words_loop_inv f quad src e st :
  (length src < f)%nat → pton_inv quad st →
  ∃ r, words_loop f src e st = Some r ∧ ∀ st', r = Some st' → pton_inv quad st'.
Proof.
  revert src st. induction f as [|f IH]; intros src st Hf Hi; [lia|]. cbn [words_loop].
  destruct (_ <=? _)%nat eqn:E1; [exists (Some st); split; [done|by intros ? [= <-]]|].
  destruct (7 <? _)%nat eqn:E2; [by exists None|]. apply Nat.ltb_ge in E2.
  destruct src as [|c rest]; [by exists None|]. pose proof (strtol_le 16 (c :: rest)) as Hle.
  destruct (strtol 16 (c :: rest)) as [r next]. cbn [snd length] in *.
  assert (Ht : ∀ A (l : list A), (length (tail l) <= length l)%nat) by (intros A []; cbn; lia).
  pose proof (Ht _ next). pose proof (Ht _ rest).
  destruct (store_word_inv quad r st E2 Hi) as [Hst Hi']. rewrite Hst. cbn [mbind option_bind].
  destruct (EVUTIL_ISXDIGIT_ c).
  - case_match; [by exists None|]. destruct (Nat.eqb_spec (S (length rest)) (length next)); [by exists None|].
    case_match; [by exists None|]. case_match; [by exists None|]. apply IH; [lia|done].
  - case_match; [apply IH; [lia|by apply set_gap_inv]|]. case_match; [apply IH; [lia|by apply set_gap_inv]|by exists None].
Qed.

(** Moving the words behind the gap to the end, as far as those of an IPv4 address. *)
Lemma fill_gap_eq (P Q X T : list (option Z)) :
  fill_gap (P ++ Q ++ X ++ T) (length P) (length Q) (length X) = Some (P ++ replicate (length X) (Some 0) ++ Q ++ T).
Proof.
  unfold fill_gap. rewrite slice_app. cbn [mbind option_bind].
  destruct (split_at (P ++ Q ++ X) (Zlen P) (Zlen X)) as (P' & Y & D & HE & HP & HY); [lia..|lens|].
  apply app_inj_1 in HE as [<- HE]; [|lia].
  assert (HD : length D = length Q).
  { apply (f_equal length) in HE. rewrite !length_app in HE. lia. }
  rewrite (splice_app_eq (P ++ Y) D Q T); [| |lens|done].
  2: { rewrite <- !(assoc_L (++)), (assoc_L (++) Y D), <- HE. by rewrite <- !(assoc_L (++)). }
  cbn [mbind option_bind]. rewrite <- (assoc_L (++)). apply (splice_app_eq P Y); [done|done|]. rewrite length_replicate. lia.
Qed.

Lemma fill_gap_words (ws ts : list Z) X g :
  (g <= length ws)%nat →
  fill_gap ((Some <$> ws) ++ X ++ (Some <$> ts)) g (length ws - g) (length X) =
  Some (Some <$> (take g ws ++ replicate (length X) 0 ++ drop g ws ++ ts)).
Proof.
  intros Hg. pose proof (fill_gap_eq (Some <$> take g ws) (Some <$> drop g ws) X (Some <$> ts)) as Hf.
  autorewrite with lens in Hf. rewrite Nat.min_l in Hf by done.
  rewrite (assoc_L (++)), <- fmap_app, take_drop in Hf. by rewrite Hf, !fmap_app, fmap_replicate.
Qed.

Lemma all_stored (l : list (option Z)) : (∀ i : nat, (i < length l)%nat → ∃ w, l !! i = Some (Some w)) → ∃ ws, l = Some <$> ws.
Proof.
  induction l as [|x l IH]; intros H; [by exists []|]. destruct (H 0%nat) as [w Hw]; [cbn; lia|]. injection Hw as ->.
  destruct IH as [ws ->]; [|by exists (w :: ws)]. intros i Hi. apply (H (S i)). cbn. lia.
Qed.

(** The words stored are those before [pos] and those of the IPv4 address. *)
Lemma stored_words quad st :
  pton_inv quad st → setWords st <= 8 →
  ∃ ws X ts, words st = (Some <$> ws) ++ X ++ (Some <$> ts) ∧ length ws = pos st ∧
    length ts = (if quad then 2 else 0)%nat ∧ Zlen X = 8 - setWords st.
Proof.
  intros [I1 I2 I3 I4 I5] H8. set (q := (if quad then 2 else 0)%nat). assert (Hq : q = if quad then 2%nat else 0%nat) by done.
  assert (Hz : setWords st = Z.of_nat (pos st) + Z.of_nat q) by (rewrite I3; unfold q; by destruct quad).
  destruct (all_stored (take (pos st) (words st))) as [ws Hws].
  { intros i Hi. rewrite length_take in Hi. rewrite lookup_take_lt by lia. apply I4. lia. }
  destruct (all_stored (drop (8 - q) (words st))) as [ts Hts].
  { intros i Hi. rewrite length_drop in Hi. rewrite lookup_drop. apply I4. right. destruct quad; [split; [done|]|]; lia. }
  exists ws, (take (8 - q - pos st) (drop (pos st) (words st))), ts. rewrite <- Hws, <- Hts.
  apply (f_equal length) in Hws, Hts. autorewrite with lens in Hws, Hts.
  split_and!; [|lia|lia|lens].
  rewrite <- (take_drop (pos st) (words st)) at 1. f_equal.
  rewrite <- (take_drop (8 - q - pos st) (drop (pos st) (words st))) at 1. f_equal.
  rewrite drop_drop. f_equal. lia.
Qed.

Lemma mapM_stored (ws : list Z) : mapM id (Some <$> ws) = Some ws.
Proof. apply mapM_fmap_Some; done. Qed.

Lemma bytes_of_words_cons w ws :
  bytes_of_words (w :: ws) = byte_of_Z (Z.shiftr w 8) :: byte_of_Z (Z.land w 0xff) :: bytes_of_words ws.
Proof. done. Qed.
Lemma bytes_of_words_length ws : length (bytes_of_words ws) = (2 * length ws)%nat.
Proof.
  induction ws as [|w ws IH]; [done|].
  rewrite bytes_of_words_cons. cbn [length]. lia.
Qed.

(** The end: reading words that are not stored, moving them out of the array and "should be
    impossible" are impossible. *)
Lemma pton_end_ok quad st :
  pton_inv quad st →
  pton_end quad st = Some (0, []) ∨ ∃ ws, pton_end quad st = Some (1, bytes_of_words ws) ∧ length ws = 8%nat.
Proof.
  intros Hi. unfold pton_end. destruct (_ || _) eqn:E; [by left|right].
  apply orb_false_iff in E as [[E1%Z.ltb_ge E2]%orb_false_iff E3].
  destruct (stored_words _ _ Hi) as (ws & X & ts & Hw & Hl & Ht & HX); [done|].
  pose proof (pi_set _ _ Hi) as Hs. pose proof (pi_len _ _ Hi) as H8. rewrite Hw in H8. autorewrite with lens in H8.
  destruct (gapPos st) as [g|] eqn:Hg.
  - pose proof (pi_gap _ _ Hi g Hg) as Hle.
    assert (Hn : setWords st - (if quad then 2 else 0) - Z.of_nat g = Z.of_nat (length ws - g)) by lia.
    rewrite Hn, Hw, (proj2 (Z.ltb_ge _ _)) by lia. replace (8 - setWords st) with (Zlen X) by lia.
    rewrite !Nat2Z.id, fill_gap_words by lia. cbn [mbind option_bind fmap option_fmap option_map]. rewrite mapM_stored.
    eexists. split; [done|]. lens.
  - assert (HX0 : X = []) by (apply length_zero_iff_nil; destruct (Z.ltb_spec (setWords st) 8); [done|lia]).
    subst X. rewrite Hw. cbn [app mbind option_bind]. rewrite <- fmap_app, mapM_stored. eexists. split; [done|]. cbn in H8. lens.
Qed.

(** The numbers of a text are unsigned ints: sscanf leaves what it does with others undefined. *)
Definition numbers_fit (s : list byte) : Prop := ∀ t, t `suffix_of` s → is_Some (scan_u t).

Definition fit_check (s : list byte) : bool :=
  forallb (λ i, bool_decide (is_Some (scan_u (drop i s)))) (seq 0 (S (length s))).
Lemma numbers_fit_check s : fit_check s = true → numbers_fit s.
Proof.
  unfold fit_check. rewrite forallb_forall. intros H t [p ->].
  specialize (H (length p)). rewrite drop_app_length in H. apply bool_decide_eq_true in H; [done|].
  apply in_seq. lens.
Qed.

Lemma scan_u_suffix t v rest : scan_u t = Some (Some (v, rest)) → rest `suffix_of` t.
Proof.
  unfold scan_u. destruct (scan_number 10 t) as [[v' rest']|] eqn:E; [|done].
  destruct (_ && _); [|done]. intros [= _ <-]. by eapply scan_number_suffix.
Qed.

Lemma scan_dot_fits s t :
  numbers_fit s → t `suffix_of` s →
  scan_dot (scan_u t) = Some None ∨ ∃ v rest, scan_dot (scan_u t) = Some (Some (v, rest)) ∧ rest `suffix_of` s.
Proof.
  intros Hs Ht. destruct (Hs t Ht) as [[[v [|c rest]]|] E]; rewrite E; cbn; [by left| |by left].
  destruct (decide (c = DOT)); [right|by left]. exists v, rest. split; [done|].
  apply scan_u_suffix in E. etrans; [by eapply suffix_cons_l|]. by etrans.
Qed.

Lemma scan_quad_fits s t : numbers_fit s → t `suffix_of` s → is_Some (scan_quad t).
Proof.
  intros Hs Ht. unfold scan_quad.
  destruct (scan_dot_fits s t Hs Ht) as [-> |(a & t1 & -> & H1)]; [done|]. cbn.
  destruct (scan_dot_fits s t1 Hs H1) as [-> |(b & t2 & -> & H2)]; [done|]. cbn.
  destruct (scan_dot_fits s t2 Hs H2) as [-> |(c & t3 & -> & H3)]; [done|]. cbn.
  destruct (Hs t3 H3) as [? ->]. done.
Qed.

Lemma inet_pton6_fits s :
  numbers_fit s → ∃ r a, inet_pton6 s = Some (r, a) ∧ (r = 0 ∧ a = [] ∨ r = 1 ∧ length a = 16%nat).
Proof.
  intros Hs. unfold inet_pton6.
  assert (Hloop : ∀ e st quad, pton_inv quad st → ∃ r a,
    words_loop (S (length s)) s e st ≫= (λ r, match r with None => Some (0, []) | Some st => pton_end quad st end) = Some (r, a) ∧
    (r = 0 ∧ a = [] ∨ r = 1 ∧ length a = 16%nat)).
  { intros e st quad Hi. destruct (words_loop_inv (S (length s)) quad s e st) as (r & -> & Hr); [lia|done|]. cbn [mbind option_bind].
    destruct r as [st'|]; [|by eauto 10].
    destruct (pton_end_ok quad st') as [-> |(ws & -> & Hl)]; [by apply Hr|by eauto 10|].
    eexists _, _. split; [done|]. right. by rewrite bytes_of_words_length, Hl. }
  destruct (strchr DOT s) as [[|dot]|]; [by eauto 10| |].
  - destruct (scan_quad_fits s (drop (end_of_words (take (S dot) s)) s) Hs) as [q ->].
    { apply suffix_drop. }
    cbn [mbind option_bind]. destruct q as [[[[b1 b2] b3] b4]|]; [|by eauto 10].
    destruct (_ || _); [by eauto 10|]. apply Hloop. split; cbn [words pos setWords gapPos]; try done; [lia|].
    intros i [Hi|[_ Hi]]; [lia|]. destruct i as [|[|[|[|[|[|[|[|i]]]]]]]]; try lia; cbn; eauto.
  - apply Hloop. split; cbn; try done; [lia|]. intros i [Hi|[? _]]; [lia|done].
Qed.

(** ** The text of an IPv6 address *)

Definition is_word (w : Z) : Prop := 0 <= w < 65536.

(** Words that a colon follows; words that colons part. *)
Definition colon_words (ws : list Z) : list byte := mjoin ((λ w, print_number 16 w ++ [COLON]) <$> ws).
Fixpoint joined (ws : list Z) : list byte :=
  match ws with
  | [] => []
  | [w] => print_number 16 w
  | w :: ws => print_number 16 w ++ COLON :: joined ws
  end.

Lemma joined_cons w ws : ws ≠ [] → joined (w :: ws) = print_number 16 w ++ COLON :: joined ws.
Proof. by destruct ws. Qed.

Lemma colon_words_cons w ws : colon_words (w :: ws) = print_number 16 w ++ COLON :: colon_words ws.
Proof. unfold colon_words. cbn [fmap list_fmap mjoin list_join]. by rewrite <- (assoc_L (++)). Qed.

Lemma colon_words_length ws : Forall is_word ws → (length (colon_words ws) <= 5 * length ws)%nat.
Proof.
  induction 1 as [|w ws Hw _ IH]; [done|]. rewrite colon_words_cons. pose proof (word_length w Hw). autorewrite with lens. cbn [length]. lia.
Qed.
Lemma joined_length ws : Forall is_word ws → (length (joined ws) <= 5 * length ws)%nat.
Proof.
  induction 1 as [|w ws Hw _ IH]; [done|]. pose proof (word_length w Hw). destruct ws as [|w' ws]; [cbn [joined length]; lia|].
  rewrite joined_cons by done. autorewrite with lens. cbn [length] in *. lia.
Qed.

Definition word_char (c : byte) : Prop := is_digit 16 c ∨ c = COLON.
Lemma word_chars s : Forall word_char s → Forall addr_char s ∧ DOT ∉ s.
Proof.
  intros Hs. split; [eapply Forall_impl; [done|]; intros c [|]; [by left|by right; left]|].
  intros Hin. rewrite Forall_forall in Hs. destruct (Hs _ Hin) as [Hd|Hd]; [|done].
  apply (digit_not _ Hd), list_elem_of_further, list_elem_of_here.
Qed.
Lemma colon_words_chars ws : Forall word_char (colon_words ws).
Proof.
  induction ws as [|w ws IH]; [done|]. rewrite colon_words_cons. apply Forall_app. split; [|by constructor; [right|]].
  eapply Forall_impl; [apply (print_number_all 16 w); auto|by left].
Qed.
Lemma joined_chars ws : Forall word_char (joined ws).
Proof.
  assert (Hw : ∀ w, Forall word_char (print_number 16 w)).
  { intros w. eapply Forall_impl; [apply (print_number_all 16 w); auto|by left]. }
  induction ws as [|w ws IH]; [done|]. destruct ws as [|w' ws]; [apply Hw|].
  rewrite joined_cons by done. apply Forall_app. split; [done|]. by constructor; [right|].
Qed.

Lemma put_char_ok c buf : Zlen buf < 64 → put_char c buf = Some (buf ++ [c]).
Proof. intros H. unfold put_char. by rewrite (proj2 (Z.ltb_lt _ _) H). Qed.

(** The text of a word that does not start the gap. *)
Lemma print_words_word f w ws i g buf :
  is_word w → w ≠ 0 ∨ g ≠ i → Zlen buf < 59 →
  print_words (S f) (w :: ws) i g buf =
  print_words f ws (i + 1) g (buf ++ print_number 16 w ++ if i =? 7 then [] else [COLON]).
Proof.
  intros Hw Hg Hb. cbn [print_words].
  assert (E : (w =? 0) && (g =? i) = false) by (apply andb_false_iff; rewrite !Z.eqb_neq; tauto).
  rewrite E. pose proof (word_length w Hw). rewrite printed_all by lia.
  destruct (i =? 7); cbn [negb mbind option_bind]; [by rewrite app_nil_r|].
  rewrite put_char_ok by lens. cbn [mbind option_bind]. by rewrite <- (assoc_L (++)).
Qed.

(** The words behind the gap, or all of them if there is none. *)
Lemma print_words_end f ws i g buf :
  Forall is_word ws → g < i → i + Zlen ws = 8 → (length ws <= f)%nat → Zlen buf + 5 * Zlen ws < 64 →
  print_words f ws i g buf = Some (buf ++ joined ws).
Proof.
  intros Hws. revert f i buf. induction Hws as [|w ws Hw _ IH]; intros f i buf Hg Hi Hf Hb.
  - cbn [joined]. rewrite app_nil_r. by destruct f.
  - destruct f as [|f]; [cbn in Hf; lia|]. cbn [length] in *. rewrite print_words_word; [|done|right; lia|lia].
    pose proof (word_length w Hw). destruct (Z.eqb_spec i 7) as [->|Hne].
    + assert (ws = []) as -> by (apply length_zero_iff_nil; lia). rewrite app_nil_r. by destruct f.
    + rewrite IH; [|lia|lia|lia|lens || (autorewrite with lens; cbn [length]; lia)].
      rewrite joined_cons; [|destruct ws; [cbn in *; lia|done]]. by rewrite <- !(assoc_L (++)).
Qed.

(** The words before the gap. *)
Lemma print_words_start f pre ws i g buf :
  Forall is_word pre → i + Zlen pre <= g → g < 8 → (length pre <= f)%nat → Zlen buf + 5 * Zlen pre < 64 →
  print_words f (pre ++ ws) i g buf =
  print_words (f - length pre) ws (i + Zlen pre) g (buf ++ colon_words pre).
Proof.
  intros Hws. revert f i buf. induction Hws as [|w pre Hw _ IH]; intros f i buf Hg H8 Hf Hb.
  - cbn [app length]. change (Z.of_nat 0) with 0. change (colon_words []) with (@nil byte).
    by rewrite app_nil_r, Z.add_0_r, Nat.sub_0_r.
  - destruct f as [|f]; [cbn in Hf; lia|]. cbn [length app] in *. rewrite print_words_word; [|done|right; lia|lia].
    rewrite (proj2 (Z.eqb_neq i 7)) by lia. pose proof (word_length w Hw).
    rewrite IH; [|lia|lia|lia|autorewrite with lens; cbn [length]; lia].
    rewrite colon_words_cons, <- !(assoc_L (++)). cbn [app Nat.sub]. f_equal. lia.
Qed.

Lemma zero_run_spec ws :
  ∃ rest, ws = replicate (zero_run ws) 0 ++ rest ∧ head rest ≠ Some 0.
Proof.
  induction ws as [|w ws IH]; cbn; [by exists []|]. destruct (Z.eqb_spec w 0) as [->|Hne].
  - destruct IH as (rest & IH & Hh). exists rest. split; [|done]. cbn. by rewrite <- IH.
  - exists (w :: ws). split; [done|]. by intros [= ->].
Qed.

Definition zero_at (ws : list Z) (p : Z) : Prop := 0 <= p ∧ ws !! Z.to_nat p = Some 0.

Lemma gap_loop_ok fuel ws i p n :
  n <= 1 ∨ zero_at ws p →
  let '(p', n') := gap_loop fuel (drop i ws) (Z.of_nat i) p n in n' <= 1 ∨ zero_at ws p'.
Proof.
  revert i p n. induction fuel as [|fuel IH]; intros i p n Hp; cbn [gap_loop]; [done|].
  destruct (drop i ws) as [|w ws'] eqn:E; [done|].
  assert (Hi : ws !! i = Some w) by (rewrite <- (Nat.add_0_r i), <- lookup_drop, E; done).
  destruct (Z.eqb_spec w 0) as [->|Hne].
  - rewrite <- E, drop_drop, <- Nat2Z.inj_add. destruct (n <? _); apply IH; [right|done].
    split; [lia|]. by rewrite Nat2Z.id.
  - replace ws' with (drop (i + 1) ws) by (rewrite <- drop_drop, E; done).
    replace (Z.of_nat i + 1) with (Z.of_nat (i + 1)) by lia. by apply IH.
Qed.

(** The text: all the words, or those before the gap and those behind it. *)
Inductive text_of_words (ws : list Z) : list byte → Prop :=
  | text_joined : text_of_words ws (joined ws)
  | text_gap pre n post :
      ws = pre ++ replicate (S n) 0 ++ post →
      text_of_words ws (colon_words pre ++ (if pre is [] then [COLON; COLON] else [COLON]) ++ joined post).

Lemma print_words_text ws p :
  Forall is_word ws → length ws = 8%nat → p = -1 ∨ zero_at ws p →
  ∃ s, print_words 8 ws 0 p [] = Some s ∧ text_of_words ws s ∧ Zlen s <= 42.
Proof.
  intros Hws Hl [->|[Hp Hz]].
  - rewrite print_words_end by (done || lia || (cbn [length]; lia)). eexists. split; [done|]. split; [constructor|].
    pose proof (joined_length ws Hws). cbn [app]. lia.
  - set (k := Z.to_nat p) in *. assert (Hkp : Z.of_nat k = p) by (unfold k; lia). clearbody k. assert (Hk : (k < 8)%nat) by (apply lookup_lt_Some in Hz; lia).
    assert (Hsp : ws = take k ws ++ drop k ws) by by rewrite take_drop.
    destruct (zero_run_spec (drop k ws)) as (post & Hd & _).
    assert (Hpl : length (take k ws) = k) by lens. set (pre := take k ws) in *. clearbody pre.
    assert (Hn : ∃ n, zero_run (drop k ws) = S n ∧ head (drop k ws) = Some 0).
    { destruct (drop k ws) as [|w ws'] eqn:E.
      - apply (f_equal length) in E. rewrite length_drop in E. cbn in E. lia.
      - assert (Hw : ws !! k = Some w) by (rewrite <- (Nat.add_0_r k), <- lookup_drop, E; done).
        rewrite Hz in Hw. injection Hw as <-. cbn. eauto. }
    destruct Hn as (n & Hn & Hh). rewrite Hn in Hd.
    assert (Hpost : (k + S n + length post = 8)%nat).
    { rewrite Hsp, Hd in Hl. autorewrite with lens in Hl. lia. }
    assert (Hws' := Hws). rewrite Hsp, Hd, !Forall_app in Hws'. destruct Hws' as (H1 & _ & H2).
    exists (colon_words pre ++ (if pre is [] then [COLON; COLON] else [COLON]) ++ joined post).
    pose proof (colon_words_length pre H1). pose proof (joined_length post H2).
    split_and!.
    + rewrite Hsp at 1. rewrite print_words_start; [|done|lia|lia|lia|cbn [length]; lia].
      rewrite Hpl. replace (8 - k)%nat with (S (7 - k)) by lia. cbn [print_words app].
      destruct (drop k ws) as [|w ws'] eqn:E; [done|]. injection Hh as ->.
      assert (Hpos : (0 =? 0) && (p =? 0 + Z.of_nat k) = true) by (rewrite (proj2 (Z.eqb_eq p _)) by lia; done).
      rewrite Hpos, Hn, Hd.
      replace (drop (S n) (replicate (S n) 0 ++ post)) with post by (rewrite drop_app_length'; [done|by rewrite length_replicate]).
      destruct pre as [|w0 pre].
      * cbn in Hpl. rewrite <- Hpl. change (0 + Z.of_nat 0 =? 0) with true. cbn [mbind option_bind]. rewrite put_char_ok by done. cbn [mbind option_bind].
        rewrite put_char_ok by done. cbn [mbind option_bind].
        rewrite print_words_end; [|done|lia|lia|lia|cbn [length] in *; cbn; lia]. done.
      * rewrite (proj2 (Z.eqb_neq _ 0)) by (cbn in Hpl; lia). cbn [mbind option_bind]. rewrite put_char_ok by lia. cbn [mbind option_bind].
        rewrite print_words_end; [|done|lia|lia|lia|autorewrite with lens; cbn [length] in *; lia]. by rewrite <- (assoc_L (++)).
    + apply (text_gap ws pre n post). by rewrite Hsp, Hd at 1.
    + autorewrite with lens. destruct pre; cbn [length] in *; lia.
Qed.

(** ** Reading the words *)

(** With fuel enough for the text. *)
Definition read_words (src : list byte) (e : nat) (st : pton_state) : option (option pton_state) :=
  words_loop (S (length src)) src e st.

Lemma read_words_end src e st : (length src <= e)%nat → read_words src e st = Some (Some st).
Proof. intros H. unfold read_words. cbn [words_loop]. by rewrite (proj2 (Nat.leb_le _ _) H). Qed.

Lemma word_text w : ∃ c l, print_number 16 w = c :: l ∧ EVUTIL_ISXDIGIT_ c = true.
Proof.
  pose proof (print_number_ne 16 w) as Hne. pose proof (print_number_all 16 w ltac:(auto)) as Hall.
  destruct (print_number 16 w) as [|c l]; [done|]. exists c, l. split; [done|].
  apply Forall_cons in Hall as [(d & Hd & ->) _]. apply (df_hex _ _ (digit_char_facts d Hd)).
Qed.

(** A word, behind which a colon or the end of the text stands. *)
Lemma read_words_word w next e st :
  is_word w → (pos st <= 7)%nat → length (words st) = 8%nat → (e <= length (tail next))%nat → head next = Some COLON ∨ next = [] →
  read_words (print_number 16 w ++ next) e st = read_words (tail next) e (with_word w st).
Proof.
  intros Hw Hp H8 He Hn. unfold read_words at 1. destruct (word_text w) as (c & l & E & Hx).
  assert (Ht : (length (tail next) <= length next)%nat) by (destruct next; cbn; lia).
  assert (Hle : (length (print_number 16 w ++ next) <=? e)%nat = false).
  { apply Nat.leb_gt. rewrite E, length_app. cbn. lia. }
  cbn [words_loop]. rewrite Hle, (proj2 (Nat.ltb_ge _ _)) by done. pose proof (word_length w Hw) as H4.
  rewrite E in *. cbn [app]. rewrite Hx. change (c :: l ++ next) with ((c :: l) ++ next). rewrite <- E in *.
  rewrite strtol_print; [|auto|unfold LONG_MAX, is_word in *; lia|destruct Hn as [Hn| ->]; [by destruct next as [|? ?]; [|injection Hn as ->; left]|done]].
  rewrite (proj2 (Nat.ltb_ge 4 _)) by (lens). rewrite (proj2 (Nat.eqb_neq _ _)) by (rewrite E; autorewrite with lens; cbn; lia).
  unfold is_word in Hw. rewrite (proj2 (Z.ltb_ge w 0)), (proj2 (Z.ltb_ge 65536 w)) by lia. cbn [orb].
  rewrite store_word_ok by lia. cbn [mbind option_bind].
  assert (Hstop : negb (bool_decide (head next = Some COLON)) && negb (length next =? e)%nat = false).
  { destruct Hn as [Hn| ->]; [by rewrite Hn, bool_decide_true|]. cbn in *. by replace e with 0%nat by lia. }
  rewrite Hstop. apply words_loop_fuel; [|lia]. rewrite E. autorewrite with lens. cbn [length]. lia.
Qed.

(** The gap. *)
Lemma read_words_gap rest e st :
  (e <= length rest)%nat → gapPos st = None → (0 < pos st <= 7)%nat →
  read_words (COLON :: rest) e st = read_words rest e (set_gap st).
Proof.
  intros He Hg Hp. unfold read_words at 1. cbn [words_loop length]. rewrite (proj2 (Nat.leb_gt _ _)) by lia.
  rewrite (proj2 (Nat.ltb_ge _ _)) by lia. change (EVUTIL_ISXDIGIT_ COLON) with false. cbv iota.
  by rewrite !bool_decide_true, (proj2 (Nat.ltb_lt 0 _)) by (done || lia).
Qed.
Lemma read_words_gap_first rest e st :
  (e <= length rest)%nat → gapPos st = None → pos st = 0%nat →
  read_words (COLON :: COLON :: rest) e st = read_words rest e (set_gap st).
Proof.
  intros He Hg Hp. unfold read_words at 1. remember (length (COLON :: COLON :: rest)) as f eqn:Hf. cbn [length] in Hf.
  cbn [words_loop]. rewrite (proj2 (Nat.leb_gt _ _)) by (cbn [length]; lia).
  rewrite Hp. cbn [Nat.ltb Nat.leb]. change (EVUTIL_ISXDIGIT_ COLON) with false. cbv iota.
  rewrite !bool_decide_true by done. cbn [andb Nat.eqb head tail].
  apply words_loop_fuel; lia.
Qed.

(** What is stored one after the other. *)
Definition stored (ws : list Z) (W : list (option Z)) (gap : option nat) : pton_state :=
  Pton ((Some <$> ws) ++ drop (length ws) W) (length ws) gap (Zlen ws).

Lemma stored_length ws W gap : (length ws <= length W)%nat → length (words (stored ws W gap)) = length W.
Proof. intros H. unfold stored. cbn [words]. lens. Qed.

Lemma store_stored ws W gap w :
  is_word w → (length ws < length W)%nat → with_word w (stored ws W gap) = stored (ws ++ [w]) W gap.
Proof.
  intros Hw Hl. unfold with_word, stored. cbn [words pos gapPos setWords]. unfold is_word in Hw.
  f_equal; [|autorewrite with lens; cbn [length]; lia..].
  rewrite Z.mod_small by (change (2 ^ 16) with 65536; lia).
  destruct (drop (length ws) W) as [|x rest] eqn:E; [apply (f_equal length) in E; rewrite length_drop in E; cbn in E; lia|].
  rewrite insert_app_r_alt by (by rewrite length_fmap). rewrite length_fmap, Nat.sub_diag. cbn [insert list_insert].
  rewrite fmap_app, <- (assoc_L (++)). do 2 f_equal. rewrite length_app. cbn [length app fmap list_fmap].
  by rewrite <- drop_drop, E.
Qed.

Lemma read_colon_words ws done_ W gap rest e :
  Forall is_word ws → (length done_ + length ws <= 8)%nat → length W = 8%nat → (e <= length rest)%nat →
  read_words (colon_words ws ++ rest) e (stored done_ W gap) = read_words rest e (stored (done_ ++ ws) W gap).
Proof.
  intros Hws. revert done_. induction Hws as [|w ws Hw _ IH]; intros dn Hl HW He; [by rewrite app_nil_r|].
  cbn [length] in Hl. rewrite colon_words_cons, <- (assoc_L (++)). cbn [app].
  rewrite read_words_word; [|done|cbn; lia|by rewrite stored_length by lia|cbn; lens|by left]. cbn [tail]. rewrite store_stored by (done || lia).
  rewrite IH by (done || (autorewrite with lens; cbn [length]; lia)). by rewrite <- (assoc_L (++)).
Qed.

Lemma read_joined ws done_ W gap :
  Forall is_word ws → (length done_ + length ws <= 8)%nat → length W = 8%nat →
  read_words (joined ws) 0 (stored done_ W gap) = Some (Some (stored (done_ ++ ws) W gap)).
Proof.
  intros Hws. revert done_. induction Hws as [|w ws Hw _ IH]; intros dn Hl HW; [by rewrite app_nil_r|].
  cbn [length] in Hl. destruct ws as [|w' ws].
  - cbn [joined]. rewrite <- (app_nil_r (print_number 16 w)), read_words_word by (done || (rewrite stored_length by lia; done) || (cbn; lia) || by right).
    rewrite store_stored by (done || lia). done.
  - rewrite joined_cons, read_words_word by (done || (rewrite stored_length by lia; done) || (cbn; lia) || by left). cbn [tail]. rewrite store_stored by (done || lia).
    rewrite IH by (done || (autorewrite with lens; cbn [length] in *; lia)). by rewrite <- (assoc_L (++)).
Qed.

Lemma text_of_words_read ws s :
  Forall is_word ws → length ws = 8%nat → text_of_words ws s →
  ∃ st, read_words s 0 (Pton no_words 0 None 0) = Some (Some st) ∧ pton_end false st = Some (1, bytes_of_words ws).
Proof.
  intros Hws Hl Ht. change (Pton no_words 0 None 0) with (stored [] no_words None). destruct Ht as [|pre n post ->].
  - eexists. split; [apply read_joined; [done|cbn; lia|done]|]. unfold pton_end, stored. cbn [setWords gapPos words app].
    rewrite Hl. cbn [app orb andb negb]. rewrite bool_decide_true by done. change (drop 8 no_words) with (@nil (option Z)).
    change ((8 <? Z.of_nat 8) || (Z.of_nat 8 =? 8) && negb true || (Z.of_nat 8 <? 8) && true) with false.
    rewrite app_nil_r. cbn [mbind option_bind]. by rewrite mapM_stored.
  - rewrite !Forall_app in Hws. destruct Hws as (H1 & _ & H2). autorewrite with lens in Hl.
    exists (stored (pre ++ post) no_words (Some (length pre))). split.
    + rewrite read_colon_words; [|done|cbn; lia|done|lia]. rewrite app_nil_l.
      transitivity (read_words (joined post) 0 (stored pre no_words (Some (length pre)))); [|by apply read_joined; [|lia|]].
      destruct pre as [|w pre]; cbn [app].
      * by rewrite read_words_gap_first by (done || lia).
      * by rewrite read_words_gap by (done || lia || (cbn in *; lia)).
    + unfold pton_end, stored. cbn [setWords gapPos words]. rewrite bool_decide_false by done. rewrite andb_false_r, orb_false_r.
      rewrite (proj2 (Z.ltb_ge 8 _)), (proj2 (Z.eqb_neq _ 8)) by lens. cbn [orb andb].
      assert (Hn : Zlen (pre ++ post) - 0 - Z.of_nat (length pre) = Z.of_nat (length (pre ++ post) - length pre)) by lens.
      rewrite Hn, (proj2 (Z.ltb_ge _ 0)) by lia. set (X := drop (length (pre ++ post)) no_words).
      assert (HX : length X = S n) by (unfold X, no_words; lens).
      replace (8 - Zlen (pre ++ post)) with (Zlen X) by (rewrite HX; lens). rewrite !Nat2Z.id.
      pose proof (fill_gap_words (pre ++ post) [] X (length pre)) as Hf. rewrite app_nil_r in Hf. rewrite Hf by lens.
      cbn [mbind option_bind fmap option_fmap option_map]. by rewrite take_app_length, drop_app_length, app_nil_r, mapM_stored, HX.
Qed.

(** ** Bytes, words and numbers *)

Lemma land_ff z : Z.land z 0xff = z mod 256.
Proof. change 0xff with (Z.ones 8). by rewrite Z.land_ones. Qed.

Lemma word_bytes h l : byte_of_Z (Z.shiftr (Z.shiftl (Z_of_byte h) 8 + Z_of_byte l) 8) = h ∧
  byte_of_Z (Z.land (Z.shiftl (Z_of_byte h) 8 + Z_of_byte l) 0xff) = l.
Proof.
  pose proof (Z_of_byte_range h). pose proof (Z_of_byte_range l).
  rewrite Z.shiftl_mul_pow2, Z.shiftr_div_pow2, land_ff by lia. change (2 ^ 8) with 256.
  split; rewrite <- (byte_of_Z_of_byte h), <- (byte_of_Z_of_byte l), !Z_of_byte_of_Z; f_equal;
    rewrite !(Z.mod_small (Z_of_byte _)) by done; by Z.to_euclidean_division_equations; lia.
Qed.

Lemma words_of_spec n a :
  length a = (2 * n)%nat → length (words_of a) = n ∧ Forall is_word (words_of a) ∧ bytes_of_words (words_of a) = a.
Proof.
  revert a. induction n as [|n IH]; intros a Ha; [by destruct a|].
  destruct a as [|h [|l a]]; [cbn in Ha; lia..|]. destruct (IH a) as (H1 & H2 & H3); [cbn in Ha; lia|].
  destruct (word_bytes h l) as [Eh El]. cbn [words_of length]. split_and!; [lia| |].
  - constructor; [|done]. unfold is_word. pose proof (Z_of_byte_range h). pose proof (Z_of_byte_range l).
    rewrite Z.shiftl_mul_pow2 by lia. lia.
  - by rewrite bytes_of_words_cons, Eh, El, H3.
Qed.

Definition is_byte (z : Z) : Prop := 0 <= z < 256.

Lemma lor_bytes a b : is_byte b → Z.lor (Z.shiftl a 8) b = Z.shiftl a 8 + b.
Proof. intros Hb. rewrite Z.shiftl_mul_pow2 by lia. by rewrite lor_low. Qed.

Lemma htonl_ntohl x0 x1 x2 x3 :
  let a := [x0; x1; x2; x3] in
  Z.land (Z.shiftr (ntohl a) 24) 0xff = Z_of_byte x0 ∧ Z.land (Z.shiftr (ntohl a) 16) 0xff = Z_of_byte x1 ∧
  Z.land (Z.shiftr (ntohl a) 8) 0xff = Z_of_byte x2 ∧ Z.land (ntohl a) 0xff = Z_of_byte x3 ∧
  htonl (Z.lor (Z.lor (Z.lor (Z.shiftl (Z_of_byte x0) 24) (Z.shiftl (Z_of_byte x1) 16)) (Z.shiftl (Z_of_byte x2) 8)) (Z_of_byte x3)) = a.
Proof.
  cbn zeta. pose proof (Z_of_byte_range x0). pose proof (Z_of_byte_range x1). pose proof (Z_of_byte_range x2). pose proof (Z_of_byte_range x3).
  assert (E : ntohl [x0; x1; x2; x3] = Z_of_byte x3 + 256 * Z_of_byte x2 + 65536 * Z_of_byte x1 + 16777216 * Z_of_byte x0).
  { unfold ntohl. cbn. lia. }
  rewrite !land_ff, !Z.shiftr_div_pow2, E by lia. change (2 ^ 24) with 16777216. change (2 ^ 16) with 65536. change (2 ^ 8) with 256.
  split_and!; [Z.to_euclidean_division_equations; lia..|].
  assert (El : Z.lor (Z.lor (Z.lor (Z.shiftl (Z_of_byte x0) 24) (Z.shiftl (Z_of_byte x1) 16)) (Z.shiftl (Z_of_byte x2) 8)) (Z_of_byte x3) =
    ntohl [x0; x1; x2; x3]).
  { rewrite !Z.shiftl_mul_pow2 by lia. rewrite lor_low by lia.
    replace (Z_of_byte x0 * 2 ^ 24 + Z_of_byte x1 * 2 ^ 16) with ((Z_of_byte x0 * 256 + Z_of_byte x1) * 2 ^ 16) by lia. rewrite lor_low by lia.
    replace ((Z_of_byte x0 * 256 + Z_of_byte x1) * 2 ^ 16 + Z_of_byte x2 * 2 ^ 8) with
      (((Z_of_byte x0 * 256 + Z_of_byte x1) * 256 + Z_of_byte x2) * 2 ^ 8) by lia. rewrite lor_low by lia. rewrite E. lia. }
  rewrite El. unfold htonl, ntohl. pose proof (le_bytes_val (reverse [x0; x1; x2; x3])) as Hv.
  rewrite length_reverse in Hv. cbn [length] in Hv. by rewrite Hv, reverse_involutive.
Qed.

(** ** Dotted addresses *)

Lemma dotted_chars a b c d : Forall (λ x, is_digit 10 x ∨ x = DOT) (dotted a b c d).
Proof.
  assert (H : ∀ z, Forall (λ x, is_digit 10 x ∨ x = DOT) (print_number 10 z)).
  { intros z. eapply Forall_impl; [apply (print_number_all 10 z); auto|by left]. }
  unfold dotted. repeat (apply Forall_app; split; [apply H|]; constructor; [by right|]). apply H.
Qed.
Lemma dotted_addr_chars a b c d : Forall addr_char (dotted a b c d).
Proof. eapply Forall_impl; [apply dotted_chars|]. intros x [Hx| ->]; [left; by apply is_digit_16|by right; right]. Qed.
Lemma dotted_no_colon a b c d : COLON ∉ dotted a b c d.
Proof.
  intros Hin. pose proof (dotted_chars a b c d) as H. rewrite Forall_forall in H.
  destruct (H _ Hin) as [Hd|]; [|done]. apply (digit_not _ (is_digit_16 _ Hd)), list_elem_of_here.
Qed.

Lemma dotted_length a b c d : is_byte a → is_byte b → is_byte c → is_byte d → (length (dotted a b c d) <= 15)%nat.
Proof.
  intros Ha Hb Hc Hd. unfold dotted. pose proof (byte_length a Ha). pose proof (byte_length b Hb).
  pose proof (byte_length c Hc). pose proof (byte_length d Hd). repeat (autorewrite with lens; cbn [length]). lia.
Qed.

Lemma scan_quad_dotted a b c d :
  is_byte a → is_byte b → is_byte c → is_byte d → scan_quad (dotted a b c d) = Some (Some (a, b, c, d)).
Proof.
  intros Ha Hb Hc Hd. unfold is_byte in *.
  assert (Hdot : ∀ z rest, 0 <= z < 256 → scan_dot (scan_u (print_number 10 z ++ DOT :: rest)) = Some (Some (z, rest))).
  { intros z rest Hz. rewrite scan_u_print by (by right || lia). done. }
  unfold scan_quad, dotted. rewrite !Hdot by done. cbn [mbind option_bind].
  rewrite !Hdot by done. cbn [mbind option_bind]. rewrite !Hdot by done. cbn [mbind option_bind].
  rewrite <- (app_nil_r (print_number 10 d)), scan_u_print by (done || lia). done.
Qed.

Lemma drop_digits_all l rest : Forall (is_digit 10) l → drop_digits (l ++ rest) = drop_digits rest.
Proof.
  induction 1 as [|c l (d & Hd & ->) _ IH]; [done|]. cbn [app drop_digits].
  by rewrite (df_dec _ _ (digit_char_facts d ltac:(lia))), (proj2 (Z.ltb_lt d 10)) by lia.
Qed.

(** ** Addresses to text and back *)

(** An address as text: what it consists of and as what it is read. *)
Record text_of_addr (af : Z) (addr s : list byte) : Prop := {
  ta_chars : Forall addr_char s;
  ta_length : Zlen s <= 42;
  ta_colon : af = AF_INET → COLON ∉ s;
  ta_read : evutil_inet_pton af s = Some (1, addr)
}.

Lemma inet_ntop4 addr len :
  length addr = 4%nat → 43 <= len → ∃ s, evutil_inet_ntop AF_INET addr len = Some (Some s) ∧ text_of_addr AF_INET addr s.
Proof.
  intros Ha Hlen. destruct addr as [|x0 [|x1 [|x2 [|x3 [|? ?]]]]]; try done. clear Ha.
  destruct (htonl_ntohl x0 x1 x2 x3) as (E0 & E1 & E2 & E3 & Eh). cbn zeta in *.
  pose proof (Z_of_byte_range x0) as H0. pose proof (Z_of_byte_range x1) as H1.
  pose proof (Z_of_byte_range x2) as H2. pose proof (Z_of_byte_range x3) as H3.
  pose proof (dotted_length _ _ _ _ H0 H1 H2 H3) as Hl.
  exists (dotted (Z_of_byte x0) (Z_of_byte x1) (Z_of_byte x2) (Z_of_byte x3)). split.
  - unfold evutil_inet_ntop. rewrite Z.eqb_refl, E0, E1, E2, E3. cbv zeta. rewrite (proj2 (Z.leb_gt _ _)), printed_all by lia. done.
  - split; [apply dotted_addr_chars|lia|intros _; apply dotted_no_colon|].
    unfold evutil_inet_pton. rewrite Z.eqb_refl, scan_quad_dotted by done. cbn [mbind option_bind].
    rewrite !(proj2 (Z.ltb_ge 255 _)) by lia. cbn [orb]. by rewrite Eh.
Qed.

(** A text that ends with an IPv4 address. *)
Lemma inet_pton6_quad pre a b c d st :
  Forall (λ x, x ≠ DOT) pre → (∃ pre', pre = pre' ++ [COLON]) → is_byte a → is_byte b → is_byte c → is_byte d →
  let s := pre ++ dotted a b c d in
  read_words s (length (dotted a b c d))
    (Pton [None; None; None; None; None; None; Some (Z.shiftl a 8 + b); Some (Z.shiftl c 8 + d)] 0 None 2) = Some (Some st) →
  inet_pton6 s = pton_end true st.
Proof.
  intros Hp (pre' & Hpre) Ha Hb Hc Hd s Hr. unfold inet_pton6.
  assert (Hs : s = (pre ++ print_number 10 a) ++ DOT :: print_number 10 b ++ DOT :: print_number 10 c ++ DOT :: print_number 10 d)
    by (unfold s, dotted; by rewrite <- (assoc_L (++))).
  assert (Hdot : strchr DOT s = Some (length (pre ++ print_number 10 a))).
  { rewrite Hs. apply strchr_app. rewrite not_elem_of_app. split; intros Hin.
    - rewrite Forall_forall in Hp. by apply (Hp _ Hin).
    - pose proof (print_number_all 10 a ltac:(auto)) as Hall. rewrite Forall_forall in Hall.
      apply (digit_not _ (is_digit_16 _ (Hall _ Hin))). apply list_elem_of_further, list_elem_of_here. }
  rewrite Hdot. destruct (length (pre ++ print_number 10 a)) as [|k] eqn:Hk.
  { rewrite Hpre, !length_app in Hk. cbn in Hk. lia. }
  assert (Htake : take (S k) s = pre ++ print_number 10 a) by (rewrite Hs, <- Hk; apply take_app_length).
  assert (Hend : end_of_words (take (S k) s) = length pre).
  { unfold end_of_words. rewrite Htake, reverse_app, drop_digits_all by (apply Forall_reverse, print_number_all; auto).
    rewrite Hpre, reverse_app. change (drop_digits (reverse [COLON] ++ reverse pre')) with (reverse [COLON] ++ reverse pre').
    rewrite <- reverse_app. apply length_reverse. }
  assert (Heow : drop (end_of_words (take (S k) s)) s = dotted a b c d) by (rewrite Hend; apply drop_app_length).
  rewrite Heow, scan_quad_dotted by done. cbn [mbind option_bind]. unfold is_byte in *.
  rewrite !(proj2 (Z.ltb_ge 255 _)) by lia. cbn [orb]. rewrite !lor_bytes by done.
  unfold read_words in Hr. unfold no_words. cbn [replicate insert list_insert]. by rewrite Hr.
Qed.

Lemma is_ipv4_words ws :
  length ws = 8%nat → is_ipv4 ws = true → ∃ w5 w6 w7, ws = [0; 0; 0; 0; 0; w5; w6; w7] ∧ (w5 = 0 ∨ w5 = 0xffff).
Proof.
  intros Hl H. destruct ws as [|w0 [|w1 [|w2 [|w3 [|w4 [|w5 [|w6 [|w7 [|? ?]]]]]]]]]; try done.
  unfold is_ipv4 in H. cbn [nth] in H. rewrite !andb_true_iff, !orb_true_iff, !andb_true_iff, !Z.eqb_eq in H.
  destruct H as (((((-> & ->) & ->) & ->) & ->) & H). exists w5, w6, w7. split; [done|]. tauto.
Qed.

(** The last two words of an address and its last four bytes. *)
Lemma last_words addr w5 w6 w7 :
  length addr = 16%nat → words_of addr = [0; 0; 0; 0; 0; w5; w6; w7] →
  w6 = Z.shiftl (Z_of_byte (nth 12 addr x00)) 8 + Z_of_byte (nth 13 addr x00) ∧
  w7 = Z.shiftl (Z_of_byte (nth 14 addr x00)) 8 + Z_of_byte (nth 15 addr x00).
Proof. intros Hl Hw. do 17 (destruct addr as [|? addr]; try done). cbn in *. by injection Hw. Qed.

(** What is read of an IPv4 address in an IPv6 one. *)
Lemma read_ipv4 (w5 a b c d : Z) pre :
  is_byte a → is_byte b → is_byte c → is_byte d →
  w5 = 0 ∧ pre = [COLON; COLON] ∨ w5 = 0xffff ∧ pre = COLON :: COLON :: print_number 16 0xffff ++ [COLON] →
  inet_pton6 (pre ++ dotted a b c d) =
  Some (1, bytes_of_words [0; 0; 0; 0; 0; w5; Z.shiftl a 8 + b; Z.shiftl c 8 + d]).
Proof.
  intros Ha Hb Hc Hd [[-> ->]|[-> ->]].
  - erewrite inet_pton6_quad; [|by repeat constructor|by exists [COLON]|done..|].
    2: { cbn [app]. rewrite read_words_gap_first by done. apply read_words_end. done. }
    done.
  - erewrite inet_pton6_quad; [|by repeat (constructor; [done|])|by exists (COLON :: COLON :: print_number 16 0xffff)|done..|].
    2: { cbn [app]. rewrite <- (assoc_L (++)). cbn [app]. rewrite read_words_gap_first; [|lens || (autorewrite with lens; cbn [length]; lia)|done..].
      rewrite read_words_word; [|done|cbn; lia|done|done|by left]. apply read_words_end. done. }
    done.
Qed.

Lemma inet_ntop6 addr len :
  length addr = 16%nat → 43 <= len → ∃ s, evutil_inet_ntop AF_INET6 addr len = Some (Some s) ∧ text_of_addr AF_INET6 addr s.
Proof.
  intros Ha Hlen. destruct (words_of_spec 8 addr Ha) as (Hl & Hws & Hbytes).
  enough (∃ s, Forall addr_char s ∧ Zlen s <= 42 ∧ inet_pton6 s = Some (1, addr) ∧
    ∀ s', s' = s → evutil_inet_ntop AF_INET6 addr len = Some (if len <? Zlen s' then None else Some (strlcpy s' len))) as (s & Hc & H42 & Hr & Hn).
  { exists s. rewrite (Hn s eq_refl), (proj2 (Z.ltb_ge _ _)) by lia. split; [|by split].
    do 2 f_equal. apply take_ge. lia. }
  unfold evutil_inet_ntop. change (AF_INET6 =? AF_INET) with false. rewrite Z.eqb_refl. cbv iota zeta beta.
  destruct (is_ipv4 (words_of addr)) eqn:E4.
  - destruct (is_ipv4_words _ Hl E4) as (w5 & w6 & w7 & Hw & H5). destruct (last_words _ _ _ _ Ha Hw) as [H6 H7].
    set (a := Z_of_byte (nth 12 addr x00)) in *. set (b := Z_of_byte (nth 13 addr x00)) in *.
    set (c := Z_of_byte (nth 14 addr x00)) in *. set (d := Z_of_byte (nth 15 addr x00)) in *.
    assert (Ba : is_byte a) by apply Z_of_byte_range. assert (Bb : is_byte b) by apply Z_of_byte_range.
    assert (Bc : is_byte c) by apply Z_of_byte_range. assert (Bd : is_byte d) by apply Z_of_byte_range.
    pose proof (dotted_length _ _ _ _ Ba Bb Bc Bd) as Hdl. pose proof (dotted_addr_chars a b c d) as Hdc.
    rewrite Hw in *. cbn [nth]. clearbody a b c d.
    set (pre := if w5 =? 0 then [COLON; COLON] else COLON :: COLON :: print_number 16 w5 ++ [COLON]).
    assert (Hpre : w5 = 0 ∧ pre = [COLON; COLON] ∨ w5 = 0xffff ∧ pre = COLON :: COLON :: print_number 16 0xffff ++ [COLON]).
    { unfold pre. destruct H5 as [-> | ->]; [by left|by right]. }
    assert (Hpl : (length pre <= 7)%nat ∧ Forall addr_char pre).
    { destruct Hpre as [[_ ->]|[_ ->]]; (split; [vm_compute; lia|]).
      - by repeat (constructor; [right; left; done|]).
      - do 2 (constructor; [right; left; done|]). apply Forall_app. split; [|by constructor; [right; left|]].
        eapply Forall_impl; [apply (print_number_all 16); auto|by left]. }
    destruct Hpl as [Hpl Hpc]. exists (pre ++ dotted a b c d). split_and!.
    + by apply Forall_app.
    + lens.
    + rewrite (read_ipv4 w5) by done. by rewrite <- Hbytes, H6, H7.
    + intros s' ->. clearbody pre. assert (Hff : print_number 16 0xffff = replicate 4 Byte.x66) by by vm_compute.
      destruct Hpre as [[-> ->]|[-> ->]]; cbn [Z.eqb]; cbv iota; rewrite ?Hff, printed_all by (cbn [length app replicate]; lia); done.
  - pose proof (gap_loop_ok 8 (words_of addr) 0 (-1) 0 (or_introl Z.le_0_1)) as Hg. rewrite drop_0 in Hg. change (Z.of_nat 0) with 0 in Hg.
    destruct (gap_loop 8 (words_of addr) 0 (-1) 0) as [p n]. cbv beta iota in Hg.
    set (p' := if n <=? 1 then -1 else p). destruct (print_words_text (words_of addr) p') as (s & Hp & Ht & H42); [done|done| |].
    { unfold p'. destruct (Z.leb_spec n 1); [by left|right]. destruct Hg; [lia|done]. }
    assert (Hchars : Forall word_char s).
    { destruct Ht; [apply joined_chars|]. repeat (apply Forall_app; split); [apply colon_words_chars| |apply joined_chars].
      destruct pre; by repeat (constructor; [right; done|]). }
    apply word_chars in Hchars as [Hchars Hdot]. exists s. split_and!; [done|done| |].
    + destruct (text_of_words_read _ _ Hws Hl Ht) as (st & Hr & He). unfold inet_pton6.
      rewrite strchr_None by done. cbv zeta. unfold read_words in Hr. rewrite Hr. cbn [mbind option_bind]. by rewrite He, Hbytes.
    + intros s' ->. rewrite Hp. cbn [mbind option_bind]. by rewrite (proj2 (Z.ltb_lt _ 64)) by lia.
Qed.

(** The socket addresses that a text can stand for: it has no room for the flow and the scope, and
    port 0 is not read. *)
Definition in_text (sa : sockaddr) : Prop :=
  match sa with
  | sockaddr_in port addr => 0 < port < 65536 ∧ length addr = 4%nat
  | sockaddr_in6 port flow addr scope => 0 < port < 65536 ∧ length addr = 16%nat ∧ flow = 0 ∧ scope = 0
  | sa_other _ => False
  end.
Definition sockaddr_size (sa : sockaddr) : Z := match sa with sockaddr_in _ _ => 16 | _ => 28 end.

Lemma port_no_colon p : COLON ∉ print_number 10 p.
Proof.
  intros Hin. pose proof (print_number_all 10 p ltac:(auto)) as H. rewrite Forall_forall in H.
  apply (digit_not _ (is_digit_16 _ (H _ Hin))), list_elem_of_here.
Qed.

(** The part of evutil_parse_sockaddr_port behind the address. *)
Lemma read_port p : 0 < p < 65536 → atoi (print_number 10 p) = Some p ∧ (p <=? 0) || (65535 <? p) = false.
Proof.
  intros Hp. split; [apply atoi_print; unfold INT_MAX; lia|]. by rewrite (proj2 (Z.leb_gt _ _)), (proj2 (Z.ltb_ge _ _)) by lia.
Qed.

Lemma parts_in4 s p :
  COLON ∉ s → LBRACKET ∉ s → Zlen s <= 42 →
  addr_and_port (s ++ COLON :: print_number 10 p) = Some (false, s, Some (print_number 10 p)).
Proof.
  intros Hc Hb Hl. unfold addr_and_port. destruct (s ++ COLON :: print_number 10 p) as [|c l] eqn:E; [by destruct s|].
  assert (Hne : c ≠ LBRACKET).
  { intros ->. destruct s as [|c s]; [done|]. injection E as -> _. apply Hb, list_elem_of_here. }
  rewrite decide_False by done. rewrite <- E, strchr_app by done.
  replace (drop (S (length s)) (s ++ COLON :: print_number 10 p)) with (print_number 10 p)
    by (rewrite (cons_middle COLON s), (assoc_L (++)), drop_app_length'; [done|by rewrite length_app, Nat.add_comm]).
  rewrite strchr_None by apply port_no_colon.
  rewrite bool_decide_false by (by intros [? ?]). rewrite (proj2 (Z.ltb_ge _ _)) by lia. by rewrite take_app_length.
Qed.
Lemma parts_in6 s p :
  RBRACKET ∉ s → Zlen s <= 42 →
  addr_and_port (LBRACKET :: s ++ RBRACKET :: COLON :: print_number 10 p) = Some (true, s, Some (print_number 10 p)).
Proof.
  intros Hb Hl. unfold addr_and_port. rewrite decide_True by done.
  change (LBRACKET :: s ++ RBRACKET :: COLON :: print_number 10 p) with ((LBRACKET :: s) ++ RBRACKET :: COLON :: print_number 10 p) at 1.
  rewrite strchr_app by (intros [|]%elem_of_cons; done). cbn [length]. rewrite Nat.sub_succ, Nat.sub_0_r.
  rewrite (proj2 (Z.ltb_ge _ _)) by lia. rewrite take_app_length. cbn [drop].
  replace (drop (S (length s)) (s ++ RBRACKET :: COLON :: print_number 10 p)) with (COLON :: print_number 10 p)
    by (rewrite (cons_middle RBRACKET s), (assoc_L (++)), drop_app_length'; [done|by rewrite length_app, Nat.add_comm]).
  by rewrite decide_True by done.
Qed.

(** C21. Socket addresses as text: what evutil_format_sockaddr_port_ writes for an address and a port,
    evutil_parse_sockaddr_port reads as that address and that port, for every IPv4 and IPv6 address
    - with the zeros that are left out, and with an IPv4 address at the end - and every port but 0.
    64 characters are room enough for the text. *)
Theorem sockaddr_text_roundtrip sa outlen room :
  in_text sa → 64 <= outlen → 28 <= room →
  ∃ s, evutil_format_sockaddr_port_ sa outlen = Some s ∧ Zlen s < 64 ∧
    evutil_parse_sockaddr_port s room = Some (0, Some sa, sockaddr_size sa).
Proof.
  intros Hsa Ho Hr. destruct sa as [port addr|port flow addr scope|]; [| |done].
  - destruct Hsa as [Hp Ha]. destruct (inet_ntop4 addr 128 Ha ltac:(lia)) as (s & Hs & [Hc Hl Hcol Hread]).
    pose proof (port_length port ltac:(lia)) as Hpl. destruct (read_port port Hp) as [Hat Hrange].
    exists (s ++ COLON :: print_number 10 port). unfold evutil_format_sockaddr_port_. rewrite Hs. cbn [mbind option_bind from_option].
    split_and!; [rewrite printed_all; [done|]|..]; [autorewrite with lens; cbn [length]; lia..|].
    unfold evutil_parse_sockaddr_port.
    rewrite parts_in4; [|by apply Hcol|apply (addr_chars_not _ _ Hc); clear; set_solver|done].
    rewrite Hat. cbn [mbind option_bind]. rewrite Hrange, Hread. cbn [mbind option_bind]. by rewrite (proj2 (Z.ltb_ge _ _)) by lia.
  - destruct Hsa as (Hp & Ha & -> & ->). destruct (inet_ntop6 addr 128 Ha ltac:(lia)) as (s & Hs & [Hc Hl _ Hread]).
    pose proof (port_length port ltac:(lia)) as Hpl. destruct (read_port port Hp) as [Hat Hrange].
    exists (LBRACKET :: s ++ RBRACKET :: COLON :: print_number 10 port). unfold evutil_format_sockaddr_port_. rewrite Hs. cbn [mbind option_bind from_option].
    split_and!; [rewrite printed_all; [done|]|..]; [cbn [length]; autorewrite with lens; cbn [length]; lia..|].
    unfold evutil_parse_sockaddr_port. rewrite parts_in6; [|apply (addr_chars_not _ _ Hc); clear; set_solver|done].
    rewrite Hat. cbn [mbind option_bind]. rewrite Hrange, Hread. cbn [mbind option_bind]. by rewrite (proj2 (Z.ltb_ge _ _)) by lia.
Qed.

Lemma sockaddr_text_roundtrip_witness :
  let sa := sockaddr_in6 8080 0 [x20; x01; Byte.x0d; Byte.xb8; x00; x00; x00; x00; x00; x00; x00; x00; x00; x00; x00; x01] 0 in
  evutil_format_sockaddr_port_ sa 64 = Some (bs "[2001:db8::1]:8080") ∧
  ∃ s, evutil_format_sockaddr_port_ sa 64 = Some s ∧ Zlen s < 64 ∧ evutil_parse_sockaddr_port s 28 = Some (0, Some sa, sockaddr_size sa).
Proof. split; [by vm_compute|]. apply (sockaddr_text_roundtrip _ 64 28); [by repeat split|lia|lia]. Defined.

(** C22. evutil_inet_pton on any text whose numbers are unsigned ints: it ends and returns 0, 1 or,
    for another family, -1; stores and moves words within its array only, reads none that it has not
    stored, and stores an address that it accepts in full. *)
Theorem inet_pton_safe af s :
  numbers_fit s →
  ∃ r addr, evutil_inet_pton af s = Some (r, addr) ∧
    (r = 1 ∧ (af = AF_INET ∧ length addr = 4%nat ∨ af = AF_INET6 ∧ length addr = 16%nat) ∨
     r = 0 ∧ (af = AF_INET ∨ af = AF_INET6) ∨ r = -1 ∧ af ≠ AF_INET ∧ af ≠ AF_INET6).
Proof.
  intros Hs. unfold evutil_inet_pton. destruct (Z.eqb_spec af AF_INET) as [->|H4].
  - destruct (scan_quad_fits s s Hs) as [[[[[a b] c] d]|] ->]; [done| |]; cbn [mbind option_bind]; [|by eauto 10].
    destruct (_ || _); [by eauto 10|]. eexists _, _. split; [done|]. left. split; [done|]. left. split; [done|]. unfold htonl. lens.
  - destruct (Z.eqb_spec af AF_INET6) as [->|H6]; [|by eauto 10].
    destruct (inet_pton6_fits s Hs) as (r & a & -> & [[-> ->]|[-> ?]]); eauto 10.
Qed.
Lemma inet_pton_safe_witness :
  evutil_inet_pton AF_INET6 (bs "1:2::3:4:") = Some (1, [x00; x01; x00; x02; x00; x00; x00; x00; x00; x00; x00; x00; x00; x03; x00; x04]) ∧
  ∃ r addr, evutil_inet_pton AF_INET6 (bs "1:2::3:4:") = Some (r, addr) ∧
    (r = 1 ∧ (AF_INET6 = AF_INET ∧ length addr = 4%nat ∨ AF_INET6 = AF_INET6 ∧ length addr = 16%nat) ∨
     r = 0 ∧ (AF_INET6 = AF_INET ∨ AF_INET6 = AF_INET6) ∨ r = -1 ∧ AF_INET6 ≠ AF_INET ∧ AF_INET6 ≠ AF_INET6).
Proof.
  split; [by vm_compute|]. apply inet_pton_safe.
  by apply numbers_fit_check; vm_compute.
Defined.

(** ** The order of addresses *)

(** The number that the bytes denote, the first the most significant. *)
Fixpoint be_val (a : list byte) : Z := match a with x :: a => Z_of_byte x * 256 ^ Zlen a + be_val a | [] => 0 end.

Lemma be_val_range a : 0 <= be_val a < 256 ^ Zlen a.
Proof.
  induction a as [|x a IH]; cbn [be_val length]; [done|]. rewrite Nat2Z.inj_succ, Z.pow_succ_r by lia.
  pose proof (Z_of_byte_range x). nia.
Qed.

Lemma memcmp_be a b : length a = length b → Z.sgn (memcmp a b) = Z.sgn (be_val a - be_val b).
Proof.
  revert b. induction a as [|x a IH]; intros [|y b] Hl; try done. cbn [memcmp be_val]. injection Hl as Hl.
  rewrite Hl. destruct (Z.eqb_spec (Z_of_byte x) (Z_of_byte y)) as [-> |Hne].
  - rewrite IH by done. f_equal. lia.
  - pose proof (be_val_range a) as Ha. pose proof (be_val_range b) as Hb. rewrite Hl in Ha.
    destruct (Z.lt_gt_cases (Z_of_byte x) (Z_of_byte y)) as [[Hlt|Hgt] _]; [done| |].
    + rewrite !Z.sgn_neg by nia. done.
    + rewrite !Z.sgn_pos by nia. done.
Qed.

Lemma be_val_inj a b : length a = length b → be_val a = be_val b → a = b.
Proof.
  revert b. induction a as [|x a IH]; intros [|y b] Hl E; try done. injection Hl as Hl. cbn [be_val] in E. rewrite Hl in E.
  pose proof (be_val_range a) as Ha. pose proof (be_val_range b) as Hb. rewrite Hl in Ha.
  assert (Hx : Z_of_byte x = Z_of_byte y) by nia. f_equal; [by apply Z_of_byte_inj|]. apply IH; [done|]. rewrite Hx in E. lia.
Qed.

Lemma htons_spec p q : 0 <= p < 65536 → 0 <= q < 65536 → 0 <= htons p < 65536 ∧ (htons p = htons q → p = q).
Proof.
  intros Hp Hq. unfold htons. rewrite !land_ff, !Z.shiftr_div_pow2 by lia. change (2 ^ 8) with 256.
  Z.to_euclidean_division_equations. lia.
Qed.

(** The addresses of the two families that are compared by more than their families. *)
Definition wf_sockaddr (sa : sockaddr) : Prop :=
  match sa with
  | sockaddr_in port addr => 0 <= port < 65536 ∧ length addr = 4%nat
  | sockaddr_in6 port _ addr _ => 0 <= port < 65536 ∧ length addr = 16%nat
  | sa_other _ => False
  end.

(** Family, address and port as the digits of one number. *)
Definition sa_number (include_port : bool) (sa : sockaddr) : Z :=
  let '(n, port) := match sa with
    | sockaddr_in port addr => (le_val addr, port)
    | sockaddr_in6 port _ addr _ => (be_val addr, port)
    | sa_other _ => (0, 0)
    end in
  (sa_family sa * 2 ^ 128 + n) * 65536 + if include_port then htons port else 0.

Definition same_address (include_port : bool) (sa1 sa2 : sockaddr) : Prop :=
  match sa1, sa2 with
  | sockaddr_in p a, sockaddr_in q b => a = b ∧ (include_port = true → p = q)
  | sockaddr_in6 p _ a _, sockaddr_in6 q _ b _ => a = b ∧ (include_port = true → p = q)
  | _, _ => False
  end.

(** Numbers of two digits. *)
Lemma sgn_lex m a b x y : 0 <= x < m → 0 <= y < m → a ≠ b → Z.sgn (a * m + x - (b * m + y)) = Z.sgn (a - b).
Proof.
  intros Hx Hy Hne. destruct (Z.lt_gt_cases a b) as [[Hlt|Hgt] _]; [done| |].
  - rewrite !Z.sgn_neg by nia. done.
  - rewrite !Z.sgn_pos by nia. done.
Qed.

Lemma port_range (ip : bool) p : 0 <= p < 65536 → 0 <= (if ip then htons p else 0) < 65536.
Proof. intros Hp. destruct ip; [by apply (htons_spec p p)|lia]. Qed.

Lemma le_val_4 a : length a = 4%nat → 0 <= le_val a < 2 ^ 32.
Proof. intros H. pose proof (le_val_range a) as Hr. rewrite H in Hr. exact Hr. Qed.
Lemma be_val_16 a : length a = 16%nat → 0 <= be_val a < 2 ^ 128.
Proof. intros H. pose proof (be_val_range a) as Hr. rewrite H in Hr. exact Hr. Qed.
Lemma le_val_inj a b : length a = length b → le_val a = le_val b → a = b.
Proof. intros Hl E. by rewrite <- (le_bytes_val a), <- (le_bytes_val b), E, Hl. Qed.

Lemma sockaddr_cmp_number ip a b :
  wf_sockaddr a → wf_sockaddr b → Z.sgn (evutil_sockaddr_cmp a b ip) = Z.sgn (sa_number ip a - sa_number ip b).
Proof.
  intros Ha Hb. destruct a as [p x|p f x sc|]; [| |done]; destruct b as [q y|q f' y sc'|]; try done; destruct Ha as [Hp Hx], Hb as [Hq Hy];
    unfold sa_number; cbn [sa_family].
  - unfold evutil_sockaddr_cmp. change (sa_family _ - sa_family _ =? 0) with true. cbn [negb]. cbv iota.
    pose proof (port_range ip p Hp). pose proof (port_range ip q Hq). destruct (Z.ltb_spec (le_val x) (le_val y)).
    { rewrite sgn_lex by lia; symmetry; apply Z.sgn_neg; lia. }
    destruct (Z.ltb_spec (le_val y) (le_val x)); [rewrite sgn_lex by lia; symmetry; apply Z.sgn_pos; lia|].
    replace (le_val y) with (le_val x) by lia. destruct ip; f_equal; lia.
  - unfold evutil_sockaddr_cmp. change (sa_family _ - sa_family _) with (-8).
    pose proof (port_range ip p Hp). pose proof (port_range ip q Hq). pose proof (le_val_4 x Hx). pose proof (be_val_16 y Hy).
    unfold AF_INET, AF_INET6. rewrite sgn_lex by lia; symmetry; apply Z.sgn_neg; lia.
  - unfold evutil_sockaddr_cmp. change (sa_family _ - sa_family _) with 8.
    pose proof (port_range ip p Hp). pose proof (port_range ip q Hq). pose proof (le_val_4 y Hy). pose proof (be_val_16 x Hx).
    unfold AF_INET, AF_INET6. rewrite sgn_lex by lia; symmetry; apply Z.sgn_pos; lia.
  - unfold evutil_sockaddr_cmp. change (sa_family _ - sa_family _ =? 0) with true. cbn [negb]. cbv iota zeta.
    pose proof (port_range ip p Hp). pose proof (port_range ip q Hq). assert (Hlen : length x = length y) by congruence.
    pose proof (memcmp_be x y Hlen) as Hm. destruct (Z.eqb_spec (memcmp x y) 0) as [E|Hne]; cbn [negb].
    + rewrite E in Hm. replace (be_val y) with (be_val x) by (cbn in Hm; lia). destruct ip; f_equal; lia.
    + rewrite Hm, sgn_lex by (lia || (intros E; apply Hne, Z.sgn_null_iff; rewrite Hm; apply Z.sgn_null_iff; lia)). f_equal. lia.
Qed.

Lemma sa_number_inj ip a b : wf_sockaddr a → wf_sockaddr b → sa_number ip a = sa_number ip b ↔ same_address ip a b.
Proof.
  intros Ha Hb. destruct a as [p x|p f x sc|]; [| |done]; destruct b as [q y|q f' y sc'|]; try done; destruct Ha as [Hp Hx], Hb as [Hq Hy];
    unfold sa_number; cbn [sa_family same_address]; pose proof (port_range ip p Hp); pose proof (port_range ip q Hq);
    try pose proof (le_val_4 x Hx); try pose proof (be_val_16 y Hy); try pose proof (le_val_4 y Hy); try pose proof (be_val_16 x Hx);
    unfold AF_INET, AF_INET6.
  - split; [|by intros [-> E]; destruct ip; [rewrite E by done|]].
    intros E. split; [apply le_val_inj; [congruence|lia]|]. intros ->. by apply (htons_spec p q); [..|lia].
  - split; [lia|done].
  - split; [lia|done].
  - split; [|by intros [-> E]; destruct ip; [rewrite E by done|]].
    intros E. split; [apply be_val_inj; [congruence|lia]|]. intros ->. by apply (htons_spec p q); [..|lia].
Qed.

(** evutil_sockaddr_cmp orders the addresses of the two families totally: 0 means the same address
    (and the same port, where ports are compared), the sign turns when the addresses are exchanged, and
    smaller than smaller is smaller. *)
Theorem sockaddr_cmp_order include_port a b c :
  wf_sockaddr a → wf_sockaddr b → wf_sockaddr c →
  (evutil_sockaddr_cmp a b include_port = 0 ↔ same_address include_port a b) ∧
  Z.sgn (evutil_sockaddr_cmp b a include_port) = - Z.sgn (evutil_sockaddr_cmp a b include_port) ∧
  (evutil_sockaddr_cmp a b include_port < 0 → evutil_sockaddr_cmp b c include_port < 0 → evutil_sockaddr_cmp a c include_port < 0).
Proof.
  intros Ha Hb Hc. pose proof (sockaddr_cmp_number include_port a b Ha Hb) as Hab.
  pose proof (sockaddr_cmp_number include_port b a Hb Ha) as Hba. pose proof (sockaddr_cmp_number include_port b c Hb Hc) as Hbc.
  pose proof (sockaddr_cmp_number include_port a c Ha Hc) as Hac. rewrite <- sa_number_inj by done. split_and!; lia.
Qed.
Lemma sockaddr_cmp_order_witness :
  let a := sockaddr_in 80 [x0a; x00; x00; x01] in
  let b := sockaddr_in 80 [x0a; x00; x00; x02] in
  let c := sockaddr_in6 80 0 (replicate 15 x00 ++ [x01]) 0 in
  evutil_sockaddr_cmp a b true = -1 ∧ evutil_sockaddr_cmp b c true = -8 ∧ evutil_sockaddr_cmp a c true = -8 ∧
  Z.sgn (evutil_sockaddr_cmp b a true) = - Z.sgn (evutil_sockaddr_cmp a b true).
Proof. split_and!; [done..|]. by apply (sockaddr_cmp_order true _ _ (sockaddr_in6 80 0 (replicate 15 x00 ++ [x01]) 0)). Defined.

(** ** What is not as it should be *)

(** The test for room is one off: a text that just does not fit loses its last character, and NULL is
    not returned. *)
Example inet_ntop_cuts :
  evutil_inet_ntop AF_INET6 (replicate 15 x00 ++ [x01]) 3 = Some (Some (bs "::")).
Proof. by vm_compute. Qed.

(** Texts that are no addresses are accepted: a colon at the end, a numeral of C, blanks and signs in
    front of the numbers of an IPv4 address. *)
Example inet_pton_accepts :
  evutil_inet_pton AF_INET6 (bs "1::2:") = evutil_inet_pton AF_INET6 (bs "1::2") ∧
  evutil_inet_pton AF_INET6 (bs "0x1::2") = evutil_inet_pton AF_INET6 (bs "1::2") ∧
  evutil_inet_pton AF_INET (bs " 1. 2.+3.4") = evutil_inet_pton AF_INET (bs "1.2.3.4") ∧
  option_map fst (evutil_inet_pton AF_INET6 (bs "1::2")) = Some 1 ∧
  option_map fst (evutil_inet_pton AF_INET (bs "1.2.3.4")) = Some 1.
Proof. by vm_compute. Qed.

(** What follows the digits of the port is ignored; port 0 is written but not read. *)
Example parse_port_lax :
  evutil_parse_sockaddr_port (bs "1.2.3.4:80x") 16 = evutil_parse_sockaddr_port (bs "1.2.3.4:80") 16 ∧
  evutil_format_sockaddr_port_ (sockaddr_in 0 [x01; x02; x03; x04]) 64 = Some (bs "1.2.3.4:0") ∧
  evutil_parse_sockaddr_port (bs "1.2.3.4:0") 16 = Some (-1, None, 16).
Proof. by vm_compute. Qed.
