(* ===== verification/EvutilText.v ===== *)
(** * Characters and strings

    The tables that stand for ctype.h, comparison without regard to case, trimming. *)

From S2P Require Import Prelude Text Evutil.

Definition all_bytes : list byte := byte_of_Z <$> seqZ 0 256.
Lemma all_bytes_in c : c ∈ all_bytes.
Proof.
  apply list_elem_of_fmap. exists (Z_of_byte c). rewrite byte_of_Z_of_byte. split; [done|].
  apply elem_of_seqZ. pose proof (Z_of_byte_range c). lia.
Qed.

(** What holds of every byte can be checked. *)
Lemma bytes_checked (f : byte → bool) : forallb f all_bytes = true → ∀ c, f c = true.
Proof. rewrite forallb_forall. intros H c. apply H, list_elem_of_In, all_bytes_in. Qed.

Definition between (lo hi : Z) (c : byte) : bool := (lo <=? Z_of_byte c) && (Z_of_byte c <=? hi).

(** The tables say of each character what ctype.h says of it in the C locale. *)
Theorem tables_spec c :
  EVUTIL_ISDIGIT_ c = between 48 57 c ∧ EVUTIL_ISUPPER_ c = between 65 90 c ∧ EVUTIL_ISLOWER_ c = between 97 122 c ∧
  EVUTIL_ISALPHA_ c = (between 65 90 c || between 97 122 c) ∧
  EVUTIL_ISALNUM_ c = (between 48 57 c || between 65 90 c || between 97 122 c) ∧
  EVUTIL_ISSPACE_ c = isspace c ∧ EVUTIL_ISPRINT_ c = between 32 126 c ∧
  EVUTIL_ISXDIGIT_ c = (between 48 57 c || between 65 70 c || between 97 102 c).
Proof.
  split_and!; apply eqb_prop; revert c;
    match goal with |- ∀ c, Bool.eqb (?f c) _ = _ => idtac end;
    match goal with |- ∀ c, @?g c = true => apply (bytes_checked g) end; by vm_compute.
Qed.

(** Upper and lower case are inverse to each other on letters; the rest is left alone. *)
Theorem case_spec c :
  Z_of_byte (EVUTIL_TOLOWER_ c) = Z_of_byte c + (if EVUTIL_ISUPPER_ c then 32 else 0) ∧
  Z_of_byte (EVUTIL_TOUPPER_ c) = Z_of_byte c - (if EVUTIL_ISLOWER_ c then 32 else 0).
Proof.
  split; apply Z.eqb_eq; revert c; match goal with |- ∀ c, @?g c = true => apply (bytes_checked g) end; by vm_compute.
Qed.

Lemma char_val_inj c d : char_val c = char_val d → c = d.
Proof.
  unfold char_val, swrap. intros E. apply Z_of_byte_inj. pose proof (Z_of_byte_range c). pose proof (Z_of_byte_range d).
  change (8 - 1) with 7 in E. change (2 ^ 7) with 128 in E. change (2 ^ 8) with 256 in E.
  Z.to_euclidean_division_equations. lia.
Qed.

Lemma lower_nul c : EVUTIL_TOLOWER_ c = x00 → c = x00.
Proof.
  intros E. apply Z_of_byte_inj. destruct (case_spec c) as [H _]. rewrite E in H. pose proof (Z_of_byte_range c).
  change (Z_of_byte x00) with 0 in *. destruct (EVUTIL_ISUPPER_ c); lia.
Qed.

(** What a comparison of at most [n] characters looks at. *)
Lemma casecmp_take n s1 s2 :
  no_nul s1 → no_nul s2 →
  casecmp n s1 s2 = 0 ↔ EVUTIL_TOLOWER_ <$> take n s1 = EVUTIL_TOLOWER_ <$> take n s2.
Proof.
  revert s1 s2. induction n as [|n IH]; intros s1 s2 H1 H2; [done|]. cbn [casecmp].
  assert (Hz : ∀ c, c ≠ x00 → char_val (EVUTIL_TOLOWER_ c) ≠ char_val x00) by (by intros c Hc E%char_val_inj%lower_nul).
  destruct s1 as [|c1 s1], s2 as [|c2 s2]; cbn [next_char take fmap list_fmap].
  - done.
  - apply not_elem_of_cons in H2 as [Hc _]. change (EVUTIL_TOLOWER_ x00) with x00. specialize (Hz c2 ltac:(congruence)).
    destruct (Z.ltb_spec (char_val x00) (char_val (EVUTIL_TOLOWER_ c2))); [done|].
    destruct (Z.ltb_spec (char_val (EVUTIL_TOLOWER_ c2)) (char_val x00)); [done|lia].
  - apply not_elem_of_cons in H1 as [Hc _]. change (EVUTIL_TOLOWER_ x00) with x00. specialize (Hz c1 ltac:(congruence)).
    destruct (Z.ltb_spec (char_val (EVUTIL_TOLOWER_ c1)) (char_val x00)); [done|].
    destruct (Z.ltb_spec (char_val x00) (char_val (EVUTIL_TOLOWER_ c1))); [done|lia].
  - apply not_elem_of_cons in H1 as [Hc1 H1], H2 as [Hc2 H2]. specialize (Hz c1 ltac:(congruence)).
    destruct (Z.ltb_spec (char_val (EVUTIL_TOLOWER_ c1)) (char_val (EVUTIL_TOLOWER_ c2))) as [Hlt|Hge].
    { split; [done|]. intros [= E _]. rewrite E in Hlt. lia. }
    destruct (Z.ltb_spec (char_val (EVUTIL_TOLOWER_ c2)) (char_val (EVUTIL_TOLOWER_ c1))) as [Hlt|Hge'].
    { split; [done|]. intros [= E _]. rewrite E in Hlt. lia. }
    assert (E : EVUTIL_TOLOWER_ c1 = EVUTIL_TOLOWER_ c2) by (apply char_val_inj; lia).
    rewrite (proj2 (Z.eqb_neq _ 0)) by exact Hz. rewrite IH by done. rewrite E. split; [by intros ->|by intros [=]].
Qed.

(** Two strings compare equal when they differ in case only. *)
Theorem strcasecmp_spec s1 s2 :
  no_nul s1 → no_nul s2 → evutil_ascii_strcasecmp s1 s2 = 0 ↔ EVUTIL_TOLOWER_ <$> s1 = EVUTIL_TOLOWER_ <$> s2.
Proof. intros H1 H2. unfold evutil_ascii_strcasecmp. rewrite casecmp_take, !take_ge by (done || lia). done. Qed.

(** Trimming takes the blanks at the end, all of them and nothing else. *)
Lemma drop_blanks_spec l :
  ∃ b, l = b ++ drop_blanks l ∧ Forall (λ c, c = Byte.x20 ∨ c = Byte.x09) b ∧
    ∀ c, head (drop_blanks l) = Some c → c ≠ Byte.x20 ∧ c ≠ Byte.x09.
Proof.
  induction l as [|c l (b & Hl & Hb & Hh)]; [by exists []|]. cbn [drop_blanks].
  destruct (decide (c = Byte.x20 ∨ c = Byte.x09)) as [Hc|Hc].
  - exists (c :: b). split; [by rewrite Hl at 1|]. split; [by constructor|done].
  - exists []. split; [done|]. split; [done|]. intros d [= <-]. tauto.
Qed.
Theorem rtrim_spec s :
  ∃ b, s = evutil_rtrim_lws_ s ++ b ∧ Forall (λ c, c = Byte.x20 ∨ c = Byte.x09) b ∧
    ∀ c, last (evutil_rtrim_lws_ s) = Some c → c ≠ Byte.x20 ∧ c ≠ Byte.x09.
Proof.
  destruct (drop_blanks_spec (reverse s)) as (b & Hs & Hb & Hh). exists (reverse b). unfold evutil_rtrim_lws_. split_and!.
  - by rewrite <- reverse_app, <- Hs, reverse_involutive.
  - by apply Forall_reverse.
  - intros c. rewrite last_reverse. apply Hh.
Qed.
