(* ===== verification/EvutilRand.v ===== *)
(** * The weak random generator

    evutil_weakrand_range_ draws numbers until one is small enough.  That it comes to an end rests on
    the constants of the generator: whatever the seed, every number of so many low bits turns up. *)

From S2P Require Import Prelude Text Evutil.

(** A step without the bounds of the word. *)
Definition step (x : Z) : Z := 1103515245 * x + 12345.

Lemma weakrand_step seed : evutil_weakrand_ seed = step seed mod 2 ^ 31.
Proof.
  unfold evutil_weakrand_, uint32, wrap, step. change 0x7fffffff with (Z.ones 31). rewrite Z.land_ones by lia.
  Z.to_euclidean_division_equations. lia.
Qed.

Lemma step_mod x : step (x mod 2 ^ 31) mod 2 ^ 31 = step x mod 2 ^ 31.
Proof.
  unfold step. rewrite <- Z.add_mod_idemp_l, Z.mul_mod_idemp_r, Z.add_mod_idemp_l by lia. done.
Qed.

(** 2 ^ k steps at once: an odd factor, and 2 ^ k times an odd number is added. *)
Lemma steps_at_once k :
  ∃ u v, ∀ x, Nat.iter (2 ^ k) step x = (1 + 4 * u) * x + 2 ^ Z.of_nat k * (1 + 2 * v).
Proof.
  induction k as [|k (u & v & IH)].
  - exists 275878811, 6172. intros x. cbn. unfold step. lia.
  - exists (2 * u + 4 * u * u), (u + v + 2 * u * v). intros x.
    rewrite Nat.pow_succ_r'. replace (2 * 2 ^ k)%nat with (2 ^ k + 2 ^ k)%nat by lia.
    rewrite Nat.iter_add, !IH, Nat2Z.inj_succ, Z.pow_succ_r by lia. ring.
Qed.

(** Some number that 2 ^ k divides turns up within 2 ^ k steps. *)
Lemma multiple_turns_up k x : ∃ n, (n < 2 ^ k)%nat ∧ Z.divide (2 ^ Z.of_nat k) (Nat.iter n step x).
Proof.
  induction k as [|k (n & Hn & w & Hw)].
  - exists 0%nat. split; [cbn; lia|]. apply Z.divide_1_l.
  - rewrite Nat.pow_succ_r', Nat2Z.inj_succ, Z.pow_succ_r by lia.
    destruct (Z.Even_or_Odd w) as [[y ->]|[y ->]].
    + exists n. split; [lia|]. exists y. rewrite Hw. ring.
    + destruct (steps_at_once k) as (u & v & H). exists (2 ^ k + n)%nat. split; [lia|].
      rewrite Nat.iter_add, H, Hw. exists (1 + y + v + 2 * u + 4 * u * y). ring.
Qed.

Lemma iter_weakrand n seed : Nat.iter (S n) evutil_weakrand_ seed = Nat.iter (S n) step seed mod 2 ^ 31.
Proof.
  induction n as [|n IH]; [apply weakrand_step|]. by rewrite Nat.iter_succ, IH, weakrand_step, step_mod.
Qed.

(** The generator returns to 0. *)
Lemma zero_turns_up seed : ∃ n, Z.of_nat n < 2 ^ 31 ∧ Nat.iter (S n) evutil_weakrand_ seed = 0.
Proof.
  destruct (multiple_turns_up 31 (step seed)) as (n & Hn & Hd). exists n. split.
  - apply Nat2Z.inj_lt in Hn. rewrite Nat2Z.inj_pow in Hn. exact Hn.
  - rewrite iter_weakrand, Nat.iter_succ_r. apply Z.mod_divide; [lia|exact Hd].
Qed.

Lemma weakrand_loop_ok divisor top n fuel seed :
  0 < divisor → (n < fuel)%nat → Z.quot (Nat.iter (S n) evutil_weakrand_ seed) divisor < top →
  ∃ r seed', weakrand_loop fuel divisor top seed = Some (r, seed') ∧ 0 <= r < top ∧ 0 <= seed' < 2 ^ 31.
Proof.
  intros Hd. revert n seed. induction fuel as [|fuel IH]; intros n seed Hn Ht; [lia|]. cbn [weakrand_loop].
  assert (Hr : 0 <= evutil_weakrand_ seed < 2 ^ 31) by (rewrite weakrand_step; apply Z.mod_pos_bound; lia).
  destruct (Z.leb_spec top (Z.quot (evutil_weakrand_ seed) divisor)) as [Hge|Hlt].
  - destruct n as [|n]; [cbn in Ht; lia|]. apply (IH n); [lia|]. by rewrite Nat.iter_succ_r in Ht.
  - eexists _, _. split; [done|]. split; [|done]. split; [|done]. apply Z.quot_pos; lia.
Qed.

(** C25. evutil_weakrand_range_ terminates, for every seed and every range: within 2^31 draws it has a
    number of the range, which it returns. *)
Theorem weakrand_range_total top seed :
  1 <= top <= EVUTIL_WEAKRAND_MAX →
  ∃ fuel, Z.of_nat fuel <= 2 ^ 31 ∧
    ∃ r seed', evutil_weakrand_range_ fuel top seed = Some (r, seed') ∧ 0 <= r < top ∧ 0 <= seed' < 2 ^ 31.
Proof.
  intros Ht. destruct (zero_turns_up seed) as (n & Hn & H0). exists (S n). split; [lia|].
  apply (weakrand_loop_ok _ _ n); [apply Z.quot_str_pos; lia|lia|]. rewrite H0, Z.quot_0_l; [lia|].
  apply Z.neq_sym, Z.lt_neq, Z.quot_str_pos. lia.
Qed.
Lemma weakrand_range_total_witness :
  evutil_weakrand_range_ 1 1000 42 = Some (582, 1250496027) ∧
  ∃ fuel, Z.of_nat fuel <= 2 ^ 31 ∧
    ∃ r seed', evutil_weakrand_range_ fuel 1000 42 = Some (r, seed') ∧ 0 <= r < 1000 ∧ 0 <= seed' < 2 ^ 31.
Proof. split; [by vm_compute|]. apply weakrand_range_total. unfold EVUTIL_WEAKRAND_MAX. lia. Defined.
