(* ===== verification/TokenBucket.v ===== *)
(** * Token buckets

    Models the buckets of libevent/bufferevent_ratelim.c: how many bytes may be read and written at
    present, refilled by a rate with every tick of a clock up to a maximum.  The integers have the
    widths of a 64-bit Linux: size_t is unsigned and ev_ssize_t signed of 64 bits, unsigned and
    ev_uint32_t of 32 bits. *)

From S2P Require Import Prelude Timeval.

Definition int64 (z : Z) : Z := swrap 64 z.
Definition EV_SSIZE_MAX : Z := 0x7fffffffffffffff.
Definition EV_SSIZE_MIN : Z := - EV_SSIZE_MAX - 1.
Definition EV_RATE_LIMIT_MAX : Z := EV_SSIZE_MAX.
Definition COMMON_TIMEOUT_MICROSECONDS_MASK : Z := 0x000fffff.

(** A result of ev_ssize_t; [None] is the overflow of a signed integer. *)
Definition ssize_chk (z : Z) : option Z :=
  if (EV_SSIZE_MIN <=? z) && (z <=? EV_SSIZE_MAX) then Some z else None.

(** ** Data *)

(** struct ev_token_bucket *)
Record ev_token_bucket := Ev_token_bucket { read_limit : Z; write_limit : Z; last_updated : Z }.

(** struct ev_token_bucket_cfg *)
Record ev_token_bucket_cfg := Ev_token_bucket_cfg {
  read_rate : Z; read_maximum : Z; write_rate : Z; write_maximum : Z; tick_timeout : timeval; msec_per_tick : Z
}.

(** The block that calloc returns. *)
Definition zero_bucket : ev_token_bucket := Ev_token_bucket 0 0 0.

(** ** Operations *)

(** [tick_len]: [None] is the null pointer. [mm]: the answer of mm_calloc. *)
Definition ev_token_bucket_cfg_new (mm : bool) (read_rate read_burst write_rate write_burst : Z)
    (tick_len : option timeval) : option ev_token_bucket_cfg :=
  let tick_len := default (Timeval 1 0) tick_len in
  if (read_burst <? read_rate) || (write_burst <? write_rate) || (read_rate <? 1) || (write_rate <? 1) then None
  else if (EV_RATE_LIMIT_MAX <? read_rate) || (EV_RATE_LIMIT_MAX <? write_rate) ||
          (EV_RATE_LIMIT_MAX <? read_burst) || (EV_RATE_LIMIT_MAX <? write_burst) then None
  else if negb mm then None
  else Some (Ev_token_bucket_cfg read_rate read_burst write_rate write_burst tick_len
    (uint32 (tv_sec tick_len * 1000 + Z.land (tv_usec tick_len) COMMON_TIMEOUT_MICROSECONDS_MASK / 1000))).

(** [None]: a division by zero. *)
Definition ev_token_bucket_get_tick_ (tv : timeval) (cfg : ev_token_bucket_cfg) : option Z :=
  let msec := uint64 (tv_sec tv * 1000 + Z.quot (tv_usec tv) 1000) in
  if msec_per_tick cfg =? 0 then None else Some (uint32 (msec / msec_per_tick cfg)).

(** A limit that is above a new maximum. *)
Definition clipped (maximum limit : Z) : Z := if int64 maximum <? limit then int64 maximum else limit.

Definition ev_token_bucket_init_ (bucket : ev_token_bucket) (cfg : ev_token_bucket_cfg) (current_tick : Z)
    (reinitialize : bool) : ev_token_bucket :=
  if reinitialize then
    Ev_token_bucket (clipped (read_maximum cfg) (read_limit bucket)) (clipped (write_maximum cfg) (write_limit bucket))
      (last_updated bucket)
  else Ev_token_bucket (int64 (read_rate cfg)) (int64 (write_rate cfg)) current_tick.

(** The new limit of one direction: a difference and a quotient of size_t; then a product and a sum
    of size_t, stored in an ev_ssize_t. *)
Definition refilled (limit maximum rate n_ticks : Z) : Z :=
  if uint64 (maximum - limit) / n_ticks <? rate then int64 maximum
  else int64 (uint64 (uint64 limit + uint64 (n_ticks * rate))).

Definition ev_token_bucket_update_ (bucket : ev_token_bucket) (cfg : ev_token_bucket_cfg) (current_tick : Z)
    : Z * ev_token_bucket :=
  let n_ticks := uint32 (current_tick - last_updated bucket) in
  if (n_ticks =? 0) || (INT_MAX <? n_ticks) then (0, bucket)
  else (1, Ev_token_bucket (refilled (read_limit bucket) (read_maximum cfg) (read_rate cfg) n_ticks)
                           (refilled (write_limit bucket) (write_maximum cfg) (write_rate cfg) n_ticks) current_tick).

(** LIM: the limit of one direction; its change by a value that is not too large. *)
Definition LIM (is_write : bool) (b : ev_token_bucket) : Z := if is_write then write_limit b else read_limit b.
Definition set_LIM (is_write : bool) (n : Z) (b : ev_token_bucket) : ev_token_bucket :=
  if is_write then Ev_token_bucket (read_limit b) n (last_updated b) else Ev_token_bucket n (write_limit b) (last_updated b).
(** [limit -= n] *)
Definition decrement (is_write : bool) (n : Z) (b : ev_token_bucket) : option ev_token_bucket :=
  l ← ssize_chk (LIM is_write b - n); Some (set_LIM is_write l b).

Definition rate (is_write : bool) (c : ev_token_bucket_cfg) : Z := if is_write then write_rate c else read_rate c.
Definition maximum (is_write : bool) (c : ev_token_bucket_cfg) : Z :=
  if is_write then write_maximum c else read_maximum c.

(** ** What holds of configurations and buckets *)

Record cfg_ok (c : ev_token_bucket_cfg) : Prop := {
  co_rate w : 1 <= rate w c <= maximum w c;
  co_max w : maximum w c <= EV_RATE_LIMIT_MAX
}.

(** A bucket holds no more than the maximum; it may be in debt. *)
Record bucket_ok (c : ev_token_bucket_cfg) (b : ev_token_bucket) : Prop := {
  bk_limit w : EV_SSIZE_MIN <= LIM w b <= maximum w c;
  bk_tick : 0 <= last_updated b < 2 ^ 32
}.

Lemma int64_id z : EV_SSIZE_MIN <= z <= EV_SSIZE_MAX → int64 z = z.
Proof. intros H. unfold int64, swrap, EV_SSIZE_MIN, EV_SSIZE_MAX in *. rewrite Z.mod_small; lia. Qed.

Lemma int64_uint64 z : int64 (uint64 z) = int64 z.
Proof. unfold int64, swrap, uint64, wrap. by rewrite Z.add_mod_idemp_l by lia. Qed.

Lemma ssize_chk_Some z : EV_SSIZE_MIN <= z <= EV_SSIZE_MAX → ssize_chk z = Some z.
Proof. intros H. unfold ssize_chk. by rewrite !(proj2 (Z.leb_le _ _)) by lia. Qed.

Lemma LIM_ext b b' : (∀ w, LIM w b = LIM w b') → last_updated b = last_updated b' → b = b'.
Proof. destruct b, b'. intros H ?. pose proof (H false). pose proof (H true). simpl in *. congruence. Qed.

Lemma LIM_set w w' n b : LIM w (set_LIM w' n b) = if bool_decide (w = w') then n else LIM w b.
Proof. by destruct w, w'. Qed.

Lemma cfg_new_ok mm rr rb wr wb tick c : ev_token_bucket_cfg_new mm rr rb wr wb tick = Some c → cfg_ok c.
Proof.
  unfold ev_token_bucket_cfg_new. intros H. repeat case_match; simplify_eq.
  repeat match goal with E : _ || _ = false |- _ => apply orb_false_iff in E as [? ?] end.
  rewrite ?Z.ltb_ge in *. split; intros []; simpl; lia.
Qed.

(** A tick of at least a millisecond, and below 49 days, is not empty. *)
Lemma cfg_new_msec mm rr rb wr wb tv c :
  ev_token_bucket_cfg_new mm rr rb wr wb (Some tv) = Some c → tv_normal tv → 1000 <= tv_micros tv < 2 ^ 32 * 1000 →
  1 <= msec_per_tick c.
Proof.
  unfold ev_token_bucket_cfg_new, tv_normal, tv_micros. intros H Hn Hm. repeat case_match; simplify_eq. simpl.
  change COMMON_TIMEOUT_MICROSECONDS_MASK with (Z.ones 20). rewrite Z.land_ones, (Z.mod_small (tv_usec tv)) by lia.
  rewrite uint32_id; dlia.
Qed.

(** ** Refilling *)

(** What the comment in the code would write if integers were unbounded. *)
Definition naive (limit maximum rate n_ticks : Z) : Z := Z.min maximum (limit + n_ticks * rate).

Lemma refilled_naive limit maximum rate n :
  EV_SSIZE_MIN <= limit <= maximum → maximum <= EV_SSIZE_MAX → 1 <= rate → 1 <= n →
  refilled limit maximum rate n = naive limit maximum rate n.
Proof.
  intros Hl Hm Hr Hn. unfold refilled, naive. unfold EV_SSIZE_MIN, EV_SSIZE_MAX in *.
  rewrite uint64_id by lia. destruct (Z.ltb_spec ((maximum - limit) / n) rate) as [Hlt|Hge].
  - rewrite int64_id by (unfold EV_SSIZE_MIN, EV_SSIZE_MAX; lia).
    pose proof (Z.mul_succ_div_gt (maximum - limit) n ltac:(lia)). nia.
  - pose proof (Z.mul_div_le (maximum - limit) n ltac:(lia)). assert (n * rate <= maximum - limit) by nia.
    rewrite int64_uint64, (uint64_id (n * rate)) by lia.
    unfold int64, swrap, uint64, wrap. rewrite <- Z.add_assoc, Z.add_mod_idemp_l by lia.
    rewrite Z.mod_small; lia.
Qed.

Lemma naive_range limit maximum rate n :
  EV_SSIZE_MIN <= limit <= maximum → 0 <= rate → 0 <= n → EV_SSIZE_MIN <= naive limit maximum rate n <= maximum.
Proof. unfold naive. nia. Qed.

(** Two refills are one. *)
Lemma naive_twice limit maximum rate n m :
  0 <= rate → 0 <= m → naive (naive limit maximum rate n) maximum rate m = naive limit maximum rate (n + m).
Proof. unfold naive. nia. Qed.

(** The ticks that have passed according to counters of 32 bits. *)
Definition elapsed (b : ev_token_bucket) (tick : Z) : Z := uint32 (tick - last_updated b).

(** An abstract update: by exact integers, and not at all when no tick has passed or the clock has
    been turned back. *)
Definition naive_update (b : ev_token_bucket) (c : ev_token_bucket_cfg) (tick : Z) : Z * ev_token_bucket :=
  let n := elapsed b tick in
  if bool_decide (1 <= n <= INT_MAX) then
    (1, Ev_token_bucket (naive (LIM false b) (maximum false c) (rate false c) n)
                        (naive (LIM true b) (maximum true c) (rate true c) n) tick)
  else (0, b).

Lemma update_exact_aux b c tick :
  cfg_ok c → bucket_ok c b → 0 <= tick < 2 ^ 32 →
  ev_token_bucket_update_ b c tick = naive_update b c tick ∧ bucket_ok c (ev_token_bucket_update_ b c tick).2.
Proof.
  intros Hc Hb Ht.
  assert (E : ev_token_bucket_update_ b c tick = naive_update b c tick).
  { unfold ev_token_bucket_update_, naive_update, elapsed.
    assert (0 <= uint32 (tick - last_updated b) < 2 ^ 32) by (unfold uint32, wrap; apply Z.mod_pos_bound; lia).
    case_bool_decide as Hn.
    - rewrite (proj2 (Z.eqb_neq (uint32 (tick - last_updated b)) 0)), (proj2 (Z.ltb_ge INT_MAX (uint32 (tick - last_updated b)))) by lia. cbn [orb].
      pose proof (co_max _ Hc) as Hm. pose proof (co_rate _ Hc) as Hr. pose proof (bk_limit _ _ Hb) as Hl.
      unfold EV_RATE_LIMIT_MAX in Hm.
      pose proof (Hl false). pose proof (Hl true). pose proof (Hr false). pose proof (Hr true).
      pose proof (Hm false). pose proof (Hm true). cbn in *. by rewrite !refilled_naive by lia.
    - destruct (Z.eqb_spec (uint32 (tick - last_updated b)) 0); [done|].
      by rewrite (proj2 (Z.ltb_lt INT_MAX (uint32 (tick - last_updated b)))) by lia. }
  split; [done|]. rewrite E. unfold naive_update. case_bool_decide as Hn; [|done]. split; [|done].
  intros w. pose proof (co_rate _ Hc w). pose proof (bk_limit _ _ Hb w).
  destruct w; cbn in *; apply naive_range; lia.
Qed.

(** Whatever has been spent and whichever tick it is, also when the counter of the ticks has
    wrapped around or the clock has been turned back, ev_token_bucket_update_ computes with its words
    of 64 and 32 bits what exact integers give: the limits grow by the rate with every tick up to the
    maximum.  The bucket stays within its bounds, so that this holds of the next update, too. *)
Theorem update_exact b c tick :
  cfg_ok c → bucket_ok c b → 0 <= tick < 2 ^ 32 →
  ev_token_bucket_update_ b c tick = naive_update b c tick ∧ bucket_ok c (ev_token_bucket_update_ b c tick).2.
Proof. apply update_exact_aux. Qed.

Lemma update_exact_witness :
  ∃ c b, cfg_ok c ∧ bucket_ok c b ∧ elapsed b 1 = 3 ∧ ev_token_bucket_update_ b c 1 = naive_update b c 1 ∧
    (ev_token_bucket_update_ b c 1).2 = Ev_token_bucket 250 200 1.
Proof.
  exists (Ev_token_bucket_cfg 100 500 50 200 (Timeval 1 0) 1000), (Ev_token_bucket (-50) 90 (2 ^ 32 - 2)).
  assert (Hc : cfg_ok (Ev_token_bucket_cfg 100 500 50 200 (Timeval 1 0) 1000)) by (split; intros []; unfold EV_RATE_LIMIT_MAX, EV_SSIZE_MAX; cbn; lia).
  assert (Hb : bucket_ok (Ev_token_bucket_cfg 100 500 50 200 (Timeval 1 0) 1000) (Ev_token_bucket (-50) 90 (2 ^ 32 - 2))).
  { split; [|by cbn]. by intros []; unfold EV_SSIZE_MIN, EV_SSIZE_MAX; cbn. }
  split; [done|]. split; [done|]. split; [reflexivity|]. split; [|reflexivity].
  apply (update_exact _ _ 1 Hc Hb). lia.
Defined.

(** ** The rate *)

(** What happens to a bucket: its owner looks at the clock, which shows tick [t], counted without
    bounds; it reads or writes [n] bytes. *)
Inductive bucket_event := looked (t : Z) | took (is_write : bool) (n : Z).

(** The tick of the last look, and the bucket. *)
Definition bucket_step (c : ev_token_bucket_cfg) (e : bucket_event) (s : Z * ev_token_bucket)
    : option (Z * ev_token_bucket) :=
  match e with
  | looked t => Some (t, (ev_token_bucket_update_ s.2 c (uint32 t)).2)
  | took w n => b ← decrement w n s.2; Some (s.1, b)
  end.
Fixpoint bucket_run (c : ev_token_bucket_cfg) (l : list bucket_event) (s : Z * ev_token_bucket)
    : option (Z * ev_token_bucket) :=
  match l with [] => Some s | e :: l => s ← bucket_step c e s; bucket_run c l s end.

(** The clock runs forwards, and is looked at once in 2^31 ticks; no more is taken than there is. *)
Definition fair (s : Z * ev_token_bucket) (e : bucket_event) : Prop :=
  match e with
  | looked t => s.1 <= t <= s.1 + INT_MAX
  | took w n => 0 <= n <= Z.max 0 (LIM w s.2)
  end.
Fixpoint all_fair (c : ev_token_bucket_cfg) (l : list bucket_event) (s : Z * ev_token_bucket) : Prop :=
  match l with
  | [] => True
  | e :: l => fair s e ∧ ∀ s', bucket_step c e s = Some s' → all_fair c l s'
  end.

Fixpoint taken (is_write : bool) (l : list bucket_event) : Z :=
  match l with
  | [] => 0
  | took w n :: l => (if Bool.eqb w is_write then n else 0) + taken is_write l
  | looked _ :: l => taken is_write l
  end.

Lemma LIM_update b c tick w :
  LIM w (naive_update b c tick).2 =
    if bool_decide (1 <= elapsed b tick <= INT_MAX) then naive (LIM w b) (maximum w c) (rate w c) (elapsed b tick)
    else LIM w b.
Proof. unfold naive_update. by case_bool_decide; destruct w. Qed.

Lemma elapsed_true b t0 t : last_updated b = uint32 t0 → t0 <= t <= t0 + INT_MAX → elapsed b (uint32 t) = t - t0.
Proof.
  intros E H. unfold elapsed, uint32, wrap in *. rewrite E, <- Zminus_mod. unfold INT_MAX in *. apply Z.mod_small. lia.
Qed.

(** What a bucket that is not in debt has after a step. *)
Lemma bucket_step_ok c e t b :
  cfg_ok c → bucket_ok c b → last_updated b = uint32 t → (∀ w, 0 <= LIM w b) → fair (t, b) e →
  ∃ t' b', bucket_step c e (t, b) = Some (t', b') ∧ bucket_ok c b' ∧ last_updated b' = uint32 t' ∧ t <= t' ∧
    ∀ w, 0 <= LIM w b' ∧ LIM w b' + taken w [e] <= LIM w b + rate w c * (t' - t).
Proof.
  intros Hc Hb Hl H0 Hf. destruct e as [t'|w n]; cbn [fair fst snd] in Hf.
  - assert (Ht : 0 <= uint32 t' < 2 ^ 32) by (unfold uint32, wrap; apply Z.mod_pos_bound; lia).
    destruct (update_exact_aux b c (uint32 t') Hc Hb Ht) as [E Hb'].
    exists t', (ev_token_bucket_update_ b c (uint32 t')).2. split; [done|]. split; [done|].
    rewrite E. pose proof (elapsed_true b t t' Hl Hf) as He. split.
    + unfold naive_update. case_bool_decide as Hn; [done|]. cbn [snd]. rewrite He in Hn. replace t' with t by lia. done.
    + split; [lia|]. intros w. rewrite LIM_update, He. pose proof (H0 w). pose proof (co_rate _ Hc w).
      cbn [taken].
      assert (0 <= rate w c * (t' - t)) by (apply Z.mul_nonneg_nonneg; lia).
      case_bool_decide; unfold naive; [rewrite (Z.mul_comm (t' - t))|]; lia.
  - pose proof (bk_limit _ _ Hb w). pose proof (co_max _ Hc w). pose proof (H0 w). unfold EV_RATE_LIMIT_MAX in *.
    exists t, (set_LIM w (LIM w b - n) b). unfold bucket_step, decrement. cbn [snd fst].
    rewrite ssize_chk_Some by (unfold EV_SSIZE_MIN in *; lia). cbn [mbind option_bind].
    split; [done|]. split; [|split; [by destruct w|split; [lia|]]].
    + split; [|by destruct w, Hb]. intros w'. rewrite LIM_set. case_bool_decide; [subst; unfold EV_SSIZE_MIN in *; lia|].
      apply (bk_limit _ _ Hb).
    + intros w'. rewrite LIM_set. cbn [taken]. pose proof (H0 w').
      case_bool_decide; subst; [rewrite eqb_reflx; lia|]. destruct (Bool.eqb_spec w w'); [congruence|lia].
Qed.

Lemma taken_cons w e l : taken w (e :: l) = taken w [e] + taken w l.
Proof. destruct e; cbn; lia. Qed.

(** C12. Reads and writes alternate in any way with looks at a clock that runs forwards and is looked at
    at least once in INT_MAX ticks; nothing is taken but what the bucket holds ([fair]).  Then a bucket
    that is not in debt never gets into debt and never overflows, also when the counter of ticks wraps
    around, and what is taken is at most what was there plus the rate times the ticks that have passed,
    so at most a burst of the maximum plus the rate times the ticks. *)
Theorem rate_guaranteed c l t0 b0 :
  cfg_ok c → bucket_ok c b0 → last_updated b0 = uint32 t0 → (∀ w, 0 <= LIM w b0) → all_fair c l (t0, b0) →
  ∃ t b, bucket_run c l (t0, b0) = Some (t, b) ∧ bucket_ok c b ∧ ∀ w, 0 <= LIM w b ∧
    LIM w b + taken w l <= LIM w b0 + rate w c * (t - t0) ∧ taken w l <= maximum w c + rate w c * (t - t0).
Proof.
  intros Hc. revert t0 b0. induction l as [|e l IH]; intros t0 b0 Hb Hl H0 Hf.
  - exists t0, b0. split; [done|]. split; [done|]. intros w. pose proof (H0 w). pose proof (bk_limit _ _ Hb w). cbn. lia.
  - destruct Hf as [Hf Hr]. destruct (bucket_step_ok c e t0 b0 Hc Hb Hl H0 Hf) as (t1 & b1 & E & Hb1 & Hl1 & Ht & H1).
    destruct (IH t1 b1 Hb1 Hl1 (λ w, proj1 (H1 w)) (Hr _ E)) as (t & b & Er & Hb' & H).
    exists t, b. cbn [bucket_run]. rewrite E. cbn [mbind option_bind]. split; [done|]. split; [done|]. intros w.
    rewrite taken_cons. destruct (H w) as (? & ? & ?), (H1 w) as [? ?]. pose proof (bk_limit _ _ Hb w). lia.
Qed.

Lemma rate_guaranteed_witness :
  let c := Ev_token_bucket_cfg 100 500 50 200 (Timeval 1 0) 1000 in
  let b := ev_token_bucket_init_ zero_bucket c 7 false in
  let l := [took false 80; looked 9; took false 220; took true 150; looked 100; took false 500] in
  all_fair c l (7, b) ∧ taken false l = 800 ∧
  ∃ t b', bucket_run c l (7, b) = Some (t, b') ∧ taken false l <= 500 + 100 * (t - 7).
Proof.
  intros c b l.
  assert (Hc : cfg_ok c) by (split; intros []; unfold EV_RATE_LIMIT_MAX, EV_SSIZE_MAX; cbn; lia).
  assert (Hb : bucket_ok c b) by (split; [by intros []; unfold EV_SSIZE_MIN, EV_SSIZE_MAX; cbn|by cbn]).
  assert (Hf : all_fair c l (7, b)).
  { unfold l. repeat (cbn [all_fair]; split; [vm_compute; intuition discriminate|
      let E := fresh in intros ? E; vm_compute in E; injection E as <-]). done. }
  split; [done|]. split; [reflexivity|].
  destruct (rate_guaranteed c l 7 b Hc Hb eq_refl ltac:(by intros []; cbn) Hf) as (t & b' & E & _ & H).
  exists t, b'. split; [done|]. apply (H false).
Defined.

(** ** What the owner of a bucket needs to know *)

Lemma update_grows k l tick :
  cfg_ok k → bucket_ok k l → 0 <= tick < 2 ^ 32 →
  bucket_ok k (ev_token_bucket_update_ l k tick).2 ∧ ∀ w, LIM w l <= LIM w (ev_token_bucket_update_ l k tick).2.
Proof.
  intros Hk Hl Ht. destruct (update_exact_aux l k tick Hk Hl Ht) as [-> Hb]. split; [done|]. intros w.
  rewrite LIM_update. pose proof (bk_limit _ _ Hl w). pose proof (co_rate _ Hk w).
  case_bool_decide; [unfold naive; nia|lia].
Qed.

Lemma get_tick_some tv k : 1 <= msec_per_tick k → ∃ t, ev_token_bucket_get_tick_ tv k = Some t ∧ 0 <= t < 2 ^ 32.
Proof.
  intros Hm. unfold ev_token_bucket_get_tick_. rewrite (proj2 (Z.eqb_neq _ _)) by lia. eexists. split; [done|].
  unfold uint32, wrap. apply Z.mod_pos_bound. lia.
Qed.

Lemma clipped_min m l : m <= EV_SSIZE_MAX → EV_SSIZE_MIN <= m → clipped m l = Z.min m l.
Proof. intros H1 H2. unfold clipped. rewrite int64_id by lia. destruct (Z.ltb_spec m l); lia. Qed.

Lemma LIM_init l k tick re w :
  cfg_ok k → LIM w (ev_token_bucket_init_ l k tick re) = if re then Z.min (maximum w k) (LIM w l) else rate w k.
Proof.
  intros Hk. pose proof (co_rate _ Hk w). pose proof (co_max _ Hk w). unfold EV_RATE_LIMIT_MAX in *. unfold ev_token_bucket_init_.
  destruct re, w; cbn in *; rewrite ?clipped_min, ?int64_id by (unfold EV_SSIZE_MIN, EV_SSIZE_MAX in *; lia); done.
Qed.

(** A bucket that has been set up, or that has got another configuration. *)
Lemma init_ok l k tick re :
  cfg_ok k → 0 <= tick < 2 ^ 32 → (re = true → ∃ k', bucket_ok k' l) → bucket_ok k (ev_token_bucket_init_ l k tick re).
Proof.
  intros Hk Ht Hl. split.
  - intros w. rewrite LIM_init by done. pose proof (co_rate _ Hk w).
    destruct re; [|unfold EV_SSIZE_MIN, EV_SSIZE_MAX; lia].
    destruct (Hl eq_refl) as (k' & Hb). pose proof (bk_limit _ _ Hb w). unfold EV_SSIZE_MIN, EV_SSIZE_MAX in *. lia.
  - destruct re; [|done]. destruct (Hl eq_refl) as (k' & Hb). apply (bk_tick _ _ Hb).
Qed.

(** ** What goes wrong *)

(** A bucket that has been refilled by hand beyond its maximum (a decrement by a negative amount) is not
    cut to it: the difference of the unsigned sizes wraps around, and the bucket grows further. *)
Example above_the_maximum :
  let c := Ev_token_bucket_cfg 100 500 100 500 (Timeval 1 0) 1000 in
  ev_token_bucket_update_ (Ev_token_bucket 600 500 7) c 8 = (1, Ev_token_bucket 700 500 8).
Proof. reflexivity. Qed.

(** A bucket that gets a configuration with longer ticks keeps the number of its last tick; the number
    of the current tick is then smaller, which looks like a clock that has been turned back, and
    nothing is refilled until the new clock has caught up, after decades here. *)
Example longer_ticks :
  let c1 := Ev_token_bucket_cfg 100 500 100 500 (Timeval 1 0) 1000 in
  let c2 := Ev_token_bucket_cfg 100 500 100 500 (Timeval 2 0) 2000 in
  ∃ t1 t2, ev_token_bucket_get_tick_ (Timeval 1700000000 0) c1 = Some t1 ∧
    ev_token_bucket_get_tick_ (Timeval 1800000000 0) c2 = Some t2 ∧
    let b := ev_token_bucket_init_ (Ev_token_bucket (-50) (-50) t1) c2 t1 true in
    ev_token_bucket_update_ b c2 t2 = (0, b).
Proof. eexists _, _. split; [reflexivity|]. split; reflexivity. Qed.

(** A tick of less than a millisecond is accepted; the first use divides by zero. *)
Example tick_of_no_milliseconds :
  ∃ c, ev_token_bucket_cfg_new true 1 1 1 1 (Some (Timeval 0 999)) = Some c ∧
    ev_token_bucket_get_tick_ (Timeval 1 0) c = None.
Proof. eexists. split; reflexivity. Qed.
