(* ===== verification/DnsWire.v ===== *)
(** * DNS packets

    Models the part of libevent/evdns.c that reads and writes packets: names with their labels and
    pointers, requests, replies, the responses of a server.  A packet that is read is the list of its
    bytes, a buffer that is written a list of [option byte], [None] where nothing has been written. *)

From S2P Require Import Prelude Text Evutil.

(** ** Reading

    [None] is undefined behaviour, [Some None] is "goto err" or "return -1". *)

Definition attempt {A B} (m : option (option A)) (f : A → option (option B)) : option (option B) :=
  match m with None => None | Some None => Some None | Some (Some a) => f a end.
Notation "' x ⇐ y ; z" := (attempt y (λ x : _, z))
  (at level 20, x pattern, y at level 100, z at level 200, only parsing).
Notation "x ⇐ y ; z" := (attempt y (λ x : _, z))
  (at level 20, y at level 100, z at level 200, only parsing).
Definition err {A} : option (option A) := Some None.
Definition ok {A} (a : A) : option (option A) := Some (Some a).

(** ntohs and ntohl of the [n] bytes at [j]. *)
Definition get (n : Z) (packet : list byte) (j : Z) : option (option (Z * Z)) :=
  if Zlen packet <? j + n then err else b ← slice packet j n; ok (ntohl b, j + n).
Definition GET8 : list byte → Z → option (option (Z * Z)) := get 1.
Definition GET16 : list byte → Z → option (option (Z * Z)) := get 2.
Definition GET32 : list byte → Z → option (option (Z * Z)) := get 4.

(** Writing to an array of [room] characters. *)
Definition put (room : Z) (out d : list byte) : option (list byte) :=
  if Zlen out + Zlen d <=? room then Some (out ++ d) else None.

(** The name so far is [out]; the result is the name and the new index. *)
Fixpoint name_loop (fuel : nat) (packet : list byte) (j name_end ptr_count room : Z) (out : list byte) :
    option (option (list byte * Z)) :=
  match fuel with
  | O => None
  | S fuel =>
      '(label_len, j) ⇐ GET8 packet j;
      if label_len =? 0 then
        if room <=? Zlen out then err
        else _ ← put room out [x00]; ok (out, if name_end <? 0 then j else name_end)
      else if negb (Z.land label_len 0xc0 =? 0) then
        '(ptr_low, j) ⇐ GET8 packet j;
        let name_end := if name_end <? 0 then j else name_end in
        let j := Z.shiftl (Z.land label_len 0x3f) 8 + ptr_low in
        if (j <? 0) || (Zlen packet <=? j) then err
        else if Zlen packet <? ptr_count + 1 then err
        else name_loop fuel packet j name_end (ptr_count + 1) room out
      else if 63 <? label_len then err
      else
        out ⇐ (if bool_decide (out = []) then ok out
               else if room <=? Zlen out + 1 then err else out ← put room out [DOT]; ok out);
        if room <=? Zlen out + label_len then err
        else if Zlen packet <? j + label_len then err
        else
          d ← slice packet j label_len;
          out ← put room out d;
          name_loop fuel packet (j + label_len) name_end ptr_count room out
  end.

(** The characters that are stored before the 0, and the new *idx. *)
Definition name_parse (packet : list byte) (idx room : Z) : option (option (list byte * Z)) :=
  name_loop (length packet + Z.to_nat room + 2) packet idx (-1) 0 room [].

(** What the string functions see of the characters stored. *)
Fixpoint c_string (s : list byte) : list byte :=
  match s with b :: s => if decide (b = x00) then [] else b :: c_string s | [] => [] end.

(** ** Constants *)

Definition MAX_V4_ADDRS : Z := 32.
Definition MAX_V6_ADDRS : Z := 32.
Definition TYPE_A : Z := 1.
Definition TYPE_CNAME : Z := 5.
Definition TYPE_SOA : Z := 6.
Definition TYPE_PTR : Z := 12.
Definition TYPE_AAAA : Z := 28.
Definition CLASS_INET : Z := 1.
Definition DNS_ERR_NONE : Z := 0.
Definition DNS_ERR_FORMAT : Z := 1.
Definition DNS_ERR_SERVERFAILED : Z := 2.
Definition DNS_ERR_NOTEXIST : Z := 3.
Definition DNS_ERR_NOTIMPL : Z := 4.
Definition DNS_ERR_REFUSED : Z := 5.
Definition DNS_ERR_TRUNCATED : Z := 65.
Definition DNS_ERR_UNKNOWN : Z := 66.
Definition DNS_ERR_NODATA : Z := 70.

(** ** Replies

    [HOST_NAME_MAX] is the system's, [strdup_ok]: does mm_strdup succeed for the name found at the
    position? *)
Section reply.
Context (HOST_NAME_MAX : Z) (strdup_ok : Z → bool).

(** Of struct request: what reading a reply needs.  put_cname_in_ptr: [None] is NULL. *)
Record request := Request {
  req_packet : list byte;
  request_type : Z;
  put_cname_in_ptr : option (option (list byte))
}.

(** struct reply; the member of the union that is used goes with the type.  *)
Record reply := Reply { have_answer : bool; addrcount : Z; addresses : list byte; ptr_name : list byte }.

(** The reply and the ttl so far, and *put_cname_in_ptr. *)
Record reply_state := ReplyState { rs_reply : reply; ttl_r : Z; cname_ptr : option (option (list byte)) }.

(** "<label:name><u16:type><u16:class><u32:ttl><u16:len>" *)
Definition rr_header (packet : list byte) (j : Z) : option (option (Z * Z * Z * Z * Z)) :=
  '(_, j) ⇐ name_parse packet j 256;
  '(type, j) ⇐ GET16 packet j;
  '(class, j) ⇐ GET16 packet j;
  '(ttl, j) ⇐ GET32 packet j;
  '(datalength, j) ⇐ GET16 packet j;
  ok (type, class, ttl, datalength, j).

Inductive rr_step := rr_next (j : Z) | rr_stop (j : Z) | rr_err.

(** The addresses of an A or AAAA resource; [size]: the bytes of one. *)
Definition take_addresses (size max : Z) (packet : list byte) (ttl datalength j : Z) (st : reply_state) :
    option (reply_state * rr_step) :=
  let r := rs_reply st in
  if negb (Z.land datalength (size - 1) =? 0) then Some (st, rr_err)
  else
    let count := Z.quot datalength size in
    let addrtocopy := Z.min (max - addrcount r) count in
    let st := ReplyState r (Z.min (ttl_r st) ttl) (cname_ptr st) in
    if Zlen packet <? j + size * addrtocopy then Some (st, rr_err)
    else if max <? addrcount r + addrtocopy then None
    else
      d ← slice packet j (size * addrtocopy);
      let r := Reply true (addrcount r + addrtocopy) (addresses r ++ d) (ptr_name r) in
      let j := j + size * addrtocopy in
      Some (ReplyState r (ttl_r st) (cname_ptr st), if addrcount r =? max then rr_stop j else rr_next j).

Definition answer_rr (packet : list byte) (req_type type class ttl datalength j : Z) (st : reply_state) :
    option (reply_state * rr_step) :=
  if (type =? TYPE_A) && (class =? CLASS_INET) then
    if negb (req_type =? TYPE_A) then Some (st, rr_next (j + datalength))
    else take_addresses 4 MAX_V4_ADDRS packet ttl datalength j st
  else if (type =? TYPE_PTR) && (class =? CLASS_INET) then
    if negb (req_type =? TYPE_PTR) then Some (st, rr_next (j + datalength))
    else
      r ← name_parse packet j HOST_NAME_MAX;
      Some (match r with
        | None => (st, rr_err)
        | Some (name, j) =>
            let r := rs_reply st in
            (ReplyState (Reply true (addrcount r) (addresses r) name) (Z.min (ttl_r st) ttl) (cname_ptr st), rr_stop j)
        end)
  else if type =? TYPE_CNAME then
    match cname_ptr st with
    | Some None =>
        r ← name_parse packet j HOST_NAME_MAX;
        Some (match r with
          | None => (st, rr_err)
          | Some (cname, j') =>
              (ReplyState (rs_reply st) (ttl_r st) (Some (if strdup_ok j then Some (c_string cname) else None)), rr_next j')
          end)
    | _ => Some (st, rr_next (j + datalength))
    end
  else if (type =? TYPE_AAAA) && (class =? CLASS_INET) then
    if negb (req_type =? TYPE_AAAA) then Some (st, rr_next (j + datalength))
    else take_addresses 16 MAX_V6_ADDRS packet ttl datalength j st
  else Some (st, rr_next (j + datalength)).

(** [n]: the resources left.  The state, and the index unless there was an error. *)
Fixpoint answers_loop (n : nat) (packet : list byte) (req_type j : Z) (st : reply_state) : option (reply_state * option Z) :=
  match n with
  | O => Some (st, Some j)
  | S n =>
      h ← rr_header packet j;
      match h with
      | None => Some (st, None)
      | Some (type, class, ttl, datalength, j) =>
          '(st, step) ← answer_rr packet req_type type class ttl datalength j st;
          match step with
          | rr_next j => answers_loop n packet req_type j st
          | rr_stop j => Some (st, Some j)
          | rr_err => Some (st, None)
          end
      end
  end.

(** The authority section: the ttl. *)
Fixpoint authority_loop (n : nat) (packet : list byte) (j ttl_r : Z) : option (option Z) :=
  match n with
  | O => ok ttl_r
  | S n =>
      '(type, class, ttl, datalength, j) ⇐ rr_header packet j;
      if (type =? TYPE_SOA) && (class =? CLASS_INET) then
        '(_, j) ⇐ name_parse packet j 256;
        '(_, j) ⇐ name_parse packet j 256;
        '(_, j) ⇐ GET32 packet j;
        '(_, j) ⇐ GET32 packet j;
        '(_, j) ⇐ GET32 packet j;
        '(_, j) ⇐ GET32 packet j;
        '(minimum, j) ⇐ GET32 packet j;
        authority_loop n packet j (Z.min (Z.min ttl_r ttl) minimum)
      else authority_loop n packet (j + datalength) ttl_r
  end.

(** The questions: do the names match, and the index. *)
Fixpoint questions_loop (n : nat) (packet : list byte) (randomize_case : bool) (req : request) (j : Z) (name_matches : bool) :
    option (option (bool * Z)) :=
  match n with
  | O => ok (name_matches, j)
  | S n =>
      let k := j in
      '(tmp_name, j) ⇐ name_parse packet j 256;
      '(cmp_name, k) ⇐ name_parse (req_packet req) k 256;
      let name_matches :=
        if negb randomize_case then if bool_decide (c_string tmp_name = c_string cmp_name) then true else name_matches
        else if evutil_ascii_strcasecmp (c_string tmp_name) (c_string cmp_name) =? 0 then true else name_matches in
      let j := j + 4 in
      if Zlen packet <? j then err else questions_loop n packet randomize_case req j name_matches
  end.

(** What becomes of a packet: it is dropped; or reply_handle is called for the request. *)
Inductive reply_parsed :=
  | not_for_us
  | handle_bad (trans_id flags : Z) (cname : option (option (list byte)))
  | handle_reply (trans_id flags ttl : Z) (r : reply) (cname : option (option (list byte))).

(** The part behind the header. *)
Definition reply_body (packet : list byte) (randomize_case : bool) (req : request) (flags : Z) (questions answers authority : nat) (j : Z) :
    option (option (option (list byte)) * option (Z * reply)) :=
  let st := ReplyState (Reply false 0 [] []) 0xffffffff (put_cname_in_ptr req) in
  let flag_err := Z.land flags 0x020f in
  if negb (flag_err =? 0) && negb (flag_err =? DNS_ERR_NOTEXIST) then Some (put_cname_in_ptr req, None)
  else
    q ← questions_loop questions packet randomize_case req j false;
    match q with
    | Some (true, j) =>
        '(st, j) ← answers_loop answers packet (request_type req) j st;
        match j with
        | None => Some (cname_ptr st, None)
        | Some j =>
            t ← (if have_answer (rs_reply st) then ok (ttl_r st) else authority_loop authority packet j (ttl_r st));
            Some (cname_ptr st, match t with
              | None => None
              | Some t => Some (if t =? 0xffffffff then 0 else t, rs_reply st)
              end)
        end
    | _ => Some (put_cname_in_ptr req, None)
    end.

(** [find]: request_find_from_trans_id. *)
Definition reply_parse (find : Z → option request) (randomize_case : bool) (packet : list byte) : option reply_parsed :=
  let header :=
    '(trans_id, j) ⇐ GET16 packet 0;
    '(flags, j) ⇐ GET16 packet j;
    '(questions, j) ⇐ GET16 packet j;
    '(answers, j) ⇐ GET16 packet j;
    '(authority, j) ⇐ GET16 packet j;
    '(additional, j) ⇐ GET16 packet j;
    ok (trans_id, flags, questions, answers, authority, j) in
  h ← header;
  match h with
  | None => Some not_for_us
  | Some (trans_id, flags, questions, answers, authority, j) =>
      match find trans_id with
      | None => Some not_for_us
      | Some req =>
          if Z.land flags 0x8000 =? 0 then Some not_for_us
          else
            '(cname, r) ← reply_body packet randomize_case req flags (Z.to_nat questions) (Z.to_nat answers) (Z.to_nat authority) j;
            Some (match r with
              | None => handle_bad trans_id flags cname
              | Some (ttl, r) => handle_reply trans_id flags ttl r cname
              end)
      end
  end.
End reply.
