(* ===== verification/DnsFormat.v ===== *)
(** * Writing DNS packets

    Models the part of libevent/evdns.c that writes packets, and the requests of a server: names with
    compression, the packet of a request, reading a request, the resources of a response and its format. *)

From S2P Require Import Prelude Text Evutil DnsWire.

(** ** Writing

    The array, what is not written yet is [None]; and the table of the names, in the order in which they
    were added.  A computation answers [None] for undefined behaviour, and no value for "goto overflow". *)

Record writer := Writer { wbuf : list (option byte); wtable : list (list byte * Z) }.
Definition wr (A : Type) : Type := writer → option (writer * option A).
Definition wret {A} (a : A) : wr A := λ w, Some (w, Some a).
Definition overflow {A} : wr A := λ w, Some (w, None).
Definition undefined {A} : wr A := λ _, None.
Definition wbind {A B} (m : wr A) (f : A → wr B) : wr B := λ w,
  '(w, a) ← m w; match a with Some a => f a w | None => Some (w, None) end.
Notation "x <~ y ; z" := (wbind y (λ x : _, z))
  (at level 20, y at level 100, z at level 200, only parsing).

(** memcpy(buf + j, d, |d|) *)
Definition store (j : Z) (d : list byte) : wr () := λ w,
  b ← splice (wbuf w) j (Some <$> d); Some (Writer b (wtable w), Some ()).
Definition buf_len : wr Z := λ w, Some (w, Some (Zlen (wbuf w))).
Definition get_table : wr (list (list byte * Z)) := λ w, Some (w, Some (wtable w)).
Definition set_table (t : list (list byte * Z)) : wr () := λ w, Some (Writer (wbuf w) t, Some ()).

(** htons(x) or htonl(x) at [j]; the new index. *)
Definition hton (n : nat) (x : Z) : list byte := reverse (le_bytes n x).
Definition append (n : nat) (x j : Z) : wr Z :=
  len <~ buf_len;
  if len <? j + Z.of_nat n then overflow else _ <~ store j (hton n x); wret (j + Z.of_nat n).
Definition APPEND16 : Z → Z → wr Z := append 2.
Definition APPEND32 : Z → Z → wr Z := append 4.

(** ** Names *)

Definition MAX_LABELS : Z := 128.

Definition dnslabel_table_get_pos (table : list (list byte * Z)) (label : list byte) : Z :=
  from_option (λ x, snd (snd x)) (-1) (list_find (λ x, fst x = label) table).

Section format.
(** Does mm_strdup succeed for the label at the position? *)
Context (strdup_ok : Z → bool).

Definition dnslabel_table_add (table : list (list byte * Z)) (label : list byte) (pos : Z) : list (list byte * Z) :=
  if Zlen table =? MAX_LABELS then table else if strdup_ok pos then table ++ [(label, pos)] else table.

(** A label, [rest] the name from it on: the new index, or -1 or -2. *)
Definition put_label (use_table : bool) (label rest : list byte) (j : Z) : wr Z :=
  len <~ buf_len;
  let label_len := Zlen label in
  if 63 <? label_len then wret (-1)
  else if len <? j + label_len + 1 then wret (-2)
  else
    t <~ get_table;
    _ <~ (if use_table then set_table (dnslabel_table_add t rest j) else wret ());
    _ <~ store j [byte_of_Z label_len];
    _ <~ store (j + 1) label;
    wret (j + 1 + label_len).

(** "the labels must be terminated by a 0" *)
Definition end_labels (j : Z) : wr Z := λ w,
  if j =? 0 then (_ <~ store j [x00]; wret (j + 1)) w
  else
    match wbuf w !! Z.to_nat (j - 1) with
    | Some (Some b) => if decide (b = x00) then Some (w, Some j) else (_ <~ store j [x00]; wret (j + 1)) w
    | _ => None
    end.

(** [fuel]: one more than the characters. *)
Fixpoint labels_loop (fuel : nat) (use_table : bool) (j : Z) (name : list byte) : wr Z :=
  match fuel with
  | O => undefined
  | S fuel =>
      table <~ get_table;
      let ref := if use_table then dnslabel_table_get_pos table name else -1 in
      if 0 <=? ref then
        len <~ buf_len;
        if len <? j + 2 then wret (-2) else APPEND16 (Z.lor ref 0xc000) j
      else
        match strchr DOT name with
        | None =>
            r <~ put_label use_table name name j;
            if r <? 0 then wret r else end_labels r
        | Some n =>
            r <~ put_label use_table (take n name) name j;
            if r <? 0 then wret r else labels_loop fuel use_table r (drop (S n) name)
        end
  end.

Definition dnsname_to_labels (use_table : bool) (j : Z) (name : list byte) : wr Z :=
  if 255 <? Zlen name then wret (-2) else labels_loop (S (length name)) use_table j name.

(** ** Requests *)

Definition evdns_request_len (name_len : Z) : Z := 96 + name_len + 2 + 4.

Definition request_data (name : list byte) (trans_id type class : Z) : wr Z :=
  j <~ APPEND16 trans_id 0;
  j <~ APPEND16 0x0100 j;
  j <~ APPEND16 1 j;
  j <~ APPEND16 0 j;
  j <~ APPEND16 0 j;
  j <~ APPEND16 0 j;
  j <~ dnsname_to_labels false j name;
  if j <? 0 then wret j
  else
    j <~ APPEND16 type j;
    j <~ APPEND16 class j;
    wret j.

Definition empty_buffer (n : Z) : writer := Writer (replicate (Z.to_nat n) None) [].

(** The result and the buffer. *)
Definition evdns_request_data_build (name : list byte) (trans_id type class buf_len : Z) : option (Z * list (option byte)) :=
  '(w, r) ← request_data name trans_id type class (empty_buffer buf_len);
  Some (default (-1) r, wbuf w).

(** ** The server *)

Record question := Question { q_name : list byte; q_type : Z; q_class : Z }.

(** struct server_reply_item; the data of a name, or bytes; [None] is NULL *)
Record reply_item := ReplyItem {
  ri_name : list byte; ri_type : Z; ri_class : Z; ri_ttl : Z; ri_is_name : bool; ri_datalen : Z; ri_data : option (list byte)
}.

Record server_request := ServerRequest {
  sr_trans_id : Z;
  sr_flags : Z;
  sr_questions : list question;
  sr_answer : list reply_item;
  sr_authority : list reply_item;
  sr_additional : list reply_item;
  sr_response : option (list (option byte))
}.

(** The questions of a request, [alloc]: does the k-th allocation succeed? *)
Fixpoint request_questions (alloc : nat → bool) (n : nat) (packet : list byte) (j : Z) (qs : list question) : option (option (list question)) :=
  match n with
  | O => ok qs
  | S n =>
      '(tmp_name, j) ⇐ name_parse packet j 256;
      '(type, j) ⇐ GET16 packet j;
      '(class, j) ⇐ GET16 packet j;
      if negb (alloc (length qs)) then err
      else request_questions alloc n packet j (qs ++ [Question (c_string tmp_name) type class])
  end.

Inductive request_parsed :=
  | request_dropped
  | request_notimpl (req : server_request)
  | request_callback (req : server_request).

(** [alloc_req], [alloc_qs]: do the first two allocations succeed?  Room for no questions is NULL. *)
Definition request_parse (alloc_req alloc_qs : bool) (alloc : nat → bool) (packet : list byte) : option request_parsed :=
  let body :=
    '(trans_id, j) ⇐ GET16 packet 0;
    '(flags, j) ⇐ GET16 packet j;
    '(questions, j) ⇐ GET16 packet j;
    '(answers, j) ⇐ GET16 packet j;
    '(authority, j) ⇐ GET16 packet j;
    '(additional, j) ⇐ GET16 packet j;
    if negb (Z.land flags 0x8000 =? 0) then err
    else
      let flags := Z.land flags 0x0110 in
      if negb alloc_req then err
      else if (questions =? 0) || negb alloc_qs then err
      else
        qs ⇐ request_questions alloc (Z.to_nat questions) packet j [];
        ok (ServerRequest trans_id flags qs [] [] [] None) in
  r ← body;
  Some (match r with
    | None => request_dropped
    | Some req => if negb (Z.land (sr_flags req) 0x7800 =? 0) then request_notimpl req else request_callback req
    end).

Definition EVDNS_ANSWER_SECTION : Z := 0.
Definition EVDNS_AUTHORITY_SECTION : Z := 1.
Definition EVDNS_ADDITIONAL_SECTION : Z := 2.

Definition add_item_to (req : server_request) (section : Z) (item : reply_item) : Z * server_request :=
  let '(ServerRequest id flags qs answer authority additional response) := req in
  if section =? EVDNS_ANSWER_SECTION then (0, ServerRequest id flags qs (answer ++ [item]) authority additional response)
  else if section =? EVDNS_AUTHORITY_SECTION then (0, ServerRequest id flags qs answer (authority ++ [item]) additional response)
  else if section =? EVDNS_ADDITIONAL_SECTION then (0, ServerRequest id flags qs answer authority (additional ++ [item]) response)
  else (-1, req).

(** The 16-bit type, class and length and the 32-bit ttl of an item.  [alloc]: do the allocations
    succeed?  Those of no or of a negative number of bytes fail. *)
Definition evdns_server_request_add_reply (alloc : bool) (req : server_request) (section : Z) (name : list byte)
    (type class ttl datalen : Z) (is_name : bool) (data : option (list byte)) : option (Z * server_request) :=
  let add n d := Some (add_item_to req section (ReplyItem name (wrap 16 type) (wrap 16 class) (uint32 ttl) is_name n d)) in
  if bool_decide (is_Some (sr_response req)) then Some (-1, req)
  else if negb ((section =? EVDNS_ANSWER_SECTION) || (section =? EVDNS_AUTHORITY_SECTION) || (section =? EVDNS_ADDITIONAL_SECTION)) then Some (-1, req)
  else if negb alloc then Some (-1, req)
  else
    match data with
    | None => add 0 None
    | Some d =>
        if is_name then add 0xffff (Some d)
        else if datalen <=? 0 then Some (-1, req)
        else if Zlen d <? datalen then None
        else add (wrap 16 datalen) (Some (take (Z.to_nat datalen) d))
    end.

(** [addrs]: the bytes of [n] addresses. *)
Definition evdns_server_request_add_a_reply (alloc : bool) (req : server_request) (name : list byte) (n : Z) (addrs : list byte) (ttl : Z) :=
  datalen ← int_chk (n * 4);
  evdns_server_request_add_reply alloc req EVDNS_ANSWER_SECTION name TYPE_A CLASS_INET ttl datalen false (Some addrs).
Definition evdns_server_request_add_aaaa_reply (alloc : bool) (req : server_request) (name : list byte) (n : Z) (addrs : list byte) (ttl : Z) :=
  datalen ← int_chk (n * 16);
  evdns_server_request_add_reply alloc req EVDNS_ANSWER_SECTION name TYPE_AAAA CLASS_INET ttl datalen false (Some addrs).
Definition evdns_server_request_add_ptr_reply (alloc : bool) (req : server_request) (in_ inaddr_name : option (list byte))
    (hostname : list byte) (ttl : Z) : option (Z * server_request) :=
  match in_, inaddr_name with
  | Some _, Some _ | None, None => Some (-1, req)
  | _, Some name => evdns_server_request_add_reply alloc req EVDNS_ANSWER_SECTION name TYPE_PTR CLASS_INET ttl (-1) true (Some hostname)
  | Some addr, None =>
      let a := ntohl addr in
      let b (n : Z) := Z.land (Z.shiftr a n) 0xff in
      let name := printed 32 (dotted (b 0) (b 8) (b 16) (b 24) ++ bs ".in-addr.arpa") in
      evdns_server_request_add_reply alloc req EVDNS_ANSWER_SECTION name TYPE_PTR CLASS_INET ttl (-1) true (Some hostname)
  end.
Definition evdns_server_request_add_cname_reply (alloc : bool) (req : server_request) (name : list byte) (cname : option (list byte)) (ttl : Z) :=
  evdns_server_request_add_reply alloc req EVDNS_ANSWER_SECTION name TYPE_CNAME CLASS_INET ttl (-1) true cname.

Definition EVDNS_FLAGS_AA : Z := 0x400.
Definition EVDNS_FLAGS_RD : Z := 0x080.
Definition evdns_server_request_set_flags (req : server_request) (flags : Z) : server_request :=
  ServerRequest (sr_trans_id req) (Z.lor (Z.land (sr_flags req) (Z.lnot (Z.lor EVDNS_FLAGS_AA EVDNS_FLAGS_RD))) flags)
    (sr_questions req) (sr_answer req) (sr_authority req) (sr_additional req) (sr_response req).

(** A question; a negative result of dnsname_to_labels is returned. *)
Fixpoint format_questions (qs : list question) (j : Z) : wr Z :=
  match qs with
  | [] => wret j
  | q :: qs =>
      j <~ dnsname_to_labels true j (q_name q);
      if j <? 0 then wret j
      else
        j <~ APPEND16 (q_type q) j;
        j <~ APPEND16 (q_class q) j;
        format_questions qs j
  end.

(** A name, strlen of NULL is undefined; a negative result is an overflow. *)
Definition format_name (name : option (list byte)) (j : Z) : wr Z :=
  match name with
  | None => undefined
  | Some name => r <~ dnsname_to_labels true j name; if r <? 0 then overflow else wret r
  end.

Definition format_item (item : reply_item) (j : Z) : wr Z :=
  j <~ format_name (Some (ri_name item)) j;
  j <~ APPEND16 (ri_type item) j;
  j <~ APPEND16 (ri_class item) j;
  j <~ APPEND32 (ri_ttl item) j;
  if ri_is_name item then
    let len_idx := j in
    let j := j + 2 in
    let name_start := j in
    j <~ format_name (ri_data item) j;
    _ <~ store len_idx (hton 2 (j - name_start));
    wret j
  else
    j <~ APPEND16 (ri_datalen item) j;
    len <~ buf_len;
    if len <? j + ri_datalen item then overflow
    else
      match ri_data item with
      | None => if ri_datalen item =? 0 then wret j else undefined
      | Some d =>
          if Zlen d <? ri_datalen item then undefined
          else _ <~ store j (take (Z.to_nat (ri_datalen item)) d); wret (j + ri_datalen item)
      end.

Fixpoint format_items (items : list reply_item) (j : Z) : wr Z :=
  match items with
  | [] => wret j
  | item :: items => j <~ format_item item j; format_items items j
  end.

(** Up to the end of the last section. *)
Definition format_body (req : server_request) (err : Z) : wr Z :=
  let flags := wrap 16 (Z.lor (wrap 16 (sr_flags req)) (Z.lor 0x8000 err)) in
  j <~ APPEND16 (sr_trans_id req) 0;
  j <~ APPEND16 flags j;
  j <~ APPEND16 (Zlen (sr_questions req)) j;
  j <~ APPEND16 (Zlen (sr_answer req)) j;
  j <~ APPEND16 (Zlen (sr_authority req)) j;
  j <~ APPEND16 (Zlen (sr_additional req)) j;
  j <~ format_questions (sr_questions req) j;
  if j <? 0 then wret j
  else format_items (sr_answer req ++ sr_authority req ++ sr_additional req) j.

Definition free_answers (req : server_request) (response : option (list (option byte))) : server_request :=
  ServerRequest (sr_trans_id req) (sr_flags req) (sr_questions req) [] [] [] response.

(** buf[2] |= 0x02 *)
Definition set_truncated (buf : list (option byte)) : option (list (option byte)) :=
  b ← buf !! 2%nat;
  b ← b;
  splice buf 2 [Some (byte_of_Z (Z.lor (Z_of_byte b) 0x02))].

(** The result and the request.  [alloc]: does the allocation of the response succeed? *)
Definition evdns_server_request_format_response (alloc : bool) (req : server_request) (err : Z) : option (Z * server_request) :=
  if (err <? 0) || (15 <? err) then Some (-1, req)
  else
    '(w, j) ← format_body req err (empty_buffer 1500);
    match j with
    | Some j =>
        if j <? 0 then Some (j, req)
        else
          '(buf, j) ← (if 512 <? j then buf ← set_truncated (wbuf w); Some (buf, 512) else Some (wbuf w, j));
          Some (if alloc then (0, free_answers req (Some (take (Z.to_nat j) buf))) else (-1, free_answers req None))
    | None =>
        buf ← set_truncated (wbuf w);
        Some (if alloc then (0, free_answers req (Some (take 512 buf))) else (-1, free_answers req None))
    end.
End format.
