(* ===== verification/DnsSafe.v ===== *)
(** * Reading DNS packets is safe

    Whatever the bytes of a packet, reading it ends and stays within the packet and within the arrays
    that names and addresses are copied to. *)

From S2P Require Import Prelude Text Evutil DnsWire DnsFormat.

(** Some value or an error, but nothing undefined. *)
Definition defined {A} (m : option (option A)) (P : A → Prop) : Prop := ∃ r, m = Some r ∧ ∀ a, r = Some a → P a.

Lemma defined_err {A} (P : A → Prop) : defined err P.
Proof. by exists None. Qed.
Lemma defined_ok {A} (a : A) (P : A → Prop) : P a → defined (ok a) P.
Proof. intros H. exists (Some a). split; [done|]. by intros ? [= <-]. Qed.
Lemma defined_mono {A} (m : option (option A)) (P Q : A → Prop) : defined m P → (∀ a, P a → Q a) → defined m Q.
Proof. intros (r & -> & H) HQ. exists r. split; [done|]. intros a Ha. by apply HQ, H. Qed.
Lemma defined_attempt {A B} (m : option (option A)) (f : A → option (option B)) P Q :
  defined m P → (∀ a, P a → defined (f a) Q) → defined (attempt m f) Q.
Proof. intros (r & -> & H) Hf. destruct r as [a|]; cbn; [apply Hf, H, eq_refl|apply defined_err]. Qed.

Lemma ntohl_range b : 0 <= ntohl b < 256 ^ Zlen b.
Proof. unfold ntohl. pose proof (le_val_range (reverse b)) as H. by rewrite length_reverse in H. Qed.

Lemma get_defined n p j :
  0 <= j → 0 <= n → defined (get n p j) (λ x, 0 <= x.1 < 256 ^ n ∧ x.2 = j + n ∧ x.2 <= Zlen p).
Proof.
  intros Hj Hn. unfold get. destruct (Z.ltb_spec (Zlen p) (j + n)); [apply defined_err|].
  rewrite slice_Some by lia. cbn [mbind option_bind]. apply defined_ok. cbn [fst snd].
  pose proof (ntohl_range (take (Z.to_nat n) (drop (Z.to_nat j) p))) as Hr.
  replace (Zlen (take (Z.to_nat n) (drop (Z.to_nat j) p))) with n in Hr by lens. lia.
Qed.

Lemma land_c0 l : 0 <= l < 256 → Z.land l 0xc0 = 0 → l <= 63.
Proof.
  intros Hl H. assert (Hc : forallb (λ l, negb (Z.land l 0xc0 =? 0) || (l <=? 63)) (seqZ 0 256) = true) by by vm_compute.
  rewrite forallb_forall in Hc. specialize (Hc l). rewrite H in Hc. apply Z.leb_le, Hc, list_elem_of_In, elem_of_seqZ. lia.
Qed.

Lemma put_ok room out d : Zlen out + Zlen d <= room → put room out d = Some (out ++ d).
Proof. intros H. unfold put. by rewrite (proj2 (Z.leb_le _ _) H). Qed.

(** Every label makes the name longer, and there are no more jumps than bytes. *)
Lemma name_loop_safe fuel p j name_end ptr_count room out :
  0 <= j <= Zlen p → 0 <= ptr_count <= Zlen p → Zlen out <= room → name_end <= Zlen p →
  Zlen p - ptr_count + (room - Zlen out) < Z.of_nat fuel →
  defined (name_loop fuel p j name_end ptr_count room out) (λ x, Zlen x.1 < room ∧ 0 <= x.2 <= Zlen p).
Proof.
  revert j name_end ptr_count out. induction fuel as [|fuel IH]; intros j name_end ptr_count out Hj Hc Ho He Hf; [lia|].
  cbn [name_loop]. eapply defined_attempt; [apply (get_defined 1); lia|]. intros [l j'] (Hl & Hj' & Hle). cbn [fst snd] in *.
  change (256 ^ 1) with 256 in Hl. destruct (Z.eqb_spec l 0) as [->|Hnz].
  { destruct (Z.leb_spec room (Zlen out)); [apply defined_err|]. rewrite put_ok by (cbn [length]; lia). cbn [mbind option_bind].
    apply defined_ok. cbn [fst snd]. destruct (Z.ltb_spec name_end 0); lia. }
  destruct (Z.eqb_spec (Z.land l 0xc0) 0) as [H0|H0]; cbn [negb].
  - apply land_c0 in H0; [|done]. destruct (Z.ltb_spec 63 l); [lia|].
    set (sep := if bool_decide (out = []) then _ else _).
    assert (Hsep : defined sep (λ out', Zlen out <= Zlen out' <= room)).
    { unfold sep. case_bool_decide; [apply defined_ok; lia|]. destruct (Z.leb_spec room (Zlen out + 1)); [apply defined_err|].
      rewrite put_ok by (cbn [length]; lia). cbn [mbind option_bind]. apply defined_ok. rewrite length_app. cbn [length]. lia. }
    eapply defined_attempt; [apply Hsep|]. intros out' Hout'. cbv beta in Hout'.
    destruct (Z.leb_spec room (Zlen out' + l)); [apply defined_err|]. destruct (Z.ltb_spec (Zlen p) (j' + l)); [apply defined_err|].
    rewrite slice_Some by lia. cbn [mbind option_bind].
    assert (Hd : Zlen (take (Z.to_nat l) (drop (Z.to_nat j') p)) = l) by lens.
    rewrite put_ok by lia. cbn [mbind option_bind]. apply IH; try lia; rewrite length_app; lia.
  - eapply defined_attempt; [apply (get_defined 1); lia|]. intros [low j''] (Hlow & Hj'' & Hle'). cbn [fst snd] in *.
    destruct (_ || _) eqn:E; [apply defined_err|]. apply orb_false_iff in E as [E1%Z.ltb_ge E2%Z.leb_gt].
    destruct (Z.ltb_spec (Zlen p) (ptr_count + 1)); [apply defined_err|].
    apply IH; try lia. destruct (Z.ltb_spec name_end 0); lia.
Qed.

Lemma name_parse_defined p j room :
  0 <= j → 0 <= room → defined (name_parse p j room) (λ x, Zlen x.1 < room ∧ 0 <= x.2 <= Zlen p).
Proof.
  intros Hj Hr. unfold name_parse. destruct (Z_le_gt_dec j (Zlen p)).
  - apply name_loop_safe; cbn [length]; lia.
  - replace (length p + Z.to_nat room + 2)%nat with (S (length p + Z.to_nat room + 1)) by lia. cbn [name_loop].
    unfold GET8, get. rewrite (proj2 (Z.ltb_lt _ _)) by lia. apply defined_err.
Qed.

(** A field behind another: the index stays in the packet. *)
Lemma get_then {A} n p j (f : Z → Z → option (option A)) P :
  0 <= j → 0 <= n → (∀ v, 0 <= v < 256 ^ n → j + n <= Zlen p → defined (f v (j + n)) P) →
  defined ('(v, j) ⇐ get n p j; f v j) P.
Proof. intros Hj Hn H. eapply defined_attempt; [by apply get_defined|]. intros [v j'] H'. cbn [fst snd] in H'. destruct H' as (Hv & -> & Hle). by apply H. Qed.

Lemma name_then {A} p j room (f : list byte → Z → option (option A)) P :
  0 <= j → 0 <= room → (∀ name j', Zlen name < room → 0 <= j' <= Zlen p → defined (f name j') P) →
  defined ('(name, j) ⇐ name_parse p j room; f name j) P.
Proof. intros Hj Hr H. eapply defined_attempt; [by apply name_parse_defined|]. intros [name j'] [? ?]. by apply H. Qed.

Ltac fields := repeat (apply (get_then 1) || apply (get_then 2) || apply (get_then 4) || apply name_then; [lia|lia|intros]).

Lemma rr_header_defined p j :
  0 <= j → defined (rr_header p j) (λ '(type, class, ttl, datalength, j'), 0 <= ttl < 2 ^ 32 ∧ 0 <= datalength < 65536 ∧ 0 <= j').
Proof. intros Hj. unfold rr_header. fields. apply defined_ok. cbn in *. lia. Qed.

Section reply.
Context (HOST_NAME_MAX : Z) (strdup_ok : Z → bool) (Hhost : 0 <= HOST_NAME_MAX).

(** What the reply has room for: the addresses that are counted, the name. *)
Definition type_size (type : Z) : Z := if type =? TYPE_A then 4 else if type =? TYPE_AAAA then 16 else 0.
Record reply_ok (type : Z) (st : reply_state) : Prop := {
  ro_count : 0 <= addrcount (rs_reply st) <= 32;
  ro_addresses : Zlen (addresses (rs_reply st)) = type_size type * addrcount (rs_reply st);
  ro_name : Zlen (ptr_name (rs_reply st)) < Z.max 1 HOST_NAME_MAX;
  ro_ttl : 0 <= ttl_r st < 2 ^ 32
}.

Definition step_ok (s : rr_step) : Prop := match s with rr_next j | rr_stop j => 0 <= j | rr_err => True end.

(** Every step of a resource is defined and keeps the reply. *)
Definition rr_safe (type : Z) (m : option (reply_state * rr_step)) : Prop :=
  ∃ st s, m = Some (st, s) ∧ reply_ok type st ∧ step_ok s.
Lemma rr_safe_intro type st s : reply_ok type st → step_ok s → rr_safe type (Some (st, s)).
Proof. intros. by exists st, s. Qed.

Lemma take_addresses_safe type k p ttl datalength j st :
  type_size type = 2 ^ k → 0 <= k → 0 <= j → 0 <= ttl < 2 ^ 32 → 0 <= datalength → reply_ok type st →
  rr_safe type (take_addresses (2 ^ k) 32 p ttl datalength j st).
Proof.
  intros Hsize Hk Hj Ht Hd [R1 R2 R3 R4]. unfold take_addresses. set (size := 2 ^ k) in *. assert (Hs : 0 < size) by (apply Z.pow_pos_nonneg; lia).
  destruct (_ =? 0); cbn [negb]; [|by apply rr_safe_intro]. cbn [rs_reply ttl_r cname_ptr].
  assert (Hcount : 0 <= Z.quot datalength size) by (apply Z.quot_pos; lia).
  set (n := Z.min (32 - addrcount (rs_reply st)) (Z.quot datalength size)) in *.
  assert (Hok : reply_ok type (ReplyState (rs_reply st) (Z.min (ttl_r st) ttl) (cname_ptr st))) by (split; cbn; try done; lia).
  destruct (Z.ltb_spec (Zlen p) (j + size * n)); [by apply rr_safe_intro|]. rewrite (proj2 (Z.ltb_ge _ _)) by lia.
  rewrite slice_Some by nia. cbn [mbind option_bind addrcount addresses ptr_name].
  apply rr_safe_intro; [|case_match; cbn; nia].
  split; cbn [rs_reply ttl_r addrcount addresses ptr_name]; [lia| |done|lia].
  rewrite length_app, Nat2Z.inj_add, R2, Hsize.
  replace (Zlen (take (Z.to_nat (size * n)) (drop (Z.to_nat j) p))) with (size * n); [lia|].
  rewrite length_take, length_drop. nia.
Qed.

Lemma answer_rr_safe p req_type type class ttl datalength j st :
  0 <= j → 0 <= ttl < 2 ^ 32 → 0 <= datalength → reply_ok req_type st →
  rr_safe req_type (answer_rr HOST_NAME_MAX strdup_ok p req_type type class ttl datalength j st).
Proof.
  intros Hj Ht Hd Hok. unfold answer_rr.
  assert (Hskip : rr_safe req_type (Some (st, rr_next (j + datalength)))) by (apply rr_safe_intro; [done|cbn; lia]).
  destruct (name_parse_defined p j HOST_NAME_MAX Hj Hhost) as (r & Hr & Hname). pose proof Hok as [R1 R2 R3 R4].
  destruct (_ && _).
  { destruct (Z.eqb_spec req_type TYPE_A) as [->|]; cbn [negb]; [|done]. by apply (take_addresses_safe TYPE_A 2). }
  destruct (_ && _).
  { destruct (_ =? _); cbn [negb]; [|done]. rewrite Hr. cbn [mbind option_bind]. destruct r as [[name j']|]; [|by apply rr_safe_intro].
    destruct (Hname _ eq_refl) as [? ?]. cbn [fst snd] in *. apply rr_safe_intro; [|cbn; lia]. split; cbn; try done; lia. }
  destruct (type =? TYPE_CNAME).
  { destruct (cname_ptr st) as [[c|]|]; [done| |done]. rewrite Hr. cbn [mbind option_bind]. destruct r as [[name j']|]; [|by apply rr_safe_intro].
    destruct (Hname _ eq_refl) as [? ?]. cbn [fst snd] in *. apply rr_safe_intro; [|cbn; lia]. split; cbn; done || lia. }
  destruct (_ && _); [|done].
  destruct (Z.eqb_spec req_type TYPE_AAAA) as [->|]; cbn [negb]; [|done]. by apply (take_addresses_safe TYPE_AAAA 4).
Qed.

Lemma answers_loop_safe n p req_type j st :
  0 <= j → reply_ok req_type st →
  ∃ st' r, answers_loop HOST_NAME_MAX strdup_ok n p req_type j st = Some (st', r) ∧ reply_ok req_type st' ∧ ∀ j', r = Some j' → 0 <= j'.
Proof.
  revert j st. induction n as [|n IH]; intros j st Hj Hok; cbn [answers_loop].
  { exists st, (Some j). split; [done|]. split; [done|]. by intros ? [= <-]. }
  destruct (rr_header_defined p j Hj) as (h & -> & Hh). cbn [mbind option_bind].
  destruct h as [[[[[type class] ttl] datalength] j']|]; [|by exists st, None].
  destruct (Hh _ eq_refl) as (Ht & Hd & Hj').
  destruct (answer_rr_safe p req_type type class ttl datalength j' st Hj' Ht ltac:(lia) Hok) as (st' & s & -> & Hok' & Hs).
  cbn [mbind option_bind]. destruct s as [j2|j2|]; [by apply IH| |by exists st', None].
  exists st', (Some j2). split; [done|]. split; [done|]. by intros ? [= <-].
Qed.

Lemma authority_loop_defined n p j ttl :
  0 <= j → 0 <= ttl < 2 ^ 32 → defined (authority_loop n p j ttl) (λ t, 0 <= t < 2 ^ 32).
Proof.
  revert j ttl. induction n as [|n IH]; intros j ttl Hj Ht; cbn [authority_loop]; [by apply defined_ok|].
  eapply defined_attempt; [by apply rr_header_defined|]. intros [[[[type class] t] datalength] j'] (Ht' & Hd & Hj').
  destruct (_ && _); [|apply IH; lia]. fields. apply IH; [lia|]. change (256 ^ 4) with (2 ^ 32) in *. lia.
Qed.

Lemma questions_loop_defined n p rc req j m :
  0 <= j → defined (questions_loop n p rc req j m) (λ x, 0 <= x.2).
Proof.
  revert j m. induction n as [|n IH]; intros j m Hj; cbn [questions_loop]; [by apply defined_ok|].
  apply name_then; [lia|lia|intros]. apply name_then; [lia|lia|intros].
  destruct (_ <? _); [apply defined_err|]. apply IH. lia.
Qed.

Definition reply_fits (type : Z) (r : reply) : Prop :=
  0 <= addrcount r <= 32 ∧ Zlen (addresses r) = type_size type * addrcount r ∧ Zlen (ptr_name r) < Z.max 1 HOST_NAME_MAX.

Lemma reply_body_safe p rc req flags q a au j :
  0 <= j →
  ∃ c r, reply_body HOST_NAME_MAX strdup_ok p rc req flags q a au j = Some (c, r) ∧
    ∀ ttl rep, r = Some (ttl, rep) → 0 <= ttl < 2 ^ 32 ∧ reply_fits (request_type req) rep.
Proof.
  intros Hj. unfold reply_body. destruct (_ && _); [by eexists _, None|].
  destruct (questions_loop_defined q p rc req j false Hj) as (r & -> & Hq). cbn [mbind option_bind].
  destruct r as [[[] j']|]; [|by eexists _, None..].
  destruct (answers_loop_safe a p (request_type req) j' (ReplyState (Reply false 0 [] []) 0xffffffff (put_cname_in_ptr req))) as (st & r & -> & Hok & Hr).
  { apply (Hq _ eq_refl). }
  { split; cbn; lia. }
  cbn [mbind option_bind]. destruct r as [j2|]; [|by eexists _, None].
  assert (Ht : defined (if have_answer (rs_reply st) then ok (ttl_r st) else authority_loop au p j2 (ttl_r st)) (λ t, 0 <= t < 2 ^ 32)).
  { destruct (have_answer _); [apply defined_ok, Hok|]. apply authority_loop_defined; [by apply Hr|apply Hok]. }
  destruct Ht as (t & -> & Ht). cbn [mbind option_bind]. eexists _, _. split; [done|].
  intros ttl rep E. destruct t as [t|]; [|done]. injection E as <- <-. split; [|by destruct Hok].
  specialize (Ht t eq_refl). destruct (t =? 0xffffffff); lia.
Qed.
End reply.

(** The six words of a header. *)
Lemma header_defined p :
  defined ('(a, j) ⇐ GET16 p 0; '(b, j) ⇐ GET16 p j; '(c, j) ⇐ GET16 p j; '(d, j) ⇐ GET16 p j; '(e, j) ⇐ GET16 p j; '(f, j) ⇐ GET16 p j;
    ok (a, b, c, d, e, j)) (λ '(a, b, c, d, e, j), j = 12 ∧ 0 <= a < 65536 ∧ 0 <= b < 65536).
Proof. unfold GET16. fields. apply defined_ok. change (256 ^ 2) with 65536 in *. lia. Qed.

(** C24. Whatever a nameserver sends: reply_parse ends, reads nothing outside of the packet, and writes
    names and addresses within their arrays.  What it passes on has at most 32 addresses, all of them
    stored in full, and a name and a ttl that fit. *)
Theorem reply_parse_safe host_name_max strdup_ok find randomize_case packet :
  0 <= host_name_max →
  ∃ r, reply_parse host_name_max strdup_ok find randomize_case packet = Some r ∧
    ∀ id flags ttl rep cname, r = handle_reply id flags ttl rep cname →
      ∃ req, find id = Some req ∧ 0 <= ttl < 2 ^ 32 ∧ 0 <= addrcount rep <= 32 ∧
        Zlen (addresses rep) = type_size (request_type req) * addrcount rep ∧ Zlen (ptr_name rep) < Z.max 1 host_name_max.
Proof.
  intros Hh. unfold reply_parse. destruct (header_defined packet) as (h & -> & Hd). cbn [mbind option_bind].
  destruct h as [[[[[[id flags] q] a] au] j]|]; [|by exists not_for_us]. destruct (Hd _ eq_refl) as (-> & _).
  destruct (find id) as [req|] eqn:Hf; [|by exists not_for_us]. destruct (_ =? 0); [by exists not_for_us|].
  destruct (reply_body_safe host_name_max strdup_ok Hh packet randomize_case req flags (Z.to_nat q) (Z.to_nat a) (Z.to_nat au) 12) as (c & r & -> & Hr); [lia|].
  cbn [mbind option_bind]. eexists. split; [done|]. intros id' flags' ttl rep cname E.
  destruct r as [[t rep']|]; [|done]. injection E as <- <- <- <- <-. exists req. split; [done|]. by apply Hr.
Qed.
Lemma reply_parse_safe_witness :
  let packet := [x00; x07; Byte.x81; Byte.x80; x00; x01; x00; x01; x00; x00; x00; x00; x01; Byte.x61; x00; x00; x01; x00; x01;
    Byte.xc0; Byte.x0c; x00; x01; x00; x01; x00; x00; x00; Byte.x3c; x00; x04; x01; x02; x03; x04] in
  let find := λ id, if id =? 7 then Some (Request (replicate 12 x00 ++ [x01; Byte.x61; x00; x00; x01; x00; x01]) TYPE_A None) else None in
  reply_parse 64 (λ _, true) find false packet = Some (handle_reply 7 0x8180 60 (Reply true 1 [x01; x02; x03; x04] []) None) ∧
  ∃ r, reply_parse 64 (λ _, true) find false packet = Some r ∧
    ∀ id flags ttl rep cname, r = handle_reply id flags ttl rep cname →
      ∃ req, find id = Some req ∧ 0 <= ttl < 2 ^ 32 ∧ 0 <= addrcount rep <= 32 ∧
        Zlen (addresses rep) = type_size (request_type req) * addrcount rep ∧ Zlen (ptr_name rep) < Z.max 1 64.
Proof. split; [by vm_compute|]. by apply reply_parse_safe. Defined.

(** Reading a request is safe as well. *)
Lemma request_questions_defined alloc n p j qs : 0 <= j → defined (request_questions alloc n p j qs) (λ _, True).
Proof.
  revert j qs. induction n as [|n IH]; intros j qs Hj; cbn [request_questions]; [by apply defined_ok|].
  unfold GET16. fields. destruct (alloc _); cbn [negb]; [|apply defined_err]. apply IH. lia.
Qed.
