(* ===== verification/DnsOk.v ===== *)
(** * DNS packets are read as they are written

    The names that dnsname_to_labels writes, compressed or not, are the names that name_parse reads, also
    in a packet that has grown since; a question reaches the server, and the addresses that the server
    answers reach the client. *)

From S2P Require Import Prelude Text Evutil DnsWire DnsFormat DnsSafe.

(** ** Names *)

Fixpoint joinl (ls : list (list byte)) : list byte :=
  match ls with [] => [] | [l] => l | l :: ls => l ++ DOT :: joinl ls end.
Lemma joinl_cons l ls : ls ≠ [] → joinl (l :: ls) = l ++ DOT :: joinl ls.
Proof. by destruct ls. Qed.

Definition good_label (l : list byte) : Prop := (1 <= length l <= 63)%nat ∧ (DOT ∉ l) ∧ (x00 ∉ l).
#[export] Instance good_label_dec l : Decision (good_label l).
Proof. unfold good_label. apply _. Defined.

(** A host name: at least one label, none empty. *)
Definition good_name (name : list byte) : Prop :=
  ∃ ls, name = joinl ls ∧ ls ≠ [] ∧ Forall good_label ls ∧ Zlen name <= 255.

(** What is read at a position. *)
Definition memory := nat → option byte.
Definition extends (m m' : memory) : Prop := ∀ i b, m i = Some b → m' i = Some b.

(** The labels at position [j] of a segment that starts at [lim], [n] jumps to segments before it, and the
    index behind.  *)
Inductive reads (m : memory) : nat → nat → list (list byte) → nat → nat → Prop :=
  | reads_end lim j : m j = Some x00 → reads m lim j [] 0 (S j)
  | reads_label lim j l ls n e :
      (1 <= length l <= 63)%nat → m j = Some (byte_of_Z (Zlen l)) → (∀ i b, l !! i = Some b → m (S j + i)%nat = Some b) →
      reads m lim (S j + length l) ls n e → reads m lim j (l :: ls) n e
  | reads_pointer lim j k ls n e :
      (k < lim)%nat → Z.of_nat k < 0x4000 →
      m j = Some (byte_of_Z (0xc0 + Z.of_nat k / 256)) → m (S j) = Some (byte_of_Z (Z.of_nat k)) →
      reads m k k ls n e → reads m lim j ls (S n) (S (S j)).

Lemma reads_extends m m' lim j ls n e : extends m m' → reads m lim j ls n e → reads m' lim j ls n e.
Proof. intros Hm. induction 1; [eapply reads_end|eapply reads_label|eapply reads_pointer]; eauto. Qed.

Lemma reads_later m lim lim' j ls n e : (lim <= lim')%nat → reads m lim j ls n e → reads m lim' j ls n e.
Proof.
  intros Hl H. revert Hl. induction H; intros Hl; [by eapply reads_end|eapply reads_label; eauto|].
  eapply reads_pointer; eauto. lia.
Qed.

Lemma reads_jumps m lim j ls n e : reads m lim j ls n e → (n <= lim)%nat.
Proof. induction 1; lia. Qed.

Lemma reads_start m lim j ls n e : reads m lim j ls n e → ∃ b, m j = Some b.
Proof. intros []; eauto. Qed.

(** The name that grows while labels are read. *)
Fixpoint grown (out : list byte) (ls : list (list byte)) : list byte :=
  match ls with [] => out | l :: ls => grown ((if bool_decide (out = []) then [] else out ++ [DOT]) ++ l) ls end.

Lemma grown_app out ls : out ≠ [] → ls ≠ [] → grown out ls = out ++ DOT :: joinl ls.
Proof.
  revert out. induction ls as [|l ls IH]; intros out Ho Hls; [done|]. cbn [grown]. rewrite bool_decide_false by done.
  destruct ls as [|l' ls]; [cbn; by rewrite <- (assoc_L (++))|]. rewrite IH; [|by destruct out|done].
  rewrite (joinl_cons l) by done. by rewrite <- !(assoc_L (++)).
Qed.
Lemma grown_name ls : ls ≠ [] → Forall good_label ls → grown [] ls = joinl ls.
Proof.
  destruct ls as [|l ls]; [done|]. intros _ [Hl _]%Forall_cons. cbn [grown]. rewrite bool_decide_true by done. cbn [app].
  destruct ls as [|l' ls]; [done|]. rewrite grown_app, (joinl_cons l); [done|done| |done]. destruct Hl as [Hl _]. destruct l; [cbn in Hl; lia|done].
Qed.
Lemma grown_length out ls : (length out <= length (grown out ls))%nat.
Proof.
  revert out. induction ls as [|l ls IH]; intros out; cbn [grown]; [done|]. etrans; [|apply IH]. case_bool_decide; lens || (subst; cbn; lia).
Qed.

(** ** Reading what is there *)

Lemma slice_lookup (p : list byte) (j : nat) d :
  (∀ i b, d !! i = Some b → p !! (j + i)%nat = Some b) → (j <= length p)%nat → slice p (Z.of_nat j) (Zlen d) = Some d ∧ (j + length d <= length p)%nat.
Proof.
  intros H Hj. assert (Hle : (j + length d <= length p)%nat).
  { destruct d as [|x d] using rev_ind; [cbn; lia|]. specialize (H (length d) x). rewrite length_app. cbn [length].
    assert (Hx : p !! (j + length d)%nat = Some x) by (apply H; rewrite lookup_app_r, Nat.sub_diag by lia; done).
    apply lookup_lt_Some in Hx. lia. }
  split; [|done]. rewrite slice_Some by lia. rewrite !Nat2Z.id. f_equal. apply list_eq. intros i.
  destruct (d !! i) as [b|] eqn:E.
  - rewrite lookup_take_lt by (by eapply lookup_lt_Some). rewrite lookup_drop. by apply H.
  - apply lookup_ge_None in E. apply lookup_take_ge. done.
Qed.

Lemma get_at (p : list byte) (j : nat) d n :
  (∀ i b, d !! i = Some b → p !! (j + i)%nat = Some b) → d ≠ [] → n = Zlen d → get n p (Z.of_nat j) = ok (ntohl d, Z.of_nat j + n).
Proof.
  intros H Hd ->. destruct (slice_lookup p j d H) as [Hs Hle].
  { destruct d as [|x d]; [done|]. specialize (H 0%nat x eq_refl). apply lookup_lt_Some in H. lia. }
  unfold get. rewrite (proj2 (Z.ltb_ge _ _)) by lia. by rewrite Hs.
Qed.
Lemma GET8_at (p : list byte) (j : nat) b : p !! j = Some b → GET8 p (Z.of_nat j) = ok (Z_of_byte b, Z.of_nat j + 1).
Proof.
  intros H. unfold GET8. rewrite (get_at p j [b] 1); [|intros [|i] x E; [by injection E as <-; rewrite Nat.add_0_r|done]|done|done].
  f_equal. f_equal. f_equal. unfold ntohl. cbn. lia.
Qed.

Lemma pointer_bytes k :
  0 <= k < 0x4000 → let hi := Z_of_byte (byte_of_Z (0xc0 + k / 256)) in let lo := Z_of_byte (byte_of_Z k) in
  hi ≠ 0 ∧ Z.land hi 0xc0 ≠ 0 ∧ Z.shiftl (Z.land hi 0x3f) 8 + lo = k.
Proof.
  intros Hk. cbv zeta. rewrite !Z_of_byte_of_Z. assert (Hq : 0 <= k / 256 < 64) by dlia.
  rewrite (Z.mod_small (_ + _)) by lia. split; [lia|]. rewrite (Z.add_comm 0xc0).
  assert (Hc : forallb (λ q, negb (Z.land (q + 0xc0) 0xc0 =? 0) && (Z.land (q + 0xc0) 0x3f =? q)) (seqZ 0 64) = true) by by vm_compute.
  rewrite forallb_forall in Hc. specialize (Hc (k / 256)). rewrite andb_true_iff, negb_true_iff, Z.eqb_neq, Z.eqb_eq in Hc.
  destruct Hc as [H1 H2]; [apply list_elem_of_In, elem_of_seqZ; lia|]. split; [done|]. rewrite H2, Z.shiftl_mul_pow2 by lia.
  change (2 ^ 8) with 256. dlia.
Qed.

Lemma label_byte n : (1 <= n <= 63)%nat → Z_of_byte (byte_of_Z (Z.of_nat n)) = Z.of_nat n ∧ Z.land (Z.of_nat n) 0xc0 = 0.
Proof.
  intros Hn. rewrite Z_of_byte_of_Z, Z.mod_small by lia. split; [done|].
  assert (Hc : forallb (λ q, Z.land q 0xc0 =? 0) (seqZ 0 64) = true) by by vm_compute.
  rewrite forallb_forall in Hc. apply Z.eqb_eq, Hc, list_elem_of_In, elem_of_seqZ. lia.
Qed.

(** name_parse follows the labels and the pointers. *)
Definition packet_memory (p : list byte) : memory := λ i, p !! i.

Lemma sep_ok room (out : list byte) :
  Zlen out + 1 < room →
  (if bool_decide (out = []) then ok out else if room <=? Zlen out + 1 then err else out ← put room out [DOT]; ok out) =
  ok (if bool_decide (out = []) then [] else out ++ [DOT]).
Proof.
  intros H. case_bool_decide as E; [by rewrite E|]. rewrite (proj2 (Z.leb_gt _ _)) by lia.
  rewrite put_ok by (cbn [length]; lia). done.
Qed.

Lemma name_loop_reads p lim j ls n e :
  reads (packet_memory p) lim j ls n e → ∀ fuel out name_end ptr_count room,
  (length ls + n < fuel)%nat → ptr_count + Z.of_nat n <= Zlen p → Zlen (grown out ls) < room →
  name_loop fuel p (Z.of_nat j) name_end ptr_count room out =
  ok (grown out ls, if name_end <? 0 then Z.of_nat e else name_end).
Proof.
  induction 1 as [lim j H0|lim j l ls n e Hl Hj Hbytes _ IH|lim j k ls n e Hk Hmax H0 H1 Hread IH];
    intros fuel out name_end ptr_count room Hf Hc Hr; (destruct fuel as [|fuel]; [lia|]); cbn [name_loop].
  - rewrite (GET8_at p j x00 H0). cbn [attempt ok]. change (Z_of_byte x00 =? 0) with true. cbv iota. cbn [grown] in *.
    rewrite (proj2 (Z.leb_gt _ _)) by lia. rewrite put_ok by (cbn [length]; lia). cbn [mbind option_bind].
    f_equal. f_equal. f_equal. destruct (name_end <? 0); [lia|done].
  - rewrite (GET8_at p j _ Hj). cbn [attempt ok]. destruct (label_byte (length l) Hl) as [Hv H0]. rewrite Hv.
    rewrite (proj2 (Z.eqb_neq _ 0)), H0, (proj2 (Z.ltb_ge 63 _)) by lia. change (negb (0 =? 0)) with false. cbv iota.
    cbn [grown] in Hr. pose proof (grown_length ((if bool_decide (out = []) then [] else out ++ [DOT]) ++ l) ls) as Hg.
    rewrite length_app in Hg. assert (Ho : (length out <= length (if bool_decide (out = []) then [] else out ++ [DOT]))%nat).
    { case_bool_decide; [by subst|lens]. }
    rewrite sep_ok. 2: { revert Hg Ho. case_bool_decide; [subst; cbn [length]; lia|]. rewrite length_app. cbn [length]. lia. }
    cbn [attempt ok]. set (out' := if bool_decide (out = []) then [] else out ++ [DOT]) in *.
    rewrite (proj2 (Z.leb_gt _ _)) by lia. destruct (slice_lookup p (S j) l) as [Hs Hle].
    { intros i b. apply Hbytes. }
    { apply lookup_lt_Some in Hj. lia. }
    replace (Z.of_nat j + 1) with (Z.of_nat (S j)) by lia. rewrite (proj2 (Z.ltb_ge _ _)), Hs by lia. cbn [mbind option_bind].
    rewrite put_ok by lia. cbn [mbind option_bind]. replace (Z.of_nat (S j) + Zlen l) with (Z.of_nat (S j + length l)) by lia.
    cbn [length] in Hf. rewrite IH by (done || lia). done.
  - destruct (pointer_bytes (Z.of_nat k) ltac:(lia)) as (Hhi & Hand & Hto). cbv zeta in Hto.
    rewrite (GET8_at p j _ H0). cbn [attempt ok]. rewrite (proj2 (Z.eqb_neq _ 0) Hhi), (proj2 (Z.eqb_neq _ 0) Hand). cbn [negb].
    replace (Z.of_nat j + 1) with (Z.of_nat (S j)) by lia. rewrite (GET8_at p (S j) _ H1). cbn [attempt ok]. rewrite Hto.
    assert (Hkp : (k < length p)%nat) by (destruct (reads_start _ _ _ _ _ _ Hread) as [b Hb]; by apply lookup_lt_Some in Hb).
    rewrite (proj2 (Z.ltb_ge (Z.of_nat k) 0)), (proj2 (Z.leb_gt _ (Z.of_nat k))) by lia. cbn [orb].
    rewrite (proj2 (Z.ltb_ge _ _)) by lia. rewrite IH by (done || lia). f_equal. f_equal. f_equal.
    destruct (Z.ltb_spec name_end 0); [|by rewrite (proj2 (Z.ltb_ge name_end 0)) by lia].
    rewrite (proj2 (Z.ltb_ge _ 0)) by lia. lia.
Qed.

Lemma name_parse_reads p lim j ls n e room :
  reads (packet_memory p) lim j ls n e → ls ≠ [] → Forall good_label ls → Zlen (joinl ls) < room → (lim <= length p)%nat →
  name_parse p (Z.of_nat j) room = ok (joinl ls, Z.of_nat e).
Proof.
  intros H Hne Hg Hr Hlim. pose proof (reads_jumps _ _ _ _ _ _ H) as Hn. rewrite <- grown_name in * by done.
  assert (Hl : (length ls <= S (length (grown [] ls)))%nat).
  { rewrite grown_name by done. clear H Hr Hn. induction ls as [|l ls IH]; [done|]. apply Forall_cons in Hg as [Hl Hg].
    destruct ls as [|l' ls]; [cbn [length]; lia|]. rewrite joinl_cons by done. specialize (IH ltac:(done) Hg).
    rewrite length_app. cbn [length] in *. destruct Hl as [? _]. lia. }
  unfold name_parse. by rewrite (name_loop_reads _ _ _ _ _ _ H) by lia.
Qed.

(** ** Writing *)

Ltac lensc := autorewrite with lens; cbn [length]; lia.

(** The labels of a name are unique. *)
Lemma before_dot (a b x y : list byte) :
  DOT ∉ a → DOT ∉ b → a ++ DOT :: x = b ++ DOT :: y → a = b ∧ x = y.
Proof.
  revert b. induction a as [|c a IH]; intros [|c' b] Ha Hb E; cbn [app] in E.
  - by injection E as ->.
  - injection E as <- _. by apply not_elem_of_cons in Hb as [? _].
  - injection E as -> _. by apply not_elem_of_cons in Ha as [? _].
  - injection E as -> E. apply not_elem_of_cons in Ha as [_ Ha], Hb as [_ Hb]. destruct (IH b Ha Hb E) as [-> ->]. done.
Qed.

Lemma joinl_inj ls ls' : Forall good_label ls → Forall good_label ls' → ls ≠ [] → ls' ≠ [] → joinl ls = joinl ls' → ls = ls'.
Proof.
  assert (Hone : ∀ l l' ls, DOT ∉ l → l = l' ++ DOT :: joinl ls → False).
  { intros l l' ls0 Hl ->. apply Hl, elem_of_app. right. apply list_elem_of_here. }
  revert ls'. induction ls as [|l ls IH]; intros ls' Hg Hg' Hn Hn' E; [done|]. destruct ls' as [|l' ls']; [done|].
  apply Forall_cons in Hg as [(_ & Hl & _) Hg], Hg' as [(_ & Hl' & _) Hg'].
  destruct ls as [|l2 ls], ls' as [|l2' ls'].
  - cbn in E. by rewrite E.
  - rewrite (joinl_cons l') in E by done. by destruct (Hone _ _ _ Hl E).
  - rewrite (joinl_cons l) in E by done. symmetry in E. by destruct (Hone _ _ _ Hl' E).
  - rewrite (joinl_cons l), (joinl_cons l') in E by done. apply before_dot in E as [-> E]; [|done|done]. f_equal. by apply IH.
Qed.

(** The array after [W], with [k] bytes that are not written. *)
Definition at_end (W : list (option byte)) (k : nat) (t : list (list byte * Z)) : writer := Writer (W ++ replicate k None) t.
Definition memory_of (W : list (option byte)) : memory := λ i, mjoin (W !! i).

Lemma memory_extends W V : extends (memory_of W) (memory_of (W ++ V)).
Proof.
  intros i b. unfold memory_of. destruct (W !! i) as [x|] eqn:E; [|done]. intros Hx.
  by rewrite (lookup_app_l_Some _ _ _ _ E).
Qed.
Lemma memory_new W (d : list byte) i b : d !! i = Some b → memory_of (W ++ (Some <$> d)) (length W + i)%nat = Some b.
Proof.
  intros H. unfold memory_of. rewrite lookup_app_r by lia. replace (length W + i - length W)%nat with i by lia.
  by rewrite list_lookup_fmap, H.
Qed.

Lemma store_at_end W k t d j :
  j = Zlen W → (length d <= k)%nat →
  store j d (at_end W k t) = Some (at_end (W ++ (Some <$> d)) (k - length d) t, Some ()).
Proof.
  intros -> Hk. unfold store, at_end. cbn [wbuf wtable].
  rewrite (splice_app_eq W (replicate (length d) None) _ (replicate (k - length d) None)); [|..].
  - cbn [mbind option_bind]. by rewrite <- (assoc_L (++)).
  - rewrite <- replicate_add. do 2 f_equal. lia.
  - done.
  - lens.
Qed.

Lemma buf_len_at_end W k t : buf_len (at_end W k t) = Some (at_end W k t, Some (Zlen W + Z.of_nat k)).
Proof. unfold buf_len, at_end. cbn [wbuf]. do 3 f_equal. lens. Qed.

Lemma wbind_Some {A B} (m : wr A) (f : A → wr B) w w' a : m w = Some (w', Some a) → wbind m f w = f a w'.
Proof. intros H. unfold wbind. by rewrite H. Qed.

Lemma append_at_end n x W k t j :
  j = Zlen W → (n <= k)%nat →
  append n x j (at_end W k t) = Some (at_end (W ++ (Some <$> hton n x)) (k - n) t, Some (Zlen W + Z.of_nat n)).
Proof.
  intros -> Hk. unfold append. erewrite wbind_Some by apply buf_len_at_end. rewrite (proj2 (Z.ltb_ge _ _)) by lia.
  assert (Hl : length (hton n x) = n) by (unfold hton; lens).
  erewrite wbind_Some by (apply store_at_end; lia). by rewrite Hl.
Qed.

(** An entry of the table at which its name can be read. *)
Definition sound (m : memory) (x : list byte * Z) : Prop :=
  ∃ ls n e k, x = (joinl ls, Z.of_nat k) ∧ ls ≠ [] ∧ Forall good_label ls ∧ reads m k k ls n e ∧ Z.of_nat k < 0x4000.
Lemma sound_extends m m' x : extends m m' → sound m x → sound m' x.
Proof.
  intros Hm (ls & n & e & k & -> & H1 & H2 & H3 & H4). exists ls, n, e, k. do 3 (split; [done|]). split; [|done].
  by eapply reads_extends.
Qed.

(** A label and, in the table, the name from it on. *)
Lemma put_label_ok strdup_ok use_table l rest W k t :
  good_label l → (S (length l) <= k)%nat →
  ∃ t', put_label strdup_ok use_table l rest (Zlen W) (at_end W k t) =
    Some (at_end (W ++ (Some <$> byte_of_Z (Zlen l) :: l)) (k - S (length l)) (t ++ t'), Some (Zlen W + 1 + Zlen l)) ∧
    (use_table = false → t' = []) ∧ (∀ x, x ∈ t' → x = (rest, Zlen W)).
Proof.
  intros [Hl _] Hk. unfold put_label. erewrite wbind_Some by apply buf_len_at_end. cbv zeta.
  rewrite (proj2 (Z.ltb_ge _ _)), (proj2 (Z.ltb_ge _ _)) by lia.
  assert (Hst : ∀ t', (_ <~ store (Zlen W) [byte_of_Z (Zlen l)]; _ <~ store (Zlen W + 1) l; wret (Zlen W + 1 + Zlen l)) (at_end W k t') =
    Some (at_end (W ++ (Some <$> byte_of_Z (Zlen l) :: l)) (k - S (length l)) t', Some (Zlen W + 1 + Zlen l))).
  { intros t'. erewrite wbind_Some by (apply store_at_end; [done|cbn [length]; lia]).
    erewrite wbind_Some by (apply store_at_end; [lensc|cbn [length]; lia]). unfold wret. rewrite <- (assoc_L (++)).
    do 3 f_equal. cbn [length]. lia. }
  erewrite wbind_Some by done. cbn [wtable at_end].
  destruct use_table.
  - exists (if Zlen t =? MAX_LABELS then [] else if strdup_ok (Zlen W) then [(rest, Zlen W)] else []). split.
    + erewrite wbind_Some by done. rewrite <- Hst. unfold at_end. do 3 f_equal. unfold dnslabel_table_add. cbn [wbuf].
      destruct (_ =? _); [by rewrite app_nil_r|]. destruct (strdup_ok _); [done|by rewrite app_nil_r].
    + split; [done|]. intros x. destruct (_ =? _); [by intros ?%not_elem_of_nil|].
      destruct (strdup_ok _); [by intros ->%list_elem_of_singleton|by intros ?%not_elem_of_nil].
  - exists []. rewrite app_nil_r. split; [|split; [done|by intros x ?%not_elem_of_nil]]. erewrite wbind_Some by done. apply Hst.
Qed.

(** What the table knows of a label. *)
Lemma get_pos_spec t name :
  dnslabel_table_get_pos t name = -1 ∨ ∃ x, x ∈ t ∧ fst x = name ∧ dnslabel_table_get_pos t name = snd x.
Proof.
  unfold dnslabel_table_get_pos. destruct (list_find _ t) as [[i x]|] eqn:E; [right|by left].
  apply list_find_Some in E as (Hx & Hn & _). exists x. split; [by eapply list_elem_of_lookup_2|done].
Qed.

(** An entry is sound, or it belongs to the name being written, which is longer than what is left. *)
Definition pending (lim : nat) (m : memory) (name : list byte) (x : list byte * Z) : Prop :=
  sound m x ∧ snd x < Z.of_nat lim ∨ (length name < length (fst x))%nat.

Lemma pointer_value k : 0 <= k < 0x4000 → hton 2 (Z.lor k 0xc000) = [byte_of_Z (0xc0 + k / 256); byte_of_Z k].
Proof.
  intros Hk. rewrite Z.lor_comm. change 0xc000 with (3 * 2 ^ 14). rewrite lor_low by (change (2 ^ 14) with 0x4000; lia).
  unfold hton. change (3 * 2 ^ 14) with 49152.
  change (reverse (le_bytes 2 (49152 + k))) with [byte_of_Z ((49152 + k) / 256); byte_of_Z (49152 + k)]. f_equal; [|f_equal].
  - f_equal. dlia.
  - rewrite <- byte_of_Z_mod, <- (byte_of_Z_mod k). f_equal. dlia.
Qed.

Lemma last_written W (l : list byte) b :
  last l = Some b → (W ++ (Some <$> l)) !! Nat.pred (length (W ++ (Some <$> l))) = Some (Some b).
Proof.
  intros H. rewrite <- last_lookup. rewrite last_app, fmap_last, H. done.
Qed.

Lemma end_labels_ok W (l : list byte) k t j :
  l ≠ [] → x00 ∉ l → (1 <= k)%nat → j = Zlen (W ++ (Some <$> l)) →
  end_labels j (at_end (W ++ (Some <$> l)) k t) =
  Some (at_end ((W ++ (Some <$> l)) ++ (Some <$> [x00])) (k - 1) t, Some (j + 1)).
Proof.
  intros Hl H0 Hk Hj. unfold end_labels. destruct (last l) as [b|] eqn:Hb; [|by apply last_None in Hb].
  assert (Hpos : (1 <= length l)%nat) by (destruct l; [done|cbn; lia]).
  rewrite (proj2 (Z.eqb_neq j 0)) by (rewrite Hj; lens).
  pose proof (last_written W l b Hb) as Hw. cbn [wbuf at_end].
  replace (Z.to_nat (j - 1)) with (Nat.pred (length (W ++ (Some <$> l)))) by lia.
  rewrite (lookup_app_l_Some _ _ _ _ Hw). rewrite decide_False.
  - erewrite wbind_Some by (apply store_at_end; [done|cbn [length]; lia]). done.
  - intros ->. apply H0. rewrite last_lookup in Hb. by eapply list_elem_of_lookup_2.
Qed.

Lemma sound_here m lim k ls n e :
  ls ≠ [] → Forall good_label ls → Z.of_nat k < 0x4000 → (lim <= k)%nat → reads m lim k ls n e → sound m (joinl ls, Z.of_nat k).
Proof. intros Hne Hg Hk Hl H. exists ls, n, e, k. do 3 (split; [done|]). split; [|done]. by eapply reads_later. Qed.

Section labels.
Context (strdup_ok : Z → bool).

(** What writing a name does: [d] is appended, at which the labels can be read, and the table grows. *)
Definition labels_written (use_table : bool) (ls : list (list byte)) (lim : nat) (W : list (option byte)) (k : nat) (t : list (list byte * Z))
    (r : option (writer * option Z)) : Prop :=
  ∃ d t' n, r = Some (at_end (W ++ (Some <$> d)) (k - length d) (t ++ t'), Some (Zlen W + Zlen d)) ∧
    (length d <= length (joinl ls) + 2)%nat ∧ (use_table = false → t' = []) ∧
    reads (memory_of (W ++ (Some <$> d))) lim (length W) ls n (length W + length d)%nat ∧
    ∀ x, x ∈ t' → sound (memory_of (W ++ (Some <$> d))) x.

Lemma labels_loop_ok use_table ls fuel W k t lim :
  ls ≠ [] → Forall good_label ls → (length (joinl ls) < fuel)%nat → (length (joinl ls) + 2 <= k)%nat →
  (lim <= length W)%nat → Zlen W + Z.of_nat k <= 0x4000 →
  (∀ x, x ∈ t → pending lim (memory_of W) (joinl ls) x) →
  labels_written use_table ls lim W k t (labels_loop strdup_ok fuel use_table (Zlen W) (joinl ls) (at_end W k t)).
Proof.
  revert fuel W k t. induction ls as [|l ls IH]; intros fuel W k t Hne Hg Hf Hk Hlim Hmax Ht; [done|].
  destruct fuel as [|fuel]; [lia|]. cbn [labels_loop]. erewrite wbind_Some by done. cbn [wtable at_end].
  set (ref := if use_table then dnslabel_table_get_pos t (joinl (l :: ls)) else -1).
  assert (Href : ref = -1 ∨ ∃ n e k', ref = Z.of_nat k' ∧ (k' < lim)%nat ∧ Z.of_nat k' < 0x4000 ∧ reads (memory_of W) k' k' (l :: ls) n e).
  { unfold ref. destruct use_table; [|by left]. destruct (get_pos_spec t (joinl (l :: ls))) as [->|(x & Hx & Hn & ->)]; [by left|right].
    destruct (Ht x Hx) as [[(ls' & n & e & k' & -> & Hne' & Hg' & Hr & Hk') Hpos]|Hlong]; [|rewrite Hn in Hlong; lia].
    cbn [fst snd] in *. apply joinl_inj in Hn; [|done..]. subst ls'. exists n, e, k'. split_and!; [done|lia|done|done]. }
  destruct Href as [->|(n & e & k' & -> & Hk' & Hmax' & Hr)].
  - change (0 <=? -1) with false. cbv iota. pose proof Hg as [[Hlen [Hdot Hnul]] Hg']%Forall_cons.
    destruct ls as [|l' ls].
    + cbn [joinl] in *. rewrite strchr_None by done.
      destruct (put_label_ok strdup_ok use_table l l W k t) as (t1 & Hput & Hno & Hnew); [done|lia|].
      erewrite wbind_Some by exact Hput. rewrite (proj2 (Z.ltb_ge _ 0)) by lia.
      rewrite (end_labels_ok W (byte_of_Z (Zlen l) :: l)); [|done| |lia|lensc].
      2: { apply not_elem_of_cons. split; [|done]. intros E. apply (f_equal Z_of_byte) in E. rewrite (proj1 (label_byte (length l) Hlen)) in E.
        change (Z_of_byte x00) with 0 in E. lia. }
      exists ((byte_of_Z (Zlen l) :: l) ++ [x00]), t1, 0%nat. rewrite fmap_app, (assoc_L (++)).
      assert (Hreads : reads (memory_of ((W ++ (Some <$> byte_of_Z (Zlen l) :: l)) ++ (Some <$> [x00]))) lim (length W) [l] 0
        (length W + length ((byte_of_Z (Zlen l) :: l) ++ [x00]))%nat).
      { replace (length W + length ((byte_of_Z (Zlen l) :: l) ++ [x00]))%nat with (S (S (length W) + length l)) by lensc.
        rewrite <- (assoc_L (++)), <- fmap_app. apply reads_label; [done| | |apply reads_end].
        - rewrite <- (Nat.add_0_r (length W)). by apply memory_new.
        - intros i b Hi. replace (S (length W) + i)%nat with (length W + S i)%nat by lia. apply memory_new. by apply (lookup_app_l_Some (_ :: l)).
        - replace (S (length W) + length l)%nat with (length W + S (length l))%nat by lia. apply memory_new.
          rewrite lookup_app_r by (cbn [length]; lia). cbn [length]. by rewrite Nat.sub_diag. }
      assert (Hd : length ((byte_of_Z (Zlen l) :: l) ++ [x00]) = (length l + 2)%nat) by lensc. rewrite Hd in *.
      split_and!; [|done|done|done|].
      * replace (k - S (length l) - 1)%nat with (k - (length l + 2))%nat by lia. do 3 f_equal. lia.
      * intros x ->%Hnew. eapply (sound_here _ lim (length W) [l]); [done|done|lia|lia|exact Hreads].
    + rewrite joinl_cons in * by done. rewrite strchr_app, take_app_length by done.
      replace (drop (S (length l)) (l ++ DOT :: joinl (l' :: ls))) with (joinl (l' :: ls))
        by (rewrite (cons_middle DOT l), (assoc_L (++)), drop_app_length'; [done|by rewrite length_app, Nat.add_comm]).
      rewrite length_app in Hk, Hf. cbn [length] in Hk, Hf.
      destruct (put_label_ok strdup_ok use_table l (l ++ DOT :: joinl (l' :: ls)) W k t) as (t1 & Hput & Hno & Hnew); [done|lia|].
      erewrite wbind_Some by exact Hput. rewrite (proj2 (Z.ltb_ge _ 0)) by lia.
      set (V := W ++ (Some <$> byte_of_Z (Zlen l) :: l)). assert (HV : length V = (length W + S (length l))%nat) by (unfold V; lensc).
      replace (Zlen W + 1 + Zlen l) with (Zlen V) by lia.
      destruct (IH fuel V (k - S (length l))%nat (t ++ t1)) as (d & t2 & n & -> & Hd & Hno2 & Hreads & Hsound); [done|done|lia|lia|lia|lia| |].
      { intros x [Hx|Hx]%elem_of_app.
        - destruct (Ht x Hx) as [[Hs Hpos]|Hlong]; [left|right].
          + split; [|done]. eapply sound_extends; [apply memory_extends|done].
          + rewrite length_app in Hlong. cbn [length] in Hlong. lia.
        - right. rewrite (Hnew x Hx). cbn [fst]. rewrite length_app. cbn [length]. lia. }
      assert (Hall : reads (memory_of (V ++ (Some <$> d))) lim (length W) (l :: l' :: ls) n (length V + length d)%nat).
      { apply reads_label; [done| | |].
        - apply (memory_extends V). rewrite <- (Nat.add_0_r (length W)). by apply memory_new.
        - intros i b Hi. apply (memory_extends V). replace (S (length W) + i)%nat with (length W + S i)%nat by lia. by apply memory_new.
        - by replace (S (length W) + length l)%nat with (length V) by lia. }
      exists ((byte_of_Z (Zlen l) :: l) ++ d), (t1 ++ t2), n.
      assert (HW : W ++ (Some <$> (byte_of_Z (Zlen l) :: l) ++ d) = V ++ (Some <$> d)) by (unfold V; by rewrite fmap_app, (assoc_L (++))).
      rewrite HW. assert (Hdl : length ((byte_of_Z (Zlen l) :: l) ++ d) = (S (length l) + length d)%nat) by lensc. rewrite Hdl.
      split_and!.
      * rewrite (assoc_L (++)). replace (k - S (length l) - length d)%nat with (k - (S (length l) + length d))%nat by lia. do 3 f_equal. lia.
      * rewrite (joinl_cons l), length_app by done. cbn [length]. lia.
      * intros E. by rewrite (Hno E), (Hno2 E).
      * by replace (length W + (S (length l) + length d))%nat with (length V + length d)%nat by lia.
      * intros x [Hx|Hx]%elem_of_app; [|by apply Hsound]. rewrite (Hnew x Hx), <- joinl_cons by done.
        eapply (sound_here _ lim (length W) (l :: l' :: ls)); [done|done|lia|lia|exact Hall].
  - rewrite (proj2 (Z.leb_le _ _)) by lia. erewrite wbind_Some by apply buf_len_at_end. rewrite (proj2 (Z.ltb_ge _ _)) by lia.
    unfold APPEND16. rewrite append_at_end by (done || lia). rewrite pointer_value by lia.
    exists [byte_of_Z (0xc0 + Z.of_nat k' / 256); byte_of_Z (Z.of_nat k')], [], (S n). rewrite app_nil_r.
    split; [done|]. split; [cbn [length]; lia|]. split; [done|]. split; [|by intros x ?%not_elem_of_nil].
    replace (length W + length _)%nat with (S (S (length W))) by (cbn [length]; lia).
    eapply (reads_pointer _ _ _ k'); [done|done| | |].
    + rewrite <- (Nat.add_0_r (length W)). by apply memory_new.
    + replace (S (length W)) with (length W + 1)%nat by lia. by apply memory_new.
    + eapply reads_extends; [apply memory_extends|done].
Qed.
End labels.
