(* ===== verification/DnsQuery.v ===== *)
(** * A question and its answer

    The packet that a client builds for a name reaches the server as that question, and the addresses that
    the server puts into its response reach the client, all of them and in order. *)

From S2P Require Import Prelude Text Evutil EvutilText DnsWire DnsFormat DnsSafe DnsOk.

(** ** Fields of a packet *)

Lemma hton_length n x : length (hton n x) = n.
Proof. unfold hton. lens. Qed.
#[export] Hint Rewrite hton_length : lens.

Lemma ntohl_hton n x : ntohl (hton n x) = x mod 256 ^ Z.of_nat n.
Proof. unfold ntohl, hton. by rewrite reverse_involutive, le_val_bytes. Qed.

Lemma get_mid (n : nat) x a b p j :
  p = a ++ hton n x ++ b → j = Zlen a → get (Z.of_nat n) p j = ok (x mod 256 ^ Z.of_nat n, j + Z.of_nat n).
Proof.
  intros -> ->. unfold get. rewrite (proj2 (Z.ltb_ge _ _)) by lens.
  rewrite (slice_app_eq a (hton n x) b) by (done || lens). cbn [mbind option_bind]. by rewrite ntohl_hton.
Qed.
Lemma GET16_mid x a b p j : p = a ++ hton 2 x ++ b → j = Zlen a → 0 <= x < 65536 → GET16 p j = ok (x, j + 2).
Proof. intros Hp Hj Hx. etrans; [exact (get_mid 2 x a b p j Hp Hj)|]. by rewrite Z.mod_small. Qed.
Lemma GET32_mid x a b p j : p = a ++ hton 4 x ++ b → j = Zlen a → 0 <= x < 2 ^ 32 → GET32 p j = ok (x, j + 4).
Proof. intros Hp Hj Hx. etrans; [exact (get_mid 4 x a b p j Hp Hj)|]. by rewrite Z.mod_small. Qed.

(** ** Writing fields *)

Definition written (w : list byte) (k : nat) (t : list (list byte * Z)) : writer := at_end (Some <$> w) k t.

Lemma append_written n x w k t j :
  j = Zlen w → (n <= k)%nat → append n x j (written w k t) = Some (written (w ++ hton n x) (k - n) t, Some (Zlen w + Z.of_nat n)).
Proof. intros -> Hk. unfold written. rewrite append_at_end by (lens || done). rewrite fmap_app. do 3 f_equal. lens. Qed.

Lemma wbind_written {A} n x w k t j (f : Z → wr A) :
  j = Zlen w → (n <= k)%nat → wbind (append n x j) f (written w k t) = f (Zlen (w ++ hton n x)) (written (w ++ hton n x) (k - n) t).
Proof. intros Hj Hk. erewrite wbind_Some by (by apply append_written). f_equal. lens. Qed.

Lemma memory_packet w x : extends (memory_of (Some <$> w)) (packet_memory (w ++ x)).
Proof.
  intros i b. unfold memory_of, packet_memory. rewrite list_lookup_fmap. destruct (w !! i) as [c|] eqn:E; [|done].
  intros [= ->]. by apply lookup_app_l_Some.
Qed.

Lemma sound_pos W x : sound (memory_of W) x → snd x < Zlen W.
Proof.
  intros (ls & n & e & k & -> & _ & _ & H & _). apply reads_start in H as [b H]. cbn [snd].
  unfold memory_of in H. destruct (W !! k) eqn:E; [|done]. apply lookup_lt_Some in E. lia.
Qed.

(** Every entry of the table is sound. *)
Definition table_ok (w : list byte) (t : list (list byte * Z)) : Prop := ∀ x, x ∈ t → sound (memory_of (Some <$> w)) x.
Lemma table_ok_app w v t : table_ok w t → table_ok (w ++ v) t.
Proof. intros H x Hx. rewrite fmap_app. eapply sound_extends; [apply memory_extends|by apply H]. Qed.

Section query.
Context (strdup_ok : Z → bool).

(** A name written is read wherever the packet goes on. *)
Definition name_at (w d : list byte) (name : list byte) : Prop :=
  ∀ x room, Zlen name < room → name_parse ((w ++ d) ++ x) (Zlen w) room = ok (name, Zlen (w ++ d)).

Lemma write_name use_table name w k t :
  good_name name → (length name + 2 <= k)%nat → Zlen w + Z.of_nat k <= 0x4000 → table_ok w t →
  ∃ d t', dnsname_to_labels strdup_ok use_table (Zlen w) name (written w k t) =
      Some (written (w ++ d) (k - length d) (t ++ t'), Some (Zlen (w ++ d))) ∧
    (length d <= length name + 2)%nat ∧ name_at w d name ∧ table_ok (w ++ d) (t ++ t').
Proof.
  intros (ls & -> & Hne & Hg & H255) Hk Hmax Ht. unfold dnsname_to_labels. rewrite (proj2 (Z.ltb_ge _ _)) by lia.
  assert (Hw : length (Some <$> w) = length w) by apply length_fmap.
  destruct (labels_loop_ok strdup_ok use_table ls (S (length (joinl ls))) (Some <$> w) k t (length w)) as (d & t' & n & Heq & Hd & _ & Hr & Hs);
    [done|done|lia|lia|lens|lens| |].
  { intros x Hx. left. split; [by apply Ht|]. pose proof (sound_pos _ _ (Ht x Hx)) as Hp. by rewrite length_fmap in Hp. }
  rewrite Hw, <- fmap_app in *. exists d, t'. split_and!; [|done| |].
  - unfold written at 1. rewrite Heq. unfold written. do 3 f_equal. lens.
  - intros x room Hroom. replace (Zlen (w ++ d)) with (Z.of_nat (length w + length d)) by lens.
    eapply name_parse_reads; [eapply reads_extends; [apply memory_packet|exact Hr]|done..|lens].
  - intros x [Hx|Hx]%elem_of_app; [exact (table_ok_app w d t Ht x Hx)|by apply Hs].
Qed.

Lemma good_name_length name : good_name name → 1 <= Zlen name <= 255.
Proof.
  intros (ls & -> & Hne & Hg & H255). split; [|done]. destruct ls as [|l ls]; [done|]. apply Forall_cons in Hg as [[Hl _] _].
  destruct ls; [cbn; lia|]. rewrite joinl_cons, length_app by done. lia.
Qed.

Lemma joinl_nul ls : Forall good_label ls → x00 ∉ joinl ls.
Proof.
  induction 1 as [|l ls (_ & _ & Hl) _ IH]; [by apply not_elem_of_nil|]. destruct ls as [|l' ls]; [done|].
  rewrite joinl_cons by done. rewrite not_elem_of_app, not_elem_of_cons. split_and!; [done|done|done].
Qed.
Lemma good_name_nul name : good_name name → x00 ∉ name.
Proof. intros (ls & -> & _ & Hg & _). by apply joinl_nul. Qed.

Lemma c_string_id s : x00 ∉ s → c_string s = s.
Proof.
  induction s as [|b s IH]; intros H; [done|]. apply not_elem_of_cons in H as [Hb Hs]. cbn [c_string].
  rewrite decide_False by congruence. by rewrite IH.
Qed.

(** The header of a packet. *)
Definition header (id flags questions answers authority additional : Z) : list byte :=
  hton 2 id ++ hton 2 flags ++ hton 2 questions ++ hton 2 answers ++ hton 2 authority ++ hton 2 additional.

Lemma header_length a b c d e f : length (header a b c d e f) = 12%nat.
Proof. unfold header. lens. Qed.

Lemma read_header {A} a b c d e f x (k : Z → Z → Z → Z → Z → Z → Z → option (option A)) :
  Forall (λ v, 0 <= v < 65536) [a; b; c; d; e; f] →
  ('(a', j) ⇐ GET16 (header a b c d e f ++ x) 0; '(b', j) ⇐ GET16 (header a b c d e f ++ x) j; '(c', j) ⇐ GET16 (header a b c d e f ++ x) j;
   '(d', j) ⇐ GET16 (header a b c d e f ++ x) j; '(e', j) ⇐ GET16 (header a b c d e f ++ x) j; '(f', j) ⇐ GET16 (header a b c d e f ++ x) j;
   k a' b' c' d' e' f' j) = k a b c d e f 12.
Proof.
  intros Hv. rewrite !Forall_cons in Hv. destruct Hv as (Ha & Hb & Hc & Hd & He & Hf & _). unfold header.
  rewrite (GET16_mid a [] (hton 2 b ++ hton 2 c ++ hton 2 d ++ hton 2 e ++ hton 2 f ++ x)) by (done || by rewrite <- !(assoc_L (++))). cbn [attempt ok].
  rewrite (GET16_mid b (hton 2 a) (hton 2 c ++ hton 2 d ++ hton 2 e ++ hton 2 f ++ x)) by (done || lens || by rewrite <- !(assoc_L (++))). cbn [attempt ok].
  rewrite (GET16_mid c (hton 2 a ++ hton 2 b) (hton 2 d ++ hton 2 e ++ hton 2 f ++ x)) by (done || lens || by rewrite <- !(assoc_L (++))). cbn [attempt ok].
  rewrite (GET16_mid d (hton 2 a ++ hton 2 b ++ hton 2 c) (hton 2 e ++ hton 2 f ++ x)) by (done || lens || by rewrite <- !(assoc_L (++))). cbn [attempt ok].
  rewrite (GET16_mid e (hton 2 a ++ hton 2 b ++ hton 2 c ++ hton 2 d) (hton 2 f ++ x)) by (done || lens || by rewrite <- !(assoc_L (++))). cbn [attempt ok].
  rewrite (GET16_mid f (hton 2 a ++ hton 2 b ++ hton 2 c ++ hton 2 d ++ hton 2 e) x) by (done || lens || by rewrite <- !(assoc_L (++))). done.
Qed.

Lemma write_header {A} a b c d e f k (g : Z → wr A) :
  (12 <= k)%nat →
  (j <~ APPEND16 a 0; j <~ APPEND16 b j; j <~ APPEND16 c j; j <~ APPEND16 d j; j <~ APPEND16 e j; j <~ APPEND16 f j; g j) (written [] k []) =
  g 12 (written (header a b c d e f) (k - 12) []).
Proof.
  intros Hk. unfold APPEND16. rewrite !wbind_written by (done || lia). unfold header. rewrite <- !(assoc_L (++)). cbn [app].
  replace (k - 2 - 2 - 2 - 2 - 2 - 2)%nat with (k - 12)%nat by lia.
  match goal with |- g ?x _ = _ => replace x with 12 by lens end. done.
Qed.

(** ** The request *)

Definition word (x : Z) : Prop := 0 <= x < 65536.

Lemma build_request name id type :
  good_name name → word id → word type →
  ∃ d, let q := header id 0x0100 1 0 0 0 ++ d ++ hton 2 type ++ hton 2 CLASS_INET in
    evdns_request_data_build strdup_ok name id type CLASS_INET (evdns_request_len (Zlen name)) =
      Some (Zlen q, (Some <$> q) ++ replicate (length name + 102 - length q) None) ∧
    (length d <= length name + 2)%nat ∧ name_at (header id 0x0100 1 0 0 0) d name.
Proof.
  intros Hname Hid Htype. pose proof (good_name_length name Hname) as Hl.
  set (k := (length name + 102)%nat). set (h := header id 0x0100 1 0 0 0).
  destruct (write_name false name h (k - 12) []) as (d & t' & Hw & Hd & Hat & _).
  { done. } { lia. } { unfold h. rewrite header_length. lia. } { by intros x ?%not_elem_of_nil. }
  exists d. split; [|done]. unfold evdns_request_data_build.
  assert (Hempty : empty_buffer (evdns_request_len (Zlen name)) = written [] k []).
  { unfold empty_buffer, evdns_request_len, written, at_end. replace (Z.to_nat _) with k by (unfold k; lia). done. }
  rewrite Hempty. unfold request_data. rewrite write_header by lia. fold h.
  replace 12 with (Zlen h) by (unfold h; by rewrite header_length).
  erewrite wbind_Some by exact Hw. rewrite (proj2 (Z.ltb_ge _ 0)) by lia. unfold APPEND16.
  assert (Hh : length h = 12%nat) by apply header_length.
  rewrite !wbind_written by (done || lia). unfold wret. cbn [mbind option_bind default from_option].
  rewrite <- !(assoc_L (++)). unfold written, at_end. cbn [wbuf].
  replace (k - 12 - length d - 2 - 2)%nat with (k - length (h ++ d ++ hton 2 type ++ hton 2 CLASS_INET))%nat by lens. done.
Qed.

Lemma server_reads id type d name :
  good_name name → word id → word type → name_at (header id 0x0100 1 0 0 0) d name →
  request_parse true true (λ _, true) (header id 0x0100 1 0 0 0 ++ d ++ hton 2 type ++ hton 2 CLASS_INET) =
  Some (request_callback (ServerRequest id 0x0100 [Question name type CLASS_INET] [] [] [] None)).
Proof.
  intros Hname Hid Htype Hat. unfold request_parse. cbv zeta.
  rewrite read_header by (repeat (constructor; [done|]); done). change (negb (Z.land 0x0100 0x8000 =? 0)) with false. cbn [negb]. cbv iota.
  change ((1 =? 0) || false) with false. cbv iota. change (Z.to_nat 1) with 1%nat. cbn [request_questions].
  pose proof (good_name_length name Hname) as Hl. set (h := header id 0x0100 1 0 0 0) in *.
  replace 12 with (Zlen h) by (unfold h; by rewrite header_length).
  specialize (Hat (hton 2 type ++ hton 2 CLASS_INET) 256 ltac:(lia)). rewrite <- (assoc_L (++)) in Hat. rewrite Hat. cbn [attempt ok].
  rewrite (GET16_mid type (h ++ d) (hton 2 CLASS_INET)) by (done || by rewrite <- !(assoc_L (++))). cbn [attempt ok].
  rewrite (GET16_mid CLASS_INET (h ++ d ++ hton 2 type) []) by (done || lens || (by rewrite app_nil_r, <- !(assoc_L (++)))). cbn [attempt ok negb length app].
  rewrite c_string_id by (by apply good_name_nul). done.
Qed.

(** ** The answers *)

Definition address_item (name : list byte) (type : Z) (a : list byte * Z) : reply_item :=
  ReplyItem name type CLASS_INET (snd a) false (Zlen (fst a)) (Some (fst a)).

Definition item_size (name : list byte) (a : list byte * Z) : nat := length name + 12 + length (fst a).

Lemma write_item name type a w k t :
  good_name name → (item_size name a <= k)%nat → Zlen w + Z.of_nat k <= 0x4000 → table_ok w t →
  ∃ d t', let e := d ++ hton 2 type ++ hton 2 CLASS_INET ++ hton 4 (snd a) ++ hton 2 (Zlen (fst a)) ++ fst a in
    format_item strdup_ok (address_item name type a) (Zlen w) (written w k t) =
      Some (written (w ++ e) (k - length e) (t ++ t'), Some (Zlen (w ++ e))) ∧
    (length e <= item_size name a)%nat ∧ name_at w d name ∧ table_ok (w ++ e) (t ++ t').
Proof.
  intros Hname Hk Hmax Ht. unfold item_size in *. destruct (write_name true name w k t) as (d & t' & Hw & Hd & Hat & Hok); [done|lia|done|done|].
  exists d, t'. split_and!; [|lens|done|rewrite (assoc_L (++)); by apply table_ok_app].
  unfold format_item, format_name, address_item. cbn [ri_name ri_type ri_class ri_ttl ri_is_name ri_datalen ri_data].
  erewrite wbind_Some. 2: { erewrite wbind_Some by exact Hw. rewrite (proj2 (Z.ltb_ge _ 0)) by lia. done. }
  unfold APPEND16, APPEND32. rewrite !wbind_written by (done || lia).
  set (v := ((((w ++ d) ++ hton 2 type) ++ hton 2 CLASS_INET) ++ hton 4 (snd a)) ++ hton 2 (Zlen (fst a))).
  assert (Hv : Zlen v = Zlen w + Zlen d + 10) by (unfold v; lens).
  erewrite wbind_Some by apply buf_len_at_end. rewrite length_fmap. rewrite (proj2 (Z.ltb_ge _ _)) by lia.
  rewrite (proj2 (Z.ltb_ge (Zlen (fst a)) _)) by lia. rewrite Nat2Z.id, firstn_all.
  erewrite wbind_Some by (apply store_at_end; [by rewrite length_fmap|lia]). unfold wret, written. rewrite <- fmap_app.
  unfold v. rewrite <- !(assoc_L (++)).
  match goal with |- Some (at_end ?w1 ?k1 ?t1, Some ?j1) = Some (at_end ?w2 ?k2 ?t2, Some ?j2) =>
    replace k1 with k2 by lens; replace j1 with j2 by lens end. done.
Qed.

(** What an item adds to a reply. *)
Definition add_item (size : Z) (a : list byte * Z) (st : reply_state) : reply_state :=
  ReplyState (Reply true (addrcount (rs_reply st) + Z.quot (Zlen (fst a)) size) (addresses (rs_reply st) ++ fst a) (ptr_name (rs_reply st)))
    (Z.min (ttl_r st) (snd a)) (cname_ptr st).

(** The addresses of an item: some, and so many bytes each. *)
Definition good_item (size : Z) (a : list byte * Z) : Prop :=
  ∃ n, 0 < n ∧ Zlen (fst a) = size * n ∧ 0 <= snd a < 2 ^ 32.

Context (host_name_max : Z).

Lemma take_item k a p j st :
  0 <= k <= 4 → good_item (2 ^ k) a → 0 <= addrcount (rs_reply st) → addrcount (rs_reply st) + Z.quot (Zlen (fst a)) (2 ^ k) <= 32 →
  (∃ w x, p = w ++ fst a ++ x ∧ j = Zlen w) →
  take_addresses (2 ^ k) 32 p (snd a) (Zlen (fst a)) j st =
  Some (add_item (2 ^ k) a st, if addrcount (rs_reply (add_item (2 ^ k) a st)) =? 32 then rr_stop (j + Zlen (fst a)) else rr_next (j + Zlen (fst a))).
Proof.
  intros Hk (n & Hn & Hlen & Httl) Hc Hmax (w & x & -> & ->). unfold take_addresses. rewrite Hlen in *.
  assert (Hs : 0 < 2 ^ k) by (apply Z.pow_pos_nonneg; lia).
  rewrite (Z.mul_comm (2 ^ k)) in *. rewrite Z.quot_mul in * by lia.
  assert (Hland : Z.land (n * 2 ^ k) (2 ^ k - 1) = 0).
  { change (2 ^ k - 1) with (Z.pred (2 ^ k)). rewrite <- Z.ones_equiv, Z.land_ones by lia. apply Z.mod_mul. lia. }
  rewrite Hland. cbn [negb Z.eqb rs_reply ttl_r cname_ptr]. cbv iota.
  rewrite (Z.min_r _ n), (Z.mul_comm (2 ^ k)) by lia.
  rewrite (proj2 (Z.ltb_ge _ _)) by lens. rewrite (proj2 (Z.ltb_ge _ _)) by lia.
  rewrite (slice_app_eq w (fst a) x) by (done || lia). cbn [mbind option_bind rs_reply addrcount addresses ptr_name ttl_r cname_ptr].
  unfold add_item. rewrite Hlen, Z.quot_mul by lia. cbn [rs_reply addrcount]. done.
Qed.

(** A type with addresses. *)
Definition address_type (type size : Z) : Prop := type = TYPE_A ∧ size = 4 ∨ type = TYPE_AAAA ∧ size = 16.

Lemma answer_item type size a p j st :
  address_type type size → good_item size a → 0 <= addrcount (rs_reply st) → addrcount (rs_reply st) + Z.quot (Zlen (fst a)) size <= 32 →
  (∃ w x, p = w ++ fst a ++ x ∧ j = Zlen w) →
  answer_rr host_name_max strdup_ok p type type CLASS_INET (snd a) (Zlen (fst a)) j st =
  Some (add_item size a st, if addrcount (rs_reply (add_item size a st)) =? 32 then rr_stop (j + Zlen (fst a)) else rr_next (j + Zlen (fst a))).
Proof.
  intros [[-> ->]|[-> ->]] Hg Hc Hmax Hp; [apply (take_item 2)|apply (take_item 4)]; done || lia.
Qed.

Lemma read_item n type size name a w d x st :
  good_name name → address_type type size → good_item size a → Zlen (fst a) < 65536 →
  0 <= addrcount (rs_reply st) → addrcount (rs_reply st) + Z.quot (Zlen (fst a)) size <= 32 → name_at w d name →
  let e := d ++ hton 2 type ++ hton 2 CLASS_INET ++ hton 4 (snd a) ++ hton 2 (Zlen (fst a)) ++ fst a in
  answers_loop host_name_max strdup_ok (S n) ((w ++ e) ++ x) type (Zlen w) st =
  if addrcount (rs_reply (add_item size a st)) =? 32 then Some (add_item size a st, Some (Zlen (w ++ e)))
  else answers_loop host_name_max strdup_ok n ((w ++ e) ++ x) type (Zlen (w ++ e)) (add_item size a st).
Proof.
  intros Hname Htype Hg Hlen Hc Hmax Hat e. pose proof (good_name_length name Hname) as Hnl. pose proof Hg as (m & Hm & Hml & Httl).
  assert (Hword : 0 <= type < 65536) by (destruct Htype as [[-> _]|[-> _]]; done).
  assert (Hhead : rr_header ((w ++ e) ++ x) (Zlen w) = ok (type, CLASS_INET, snd a, Zlen (fst a), Zlen (w ++ d) + 10)).
  { unfold rr_header. unfold e at 1. rewrite <- !(assoc_L (++)).
    pose proof (Hat (hton 2 type ++ hton 2 CLASS_INET ++ hton 4 (snd a) ++ hton 2 (Zlen (fst a)) ++ fst a ++ x) 256 ltac:(lia)) as Hn.
    rewrite <- !(assoc_L (++)) in Hn. rewrite Hn. cbn [attempt ok]. unfold e. rewrite <- !(assoc_L (++)).
    rewrite (GET16_mid type (w ++ d) (hton 2 CLASS_INET ++ hton 4 (snd a) ++ hton 2 (Zlen (fst a)) ++ fst a ++ x)) by (done || by rewrite <- !(assoc_L (++))). cbn [attempt ok].
    rewrite (GET16_mid CLASS_INET (w ++ d ++ hton 2 type) (hton 4 (snd a) ++ hton 2 (Zlen (fst a)) ++ fst a ++ x)) by (done || lens || by rewrite <- !(assoc_L (++))). cbn [attempt ok].
    rewrite (GET32_mid (snd a) (w ++ d ++ hton 2 type ++ hton 2 CLASS_INET) (hton 2 (Zlen (fst a)) ++ fst a ++ x)) by (done || lens || by rewrite <- !(assoc_L (++))). cbn [attempt ok].
    rewrite (GET16_mid (Zlen (fst a)) (w ++ d ++ hton 2 type ++ hton 2 CLASS_INET ++ hton 4 (snd a)) (fst a ++ x)) by (lia || lens || by rewrite <- !(assoc_L (++))). cbn [attempt ok].
    replace (Zlen (w ++ d) + 2 + 2 + 4 + 2) with (Zlen (w ++ d) + 10) by lia. done. }
  cbn [answers_loop]. rewrite Hhead. cbn [mbind option_bind ok].
  rewrite (answer_item type size); [|done..|].
  2: { exists (w ++ d ++ hton 2 type ++ hton 2 CLASS_INET ++ hton 4 (snd a) ++ hton 2 (Zlen (fst a))), x.
    unfold e. split; [by rewrite <- !(assoc_L (++))|lens]. }
  cbn [mbind option_bind]. replace (Zlen (w ++ d) + 10 + Zlen (fst a)) with (Zlen (w ++ e)) by (unfold e; lens).
  by destruct (_ =? 32).
Qed.

(** ** All answers *)

Definition items_size (name : list byte) (answers : list (list byte * Z)) : nat := foldr (λ a n, item_size name a + n)%nat 0%nat answers.
Definition all_answers (size : Z) (answers : list (list byte * Z)) (st : reply_state) : reply_state := foldl (λ st a, add_item size a st) st answers.
Definition count_all (size : Z) (answers : list (list byte * Z)) : Z := foldr (λ a n, Z.quot (Zlen (fst a)) size + n) 0 answers.

Lemma good_item_count size a : 0 < size → good_item size a → 0 < Z.quot (Zlen (fst a)) size.
Proof. intros Hs (n & Hn & -> & _). rewrite Z.mul_comm, Z.quot_mul by lia. done. Qed.
Lemma count_all_pos size answers : 0 < size → Forall (good_item size) answers → 0 <= count_all size answers.
Proof. intros Hs. induction 1 as [|a l Ha _ IH]; [done|]. cbn. pose proof (good_item_count size a Hs Ha). fold (count_all size l). lia. Qed.

Lemma answers_roundtrip name type size answers w k t :
  good_name name → address_type type size → Forall (good_item size) answers → (items_size name answers <= k)%nat →
  Zlen w + Z.of_nat k <= 0x4000 → table_ok w t →
  ∃ e t', format_items strdup_ok (address_item name type <$> answers) (Zlen w) (written w k t) =
      Some (written (w ++ e) (k - length e) (t ++ t'), Some (Zlen (w ++ e))) ∧ (length e <= items_size name answers)%nat ∧
    ∀ x st, 0 <= addrcount (rs_reply st) → addrcount (rs_reply st) + count_all size answers <= 32 →
      answers_loop host_name_max strdup_ok (length answers) ((w ++ e) ++ x) type (Zlen w) st = Some (all_answers size answers st, Some (Zlen (w ++ e))).
Proof.
  intros Hname Htype Hg. assert (Hs : 0 < size) by (destruct Htype as [[_ ->]|[_ ->]]; lia).
  revert w k t. induction Hg as [|a answers Ha Hg IH]; intros w k t Hk Hmax Ht.
  { exists [], []. rewrite !app_nil_r, Nat.sub_0_r. split; [done|]. split; [cbn; lia|done]. }
  cbn [items_size foldr] in Hk. fold (items_size name answers) in Hk.
  destruct (write_item name type a w k t) as (d & t1 & Hw & Hd & Hat & Hok); [done|lia|done|done|].
  set (e1 := d ++ hton 2 type ++ hton 2 CLASS_INET ++ hton 4 (snd a) ++ hton 2 (Zlen (fst a)) ++ fst a) in *. cbv zeta in Hw.
  destruct (IH (w ++ e1) (k - length e1)%nat (t ++ t1)) as (e2 & t2 & Hw2 & Hd2 & Hread); [lia|lens|done|].
  exists (e1 ++ e2), (t1 ++ t2). rewrite !(assoc_L (++)). split_and!.
  - cbn [fmap list_fmap format_items]. erewrite wbind_Some by exact Hw. rewrite Hw2. do 3 f_equal. lens.
  - cbn [items_size foldr]. fold (items_size name answers). lens.
  - intros x st Hc Hcount. cbn [count_all foldr] in Hcount. fold (count_all size answers) in Hcount.
    pose proof (count_all_pos size answers Hs Hg) as Hpos. pose proof (good_item_count size a Hs Ha) as Hpa.
    cbn [length]. rewrite <- (assoc_L (++) (w ++ e1) e2 x).
    assert (H64 : Zlen (fst a) < 65536) by (unfold item_size in Hk; lia).
    unfold e1. rewrite (read_item _ type size name a w d) by (done || lia). fold e1. cbv zeta. fold e1.
    cbn [all_answers foldl]. fold (all_answers size answers (add_item size a st)).
    destruct (Z.eqb_spec (addrcount (rs_reply (add_item size a st))) 32) as [E|E].
    + destruct answers as [|b answers].
      * unfold wret in Hw2. injection Hw2 as _ _ Hz. by rewrite <- Hz.
      * exfalso. apply Forall_cons in Hg as [Hb Hg]. cbn [count_all foldr] in Hcount. fold (count_all size answers) in Hcount.
        pose proof (good_item_count size b Hs Hb). pose proof (count_all_pos size answers Hs Hg). cbn [add_item rs_reply addrcount] in E. lia.
    + rewrite (assoc_L (++) (w ++ e1)). apply Hread; cbn [add_item rs_reply addrcount]; lia.
Qed.

(** ** The response *)

(** The server puts in the answers one after the other. *)
Definition add_addresses (name : list byte) (type : Z) (req : option server_request) (a : list byte * Z) : option server_request :=
  req ← req;
  '(r, req) ← (if type =? TYPE_A then evdns_server_request_add_a_reply true req name (Z.quot (Zlen (fst a)) 4) (fst a) (snd a)
               else evdns_server_request_add_aaaa_reply true req name (Z.quot (Zlen (fst a)) 16) (fst a) (snd a));
  if r =? 0 then Some req else None.

Lemma add_bytes id flags qs items name type ttl d :
  word type → 0 <= ttl < 2 ^ 32 → 0 < Zlen d < 65536 →
  evdns_server_request_add_reply true (ServerRequest id flags qs items [] [] None) EVDNS_ANSWER_SECTION name type CLASS_INET ttl (Zlen d) false (Some d) =
  Some (0, ServerRequest id flags qs (items ++ [address_item name type (d, ttl)]) [] [] None).
Proof.
  intros Ht Httl Hd. unfold evdns_server_request_add_reply, address_item, wrap, uint32, wrap. cbn [sr_response].
  rewrite (proj2 (Z.leb_gt _ _)), Z.ltb_irrefl by lia. rewrite Nat2Z.id, firstn_all, (Z.mod_small ttl), (Z.mod_small type), (Z.mod_small (Zlen d)) by (done || lia).
  rewrite bool_decide_false by (by intros [? ?]). done.
Qed.

Lemma add_addresses_all name type size answers id flags qs items :
  address_type type size → Forall (good_item size) answers → Forall (λ a, Zlen (fst a) < 65536) answers →
  foldl (add_addresses name type) (Some (ServerRequest id flags qs items [] [] None)) answers =
  Some (ServerRequest id flags qs (items ++ (address_item name type <$> answers)) [] [] None).
Proof.
  intros Ht Hg Hl. revert items. induction answers as [|[d ttl] answers IH]; intros items; [by rewrite app_nil_r|].
  apply Forall_cons in Hg as [(n & Hn & Ha & Httl) Hg], Hl as [Hla Hl]. cbn [foldl fmap list_fmap fst snd] in *.
  assert (Hone : add_addresses name type (Some (ServerRequest id flags qs items [] [] None)) (d, ttl) =
    Some (ServerRequest id flags qs (items ++ [address_item name type (d, ttl)]) [] [] None)).
  { unfold add_addresses, evdns_server_request_add_a_reply, evdns_server_request_add_aaaa_reply. cbn [mbind option_bind fst snd].
    assert (Hprod : Z.quot (Zlen d) size * size = Zlen d).
    { rewrite Ha, (Z.mul_comm size), Z.quot_mul; [done|]. destruct Ht as [[_ ->]|[_ ->]]; done. }
    destruct Ht as [[-> ->]|[-> ->]]; cbv iota; cbn [Z.eqb Pos.eqb TYPE_A TYPE_AAAA];
      rewrite Hprod, int_chk_Some by (unfold INT_MIN, INT_MAX; lia); cbn [mbind option_bind]; rewrite add_bytes by (done || lia); done. }
  rewrite Hone, IH by done. by rewrite <- (assoc_L (++)).
Qed.

Lemma write_response name id type size answers :
  good_name name → word id → address_type type size → Forall (good_item size) answers →
  (18 + length name + items_size name answers <= 512)%nat →
  ∃ d e, let w := header id 0x8100 1 (Zlen answers) 0 0 in let v := w ++ d ++ hton 2 type ++ hton 2 CLASS_INET in
    evdns_server_request_format_response strdup_ok true
      (ServerRequest id 0x0100 [Question name type CLASS_INET] (address_item name type <$> answers) [] [] None) 0 =
      Some (0, ServerRequest id 0x0100 [Question name type CLASS_INET] [] [] [] (Some (Some <$> v ++ e))) ∧
    name_at w d name ∧
    ∀ st, 0 <= addrcount (rs_reply st) → addrcount (rs_reply st) + count_all size answers <= 32 →
      answers_loop host_name_max strdup_ok (length answers) (v ++ e) type (Zlen v) st = Some (all_answers size answers st, Some (Zlen (v ++ e))).
Proof.
  intros Hname Hid Htype Hg Hsize. set (w := header id 0x8100 1 (Zlen answers) 0 0). assert (Hw : length w = 12%nat) by apply header_length.
  destruct (write_name true name w 1488 []) as (d & t1 & Hwn & Hd & Hat & Hok); [done|lia|lia|by intros x ?%not_elem_of_nil|].
  set (v := w ++ d ++ hton 2 type ++ hton 2 CLASS_INET). assert (Hv : length v = (16 + length d)%nat) by (unfold v; lens).
  destruct (answers_roundtrip name type size answers v (1488 - length d - 2 - 2) t1) as (e & t2 & Hwi & He & Hread); [done|done|done|lia|lia| |].
  { unfold v. rewrite (assoc_L (++)). by apply table_ok_app. }
  exists d, e. cbv zeta. fold w v. split; [|split; [done|]].
  - unfold evdns_server_request_format_response. change ((0 <? 0) || (15 <? 0)) with false. cbv iota.
    change (empty_buffer 1500) with (written [] 1500 []). unfold format_body. cbn [sr_flags sr_trans_id sr_questions sr_answer sr_authority sr_additional].
    change (wrap 16 (Z.lor (wrap 16 0x0100) (Z.lor 0x8000 0))) with 0x8100. cbv zeta. rewrite write_header by lia.
    rewrite length_fmap. change (Zlen [Question name type CLASS_INET]) with 1. change (Zlen (@nil reply_item)) with 0. fold w.
    cbn [format_questions q_name q_type q_class]. replace 12 with (Zlen w) by lia. change (1500 - 12)%nat with 1488%nat.
    assert (Hq : (j <~ dnsname_to_labels strdup_ok true (Zlen w) name; if j <? 0 then wret j else j <~ APPEND16 type j; j <~ APPEND16 CLASS_INET j; wret j)
        (written w 1488 []) = Some (written v (1488 - length d - 2 - 2) t1, Some (Zlen v))).
    { erewrite wbind_Some by exact Hwn. rewrite (proj2 (Z.ltb_ge _ 0)) by lia. unfold APPEND16. rewrite !wbind_written by (done || lia).
      unfold v, wret. by rewrite <- !(assoc_L (++)). }
    erewrite wbind_Some by exact Hq. rewrite (proj2 (Z.ltb_ge _ 0)) by lia. rewrite !app_nil_r, Hwi. cbn [mbind option_bind].
    rewrite (proj2 (Z.ltb_ge _ 0)), (proj2 (Z.ltb_ge 512 _)) by lens. cbn [mbind option_bind]. unfold free_answers, written, at_end. cbn [wbuf sr_trans_id sr_flags sr_questions].
    rewrite Nat2Z.id. do 5 f_equal. rewrite take_app_le by (rewrite length_fmap; done). by rewrite take_ge by (rewrite length_fmap; done).
  - intros st Hc Hcount. specialize (Hread [] st Hc Hcount). by rewrite app_nil_r in Hread.
Qed.

(** ** The reply *)

Definition least_ttl (answers : list (list byte * Z)) : Z := foldr (λ a t, Z.min (snd a) t) 0xffffffff answers.
Definition all_addresses (answers : list (list byte * Z)) : list byte := mjoin (fst <$> answers).

Lemma all_answers_spec size answers st :
  ttl_r st <= 0xffffffff →
  let st' := all_answers size answers st in
  have_answer (rs_reply st') = (if answers is [] then have_answer (rs_reply st) else true) ∧
  addrcount (rs_reply st') = addrcount (rs_reply st) + count_all size answers ∧
  addresses (rs_reply st') = addresses (rs_reply st) ++ all_addresses answers ∧
  ptr_name (rs_reply st') = ptr_name (rs_reply st) ∧ ttl_r st' = Z.min (ttl_r st) (least_ttl answers) ∧ cname_ptr st' = cname_ptr st.
Proof.
  revert st. induction answers as [|a answers IH]; intros st Httl; cbn zeta.
  { cbn. rewrite app_nil_r, Z.add_0_r. split_and!; done || lia. }
  cbn [all_answers foldl]. fold (all_answers size answers (add_item size a st)).
  destruct (IH (add_item size a st)) as (H1 & H2 & H3 & H4 & H5 & H6); [cbn; lia|]. cbn zeta in *. rewrite H1, H2, H3, H4, H5, H6. cbn [add_item rs_reply addrcount addresses have_answer ptr_name ttl_r cname_ptr].
  unfold all_addresses. cbn [fmap list_fmap mjoin list_join]. fold (all_addresses answers). split_and!; [by destruct answers| |by rewrite (assoc_L (++))|done| |done].
  - cbn [count_all foldr]. fold (count_all size answers). lia.
  - cbn [least_ttl foldr]. fold (least_ttl answers). lia.
Qed.

(** The first question of a reply is that of the request. *)
Lemma read_question rc name type q wq w d dq x :
  good_name name → Zlen wq = 12 → Zlen w = 12 → name_at wq dq name → name_at w d name → q = wq ++ dq ++ hton 2 type ++ hton 2 CLASS_INET →
  questions_loop 1 (w ++ d ++ hton 2 type ++ hton 2 CLASS_INET ++ x) rc (Request q type None) 12 false =
  ok (true, Zlen (w ++ d ++ hton 2 type ++ hton 2 CLASS_INET)).
Proof.
  intros Hname Hwq Hw Hatq Hat ->. pose proof (good_name_length name Hname) as Hl. cbn [questions_loop req_packet].
  pose proof (Hat (hton 2 type ++ hton 2 CLASS_INET ++ x) 256 ltac:(lia)) as H1. rewrite <- (assoc_L (++)), Hw in H1. rewrite H1. cbn [attempt ok].
  pose proof (Hatq (hton 2 type ++ hton 2 CLASS_INET) 256 ltac:(lia)) as H2. rewrite <- (assoc_L (++)), Hwq in H2. rewrite H2. cbn [attempt ok].
  rewrite !c_string_id by (by apply good_name_nul). rewrite bool_decide_true by done.
  assert (Hcase : evutil_ascii_strcasecmp name name = 0) by (apply strcasecmp_spec; [by apply good_name_nul..|done]).
  rewrite Hcase. rewrite (proj2 (Z.ltb_ge _ _)) by lens. change (0 =? 0) with true. cbv iota.
  replace (Zlen (w ++ d) + 4) with (Zlen (w ++ d ++ hton 2 type ++ hton 2 CLASS_INET)) by lens. by destruct rc.
Qed.

(** C23. A question and its answer, for a host name without empty labels and with labels of 63 bytes at
    most ([good_name]): the packet that evdns_request_data_build makes for it is read by the server's
    request_parse as that question; and when the server answers it with at least one and at most 32
    IPv4 or IPv6 addresses, spread over resources as it likes, in 512 bytes at most,
    evdns_server_request_format_response makes a packet, with compressed names, from which the client's
    reply_parse takes exactly those addresses, in order, and the least of their ttls.  (Of more addresses
    only 32 are taken: [DnsFlaws.addresses_dropped].) *)
Theorem dns_query_answered name id type size answers :
  good_name name → word id → address_type type size → answers ≠ [] → Forall (good_item size) answers → count_all size answers <= 32 →
  (18 + length name + items_size name answers <= 512)%nat →
  ∃ q r req req' req'', evdns_request_data_build strdup_ok name id type CLASS_INET (evdns_request_len (Zlen name)) =
      Some (Zlen q, (Some <$> q) ++ replicate (length name + 102 - length q) None) ∧
    request_parse true true (λ _, true) q = Some (request_callback req) ∧ sr_questions req = [Question name type CLASS_INET] ∧
    foldl (add_addresses name type) (Some req) answers = Some req' ∧
    evdns_server_request_format_response strdup_ok true req' 0 = Some (0, req'') ∧ sr_response req'' = Some (Some <$> r) ∧
    ∀ find randomize_case, find id = Some (Request q type None) →
      reply_parse host_name_max strdup_ok find randomize_case r =
      Some (handle_reply id 0x8100 (if least_ttl answers =? 0xffffffff then 0 else least_ttl answers)
        (Reply true (count_all size answers) (all_addresses answers) []) None).
Proof.
  intros Hname Hid Htype Hne Hg Hcount Hsize. assert (Hwt : word type) by (destruct Htype as [[-> _]|[-> _]]; done).
  destruct (build_request name id type Hname Hid Hwt) as (dq & Hq & Hdq & Hatq). cbv zeta in Hq.
  destruct (write_response name id type size answers Hname Hid Htype Hg Hsize) as (d & e & Hr & Hat & Hread). cbv zeta in Hr, Hat, Hread.
  set (wq := header id 0x0100 1 0 0 0) in *. set (w := header id 0x8100 1 (Zlen answers) 0 0) in *.
  set (q := wq ++ dq ++ hton 2 type ++ hton 2 CLASS_INET) in *. set (v := w ++ d ++ hton 2 type ++ hton 2 CLASS_INET) in *.
  eexists q, (v ++ e), _, _, _. split; [exact Hq|]. split; [by apply server_reads|]. split; [done|].
  assert (Hlens : Forall (λ a, Zlen (fst a) < 65536) answers).
  { clear -Hsize. induction answers as [|a answers IH]; [done|]. cbn [items_size foldr] in Hsize. fold (items_size name answers) in Hsize.
    unfold item_size in Hsize. constructor; [lia|apply IH; lia]. }
  split; [by apply (add_addresses_all name type size)|]. split; [exact Hr|]. split; [done|]. intros find rc Hfind.
  assert (Hcnt : (length answers <= 32)%nat).
  { assert (Hs : 0 < size) by (destruct Htype as [[_ ->]|[_ ->]]; lia). clear -Hg Hcount Hs. enough (Zlen answers <= count_all size answers) by lia.
    clear Hcount. induction Hg as [|a l Ha _ IH]; [done|]. cbn [count_all foldr length]. fold (count_all size l). pose proof (good_item_count size a Hs Ha). lia. }
  unfold reply_parse. cbv zeta. unfold v, w. rewrite <- (assoc_L (++)).
  rewrite read_header by (repeat (constructor; [done || lia|]); done). fold w. cbn [mbind option_bind ok]. rewrite Hfind.
  change (Z.land 0x8100 0x8000 =? 0) with false. cbv iota. unfold reply_body. cbn [put_cname_in_ptr request_type].
  change (negb (Z.land 0x8100 0x020f =? 0) && negb (Z.land 0x8100 0x020f =? DNS_ERR_NOTEXIST)) with false. cbv iota. change (Z.to_nat 1) with 1%nat.
  rewrite <- !(assoc_L (++)). rewrite (read_question rc name type q wq w d dq e) by (done || by unfold w, wq; rewrite header_length).
  cbn [mbind option_bind ok]. fold v. rewrite Nat2Z.id. replace (w ++ d ++ hton 2 type ++ hton 2 CLASS_INET ++ e) with (v ++ e) by (unfold v; by rewrite <- !(assoc_L (++))).
  rewrite Hread by (cbn; lia). cbn [mbind option_bind].
  set (st0 := ReplyState (Reply false 0 [] []) 0xffffffff None). destruct (all_answers_spec size answers st0) as (H1 & H2 & H3 & H4 & H5 & H6); [done|]. cbn zeta in *.
  rewrite H1, H6. replace (if answers is [] then have_answer (rs_reply st0) else true) with true by (by destruct answers).
  cbn [mbind option_bind ok cname_ptr st0]. rewrite H5.
  assert (Hmin : Z.min (ttl_r st0) (least_ttl answers) = least_ttl answers).
  { cbn. clear. enough (least_ttl answers <= 0xffffffff) by lia. induction answers as [|a l IH]; [done|]. cbn [least_ttl foldr]. fold (least_ttl l). lia. }
  rewrite Hmin. destruct (rs_reply (all_answers size answers st0)) as [ha ac ad pn]. cbn [have_answer addrcount addresses ptr_name] in *. by rewrite H1, H2, H3, H4; destruct answers.
Qed.
End query.

Lemma dns_query_answered_witness :
  let name := bs "www.example.org" in
  let answers := [([x01; x02; x03; x04; x05; x06; x07; x08], 300); ([x09; x0a; x0b; x0c], 60)] in
  good_name name ∧
  ∃ q r req req' req'', evdns_request_data_build (λ _, true) name 17 TYPE_A CLASS_INET (evdns_request_len (Zlen name)) =
      Some (Zlen q, (Some <$> q) ++ replicate (length name + 102 - length q) None) ∧
    request_parse true true (λ _, true) q = Some (request_callback req) ∧ sr_questions req = [Question name TYPE_A CLASS_INET] ∧
    foldl (add_addresses name TYPE_A) (Some req) answers = Some req' ∧
    evdns_server_request_format_response (λ _, true) true req' 0 = Some (0, req'') ∧ sr_response req'' = Some (Some <$> r) ∧
    ∀ find randomize_case, find 17 = Some (Request q TYPE_A None) →
      reply_parse 64 (λ _, true) find randomize_case r =
      Some (handle_reply 17 0x8100 60 (Reply true 3 [x01; x02; x03; x04; x05; x06; x07; x08; x09; x0a; x0b; x0c] []) None).
Proof.
  assert (Hname : good_name (bs "www.example.org")).
  { exists [bs "www"; bs "example"; bs "org"]. split; [done|]. split; [done|]. split; [|by vm_compute]. by apply (bool_decide_unpack _). }
  split; [done|]. apply (dns_query_answered (λ _, true) 64 (bs "www.example.org") 17 TYPE_A 4 [([x01; x02; x03; x04; x05; x06; x07; x08], 300); ([x09; x0a; x0b; x0c], 60)]);
    [done|by vm_compute|by left|done| |by vm_compute|vm_compute; lia].
  repeat constructor; [exists 2|exists 1]; by vm_compute.
Defined.
