(* ===== verification/DnsFlaws.v ===== *)
(** * What the DNS code gets wrong

    Packets and responses on which libevent/evdns.c does not do what it means to. *)

From S2P Require Import Prelude Text Evutil DnsWire DnsFormat.

(** ** Requests *)

(** All operation codes are taken for standard queries: the flags have been masked when they are looked at. *)
Lemma request_never_notimpl alloc_req alloc_qs alloc packet req :
  request_parse alloc_req alloc_qs alloc packet ≠ Some (request_notimpl req).
Proof.
  unfold request_parse. cbv zeta.
  match goal with |- (r ← ?body; _) ≠ _ => destruct body as [[r|]|] eqn:E; [|done..] end.
  cbn [mbind option_bind]. enough (Z.land (sr_flags r) 0x7800 = 0) as -> by done. revert E. unfold attempt, err, ok.
  repeat case_match; intros E; simplify_eq; cbn [sr_flags]; by rewrite <- Z.land_assoc, Z.land_0_r.
Qed.

(** A packet with operation code 2 and one question. *)
Definition status_request : list byte :=
  [x00; x01; x10; x00; x00; x01; x00; x00; x00; x00; x00; x00; x01; x61; x00; x00; x01; x00; x01].
Example status_request_called :
  request_parse true true (λ _, true) status_request = Some (request_callback (ServerRequest 1 0 [Question (bs "a") 1 1] [] [] [] None)).
Proof. by vm_compute. Qed.

(** ** Replies *)

(** A reply to a question in other letters is taken exactly when the letters have been randomized. *)
Definition query_of (name : list byte) (flags1 flags2 answers : byte) : list byte :=
  [x00; x01; flags1; flags2; x00; x01; x00; answers; x00; x00; x00; x00] ++ byte_of_Z (Zlen name) :: name ++ [x00; x00; x01; x00; x01].
Definition answered : list byte := [xc0; x0c; x00; x01; x00; x01; x00; x00; x00; x05; x00; x04; x7f; x00; x00; x01].
Definition asked (name : list byte) : Z → option request := λ id, if id =? 1 then Some (Request (query_of name x01 x00 x00) TYPE_A None) else None.
Example other_letters :
  let reply := query_of (bs "abc") x81 x80 x01 ++ answered in
  reply_parse 64 (λ _, true) (asked (bs "aBc")) true reply = Some (handle_reply 1 0x8180 5 (Reply true 1 [x7f; x00; x00; x01] []) None) ∧
  reply_parse 64 (λ _, true) (asked (bs "aBc")) false reply = Some (handle_bad 1 0x8180 None).
Proof. by vm_compute. Qed.

(** Of 33 addresses 32 are taken; the last one, here that of the host itself, is dropped silently. *)
Definition many_addresses (n : nat) : list byte :=
  [xc0; x0c; x00; x01; x00; x01; x00; x00; x00; x05] ++ hton 2 (4 * Z.of_nat n) ++ concat (repeat [x0a; x00; x00; x01] n).
Example addresses_dropped :
  reply_parse 64 (λ _, true) (asked (bs "abc")) false (query_of (bs "abc") x81 x80 x02 ++ many_addresses 32 ++ answered) =
    Some (handle_reply 1 0x8180 5 (Reply true 32 (concat (repeat [x0a; x00; x00; x01] 32)) []) None).
Proof. by vm_compute. Qed.

(** A length with one of the two upper bits is taken for a pointer. *)
Example half_a_pointer : name_parse [x01; x61; x00; x40; x00] 3 256 = ok (bs "a", 5).
Proof. by vm_compute. Qed.

(** ** Writing *)

(** The 0 at the end is written behind a buffer that the labels fill. *)
Example zero_behind_buffer :
  dnsname_to_labels (λ _, true) false 0 (bs "abc") (empty_buffer 4) = None.
Proof. by vm_compute. Qed.

(** A server reaches it: the second name ends with the 1500 bytes of the response. *)
Definition full_response : server_request :=
  ServerRequest 1 0 [] [ReplyItem (bs "a") 16 1 0 false 1471 (Some (repeat x20 1471)); ReplyItem (bs "bcd") 1 1 0 false 0 None] [] [] None.
Example zero_behind_response : evdns_server_request_format_response (λ _, true) true full_response 0 = None.
Proof. by vm_compute. Qed.

(** A response that overflows early has 512 bytes although fewer were written: the others are whatever
    was on the stack. *)
Definition big_response : server_request :=
  ServerRequest 1 0 [] [ReplyItem (bs "a") 16 1 0 false 1480 (Some (repeat x20 1480))] [] [] None.
Example stack_sent :
  ∃ r, evdns_server_request_format_response (λ _, true) true big_response 0 = Some (0, ServerRequest 1 0 [] [] [] [] (Some r)) ∧
    length r = 512%nat ∧ take 25 (drop 25 r) = repeat None 25.
Proof. eexists. by split; [vm_compute|]. Qed.

(** A name with two dots in a row is ended by them for the one who reads it. *)
Example empty_label :
  ∃ w, dnsname_to_labels (λ _, true) false 0 (bs "a..b") (empty_buffer 20) = Some (w, Some 6) ∧
    take 6 (wbuf w) = Some <$> [x01; x61; x00; x01; x62; x00] ∧
    name_parse [x01; x61; x00; x01; x62; x00] 0 256 = ok (bs "a", 3).
Proof. eexists. by split; [vm_compute|]. Qed.

(** The server's name for an alias may be missing; its length is asked for all the same. *)
Example missing_cname :
  ∃ req, evdns_server_request_add_cname_reply true (ServerRequest 1 0 [] [] [] [] None) (bs "a") None 5 = Some (0, req) ∧
    evdns_server_request_format_response (λ _, true) true req 0 = None.
Proof. eexists. by split; [vm_compute|]. Qed.

(** A reply for no addresses cannot be added. *)
Example no_addresses req : sr_response req = None → evdns_server_request_add_a_reply true req (bs "a") 0 [] 5 = Some (-1, req).
Proof. intros H. destruct req. cbn in H. by subst. Qed.
