(* ===== verification/EventTagging.v ===== *)
(** * Tagged data

    Models libevent/event_tagging.c: the encoding of integers by nibbles and of tags by groups
    of seven bits, and the marshalling of tagged values into an evbuffer and back.

    A pointer into the buffer is what evbuffer_pullup answers: a read through it is a read of the
    block of the first chain, [None] outside of the block.  Out parameters are [option]s: [None]
    when the code leaves them alone. *)

From S2P Require Import Prelude Timeval EvBuffer EvBufferMove.

(** ** Integers by nibbles *)

(** [off / 2] *)
Definition half (off : nat) : nat := Nat.div2 off.

(** One nibble of the array: the low one of [data[off / 2]] when [off] is odd. *)
Definition put_nibble (data : list byte) (off : nat) (v : Z) : option (list byte) :=
  b ← data !! half off;
  let b := Z_of_byte b in
  Some (<[half off := byte_of_Z
    (if Nat.odd off then Z.lor (Z.land b 240) (Z.land v 15)
     else Z.lor (Z.land b 15) (Z.shiftl (Z.land v 15) 4))]> data).

Fixpoint encode_loop (fuel : nat) (data : list byte) (off : nat) (number : Z)
    : option (list byte * nat) :=
  match fuel with
  | O => None
  | S fuel =>
      if number =? 0 then Some (data, off)
      else
        data ← put_nibble data off number;
        encode_loop fuel data (S off) (Z.shiftr number 4)
  end.

(** ENCODE_INT_INTERNAL for a number of [size] bytes: the array of [size + 1] bytes and the
    number of bytes used. *)
Definition ENCODE_INT_INTERNAL (size : nat) (number : Z) : option (list byte * nat) :=
  '(data, off) ← encode_loop (2 * size + 1) (replicate (S size) x00) 1 number;
  let nibbles := if (2 <? off)%nat then Z.of_nat (off - 2) else 0 in
  data ← put_nibble data 0 nibbles;
  Some (data, half (off + 1)).

Definition encode_int_internal (number : Z) : option (list byte * nat) :=
  ENCODE_INT_INTERNAL 4 number.
Definition encode_int64_internal (number : Z) : option (list byte * nat) :=
  ENCODE_INT_INTERNAL 8 number.

(** The bytes that [evbuffer_add(evbuf, data, len)] reads. *)
Definition encoded (e : option (list byte * nat)) : option (list byte) :=
  '(data, len) ← e;
  slice data 0 (Z.of_nat len).

(** The nibble number [n], read through [rd]. *)
Definition get_nibble (rd : Z → option byte) (n : nat) : option Z :=
  b ← rd (Z.of_nat (half n));
  let b := Z_of_byte b in
  Some (if Nat.odd n then Z.land b 15 else Z.shiftr (Z.land b 240) 4).

Fixpoint decode_nibbles (rd : Z → option byte) (bits : Z) (nibbles : nat) (number : Z) : option Z :=
  match nibbles with
  | O => Some number
  | S n =>
      v ← get_nibble rd nibbles;
      decode_nibbles rd bits n (Z.lor (wrap bits (Z.shiftl number 4)) v)
  end.

(** A read through the pointer that evbuffer_pullup answered. *)
Definition first_byte (b : evbuffer) (i : Z) : option byte :=
  c ← head (chains b);
  if 0 <=? misalign c + i then buffer c !! Z.to_nat (misalign c + i) else None.

Section Tagging.
Variable mm : nat → Z → option (nat → byte).

(** [evbuffer_pullup(evbuf, n) + offset], compared with NULL: the sum is only defined when the
    pullup succeeded or [offset] is 0. *)
Definition pullup_at (b : evbuffer) (n offset : Z) : option (bool * evbuffer) :=
  '(p, b) ← evbuffer_pullup mm b n;
  if negb p && negb (offset =? 0) then None else Some (p, b).

(** DECODE_INT_INTERNAL: the length of the encoded number or -1, and the number. *)
Definition DECODE_INT_INTERNAL (bits maxnibbles : Z) (b : evbuffer) (offset : Z)
    : option (Z * option Z * evbuffer) :=
  let len := evbuffer_get_length b - offset in
  if len <=? 0 then Some (-1, None, b) else
  '(p, b) ← pullup_at b (offset + 1) offset;
  if negb p then Some (-1, None, b) else
  d0 ← first_byte b offset;
  let nibbles := Z.shiftr (Z.land (Z_of_byte d0) 240) 4 + 1 in
  if (maxnibbles <? nibbles) || (len <? Z.shiftr nibbles 1 + 1) then Some (-1, None, b) else
  let len := Z.shiftr nibbles 1 + 1 in
  '(p, b) ← pullup_at b (offset + len) offset;
  if negb p then Some (-1, None, b) else
  number ← decode_nibbles (λ i, first_byte b (offset + i)) bits (Z.to_nat nibbles) 0;
  Some (len, Some number, b).

Definition decode_int_internal (b : evbuffer) (offset : Z) : option (Z * option Z * evbuffer) :=
  DECODE_INT_INTERNAL 32 8 b offset.
Definition decode_int64_internal (b : evbuffer) (offset : Z) : option (Z * option Z * evbuffer) :=
  DECODE_INT_INTERNAL 64 16 b offset.

(** The results of evbuffer_add are ignored by the encoders. *)
Definition add_ (b : evbuffer) (d : list byte) : option evbuffer := snd <$> evbuffer_add mm b d.
Definition drain_ (b : evbuffer) (n : Z) : option evbuffer := snd <$> evbuffer_drain b n.

Definition evtag_encode_int (b : evbuffer) (number : Z) : option evbuffer :=
  d ← encoded (encode_int_internal number);
  add_ b d.
Definition evtag_encode_int64 (b : evbuffer) (number : Z) : option evbuffer :=
  d ← encoded (encode_int64_internal number);
  add_ b d.

Definition evtag_decode_int (b : evbuffer) : option (Z * option Z * evbuffer) :=
  '(res, number, b) ← decode_int_internal b 0;
  if res =? -1 then Some (-1, number, b) else b ← drain_ b res; Some (0, number, b).
Definition evtag_decode_int64 (b : evbuffer) : option (Z * option Z * evbuffer) :=
  '(res, number, b) ← decode_int64_internal b 0;
  if res =? -1 then Some (-1, number, b) else b ← drain_ b res; Some (0, number, b).

(** ** Tags by groups of seven bits *)

(** The bytes written into [data], of which there are [room]. *)
Fixpoint tag_loop (room : nat) (tag : Z) : option (list byte) :=
  match room with
  | O => None
  | S room =>
      let lower := Z.land tag 127 in
      let tag := Z.shiftr tag 7 in
      if tag =? 0 then Some [byte_of_Z lower]
      else rest ← tag_loop room tag; Some (byte_of_Z (Z.lor lower 128) :: rest)
  end.

Definition evtag_encode_tag (b : option evbuffer) (tag : Z) : option (Z * option evbuffer) :=
  d ← tag_loop 5 tag;
  match b with
  | Some b => b ← add_ b d; Some (Zlen d, Some b)
  | None => Some (Zlen d, None)
  end.

(** The loop of decode_tag_internal: [None] outside of the block; otherwise the tag and the
    number of its bytes, or nothing when they do not encode a tag. *)
Fixpoint decode_tag_loop (fuel : nat) (rd : Z → option byte) (len count shift number : Z)
    : option (option (Z * Z)) :=
  match fuel with
  | O => None
  | S fuel =>
      if count <? len then
        lower ← rd count;
        let lower := Z_of_byte lower in
        if (28 <=? shift) && ((28 <? shift) || (15 <? Z.land lower 127)) then Some None else
        let number := Z.lor number (uint32 (Z.shiftl (Z.land lower 127) shift)) in
        if Z.land lower 128 =? 0 then Some (Some (number, count + 1))
        else decode_tag_loop fuel rd len (count + 1) (shift + 7) number
      else Some None
  end.

Definition decode_tag_internal (b : evbuffer) (dodrain : bool) : option (Z * option Z * evbuffer) :=
  let len := evbuffer_get_length b in
  '(p, b) ← evbuffer_pullup mm b (if len <? 5 then len else 5);
  if negb p then Some (-1, None, b) else
  r ← decode_tag_loop 6 (first_byte b) len 0 0 0;
  match r with
  | None => Some (-1, None, b)
  | Some (number, count) =>
      b ← (if dodrain then drain_ b count else Some b);
      Some (if INT_MAX <? count then INT_MAX else count, Some number, b)
  end.

Definition evtag_decode_tag (b : evbuffer) : option (Z * option Z * evbuffer) :=
  decode_tag_internal b true.

(** ** Marshalling *)

Definition encode_tag_ (b : evbuffer) (tag : Z) : option evbuffer :=
  '(_, b) ← evtag_encode_tag (Some b) tag;
  b.

(** [len] is the length of [data], a 32-bit number. *)
Definition evtag_marshal (b : evbuffer) (tag : Z) (data : list byte) : option evbuffer :=
  b ← encode_tag_ b tag;
  b ← evtag_encode_int b (uint32 (Zlen data));
  add_ b data.

Definition evtag_marshal_buffer (b : evbuffer) (tag : Z) (data : evbuffer)
    : option (evbuffer * evbuffer) :=
  b ← encode_tag_ b tag;
  b ← evtag_encode_int b (uint32 (evbuffer_get_length data));
  '(_, b, data) ← evbuffer_add_buffer mm b data;
  Some (b, data).

Definition marshal_encoded (b : evbuffer) (tag : Z) (e : option (list byte * nat)) : option evbuffer :=
  '(data, len) ← e;
  b ← encode_tag_ b tag;
  b ← evtag_encode_int b (Z.of_nat len);
  d ← slice data 0 (Z.of_nat len);
  add_ b d.

Definition evtag_marshal_int (b : evbuffer) (tag integer : Z) : option evbuffer :=
  marshal_encoded b tag (encode_int_internal integer).
Definition evtag_marshal_int64 (b : evbuffer) (tag integer : Z) : option evbuffer :=
  marshal_encoded b tag (encode_int64_internal integer).

(** The bytes of a C string are those before its NUL. *)
Definition evtag_marshal_string (b : evbuffer) (tag : Z) (string : list byte) : option evbuffer :=
  s ← cstr string;
  s ← slice s 0 (uint32 (Zlen s));
  evtag_marshal b tag s.

(** [data] has ten bytes; the second number is written from [data + len] on. *)
Definition evtag_marshal_timeval (b : evbuffer) (tag : Z) (tv : timeval) : option evbuffer :=
  '(e1, len1) ← encode_int_internal (uint32 (tv_sec tv));
  '(e2, len2) ← encode_int_internal (uint32 (tv_usec tv));
  data ← splice (replicate 10 x00) 0 e1;
  data ← splice data (Z.of_nat len1) e2;
  d ← slice data 0 (Z.of_nat (len1 + len2));
  evtag_marshal b tag d.

(** ** Unmarshalling *)

Definition evtag_peek (b : evbuffer) : option (Z * option Z * evbuffer) := decode_tag_internal b false.

(** The length that follows the tag, and the length of the header. *)
Definition peek_header (b : evbuffer) : option (option (Z * Z) * evbuffer) :=
  '(len, _, b) ← decode_tag_internal b false;
  if len =? -1 then Some (None, b) else
  '(res, number, b) ← decode_int_internal b len;
  if res =? -1 then Some (None, b) else
  number ← number;
  Some (Some (number, res + len), b).

Definition evtag_peek_length (b : evbuffer) : option (Z * option Z * evbuffer) :=
  '(r, b) ← peek_header b;
  Some (match r with
        | Some (plength, n) => (0, Some (uint32 (plength + n)), b)
        | None => (-1, None, b)
        end).

Definition evtag_payload_length (b : evbuffer) : option (Z * option Z * evbuffer) :=
  '(r, b) ← peek_header b;
  Some (match r with
        | Some (plength, _) => (0, Some plength, b)
        | None => (-1, None, b)
        end).

(** The length is converted to int. *)
Definition evtag_unmarshal_header (b : evbuffer) : option (Z * option Z * evbuffer) :=
  '(r, tag, b) ← decode_tag_internal b true;
  if r =? -1 then Some (-1, tag, b) else
  '(r, len, b) ← evtag_decode_int b;
  if r =? -1 then Some (-1, tag, b) else
  len ← len;
  if evbuffer_get_length b <? len then Some (-1, tag, b) else Some (int32 len, tag, b).

Definition evtag_consume (b : evbuffer) : option (Z * evbuffer) :=
  '(len, _, b) ← evtag_unmarshal_header b;
  if len =? -1 then Some (-1, b) else b ← drain_ b (uint64 len); Some (0, b).

(** The [len] bytes that evbuffer_add copies from the pointer that evbuffer_pullup answered;
    a length beyond INT_MAX, which evtag_unmarshal_header makes negative, is not followed. *)
Definition pulled (p : bool) (b : evbuffer) (len : Z) : option (list byte) :=
  if len =? 0 then Some [] else
  if negb p then None else
  c ← head (chains b);
  slice (buffer c) (misalign c) len.

Definition evtag_unmarshal (src dst : evbuffer) : option (Z * option Z * evbuffer * evbuffer) :=
  '(len, tag, src) ← evtag_unmarshal_header src;
  if len =? -1 then Some (-1, tag, src, dst) else
  '(p, src) ← evbuffer_pullup mm src len;
  d ← pulled p src len;
  '(r, dst) ← evbuffer_add mm dst d;
  if r =? -1 then Some (-1, tag, src, dst) else
  src ← drain_ src (uint64 len);
  Some (len, tag, src, dst).

(** evtag_unmarshal_int and evtag_unmarshal_int64, by the decoder of the number. *)
Definition unmarshal_number (decode : evbuffer → Z → option (Z * option Z * evbuffer))
    (b : evbuffer) (need_tag : Z) : option (Z * option Z * evbuffer) :=
  '(r, tag, b) ← decode_tag_internal b true;
  if r =? -1 then Some (-1, None, b) else
  tag ← tag;
  if negb (need_tag =? tag) then Some (-1, None, b) else
  '(r, len, b) ← evtag_decode_int b;
  if r =? -1 then Some (-1, None, b) else
  len ← len;
  if evbuffer_get_length b <? len then Some (-1, None, b) else
  '(result, number, b) ← decode b 0;
  b ← drain_ b len;
  Some (if (result <? 0) || (len <? uint64 result) then -1 else result, number, b).

Definition evtag_unmarshal_int (b : evbuffer) (need_tag : Z) : option (Z * option Z * evbuffer) :=
  unmarshal_number decode_int_internal b need_tag.
Definition evtag_unmarshal_int64 (b : evbuffer) (need_tag : Z) : option (Z * option Z * evbuffer) :=
  unmarshal_number decode_int64_internal b need_tag.

(** The result and the [len] bytes of [data]. *)
Definition evtag_unmarshal_fixed (src : evbuffer) (need_tag len : Z)
    : option (Z * list byte * evbuffer) :=
  '(tag_len, tag, src) ← evtag_unmarshal_header src;
  if tag_len <? 0 then Some (-1, [], src) else
  tag ← tag;
  if negb (tag =? need_tag) then Some (-1, [], src) else
  if negb (uint64 tag_len =? len) then Some (-1, [], src) else
  '(_, d, src) ← evbuffer_remove src len;
  Some (0, d, src).

(** [mem] tells whether mm_malloc succeeds; the string is answered with its NUL. *)
Definition evtag_unmarshal_string (mem : Z → bool) (b : evbuffer) (need_tag : Z)
    : option (Z * option (list byte) * evbuffer) :=
  '(tag_len, tag, b) ← evtag_unmarshal_header b;
  if tag_len =? -1 then Some (-1, None, b) else
  tag ← tag;
  if negb (tag =? need_tag) then Some (-1, None, b) else
  if negb (mem (uint64 (tag_len + 1))) then Some (-1, None, b) else
  '(_, d, b) ← evbuffer_remove b (uint64 tag_len);
  if Zlen d =? tag_len then Some (0, Some (d ++ [x00]), b) else None.

(** The two numbers of a time, as far as they are written. *)
Definition decode_timeval (b : evbuffer) (len : Z) : option (Z * option Z * option Z * evbuffer) :=
  '(offset, sec, b) ← decode_int_internal b 0;
  if offset =? -1 then Some (-1, None, None, b) else
  '(offset2, usec, b) ← decode_int_internal b offset;
  if offset2 =? -1 then Some (-1, sec, None, b) else
  Some (if len <? offset + offset2 then -1 else 0, sec, usec, b).

Definition evtag_unmarshal_timeval (b : evbuffer) (need_tag : Z)
    : option (Z * option Z * option Z * evbuffer) :=
  '(len, tag, b) ← evtag_unmarshal_header b;
  if len =? -1 then Some (-1, None, None, b) else
  tag ← tag;
  '(result, sec, usec, b) ←
    (if negb (tag =? need_tag) then Some (-1, None, None, b) else decode_timeval b len);
  b ← drain_ b (uint64 len);
  Some (result, sec, usec, b).

End Tagging.

(** ** Nibbles *)

Lemma seqZ_forallb (P : Z → bool) n :
  forallb P (seqZ 0 n) = true → ∀ z, 0 <= z < n → P z = true.
Proof. rewrite forallb_forall. intros H z Hz. apply H. apply list_elem_of_In, elem_of_seqZ. lia. Qed.

(** Replacing one nibble of a byte. *)
Definition nibbles_ok (z v : Z) : bool :=
  let lo := Z.lor (Z.land z 240) v in
  let hi := Z.lor (Z.land z 15) (Z.shiftl v 4) in
  (Z.land lo 15 =? v) && (Z.shiftr (Z.land lo 240) 4 =? Z.shiftr (Z.land z 240) 4) && (lo <? 256) &&
  (Z.land hi 15 =? Z.land z 15) && (Z.shiftr (Z.land hi 240) 4 =? v) && (hi <? 256) && (0 <=? lo) && (0 <=? hi).

Lemma nibbles_ok_all z v : 0 <= z < 256 → 0 <= v < 16 → nibbles_ok z v = true.
Proof.
  intros Hz Hv.
  assert (forallb (λ z, forallb (nibbles_ok z) (seqZ 0 16)) (seqZ 0 256) = true) as H by (vm_compute; done).
  pose proof (seqZ_forallb _ _ H z Hz) as H'. cbv beta in H'. by apply (seqZ_forallb _ 16).
Qed.

(** The nibble number [j] of an array, and the number that [n] nibbles from [off] on hold. *)
Definition nib (data : list byte) (j : nat) : Z :=
  match data !! half j with
  | Some b => if Nat.odd j then Z.land (Z_of_byte b) 15 else Z.shiftr (Z.land (Z_of_byte b) 240) 4
  | None => 0
  end.

Fixpoint nval (data : list byte) (off n : nat) : Z :=
  match n with O => 0 | S n => nib data off + 16 * nval data (S off) n end.

Lemma land15 v : Z.land v 15 = v mod 16.
Proof. change 15 with (Z.ones 4). by rewrite Z.land_ones. Qed.

Lemma nib_range data j : 0 <= nib data j < 16.
Proof.
  unfold nib. destruct (data !! _) as [b|]; [|lia]. pose proof (Z_of_byte_range b) as Hb.
  destruct (Nat.odd j); [rewrite land15; dlia|].
  pose proof (nibbles_ok_all (Z_of_byte b) 0 Hb ltac:(lia)) as H. unfold nibbles_ok in H.
  assert (0 <= Z.land (Z_of_byte b) 240 <= 240) as Hl.
  { split; [apply Z.land_nonneg; lia|].
    assert (forallb (λ z : Z, Z.land z 240 <=? 240) (seqZ 0 256) = true) as Hc by (vm_compute; done).
    pose proof (seqZ_forallb _ _ Hc _ Hb) as Hle. by apply Z.leb_le in Hle. }
  rewrite Z.shiftr_div_pow2 by lia. change (2 ^ 4) with 16. dlia.
Qed.

Lemma same_half i j : half i = half j → Nat.odd i = Nat.odd j → i = j.
Proof.
  unfold half. intros Hd Ho. rewrite (Nat.div2_odd i), (Nat.div2_odd j). by rewrite Hd, Ho.
Qed.

Lemma put_nibble_ok data off v :
  (half off < length data)%nat →
  ∃ data', put_nibble data off v = Some data' ∧ length data' = length data ∧
    ∀ j, nib data' j = if decide (j = off) then v mod 16 else nib data j.
Proof.
  intros Hlt. apply lookup_lt_is_Some_2 in Hlt as [b Hb]. unfold put_nibble. rewrite Hb. cbn [mbind option_bind].
  eexists. split; [done|]. split; [apply length_insert|]. intros j. unfold nib. rewrite land15.
  pose proof (Z_of_byte_range b) as Hr.
  pose proof (nibbles_ok_all (Z_of_byte b) (v mod 16) Hr ltac:(dlia)) as Hn. unfold nibbles_ok in Hn.
  rewrite !andb_true_iff, !Z.eqb_eq, !Z.ltb_lt, !Z.leb_le in Hn.
  destruct Hn as [[[[[[[H1 H2] H3] H4] H5] H6] H7] H8].
  destruct (decide (half j = half off)) as [Hj|Hj].
  - rewrite Hj, list_lookup_insert_eq by by eapply lookup_lt_Some. rewrite Hb, Z_of_byte_of_Z.
    rewrite (Z.mod_small (if Nat.odd off then _ else _) 256) by (case_match; lia).
    destruct (decide (j = off)) as [->|Hne].
    + by destruct (Nat.odd off).
    + destruct (Nat.odd j) eqn:Ej, (Nat.odd off) eqn:Eo; try done;
        exfalso; apply Hne; apply same_half; congruence.
  - rewrite list_lookup_insert_ne by congruence. by rewrite decide_False by congruence.
Qed.

Lemma nval_ext data data' off n :
  (∀ j, (off <= j < off + n)%nat → nib data j = nib data' j) → nval data off n = nval data' off n.
Proof.
  revert off. induction n as [|n IH]; intros off H; cbn [nval]; [done|].
  rewrite (H off) by lia. rewrite (IH (S off)); [done|]. intros j Hj. apply H. lia.
Qed.

Lemma nval_snoc data off n : nval data off (S n) = nval data off n + nib data (off + n) * 16 ^ Z.of_nat n.
Proof.
  revert off. induction n as [|n IH]; intros off.
  - cbn [nval]. rewrite Nat.add_0_r. change (16 ^ Z.of_nat 0) with 1. lia.
  - change (nval data off (S (S n))) with (nib data off + 16 * nval data (S off) (S n)).
    rewrite IH. change (nval data off (S n)) with (nib data off + 16 * nval data (S off) n).
    rewrite (Nat2Z.inj_succ n), Z.pow_succ_r by lia. replace (S off + n)%nat with (off + S n)%nat by lia. lia.
Qed.

Lemma nval_range data off n : 0 <= nval data off n < 16 ^ Z.of_nat n.
Proof.
  revert off. induction n as [|n IH]; intros off; cbn [nval]; [done|].
  rewrite Nat2Z.inj_succ, Z.pow_succ_r by lia. pose proof (IH (S off)). pose proof (nib_range data off). lia.
Qed.

(** ** Encoding integers *)

Lemma encode_loop_ok m fuel data off number :
  0 <= number < 16 ^ Z.of_nat m → (m < fuel)%nat → (off + m <= 2 * length data)%nat →
  ∃ data' n, encode_loop fuel data off number = Some (data', (off + n)%nat) ∧ length data' = length data ∧
    (n <= m)%nat ∧ (number ≠ 0 → n ≠ 0%nat) ∧ (∀ j, (j < off)%nat → nib data' j = nib data j) ∧
    nval data' off n = number ∧ (n = 0%nat → data' = data).
Proof.
  revert fuel data off number. induction m as [|m IH]; intros [|fuel] data off number Hn Hf Hoff; try lia.
  - assert (number = 0) as -> by (cbn in Hn; lia). exists data, 0%nat. rewrite Nat.add_0_r. by split_and!.
  - cbn [encode_loop]. destruct (Z.eqb_spec number 0) as [->|H0].
    { exists data, 0%nat. rewrite Nat.add_0_r. split_and!; try done. lia. }
    destruct (put_nibble_ok data off number) as (d1 & -> & Hl1 & Hj1).
    { unfold half. pose proof (Nat.div2_odd off). destruct (Nat.odd off); cbn [Nat.b2n] in *; lia. }
    cbn [mbind option_bind]. rewrite Nat2Z.inj_succ, Z.pow_succ_r in Hn by lia.
    rewrite Z.shiftr_div_pow2 by lia. change (2 ^ 4) with 16.
    destruct (IH fuel d1 (S off) (number / 16)) as (d2 & n & -> & Hl2 & Hnm & _ & Hj2 & Hv & _);
      [dlia|lia|lia|].
    exists d2, (S n). replace (S off + n)%nat with (off + S n)%nat by lia.
    split_and!; try done; [congruence|lia| |].
    + intros j Hj. rewrite Hj2, Hj1 by lia. by rewrite decide_False by lia.
    + cbn [nval]. rewrite Hv, Hj2, Hj1, decide_True by (done || lia). dlia.
Qed.

Lemma nib_replicate k j : nib (replicate k x00) j = 0.
Proof.
  unfold nib. destruct (replicate k x00 !! _) as [b|] eqn:E; [|done].
  apply lookup_replicate in E as [-> _]. by destruct (Nat.odd j).
Qed.

(** What an encoded number looks like: [n] nibbles behind the nibble that holds [n - 1]. *)
Definition int_wire (l : list byte) (n : nat) (number : Z) : Prop :=
  nib l 0 = Z.of_nat n - 1 ∧ nval l 1 n = number ∧ length l = S (half n).

Lemma encode_ok size number :
  (0 < size)%nat → (size <= 8)%nat → 0 <= number < 16 ^ Z.of_nat (2 * size) →
  ∃ data len n, ENCODE_INT_INTERNAL size number = Some (data, len) ∧ length data = S size ∧
    (1 <= n <= 2 * size)%nat ∧ len = S (half n) ∧ nib data 0 = Z.of_nat n - 1 ∧ nval data 1 n = number.
Proof.
  intros Hs Hs8 Hn. unfold ENCODE_INT_INTERNAL.
  destruct (encode_loop_ok (2 * size) (2 * size + 1) (replicate (S size) x00) 1 number)
    as (d1 & n & -> & Hl & Hnm & Hn0 & Hj & Hv & Hd0); [done|lia|lens|].
  rewrite length_replicate in Hl. cbn [mbind option_bind].
  set (m := if decide (n = 0%nat) then 1%nat else n).
  assert ((if (2 <? 1 + n)%nat then Z.of_nat (1 + n - 2) else 0) = Z.of_nat m - 1) as ->.
  { subst m. destruct (Nat.ltb_spec 2 (1 + n)); case_decide; lia. }
  destruct (put_nibble_ok d1 0 (Z.of_nat m - 1)) as (d2 & -> & Hl2 & Hj2); [cbn; lia|].
  cbn [mbind option_bind]. exists d2, (half (1 + n + 1)), m. split; [done|]. split; [congruence|].
  assert (1 <= m <= 2 * size)%nat as Hm by (subst m; case_decide; lia). split; [done|].
  split; [subst m; rewrite Nat.add_1_r; by case_decide as Hz; [rewrite Hz|]|].
  split; [rewrite Hj2, decide_True by done; apply Z.mod_small; lia|].
  rewrite <- Hv. rewrite (nval_ext d2 d1) by (intros j ?; rewrite Hj2; by rewrite decide_False by lia).
  subst m. case_decide as Hz; [|done]. rewrite (Hd0 Hz), Hz. cbn [nval]. rewrite nib_replicate. lia.
Qed.

(** The bytes of an encoded number of [size] bytes. *)
Definition int_bytes (size : nat) (number : Z) : list byte :=
  default [] (encoded (ENCODE_INT_INTERNAL size number)).

Lemma slice_prefix {A} (l : list A) k : (k <= length l)%nat → slice l 0 (Z.of_nat k) = Some (take k l).
Proof. intros H. rewrite slice_Some by lia. by rewrite Nat2Z.id. Qed.

Lemma nib_prefix l k j : (half j < length l)%nat → nib (l ++ k) j = nib l j.
Proof. intros H. unfold nib. by rewrite lookup_app_l. Qed.

Lemma div2_le i n : (i <= n)%nat → (half i <= half n)%nat.
Proof. apply Nat.div2_le_mono. Qed.

Lemma int_bytes_ok size number :
  (0 < size)%nat → (size <= 8)%nat → 0 <= number < 2 ^ (8 * Z.of_nat size) →
  ∃ data len n, ENCODE_INT_INTERNAL size number = Some (data, len) ∧
    encoded (ENCODE_INT_INTERNAL size number) = Some (int_bytes size number) ∧
    data = int_bytes size number ++ drop len data ∧ length data = S size ∧ len = length (int_bytes size number) ∧
    (1 <= n <= 2 * size)%nat ∧ int_wire (int_bytes size number) n number.
Proof.
  intros Hs Hs8 Hn.
  assert (2 ^ (8 * Z.of_nat size) = 16 ^ Z.of_nat (2 * size)) as Hp.
  { change 16 with (2 ^ 4). rewrite <- Z.pow_mul_r by lia. f_equal. lia. }
  rewrite Hp in Hn. destruct (encode_ok size number Hs Hs8 Hn) as (data & len & n & He & Hl & Hr & -> & H0 & Hv).
  assert (half n <= size)%nat as Hd.
  { pose proof (div2_le n (2 * size)) as Hd. unfold half in Hd at 2. rewrite Nat.div2_double in Hd. lia. }
  assert (encoded (ENCODE_INT_INTERNAL size number) = Some (take (S (half n)) data)) as Henc.
  { unfold encoded. rewrite He. cbn [mbind option_bind].
    apply slice_prefix. rewrite Hl. by apply le_n_S. }
  assert (int_bytes size number = take (S (half n)) data) as Hi by (unfold int_bytes; by rewrite Henc).
  rewrite Hi. exists data, (S (half n)), n. rewrite length_take. split_and!; try done; try lia.
  { by rewrite take_drop. }
  assert (∀ j, (j <= n)%nat → nib (take (S (half n)) data) j = nib data j) as Hnib.
  { intros j Hj. rewrite <- (take_drop (S (half n)) data) at 2. rewrite nib_prefix; [done|].
    rewrite length_take. pose proof (div2_le j n Hj). lia. }
  split; [by rewrite Hnib by lia|]. split; [|lens].
  rewrite <- Hv. apply nval_ext. intros j ?. apply Hnib. lia.
Qed.

(** ** Decoding integers *)

Lemma lor_shifted a k v : 0 <= a → 0 <= k → 0 <= v < 2 ^ k → Z.lor (Z.shiftl a k) v = a * 2 ^ k + v.
Proof.
  intros Ha Hk Hv. rewrite <- Z.lxor_lor, <- Z.add_nocarry_lxor; [by rewrite Z.shiftl_mul_pow2| |];
  (apply Z.bits_inj'; intros i Hi; rewrite Z.land_spec, Z.bits_0;
   destruct (Z.lt_ge_cases i k); [by rewrite Z.shiftl_spec_low|];
   rewrite <- (Z.mod_small v (2 ^ k)) by done; rewrite Z.mod_pow2_bits_high by lia; apply andb_false_r).
Qed.

Lemma get_nibble_ok rd l n :
  (half n < length l)%nat → rd (Z.of_nat (half n)) = l !! half n → get_nibble rd n = Some (nib l n).
Proof.
  intros Hlt Hrd. unfold get_nibble, nib. rewrite Hrd.
  by apply lookup_lt_is_Some_2 in Hlt as [b ->].
Qed.

Lemma decode_nibbles_ok rd l bits n acc :
  (∀ i, (i <= half n)%nat → rd (Z.of_nat i) = l !! i) → (half n < length l)%nat →
  0 <= acc → 0 <= bits → acc * 16 ^ Z.of_nat n + nval l 1 n < 2 ^ bits →
  decode_nibbles rd bits n acc = Some (acc * 16 ^ Z.of_nat n + nval l 1 n).
Proof.
  revert acc. induction n as [|n IH]; intros acc Hrd Hlt Ha Hb Hmax.
  { cbn. f_equal. lia. }
  cbn [decode_nibbles]. rewrite (get_nibble_ok rd l) by (apply Hrd || done; lia). cbn [mbind option_bind].
  pose proof (div2_le n (S n) ltac:(lia)) as Hd. pose proof (nib_range l (S n)) as Hv.
  pose proof (nval_range l 1 n) as Hr. rewrite nval_snoc in Hmax |- *. change (1 + n)%nat with (S n) in *.
  rewrite Nat2Z.inj_succ, Z.pow_succ_r in Hmax |- * by lia.
  assert (wrap bits (Z.shiftl acc 4) = Z.shiftl acc 4) as ->.
  { unfold wrap. rewrite Z.shiftl_mul_pow2 by lia. apply Z.mod_small. change (2 ^ 4) with 16. nia. }
  rewrite lor_shifted by lia. change (2 ^ 4) with 16.
  rewrite IH; [f_equal; lia|intros i Hi; apply Hrd; lia|lia|lia|done|lia].
Qed.

(** What the first bytes of [l] encode: the number of bytes and the number.  The first nibble
    tells how many nibbles follow. *)
Definition int_read (size : nat) (l : list byte) : option (Z * Z) :=
  match l with
  | [] => None
  | _ :: _ =>
      let n := Z.to_nat (nib l 0 + 1) in
      if decide ((n <= 2 * size)%nat ∧ (half n < length l)%nat)
      then Some (Z.of_nat (S (half n)), nval l 1 n) else None
  end.

Lemma int_read_bytes size number rest :
  (0 < size)%nat → (size <= 8)%nat → 0 <= number < 2 ^ (8 * Z.of_nat size) →
  int_read size (int_bytes size number ++ rest) = Some (Zlen (int_bytes size number), number).
Proof.
  intros Hs Hs8 Hn.
  destruct (int_bytes_ok size number Hs Hs8 Hn) as (data & len & n & _ & _ & _ & _ & _ & Hr & Hw & Hv & Hl).
  assert (int_bytes size number ++ rest ≠ []) as Hne by (intros [E _]%app_nil; by rewrite E in Hl).
  destruct (int_bytes size number ++ rest) as [|x l] eqn:E; [done|]. cbn [int_read]. rewrite <- E.
  rewrite nib_prefix by (change (half 0) with 0%nat; lia). rewrite Hw. replace (Z.to_nat (Z.of_nat n - 1 + 1)) with n by lia.
  rewrite decide_True by (lens). rewrite Hl. do 2 f_equal.
  rewrite <- Hv at 2. apply nval_ext. intros j Hj. apply nib_prefix. rewrite Hl.
  pose proof (div2_le j n ltac:(lia)). lia.
Qed.

(** ** Tags *)

Definition tag_bytes (tag : Z) : list byte := default [] (tag_loop 5 tag).

Definition seven_ok (lower : Z) : bool :=
  (Z.land lower 127 =? lower) && (Z.land lower 128 =? 0) && (Z.land (Z.lor lower 128) 127 =? lower) &&
  (Z.land (Z.lor lower 128) 128 =? 128) && (Z.lor lower 128 =? lower + 128).

Lemma seven lower :
  0 <= lower < 128 →
  Z_of_byte (byte_of_Z lower) = lower ∧ Z.land lower 127 = lower ∧ Z.land lower 128 = 0 ∧
  Z_of_byte (byte_of_Z (Z.lor lower 128)) = Z.lor lower 128 ∧
  Z.land (Z.lor lower 128) 127 = lower ∧ Z.land (Z.lor lower 128) 128 = 128.
Proof.
  intros Hl. assert (forallb seven_ok (seqZ 0 128) = true) as H by (vm_compute; done).
  pose proof (seqZ_forallb _ _ H _ Hl) as Hs. unfold seven_ok in Hs.
  rewrite !andb_true_iff, !Z.eqb_eq in Hs. destruct Hs as [[[[H1 H2] H3] H4] H5].
  rewrite !Z_of_byte_of_Z, H5, !Z.mod_small by lia. rewrite <- H5. by split_and!.
Qed.

Lemma land127 tag : Z.land tag 127 = tag mod 128.
Proof. change 127 with (Z.ones 7). by rewrite Z.land_ones. Qed.

Lemma shiftr7 tag : Z.shiftr tag 7 = tag / 128.
Proof. by rewrite Z.shiftr_div_pow2. Qed.

Lemma tag_loop_ok room tag :
  0 <= tag < 128 ^ Z.of_nat room → (0 < room)%nat →
  ∃ l, tag_loop room tag = Some l ∧ (1 <= length l <= room)%nat.
Proof.
  revert tag. induction room as [|room IH]; intros tag Ht Hr; [lia|]. cbn [tag_loop].
  rewrite Nat2Z.inj_succ, Z.pow_succ_r in Ht by lia. rewrite shiftr7.
  destruct (Z.eqb_spec (tag / 128) 0) as [H0|H0]; [eexists; split; [done|cbn; lia]|].
  destruct room as [|room]; [cbn in Ht; dlia|].
  destruct (IH (tag / 128)) as (l & -> & Hl); [dlia|lia|]. eexists. split; [done|]. cbn [length]. lia.
Qed.

Lemma tag_bytes_ok tag :
  0 <= tag < 2 ^ 32 → tag_loop 5 tag = Some (tag_bytes tag) ∧ (1 <= length (tag_bytes tag) <= 5)%nat.
Proof.
  intros Ht. destruct (tag_loop_ok 5 tag) as (l & E & Hl); [|lia|unfold tag_bytes; by rewrite E].
  change (128 ^ Z.of_nat 5) with (2 ^ 35). lia.
Qed.

Lemma add_group number x s : 0 <= s → 0 <= number < 2 ^ s → 0 <= x → x * 2 ^ s < 2 ^ 32 →
  Z.lor number (uint32 (Z.shiftl x s)) = number + x * 2 ^ s.
Proof.
  intros Hs Hn Hx Hm. rewrite uint32_id by (rewrite Z.shiftl_mul_pow2 by done; nia).
  rewrite Z.lor_comm, lor_shifted by done. lia.
Qed.

(** Reading back the groups of a tag, whatever follows them. *)
Lemma tag_groups room tag l rd len count number fuel :
  tag_loop room tag = Some l → (room <= fuel)%nat → 0 <= tag →
  (∀ i, (i < length l)%nat → rd (count + Z.of_nat i) = l !! i) → count + Zlen l <= len → 0 <= count <= 4 →
  0 <= number < 2 ^ (7 * count) → number + tag * 2 ^ (7 * count) < 2 ^ 32 →
  decode_tag_loop fuel rd len count (7 * count) number =
    Some (Some (number + tag * 2 ^ (7 * count), count + Zlen l)).
Proof.
  revert tag l count number fuel.
  induction room as [|room IH]; intros tag l count number [|fuel] El Hf Ht Hrd Hlen Hc Hn Hm; try (done || lia).
  cbn [tag_loop] in El. cbn [decode_tag_loop]. rewrite land127, shiftr7 in El.
  pose proof (seven (tag mod 128) ltac:(dlia)) as (S1 & S2 & S3 & S4 & S5 & S6).
  set (p := 2 ^ (7 * count)) in *. assert (0 < p) as Hp by (apply Z.pow_pos_nonneg; lia).
  assert (tag mod 128 * p <= tag * p) as Hle by (apply Z.mul_le_mono_nonneg_r; dlia).
  assert (count = 4 → tag < 16) as H4 by (intros ->; subst p; change (2 ^ (7 * 4)) with 268435456 in *; lia).
  destruct (Z.eqb_spec (tag / 128) 0) as [H0|H0].
  - injection El as <-. cbn [length] in *. rewrite (proj2 (Z.ltb_lt _ _)) by lia.
    pose proof (Hrd 0%nat ltac:(lia)) as Hr0. cbn in Hr0. rewrite Z.add_0_r in Hr0. rewrite Hr0.
    cbn [mbind option_bind]. rewrite S1, S2, S3.
    assert (tag mod 128 = tag) as Hmod by dlia. rewrite Hmod in *.
    assert ((28 <=? 7 * count) && ((28 <? 7 * count) || (15 <? tag)) = false) as ->.
    { rewrite andb_false_iff, orb_false_iff, Z.leb_gt, !Z.ltb_ge.
      destruct (decide (count = 4)); [right; lia|left; lia]. }
    rewrite add_group by (fold p; lia). fold p. done.
  - destruct (tag_loop room (tag / 128)) as [k|] eqn:Ek; [|done]. injection El as <-. cbn [length] in *.
    assert (count <= 3) as H3 by (destruct (decide (count = 4)); [dlia|lia]).
    rewrite (proj2 (Z.ltb_lt _ _)) by lia.
    pose proof (Hrd 0%nat ltac:(lia)) as Hr0. cbn in Hr0. rewrite Z.add_0_r in Hr0. rewrite Hr0.
    cbn [mbind option_bind]. rewrite S4, S5, S6, (proj2 (Z.leb_gt 28 _)) by lia. cbn [andb].
    change (128 =? 0) with false. cbv iota.
    rewrite add_group by (fold p; dlia). fold p. replace (7 * count + 7) with (7 * (count + 1)) by lia.
    assert (2 ^ (7 * (count + 1)) = p * 128) as Hp'.
    { subst p. change 128 with (2 ^ 7). rewrite <- Z.pow_add_r by lia. f_equal. lia. }
    assert (number + tag mod 128 * p + tag / 128 * (p * 128) = number + tag * p) as Hsum.
    { rewrite (Z_div_mod_eq_full tag 128) at 3. ring. }
    assert (0 <= tag mod 128 * p <= 127 * p) as Hb.
    { split; [apply Z.mul_nonneg_nonneg; dlia|]. apply Z.mul_le_mono_nonneg_r; dlia. }
    rewrite (IH (tag / 128) k); try done; rewrite ?Hp'; try lia; try dlia.
    + do 3 f_equal; [done|lia].
    + intros i Hi. pose proof (Hrd (S i) ltac:(lia)) as Hri. change (_ !! S i) with (k !! i) in Hri.
      rewrite <- Hri. f_equal. lia.
Qed.

(** ** The buffer, when no block is refused *)

Lemma first_byte_ok b c rest i :
  wf b → chains b = c :: rest → 0 <= i < off c → first_byte b i = bytes b !! Z.to_nat i.
Proof.
  intros (Hw & _) Hc Hi. rewrite Hc in Hw. apply Forall_cons in Hw as [Hw _]. pose proof (data_length c Hw) as Hd.
  destruct Hw as (H1&H2&H3&_). unfold first_byte, bytes. rewrite Hc, cbytes_cons. cbn [head mbind option_bind].
  rewrite (proj2 (Z.leb_le _ _)) by lia. rewrite lookup_app_l by lia. unfold data.
  rewrite lookup_take_lt, lookup_drop by lia. f_equal. lia.
Qed.

(** The first bytes of [b] are readable through a pointer. *)
Definition readable (b : evbuffer) (n : Z) : Prop :=
  ∀ i, 0 <= i < n → first_byte b i = bytes b !! Z.to_nat i.

(** What a step that only moves bytes between chains does. *)
Definition untouched (b b' : evbuffer) : Prop := wf b' ∧ same_frame b b' ∧ bytes b' = bytes b.

Lemma untouched_refl b : wf b → untouched b b.
Proof. by intros. Qed.

Lemma untouched_trans b1 b2 b3 : untouched b1 b2 → untouched b2 b3 → untouched b1 b3.
Proof.
  intros (_ & Hf1 & Hb1) (Hw & Hf2 & Hb2). split; [done|]. split; [by apply (same_frame_trans _ b2)|congruence].
Qed.

Section Total.
Variable mm : nat → Z → option (nat → byte).
Hypothesis mm_total : ∀ k n, mm k n ≠ None.

Lemma no_failure b b' n : n <= EVBUFFER_CHAIN_MAX / 2 → ¬ alloc_failed mm b b' n.
Proof. intros ? [?|(k & m & _ & ?)]; [lia|by apply (mm_total k m)]. Qed.

Lemma int_max_chain : INT_MAX + 16 <= EVBUFFER_CHAIN_MAX / 2.
Proof. done. Qed.

Lemma int_max_size : 2 * INT_MAX + 16 <= SIZE_MAX.
Proof. done. Qed.

Lemma pullup_total b n :
  wf b → 0 < n <= Zlen (bytes b) → n <= INT_MAX →
  ∃ b', evbuffer_pullup mm b n = Some (true, b') ∧ untouched b b' ∧ readable b' n.
Proof.
  intros Hb Hn Hmax. pose proof Hb as (_ & Hlen & _).
  destruct (pullup_ok mm b n Hb) as (r & b' & -> & Hw & Hf & Hby & Hr).
  rewrite (proj2 (Z.ltb_ge _ _)) in Hr by lia. destruct r.
  - exists b'. split; [done|]. split; [done|]. destruct Hr as (_ & c & rest & Hc & Hle). intros i Hi.
    apply (first_byte_ok b' c rest); [done..|lia].
  - destruct Hr as [?|[?|H]]; [lia..|]. apply no_failure in H; [done|]. pose proof int_max_chain. lia.
Qed.

Lemma pullup_at_total b n offset :
  wf b → 0 < n <= Zlen (bytes b) → n <= INT_MAX →
  ∃ b', pullup_at mm b n offset = Some (true, b') ∧ untouched b b' ∧ readable b' n.
Proof.
  intros Hb Hn Hmax. destruct (pullup_total b n Hb Hn Hmax) as (b' & E & Hu & Hr).
  unfold pullup_at. rewrite E. by exists b'.
Qed.

Lemma add_total b d :
  wf b → freeze_end b = false → Zlen (bytes b) + Zlen d <= INT_MAX →
  ∃ b', evbuffer_add mm b d = Some (0, b') ∧ add_ mm b d = Some b' ∧ wf b' ∧ same_frame b b' ∧
    bytes b' = bytes b ++ d.
Proof.
  intros Hb Hfe Hmax. pose proof Hb as (_ & Hlen & _). unfold add_.
  destruct (add_ok mm b d Hb) as (r & b' & -> & (Hw & Hf & Hr) & Hfail). exists b'.
  destruct Hr as [[-> Hby]|[-> _]]; [done|]. exfalso. pose proof int_max_chain. pose proof int_max_size.
  destruct (Hfail eq_refl) as [?|[?|Hno]]; [congruence|lia|]. apply no_failure in Hno; [done|lia].
Qed.

Lemma drain_total b n :
  wf b → 0 <= n → freeze_start b = false →
  ∃ b', drain_ b n = Some b' ∧ wf b' ∧ same_frame b b' ∧ bytes b' = drop (Z.to_nat n) (bytes b).
Proof.
  intros Hb Hn Hfs. unfold drain_. destruct (drain_ok b n Hb Hn Hfs) as (b' & -> & Hres). by exists b'.
Qed.

(** ** Decoding at an offset *)

Lemma high_nibble (d0 : byte) l : Z.shiftr (Z.land (Z_of_byte d0) 240) 4 = nib (d0 :: l) 0.
Proof. done. Qed.

(** The decoder on every input: it reads inside of the buffer only, and answers what the bytes
    at the offset encode. *)
Lemma decode_int_ok size b offset :
  wf b → 0 <= offset → Zlen (bytes b) <= INT_MAX → (0 < size)%nat → (size <= 8)%nat →
  ∃ b', DECODE_INT_INTERNAL mm (8 * Z.of_nat size) (2 * Z.of_nat size) b offset =
      Some (match int_read size (drop (Z.to_nat offset) (bytes b)) with
            | Some (len, number) => (len, Some number, b')
            | None => (-1, None, b')
            end) ∧ untouched b b'.
Proof.
  intros Hb Ho Hmax Hs Hs8. pose proof Hb as (_ & Hlen & _). unfold DECODE_INT_INTERNAL, evbuffer_get_length.
  rewrite Hlen. destruct (Z.leb_spec (Zlen (bytes b) - offset) 0) as [Hle|Hgt].
  { rewrite drop_ge by lia. by exists b. }
  destruct (pullup_at_total b (offset + 1) offset) as (b1 & -> & Hu1 & Hr1); [done|lia|lia|].
  cbn [mbind option_bind negb]. rewrite Hr1 by lia. pose proof Hu1 as (Hw1 & _ & Hby1). rewrite Hby1.
  destruct (drop (Z.to_nat offset) (bytes b)) as [|d0 l] eqn:Hd.
  { apply (f_equal length) in Hd. rewrite length_drop in Hd. cbn in Hd. lia. }
  assert (Zlen (d0 :: l) = Zlen (bytes b) - offset) as Hdl by (rewrite <- Hd, length_drop; lia).
  assert (∀ i : nat, bytes b !! (Z.to_nat offset + i)%nat = (d0 :: l) !! i) as Hlk
    by (intros i; by rewrite <- Hd, lookup_drop).
  rewrite <- (Nat.add_0_r (Z.to_nat offset)), Hlk. cbn [lookup list_lookup mbind option_bind].
  rewrite (high_nibble d0 l). cbn [int_read]. pose proof (nib_range (d0 :: l) 0) as Hnr.
  set (n := Z.to_nat (nib (d0 :: l) 0 + 1)). replace (nib (d0 :: l) 0 + 1) with (Z.of_nat n) by lia.
  assert (Z.shiftr (Z.of_nat n) 1 = Z.of_nat (half n)) as Hsh.
  { rewrite Z.shiftr_div_pow2 by lia. change (2 ^ 1) with (Z.of_nat 2). rewrite <- Nat2Z.inj_div.
    unfold half. by rewrite Nat.div2_div. }
  rewrite Hsh, <- Hdl. case_decide as Hdec; cycle 1.
  { assert ((2 * Z.of_nat size <? Z.of_nat n) || (Zlen (d0 :: l) <? Z.of_nat (half n) + 1) = true) as ->.
    { apply orb_true_iff. rewrite !Z.ltb_lt. destruct (decide (n <= 2 * size)%nat); [right; lia|left; lia]. }
    by exists b1. }
  destruct Hdec as [Hn Hh].
  assert ((2 * Z.of_nat size <? Z.of_nat n) || (Zlen (d0 :: l) <? Z.of_nat (half n) + 1) = false) as ->.
  { apply orb_false_iff. rewrite !Z.ltb_ge. lia. }
  destruct (pullup_at_total b1 (offset + (Z.of_nat (half n) + 1)) offset) as (b2 & -> & Hu2 & Hr2);
    [done|rewrite Hby1; lia|lia|].
  cbn [mbind option_bind negb]. pose proof Hu2 as (_ & _ & Hby2).
  rewrite (decode_nibbles_ok _ (d0 :: l)).
  - cbn [mbind option_bind]. exists b2. rewrite Z.mul_0_l, Z.add_0_l.
    replace (Z.of_nat (half n) + 1) with (Z.of_nat (S (half n))) by lia.
    split; [done|by apply (untouched_trans _ b1)].
  - intros i Hi. rewrite Hr2, Hby2, Hby1 by lia. rewrite <- Hlk. f_equal. lia.
  - done.
  - done.
  - lia.
  - rewrite Z.mul_0_l, Z.add_0_l. pose proof (nval_range (d0 :: l) 1 n) as Hv.
    assert (16 ^ Z.of_nat n <= 2 ^ (8 * Z.of_nat size)); [|lia].
    change 16 with (2 ^ 4). rewrite <- Z.pow_mul_r by lia. apply Z.pow_le_mono_r; lia.
Qed.

(** ** Encoding into a buffer *)

(** Appending [d] to [b]. *)
Definition grown (b b' : evbuffer) (d : list byte) : Prop :=
  wf b' ∧ same_frame b b' ∧ bytes b' = bytes b ++ d.

Lemma grown_trans b1 b2 b3 d1 d2 : grown b1 b2 d1 → grown b2 b3 d2 → grown b1 b3 (d1 ++ d2).
Proof.
  intros (_ & Hf1 & Hb1) (Hw & Hf2 & Hb2). split; [done|]. split; [by apply (same_frame_trans _ b2)|].
  by rewrite Hb2, Hb1, (assoc_L (++)).
Qed.

(** Room for [n] more bytes. *)
Definition open_for (b : evbuffer) (n : Z) : Prop :=
  wf b ∧ freeze_end b = false ∧ Zlen (bytes b) + n <= INT_MAX.

Lemma open_grown b b' d n : open_for b n → grown b b' d → open_for b' (n - Zlen d).
Proof.
  intros (_ & Hf & Hn) (Hw & (_ & Hf' & _) & Hb). split; [done|]. split; [congruence|]. rewrite Hb, length_app. lia.
Qed.

Lemma open_le b n m : open_for b n → m <= n → open_for b m.
Proof. intros (?&?&?) ?. split; [done|]. split; [done|lia]. Qed.

Lemma add_grown b d : open_for b (Zlen d) → ∃ b', add_ mm b d = Some b' ∧ grown b b' d.
Proof. intros (Hb & Hf & Hm). destruct (add_total b d Hb Hf Hm) as (b' & _ & -> & Hg). by exists b'. Qed.

Lemma int_bytes_length size number :
  (0 < size)%nat → (size <= 8)%nat → 0 <= number < 2 ^ (8 * Z.of_nat size) →
  1 <= Zlen (int_bytes size number) <= Z.of_nat size + 1.
Proof.
  intros Hs Hs8 Hn.
  destruct (int_bytes_ok size number Hs Hs8 Hn) as (data & len & n & _ & _ & Hd & Hl & _ & _ & _ & _ & Hw).
  apply (f_equal length) in Hd. rewrite length_app in Hd. lia.
Qed.

Lemma encode_int_grown b n :
  0 <= n < 2 ^ 32 → open_for b 5 → ∃ b', evtag_encode_int mm b n = Some b' ∧ grown b b' (int_bytes 4 n).
Proof.
  intros Hn Ho. pose proof (int_bytes_length 4 n ltac:(lia) ltac:(lia) Hn) as Hl.
  destruct (int_bytes_ok 4 n ltac:(lia) ltac:(lia) Hn) as (data & len & k & _ & He & _).
  unfold evtag_encode_int, encode_int_internal. rewrite He. cbn [mbind option_bind].
  apply add_grown. eapply open_le; [done|lia].
Qed.

Lemma encode_tag_grown b tag :
  0 <= tag < 2 ^ 32 → open_for b 5 → ∃ b', encode_tag_ mm b tag = Some b' ∧ grown b b' (tag_bytes tag).
Proof.
  intros Ht Ho. destruct (tag_bytes_ok tag Ht) as [He Hl]. unfold encode_tag_, evtag_encode_tag. rewrite He.
  cbn [mbind option_bind]. destruct (add_grown b (tag_bytes tag)) as (b' & -> & Hg); [eapply open_le; [done|lia]|].
  cbn [mbind option_bind]. by exists b'.
Qed.

(** The bytes of a tagged value. *)
Definition tagged (tag : Z) (d : list byte) : list byte :=
  tag_bytes tag ++ int_bytes 4 (Zlen d) ++ d.

Lemma header_grown b tag n :
  0 <= tag < 2 ^ 32 → 0 <= n < 2 ^ 32 → open_for b 10 →
  ∃ b1 b2, encode_tag_ mm b tag = Some b1 ∧ evtag_encode_int mm b1 n = Some b2 ∧
    grown b b2 (tag_bytes tag ++ int_bytes 4 n).
Proof.
  intros Ht Hn Ho. destruct (encode_tag_grown b tag Ht) as (b1 & -> & Hg1); [eapply open_le; [done|lia]|].
  destruct (tag_bytes_ok tag Ht) as [_ Hl].
  destruct (encode_int_grown b1 n Hn) as (b2 & E & Hg2).
  { eapply open_le; [by eapply open_grown|lia]. }
  exists b1, b2. split; [done|]. split; [done|by apply (grown_trans _ b1)].
Qed.

Lemma marshal_grown b tag d :
  0 <= tag < 2 ^ 32 → open_for b (10 + Zlen d) →
  ∃ b', evtag_marshal mm b tag d = Some b' ∧ grown b b' (tagged tag d).
Proof.
  intros Ht Ho. assert (0 <= Zlen d < 2 ^ 32) as Hd by (destruct Ho as (_ & _ & H); unfold INT_MAX in H; lia).
  destruct (header_grown b tag (Zlen d)) as (b1 & b2 & E1 & E2 & Hg); [done..|eapply open_le; [done|lia]|].
  unfold evtag_marshal. rewrite E1. cbn [mbind option_bind]. rewrite uint32_id, E2 by done. cbn [mbind option_bind].
  destruct (add_grown b2 d) as (b3 & -> & Hg3).
  { eapply open_le; [by eapply open_grown|]. rewrite length_app.
    destruct (tag_bytes_ok tag Ht) as [_ ?]. pose proof (int_bytes_length 4 (Zlen d) ltac:(lia) ltac:(lia) Hd). lia. }
  exists b3. split; [done|]. unfold tagged. rewrite (assoc_L (++)). by apply (grown_trans _ b2).
Qed.

Lemma marshal_encoded_grown size b tag n :
  (0 < size)%nat → (size <= 8)%nat → 0 <= n < 2 ^ (8 * Z.of_nat size) → 0 <= tag < 2 ^ 32 → open_for b 20 →
  ∃ b', marshal_encoded mm b tag (ENCODE_INT_INTERNAL size n) = Some b' ∧
    grown b b' (tagged tag (int_bytes size n)).
Proof.
  intros Hs Hs8 Hn Ht Ho. pose proof (int_bytes_length size n Hs Hs8 Hn) as Hl.
  destruct (int_bytes_ok size n Hs Hs8 Hn) as (data & len & k & He & _ & Hd & _ & Hlen & _).
  unfold marshal_encoded. rewrite He. cbn [mbind option_bind]. rewrite Hlen.
  destruct (header_grown b tag (Zlen (int_bytes size n))) as (b1 & b2 & E1 & E2 & Hg);
    [done|lia|eapply open_le; [done|lia]|].
  rewrite E1. cbn [mbind option_bind]. rewrite E2. cbn [mbind option_bind].
  assert (slice data 0 (Zlen (int_bytes size n)) = Some (int_bytes size n)) as ->.
  { apply (slice_app_eq [] (int_bytes size n) (drop len data)); [exact Hd|done..]. }
  cbn [mbind option_bind]. destruct (add_grown b2 (int_bytes size n)) as (b3 & -> & Hg3).
  { eapply open_le; [by eapply open_grown|]. rewrite length_app. destruct (tag_bytes_ok tag Ht) as [_ ?].
    pose proof (int_bytes_length 4 (Zlen (int_bytes size n)) ltac:(lia) ltac:(lia) ltac:(lia)). lia. }
  exists b3. split; [done|]. unfold tagged. rewrite (assoc_L (++)). by apply (grown_trans _ b2).
Qed.

(** ** Decoding from a buffer *)

(** What a step that consumes the front of [b] leaves. *)
Definition consumed (b b' : evbuffer) (rest : list byte) : Prop :=
  wf b' ∧ same_frame b b' ∧ bytes b' = rest.

(** A buffer that can be read. *)
Definition ready (b : evbuffer) (l : list byte) : Prop :=
  wf b ∧ freeze_start b = false ∧ bytes b = l ∧ Zlen l <= INT_MAX.

Lemma ready_consumed b b' l rest : ready b l → consumed b b' rest → Zlen rest <= Zlen l → ready b' rest.
Proof. intros (_ & Hf & _ & Hm) (Hw & [Hf' _] & Hb) Hle. split; [done|]. split; [congruence|]. split; [done|lia]. Qed.

Lemma consumed_trans b1 b2 b3 r1 r2 : consumed b1 b2 r1 → consumed b2 b3 r2 → consumed b1 b3 r2.
Proof. intros (_ & Hf & _) (Hw & Hf' & Hb). split; [done|]. split; [by apply (same_frame_trans _ b2)|done]. Qed.

Lemma drain_consumed b b0 l k rest n :
  ready b l → untouched b b0 → l = k ++ rest → n = Zlen k →
  ∃ b', drain_ b0 n = Some b' ∧ consumed b b' rest.
Proof.
  intros (Hb & Hfs & Hbl & _) (Hw & Hf & Hby) -> ->.
  destruct (drain_total b0 (Zlen k)) as (b' & -> & Hw' & Hf' & Hby'); [done|lia|destruct Hf; congruence|].
  exists b'. split; [done|]. split; [done|]. split; [by apply (same_frame_trans _ b0)|].
  rewrite Hby', Hby, Hbl, Nat2Z.id. by rewrite drop_app_length.
Qed.

Lemma decode_tag_ok b tag rest dodrain :
  0 <= tag < 2 ^ 32 → ready b (tag_bytes tag ++ rest) →
  ∃ b', decode_tag_internal mm b dodrain = Some (Zlen (tag_bytes tag), Some tag, b') ∧
    consumed b b' (if dodrain then rest else tag_bytes tag ++ rest).
Proof.
  intros Ht Hr. pose proof Hr as (Hb & Hfs & Hbl & Hmax). destruct (tag_bytes_ok tag Ht) as [He Hl].
  pose proof Hb as (_ & Hlen & _). rewrite Hbl, length_app in Hlen. rewrite length_app in Hmax.
  unfold decode_tag_internal, evbuffer_get_length.
  set (n := if total_len b <? 5 then total_len b else 5).
  assert (Zlen (tag_bytes tag) <= n <= total_len b ∧ n <= 5) as [Hn Hn5]
    by (subst n; destruct (Z.ltb_spec (total_len b) 5); lia).
  destruct (pullup_total b n Hb) as (b1 & -> & Hu & Hrd); [rewrite Hbl, length_app; lia|unfold INT_MAX; lia|].
  cbn [mbind option_bind negb]. pose proof Hu as (Hw1 & Hf1 & Hby1).
  change 0 with (7 * 0) at 2.
  rewrite (tag_groups 5 tag (tag_bytes tag)); try done; try lia; cycle 1.
  { intros i Hi. rewrite Z.add_0_l, Hrd by lia. rewrite Nat2Z.id, Hby1, Hbl. by apply lookup_app_l. }
  cbn [mbind option_bind]. rewrite !Z.add_0_l, Z.mul_0_r, Z.mul_1_r.
  assert ((if INT_MAX <? Zlen (tag_bytes tag) then INT_MAX else Zlen (tag_bytes tag)) = Zlen (tag_bytes tag)) as Hc
    by (rewrite (proj2 (Z.ltb_ge _ _)) by lia; done).
  destruct dodrain.
  - destruct (drain_consumed b b1 _ (tag_bytes tag) rest (Zlen (tag_bytes tag)) Hr Hu) as (b2 & -> & Hc2); [done..|].
    cbn [mbind option_bind]. rewrite Hc. by exists b2.
  - cbn [mbind option_bind]. rewrite Hc. exists b1. split; [done|]. split; [done|]. split; [done|congruence].
Qed.

Lemma decode_int4_ok b n rest :
  0 <= n < 2 ^ 32 → ready b (int_bytes 4 n ++ rest) →
  ∃ b', evtag_decode_int mm b = Some (0, Some n, b') ∧ consumed b b' rest.
Proof.
  intros Hn Hr. pose proof Hr as (Hb & Hfs & Hbl & Hmax). unfold evtag_decode_int, decode_int_internal.
  destruct (decode_int_ok 4 b 0) as (b1 & E & Hu); [done|lia|by rewrite Hbl|lia..|].
  change (8 * Z.of_nat 4) with 32 in E. change (2 * Z.of_nat 4) with 8 in E. rewrite E, drop_0, Hbl.
  rewrite int_read_bytes by (done || lia). cbn [mbind option_bind].
  pose proof (int_bytes_length 4 n ltac:(lia) ltac:(lia) Hn) as Hl.
  rewrite (proj2 (Z.eqb_neq _ _)) by lia.
  destruct (drain_consumed b b1 _ (int_bytes 4 n) rest (Zlen (int_bytes 4 n)) Hr Hu) as (b2 & -> & Hc2); [done..|].
  cbn [mbind option_bind]. by exists b2.
Qed.

Lemma header_ok b tag d rest :
  0 <= tag < 2 ^ 32 → ready b (tagged tag d ++ rest) →
  ∃ b', evtag_unmarshal_header mm b = Some (Zlen d, Some tag, b') ∧ consumed b b' (d ++ rest).
Proof.
  intros Ht Hr. unfold tagged in Hr. rewrite <- !(assoc_L (++)) in Hr. unfold evtag_unmarshal_header.
  pose proof Hr as (_ & _ & _ & Hmax). rewrite !length_app in Hmax. unfold INT_MAX in Hmax.
  destruct (decode_tag_ok b tag _ true Ht Hr) as (b1 & -> & Hc1). cbn [mbind option_bind].
  destruct (tag_bytes_ok tag Ht) as [_ Hl]. rewrite (proj2 (Z.eqb_neq _ _)) by lia.
  assert (ready b1 (int_bytes 4 (Zlen d) ++ d ++ rest)) as Hr1
    by (eapply ready_consumed; [done|done|lens]).
  destruct (decode_int4_ok b1 (Zlen d) (d ++ rest)) as (b2 & -> & Hc2); [lia|done|]. cbn [mbind option_bind].
  change (0 =? -1) with false. cbv iota. pose proof Hc2 as (Hw2 & _ & Hb2). pose proof Hw2 as (_ & Hlen2 & _).
  unfold evbuffer_get_length. rewrite Hlen2, Hb2, length_app, (proj2 (Z.ltb_ge _ _)) by lia.
  rewrite int32_id by (unfold INT_MIN, INT_MAX; lia). exists b2. split; [done|by apply (consumed_trans _ b1 _ _ _ Hc1)].
Qed.

(** ** Streams of messages *)

Fixpoint marshal_all (b : evbuffer) (msgs : list (Z * list byte)) : option evbuffer :=
  match msgs with
  | [] => Some b
  | (tag, d) :: msgs => b ← evtag_marshal mm b tag d; marshal_all b msgs
  end.

(** Each payload goes to a new buffer. *)
Fixpoint unmarshal_all (n : nat) (src : evbuffer) : option (list (Z * list byte) * evbuffer) :=
  match n with
  | O => Some ([], src)
  | S n =>
      '(_, tag, src, dst) ← evtag_unmarshal mm src evbuffer_new;
      tag ← tag;
      '(l, src) ← unmarshal_all n src;
      Some ((tag, bytes dst) :: l, src)
  end.

Definition stream_bytes (msgs : list (Z * list byte)) : list byte :=
  concat ((λ m, tagged m.1 m.2) <$> msgs).

(** The most that the messages can take. *)
Definition stream_size (msgs : list (Z * list byte)) : Z :=
  foldr (λ m n, 10 + Zlen m.2 + n) 0 msgs.

Definition tag32 (m : Z * list byte) : Prop := 0 <= m.1 < 2 ^ 32.

Lemma stream_size_nonneg msgs : 0 <= stream_size msgs.
Proof. unfold stream_size. induction msgs as [|m msgs IH]; cbn [foldr]; lia. Qed.

Lemma tagged_length tag d :
  0 <= tag < 2 ^ 32 → Zlen d <= INT_MAX → Zlen (tagged tag d) <= 10 + Zlen d.
Proof.
  unfold INT_MAX. intros Ht Hd. unfold tagged. rewrite !length_app. destruct (tag_bytes_ok tag Ht) as [_ ?].
  pose proof (int_bytes_length 4 (Zlen d) ltac:(lia) ltac:(lia) ltac:(lia)). lia.
Qed.

Lemma stream_bytes_length msgs :
  Forall tag32 msgs → stream_size msgs <= INT_MAX → Zlen (stream_bytes msgs) <= stream_size msgs.
Proof.
  intros Ht Hm. induction Ht as [|[tag d] msgs Ht _ IH]; [done|].
  change (stream_bytes ((tag, d) :: msgs)) with (tagged tag d ++ stream_bytes msgs).
  change (stream_size ((tag, d) :: msgs)) with (10 + Zlen d + stream_size msgs) in *.
  pose proof (stream_size_nonneg msgs). rewrite length_app.
  pose proof (tagged_length tag d Ht ltac:(lia)). specialize (IH ltac:(lia)). lia.
Qed.

Lemma marshal_all_grown b msgs :
  Forall tag32 msgs → open_for b (stream_size msgs) →
  ∃ b', marshal_all b msgs = Some b' ∧ grown b b' (stream_bytes msgs).
Proof.
  intros Ht. revert b. induction Ht as [|[tag d] msgs Ht _ IH]; intros b Ho.
  { exists b. split; [done|]. split; [by destruct Ho|]. by rewrite app_nil_r. }
  cbn [marshal_all]. unfold stream_size in Ho. cbn in Ho. fold (stream_size msgs) in Ho.
  pose proof (stream_size_nonneg msgs) as Hnn. cbn in Ht.
  destruct (marshal_grown b tag d Ht) as (b1 & -> & Hg1); [eapply open_le; [done|lia]|]. cbn [mbind option_bind].
  destruct (IH b1) as (b2 & -> & Hg2).
  { eapply open_le; [by eapply open_grown|]. pose proof (tagged_length tag d Ht) as Hl.
    destruct Ho as (_ & _ & Hm). lia. }
  exists b2. split; [done|by apply (grown_trans _ b1)].
Qed.

Lemma pulled_ok b n d rest :
  ready b (d ++ rest) → n = Zlen d →
  ∃ p b', evbuffer_pullup mm b n = Some (p, b') ∧ untouched b b' ∧ pulled p b' n = Some d.
Proof.
  intros (Hb & _ & Hby & Hm) ->. rewrite length_app in Hm. pose proof Hb as (_ & Hlen & _).
  destruct (pullup_ok mm b (Zlen d) Hb) as (r & b' & -> & Hw & Hf & Hby' & Hr).
  rewrite (proj2 (Z.ltb_ge _ _)) in Hr by lia. exists r, b'. split; [done|]. split; [done|]. unfold pulled.
  destruct (Z.eqb_spec (Zlen d) 0) as [H0|H0]; [by destruct d|].
  destruct r; cbn [negb].
  - destruct Hr as (_ & c & k & Hc & Hle). rewrite Hc. cbn [head mbind option_bind].
    pose proof Hw as (Hwc & _). rewrite Hc in Hwc. apply Forall_cons in Hwc as [Hwc _].
    rewrite <- (Z.add_0_r (misalign c)), chain_slice by (done || lia). rewrite drop_0. f_equal.
    rewrite Hby in Hby'. unfold bytes in Hby'. rewrite Hc, cbytes_cons in Hby'.
    apply (f_equal (take (length d))) in Hby'. rewrite take_app_length in Hby'.
    rewrite take_app_le in Hby' by (pose proof (data_length c Hwc); lia). by rewrite Nat2Z.id.
  - destruct Hr as [?|[Hr|Hr]]; [lia|rewrite Hlen, Hby, length_app in Hr; lia|].
    apply no_failure in Hr; [done|]. pose proof int_max_chain. lia.
Qed.

Lemma unmarshal_ok src dst tag d rest :
  0 <= tag < 2 ^ 32 → ready src (tagged tag d ++ rest) → open_for dst (Zlen d) →
  ∃ src' dst', evtag_unmarshal mm src dst = Some (Zlen d, Some tag, src', dst') ∧
    consumed src src' rest ∧ grown dst dst' d.
Proof.
  intros Ht Hr (Hdw & Hdf & Hdm). unfold evtag_unmarshal.
  pose proof Hr as (_ & _ & _ & Hmax). unfold tagged in Hmax. rewrite !length_app in Hmax.
  destruct (header_ok src tag d rest Ht Hr) as (s1 & -> & Hc1). cbn [mbind option_bind].
  rewrite (proj2 (Z.eqb_neq _ _)) by lia.
  assert (ready s1 (d ++ rest)) as Hr1.
  { eapply ready_consumed; [done|done|]. unfold tagged. rewrite !length_app. lia. }
  destruct (pulled_ok s1 (Zlen d) d rest Hr1 eq_refl) as (p & s2 & -> & Hu & Hp). cbn [mbind option_bind].
  rewrite Hp. cbn [mbind option_bind].
  destruct (add_total dst d Hdw Hdf Hdm) as (dst' & -> & _ & Hg). cbn [mbind option_bind].
  change (0 =? -1) with false. cbv iota. rewrite uint64_id by (unfold INT_MAX in Hmax; lia).
  destruct (drain_consumed s1 s2 _ d rest (Zlen d) Hr1 Hu) as (s3 & -> & Hc3); [done..|].
  cbn [mbind option_bind]. exists s3, dst'. split; [done|]. split; [by apply (consumed_trans _ s1 _ _ _ Hc1)|done].
Qed.

Lemma unmarshal_all_ok src msgs :
  Forall tag32 msgs → ready src (stream_bytes msgs) →
  ∃ src', unmarshal_all (length msgs) src = Some (msgs, src') ∧ consumed src src' [].
Proof.
  intros Ht. revert src. induction Ht as [|[tag d] msgs Ht _ IH]; intros src Hr.
  { exists src. split; [done|]. by destruct Hr as (? & _ & ? & _). }
  change (stream_bytes ((tag, d) :: msgs)) with (tagged tag d ++ stream_bytes msgs) in Hr. cbn in Ht.
  pose proof Hr as (_ & _ & _ & Hmax). unfold tagged in Hmax. rewrite !length_app in Hmax. cbn [length unmarshal_all].
  destruct (unmarshal_ok src evbuffer_new tag d (stream_bytes msgs) Ht Hr) as (s1 & d1 & -> & Hc1 & (_ & _ & Hd1)).
  { split; [exact wf_new|]. split; [done|]. change (bytes evbuffer_new) with (@nil byte). cbn [length]. lia. }
  cbn [mbind option_bind].
  assert (ready s1 (stream_bytes msgs)) as Hr1 by (eapply ready_consumed; [done|done|lens]).
  destruct (IH s1 Hr1) as (s2 & -> & Hc2). cbn [mbind option_bind]. exists s2. rewrite Hd1.
  split; [done|by apply (consumed_trans _ s1 _ _ _ Hc1)].
Qed.

(** C32. Any sequence of tagged messages marshalled into an empty buffer is unmarshalled again, tag
    by tag and byte by byte, and nothing is left. *)
Theorem evtag_stream_roundtrip b msgs :
  Forall tag32 msgs → wf b → bytes b = [] → freeze_start b = false → freeze_end b = false →
  stream_size msgs <= INT_MAX →
  ∃ b1 b2, marshal_all b msgs = Some b1 ∧ unmarshal_all (length msgs) b1 = Some (msgs, b2) ∧ bytes b2 = [].
Proof.
  intros Ht Hb Hby Hfs Hfe Hm. destruct (marshal_all_grown b msgs Ht) as (b1 & E & Hw1 & [Hf1 _] & Hb1).
  { split; [done|]. split; [done|]. rewrite Hby. cbn [length]. lia. }
  rewrite Hby, app_nil_l in Hb1. destruct (unmarshal_all_ok b1 msgs Ht) as (b2 & E2 & _ & _ & Hb2).
  { split; [done|]. split; [congruence|]. split; [done|].
    pose proof (stream_bytes_length msgs Ht Hm). lia. }
  by exists b1, b2.
Qed.

(** ** Numbers *)

(** What unmarshalling a number answers on the payload [d]: the number is read from what follows
    the header, so that a payload that is too short is only noticed afterwards. *)
Definition number_answer (size : nat) (d rest : list byte) : Z * option Z :=
  match int_read size (d ++ rest) with
  | Some (len, number) => (if len <=? Zlen d then len else -1, Some number)
  | None => (-1, None)
  end.

Lemma unmarshal_number_ok size b need_tag tag d rest :
  (0 < size)%nat → (size <= 8)%nat → 0 <= tag < 2 ^ 32 → ready b (tagged tag d ++ rest) →
  ∃ b', unmarshal_number mm (DECODE_INT_INTERNAL mm (8 * Z.of_nat size) (2 * Z.of_nat size)) b need_tag =
      Some (if need_tag =? tag then number_answer size d rest else (-1, None), b') ∧
    consumed b b' (if need_tag =? tag then rest else int_bytes 4 (Zlen d) ++ d ++ rest).
Proof.
  intros Hs Hs8 Ht Hr. unfold tagged in Hr. rewrite <- !(assoc_L (++)) in Hr. unfold unmarshal_number.
  pose proof Hr as (_ & _ & _ & Hmax). rewrite !length_app in Hmax. unfold INT_MAX in Hmax.
  destruct (decode_tag_ok b tag _ true Ht Hr) as (b1 & -> & Hc1). cbn [mbind option_bind].
  destruct (tag_bytes_ok tag Ht) as [_ Hl]. rewrite (proj2 (Z.eqb_neq _ _)) by lia.
  destruct (need_tag =? tag); cbn [negb]; [|by exists b1].
  assert (ready b1 (int_bytes 4 (Zlen d) ++ d ++ rest)) as Hr1
    by (eapply ready_consumed; [done|done|lens]).
  destruct (decode_int4_ok b1 (Zlen d) (d ++ rest)) as (b2 & -> & Hc2); [lia|done|]. cbn [mbind option_bind].
  change (0 =? -1) with false. cbv iota.
  assert (ready b2 (d ++ rest)) as Hr2 by (eapply ready_consumed; [done|done|lens]).
  pose proof Hr2 as (Hw2 & _ & Hb2 & Hm2). pose proof Hw2 as (_ & Hlen2 & _).
  unfold evbuffer_get_length. rewrite Hlen2, Hb2, length_app, (proj2 (Z.ltb_ge _ _)) by lia.
  destruct (decode_int_ok size b2 0) as (b3 & -> & Hu); [done|lia|by rewrite Hb2|lia..|].
  rewrite drop_0, Hb2. cbn [mbind option_bind].
  destruct (drain_consumed b2 b3 _ d rest (Zlen d) Hr2 Hu) as (b4 & Hdr & Hc4); [done..|].
  assert (consumed b b4 rest) as Hc by
    (apply (consumed_trans _ b1 _ _ _ Hc1), (consumed_trans _ b2 _ _ _ Hc2); done).
  unfold number_answer. destruct (int_read size (d ++ rest)) as [[len number]|] eqn:E; rewrite Hdr;
    cbn [mbind option_bind]; exists b4; (split; [|done]); [|done].
  assert (1 <= len <= Zlen (d ++ rest)) as Hlen.
  { destruct (d ++ rest) as [|x l] eqn:El; [done|]. cbn [int_read] in E. case_decide as Hd; [|done].
    injection E as <- _. lia. }
  rewrite length_app in Hlen. rewrite (proj2 (Z.ltb_ge _ 0)), uint64_id by lia. cbn [orb].
  by rewrite Z.ltb_antisym; destruct (len <=? Zlen d).
Qed.

(** evtag_unmarshal_int on a tagged value, on every branch: another tag leaves the length and
    the payload in the buffer; a payload that encodes no number, or ends within it, is an error
    and is consumed. *)
Theorem evtag_unmarshal_int_spec b need_tag tag d rest :
  0 <= tag < 2 ^ 32 → ready b (tagged tag d ++ rest) →
  ∃ b', evtag_unmarshal_int mm b need_tag =
      Some (if need_tag =? tag then number_answer 4 d rest else (-1, None), b') ∧
    consumed b b' (if need_tag =? tag then rest else int_bytes 4 (Zlen d) ++ d ++ rest).
Proof. intros Ht Hr. by apply (unmarshal_number_ok 4); [lia|lia|..]. Qed.

Lemma number_answer_bytes size n rest :
  (0 < size)%nat → (size <= 8)%nat → 0 <= n < 2 ^ (8 * Z.of_nat size) →
  number_answer size (int_bytes size n) rest = (Zlen (int_bytes size n), Some n).
Proof.
  intros. unfold number_answer. rewrite int_read_bytes by done. by rewrite Z.leb_refl.
Qed.

(** 32-bit and 64-bit numbers marshalled one after the other are unmarshalled unchanged. *)
Theorem evtag_number_roundtrip b tag1 n1 tag2 n2 :
  0 <= tag1 < 2 ^ 32 → 0 <= tag2 < 2 ^ 32 → 0 <= n1 < 2 ^ 32 → 0 <= n2 < 2 ^ 64 →
  wf b → bytes b = [] → freeze_start b = false → freeze_end b = false →
  ∃ b1 b2 r1 b3 r2 b4,
    evtag_marshal_int mm b tag1 n1 = Some b1 ∧ evtag_marshal_int64 mm b1 tag2 n2 = Some b2 ∧
    evtag_unmarshal_int mm b2 tag1 = Some (r1, Some n1, b3) ∧ 0 < r1 ∧
    evtag_unmarshal_int64 mm b3 tag2 = Some (r2, Some n2, b4) ∧ 0 < r2 ∧ bytes b4 = [].
Proof.
  intros Ht1 Ht2 Hn1 Hn2 Hb Hby Hfs Hfe.
  pose proof (int_bytes_length 4 n1 ltac:(lia) ltac:(lia) Hn1) as Hl1.
  pose proof (int_bytes_length 8 n2 ltac:(lia) ltac:(lia) Hn2) as Hl2.
  pose proof (tagged_length tag1 (int_bytes 4 n1) Ht1 ltac:(unfold INT_MAX; lia)) as Hm1.
  pose proof (tagged_length tag2 (int_bytes 8 n2) Ht2 ltac:(unfold INT_MAX; lia)) as Hm2.
  assert (open_for b 100) as Ho by (split; [done|]; split; [done|]; rewrite Hby; cbn; unfold INT_MAX; lia).
  destruct (marshal_encoded_grown 4 b tag1 n1) as (b1 & E1 & Hg1); [lia|lia|done|done|eapply open_le; [done|lia]|].
  destruct (marshal_encoded_grown 8 b1 tag2 n2) as (b2 & E2 & Hg2); [lia|lia|done|done| |].
  { eapply open_le; [by eapply open_grown|lia]. }
  destruct (grown_trans _ _ _ _ _ Hg1 Hg2) as (Hw2 & [Hf2 _] & Hb2). rewrite Hby, app_nil_l in Hb2.
  assert (ready b2 (tagged tag1 (int_bytes 4 n1) ++ tagged tag2 (int_bytes 8 n2))) as Hr2.
  { split; [done|]. split; [congruence|]. split; [done|]. rewrite length_app. unfold INT_MAX. lia. }
  destruct (unmarshal_number_ok 4 b2 tag1 tag1 _ _ ltac:(lia) ltac:(lia) Ht1 Hr2) as (b3 & E3 & Hc3).
  rewrite Z.eqb_refl, number_answer_bytes in * by (done || lia).
  assert (ready b3 (tagged tag2 (int_bytes 8 n2) ++ [])) as Hr3.
  { rewrite app_nil_r. eapply ready_consumed; [done|done|]. rewrite length_app. lia. }
  destruct (unmarshal_number_ok 8 b3 tag2 tag2 _ _ ltac:(lia) ltac:(lia) Ht2 Hr3) as (b4 & E4 & _ & _ & Hb4).
  rewrite Z.eqb_refl, number_answer_bytes in * by (done || lia).
  exists b1, b2, (Zlen (int_bytes 4 n1)), b3, (Zlen (int_bytes 8 n2)), b4. split_and!; try done; lia.
Qed.

(** evtag_decode_int on every buffer: it stays inside of the buffer, consumes exactly the bytes
    of the number they encode, and leaves the buffer as it is when they encode none. *)
Theorem evtag_decode_int_spec b l :
  ready b l →
  ∃ b', evtag_decode_int mm b =
      Some (match int_read 4 l with Some (_, number) => (0, Some number) | None => (-1, None) end, b') ∧
    consumed b b' (match int_read 4 l with Some (len, _) => drop (Z.to_nat len) l | None => l end).
Proof.
  intros Hr. pose proof Hr as (Hb & Hfs & Hbl & Hmax). unfold evtag_decode_int, decode_int_internal.
  destruct (decode_int_ok 4 b 0) as (b1 & E & Hu); [done|lia|by rewrite Hbl|lia..|].
  change (8 * Z.of_nat 4) with 32 in E. change (2 * Z.of_nat 4) with 8 in E. rewrite E, drop_0, Hbl.
  destruct (int_read 4 l) as [[len number]|] eqn:Er; cbn [mbind option_bind].
  - assert (1 <= len <= Zlen l) as Hlen.
    { destruct l as [|x l]; [done|]. cbn [int_read] in Er. case_decide; [|done]. injection Er as <- _. lia. }
    rewrite (proj2 (Z.eqb_neq _ _)) by lia.
    destruct (drain_consumed b b1 l (take (Z.to_nat len) l) (drop (Z.to_nat len) l) len Hr Hu) as (b2 & -> & Hc).
    { by rewrite take_drop. }
    { rewrite length_take. lia. }
    cbn [mbind option_bind]. by exists b2.
  - change (-1 =? -1) with true. cbv iota. exists b1. split; [done|].
    destruct Hu as (? & ? & ?). split; [done|]. split; [done|congruence].
Qed.

(** ** Times *)

Definition time_bytes (tv : timeval) : list byte :=
  int_bytes 4 (uint32 (tv_sec tv)) ++ int_bytes 4 (uint32 (tv_usec tv)).

Lemma uint32_range z : 0 <= uint32 z < 2 ^ 32.
Proof. apply Z.mod_pos_bound. lia. Qed.

(** The two numbers in the array of ten bytes. *)
Lemma two_numbers (e1 e2 d1 d2 k1 k2 : list byte) :
  e1 = d1 ++ k1 → e2 = d2 ++ k2 → length e1 = 5%nat → length e2 = 5%nat →
  ∃ a1 a2, splice (replicate 10 x00) 0 e1 = Some a1 ∧ splice a1 (Zlen d1) e2 = Some a2 ∧
    slice a2 0 (Z.of_nat (length d1 + length d2)) = Some (d1 ++ d2).
Proof.
  intros H1 H2 L1 L2. assert (length d1 <= 5 ∧ length d2 <= 5)%nat as [Hd1 Hd2]
    by (rewrite H1, length_app in L1; rewrite H2, length_app in L2; lia).
  rewrite (splice_Some (replicate 10 x00)) by (lens).
  eexists _, _. split; [done|].
  rewrite splice_Some; [split; [done|]|lia|lens].
  change (take (Z.to_nat 0) _) with (@nil byte). rewrite app_nil_l, Nat2Z.id, H1, <- (assoc_L (++)), take_app_length.
  rewrite H2 at 1. rewrite <- (assoc_L (++)), (assoc_L (++) d1 d2).
  eapply (slice_app_eq []); [done|done|]. by rewrite length_app.
Qed.

Lemma marshal_timeval_grown b tag tv :
  0 <= tag < 2 ^ 32 → open_for b 20 →
  ∃ b', evtag_marshal_timeval mm b tag tv = Some b' ∧ grown b b' (tagged tag (time_bytes tv)).
Proof.
  intros Ht Ho. pose proof (uint32_range (tv_sec tv)) as H1. pose proof (uint32_range (tv_usec tv)) as H2.
  unfold evtag_marshal_timeval, encode_int_internal, time_bytes.
  destruct (int_bytes_ok 4 _ ltac:(lia) ltac:(lia) H1) as (e1 & l1 & n1 & -> & _ & He1 & L1 & Hl1 & _).
  destruct (int_bytes_ok 4 _ ltac:(lia) ltac:(lia) H2) as (e2 & l2 & n2 & -> & _ & He2 & L2 & Hl2 & _).
  cbn [mbind option_bind].
  destruct (two_numbers e1 e2 _ _ _ _ He1 He2 L1 L2) as (a1 & a2 & E1 & E2 & E3).
  rewrite E1. cbn [mbind option_bind]. rewrite Hl1, E2. cbn [mbind option_bind]. rewrite Hl2, E3.
  cbn [mbind option_bind]. apply marshal_grown; [done|]. eapply open_le; [done|].
  pose proof (int_bytes_length 4 _ ltac:(lia) ltac:(lia) H1). pose proof (int_bytes_length 4 _ ltac:(lia) ltac:(lia) H2).
  rewrite length_app. lia.
Qed.

Lemma decode_timeval_ok b tv rest :
  ready b (time_bytes tv ++ rest) →
  ∃ b', decode_timeval mm b (Zlen (time_bytes tv)) =
      Some (0, Some (uint32 (tv_sec tv)), Some (uint32 (tv_usec tv)), b') ∧ untouched b b'.
Proof.
  intros (Hb & Hfs & Hby & Hmax). pose proof (uint32_range (tv_sec tv)) as H1.
  pose proof (uint32_range (tv_usec tv)) as H2. unfold decode_timeval, decode_int_internal.
  pose proof (int_bytes_length 4 _ ltac:(lia) ltac:(lia) H1) as L1.
  pose proof (int_bytes_length 4 _ ltac:(lia) ltac:(lia) H2) as L2.
  unfold time_bytes in *. rewrite <- (assoc_L (++)) in Hby, Hmax.
  destruct (decode_int_ok 4 b 0) as (b1 & E1 & Hu1); [done|lia|by rewrite Hby|lia..|].
  rewrite drop_0, Hby, int_read_bytes in E1 by (done || lia).
  change (8 * Z.of_nat 4) with 32 in E1. change (2 * Z.of_nat 4) with 8 in E1. rewrite E1.
  cbn [mbind option_bind]. rewrite (proj2 (Z.eqb_neq _ _)) by lia. pose proof Hu1 as (Hw1 & _ & Hb1).
  destruct (decode_int_ok 4 b1 (Zlen (int_bytes 4 (uint32 (tv_sec tv))))) as (b2 & E2 & Hu2);
    [done|lia|by rewrite Hb1, Hby|lia..|].
  rewrite Nat2Z.id, Hb1, Hby, drop_app_length, int_read_bytes in E2 by (done || lia).
  change (8 * Z.of_nat 4) with 32 in E2. change (2 * Z.of_nat 4) with 8 in E2. rewrite E2.
  cbn [mbind option_bind]. rewrite (proj2 (Z.eqb_neq _ _)), length_app, Nat2Z.inj_add, Z.ltb_irrefl by lia.
  exists b2. split; [done|by apply (untouched_trans _ b1)].
Qed.

(** A time comes back with both of its numbers reduced to 32 bits: a time whose seconds do not
    fit an unsigned 32-bit number is changed. *)
Theorem evtag_timeval_roundtrip b tag tv :
  0 <= tag < 2 ^ 32 → wf b → bytes b = [] → freeze_start b = false → freeze_end b = false →
  ∃ b1 b2, evtag_marshal_timeval mm b tag tv = Some b1 ∧
    evtag_unmarshal_timeval mm b1 tag =
      Some (0, Some (uint32 (tv_sec tv)), Some (uint32 (tv_usec tv)), b2) ∧ bytes b2 = [].
Proof.
  intros Ht Hb Hby Hfs Hfe. destruct (marshal_timeval_grown b tag tv Ht) as (b1 & E & Hw1 & [Hf1 _] & Hb1).
  { split; [done|]. split; [done|]. rewrite Hby. cbn. unfold INT_MAX. lia. }
  assert (Zlen (time_bytes tv) <= 10) as Hl.
  { unfold time_bytes. rewrite length_app.
    pose proof (int_bytes_length 4 _ ltac:(lia) ltac:(lia) (uint32_range (tv_sec tv))).
    pose proof (int_bytes_length 4 _ ltac:(lia) ltac:(lia) (uint32_range (tv_usec tv))). lia. }
  assert (ready b1 (tagged tag (time_bytes tv) ++ [])) as Hr.
  { rewrite app_nil_r. split; [done|]. split; [congruence|]. rewrite Hby in Hb1. split; [done|].
    pose proof (tagged_length tag (time_bytes tv) Ht ltac:(unfold INT_MAX; lia)). unfold INT_MAX. lia. }
  destruct (header_ok b1 tag (time_bytes tv) [] Ht Hr) as (b2 & E2 & Hc2).
  assert (ready b2 (time_bytes tv ++ [])) as Hr2.
  { eapply ready_consumed; [done|done|]. unfold tagged. rewrite !length_app. lia. }
  destruct (decode_timeval_ok b2 tv [] Hr2) as (b3 & E3 & Hu3).
  destruct (drain_consumed b2 b3 _ (time_bytes tv) [] _ Hr2 Hu3 eq_refl eq_refl) as (b4 & E4 & _ & _ & Hb4).
  exists b1, b4. split; [done|]. split; [|done]. unfold evtag_unmarshal_timeval. rewrite E2.
  cbn [mbind option_bind]. rewrite (proj2 (Z.eqb_neq _ _)), Z.eqb_refl by lia. cbn [negb].
  rewrite E3. cbn [mbind option_bind]. by rewrite uint64_id, E4 by lia.
Qed.

(** ** Peeking and consuming *)

(** evtag_peek_length tells the length of the whole tagged value, and leaves the buffer as it
    is; evtag_consume removes exactly that much. *)
Theorem evtag_peek_consume b tag d rest :
  0 <= tag < 2 ^ 32 → ready b (tagged tag d ++ rest) →
  ∃ b1 b2, evtag_peek_length mm b = Some (0, Some (Zlen (tagged tag d)), b1) ∧
    consumed b b1 (tagged tag d ++ rest) ∧ evtag_consume mm b1 = Some (0, b2) ∧ consumed b b2 rest.
Proof.
  intros Ht Hr. pose proof Hr as (_ & _ & _ & Hmax). unfold tagged in Hmax. rewrite !length_app in Hmax.
  unfold INT_MAX in Hmax. unfold evtag_peek_length, peek_header.
  assert (ready b (tag_bytes tag ++ int_bytes 4 (Zlen d) ++ d ++ rest)) as Hr0
    by (unfold tagged in Hr; by rewrite <- !(assoc_L (++)) in Hr).
  destruct (decode_tag_ok b tag _ false Ht Hr0) as (b0 & -> & Hc0). cbn [mbind option_bind].
  destruct (tag_bytes_ok tag Ht) as [_ Hl]. rewrite (proj2 (Z.eqb_neq _ _)) by lia.
  pose proof Hc0 as (Hw0 & _ & Hb0). unfold decode_int_internal.
  destruct (decode_int_ok 4 b0 (Zlen (tag_bytes tag))) as (b1 & E & Hu); [done|lia| |lia..|].
  { rewrite Hb0, !length_app. unfold INT_MAX. lia. }
  rewrite Nat2Z.id, Hb0, drop_app_length, int_read_bytes in E by lia.
  change (8 * Z.of_nat 4) with 32 in E. change (2 * Z.of_nat 4) with 8 in E. rewrite E. cbn [mbind option_bind].
  pose proof (int_bytes_length 4 (Zlen d) ltac:(lia) ltac:(lia) ltac:(lia)) as Hil.
  rewrite (proj2 (Z.eqb_neq _ _)) by lia. cbn [mbind option_bind].
  assert (uint32 (Zlen d + (Zlen (int_bytes 4 (Zlen d)) + Zlen (tag_bytes tag))) = Zlen (tagged tag d)) as ->.
  { unfold tagged. rewrite uint32_id, !length_app by lia. lia. }
  destruct Hu as (Hw1 & Hf1 & Hby1).
  assert (consumed b b1 (tagged tag d ++ rest)) as Hc1.
  { split; [done|]. split; [by destruct Hc0 as (_ & ? & _); apply (same_frame_trans _ b0)|].
    rewrite Hby1, Hb0. unfold tagged. by rewrite <- !(assoc_L (++)). }
  assert (ready b1 (tagged tag d ++ rest)) as Hr1 by (eapply ready_consumed; [exact Hr|exact Hc1|lia]).
  unfold evtag_consume. destruct (header_ok b1 tag d rest Ht Hr1) as (b2 & E2 & Hc2).
  assert (ready b2 (d ++ rest)) as Hr2.
  { eapply ready_consumed; [done|done|]. unfold tagged. rewrite !length_app. lia. }
  destruct (drain_consumed b2 b2 _ d rest (Zlen d) Hr2) as (b3 & Hd3 & Hc3); [by apply untouched_refl; destruct Hc2|done..|].
  exists b1, b3. split; [done|]. split; [done|]. rewrite E2. cbn [mbind option_bind].
  rewrite (proj2 (Z.eqb_neq _ _)), uint64_id, Hd3 by lia. split; [done|].
  apply (consumed_trans _ b1 _ _ _ Hc1), (consumed_trans _ b2 _ _ _ Hc2). done.
Qed.

(** ** Strings *)

(** A C string comes back with its NUL. *)
Theorem evtag_string_roundtrip mem b tag str :
  no_nul str → 0 <= tag < 2 ^ 32 → wf b → bytes b = [] → freeze_start b = false → freeze_end b = false →
  10 + Zlen str < INT_MAX → mem (Zlen str + 1) = true →
  ∃ b1 b2, evtag_marshal_string mm b tag (str ++ [x00]) = Some b1 ∧
    evtag_unmarshal_string mm mem b1 tag = Some (0, Some (str ++ [x00]), b2) ∧ bytes b2 = [].
Proof.
  intros Hs Ht Hb Hby Hfs Hfe Hm Hmem. unfold evtag_marshal_string. rewrite cstr_app by done. cbn [mbind option_bind].
  unfold INT_MAX in Hm. rewrite uint32_id by lia. rewrite slice_prefix, firstn_all by done. cbn [mbind option_bind].
  destruct (marshal_grown b tag str Ht) as (b1 & E & Hw1 & [Hf1 _] & Hb1).
  { split; [done|]. split; [done|]. rewrite Hby. cbn. unfold INT_MAX. lia. }
  rewrite Hby, app_nil_l in Hb1.
  assert (ready b1 (tagged tag str ++ [])) as Hr.
  { rewrite app_nil_r. split; [done|]. split; [congruence|]. split; [done|].
    pose proof (tagged_length tag str Ht ltac:(unfold INT_MAX; lia)). unfold INT_MAX. lia. }
  destruct (header_ok b1 tag str [] Ht Hr) as (b2 & E2 & Hc2).
  pose proof Hc2 as (Hw2 & [Hf2 _] & Hb2). rewrite app_nil_r in Hb2.
  destruct (remove_ok b2 (Zlen str) Hw2) as (b3 & E3 & _ & _ & Hb3); [lia|congruence|].
  exists b1, b3. split; [done|]. unfold evtag_unmarshal_string. rewrite E2. cbn [mbind option_bind].
  rewrite (proj2 (Z.eqb_neq _ _)), Z.eqb_refl by lia. cbn [negb].
  rewrite !uint64_id, Hmem, E3 by lia. cbn [negb mbind option_bind].
  rewrite Hb2, Nat2Z.id, firstn_all, Z.eqb_refl. split; [done|]. by rewrite Hb3, Hb2, Nat2Z.id, drop_all.
Qed.

End Total.

(** ** Defects *)

(** A reference to [l], and [d] behind it. *)
Definition reference_then_add (l d : list byte) : option evbuffer :=
  '(_, b) ← evbuffer_add_reference mm_zero evbuffer_new l;
  '(_, b) ← evbuffer_add mm_zero b d;
  Some b.

Definition continuations : list byte := replicate 5 x80.

(** decode_tag_internal makes five bytes contiguous and then reads a sixth one before it sees
    that the tag is too long: on a buffer whose first chain is a reference to exactly five bytes
    with the high bit set, the read is outside of the chain. *)
Theorem decode_tag_reads_outside :
  (b ← reference_then_add continuations [x01]; Some (bytes b)) = Some (continuations ++ [x01]) ∧
  (b ← reference_then_add continuations [x01]; evtag_decode_tag mm_zero b) = None.
Proof. split; vm_compute; reflexivity. Qed.

(** The tag 5 and a number of eight nibbles, without its last byte. *)
Definition split_number : list byte := [x05; x70; x00; x00; x00].

(** evtag_peek_length compares with NULL only after it has added the offset: when
    evbuffer_pullup fails behind a tag, the sum is used as a pointer. *)
Theorem peek_length_follows_null :
  (b ← reference_then_add split_number [x07]; Some (bytes b)) = Some (split_number ++ [x07]) ∧
  (b ← reference_then_add split_number [x07]; '(r, b) ← evbuffer_pullup mm_none b 6; Some r) = Some false ∧
  (b ← reference_then_add split_number [x07]; evtag_peek_length mm_none b) = None.
Proof. split; [|split]; vm_compute; reflexivity. Qed.

(** The comment on the wire format says that tags and numbers are written most significant part
    first and that the tag 0x166 is encoded as 82 66; the code writes the least significant part
    first, for tags and for numbers: 0x166 becomes E6 02, and 0x123 becomes 23 21. *)
Theorem wire_order :
  tag_loop 5 358 = Some [xe6; x02] ∧ encoded (encode_int_internal 291) = Some [x23; x21].
Proof. split; vm_compute; reflexivity. Qed.

(** ** Witnesses *)

Definition one_block (l : list byte) : evbuffer :=
  with_chains [Chain l 0 (Zlen l) 0] 0 (Zlen l) evbuffer_new.

Lemma one_block_ready l : l ≠ [] → Zlen l <= INT_MAX → ready (one_block l) l.
Proof.
  intros Hl Hm. assert (0 < Zlen l) as Hpos by (destruct l; [done|cbn; lia]).
  assert (bytes (one_block l) = l) as Hby.
  { unfold bytes, cbytes, data, one_block. cbn [chains with_chains fmap list_fmap concat off misalign buffer].
    by rewrite drop_0, Nat2Z.id, firstn_all, app_nil_r. }
  unfold INT_MAX in Hm. split; [|split; [done|split; [done|done]]].
  split; [|split; [by rewrite Hby|split; [cbn; unfold SIZE_MAX; lia|]]].
  - apply Forall_singleton. unfold chain_wf, buffer_len. cbn [buffer misalign off flags].
    repeat split; try done; elia.
  - right. exists [], (Chain l 0 (Zlen l) 0), []. by repeat split; [|left].
Qed.

Lemma mm_zero_total : ∀ k n, mm_zero k n ≠ None.
Proof. discriminate. Qed.

Definition two_messages : list (Z * list byte) := [(358, bs "hello"); (7, [])].

Lemma evtag_stream_roundtrip_witness :
  ∃ b1 b2, marshal_all mm_zero evbuffer_new two_messages = Some b1 ∧
    unmarshal_all mm_zero 2 b1 = Some (two_messages, b2) ∧ bytes b2 = [].
Proof.
  apply (evtag_stream_roundtrip mm_zero mm_zero_total evbuffer_new two_messages);
    [|exact wf_new|reflexivity|reflexivity|reflexivity|vm_compute; congruence].
  repeat constructor; cbn; lia.
Defined.

Lemma evtag_unmarshal_int_spec_witness :
  ∃ b', evtag_unmarshal_int mm_zero (one_block (tagged 9 (int_bytes 4 1000) ++ bs "x")) 9 =
      Some (number_answer 4 (int_bytes 4 1000) (bs "x"), b') ∧
    consumed (one_block (tagged 9 (int_bytes 4 1000) ++ bs "x")) b' (bs "x").
Proof.
  apply (evtag_unmarshal_int_spec mm_zero mm_zero_total _ 9 9); [lia|].
  apply one_block_ready; [discriminate|vm_compute; congruence].
Defined.

Lemma evtag_number_roundtrip_witness :
  ∃ b1 b2 r1 b3 r2 b4,
    evtag_marshal_int mm_zero evbuffer_new 1 65535 = Some b1 ∧ evtag_marshal_int64 mm_zero b1 2 (2 ^ 40) = Some b2 ∧
    evtag_unmarshal_int mm_zero b2 1 = Some (r1, Some 65535, b3) ∧ 0 < r1 ∧
    evtag_unmarshal_int64 mm_zero b3 2 = Some (r2, Some (2 ^ 40), b4) ∧ 0 < r2 ∧ bytes b4 = [].
Proof.
  apply (evtag_number_roundtrip mm_zero mm_zero_total evbuffer_new);
    [lia|lia|lia|lia|exact wf_new|reflexivity|reflexivity|reflexivity].
Defined.

Lemma evtag_decode_int_spec_witness :
  ∃ b', evtag_decode_int mm_zero (one_block (bs "@rest")) =
      Some (match int_read 4 (bs "@rest") with Some (_, number) => (0, Some number) | None => (-1, None) end, b') ∧
    consumed (one_block (bs "@rest")) b'
      (match int_read 4 (bs "@rest") with Some (len, _) => drop (Z.to_nat len) (bs "@rest") | None => bs "@rest" end).
Proof.
  apply (evtag_decode_int_spec mm_zero mm_zero_total (one_block (bs "@rest")) (bs "@rest")).
  apply one_block_ready; [discriminate|vm_compute; congruence].
Defined.

Lemma evtag_timeval_roundtrip_witness :
  ∃ b1 b2, evtag_marshal_timeval mm_zero evbuffer_new 3 (Timeval 4294967297 5) = Some b1 ∧
    evtag_unmarshal_timeval mm_zero b1 3 = Some (0, Some 1, Some 5, b2) ∧ bytes b2 = [].
Proof.
  apply (evtag_timeval_roundtrip mm_zero mm_zero_total evbuffer_new 3 (Timeval 4294967297 5));
    [lia|exact wf_new|reflexivity|reflexivity|reflexivity].
Defined.

Lemma evtag_peek_consume_witness :
  ∃ b1 b2, evtag_peek_length mm_zero (one_block (tagged 1 (bs "ab") ++ bs "c")) = Some (0, Some 4, b1) ∧
    consumed (one_block (tagged 1 (bs "ab") ++ bs "c")) b1 (tagged 1 (bs "ab") ++ bs "c") ∧
    evtag_consume mm_zero b1 = Some (0, b2) ∧ consumed (one_block (tagged 1 (bs "ab") ++ bs "c")) b2 (bs "c").
Proof.
  apply (evtag_peek_consume mm_zero mm_zero_total _ 1 (bs "ab") (bs "c")); [lia|].
  apply one_block_ready; [discriminate|vm_compute; congruence].
Defined.

Lemma evtag_string_roundtrip_witness :
  ∃ b1 b2, evtag_marshal_string mm_zero evbuffer_new 4 (bs "lock" ++ [x00]) = Some b1 ∧
    evtag_unmarshal_string mm_zero (λ _, true) b1 4 = Some (0, Some (bs "lock" ++ [x00]), b2) ∧ bytes b2 = [].
Proof.
  apply (evtag_string_roundtrip mm_zero mm_zero_total (λ _, true) evbuffer_new 4 (bs "lock"));
    [by apply (bool_decide_unpack _)|lia|exact wf_new|reflexivity|reflexivity|reflexivity|vm_compute; congruence|reflexivity].
Defined.
