(* ===== verification/Event.v ===== *)
(** * Events

    Models struct event_callback and struct event of libevent/include/event2/event_struct.h, the
    flags and closure codes of event-internal.h, and the encoding of common timeouts in the
    microseconds of a timeval (event.c).

    Events live in a store, a finite map from addresses to events; a pointer to an event is its
    address.  The two unions of struct event are modelled with the member that was written last:
    reading another member is undefined, [None], unless the bytes are known to be zero. *)

From S2P Require Import Prelude Timeval.

(** ** Flags, event bits, closures *)

Definition EVLIST_TIMEOUT : Z := 0x01.
Definition EVLIST_INSERTED : Z := 0x02.
Definition EVLIST_SIGNAL : Z := 0x04.
Definition EVLIST_ACTIVE : Z := 0x08.
Definition EVLIST_INTERNAL : Z := 0x10.
Definition EVLIST_ACTIVE_LATER : Z := 0x20.
Definition EVLIST_FINALIZING : Z := 0x40.
Definition EVLIST_INIT : Z := 0x80.
Definition EVLIST_ALL : Z := 0xff.

Definition EV_TIMEOUT : Z := 0x01.
Definition EV_READ : Z := 0x02.
Definition EV_WRITE : Z := 0x04.
Definition EV_SIGNAL : Z := 0x08.
Definition EV_PERSIST : Z := 0x10.
Definition EV_ET : Z := 0x20.
Definition EV_FINALIZE : Z := 0x40.
Definition EV_CLOSED : Z := 0x80.

Definition EV_CLOSURE_EVENT : Z := 0.
Definition EV_CLOSURE_EVENT_SIGNAL : Z := 1.
Definition EV_CLOSURE_EVENT_PERSIST : Z := 2.
Definition EV_CLOSURE_CB_SELF : Z := 3.
Definition EV_CLOSURE_CB_FINALIZE : Z := 4.
Definition EV_CLOSURE_EVENT_FINALIZE : Z := 5.
Definition EV_CLOSURE_EVENT_FINALIZE_FREE : Z := 6.

(** The C condition [z & mask]. *)
Definition has (mask z : Z) : bool := negb (Z.land z mask =? 0).
(** [z &= ~mask] *)
Definition clear_bits (mask z : Z) : Z := Z.land z (Z.lnot mask).

(** ** Structures *)

(** The functions a callback pointer may point to: one of the user's, or common_timeout_callback. *)
Inductive callback := user_cb (f : nat) | common_timeout_cb.

Record event_callback := Event_callback {
  evcb_flags : Z; evcb_pri : Z; evcb_closure : Z;
  evcb_cb_union : callback; evcb_arg : Z
}.

(** The union ev_timeout_pos *)
Inductive timeout_pos := min_heap_idx (i : Z) | ev_next_with_common_timeout.

(** The union ev_: the member ev_io with its timeout, or the member ev_signal with its call counter
    and the address of the counter of the running closure (the number of the call of
    event_signal_closure, [None] for NULL).  [ev_zero]: the bytes of the members are zero. *)
Inductive ev_union :=
  | ev_io (tv : timeval)
  | ev_signal (ncalls : Z) (pncalls : option nat)
  | ev_zero.

Record event := Event {
  ev_evcallback : event_callback;
  ev_timeout_pos : timeout_pos;
  ev_fd : Z;
  ev_base : bool;             (* not NULL *)
  ev_ : ev_union;
  ev_events : Z;
  ev_res : Z;
  ev_timeout : timeval
}.

Abbreviation store := (gmap nat event).

Definition ev_flags (e : event) : Z := evcb_flags (ev_evcallback e).
Definition ev_pri (e : event) : Z := evcb_pri (ev_evcallback e).
Definition ev_closure (e : event) : Z := evcb_closure (ev_evcallback e).

Definition ev_io_timeout (e : event) : option timeval :=
  match ev_ e with ev_io tv => Some tv | ev_zero => Some (Timeval 0 0) | ev_signal _ _ => None end.
Definition ev_ncalls (e : event) : option Z :=
  match ev_ e with ev_signal n _ => Some n | ev_zero => Some 0 | ev_io _ => None end.
Definition ev_pncalls (e : event) : option (option nat) :=
  match ev_ e with ev_signal _ p => Some p | ev_zero => Some None | ev_io _ => None end.

(** Assignments to one field. *)
Definition cb_with_flags (z : Z) (c : event_callback) : event_callback :=
  Event_callback z (evcb_pri c) (evcb_closure c) (evcb_cb_union c) (evcb_arg c).
Definition cb_with_pri (z : Z) (c : event_callback) : event_callback :=
  Event_callback (evcb_flags c) z (evcb_closure c) (evcb_cb_union c) (evcb_arg c).
Definition with_evcallback (c : event_callback) (e : event) : event :=
  Event c (ev_timeout_pos e) (ev_fd e) (ev_base e) (ev_ e) (ev_events e) (ev_res e) (ev_timeout e).
Definition with_flags (z : Z) (e : event) : event :=
  with_evcallback (cb_with_flags z (ev_evcallback e)) e.
Definition with_pri (z : Z) (e : event) : event :=
  with_evcallback (cb_with_pri z (ev_evcallback e)) e.
Definition with_pos (p : timeout_pos) (e : event) : event :=
  Event (ev_evcallback e) p (ev_fd e) (ev_base e) (ev_ e) (ev_events e) (ev_res e) (ev_timeout e).
Definition with_ev_ (u : ev_union) (e : event) : event :=
  Event (ev_evcallback e) (ev_timeout_pos e) (ev_fd e) (ev_base e) u (ev_events e) (ev_res e)
    (ev_timeout e).
Definition with_res (r : Z) (e : event) : event :=
  Event (ev_evcallback e) (ev_timeout_pos e) (ev_fd e) (ev_base e) (ev_ e) (ev_events e) r
    (ev_timeout e).
Definition with_timeout (tv : timeval) (e : event) : event :=
  Event (ev_evcallback e) (ev_timeout_pos e) (ev_fd e) (ev_base e) (ev_ e) (ev_events e) (ev_res e)
    tv.

(** [ev->field = v] through a pointer; [None] where the pointer is dangling. *)
Definition update_event (f : event → event) (x : nat) (st : store) : option store :=
  e ← st !! x; Some (<[x := f e]> st).

(** ** Common timeouts *)

Definition MICROSECONDS_MASK : Z := 0x000fffff.
Definition COMMON_TIMEOUT_IDX_MASK : Z := 0x0ff00000.
Definition COMMON_TIMEOUT_IDX_SHIFT : Z := 20.
Definition COMMON_TIMEOUT_MASK : Z := 0xf0000000.
Definition COMMON_TIMEOUT_MAGIC : Z := 0x50000000.

Definition COMMON_TIMEOUT_IDX (tv : timeval) : Z :=
  Z.shiftr (Z.land (tv_usec tv) COMMON_TIMEOUT_IDX_MASK) COMMON_TIMEOUT_IDX_SHIFT.

(** Is [tv] one of the [n_common_timeouts] common timeouts of the base? *)
Definition is_common_timeout (tv : timeval) (n_common_timeouts : Z) : bool :=
  if negb (Z.land (tv_usec tv) COMMON_TIMEOUT_MASK =? COMMON_TIMEOUT_MAGIC) then false
  else COMMON_TIMEOUT_IDX tv <? n_common_timeouts.

Definition is_same_common_timeout (tv1 tv2 : timeval) : bool :=
  Z.land (tv_usec tv1) (Z.lnot MICROSECONDS_MASK) =?
  Z.land (tv_usec tv2) (Z.lnot MICROSECONDS_MASK).

(** [tv.tv_usec &= MICROSECONDS_MASK] *)
Definition real_timeout (tv : timeval) : timeval :=
  Timeval (tv_sec tv) (Z.land (tv_usec tv) MICROSECONDS_MASK).

(** ** Lemmas *)

Lemma has_testbit k z : 0 <= k → has (2 ^ k) z = Z.testbit z k.
Proof.
  intros Hk. unfold has. destruct (Z.testbit z k) eqn:E.
  - apply negb_true_iff, Z.eqb_neq. intros H0. assert (Z.testbit (Z.land z (2 ^ k)) k = false) as H1
      by by rewrite H0, Z.bits_0.
    rewrite Z.land_spec, E, Z.pow2_bits_true in H1 by done. done.
  - apply negb_false_iff, Z.eqb_eq, Z.bits_inj_0. intros n. rewrite Z.land_spec.
    destruct (Z.eq_dec n k) as [->|]; [by rewrite E|].
    rewrite Z.pow2_bits_false by done. apply andb_false_r.
Qed.

(** The microseconds of a common timeout: the duration, the number of the queue and the magic
    number in separate bits. *)
Lemma common_usec_split us i :
  0 <= us < 2 ^ 20 → 0 <= i < 256 →
  Z.lor (Z.lor us COMMON_TIMEOUT_MAGIC) (Z.shiftl i COMMON_TIMEOUT_IDX_SHIFT) =
  COMMON_TIMEOUT_MAGIC + i * 2 ^ 20 + us.
Proof.
  intros Hus Hi. unfold COMMON_TIMEOUT_IDX_SHIFT.
  rewrite Z.shiftl_mul_pow2, <- Z.lor_assoc, (Z.lor_comm us) by lia.
  replace COMMON_TIMEOUT_MAGIC with (5 * 2 ^ 8 * 2 ^ 20) by done.
  rewrite <- !Z.shiftl_mul_pow2, <- Z.shiftl_lor, !Z.shiftl_mul_pow2 by lia.
  rewrite (lor_low 5 i 8), lor_low by lia. lia.
Qed.

Lemma land_ones_mod z : Z.land z MICROSECONDS_MASK = z mod 2 ^ 20.
Proof. apply (Z.land_ones z 20). lia. Qed.

Lemma idx_mask_spec z : Z.land z COMMON_TIMEOUT_IDX_MASK = (z / 2 ^ 20) mod 2 ^ 8 * 2 ^ 20.
Proof.
  replace COMMON_TIMEOUT_IDX_MASK with (Z.shiftl (Z.ones 8) 20) by done.
  rewrite <- Z.land_ones, <- !Z.shiftr_div_pow2, <- Z.shiftl_mul_pow2 by lia.
  apply Z.bits_inj'. intros n Hn. rewrite Z.land_spec.
  destruct (Z_lt_le_dec n 20).
  - rewrite !Z.shiftl_spec_low by lia. apply andb_false_r.
  - rewrite !Z.shiftl_spec, Z.land_spec, Z.shiftr_spec by lia. do 2 f_equal; lia.
Qed.

Lemma magic_mask_spec z : Z.land z COMMON_TIMEOUT_MASK = (z / 2 ^ 28) mod 2 ^ 4 * 2 ^ 28.
Proof.
  replace COMMON_TIMEOUT_MASK with (Z.shiftl (Z.ones 4) 28) by done.
  rewrite <- Z.land_ones, <- !Z.shiftr_div_pow2, <- Z.shiftl_mul_pow2 by lia.
  apply Z.bits_inj'. intros n Hn. rewrite Z.land_spec.
  destruct (Z_lt_le_dec n 28).
  - rewrite !Z.shiftl_spec_low by lia. apply andb_false_r.
  - rewrite !Z.shiftl_spec, Z.land_spec, Z.shiftr_spec by lia. do 2 f_equal; lia.
Qed.

Lemma common_idx_spec tv : COMMON_TIMEOUT_IDX tv = (tv_usec tv / 2 ^ 20) mod 256.
Proof.
  unfold COMMON_TIMEOUT_IDX, COMMON_TIMEOUT_IDX_SHIFT. rewrite idx_mask_spec, Z.shiftr_div_pow2 by lia.
  apply Z.div_mul. lia.
Qed.

(** A point in time with fewer than 2^28 microseconds is never taken for a common timeout. *)
Lemma small_not_common tv n : 0 <= tv_usec tv < 2 ^ 28 → is_common_timeout tv n = false.
Proof.
  intros H. unfold is_common_timeout. rewrite magic_mask_spec, Z.div_small by lia. done.
Qed.

Lemma normal_not_common tv n : tv_normal tv → is_common_timeout tv n = false.
Proof. intros H. apply small_not_common. unfold tv_normal in H. lia. Qed.
