(* ===== verification/MinHeap.v ===== *)
(** * The timer heap

    Models libevent/minheap-internal.h: the binary heap of the events with a timeout, an array of
    pointers to events in which every event knows its own index.

    The array is a list of slots, [None] for a slot that was never written; the operations carry the
    store of events, whose [min_heap_idx] they write and whose [ev_timeout] they compare.  [None] as
    the result of an operation stands for undefined behaviour: a slot outside of the array or never
    written, a dangling pointer, the index of an event that holds the other member of the union.
    Indices are [unsigned]: 32 bits.  The loops take fuel: the number of slots is always enough. *)

From S2P Require Import Prelude Timeval Event.

(** ** The model *)

(** struct min_heap *)
Record min_heap := Min_heap { heap_p : list (option nat); heap_n : Z; heap_a : Z }.

Definition min_heap_ctor_ : min_heap := Min_heap [] 0 0.

Definition min_heap_elem_greater (st : store) (a b : nat) : option bool :=
  ea ← st !! a; eb ← st !! b; Some (evutil_timercmp Z.gtb (ev_timeout ea) (ev_timeout eb)).

Definition min_heap_elem_init_ (e : event) : event := with_pos (min_heap_idx (-1)) e.

(** [e->ev_timeout_pos.min_heap_idx] *)
Definition get_idx (st : store) (e : nat) : option Z :=
  ev ← st !! e; match ev_timeout_pos ev with min_heap_idx i => Some i | _ => None end.
Definition set_idx (e : nat) (i : Z) (st : store) : option store :=
  update_event (with_pos (min_heap_idx i)) e st.

Definition min_heap_elt_is_top_ (st : store) (e : nat) : option bool :=
  i ← get_idx st e; Some (i =? 0).
Definition min_heap_empty_ (s : min_heap) : bool := 0 =? heap_n s.
Definition min_heap_size_ (s : min_heap) : Z := heap_n s.

(** [s->p[i]], and [s->p[i] = e] *)
Definition slot (s : min_heap) (i : Z) : option nat := heap_p s !! Z.to_nat i ≫= id.
Definition set_slot (s : min_heap) (i : Z) (e : nat) : option min_heap :=
  if i <? Zlen (heap_p s)
  then Some (Min_heap (<[Z.to_nat i := Some e]> (heap_p s)) (heap_n s) (heap_a s)) else None.

(** NULL, [Some None], when the heap is empty. *)
Definition min_heap_top_ (s : min_heap) : option (option nat) :=
  if heap_n s =? 0 then Some None else e ← slot s 0; Some (Some e).

(** [(s->p[i] = e)->ev_timeout_pos.min_heap_idx = i] *)
Definition place (s : min_heap) (st : store) (i : Z) (e : nat) : option (min_heap * store) :=
  s ← set_slot s i e; st ← set_idx e i st; Some (s, st).

(** [realloc] answers whether a block of the given size is granted. *)
Definition min_heap_reserve_ (realloc : Z → bool) (s : min_heap) (n : Z) : Z * min_heap :=
  if heap_a s <? n then
    let a := if heap_a s =? 0 then 8 else uint32 (heap_a s * 2) in
    let a := if a <? n then n else a in
    if realloc (a * 8) then (0, Min_heap (resize (Z.to_nat a) None (heap_p s)) (heap_n s) a)
    else (-1, s)
  else (0, s).

(** The condition of the loops: the parent of the hole is greater than [e]. *)
Definition parent_greater (s : min_heap) (st : store) (hole parent : Z) (e : nat) : option bool :=
  if hole =? 0 then Some false else p ← slot s parent; min_heap_elem_greater st p e.

Fixpoint shift_up_loop (fuel : nat) (s : min_heap) (st : store) (hole : Z) (e : nat)
    : option (min_heap * store) :=
  match fuel with
  | O => None
  | S fuel =>
      let parent := uint32 (hole - 1) / 2 in
      go ← parent_greater s st hole parent e;
      if go : bool then
        p ← slot s parent;
        '(s, st) ← place s st hole p;
        shift_up_loop fuel s st parent e
      else place s st hole e
  end.

Definition heap_fuel (s : min_heap) : nat := S (Z.to_nat (heap_n s)).

Definition min_heap_shift_up_ (s : min_heap) (st : store) (hole : Z) (e : nat) :=
  shift_up_loop (heap_fuel s) s st hole e.

(** The first round of the loop runs without a test. *)
Definition min_heap_shift_up_unconditional_ (s : min_heap) (st : store) (hole : Z) (e : nat)
    : option (min_heap * store) :=
  let parent := uint32 (hole - 1) / 2 in
  p ← slot s parent;
  '(s', st) ← place s st hole p;
  shift_up_loop (heap_fuel s) s' st parent e.

Fixpoint shift_down_loop (fuel : nat) (s : min_heap) (st : store) (hole : Z) (e : nat)
    : option (min_heap * store) :=
  match fuel with
  | O => None
  | S fuel =>
      let min_child := uint32 (2 * (hole + 1)) in
      if min_child <=? heap_n s then
        dec ← (if min_child =? heap_n s then Some true
               else r ← slot s min_child; l ← slot s (uint32 (min_child - 1));
                    min_heap_elem_greater st r l);
        let min_child := uint32 (min_child - Z.b2z dec) in
        c ← slot s min_child;
        gt ← min_heap_elem_greater st e c;
        if gt : bool then
          '(s, st) ← place s st hole c;
          shift_down_loop fuel s st min_child e
        else place s st hole e
      else place s st hole e
  end.

Definition min_heap_shift_down_ (s : min_heap) (st : store) (hole : Z) (e : nat) :=
  shift_down_loop (heap_fuel s) s st hole e.

Definition with_n (n : Z) (s : min_heap) : min_heap := Min_heap (heap_p s) n (heap_a s).

Definition min_heap_push_ (realloc : Z → bool) (s : min_heap) (st : store) (e : nat)
    : option (Z * min_heap * store) :=
  let '(r, s) := min_heap_reserve_ realloc s (uint32 (heap_n s + 1)) in
  if negb (r =? 0) then Some (-1, s, st)
  else
    '(s, st) ← min_heap_shift_up_ (with_n (uint32 (heap_n s + 1)) s) st (heap_n s) e;
    Some (0, s, st).

(** The event taken out, [None] for NULL. *)
Definition min_heap_pop_ (s : min_heap) (st : store) : option (option nat * min_heap * store) :=
  if negb (heap_n s =? 0) then
    e ← slot s 0;
    let s := with_n (uint32 (heap_n s - 1)) s in
    last ← slot s (heap_n s);
    '(s, st) ← min_heap_shift_down_ s st 0 last;
    st ← set_idx e (-1) st;
    Some (Some e, s, st)
  else Some (None, s, st).

(** Put [e] into the hole at its index [idx], moving it up or down as its key asks. *)
Definition refill (s : min_heap) (st : store) (idx : Z) (e : nat) : option (min_heap * store) :=
  let parent := uint32 (Z.quot (idx - 1) 2) in
  up ← (if 0 <? idx then p ← slot s parent; min_heap_elem_greater st p e else Some false);
  if up : bool then min_heap_shift_up_unconditional_ s st (uint32 idx) e
  else min_heap_shift_down_ s st (uint32 idx) e.

Definition min_heap_erase_ (s : min_heap) (st : store) (e : nat)
    : option (Z * min_heap * store) :=
  idx ← get_idx st e;
  if negb (idx =? -1) then
    let s := with_n (uint32 (heap_n s - 1)) s in
    last ← slot s (heap_n s);
    '(s, st) ← refill s st idx last;
    st ← set_idx e (-1) st;
    Some (0, s, st)
  else Some (-1, s, st).

Definition min_heap_adjust_ (realloc : Z → bool) (s : min_heap) (st : store) (e : nat)
    : option (Z * min_heap * store) :=
  idx ← get_idx st e;
  if idx =? -1 then min_heap_push_ realloc s st e
  else '(s, st) ← refill s st idx e; Some (0, s, st).

(** ** Order *)

(** The indices [2 i + 1] and [2 i + 2] are the children of [i]. *)
Definition child (i j : nat) : Prop := (j = 2 * i + 1 ∨ j = 2 * i + 2)%nat.

(** The keys [V 0 .. V (n-1)] are in heap order. *)
Definition ordered (V : nat → timeval) (n : nat) : Prop :=
  ∀ i j, child i j → (j < n)%nat → tv_le (V i) (V j).

(** In heap order but for [k] and its parent; the children of [k] are not below its parent. *)
Definition up_inv (V : nat → timeval) (n k : nat) : Prop :=
  (∀ i j, child i j → (j < n)%nat → j ≠ k → tv_le (V i) (V j)) ∧
  (∀ i j, child i k → child k j → (j < n)%nat → tv_le (V i) (V j)).

(** In heap order but for [k] and its children; the children of [k] are not below its parent. *)
Definition down_inv (V : nat → timeval) (n k : nat) : Prop :=
  (∀ i j, child i j → (j < n)%nat → i ≠ k → tv_le (V i) (V j)) ∧
  (∀ i j, child i k → child k j → (j < n)%nat → tv_le (V i) (V j)).

Definition swapV (k j : nat) (V : nat → timeval) (i : nat) : timeval :=
  if decide (i = k) then V j else if decide (i = j) then V k else V i.

Lemma child_inj i i' j : child i j → child i' j → i = i'.
Proof. unfold child. lia. Qed.
Lemma child_lt i j : child i j → (i < j)%nat.
Proof. unfold child. lia. Qed.

(** Case analysis on which of the swapped positions an index is. *)
Ltac swap_cases := unfold swapV; repeat case_decide; subst; simplify_eq.

Lemma up_step V n k j :
  up_inv V n k → child j k → (k < n)%nat → tv_le (V k) (V j) → up_inv (swapV k j V) n j.
Proof.
  intros [Hp Hg] Hjk Hk Hle. pose proof (child_lt _ _ Hjk). split.
  - intros a b Hab Hb Hbj. pose proof (child_lt _ _ Hab).
    destruct (decide (b = k)) as [->|Hbk].
    + assert (a = j) as -> by (by eapply child_inj). swap_cases; first [lia|done].
    + pose proof (Hp a b Hab Hb Hbk). swap_cases; first [lia|done|by apply Hg|by etrans].
  - intros a b Haj Hjb Hb. pose proof (child_lt _ _ Haj). pose proof (child_lt _ _ Hjb).
    assert (tv_le (V a) (V j)) as Ha by (apply Hp; [done|lia|lia]).
    swap_cases; try lia; try done. etrans; [exact Ha|]. apply Hp; [done..|lia].
Qed.

Lemma up_done V n k :
  up_inv V n k → (∀ j, child j k → tv_le (V j) (V k)) → ordered V n.
Proof.
  intros [Hp _] Hk a b Hab Hb. destruct (decide (b = k)) as [->|]; [by apply Hk|by apply Hp].
Qed.

Lemma down_step V n k c :
  down_inv V n k → child k c → (c < n)%nat → (∀ j, child k j → (j < n)%nat → tv_le (V c) (V j)) →
  tv_le (V c) (V k) → down_inv (swapV k c V) n c.
Proof.
  intros [Hp Hg] Hkc Hc Hmin Hle. pose proof (child_lt _ _ Hkc). split.
  - intros a b Hab Hb Hac. pose proof (child_lt _ _ Hab).
    destruct (decide (a = k)) as [->|Hak].
    + pose proof (Hmin b Hab Hb). swap_cases; try lia; done.
    + pose proof (Hp a b Hab Hb Hak). swap_cases; try lia; try done.
      * by apply Hg.
      * exfalso. apply Hak. by eapply child_inj.
  - intros a b Hac Hcb Hb. pose proof (child_lt _ _ Hcb).
    assert (a = k) as -> by (by eapply child_inj). swap_cases; try lia.
    apply Hp; [done|done|lia].
Qed.

Lemma down_done V n k :
  down_inv V n k → (∀ j, child k j → (j < n)%nat → tv_le (V k) (V j)) → ordered V n.
Proof.
  intros [Hp _] Hk a b Hab Hb. destruct (decide (a = k)) as [->|]; [by apply Hk|by apply Hp].
Qed.

Lemma ordered_root V n : ordered V n → ∀ i, (i < n)%nat → tv_le (V 0%nat) (V i).
Proof.
  intros Ho i. induction (lt_wf i) as [i _ IH]. intros Hi. destruct i as [|i]; [done|].
  assert (∃ j, child j (S i)) as [j Hj].
  { exists (i / 2)%nat. unfold child. pose proof (Nat.div_mod_eq i 2).
    pose proof (Nat.mod_upper_bound i 2). lia. }
  etrans; [apply (IH j); [by apply child_lt in Hj|apply child_lt in Hj; lia]|by apply Ho].
Qed.

(** ** Representation *)

(** The key of an event. *)
Definition key (st : store) (x : nat) : timeval :=
  match st !! x with Some ev => ev_timeout ev | None => evutil_timerclear end.
Definition keys (st : store) (hs : list nat) (i : nat) : timeval :=
  match hs !! i with Some x => key st x | None => evutil_timerclear end.

(** Slot [i] holds [x] and [x] knows it. *)
Definition in_slot (s : min_heap) (st : store) (i : nat) (x : nat) : Prop :=
  heap_p s !! i = Some (Some x) ∧ get_idx st x = Some (Z.of_nat i).

(** [hs] is the content of the heap, in the order of the array; the slot [hole] may be stale. *)
Record heap_rep_but (hole : nat) (s : min_heap) (st : store) (hs : list nat) : Prop := {
  rep_n : heap_n s = Zlen hs;
  rep_room : heap_n s <= heap_a s;
  rep_size : Zlen (heap_p s) = heap_a s;
  rep_bound : Zlen hs < 2 ^ 31;
  rep_nodup : NoDup hs;
  rep_live : ∀ x, x ∈ hs → is_Some (st !! x);
  rep_slot : ∀ i x, hs !! i = Some x → i ≠ hole → in_slot s st i x
}.

Definition heap_rep (s : min_heap) (st : store) (hs : list nat) : Prop :=
  (∀ hole, heap_rep_but hole s st hs) ∧ ordered (keys st hs) (length hs).

(** Only the indices of the events in [X] have changed. *)
Definition idx_changed (X : nat → Prop) (st st' : store) : Prop :=
  ∀ x, match st !! x with
       | None => st' !! x = None
       | Some ev => st' !! x = Some ev ∨ X x ∧ ∃ i, st' !! x = Some (with_pos (min_heap_idx i) ev)
       end.

Lemma idx_changed_refl X st : idx_changed X st st.
Proof. intros x. destruct (st !! x); auto. Qed.

Lemma idx_changed_trans X st1 st2 st3 :
  idx_changed X st1 st2 → idx_changed X st2 st3 → idx_changed X st1 st3.
Proof.
  intros H1 H2 x. specialize (H1 x). specialize (H2 x). destruct (st1 !! x) as [ev|].
  - destruct H1 as [H1|[? [i H1]]]; rewrite H1 in H2; [done|].
    right. split; [done|]. destruct H2 as [H2|[_ [j H2]]]; eauto.
  - by rewrite H1 in H2.
Qed.

Lemma idx_changed_weaken (X Y : nat → Prop) st st' :
  idx_changed X st st' → (∀ x, X x → Y x) → idx_changed Y st st'.
Proof. intros H HXY x. specialize (H x). destruct (st !! x); [|done]. destruct H as [|[? ?]]; eauto. Qed.

Lemma idx_changed_key X st st' : idx_changed X st st' → ∀ x, key st' x = key st x.
Proof.
  intros H x. specialize (H x). unfold key. destruct (st !! x) as [ev|]; [|by rewrite H].
  destruct H as [->|[_ [i ->]]]; done.
Qed.

Lemma idx_changed_live X st st' x : idx_changed X st st' → is_Some (st' !! x) ↔ is_Some (st !! x).
Proof.
  intros H. specialize (H x). destruct (st !! x) as [ev|]; [|by rewrite H].
  destruct H as [->|[_ [i ->]]]; split; intros; eauto.
Qed.

Lemma idx_changed_other X st st' x : idx_changed X st st' → ¬ X x → st' !! x = st !! x.
Proof.
  intros H HX. specialize (H x). destruct (st !! x) as [ev|]; [|done]. by destruct H as [|[? ?]].
Qed.

Lemma keys_changed X st st' hs :
  idx_changed X st st' → ∀ i, keys st' hs i = keys st hs i.
Proof.
  intros H i. unfold keys. destruct (hs !! i); [|done]. by apply (idx_changed_key X).
Qed.

Lemma set_idx_ok st x i :
  is_Some (st !! x) →
  ∃ st', set_idx x i st = Some st' ∧ idx_changed (eq x) st st' ∧ get_idx st' x = Some i.
Proof.
  intros [ev Hev]. unfold set_idx, update_event. rewrite Hev. simpl. eexists. split; [done|].
  split.
  - intros y. destruct (decide (y = x)) as [->|].
    + rewrite Hev, lookup_insert_eq. right. eauto.
    + rewrite lookup_insert_ne by done. destruct (st !! y); auto.
  - unfold get_idx. by rewrite lookup_insert_eq.
Qed.

Lemma get_idx_other X st st' x : idx_changed X st st' → ¬ X x → get_idx st' x = get_idx st x.
Proof. intros H HX. unfold get_idx. by rewrite (idx_changed_other X st). Qed.

(** ** One step of a loop *)

(** The list with the elements at [k] and [j] exchanged. *)
Definition swap (k j : nat) (x y : nat) (hs : list nat) : list nat := <[k := y]> (<[j := x]> hs).

Lemma swap_perm k j x y hs : hs !! k = Some x → hs !! j = Some y → swap k j x y hs ≡ₚ hs.
Proof.
  intros Hk Hj. pose proof (lookup_lt_Some _ _ _ Hk). pose proof (lookup_lt_Some _ _ _ Hj).
  apply Permutation_inj. split; [by unfold swap; rewrite !length_insert|].
  exists (fun i => if decide (i = k) then j else if decide (i = j) then k else i). split.
  - intros a b. repeat case_decide; congruence.
  - intros i. unfold swap. destruct (decide (i = k)) as [->|].
    + by rewrite list_lookup_insert_eq by by rewrite length_insert.
    + rewrite list_lookup_insert_ne by done. case_decide; subst.
      * by rewrite list_lookup_insert_eq.
      * by rewrite list_lookup_insert_ne.
Qed.

Lemma swap_keys st k j x y hs i :
  hs !! k = Some x → hs !! j = Some y → keys st (swap k j x y hs) i = swapV k j (keys st hs) i.
Proof.
  intros Hk Hj. pose proof (lookup_lt_Some _ _ _ Hk). pose proof (lookup_lt_Some _ _ _ Hj).
  unfold keys at 1, swapV, swap. case_decide; subst.
  - rewrite list_lookup_insert_eq by by rewrite length_insert. unfold keys. by rewrite Hj.
  - rewrite list_lookup_insert_ne by done. case_decide; subst.
    + rewrite list_lookup_insert_eq by done. unfold keys. by rewrite Hk.
    + by rewrite list_lookup_insert_ne.
Qed.

Lemma set_slot_ok s i x :
  (i < length (heap_p s))%nat →
  set_slot s (Z.of_nat i) x = Some (Min_heap (<[i := Some x]> (heap_p s)) (heap_n s) (heap_a s)).
Proof. intros H. unfold set_slot. rewrite (proj2 (Z.ltb_lt _ _)) by lia. by rewrite Nat2Z.id. Qed.

Lemma rep_but_slot hole s st hs i x :
  heap_rep_but hole s st hs → hs !! i = Some x → i ≠ hole → slot s (Z.of_nat i) = Some x.
Proof.
  intros H Hx Hi. unfold slot. rewrite Nat2Z.id. destruct (rep_slot _ _ _ _ H i x Hx Hi) as [-> _]. done.
Qed.

Lemma greater_ok hole s st hs x y :
  heap_rep_but hole s st hs → x ∈ hs → y ∈ hs →
  min_heap_elem_greater st x y = Some (evutil_timercmp Z.gtb (key st x) (key st y)).
Proof.
  intros H Hx Hy. unfold min_heap_elem_greater, key.
  destruct (rep_live _ _ _ _ H x Hx) as [ex ->]. destruct (rep_live _ _ _ _ H y Hy) as [ey ->]. done.
Qed.

(** Moving [c], which is in slot [j], into the hole. *)
Lemma place_move hole s st hs e c j :
  heap_rep_but hole s st hs → hs !! hole = Some e → hs !! j = Some c → j ≠ hole →
  ∃ s' st', place s st (Z.of_nat hole) c = Some (s', st') ∧
    heap_rep_but j s' st' (swap hole j e c hs) ∧ heap_a s' = heap_a s ∧ idx_changed (.∈ hs) st st'.
Proof.
  intros H He Hc Hne. pose proof (rep_n _ _ _ _ H). pose proof (rep_room _ _ _ _ H).
  pose proof (rep_size _ _ _ _ H). pose proof (lookup_lt_Some _ _ _ He). pose proof (lookup_lt_Some _ _ _ Hc).
  unfold place. rewrite set_slot_ok by lia. cbn [mbind option_bind].
  assert (c ∈ hs) as Hcin by by eapply list_elem_of_lookup_2.
  destruct (set_idx_ok st c (Z.of_nat hole) (rep_live _ _ _ _ H c Hcin)) as (st' & -> & Hch & Hidx).
  cbn [mbind option_bind]. eexists _, _. split; [done|].
  pose proof (swap_perm hole j e c hs He Hc) as Hperm. split; [|split; [done|]].
  - split; cbn [heap_n heap_a heap_p].
    + unfold swap. rewrite !length_insert. done.
    + done.
    + by rewrite length_insert.
    + unfold swap. rewrite !length_insert. by destruct H.
    + rewrite Hperm. by destruct H.
    + intros x. rewrite Hperm, (idx_changed_live _ _ _ x Hch). destruct H. auto.
    + intros i x Hx Hi. unfold swap in Hx. destruct (decide (i = hole)) as [->|Hih].
      * rewrite list_lookup_insert_eq in Hx by (rewrite length_insert; done). simplify_eq.
        split; [|done]. cbn. apply list_lookup_insert_eq. lia.
      * rewrite !list_lookup_insert_ne in Hx by done.
        destruct (rep_slot _ _ _ _ H i x Hx Hih) as [Hp Hg]. split; cbn.
        -- by rewrite list_lookup_insert_ne.
        -- rewrite (get_idx_other _ _ _ _ Hch); [done|]. intros <-.
           apply Hi. eapply NoDup_lookup; [by destruct H|done|done].
  - eapply idx_changed_weaken; [exact Hch|]. by intros ? <-.
Qed.

(** Filling the hole. *)
Lemma place_fill hole s st hs e :
  heap_rep_but hole s st hs → hs !! hole = Some e →
  ∃ s' st', place s st (Z.of_nat hole) e = Some (s', st') ∧
    (∀ h, heap_rep_but h s' st' hs) ∧ heap_a s' = heap_a s ∧ idx_changed (.∈ hs) st st'.
Proof.
  intros H He. pose proof (rep_n _ _ _ _ H). pose proof (rep_room _ _ _ _ H).
  pose proof (rep_size _ _ _ _ H). pose proof (lookup_lt_Some _ _ _ He).
  unfold place. rewrite set_slot_ok by lia. cbn [mbind option_bind].
  assert (e ∈ hs) as Hin by by eapply list_elem_of_lookup_2.
  destruct (set_idx_ok st e (Z.of_nat hole) (rep_live _ _ _ _ H e Hin)) as (st' & -> & Hch & Hidx).
  cbn [mbind option_bind]. eexists _, _. split; [done|]. split; [|split; [done|]].
  - intros h. destruct H. split; cbn [heap_n heap_a heap_p]; try done.
    + by rewrite length_insert.
    + intros x Hx. rewrite (idx_changed_live _ _ _ x Hch). auto.
    + intros i x Hx _. destruct (decide (i = hole)) as [->|Hih].
      * simplify_eq. split; [|done]. cbn. apply list_lookup_insert_eq. lia.
      * destruct (rep_slot0 i x Hx Hih) as [Hp Hg]. split; cbn.
        -- by rewrite list_lookup_insert_ne.
        -- rewrite (get_idx_other _ _ _ _ Hch); [done|]. intros <-.
           apply Hih. by eapply NoDup_lookup.
  - eapply idx_changed_weaken; [exact Hch|]. by intros ? <-.
Qed.

(** ** The loops *)

(** The loop ends with the elements of [hs] in heap order, in the array of [a] slots. *)
Definition sifted (a : Z) (hs : list nat) (st : store) (r : option (min_heap * store)) : Prop :=
  ∃ s' st' hs', r = Some (s', st') ∧ heap_rep s' st' hs' ∧ hs' ≡ₚ hs ∧ heap_a s' = a ∧
    idx_changed (.∈ hs) st st'.

Lemma sifted_trans a hs hs1 st st1 r :
  hs1 ≡ₚ hs → idx_changed (.∈ hs) st st1 → sifted a hs1 st1 r → sifted a hs st r.
Proof.
  intros Hp Hc (s' & st' & hs' & -> & Hr & Hp' & Ha & Hc'). exists s', st', hs'.
  split; [done|]. split; [done|]. split; [by etrans|]. split; [done|].
  eapply idx_changed_trans; [done|]. eapply idx_changed_weaken; [done|]. intros x. cbn. by rewrite Hp.
Qed.

Lemma parent_of (k : nat) :
  (0 < k)%nat → Z.of_nat k < 2 ^ 31 →
  ∃ j, child j k ∧ uint32 (Z.of_nat k - 1) / 2 = Z.of_nat j.
Proof.
  intros H0 Hk. exists (Z.to_nat ((Z.of_nat k - 1) / 2)). rewrite uint32_id by lia. unfold child. dlia.
Qed.

Lemma ordered_ext V V' n : (∀ i, V' i = V i) → ordered V n → ordered V' n.
Proof. intros He Ho i j. rewrite !He. apply Ho. Qed.
Lemma up_inv_ext V V' n k : (∀ i, V' i = V i) → up_inv V n k → up_inv V' n k.
Proof. intros He [H1 H2]. split; intros i j; rewrite !He; auto. Qed.
Lemma down_inv_ext V V' n k : (∀ i, V' i = V i) → down_inv V n k → down_inv V' n k.
Proof. intros He [H1 H2]. split; intros i j; rewrite !He; auto. Qed.

(** Filling the hole ends a loop. *)
Lemma place_sifted k s st hs e :
  heap_rep_but k s st hs → hs !! k = Some e → ordered (keys st hs) (length hs) →
  sifted (heap_a s) hs st (place s st (Z.of_nat k) e).
Proof.
  intros H He Ho. destruct (place_fill _ _ _ _ _ H He) as (s' & st' & E & Hr & Ha & Hc).
  exists s', st', hs. split; [done|]. split; [|done]. split; [done|].
  eapply ordered_ext; [|exact Ho]. intros i. by apply (keys_changed (.∈ hs)).
Qed.

Lemma keys_at st hs i x : hs !! i = Some x → keys st hs i = key st x.
Proof. unfold keys. by intros ->. Qed.

Lemma swap_length k j x y hs : length (swap k j x y hs) = length hs.
Proof. unfold swap. by rewrite !length_insert. Qed.

Lemma swap_lookup_j k j x y hs :
  (j < length hs)%nat → k ≠ j → swap k j x y hs !! j = Some x.
Proof.
  intros Hj Hne. unfold swap. rewrite list_lookup_insert_ne by done. by apply list_lookup_insert_eq.
Qed.

(** The keys after a move: those exchanged. *)
Lemma moved_keys hs st st' k j e c :
  hs !! k = Some e → hs !! j = Some c → idx_changed (.∈ hs) st st' →
  ∀ i, keys st' (swap k j e c hs) i = swapV k j (keys st hs) i.
Proof.
  intros Hk Hj Hc i. rewrite (keys_changed _ _ _ _ Hc). by apply swap_keys.
Qed.

Lemma shift_up_loop_ok fuel s st hs k e :
  heap_rep_but k s st hs → hs !! k = Some e → up_inv (keys st hs) (length hs) k → (k < fuel)%nat →
  sifted (heap_a s) hs st (shift_up_loop fuel s st (Z.of_nat k) e).
Proof.
  revert s st hs k. induction fuel as [|fuel IH]; intros s st hs k H He Hup Hf; [lia|].
  pose proof (lookup_lt_Some _ _ _ He) as Hk. pose proof (rep_bound _ _ _ _ H) as Hb.
  cbn [shift_up_loop]. unfold parent_greater. destruct (decide (k = 0%nat)) as [->|Hk0].
  { cbn [mbind option_bind]. apply place_sifted; [done|done|]. eapply up_done; [done|].
    intros j Hj. unfold child in Hj. lia. }
  rewrite (proj2 (Z.eqb_neq _ _)) by lia.
  destruct (parent_of k) as (j & Hjk & ->); [lia..|]. pose proof (child_lt _ _ Hjk).
  destruct (lookup_lt_is_Some_2 hs j) as [p Hp]; [lia|].
  rewrite (rep_but_slot _ _ _ _ _ _ H Hp) by lia. cbn [mbind option_bind].
  rewrite (greater_ok _ _ _ _ _ _ H) by by eapply list_elem_of_lookup_2. cbn [mbind option_bind].
  rewrite <- (keys_at st hs j p Hp), <- (keys_at st hs k e He).
  destruct (timercmp_gt_spec (keys st hs j) (keys st hs k)) as [Hgt|Hle].
  - destruct (place_move k s st hs e p j H He Hp) as (s1 & st1 & -> & Hr1 & <- & Hc1); [lia|].
    cbn [mbind option_bind]. eapply sifted_trans; [by apply (swap_perm k j e p)|exact Hc1|].
    apply IH; [done|apply swap_lookup_j; lia| |lia]. rewrite swap_length.
    eapply up_inv_ext; [by eapply moved_keys|]. apply up_step; [done..|]. by apply tv_lt_le.
  - apply place_sifted; [done|done|]. eapply up_done; [done|]. intros i Hi.
    assert (i = j) as -> by (by eapply child_inj). rewrite tv_lt_nge in Hle. by apply dec_stable.
Qed.

(** The child the loop looks at: the lesser one. *)
Lemma lesser_child s st hs k e :
  heap_rep_but k s st hs → hs !! k = Some e → (2 * k + 1 < length hs)%nat →
  ∃ c x dec,
    (if Z.of_nat (2 * k + 2) =? heap_n s then Some true
     else r ← slot s (Z.of_nat (2 * k + 2)); l ← slot s (uint32 (Z.of_nat (2 * k + 2) - 1));
          min_heap_elem_greater st r l) = Some dec ∧
    uint32 (Z.of_nat (2 * k + 2) - Z.b2z dec) = Z.of_nat c ∧ hs !! c = Some x ∧ child k c ∧
    ∀ j, child k j → (j < length hs)%nat → tv_le (keys st hs c) (keys st hs j).
Proof.
  intros H He Hc. pose proof (rep_n _ _ _ _ H) as Hn. pose proof (rep_bound _ _ _ _ H) as Hb.
  destruct (lookup_lt_is_Some_2 hs (2 * k + 1)) as [l Hl]; [lia|].
  destruct (Z.eqb_spec (Z.of_nat (2 * k + 2)) (heap_n s)) as [Heq|Hne].
  - exists (2 * k + 1)%nat, l, true. split; [done|]. cbn [Z.b2z]. rewrite uint32_id by lia.
    split; [lia|]. split; [done|]. split; [by left|]. intros j [->| ->] Hj; [done|lia].
  - destruct (decide (2 * k + 2 < length hs)%nat) as [Hlt|]; [|lia].
    destruct (lookup_lt_is_Some_2 hs (2 * k + 2)) as [r Hr]; [lia|].
    rewrite (rep_but_slot _ _ _ _ _ _ H Hr) by lia.
    rewrite uint32_id by lia. replace (Z.of_nat (2 * k + 2) - 1) with (Z.of_nat (2 * k + 1)) by lia.
    rewrite (rep_but_slot _ _ _ _ _ _ H Hl) by lia. cbn [mbind option_bind].
    rewrite (greater_ok _ _ _ _ _ _ H) by by eapply list_elem_of_lookup_2.
    rewrite <- (keys_at _ _ _ _ Hr), <- (keys_at _ _ _ _ Hl).
    destruct (timercmp_gt_spec (keys st hs (2 * k + 2)) (keys st hs (2 * k + 1))) as [Hgt|Hle].
    + exists (2 * k + 1)%nat, l, true. split; [done|]. cbn [Z.b2z]. rewrite uint32_id by lia.
      split; [lia|]. split; [done|]. split; [by left|]. intros j [->| ->] Hj; [done|by apply tv_lt_le].
    + rewrite tv_lt_nge in Hle. apply dec_stable in Hle.
      exists (2 * k + 2)%nat, r, false. split; [done|]. cbn [Z.b2z]. rewrite uint32_id by lia.
      split; [lia|]. split; [done|]. split; [by right|]. by intros j [->| ->] Hj.
Qed.

Lemma shift_down_loop_ok fuel s st hs k e :
  heap_rep_but k s st hs → hs !! k = Some e → down_inv (keys st hs) (length hs) k →
  (length hs <= k + fuel)%nat →
  sifted (heap_a s) hs st (shift_down_loop fuel s st (Z.of_nat k) e).
Proof.
  revert s st hs k. induction fuel as [|fuel IH]; intros s st hs k H He Hdn Hf;
    pose proof (lookup_lt_Some _ _ _ He) as Hk; [lia|].
  pose proof (rep_bound _ _ _ _ H) as Hb. pose proof (rep_n _ _ _ _ H) as Hn.
  cbn [shift_down_loop]. rewrite (uint32_id (2 * _)) by lia.
  replace (2 * (Z.of_nat k + 1)) with (Z.of_nat (2 * k + 2)) by lia.
  destruct (Z.leb_spec (Z.of_nat (2 * k + 2)) (heap_n s)) as [Hch|Hch].
  2:{ apply place_sifted; [done|done|]. eapply down_done; [done|]. intros j [->| ->] Hj; lia. }
  destruct (lesser_child s st hs k e H He) as (c & x & dec & -> & Hu & Hx & Hkc & Hmin); [lia|].
  cbn [mbind option_bind]. rewrite Hu. pose proof (child_lt _ _ Hkc).
  rewrite (rep_but_slot _ _ _ _ _ _ H Hx) by lia. cbn [mbind option_bind].
  rewrite (greater_ok _ _ _ _ _ _ H) by by eapply list_elem_of_lookup_2. cbn [mbind option_bind].
  rewrite <- (keys_at st hs c x Hx), <- (keys_at st hs k e He).
  destruct (timercmp_gt_spec (keys st hs k) (keys st hs c)) as [Hgt|Hle].
  - pose proof (lookup_lt_Some _ _ _ Hx).
    destruct (place_move k s st hs e x c H He Hx) as (s1 & st1 & -> & Hr1 & <- & Hc1); [lia|].
    cbn [mbind option_bind]. eapply sifted_trans; [by apply (swap_perm k c e x)|exact Hc1|].
    apply IH; [done|apply swap_lookup_j; lia| |rewrite swap_length; lia]. rewrite swap_length.
    eapply down_inv_ext; [by eapply moved_keys|]. apply down_step; [done..|]. by apply tv_lt_le.
  - apply place_sifted; [done|done|]. eapply down_done; [done|]. intros j Hj Hjn.
    etrans; [|by apply Hmin]. rewrite tv_lt_nge in Hle. by apply dec_stable.
Qed.

(** ** The operations *)

(** In heap order but for [k]; the children of [k] are not below its parent. *)
Definition spot_inv (V : nat → timeval) (n k : nat) : Prop :=
  (∀ i j, child i j → (j < n)%nat → i ≠ k → j ≠ k → tv_le (V i) (V j)) ∧
  (∀ i j, child i k → child k j → (j < n)%nat → tv_le (V i) (V j)).

Lemma spot_up V n k j : spot_inv V n k → child j k → tv_le (V k) (V j) → up_inv V n k.
Proof.
  intros [Hp Hg] Hjk Hle. split; [|done]. intros a b Hab Hb Hbk.
  destruct (decide (a = k)) as [->|]; [|by apply Hp]. etrans; [done|]. by apply Hg.
Qed.

Lemma spot_down V n k : spot_inv V n k → (∀ j, child j k → tv_le (V j) (V k)) → down_inv V n k.
Proof.
  intros [Hp Hg] Hup. split; [|done]. intros a b Hab Hb Hak.
  destruct (decide (b = k)) as [->|]; [by apply Hup|by apply Hp].
Qed.

Lemma refill_ok s st hs k e :
  heap_rep_but k s st hs → hs !! k = Some e → spot_inv (keys st hs) (length hs) k →
  sifted (heap_a s) hs st (refill s st (Z.of_nat k) e).
Proof.
  intros H He Hs. pose proof (lookup_lt_Some _ _ _ He) as Hk. pose proof (rep_bound _ _ _ _ H) as Hb.
  pose proof (rep_n _ _ _ _ H) as Hn.
  unfold refill, min_heap_shift_up_unconditional_, min_heap_shift_down_. rewrite (uint32_id (Z.of_nat k)) by lia.
  destruct (decide (k = 0%nat)) as [->|Hk0].
  { cbn [mbind option_bind Z.of_nat Z.ltb Z.compare]. apply (shift_down_loop_ok _ s st hs 0); [done|done| |].
    - apply spot_down; [done|]. intros j Hj. unfold child in Hj. lia.
    - unfold heap_fuel. lia. }
  rewrite (proj2 (Z.ltb_lt _ _)) by lia. rewrite Z.quot_div_nonneg by lia.
  destruct (parent_of k) as (j & Hjk & Hj); [lia..|]. pose proof (child_lt _ _ Hjk).
  rewrite (uint32_id (Z.of_nat k - 1)) in * by lia. rewrite Hj, (uint32_id (Z.of_nat j)) by lia.
  destruct (lookup_lt_is_Some_2 hs j) as [p Hp]; [lia|].
  rewrite (rep_but_slot _ _ _ _ _ _ H Hp) by lia. cbn [mbind option_bind].
  pose proof (greater_ok _ _ _ _ p e H) as Hg. rewrite Hg by by eapply list_elem_of_lookup_2.
  cbn [mbind option_bind]. rewrite <- (keys_at st hs j p Hp), <- (keys_at st hs k e He) in *.
  destruct (timercmp_gt_spec (keys st hs j) (keys st hs k)) as [Hgt|Hle].
  - assert (Hs' : sifted (heap_a s) hs st (shift_up_loop (S (heap_fuel s)) s st (Z.of_nat k) e)).
    { apply shift_up_loop_ok; [done|done|eapply spot_up; [done|done|by apply tv_lt_le]|unfold heap_fuel; lia]. }
    cbn [shift_up_loop] in Hs'. unfold parent_greater in Hs'.
    rewrite (proj2 (Z.eqb_neq _ _)), uint32_id, Hj, (rep_but_slot _ _ _ _ _ _ H Hp) in Hs' by lia.
    cbn [mbind option_bind] in Hs'. rewrite Hg in Hs' by by eapply list_elem_of_lookup_2.
    cbn [mbind option_bind] in Hs'. exact Hs'.
  - apply shift_down_loop_ok; [done|done| |unfold heap_fuel; lia]. apply spot_down; [done|].
    intros i Hi. assert (i = j) as -> by (by eapply child_inj). rewrite tv_lt_nge in Hle.
    by apply dec_stable.
Qed.

Lemma heap_rep_slot s st hs i x :
  heap_rep s st hs → hs !! i = Some x → slot s (Z.of_nat i) = Some x ∧ get_idx st x = Some (Z.of_nat i).
Proof.
  intros [Hr _] Hx. destruct (rep_slot _ _ _ _ (Hr (S i)) i x Hx) as [Hp Hi]; [lia|].
  split; [|done]. unfold slot. by rewrite Nat2Z.id, Hp.
Qed.

Lemma heap_rep_idx s st hs x :
  heap_rep s st hs → x ∈ hs → ∃ k, hs !! k = Some x ∧ get_idx st x = Some (Z.of_nat k).
Proof.
  intros Hr [k Hk]%list_elem_of_lookup. exists k. split; [done|]. by eapply heap_rep_slot.
Qed.

(** An event that leaves the heap may change as it likes. *)
Lemma heap_rep_frame s st st' hs :
  heap_rep s st hs → (∀ x, x ∈ hs → st' !! x = st !! x) → heap_rep s st' hs.
Proof.
  intros [Hr Ho] Hst. split.
  - intros h. destruct (Hr h). split; try done.
    + intros x Hx. rewrite Hst by done. auto.
    + intros i x Hx Hi. destruct (rep_slot0 i x Hx Hi) as [Hp Hg]. split; [done|].
      unfold get_idx. rewrite Hst by by eapply list_elem_of_lookup_2. done.
  - eapply ordered_ext; [|exact Ho]. intros i. unfold keys. destruct (hs !! i) as [x|] eqn:E; [|done].
    unfold key. rewrite Hst; [done|by eapply list_elem_of_lookup_2].
Qed.

(** Fields other than the key and the index do not matter. *)
Lemma heap_rep_fields s st st' hs :
  heap_rep s st hs →
  (∀ x e, x ∈ hs → st !! x = Some e → ∃ e', st' !! x = Some e' ∧
    ev_timeout_pos e' = ev_timeout_pos e ∧ ev_timeout e' = ev_timeout e) →
  heap_rep s st' hs.
Proof.
  intros [Hr Ho] Hst. assert (∀ x, x ∈ hs → key st' x = key st x ∧ get_idx st' x = get_idx st x ∧
      is_Some (st' !! x)) as Hall.
  { intros x Hx. destruct (rep_live _ _ _ _ (Hr 0%nat) x Hx) as [e He].
    destruct (Hst x e Hx He) as (e' & He' & Hpos & Htv). unfold key, get_idx.
    rewrite He, He'. cbn. rewrite Hpos, Htv. eauto. }
  split.
  - intros h. destruct (Hr h). split; try done.
    + intros x Hx. by apply Hall.
    + intros i x Hx Hi. destruct (rep_slot0 i x Hx Hi) as [Hp Hg]. split; [done|].
      by rewrite (proj1 (proj2 (Hall x (list_elem_of_lookup_2 _ _ _ Hx)))).
  - eapply ordered_ext; [|exact Ho]. intros i. unfold keys. destruct (hs !! i) as [x|] eqn:E; [|done].
    by apply Hall, (list_elem_of_lookup_2 _ i).
Qed.

Lemma heap_rep_top s st hs :
  heap_rep s st hs → min_heap_top_ s = Some (hs !! 0%nat).
Proof.
  intros Hr. unfold min_heap_top_. rewrite (rep_n _ _ _ _ (proj1 Hr 0%nat)).
  destruct hs as [|x hs]; [done|]. rewrite (proj2 (Z.eqb_neq _ _)) by (cbn; lia).
  destruct (heap_rep_slot _ _ _ 0 x Hr eq_refl) as [E _]. change (Z.of_nat 0) with 0 in E. by rewrite E.
Qed.

Lemma heap_rep_min s st hs x y :
  heap_rep s st hs → hs !! 0%nat = Some x → y ∈ hs → tv_le (key st x) (key st y).
Proof.
  intros [_ Ho] Hx [i Hi]%list_elem_of_lookup.
  rewrite <- (keys_at _ _ _ _ Hx), <- (keys_at _ _ _ _ Hi).
  eapply ordered_root; [done|]. by eapply lookup_lt_Some.
Qed.

Lemma reserve_ok realloc s st hs :
  heap_rep s st hs → Zlen hs + 1 < 2 ^ 31 →
  ∃ r s', min_heap_reserve_ realloc s (uint32 (heap_n s + 1)) = (r, s') ∧
    (r = 0 ∧ heap_rep s' st hs ∧ heap_n s' + 1 <= heap_a s' ∨
     r = -1 ∧ s' = s ∧ heap_a s = heap_n s ∧ ∃ sz, realloc sz = false).
Proof.
  intros [Hr Ho] Hb. destruct (Hr 0%nat) as [Hn Hroom Hsz _ _ _ _].
  unfold min_heap_reserve_. rewrite uint32_id by lia.
  destruct (Z.ltb_spec (heap_a s) (heap_n s + 1)) as [Hlt|Hge].
  2:{ eexists _, _. split; [done|]. left. split_and!; [done|done|lia]. }
  set (a0 := if heap_a s =? 0 then 8 else uint32 (heap_a s * 2)).
  set (a := if a0 <? heap_n s + 1 then heap_n s + 1 else a0).
  assert (heap_n s + 1 <= a) as Ha by (unfold a; destruct (Z.ltb_spec a0 (heap_n s + 1)); lia).
  destruct (realloc (a * 8)) eqn:E; eexists _, _; (split; [done|]).
  - left. split; [done|]. split; [|done]. split; [|done]. intros h. destruct (Hr h).
    split; cbn; try done; [lia|lens|]. intros i x Hx Hi.
    destruct (rep_slot0 i x Hx Hi) as [Hp Hg]. split; [|done]. cbn.
    pose proof (lookup_lt_Some _ _ _ Hx). pose proof (lookup_lt_Some _ _ _ Hp).
    rewrite lookup_resize; [done|lia|done].
  - right. split_and!; [done|done|lia|eauto].
Qed.

Lemma push_ok realloc s st hs e :
  heap_rep s st hs → e ∉ hs → is_Some (st !! e) → Zlen hs + 1 < 2 ^ 31 →
  (∃ s' st' hs', min_heap_push_ realloc s st e = Some (0, s', st') ∧ heap_rep s' st' hs' ∧
     hs' ≡ₚ e :: hs ∧ idx_changed (λ x, x = e ∨ x ∈ hs) st st') ∨
  min_heap_push_ realloc s st e = Some (-1, s, st) ∧ heap_a s = heap_n s ∧ ∃ sz, realloc sz = false.
Proof.
  intros Hr He Hlive Hb. unfold min_heap_push_.
  destruct (reserve_ok realloc s st hs Hr Hb) as (r & s1 & -> & [(-> & [Hr1 Ho] & Hroom)|(-> & -> & ?)]);
    [|by right]. left. cbn [negb Z.eqb].
  pose proof (rep_n _ _ _ _ (Hr1 0%nat)) as Hn1. pose proof (rep_n _ _ _ _ (proj1 Hr 0%nat)) as Hn.
  rewrite Hn1, uint32_id by lia.
  assert (Hs : sifted (heap_a s1) (hs ++ [e]) st
    (shift_up_loop (heap_fuel (with_n (Zlen hs + 1) s1)) (with_n (Zlen hs + 1) s1) st (Z.of_nat (length hs)) e)).
  { apply (shift_up_loop_ok _ (with_n (Zlen hs + 1) s1)).
    - destruct (Hr1 0%nat). split; cbn; rewrite ?length_app; cbn; try lia; try done.
      + apply NoDup_app. split; [done|]. split; [|apply NoDup_singleton].
        intros x Hx ->%list_elem_of_singleton. done.
      + intros x [Hx| ->%list_elem_of_singleton]%elem_of_app; auto.
      + intros i x Hx Hi. pose proof (lookup_lt_Some _ _ _ Hx) as Hlt. rewrite length_app in Hlt. cbn in Hlt.
        rewrite lookup_app_l in Hx by lia. by apply (rep_slot _ _ _ _ (Hr1 (S i))); [|lia].
    - by rewrite lookup_app_r, Nat.sub_diag by done.
    - split.
      + intros i j Hij Hj Hne. rewrite length_app in Hj. cbn in Hj. pose proof (child_lt _ _ Hij).
        unfold keys. rewrite !lookup_app_l by lia. apply Ho; [done|lia].
      + intros i j _ Hj Hlt. rewrite length_app in Hlt. cbn in Hlt. apply child_lt in Hj. lia.
    - unfold heap_fuel. cbn. lia. }
  destruct Hs as (s' & st' & hs' & E & Hr' & Hp & _ & Hc). unfold min_heap_shift_up_. rewrite E.
  exists s', st', hs'. split; [done|]. split; [done|]. split; [by rewrite Hp, Permutation_app_comm|].
  eapply idx_changed_weaken; [exact Hc|]. intros x [?|?%list_elem_of_singleton]%elem_of_app; auto.
Qed.

Lemma insert_perm (hs : list nat) k e l : hs !! k = Some e → e :: <[k := l]> hs ≡ₚ hs ++ [l].
Proof.
  intros Hk. rewrite insert_take_drop by by eapply lookup_lt_Some.
  rewrite <- (take_drop_middle hs k e Hk) at 3. solve_Permutation.
Qed.

(** Taking the last slot away and putting its event [l] at [k]. *)
Lemma drop_last s st hs l k e :
  heap_rep s st (hs ++ [l]) → hs !! k = Some e →
  heap_rep_but k (with_n (Zlen hs) s) st (<[k := l]> hs) ∧
  spot_inv (keys st (<[k := l]> hs)) (length hs) k.
Proof.
  intros [Hr Ho] Hk. pose proof (lookup_lt_Some _ _ _ Hk) as Hlt. split.
  - destruct (Hr (length hs)) as [Hn Hroom Hsz Hb Hnd Hl Hs]. rewrite length_app in Hn, Hb. cbn in Hn, Hb.
    split; rewrite ?length_insert; cbn [heap_n heap_a heap_p with_n]; try lia.
    + rewrite <- (insert_perm hs k e l Hk) in Hnd. by apply NoDup_cons in Hnd as [_ ?].
    + intros x Hx. apply Hl. rewrite <- (insert_perm hs k e l Hk). by right.
    + intros i x Hx Hi. rewrite list_lookup_insert_ne in Hx by done.
      pose proof (lookup_lt_Some _ _ _ Hx). apply (Hs i x); [|lia]. by rewrite lookup_app_l.
  - assert (Hkeys : ∀ i, (i < length hs)%nat → i ≠ k →
      keys st (<[k := l]> hs) i = keys st (hs ++ [l]) i).
    { intros i Hi Hne. unfold keys. by rewrite list_lookup_insert_ne, lookup_app_l by done. }
    split.
    + intros i j Hij Hj Hik Hjk. pose proof (child_lt _ _ Hij). rewrite !Hkeys by (done || lia).
      apply Ho; [done|]. rewrite length_app. lia.
    + intros i j Hik Hkj Hj. pose proof (child_lt _ _ Hik). pose proof (child_lt _ _ Hkj).
      rewrite !Hkeys by lia. etrans; apply Ho; try done; lens.
Qed.

(** Refilling the slot just taken away changes nothing that counts. *)
Lemma refill_past_end s st hs l :
  heap_rep s st (hs ++ [l]) →
  ∃ s' st', refill (with_n (Zlen hs) s) st (Zlen hs) l = Some (s', st') ∧
    heap_rep s' st' hs ∧ heap_a s' = heap_a s ∧ idx_changed (eq l) st st'.
Proof.
  intros [Hr Ho]. destruct (Hr (S (length hs))) as [Hn Hroom Hsz Hb Hnd Hl Hs].
  rewrite length_app in Hn, Hb. cbn in Hn, Hb. remember (length hs) as k eqn:Ek.
  assert (Hlast : (hs ++ [l]) !! k = Some l) by by apply list_lookup_middle.
  set (s1 := with_n (Z.of_nat k) s).
  assert (Hup : (if 0 <? Z.of_nat k then p ← slot s1 (uint32 (Z.quot (Z.of_nat k - 1) 2));
      min_heap_elem_greater st p l else Some false) = Some false).
  { destruct (decide (k = 0%nat)) as [Hk0|Hk0]; [by rewrite Hk0|].
    rewrite (proj2 (Z.ltb_lt _ _)) by lia.
    destruct (parent_of k) as (j & Hjk & Hj); [lia..|]. pose proof (child_lt _ _ Hjk).
    rewrite Z.quot_div_nonneg by lia. rewrite (uint32_id (Z.of_nat k - 1)) in Hj by lia.
    rewrite Hj, (uint32_id (Z.of_nat j)) by lia.
    destruct (lookup_lt_is_Some_2 (hs ++ [l]) j) as [p Hp]; [lens|].
    change (slot s1 (Z.of_nat j)) with (slot s (Z.of_nat j)).
    rewrite (rep_but_slot _ _ _ _ _ _ (Hr (S j)) Hp) by lia. cbn [mbind option_bind].
    rewrite (greater_ok _ _ _ _ _ _ (Hr 0%nat)) by by eapply list_elem_of_lookup_2.
    f_equal. apply timercmp_gt_false. rewrite <- (keys_at _ _ _ _ Hp), <- (keys_at _ _ _ _ Hlast).
    apply Ho; [done|]. rewrite length_app. cbn. lia. }
  unfold refill. rewrite Hup. cbn [mbind option_bind]. unfold min_heap_shift_down_, heap_fuel.
  cbn [shift_down_loop]. rewrite (uint32_id (Z.of_nat k)), (uint32_id (2 * _)) by lia.
  rewrite (proj2 (Z.leb_gt _ _)) by (cbn; lia). unfold place. rewrite set_slot_ok by (cbn; lia).
  cbn [mbind option_bind]. destruct (set_idx_ok st l (Z.of_nat k)) as (st' & -> & Hc & _).
  { apply Hl. rewrite elem_of_app, list_elem_of_singleton. by right. }
  cbn [mbind option_bind]. eexists _, _. split; [done|]. split; [|done].
  assert (Hlhs : l ∉ hs) by (apply NoDup_app in Hnd as (_ & Hd & _); intros Hin; by apply (Hd l Hin), list_elem_of_singleton).
  apply (heap_rep_frame _ st).
  2:{ intros x Hx. apply (idx_changed_other _ _ _ _ Hc). by intros <-. }
  split.
  - intros h. split; cbn; rewrite ?length_insert; try lia.
    + by apply NoDup_app in Hnd as (? & _).
    + intros x Hx. apply Hl. rewrite elem_of_app. by left.
    + intros i x Hx _. pose proof (lookup_lt_Some _ _ _ Hx).
      destruct (Hs i x) as [Hp Hi]; [by rewrite lookup_app_l|lia|]. split; [|done]. cbn.
      rewrite list_lookup_insert_ne by lia. done.
  - intros i j Hij Hj. pose proof (child_lt _ _ Hij).
    specialize (Ho i j Hij). unfold keys in *. rewrite !lookup_app_l, length_app in Ho by lia.
    apply Ho. lia.
Qed.

(** The heap [s'] is [s] without [e]. *)
Definition removed (e : nat) (s s' : min_heap) (st st' : store) (hs : list nat) : Prop :=
  ∃ hs', heap_rep s' st' hs' ∧ e :: hs' ≡ₚ hs ∧ heap_a s' = heap_a s ∧
    idx_changed (.∈ hs) st st' ∧ get_idx st' e = Some (-1).

Lemma removed_finish s s1 st st1 hs hs1 e :
  heap_rep s1 st1 hs1 → e :: hs1 ≡ₚ hs → heap_a s1 = heap_a s → NoDup hs → is_Some (st !! e) →
  idx_changed (.∈ hs) st st1 →
  ∃ st2, set_idx e (-1) st1 = Some st2 ∧ removed e s s1 st st2 hs.
Proof.
  intros Hr Hp Ha Hnd Hl Hc. destruct (set_idx_ok st1 e (-1)) as (st2 & E & Hc2 & Hi).
  { by rewrite (idx_changed_live _ _ _ e Hc). }
  exists st2. split; [done|]. exists hs1. rewrite <- Hp in Hnd. apply NoDup_cons in Hnd as [Hni _].
  split_and!; try done.
  - apply (heap_rep_frame _ st1); [done|]. intros x Hx. apply (idx_changed_other _ _ _ _ Hc2).
    by intros <-.
  - eapply idx_changed_trans; [exact Hc|]. eapply idx_changed_weaken; [exact Hc2|].
    intros x <-. rewrite <- Hp. by left.
Qed.

(** Emptying slot [k] by means of the last one. *)
Lemma take_out s st hs k e :
  heap_rep s st hs → hs !! k = Some e →
  ∃ l s' st', slot (with_n (uint32 (heap_n s - 1)) s) (uint32 (heap_n s - 1)) = Some l ∧
    refill (with_n (uint32 (heap_n s - 1)) s) st (Z.of_nat k) l = Some (s', st') ∧
    ∃ st'', set_idx e (-1) st' = Some st'' ∧ removed e s s' st st'' hs.
Proof.
  intros H Hk. destruct hs as [|l hs _] using rev_ind; [done|]. exists l.
  pose proof (rep_n _ _ _ _ (proj1 H 0%nat)) as Hn. pose proof (rep_bound _ _ _ _ (proj1 H 0%nat)) as Hb.
  rewrite length_app in Hn, Hb. cbn in Hn, Hb. rewrite uint32_id by lia.
  replace (heap_n s - 1) with (Zlen hs) by lia.
  assert (Hl : slot (with_n (Zlen hs) s) (Zlen hs) = Some l).
  { apply (heap_rep_slot s st (hs ++ [l])); [done|]. by apply list_lookup_middle. }
  pose proof (rep_nodup _ _ _ _ (proj1 H 0%nat)) as Hnd.
  assert (Hlive : is_Some (st !! e)) by (eapply (rep_live _ _ _ _ (proj1 H 0%nat)), list_elem_of_lookup_2, Hk).
  destruct (decide (k = length hs)) as [->|Hne].
  - rewrite list_lookup_middle in Hk by done. simplify_eq.
    destruct (refill_past_end s st hs e H) as (s' & st' & E & Hr & Ha & Hc).
    exists s', st'. split; [done|]. split; [done|].
    eapply removed_finish; [exact Hr|by rewrite Permutation_app_comm|done..|].
    eapply idx_changed_weaken; [exact Hc|]. intros x <-. rewrite elem_of_app, list_elem_of_singleton. by right.
  - pose proof (lookup_lt_Some _ _ _ Hk) as Hlt. rewrite length_app in Hlt. cbn in Hlt.
    rewrite lookup_app_l in Hk by lia. destruct (drop_last s st hs l k e H Hk) as [Hr Hs].
    destruct (refill_ok _ _ _ _ l Hr) as (s' & st' & hs' & E & Hr' & Hp & Ha & Hc).
    { apply list_lookup_insert_eq. lia. } { by rewrite length_insert. }
    exists s', st'. split; [done|]. split; [done|].
    eapply removed_finish; [exact Hr'| |done..|].
    + rewrite Hp. by apply insert_perm.
    + eapply idx_changed_weaken; [exact Hc|]. intros x Hx. rewrite <- (insert_perm hs k e l Hk). by right.
Qed.

Lemma erase_ok s st hs e :
  heap_rep s st hs → e ∈ hs →
  ∃ s' st', min_heap_erase_ s st e = Some (0, s', st') ∧ removed e s s' st st' hs.
Proof.
  intros H He. destruct (heap_rep_idx _ _ _ _ H He) as (k & Hk & Hi).
  destruct (take_out s st hs k e H Hk) as (l & s' & st' & E1 & E2 & st'' & E3 & Hrm).
  exists s', st''. unfold min_heap_erase_. rewrite Hi. cbn [mbind option_bind].
  rewrite (proj2 (Z.eqb_neq _ _)) by lia. cbn [negb]. cbn [heap_n with_n] in *. rewrite E1.
  cbn [mbind option_bind]. rewrite E2. cbn [mbind option_bind]. rewrite E3. done.
Qed.

Lemma pop_ok s st hs :
  heap_rep s st hs →
  match hs !! 0%nat with
  | None => min_heap_pop_ s st = Some (None, s, st)
  | Some e => (∀ x, x ∈ hs → tv_le (key st e) (key st x)) ∧
      ∃ s' st', min_heap_pop_ s st = Some (Some e, s', st') ∧ removed e s s' st st' hs
  end.
Proof.
  intros H. unfold min_heap_pop_. rewrite (rep_n _ _ _ _ (proj1 H 0%nat)).
  destruct (hs !! 0%nat) as [e|] eqn:E0.
  2:{ by destruct hs. }
  split; [intros x Hx; by eapply heap_rep_min|].
  pose proof (lookup_lt_Some _ _ _ E0) as Hlt. rewrite (proj2 (Z.eqb_neq _ _)) by lia. cbn [negb].
  destruct (heap_rep_slot _ _ _ 0 e H E0) as [Hs _]. change (Z.of_nat 0) with 0 in Hs. rewrite Hs.
  cbn [mbind option_bind].
  destruct (take_out s st hs 0 e H E0) as (l & s' & st' & E1 & E2 & st'' & E3 & Hrm).
  rewrite <- (rep_n _ _ _ _ (proj1 H 0%nat)). cbn [heap_n with_n]. rewrite E1. cbn [mbind option_bind].
  change (refill ?s1 st (Z.of_nat 0) l) with (min_heap_shift_down_ s1 st 0 l) in E2. rewrite E2. cbn [mbind option_bind]. rewrite E3. eauto.
Qed.

(** After the key of [e] has changed: the heap takes its new order. *)
Lemma adjust_ok realloc s st st' hs e :
  heap_rep s st hs → e ∈ hs → (∀ x, x ≠ e → st' !! x = st !! x) → is_Some (st' !! e) →
  get_idx st' e = get_idx st e →
  ∃ s1 st1 hs1, min_heap_adjust_ realloc s st' e = Some (0, s1, st1) ∧ heap_rep s1 st1 hs1 ∧
    hs1 ≡ₚ hs ∧ heap_a s1 = heap_a s ∧ idx_changed (.∈ hs) st' st1.
Proof.
  intros H He Hst Hl Hi. destruct (heap_rep_idx _ _ _ _ H He) as (k & Hk & Hik).
  unfold min_heap_adjust_. rewrite Hi, Hik. cbn [mbind option_bind].
  rewrite (proj2 (Z.eqb_neq _ _)) by lia. destruct H as [Hr Ho]. pose proof (lookup_lt_Some _ _ _ Hk).
  assert (Hk' : ∀ i, (i < length hs)%nat → i ≠ k → keys st' hs i = keys st hs i).
  { intros i Hlt Hne. unfold keys, key. destruct (lookup_lt_is_Some_2 hs i Hlt) as [x Hx]. rewrite Hx.
    rewrite Hst; [done|]. intros ->. apply Hne. eapply NoDup_lookup; [by destruct (Hr 0%nat)|done|done]. }
  destruct (refill_ok s st' hs k e) as (s1 & st1 & hs1 & E & H1 & Hp & Ha & Hc); [|done| |].
  - destruct (Hr k). split; try done.
    + intros x Hx. destruct (decide (x = e)) as [->|]; [done|]. rewrite Hst by done. auto.
    + intros i x Hx Hne. destruct (rep_slot0 i x Hx Hne) as [Hp Hg]. split; [done|].
      destruct (decide (x = e)) as [->|]; [by rewrite Hi|]. unfold get_idx. rewrite Hst by done. done.
  - split.
    + intros i j Hij Hj ? ?. pose proof (child_lt _ _ Hij). rewrite !Hk' by (done || lia). by apply Ho.
    + intros i j Hik' Hkj Hj. pose proof (child_lt _ _ Hik'). pose proof (child_lt _ _ Hkj).
      rewrite !Hk' by lia. etrans; apply Ho; done || lia.
  - rewrite E. cbn [mbind option_bind]. eauto 10.
Qed.

(** ** The heap as a queue of deadlines *)

Inductive heap_op :=
  | op_set (e : nat) (tv : timeval)     (* e->ev_timeout = tv; min_heap_adjust_(s, e) *)
  | op_erase (e : nat)
  | op_pop
  | op_top.

Inductive heap_answer := code (r : Z) | event_ptr (e : option nat).

Definition heap_step (realloc : Z → bool) (o : heap_op) (s : min_heap) (st : store)
    : option (heap_answer * min_heap * store) :=
  match o with
  | op_set e tv => st ← update_event (with_timeout tv) e st;
      '(r, s, st) ← min_heap_adjust_ realloc s st e; Some (code r, s, st)
  | op_erase e => '(r, s, st) ← min_heap_erase_ s st e; Some (code r, s, st)
  | op_pop => '(e, s, st) ← min_heap_pop_ s st; Some (event_ptr e, s, st)
  | op_top => e ← min_heap_top_ s; Some (event_ptr e, s, st)
  end.

Fixpoint heap_run (realloc : Z → bool) (os : list heap_op) (s : min_heap) (st : store)
    : option (list heap_answer * min_heap * store) :=
  match os with
  | [] => Some ([], s, st)
  | o :: os => '(r, s, st) ← heap_step realloc o s st;
      '(rs, s, st) ← heap_run realloc os s st; Some (r :: rs, s, st)
  end.

(** [e] has the earliest deadline, [None] when there is none. *)
Definition earliest (Q : gmap nat timeval) (e : option nat) : Prop :=
  match e with
  | None => Q = ∅
  | Some e => ∃ t, Q !! e = Some t ∧ ∀ e' t', Q !! e' = Some t' → tv_le t t'
  end.

(** The abstract queue: the pending events and their deadlines.  An event can be refused only when
    the allocator refuses a block. *)
Inductive deadline_step (realloc : Z → bool) :
    heap_op → gmap nat timeval → heap_answer → gmap nat timeval → Prop :=
  | step_set Q e tv : deadline_step realloc (op_set e tv) Q (code 0) (<[e := tv]> Q)
  | step_set_refused Q e tv sz :
      Q !! e = None → realloc sz = false → deadline_step realloc (op_set e tv) Q (code (-1)) Q
  | step_erase Q e t :
      Q !! e = Some t → deadline_step realloc (op_erase e) Q (code 0) (delete e Q)
  | step_erase_none Q e :
      Q !! e = None → deadline_step realloc (op_erase e) Q (code (-1)) Q
  | step_pop Q e :
      earliest Q e →
      deadline_step realloc op_pop Q (event_ptr e) (from_option (λ e, delete e Q) Q e)
  | step_top Q e : earliest Q e → deadline_step realloc op_top Q (event_ptr e) Q.

Inductive deadline_run (realloc : Z → bool) :
    list heap_op → gmap nat timeval → list heap_answer → gmap nat timeval → Prop :=
  | run_nil Q : deadline_run realloc [] Q [] Q
  | run_cons o os Q1 r Q2 rs Q3 :
      deadline_step realloc o Q1 r Q2 → deadline_run realloc os Q2 rs Q3 →
      deadline_run realloc (o :: os) Q1 (r :: rs) Q3.

(** The events an operation names. *)
Definition op_event (o : heap_op) : option nat :=
  match o with op_set e _ | op_erase e => Some e | _ => None end.

(** The heap of some of the events [D] holds the deadlines [Q]; the other events know that they
    are in no heap. *)
Record deadlines (D : list nat) (s : min_heap) (st : store) (Q : gmap nat timeval) : Prop := {
  dl_live : ∀ e, e ∈ D → is_Some (st !! e);
  dl_heap : ∃ hs, heap_rep s st hs ∧ (∀ e, e ∈ hs → e ∈ D) ∧
    (∀ e, e ∈ hs → Q !! e = Some (key st e)) ∧
    (∀ e, e ∉ hs → Q !! e = None) ∧
    ∀ e, e ∈ D → e ∉ hs → get_idx st e = Some (-1)
}.

Lemma deadlines_bound D hs : NoDup hs → (∀ e : nat, e ∈ hs → e ∈ D) → (length hs <= length D)%nat.
Proof. intros Hnd Hs. by apply submseteq_length, NoDup_submseteq. Qed.

Lemma earliest_ok D s st Q hs :
  heap_rep s st hs → (∀ e, e ∈ hs → Q !! e = Some (key st e)) → (∀ e, e ∉ hs → Q !! e = None) →
  deadlines D s st Q → earliest Q (hs !! 0%nat).
Proof.
  intros Hr Hin Hout _. destruct (hs !! 0%nat) as [e|] eqn:E0; cbn.
  - exists (key st e). split; [apply Hin; by eapply list_elem_of_lookup_2|]. intros e' t' He'.
    destruct (decide (e' ∈ hs)) as [Hi|Hi]; [|by rewrite Hout in He'].
    rewrite Hin in He' by done. simplify_eq. by eapply heap_rep_min.
  - destruct hs; [|done]. apply map_empty. intros i. apply Hout. by apply not_elem_of_nil.
Qed.

(** Taking an event out of the heap takes its deadline out of the queue. *)
Lemma removed_deadlines D s s' st st' Q hs e :
  removed e s s' st st' hs → heap_rep s st hs → (∀ e, e ∈ D → is_Some (st !! e)) →
  (∀ e, e ∈ hs → e ∈ D) → (∀ e, e ∈ hs → Q !! e = Some (key st e)) →
  (∀ e, e ∉ hs → Q !! e = None) → (∀ e, e ∈ D → e ∉ hs → get_idx st e = Some (-1)) →
  deadlines D s' st' (delete e Q).
Proof.
  intros (hs' & Hr & Hp & _ & Hc & Hi) [Hr0 _] Hl HD Hin Hout Hidx.
  pose proof (rep_nodup _ _ _ _ (Hr0 0%nat)) as Hnd. rewrite <- Hp in Hnd. apply NoDup_cons in Hnd as [He _].
  split; [intros x Hx; rewrite (idx_changed_live _ _ _ x Hc); auto|]. exists hs'. split; [done|].
  assert (Hsub : ∀ x, x ∈ hs' → x ∈ hs ∧ x ≠ e).
  { intros x Hx. split; [rewrite <- Hp; by right|by intros ->]. }
  split_and!.
  - intros x Hx. apply HD. by apply Hsub.
  - intros x Hx. destruct (Hsub x Hx) as [? ?]. rewrite lookup_delete_ne, Hin by done.
    by rewrite (idx_changed_key _ _ _ Hc).
  - intros x Hx. destruct (decide (x = e)) as [->|]; [by rewrite lookup_delete_eq|].
    rewrite lookup_delete_ne by done. apply Hout. rewrite <- Hp. by intros [|]%elem_of_cons.
  - intros x Hx Hx'. destruct (decide (x = e)) as [->|]; [done|].
    assert (x ∉ hs) by (rewrite <- Hp; by intros [|]%elem_of_cons).
    rewrite (get_idx_other _ _ _ _ Hc) by done. auto.
Qed.

Lemma set_timeout_ok st e tv :
  is_Some (st !! e) →
  ∃ st', update_event (with_timeout tv) e st = Some st' ∧ key st' e = tv ∧
    get_idx st' e = get_idx st e ∧ (∀ x, x ≠ e → st' !! x = st !! x) ∧ is_Some (st' !! e).
Proof.
  intros [ev Hev]. unfold update_event, key, get_idx. rewrite Hev. cbn. eexists. split; [done|].
  rewrite lookup_insert_eq. split_and!; [done|done| |eauto]. intros x Hx. by rewrite lookup_insert_ne.
Qed.

Lemma set_step_ok realloc D s st Q e tv :
  deadlines D s st Q → e ∈ D → Zlen D + 1 < 2 ^ 31 →
  ∃ r s' st' Q', heap_step realloc (op_set e tv) s st = Some (r, s', st') ∧
    deadline_step realloc (op_set e tv) Q r Q' ∧ deadlines D s' st' Q'.
Proof.
  intros [Hl (hs & Hr & HD & Hin & Hout & Hidx)] He Hb.
  pose proof (deadlines_bound D hs (rep_nodup _ _ _ _ (proj1 Hr 0%nat)) HD) as Hlen.
  destruct (set_timeout_ok st e tv (Hl e He)) as (st0 & E0 & Hk & Hi & Hst & Hl0).
  cbn [heap_step]. rewrite E0. cbn [mbind option_bind].
  assert (Hl' : ∀ x, x ∈ D → is_Some (st0 !! x)).
  { intros x Hx. destruct (decide (x = e)) as [->|]; [done|]. rewrite Hst by done. auto. }
  assert (Hkey : ∀ x, x ≠ e → key st0 x = key st x).
  { intros x Hx. unfold key. by rewrite Hst. }
  destruct (decide (e ∈ hs)) as [Hehs|Hehs].
  - destruct (adjust_ok realloc s st st0 hs e Hr Hehs Hst Hl0 Hi) as (s1 & st1 & hs1 & -> & Hr1 & Hp & _ & Hc).
    cbn [mbind option_bind]. eexists _, _, _, _. split; [done|]. split; [apply step_set|].
    split; [intros x Hx; rewrite (idx_changed_live _ _ _ x Hc); auto|]. exists hs1. split; [done|].
    assert (Hmem : ∀ x, x ∈ hs1 ↔ x ∈ hs) by (intros x; by rewrite Hp). split_and!.
    + intros x Hx. apply HD. by apply Hmem.
    + intros x Hx. rewrite (idx_changed_key _ _ _ Hc). destruct (decide (x = e)) as [->|].
      * by rewrite lookup_insert_eq, Hk.
      * rewrite lookup_insert_ne, Hkey by done. by apply Hin, Hmem.
    + intros x Hx. rewrite Hmem in Hx. rewrite lookup_insert_ne; [auto|]. by intros ->.
    + intros x Hx Hx'. rewrite Hmem in Hx'. rewrite (get_idx_other _ _ _ _ Hc) by done.
      assert (x ≠ e) by (by intros ->). unfold get_idx. rewrite Hst by done. by apply Hidx.
  - assert (Hr0 : heap_rep s st0 hs).
    { apply (heap_rep_frame _ st); [done|]. intros x Hx. apply Hst. by intros ->. }
    unfold min_heap_adjust_. rewrite Hi, (Hidx e He Hehs). cbn [mbind option_bind Z.eqb].
    assert (∀ x, x ∈ D → x ≠ e → x ∉ hs → get_idx st0 x = Some (-1)) as Hidx0.
    { intros x Hx Hne Hni. unfold get_idx. rewrite Hst by done. by apply Hidx. }
    destruct (push_ok realloc s st0 hs e Hr0 Hehs Hl0) as [(s1 & st1 & hs1 & -> & Hr1 & Hp & Hc)|(-> & _ & sz & Hsz)]; [lia|..];
      cbn [mbind option_bind].
    + eexists _, _, _, _. split; [done|]. split; [apply step_set|].
      split; [intros x Hx; rewrite (idx_changed_live _ _ _ x Hc); auto|]. exists hs1. split; [done|].
      assert (Hmem : ∀ x, x ∈ hs1 ↔ x = e ∨ x ∈ hs) by (intros x; by rewrite Hp, elem_of_cons). split_and!.
      * intros x Hx. apply Hmem in Hx as [->|Hx]; auto.
      * intros x Hx. apply Hmem in Hx as [->|Hx]; rewrite (idx_changed_key _ _ _ Hc); [by rewrite lookup_insert_eq, Hk|].
        assert (x ≠ e) by (by intros ->). rewrite lookup_insert_ne, Hkey by done. auto.
      * intros x Hx. rewrite Hmem in Hx. apply Decidable.not_or in Hx as [? ?]. rewrite lookup_insert_ne; auto.
      * intros x Hx Hx'. rewrite (get_idx_other _ _ _ _ Hc) by by rewrite <- Hmem.
        rewrite Hmem in Hx'. apply Decidable.not_or in Hx' as [? ?]. auto.
    + eexists _, _, _, _. split; [done|]. split; [apply (step_set_refused _ Q e tv sz); [auto|done]|].
      split; [done|]. exists hs. split_and!; [done..| |done|].
      * intros x Hx. rewrite Hkey; [auto|]. by intros ->.
      * intros x Hx Hx'. destruct (decide (x = e)) as [->|]; [|by apply Hidx0].
        rewrite Hi. by apply Hidx.
Qed.

Lemma heap_step_ok realloc D o s st Q :
  deadlines D s st Q → (∀ e, op_event o = Some e → e ∈ D) → Zlen D + 1 < 2 ^ 31 →
  ∃ r s' st' Q', heap_step realloc o s st = Some (r, s', st') ∧
    deadline_step realloc o Q r Q' ∧ deadlines D s' st' Q'.
Proof.
  intros Hd Ho Hb. destruct o as [e tv|e| |]; [apply set_step_ok; auto| ..];
    destruct Hd as [Hl (hs & Hr & HD & Hin & Hout & Hidx)] eqn:Ed; clear Ed; cbn [heap_step].
  - specialize (Ho e eq_refl). destruct (decide (e ∈ hs)) as [He|He].
    + destruct (erase_ok s st hs e Hr He) as (s' & st' & -> & Hrm). cbn [mbind option_bind].
      eexists _, _, _, _. split; [done|]. split; [by eapply step_erase, Hin|]. by eapply removed_deadlines.
    + unfold min_heap_erase_. rewrite (Hidx e) by done. cbn [mbind option_bind Z.eqb negb].
      eexists _, _, _, _. split; [done|]. split; [by apply step_erase_none, Hout|]. by split; eauto 10.
  - assert (Hd' : deadlines D s st Q) by (split; eauto 10).
    pose proof (earliest_ok _ _ _ _ _ Hr Hin Hout Hd') as He. pose proof (pop_ok s st hs Hr) as Hp.
    destruct (hs !! 0%nat) as [e|].
    + destruct Hp as (_ & s' & st' & -> & Hrm). cbn [mbind option_bind].
      eexists _, _, _, _. split; [done|]. split; [by apply (step_pop _ Q (Some e))|]. by eapply removed_deadlines.
    + rewrite Hp. cbn [mbind option_bind]. eexists _, _, _, _. split; [done|].
      split; [by apply (step_pop _ Q None)|]. done.
  - assert (Hd' : deadlines D s st Q) by (split; eauto 10).
    rewrite (heap_rep_top s st hs Hr). cbn [mbind option_bind]. eexists _, _, _, _. split; [done|].
    split; [apply step_top; by eapply earliest_ok|]. done.
Qed.

(** C14. The timer heap implements a queue of deadlines: every sequence of schedulings, reschedulings,
    cancellations and removals of the earliest event runs without leaving the array and ends its
    loops; the answers are those of a queue that knows the deadlines of the pending events alone,
    popping an event that no other precedes.  An event is refused only where the allocator refuses
    a block. *)
Theorem heap_refines_deadlines realloc D os s st Q
  (Hd : deadlines D s st Q)
  (Ho : ∀ o e, o ∈ os → op_event o = Some e → e ∈ D)
  (Hb : Zlen D + 1 < 2 ^ 31) :
  ∃ rs s' st' Q', heap_run realloc os s st = Some (rs, s', st') ∧
    deadline_run realloc os Q rs Q' ∧ deadlines D s' st' Q'.
Proof.
  revert s st Q Hd. induction os as [|o os IH]; intros s st Q Hd; cbn [heap_run].
  { eexists _, _, _, _. split; [done|]. split; [constructor|done]. }
  destruct (heap_step_ok realloc D o s st Q Hd) as (r & s1 & st1 & Q1 & -> & Hs & Hd1); [|done|].
  { intros e. apply Ho. by left. }
  cbn [mbind option_bind]. destruct (IH ltac:(intros; eapply Ho; [by right|done]) s1 st1 Q1 Hd1)
    as (rs & s2 & st2 & Q2 & -> & Hrun & Hd2).
  cbn [mbind option_bind]. eexists _, _, _, _. split; [done|]. split; [by econstructor|done].
Qed.

Lemma heap_rep_ctor st : heap_rep min_heap_ctor_ st [].
Proof.
  split; [|intros i j _ Hj; cbn in Hj; lia]. intros h. split; cbn; try done.
  - apply NoDup_nil_2.
  - intros x Hx%not_elem_of_nil. done.
Qed.

Lemma deadlines_ctor D st :
  (∀ e, e ∈ D → get_idx st e = Some (-1)) → deadlines D min_heap_ctor_ st ∅.
Proof.
  intros Hi. split.
  - intros e He. specialize (Hi e He). unfold get_idx in Hi. destruct (st !! e); [eauto|done].
  - exists []. split; [apply heap_rep_ctor|]. split_and!;
      [by intros e He%not_elem_of_nil|by intros e He%not_elem_of_nil|done|auto].
Qed.

(** An initialised timer. *)
Definition timer : event :=
  Event (Event_callback EVLIST_INIT 0 EV_CLOSURE_EVENT (user_cb 0) 0) (min_heap_idx (-1)) (-1) true
    (ev_signal 0 None) 0 0 evutil_timerclear.

Definition three_timers : store := <[1%nat := timer]> (<[2%nat := timer]> (<[3%nat := timer]> ∅)).

Lemma heap_refines_deadlines_witness :
  let os := [op_set 1 (Timeval 5 0); op_set 2 (Timeval 4 999999); op_set 3 (Timeval 9 1); op_top;
             op_set 3 (Timeval 0 7); op_pop; op_erase 1; op_erase 1; op_pop; op_pop] in
  (∃ s st, heap_run (λ _, true) os min_heap_ctor_ three_timers =
     Some ([code 0; code 0; code 0; event_ptr (Some 2%nat); code 0; event_ptr (Some 3%nat); code 0;
            code (-1); event_ptr (Some 2%nat); event_ptr None], s, st)) ∧
  ∃ rs s st Q, heap_run (λ _, true) os min_heap_ctor_ three_timers = Some (rs, s, st) ∧
    deadline_run (λ _, true) os ∅ rs Q ∧ deadlines [1; 2; 3]%nat s st Q.
Proof.
  intros os. split; [vm_compute; eauto|].
  apply (heap_refines_deadlines (λ _, true) [1; 2; 3]%nat os min_heap_ctor_ three_timers ∅).
  - apply deadlines_ctor. intros e He. repeat (apply elem_of_cons in He as [->|He]; [done|]).
    by apply not_elem_of_nil in He.
  - intros o e Ho. repeat (apply elem_of_cons in Ho as [->|Ho]; [intros [= <-] || (intros; done); set_solver|]).
    by apply not_elem_of_nil in Ho.
  - done.
Defined.
