(* ===== verification/EvMap.v ===== *)
(** * Events by descriptor and by signal

    Models the maps of libevent/evmap.c from descriptors and from signal numbers to the events that
    wait for them, with the calls of the backend (evsel->add, evsel->del) that keep the set of
    conditions watched on each descriptor up to date.

    A map is the array of entries, [None] for NULL.  An event list is the list of the events, the
    first one first; the links are in the events themselves, so removing an event that is not on
    the list of its entry is undefined behaviour.  The backend is one of several files chosen at
    run time through function pointers: it is a parameter that answers, for the calls made before
    (newest first) and for the new call, whether the call succeeds.  So is the allocator, for the
    number and the size of the request. *)

From S2P Require Import Prelude Timeval Event.

(** ** The model *)

(** struct evmap_io, struct evmap_signal *)
Record evmap_io := Evmap_io { io_events : list nat; nread : Z; nwrite : Z; nclose : Z }.
Record evmap_signal := Evmap_signal { sig_events : list nat }.

Inductive backend_call :=
  | evsel_add (fd old events : Z)
  | evsel_del (fd old events : Z)
  | evsigsel_add (sig : Z)
  | evsigsel_del (sig : Z).

Abbreviation history := (list (backend_call * bool)).

(** The members io and sigmap of struct event_base, with what has been asked of the backend and of
    the allocator. *)
Record evmaps := Evmaps {
  io : list (option evmap_io);
  sigmap : list (option evmap_signal);
  calls : history;
  allocs : nat
}.

Definition evmap_io_init : evmap_io := Evmap_io [] 0 0 0.
Definition evmap_signal_init : evmap_signal := Evmap_signal [].

Definition with_io (l : list (option evmap_io)) (m : evmaps) : evmaps :=
  Evmaps l (sigmap m) (calls m) (allocs m).
Definition with_sigmap (l : list (option evmap_signal)) (m : evmaps) : evmaps :=
  Evmaps (io m) l (calls m) (allocs m).
Definition with_allocs (k : nat) (m : evmaps) : evmaps :=
  Evmaps (io m) (sigmap m) (calls m) k.

(** [if (b) z |= bit] *)
Definition set_if (b : bool) (bit z : Z) : Z := if b then Z.lor z bit else z.

(** The conditions with a counter that satisfies [p]. *)
Definition conditions (p : Z → Z → bool) (r w c : Z) : Z :=
  set_if (p EV_CLOSED c) EV_CLOSED (set_if (p EV_WRITE w) EV_WRITE (set_if (p EV_READ r) EV_READ 0)).

(** [while (nentries <= slot) nentries <<= 1;] in [int]s *)
Fixpoint grow_entries (fuel : nat) (nentries slot : Z) : option Z :=
  match fuel with
  | O => None
  | S fuel =>
      if nentries <=? slot then n ← int_chk (nentries * 2); grow_entries fuel n slot
      else Some nentries
  end.

Section evmap.
Context (mm : nat → Z → bool) (backend : history → backend_call → bool) (fdinfo_len : Z).

(** A call of the backend: its outcome is recorded. *)
Definition call_backend (c : backend_call) (m : evmaps) : bool * evmaps :=
  let ok := backend (calls m) c in
  (ok, Evmaps (io m) (sigmap m) ((c, ok) :: calls m) (allocs m)).

(** The entries after the growth, [None] when the memory is refused. *)
Definition evmap_make_space {A} (map : list (option A)) (slot msize : Z) (k : nat)
    : option (option (list (option A)) * nat) :=
  if Zlen map <=? slot then
    n ← grow_entries 32 (if Zlen map =? 0 then 32 else Zlen map) slot;
    if mm k (n * msize) then Some (Some (resize (Z.to_nat n) None map), S k)
    else Some (None, S k)
  else Some (Some map, k).

(** GET_SIGNAL_SLOT_AND_CTOR: the entry for [slot], made when it is not there; [size] is that of the
    new entry.  The first [None] is an index outside of the array. *)
Definition get_slot_and_ctor {A} (map : list (option A)) (slot size : Z) (ctor : A) (k : nat)
    : option (option (A * list (option A)) * nat) :=
  if slot <? 0 then None else
  e ← map !! Z.to_nat slot;
  match e with
  | Some a => Some (Some (a, map), k)
  | None => if mm k size then Some (Some (ctor, <[Z.to_nat slot := Some ctor]> map), S k)
            else Some (None, S k)
  end.

(** GET_SIGNAL_SLOT *)
Definition get_slot {A} (map : list (option A)) (slot : Z) : option (option A) :=
  if slot <? 0 then None else map !! Z.to_nat slot.

(** The size of a pointer, and of a struct evmap_io with the backend's fdinfo. *)
Definition msize : Z := 8.
Definition io_size : Z := 16 + fdinfo_len.

Definition set_io (fd : Z) (c : evmap_io) (m : evmaps) : evmaps :=
  with_io (<[Z.to_nat fd := Some c]> (io m)) m.
Definition set_signal (sig : Z) (c : evmap_signal) (m : evmaps) : evmaps :=
  with_sigmap (<[Z.to_nat sig := Some c]> (sigmap m)) m.

(** evmap_io_add_ from the entry [ctx] on. *)
Definition io_add_ctx (fd : Z) (x : nat) (ev : event) (ctx : evmap_io) (m : evmaps) : Z * evmaps :=
  let count bit n := if has bit (ev_events ev) then n + 1 else n in
  let r := count EV_READ (nread ctx) in
  let w := count EV_WRITE (nwrite ctx) in
  let c := count EV_CLOSED (nclose ctx) in
  let old := conditions (λ _ n, negb (n =? 0)) (nread ctx) (nwrite ctx) (nclose ctx) in
  let res := conditions (λ bit n, has bit (ev_events ev) && (n =? 1)) r w c in
  if (0xffff <? r) || (0xffff <? w) || (0xffff <? c) then (-1, m)
  else
    let done m retval := (retval, set_io fd (Evmap_io (x :: io_events ctx) r w c) m) in
    if negb (res =? 0) then
      let '(ok, m) := call_backend (evsel_add (ev_fd ev) old (Z.lor (Z.land (ev_events ev) EV_ET) res)) m in
      if ok : bool then done m 1 else (-1, m)
    else done m 0.

Definition evmap_io_add_ (st : store) (fd : Z) (x : nat) (m : evmaps) : option (Z * evmaps) :=
  ev ← st !! x;
  if negb (fd =? ev_fd ev) then None (* assertion *)
  else if fd <? 0 then Some (0, m)
  else
    '(io', k) ← evmap_make_space (io m) fd msize (allocs m);
    match io' with
    | None => Some (-1, with_allocs k m)
    | Some io' =>
        '(c, k) ← get_slot_and_ctor io' fd io_size evmap_io_init k;
        match c with
        | None => Some (-1, with_allocs k (with_io io' m))
        | Some (ctx, io') => Some (io_add_ctx fd x ev ctx (with_allocs k (with_io io' m)))
        end
    end.

Definition evmap_io_del_ (st : store) (fd : Z) (x : nat) (m : evmaps) : option (Z * evmaps) :=
  ev ← st !! x;
  if fd <? 0 then Some (0, m)
  else if negb (fd =? ev_fd ev) then None
  else if Zlen (io m) <=? fd then Some (-1, m)
  else
    ctx ← get_slot (io m) fd;
    ctx ← ctx;
    let count bit n := if has bit (ev_events ev) then n - 1 else n in
    let r := count EV_READ (nread ctx) in
    let w := count EV_WRITE (nwrite ctx) in
    let c := count EV_CLOSED (nclose ctx) in
    if (r <? 0) || (w <? 0) || (c <? 0) then None (* assertions *)
    else
    let old := conditions (λ _ n, negb (n =? 0)) (nread ctx) (nwrite ctx) (nclose ctx) in
    let res := conditions (λ bit n, has bit (ev_events ev) && (n =? 0)) r w c in
    let '(retval, m) :=
      (if negb (res =? 0) then
         let '(ok, m) := call_backend (evsel_del (ev_fd ev) old res) m in
         (if ok : bool then 1 else -1, m)
       else (0, m)) in
    l ← unlink x (io_events ctx);
    Some (retval, set_io fd (Evmap_io l r w c) m).

Definition evmap_signal_add_ (st : store) (sig : Z) (x : nat) (m : evmaps) : option (Z * evmaps) :=
  ev ← st !! x;
  '(map, k) ← (if Zlen (sigmap m) <=? sig then evmap_make_space (sigmap m) sig msize (allocs m)
               else Some (Some (sigmap m), allocs m));
  match map with
  | None => Some (-1, with_allocs k m)
  | Some map =>
      '(c, k) ← get_slot_and_ctor map sig msize evmap_signal_init k;
      match c with
      | None => Some (-1, with_allocs k (with_sigmap map m))
      | Some (ctx, map) =>
          let m := with_allocs k (with_sigmap map m) in
          let '(ok, m) :=
            match sig_events ctx with
            | [] => call_backend (evsigsel_add (ev_fd ev)) m
            | _ => (true, m)
            end in
          if ok : bool then Some (1, set_signal sig (Evmap_signal (x :: sig_events ctx)) m)
          else Some (-1, m)
      end
  end.

Definition evmap_signal_del_ (st : store) (sig : Z) (x : nat) (m : evmaps) : option (Z * evmaps) :=
  ev ← st !! x;
  if Zlen (sigmap m) <=? sig then Some (-1, m)
  else
    ctx ← get_slot (sigmap m) sig;
    ctx ← ctx;
    l ← unlink x (sig_events ctx);
    let m := set_signal sig (Evmap_signal l) m in
    match l with
    | [] => let '(ok, m) := call_backend (evsigsel_del (ev_fd ev)) m in
            Some (if ok : bool then 1 else -1, m)
    | _ => Some (1, m)
    end.

(** The checks of evmap_check_integrity_ on one entry. *)
Definition events_checked (st : store) (l : list nat) (p : event → bool) : bool :=
  forallb (λ x, match st !! x with Some ev => p ev | None => false end) l.

Definition count_events (st : store) (bit : Z) (l : list nat) : Z :=
  Zlen (filter (λ x, has bit (from_option ev_events 0 (st !! x)) = true) l).

Definition evmap_io_check_integrity_fn (st : store) (fd : Z) (ctx : evmap_io) : bool :=
  events_checked st (io_events ctx) (λ ev,
    has EVLIST_INSERTED (ev_flags ev) && (ev_fd ev =? fd) && negb (has EV_SIGNAL (ev_events ev)) &&
    has (Z.lor EV_READ (Z.lor EV_WRITE EV_CLOSED)) (ev_events ev)) &&
  (count_events st EV_READ (io_events ctx) =? nread ctx) &&
  (count_events st EV_WRITE (io_events ctx) =? nwrite ctx) &&
  (count_events st EV_CLOSED (io_events ctx) =? nclose ctx).

Definition evmap_signal_check_integrity_fn (st : store) (sig : Z) (ctx : evmap_signal) : bool :=
  events_checked st (sig_events ctx) (λ ev,
    has EVLIST_INSERTED (ev_flags ev) && (ev_fd ev =? sig) && has EV_SIGNAL (ev_events ev) &&
    negb (has (Z.lor EV_READ (Z.lor EV_WRITE EV_CLOSED)) (ev_events ev))).

(** evmap_io_foreach_fd and evmap_signal_foreach_signal with a check. *)
Definition foreach_entry {A} (f : Z → A → bool) (map : list (option A)) : bool :=
  forallb id (imap (λ i e, match e with Some a => f (Z.of_nat i) a | None => true end) map).

Definition evmap_check_integrity_ (st : store) (m : evmaps) : bool :=
  foreach_entry (evmap_io_check_integrity_fn st) (io m) &&
  foreach_entry (evmap_signal_check_integrity_fn st) (sigmap m).

End evmap.

(** ** What the maps keep *)

Definition events_of (st : store) (x : nat) : Z := from_option ev_events 0 (st !! x).

(** The conditions one can wait for on a descriptor. *)
Definition condition (bit : Z) : Prop := bit = EV_READ ∨ bit = EV_WRITE ∨ bit = EV_CLOSED.

Definition counter (ctx : evmap_io) (bit : Z) : Z :=
  if bit =? EV_READ then nread ctx else if bit =? EV_WRITE then nwrite ctx else nclose ctx.

Definition io_entry (m : evmaps) (fd : Z) : option evmap_io := mjoin (io m !! Z.to_nat fd).
Definition sig_entry (m : evmaps) (sig : Z) : option evmap_signal := mjoin (sigmap m !! Z.to_nat sig).

Definition on_fd (m : evmaps) (fd : Z) (x : nat) : Prop :=
  0 <= fd ∧ ∃ ctx, io_entry m fd = Some ctx ∧ x ∈ io_events ctx.
Definition on_signal (m : evmaps) (sig : Z) (x : nat) : Prop :=
  0 <= sig ∧ ∃ ctx, sig_entry m sig = Some ctx ∧ x ∈ sig_events ctx.

(** Is [bit] watched on [fd], from the calls that the backend has accepted? *)
Fixpoint watched (h : history) (fd bit : Z) : bool :=
  match h with
  | (evsel_add fd' _ evs, true) :: h => (fd =? fd') && has bit evs || watched h fd bit
  | (evsel_del fd' _ evs, true) :: h => negb ((fd =? fd') && has bit evs) && watched h fd bit
  | _ :: h => watched h fd bit
  | [] => false
  end.

(** The backend has refused to stop watching something. *)
Definition del_failed (h : history) : Prop := ∃ fd old evs, (evsel_del fd old evs, false) ∈ h.

(** What the entries say is watched: the additions that were accepted less all deletions. *)
Fixpoint recorded (h : history) (fd bit : Z) : bool :=
  match h with
  | (evsel_add fd' _ evs, true) :: h => (fd =? fd') && has bit evs || recorded h fd bit
  | (evsel_del fd' _ evs, _) :: h => negb ((fd =? fd') && has bit evs) && recorded h fd bit
  | _ :: h => recorded h fd bit
  | [] => false
  end.
Definition recorded_events (h : history) (fd : Z) : Z := conditions (λ bit _, recorded h fd bit) 0 0 0.

(** The backend is told what was watched before, and to stop watching only that. *)
Definition call_coherent (h : history) (c : backend_call) : Prop :=
  match c with
  | evsel_add fd old evs => 0 <= fd ∧ old = recorded_events h fd ∧ has EV_SIGNAL evs = false ∧
      ∃ bit, condition bit ∧ has bit evs = true
  | evsel_del fd old evs => 0 <= fd ∧ old = recorded_events h fd ∧ has EV_SIGNAL evs = false ∧
      (∃ bit, condition bit ∧ has bit evs = true) ∧ ∀ bit, condition bit → has bit evs = true → recorded h fd bit = true
  | _ => True
  end.
Fixpoint coherent (h : history) : Prop :=
  match h with [] => True | (c, _) :: h => call_coherent h c ∧ coherent h end.

Record io_entry_ok (st : store) (fd : Z) (ctx : evmap_io) : Prop := {
  ioe_nodup : NoDup (io_events ctx);
  ioe_fd : ∀ x, x ∈ io_events ctx → ∃ ev, st !! x = Some ev ∧ ev_fd ev = fd;
  ioe_count : ∀ bit, condition bit → counter ctx bit = count_events st bit (io_events ctx);
  ioe_bound : ∀ bit, condition bit → counter ctx bit <= 0xffff
}.

Record sig_entry_ok (st : store) (sig : Z) (ctx : evmap_signal) : Prop := {
  sige_nodup : NoDup (sig_events ctx);
  sige_fd : ∀ x, x ∈ sig_events ctx → ∃ ev, st !! x = Some ev ∧ ev_fd ev = sig
}.

(** The number of the events that wait for [bit] on [fd]. *)
Definition waiting (m : evmaps) (fd bit : Z) : Z :=
  match io_entry m fd with Some ctx => counter ctx bit | None => 0 end.

Definition history_ok (m : evmaps) : Prop :=
  coherent (calls m) ∧ ∀ fd bit, 0 <= fd → condition bit → recorded (calls m) fd bit = (0 <? waiting m fd bit).

Record evmap_ok (st : store) (m : evmaps) : Prop := {
  em_io : ∀ fd ctx, 0 <= fd → io_entry m fd = Some ctx → io_entry_ok st fd ctx;
  em_sig : ∀ sig ctx, 0 <= sig → sig_entry m sig = Some ctx → sig_entry_ok st sig ctx;
  em_watch : ∀ fd bit, 0 <= fd → condition bit →
    (0 < waiting m fd bit → watched (calls m) fd bit = true) ∧
    (¬ del_failed (calls m) → watched (calls m) fd bit = true → 0 < waiting m fd bit);
  em_history : history_ok m
}.

(** ** Bits *)

Lemma has_lor b a c : (∃ k, 0 <= k ∧ b = 2 ^ k) → has b (Z.lor a c) = has b a || has b c.
Proof. intros (k & Hk & ->). by rewrite !has_testbit, Z.lor_spec. Qed.

Lemma condition_pow bit : condition bit → ∃ k, 0 <= k ∧ bit = 2 ^ k.
Proof. intros [-> |[-> | ->]]; [by exists 1|by exists 2|by exists 7]. Qed.

Lemma has_et bit evs : condition bit → has bit (Z.land evs EV_ET) = false.
Proof.
  intros [-> |[-> | ->]].
  - change EV_READ with (2 ^ 1). rewrite has_testbit, Z.land_spec, andb_false_r; done.
  - change EV_WRITE with (2 ^ 2). rewrite has_testbit, Z.land_spec, andb_false_r; done.
  - change EV_CLOSED with (2 ^ 7). rewrite has_testbit, Z.land_spec, andb_false_r; done.
Qed.

Lemma has_conditions p r w c bit :
  condition bit →
  has bit (conditions p r w c) =
    p bit (if bit =? EV_READ then r else if bit =? EV_WRITE then w else c).
Proof.
  unfold conditions, set_if. intros [-> |[-> | ->]]; cbn [Z.eqb EV_READ EV_WRITE EV_CLOSED Pos.eqb];
    destruct (p _ r), (p _ w), (p _ c); done.
Qed.

Lemma no_signal_conditions p r w c : has EV_SIGNAL (conditions p r w c) = false.
Proof. unfold conditions, set_if. by destruct (p EV_READ r), (p EV_WRITE w), (p EV_CLOSED c). Qed.

Lemma no_signal_et evs : has EV_SIGNAL (Z.land evs EV_ET) = false.
Proof. change EV_SIGNAL with (2 ^ 3). rewrite has_testbit, Z.land_spec, andb_false_r; done. Qed.

Lemma conditions_zero p r w c :
  conditions p r w c = 0 → p EV_READ r = false ∧ p EV_WRITE w = false ∧ p EV_CLOSED c = false.
Proof.
  unfold conditions, set_if. by destruct (p EV_READ r), (p EV_WRITE w), (p EV_CLOSED c).
Qed.

Lemma conditions_nonzero p r w c :
  conditions p r w c ≠ 0 → ∃ bit, condition bit ∧ has bit (conditions p r w c) = true.
Proof.
  intros H. destruct (p EV_READ r) eqn:E1; [exists EV_READ; rewrite has_conditions by (by left); by split; [left|]|].
  destruct (p EV_WRITE w) eqn:E2; [exists EV_WRITE; rewrite has_conditions by (right; by left); by split; [right; left|]|].
  destruct (p EV_CLOSED c) eqn:E3; [exists EV_CLOSED; rewrite has_conditions by (right; by right); by split; [right; right|]|].
  destruct H. unfold conditions. by rewrite E1, E2, E3.
Qed.

(** ** Counting *)

Lemma count_events_cons st bit x l :
  count_events st bit (x :: l) = Z.b2z (has bit (events_of st x)) + count_events st bit l.
Proof.
  unfold count_events, events_of. rewrite filter_cons. case_decide as H.
  - rewrite H. cbn [length]. cbn. lia.
  - apply not_true_is_false in H. rewrite H. cbn. lia.
Qed.

Lemma count_events_perm st bit l l' : l ≡ₚ l' → count_events st bit l = count_events st bit l'.
Proof. intros H. unfold count_events. by rewrite H. Qed.

Lemma count_events_nonneg st bit l : 0 <= count_events st bit l.
Proof. unfold count_events. lia. Qed.

Lemma count_events_ext st st' bit l :
  (∀ x, x ∈ l → events_of st' x = events_of st x) → count_events st' bit l = count_events st bit l.
Proof.
  induction l as [|x l IH]; intros H; [done|].
  rewrite !count_events_cons, IH, (H x); [done|by left|]. intros y Hy. apply H. by right.
Qed.

(** ** Entries *)

Lemma slot_lookup {A} (l : list (option A)) (i : Z) (a : A) (j : Z) :
  0 <= i < Zlen l → 0 <= j →
  mjoin (<[Z.to_nat i := Some a]> l !! Z.to_nat j) = if decide (j = i) then Some a else mjoin (l !! Z.to_nat j).
Proof.
  intros Hi Hj. case_decide as H; [subst|].
  - rewrite list_lookup_insert_eq by lia. done.
  - rewrite list_lookup_insert_ne by lia. done.
Qed.

Lemma resize_entry {A} (l : list (option A)) (n : nat) (j : nat) :
  (length l <= n)%nat → mjoin (resize n None l !! j) = mjoin (l !! j).
Proof.
  intros Hn. destruct (decide (j < length l)%nat).
  - rewrite lookup_resize by lia. done.
  - rewrite (lookup_ge_None_2 l j) by lia. destruct (decide (j < n)%nat).
    + rewrite lookup_resize_new by lia. done.
    + rewrite lookup_resize_old by lia. done.
Qed.

Lemma grow_entries_ok fuel n slot :
  0 < n → slot < n * 2 ^ Z.of_nat fuel → slot < 2 ^ 30 →
  ∃ n', grow_entries (S fuel) n slot = Some n' ∧ n <= n' ∧ slot < n'.
Proof.
  revert n. induction fuel as [|fuel IH]; intros n Hn Hf Hs.
  - change (2 ^ Z.of_nat 0) with 1 in Hf. cbn [grow_entries].
    rewrite (proj2 (Z.leb_gt _ _)) by lia. eauto with lia.
  - change (grow_entries (S (S fuel)) n slot) with
      (if n <=? slot then n' ← int_chk (n * 2); grow_entries (S fuel) n' slot else Some n).
    destruct (Z.leb_spec n slot) as [Hle|Hlt]; [|eauto with lia].
    rewrite int_chk_Some by (unfold INT_MIN, INT_MAX; lia). cbn [mbind option_bind].
    rewrite Nat2Z.inj_succ, Z.pow_succ_r in Hf by lia.
    destruct (IH (n * 2)) as (n' & -> & ? & ?); [lia..|]. eauto with lia.
Qed.

(** Doubling beyond 2^30 entries overflows. *)
Lemma grow_entries_overflow : grow_entries 32 32 (2 ^ 30) = None.
Proof. reflexivity. Qed.

Lemma make_space_ok {A} mm (map : list (option A)) slot k :
  0 <= slot < 2 ^ 30 →
  ∃ r k', evmap_make_space mm map slot msize k = Some (r, k') ∧
    match r with
    | None => (∃ sz, mm k sz = false)
    | Some map' => slot < Zlen map' ∧ ∀ j, mjoin (map' !! j) = mjoin (map !! j)
    end.
Proof.
  intros Hs. unfold evmap_make_space. destruct (Z.leb_spec (Zlen map) slot) as [Hle|Hlt].
  2:{ eexists _, _. split; [done|]. done. }
  set (n0 := if Zlen map =? 0 then 32 else Zlen map).
  assert (0 < n0 ∧ Zlen map <= n0) as [Hn0 Hn1]
    by (unfold n0; destruct (Z.eqb_spec (Zlen map) 0); lia).
  destruct (grow_entries_ok 31 n0 slot) as (n & -> & ? & ?); [done|change (2 ^ Z.of_nat 31) with (2 ^ 31); nia|lia|].
  cbn [mbind option_bind]. destruct (mm k (n * msize)) eqn:E; eexists _, _; (split; [done|]).
  - split; [lens|]. intros j. apply resize_entry. lia.
  - by exists (n * msize).
Qed.

Lemma get_slot_ctor_ok {A} mm (map : list (option A)) slot size ctor k :
  0 <= slot < Zlen map →
  ∃ r k', get_slot_and_ctor mm map slot size ctor k = Some (r, k') ∧
    match r with
    | None => mjoin (map !! Z.to_nat slot) = None ∧ mm k size = false
    | Some (a, map') => a = default ctor (mjoin (map !! Z.to_nat slot)) ∧ Zlen map' = Zlen map ∧
        ∀ j, 0 <= j → mjoin (map' !! Z.to_nat j) = if decide (j = slot) then Some a else mjoin (map !! Z.to_nat j)
    end.
Proof.
  intros Hs. unfold get_slot_and_ctor. rewrite (proj2 (Z.ltb_ge _ _)) by lia.
  destruct (lookup_lt_is_Some_2 map (Z.to_nat slot)) as [e He]; [lia|]. rewrite He.
  cbn [mbind option_bind]. destruct e as [a|].
  - eexists _, _. split; [done|]. split_and!; [done|done|]. intros j Hj.
    case_decide; [by subst; rewrite He|done].
  - destruct (mm k size) eqn:E; eexists _, _; (split; [done|]); [|done].
    split_and!; [done|by rewrite length_insert|]. intros j Hj. apply slot_lookup; lia.
Qed.

(** ** The invariant *)

(** Entries made but not used do not count. *)
Definition same_lists (m m' : evmaps) : Prop :=
  (∀ fd, 0 <= fd → io_entry m' fd = io_entry m fd ∨
     io_entry m fd = None ∧ io_entry m' fd = Some evmap_io_init) ∧
  (∀ sig, 0 <= sig → sig_entry m' sig = sig_entry m sig ∨
     sig_entry m sig = None ∧ sig_entry m' sig = Some evmap_signal_init).

Lemma same_lists_waiting m m' fd bit :
  same_lists m m' → 0 <= fd → waiting m' fd bit = waiting m fd bit.
Proof.
  intros [H _] Hfd. unfold waiting. destruct (H fd Hfd) as [->|[-> ->]]; [done|].
  unfold counter. by repeat case_match.
Qed.

Lemma same_lists_on_fd m m' fd x : same_lists m m' → on_fd m' fd x ↔ on_fd m fd x.
Proof.
  intros [H _]. unfold on_fd. split; intros (Hfd & ctx & He & Hx); (split; [done|]);
    destruct (H fd Hfd) as [Heq|[Hn He']].
  - rewrite Heq in He. eauto.
  - rewrite He' in He. simplify_eq. by apply not_elem_of_nil in Hx.
  - rewrite Heq. eauto.
  - by rewrite Hn in He.
Qed.

Lemma same_lists_on_signal m m' sig x : same_lists m m' → on_signal m' sig x ↔ on_signal m sig x.
Proof.
  intros [_ H]. unfold on_signal. split; intros (Hs & ctx & He & Hx); (split; [done|]);
    destruct (H sig Hs) as [Heq|[Hn He']].
  - rewrite Heq in He. eauto.
  - rewrite He' in He. simplify_eq. by apply not_elem_of_nil in Hx.
  - rewrite Heq. eauto.
  - by rewrite Hn in He.
Qed.

Lemma same_lists_ok st m m' : same_lists m m' → calls m' = calls m → evmap_ok st m → evmap_ok st m'.
Proof.
  intros Hsl Hc [Hi Hs Hw [Hco Hr]]. split.
  - intros fd ctx Hfd He. destruct (proj1 Hsl fd Hfd) as [Heq|[Hn He']]; [apply Hi; [done|by rewrite <- Heq]|].
    rewrite He' in He. simplify_eq. split; cbn.
    + apply NoDup_nil_2.
    + by intros x Hx%not_elem_of_nil.
    + intros bit [-> |[-> | ->]]; done.
    + intros bit [-> |[-> | ->]]; done.
  - intros sig ctx Hsig He. destruct (proj2 Hsl sig Hsig) as [Heq|[Hn He']]; [apply Hs; [done|by rewrite <- Heq]|].
    rewrite He' in He. simplify_eq. split; cbn; [apply NoDup_nil_2|by intros x Hx%not_elem_of_nil].
  - intros fd bit Hfd Hb. rewrite Hc, (same_lists_waiting m m') by done. auto.
  - split; rewrite Hc; [done|]. intros fd bit Hfd Hb. rewrite (same_lists_waiting m m') by done. auto.
Qed.

Lemma same_lists_allocs m k : same_lists m (with_allocs k m).
Proof. split; auto. Qed.

Lemma io_entry_set m fd fd' ctx :
  0 <= fd < Zlen (io m) → 0 <= fd' →
  io_entry (set_io fd ctx m) fd' = if decide (fd' = fd) then Some ctx else io_entry m fd'.
Proof. intros. unfold io_entry, set_io. cbn. by apply slot_lookup. Qed.

Lemma sig_entry_set m sig sig' ctx :
  0 <= sig < Zlen (sigmap m) → 0 <= sig' →
  sig_entry (set_signal sig ctx m) sig' = if decide (sig' = sig) then Some ctx else sig_entry m sig'.
Proof. intros. unfold sig_entry, set_signal. cbn. by apply slot_lookup. Qed.

Lemma recorded_counts h fd ctx :
  (∀ bit, condition bit → recorded h fd bit = (0 <? counter ctx bit)) → (∀ bit, condition bit → 0 <= counter ctx bit) →
  conditions (λ _ n, negb (n =? 0)) (nread ctx) (nwrite ctx) (nclose ctx) = recorded_events h fd.
Proof.
  intros Hr Hn. unfold recorded_events, conditions.
  assert (Hb : ∀ bit, condition bit → recorded h fd bit = negb (counter ctx bit =? 0)).
  { intros bit Hb. rewrite Hr by done. specialize (Hn bit Hb). by destruct (Z.ltb_spec 0 (counter ctx bit)), (Z.eqb_spec (counter ctx bit) 0); try lia. }
  rewrite (Hb EV_READ), (Hb EV_WRITE), (Hb EV_CLOSED) by (unfold condition; tauto). done.
Qed.

Lemma history_set_io m m1 fd ctx :
  history_ok m → io m1 = io m → 0 <= fd < Zlen (io m) → coherent (calls m1) →
  (∀ fd' bit, fd' ≠ fd → recorded (calls m1) fd' bit = recorded (calls m) fd' bit) →
  (∀ bit, condition bit → recorded (calls m1) fd bit = (0 <? counter ctx bit)) →
  history_ok (set_io fd ctx m1).
Proof.
  intros [_ Hr] Hio Hfd Hco Hoth Hbits. split; [done|]. intros fd' bit Hfd' Hb. cbn [calls set_io with_io]. unfold waiting.
  rewrite io_entry_set by (rewrite ?Hio; lia). case_decide as E; [subst; auto|]. rewrite Hoth, Hr by done.
  unfold waiting, io_entry. by rewrite Hio.
Qed.

(** Replacing the entry of [fd], the calls of the backend since then being about [fd]. *)
Lemma set_io_ok st m m1 fd ctx :
  evmap_ok st m → io m1 = io m → sigmap m1 = sigmap m → 0 <= fd < Zlen (io m) →
  io_entry_ok st fd ctx →
  (∀ fd' bit, fd' ≠ fd → watched (calls m1) fd' bit = watched (calls m) fd' bit) →
  (del_failed (calls m) → del_failed (calls m1)) →
  (∀ bit, condition bit →
     (0 < counter ctx bit → watched (calls m1) fd bit = true) ∧
     (¬ del_failed (calls m1) → watched (calls m1) fd bit = true → 0 < counter ctx bit)) →
  history_ok (set_io fd ctx m1) →
  evmap_ok st (set_io fd ctx m1).
Proof.
  intros [Hi Hs Hw _] Hio Hsig Hfd Hctx Hoth Hdf Hbits Hh. split; [| | |done].
  - intros fd' c Hfd' He. rewrite io_entry_set in He by (rewrite ?Hio; lia). case_decide; simplify_eq; [done|].
    apply Hi; [done|]. unfold io_entry in *. by rewrite <- Hio.
  - intros sig c Hsig' He. apply Hs; [done|]. unfold sig_entry in *. cbn in He. by rewrite <- Hsig.
  - intros fd' bit Hfd' Hb. change (calls (set_io fd ctx m1)) with (calls m1). unfold waiting.
    rewrite io_entry_set by (rewrite ?Hio; lia). case_decide as Heq; [subst; auto|].
    rewrite Hoth by done. specialize (Hw fd' bit Hfd' Hb). unfold waiting, io_entry in *. rewrite Hio.
    destruct Hw as [Hw1 Hw2]. split; [done|]. intros Hnd. apply Hw2. auto.
Qed.

Lemma del_failed_cons c h : del_failed ((c, true) :: h) ↔ del_failed h.
Proof.
  unfold del_failed. split; intros (fd & old & evs & H).
  - apply elem_of_cons in H as [H|H]; [done|eauto].
  - exists fd, old, evs. by right.
Qed.

Lemma del_failed_add fd old evs b h : del_failed ((evsel_add fd old evs, b) :: h) ↔ del_failed h.
Proof.
  unfold del_failed. split; intros (fd' & old' & evs' & H).
  - apply elem_of_cons in H as [H|H]; [done|eauto].
  - exists fd', old', evs'. by right.
Qed.

Lemma counter_nonneg st fd ctx bit : io_entry_ok st fd ctx → condition bit → 0 <= counter ctx bit.
Proof. intros H Hb. rewrite (ioe_count _ _ _ H) by done. apply count_events_nonneg. Qed.

(** The entry with [x] added. *)
Lemma entry_add_ok st fd x ev ctx :
  io_entry_ok st fd ctx → st !! x = Some ev → ev_fd ev = fd → x ∉ io_events ctx →
  let ctx' := Evmap_io (x :: io_events ctx)
    (if has EV_READ (ev_events ev) then nread ctx + 1 else nread ctx)
    (if has EV_WRITE (ev_events ev) then nwrite ctx + 1 else nwrite ctx)
    (if has EV_CLOSED (ev_events ev) then nclose ctx + 1 else nclose ctx) in
  (∀ bit, condition bit → counter ctx' bit = counter ctx bit + Z.b2z (has bit (ev_events ev))) ∧
  ((∀ bit, condition bit → counter ctx' bit <= 0xffff) → io_entry_ok st fd ctx').
Proof.
  intros [Hnd Hfd Hc Hb] Hx Hev Hni ctx'.
  assert (Hcnt : ∀ bit, condition bit → counter ctx' bit = counter ctx bit + Z.b2z (has bit (ev_events ev))).
  { intros bit [-> |[-> | ->]]; unfold ctx', counter; cbn [Z.eqb EV_READ EV_WRITE EV_CLOSED Pos.eqb nread nwrite nclose];
      case_match; cbn [Z.b2z]; lia. }
  split; [done|]. intros Hle. split; cbn.
  - by apply NoDup_cons.
  - intros y [->|Hy]%elem_of_cons; eauto.
  - intros bit Hbit. fold ctx'. rewrite Hcnt, Hc, count_events_cons by done. unfold events_of. rewrite Hx. cbn. lia.
  - done.
Qed.

Lemma condition_cases (P : Z → Prop) : P EV_READ → P EV_WRITE → P EV_CLOSED → ∀ bit, condition bit → P bit.
Proof. by intros ? ? ? bit [-> |[-> | ->]]. Qed.

Lemma on_fd_set m m1 fd ctx ctx' y fd' :
  0 <= fd < Zlen (io m) → io m1 = io m → io_entry m fd = Some ctx →
  on_fd (set_io fd ctx' m1) fd' y ↔ (if decide (fd' = fd) then y ∈ io_events ctx' else on_fd m fd' y).
Proof.
  intros Hfd Hio He. unfold on_fd. split.
  - intros (Hfd' & c & Hc & Hy). rewrite io_entry_set in Hc by (rewrite ?Hio; lia).
    case_decide; [by simplify_eq|]. split; [done|]. exists c. unfold io_entry in *. by rewrite <- Hio.
  - case_decide as Heq.
    + subst. intros Hy. split; [lia|]. exists ctx'. rewrite io_entry_set by (rewrite ?Hio; lia).
      by rewrite decide_True.
    + intros (Hfd' & c & Hc & Hy). split; [done|]. exists c. rewrite io_entry_set by (rewrite ?Hio; lia).
      rewrite decide_False by done. unfold io_entry in *. by rewrite Hio.
Qed.

(** What adding an event to a list does: nothing when it fails, else the event is on the list. *)
Definition fd_added (r : Z) (m m' : evmaps) (fd : Z) (x : nat) : Prop :=
  sigmap m' = sigmap m ∧
  (r = -1 ∧ (∀ fd' y, on_fd m' fd' y ↔ on_fd m fd' y) ∨
   (r = 0 ∨ r = 1) ∧ ∀ fd' y, on_fd m' fd' y ↔ on_fd m fd' y ∨ 0 <= fd ∧ fd' = fd ∧ y = x).

Lemma on_fd_cons m m1 fd ctx x r w c fd' y :
  0 <= fd < Zlen (io m) → io m1 = io m → io_entry m fd = Some ctx →
  on_fd (set_io fd (Evmap_io (x :: io_events ctx) r w c) m1) fd' y ↔
  on_fd m fd' y ∨ 0 <= fd ∧ fd' = fd ∧ y = x.
Proof.
  intros Hfd Hio He. rewrite on_fd_set by done. case_decide as Heq; [subst|].
  - cbn. rewrite elem_of_cons. split.
    + intros [->|Hy]; [right; split; [lia|done]|left; split; [lia|eauto]].
    + intros [(_ & c' & Hc & Hy)|(_ & _ & ->)]; [right; by simplify_eq|by left].
  - split; [by left|]. by intros [?|(_ & ? & _)].
Qed.

Lemma io_add_ctx_ok backend st m fd x ev ctx :
  evmap_ok st m → io_entry m fd = Some ctx → 0 <= fd < Zlen (io m) → st !! x = Some ev →
  ev_fd ev = fd → x ∉ io_events ctx →
  ∃ r m', io_add_ctx backend fd x ev ctx m = (r, m') ∧ evmap_ok st m' ∧ fd_added r m m' fd x.
Proof.
  intros Hok He Hfd Hx Hev Hni. pose proof (em_io _ _ Hok fd ctx ltac:(lia) He) as Hent.
  destruct (entry_add_ok st fd x ev ctx Hent Hx Hev Hni) as [Hcnt Hent']. unfold io_add_ctx.
  set (ctx' := Evmap_io (x :: io_events ctx) _ _ _) in Hcnt, Hent'.
  destruct (_ || _ || _) eqn:Eb.
  { eexists _, _. split; [done|]. split; [done|]. split; [done|]. left. split; [done|]. by intros ??. }
  rewrite !orb_false_iff, !Z.ltb_ge in Eb. destruct Eb as [[Hr Hw] Hc].
  specialize (Hent' (condition_cases _ Hr Hw Hc)).
  set (res := conditions _ _ _ _).
  assert (Hres : ∀ bit, condition bit → has bit res = has bit (ev_events ev) && (counter ctx' bit =? 1)).
  { intros bit Hb. unfold res. rewrite has_conditions by done. unfold ctx', counter. done. }
  assert (Hwatch : ∀ bit, condition bit → waiting m fd bit = counter ctx bit)
    by (intros bit Hb; unfold waiting; by rewrite He).
  pose proof (em_history _ _ Hok) as Hh. destruct Hh as [Hco Hrec].
  assert (Hrec' : ∀ bit, condition bit → recorded (calls m) fd bit = (0 <? counter ctx bit))
    by (intros bit Hb; rewrite Hrec, Hwatch by (done || lia); done).
  assert (Hnn : ∀ bit, condition bit → 0 <= counter ctx bit) by (intros; by eapply counter_nonneg).
  destruct (Z.eqb_spec res 0) as [H0|H0]; cbn [negb].
  - eexists _, _. split; [done|]. split.
    + apply (set_io_ok st m m); try done. 2: { apply (history_set_io m); [by split|done..|]. intros bit Hb.
        rewrite Hrec', Hcnt by done. specialize (Hres bit Hb). rewrite H0, Hcnt in Hres by done.
        specialize (Hnn bit Hb). destruct (has bit (ev_events ev)); cbn [Z.b2z andb] in *; [|by rewrite Z.add_0_r].
        symmetry in Hres. apply Z.eqb_neq in Hres. by rewrite !(proj2 (Z.ltb_lt _ _)) by lia. }
      intros bit Hb. rewrite Hcnt by done.
      pose proof (counter_nonneg _ _ _ bit Hent Hb) as Hn.
      destruct (em_watch _ _ Hok fd bit ltac:(lia) Hb) as [H1 H2]. rewrite Hwatch in H1, H2 by done.
      specialize (Hres bit Hb). rewrite H0, Hcnt in Hres by done. split.
      * intros Hp. apply H1. destruct (has bit (ev_events ev)) eqn:Eh; cbn [Z.b2z andb] in *; [|lia].
        symmetry in Hres. apply Z.eqb_neq in Hres. lia.
      * intros Hd Hwt. specialize (H2 Hd Hwt). destruct (has bit (ev_events ev)); cbn [Z.b2z]; lia.
    + split; [done|]. right. split; [by left|]. intros fd' y. by apply on_fd_cons.
  - unfold call_backend. set (old := conditions _ _ _ _). set (call := evsel_add _ _ _).
    assert (Hcall : call_coherent (calls m) call).
    { unfold call, call_coherent. rewrite Hev. split; [lia|]. split; [by apply recorded_counts|].
      split; [rewrite has_lor by (by exists 3); unfold res; by rewrite no_signal_et, no_signal_conditions|].
      apply conditions_nonzero in H0 as (bit & Hb & Hh). exists bit. split; [done|]. fold res in Hh. by rewrite has_lor, Hh, orb_true_r by (by apply condition_pow). }
    destruct (backend (calls m) call) eqn:Eb; cbn [fst snd].
    + eexists _, _. split; [done|]. split.
      * apply (set_io_ok st m); try done; cbn [calls].
        4: { apply (history_set_io m); [by split|done|done|by split|..]; cbn [calls]; unfold call; cbn [recorded].
          - intros fd' bit Hne. rewrite Hev. by rewrite (proj2 (Z.eqb_neq _ _)) by done.
          - intros bit Hb. rewrite Hev, Z.eqb_refl, has_lor, has_et, Hres, Hrec' by (done || by apply condition_pow). cbn [andb orb].
            fold ctx'. rewrite Hcnt by done. specialize (Hnn bit Hb). destruct (has bit (ev_events ev)); cbn [Z.b2z andb orb]; [|by rewrite Z.add_0_r].
            rewrite (proj2 (Z.ltb_lt 0 (counter ctx bit + 1))) by lia.
            destruct (Z.eqb_spec (counter ctx bit + 1) 1); [done|]. by rewrite (proj2 (Z.ltb_lt _ _)) by lia. }
        -- intros fd' bit Hne. unfold call. cbn [watched]. rewrite Hev.
           by rewrite (proj2 (Z.eqb_neq _ _)) by done.
        -- intros. by apply del_failed_cons.
        -- intros bit Hb. rewrite del_failed_cons. unfold call. cbn [watched]. rewrite Hev, Z.eqb_refl. cbn [andb].
           fold ctx'. rewrite has_lor, has_et, Hres, !Hcnt by (done || by apply condition_pow). cbn [orb].
           pose proof (counter_nonneg _ _ _ bit Hent Hb) as Hn.
           destruct (em_watch _ _ Hok fd bit ltac:(lia) Hb) as [H1 H2]. rewrite Hwatch in H1, H2 by done.
           destruct (has bit (ev_events ev)); cbn [Z.b2z andb orb].
           ++ destruct (Z.eqb_spec (counter ctx bit + 1) 1); cbn [orb]; split; try lia; try done.
              intros _. apply H1. lia.
           ++ rewrite Z.add_0_r. done.
      * split; [done|]. right. split; [by right|]. intros fd' y. by apply (on_fd_cons m _ fd ctx).
    + eexists _, _. split; [done|]. split.
      * destruct Hok as [Hi Hs Hw' _]. split; [done..| |].
        -- cbn [calls]. intros fd' bit Hfd' Hb. unfold call. rewrite del_failed_add. cbn [watched]. by apply Hw'.
        -- split; cbn [calls]; [by split|]. exact Hrec.
      * split; [done|]. left. split; [done|]. by intros ??.
Qed.

Section ops.
Context (mm : nat → Z → bool) (backend : history → backend_call → bool) (fdinfo_len : Z).

Lemma io_add_ok st m x ev :
  evmap_ok st m → st !! x = Some ev → ¬ on_fd m (ev_fd ev) x → ev_fd ev < 2 ^ 30 →
  ∃ r m', evmap_io_add_ mm backend fdinfo_len st (ev_fd ev) x m = Some (r, m') ∧
    evmap_ok st m' ∧ fd_added r m m' (ev_fd ev) x.
Proof.
  intros Hok Hx Hni Hfd. unfold evmap_io_add_. rewrite Hx. cbn [mbind option_bind].
  rewrite Z.eqb_refl. cbn [negb]. set (fd := ev_fd ev) in *. destruct (Z.ltb_spec fd 0) as [Hneg|Hpos].
  { eexists _, _. split; [done|]. split; [done|]. split; [done|]. right. split; [by left|].
    intros fd' y. split; [by left|]. intros [?|(? & _)]; [done|lia]. }
  destruct (make_space_ok mm (io m) fd (allocs m)) as (r1 & k1 & -> & H1); [lia|].
  cbn [mbind option_bind]. destruct r1 as [io'|].
  2:{ eexists _, _. split; [done|]. split; [by apply (same_lists_ok st m); [apply same_lists_allocs|..]|].
      split; [done|]. left. split; [done|]. intros ??. apply same_lists_on_fd, same_lists_allocs. }
  destruct H1 as [Hlen Hsame].
  destruct (get_slot_ctor_ok mm io' fd (io_size fdinfo_len) evmap_io_init k1) as (r2 & k2 & -> & H2); [lia|].
  cbn [mbind option_bind]. destruct r2 as [[ctx io2]|].
  2:{ assert (Hsl : same_lists m (with_allocs k2 (with_io io' m))).
      { split; [|by left]. intros j Hj. left. unfold io_entry. cbn. apply Hsame. }
      eexists _, _. split; [done|]. split; [by apply (same_lists_ok st m)|].
      split; [done|]. left. split; [done|]. intros ??. by apply same_lists_on_fd. }
  destruct H2 as (Hctx & Hlen2 & Hget). set (m2 := with_allocs k2 (with_io io2 m)).
  assert (Hsl : same_lists m m2).
  { split; [|by left]. intros j Hj. unfold io_entry, m2. cbn. rewrite Hget by done. case_decide as E; subst.
    - rewrite Hsame. destruct (mjoin (io m !! Z.to_nat fd)) as [c|] eqn:Ec; [by left|by right].
    - left. apply Hsame. }
  assert (Hent : io_entry m2 fd = Some ctx).
  { unfold io_entry, m2. cbn. by rewrite Hget, decide_True. }
  destruct (io_add_ctx_ok backend st m2 fd x ev ctx) as (r & m' & E & Hok' & Hsig & Hadd); try done.
  - by apply (same_lists_ok st m).
  - unfold m2. cbn. lia.
  - intros Hin. apply Hni. rewrite <- (same_lists_on_fd m m2) by done. split; [done|]. eauto.
  - rewrite E. eexists _, _. split; [done|]. split; [done|]. split; [done|].
    destruct Hadd as [[-> Hadd]|[Hr Hadd]]; [left|right]; (split; [done|]); intros fd' y.
    + rewrite Hadd. by apply same_lists_on_fd.
    + rewrite Hadd. by rewrite (same_lists_on_fd m m2).
Qed.

(** The entry with [x] taken off. *)
Lemma entry_del_ok st fd x ev ctx :
  io_entry_ok st fd ctx → st !! x = Some ev → x ∈ io_events ctx →
  ∃ l, unlink x (io_events ctx) = Some l ∧ (∀ y, y ∈ l ↔ y ∈ io_events ctx ∧ y ≠ x) ∧
  let ctx' := Evmap_io l
    (if has EV_READ (ev_events ev) then nread ctx - 1 else nread ctx)
    (if has EV_WRITE (ev_events ev) then nwrite ctx - 1 else nwrite ctx)
    (if has EV_CLOSED (ev_events ev) then nclose ctx - 1 else nclose ctx) in
  (∀ bit, condition bit → counter ctx' bit = counter ctx bit - Z.b2z (has bit (ev_events ev))) ∧
  io_entry_ok st fd ctx'.
Proof.
  intros [Hnd Hfd Hc Hb] Hx Hin. destruct (unlink_nodup x (io_events ctx) Hnd Hin) as (l & E & Hp & Hndl & Hl & _).
  exists l. split; [done|]. split; [done|]. intros ctx'.
  assert (Hcnt : ∀ bit, condition bit → counter ctx' bit = counter ctx bit - Z.b2z (has bit (ev_events ev))).
  { intros bit [-> |[-> | ->]]; unfold ctx', counter; cbn [Z.eqb EV_READ EV_WRITE EV_CLOSED Pos.eqb nread nwrite nclose];
      case_match; cbn [Z.b2z]; lia. }
  split; [done|]. split; cbn.
  - done.
  - intros y Hy. by apply Hfd, Hl.
  - intros bit Hbit. fold ctx'. rewrite Hcnt, Hc, (count_events_perm _ _ _ _ Hp), count_events_cons by done.
    unfold events_of. rewrite Hx. cbn. lia.
  - intros bit Hbit. fold ctx'. rewrite Hcnt by done. specialize (Hb bit Hbit).
    destruct (has bit (ev_events ev)); cbn; lia.
Qed.

Lemma on_fd_unlinked st m m1 fd ctx l x r w c fd' y :
  evmap_ok st m → 0 <= fd < Zlen (io m) → io m1 = io m → io_entry m fd = Some ctx → x ∈ io_events ctx →
  (∀ y, y ∈ l ↔ y ∈ io_events ctx ∧ y ≠ x) →
  on_fd (set_io fd (Evmap_io l r w c) m1) fd' y ↔ on_fd m fd' y ∧ y ≠ x.
Proof.
  intros Hok Hfd Hio He Hx Hl. rewrite on_fd_set by done. case_decide as Heq; [subst|].
  - cbn. rewrite Hl. split.
    + intros [? ?]. split; [|done]. split; [lia|eauto].
    + intros [(_ & c' & Hc & ?) ?]. by simplify_eq.
  - split; [|by intros [? _]]. intros Hon. split; [done|]. intros ->.
    destruct Hon as (H0 & c' & Hc & Hin). destruct (ioe_fd _ _ _ (em_io _ _ Hok _ _ H0 Hc) x Hin) as (ev & E1 & E2).
    destruct (ioe_fd _ _ _ (em_io _ _ Hok fd ctx ltac:(lia) He) x Hx) as (ev' & E3 & E4). congruence.
Qed.

Lemma io_entry_range m fd ctx : io_entry m fd = Some ctx → 0 <= fd → 0 <= fd < Zlen (io m).
Proof.
  unfold io_entry. intros H Hfd. destruct (io m !! Z.to_nat fd) as [e|] eqn:E; [|done].
  apply lookup_lt_Some in E. lia.
Qed.

Lemma io_del_ok st m x ev :
  evmap_ok st m → st !! x = Some ev → (0 <= ev_fd ev → on_fd m (ev_fd ev) x) →
  ∃ r m', evmap_io_del_ backend st (ev_fd ev) x m = Some (r, m') ∧ evmap_ok st m' ∧
    sigmap m' = sigmap m ∧ ∀ fd' y, on_fd m' fd' y ↔ on_fd m fd' y ∧ y ≠ x.
Proof.
  intros Hok Hx Hon. unfold evmap_io_del_. rewrite Hx. cbn [mbind option_bind].
  destruct (Z.ltb_spec (ev_fd ev) 0) as [Hneg|Hpos].
  { eexists _, _. split; [done|]. split; [done|]. split; [done|]. intros fd' y. split; [|by intros [? _]].
    intros Hy. split; [done|]. intros ->. destruct Hy as (H0 & c & Hc & Hin).
    destruct (ioe_fd _ _ _ (em_io _ _ Hok _ _ H0 Hc) x Hin) as (ev' & E1 & E2). simplify_eq. lia. }
  rewrite Z.eqb_refl. cbn [negb]. destruct (Hon Hpos) as (_ & ctx & He & Hin). clear Hon.
  set (fd := ev_fd ev) in *. pose proof (io_entry_range _ _ _ He Hpos) as Hr.
  rewrite (proj2 (Z.leb_gt _ _)) by lia. unfold get_slot. rewrite (proj2 (Z.ltb_ge _ _)) by lia.
  destruct (io m !! Z.to_nat fd) as [e|] eqn:Ee; unfold io_entry in He; rewrite Ee in He; [|done].
  cbn in He. subst e. cbn [mbind option_bind]. assert (He : io_entry m fd = Some ctx) by (unfold io_entry; by rewrite Ee).
  pose proof (em_io _ _ Hok fd ctx Hpos He) as Hent.
  destruct (entry_del_ok st fd x ev ctx Hent Hx Hin) as (l & El & Hl & Hcnt & Hent').
  set (ctx' := Evmap_io l _ _ _) in Hcnt, Hent'.
  assert (Hnn : ∀ bit, condition bit → 0 <= counter ctx' bit) by (intros; by eapply counter_nonneg).
  pose proof (Hnn EV_READ ltac:(by left)) as N1. pose proof (Hnn EV_WRITE ltac:(right; by left)) as N2.
  pose proof (Hnn EV_CLOSED ltac:(right; by right)) as N3. cbn in N1, N2, N3.
  rewrite !(proj2 (Z.ltb_ge _ _)) by done. cbn [orb]. set (res := conditions _ _ _ _).
  assert (Hres : ∀ bit, condition bit → has bit res = has bit (ev_events ev) && (counter ctx' bit =? 0)).
  { intros bit Hb. unfold res. rewrite has_conditions by done. unfold ctx', counter. done. }
  assert (Hw : ∀ bit, condition bit → waiting m fd bit = counter ctx bit)
    by (intros bit Hb; unfold waiting; by rewrite He).
  assert (Hbits : ∀ bit, condition bit →
    (0 < counter ctx' bit → has bit res = false ∧ watched (calls m) fd bit = true) ∧
    (¬ del_failed (calls m) → has bit res = false → watched (calls m) fd bit = true → 0 < counter ctx' bit)).
  { intros bit Hb. destruct (em_watch _ _ Hok fd bit ltac:(lia) Hb) as [H1 H2]. rewrite Hw in H1, H2 by done.
    rewrite Hres by done. pose proof (Hnn bit Hb). rewrite Hcnt in * by done. split.
    - intros Hp. rewrite (proj2 (Z.eqb_neq _ _)), andb_false_r by lia. split; [done|]. apply H1.
      destruct (has bit (ev_events ev)); cbn [Z.b2z] in *; lia.
    - intros Hd Hh Hwt. specialize (H2 Hd Hwt). destruct (has bit (ev_events ev)); cbn [Z.b2z andb] in *; [|lia].
      apply Z.eqb_neq in Hh. lia. }
  destruct (em_history _ _ Hok) as [Hco Hrec].
  assert (Hrec' : ∀ bit, condition bit → recorded (calls m) fd bit = (0 <? counter ctx bit))
    by (intros bit Hb; rewrite Hrec, Hw by (done || lia); done).
  assert (Hleft : ∀ bit, condition bit → negb (has bit res) && (0 <? counter ctx bit) = (0 <? counter ctx' bit)).
  { intros bit Hb. rewrite Hres by done. pose proof (Hnn bit Hb) as Hn. rewrite Hcnt in * by done.
    destruct (has bit (ev_events ev)); cbn [Z.b2z andb negb] in *; [|by rewrite Z.sub_0_r].
    destruct (Z.eqb_spec (counter ctx bit - 1) 0), (Z.ltb_spec 0 (counter ctx bit)), (Z.ltb_spec 0 (counter ctx bit - 1)); try done; lia. }
  destruct (Z.eqb_spec res 0) as [H0|H0]; cbn [negb].
  - rewrite El. cbn [mbind option_bind]. eexists _, _. split; [done|]. split; [|split; [done|]].
    + apply (set_io_ok st m m); try done. 2: { apply (history_set_io m); [by split|done..|]. intros bit Hb.
        rewrite Hrec', <- Hleft, H0 by done. done. }
      intros bit Hb. destruct (Hbits bit Hb) as [H1 H2].
      rewrite H0 in H1, H2. split; [intros; by apply H1|auto].
    + intros fd' y. by eapply on_fd_unlinked.
  - unfold call_backend. set (call := evsel_del _ _ _).
    assert (Hh : ∀ b, history_ok (set_io fd ctx' (Evmaps (io m) (sigmap m) ((call, b) :: calls m) (allocs m)))).
    { intros b. apply (history_set_io m); [by split|done|done| |..]; cbn [calls]; unfold call; fold fd.
      - split; [|done]. split; [done|]. split; [apply recorded_counts; [done|intros; by eapply counter_nonneg]|].
        split; [apply no_signal_conditions|]. split; [by apply conditions_nonzero in H0|]. intros bit Hb Hh. rewrite Hrec' by done. rewrite Hres in Hh by done.
        apply andb_true_iff in Hh as [Hh _]. pose proof (Hnn bit Hb) as Hn. rewrite Hcnt, Hh in Hn by done. cbn in Hn. apply Z.ltb_lt. lia.
      - intros fd' bit Hne. cbn [recorded]. by destruct b; rewrite (proj2 (Z.eqb_neq _ _)) by done.
      - intros bit Hb. cbn [recorded]. destruct b; rewrite Z.eqb_refl, Hrec' by done; by apply Hleft. }
    destruct (backend (calls m) call) eqn:Eb;
      rewrite El; cbn [mbind option_bind]; (eexists _, _; split; [done|]);
      (split; [|split; [done|intros fd' y; by eapply on_fd_unlinked]]);
      apply (set_io_ok st m); try done; cbn [calls].
    + intros fd' bit Hne. unfold call. cbn [watched]. fold fd. by rewrite (proj2 (Z.eqb_neq _ _)) by done.
    + intros. by apply del_failed_cons.
    + intros bit Hb. rewrite del_failed_cons. unfold call. cbn [watched]. fold fd. rewrite Z.eqb_refl. cbn [andb].
      destruct (Hbits bit Hb) as [H1 H2]. split.
      * intros [-> ->]%H1. done.
      * intros Hd [Hn ?]%andb_true_iff. apply negb_true_iff in Hn. auto.
    + intros (fd' & old & evs & Hin'). exists fd', old, evs. by right.
    + intros bit Hb. destruct (Hbits bit Hb) as [H1 _]. split; [intros; by apply H1|].
      intros []. exists fd, (conditions (λ _ n, negb (n =? 0)) (nread ctx) (nwrite ctx) (nclose ctx)), res. by left.
Qed.

Definition signal_call (c : backend_call) : Prop :=
  match c with evsigsel_add _ | evsigsel_del _ => True | _ => False end.

(** Changing the entry of a signal, with a call about it or without. *)
Lemma set_signal_ok st m m1 sig ctx :
  evmap_ok st m → io m1 = io m → sigmap m1 = sigmap m → 0 <= sig < Zlen (sigmap m) →
  sig_entry_ok st sig ctx →
  (calls m1 = calls m ∨ ∃ c b, signal_call c ∧ calls m1 = (c, b) :: calls m) →
  evmap_ok st (set_signal sig ctx m1) ∧ evmap_ok st m1.
Proof.
  intros [Hi Hs Hw Hh] Hio Hsig Hr Hctx Hcalls.
  assert (Hh1 : history_ok m1).
  { destruct Hh as [Hco Hrec]. split.
    - destruct Hcalls as [->|(c & b & Hc & ->)]; [done|]. split; [by destruct c|done].
    - intros fd bit Hfd Hb. specialize (Hrec fd bit Hfd Hb). unfold waiting, io_entry in *. rewrite Hio, <- Hrec.
      destruct Hcalls as [->|(c & b & Hc & ->)]; [done|]. by destruct c. }
  assert (Hwt : ∀ fd bit, 0 <= fd → condition bit →
    (0 < waiting m1 fd bit → watched (calls m1) fd bit = true) ∧
    (¬ del_failed (calls m1) → watched (calls m1) fd bit = true → 0 < waiting m1 fd bit)).
  { intros fd bit Hfd Hb. specialize (Hw fd bit Hfd Hb). unfold waiting, io_entry in *. rewrite Hio.
    destruct Hcalls as [->|(c & b & Hc & ->)]; [done|]. destruct Hw as [H1 H2].
    assert (watched ((c, b) :: calls m) fd bit = watched (calls m) fd bit) as -> by (by destruct c).
    split; [done|]. intros Hd. apply H2. intros (fd' & old & evs & Hin). apply Hd. exists fd', old, evs. by right. }
  split; split; try done.
  - intros fd c Hfd He. apply Hi; [done|]. unfold io_entry in *. cbn in He. by rewrite <- Hio.
  - intros sig' c Hsig' He. rewrite sig_entry_set in He by (rewrite ?Hsig; lia).
    case_decide; simplify_eq; [done|]. apply Hs; [done|]. unfold sig_entry in *. by rewrite <- Hsig.
  - intros fd c Hfd He. apply Hi; [done|]. unfold io_entry in *. by rewrite <- Hio.
  - intros sig' c Hsig' He. apply Hs; [done|]. unfold sig_entry in *. by rewrite <- Hsig.
Qed.

Lemma on_signal_set m m1 sig ctx ctx' y sig' :
  0 <= sig < Zlen (sigmap m) → sigmap m1 = sigmap m → sig_entry m sig = Some ctx →
  on_signal (set_signal sig ctx' m1) sig' y ↔
  (if decide (sig' = sig) then y ∈ sig_events ctx' else on_signal m sig' y).
Proof.
  intros Hfd Hio He. unfold on_signal. split.
  - intros (Hfd' & c & Hc & Hy). rewrite sig_entry_set in Hc by (rewrite ?Hio; lia).
    case_decide; [by simplify_eq|]. split; [done|]. exists c. unfold sig_entry in *. by rewrite <- Hio.
  - case_decide as Heq.
    + subst. intros Hy. split; [lia|]. exists ctx'. rewrite sig_entry_set by (rewrite ?Hio; lia).
      by rewrite decide_True.
    + intros (Hfd' & c & Hc & Hy). split; [done|]. exists c. rewrite sig_entry_set by (rewrite ?Hio; lia).
      rewrite decide_False by done. unfold sig_entry in *. by rewrite Hio.
Qed.

Lemma sig_entry_range m sig ctx : sig_entry m sig = Some ctx → 0 <= sig → 0 <= sig < Zlen (sigmap m).
Proof.
  unfold sig_entry. intros H Hfd. destruct (sigmap m !! Z.to_nat sig) as [e|] eqn:E; [|done].
  apply lookup_lt_Some in E. lia.
Qed.

Definition signal_added (r : Z) (m m' : evmaps) (sig : Z) (x : nat) : Prop :=
  io m' = io m ∧
  (r = -1 ∧ (∀ sig' y, on_signal m' sig' y ↔ on_signal m sig' y) ∨
   r = 1 ∧ ∀ sig' y, on_signal m' sig' y ↔ on_signal m sig' y ∨ sig' = sig ∧ y = x).

(** The part of evmap_signal_add_ that works on the entry. *)
Lemma signal_add_ctx_ok st m x ev ctx :
  let sig := ev_fd ev in
  evmap_ok st m → sig_entry m sig = Some ctx → 0 <= sig → st !! x = Some ev → x ∉ sig_events ctx →
  ∃ r m', (let '(ok, m) := match sig_events ctx with
                           | [] => call_backend backend (evsigsel_add (ev_fd ev)) m | _ => (true, m) end in
           if ok : bool then Some (1, set_signal sig (Evmap_signal (x :: sig_events ctx)) m)
           else Some (-1, m)) = Some (r, m') ∧ evmap_ok st m' ∧ signal_added r m m' sig x.
Proof.
  intros sig Hok He Hs Hx Hni. pose proof (sig_entry_range _ _ _ He Hs) as Hr.
  destruct (em_sig _ _ Hok sig ctx Hs He) as [Hnd Hfd].
  assert (Hent : sig_entry_ok st sig (Evmap_signal (x :: sig_events ctx))).
  { split; cbn; [by apply NoDup_cons|]. intros y [->|Hy]%elem_of_cons; eauto. }
  assert (Hadd : ∀ m1, io m1 = io m → sigmap m1 = sigmap m →
    signal_added 1 m (set_signal sig (Evmap_signal (x :: sig_events ctx)) m1) sig x).
  { intros m1 Hio Hsm. split; [by cbn; rewrite Hio|]. right. split; [done|]. intros sig' y.
    rewrite (on_signal_set m m1 sig ctx) by done. case_decide as Heq; [subst|].
    - cbn. rewrite elem_of_cons. split.
      + intros [->|Hy]; [by right|]. left. split; [done|eauto].
      + intros [(_ & c & Hc & Hy)|[_ ->]]; [right; by simplify_eq|by left].
    - split; [by left|]. by intros [?|[? _]]. }
  assert (Hset : ∀ m1, io m1 = io m → sigmap m1 = sigmap m →
      (calls m1 = calls m ∨ ∃ c b, signal_call c ∧ calls m1 = (c, b) :: calls m) →
      evmap_ok st (set_signal sig (Evmap_signal (x :: sig_events ctx)) m1) ∧ evmap_ok st m1).
  { intros. by eapply set_signal_ok. }
  destruct (sig_events ctx) eqn:El.
  - unfold call_backend. destruct (backend (calls m) _) eqn:Eb.
    + eexists _, _. split; [done|]. split; [refine (proj1 (Hset _ _ _ _)); [done..|right; eexists _, _; split; [|done]; exact I]|by apply Hadd].
    + eexists _, _. split; [done|]. split; [refine (proj2 (Hset _ _ _ _)); [done..|right; eexists _, _; split; [|done]; exact I]|].
      split; [done|]. left. by split.
  - eexists _, _. split; [done|]. split; [refine (proj1 (Hset _ _ _ _)); [done..|by left]|by apply Hadd].
Qed.

Lemma signal_add_ok st m x ev :
  evmap_ok st m → st !! x = Some ev → ¬ on_signal m (ev_fd ev) x → 0 <= ev_fd ev < 2 ^ 30 →
  ∃ r m', evmap_signal_add_ mm backend st (ev_fd ev) x m = Some (r, m') ∧
    evmap_ok st m' ∧ signal_added r m m' (ev_fd ev) x.
Proof.
  intros Hok Hx Hni Hsig. unfold evmap_signal_add_. rewrite Hx. cbn [mbind option_bind].
  assert (∃ r1 k1, (if Zlen (sigmap m) <=? ev_fd ev then evmap_make_space mm (sigmap m) (ev_fd ev) msize (allocs m)
               else Some (Some (sigmap m), allocs m)) = Some (r1, k1) ∧
    match r1 with Some map' => ev_fd ev < Zlen map' ∧ ∀ j, mjoin (map' !! j) = mjoin (sigmap m !! j) | None => True end)
    as (r1 & k1 & -> & H1).
  { destruct (Z.leb_spec (Zlen (sigmap m)) (ev_fd ev)); [|by eexists _, _].
    destruct (make_space_ok mm (sigmap m) (ev_fd ev) (allocs m) Hsig) as (r1 & k1 & -> & H1).
    eexists _, _. split; [done|]. by destruct r1. }
  cbn [mbind option_bind]. destruct r1 as [map1|].
  2:{ eexists _, _. split; [done|]. split; [by apply (same_lists_ok st m); [apply same_lists_allocs|..]|].
      split; [done|]. left. by split. }
  destruct H1 as [Hlen Hsame].
  destruct (get_slot_ctor_ok mm map1 (ev_fd ev) msize evmap_signal_init k1) as (r2 & k2 & -> & H2); [lia|].
  cbn [mbind option_bind]. destruct r2 as [[ctx map2]|].
  2:{ assert (Hsl : same_lists m (with_allocs k2 (with_sigmap map1 m))).
      { split; [by left|]. intros j Hj. left. unfold sig_entry. cbn. apply Hsame. }
      eexists _, _. split; [done|]. split; [by apply (same_lists_ok st m)|].
      split; [done|]. left. split; [done|]. intros ??. by apply same_lists_on_signal. }
  destruct H2 as (Hctx & Hlen2 & Hget). set (m2 := with_allocs k2 (with_sigmap map2 m)).
  assert (Hsl : same_lists m m2).
  { split; [by left|]. intros j Hj. unfold sig_entry, m2. cbn. rewrite Hget by done. case_decide as E; subst.
    - rewrite Hsame. destruct (mjoin (sigmap m !! Z.to_nat _)) as [c|] eqn:Ec; [by left|by right].
    - left. apply Hsame. }
  assert (Hent : sig_entry m2 (ev_fd ev) = Some ctx).
  { unfold sig_entry, m2. cbn. rewrite Hget by lia. by rewrite decide_True. }
  destruct (signal_add_ctx_ok st m2 x ev ctx) as (r & m' & E & Hok' & Hio & Hadd); try done.
  - by apply (same_lists_ok st m).
  - lia.
  - intros Hin. apply Hni. rewrite <- (same_lists_on_signal m m2) by done. split; [lia|]. eauto.
  - rewrite E. eexists _, _. split; [done|]. split; [done|]. split; [done|].
    destruct Hadd as [[-> Hadd]|[-> Hadd]]; [left|right]; (split; [done|]); intros sig' y;
      rewrite Hadd; by rewrite (same_lists_on_signal m m2).
Qed.

Lemma signal_del_ok st m x ev :
  evmap_ok st m → st !! x = Some ev → on_signal m (ev_fd ev) x →
  ∃ r m', evmap_signal_del_ backend st (ev_fd ev) x m = Some (r, m') ∧ evmap_ok st m' ∧
    io m' = io m ∧ ∀ sig' y, on_signal m' sig' y ↔ on_signal m sig' y ∧ y ≠ x.
Proof.
  intros Hok Hx (Hs & ctx & He & Hin). unfold evmap_signal_del_. rewrite Hx. cbn [mbind option_bind].
  set (sig := ev_fd ev) in *. pose proof (sig_entry_range _ _ _ He Hs) as Hr.
  rewrite (proj2 (Z.leb_gt _ _)) by lia. unfold get_slot. rewrite (proj2 (Z.ltb_ge _ _)) by lia.
  destruct (sigmap m !! Z.to_nat sig) as [e|] eqn:Ee; unfold sig_entry in He; rewrite Ee in He; [|done].
  cbn in He. subst e. cbn [mbind option_bind]. assert (He : sig_entry m sig = Some ctx) by (unfold sig_entry; by rewrite Ee).
  destruct (em_sig _ _ Hok sig ctx Hs He) as [Hnd Hfd].
  destruct (unlink_nodup x (sig_events ctx) Hnd Hin) as (l & -> & _ & Hndl & Hl & _). cbn [mbind option_bind].
  assert (Hent : sig_entry_ok st sig (Evmap_signal l)).
  { split; cbn; [done|]. intros y Hy. by apply Hfd, Hl. }
  destruct (set_signal_ok st m m sig _ Hok eq_refl eq_refl Hr Hent) as [Hok' _]; [by left|].
  assert (Hmem : ∀ sig' y, on_signal (set_signal sig (Evmap_signal l) m) sig' y ↔ on_signal m sig' y ∧ y ≠ x).
  { intros sig' y. rewrite (on_signal_set m m sig ctx) by done. case_decide as Heq; [subst|].
    - cbn. rewrite Hl. split.
      + intros [? ?]. split; [|done]. split; [done|eauto].
      + intros [(_ & c & Hc & ?) ?]. by simplify_eq.
    - split; [|by intros [? _]]. intros Hon. split; [done|]. intros ->.
      destruct Hon as (H0 & c & Hc & Hy). destruct (sige_fd _ _ _ (em_sig _ _ Hok _ _ H0 Hc) x Hy) as (ev' & E1 & E2).
      simplify_eq. }
  destruct l.
  - destruct (call_backend backend _ _) as [ok m'] eqn:Ec. unfold call_backend in Ec. simplify_eq.
    eexists _, _. split; [done|]. split; [|by split].
    eapply (set_signal_ok st m (snd (call_backend backend (evsigsel_del sig) m)) sig (Evmap_signal []));
      try done. right. eexists _, _. split; [|done]. exact I.
  - eexists _, _. split; [done|]. by split.
Qed.
End ops.
