(* ===== verification/EventBase.v ===== *)
(** * The event base

    Models struct event_base and the functions of libevent/event.c that add, delete and activate
    events: the active queues, the queue of callbacks for the next round, the timers in the heap
    and in the common timeout queues, and the counts.  The functions are those of a program with
    one thread: nothing is notified and nothing waits for another thread.

    The state is threaded by a monad; [None] stands for a failed assertion (or event_errx, which
    exits), a dangling pointer or other undefined behaviour.  A queue is the list of its elements.
    The clock answers its k-th reading, the allocator whether a request is granted; the counts are
    not reduced to 32 bits. *)

From S2P Require Import Prelude Timeval Event MinHeap EvMap.

(** ** The state *)

(** An event_callback is part of an event, or stands alone (a deferred callback). *)
Inductive evcb_ptr := of_event (x : nat) | alone (c : nat).
#[export] Instance evcb_ptr_eq_dec : EqDecision evcb_ptr.
Proof. solve_decision. Defined.

(** struct common_timeout_list *)
Record common_timeout_list := Common_timeout_list {
  ctl_events : list nat; duration : timeval; timeout_event : nat
}.

(** The counts of struct event_base. *)
Record event_counts := Event_counts {
  virtual_event_count : Z; virtual_event_count_max : Z;
  event_count : Z; event_count_max : Z;
  event_count_active : Z; event_count_active_max : Z
}.

(** The members that steer the loop. *)
Record loop_state := Loop_state {
  event_gotterm : bool; event_break : bool; event_continue : bool;
  event_running_priority : Z; running_loop : bool; n_deferreds_queued : Z;
  current_event : option evcb_ptr
}.

(** The cached time, and the number of the readings of the clock so far. *)
Record time_state := Time_state { tv_cache : timeval; readings : nat }.

(** The local variable ncalls of the running call of event_signal_closure, with the number of the
    call, and the number of the calls of event_signal_closure and of callbacks so far. *)
Record frame_state := Frame_state { frames : nat; frame : option (nat * Z) }.

Record event_base := Event_base {
  evs : store;
  cbs : gmap nat event_callback;
  maps : evmaps;
  counts : event_counts;
  loop : loop_state;
  activequeues : list (list evcb_ptr);
  active_later_queue : list evcb_ptr;
  common_timeout_queues : list common_timeout_list;
  n_common_timeouts_allocated : Z;
  timeheap : min_heap;
  time : time_state;
  signal_frame : frame_state
}.

Definition nactivequeues (b : event_base) : Z := Zlen (activequeues b).
Definition n_common_timeouts (b : event_base) : Z := Zlen (common_timeout_queues b).

(** Assignments. *)
Definition with_evs (v : store) (b : event_base) : event_base :=
  Event_base v (cbs b) (maps b) (counts b) (loop b) (activequeues b) (active_later_queue b)
    (common_timeout_queues b) (n_common_timeouts_allocated b) (timeheap b) (time b)
    (signal_frame b).
Definition with_cbs (v : gmap nat event_callback) (b : event_base) : event_base :=
  Event_base (evs b) v (maps b) (counts b) (loop b) (activequeues b) (active_later_queue b)
    (common_timeout_queues b) (n_common_timeouts_allocated b) (timeheap b) (time b)
    (signal_frame b).
Definition with_maps (v : evmaps) (b : event_base) : event_base :=
  Event_base (evs b) (cbs b) v (counts b) (loop b) (activequeues b) (active_later_queue b)
    (common_timeout_queues b) (n_common_timeouts_allocated b) (timeheap b) (time b)
    (signal_frame b).
Definition with_counts (v : event_counts) (b : event_base) : event_base :=
  Event_base (evs b) (cbs b) (maps b) v (loop b) (activequeues b) (active_later_queue b)
    (common_timeout_queues b) (n_common_timeouts_allocated b) (timeheap b) (time b)
    (signal_frame b).
Definition with_loop (v : loop_state) (b : event_base) : event_base :=
  Event_base (evs b) (cbs b) (maps b) (counts b) v (activequeues b) (active_later_queue b)
    (common_timeout_queues b) (n_common_timeouts_allocated b) (timeheap b) (time b)
    (signal_frame b).
Definition with_queues (qs : list (list evcb_ptr)) (later : list evcb_ptr) (b : event_base) : event_base :=
  Event_base (evs b) (cbs b) (maps b) (counts b) (loop b) qs later (common_timeout_queues b)
    (n_common_timeouts_allocated b) (timeheap b) (time b) (signal_frame b).
Definition with_common (l : list common_timeout_list) (n : Z) (b : event_base) : event_base :=
  Event_base (evs b) (cbs b) (maps b) (counts b) (loop b) (activequeues b) (active_later_queue
    b) l n (timeheap b) (time b) (signal_frame b).
Definition with_heap (h : min_heap) (s : store) (b : event_base) : event_base :=
  Event_base s (cbs b) (maps b) (counts b) (loop b) (activequeues b) (active_later_queue b)
    (common_timeout_queues b) (n_common_timeouts_allocated b) h (time b) (signal_frame b).
Definition with_time (v : time_state) (b : event_base) : event_base :=
  Event_base (evs b) (cbs b) (maps b) (counts b) (loop b) (activequeues b) (active_later_queue
    b) (common_timeout_queues b) (n_common_timeouts_allocated b) (timeheap b) v (signal_frame b).
Definition with_signal_frame (v : frame_state) (b : event_base) : event_base :=
  Event_base (evs b) (cbs b) (maps b) (counts b) (loop b) (activequeues b) (active_later_queue
    b) (common_timeout_queues b) (n_common_timeouts_allocated b) (timeheap b) (time b) v.

(** The monad. *)
Definition EM (A : Type) : Type := event_base → option (A * event_base).
#[export] Instance em_ret : MRet EM := λ A a b, Some (a, b).
#[export] Instance em_bind : MBind EM := λ A B f m b, '(a, b) ← m b; f a b.
#[export] Instance em_fmap : FMap EM := λ A B f m b, '(a, b) ← m b; Some (f a, b).
Definition fails {A} : EM A := λ _, None.
Definition gets {A} (f : event_base → A) : EM A := λ b, Some (f b, b).
Definition modify (f : event_base → event_base) : EM unit := λ b, Some (tt, f b).
Definition lift {A} (f : event_base → option A) : EM A := λ b, a ← f b; Some (a, b).
Definition when (c : bool) (m : EM unit) : EM unit := if c then m else mret tt.
Definition assert (c : bool) : EM unit := if c then mret tt else fails.

(** ** Access to events and callbacks *)

Definition get_event (x : nat) : EM event := lift (λ b, evs b !! x).
Definition upd_event (f : event → event) (x : nat) : EM unit :=
  λ b, s ← update_event f x (evs b); Some (tt, with_evs s b).

Definition callback_at (b : event_base) (p : evcb_ptr) : option event_callback :=
  match p with
  | of_event x => ev_evcallback <$> evs b !! x
  | alone c => cbs b !! c
  end.
Definition get_cb (p : evcb_ptr) : EM event_callback := lift (λ b, callback_at b p).
Definition upd_cb (f : event_callback → event_callback) (p : evcb_ptr) : EM unit :=
  match p with
  | of_event x => upd_event (λ e, with_evcallback (f (ev_evcallback e)) e) x
  | alone c => λ b, cb ← cbs b !! c; Some (tt, with_cbs (<[c := f cb]> (cbs b)) b)
  end.

(** [flags |= f], [flags &= ~f] *)
Definition add_flag (f : Z) : event_callback → event_callback :=
  λ c, cb_with_flags (Z.lor (evcb_flags c) f) c.
Definition drop_flag (f : Z) : event_callback → event_callback :=
  λ c, cb_with_flags (clear_bits f (evcb_flags c)) c.

(** ** Counts *)

(** 1 unless EVLIST_INTERNAL is set. *)
Definition counted (flags : Z) : Z := Z.land (Z.lnot (Z.shiftr flags 4)) 1.

Definition DECR_EVENT_COUNT (flags : Z) : EM unit := modify (λ b,
  let c := counts b in
  with_counts (Event_counts (virtual_event_count c) (virtual_event_count_max c)
    (event_count c - counted flags) (event_count_max c)
    (event_count_active c) (event_count_active_max c)) b).
Definition INCR_EVENT_COUNT (flags : Z) : EM unit := modify (λ b,
  let c := counts b in
  let n := event_count c + counted flags in
  with_counts (Event_counts (virtual_event_count c) (virtual_event_count_max c)
    n (Z.max (event_count_max c) n) (event_count_active c) (event_count_active_max c)) b).
Definition decr_active : EM unit := modify (λ b,
  let c := counts b in
  with_counts (Event_counts (virtual_event_count c) (virtual_event_count_max c)
    (event_count c) (event_count_max c)
    (event_count_active c - 1) (event_count_active_max c)) b).
Definition incr_active : EM unit := modify (λ b,
  let c := counts b in
  let n := event_count_active c + 1 in
  with_counts (Event_counts (virtual_event_count c) (virtual_event_count_max c)
    (event_count c) (event_count_max c) n (Z.max (event_count_active_max c) n)) b).

Definition event_base_add_virtual_ : EM unit := modify (λ b,
  let c := counts b in
  let n := virtual_event_count c + 1 in
  with_counts (Event_counts n (Z.max (virtual_event_count_max c) n)
    (event_count c) (event_count_max c) (event_count_active c) (event_count_active_max c)) b).
Definition event_base_del_virtual_ : EM unit :=
  n ← gets (λ b, virtual_event_count (counts b));
  assert (0 <? n);;
  modify (λ b,
    let c := counts b in
    with_counts (Event_counts (virtual_event_count c - 1) (virtual_event_count_max c)
      (event_count c) (event_count_max c) (event_count_active c) (event_count_active_max c)) b).

Definition EVENT_BASE_COUNT_ACTIVE : Z := 1.
Definition EVENT_BASE_COUNT_VIRTUAL : Z := 2.
Definition EVENT_BASE_COUNT_ADDED : Z := 4.

Definition event_base_get_num_events (type : Z) (b : event_base) : Z :=
  (if has EVENT_BASE_COUNT_ACTIVE type then event_count_active (counts b) else 0) +
  (if has EVENT_BASE_COUNT_VIRTUAL type then virtual_event_count (counts b) else 0) +
  (if has EVENT_BASE_COUNT_ADDED type then event_count (counts b) else 0).

Definition event_haveevents (b : event_base) : bool :=
  (0 <? virtual_event_count (counts b)) || (0 <? event_count (counts b)).

Definition N_ACTIVE_CALLBACKS (b : event_base) : Z := event_count_active (counts b).

(** ** The queues *)

(** activequeues[pri] *)
Definition queue_at (b : event_base) (pri : Z) : option (list evcb_ptr) :=
  if pri <? 0 then None else activequeues b !! Z.to_nat pri.
Definition set_queue (pri : Z) (q : list evcb_ptr) (b : event_base) : event_base :=
  with_queues (<[Z.to_nat pri := q]> (activequeues b)) (active_later_queue b) b.

(** TAILQ_REMOVE and TAILQ_INSERT_TAIL on activequeues[evcb_pri]. *)
Definition active_remove (pri : Z) (p : evcb_ptr) : EM unit :=
  λ b, q ← queue_at b pri; q ← unlink p q; Some (tt, set_queue pri q b).
Definition active_insert_tail (pri : Z) (p : evcb_ptr) : EM unit :=
  λ b, q ← queue_at b pri; Some (tt, set_queue pri (q ++ [p]) b).
Definition later_remove (p : evcb_ptr) : EM unit :=
  λ b, q ← unlink p (active_later_queue b); Some (tt, with_queues (activequeues b) q b).
Definition later_insert_tail (p : evcb_ptr) : EM unit :=
  modify (λ b, with_queues (activequeues b) (active_later_queue b ++ [p]) b).

(** event_errx ends the program when the event is not on (or already on) the queue. *)
Definition event_queue_remove_inserted (x : nat) : EM unit :=
  ev ← get_event x;
  assert (has EVLIST_INSERTED (ev_flags ev));;
  DECR_EVENT_COUNT (ev_flags ev);;
  upd_cb (drop_flag EVLIST_INSERTED) (of_event x).

Definition event_queue_remove_active (p : evcb_ptr) : EM unit :=
  cb ← get_cb p;
  assert (has EVLIST_ACTIVE (evcb_flags cb));;
  DECR_EVENT_COUNT (evcb_flags cb);;
  upd_cb (drop_flag EVLIST_ACTIVE) p;;
  decr_active;;
  active_remove (evcb_pri cb) p.

Definition event_queue_remove_active_later (p : evcb_ptr) : EM unit :=
  cb ← get_cb p;
  assert (has EVLIST_ACTIVE_LATER (evcb_flags cb));;
  DECR_EVENT_COUNT (evcb_flags cb);;
  upd_cb (drop_flag EVLIST_ACTIVE_LATER) p;;
  decr_active;;
  later_remove p.

Definition event_queue_insert_inserted (x : nat) : EM unit :=
  ev ← get_event x;
  assert (negb (has EVLIST_INSERTED (ev_flags ev)));;
  INCR_EVENT_COUNT (ev_flags ev);;
  upd_cb (add_flag EVLIST_INSERTED) (of_event x).

Definition event_queue_insert_active (p : evcb_ptr) : EM unit :=
  cb ← get_cb p;
  if has EVLIST_ACTIVE (evcb_flags cb) then mret tt
  else
    INCR_EVENT_COUNT (evcb_flags cb);;
    upd_cb (add_flag EVLIST_ACTIVE) p;;
    incr_active;;
    n ← gets nactivequeues;
    assert (evcb_pri cb <? n);;
    active_insert_tail (evcb_pri cb) p.

Definition event_queue_insert_active_later (p : evcb_ptr) : EM unit :=
  cb ← get_cb p;
  if has (Z.lor EVLIST_ACTIVE_LATER EVLIST_ACTIVE) (evcb_flags cb) then mret tt
  else
    INCR_EVENT_COUNT (evcb_flags cb);;
    upd_cb (add_flag EVLIST_ACTIVE_LATER) p;;
    incr_active;;
    n ← gets nactivequeues;
    assert (evcb_pri cb <? n);;
    later_insert_tail p.

(** One round of event_queue_make_later_events_active. *)
Definition make_later_active (p : evcb_ptr) : EM unit :=
  later_remove p;;
  upd_cb (λ c, add_flag EVLIST_ACTIVE (drop_flag EVLIST_ACTIVE_LATER c)) p;;
  cb ← get_cb p;
  n ← gets nactivequeues;
  assert (evcb_pri cb <? n);;
  active_insert_tail (evcb_pri cb) p;;
  modify (λ b, let l := loop b in
    with_loop (Loop_state (event_gotterm l) (event_break l) (event_continue l)
      (event_running_priority l) (running_loop l)
      (n_deferreds_queued l + Z.b2z (evcb_closure cb =? EV_CLOSURE_CB_SELF)) (current_event l)) b).

Fixpoint make_later_loop (fuel : nat) : EM unit :=
  match fuel with
  | O => fails
  | S fuel =>
      q ← gets active_later_queue;
      match q with
      | [] => mret tt
      | p :: _ => make_later_active p;; make_later_loop fuel
      end
  end.

(** The loop takes one callback from the queue in each round. *)
Definition event_queue_make_later_events_active : EM unit :=
  q ← gets active_later_queue; make_later_loop (S (length q)).

Section base.
(** The allocator, the backend and the size of its data per descriptor, the clock. *)
Context (mm : nat → Z → bool) (backend : history → backend_call → bool) (fdinfo_len : Z)
  (clock : nat → timeval).

(** [base->tv_cache], or a reading of the clock. *)
Definition gettime : EM timeval := λ b,
  let t := time b in
  if negb (tv_sec (tv_cache t) =? 0) then Some (tv_cache t, b)
  else Some (clock (readings t), with_time (Time_state (tv_cache t) (S (readings t))) b).

Definition clear_time_cache : EM unit := modify (λ b,
  let t := time b in with_time (Time_state (Timeval 0 (tv_usec (tv_cache t))) (readings t)) b).
(** [no_cache]: EVENT_BASE_FLAG_NO_CACHE_TIME *)
Definition update_time_cache (no_cache : bool) : EM unit :=
  clear_time_cache;;
  when (negb no_cache)
    (now ← gettime; modify (λ b, with_time (Time_state now (readings (time b))) b)).

(** ** Timers *)

(** One more request of memory. *)
Definition next_alloc (b : event_base) : event_base :=
  with_maps (with_allocs (S (allocs (maps b))) (maps b)) b.

Definition heap_reserve : EM Z := λ b,
  let '(r, h) := min_heap_reserve_ (mm (allocs (maps b))) (timeheap b)
    (uint32 (1 + min_heap_size_ (timeheap b))) in
  Some (r, next_alloc (with_heap h (evs b) b)).
Definition heap_push (x : nat) : EM Z := λ b,
  '(r, h, s) ← min_heap_push_ (mm (allocs (maps b))) (timeheap b) (evs b) x;
  Some (r, next_alloc (with_heap h s b)).
Definition heap_erase (x : nat) : EM Z := λ b,
  '(r, h, s) ← min_heap_erase_ (timeheap b) (evs b) x;
  Some (r, with_heap h s b).
Definition heap_top : EM (option nat) := lift (λ b, min_heap_top_ (timeheap b)).

Definition is_common (tv : timeval) (b : event_base) : bool :=
  is_common_timeout tv (n_common_timeouts b).

Definition get_common_timeout_list (tv : timeval) : EM common_timeout_list :=
  lift (λ b, common_timeout_queues b !! Z.to_nat (COMMON_TIMEOUT_IDX tv)).
Definition set_common_events (i : Z) (l : list nat) : EM unit := λ b,
  ctl ← common_timeout_queues b !! Z.to_nat i;
  Some (tt, with_common
    (<[Z.to_nat i := Common_timeout_list l (duration ctl) (timeout_event ctl)]> (common_timeout_queues b))
    (n_common_timeouts_allocated b) b).

(** The search from the end of the queue, the list being given in reverse: the reversed list with
    [x] after the last event that is not later. *)
Fixpoint insert_inorder_rev (st : store) (x : nat) (tv : timeval) (rl : list nat) : option (list nat) :=
  match rl with
  | [] => Some [x]
  | y :: rl' =>
      e ← st !! y;
      if negb (is_same_common_timeout (ev_timeout e) tv) then None (* assertion *)
      else if evutil_timercmp Z.geb tv (ev_timeout e) then Some (x :: rl)
      else (y ::.) <$> insert_inorder_rev st x tv rl'
  end.

Definition insert_common_timeout_inorder (i : Z) (x : nat) : EM unit :=
  ev ← get_event x;
  ctl ← lift (λ b, common_timeout_queues b !! Z.to_nat i);
  l ← lift (λ b, insert_inorder_rev (evs b) x (ev_timeout ev) (rev (ctl_events ctl)));
  upd_event (with_pos ev_next_with_common_timeout) x;;
  set_common_events i (rev l).

Definition event_queue_remove_timeout (x : nat) : EM unit :=
  ev ← get_event x;
  assert (has EVLIST_TIMEOUT (ev_flags ev));;
  DECR_EVENT_COUNT (ev_flags ev);;
  upd_cb (drop_flag EVLIST_TIMEOUT) (of_event x);;
  common ← gets (is_common (ev_timeout ev));
  if common : bool then
    ctl ← get_common_timeout_list (ev_timeout ev);
    l ← lift (λ _, unlink x (ctl_events ctl));
    set_common_events (COMMON_TIMEOUT_IDX (ev_timeout ev)) l
  else heap_erase x;; mret tt.

(** The result of min_heap_push_ is not looked at. *)
Definition event_queue_insert_timeout (x : nat) : EM unit :=
  ev ← get_event x;
  assert (negb (has EVLIST_TIMEOUT (ev_flags ev)));;
  INCR_EVENT_COUNT (ev_flags ev);;
  upd_cb (add_flag EVLIST_TIMEOUT) (of_event x);;
  common ← gets (is_common (ev_timeout ev));
  if common : bool then insert_common_timeout_inorder (COMMON_TIMEOUT_IDX (ev_timeout ev)) x
  else heap_push x;; mret tt.

(** ** Adding *)

(** [*p = 0], for a pointer to the counter of the k-th call of event_signal_closure: a local
    variable of it, which is gone when the call has returned. *)
Definition write_counter (k : nat) : EM unit := λ b,
  '(k', _) ← frame (signal_frame b);
  if (k =? k')%nat
  then Some (tt, with_signal_frame (Frame_state (frames (signal_frame b)) (Some (k, 0))) b)
  else None.

(** [if (ev->ev_ncalls && ev->ev_pncalls) *ev->ev_pncalls = 0;] *)
Definition abort_calls (x : nat) : EM unit :=
  ev ← get_event x;
  n ← lift (λ _, ev_ncalls ev);
  if n =? 0 then mret tt
  else
    p ← lift (λ _, ev_pncalls ev);
    match p with Some k => write_counter k | None => mret tt end.

Definition IO_EVENTS : Z := Z.lor EV_READ (Z.lor EV_WRITE EV_CLOSED).

Definition run_maps (f : store → evmaps → option (Z * evmaps)) : EM Z := λ b,
  '(r, m) ← f (evs b) (maps b); Some (r, with_maps m b).

(** [tv], a duration, or a point in time when [abs], with the number of its common queue. *)
Definition deadline (tv now : timeval) (abs common : bool) : timeval :=
  if abs then tv
  else if common then
    let t := evutil_timeradd now (real_timeout tv) in
    Timeval (tv_sec t) (Z.lor (tv_usec t) (Z.land (tv_usec tv) (Z.lnot MICROSECONDS_MASK)))
  else evutil_timeradd now tv.

(** event_add_nolock_ from "we should change the timeout state only if..." on; [add] is
    event_add_nolock_ itself, called by common_timeout_schedule. *)
Definition common_timeout_schedule (add : nat → option timeval → bool → EM Z)
    (ctl : common_timeout_list) (head : nat) : EM unit :=
  ev ← get_event head;
  add (timeout_event ctl) (Some (real_timeout (ev_timeout ev))) true;;
  mret tt.

Definition add_timeout (add : nat → option timeval → bool → EM Z) (x : nat) (tv : timeval)
    (abs : bool) : EM unit :=
  ev ← get_event x;
  when ((ev_closure ev =? EV_CLOSURE_EVENT_PERSIST) && negb abs) (upd_event (with_ev_ (ev_io tv)) x);;
  when (has EVLIST_TIMEOUT (ev_flags ev)) (event_queue_remove_timeout x);;
  ev ← get_event x;
  when (has EVLIST_ACTIVE (ev_flags ev) && has EV_TIMEOUT (ev_res ev))
    (when (has EV_SIGNAL (ev_events ev)) (abort_calls x);;
     event_queue_remove_active (of_event x));;
  now ← gettime;
  common ← gets (is_common tv);
  upd_event (with_timeout (deadline tv now abs common)) x;;
  event_queue_insert_timeout x;;
  if common : bool then
    ctl ← get_common_timeout_list (deadline tv now abs common);
    match ctl_events ctl with
    | y :: _ => when (bool_decide (x = y)) (common_timeout_schedule add ctl x)
    | [] => mret tt
    end
  else lift (λ b, min_heap_elt_is_top_ (evs b) x);; mret tt.

Definition event_add_step (add : nat → option timeval → bool → EM Z)
    (x : nat) (tv : option timeval) (abs : bool) : EM Z :=
  ev ← get_event x;
  assert (clear_bits EVLIST_ALL (ev_flags ev) =? 0);;
  if has EVLIST_FINALIZING (ev_flags ev) then mret (-1)
  else
    r ← (if bool_decide (is_Some tv) && negb (has EVLIST_TIMEOUT (ev_flags ev)) then heap_reserve
         else mret 0);
    if r =? -1 then mret (-1)
    else
      res ← (if has (Z.lor IO_EVENTS EV_SIGNAL) (ev_events ev) &&
                negb (has (Z.lor EVLIST_INSERTED (Z.lor EVLIST_ACTIVE EVLIST_ACTIVE_LATER)) (ev_flags ev))
             then
               res ← (if has IO_EVENTS (ev_events ev)
                      then run_maps (λ st m, evmap_io_add_ mm backend fdinfo_len st (ev_fd ev) x m)
                      else if has EV_SIGNAL (ev_events ev)
                      then run_maps (λ st m, evmap_signal_add_ mm backend st (ev_fd ev) x m)
                      else mret 0);
               when (negb (res =? -1)) (event_queue_insert_inserted x);;
               mret (if res =? 1 then 0 else res)
             else mret 0);
      match tv with
      | Some tv => when (negb (res =? -1)) (add_timeout add x tv abs);; mret res
      | None => mret res
      end.

(** The timer of a common queue is not itself in a common queue: two levels. *)
Fixpoint event_add_rec (fuel : nat) (x : nat) (tv : option timeval) (abs : bool) : EM Z :=
  match fuel with
  | O => fails
  | S fuel => event_add_step (event_add_rec fuel) x tv abs
  end.
Definition event_add_nolock_ : nat → option timeval → bool → EM Z := event_add_rec 2.

Definition event_add (x : nat) (tv : option timeval) : EM Z :=
  ev ← get_event x;
  if negb (ev_base ev) then mret (-1) else event_add_nolock_ x tv false.

Definition event_remove_timer_nolock_ (x : nat) : EM Z :=
  ev ← get_event x;
  when (has EVLIST_TIMEOUT (ev_flags ev))
    (event_queue_remove_timeout x;; upd_event (with_ev_ ev_zero) x);;
  mret 0.
Definition event_remove_timer (x : nat) : EM Z :=
  ev ← get_event x;
  if negb (ev_base ev) then mret (-1) else event_remove_timer_nolock_ x.

(** ** Deleting *)

Definition event_del_nolock_ (x : nat) (even_if_finalizing : bool) : EM Z :=
  ev ← get_event x;
  if negb (ev_base ev) then mret (-1)
  else if negb even_if_finalizing && has EVLIST_FINALIZING (ev_flags ev) then mret 0
  else
    assert (clear_bits EVLIST_ALL (ev_flags ev) =? 0);;
    when (has EV_SIGNAL (ev_events ev)) (abort_calls x);;
    when (has EVLIST_TIMEOUT (ev_flags ev)) (event_queue_remove_timeout x);;
    (if has EVLIST_ACTIVE (ev_flags ev) then event_queue_remove_active (of_event x)
     else when (has EVLIST_ACTIVE_LATER (ev_flags ev)) (event_queue_remove_active_later (of_event x)));;
    if has EVLIST_INSERTED (ev_flags ev) then
      event_queue_remove_inserted x;;
      res ← (if has IO_EVENTS (ev_events ev)
             then run_maps (λ st m, evmap_io_del_ backend st (ev_fd ev) x m)
             else run_maps (λ st m, evmap_signal_del_ backend st (ev_fd ev) x m));
      mret (if res =? 1 then 0 else res)
    else mret 0.

Definition event_del (x : nat) : EM Z := event_del_nolock_ x false.

(** ** Activating *)

Definition event_callback_activate_nolock_ (p : evcb_ptr) : EM Z :=
  cb ← get_cb p;
  if has EVLIST_FINALIZING (evcb_flags cb) then mret 0
  else if has EVLIST_ACTIVE (evcb_flags cb) then
    assert (negb (has EVLIST_ACTIVE_LATER (evcb_flags cb)));; mret 0
  else
    r ← (if has EVLIST_ACTIVE_LATER (evcb_flags cb)
         then event_queue_remove_active_later p;; mret 0 else mret 1);
    event_queue_insert_active p;;
    mret r.

Definition event_callback_activate_later_nolock_ (p : evcb_ptr) : EM Z :=
  cb ← get_cb p;
  if has (Z.lor EVLIST_ACTIVE EVLIST_ACTIVE_LATER) (evcb_flags cb) then mret 0
  else event_queue_insert_active_later p;; mret 1.

Definition int16 (z : Z) : Z := swrap 16 z.

Definition event_active_nolock_ (x : nat) (res ncalls : Z) : EM unit :=
  ev ← get_event x;
  if has EVLIST_FINALIZING (ev_flags ev) then mret tt
  else if has EVLIST_ACTIVE (ev_flags ev) then
    assert (negb (has EVLIST_ACTIVE_LATER (ev_flags ev)));;
    upd_event (λ e, with_res (int16 (Z.lor (ev_res e) res)) e) x
  else
    upd_event (λ e, with_res (int16 (if has EVLIST_ACTIVE_LATER (ev_flags ev)
                                     then Z.lor (ev_res e) res else res)) e) x;;
    modify (λ b, let l := loop b in
      if ev_pri ev <? event_running_priority l
      then with_loop (Loop_state (event_gotterm l) (event_break l) true (event_running_priority l)
             (running_loop l) (n_deferreds_queued l) (current_event l)) b
      else b);;
    when (has EV_SIGNAL (ev_events ev)) (upd_event (with_ev_ (ev_signal (int16 ncalls) None)) x);;
    event_callback_activate_nolock_ (of_event x);;
    mret tt.

Definition event_active (x : nat) (res ncalls : Z) : EM unit :=
  ev ← get_event x;
  if negb (ev_base ev) then mret tt else event_active_nolock_ x res ncalls.

Definition event_active_later_nolock_ (x : nat) (res : Z) : EM unit :=
  ev ← get_event x;
  if has (Z.lor EVLIST_ACTIVE EVLIST_ACTIVE_LATER) (ev_flags ev)
  then upd_event (λ e, with_res (int16 (Z.lor (ev_res e) res)) e) x
  else
    upd_event (with_res (int16 res)) x;;
    event_callback_activate_later_nolock_ (of_event x);;
    mret tt.

Definition event_callback_cancel_nolock_ (p : evcb_ptr) (even_if_finalizing : bool) : EM Z :=
  cb ← get_cb p;
  if has EVLIST_FINALIZING (evcb_flags cb) && negb even_if_finalizing then mret 0
  else if has EVLIST_INIT (evcb_flags cb) then
    match p with of_event x => event_del_nolock_ x even_if_finalizing | alone _ => fails end
  else if has EVLIST_ACTIVE (evcb_flags cb) then
    assert (negb (has EVLIST_ACTIVE_LATER (evcb_flags cb)));;
    event_queue_remove_active p;; mret 0
  else
    when (has EVLIST_ACTIVE_LATER (evcb_flags cb)) (event_queue_remove_active_later p);;
    mret 0.

(** ** Deferred callbacks *)

Definition MAX_DEFERREDS_QUEUED : Z := 32.

Definition event_deferred_cb_init_ (c : nat) (priority : Z) (fn : callback) (arg : Z) : EM unit :=
  modify (λ b, with_cbs (<[c := Event_callback 0 priority EV_CLOSURE_CB_SELF fn arg]> (cbs b)) b).
Definition event_deferred_cb_set_priority_ (p : evcb_ptr) (priority : Z) : EM unit :=
  upd_cb (cb_with_pri priority) p.
Definition event_deferred_cb_cancel_ (p : evcb_ptr) : EM unit :=
  event_callback_cancel_nolock_ p false;; mret tt.

Definition event_deferred_cb_schedule_ (p : evcb_ptr) : EM Z :=
  n ← gets (λ b, n_deferreds_queued (loop b));
  if MAX_DEFERREDS_QUEUED <? n then event_callback_activate_later_nolock_ p
  else
    r ← event_callback_activate_nolock_ p;
    when (negb (r =? 0)) (modify (λ b, let l := loop b in
      with_loop (Loop_state (event_gotterm l) (event_break l) (event_continue l)
        (event_running_priority l) (running_loop l) (n_deferreds_queued l + 1) (current_event l)) b));;
    mret r.

(** ** Setting up events *)

(** event_assign on the memory at [x]; the base is not NULL.  The members it does not assign keep
    their values, zero in a new block. *)
Definition new_block : event :=
  Event (Event_callback 0 0 0 (user_cb 0) 0) (min_heap_idx 0) 0 false ev_zero 0 0 evutil_timerclear.

Definition event_assign (x : nat) (fd events : Z) (cb : callback) (arg : Z) : EM Z := λ b,
  let old := default new_block (evs b !! x) in
  let signal := has EV_SIGNAL events in
  let ev pri closure u pos :=
    Event (Event_callback EVLIST_INIT pri closure cb arg) pos fd true u events 0 (ev_timeout old) in
  let put ev b := with_evs (<[x := ev]> (evs b)) b in
  if signal && has IO_EVENTS events
  then Some (-1, put (ev (ev_pri old) (ev_closure old) (ev_signal 0 None) (ev_timeout_pos old)) b)
  else
    let closure := if signal then EV_CLOSURE_EVENT_SIGNAL
                   else if has EV_PERSIST events then EV_CLOSURE_EVENT_PERSIST else EV_CLOSURE_EVENT in
    let u := if negb signal && has EV_PERSIST events then ev_io evutil_timerclear else ev_signal 0 None in
    Some (0, put (ev (nactivequeues b / 2) closure u (min_heap_idx (-1))) b).

Definition event_priority_set (x : nat) (pri : Z) : EM Z :=
  ev ← get_event x;
  n ← gets nactivequeues;
  if has EVLIST_ACTIVE (ev_flags ev) then mret (-1)
  else if (pri <? 0) || (n <=? pri) then mret (-1)
  else upd_cb (cb_with_pri pri) (of_event x);; mret 0.

(** The conditions of [what] that [x] is pending for. *)
Definition event_pending (b : event_base) (x : nat) (what : Z) : option Z :=
  ev ← evs b !! x;
  if negb (ev_base ev) then Some 0
  else
    let flags := if has EVLIST_INSERTED (ev_flags ev)
                 then Z.land (ev_events ev) (Z.lor IO_EVENTS EV_SIGNAL) else 0 in
    let flags := if has (Z.lor EVLIST_ACTIVE EVLIST_ACTIVE_LATER) (ev_flags ev)
                 then Z.lor flags (ev_res ev) else flags in
    let flags := if has EVLIST_TIMEOUT (ev_flags ev) then Z.lor flags EV_TIMEOUT else flags in
    Some (Z.land flags (Z.land what (Z.lor EV_TIMEOUT (Z.lor IO_EVENTS EV_SIGNAL)))).

Definition cb_with_closure (closure : Z) (f : callback) (c : event_callback) : event_callback :=
  Event_callback (evcb_flags c) (evcb_pri c) closure f (evcb_arg c).

(** [free]: EVENT_FINALIZE_FREE_ is among the flags. *)
Definition event_finalize_nolock_ (free : bool) (x : nat) (cb : callback) : EM Z :=
  event_del_nolock_ x false;;
  upd_cb (cb_with_closure (if free then EV_CLOSURE_EVENT_FINALIZE_FREE else EV_CLOSURE_EVENT_FINALIZE) cb)
    (of_event x);;
  event_active_nolock_ x EV_FINALIZE 1;;
  upd_cb (add_flag EVLIST_FINALIZING) (of_event x);;
  mret 0.

Definition event_finalize_impl_ (free : bool) (x : nat) (cb : callback) : EM Z :=
  ev ← get_event x;
  if negb (ev_base ev) then mret (-1) else event_finalize_nolock_ free x cb.

(** mm_free: the address is no event any more. *)
Definition mm_free_event (x : nat) : EM unit :=
  get_event x;; modify (λ b, with_evs (delete x (evs b)) b).

Definition event_free (x : nat) : EM unit := event_del x;; mm_free_event x.

Definition event_callback_finalize_nolock_ (p : evcb_ptr) (cb : callback) : EM unit :=
  c ← get_cb p;
  (if has EVLIST_INIT (evcb_flags c)
   then match p with of_event x => event_del_nolock_ x false | alone _ => fails end
   else event_callback_cancel_nolock_ p false);;
  upd_cb (cb_with_closure EV_CLOSURE_CB_FINALIZE cb) p;;
  event_callback_activate_nolock_ p;;
  upd_cb (add_flag EVLIST_FINALIZING) p.

(** ** Steering the loop *)

Definition event_base_loopbreak : EM Z :=
  modify (λ b, let l := loop b in
    with_loop (Loop_state (event_gotterm l) true (event_continue l) (event_running_priority l)
      (running_loop l) (n_deferreds_queued l) (current_event l)) b);;
  mret 0.
Definition event_base_loopcontinue : EM Z :=
  modify (λ b, let l := loop b in
    with_loop (Loop_state (event_gotterm l) (event_break l) true (event_running_priority l)
      (running_loop l) (n_deferreds_queued l) (current_event l)) b);;
  mret 0.
Definition event_base_got_break (b : event_base) : bool := event_break (loop b).
Definition event_base_got_exit (b : event_base) : bool := event_gotterm (loop b).

(** ** Common timeouts *)

Definition MAX_COMMON_TIMEOUTS : Z := 256.

(** A duration with a million microseconds or more is normalised. *)
Definition normalized_duration (b : event_base) (d : timeval) : timeval :=
  if 1000000 <? tv_usec d then
    let us := if is_common d b then Z.land (tv_usec d) MICROSECONDS_MASK else tv_usec d in
    Timeval (tv_sec d + us / 1000000) (us mod 1000000)
  else d.

Definition same_duration (d : timeval) (ctl : common_timeout_list) : bool :=
  (tv_sec d =? tv_sec (duration ctl)) &&
  (tv_usec d =? Z.land (tv_usec (duration ctl)) MICROSECONDS_MASK).

Definition sizeof_common_timeout_list : Z := 168.

(** The address of a new block. *)
Definition new_event (b : event_base) : nat := fresh (dom (evs b)).

(** The magic number, the number of the queue and the duration. *)
Definition common_duration (d : timeval) (n : Z) : timeval :=
  Timeval (tv_sec d) (Z.lor (Z.lor (tv_usec d) COMMON_TIMEOUT_MAGIC) (Z.shiftl n COMMON_TIMEOUT_IDX_SHIFT)).

(** A new queue for the duration [d]. *)
Definition add_common (d : timeval) : EM (option timeval) := λ b,
  let n := n_common_timeouts b in
  let x := new_event b in
  let ctl := Common_timeout_list [] (common_duration d n) x in
  '(_, b) ← event_assign x (-1) 0 common_timeout_cb n b;
  '(_, b) ← upd_cb (add_flag EVLIST_INTERNAL) (of_event x) b;
  '(_, b) ← event_priority_set x 0 b;
  let b := with_common (common_timeout_queues b ++ [ctl]) (n_common_timeouts_allocated b) b in
  if is_common (duration ctl) b then Some (Some (duration ctl), b) else None.

(** The timeval to be passed to event_add, [None] for NULL. *)
Definition event_base_init_common_timeout (d : timeval) : EM (option timeval) := λ b,
  let d := normalized_duration b d in
  match List.find (same_duration d) (common_timeout_queues b) with
  | Some ctl => if is_common (duration ctl) b then Some (Some (duration ctl), b) else None
  | None =>
      let n := n_common_timeouts b in
      if n =? MAX_COMMON_TIMEOUTS then Some (None, b)
      else
        let grow := n_common_timeouts_allocated b =? n in
        let size := if n <? 16 then 16 else n * 2 in
        if grow && negb (mm (allocs (maps b)) (size * 8)) then Some (None, next_alloc b)
        else
          let b := if grow then next_alloc (with_common (common_timeout_queues b) size b) else b in
          if negb (mm (allocs (maps b)) sizeof_common_timeout_list) then Some (None, next_alloc b)
          else
            add_common d (next_alloc b)
  end.

(** event_base_new: one queue, nothing added. *)
Definition event_base_new : event_base :=
  Event_base ∅ ∅ (Evmaps [] [] [] 0) (Event_counts 0 0 0 0 0 0)
    (Loop_state false false false 0 false 0 None) [[]] [] [] 0 min_heap_ctor_
    (Time_state evutil_timerclear 1) (Frame_state 0 None).

(** event_base_priority_init; [n] queues. *)
Definition EVENT_MAX_PRIORITIES : Z := 256.
Definition event_base_priority_init (n : Z) : EM Z := λ b,
  if negb (N_ACTIVE_CALLBACKS b =? 0) || (n <? 1) || (EVENT_MAX_PRIORITIES <=? n) then Some (-1, b)
  else if n =? nactivequeues b then Some (0, b)
  else if mm (allocs (maps b)) (n * 16)
  then Some (0, next_alloc (with_queues (replicate (Z.to_nat n) []) (active_later_queue b) b))
  else Some (-1, next_alloc (with_queues [] (active_later_queue b) b)).

(** ** event_base_assert_ok_nolock_ *)

Definition heap_checked (b : event_base) : bool :=
  forallb (λ i,
    match slot (timeheap b) (Z.of_nat i), slot (timeheap b) (Z.quot (Z.of_nat i - 1) 2) with
    | Some x, Some p =>
        match evs b !! x, evs b !! p with
        | Some ev, Some pev =>
            has EVLIST_TIMEOUT (ev_flags ev) &&
            evutil_timercmp Z.leb (ev_timeout pev) (ev_timeout ev) &&
            match ev_timeout_pos ev with min_heap_idx k => k =? Z.of_nat i | _ => false end
        | _, _ => false
        end
    | _, _ => false
    end) (seq 1 (Z.to_nat (heap_n (timeheap b)) - 1)).

Fixpoint common_list_checked (b : event_base) (i : Z) (last : option timeval) (l : list nat) : bool :=
  match l with
  | [] => true
  | x :: l =>
      match evs b !! x with
      | Some ev =>
          match last with Some t => evutil_timercmp Z.leb t (ev_timeout ev) | None => true end &&
          has EVLIST_TIMEOUT (ev_flags ev) && is_common (ev_timeout ev) b &&
          (COMMON_TIMEOUT_IDX (ev_timeout ev) =? i) && common_list_checked b i (Some (ev_timeout ev)) l
      | None => false
      end
  end.

Definition active_checked (b : event_base) (i : Z) (q : list evcb_ptr) : bool :=
  forallb (λ p, match callback_at b p with
    | Some c => has EVLIST_ACTIVE (evcb_flags c) && negb (has EVLIST_ACTIVE_LATER (evcb_flags c)) &&
                (evcb_pri c =? i)
    | None => false end) q.
Definition later_checked (b : event_base) (q : list evcb_ptr) : bool :=
  forallb (λ p, match callback_at b p with
    | Some c => has EVLIST_ACTIVE_LATER (evcb_flags c) && negb (has EVLIST_ACTIVE (evcb_flags c))
    | None => false end) q.

Definition event_base_assert_ok_nolock_ (b : event_base) : bool :=
  evmap_check_integrity_ (evs b) (maps b) &&
  heap_checked b &&
  forallb id (imap (λ i ctl, common_list_checked b (Z.of_nat i) None (ctl_events ctl)) (common_timeout_queues b)) &&
  forallb id (imap (λ i q, active_checked b (Z.of_nat i) q) (activequeues b)) &&
  later_checked b (active_later_queue b) &&
  (Zlen (concat (activequeues b)) + Zlen (active_later_queue b) =? event_count_active (counts b)).
End base.
