(* ===== verification/EventBaseOk.v ===== *)
(** * The event base is consistent

    The invariant of struct event_base, and that the functions of EventBase.v preserve it and never
    fail: a callback is on the queue its flags and its priority say, a timer in the heap or in the
    common queue its timeout says, an event that waits for a descriptor or a signal on the list of
    that descriptor or signal; the counts are those of what is pending. *)

From stdpp Require Import sorting.
From S2P Require Import Prelude Timeval Event MinHeap EvMap EventBase.

(** ** Running to the end

    [wp m b Q]: from [b], [m] ends, without failing, with a result and a state that satisfy [Q]. *)

Definition wp {A} (m : EM A) (b : event_base) (Q : A → event_base → Prop) : Prop :=
  ∃ a b', m b = Some (a, b') ∧ Q a b'.

Lemma wp_mono {A} (m : EM A) b (Q Q' : A → event_base → Prop) :
  wp m b Q → (∀ a b', Q a b' → Q' a b') → wp m b Q'.
Proof. intros (a & b' & E & H) HQ. exists a, b'. auto. Qed.
Lemma wp_ret {A} (a : A) b (Q : A → event_base → Prop) : Q a b → wp (mret a) b Q.
Proof. intros H. by exists a, b. Qed.
Lemma wp_bind {A B} (m : EM A) (f : A → EM B) b Q : wp m b (λ a b', wp (f a) b' Q) → wp (m ≫= f) b Q.
Proof.
  intros (a & b1 & E & c & b2 & E2 & H). exists c, b2. split; [|done].
  unfold mbind, em_bind. by rewrite E.
Qed.
Lemma wp_fmap {A B} (f : A → B) (m : EM A) b Q : wp m b (λ a b', Q (f a) b') → wp (f <$> m) b Q.
Proof. intros (a & b1 & E & H). exists (f a), b1. split; [|done]. unfold fmap, em_fmap. by rewrite E. Qed.
Lemma wp_gets {A} (f : event_base → A) b (Q : A → event_base → Prop) : Q (f b) b → wp (gets f) b Q.
Proof. intros H. by exists (f b), b. Qed.
Lemma wp_modify f b (Q : unit → event_base → Prop) : Q tt (f b) → wp (modify f) b Q.
Proof. intros H. by exists tt, (f b). Qed.
Lemma wp_lift {A} (f : event_base → option A) b a (Q : A → event_base → Prop) :
  f b = Some a → Q a b → wp (lift f) b Q.
Proof. intros E H. exists a, b. unfold lift. by rewrite E. Qed.
Lemma wp_assert c b (Q : unit → event_base → Prop) : c = true → Q tt b → wp (assert c) b Q.
Proof. intros -> H. by exists tt, b. Qed.
Lemma wp_when c m b (Q : unit → event_base → Prop) :
  (c = true → wp m b Q) → (c = false → Q tt b) → wp (when c m) b Q.
Proof. destruct c; intros H1 H2; [auto|]. by apply wp_ret, H2. Qed.
Lemma wp_get_event x ev b (Q : event → event_base → Prop) :
  evs b !! x = Some ev → Q ev b → wp (get_event x) b Q.
Proof. intros E H. by apply (wp_lift (λ b, evs b !! x) b ev). Qed.
Lemma wp_get_cb p c b (Q : event_callback → event_base → Prop) :
  callback_at b p = Some c → Q c b → wp (get_cb p) b Q.
Proof. intros E H. by apply (wp_lift (λ b, callback_at b p) b c). Qed.

(** ** Flags *)

(** A flag is one bit. *)
Definition flag (f : Z) : Prop := ∃ k, 0 <= k ∧ f = 2 ^ k.

Lemma has_add f g z : flag f → has f (Z.lor z g) = has f z || has f g.
Proof. intros (k & Hk & ->). by rewrite !has_testbit, Z.lor_spec. Qed.
Lemma has_drop f g z : flag f → has f (clear_bits g z) = has f z && negb (has f g).
Proof.
  intros (k & Hk & ->). unfold clear_bits. by rewrite !has_testbit, Z.land_spec, Z.lnot_spec by done.
Qed.
Lemma has_or f g z : has (Z.lor f g) z = has f z || has g z.
Proof.
  unfold has. rewrite Z.land_lor_distr_r.
  destruct (Z.eqb_spec (Z.land z f) 0) as [->|Hf], (Z.eqb_spec (Z.land z g) 0) as [->|Hg]; cbn.
  - done.
  - rewrite Z.lor_0_l. apply negb_true_iff, Z.eqb_neq. done.
  - rewrite Z.lor_0_r. apply negb_true_iff, Z.eqb_neq. done.
  - apply negb_true_iff, Z.eqb_neq. intros H%Z.lor_eq_0_iff. tauto.
Qed.

Lemma flag_timeout : flag EVLIST_TIMEOUT. Proof. by exists 0. Qed.
Lemma flag_inserted : flag EVLIST_INSERTED. Proof. by exists 1. Qed.
Lemma flag_active : flag EVLIST_ACTIVE. Proof. by exists 3. Qed.
Lemma flag_internal : flag EVLIST_INTERNAL. Proof. by exists 4. Qed.
Lemma flag_later : flag EVLIST_ACTIVE_LATER. Proof. by exists 5. Qed.
Lemma flag_finalizing : flag EVLIST_FINALIZING. Proof. by exists 6. Qed.
Lemma flag_init : flag EVLIST_INIT. Proof. by exists 7. Qed.

Create HintDb flags.
#[export] Hint Resolve flag_timeout flag_inserted flag_active flag_internal flag_later
  flag_finalizing flag_init : flags.

Ltac is_flag g :=
  first [constr_eq g EVLIST_TIMEOUT | constr_eq g EVLIST_INSERTED | constr_eq g EVLIST_ACTIVE
    | constr_eq g EVLIST_INTERNAL | constr_eq g EVLIST_ACTIVE_LATER | constr_eq g EVLIST_FINALIZING
    | constr_eq g EVLIST_INIT].

(** What the flags are after one is set or cleared. *)
Ltac flags :=
  cbn [add_flag drop_flag cb_with_flags evcb_flags evcb_pri evcb_closure evcb_cb_union evcb_arg] in *;
  rewrite ?has_add, ?has_drop in * by eauto with flags;
  repeat match goal with
    | H : context [has ?f ?g] |- _ =>
        is_flag g;
        let v := eval vm_compute in (has f g) in change (has f g) with v in H
    | |- context [has ?f ?g] =>
        is_flag g;
        let v := eval vm_compute in (has f g) in change (has f g) with v
    end;
  rewrite ?orb_false_r, ?orb_true_r, ?andb_true_r, ?andb_false_r in *; cbn [negb] in *;
  rewrite ?andb_true_r, ?andb_false_r in *.

(** Flags within EVLIST_ALL stay there. *)
Lemma all_flags_add z g : clear_bits EVLIST_ALL z = 0 → clear_bits EVLIST_ALL g = 0 →
  clear_bits EVLIST_ALL (Z.lor z g) = 0.
Proof. unfold clear_bits. intros H1 H2. rewrite Z.land_lor_distr_l, H1, H2. done. Qed.
Lemma all_flags_drop z g : clear_bits EVLIST_ALL z = 0 → clear_bits EVLIST_ALL (clear_bits g z) = 0.
Proof.
  unfold clear_bits. intros H. rewrite <- Z.land_assoc, (Z.land_comm (Z.lnot g)), Z.land_assoc, H.
  apply Z.land_0_l.
Qed.

(** ** The invariant *)

(** An event without its index in the heap. *)
Definition core (e : event) : event := with_pos (min_heap_idx 0) e.

(** [n] common timeouts; [tv] is a deadline of the [i]-th. *)
Definition common_at (i : Z) (tv : timeval) : Prop :=
  tv_usec tv / 2 ^ 20 = 1280 + i ∧ tv_normal (real_timeout tv).
Definition valid_tv (n : Z) (tv : timeval) : Prop :=
  tv_normal tv ∨ ∃ i, 0 <= i < n ∧ common_at i tv.

(** The deadline of a pending timer. *)
Definition pending (st : store) (x : nat) : option timeval :=
  ev ← st !! x; if has EVLIST_TIMEOUT (ev_flags ev) then Some (ev_timeout ev) else None.

(** The timers are in the heap and in the common queues, these in the order of the deadlines. *)
Record lists_ok (P : nat → option timeval) (ctls : list common_timeout_list) (hs : list nat) : Prop := {
  lo_heap : ∀ x, x ∈ hs ↔ ∃ t, P x = Some t ∧ tv_normal t;
  lo_common : ∀ i ctl, ctls !! i = Some ctl →
    ∀ x, x ∈ ctl_events ctl ↔ ∃ t, P x = Some t ∧ common_at (Z.of_nat i) t;
  lo_valid : ∀ x t, P x = Some t → valid_tv (Zlen ctls) t;
  lo_nodup : ∀ i ctl, ctls !! i = Some ctl → NoDup (ctl_events ctl);
  lo_sorted : ∀ i ctl, ctls !! i = Some ctl →
    StronglySorted (λ x y, ∀ t u, P x = Some t → P y = Some u → tv_le t u) (ctl_events ctl);
  lo_max : Zlen ctls <= MAX_COMMON_TIMEOUTS
}.

(** Where a callback is: is it active, is it to be active later, and its priority. *)
Definition where_ (c : event_callback) : bool * bool * Z :=
  (has EVLIST_ACTIVE (evcb_flags c), has EVLIST_ACTIVE_LATER (evcb_flags c), evcb_pri c).

Record queues_ok (W : evcb_ptr → option (bool * bool * Z)) (qs : list (list evcb_ptr))
    (later : list evcb_ptr) : Prop := {
  qo_active : ∀ i q, qs !! i = Some q → ∀ p, p ∈ q ↔ W p = Some (true, false, Z.of_nat i);
  qo_later : ∀ p, p ∈ later ↔ ∃ pri, W p = Some (false, true, pri);
  qo_range : ∀ p a l pri, W p = Some (a, l, pri) → 0 <= pri < Zlen qs ∧ (a && l = false);
  qo_nodup : ∀ i q, qs !! i = Some q → NoDup q;
  qo_nodup_later : NoDup later
}.

(** The descriptor or signal and the conditions of an inserted event. *)
Definition inserted (st : store) (x : nat) : option (Z * Z) :=
  ev ← st !! x; if has EVLIST_INSERTED (ev_flags ev) then Some (ev_fd ev, ev_events ev) else None.

Record inserted_ok (I : nat → option (Z * Z)) (m : evmaps) : Prop := {
  io_fds : ∀ fd x, on_fd m fd x ↔ 0 <= fd ∧ ∃ evs, I x = Some (fd, evs) ∧ has IO_EVENTS evs = true;
  io_sigs : ∀ sig x, on_signal m sig x ↔ 0 <= sig ∧ ∃ evs, I x = Some (sig, evs) ∧ has EV_SIGNAL evs = true;
  io_some : ∀ x fd evs, I x = Some (fd, evs) → has IO_EVENTS evs || has EV_SIGNAL evs = true
}.

(** The share of a callback in event_count. *)
Definition weight (flags : Z) : Z :=
  counted flags * (Z.b2z (has EVLIST_INSERTED flags) + Z.b2z (has EVLIST_TIMEOUT flags) +
    Z.b2z (has EVLIST_ACTIVE flags) + Z.b2z (has EVLIST_ACTIVE_LATER flags)).

Definition msum {A} (f : A → Z) (m : gmap nat A) : Z := map_fold (λ _ a acc, f a + acc) 0 m.

Definition pending_total (st : store) (cs : gmap nat event_callback) : Z :=
  msum (λ e, weight (ev_flags e)) st + msum (λ c, weight (evcb_flags c)) cs.

Definition closure_of (events : Z) : Z :=
  if has EV_SIGNAL events then EV_CLOSURE_EVENT_SIGNAL
  else if has EV_PERSIST events then EV_CLOSURE_EVENT_PERSIST else EV_CLOSURE_EVENT.

Definition finalize_closure (closure : Z) : Prop :=
  closure = EV_CLOSURE_EVENT_FINALIZE ∨ closure = EV_CLOSURE_EVENT_FINALIZE_FREE.

(** A set up event: its closure fits its conditions, the members its closure reads are there. *)
Record event_wf (e : event) : Prop := {
  ew_init : has EVLIST_INIT (ev_flags e) = true;
  ew_flags : clear_bits EVLIST_ALL (ev_flags e) = 0;
  ew_base : ev_base e = true;
  ew_events : has EV_SIGNAL (ev_events e) && has IO_EVENTS (ev_events e) = false;
  ew_fd : ev_fd e < 2 ^ 30;
  ew_signal : has EV_SIGNAL (ev_events e) = true → 0 <= ev_fd e ∧ is_Some (ev_ncalls e);
  ew_closure : ev_closure e = closure_of (ev_events e) ∨ finalize_closure (ev_closure e);
  ew_persist : ev_closure e = EV_CLOSURE_EVENT_PERSIST →
    has EV_SIGNAL (ev_events e) = false ∧ is_Some (ev_io_timeout e)
}.

(** A callback of its own. *)
Record alone_wf (c : event_callback) : Prop := {
  aw_init : has EVLIST_INIT (evcb_flags c) = false;
  aw_closure : evcb_closure c = EV_CLOSURE_CB_SELF ∨ evcb_closure c = EV_CLOSURE_CB_FINALIZE;
  aw_user : ∃ f, evcb_cb_union c = user_cb f;
  aw_internal : has EVLIST_INTERNAL (evcb_flags c) = false
}.

(** The counter of calls that an event points to is that of the running closure. *)
Definition frame_ok (st : store) (f : frame_state) : Prop :=
  ∀ x ev n k, st !! x = Some ev → has EV_SIGNAL (ev_events ev) = true →
    ev_ncalls ev = Some n → n ≠ 0 → ev_pncalls ev = Some (Some k) → ∃ m, frame f = Some (k, m).

(** The timer of a common queue. *)
Definition common_timer (i : Z) (e : event) : Prop :=
  has EVLIST_INTERNAL (ev_flags e) = true ∧ has EVLIST_FINALIZING (ev_flags e) = false ∧
  ev_events e = 0 ∧ ev_evcallback e = Event_callback (ev_flags e) 0 EV_CLOSURE_EVENT common_timeout_cb i.

(** What concerns the events and the callbacks one by one. *)
Record items_ok (b : event_base) : Prop := {
  bo_wf : ∀ x ev, evs b !! x = Some ev → event_wf ev;
  bo_alone : ∀ c cb, cbs b !! c = Some cb → alone_wf cb;
  bo_frame : frame_ok (evs b) (signal_frame b);
  bo_timers : ∀ i ctl, common_timeout_queues b !! i = Some ctl →
    common_at (Z.of_nat i) (duration ctl) ∧
    ∃ ev, evs b !! timeout_event ctl = Some ev ∧ common_timer (Z.of_nat i) ev;
  bo_size : Z.of_nat (size (evs b)) + 1 < 2 ^ 31
}.

Record base_ok (b : event_base) : Prop := {
  bo_items : items_ok b;
  bo_heap : ∃ hs, heap_rep (timeheap b) (evs b) hs ∧
    lists_ok (pending (evs b)) (common_timeout_queues b) hs;
  bo_queues : queues_ok (λ p, where_ <$> callback_at b p) (activequeues b) (active_later_queue b);
  bo_inserted : inserted_ok (inserted (evs b)) (maps b);
  bo_maps : evmap_ok (evs b) (maps b);
  bo_count : event_count (counts b) = pending_total (evs b) (cbs b);
  bo_active : event_count_active (counts b) = Zlen (concat (activequeues b)) + Zlen (active_later_queue b)
}.

(** ** The parts of the invariant depend on a few members only *)

Lemma StronglySorted_weaken {A} (R R' : A → A → Prop) l :
  StronglySorted R l → (∀ x y, R x y → R' x y) → StronglySorted R' l.
Proof. intros H HR. induction H; constructor; [done|]. eapply Forall_impl; eauto. Qed.

Lemma lists_ok_ext P P' ctls hs : (∀ x, P' x = P x) → lists_ok P ctls hs → lists_ok P' ctls hs.
Proof.
  intros HP []. split; try done.
  - intros x. rewrite HP. auto.
  - intros i ctl Hi x. rewrite HP. eauto.
  - intros x t. rewrite HP. eauto.
  - intros i ctl Hi. eapply StronglySorted_weaken; [by eapply lo_sorted0|]. intros x y H t u. rewrite !HP. auto.
Qed.

Lemma queues_ok_ext W W' qs later : (∀ p, W' p = W p) → queues_ok W qs later → queues_ok W' qs later.
Proof.
  intros HW []. split; try done.
  - intros i q Hi p. rewrite HW. eauto.
  - intros p. rewrite HW. auto.
  - intros p a l pri. rewrite HW. eauto.
Qed.

Lemma inserted_ok_ext I I' m : (∀ x, I' x = I x) → inserted_ok I m → inserted_ok I' m.
Proof.
  intros HI []. split.
  - intros fd x. rewrite HI. auto.
  - intros sig x. rewrite HI. auto.
  - intros x fd evs. rewrite HI. eauto.
Qed.

(** The lists of the maps depend on the descriptors and the conditions of the events on them. *)
Lemma evmap_ok_ext st st' m :
  (∀ x ev, st !! x = Some ev → (∃ fd, on_fd m fd x ∨ on_signal m fd x) →
     ∃ ev', st' !! x = Some ev' ∧ ev_fd ev' = ev_fd ev ∧ ev_events ev' = ev_events ev) →
  evmap_ok st m → evmap_ok st' m.
Proof.
  intros Hst [Hi Hs Hw Hh]. split; [| |done|done].
  - intros fd ctx Hfd He. destruct (Hi fd ctx Hfd He) as [Hnd Hf Hc Hb]. split; try done.
    + intros x Hx. destruct (Hf x Hx) as (ev & E1 & E2).
      destruct (Hst x ev E1) as (ev' & E3 & E4 & _); [exists fd; left; split; eauto|]. exists ev'. by rewrite E4.
    + intros bit Hbit. rewrite Hc by done. symmetry. apply count_events_ext. intros x Hx. unfold events_of. destruct (Hf x Hx) as (ev & E1 & E2).
      destruct (Hst x ev E1) as (ev' & E3 & _ & E4); [exists fd; left; split; eauto|].
      rewrite E1, E3. cbn. by rewrite E4.
  - intros sig ctx Hsig He. destruct (Hs sig ctx Hsig He) as [Hnd Hf]. split; [done|].
    intros x Hx. destruct (Hf x Hx) as (ev & E1 & E2).
    destruct (Hst x ev E1) as (ev' & E3 & E4 & _); [exists sig; right; split; eauto|]. exists ev'. by rewrite E4.
Qed.

(** ** Sums *)

Lemma msum_insert_new {A} (f : A → Z) (m : gmap nat A) k a :
  m !! k = None → msum f (<[k := a]> m) = f a + msum f m.
Proof. intros H. unfold msum. rewrite map_fold_insert_L; [done|intros; lia|done]. Qed.

Lemma msum_insert {A} (f : A → Z) (m : gmap nat A) k a0 a :
  m !! k = Some a0 → msum f (<[k := a]> m) = msum f m - f a0 + f a.
Proof.
  intros H. rewrite <- (insert_delete_id m k a0 H) at 2.
  rewrite <- insert_delete_eq, !msum_insert_new by apply lookup_delete_eq. lia.
Qed.

Lemma msum_ext {A} (f : A → Z) (g : A → A) (m m' : gmap nat A) :
  g <$> m' = g <$> m → (∀ a, f a = f (g a)) → msum f m' = msum f m.
Proof.
  intros Hm Hf. assert (∀ m0, msum f m0 = msum f (g <$> m0)) as H.
  { intros m0. induction m0 as [|k a m0 Hk IH] using map_ind; [by rewrite fmap_empty|].
    rewrite fmap_insert, !msum_insert_new by (done || by rewrite lookup_fmap, Hk).
    by rewrite IH, Hf. }
  by rewrite (H m), (H m'), Hm.
Qed.

(** ** Writing a callback *)

Definition put_cb (p : evcb_ptr) (c : event_callback) (b : event_base) : event_base :=
  match p with
  | of_event x => match evs b !! x with
                  | Some ev => with_evs (<[x := with_evcallback c ev]> (evs b)) b | None => b end
  | alone k => with_cbs (<[k := c]> (cbs b)) b
  end.

Lemma upd_cb_put f p b c : callback_at b p = Some c → upd_cb f p b = Some (tt, put_cb p (f c) b).
Proof.
  destruct p as [x|k]; cbn [callback_at upd_cb put_cb]; unfold upd_event, update_event.
  - destruct (evs b !! x) as [ev|] eqn:E; [|done]. intros [= <-]. cbn. done.
  - intros ->. done.
Qed.

Lemma wp_upd_cb f p b c (Q : unit → event_base → Prop) :
  callback_at b p = Some c → Q tt (put_cb p (f c) b) → wp (upd_cb f p) b Q.
Proof. intros Hc HQ. exists tt, (put_cb p (f c) b). split; [by apply upd_cb_put|done]. Qed.

Lemma callback_at_put p c c0 b q :
  callback_at b p = Some c0 →
  callback_at (put_cb p c b) q = if decide (q = p) then Some c else callback_at b q.
Proof.
  destruct p as [x|k]; cbn [callback_at put_cb].
  - destruct (evs b !! x) as [ev|] eqn:E; [|done]. intros [= <-]. destruct q as [y|k]; cbn.
    + destruct (decide (of_event y = of_event x)) as [[= ->]|Hne]; [by rewrite lookup_insert_eq|].
      rewrite lookup_insert_ne; [done|]. congruence.
    + done.
  - intros H. destruct q as [y|k']; cbn; [done|].
    destruct (decide (alone k' = alone k)) as [[= ->]|Hne]; [by rewrite lookup_insert_eq|].
    rewrite lookup_insert_ne; [done|]. congruence.
Qed.

Lemma evs_put p c b x ev :
  evs (put_cb p c b) !! x = Some ev →
  ∃ ev0, evs b !! x = Some ev0 ∧
    (p = of_event x ∧ ev = with_evcallback c ev0 ∨ p ≠ of_event x ∧ ev = ev0).
Proof.
  destruct p as [y|k]; cbn [put_cb].
  - destruct (evs b !! y) as [ev0|] eqn:E; cbn.
    + destruct (decide (x = y)) as [->|Hne].
      * rewrite lookup_insert_eq. intros [= <-]. eauto.
      * rewrite lookup_insert_ne by done. intros ->. exists ev. split; [done|]. right. split; [congruence|done].
    + intros H. exists ev. split; [done|]. right. split; [congruence|done].
  - cbn. intros H. exists ev. split; [done|]. by right.
Qed.

Lemma evs_put_inv p c b x ev0 :
  evs b !! x = Some ev0 → ∃ ev, evs (put_cb p c b) !! x = Some ev ∧
    (p = of_event x ∧ ev = with_evcallback c ev0 ∨ p ≠ of_event x ∧ ev = ev0).
Proof.
  intros H. destruct p as [y|k]; cbn [put_cb].
  - destruct (decide (x = y)) as [->|Hne].
    + rewrite H. cbn. rewrite lookup_insert_eq. eauto.
    + exists ev0. split; [|right; split; [congruence|done]].
      destruct (evs b !! y); cbn; [by rewrite lookup_insert_ne|done].
  - exists ev0. split; [done|by right].
Qed.

(** [put_cb] leaves the members of the base alone. *)
Lemma put_cb_rest p c b :
  put_cb p c b = Event_base (evs (put_cb p c b)) (cbs (put_cb p c b)) (maps b) (counts b) (loop b)
    (activequeues b) (active_later_queue b) (common_timeout_queues b) (n_common_timeouts_allocated b)
    (timeheap b) (time b) (signal_frame b).
Proof. destruct p as [x|k]; cbn; [destruct (evs b !! x)|]; by destruct b. Qed.

(** Only flags that are about queues differ. *)
Definition requeued (c0 c : event_callback) : Prop :=
  c = cb_with_flags (evcb_flags c) c0 ∧
  has EVLIST_INIT (evcb_flags c) = has EVLIST_INIT (evcb_flags c0) ∧
  has EVLIST_FINALIZING (evcb_flags c) = has EVLIST_FINALIZING (evcb_flags c0) ∧
  has EVLIST_INTERNAL (evcb_flags c) = has EVLIST_INTERNAL (evcb_flags c0) ∧
  (clear_bits EVLIST_ALL (evcb_flags c0) = 0 → clear_bits EVLIST_ALL (evcb_flags c) = 0).

Definition queue_flag (f : Z) : Prop :=
  f = EVLIST_TIMEOUT ∨ f = EVLIST_INSERTED ∨ f = EVLIST_ACTIVE ∨ f = EVLIST_ACTIVE_LATER.

#[export] Hint Unfold queue_flag : flags.

Lemma requeued_add f c : queue_flag f → requeued c (add_flag f c).
Proof.
  intros Hf. unfold requeued. split; [done|].
  destruct Hf as [->|[->|[->| ->]]]; flags; split_and!; try done; intros; by apply all_flags_add.
Qed.
Lemma requeued_drop f c : queue_flag f → requeued c (drop_flag f c).
Proof.
  intros Hf. unfold requeued. split; [done|].
  destruct Hf as [->|[->|[->| ->]]]; flags; split_and!; try done; intros; by apply all_flags_drop.
Qed.
Lemma requeued_trans c1 c2 c3 : requeued c1 c2 → requeued c2 c3 → requeued c1 c3.
Proof.
  intros (E1 & A1 & B1 & C1 & D1) (E2 & A2 & B2 & C2 & D2). unfold requeued.
  rewrite A2, B2, C2. split_and!; [|done..|auto]. rewrite E2. by rewrite E1 at 1.
Qed.

Lemma event_wf_requeued ev c : requeued (ev_evcallback ev) c → event_wf ev → event_wf (with_evcallback c ev).
Proof.
  intros (Hc & Hi & Hf & _ & Ha) []. unfold ev_flags, ev_closure in *.
  split; unfold ev_flags, ev_closure; cbn; try done.
  - by rewrite Hi.
  - auto.
  - rewrite Hc. cbn. auto.
  - rewrite Hc. cbn. auto.
Qed.

Lemma items_put p c c0 b :
  callback_at b p = Some c0 → requeued c0 c → items_ok b → items_ok (put_cb p c b).
Proof.
  intros Hp Hc [Hwf Hal Hfr Htm Hsz]. split.
  - intros x ev Hev. destruct (evs_put p c b x ev Hev) as (ev0 & E & [[-> ->]|[_ ->]]); [|by eapply Hwf].
    cbn in Hp. rewrite E in Hp. cbn in Hp. simplify_eq. apply event_wf_requeued; [done|by eapply Hwf].
  - intros k cb Hk. destruct p as [x|k0].
    + apply (Hal k). cbn in Hk. destruct (evs b !! x); done.
    + cbn in Hk, Hp. destruct (decide (k = k0)) as [->|Hne].
      * rewrite lookup_insert_eq in Hk. simplify_eq. destruct (Hal k0 c0 Hp) as [Hi Hcl Hu Hin].
        destruct Hc as (Hc & Hci & Hcf & Hcn & _). split; [by rewrite Hci|rewrite Hc; cbn; auto..|by rewrite Hcn].
      * rewrite lookup_insert_ne in Hk by done. by apply (Hal k).
  - intros x ev n k Hev. destruct (evs_put p c b x ev Hev) as (ev0 & E & [[-> ->]|[_ ->]]);
      rewrite put_cb_rest; cbn [signal_frame].
    + unfold ev_ncalls, ev_pncalls. cbn. by apply (Hfr x ev0).
    + by apply (Hfr x ev0).
  - intros i ctl Hi. rewrite put_cb_rest in Hi. cbn [common_timeout_queues] in Hi. destruct (Htm i ctl Hi) as (Hd & ev0 & E & Ht). split; [done|].
    destruct (evs_put_inv p c b _ _ E) as (ev & E' & [[-> ->]|[_ ->]]); eexists; (split; [exact E'|]); [|done].
    cbn in Hp. rewrite E in Hp. cbn in Hp. simplify_eq.
    destruct Ht as (H1 & H2 & H3 & H4), Hc as (Hc & _ & Hcf & Hci & _).
    unfold common_timer, ev_flags in *. cbn. rewrite Hci, Hcf. split_and!; try done.
    rewrite Hc at 1. by rewrite H4.
  - destruct p as [x|k]; cbn; [|done]. destruct (evs b !! x) eqn:E; cbn; [|done].
    by rewrite map_size_insert_Some by by rewrite E.
Qed.

Lemma pending_total_put p c c0 b :
  callback_at b p = Some c0 →
  pending_total (evs (put_cb p c b)) (cbs (put_cb p c b)) =
    pending_total (evs b) (cbs b) - weight (evcb_flags c0) + weight (evcb_flags c).
Proof.
  unfold pending_total. destruct p as [x|k]; cbn [callback_at put_cb].
  - destruct (evs b !! x) as [ev|] eqn:E; [|done]. intros [= <-]. cbn.
    rewrite (msum_insert _ _ _ ev) by done. unfold ev_flags. cbn. lia.
  - intros H. cbn. rewrite (msum_insert _ _ _ c0) by done. lia.
Qed.

(** ** Moving a callback from queue to queue *)

(** The callback at [p] has become [c]; the queues and the counts aside nothing else has changed. *)
Definition moved (p : evcb_ptr) (c : event_callback) (b b' : event_base) : Prop :=
  evs b' = evs (put_cb p c b) ∧ cbs b' = cbs (put_cb p c b) ∧ maps b' = maps b ∧
  common_timeout_queues b' = common_timeout_queues b ∧
  n_common_timeouts_allocated b' = n_common_timeouts_allocated b ∧ timeheap b' = timeheap b ∧
  time b' = time b ∧ signal_frame b' = signal_frame b ∧ nactivequeues b' = nactivequeues b ∧
  current_event (loop b') = current_event (loop b).

Lemma items_ok_same b b' :
  evs b' = evs b → cbs b' = cbs b → common_timeout_queues b' = common_timeout_queues b →
  signal_frame b' = signal_frame b → items_ok b → items_ok b'.
Proof. intros E1 E2 E3 E4 []. split; rewrite ?E1, ?E2, ?E3, ?E4; done. Qed.

Lemma callback_at_same b b' p : evs b' = evs b → cbs b' = cbs b → callback_at b' p = callback_at b p.
Proof. intros E1 E2. unfold callback_at. by rewrite E1, E2. Qed.

Lemma pending_put p c c0 b x :
  callback_at b p = Some c0 → has EVLIST_TIMEOUT (evcb_flags c) = has EVLIST_TIMEOUT (evcb_flags c0) →
  pending (evs (put_cb p c b)) x = pending (evs b) x.
Proof.
  intros Hp Ht. unfold pending. destruct (evs b !! x) as [ev0|] eqn:E.
  - destruct (evs_put_inv p c b x ev0 E) as (ev & -> & [[-> ->]|[_ ->]]); [|done]. cbn in Hp |- *.
    rewrite E in Hp. cbn in Hp. simplify_eq. unfold ev_flags. cbn. by rewrite Ht.
  - destruct (evs (put_cb p c b) !! x) as [ev|] eqn:E'; [|done].
    destruct (evs_put p c b x ev E') as (ev0 & E2 & _). congruence.
Qed.

Lemma inserted_put p c c0 b x :
  callback_at b p = Some c0 → has EVLIST_INSERTED (evcb_flags c) = has EVLIST_INSERTED (evcb_flags c0) →
  inserted (evs (put_cb p c b)) x = inserted (evs b) x.
Proof.
  intros Hp Ht. unfold inserted. destruct (evs b !! x) as [ev0|] eqn:E.
  - destruct (evs_put_inv p c b x ev0 E) as (ev & -> & [[-> ->]|[_ ->]]); [|done]. cbn in Hp |- *.
    rewrite E in Hp. cbn in Hp. simplify_eq. unfold ev_flags. cbn. by rewrite Ht.
  - destruct (evs (put_cb p c b) !! x) as [ev|] eqn:E'; [|done].
    destruct (evs_put p c b x ev E') as (ev0 & E2 & _). congruence.
Qed.

Lemma heap_rep_put h p c b hs : heap_rep h (evs b) hs → heap_rep h (evs (put_cb p c b)) hs.
Proof.
  intros H. eapply heap_rep_fields; [exact H|]. intros x e _ He.
  destruct (evs_put_inv p c b x e He) as (ev & -> & [[_ ->]|[_ ->]]); eauto.
Qed.

Lemma evmap_ok_put p c b m : evmap_ok (evs b) m → evmap_ok (evs (put_cb p c b)) m.
Proof.
  apply evmap_ok_ext. intros x ev Hev _.
  destruct (evs_put_inv p c b x ev Hev) as (ev' & -> & [[_ ->]|[_ ->]]); eauto.
Qed.

Lemma requeue_ok p c c0 b b' :
  base_ok b → callback_at b p = Some c0 → requeued c0 c → moved p c b b' →
  has EVLIST_TIMEOUT (evcb_flags c) = has EVLIST_TIMEOUT (evcb_flags c0) →
  has EVLIST_INSERTED (evcb_flags c) = has EVLIST_INSERTED (evcb_flags c0) →
  queues_ok (λ q, if decide (q = p) then Some (where_ c) else where_ <$> callback_at b q)
    (activequeues b') (active_later_queue b') →
  event_count (counts b') = event_count (counts b) - weight (evcb_flags c0) + weight (evcb_flags c) →
  event_count_active (counts b') = Zlen (concat (activequeues b')) + Zlen (active_later_queue b') →
  base_ok b'.
Proof.
  intros [] Hp Hr (E1 & E2 & E3 & E4 & E5 & E6 & E7 & E8 & E9) Ht Hi Hq Hc Ha. split.
  - eapply items_ok_same; [exact E1|exact E2| | |by eapply items_put];
      rewrite put_cb_rest; cbn; done.
  - destruct bo_heap0 as (hs & H1 & H2). exists hs. rewrite E6, E1, E4. split; [by apply heap_rep_put|].
    eapply lists_ok_ext; [|exact H2]. intros x. by eapply pending_put.
  - eapply queues_ok_ext; [|exact Hq]. intros q. rewrite (callback_at_same (put_cb p c b) b') by done.
    rewrite (callback_at_put p c c0) by done. by case_decide.
  - rewrite E1, E3. eapply inserted_ok_ext; [|exact bo_inserted0]. intros x. by eapply inserted_put.
  - rewrite E1, E3. by apply evmap_ok_put.
  - rewrite E1, E2, (pending_total_put p c c0) by done. by rewrite Hc, bo_count0.
  - done.
Qed.

(** The queues after a callback has left or joined one. *)
Definition at_ (W : evcb_ptr → option (bool * bool * Z)) (p : evcb_ptr) (w : bool * bool * Z) q :=
  if decide (q = p) then Some w else W q.

Lemma queues_leave_active W qs later p pri i q q' :
  queues_ok W qs later → W p = Some (true, false, pri) → i = Z.to_nat pri → qs !! i = Some q →
  NoDup q' → (∀ y, y ∈ q' ↔ y ∈ q ∧ y ≠ p) →
  queues_ok (at_ W p (false, false, pri)) (<[i := q']> qs) later.
Proof.
  intros [Ha Hl Hr Hn Hnl] Hp -> Hq Hnd Hq'. destruct (Hr p _ _ _ Hp) as [Hpri _].
  assert (Hlt : (Z.to_nat pri < length qs)%nat) by lia. unfold at_. split.
  - intros i r Hi y. destruct (decide (i = Z.to_nat pri)) as [->|Hne].
    + rewrite list_lookup_insert_eq in Hi by done. simplify_eq. rewrite Hq', (Ha _ _ Hq).
      case_decide; [split; [by intros [_ ?]|congruence]|]. split; [by intros [? _]|done].
    + rewrite list_lookup_insert_ne in Hi by done. rewrite (Ha _ _ Hi). case_decide as Hy; [subst|done].
      rewrite Hp. split; [|congruence]. intros [= ->]. lia.
  - intros y. rewrite Hl. case_decide as Hy; [subst|done]. rewrite Hp. split; intros [? [=]].
  - intros y a l pr. rewrite length_insert. case_decide; [intros [= <- <- <-]; split; [done|done]|apply Hr].
  - intros i r Hi. destruct (decide (i = Z.to_nat pri)) as [->|Hne].
    + rewrite list_lookup_insert_eq in Hi by done. by simplify_eq.
    + rewrite list_lookup_insert_ne in Hi by done. by eapply Hn.
  - done.
Qed.

Lemma queues_leave_later W qs later later' p pri :
  queues_ok W qs later → W p = Some (false, true, pri) → NoDup later' →
  (∀ y, y ∈ later' ↔ y ∈ later ∧ y ≠ p) →
  queues_ok (at_ W p (false, false, pri)) qs later'.
Proof.
  intros [Ha Hl Hr Hn Hnl] Hp Hnd Hq'. destruct (Hr p _ _ _ Hp) as [Hpri _]. unfold at_. split; try done.
  - intros i r Hi y. rewrite (Ha _ _ Hi). case_decide as Hy; [subst|done]. rewrite Hp. by split; intros [=].
  - intros y. rewrite Hq', Hl. case_decide as Hy; [subst; split; [by intros [_ ?]|intros [? [=]]]|].
    split; [by intros [? _]|done].
  - intros y a l pr. case_decide; [by intros [= <- <- <-]|apply Hr].
Qed.

Lemma queues_join_active W qs later p pri i q :
  queues_ok W qs later → W p = Some (false, false, pri) → i = Z.to_nat pri → qs !! i = Some q →
  queues_ok (at_ W p (true, false, pri)) (<[i := q ++ [p]]> qs) later.
Proof.
  intros [Ha Hl Hr Hn Hnl] Hp -> Hq. destruct (Hr p _ _ _ Hp) as [Hpri _].
  assert (Hlt : (Z.to_nat pri < length qs)%nat) by lia. unfold at_. split.
  - intros i r Hi y. destruct (decide (i = Z.to_nat pri)) as [->|Hne].
    + rewrite list_lookup_insert_eq in Hi by done. simplify_eq.
      rewrite elem_of_app, list_elem_of_singleton, (Ha _ _ Hq), Z2Nat.id by lia.
      case_decide; subst; [split; [done|by right]|]. split; [by intros [?|?]|by left].
    + rewrite list_lookup_insert_ne in Hi by done. rewrite (Ha _ _ Hi). case_decide as Hy; [subst|done].
      rewrite Hp. split; [by intros [=]|]. intros [= ->]. lia.
  - intros y. rewrite Hl. case_decide as Hy; [subst|done]. rewrite Hp. split; intros [? [=]].
  - intros y a l pr. rewrite length_insert. case_decide; [by intros [= <- <- <-]|apply Hr].
  - intros i r Hi. destruct (decide (i = Z.to_nat pri)) as [->|Hne].
    + rewrite list_lookup_insert_eq in Hi by done. simplify_eq. apply NoDup_app. split; [by eapply Hn|].
      split; [|apply NoDup_singleton]. intros y Hy ->%list_elem_of_singleton.
      rewrite (Ha _ _ Hq) in Hy. congruence.
    + rewrite list_lookup_insert_ne in Hi by done. by eapply Hn.
  - done.
Qed.

Lemma queues_join_later W qs later p pri :
  queues_ok W qs later → W p = Some (false, false, pri) →
  queues_ok (at_ W p (false, true, pri)) qs (later ++ [p]).
Proof.
  intros [Ha Hl Hr Hn Hnl] Hp. destruct (Hr p _ _ _ Hp) as [Hpri _]. unfold at_. split; try done.
  - intros i r Hi y. rewrite (Ha _ _ Hi). case_decide as Hy; [subst|done]. rewrite Hp. by split; intros [=].
  - intros y. rewrite elem_of_app, list_elem_of_singleton, Hl. case_decide as Hy; [subst|].
    + split; [eauto|by right].
    + split; [by intros [?|?]|by left].
  - intros y a l pr. case_decide; [by intros [= <- <- <-]|apply Hr].
  - apply NoDup_app. split; [done|]. split; [|apply NoDup_singleton].
    intros y Hy ->%list_elem_of_singleton. apply Hl in Hy as [? Hy]. congruence.
Qed.

Lemma counted_has flags : counted flags = if has EVLIST_INTERNAL flags then 0 else 1.
Proof.
  unfold counted. change EVLIST_INTERNAL with (2 ^ 4). rewrite has_testbit by done.
  change 1 with (Z.ones 1) at 1. rewrite Z.land_ones by done. change (2 ^ 1) with 2.
  rewrite <- Z.bit0_mod, Z.lnot_spec, Z.shiftr_spec by done. change (0 + 4) with 4. by destruct (Z.testbit flags 4).
Qed.

Lemma concat_length_insert {A} (qs : list (list A)) i q q' :
  qs !! i = Some q → Zlen (concat (<[i := q']> qs)) = Zlen (concat qs) - Zlen q + Zlen q'.
Proof.
  revert i. induction qs as [|r qs IH]; intros [|i] H; simplify_eq/=.
  - rewrite !length_app. lia.
  - rewrite !length_app, !Nat2Z.inj_add, IH by done. lia.
Qed.

Lemma queue_at_lookup b pri : 0 <= pri → queue_at b pri = activequeues b !! Z.to_nat pri.
Proof. intros H. unfold queue_at. by rewrite (proj2 (Z.ltb_ge _ _)) by lia. Qed.

(** The queue of an active callback. *)
Lemma active_queue b p c :
  base_ok b → callback_at b p = Some c → has EVLIST_ACTIVE (evcb_flags c) = true →
  ∃ q, queue_at b (evcb_pri c) = Some q ∧ activequeues b !! Z.to_nat (evcb_pri c) = Some q ∧
    p ∈ q ∧ NoDup q ∧ has EVLIST_ACTIVE_LATER (evcb_flags c) = false.
Proof.
  intros Hok Hp Ha. pose proof (bo_queues _ Hok) as [Hqa _ Hr Hn _].
  assert (HW : where_ <$> callback_at b p = Some (where_ c)) by by rewrite Hp.
  destruct (Hr p _ _ _ HW) as [Hpri Hx]. rewrite Ha in Hx. cbn in Hx.
  destruct (lookup_lt_is_Some_2 (activequeues b) (Z.to_nat (evcb_pri c))) as [q Hq]; [lia|].
  exists q. rewrite queue_at_lookup by lia. split_and!; try done; [|by eapply Hn].
  apply (Hqa _ _ Hq). rewrite HW. unfold where_. rewrite Ha, Hx, Z2Nat.id by lia. done.
Qed.

(** Members of a base that has been updated. *)
Ltac bcbn := cbn [evs cbs maps counts loop activequeues active_later_queue common_timeout_queues
  n_common_timeouts_allocated timeheap time signal_frame with_evs with_cbs with_maps with_counts
  with_loop with_queues with_common with_heap with_time with_signal_frame event_count
  event_count_active event_count_max event_count_active_max virtual_event_count
  virtual_event_count_max] in *.

Lemma put_cb_same p c b b1 :
  evs b1 = evs b → cbs b1 = cbs b →
  evs (put_cb p c b1) = evs (put_cb p c b) ∧ cbs (put_cb p c b1) = cbs (put_cb p c b).
Proof.
  intros E1 E2. destruct p as [x|k]; cbn; rewrite ?E1, ?E2; [|done].
  destruct (evs b !! x); cbn; by rewrite ?E1, ?E2.
Qed.

(** The weight of flags, from the bits. *)
Lemma weight_bits flags :
  weight flags = if has EVLIST_INTERNAL flags then 0 else
    Z.b2z (has EVLIST_INSERTED flags) + Z.b2z (has EVLIST_TIMEOUT flags) +
    Z.b2z (has EVLIST_ACTIVE flags) + Z.b2z (has EVLIST_ACTIVE_LATER flags).
Proof. unfold weight. rewrite counted_has. destruct (has EVLIST_INTERNAL flags); lia. Qed.

(** Solves an equation of counts. *)
Ltac weights :=
  rewrite ?weight_bits, ?counted_has; flags;
  repeat match goal with H : has _ _ = _ |- _ => rewrite H; clear H end; cbn [Z.b2z];
  repeat case_match; lia.

(** Reads off that only the callback and the queues have changed. *)
Ltac solve_moved :=
  unfold moved, nactivequeues, set_queue; bcbn; rewrite put_cb_rest; bcbn; rewrite ?length_insert; split_and!; try done;
  apply put_cb_same; done.

Lemma remove_active_ok p c b :
  base_ok b → callback_at b p = Some c → has EVLIST_ACTIVE (evcb_flags c) = true →
  wp (event_queue_remove_active p) b (λ _ b', base_ok b' ∧ moved p (drop_flag EVLIST_ACTIVE c) b b' ∧ loop b' = loop b).
Proof.
  intros Hok Hp Ha. destruct (active_queue b p c Hok Hp Ha) as (q & Hq & Hqi & Hin & Hnd & Hl).
  destruct (unlink_nodup p q Hnd Hin) as (q' & Hu & Hperm & Hnd' & Hmem & _).
  unfold event_queue_remove_active.
  apply wp_bind, (wp_get_cb p c); [done|]. apply wp_bind, wp_assert; [done|].
  apply wp_bind, wp_modify. apply wp_bind, (wp_upd_cb _ p _ c); [by destruct p|].
  apply wp_bind, wp_modify. set (c' := drop_flag EVLIST_ACTIVE c).
  eexists tt, _. unfold active_remove. rewrite put_cb_rest. unfold queue_at in *. bcbn. rewrite Hq.
  cbn [mbind option_bind]. rewrite Hu. cbn [mbind option_bind]. split; [done|].
  match goal with |- base_ok ?b' ∧ _ => assert (Hm : moved p c' b b') by solve_moved; split; [|by split] end.
  eapply (requeue_ok p c' c b); [done|done|apply requeued_drop; auto with flags|exact Hm|
    by unfold c'; flags|by unfold c'; flags|..]; unfold set_queue; bcbn.
  - eapply queues_ok_ext.
    2:{ apply (queues_leave_active _ _ _ p (evcb_pri c) _ q q' (bo_queues _ Hok)); try done.
        rewrite Hp. cbn. unfold where_. by rewrite Ha, Hl. }
    intros y. unfold at_. case_decide; [|done]. unfold where_, c'. flags. rewrite Hl. done.
  - unfold c'. weights.
  - rewrite (concat_length_insert _ _ q) by done. rewrite Hperm, (bo_active _ Hok). cbn [length]. lia.
Qed.

Lemma where_at b p c : callback_at b p = Some c → where_ <$> callback_at b p = Some (where_ c).
Proof. by intros ->. Qed.

Lemma remove_active_later_ok p c b :
  base_ok b → callback_at b p = Some c → has EVLIST_ACTIVE_LATER (evcb_flags c) = true →
  wp (event_queue_remove_active_later p) b (λ _ b',
    base_ok b' ∧ moved p (drop_flag EVLIST_ACTIVE_LATER c) b b' ∧ loop b' = loop b).
Proof.
  intros Hok Hp Hl. pose proof (bo_queues _ Hok) as [_ Hql Hr _ Hnd].
  pose proof (where_at _ _ _ Hp) as HW. destruct (Hr p _ _ _ HW) as [Hpri Ha].
  rewrite Hl, andb_true_r in Ha.
  assert (Hin : p ∈ active_later_queue b) by (apply Hql; rewrite HW; unfold where_; rewrite Ha, Hl; eauto).
  destruct (unlink_nodup p _ Hnd Hin) as (q' & Hu & Hperm & Hnd' & Hmem & _).
  unfold event_queue_remove_active_later.
  apply wp_bind, (wp_get_cb p c); [done|]. apply wp_bind, wp_assert; [done|].
  apply wp_bind, wp_modify. apply wp_bind, (wp_upd_cb _ p _ c); [by destruct p|].
  apply wp_bind, wp_modify. set (c' := drop_flag EVLIST_ACTIVE_LATER c).
  eexists tt, _. unfold later_remove. rewrite put_cb_rest. bcbn. rewrite Hu.
  cbn [mbind option_bind]. split; [done|].
  match goal with |- base_ok ?b' ∧ _ => assert (Hm : moved p c' b b') by solve_moved; split; [|by split] end.
  eapply (requeue_ok p c' c b); [done|done|apply requeued_drop; auto with flags|exact Hm|
    by unfold c'; flags|by unfold c'; flags|..]; unfold set_queue; bcbn.
  - eapply queues_ok_ext.
    2:{ apply (queues_leave_later _ _ _ q' p (evcb_pri c) (bo_queues _ Hok)); try done.
        rewrite HW. unfold where_. by rewrite Ha, Hl. }
    intros y. unfold at_. case_decide; [|done]. unfold where_, c'. flags. rewrite Ha. done.
  - unfold c'. weights.
  - rewrite (bo_active _ Hok), Hperm. cbn [length]. lia.
Qed.

(** The queue of a callback's priority. *)
Lemma priority_queue b p c :
  base_ok b → callback_at b p = Some c →
  (evcb_pri c <? nactivequeues b) = true ∧
  ∃ q, queue_at b (evcb_pri c) = Some q ∧ activequeues b !! Z.to_nat (evcb_pri c) = Some q.
Proof.
  intros Hok Hp. pose proof (bo_queues _ Hok) as [_ _ Hr _ _].
  destruct (Hr p _ _ _ (where_at _ _ _ Hp)) as [Hpri _]. split; [unfold nactivequeues; lia|].
  destruct (lookup_lt_is_Some_2 (activequeues b) (Z.to_nat (evcb_pri c))) as [q Hq]; [lia|].
  exists q. by rewrite queue_at_lookup by lia.
Qed.

Lemma insert_active_ok p c b :
  base_ok b → callback_at b p = Some c → has EVLIST_ACTIVE (evcb_flags c) = false →
  has EVLIST_ACTIVE_LATER (evcb_flags c) = false →
  wp (event_queue_insert_active p) b (λ _ b',
    base_ok b' ∧ moved p (add_flag EVLIST_ACTIVE c) b b' ∧ loop b' = loop b).
Proof.
  intros Hok Hp Ha Hl. destruct (priority_queue b p c Hok Hp) as (Hpri & q & Hq & Hqi).
  unfold event_queue_insert_active. apply wp_bind, (wp_get_cb p c); [done|]. rewrite Ha.
  apply wp_bind, wp_modify. apply wp_bind, (wp_upd_cb _ p _ c); [by destruct p|].
  apply wp_bind, wp_modify. apply wp_bind, wp_gets. rewrite put_cb_rest. bcbn.
  apply wp_bind, wp_assert; [done|]. set (c' := add_flag EVLIST_ACTIVE c).
  eexists tt, _. unfold active_insert_tail, queue_at in *. bcbn. rewrite Hq.
  cbn [mbind option_bind]. split; [done|].
  match goal with |- base_ok ?b' ∧ _ => assert (Hm : moved p c' b b') by solve_moved; split; [|by split] end.
  eapply (requeue_ok p c' c b); [done|done|apply requeued_add; auto with flags|exact Hm|
    by unfold c'; flags|by unfold c'; flags|..]; unfold set_queue; bcbn.
  - eapply queues_ok_ext.
    2:{ apply (queues_join_active _ _ _ p (evcb_pri c) _ q (bo_queues _ Hok)); try done.
        rewrite (where_at _ _ _ Hp). unfold where_. by rewrite Ha, Hl. }
    intros y. unfold at_. case_decide; [|done]. unfold where_, c'. flags. rewrite Hl. done.
  - unfold c'. weights.
  - rewrite (concat_length_insert _ _ q), (bo_active _ Hok), length_app by done. cbn [length]. lia.
Qed.

Lemma insert_active_later_ok p c b :
  base_ok b → callback_at b p = Some c → has EVLIST_ACTIVE (evcb_flags c) = false →
  has EVLIST_ACTIVE_LATER (evcb_flags c) = false →
  wp (event_queue_insert_active_later p) b (λ _ b',
    base_ok b' ∧ moved p (add_flag EVLIST_ACTIVE_LATER c) b b' ∧ loop b' = loop b).
Proof.
  intros Hok Hp Ha Hl. destruct (priority_queue b p c Hok Hp) as (Hpri & q & Hq & Hqi).
  unfold event_queue_insert_active_later. apply wp_bind, (wp_get_cb p c); [done|].
  rewrite has_or, Ha, Hl. cbn [orb].
  apply wp_bind, wp_modify. apply wp_bind, (wp_upd_cb _ p _ c); [by destruct p|].
  apply wp_bind, wp_modify. apply wp_bind, wp_gets. rewrite put_cb_rest. bcbn.
  apply wp_bind, wp_assert; [done|]. set (c' := add_flag EVLIST_ACTIVE_LATER c).
  apply wp_modify.
  match goal with |- base_ok ?b' ∧ _ => assert (Hm : moved p c' b b') by solve_moved; split; [|by split] end.
  eapply (requeue_ok p c' c b); [done|done|apply requeued_add; auto with flags|exact Hm|
    by unfold c'; flags|by unfold c'; flags|..]; unfold set_queue; bcbn.
  - eapply queues_ok_ext.
    2:{ apply (queues_join_later _ _ _ p (evcb_pri c) (bo_queues _ Hok)); try done.
        rewrite (where_at _ _ _ Hp). unfold where_. by rewrite Ha, Hl. }
    intros y. unfold at_. case_decide; [|done]. unfold where_, c'. flags. rewrite Ha. done.
  - unfold c'. weights.
  - rewrite (bo_active _ Hok), length_app. cbn [length]. lia.
Qed.

(** ** Changes of one callback or event *)

Lemma core_eq e e' : core e' = core e → e' = with_pos (ev_timeout_pos e') e.
Proof. destruct e, e'. unfold core, with_pos. cbn. intros H. by injection H as -> -> -> -> -> -> ->. Qed.

(** The signal event at [x] has the address of the counter of the k-th closure. *)
Definition points (b : event_base) (x k : nat) : Prop :=
  ∃ ev, evs b !! x = Some ev ∧ has EV_SIGNAL (ev_events ev) = true ∧ ev_pncalls ev = Some (Some k).

Lemma points_core b b' x k : core <$> evs b' !! x = core <$> evs b !! x → points b' x k → points b x k.
Proof.
  intros Hc (ev & Hx & Hs & Hp). rewrite Hx in Hc. destruct (evs b !! x) as [e|] eqn:E; [|done].
  apply (inj Some), core_eq in Hc. exists e. rewrite Hc in Hs, Hp. done.
Qed.

(** Nothing but [p] has changed, the indices in the heap aside. *)
Record touched (p : evcb_ptr) (b b' : event_base) : Prop := {
  to_events : ∀ y, of_event y ≠ p → core <$> evs b' !! y = core <$> evs b !! y;
  to_alone : ∀ k, alone k ≠ p → cbs b' !! k = cbs b !! k;
  to_common : map (λ c, (duration c, timeout_event c)) (common_timeout_queues b') =
              map (λ c, (duration c, timeout_event c)) (common_timeout_queues b);
  to_queues : nactivequeues b' = nactivequeues b;
  to_cache : tv_cache (time b') = tv_cache (time b);
  to_frame : frames (signal_frame b') = frames (signal_frame b) ∧
    fst <$> frame (signal_frame b') = fst <$> frame (signal_frame b);
  to_current : current_event (loop b') = current_event (loop b);
  to_points : ∀ x k, p = of_event x → points b' x k → points b x k;
  to_exact : (∀ x k, p = of_event x → ¬ points b x k) → signal_frame b' = signal_frame b
}.

Lemma touched_points p b b' x k : touched p b b' → points b' x k → points b x k.
Proof.
  intros Ht. destruct (decide (of_event x = p)) as [<-|Hne]; [by apply (to_points _ _ _ Ht)|].
  by apply points_core, Ht.
Qed.

Lemma touched_refl p b : touched p b b.
Proof. by split. Qed.
Lemma touched_trans p b1 b2 b3 : touched p b1 b2 → touched p b2 b3 → touched p b1 b3.
Proof.
  intros A B. split.
  - intros y Hy. rewrite (to_events _ _ _ B), (to_events _ _ _ A); done.
  - intros k Hk. rewrite (to_alone _ _ _ B), (to_alone _ _ _ A); done.
  - by rewrite (to_common _ _ _ B), (to_common _ _ _ A).
  - by rewrite (to_queues _ _ _ B), (to_queues _ _ _ A).
  - by rewrite (to_cache _ _ _ B), (to_cache _ _ _ A).
  - destruct (to_frame _ _ _ A), (to_frame _ _ _ B). split; congruence.
  - by rewrite (to_current _ _ _ B), (to_current _ _ _ A).
  - intros x k Hp H. by apply (touched_points _ _ _ _ _ A), (touched_points _ _ _ _ _ B).
  - intros Hno. rewrite (to_exact _ _ _ B), (to_exact _ _ _ A); [done|done|].
    intros x k Hp H. by apply (Hno x k Hp), (touched_points _ _ _ _ _ A).
Qed.

(** The events are the same, up to their indices, and so is what belongs to no event. *)
Lemma touched_core p b b' :
  (∀ y, core <$> evs b' !! y = core <$> evs b !! y) → cbs b' = cbs b →
  map (λ c, (duration c, timeout_event c)) (common_timeout_queues b') =
    map (λ c, (duration c, timeout_event c)) (common_timeout_queues b) →
  nactivequeues b' = nactivequeues b → tv_cache (time b') = tv_cache (time b) →
  signal_frame b' = signal_frame b → current_event (loop b') = current_event (loop b) → touched p b b'.
Proof.
  intros Hy Hc Hm Hq Ht Hf Hl. split; try done; [by rewrite Hc|by rewrite Hf|]. intros x k _. by apply points_core.
Qed.

Lemma moved_touched p c b b' : moved p c b b' → touched p b b'.
Proof.
  intros (E1 & E2 & E3 & E4 & E5 & E6 & E7 & E8 & E9 & E10). split; try congruence.
  - intros y Hy. rewrite E1. destruct p as [x|k]; cbn; [|done].
    destruct (evs b !! x); cbn; [|done]. rewrite lookup_insert_ne; [done|congruence].
  - intros k Hk. rewrite E2. destruct p as [x|k']; cbn; [by destruct (evs b !! x)|].
    rewrite lookup_insert_ne; [done|congruence].
  - by rewrite E8.
  - intros x k _ (ev & Hx & Hs & Hk). rewrite E1 in Hx.
    destruct (evs_put _ _ _ _ _ Hx) as (e0 & He & [[_ ->]|[_ ->]]); by exists e0.
Qed.

Lemma moved_at p c c0 b b' : callback_at b p = Some c0 → moved p c b b' → callback_at b' p = Some c.
Proof.
  intros Hp (E1 & E2 & _). rewrite (callback_at_same (put_cb p c b) b') by done.
  by rewrite (callback_at_put p c c0), decide_True by done.
Qed.

Lemma moved_event x c ev b b' :
  evs b !! x = Some ev → moved (of_event x) c b b' → evs b' !! x = Some (with_evcallback c ev).
Proof. intros Hx (-> & _). cbn. rewrite Hx. cbn. apply lookup_insert_eq. Qed.

Lemma moved_trans p c1 c2 c0 b b1 b2 :
  callback_at b p = Some c0 → moved p c1 b b1 → moved p c2 b1 b2 → moved p c2 b b2.
Proof.
  intros Hp (E1 & E2 & E3 & E4 & E5 & E6 & E7 & E8 & E9 & E10) (F1 & F2 & F3 & F4 & F5 & F6 & F7 & F8 & F9 & F10).
  unfold moved. rewrite F1, F2, F3, F4, F5, F6, F7, F8, F9, F10, E3, E4, E5, E6, E7, E8, E9, E10.
  split_and!; try done; destruct p as [x|k]; cbn in *.
  - destruct (evs b !! x) as [ev|] eqn:E; [|done]. rewrite E1. cbn. rewrite lookup_insert_eq. cbn.
    by rewrite insert_insert_eq.
  - done.
  - destruct (evs b !! x) as [ev|] eqn:E; [|done]. rewrite E1. cbn. by rewrite lookup_insert_eq.
  - by rewrite E2, insert_insert_eq.
Qed.

Lemma moved_refl p c b : callback_at b p = Some c → moved p c b b.
Proof.
  intros Hp. unfold moved. split_and!; try done; destruct p as [x|k]; cbn in *.
  - destruct (evs b !! x) as [ev|] eqn:E; [|done]. cbn in *. simplify_eq. symmetry. apply insert_id.
    rewrite E. by destruct ev.
  - done.
  - by destruct (evs b !! x).
  - symmetry. by apply insert_id.
Qed.

(** Events that the queues and the lists cannot tell apart: the same flags about queues, the same
    priority, descriptor, conditions, index and deadline. *)
Record same_lists (e e' : event) : Prop := {
  sl_timeout : has EVLIST_TIMEOUT (ev_flags e') = has EVLIST_TIMEOUT (ev_flags e);
  sl_inserted : has EVLIST_INSERTED (ev_flags e') = has EVLIST_INSERTED (ev_flags e);
  sl_where : where_ (ev_evcallback e') = where_ (ev_evcallback e);
  sl_weight : weight (ev_flags e') = weight (ev_flags e);
  sl_pos : ev_timeout_pos e' = ev_timeout_pos e;
  sl_fd : ev_fd e' = ev_fd e;
  sl_events : ev_events e' = ev_events e;
  sl_deadline : has EVLIST_TIMEOUT (ev_flags e) = true → ev_timeout e' = ev_timeout e
}.

Lemma store_put_ok b x e e' :
  base_ok b → evs b !! x = Some e → same_lists e e' → event_wf e' →
  frame_ok (<[x := e']> (evs b)) (signal_frame b) →
  (∀ i ctl, common_timeout_queues b !! i = Some ctl → timeout_event ctl = x → common_timer (Z.of_nat i) e') →
  base_ok (with_evs (<[x := e']> (evs b)) b).
Proof.
  intros [[Hwf Hal Hfr Htm Hsz] (hs & Hh & Hlo) Hq Hin Hm Hc Ha] Hx [E1 E2 E3 E4 E5 E6 E7 E8] Hwf' Hfr' Hct.
  assert (Hlk : ∀ y, <[x := e']> (evs b) !! y = if decide (y = x) then Some e' else evs b !! y).
  { intros y. case_decide as Hy; [subst; by rewrite lookup_insert_eq|by rewrite lookup_insert_ne]. }
  split; bcbn.
  - split; bcbn; try done.
    + intros y ev. rewrite Hlk. case_decide; [by intros [= <-]|apply Hwf].
    + intros i ctl Hi. destruct (Htm i ctl Hi) as (Hd & ev & E & Ht). split; [done|].
      rewrite Hlk. case_decide as Hy; [|eauto]. exists e'. split; [done|]. by apply (Hct i ctl).
    + by rewrite map_size_insert_Some by by rewrite Hx.
  - exists hs. split.
    + eapply heap_rep_fields; [exact Hh|]. intros y ev Hy Hev. rewrite Hlk. case_decide as Hyx; [|eauto]. subst.
      rewrite Hx in Hev. simplify_eq. eexists. split; [done|]. split; [done|]. apply E8.
      apply (lo_heap _ _ _ Hlo) in Hy as (t & Ht & _). unfold pending in Ht. rewrite Hx in Ht. cbn in Ht.
      by destruct (has EVLIST_TIMEOUT (ev_flags ev)).
    + eapply lists_ok_ext; [|exact Hlo]. intros y. unfold pending. rewrite Hlk. case_decide; [subst|done].
      rewrite Hx. cbn. rewrite E1. destruct (has EVLIST_TIMEOUT (ev_flags e)) eqn:Et; [|done]. by rewrite E8.
  - eapply queues_ok_ext; [|exact Hq]. intros [y|k]; cbn; [|done]. rewrite Hlk. case_decide; [subst|done].
    rewrite Hx. cbn. by rewrite E3.
  - eapply inserted_ok_ext; [|exact Hin]. intros y. unfold inserted. rewrite Hlk. case_decide; [subst|done].
    rewrite Hx. cbn. by rewrite E2, E6, E7.
  - eapply evmap_ok_ext; [|exact Hm]. intros y ev Hev _. rewrite Hlk. case_decide; [subst|eauto].
    rewrite Hx in Hev. simplify_eq. eauto.
  - unfold pending_total in *. rewrite (msum_insert _ _ _ e) by done. rewrite E4. lia.
  - done.
Qed.

(** Members of an event that no queue and no list depends on. *)
Definition same_place (e e' : event) : Prop :=
  ev_evcallback e' = ev_evcallback e ∧ ev_timeout_pos e' = ev_timeout_pos e ∧ ev_fd e' = ev_fd e ∧
  ev_events e' = ev_events e ∧ (has EVLIST_TIMEOUT (ev_flags e) = true → ev_timeout e' = ev_timeout e).

(** Writing such members. *)
Lemma store_write_ok b x e e' :
  base_ok b → evs b !! x = Some e → same_place e e' → event_wf e' →
  frame_ok (<[x := e']> (evs b)) (signal_frame b) →
  base_ok (with_evs (<[x := e']> (evs b)) b).
Proof.
  intros Hok Hx (E1 & E2 & E3 & E4 & E5) Hwf Hfr.
  assert (Hf : ev_flags e' = ev_flags e) by (unfold ev_flags; by rewrite E1).
  apply (store_put_ok b x e); [done|done| |done|done|].
  - split; rewrite ?Hf, ?E1; done.
  - intros i ctl Hi <-. destruct (bo_timers _ (bo_items _ Hok) i ctl Hi) as (_ & ev & E & Ht). simplify_eq.
    unfold common_timer in *. by rewrite Hf, E4, E1.
Qed.

(** A callback is not on both queues. *)
Lemma not_both b p c :
  base_ok b → callback_at b p = Some c →
  has EVLIST_ACTIVE (evcb_flags c) && has EVLIST_ACTIVE_LATER (evcb_flags c) = false.
Proof. intros Hok Hp. by destruct (qo_range _ _ _ (bo_queues _ Hok) p _ _ _ (where_at _ _ _ Hp)). Qed.

(** Activating a callback: it is active, unless it is finalizing. *)
Lemma callback_activate_ok p c b :
  base_ok b → callback_at b p = Some c →
  wp (event_callback_activate_nolock_ p) b (λ r b', base_ok b' ∧ loop b' = loop b ∧
    ∃ c', moved p c' b b' ∧ requeued c c' ∧
      has EVLIST_TIMEOUT (evcb_flags c') = has EVLIST_TIMEOUT (evcb_flags c) ∧
      has EVLIST_INSERTED (evcb_flags c') = has EVLIST_INSERTED (evcb_flags c) ∧
      (if has EVLIST_FINALIZING (evcb_flags c) || has EVLIST_ACTIVE (evcb_flags c) then r = 0 ∧ c' = c
       else r = Z.b2z (negb (has EVLIST_ACTIVE_LATER (evcb_flags c))) ∧
         has EVLIST_ACTIVE (evcb_flags c') = true ∧ has EVLIST_ACTIVE_LATER (evcb_flags c') = false)).
Proof.
  intros Hok Hp. unfold event_callback_activate_nolock_. apply wp_bind, (wp_get_cb p c); [done|].
  assert (Hsame : requeued c c) by (split_and!; try done; by destruct c).
  destruct (has EVLIST_FINALIZING (evcb_flags c)) eqn:Hfin; cbn [orb].
  { apply wp_ret. split; [done|]. split; [done|]. exists c. split; [by apply moved_refl|]. done. }
  pose proof (not_both b p c Hok Hp) as Hnb. destruct (has EVLIST_ACTIVE (evcb_flags c)) eqn:Ha; cbn [andb] in Hnb.
  { apply wp_bind, wp_assert; [by rewrite Hnb|]. apply wp_ret. split; [done|]. split; [done|].
    exists c. split; [by apply moved_refl|]. done. }
  apply wp_bind. destruct (has EVLIST_ACTIVE_LATER (evcb_flags c)) eqn:Hl.
  - apply wp_bind. eapply wp_mono; [by apply remove_active_later_ok|]. intros _ b1 (Hok1 & Hm1 & Hl1).
    apply wp_ret. pose proof (moved_at _ _ _ _ _ Hp Hm1) as Hp1. apply wp_bind.
    eapply wp_mono; [apply (insert_active_ok p _ b1 Hok1 Hp1); by flags|]. intros _ b2 (Hok2 & Hm2 & Hl2).
    apply wp_ret. split; [done|]. split; [congruence|]. eexists.
    split; [by eapply moved_trans|]. split; [eapply requeued_trans; [apply requeued_drop|apply requeued_add]; auto with flags|].
    by flags.
  - apply wp_ret. apply wp_bind. eapply wp_mono; [by apply insert_active_ok|]. intros _ b2 (Hok2 & Hm2 & Hl2).
    apply wp_ret. split; [done|]. split; [done|]. eexists.
    split; [done|]. split; [apply requeued_add; auto with flags|]. by flags.
Qed.

Lemma callback_activate_later_ok p c b :
  base_ok b → callback_at b p = Some c →
  wp (event_callback_activate_later_nolock_ p) b (λ r b', base_ok b' ∧ loop b' = loop b ∧
    if has EVLIST_ACTIVE (evcb_flags c) || has EVLIST_ACTIVE_LATER (evcb_flags c) then r = 0 ∧ b' = b
    else r = 1 ∧ moved p (add_flag EVLIST_ACTIVE_LATER c) b b').
Proof.
  intros Hok Hp. unfold event_callback_activate_later_nolock_. apply wp_bind, (wp_get_cb p c); [done|].
  rewrite has_or. destruct (_ || _) eqn:E; [by apply wp_ret|]. apply orb_false_iff in E as [Ha Hl].
  apply wp_bind. eapply wp_mono; [by apply insert_active_later_ok|]. intros _ b' (? & ? & ?). by apply wp_ret.
Qed.

Lemma frame_ok_write st f x e' :
  frame_ok st f →
  (∀ n k, has EV_SIGNAL (ev_events e') = true → ev_ncalls e' = Some n → n ≠ 0 → ev_pncalls e' = Some (Some k) →
     ∃ m, frame f = Some (k, m)) →
  frame_ok (<[x := e']> st) f.
Proof.
  intros Hf He y ev n k. destruct (decide (y = x)) as [->|Hne].
  - rewrite lookup_insert_eq. intros [= <-]. intros. by apply (He n k).
  - rewrite lookup_insert_ne by done. apply Hf.
Qed.

Lemma wp_upd_event f x b ev (Q : unit → event_base → Prop) :
  evs b !! x = Some ev → Q tt (with_evs (<[x := f ev]> (evs b)) b) → wp (upd_event f x) b Q.
Proof. intros He HQ. unfold upd_event, update_event. eexists tt, _. rewrite He. cbn. done. Qed.

(** The result is not among what the invariant speaks of. *)
Lemma write_res_ok b x ev r :
  base_ok b → evs b !! x = Some ev → base_ok (with_evs (<[x := with_res r ev]> (evs b)) b).
Proof.
  intros Hok Hx. pose proof (bo_wf _ (bo_items _ Hok) x ev Hx) as Hwf.
  apply (store_write_ok b x ev); [done|done|by split_and!|by destruct Hwf; split|].
  - apply frame_ok_write; [by destruct (bo_items _ Hok)|]. intros n k. cbn.
    by apply (bo_frame _ (bo_items _ Hok) x ev).
Qed.

(** The counter of calls of a signal. *)
Lemma write_ncalls_ok b x ev n :
  base_ok b → evs b !! x = Some ev → has EV_SIGNAL (ev_events ev) = true →
  base_ok (with_evs (<[x := with_ev_ (ev_signal n None) ev]> (evs b)) b).
Proof.
  intros Hok Hx Hs. pose proof (bo_wf _ (bo_items _ Hok) x ev Hx) as [].
  apply (store_write_ok b x ev); [done|done|by split_and!|..].
  - split; try done; cbn.
    + intros _. split; [by apply ew_signal0|eauto].
    + intros Hc. destruct (ew_persist0 Hc). congruence.
  - apply frame_ok_write; [by destruct (bo_items _ Hok)|]. done.
Qed.

(** Steering members other than event_continue and n_deferreds_queued. *)
Definition same_course (l l' : loop_state) : Prop :=
  event_gotterm l' = event_gotterm l ∧ event_break l' = event_break l ∧
  event_running_priority l' = event_running_priority l ∧ running_loop l' = running_loop l ∧
  current_event l' = current_event l.

Lemma base_ok_loop b l : base_ok b → base_ok (with_loop l b).
Proof. intros [[] ? ? ? ? ? ?]. split; [by split|done..]. Qed.

Lemma touched_write x b ev ev' :
  evs b !! x = Some ev →
  (∀ k, has EV_SIGNAL (ev_events ev') = true → ev_pncalls ev' = Some (Some k) →
     has EV_SIGNAL (ev_events ev) = true ∧ ev_pncalls ev = Some (Some k)) →
  touched (of_event x) b (with_evs (<[x := ev']> (evs b)) b).
Proof.
  intros Hx Hk. split; try done.
  - intros y Hy. bcbn. rewrite lookup_insert_ne; [done|congruence].
  - intros y k [= <-] (e & He & Hs & Hp). bcbn. rewrite lookup_insert_eq in He. injection He as <-.
    destruct (Hk k Hs Hp). by exists ev.
Qed.

Lemma touched_loop p b l : current_event l = current_event (loop b) → touched p b (with_loop l b).
Proof. intros H. by apply touched_core. Qed.

(** What event_active_nolock_ does to the event. *)
Definition activated (ev ev' : event) (res : Z) : Prop :=
  has EVLIST_TIMEOUT (ev_flags ev') = has EVLIST_TIMEOUT (ev_flags ev) ∧
  has EVLIST_INSERTED (ev_flags ev') = has EVLIST_INSERTED (ev_flags ev) ∧
  requeued (ev_evcallback ev) (ev_evcallback ev') ∧
  ev_timeout ev' = ev_timeout ev ∧ ev_fd ev' = ev_fd ev ∧ ev_events ev' = ev_events ev ∧
  (has EV_SIGNAL (ev_events ev) = false → ev_ ev' = ev_ ev) ∧
  if has EVLIST_FINALIZING (ev_flags ev) then ev' = ev
  else has EVLIST_ACTIVE (ev_flags ev') = true ∧ has EVLIST_ACTIVE_LATER (ev_flags ev') = false ∧
    ev_res ev' = int16 (if has EVLIST_ACTIVE (ev_flags ev) || has EVLIST_ACTIVE_LATER (ev_flags ev)
                        then Z.lor (ev_res ev) res else res).

Lemma requeued_refl c : requeued c c.
Proof. unfold requeued. split_and!; try done. by destruct c. Qed.

Lemma active_nolock_ok x res ncalls ev b :
  base_ok b → evs b !! x = Some ev →
  wp (event_active_nolock_ x res ncalls) b (λ _ b', base_ok b' ∧ touched (of_event x) b b' ∧
    same_course (loop b) (loop b') ∧ signal_frame b' = signal_frame b ∧
    ∃ ev', evs b' !! x = Some ev' ∧ activated ev ev' res).
Proof.
  intros Hok Hx. unfold event_active_nolock_. apply wp_bind, (wp_get_event x ev); [done|].
  assert (Hp : callback_at b (of_event x) = Some (ev_evcallback ev)) by (cbn; by rewrite Hx).
  destruct (has EVLIST_FINALIZING (ev_flags ev)) eqn:Hfin.
  { apply wp_ret. split; [done|]. split; [apply touched_refl|]. do 2 (split; [done|]). exists ev. split; [done|].
    unfold activated. rewrite Hfin. split_and!; try done. apply requeued_refl. }
  pose proof (not_both b _ _ Hok Hp) as Hnb. change (evcb_flags (ev_evcallback ev)) with (ev_flags ev) in Hnb.
  destruct (has EVLIST_ACTIVE (ev_flags ev)) eqn:Ha; cbn [andb] in Hnb.
  { apply wp_bind, wp_assert; [by rewrite Hnb|]. apply (wp_upd_event _ _ _ ev); [done|].
    split; [by apply (write_res_ok b x ev)|]. split; [by apply (touched_write x b ev)|]. do 2 (split; [done|]).
    eexists. split; [apply lookup_insert_eq|]. unfold activated. rewrite Hfin.
    change (ev_flags (with_res ?r ev)) with (ev_flags ev). rewrite Ha, Hnb. split_and!; try done. apply requeued_refl. }
  apply wp_bind, (wp_upd_event _ _ _ ev); [done|].
  set (r := int16 (if has EVLIST_ACTIVE_LATER (ev_flags ev) then Z.lor (ev_res ev) res else res)).
  pose proof (write_res_ok b x ev r Hok Hx) as Hok1. set (ev1 := with_res r ev) in *.
  set (b1 := with_evs _ b) in *. apply wp_bind, wp_modify.
  set (b2 := if ev_pri ev <? event_running_priority (loop b1) then _ else b1).
  assert (Hb2 : base_ok b2 ∧ touched (of_event x) b b2 ∧ same_course (loop b) (loop b2) ∧
    signal_frame b2 = signal_frame b ∧ evs b2 !! x = Some ev1).
  { unfold b2. assert (evs b1 !! x = Some ev1) by apply lookup_insert_eq.
    assert (touched (of_event x) b b1) by by apply (touched_write x b ev).
    case_match; [|done]. split_and!; [by apply base_ok_loop|eapply touched_trans; [done|by apply touched_loop]|done..]. }
  clearbody b2. destruct Hb2 as (Hok2 & Ht2 & Hl2 & Hf2 & Hx2).
  assert (Hact : ∀ b3 ev3, base_ok b3 → evs b3 !! x = Some ev3 → ev_evcallback ev3 = ev_evcallback ev →
      ev_timeout ev3 = ev_timeout ev → ev_fd ev3 = ev_fd ev → ev_events ev3 = ev_events ev → ev_res ev3 = r →
      (has EV_SIGNAL (ev_events ev) = false → ev_ ev3 = ev_ ev) →
      touched (of_event x) b b3 → same_course (loop b) (loop b3) → signal_frame b3 = signal_frame b →
      wp (event_callback_activate_nolock_ (of_event x) ;; mret tt) b3 (λ _ b', base_ok b' ∧ touched (of_event x) b b' ∧
        same_course (loop b) (loop b') ∧ signal_frame b' = signal_frame b ∧
        ∃ ev', evs b' !! x = Some ev' ∧ activated ev ev' res)).
  { intros b3 ev3 Hok3 Hx3 Hcb Htv Hfd Hevs Hres Hun Ht3 Hl3 Hf3. apply wp_bind.
    assert (Hp3 : callback_at b3 (of_event x) = Some (ev_evcallback ev)) by (cbn; rewrite Hx3; cbn; by rewrite Hcb).
    eapply wp_mono; [by apply (callback_activate_ok (of_event x) (ev_evcallback ev))|].
    intros rr b4 (Hok4 & Hl4 & c' & Hm & Hrq & Hto & Hins & Hr). apply wp_ret. split; [done|].
    split; [eapply touched_trans; [exact Ht3|by eapply moved_touched]|]. split; [by rewrite Hl4|].
    split; [destruct Hm as (_ & _ & _ & _ & _ & _ & _ & -> & _); exact Hf3|].
    eexists. split; [by eapply moved_event|]. unfold activated. rewrite Hfin.
    change (evcb_flags (ev_evcallback ev)) with (ev_flags ev) in *. rewrite Hfin, Ha in Hr. cbn [orb] in Hr.
    destruct Hr as (_ & Ha' & Hl'). split_and!; try done. cbn. rewrite Hres. unfold r. by rewrite Ha. }
  apply wp_bind, wp_when; intros Hs.
  - apply (wp_upd_event _ _ _ ev1); [done|].
    apply (Hact _ (with_ev_ (ev_signal (int16 ncalls) None) ev1)); try done.
    + by apply write_ncalls_ok.
    + apply lookup_insert_eq.
    + by rewrite Hs.
    + eapply touched_trans; [exact Ht2|by apply (touched_write x b2 ev1)].
  - by apply (Hact _ ev1).
Qed.

(** ** Timers *)

(** The invariant without the timers. *)
Record rest_ok (b : event_base) : Prop := {
  ro_items : items_ok b;
  ro_queues : queues_ok (λ p, where_ <$> callback_at b p) (activequeues b) (active_later_queue b);
  ro_inserted : inserted_ok (inserted (evs b)) (maps b);
  ro_maps : evmap_ok (evs b) (maps b);
  ro_count : event_count (counts b) = pending_total (evs b) (cbs b);
  ro_active : event_count_active (counts b) = Zlen (concat (activequeues b)) + Zlen (active_later_queue b)
}.
Definition timers_ok (b : event_base) : Prop :=
  ∃ hs, heap_rep (timeheap b) (evs b) hs ∧ lists_ok (pending (evs b)) (common_timeout_queues b) hs.

Lemma base_rest b : base_ok b ↔ rest_ok b ∧ timers_ok b.
Proof.
  split; [intros []; split; [by split|done]|]. intros [[] ?]. by split.
Qed.

(** Setting or clearing EVLIST_TIMEOUT. *)
Lemma rest_put_ok x ev c b cs :
  rest_ok b → evs b !! x = Some ev → requeued (ev_evcallback ev) c →
  where_ c = where_ (ev_evcallback ev) →
  has EVLIST_INSERTED (evcb_flags c) = has EVLIST_INSERTED (ev_flags ev) →
  event_count cs = event_count (counts b) - weight (ev_flags ev) + weight (evcb_flags c) →
  event_count_active cs = event_count_active (counts b) →
  rest_ok (with_counts cs (put_cb (of_event x) c b)).
Proof.
  intros [] Hx Hr Hw Hi Hc Ha.
  assert (Hp : callback_at b (of_event x) = Some (ev_evcallback ev)) by (cbn; by rewrite Hx).
  split.
  - apply (items_ok_same (put_cb (of_event x) c b)); [done..|]. by eapply items_put.
  - rewrite put_cb_rest; bcbn. eapply queues_ok_ext; [|exact ro_queues0]. intros q. cbv beta.
    rewrite (callback_at_same (put_cb (of_event x) c b)) by done.
    rewrite (callback_at_put _ _ _ _ _ Hp). case_decide; [|done]. subst. rewrite Hp. cbn. by rewrite Hw.
  - rewrite put_cb_rest; bcbn. eapply inserted_ok_ext; [|exact ro_inserted0]. intros y. by eapply inserted_put.
  - rewrite put_cb_rest; bcbn. by apply evmap_ok_put.
  - bcbn. rewrite (pending_total_put _ _ _ _ Hp), Hc, ro_count0. done.
  - rewrite put_cb_rest; bcbn. congruence.
Qed.

Lemma core_lookup (st st' : store) y e :
  core <$> st' = core <$> st → st !! y = Some e → ∃ e', st' !! y = Some e' ∧ core e' = core e.
Proof.
  intros H Hy. assert (core <$> st' !! y = Some (core e)) as He.
  { rewrite <- (lookup_fmap core st'), H, lookup_fmap, Hy. done. }
  destruct (st' !! y) as [e'|]; [|done]. exists e'. split; [done|]. by apply (inj Some) in He.
Qed.

(** Moving events in the heap does not matter to the rest. *)
Lemma rest_recore_ok b b' :
  rest_ok b → core <$> evs b' = core <$> evs b → cbs b' = cbs b → io (maps b') = io (maps b) →
  sigmap (maps b') = sigmap (maps b) → calls (maps b') = calls (maps b) → counts b' = counts b →
  activequeues b' = activequeues b → active_later_queue b' = active_later_queue b →
  map (λ c, (duration c, timeout_event c)) (common_timeout_queues b') =
    map (λ c, (duration c, timeout_event c)) (common_timeout_queues b) →
  signal_frame b' = signal_frame b → rest_ok b'.
Proof.
  intros [[Hwf Hal Hfr Htm Hsz] Hq Hin Hm Hc Ha] He E1 E2 E2' E2'' E3 E4 E5 E6 E7.
  assert (He' : core <$> evs b = core <$> evs b') by done.
  assert (Hto : ∀ x e', evs b' !! x = Some e' → ∃ e pos, evs b !! x = Some e ∧ e' = with_pos pos e).
  { intros x e' Hx. destruct (core_lookup _ _ _ _ He' Hx) as (e & E & Hcr). exists e, (ev_timeout_pos e').
    split; [done|]. by apply core_eq. }
  assert (Hfrom : ∀ x e, evs b !! x = Some e → ∃ pos, evs b' !! x = Some (with_pos pos e)).
  { intros x e Hx. destruct (core_lookup _ _ _ _ He Hx) as (e' & E & Hcr). exists (ev_timeout_pos e').
    rewrite E. f_equal. by apply core_eq. }
  assert (Hnone : ∀ x, evs b !! x = None → evs b' !! x = None).
  { intros x Hx. destruct (evs b' !! x) as [e'|] eqn:E; [|done]. destruct (Hto x e' E) as (? & ? & ? & _). congruence. }
  split; [split| | | | |].
  - intros x e' Hx. destruct (Hto x e' Hx) as (e & pos & E & ->). destruct (Hwf x e E). by split.
  - rewrite E1. done.
  - intros x e' n k Hx. destruct (Hto x e' Hx) as (e & pos & E & ->). rewrite E7. by apply (Hfr x e).
  - intros i ctl' Hi. assert (∃ ctl, common_timeout_queues b !! i = Some ctl ∧
      duration ctl' = duration ctl ∧ timeout_event ctl' = timeout_event ctl) as (ctl & Hi' & Ed & Et).
    { assert (map (λ c, (duration c, timeout_event c)) (common_timeout_queues b') !! i =
        Some (duration ctl', timeout_event ctl')) as H by (rewrite list_lookup_fmap, Hi; done).
      rewrite E6, list_lookup_fmap in H. destruct (common_timeout_queues b !! i) as [ctl|]; [|done].
      cbn in H. simplify_eq. eauto. }
    destruct (Htm i ctl Hi') as (Hd & ev & E & Hct). rewrite Ed, Et. split; [done|].
    destruct (Hfrom _ _ E) as [pos ->]. eauto.
  - enough (size (evs b') = size (evs b)) by lia. rewrite <- (map_size_fmap core (evs b')), He. apply map_size_fmap.
  - rewrite E4, E5. eapply queues_ok_ext; [|exact Hq]. intros [x|k]; cbn; [|by rewrite E1].
    destruct (evs b !! x) as [e|] eqn:E; [|by rewrite Hnone]. by destruct (Hfrom _ _ E) as [pos ->].
  - assert (Hon : ∀ fd x, on_fd (maps b') fd x ↔ on_fd (maps b) fd x)
      by (intros; unfold on_fd, io_entry; by rewrite E2).
    assert (Hon2 : ∀ fd x, on_signal (maps b') fd x ↔ on_signal (maps b) fd x)
      by (intros; unfold on_signal, sig_entry; by rewrite E2').
    destruct Hin as [H1 H2 H3]. assert (Hi : ∀ x, inserted (evs b') x = inserted (evs b) x).
    { intros x. unfold inserted. destruct (evs b !! x) as [e|] eqn:E; [|by rewrite Hnone].
      by destruct (Hfrom _ _ E) as [pos ->]. }
    split; intros *; rewrite ?Hon, ?Hon2, Hi; auto; apply H3.
  - eapply (same_lists_ok _ (maps b)); [|done|].
    + split; intros; left; unfold io_entry, sig_entry; congruence.
    + eapply evmap_ok_ext; [|exact Hm]. intros x e E _. destruct (Hfrom _ _ E) as [pos ->]. eauto.
  - rewrite E3, Hc. unfold pending_total. rewrite E1. f_equal.
    symmetry. apply (msum_ext _ core); [done|]. done.
  - by rewrite E3, E4, E5.
Qed.

(** *** The lists *)

Lemma common_at_idx i tv n :
  common_at i tv → 0 <= i < n → n <= MAX_COMMON_TIMEOUTS →
  is_common_timeout tv n = true ∧ COMMON_TIMEOUT_IDX tv = i.
Proof.
  unfold MAX_COMMON_TIMEOUTS. intros [H _] Hi Hn. rewrite common_idx_spec, H.
  assert ((1280 + i) mod 256 = i) as -> by (symmetry; apply (Z.mod_unique _ _ 5); lia). split; [|done].
  unfold is_common_timeout. rewrite magic_mask_spec, common_idx_spec, H.
  assert (tv_usec tv / 2 ^ 28 = 5) as ->.
  { change (2 ^ 28) with (2 ^ 20 * 2 ^ 8). rewrite <- Z.div_div, H by lia.
    symmetry. apply (Z.div_unique_pos _ _ _ i); lia. }
  assert ((1280 + i) mod 256 = i) as -> by (symmetry; apply (Z.mod_unique _ _ 5); lia).
  cbn [negb]. apply Z.ltb_lt. lia.
Qed.

Lemma normal_not_at i tv : tv_normal tv → 0 <= i → ¬ common_at i tv.
Proof. intros Hn Hi [H _]. unfold tv_normal in Hn. rewrite Z.div_small in H by lia. lia. Qed.

Lemma common_at_inj i j tv : common_at i tv → common_at j tv → i = j.
Proof. intros [H1 _] [H2 _]. lia. Qed.

Definition without (x : nat) (P : nat → option timeval) (y : nat) : option timeval :=
  if decide (y = x) then None else P y.
Definition with_ (x : nat) (t : timeval) (P : nat → option timeval) (y : nat) : option timeval :=
  if decide (y = x) then Some t else P y.

Lemma StronglySorted_mem {A} (R R' : A → A → Prop) l :
  StronglySorted R l → (∀ x y, x ∈ l → y ∈ l → R x y → R' x y) → StronglySorted R' l.
Proof.
  intros H HR. induction H as [|a l H IH Hf]; constructor.
  - apply IH. intros x y Hx Hy. apply HR; by right.
  - apply Forall_forall. intros y Hy. apply HR; [by left|by right|]. by eapply Forall_forall in Hf.
Qed.

Lemma StronglySorted_sublist {A} (R : A → A → Prop) l l' :
  StronglySorted R l → sublist l' l → StronglySorted R l'.
Proof.
  intros H Hs. revert H. induction Hs as [|a l1 l2 Hs IH|a l1 l2 Hs IH]; intros H; [done| |].
  - apply StronglySorted_inv in H as [H Hf]. constructor; [auto|]. apply Forall_forall. intros y Hy.
    eapply Forall_forall; [exact Hf|]. by eapply elem_of_sublist.
  - apply StronglySorted_inv in H as [H _]. auto.
Qed.

Lemma lists_leave_heap P ctls hs hs' x t :
  lists_ok P ctls hs → P x = Some t → tv_normal t → (∀ y, y ∈ hs' ↔ y ∈ hs ∧ y ≠ x) →
  lists_ok (without x P) ctls hs'.
Proof.
  intros [] Ht Hn Hhs. unfold without. split; try done.
  - intros y. rewrite Hhs, lo_heap0. case_decide as Hy; [subst|].
    + split; [by intros [_ ?]|intros (? & [=] & _)].
    + split; [by intros [? _]|done].
  - intros i ctl Hi y. rewrite (lo_common0 _ _ Hi). case_decide as Hy; [subst|done].
    split; [|intros (? & [=] & _)]. intros (t' & Ht' & Hc). rewrite Ht in Ht'. simplify_eq.
    by destruct (normal_not_at _ _ Hn (Nat2Z.is_nonneg i)).
  - intros y t'. case_decide; [done|eauto].
  - intros i ctl Hi. eapply StronglySorted_weaken; [by eapply lo_sorted0|]. intros a c H t1 t2.
    case_decide; [done|]. case_decide; [done|]. auto.
Qed.

Lemma lists_leave_common P ctls hs x t i ctl l :
  lists_ok P ctls hs → P x = Some t → common_at (Z.of_nat i) t → ctls !! i = Some ctl →
  (∀ y, y ∈ l ↔ y ∈ ctl_events ctl ∧ y ≠ x) → sublist l (ctl_events ctl) → NoDup l →
  lists_ok (without x P) (<[i := Common_timeout_list l (duration ctl) (timeout_event ctl)]> ctls) hs.
Proof.
  intros [] Ht Hat Hi Hl Hsub Hnd. pose proof (lookup_lt_Some _ _ _ Hi) as Hlt. unfold without. split.
  - intros y. rewrite lo_heap0. case_decide as Hy; [subst|done]. split; [|intros (? & [=] & _)].
    intros (t' & Ht' & Hn). rewrite Ht in Ht'. simplify_eq. by destruct (normal_not_at _ _ Hn (Nat2Z.is_nonneg i)).
  - intros j c Hj y. destruct (decide (j = i)) as [->|Hne].
    + rewrite list_lookup_insert_eq in Hj by done. simplify_eq. cbn. rewrite Hl, (lo_common0 _ _ Hi).
      case_decide as Hy; [subst|]; split; [by intros [_ ?]|intros (? & [=] & _)|by intros [? _]|done].
    + rewrite list_lookup_insert_ne in Hj by done. rewrite (lo_common0 _ _ Hj).
      case_decide as Hy; [subst|done]. split; [|intros (? & [=] & _)]. intros (t' & Ht' & Hc).
      rewrite Ht in Ht'. simplify_eq. pose proof (common_at_inj _ _ _ Hat Hc). lia.
  - intros y t'. rewrite length_insert. case_decide; [done|eauto].
  - intros j c Hj. destruct (decide (j = i)) as [->|Hne].
    + rewrite list_lookup_insert_eq in Hj by done. by simplify_eq.
    + rewrite list_lookup_insert_ne in Hj by done. eauto.
  - intros j c Hj. assert (StronglySorted (λ x y, ∀ t u, P x = Some t → P y = Some u → tv_le t u) (ctl_events c)) as H.
    { destruct (decide (j = i)) as [->|Hne].
      - rewrite list_lookup_insert_eq in Hj by done. simplify_eq. cbn.
        eapply StronglySorted_sublist; [|exact Hsub]. eauto.
      - rewrite list_lookup_insert_ne in Hj by done. eauto. }
    eapply StronglySorted_weaken; [exact H|]. intros a d Hr t1 t2.
    case_decide; [done|]. case_decide; [done|]. auto.
  - by rewrite length_insert.
Qed.

Lemma lists_join_heap P ctls hs hs' x t :
  lists_ok P ctls hs → P x = None → tv_normal t → (∀ y, y ∈ hs' ↔ y = x ∨ y ∈ hs) →
  lists_ok (with_ x t P) ctls hs'.
Proof.
  intros [] Hx Hn Hhs. unfold with_. split; try done.
  - intros y. rewrite Hhs, lo_heap0. case_decide as Hy; [subst|].
    + split; [eauto|by left].
    + split; [by intros [?|?]|by right].
  - intros i ctl Hi y. rewrite (lo_common0 _ _ Hi). case_decide as Hy; [subst|done].
    rewrite Hx. split; [intros (? & [=] & _)|]. intros (t' & [= <-] & Hc).
    by destruct (normal_not_at _ _ Hn (Nat2Z.is_nonneg i)).
  - intros y t'. case_decide; [intros [= <-]; by left|eauto].
  - intros i ctl Hi. eapply StronglySorted_mem; [by eapply lo_sorted0|]. intros a c Ha Hc H t1 t2.
    apply (lo_common0 _ _ Hi) in Ha as (ta & Ha & _), Hc as (tc & Hc & _).
    case_decide; [subst; congruence|]. case_decide; [subst; congruence|]. auto.
Qed.

Lemma StronglySorted_rev {A} (R : A → A → Prop) l :
  StronglySorted R l → StronglySorted (λ x y, R y x) (rev l).
Proof.
  induction 1 as [|a l H IH Hf]; cbn; [constructor|]. apply StronglySorted_app_2; [|done|].
  - intros x y Hx Hy. apply list_elem_of_singleton in Hy as ->. eapply Forall_forall in Hf; [exact Hf|].
    by apply list_elem_of_In, in_rev, list_elem_of_In in Hx.
  - repeat constructor.
Qed.

Lemma land_lnot_mask z : Z.land z (Z.lnot MICROSECONDS_MASK) = z / 2 ^ 20 * 2 ^ 20.
Proof.
  rewrite <- Z.ldiff_land. change MICROSECONDS_MASK with (Z.ones 20).
  rewrite Z.ldiff_ones_r, Z.shiftr_div_pow2, Z.shiftl_mul_pow2 by lia. done.
Qed.

Lemma same_common i t u : common_at i t → common_at i u → is_same_common_timeout t u = true.
Proof.
  intros [H1 _] [H2 _]. unfold is_same_common_timeout. rewrite !land_lnot_mask, H1, H2. apply Z.eqb_refl.
Qed.

(** The search finds the place of [x] in the queue. *)
Lemma insert_inorder_rev_ok (st : store) (P : nat → option timeval) i x t rl :
  (∀ y, y ∈ rl → ∃ e, st !! y = Some e ∧ P y = Some (ev_timeout e) ∧ common_at i (ev_timeout e)) →
  common_at i t →
  StronglySorted (λ x y, ∀ t u, P y = Some t → P x = Some u → tv_le t u) rl → x ∉ rl →
  ∃ rl', insert_inorder_rev st x t rl = Some rl' ∧ rl' ≡ₚ x :: rl ∧
    StronglySorted (λ a b, ∀ t1 t2, with_ x t P b = Some t1 → with_ x t P a = Some t2 → tv_le t1 t2) rl'.
Proof.
  intros Hst Ht. induction rl as [|y rl IH]; intros Hs Hx; cbn [insert_inorder_rev].
  { exists [x]. split; [done|]. split; [done|]. repeat constructor. }
  destruct (Hst y) as (e & He & HP & Hat); [by left|]. rewrite He. cbn [mbind option_bind].
  rewrite (same_common i) by done. cbn [negb]. apply StronglySorted_inv in Hs as [Hs Hf].
  assert (Hxy : x ≠ y ∧ x ∉ rl) by (split; [intros ->; apply Hx; by left|intros ?; apply Hx; by right]).
  destruct Hxy as [Hxy Hxr].
  assert (Hold : ∀ a b, a ∈ y :: rl → b ∈ y :: rl →
    (∀ t1 t2, P b = Some t1 → P a = Some t2 → tv_le t1 t2) →
    ∀ t1 t2, with_ x t P b = Some t1 → with_ x t P a = Some t2 → tv_le t1 t2).
  { intros a b Ha Hb H t1 t2. unfold with_. rewrite !decide_False by (intros ->; done). auto. }
  assert (Hf' : ∀ z, z ∈ rl → ∀ t1 t2, P z = Some t1 → P y = Some t2 → tv_le t1 t2).
  { intros z Hz. by eapply Forall_forall in Hf. }
  destruct (evutil_timercmp Z.geb t (ev_timeout e)) eqn:Eg.
  - exists (x :: y :: rl). split; [done|]. split; [done|]. constructor.
    + constructor.
      * eapply StronglySorted_mem; [exact Hs|]. intros a b Ha Hb H. apply Hold; [by right|by right|done].
      * apply Forall_forall. intros z Hz. apply Hold; [by left|by right|by apply Hf'].
    + apply Forall_forall. intros z Hz t1 t2. unfold with_. rewrite (decide_True (P := x = x)) by done.
      rewrite decide_False by (intros ->; done). intros Hz1 [= <-].
      assert (Hle : tv_le (ev_timeout e) t) by (revert Eg; clear; tvlia).
      apply elem_of_cons in Hz as [->|Hz]; [by simplify_eq|].
      etrans; [|exact Hle]. by eapply (Hf' z Hz).
  - destruct (IH ltac:(intros; apply Hst; by right) Hs Hxr) as (rl' & -> & Hp & Hs'). cbn.
    exists (y :: rl'). split; [done|]. split; [rewrite Hp; apply Permutation_swap|]. constructor; [done|].
    apply Forall_forall. intros z Hz. rewrite Hp in Hz. apply elem_of_cons in Hz as [->|Hz].
    + intros t1 t2. unfold with_. rewrite (decide_True (P := x = x)) by done.
      rewrite decide_False by done. intros [= <-] Hy. simplify_eq. revert Eg. clear. tvlia.
    + apply Hold; [by left|by right|by apply Hf'].
Qed.

Lemma lists_join_common P ctls hs x t i ctl l :
  lists_ok P ctls hs → P x = None → common_at (Z.of_nat i) t → ctls !! i = Some ctl →
  l ≡ₚ x :: ctl_events ctl →
  StronglySorted (λ a b, ∀ t1 t2, with_ x t P a = Some t1 → with_ x t P b = Some t2 → tv_le t1 t2) l →
  lists_ok (with_ x t P) (<[i := Common_timeout_list l (duration ctl) (timeout_event ctl)]> ctls) hs.
Proof.
  intros [] Hx Hat Hi Hl Hs. pose proof (lookup_lt_Some _ _ _ Hi) as Hlt. split.
  - intros y. rewrite lo_heap0. unfold with_. case_decide as Hy; [subst|done]. rewrite Hx.
    split; [intros (? & [=] & _)|]. intros (t' & [= <-] & Hn).
    by destruct (normal_not_at _ _ Hn (Nat2Z.is_nonneg i)).
  - intros j c Hj y. unfold with_. destruct (decide (j = i)) as [->|Hne].
    + rewrite list_lookup_insert_eq in Hj by done. simplify_eq. cbn. rewrite Hl, elem_of_cons, (lo_common0 _ _ Hi).
      case_decide as Hy; [subst; split; [eauto|by left]|]. split; [by intros [?|?]|by right].
    + rewrite list_lookup_insert_ne in Hj by done. rewrite (lo_common0 _ _ Hj).
      case_decide as Hy; [subst|done]. rewrite Hx. split; [intros (? & [=] & _)|]. intros (t' & [= <-] & Hc).
      pose proof (common_at_inj _ _ _ Hat Hc). lia.
  - intros y t'. rewrite length_insert. unfold with_. case_decide; [|eauto]. intros [= <-]. right.
    exists (Z.of_nat i). split; [lia|done].
  - intros j c Hj. destruct (decide (j = i)) as [->|Hne].
    + rewrite list_lookup_insert_eq in Hj by done. simplify_eq. cbn. rewrite Hl. apply NoDup_cons.
      split; [|eauto]. rewrite (lo_common0 _ _ Hi), Hx. intros (? & [=] & _).
    + rewrite list_lookup_insert_ne in Hj by done. eauto.
  - intros j c Hj. destruct (decide (j = i)) as [->|Hne].
    + rewrite list_lookup_insert_eq in Hj by done. by simplify_eq.
    + rewrite list_lookup_insert_ne in Hj by done. eapply StronglySorted_mem; [by eapply lo_sorted0|].
      intros a d Ha Hd H t1 t2. apply (lo_common0 _ _ Hj) in Ha as (ta & Ha & _), Hd as (tc & Hd & _).
      unfold with_. case_decide; [subst; congruence|]. case_decide; [subst; congruence|]. auto.
  - by rewrite length_insert.
Qed.

Lemma map_durations_insert (l : list common_timeout_list) i ctl evl :
  l !! i = Some ctl →
  map (λ c, (duration c, timeout_event c)) (<[i := Common_timeout_list evl (duration ctl) (timeout_event ctl)]> l) =
  map (λ c, (duration c, timeout_event c)) l.
Proof.
  intros Hi. rewrite list_fmap_insert. apply list_insert_id. by rewrite list_lookup_fmap, Hi.
Qed.

(** The event at [x] with the callback [c], wherever it is in the heap. *)
Definition has_event (b : event_base) (x : nat) (ev : event) : Prop :=
  ∃ pos, evs b !! x = Some (with_pos pos ev).

Lemma idx_changed_core (X : nat → Prop) st st' : idx_changed X st st' → core <$> st' = core <$> st.
Proof.
  intros H. apply map_eq. intros x. rewrite !lookup_fmap. specialize (H x).
  destruct (st !! x) as [ev|]; [|by rewrite H]. destruct H as [->|[_ [i ->]]]; done.
Qed.

(** The queue of a common deadline. *)
Lemma common_queue b x t i :
  timers_ok b → pending (evs b) x = Some t → common_at i t → 0 <= i < n_common_timeouts b →
  ∃ ctl, common_timeout_queues b !! Z.to_nat i = Some ctl ∧ x ∈ ctl_events ctl.
Proof.
  intros (hs & _ & Hlo) Hx Hat Hi.
  destruct (lookup_lt_is_Some_2 (common_timeout_queues b) (Z.to_nat i)) as [ctl Hctl];
    [unfold n_common_timeouts in Hi; lia|].
  exists ctl. split; [done|]. apply (lo_common _ _ _ Hlo _ _ Hctl). exists t. rewrite Z2Nat.id by lia. done.
Qed.

Lemma set_common_touched p i l ctl b :
  common_timeout_queues b !! Z.to_nat i = Some ctl →
  set_common_events i l b = Some (tt, with_common
    (<[Z.to_nat i := Common_timeout_list l (duration ctl) (timeout_event ctl)]> (common_timeout_queues b))
    (n_common_timeouts_allocated b) b) ∧
  touched p b (with_common
    (<[Z.to_nat i := Common_timeout_list l (duration ctl) (timeout_event ctl)]> (common_timeout_queues b))
    (n_common_timeouts_allocated b) b).
Proof.
  intros Hi. unfold set_common_events. rewrite Hi. split; [done|]. apply touched_core; try done. bcbn.
  by apply map_durations_insert.
Qed.

Lemma pending_drop x ev b y :
  evs b !! x = Some ev →
  pending (evs (put_cb (of_event x) (drop_flag EVLIST_TIMEOUT (ev_evcallback ev)) b)) y =
  without x (pending (evs b)) y.
Proof.
  intros Hx. cbn [put_cb]. rewrite Hx. bcbn. unfold pending, without. case_decide as Hy; [subst|].
  - rewrite lookup_insert_eq. cbn. unfold ev_flags. cbn. by flags.
  - by rewrite lookup_insert_ne.
Qed.

Lemma remove_timeout_ok x ev b :
  base_ok b → evs b !! x = Some ev → has EVLIST_TIMEOUT (ev_flags ev) = true →
  wp (event_queue_remove_timeout x) b (λ _ b', base_ok b' ∧ touched (of_event x) b b' ∧ loop b' = loop b ∧
    has_event b' x (with_evcallback (drop_flag EVLIST_TIMEOUT (ev_evcallback ev)) ev) ∧
    (tv_normal (ev_timeout ev) → heap_n (timeheap b') < heap_a (timeheap b')) ∧
    (¬ tv_normal (ev_timeout ev) → timeheap b' = timeheap b)).
Proof.
  intros Hok Hx Ht. apply base_rest in Hok as [Hrest Htm]. unfold event_queue_remove_timeout.
  assert (Hp : callback_at b (of_event x) = Some (ev_evcallback ev)) by (cbn; by rewrite Hx).
  apply wp_bind, (wp_get_event x ev); [done|]. apply wp_bind, wp_assert; [done|].
  apply wp_bind, wp_modify. apply wp_bind, (wp_upd_cb _ _ _ (ev_evcallback ev)); [done|].
  cbv beta zeta. set (c' := drop_flag EVLIST_TIMEOUT (ev_evcallback ev)). set (cs := Event_counts _ _ _ _ _ _).
  set (b1 := put_cb (of_event x) c' (with_counts cs b)).
  assert (Hb1 : b1 = with_counts cs (put_cb (of_event x) c' b)) by (unfold b1; cbn; by rewrite Hx).
  assert (Hrest1 : rest_ok b1).
  { rewrite Hb1. eapply rest_put_ok; [done|done|apply requeued_drop; auto with flags|..].
    - unfold where_, c'. by flags.
    - unfold c', ev_flags. by flags.
    - unfold cs, c', ev_flags in *. bcbn. weights.
    - done. }
  assert (Hmoved : moved (of_event x) c' b b1).
  { rewrite Hb1. unfold moved. split_and!; try done; rewrite put_cb_rest; done. }
  pose proof (moved_touched _ _ _ _ Hmoved) as Ht1. pose proof (moved_event _ _ _ _ _ Hx Hmoved) as Hx1.
  assert (Hpend : pending (evs b) x = Some (ev_timeout ev)) by (unfold pending; rewrite Hx; cbn; by rewrite Ht).
  assert (Hpend1 : ∀ y, pending (evs b1) y = without x (pending (evs b)) y).
  { intros y. rewrite (proj1 Hmoved). by apply pending_drop. }
  destruct Hmoved as (He1 & _ & _ & Hctl1 & _ & Hh1 & _). destruct Htm as (hs & Hh & Hlo).
  assert (Hheap1 : heap_rep (timeheap b1) (evs b1) hs) by (rewrite Hh1, He1; by apply heap_rep_put).
  assert (Hloop : loop b1 = loop b) by (rewrite Hb1, put_cb_rest; done).
  clearbody b1. apply wp_bind, wp_gets. unfold is_common, n_common_timeouts. rewrite Hctl1.
  destruct (lo_valid _ _ _ Hlo _ _ Hpend) as [Hn|(i & Hi & Hat)].
  - rewrite normal_not_common by done.
    assert (Hin : x ∈ hs) by (apply (lo_heap _ _ _ Hlo); eauto).
    destruct (erase_ok _ _ _ _ Hheap1 Hin) as (h' & st' & Ee & hs' & Hr' & Hperm & Ha & Hc & _).
    apply wp_bind. eexists _, _. split; [unfold heap_erase; rewrite Ee; done|]. apply wp_ret.
    pose proof (idx_changed_core _ _ _ Hc) as Hcore.
    assert (Hnd : NoDup hs) by apply (rep_nodup _ _ _ _ (proj1 Hheap1 0%nat)).
    assert (Hlen : heap_n h' + 1 = heap_n (timeheap b1)).
    { rewrite (rep_n _ _ _ _ (proj1 Hr' 0%nat)), (rep_n _ _ _ _ (proj1 Hheap1 0%nat)), <- Hperm. cbn [length]. lia. }
    pose proof (rep_room _ _ _ _ (proj1 Hheap1 0%nat)) as Hroom.
    split_and!; [|eapply touched_trans; [exact Ht1|]|done| | |done].
    + apply base_rest. split; [by eapply rest_recore_ok|]. exists hs'. bcbn. split; [done|].
      eapply lists_ok_ext, (lists_leave_heap _ _ hs hs' x).
      * intros y. rewrite <- Hpend1. unfold pending. specialize (Hc y).
        destruct (evs b1 !! y) as [e|]; [|by rewrite Hc]. destruct Hc as [->|[_ [k ->]]]; done.
      * rewrite Hctl1. exact Hlo.
      * exact Hpend.
      * done.
      * intros y. rewrite <- Hperm in Hnd |- *. apply NoDup_cons in Hnd as [Hnx _]. rewrite elem_of_cons.
        split; [intros Hy; split; [by right|by intros ->]|]. by intros [[->|?] ?].
    + apply touched_core; try done; bcbn. intros y. rewrite <- !lookup_fmap. by rewrite Hcore.
    + destruct (core_lookup _ _ _ _ Hcore Hx1) as (e' & E' & Hce). exists (ev_timeout_pos e'). bcbn.
      rewrite E'. f_equal. by apply core_eq.
    + bcbn. lia.
  - destruct (common_at_idx i _ _ Hat Hi) as [-> Hidx]; [apply (lo_max _ _ _ Hlo)|].
    destruct (common_queue b x (ev_timeout ev) i) as (ctl & Hctl & Hin); [by exists hs|done|done|done|].
    pose proof (lo_nodup _ _ _ Hlo _ _ Hctl) as Hnd.
    destruct (unlink_nodup x _ Hnd Hin) as (l' & Hu & Hperm & Hnd' & Hmem & Hsub).
    unfold get_common_timeout_list. rewrite Hidx.
    apply wp_bind. apply (wp_lift _ _ ctl); [by rewrite Hctl1|].
    apply wp_bind. apply (wp_lift _ _ l'); [done|].
    destruct (set_common_touched (of_event x) i l' ctl b1) as [Es Ht2]; [by rewrite Hctl1|].
    eexists _, _. split; [exact Es|].
    split_and!; [|by eapply touched_trans|done|exists (ev_timeout_pos ev); bcbn; rewrite Hx1; by destruct ev| |by intros _].
    + apply base_rest. split; [eapply rest_recore_ok; [exact Hrest1|..]; try done; by apply (to_common _ _ _ Ht2)|].
      exists hs. bcbn. split; [done|]. rewrite Hctl1. eapply lists_ok_ext; [exact Hpend1|].
      eapply lists_leave_common; try done. by rewrite Z2Nat.id by lia.
    + intros Hn. by destruct (normal_not_at i _ Hn (proj1 Hi)).
Qed.

(** A push for which there is room needs no memory. *)
Lemma push_room_ok realloc s st hs e :
  heap_rep s st hs → e ∉ hs → is_Some (st !! e) → Zlen hs + 1 < 2 ^ 31 → heap_n s < heap_a s →
  ∃ s' st' hs', min_heap_push_ realloc s st e = Some (0, s', st') ∧ heap_rep s' st' hs' ∧
     hs' ≡ₚ e :: hs ∧ idx_changed (λ x, x = e ∨ x ∈ hs) st st'.
Proof.
  intros Hr He Hl Hb Hroom. destruct (push_ok realloc s st hs e Hr He Hl Hb) as [H|(_ & Ha & _)]; [done|lia].
Qed.

Lemma heap_size_bound b hs :
  heap_rep (timeheap b) (evs b) hs → Z.of_nat (size (evs b)) + 1 < 2 ^ 31 → Zlen hs + 1 < 2 ^ 31.
Proof.
  intros [Hr _] Hs. destruct (Hr 0%nat) as [_ _ _ _ Hnd Hl _].
  assert (length hs <= size (evs b))%nat; [|lia].
  rewrite <- size_dom, <- (size_list_to_set (C := gset nat)) by done.
  apply subseteq_size. intros x Hx%elem_of_list_to_set. apply elem_of_dom. auto.
Qed.

Lemma pending_add x ev b y :
  evs b !! x = Some ev →
  pending (evs (put_cb (of_event x) (add_flag EVLIST_TIMEOUT (ev_evcallback ev)) b)) y =
  with_ x (ev_timeout ev) (pending (evs b)) y.
Proof.
  intros Hx. cbn [put_cb]. rewrite Hx. bcbn. unfold pending, with_. case_decide as Hy; [subst|].
  - rewrite lookup_insert_eq. cbn. unfold ev_flags. cbn. by flags.
  - by rewrite lookup_insert_ne.
Qed.

(** Inserting a timer; [room]: a slot of the heap is free if it is to go there. *)
Lemma insert_timeout_ok mm x ev b :
  base_ok b → evs b !! x = Some ev → has EVLIST_TIMEOUT (ev_flags ev) = false →
  valid_tv (n_common_timeouts b) (ev_timeout ev) →
  (tv_normal (ev_timeout ev) → heap_n (timeheap b) < heap_a (timeheap b)) →
  wp (event_queue_insert_timeout mm x) b (λ _ b', base_ok b' ∧ touched (of_event x) b b' ∧ loop b' = loop b ∧
    has_event b' x (with_evcallback (add_flag EVLIST_TIMEOUT (ev_evcallback ev)) ev) ∧
    (¬ tv_normal (ev_timeout ev) → timeheap b' = timeheap b)).
Proof.
  intros Hok Hx Ht Hv Hroom. apply base_rest in Hok as [Hrest Htm]. unfold event_queue_insert_timeout.
  assert (Hp : callback_at b (of_event x) = Some (ev_evcallback ev)) by (cbn; by rewrite Hx).
  apply wp_bind, (wp_get_event x ev); [done|]. apply wp_bind, wp_assert; [by rewrite Ht|].
  apply wp_bind, wp_modify. apply wp_bind, (wp_upd_cb _ _ _ (ev_evcallback ev)); [done|].
  cbv beta zeta. set (c' := add_flag EVLIST_TIMEOUT (ev_evcallback ev)). set (cs := Event_counts _ _ _ _ _ _).
  set (b1 := put_cb (of_event x) c' (with_counts cs b)).
  assert (Hb1 : b1 = with_counts cs (put_cb (of_event x) c' b)) by (unfold b1; cbn; by rewrite Hx).
  assert (Hrest1 : rest_ok b1).
  { rewrite Hb1. eapply rest_put_ok; [done|done|apply requeued_add; auto with flags|..].
    - unfold where_, c'. by flags.
    - unfold c', ev_flags. by flags.
    - unfold cs, c', ev_flags in *. bcbn. weights.
    - done. }
  assert (Hmoved : moved (of_event x) c' b b1).
  { rewrite Hb1. unfold moved. split_and!; try done; rewrite put_cb_rest; done. }
  pose proof (moved_touched _ _ _ _ Hmoved) as Ht1. pose proof (moved_event _ _ _ _ _ Hx Hmoved) as Hx1.
  assert (Hpend : pending (evs b) x = None) by (unfold pending; rewrite Hx; cbn; by rewrite Ht).
  assert (Hpend1 : ∀ y, pending (evs b1) y = with_ x (ev_timeout ev) (pending (evs b)) y).
  { intros y. rewrite (proj1 Hmoved). by apply pending_add. }
  destruct Hmoved as (He1 & _ & _ & Hctl1 & Hal1 & Hh1 & _). destruct Htm as (hs & Hh & Hlo).
  assert (Hheap1 : heap_rep (timeheap b1) (evs b1) hs) by (rewrite Hh1, He1; by apply heap_rep_put).
  assert (Hloop : loop b1 = loop b) by (rewrite Hb1, put_cb_rest; done).
  clearbody b1. apply wp_bind, wp_gets. unfold is_common, n_common_timeouts in *. rewrite Hctl1.
  destruct Hv as [Hn|(i & Hi & Hat)].
  - rewrite normal_not_common by done.
    assert (Hin : x ∉ hs) by (rewrite (lo_heap _ _ _ Hlo), Hpend; intros (? & [=] & _)).
    destruct (push_room_ok (mm (allocs (maps b1))) _ _ _ x Hheap1 Hin) as (h' & st' & hs' & Ep & Hr' & Hperm & Hc);
      [eauto|eapply heap_size_bound; [exact Hheap1|apply Hrest1]|rewrite Hh1; auto|].
    apply wp_bind. eexists _, _. split; [unfold heap_push; rewrite Ep; done|]. apply wp_ret.
    pose proof (idx_changed_core _ _ _ Hc) as Hcore.
    split_and!; [|eapply touched_trans; [exact Ht1|]|done| |done].
    + apply base_rest. split; [by eapply rest_recore_ok|]. exists hs'. bcbn. split; [done|].
      eapply lists_ok_ext, (lists_join_heap _ _ hs hs' x).
      * intros y. rewrite <- Hpend1. unfold next_alloc, pending. bcbn. specialize (Hc y).
        destruct (evs b1 !! y) as [e|]; [|by rewrite Hc]. destruct Hc as [->|[_ [k ->]]]; done.
      * unfold next_alloc. bcbn. rewrite Hctl1. exact Hlo.
      * exact Hpend.
      * done.
      * intros y. by rewrite Hperm, elem_of_cons.
    + apply touched_core; try done; bcbn. intros y. rewrite <- !lookup_fmap. unfold next_alloc. bcbn. by rewrite Hcore.
    + destruct (core_lookup _ _ _ _ Hcore Hx1) as (e' & E' & Hce). exists (ev_timeout_pos e'). unfold next_alloc. bcbn.
      rewrite E'. f_equal. by apply core_eq.
  - destruct (common_at_idx i _ _ Hat Hi) as [-> Hidx]; [apply (lo_max _ _ _ Hlo)|]. rewrite Hidx.
    destruct (lookup_lt_is_Some_2 (common_timeout_queues b) (Z.to_nat i)) as [ctl Hctl]; [lia|].
    unfold insert_common_timeout_inorder. apply wp_bind, (wp_get_event x _ _ _ Hx1).
    apply wp_bind. apply (wp_lift _ _ ctl); [by rewrite Hctl1|].
    pose proof (lo_common _ _ _ Hlo _ _ Hctl) as Hmem. rewrite Z2Nat.id in Hmem by lia.
    assert (Hxl : x ∉ ctl_events ctl) by (rewrite Hmem, Hpend; intros (? & [=] & _)).
    assert (Hrev : ∀ y, y ∈ rev (ctl_events ctl) ↔ y ∈ ctl_events ctl).
    { intros y. by rewrite !list_elem_of_In, <- in_rev. }
    destruct (insert_inorder_rev_ok (evs b1) (pending (evs b)) i x (ev_timeout ev) (rev (ctl_events ctl)))
      as (rl' & Eins & Hperm & Hsort).
    { intros y Hy. apply Hrev, Hmem in Hy as (t & Hpy & Hty). unfold pending in Hpy.
      destruct (evs b !! y) as [e|] eqn:Ey; [|done]. cbn in Hpy. destruct (has EVLIST_TIMEOUT (ev_flags e)) eqn:Ety; [|done].
      simplify_eq. assert (Hyx : y ≠ x) by (intros ->; simplify_eq; congruence). exists e.
      rewrite He1. cbn [put_cb]. rewrite Hx. bcbn. rewrite lookup_insert_ne by done. split; [done|]. split; [|done].
      unfold pending. rewrite Ey. cbn. by rewrite Ety. }
    { done. }
    { apply StronglySorted_rev, (lo_sorted _ _ _ Hlo _ _ Hctl). }
    { by rewrite Hrev. }
    apply wp_bind. apply (wp_lift _ _ rl'); [exact Eins|].
    apply wp_bind, (wp_upd_event _ _ _ _ _ Hx1). set (b2 := with_evs _ b1).
    assert (Hcore : core <$> evs b2 = core <$> evs b1).
    { apply map_eq. intros y. unfold b2. bcbn. rewrite !lookup_fmap. destruct (decide (y = x)) as [->|].
      - by rewrite lookup_insert_eq, Hx1. - by rewrite lookup_insert_ne. }
    destruct (set_common_touched (of_event x) i (rev rl') ctl b2) as [Es Ht2]; [unfold b2; bcbn; by rewrite Hctl1|].
    eexists _, _. split; [exact Es|].
    assert (Hcmp : ctl_events ctl ≡ₚ rev (ctl_events ctl)) by apply Permutation_rev.
    split_and!; [|eapply touched_trans; [exact Ht1|eapply touched_trans; [|exact Ht2]]|done| |].
    + apply base_rest. split; [eapply rest_recore_ok; [exact Hrest1|..]; try done; by apply (to_common _ _ _ Ht2)|].
      exists hs. bcbn. split.
      * eapply heap_rep_frame; [exact Hheap1|]. intros y Hy. unfold b2. bcbn. rewrite lookup_insert_ne; [done|].
        intros <-. rewrite (lo_heap _ _ _ Hlo), Hpend in Hy. by destruct Hy as (? & [=] & _).
      * unfold b2. bcbn. rewrite Hctl1.
        eapply lists_ok_ext, (lists_join_common _ _ hs x (ev_timeout ev) (Z.to_nat i) ctl (rev rl') Hlo Hpend);
          [|by rewrite Z2Nat.id by lia|done| |].
        -- intros y. rewrite <- Hpend1. unfold pending. destruct (decide (y = x)) as [->|].
           ++ by rewrite lookup_insert_eq, Hx1. ++ by rewrite lookup_insert_ne.
        -- etrans; [symmetry; apply Permutation_rev|]. by rewrite Hperm, <- Hcmp.
        -- apply StronglySorted_rev in Hsort. exact Hsort.
    + apply touched_core; try done. intros y. rewrite <- !lookup_fmap. by rewrite Hcore.
    + exists ev_next_with_common_timeout. unfold b2. bcbn. by rewrite lookup_insert_eq.
    + intros _. unfold b2. bcbn. done.
Qed.

(** ** Descriptors and signals *)

Definition inserted_as (x : nat) (o : option (Z * Z)) (I : nat → option (Z * Z)) (y : nat) :=
  if decide (y = x) then o else I y.

(** Setting or clearing EVLIST_INSERTED, the lists being [m]. *)
Lemma inserted_put_ok x ev c m cs b :
  base_ok b → evs b !! x = Some ev → requeued (ev_evcallback ev) c →
  where_ c = where_ (ev_evcallback ev) →
  has EVLIST_TIMEOUT (evcb_flags c) = has EVLIST_TIMEOUT (ev_flags ev) →
  event_count cs = event_count (counts b) - weight (ev_flags ev) + weight (evcb_flags c) →
  event_count_active cs = event_count_active (counts b) →
  evmap_ok (evs b) m →
  inserted_ok (inserted_as x (if has EVLIST_INSERTED (evcb_flags c) then Some (ev_fd ev, ev_events ev) else None)
    (inserted (evs b))) m →
  base_ok (with_maps m (with_counts cs (put_cb (of_event x) c b))).
Proof.
  intros [] Hx Hr Hw Ht Hc Ha Hm Hin.
  assert (Hp : callback_at b (of_event x) = Some (ev_evcallback ev)) by (cbn; by rewrite Hx).
  split.
  - apply (items_ok_same (put_cb (of_event x) c b)); [done..|]. by eapply items_put.
  - rewrite put_cb_rest; bcbn. destruct bo_heap0 as (hs & H1 & H2). exists hs. split; [by apply heap_rep_put|].
    eapply lists_ok_ext; [|exact H2]. intros y. by eapply pending_put.
  - rewrite put_cb_rest; bcbn. eapply queues_ok_ext; [|exact bo_queues0]. intros q. cbv beta.
    rewrite (callback_at_same (put_cb (of_event x) c b)) by done.
    rewrite (callback_at_put _ _ _ _ _ Hp). case_decide; [|done]. subst. rewrite Hp. cbn. by rewrite Hw.
  - bcbn. eapply inserted_ok_ext; [|exact Hin]. intros y. unfold inserted, inserted_as. cbn [put_cb].
    rewrite Hx. bcbn. case_decide; [subst; rewrite lookup_insert_eq; done|by rewrite lookup_insert_ne].
  - bcbn. by apply evmap_ok_put.
  - bcbn. rewrite (pending_total_put _ _ _ _ Hp), Hc, bo_count0. done.
  - rewrite put_cb_rest; bcbn. congruence.
Qed.

(** The lists have changed, but not who is on them. *)
Lemma maps_same_ok b m :
  base_ok b → evmap_ok (evs b) m → (∀ fd y, on_fd m fd y ↔ on_fd (maps b) fd y) →
  (∀ sig y, on_signal m sig y ↔ on_signal (maps b) sig y) → base_ok (with_maps m b).
Proof.
  intros [] Hm H1 H2. split; try done; bcbn; [by destruct bo_items0|].
  destruct bo_inserted0. split; intros *; rewrite ?H1, ?H2; auto. apply io_some0.
Qed.

Lemma on_fd_inserted b x fd : base_ok b → on_fd (maps b) fd x → is_Some (inserted (evs b) x).
Proof. intros Hok H. apply (io_fds _ _ (bo_inserted _ Hok)) in H as (_ & evs & -> & _). eauto. Qed.
Lemma on_signal_inserted b x sig : base_ok b → on_signal (maps b) sig x → is_Some (inserted (evs b) x).
Proof. intros Hok H. apply (io_sigs _ _ (bo_inserted _ Hok)) in H as (_ & evs & -> & _). eauto. Qed.

Section inserting.
Context (mm : nat → Z → bool) (backend : history → backend_call → bool) (fdinfo_len : Z).

(** Putting an event on its list. *)
Definition insert_on_list (x : nat) (ev : event) : EM Z :=
  res ← (if has IO_EVENTS (ev_events ev)
         then run_maps (λ st m, evmap_io_add_ mm backend fdinfo_len st (ev_fd ev) x m)
         else if has EV_SIGNAL (ev_events ev)
         then run_maps (λ st m, evmap_signal_add_ mm backend st (ev_fd ev) x m)
         else mret 0);
  when (negb (res =? -1)) (event_queue_insert_inserted x);;
  mret (if res =? 1 then 0 else res).

Lemma insert_inserted_ok x ev b m :
  base_ok b → evs b !! x = Some ev → has EVLIST_INSERTED (ev_flags ev) = false →
  evmap_ok (evs b) m →
  inserted_ok (inserted_as x (Some (ev_fd ev, ev_events ev)) (inserted (evs b))) m →
  wp (event_queue_insert_inserted x) (with_maps m b) (λ _ b', base_ok b' ∧
    moved (of_event x) (add_flag EVLIST_INSERTED (ev_evcallback ev)) (with_maps m b) b' ∧ loop b' = loop b).
Proof.
  intros Hok Hx Hi Hm Hin. unfold event_queue_insert_inserted.
  apply wp_bind, (wp_get_event x ev); [done|]. apply wp_bind, wp_assert; [by rewrite Hi|].
  apply wp_bind, wp_modify. apply (wp_upd_cb _ _ _ (ev_evcallback ev)); [cbn; by rewrite Hx|].
  cbv beta zeta. set (cs := Event_counts _ _ _ _ _ _). set (c' := add_flag _ _).
  assert (E : put_cb (of_event x) c' (with_counts cs (with_maps m b)) =
    with_maps m (with_counts cs (put_cb (of_event x) c' b))) by (cbn; by rewrite Hx).
  rewrite E. split_and!.
  - eapply inserted_put_ok; [done|done|apply requeued_add; auto with flags|..]; try done.
    + unfold where_, c'. by flags.
    + unfold c', ev_flags. by flags.
    + unfold cs, c', ev_flags in *. bcbn. weights.
    + unfold c'. flags. exact Hin.
  - unfold moved. rewrite put_cb_rest; bcbn. split_and!; try done; cbn; by rewrite Hx.
  - rewrite put_cb_rest; done.
Qed.

Lemma insert_on_list_ok x ev b :
  base_ok b → evs b !! x = Some ev → has EVLIST_INSERTED (ev_flags ev) = false →
  has (Z.lor IO_EVENTS EV_SIGNAL) (ev_events ev) = true →
  wp (insert_on_list x ev) b (λ r b', base_ok b' ∧ touched (of_event x) b b' ∧ loop b' = loop b ∧
    timeheap b' = timeheap b ∧ common_timeout_queues b' = common_timeout_queues b ∧ time b' = time b ∧
    (r = -1 ∧ evs b' = evs b ∨
     r = 0 ∧ evs b' !! x = Some (with_evcallback (add_flag EVLIST_INSERTED (ev_evcallback ev)) ev))).
Proof.
  intros Hok Hx Hi Hev. pose proof (bo_wf _ (bo_items _ Hok) x ev Hx) as Hwf.
  assert (Hnone : inserted (evs b) x = None) by (unfold inserted; rewrite Hx; cbn; by rewrite Hi).
  assert (Hno1 : ¬ on_fd (maps b) (ev_fd ev) x).
  { intros H. destruct (on_fd_inserted _ _ _ Hok H) as [? E]. congruence. }
  assert (Hno2 : ¬ on_signal (maps b) (ev_fd ev) x).
  { intros H. destruct (on_signal_inserted _ _ _ Hok H) as [? E]. congruence. }
  destruct (bo_inserted _ Hok) as [Hf Hs Hsome].
  assert (Hfin : ∀ m r, evmap_ok (evs b) m → r = 0 ∨ r = 1 →
    inserted_ok (inserted_as x (Some (ev_fd ev, ev_events ev)) (inserted (evs b))) m →
    wp (when (negb (r =? -1)) (event_queue_insert_inserted x);; mret (if r =? 1 then 0 else r)) (with_maps m b)
      (λ r b', base_ok b' ∧ touched (of_event x) b b' ∧ loop b' = loop b ∧
        timeheap b' = timeheap b ∧ common_timeout_queues b' = common_timeout_queues b ∧ time b' = time b ∧
        (r = -1 ∧ evs b' = evs b ∨
         r = 0 ∧ evs b' !! x = Some (with_evcallback (add_flag EVLIST_INSERTED (ev_evcallback ev)) ev)))).
  { intros m r Hm Hr Hin. apply wp_bind, wp_when; [|intros H; destruct Hr; subst; done].
    intros _. eapply wp_mono; [by apply (insert_inserted_ok x ev b m)|]. intros _ b' (Hok' & Hmv & Hl).
    apply wp_ret. split; [done|]. split; [eapply touched_trans; [|by eapply moved_touched]; by split|].
    pose proof (moved_event x _ ev (with_maps m b) b' Hx Hmv).
    destruct Hmv as (_ & _ & _ & E1 & _ & E2 & E3 & _). split_and!; try done. right. split; [|done]. by destruct Hr as [->| ->]. }
  assert (Hfail : ∀ m, evmap_ok (evs b) m → (∀ fd y, on_fd m fd y ↔ on_fd (maps b) fd y) →
    (∀ sig y, on_signal m sig y ↔ on_signal (maps b) sig y) →
    wp (when (negb (-1 =? -1)) (event_queue_insert_inserted x);; mret (if -1 =? 1 then 0 else -1)) (with_maps m b)
      (λ r b', base_ok b' ∧ touched (of_event x) b b' ∧ loop b' = loop b ∧
        timeheap b' = timeheap b ∧ common_timeout_queues b' = common_timeout_queues b ∧ time b' = time b ∧
        (r = -1 ∧ evs b' = evs b ∨
         r = 0 ∧ evs b' !! x = Some (with_evcallback (add_flag EVLIST_INSERTED (ev_evcallback ev)) ev)))).
  { intros m Hm H1 H2. apply wp_bind, wp_when; [done|]. intros _. apply wp_ret.
    split; [by apply maps_same_ok|]. split; [by split|]. split_and!; try done. by left. }
  assert (Hsig0 : has EV_SIGNAL (ev_events ev) && has IO_EVENTS (ev_events ev) = false) by apply Hwf.
  unfold insert_on_list. apply wp_bind. rewrite has_or in Hev.
  destruct (has IO_EVENTS (ev_events ev)) eqn:Eio.
  - destruct (io_add_ok mm backend fdinfo_len (evs b) (maps b) x ev) as (r & m & E & Hm & Hsm & Hadd);
      [by destruct Hok|done|done|by destruct Hwf|].
    eexists _, _. split; [unfold run_maps; rewrite E; done|].
    assert (Hsig : ∀ sig y, on_signal m sig y ↔ on_signal (maps b) sig y)
      by (intros; unfold on_signal, sig_entry; by rewrite Hsm).
    destruct Hadd as [[-> Hadd]|[Hr Hadd]]; [by apply Hfail|]. apply Hfin; [done|done|].
    rewrite andb_true_r in Hsig0. unfold inserted_as. split.
    + intros fd y. rewrite Hadd, Hf. case_decide as Hy; [subst|].
      * rewrite Hnone. split.
        -- intros [(? & ? & [=] & _)|(? & -> & _)]. eauto 10.
        -- intros (? & ? & [= <- <-] & ?). right. done.
      * split; [by intros [?|(? & ? & ?)]|by left].
    + intros sig y. rewrite Hsig, Hs. case_decide as Hy; [subst|done]. rewrite Hnone.
      split; [by intros (? & ? & [=] & _)|]. intros (? & ? & [= <- <-] & ?). congruence.
    + intros y fd es. case_decide; [intros [= <- <-]; by rewrite Eio|apply Hsome].
  - cbn [orb] in Hev. rewrite Hev. destruct (ew_signal _ Hwf Hev) as [Hfd0 _].
    destruct (signal_add_ok mm backend (evs b) (maps b) x ev) as (r & m & E & Hm & Hio & Hadd);
      [by destruct Hok|done|done|split; [done|by destruct Hwf]|].
    eexists _, _. split; [unfold run_maps; rewrite E; done|].
    assert (Hfd : ∀ fd y, on_fd m fd y ↔ on_fd (maps b) fd y)
      by (intros; unfold on_fd, io_entry; by rewrite Hio).
    destruct Hadd as [[-> Hadd]|[-> Hadd]]; [by apply Hfail|]. apply Hfin; [done|by right|]. unfold inserted_as. split.
    + intros fd y. rewrite Hfd, Hf. case_decide as Hy; [subst|done]. rewrite Hnone.
      split; [by intros (? & ? & [=] & _)|]. intros (? & ? & [= <- <-] & ?). congruence.
    + intros sig y. rewrite Hadd, Hs. case_decide as Hy; [subst|].
      * rewrite Hnone. split.
        -- intros [(? & ? & [=] & _)|[-> _]]. eauto 10.
        -- intros (? & ? & [= <- <-] & ?). right. done.
      * split; [by intros [?|[? ?]]|by left].
    + intros y fd es. case_decide; [intros [= <- <-]; by rewrite Hev, orb_true_r|apply Hsome].
Qed.
End inserting.

(** Taking an event off its list; the result is that of evmap_io_del_ or evmap_signal_del_. *)
Definition remove_from_list (backend : history → backend_call → bool) (x : nat) (ev : event) : EM Z :=
  event_queue_remove_inserted x;;
  res ← (if has IO_EVENTS (ev_events ev)
         then run_maps (λ st m, evmap_io_del_ backend st (ev_fd ev) x m)
         else run_maps (λ st m, evmap_signal_del_ backend st (ev_fd ev) x m));
  mret (if res =? 1 then 0 else res).

Lemma remove_from_list_ok backend x ev ev0 b :
  base_ok b → evs b !! x = Some ev → has EVLIST_INSERTED (ev_flags ev) = true →
  ev_events ev0 = ev_events ev → ev_fd ev0 = ev_fd ev →
  wp (remove_from_list backend x ev0) b (λ r b', base_ok b' ∧ touched (of_event x) b b' ∧ loop b' = loop b ∧
    timeheap b' = timeheap b ∧ common_timeout_queues b' = common_timeout_queues b ∧
    evs b' !! x = Some (with_evcallback (drop_flag EVLIST_INSERTED (ev_evcallback ev)) ev)).
Proof.
  intros Hok Hx Hi He0 Hf0. pose proof (bo_wf _ (bo_items _ Hok) x ev Hx) as Hwf.
  assert (Hsome : inserted (evs b) x = Some (ev_fd ev, ev_events ev)) by (unfold inserted; rewrite Hx; cbn; by rewrite Hi).
  destruct (bo_inserted _ Hok) as [Hf Hs Hany].
  assert (Hp : callback_at b (of_event x) = Some (ev_evcallback ev)) by (cbn; by rewrite Hx).
  unfold remove_from_list, event_queue_remove_inserted.
  apply wp_bind, wp_bind, (wp_get_event x ev); [done|]. apply wp_bind, wp_assert; [done|].
  apply wp_bind, wp_modify. apply (wp_upd_cb _ _ _ (ev_evcallback ev)); [done|].
  cbv beta zeta. set (cs := Event_counts _ _ _ _ _ _). set (c' := drop_flag _ _). rewrite He0, Hf0.
  set (b1 := put_cb _ _ _).
  assert (Hx1 : evs b1 !! x = Some (with_evcallback c' ev)) by (unfold b1; cbn; rewrite Hx; apply lookup_insert_eq).
  assert (Hm1 : evmap_ok (evs b1) (maps b)) by (apply (evmap_ok_put _ _ (with_counts cs b)); by destruct Hok).
  assert (Hmaps1 : maps b1 = maps b) by (unfold b1; rewrite put_cb_rest; done).
  assert (Hfin : ∀ m r, evmap_ok (evs b1) m →
    inserted_ok (inserted_as x None (inserted (evs b))) m →
    wp (mret (if r =? 1 then 0 else r) : EM Z) (with_maps m b1) (λ (_ : Z) b', base_ok b' ∧ touched (of_event x) b b' ∧ loop b' = loop b ∧
      timeheap b' = timeheap b ∧ common_timeout_queues b' = common_timeout_queues b ∧
      evs b' !! x = Some (with_evcallback c' ev))).
  { intros m r Hm Hin. apply wp_ret.
    assert (E : with_maps m b1 = with_maps m (with_counts cs (put_cb (of_event x) c' b))) by (unfold b1; cbn; by rewrite Hx).
    split_and!.
    - rewrite E. eapply inserted_put_ok; [done|done|apply requeued_drop; auto with flags|..]; try done.
      + unfold where_, c'. by flags.
      + unfold c', ev_flags. by flags.
      + unfold cs, c', ev_flags in *. bcbn. weights.
      + eapply evmap_ok_ext; [|exact Hm]. intros y e Hy _. unfold b1 in Hy.
        destruct (evs_put _ _ _ _ _ Hy) as (e0 & He & [[_ ->]|[_ ->]]); eauto.
      + unfold c'. flags. exact Hin.
    - rewrite E. apply (touched_trans _ _ (with_counts cs (put_cb (of_event x) c' b))); [|by split].
      apply (moved_touched _ c'). unfold moved. split_and!; try done; rewrite put_cb_rest; done.
    - rewrite E, put_cb_rest. done.
    - rewrite E, put_cb_rest. done.
    - rewrite E, put_cb_rest. done.
    - exact Hx1. }
  apply wp_bind. destruct (has IO_EVENTS (ev_events ev)) eqn:Eio.
  - destruct (io_del_ok backend (evs b1) (maps b) x (with_evcallback c' ev)) as (r & m & E & Hm & Hsm & Hdel); [done|done| |].
    { cbn. intros H0. apply Hf. eauto. }
    eexists _, _. split; [unfold run_maps; rewrite Hmaps1; cbn [ev_fd with_evcallback] in E; rewrite E; done|].
    apply Hfin; [done|]. unfold inserted_as. assert (Hsg : has EV_SIGNAL (ev_events ev) = false).
    { destruct Hwf. rewrite Eio, andb_true_r in ew_events0. done. }
    split.
    + intros fd y. rewrite Hdel, Hf. case_decide as Hy; [subst|].
      * split; [by intros [_ ?]|intros (_ & ? & [=] & _)].
      * split; [by intros [? _]|done].
    + intros sig y. unfold on_signal, sig_entry. rewrite Hsm. change (on_signal (maps b) sig y ↔
        0 <= sig ∧ ∃ evs0, (if decide (y = x) then None else inserted (evs b) y) = Some (sig, evs0) ∧ has EV_SIGNAL evs0 = true).
      rewrite Hs. case_decide as Hy; [subst|done]. rewrite Hsome.
      split; [|intros (_ & ? & [=] & _)]. intros (_ & ? & [= <- <-] & ?). congruence.
    + intros y fd es. case_decide; [done|apply Hany].
  - pose proof (Hany _ _ _ Hsome) as Hsg. rewrite Eio in Hsg. cbn [orb] in Hsg.
    destruct (ew_signal _ Hwf Hsg) as [Hfd0 _].
    destruct (signal_del_ok backend (evs b1) (maps b) x (with_evcallback c' ev)) as (r & m & E & Hm & Hio & Hdel); [done|done| |].
    { cbn. apply Hs. eauto. }
    eexists _, _. split; [unfold run_maps; rewrite Hmaps1; cbn [ev_fd with_evcallback] in E; rewrite E; done|].
    apply Hfin; [done|]. unfold inserted_as. split.
    + intros fd y. unfold on_fd, io_entry. rewrite Hio. change (on_fd (maps b) fd y ↔
        0 <= fd ∧ ∃ evs0, (if decide (y = x) then None else inserted (evs b) y) = Some (fd, evs0) ∧ has IO_EVENTS evs0 = true).
      rewrite Hf. case_decide as Hy; [subst|done]. rewrite Hsome.
      split; [|intros (_ & ? & [=] & _)]. intros (_ & ? & [= <- <-] & ?). congruence.
    + intros sig y. rewrite Hdel, Hs. case_decide as Hy; [subst|].
      * split; [by intros [_ ?]|intros (_ & ? & [=] & _)].
      * split; [by intros [? _]|done].
    + intros y fd es. case_decide; [done|apply Hany].
Qed.

(** [*ev->ev_pncalls = 0]: the counter is that of the running closure. *)
Lemma abort_calls_ok x ev b :
  base_ok b → evs b !! x = Some ev → has EV_SIGNAL (ev_events ev) = true →
  wp (abort_calls x) b (λ _ b', base_ok b' ∧ b' = with_signal_frame (signal_frame b') b ∧
    frames (signal_frame b') = frames (signal_frame b) ∧
    fst <$> frame (signal_frame b') = fst <$> frame (signal_frame b) ∧
    ((∀ k, ¬ points b x k) → signal_frame b' = signal_frame b)).
Proof.
  intros Hok Hx Hs. pose proof (bo_wf _ (bo_items _ Hok) x ev Hx) as Hwf.
  destruct (ew_signal _ Hwf Hs) as [_ [n Hn]]. unfold abort_calls.
  apply wp_bind, (wp_get_event x ev); [done|]. apply wp_bind. apply (wp_lift _ _ n); [done|].
  destruct (Z.eqb_spec n 0) as [H0|H0].
  { apply wp_ret. split; [done|]. split; [by destruct b|]. done. }
  assert (∃ p, ev_pncalls ev = Some p) as [p Hpn].
  { unfold ev_ncalls, ev_pncalls in *. destruct (ev_ ev); eauto; done. }
  apply wp_bind. apply (wp_lift _ _ p); [done|]. destruct p as [k|].
  2:{ apply wp_ret. split; [done|]. split; [by destruct b|]. done. }
  destruct (bo_frame _ (bo_items _ Hok) x ev n k Hx Hs Hn H0 Hpn) as [m Hm].
  eexists tt, _. unfold write_counter. rewrite Hm. cbn [mbind option_bind]. rewrite Nat.eqb_refl. split; [done|].
  split; [|split; [done|split; [done|split; [done|intros Hno; destruct (Hno k); by exists ev]]]].
  destruct Hok as [[] ? ? ? ? ? ?]. split; try done. split; try done. bcbn. intros y e n' k' Hy Hsy Hny Hn0 Hpy.
  destruct (bo_frame0 y e n' k' Hy Hsy Hny Hn0 Hpy) as [m' Hm']. rewrite Hm in Hm'. simplify_eq. cbn. eauto.
Qed.
