(* ===== verification/RateLimit.v ===== *)
(** * Rate limits of bufferevents

    Models libevent/bufferevent_ratelim.c: bufferevents with a bucket of their own, groups of
    bufferevents that share one, and the timers that refill both.  Bufferevents, groups and
    configurations are shared objects: a world maps their addresses to them.  Timers are those of an
    event base, which is used through the interface [Timers].

    The functions for reading and for writing that the source has side by side are one function of a
    flag [is_write], as LIM is in the source.  Locks of bufferevents are there as far as the code tries
    to take them without waiting: such an attempt has an arbitrary outcome. *)

From S2P Require Import Prelude Text Evutil Timeval Event TokenBucket.

(** ** The timers *)

(** The members of that name of a struct bufferevent_rate_limit and of a group. *)
Inductive timer := refill_bucket_event (bev : nat) | master_refill_event (g : nat).
#[export] Instance timer_eq_dec : EqDecision timer.
Proof. solve_decision. Defined.

(** event_assign with fd -1 and without a condition ([persist]: EV_PERSIST), event_add, event_del,
    event_initialized, is the timer pending?, event_base_gettimeofday_cached. *)
Class Timers (T : Type) := {
  event_assign : timer → bool → T → option T;
  event_add : timer → timeval → T → option (Z * T);
  event_del : timer → T → option T;
  event_initialized : T → timer → bool;
  timer_pending : T → timer → bool;
  gettimeofday_cached : T → option (timeval * T)
}.

(** What the rate limits rely on: the operations on the timers of an event base in order are answered,
    event_add arms the timer or answers -1, and no operation touches another timer.  [usable]: timers
    for which there is memory. *)
Class TimersLaws (T : Type) `{Timers T} := {
  timers_ok : T → Prop;
  usable : timer → Prop;
  pending_law x t : timers_ok t → timer_pending t x = true → event_initialized t x = true;
  assign_law x p t : timers_ok t → usable x → (event_initialized t x = true → timer_pending t x = false) →
    ∃ t', event_assign x p t = Some t' ∧ timers_ok t' ∧ event_initialized t' x = true ∧ timer_pending t' x = false ∧
      ∀ y, y ≠ x → event_initialized t' y = event_initialized t y ∧ timer_pending t' y = timer_pending t y;
  add_law x tv t : timers_ok t → event_initialized t x = true → tv_normal tv →
    ∃ r t', event_add x tv t = Some (r, t') ∧ timers_ok t' ∧
      (r = 0 ∧ timer_pending t' x = true ∨ r = -1 ∧ timer_pending t' x = timer_pending t x) ∧
      (∀ y, event_initialized t' y = event_initialized t y) ∧
      ∀ y, y ≠ x → timer_pending t' y = timer_pending t y;
  del_law x t : timers_ok t → event_initialized t x = true →
    ∃ t', event_del x t = Some t' ∧ timers_ok t' ∧ timer_pending t' x = false ∧
      (∀ y, event_initialized t' y = event_initialized t y) ∧
      ∀ y, y ≠ x → timer_pending t' y = timer_pending t y;
  time_law t : timers_ok t → ∃ tv t', gettimeofday_cached t = Some (tv, t') ∧ timers_ok t' ∧
      ∀ y, event_initialized t' y = event_initialized t y ∧ timer_pending t' y = timer_pending t y
}.

(** ** Data *)

Definition BEV_SUSPEND_BW : Z := 0x02.
Definition BEV_SUSPEND_BW_GROUP : Z := 0x04.
Definition MAX_SINGLE_READ_DEFAULT : Z := 16384.
Definition MAX_SINGLE_WRITE_DEFAULT : Z := 16384.

(** struct bufferevent_rate_limit: the addresses of the group and of the configuration. *)
Record bufferevent_rate_limit := Bufferevent_rate_limit { group : option nat; limit : ev_token_bucket; cfg : option nat }.

(** What struct bufferevent_private has for one direction: the conditions that suspend it, the
    longest single operation, and whether [be_ops] has last been told to enable it or to disable it. *)
Record way := Way { suspended : Z; max_single : Z; going : bool }.
(** struct bufferevent_private: [enabled] of struct bufferevent, and the part for rate limits. *)
Record bufferevent_private := Bufferevent_private { enabled : Z; ways : bool → way; rate_limiting : option bufferevent_rate_limit }.

(** What struct bufferevent_rate_limit_group has for one direction. *)
Record group_way := Group_way { group_suspended : bool; pending_unsuspend : bool; total : Z }.
(** struct bufferevent_rate_limit_group *)
Record rate_limit_group := Rate_limit_group {
  members : list nat; n_members : Z; rate_limit : ev_token_bucket; rate_limit_cfg : ev_token_bucket_cfg;
  group_ways : bool → group_way; min_share : Z; configured_min_share : Z; weakrand_seed : Z
}.

Definition set_way {A} (w : bool) (x : A) (f : bool → A) : bool → A := λ w', if Bool.eqb w w' then x else f w'.

Definition with_ways (f : bool → way) (b : bufferevent_private) : bufferevent_private :=
  Bufferevent_private (enabled b) f (rate_limiting b).
Definition with_rate_limiting (r : option bufferevent_rate_limit) (b : bufferevent_private) : bufferevent_private :=
  Bufferevent_private (enabled b) (ways b) r.
Definition on_way (w : bool) (f : way → way) (b : bufferevent_private) : bufferevent_private :=
  with_ways (set_way w (f (ways b w)) (ways b)) b.
Definition with_limit (l : ev_token_bucket) (r : bufferevent_rate_limit) : bufferevent_rate_limit :=
  Bufferevent_rate_limit (group r) l (cfg r).
Definition with_cfg (c : option nat) (r : bufferevent_rate_limit) : bufferevent_rate_limit :=
  Bufferevent_rate_limit (group r) (limit r) c.
Definition with_group (g : option nat) (r : bufferevent_rate_limit) : bufferevent_rate_limit :=
  Bufferevent_rate_limit g (limit r) (cfg r).

Definition with_members (l : list nat) (n : Z) (g : rate_limit_group) : rate_limit_group :=
  Rate_limit_group l n (rate_limit g) (rate_limit_cfg g) (group_ways g) (min_share g) (configured_min_share g) (weakrand_seed g).
Definition with_rate_limit (l : ev_token_bucket) (g : rate_limit_group) : rate_limit_group :=
  Rate_limit_group (members g) (n_members g) l (rate_limit_cfg g) (group_ways g) (min_share g) (configured_min_share g) (weakrand_seed g).
Definition with_rate_limit_cfg (c : ev_token_bucket_cfg) (g : rate_limit_group) : rate_limit_group :=
  Rate_limit_group (members g) (n_members g) (rate_limit g) c (group_ways g) (min_share g) (configured_min_share g) (weakrand_seed g).
Definition on_group_way (w : bool) (f : group_way → group_way) (g : rate_limit_group) : rate_limit_group :=
  Rate_limit_group (members g) (n_members g) (rate_limit g) (rate_limit_cfg g)
    (set_way w (f (group_ways g w)) (group_ways g)) (min_share g) (configured_min_share g) (weakrand_seed g).
Definition with_share (n c : Z) (g : rate_limit_group) : rate_limit_group :=
  Rate_limit_group (members g) (n_members g) (rate_limit g) (rate_limit_cfg g) (group_ways g) n c (weakrand_seed g).
Definition with_seed (n : Z) (g : rate_limit_group) : rate_limit_group :=
  Rate_limit_group (members g) (n_members g) (rate_limit g) (rate_limit_cfg g) (group_ways g) (min_share g) (configured_min_share g) n.

(** The objects, the numbers of allocations and of attempts to take a lock, and whether event_add has
    ever failed.  The address of an allocated object is its number. *)
Record world (T : Type) := World {
  timers : T; bevs : gmap nat bufferevent_private; groups : gmap nat rate_limit_group;
  cfgs : gmap nat ev_token_bucket_cfg; allocs : nat; tries : nat; refused : bool
}.
Arguments World {T}.
Arguments timers {T}.
Arguments bevs {T}.
Arguments groups {T}.
Arguments cfgs {T}.
Arguments allocs {T}.
Arguments tries {T}.
Arguments refused {T}.

(** A computation; [None]: an access to memory that is not there, a failed assertion, a division by
    zero, a signed overflow. *)
Definition RM (T A : Type) : Type := world T → option (A * world T).
#[export] Instance rm_ret {T} : MRet (RM T) := λ A a s, Some (a, s).
#[export] Instance rm_bind {T} : MBind (RM T) := λ A B f m s, '(a, s) ← m s; f a s.
#[export] Instance rm_fmap {T} : FMap (RM T) := λ A B f m s, '(a, s) ← m s; Some (f a, s).

(** evutil_weakrand_range_: 2^31 draws are enough, a hundred nearly always are. *)
Definition weakrand_range (top seed : Z) : option (Z * Z) :=
  match evutil_weakrand_range_ 100 top seed with
  | Some r => Some r
  | None => evutil_weakrand_range_ (Z.to_nat (2 ^ 31)) top seed
  end.

Definition EV_OF (is_write : bool) : Z := if is_write then EV_WRITE else EV_READ.

(** ** Operations *)

Section ratelim.
Context {T : Type} `{Timers T}.
(** [mm]: the answer to the [k]-th call of mm_calloc; [trylock]: that to the [k]-th EVLOCK_TRY_LOCK_. *)
Context (mm trylock : nat → bool).
(** What evutil_weakrand_seed_ uses in place of the seed 0. *)
Context (seed_time : timeval) (pid : Z).

Definition rfails {A} : RM T A := λ _, None.
Definition the {A} (o : option A) : RM T A := λ s, a ← o; Some (a, s).
Definition whenever (c : bool) (m : RM T unit) : RM T unit := if c then m else mret tt.
Definition rassert (c : bool) : RM T unit := if c then mret tt else rfails.

Definition get_bev (v : nat) : RM T bufferevent_private := λ s, b ← bevs s !! v; Some (b, s).
Definition put_bev (v : nat) (b : bufferevent_private) : RM T unit := λ s,
  Some (tt, World (timers s) (<[v := b]> (bevs s)) (groups s) (cfgs s) (allocs s) (tries s) (refused s)).
Definition upd_bev (v : nat) (f : bufferevent_private → bufferevent_private) : RM T unit :=
  b ← get_bev v; put_bev v (f b).
Definition get_group (g : nat) : RM T rate_limit_group := λ s, G ← groups s !! g; Some (G, s).
Definition put_group (g : nat) (G : rate_limit_group) : RM T unit := λ s,
  Some (tt, World (timers s) (bevs s) (<[g := G]> (groups s)) (cfgs s) (allocs s) (tries s) (refused s)).
Definition del_group (g : nat) : RM T unit := λ s,
  Some (tt, World (timers s) (bevs s) (delete g (groups s)) (cfgs s) (allocs s) (tries s) (refused s)).
Definition upd_group (g : nat) (f : rate_limit_group → rate_limit_group) : RM T unit :=
  G ← get_group g; put_group g (f G).
Definition get_cfg (c : nat) : RM T ev_token_bucket_cfg := λ s, k ← cfgs s !! c; Some (k, s).
Definition put_cfg (c : nat) (k : ev_token_bucket_cfg) : RM T unit := λ s,
  Some (tt, World (timers s) (bevs s) (groups s) (<[c := k]> (cfgs s)) (allocs s) (tries s) (refused s)).
Definition on_timers {A} (f : T → option (A * T)) : RM T A := λ s,
  '(a, t) ← f (timers s); Some (a, World t (bevs s) (groups s) (cfgs s) (allocs s) (tries s) (refused s)).

Definition timer_assign (x : timer) (persist : bool) : RM T unit := on_timers (λ t, t' ← event_assign x persist t; Some (tt, t')).
Definition timer_del (x : timer) : RM T unit := on_timers (λ t, t' ← event_del x t; Some (tt, t')).
Definition note_refused (r : Z) : RM T unit := λ s,
  Some (tt, World (timers s) (bevs s) (groups s) (cfgs s) (allocs s) (tries s) (refused s || (r <? 0))).
Definition timer_add (x : timer) (tv : timeval) : RM T Z := r ← on_timers (event_add x tv); note_refused r;; mret r.
Definition now : RM T timeval := on_timers gettimeofday_cached.

(** mm_calloc: the address. *)
Definition mm_calloc : RM T (option nat) := λ s,
  Some (if mm (allocs s) then Some (allocs s) else None,
        World (timers s) (bevs s) (groups s) (cfgs s) (S (allocs s)) (tries s) (refused s)).
Definition try_lock : RM T bool := λ s,
  Some (trylock (tries s), World (timers s) (bevs s) (groups s) (cfgs s) (allocs s) (S (tries s)) (refused s)).

Fixpoint for_each (l : list nat) (f : nat → RM T unit) : RM T unit :=
  match l with [] => mret tt | v :: l => f v;; for_each l f end.

(** *** Suspending one direction of a bufferevent *)

Definition bufferevent_suspend (w : bool) (v : nat) (what : Z) : RM T unit :=
  b ← get_bev v;
  let y := ways b w in
  put_bev v (on_way w (λ y, Way (Z.lor (suspended y) what) (max_single y) (if suspended y =? 0 then false else going y)) b).
Definition bufferevent_suspend_read_ : nat → Z → RM T unit := bufferevent_suspend false.
Definition bufferevent_suspend_write_ : nat → Z → RM T unit := bufferevent_suspend true.

Definition bufferevent_unsuspend (w : bool) (v : nat) (what : Z) : RM T unit :=
  b ← get_bev v;
  put_bev v (on_way w (λ y, let n := clear_bits what (suspended y) in
    Way n (max_single y) (if (n =? 0) && has (EV_OF w) (enabled b) then true else going y)) b).
Definition bufferevent_unsuspend_read_ : nat → Z → RM T unit := bufferevent_unsuspend false.
Definition bufferevent_unsuspend_write_ : nat → Z → RM T unit := bufferevent_unsuspend true.

(** *** All members of a group *)

(** The body of the loops over the members: [f] when the lock can be had, without waiting for it;
    could it? *)
Definition if_unlocked (f : nat → RM T unit) (v : nat) : RM T bool :=
  locked ← try_lock;
  if locked : bool then f v;; mret true else mret false.

Definition bev_group_suspend (w : bool) (g : nat) : RM T unit :=
  upd_group g (on_group_way w (λ y, Group_way true false (total y)));;
  G ← get_group g;
  for_each (members G) (λ v, if_unlocked (λ v, bufferevent_suspend w v BEV_SUSPEND_BW_GROUP) v;; mret tt).
Definition bev_group_suspend_reading_ : nat → RM T unit := bev_group_suspend false.
Definition bev_group_suspend_writing_ : nat → RM T unit := bev_group_suspend true.

(** The place of a random member in the list. *)
Definition bev_group_random_element_ (g : nat) : RM T (option Z) :=
  G ← get_group g;
  if n_members G =? 0 then mret None
  else
    rassert (negb (bool_decide (members G = [])));;
    '(which, seed) ← the (weakrand_range (n_members G) (weakrand_seed G));
    put_group g (with_seed seed G);;
    mret (Some which).

(** FOREACH_RANDOM_ORDER: from that member to the end of the list, then the members before it.  To
    find it, the links are followed [which] times. *)
Definition random_order (l : list nat) (first : option Z) : option (list nat) :=
  match first with
  | None => Some l
  | Some which => if which <=? Zlen l then Some (drop (Z.to_nat which) l ++ take (Z.to_nat which) l) else None
  end.

(** One after the other; has a lock not been had? *)
Fixpoint unsuspend_each (w : bool) (l : list nat) (again : bool) : RM T bool :=
  match l with
  | [] => mret again
  | v :: l =>
      done ← if_unlocked (λ v, bufferevent_unsuspend w v BEV_SUSPEND_BW_GROUP) v;
      unsuspend_each w l (if done : bool then again else true)
  end.

Definition bev_group_unsuspend (w : bool) (g : nat) : RM T unit :=
  upd_group g (on_group_way w (λ y, Group_way false (pending_unsuspend y) (total y)));;
  first ← bev_group_random_element_ g;
  G ← get_group g;
  l ← the (random_order (members G) first);
  again ← unsuspend_each w l false;
  upd_group g (on_group_way w (λ y, Group_way (group_suspended y) again (total y))).
Definition bev_group_unsuspend_reading_ : nat → RM T unit := bev_group_unsuspend false.
Definition bev_group_unsuspend_writing_ : nat → RM T unit := bev_group_unsuspend true.

(** *** Buckets of bufferevents *)

Definition bufferevent_update_buckets (v : nat) : RM T unit :=
  tv ← now;
  b ← get_bev v;
  r ← the (rate_limiting b);
  c ← the (cfg r);
  k ← get_cfg c;
  tick ← the (ev_token_bucket_get_tick_ tv k);
  whenever (negb (tick =? last_updated (limit r)))
    (put_bev v (with_rate_limiting (Some (with_limit (ev_token_bucket_update_ (limit r) k tick).2 r)) b)).

(** The share of a member of a group; the quotient is rounded towards 0. *)
Definition group_share (w : bool) (v g : nat) : RM T Z :=
  G ← get_group g;
  if group_suspended (group_ways G w) then bufferevent_suspend w v BEV_SUSPEND_BW_GROUP;; mret 0
  else
    rassert (negb (n_members G =? 0));;
    let share := Z.quot (LIM w (rate_limit G)) (n_members G) in
    mret (if share <? min_share G then min_share G else share).

Definition bufferevent_get_rlim_max_ (v : nat) (w : bool) : RM T Z :=
  b ← get_bev v;
  let max_so_far := max_single (ways b w) in
  match rate_limiting b with
  | None => mret max_so_far
  | Some r =>
      max_so_far ← match cfg r with
        | None => mret max_so_far
        | Some _ =>
            bufferevent_update_buckets v;;
            b ← get_bev v;
            r ← the (rate_limiting b);
            mret (LIM w (limit r))
        end;
      max_so_far ← match group r with
        | None => mret max_so_far
        | Some g => share ← group_share w v g; mret (if share <? max_so_far then share else max_so_far)
        end;
      mret (if max_so_far <? 0 then 0 else max_so_far)
  end.
Definition bufferevent_get_read_max_ (v : nat) : RM T Z := bufferevent_get_rlim_max_ v false.
Definition bufferevent_get_write_max_ (v : nat) : RM T Z := bufferevent_get_rlim_max_ v true.

(** Stops one direction until the bucket is refilled: 0, or -1 without a timer. *)
Definition wait_for_refill (w : bool) (v c : nat) : RM T Z :=
  bufferevent_suspend w v BEV_SUSPEND_BW;;
  k ← get_cfg c;
  r ← timer_add (refill_bucket_event v) (tick_timeout k);
  mret (if r <? 0 then -1 else 0).
(** There is something in the bucket again; the timer is needed only for the other direction. *)
Definition resume (w : bool) (v : nat) : RM T unit :=
  b ← get_bev v;
  whenever (negb (has BEV_SUSPEND_BW (suspended (ways b (negb w))))) (timer_del (refill_bucket_event v));;
  bufferevent_unsuspend w v BEV_SUSPEND_BW.

(** The first half of the next function: the bucket of the bufferevent. *)
Definition decrement_own (w : bool) (v : nat) (r : bufferevent_rate_limit) (bytes : Z) : RM T Z :=
  match cfg r with
  | None => mret 0
  | Some c =>
      l ← the (decrement w bytes (limit r));
      b ← get_bev v;
      put_bev v (with_rate_limiting (Some (with_limit l r)) b);;
      if LIM w l <=? 0 then wait_for_refill w v c
      else whenever (has BEV_SUSPEND_BW (suspended (ways b w))) (resume w v);; mret 0
  end.
(** The second half: the bucket of the group. *)
Definition decrement_group (w : bool) (g : nat) (bytes : Z) : RM T unit :=
  G ← get_group g;
  l ← the (decrement w bytes (rate_limit G));
  let G := on_group_way w (λ y, Group_way (group_suspended y) (pending_unsuspend y) (uint64 (total y + bytes)))
             (with_rate_limit l G) in
  put_group g G;;
  if LIM w l <=? 0 then bev_group_suspend w g
  else whenever (group_suspended (group_ways G w)) (bev_group_unsuspend w g).
Definition bufferevent_decrement_buckets (w : bool) (v : nat) (bytes : Z) : RM T Z :=
  b ← get_bev v;
  match rate_limiting b with
  | None => mret 0
  | Some r =>
      x ← decrement_own w v r bytes;
      match group r with None => mret x | Some g => decrement_group w g bytes;; mret x end
  end.
Definition bufferevent_decrement_read_buckets_ : nat → Z → RM T Z := bufferevent_decrement_buckets false.
Definition bufferevent_decrement_write_buckets_ : nat → Z → RM T Z := bufferevent_decrement_buckets true.

(** For each direction that is suspended: go on, or wait for another refill? *)
Definition refill_way (w : bool) (v : nat) : RM T bool :=
  b ← get_bev v;
  r ← the (rate_limiting b);
  if has BEV_SUSPEND_BW (suspended (ways b w)) then
    if 0 <? LIM w (limit r) then bufferevent_unsuspend w v BEV_SUSPEND_BW;; mret false else mret true
  else mret false.
Definition bev_refill_callback_ (v : nat) : RM T unit :=
  b ← get_bev v;
  match rate_limiting b with
  | None => mret tt
  | Some r =>
      match cfg r with
      | None => mret tt
      | Some c =>
          tv ← now;
          k ← get_cfg c;
          tick ← the (ev_token_bucket_get_tick_ tv k);
          put_bev v (with_rate_limiting (Some (with_limit (ev_token_bucket_update_ (limit r) k tick).2 r)) b);;
          again ← refill_way false v;
          again' ← refill_way true v;
          whenever (again || again') (timer_add (refill_bucket_event v) (tick_timeout k);; mret tt)
      end
  end.

Definition refill_group_way (w : bool) (g : nat) : RM T unit :=
  G ← get_group g;
  let y := group_ways G w in
  whenever (pending_unsuspend y || group_suspended y && (min_share G <=? LIM w (rate_limit G))) (bev_group_unsuspend w g).
Definition bev_group_refill_callback_ (g : nat) : RM T unit :=
  tv ← now;
  G ← get_group g;
  tick ← the (ev_token_bucket_get_tick_ tv (rate_limit_cfg G));
  put_group g (with_rate_limit (ev_token_bucket_update_ (rate_limit G) (rate_limit_cfg G) tick).2 G);;
  refill_group_way false g;;
  refill_group_way true g.

(** *** The interface *)

(** After the bucket has been set up: does the direction wait for a refill? *)
Definition start_way (w : bool) (v : nat) (l : ev_token_bucket) : RM T bool :=
  if 0 <? LIM w l then bufferevent_unsuspend w v BEV_SUSPEND_BW;; mret false
  else bufferevent_suspend w v BEV_SUSPEND_BW;; mret true.

(** [cfg = None] *)
Definition no_rate_limit (v : nat) : RM T Z :=
  b ← get_bev v;
  match rate_limiting b with
  | None => mret 0
  | Some r =>
      put_bev v (with_rate_limiting (Some (with_cfg None r)) b);;
      bufferevent_unsuspend false v BEV_SUSPEND_BW;;
      bufferevent_unsuspend true v BEV_SUSPEND_BW;;
      initialized ← on_timers (λ t, Some (event_initialized t (refill_bucket_event v), t));
      whenever initialized (timer_del (refill_bucket_event v));;
      mret 0
  end.

Definition no_limit : bufferevent_rate_limit := Bufferevent_rate_limit None zero_bucket None.
(** [bevp->rate_limiting], which is allocated when there is none yet. *)
Definition get_rate_limiting (v : nat) : RM T (option bufferevent_rate_limit) :=
  b ← get_bev v;
  match rate_limiting b with
  | Some r => mret (Some r)
  | None =>
      a ← mm_calloc;
      match a with
      | None => mret None
      | Some _ => put_bev v (with_rate_limiting (Some no_limit) b);; mret (Some no_limit)
      end
  end.

(** The bucket gets a configuration. *)
Definition start_rate_limit (v c : nat) (k : ev_token_bucket_cfg) (tick : Z) (r : bufferevent_rate_limit) : RM T Z :=
  let reinit := bool_decide (is_Some (cfg r)) in
  let l := ev_token_bucket_init_ (limit r) k tick reinit in
  b ← get_bev v;
  put_bev v (with_rate_limiting (Some (with_limit l (with_cfg (Some c) r))) b);;
  whenever reinit
    (initialized ← on_timers (λ t, Some (event_initialized t (refill_bucket_event v), t));
     rassert initialized;;
     timer_del (refill_bucket_event v));;
  timer_assign (refill_bucket_event v) false;;
  s ← start_way false v l;
  s' ← start_way true v l;
  whenever (s || s') (timer_add (refill_bucket_event v) (tick_timeout k);; mret tt);;
  mret 0.

Definition bufferevent_set_rate_limit (v : nat) (c : option nat) : RM T Z :=
  match c with
  | None => no_rate_limit v
  | Some c =>
      tv ← now;
      k ← get_cfg c;
      tick ← the (ev_token_bucket_get_tick_ tv k);
      b ← get_bev v;
      if bool_decide (mbind cfg (rate_limiting b) = Some c) then mret 0
      else
        r ← get_rate_limiting v;
        match r with None => mret (-1) | Some r => start_rate_limit v c k tick r end
  end.

Definition bufferevent_rate_limit_group_set_min_share (g : nat) (share : Z) : RM T Z :=
  if EV_SSIZE_MAX <? share then mret (-1)
  else
    G ← get_group g;
    let k := rate_limit_cfg G in
    let n := if read_rate k <? share then read_rate k else share in
    let n := if write_rate k <? n then write_rate k else n in
    put_group g (with_share n share G);;
    mret 0.

(** The group and its address. *)
Definition bufferevent_rate_limit_group_new (c : nat) : RM T (option nat) :=
  tv ← now;
  k ← get_cfg c;
  tick ← the (ev_token_bucket_get_tick_ tv k);
  a ← mm_calloc;
  match a with
  | None => mret None
  | Some g =>
      let way := Group_way false false 0 in
      let G := Rate_limit_group [] 0 (ev_token_bucket_init_ zero_bucket k tick false) k (λ _, way) 0 0 0 in
      put_group g G;;
      timer_assign (master_refill_event g) true;;
      timer_add (master_refill_event g) (tick_timeout k);;
      bufferevent_rate_limit_group_set_min_share g 64;;
      upd_group g (with_seed (evutil_weakrand_seed_ (uint32 (tv_sec tv + tv_usec tv + Z.of_nat g))
                     (tv_sec seed_time) (tv_usec seed_time) pid));;
      mret (Some g)
  end.

Definition bufferevent_rate_limit_group_set_cfg (g c : nat) : RM T Z :=
  k ← get_cfg c;
  G ← get_group g;
  let same_tick := evutil_timercmp Z.eqb (tick_timeout (rate_limit_cfg G)) (tick_timeout k) in
  put_group g (with_rate_limit (Ev_token_bucket (clipped (read_maximum k) (read_limit (rate_limit G)))
                                 (clipped (write_maximum k) (write_limit (rate_limit G))) (last_updated (rate_limit G)))
               (with_rate_limit_cfg k G));;
  whenever (negb same_tick) (timer_add (master_refill_event g) (tick_timeout k);; mret tt);;
  G ← get_group g;
  bufferevent_rate_limit_group_set_min_share g (uint64 (configured_min_share G));;
  mret 0.

Definition bufferevent_rate_limit_group_free (g : nat) : RM T unit :=
  G ← get_group g;
  rassert (n_members G =? 0);;
  timer_del (master_refill_event g);;
  del_group g.

Definition bufferevent_remove_from_rate_limit_group_internal_ (v : nat) (unsuspend : bool) : RM T Z :=
  b ← get_bev v;
  match rate_limiting b with
  | Some r =>
      match group r with
      | Some g =>
          G ← get_group g;
          put_bev v (with_rate_limiting (Some (with_group None r)) b);;
          l ← the (unlink v (members G));
          put_group g (with_members l (n_members G - 1) G)
      | None => mret tt
      end
  | None => mret tt
  end;;
  whenever unsuspend
    (bufferevent_unsuspend false v BEV_SUSPEND_BW_GROUP;; bufferevent_unsuspend true v BEV_SUSPEND_BW_GROUP);;
  mret 0.
Definition bufferevent_remove_from_rate_limit_group (v : nat) : RM T Z :=
  bufferevent_remove_from_rate_limit_group_internal_ v true.

(** [v] becomes the first member of the group. *)
Definition join_group (v g : nat) : RM T Z :=
  G ← get_group g;
  b ← get_bev v;
  r ← the (rate_limiting b);
  put_bev v (with_rate_limiting (Some (with_group (Some g) r)) b);;
  put_group g (with_members (v :: members G) (n_members G + 1) G);;
  whenever (group_suspended (group_ways G false)) (bufferevent_suspend false v BEV_SUSPEND_BW_GROUP);;
  whenever (group_suspended (group_ways G true)) (bufferevent_suspend true v BEV_SUSPEND_BW_GROUP);;
  mret 0.

(** [g = None] is the null pointer, whose lock is asked for when the bufferevent is in a group. *)
Definition bufferevent_add_to_rate_limit_group (v : nat) (g : option nat) : RM T Z :=
  b ← get_bev v;
  let fresh := bool_decide (rate_limiting b = None) in
  r ← get_rate_limiting v;
  match r with
  | None => mret (-1)
  | Some r =>
      whenever fresh (timer_assign (refill_bucket_event v) false);;
      if bool_decide (group r = g) then mret 0
      else
        whenever (bool_decide (is_Some (group r))) (bufferevent_remove_from_rate_limit_group v;; mret tt);;
        match g with None => rfails | Some g => join_group v g end
  end.

Definition bufferevent_get_limit (w : bool) (v : nat) : RM T Z :=
  b ← get_bev v;
  match mbind cfg (rate_limiting b) with
  | Some _ =>
      bufferevent_update_buckets v;;
      b ← get_bev v;
      r ← the (rate_limiting b);
      mret (LIM w (limit r))
  | None => mret EV_SSIZE_MAX
  end.
Definition bufferevent_get_read_limit : nat → RM T Z := bufferevent_get_limit false.
Definition bufferevent_get_write_limit : nat → RM T Z := bufferevent_get_limit true.

Definition bufferevent_set_max_single (w : bool) (v : nat) (size : Z) : RM T Z :=
  let n := if (size =? 0) || (EV_SSIZE_MAX <? size) then (if w then MAX_SINGLE_WRITE_DEFAULT else MAX_SINGLE_READ_DEFAULT)
           else size in
  upd_bev v (on_way w (λ y, Way (suspended y) n (going y)));;
  mret 0.
Definition bufferevent_set_max_single_read : nat → Z → RM T Z := bufferevent_set_max_single false.
Definition bufferevent_set_max_single_write : nat → Z → RM T Z := bufferevent_set_max_single true.
Definition bufferevent_get_max_single_read (v : nat) : RM T Z := b ← get_bev v; mret (max_single (ways b false)).
Definition bufferevent_get_max_single_write (v : nat) : RM T Z := b ← get_bev v; mret (max_single (ways b true)).
Definition bufferevent_get_max_to_read (v : nat) : RM T Z := bufferevent_get_read_max_ v.
Definition bufferevent_get_max_to_write (v : nat) : RM T Z := bufferevent_get_write_max_ v.
Definition bufferevent_get_token_bucket_cfg (v : nat) : RM T (option nat) := b ← get_bev v; mret (mbind cfg (rate_limiting b)).
Definition bufferevent_rate_limit_group_get_read_limit (g : nat) : RM T Z := G ← get_group g; mret (LIM false (rate_limit G)).
Definition bufferevent_rate_limit_group_get_write_limit (g : nat) : RM T Z := G ← get_group g; mret (LIM true (rate_limit G)).

Definition bufferevent_decrement_limit (w : bool) (v : nat) (decr : Z) : RM T Z :=
  b ← get_bev v;
  r ← the (rate_limiting b);
  c ← the (cfg r);
  let old_limit := LIM w (limit r) in
  l ← the (decrement w decr (limit r));
  put_bev v (with_rate_limiting (Some (with_limit l r)) b);;
  let new_limit := LIM w l in
  if (0 <? old_limit) && (new_limit <=? 0) then wait_for_refill w v c
  else whenever ((old_limit <=? 0) && (0 <? new_limit)) (resume w v);; mret 0.
Definition bufferevent_decrement_read_limit : nat → Z → RM T Z := bufferevent_decrement_limit false.
Definition bufferevent_decrement_write_limit : nat → Z → RM T Z := bufferevent_decrement_limit true.

Definition bufferevent_rate_limit_group_decrement (w : bool) (g : nat) (decr : Z) : RM T Z :=
  G ← get_group g;
  let old_limit := LIM w (rate_limit G) in
  l ← the (decrement w decr (rate_limit G));
  put_group g (with_rate_limit l G);;
  let new_limit := LIM w l in
  (if (0 <? old_limit) && (new_limit <=? 0) then bev_group_suspend w g
   else whenever ((old_limit <=? 0) && (0 <? new_limit)) (bev_group_unsuspend w g));;
  mret 0.
Definition bufferevent_rate_limit_group_decrement_read : nat → Z → RM T Z := bufferevent_rate_limit_group_decrement false.
Definition bufferevent_rate_limit_group_decrement_write : nat → Z → RM T Z := bufferevent_rate_limit_group_decrement true.

(** The totals of reading and of writing. *)
Definition bufferevent_rate_limit_group_get_totals (g : nat) : RM T (Z * Z) :=
  G ← get_group g; mret (total (group_ways G false), total (group_ways G true)).
Definition bufferevent_rate_limit_group_reset_totals (g : nat) : RM T unit :=
  upd_group g (λ G, on_group_way false (λ y, Group_way (group_suspended y) (pending_unsuspend y) 0)
    (on_group_way true (λ y, Group_way (group_suspended y) (pending_unsuspend y) 0) G)).

Definition bufferevent_ratelim_init_ (v : nat) : RM T Z :=
  upd_bev v (λ b, with_rate_limiting None
    (on_way false (λ y, Way (suspended y) MAX_SINGLE_READ_DEFAULT (going y))
      (on_way true (λ y, Way (suspended y) MAX_SINGLE_WRITE_DEFAULT (going y)) b)));;
  mret 0.

(** Configurations: the address of a new one; its end. *)
Definition new_cfg (read_rate read_burst write_rate write_burst : Z) (tick_len : option timeval) : RM T (option nat) :=
  match ev_token_bucket_cfg_new true read_rate read_burst write_rate write_burst tick_len with
  | None => mret None
  | Some k =>
      a ← mm_calloc;
      match a with
      | None => mret None
      | Some c => put_cfg c k;; mret (Some c)
      end
  end.
Definition ev_token_bucket_cfg_free (c : nat) : RM T unit := λ s,
  Some (tt, World (timers s) (bevs s) (groups s) (delete c (cfgs s)) (allocs s) (tries s) (refused s)).

End ratelim.
