(* ===== verification/RateLimitOk.v ===== *)
(** * What the rate limits keep

    The invariant of bufferevents, groups and timers.  A function for one bufferevent is described as
    a change that is local to it; the functions for groups go through their members one by one. *)

From S2P Require Import Prelude Text Evutil EvutilRand Timeval Event EventBaseOk TokenBucket RateLimit.

Lemma flag_bw : flag BEV_SUSPEND_BW. Proof. by exists 1. Qed.
Lemma flag_bw_group : flag BEV_SUSPEND_BW_GROUP. Proof. by exists 2. Qed.

(** ** The random generator always answers *)

Lemma weakrand_loop_range fuel divisor top seed r seed' :
  0 < divisor → weakrand_loop fuel divisor top seed = Some (r, seed') → 0 <= r < top.
Proof.
  intros Hd. revert seed. induction fuel as [|fuel IH]; intros seed H; [done|]. cbn [weakrand_loop] in H.
  destruct (Z.leb_spec top (Z.quot (evutil_weakrand_ seed) divisor)); [by apply IH in H|].
  injection H as <- _. split; [|done]. apply Z.quot_pos; [|done]. rewrite weakrand_step. apply Z.mod_pos_bound. lia.
Qed.

Lemma weakrand_loop_more fuel k divisor top seed x :
  weakrand_loop fuel divisor top seed = Some x → weakrand_loop (fuel + k) divisor top seed = Some x.
Proof.
  revert seed. induction fuel as [|fuel IH]; intros seed H; [done|]. cbn [weakrand_loop Nat.add] in *.
  by destruct (top <=? _); [apply IH|].
Qed.

Lemma weakrand_range_some top seed :
  1 <= top <= EVUTIL_WEAKRAND_MAX → ∃ r seed', weakrand_range top seed = Some (r, seed') ∧ 0 <= r < top.
Proof.
  intros Ht. unfold weakrand_range.
  assert (Hd : 0 < Z.quot EVUTIL_WEAKRAND_MAX top) by (apply Z.quot_str_pos; lia).
  destruct (evutil_weakrand_range_ 100 top seed) as [[r seed']|] eqn:E.
  - exists r, seed'. split; [done|]. by apply (weakrand_loop_range _ _ _ _ _ _ Hd) in E.
  - destruct (zero_turns_up seed) as (n & Hn & H0).
    assert (Hq : Z.quot (Nat.iter (S n) evutil_weakrand_ seed) (Z.quot EVUTIL_WEAKRAND_MAX top) < top)
      by (rewrite H0, Z.quot_0_l; lia).
    destruct (weakrand_loop_ok _ top n (S n) seed Hd ltac:(lia) Hq) as (r & seed' & E' & Hr & _).
    exists r, seed'. split; [|done]. unfold evutil_weakrand_range_.
    replace (Z.to_nat (2 ^ 31)) with (S n + (Z.to_nat (2 ^ 31) - S n))%nat by lia. by apply weakrand_loop_more.
Qed.

(** ** The invariant *)

Set Default Proof Using "Type".

Section ratelim.
Context {T : Type} `{TimersLaws T}.
Context (mm trylock : nat → bool) (seed_time : timeval) (pid : Z).

Implicit Types s : world T.

Definition init s (x : timer) : bool := event_initialized (timers s) x.
Definition pend s (x : timer) : bool := timer_pending (timers s) x.

(** A configuration that can be used: a tick takes a millisecond at least. *)
Record good_cfg (k : ev_token_bucket_cfg) : Prop := {
  gc_ok : cfg_ok k;
  gc_msec : 1 <= msec_per_tick k;
  gc_tick : tv_normal (tick_timeout k)
}.

(** The group of a bufferevent. *)
Definition group_of (b : bufferevent_private) : option nat := mbind group (rate_limiting b).
Definition cfg_of (b : bufferevent_private) : option nat := mbind cfg (rate_limiting b).

(** In its group, the bufferevent is suspended for a reason.  [excused]: the members of this group
    are about to be told to go on. *)
Definition group_waits (excused : bool → nat → Prop) s (w : bool) (g : nat) : Prop :=
  excused w g ∨ ∃ G, groups s !! g = Some G ∧
    (group_suspended (group_ways G w) = true ∨ pending_unsuspend (group_ways G w) = true).

Definition bw (w : bool) (b : bufferevent_private) : bool := has BEV_SUSPEND_BW (suspended (ways b w)).
Definition bw_group (w : bool) (b : bufferevent_private) : bool := has BEV_SUSPEND_BW_GROUP (suspended (ways b w)).

(** A direction goes on exactly when it is enabled and nothing suspends it. *)
Definition going_ok (b : bufferevent_private) : Prop :=
  ∀ w, going (ways b w) = has (EV_OF w) (enabled b) && (suspended (ways b w) =? 0).
Record flags_ok (excused : bool → nat → Prop) s (b : bufferevent_private) : Prop := {
  fl_going : going_ok b;
  fl_group w : bw_group w b = true → ∃ g, group_of b = Some g ∧ group_waits excused s w g
}.
(** It is suspended for want of bandwidth when the bucket is empty; then a timer will refill it. *)
Record bandwidth_ok s (v : nat) (b : bufferevent_private) : Prop := {
  bw_timer w : bw w b = true → is_Some (cfg_of b) ∧ (refused s = false → pend s (refill_bucket_event v) = true);
  bw_bucket r c : rate_limiting b = Some r → cfg r = Some c → ∃ k, cfgs s !! c = Some k ∧ bucket_ok k (limit r) ∧
    ∀ w, LIM w (limit r) <= 0 → bw w b = true;
  bw_init : is_Some (rate_limiting b) → init s (refill_bucket_event v) = true;
  bw_idle : cfg_of b = None → init s (refill_bucket_event v) = true → pend s (refill_bucket_event v) = false
}.
Definition bev_ok (excused : bool → nat → Prop) s (v : nat) (b : bufferevent_private) : Prop :=
  flags_ok excused s b ∧ bandwidth_ok s v b.

(** A group suspends its members when its bucket is empty; its timer goes on and on. *)
Record group_ok s (g : nat) (G : rate_limit_group) : Prop := {
  go_cfg : good_cfg (rate_limit_cfg G);
  go_bucket : bucket_ok (rate_limit_cfg G) (rate_limit G);
  go_empty w : LIM w (rate_limit G) <= 0 → group_suspended (group_ways G w) = true;
  go_share w : 1 <= min_share G <= rate w (rate_limit_cfg G);
  go_configured : 1 <= configured_min_share G <= EV_SSIZE_MAX;
  go_nodup : NoDup (members G);
  go_n : n_members G = Zlen (members G);
  go_init : init s (master_refill_event g) = true;
  go_timer : refused s = false → pend s (master_refill_event g) = true;
  go_pending w : pending_unsuspend (group_ways G w) = true → group_suspended (group_ways G w) = false
}.

Record world_but (excused : bool → nat → Prop) s : Prop := {
  wo_timers : timers_ok (timers s);
  wo_bevs v b : bevs s !! v = Some b → bev_ok excused s v b;
  wo_groups g G : groups s !! g = Some G → group_ok s g G;
  wo_cfgs c k : cfgs s !! c = Some k → good_cfg k;
  wo_members v g : (∃ b, bevs s !! v = Some b ∧ group_of b = Some g) ↔ (∃ G, groups s !! g = Some G ∧ v ∈ members G);
  wo_size : Z.of_nat (size (bevs s)) <= EVUTIL_WEAKRAND_MAX;
  wo_fresh_groups g : is_Some (groups s !! g) → (g < allocs s)%nat;
  wo_fresh_cfgs c : is_Some (cfgs s !! c) → (c < allocs s)%nat;
  wo_unused g : groups s !! g = None → init s (master_refill_event g) = true → pend s (master_refill_event g) = false;
  wo_usable v : is_Some (bevs s !! v) → usable (refill_bucket_event v)
}.
Definition no_excuse (w : bool) (g : nat) : Prop := False.
Definition world_ok : world T → Prop := world_but no_excuse.

(** ** Computations *)

Definition rwp {A} (m : RM T A) s (Q : A → world T → Prop) : Prop := ∃ a s', m s = Some (a, s') ∧ Q a s'.

Lemma rwp_mono {A} (m : RM T A) s (Q Q' : A → world T → Prop) :
  rwp m s Q → (∀ a s', Q a s' → Q' a s') → rwp m s Q'.
Proof. intros (a & s' & E & HQ) HQ'. exists a, s'. auto. Qed.
Lemma rwp_ret {A} (a : A) s (Q : A → world T → Prop) : Q a s → rwp (mret a) s Q.
Proof. intros HQ. by exists a, s. Qed.
Lemma rwp_bind {A B} (m : RM T A) (f : A → RM T B) s Q : rwp m s (λ a s', rwp (f a) s' Q) → rwp (m ≫= f) s Q.
Proof.
  intros (a & s1 & E & c & s2 & E2 & HQ). exists c, s2. split; [|done]. unfold mbind, rm_bind. by rewrite E.
Qed.
Lemma rwp_the {A} (o : option A) a s (Q : A → world T → Prop) : o = Some a → Q a s → rwp (the o) s Q.
Proof. intros -> HQ. by exists a, s. Qed.
Lemma rwp_whenever c (m : RM T unit) s Q : (c = true → rwp m s Q) → (c = false → Q tt s) → rwp (whenever c m) s Q.
Proof. destruct c; intros H1 H2; [auto|]. by apply rwp_ret, H2. Qed.
Lemma rwp_assert c s (Q : unit → world T → Prop) : c = true → Q tt s → rwp (rassert c) s Q.
Proof. intros -> HQ. by exists tt, s. Qed.
Lemma rwp_get_bev v b s (Q : bufferevent_private → world T → Prop) : bevs s !! v = Some b → Q b s → rwp (get_bev v) s Q.
Proof. intros E HQ. exists b, s. unfold get_bev. by rewrite E. Qed.
Lemma rwp_get_group g G s (Q : rate_limit_group → world T → Prop) : groups s !! g = Some G → Q G s → rwp (get_group g) s Q.
Proof. intros E HQ. exists G, s. unfold get_group. by rewrite E. Qed.
Lemma rwp_get_cfg c k s (Q : ev_token_bucket_cfg → world T → Prop) : cfgs s !! c = Some k → Q k s → rwp (get_cfg c) s Q.
Proof. intros E HQ. exists k, s. unfold get_cfg. by rewrite E. Qed.

Definition set_bev (v : nat) (b : bufferevent_private) s : world T :=
  World (timers s) (<[v := b]> (bevs s)) (groups s) (cfgs s) (allocs s) (tries s) (refused s).
Definition set_group (g : nat) (G : rate_limit_group) s : world T :=
  World (timers s) (bevs s) (<[g := G]> (groups s)) (cfgs s) (allocs s) (tries s) (refused s).
Lemma rwp_put_bev v b s (Q : unit → world T → Prop) : Q tt (set_bev v b s) → rwp (put_bev v b) s Q.
Proof. intros HQ. by exists tt, (set_bev v b s). Qed.
Lemma rwp_put_group g G s (Q : unit → world T → Prop) : Q tt (set_group g G s) → rwp (put_group g G) s Q.
Proof. intros HQ. by exists tt, (set_group g G s). Qed.
Lemma rwp_upd_group g G f s (Q : unit → world T → Prop) :
  groups s !! g = Some G → Q tt (set_group g (f G) s) → rwp (upd_group g f) s Q.
Proof. intros E HQ. unfold upd_group. apply rwp_bind, (rwp_get_group g G); [done|]. by apply rwp_put_group. Qed.

(** ** Changes of one bufferevent *)

(** Only the bufferevent [v], not its group, and its timer may have changed. *)
Record local (v : nat) s s' : Prop := {
  lc_timers : timers_ok (timers s) → timers_ok (timers s');
  lc_bevs v' : v' ≠ v → bevs s' !! v' = bevs s !! v';
  lc_bev : group_of <$> bevs s' !! v = group_of <$> bevs s !! v;
  lc_groups : groups s' = groups s;
  lc_cfgs : cfgs s' = cfgs s;
  lc_allocs : (allocs s <= allocs s')%nat;
  lc_refused : refused s' = false → refused s = false;
  lc_frame y : y ≠ refill_bucket_event v → init s' y = init s y ∧ pend s' y = pend s y
}.

#[export] Instance local_po v : PreOrder (local v).
Proof.
  split.
  - intros s. by split.
  - intros s1 s2 s3 [A1 A2 A3 A4 A5 A6 A7 A8] [B1 B2 B3 B4 B5 B6 B7 B8]. split; try (by auto); try congruence; try lia.
    + intros v' Hv. rewrite B2, A2; done.
    + intros y Hy. destruct (A8 y Hy), (B8 y Hy). split; congruence.
Qed.

Lemma bev_ok_frame E s s' v b :
  bev_ok E s v b → cfgs s' = cfgs s → (refused s' = false → refused s = false) →
  init s' (refill_bucket_event v) = init s (refill_bucket_event v) →
  pend s' (refill_bucket_event v) = pend s (refill_bucket_event v) →
  (∀ w g, group_waits E s w g → group_waits E s' w g) → bev_ok E s' v b.
Proof.
  intros [[B1 B6] [B2 B3 B4 B5]] Hc Hr Hi Hp Hg. split; split; rewrite ?Hc, ?Hi, ?Hp; try done.
  - intros w Hw. destruct (B6 w Hw) as (g & ? & ?). eauto.
  - intros w Hw. destruct (B2 w Hw). split; [done|]. auto.
Qed.

Lemma group_ok_frame s s' g G :
  group_ok s g G → (refused s' = false → refused s = false) →
  init s' (master_refill_event g) = init s (master_refill_event g) →
  pend s' (master_refill_event g) = pend s (master_refill_event g) → group_ok s' g G.
Proof. intros [A1 A2 A3 A4 A5 A6 A7 A8 A9 A10] Hr Hi Hp. split; rewrite ?Hi, ?Hp; auto. Qed.

Lemma local_dom v s s' : local v s s' → dom (bevs s') = dom (bevs s).
Proof.
  intros L. apply set_eq. intros v'. rewrite !elem_of_dom. destruct (decide (v' = v)) as [->|Hne].
  - pose proof (lc_bev _ _ _ L) as Hb. by destruct (bevs s !! v), (bevs s' !! v).
  - by rewrite (lc_bevs _ _ _ L) by done.
Qed.

(** A local change keeps the invariant if it does so for the bufferevent. *)
Lemma local_ok E v s s' :
  world_but E s → local v s s' → (∀ b, bevs s' !! v = Some b → bev_ok E s' v b) → world_but E s'.
Proof.
  intros [W1 W2 W3 W4 W5 W6 W7 W8 W9 W10] L Hb. pose proof (lc_frame _ _ _ L) as Hf.
  pose proof (lc_groups _ _ _ L) as Hg. pose proof (lc_cfgs _ _ _ L) as Hc. split; rewrite ?Hg, ?Hc.
  - by apply (lc_timers _ _ _ L).
  - intros v' b Hv. destruct (decide (v' = v)) as [->|Hne]; [by apply Hb|].
    rewrite (lc_bevs _ _ _ L) in Hv by done. apply (bev_ok_frame E s); try done; try (by apply (lc_refused _ _ _ L)); auto.
    1-2: apply Hf; congruence.
    intros w g. unfold group_waits. by rewrite Hg.
  - intros g G HG. apply (group_ok_frame s); auto; [by apply (lc_refused _ _ _ L)| |]; apply Hf; congruence.
  - done.
  - intros v' g. rewrite <- W5. destruct (decide (v' = v)) as [->|Hne]; [|by rewrite (lc_bevs _ _ _ L)].
    pose proof (lc_bev _ _ _ L) as Hgr.
    destruct (bevs s !! v), (bevs s' !! v); simplify_eq/=; split; intros (? & ? & ?); simplify_eq; eexists; split; eauto; congruence.
  - by rewrite <- (size_dom (D := gset nat)), (local_dom _ _ _ L), size_dom.
  - intros g Hs. pose proof (lc_allocs _ _ _ L). specialize (W7 g Hs). lia.
  - intros c Hs. pose proof (lc_allocs _ _ _ L). specialize (W8 c Hs). lia.
  - intros g ?. destruct (Hf (master_refill_event g)) as [-> ->]; auto.
  - intros v'. rewrite <- elem_of_dom, (local_dom _ _ _ L), elem_of_dom. apply W10.
Qed.

(** *** Steps of local changes *)

Lemma local_set_bev v b b' s : bevs s !! v = Some b → group_of b' = group_of b → local v s (set_bev v b' s).
Proof.
  intros Hb Hg. split; try done; cbn.
  - intros v' ?. by rewrite lookup_insert_ne.
  - rewrite lookup_insert_eq, Hb. cbn. by rewrite Hg.
Qed.

(** What a timer does concerns only [v]; the bufferevents stay as they are. *)
Definition still (v : nat) s s' : Prop := local v s s' ∧ bevs s' = bevs s.

Lemma now_ok v s (Q : timeval → world T → Prop) :
  timers_ok (timers s) →
  (∀ tv s', still v s s' → refused s' = refused s → init s' (refill_bucket_event v) = init s (refill_bucket_event v) →
     pend s' (refill_bucket_event v) = pend s (refill_bucket_event v) → Q tv s') → rwp now s Q.
Proof.
  intros Ht HQ. destruct (time_law _ Ht) as (tv & t' & E & Ht' & Hf).
  eexists tv, _. unfold now, on_timers. rewrite E. split; [done|].
  apply HQ; [|done|apply Hf..]. split; [|done]. split; try done. intros y _. apply Hf.
Qed.

(** Only the timer [x] has been touched. *)
Record touches (x : timer) s s' : Prop := {
  tc_timers : timers_ok (timers s');
  tc_bevs : bevs s' = bevs s;
  tc_groups : groups s' = groups s;
  tc_cfgs : cfgs s' = cfgs s;
  tc_allocs : allocs s' = allocs s;
  tc_refused : refused s' = false → refused s = false;
  tc_frame y : y ≠ x → init s' y = init s y ∧ pend s' y = pend s y
}.
Lemma touches_still v s s' : touches (refill_bucket_event v) s s' → still v s s'.
Proof. intros [C1 C2 C3 C4 C5 C6 C7]. split; [|done]. split; rewrite ?C2, ?C5; auto. Qed.

Lemma add_any x tv s (Q : Z → world T → Prop) :
  timers_ok (timers s) → init s x = true → tv_normal tv →
  (∀ r s', touches x s s' → r = 0 ∨ r = -1 → init s' x = true →
     (refused s' = false → pend s' x = true ∧ r = 0) → Q r s') →
  rwp (timer_add x tv) s Q.
Proof.
  intros Ht Hi Htv HQ. destruct (add_law _ tv _ Ht Hi Htv) as (r & t' & E & Ht' & Hr & Hi' & Hf).
  eexists r, _. split; [unfold timer_add, on_timers, mbind, rm_bind; rewrite E; reflexivity|]. apply HQ.
  - split; try done; cbn; [by intros [? _]%orb_false_iff|]. intros y Hy. split; [apply Hi'|by apply Hf].
  - destruct Hr as [[-> _]|[-> _]]; auto.
  - unfold init. cbn. by rewrite Hi'.
  - cbn. intros [_ Hz]%orb_false_iff. destruct Hr as [[-> Hp]|[-> _]]; [done|]. by apply Z.ltb_ge in Hz.
Qed.
Lemma del_any x s (Q : unit → world T → Prop) :
  timers_ok (timers s) → init s x = true →
  (∀ s', touches x s s' → refused s' = refused s → init s' x = true → pend s' x = false → Q tt s') →
  rwp (timer_del x) s Q.
Proof.
  intros Ht Hi HQ. destruct (del_law _ _ Ht Hi) as (t' & E & Ht' & Hp & Hi' & Hf).
  eexists tt, _. split; [unfold timer_del, on_timers; rewrite E; reflexivity|]. apply HQ; [|done| |done].
  - split; try done; cbn. intros y Hy. split; [apply Hi'|by apply Hf].
  - unfold init. cbn. by rewrite Hi'.
Qed.
Lemma assign_any x p s (Q : unit → world T → Prop) :
  timers_ok (timers s) → usable x → (init s x = true → pend s x = false) →
  (∀ s', touches x s s' → refused s' = refused s → init s' x = true → pend s' x = false → Q tt s') →
  rwp (timer_assign x p) s Q.
Proof.
  intros Ht Hu Hi HQ. destruct (assign_law _ p _ Ht Hu Hi) as (t' & E & Ht' & Hi' & Hp & Hf).
  eexists tt, _. split; [unfold timer_assign, on_timers; rewrite E; reflexivity|]. apply HQ; [|done..]. by split.
Qed.

(** The timer of [v] in particular. *)
Lemma timer_add_ok v tv s (Q : Z → world T → Prop) :
  timers_ok (timers s) → init s (refill_bucket_event v) = true → tv_normal tv →
  (∀ r s', still v s s' → r = 0 ∨ r = -1 → init s' (refill_bucket_event v) = true →
     (refused s' = false → pend s' (refill_bucket_event v) = true ∧ r = 0) → Q r s') →
  rwp (timer_add (refill_bucket_event v) tv) s Q.
Proof. intros Ht Hi Htv HQ. apply add_any; [done..|]. intros r s' C. by apply HQ, touches_still. Qed.
Lemma del_ok v s (Q : unit → world T → Prop) :
  timers_ok (timers s) → init s (refill_bucket_event v) = true →
  (∀ s', still v s s' → refused s' = refused s → init s' (refill_bucket_event v) = true →
     pend s' (refill_bucket_event v) = false → Q tt s') →
  rwp (timer_del (refill_bucket_event v)) s Q.
Proof. intros Ht Hi HQ. apply del_any; [done..|]. intros s' C. by apply HQ, touches_still. Qed.
Lemma timer_assign_ok v p s (Q : unit → world T → Prop) :
  timers_ok (timers s) → usable (refill_bucket_event v) → (init s (refill_bucket_event v) = true → pend s (refill_bucket_event v) = false) →
  (∀ s', still v s s' → refused s' = refused s → init s' (refill_bucket_event v) = true →
     pend s' (refill_bucket_event v) = false → Q tt s') →
  rwp (timer_assign (refill_bucket_event v) p) s Q.
Proof. intros Ht Hu Hi HQ. apply assign_any; [done..|]. intros s' C. by apply HQ, touches_still. Qed.

(** *** Suspending and resuming *)

Definition suspend_bev (w : bool) (what : Z) (b : bufferevent_private) : bufferevent_private :=
  on_way w (λ y, Way (Z.lor (suspended y) what) (max_single y) (if suspended y =? 0 then false else going y)) b.
Definition unsuspend_bev (w : bool) (what : Z) (b : bufferevent_private) : bufferevent_private :=
  on_way w (λ y, let n := clear_bits what (suspended y) in
    Way n (max_single y) (if (n =? 0) && has (EV_OF w) (enabled b) then true else going y)) b.

Lemma rwp_suspend w v what b s (Q : unit → world T → Prop) :
  bevs s !! v = Some b → Q tt (set_bev v (suspend_bev w what b) s) → rwp (bufferevent_suspend w v what) s Q.
Proof. intros E HQ. unfold bufferevent_suspend. apply rwp_bind, (rwp_get_bev v b); [done|]. by apply rwp_put_bev. Qed.
Lemma rwp_unsuspend w v what b s (Q : unit → world T → Prop) :
  bevs s !! v = Some b → Q tt (set_bev v (unsuspend_bev w what b) s) → rwp (bufferevent_unsuspend w v what) s Q.
Proof. intros E HQ. unfold bufferevent_unsuspend. apply rwp_bind, (rwp_get_bev v b); [done|]. by apply rwp_put_bev. Qed.

Lemma ways_on_way w f b w' : ways (on_way w f b) w' = if Bool.eqb w w' then f (ways b w) else ways b w'.
Proof. done. Qed.

Lemma has_suspend f w w' what b :
  flag f → has f (suspended (ways (suspend_bev w what b) w')) = has f (suspended (ways b w')) || Bool.eqb w w' && has f what.
Proof.
  intros Hf. unfold suspend_bev. rewrite ways_on_way. destruct (Bool.eqb_spec w w') as [->|]; cbn [suspended].
  - by apply has_add.
  - by rewrite orb_false_r.
Qed.
Lemma has_unsuspend f w w' what b :
  flag f →
  has f (suspended (ways (unsuspend_bev w what b) w')) = has f (suspended (ways b w')) && negb (Bool.eqb w w' && has f what).
Proof.
  intros Hf. unfold unsuspend_bev. rewrite ways_on_way. destruct (Bool.eqb_spec w w') as [->|]; cbn [suspended].
  - by apply has_drop.
  - by rewrite andb_true_r.
Qed.

(** Both kinds of suspension after both kinds of changes. *)
Ltac flags_after := unfold bw, bw_group; rewrite ?has_suspend, ?has_unsuspend by (apply flag_bw || apply flag_bw_group);
  match goal with |- context [Bool.eqb ?w ?w' && ?h] => let h' := eval vm_compute in h in change h with h'; destruct (Bool.eqb w w') end;
  cbn; rewrite ?orb_true_r, ?orb_false_r, ?andb_true_r, ?andb_false_r; done.
Lemma bw_suspend w w' b : bw w' (suspend_bev w BEV_SUSPEND_BW b) = Bool.eqb w w' || bw w' b.
Proof. flags_after. Qed.
Lemma bw_unsuspend w w' b : bw w' (unsuspend_bev w BEV_SUSPEND_BW b) = negb (Bool.eqb w w') && bw w' b.
Proof. flags_after. Qed.
Lemma bw_suspend_group w w' b : bw w' (suspend_bev w BEV_SUSPEND_BW_GROUP b) = bw w' b.
Proof. flags_after. Qed.
Lemma bw_unsuspend_group w w' b : bw w' (unsuspend_bev w BEV_SUSPEND_BW_GROUP b) = bw w' b.
Proof. flags_after. Qed.
Lemma bw_group_suspend_bw w w' b : bw_group w' (suspend_bev w BEV_SUSPEND_BW b) = bw_group w' b.
Proof. flags_after. Qed.
Lemma bw_group_unsuspend_bw w w' b : bw_group w' (unsuspend_bev w BEV_SUSPEND_BW b) = bw_group w' b.
Proof. flags_after. Qed.
Lemma bw_group_suspend w w' b : bw_group w' (suspend_bev w BEV_SUSPEND_BW_GROUP b) = Bool.eqb w w' || bw_group w' b.
Proof. flags_after. Qed.
Lemma bw_group_unsuspend w w' b : bw_group w' (unsuspend_bev w BEV_SUSPEND_BW_GROUP b) = negb (Bool.eqb w w') && bw_group w' b.
Proof. flags_after. Qed.

Lemma going_suspend w what b : what ≠ 0 → going_ok b → going_ok (suspend_bev w what b).
Proof.
  intros Hw Hg w'. change (enabled (suspend_bev w what b)) with (enabled b). unfold suspend_bev. rewrite ways_on_way. destruct (Bool.eqb_spec w w') as [->|]; [|apply Hg].
  cbn [going suspended]. rewrite (proj2 (Z.eqb_neq (Z.lor (suspended (ways b w')) what) 0)), andb_false_r.
  - rewrite Hg. by destruct (suspended (ways b w') =? 0); [|rewrite andb_false_r].
  - intros [_ E]%Z.lor_eq_0_iff. done.
Qed.
Lemma going_unsuspend w what b : going_ok b → going_ok (unsuspend_bev w what b).
Proof.
  intros Hg w'. change (enabled (unsuspend_bev w what b)) with (enabled b). unfold unsuspend_bev. rewrite ways_on_way. destruct (Bool.eqb_spec w w') as [->|]; [|apply Hg].
  cbn [going suspended]. rewrite Hg. destruct (has (EV_OF w') (enabled b)); cbn; [|by rewrite andb_false_r].
  rewrite andb_true_r. destruct (Z.eqb_spec (suspended (ways b w')) 0) as [->|]; [done|].
  by destruct (clear_bits what (suspended (ways b w')) =? 0).
Qed.

Lemma flags_suspend_bw E s w b : flags_ok E s b → flags_ok E s (suspend_bev w BEV_SUSPEND_BW b).
Proof. intros [F1 F2]. split; [by apply going_suspend|]. intros w' H'. rewrite bw_group_suspend_bw in H'. by apply F2. Qed.
Lemma flags_unsuspend_bw E s w b : flags_ok E s b → flags_ok E s (unsuspend_bev w BEV_SUSPEND_BW b).
Proof. intros [F1 F2]. split; [by apply going_unsuspend|]. intros w' H'. rewrite bw_group_unsuspend_bw in H'. by apply F2. Qed.
Lemma flags_unsuspend_group E s w b : flags_ok E s b → flags_ok E s (unsuspend_bev w BEV_SUSPEND_BW_GROUP b).
Proof.
  intros [F1 F2]. split; [by apply going_unsuspend|]. intros w' H'. rewrite bw_group_unsuspend in H'.
  apply andb_true_iff in H' as [_ ?]. by apply F2.
Qed.
Lemma flags_suspend_group E s w g b :
  flags_ok E s b → group_of b = Some g → group_waits E s w g → flags_ok E s (suspend_bev w BEV_SUSPEND_BW_GROUP b).
Proof.
  intros [F1 F2] Hg Hw. split; [by apply going_suspend|]. intros w' H'. rewrite bw_group_suspend in H'.
  apply orb_true_iff in H' as [<-%eqb_prop|?]; [eauto|by apply F2].
Qed.
Lemma flags_limiting E s r b :
  flags_ok E s b → mbind group r = group_of b → flags_ok E s (with_rate_limiting r b).
Proof. intros [F1 F2] Hg. split; [done|]. intros w H'. unfold group_of. cbn [rate_limiting with_rate_limiting]. rewrite Hg. by apply F2. Qed.

Lemma flags_local E v s s' b : flags_ok E s b → local v s s' → flags_ok E s' b.
Proof.
  intros [F1 F2] L. split; [done|]. intros w Hw. destruct (F2 w Hw) as (g & ? & Hgw). exists g. split; [done|].
  unfold group_waits. by rewrite (lc_groups _ _ _ L).
Qed.

(** ** The bucket of a bufferevent *)

(** In the middle of an operation on [v], which has begun in [s0]: the bufferevent is now [b]. *)
Record at_ (E : bool → nat → Prop) (v : nat) s0 s (b : bufferevent_private) : Prop := {
  at_local : local v s0 s;
  at_bev : bevs s !! v = Some b;
  at_flags : flags_ok E s b;
  at_timers : timers_ok (timers s)
}.

Lemma at_start E v s b : world_but E s → bevs s !! v = Some b → at_ E v s s b.
Proof. intros W Hb. destruct (wo_bevs _ _ W v b Hb) as [Hf _]. split; [done|done|done|apply (wo_timers _ _ W)]. Qed.
Lemma at_end E v s0 s b : world_but E s0 → at_ E v s0 s b → bandwidth_ok s v b → world_but E s.
Proof.
  intros W [A1 A2 A3 A4] Hb. apply (local_ok E v s0); [done..|]. intros b' Hb'. simplify_eq. by split.
Qed.
Lemma at_set E v s0 s b b' :
  at_ E v s0 s b → group_of b' = group_of b → flags_ok E s b' → at_ E v s0 (set_bev v b' s) b'.
Proof.
  intros [A1 A2 A3 A4] Hg Hf. pose proof (local_set_bev v b b' s A2 Hg) as L. split; [by etrans| |by eapply flags_local|done].
  apply lookup_insert_eq.
Qed.
Lemma at_still E v s0 s s' b : at_ E v s0 s b → still v s s' → at_ E v s0 s' b.
Proof.
  intros [A1 A2 A3 A4] [L Hb]. split; [by etrans|by rewrite Hb|by eapply flags_local|by apply (lc_timers _ _ _ L)].
Qed.
Lemma at_limiting E v s0 s b r :
  at_ E v s0 s b → mbind group r = group_of b → at_ E v s0 (set_bev v (with_rate_limiting r b) s) (with_rate_limiting r b).
Proof. intros A Hg. apply (at_set _ _ _ _ b); [done|done|]. by apply flags_limiting; [apply A|]. Qed.
Lemma at_suspend E v s0 s b w :
  at_ E v s0 s b → at_ E v s0 (set_bev v (suspend_bev w BEV_SUSPEND_BW b) s) (suspend_bev w BEV_SUSPEND_BW b).
Proof. intros A. apply (at_set _ _ _ _ b); [done|done|]. by apply flags_suspend_bw, A. Qed.
Lemma at_unsuspend E v s0 s b w :
  at_ E v s0 s b → at_ E v s0 (set_bev v (unsuspend_bev w BEV_SUSPEND_BW b) s) (unsuspend_bev w BEV_SUSPEND_BW b).
Proof. intros A. apply (at_set _ _ _ _ b); [done|done|]. by apply flags_unsuspend_bw, A. Qed.

Lemma bandwidth_intro s v b r c k :
  rate_limiting b = Some r → cfg r = Some c → cfgs s !! c = Some k → bucket_ok k (limit r) →
  init s (refill_bucket_event v) = true → (∀ w, LIM w (limit r) <= 0 → bw w b = true) →
  (∀ w, bw w b = true → refused s = false → pend s (refill_bucket_event v) = true) → bandwidth_ok s v b.
Proof.
  intros Hr Hc Hk Hb Hi Hz Hp. split.
  - intros w Hw. split; [|by apply (Hp w)]. unfold cfg_of. rewrite Hr. cbn. eauto.
  - intros r' c' Hr' Hc'. simplify_eq. eauto.
  - done.
  - unfold cfg_of. rewrite Hr. cbn. congruence.
Qed.

Lemma wait_ok E v s0 s b w c k :
  at_ E v s0 s b → cfgs s !! c = Some k → good_cfg k → init s (refill_bucket_event v) = true →
  rwp (wait_for_refill w v c) s (λ r s', at_ E v s0 s' (suspend_bev w BEV_SUSPEND_BW b) ∧ cfgs s' = cfgs s ∧
    init s' (refill_bucket_event v) = true ∧ (refused s' = false → pend s' (refill_bucket_event v) = true ∧ r = 0)).
Proof.
  intros A Hk Hg Hi. unfold wait_for_refill. apply rwp_bind, (rwp_suspend _ _ _ b); [apply A|].
  pose proof (at_suspend _ _ _ _ _ w A) as A1.
  apply rwp_bind, (rwp_get_cfg _ k); [done|]. apply rwp_bind, timer_add_ok; [by eapply at_timers|done|apply Hg|].
  intros r s' St Hr Hi' Hp. apply rwp_ret. split; [by apply (at_still _ _ _ _ _ _ A1)|].
  split; [by rewrite (lc_cfgs _ _ _ (proj1 St))|]. split; [done|]. intros Href. destruct (Hp Href) as [? ->]. done.
Qed.

Lemma resume_ok E v s0 s b w :
  at_ E v s0 s b → init s (refill_bucket_event v) = true →
  rwp (resume w v) s (λ _ s', at_ E v s0 s' (unsuspend_bev w BEV_SUSPEND_BW b) ∧ cfgs s' = cfgs s ∧
    init s' (refill_bucket_event v) = true ∧ refused s' = refused s ∧
    (bw (negb w) b = true → pend s' (refill_bucket_event v) = pend s (refill_bucket_event v))).
Proof.
  intros A Hi. unfold resume. apply rwp_bind, (rwp_get_bev _ b); [apply A|]. fold (bw (negb w) b).
  apply rwp_bind, rwp_whenever; intros Hw; [apply negb_true_iff in Hw|apply negb_false_iff in Hw].
  - apply del_ok; [by eapply at_timers|done|]. intros s' St Href Hi' Hp.
    pose proof (at_still _ _ _ _ _ _ A St) as A1.
    apply (rwp_unsuspend _ _ _ b); [apply A1|]. split; [by apply at_unsuspend|].
    split; [apply (lc_cfgs _ _ _ (proj1 St))|]. split; [done|]. split; [done|]. congruence.
  - apply (rwp_unsuspend _ _ _ b); [apply A|]. split; [by apply at_unsuspend|]. done.
Qed.

(** A decrement that keeps to the bounds of the bucket. *)
Definition may_decrement (w : bool) (k : ev_token_bucket_cfg) (l : ev_token_bucket) (n : Z) : Prop :=
  EV_SSIZE_MIN <= LIM w l - n <= maximum w k.

Lemma decrement_ok k w n l :
  cfg_ok k → bucket_ok k l → may_decrement w k l n →
  decrement w n l = Some (set_LIM w (LIM w l - n) l) ∧ bucket_ok k (set_LIM w (LIM w l - n) l).
Proof.
  intros Hk Hb Hm. unfold may_decrement in Hm. pose proof (co_max _ Hk w). unfold EV_RATE_LIMIT_MAX in *. split.
  - unfold decrement. by rewrite ssize_chk_Some by lia.
  - split; [|by destruct w, Hb]. intros w'. rewrite LIM_set. case_bool_decide; [by subst|apply (bk_limit _ _ Hb)].
Qed.

(** The limit has been changed: the bufferevent is suspended now, it goes on now, or neither is due. *)
Lemma settle_ok E v s0 s b r c k w (limits : ev_token_bucket) (wait go : bool) :
  at_ E v s0 s b → bandwidth_ok s v b → rate_limiting b = Some r → cfg r = Some c →
  cfgs s !! c = Some k → good_cfg k → bucket_ok k limits → (∀ w', w' ≠ w → LIM w' limits = LIM w' (limit r)) →
  (wait = true → LIM w limits <= 0) → (wait = false → go = true → 0 < LIM w limits) →
  (wait = false → go = false → LIM w limits <= 0 → bw w b = true) →
  rwp (put_bev v (with_rate_limiting (Some (with_limit limits r)) b);;
       if wait then wait_for_refill w v c else whenever go (resume w v);; mret 0) s
    (λ x s', ∃ b', at_ E v s0 s' b' ∧ bandwidth_ok s' v b' ∧ (refused s' = false → x = 0) ∧
       rate_limiting b' = Some (with_limit limits r) ∧
       ∀ w', bw w' b' = if Bool.eqb w w' then if wait then true else if go then false else bw w b else bw w' b).
Proof.
  intros A B Hr Hc Hk Hg Hl Hsame Hwait Hgo Hneither.
  assert (Hi : init s (refill_bucket_event v) = true) by (apply (bw_init _ _ _ B); eauto).
  destruct (bw_bucket _ _ _ B r c Hr Hc) as (k' & Hk' & _ & Hz). simplify_eq.
  pose proof (at_limiting _ _ _ _ _ (Some (with_limit limits r)) A ltac:(unfold group_of; by rewrite Hr)) as A1.
  apply rwp_bind, rwp_put_bev. destruct wait; [|apply rwp_bind, rwp_whenever; [intros ->|intros ->]].
  - eapply rwp_mono; [by apply (wait_ok _ _ _ _ _ _ _ k A1)|]. intros x s' (A2 & Hcf & Hi' & Hp).
    eexists. split; [exact A2|]. split; [|split; [by intros; apply Hp|split; [done|]]].
    + apply (bandwidth_intro _ _ _ (with_limit limits r) c k); try done; [by rewrite Hcf| |intros ? _ ?; by apply Hp].
      intros w' Hw'. rewrite bw_suspend. destruct (Bool.eqb_spec w w') as [|Hne]; [done|]. cbn [with_limit limit] in Hw'.
      apply (Hz w'). by rewrite <- Hsame by congruence.
    + intros w'. rewrite bw_suspend. by destruct (Bool.eqb_spec w w').
  - eapply rwp_mono; [by apply (resume_ok _ _ _ _ _ _ A1)|]. intros [] s' (A2 & Hcf & Hi' & Href & Hp).
    apply rwp_ret. eexists. split; [exact A2|]. split; [|split; [done|split; [done|]]].
    + apply (bandwidth_intro _ _ _ (with_limit limits r) c k); try done; [by rewrite Hcf| |].
      * intros w' Hw'. rewrite bw_unsuspend. cbn [with_limit limit] in Hw'.
        destruct (Bool.eqb_spec w w') as [<-|Hne]; [specialize (Hgo eq_refl eq_refl); lia|]. apply (Hz w'). by rewrite <- Hsame by congruence.
      * intros w' Hw' Hr'. rewrite bw_unsuspend in Hw'. apply andb_true_iff in Hw' as [Hne Hw'].
        assert (w' = negb w) as -> by (by destruct w, w'). rewrite Hp by done. apply (bw_timer _ _ _ B (negb w) Hw'). cbn in Href. congruence.
    + intros w'. rewrite bw_unsuspend. by destruct (Bool.eqb_spec w w').
  - apply rwp_ret. eexists. split; [exact A1|]. split; [|split; [done|split; [done|]]].
    + apply (bandwidth_intro _ _ _ (with_limit limits r) c k); try done.
      * intros w' Hw'. cbn [with_limit limit] in Hw'. change (bw w' b = true).
        destruct (Bool.eqb_spec w w') as [<-|Hne]; [by apply Hneither|]. apply (Hz w'). by rewrite <- Hsame by congruence.
      * intros w' Hw'. apply (bw_timer _ _ _ B w' Hw').
    + intros w'. by destruct (Bool.eqb_spec w w') as [->|].
Qed.

Lemma decrement_own_ok E v s0 s b r w bytes :
  at_ E v s0 s b → bandwidth_ok s v b → rate_limiting b = Some r → (∀ c k, cfgs s !! c = Some k → good_cfg k) →
  (∀ c k, cfg r = Some c → cfgs s !! c = Some k → may_decrement w k (limit r) bytes) →
  rwp (decrement_own w v r bytes) s (λ x s', ∃ b' r', at_ E v s0 s' b' ∧ bandwidth_ok s' v b' ∧
    (refused s' = false → x = 0) ∧ rate_limiting b' = Some r' ∧ group r' = group r ∧ cfg r' = cfg r ∧
    (is_Some (cfg r) → LIM w (limit r') = LIM w (limit r) - bytes ∧ bw w b' = bool_decide (LIM w (limit r') <= 0)) ∧
    (cfg r = None → b' = b)).
Proof.
  intros A B Hr Hcfg Hmay. unfold decrement_own. destruct (cfg r) as [c|] eqn:Hc.
  2:{ apply rwp_ret. exists b, r. do 6 (split; [done|]). split; [|done]. by intros []. }
  destruct (bw_bucket _ _ _ B r c Hr Hc) as (k & Hk & Hl & _). pose proof (Hcfg c k Hk) as Hg.
  destruct (decrement_ok k w bytes (limit r) (gc_ok _ Hg) Hl (Hmay c k eq_refl Hk)) as [Hd Hl'].
  set (l := set_LIM w (LIM w (limit r) - bytes) (limit r)) in *.
  apply rwp_bind, (rwp_the _ l); [done|]. apply rwp_bind, (rwp_get_bev _ b); [apply A|]. fold (bw w b).
  assert (Hlw : LIM w l = LIM w (limit r) - bytes) by (unfold l; rewrite LIM_set; by case_bool_decide).
  eapply rwp_mono; [apply (settle_ok E v s0 s b r c k w l (LIM w l <=? 0) (bw w b)); try done|].
  - intros w' Hne. unfold l. rewrite LIM_set. by case_bool_decide.
  - apply Z.leb_le.
  - intros Hle%Z.leb_gt _. done.
  - intros Hle%Z.leb_gt. lia.
  - intros x s' (b' & A' & B' & Hx & Hr' & Hbw). exists b', (with_limit l r).
    repeat (split; [done|]). split; [|done]. intros _. split; [done|].
    rewrite Hbw, eqb_reflx. case_bool_decide as Hle; cbn [with_limit limit] in Hle.
    + by rewrite (proj2 (Z.leb_le _ _)).
    + rewrite (proj2 (Z.leb_gt _ _)) by lia. by destruct (bw w b).
Qed.

(** The rest of an operation on [v] that has left the bufferevent in order. *)
Definition done_at (E : bool → nat → Prop) v s0 s : Prop := ∃ b, at_ E v s0 s b ∧ bandwidth_ok s v b.

Lemma decrement_limit_ok E v s b r c k w n :
  world_but E s → bevs s !! v = Some b → rate_limiting b = Some r → cfg r = Some c → cfgs s !! c = Some k →
  may_decrement w k (limit r) n →
  rwp (bufferevent_decrement_limit w v n) s (λ _ s', done_at E v s s').
Proof.
  intros W Hb Hr Hc Hk Hmay. pose proof (wo_cfgs _ _ W c k Hk) as Hg.
  destruct (wo_bevs _ _ W v b Hb) as [_ B]. destruct (bw_bucket _ _ _ B r c Hr Hc) as (k' & Hk' & Hl & Hz). simplify_eq.
  destruct (decrement_ok k w n (limit r) (gc_ok _ Hg) Hl Hmay) as [Hd Hl'].
  unfold bufferevent_decrement_limit. apply rwp_bind, (rwp_get_bev _ b); [done|].
  apply rwp_bind, (rwp_the _ r); [done|]. apply rwp_bind, (rwp_the _ c); [done|]. apply rwp_bind, (rwp_the _ _ _ _ Hd).
  set (l := set_LIM w (LIM w (limit r) - n) (limit r)) in *.
  eapply rwp_mono; [apply (settle_ok E v s s b r c k w l ((0 <? LIM w (limit r)) && (LIM w l <=? 0))
    ((LIM w (limit r) <=? 0) && (0 <? LIM w l))); try done|].
  - by apply at_start.
  - intros w' Hne. unfold l. rewrite LIM_set. by case_bool_decide.
  - intros [_ ?%Z.leb_le]%andb_true_iff. done.
  - intros _ [_ ?%Z.ltb_lt]%andb_true_iff. done.
  - intros Hw _ Hle. apply Hz. rewrite (proj2 (Z.leb_le (LIM w l) 0)), andb_true_r in Hw by done. by apply Z.ltb_ge.
  - intros x s' (b' & A' & B' & _). by exists b'.
Qed.

(** The clock has been read and the bucket is filled up. *)
Lemma refilled_ok E v s0 s b r c k tick :
  at_ E v s0 s b → bandwidth_ok s v b → rate_limiting b = Some r → cfg r = Some c → cfgs s !! c = Some k → good_cfg k →
  0 <= tick < 2 ^ 32 →
  let r' := with_limit (ev_token_bucket_update_ (limit r) k tick).2 r in
  let b' := with_rate_limiting (Some r') b in
  at_ E v s0 (set_bev v b' s) b' ∧ bandwidth_ok (set_bev v b' s) v b'.
Proof.
  intros A B Hr Hc Hk Hg Ht r' b'. destruct (bw_bucket _ _ _ B r c Hr Hc) as (k' & Hk' & Hl & Hz). simplify_eq.
  destruct (update_grows k (limit r) tick (gc_ok _ Hg) Hl Ht) as [Hl' Hgrow]. split.
  - apply at_limiting; [done|]. unfold group_of. by rewrite Hr.
  - apply (bandwidth_intro _ _ _ r' c k); try done.
    + apply (bw_init _ _ _ B). eauto.
    + intros w Hw. apply (Hz w). specialize (Hgrow w). cbn [r' with_limit limit] in Hw. lia.
    + intros w Hw. apply (bw_timer _ _ _ B w Hw).
Qed.

Lemma bandwidth_still s s' v b :
  bandwidth_ok s v b → still v s s' → refused s' = refused s →
  init s' (refill_bucket_event v) = init s (refill_bucket_event v) →
  pend s' (refill_bucket_event v) = pend s (refill_bucket_event v) → bandwidth_ok s' v b.
Proof.
  intros [B1 B2 B3 B4] [L _] Hr Hi Hp. split; rewrite ?(lc_cfgs _ _ _ L), ?Hr, ?Hi, ?Hp; auto.
Qed.

Lemma update_buckets_ok E v s b r c :
  world_but E s → bevs s !! v = Some b → rate_limiting b = Some r → cfg r = Some c →
  rwp (bufferevent_update_buckets v) s (λ _ s', ∃ b' r', at_ E v s s' b' ∧ bandwidth_ok s' v b' ∧
    rate_limiting b' = Some r' ∧ group r' = group r ∧ cfg r' = cfg r ∧ ways b' = ways b).
Proof.
  intros W Hb Hr Hc. destruct (wo_bevs _ _ W v b Hb) as [_ B].
  destruct (bw_bucket _ _ _ B r c Hr Hc) as (k & Hk & _). pose proof (wo_cfgs _ _ W c k Hk) as Hg.
  unfold bufferevent_update_buckets. apply rwp_bind, (now_ok v); [apply (wo_timers _ _ W)|].
  intros tv s1 St Href Hi Hp. pose proof (at_still _ _ _ _ _ _ (at_start E v s b W Hb) St) as A.
  pose proof (bandwidth_still _ _ _ _ B St Href Hi Hp) as B1.
  apply rwp_bind, (rwp_get_bev _ b); [apply A|]. apply rwp_bind, (rwp_the _ r); [done|]. apply rwp_bind, (rwp_the _ c); [done|].
  assert (Hk1 : cfgs s1 !! c = Some k) by (by rewrite (lc_cfgs _ _ _ (proj1 St))).
  apply rwp_bind, (rwp_get_cfg _ k); [done|].
  destruct (get_tick_some tv k (gc_msec _ Hg)) as (tick & Etick & Ht). apply rwp_bind, (rwp_the _ tick); [done|].
  apply rwp_whenever; intros _; [apply rwp_put_bev|].
  - destruct (refilled_ok E v s s1 b r c k tick A B1 Hr Hc Hk1 Hg Ht) as [A' B']. by eexists _, _.
  - by exists b, r.
Qed.

Lemma get_limit_ok E v s b w :
  world_but E s → bevs s !! v = Some b → rwp (bufferevent_get_limit w v) s (λ _ s', done_at E v s s').
Proof.
  intros W Hb. unfold bufferevent_get_limit. apply rwp_bind, (rwp_get_bev _ b); [done|].
  destruct (rate_limiting b) as [r|] eqn:Hr; [destruct (cfg r) as [c|] eqn:Hc|]; cbn [mbind option_bind]; rewrite ?Hc.
  - apply rwp_bind. eapply rwp_mono; [by apply (update_buckets_ok E v s b r c)|].
    intros [] s' (b' & r' & A & B & Hr' & _). apply rwp_bind, (rwp_get_bev _ b'); [apply A|].
    apply rwp_bind, (rwp_the _ r'); [done|]. apply rwp_ret. by exists b'.
  - apply rwp_ret. exists b. split; [by apply at_start|]. by apply (wo_bevs _ _ W).
  - apply rwp_ret. exists b. split; [by apply at_start|]. by apply (wo_bevs _ _ W).
Qed.

(** *** How much may be read or written *)

Lemma group_of_member E s v b g :
  world_but E s → bevs s !! v = Some b → group_of b = Some g → ∃ G, groups s !! g = Some G ∧ v ∈ members G ∧ group_ok s g G.
Proof.
  intros W Hb Hg. destruct (proj1 (wo_members _ _ W v g)) as (G & HG & Hv); [eauto|]. exists G. split; [done|].
  split; [done|]. by apply (wo_groups _ _ W).
Qed.

Lemma at_suspend_group E v s0 s b w g :
  at_ E v s0 s b → group_of b = Some g → group_waits E s w g →
  at_ E v s0 (set_bev v (suspend_bev w BEV_SUSPEND_BW_GROUP b) s) (suspend_bev w BEV_SUSPEND_BW_GROUP b).
Proof. intros A Hg Hw. apply (at_set _ _ _ _ b); [done|done|]. eapply flags_suspend_group; [apply A|done|done]. Qed.
Lemma at_unsuspend_group E v s0 s b w :
  at_ E v s0 s b →
  at_ E v s0 (set_bev v (unsuspend_bev w BEV_SUSPEND_BW_GROUP b) s) (unsuspend_bev w BEV_SUSPEND_BW_GROUP b).
Proof. intros A. apply (at_set _ _ _ _ b); [done|done|]. by apply flags_unsuspend_group, A. Qed.

(** The bucket and its timer do not care about the group's suspension. *)
Lemma bandwidth_same s v b b' :
  bandwidth_ok s v b → rate_limiting b' = rate_limiting b → (∀ w, bw w b' = bw w b) → bandwidth_ok (set_bev v b' s) v b'.
Proof.
  intros [B1 B2 B3 B4] Hr Hbw. assert (Hc : cfg_of b' = cfg_of b) by (unfold cfg_of; by rewrite Hr).
  split; rewrite ?Hc, ?Hr; [|intros r c Hr' Hc'|done|done].
  - intros w. rewrite Hbw. apply B1.
  - destruct (B2 r c Hr' Hc') as (k & ? & ? & Hz). exists k. split; [done|]. split; [done|]. intros w. rewrite Hbw. apply Hz.
Qed.

Lemma group_share_ok E v s0 s b w g :
  world_but E s → at_ E v s0 s b → bandwidth_ok s v b → group_of b = Some g →
  rwp (group_share w v g) s (λ n s', ∃ b', at_ E v s0 s' b' ∧ bandwidth_ok s' v b' ∧ rate_limiting b' = rate_limiting b ∧
    (1 <= n ∨ n = 0 ∧ bw_group w b' = true)).
Proof.
  intros W A B Hg. destruct (group_of_member E s v b g W (at_bev _ _ _ _ _ A) Hg) as (G & HG & Hv & Gok).
  unfold group_share. apply rwp_bind, (rwp_get_group _ G); [done|].
  destruct (group_suspended (group_ways G w)) eqn:Hs.
  - apply rwp_bind, (rwp_suspend _ _ _ b); [apply A|]. apply rwp_ret. eexists.
    split; [apply (at_suspend_group _ _ _ _ _ _ g); [done|done|right; eauto]|]. split; [|split; [done|right; split; [done|]]].
    + apply (bandwidth_same s v b); [done|done|]. intros w'. apply bw_suspend_group.
    + by rewrite bw_group_suspend, eqb_reflx.
  - apply rwp_bind, rwp_assert.
    { apply negb_true_iff, Z.eqb_neq. rewrite (go_n _ _ _ Gok). destruct (members G); [by apply elem_of_nil in Hv|rewrite length_cons; lia]. }
    apply rwp_ret. exists b. repeat (split; [done|]). left. pose proof (go_share _ _ _ Gok w).
    destruct (Z.ltb_spec (Z.quot (LIM w (rate_limit G)) (n_members G)) (min_share G)); lia.
Qed.

Lemma unsuspended_bw w b : suspended (ways b w) = 0 → bw w b = false ∧ bw_group w b = false.
Proof. intros E. unfold bw, bw_group. by rewrite E. Qed.

Lemma clamp_min (a b : Z) : (if a <? b then a else b) = Z.min a b.
Proof. destruct (Z.ltb_spec a b); lia. Qed.
Lemma clamp_max (a : Z) : (if a <? 0 then 0 else a) = Z.max 0 a.
Proof. destruct (Z.ltb_spec a 0); lia. Qed.

Lemma get_rlim_max_ok E v s b w :
  world_but E s → bevs s !! v = Some b →
  rwp (bufferevent_get_rlim_max_ v w) s (λ n s', ∃ b', at_ E v s s' b' ∧ bandwidth_ok s' v b' ∧
    (1 <= max_single (ways b w) → 0 <= n) ∧ 
    (∀ r, rate_limiting b' = Some r → is_Some (cfg r) → n <= Z.max 0 (LIM w (limit r))) ∧
    (1 <= max_single (ways b w) → suspended (ways b w) = 0 → 1 <= n ∨ n = 0 ∧ bw_group w b' = true)).
Proof.
  intros W Hb. destruct (wo_bevs _ _ W v b Hb) as [_ B]. unfold bufferevent_get_rlim_max_.
  apply rwp_bind, (rwp_get_bev _ b); [done|]. destruct (rate_limiting b) as [r|] eqn:Hr.
  2:{ apply rwp_ret. exists b. split; [by apply at_start|]. split; [done|]. split; [lia|]. split; [congruence|auto]. }
  apply rwp_bind.
  assert (Hown : rwp (match cfg r with
      | Some _ => bufferevent_update_buckets v;; b ← get_bev v; r ← the (rate_limiting b); mret (LIM w (limit r))
      | None => mret (max_single (ways b w)) end) s (λ n s1, ∃ b1 r1, at_ E v s s1 b1 ∧ bandwidth_ok s1 v b1 ∧
      rate_limiting b1 = Some r1 ∧ group r1 = group r ∧ cfg r1 = cfg r ∧
      (is_Some (cfg r) → n = LIM w (limit r1)) ∧
      (1 <= max_single (ways b w) → suspended (ways b w) = 0 → 1 <= n))).
  { destruct (cfg r) as [c|] eqn:Hc.
    - apply rwp_bind. eapply rwp_mono; [by apply (update_buckets_ok E v s b r c)|].
      intros [] s1 (b1 & r1 & A1 & B1 & Hr1 & Hg1 & Hc1 & Hw1). apply rwp_bind, (rwp_get_bev _ b1); [apply A1|].
      apply rwp_bind, (rwp_the _ r1); [done|]. apply rwp_ret. exists b1, r1. rewrite Hc in Hc1.
      do 5 (split; [done|]). split; [done|]. intros _ [Hbw _]%unsuspended_bw.
      destruct (bw_bucket _ _ _ B1 r1 c Hr1 Hc1) as (k & _ & _ & Hz). specialize (Hz w). unfold bw in *. rewrite Hw1 in Hz.
      destruct (Z_le_gt_dec (LIM w (limit r1)) 0) as [Hle|]; [|lia]. rewrite Hz in Hbw by done. done.
    - apply rwp_ret. exists b, r. split; [by apply at_start|]. do 4 (split; [done|]). split; [by intros []|]. lia. }
  eapply rwp_mono; [exact Hown|]. intros n s1 (b1 & r1 & A1 & B1 & Hr1 & Hg1 & Hc1 & Hn & Hpos). clear Hown.
  assert (W1 : world_but E s1) by (by eapply at_end).
  destruct (group r) as [g|] eqn:Hgr.
  - apply rwp_bind, rwp_bind. eapply rwp_mono; [apply (group_share_ok E v s s1 b1 w g); try done|].
    { unfold group_of. by rewrite Hr1. }
    intros share s2 (b2 & A2 & B2 & Hr2 & Hshare). apply rwp_ret, rwp_ret. exists b2. split; [done|]. split; [done|].
    rewrite Hr2, Hr1, clamp_max, clamp_min. split; [lia|split].
    + intros r' [= <-] Hc'. rewrite Hc1 in Hc'. rewrite (Hn Hc'). lia.
    + intros Hm Hs. specialize (Hpos Hm Hs). destruct Hshare as [Hge|[-> ?]]; [left; lia|right]. split; [lia|done].
  - apply rwp_bind, rwp_ret, rwp_ret. exists b1. split; [done|]. split; [done|]. rewrite clamp_max, Hr1. split; [lia|split].
    + intros r' [= <-] Hc'. rewrite Hc1 in Hc'. rewrite (Hn Hc'). lia.
    + intros Hm Hs. left. specialize (Hpos Hm Hs). lia.
Qed.

(** *** Refilling *)

(** Neither timers nor configurations nor what is limited have changed. *)
Definition same_limits s s' (b b' : bufferevent_private) : Prop :=
  timers s' = timers s ∧ cfgs s' = cfgs s ∧ refused s' = refused s ∧ rate_limiting b' = rate_limiting b.

Lemma same_limits_trans s1 s2 s3 b1 b2 b3 : same_limits s1 s2 b1 b2 → same_limits s2 s3 b2 b3 → same_limits s1 s3 b1 b3.
Proof. intros (? & ? & ? & ?) (? & ? & ? & ?). repeat split; congruence. Qed.

Lemma refill_way_ok E v s0 s b r w :
  at_ E v s0 s b → rate_limiting b = Some r →
  rwp (refill_way w v) s (λ again s', ∃ b', at_ E v s0 s' b' ∧ same_limits s s' b b' ∧
    again = bw w b && (LIM w (limit r) <=? 0) ∧ ∀ w', bw w' b' = if Bool.eqb w w' then again else bw w' b).
Proof.
  intros A Hr. unfold refill_way. apply rwp_bind, (rwp_get_bev _ b); [apply A|]. apply rwp_bind, (rwp_the _ r); [done|].
  fold (bw w b). destruct (bw w b) eqn:Hbw; [destruct (Z.ltb_spec 0 (LIM w (limit r)))|].
  - apply rwp_bind, (rwp_unsuspend _ _ _ b); [apply A|]. apply rwp_ret. eexists. split; [by apply at_unsuspend|].
    split; [done|]. rewrite (proj2 (Z.leb_gt _ _)) by lia. split; [done|]. intros w'. rewrite bw_unsuspend.
    by destruct (Bool.eqb w w').
  - apply rwp_ret. exists b. split; [done|]. split; [done|]. rewrite (proj2 (Z.leb_le _ _)) by lia. split; [done|]. intros w'.
    by destruct (Bool.eqb_spec w w') as [<-|].
  - apply rwp_ret. exists b. split; [done|]. split; [done|]. split; [done|]. intros w'. by destruct (Bool.eqb_spec w w') as [<-|].
Qed.

(** The timer of the bufferevent expires, then its callback is called. *)
Definition refill_expires (v : nat) : RM T unit := timer_del (refill_bucket_event v);; bev_refill_callback_ v.

Lemma refill_expires_ok E v s b r c k :
  world_but E s → bevs s !! v = Some b → rate_limiting b = Some r → cfg r = Some c → cfgs s !! c = Some k →
  rwp (refill_expires v) s (λ _ s', ∃ tick b', let l := (ev_token_bucket_update_ (limit r) k tick).2 in
    at_ E v s s' b' ∧ bandwidth_ok s' v b' ∧ 0 <= tick < 2 ^ 32 ∧ rate_limiting b' = Some (with_limit l r) ∧
    ∀ w, bw w b' = bw w b && (LIM w l <=? 0)).
Proof.
  intros W Hb Hr Hc Hk. destruct (wo_bevs _ _ W v b Hb) as [_ B]. pose proof (wo_cfgs _ _ W c k Hk) as Hg.
  destruct (bw_bucket _ _ _ B r c Hr Hc) as (k' & Hk' & Hl & Hz). simplify_eq.
  unfold refill_expires. apply rwp_bind, del_ok; [apply (wo_timers _ _ W)|apply (bw_init _ _ _ B); eauto|].
  intros s1 St1 Href1 Hi1 _. pose proof (at_still _ _ _ _ _ _ (at_start E v s b W Hb) St1) as A1.
  unfold bev_refill_callback_. apply rwp_bind, (rwp_get_bev _ b); [apply A1|]. rewrite Hr, Hc.
  apply rwp_bind, (now_ok v); [by eapply at_timers|]. intros tv s2 St2 Href2 Hi2 _. pose proof (at_still _ _ _ _ _ _ A1 St2) as A2.
  assert (Hk2 : cfgs s2 !! c = Some k) by (by rewrite (lc_cfgs _ _ _ (proj1 St2)), (lc_cfgs _ _ _ (proj1 St1))).
  apply rwp_bind, (rwp_get_cfg _ k); [done|].
  destruct (get_tick_some tv k (gc_msec _ Hg)) as (tick & Etick & Ht). apply rwp_bind, (rwp_the _ tick); [done|].
  destruct (update_grows k (limit r) tick (gc_ok _ Hg) Hl Ht) as [Hl' Hgrow].
  set (l := (ev_token_bucket_update_ (limit r) k tick).2) in *. set (b0 := with_rate_limiting (Some (with_limit l r)) b).
  apply rwp_bind, rwp_put_bev. pose proof (at_limiting _ _ _ _ _ (Some (with_limit l r)) A2 ltac:(unfold group_of; by rewrite Hr)) as A3.
  apply rwp_bind. eapply rwp_mono; [apply (refill_way_ok _ _ _ _ _ (with_limit l r) false A3); done|]. intros a1 s4 (b4 & A4 & Sm4 & Ha1 & Hb4).
  apply rwp_bind. eapply rwp_mono; [apply (refill_way_ok _ _ _ _ _ (with_limit l r) true A4); by destruct Sm4 as (_ & _ & _ & ->)|].
  intros a2 s5 (b5 & A5 & Sm5 & Ha2 & Hb5). destruct (same_limits_trans _ _ _ _ _ _ Sm4 Sm5) as (Et & Ec & Er & El).
  assert (Hbw : ∀ w, bw w b5 = bw w b && (LIM w l <=? 0)).
  { intros w. rewrite Hb5. cbn [with_limit limit] in *. change (bw false b0) with (bw false b) in Ha1.
    destruct w; cbn [Bool.eqb]; [rewrite Ha2|]; rewrite Hb4; cbn [Bool.eqb]; [done|]. by rewrite Ha1. }
  assert (Hz' : ∀ w, LIM w l <= 0 → bw w b5 = true).
  { intros w Hw. rewrite Hbw, (proj2 (Z.leb_le _ _)) by done. rewrite Hz; [done|]. specialize (Hgrow w). lia. }
  assert (Ha : ∀ w, bw w b5 = true → a1 || a2 = true).
  { intros [] Hw; rewrite Hb5 in Hw; cbn [Bool.eqb] in Hw; [by rewrite Hw, orb_true_r|]. rewrite Hb4 in Hw. cbn [Bool.eqb] in Hw. by rewrite Hw. }
  assert (Hi5 : init s5 (refill_bucket_event v) = true).
  { unfold init. rewrite Et. change (init s2 (refill_bucket_event v) = true). by rewrite Hi2. }
  apply rwp_whenever; intros Hagain.
  - apply rwp_bind, timer_add_ok; [by eapply at_timers|done|apply Hg|].
    intros x s6 St6 _ Hi6 Hp6. apply rwp_ret. exists tick, b5. split; [by eapply at_still|].
    split; [|split; [done|split; [done|exact Hbw]]].
    apply (bandwidth_intro _ _ _ (with_limit l r) c k); try done.
    + by rewrite (lc_cfgs _ _ _ (proj1 St6)), Ec.
    + intros w _ Href. by apply Hp6.
  - exists tick, b5. split; [done|]. split; [|split; [done|split; [done|exact Hbw]]].
    apply (bandwidth_intro _ _ _ (with_limit l r) c k); try done; [by rewrite Ec|].
    intros w Hw. rewrite (Ha w Hw) in Hagain. done.
Qed.

(** *** Configuring a bufferevent *)

Lemma start_way_ok E v s0 s b l w :
  at_ E v s0 s b →
  rwp (start_way w v l) s (λ a s', ∃ b', at_ E v s0 s' b' ∧ same_limits s s' b b' ∧
    a = (LIM w l <=? 0) ∧ ∀ w', bw w' b' = if Bool.eqb w w' then a else bw w' b).
Proof.
  intros A. unfold start_way. destruct (Z.ltb_spec 0 (LIM w l)).
  - apply rwp_bind, (rwp_unsuspend _ _ _ b); [apply A|]. apply rwp_ret. eexists. split; [by apply at_unsuspend|].
    split; [done|]. rewrite (proj2 (Z.leb_gt _ _)) by lia. split; [done|]. intros w'. rewrite bw_unsuspend.
    by destruct (Bool.eqb w w').
  - apply rwp_bind, (rwp_suspend _ _ _ b); [apply A|]. apply rwp_ret. eexists. split; [by apply at_suspend|].
    split; [done|]. rewrite (proj2 (Z.leb_le _ _)) by lia. split; [done|]. intros w'. rewrite bw_suspend.
    by destruct (Bool.eqb w w').
Qed.

Lemma read_init s x (Q : bool → world T → Prop) :
  (∀ s', timers s' = timers s → bevs s' = bevs s → groups s' = groups s → cfgs s' = cfgs s → allocs s' = allocs s →
    refused s' = refused s → Q (init s x) s') →
  rwp (on_timers (λ t, Some (event_initialized t x, t))) s Q.
Proof. intros HQ. eexists _, _. split; [reflexivity|]. by apply HQ. Qed.

Lemma still_same v s s' :
  timers s' = timers s → bevs s' = bevs s → groups s' = groups s → cfgs s' = cfgs s → allocs s' = allocs s →
  refused s' = refused s → still v s s'.
Proof.
  intros Et Eb Eg Ec Ea Er. split; [|done].
  split; unfold init, pend; rewrite ?Et, ?Eb, ?Eg, ?Ec, ?Ea, ?Er; auto.
Qed.

Lemma start_rate_limit_ok E v s0 s b c k tick r :
  at_ E v s0 s b → rate_limiting b = Some r → cfgs s !! c = Some k → good_cfg k → 0 <= tick < 2 ^ 32 →
  usable (refill_bucket_event v) → (is_Some (cfg r) → init s (refill_bucket_event v) = true ∧ ∃ k', bucket_ok k' (limit r)) →
  (cfg r = None → init s (refill_bucket_event v) = true → pend s (refill_bucket_event v) = false) →
  rwp (start_rate_limit v c k tick r) s (λ _ s', ∃ b' r', at_ E v s0 s' b' ∧ bandwidth_ok s' v b' ∧
    rate_limiting b' = Some r' ∧ cfg r' = Some c).
Proof.
  intros A Hr Hk Hg Ht Hu Hre Hidle. unfold start_rate_limit.
  set (reinit := bool_decide (is_Some (cfg r))). set (l := ev_token_bucket_init_ (limit r) k tick reinit).
  assert (Hl : bucket_ok k l).
  { apply init_ok; [apply Hg|done|]. intros Hr'%bool_decide_eq_true. by apply Hre. }
  set (r1 := with_limit l (with_cfg (Some c) r)).
  apply rwp_bind, (rwp_get_bev _ b); [apply A|]. apply rwp_bind, rwp_put_bev.
  pose proof (at_limiting _ _ _ _ _ (Some r1) A ltac:(unfold group_of; by rewrite Hr)) as A1.
  assert (Hdel : rwp (whenever reinit (initialized ← on_timers (λ t, Some (event_initialized t (refill_bucket_event v), t));
      rassert initialized;; timer_del (refill_bucket_event v))) (set_bev v (with_rate_limiting (Some r1) b) s)
    (λ _ s2, at_ E v s0 s2 (with_rate_limiting (Some r1) b) ∧ cfgs s2 = cfgs s ∧
      (init s2 (refill_bucket_event v) = true → pend s2 (refill_bucket_event v) = false))).
  { apply rwp_whenever; intros Hr'; unfold reinit in Hr'; [apply bool_decide_eq_true in Hr'|apply bool_decide_eq_false in Hr'].
    - destruct (Hre Hr') as [Hi _]. apply rwp_bind, read_init. intros s2 Et Eb Eg Ec Ea Er.
      pose proof (at_still _ _ _ _ _ _ A1 (still_same v _ _ Et Eb Eg Ec Ea Er)) as A2.
      apply rwp_bind, rwp_assert; [done|]. apply del_ok; [by eapply at_timers|unfold init; by rewrite Et|].
      intros s3 St3 _ _ Hp. split; [by eapply at_still|]. split; [|done]. by rewrite (lc_cfgs _ _ _ (proj1 St3)), Ec.
    - split; [done|]. split; [done|]. apply Hidle. by apply eq_None_not_Some. }
  apply rwp_bind. eapply rwp_mono; [exact Hdel|]. intros [] s2 (A2 & Ec2 & Hi2). clear Hdel.
  apply rwp_bind, timer_assign_ok; [by eapply at_timers|done|done|]. intros s3 St3 Hr3 Hi3 Hp3. pose proof (at_still _ _ _ _ _ _ A2 St3) as A3.
  apply rwp_bind. eapply rwp_mono; [by apply (start_way_ok _ _ _ _ _ l false A3)|]. intros a1 s4 (b4 & A4 & Sm4 & Ha1 & Hb4).
  apply rwp_bind. eapply rwp_mono; [by apply (start_way_ok _ _ _ _ _ l true A4)|]. intros a2 s5 (b5 & A5 & Sm5 & Ha2 & Hb5).
  destruct (same_limits_trans _ _ _ _ _ _ Sm4 Sm5) as (Et & Ec & _ & El).
  assert (Hbw : ∀ w, bw w b5 = (LIM w l <=? 0)).
  { intros []; rewrite Hb5; cbn [Bool.eqb]; [done|]. rewrite Hb4. cbn [Bool.eqb]. done. }
  assert (Hi5 : init s5 (refill_bucket_event v) = true) by (unfold init; by rewrite Et).
  assert (Hk5 : cfgs s5 !! c = Some k) by (by rewrite Ec, (lc_cfgs _ _ _ (proj1 St3)), Ec2).
  assert (Hz : ∀ w, LIM w (limit r1) <= 0 → bw w b5 = true) by (intros w ?; rewrite Hbw; by apply Z.leb_le).
  apply rwp_bind, rwp_whenever; intros Hagain.
  - apply rwp_bind, timer_add_ok; [by eapply at_timers|done|apply Hg|]. intros x s6 St6 _ Hi6 Hp6. apply rwp_ret, rwp_ret.
    exists b5, r1. split; [by eapply at_still|]. split; [|by rewrite El].
    apply (bandwidth_intro _ _ _ r1 c k); try done; [by rewrite (lc_cfgs _ _ _ (proj1 St6))|].
    intros w _ Href. by apply Hp6.
  - apply rwp_ret. exists b5, r1. split; [done|]. split; [|by rewrite El].
    apply (bandwidth_intro _ _ _ r1 c k); try done. intros w Hw _. rewrite Hbw in Hw.
    apply orb_false_iff in Hagain as [-> ->]. destruct w; congruence.
Qed.

Lemma no_rate_limit_ok E v s b :
  world_but E s → bevs s !! v = Some b → rwp (no_rate_limit v) s (λ _ s', done_at E v s s').
Proof.
  intros W Hb. destruct (wo_bevs _ _ W v b Hb) as [F B]. pose proof (at_start E v s b W Hb) as A. unfold no_rate_limit.
  apply rwp_bind, (rwp_get_bev _ b); [done|]. destruct (rate_limiting b) as [r|] eqn:Hr; [|apply rwp_ret; by exists b].
  assert (Hi : init s (refill_bucket_event v) = true) by (apply (bw_init _ _ _ B); eauto).
  set (b1 := with_rate_limiting (Some (with_cfg None r)) b).
  apply rwp_bind, rwp_put_bev.
  pose proof (at_limiting _ _ _ _ _ (Some (with_cfg None r)) A ltac:(unfold group_of; by rewrite Hr)) as A1.
  apply rwp_bind, (rwp_unsuspend _ _ _ b1); [apply A1|]. pose proof (at_unsuspend _ _ _ _ _ false A1) as A2.
  apply rwp_bind, (rwp_unsuspend _ _ _ (unsuspend_bev false BEV_SUSPEND_BW b1)); [apply A2|].
  pose proof (at_unsuspend _ _ _ _ _ true A2) as A3. apply rwp_bind, read_init.
  intros s4 Et Eb Eg Ec Ea Er. pose proof (at_still _ _ _ _ _ _ A3 (still_same v _ _ Et Eb Eg Ec Ea Er)) as A4.
  match goal with |- context [whenever ?i _] => change i with (init s (refill_bucket_event v)) end. rewrite Hi. cbn [whenever].
  apply rwp_bind, del_ok; [by eapply at_timers|unfold init; by rewrite Et|]. intros s5 St5 _ Hi5 Hp5. apply rwp_ret.
  eexists. split; [by eapply at_still|]. split.
  - intros w. rewrite !bw_unsuspend. by destruct w.
  - intros r' c' Hr' Hc'. cbn in Hr'. by simplify_eq.
  - done.
  - done.
Qed.

Lemma calloc_ok v s (Q : option nat → world T → Prop) :
  (∀ o s', still v s s' → timers s' = timers s → refused s' = refused s → groups s' = groups s → cfgs s' = cfgs s →
     bevs s' = bevs s → allocs s' = S (allocs s) → (o = None ∨ o = Some (allocs s)) → Q o s') →
  rwp (mm_calloc mm) s Q.
Proof.
  intros HQ. eexists _, _. split; [reflexivity|]. apply HQ; try done; [|destruct (mm (allocs s)); auto].
  split; [|done]. split; try done. cbn. lia.
Qed.

(** The block for rate limits is there already, or has just been allocated. *)
Lemma get_rate_limiting_ok E v s0 s b :
  at_ E v s0 s b →
  rwp (get_rate_limiting mm v) s (λ o s', ∃ b', at_ E v s0 s' b' ∧ timers s' = timers s ∧ refused s' = refused s ∧
    groups s' = groups s ∧ cfgs s' = cfgs s ∧ ways b' = ways b ∧ rate_limiting b' = o ∧
    (o = rate_limiting b ∨ rate_limiting b = None ∧ o = Some no_limit)).
Proof.
  intros A. unfold get_rate_limiting. apply rwp_bind, (rwp_get_bev _ b); [apply A|].
  destruct (rate_limiting b) as [r|] eqn:Hr.
  - apply rwp_ret. exists b. do 6 (split; [done|]). auto.
  - apply rwp_bind, (calloc_ok v). intros o s' St Et Er Eg Ec Eb _ Ho. pose proof (at_still _ _ _ _ _ _ A St) as A1.
    destruct o as [a|].
    + apply rwp_bind, rwp_put_bev, rwp_ret. eexists. split; [apply (at_limiting _ _ _ _ _ (Some no_limit) A1)|]; [by unfold group_of; rewrite Hr|].
      do 5 (split; [done|]). split; [done|]. auto.
    + apply rwp_ret. exists b. do 6 (split; [done|]). auto.
Qed.

Lemma no_cfg_bw s v b w : bandwidth_ok s v b → cfg_of b = None → bw w b = false.
Proof. intros B Hc. destruct (bw w b) eqn:E; [|done]. destruct (bw_timer _ _ _ B w E) as [[? Hs] _]. congruence. Qed.

Lemma set_rate_limit_ok E v s b c :
  world_but E s → bevs s !! v = Some b → (∀ c', c = Some c' → is_Some (cfgs s !! c')) →
  rwp (bufferevent_set_rate_limit mm v c) s (λ x s', done_at E v s s').
Proof.
  intros W Hb Hc. destruct c as [c|]; [|by apply (no_rate_limit_ok E v s b)]. destruct (Hc c eq_refl) as [k Hk].
  pose proof (wo_cfgs _ _ W c k Hk) as Hg. destruct (wo_bevs _ _ W v b Hb) as [F B]. unfold bufferevent_set_rate_limit.
  apply rwp_bind, (now_ok v); [apply (wo_timers _ _ W)|]. intros tv s1 St1 Href1 Hi1 Hp1.
  pose proof (at_still _ _ _ _ _ _ (at_start E v s b W Hb) St1) as A1.
  pose proof (bandwidth_still _ _ _ _ B St1 Href1 Hi1 Hp1) as B1.
  assert (Hk1 : cfgs s1 !! c = Some k) by (by rewrite (lc_cfgs _ _ _ (proj1 St1))).
  apply rwp_bind, (rwp_get_cfg _ k); [done|].
  destruct (get_tick_some tv k (gc_msec _ Hg)) as (tick & Etick & Ht). apply rwp_bind, (rwp_the _ tick); [done|].
  apply rwp_bind, (rwp_get_bev _ b); [apply A1|]. case_bool_decide as Hsame; [apply rwp_ret; by exists b|].
  apply rwp_bind. eapply rwp_mono; [by apply (get_rate_limiting_ok E v s s1 b)|].
  intros o s2 (b2 & A2 & Et & Er & _ & Ec & Ew & <- & Ho). destruct (rate_limiting b2) as [r|] eqn:Hr.
  - eapply rwp_mono; [apply (start_rate_limit_ok E v s s2 b2 c k tick r); try done; [by rewrite Ec|apply (wo_usable _ _ W); eauto| |]|].
    + intros [c0 Hc0]. destruct Ho as [Ho|[Ho [= ->]]]; [|done]. split.
      * unfold init. rewrite Et. apply (bw_init _ _ _ B1). rewrite <- Ho. eauto.
      * destruct (bw_bucket _ _ _ B1 r c0 (eq_sym Ho) Hc0) as (k' & _ & Hl & _). eauto.
    + unfold init, pend. rewrite Et. intros Hc0. apply (bw_idle _ _ _ B1). unfold cfg_of.
      destruct Ho as [<-|[-> _]]; [done|done].
    + intros x s' (b' & r' & A' & B' & _). by exists b'.
  - destruct Ho as [Ho|[_ Ho]]; [|done]. apply rwp_ret. exists b2. split; [done|].
    assert (Hbw : ∀ w, bw w b2 = bw w b) by (intros w; unfold bw; by rewrite Ew).
    assert (Hco : cfg_of b = None) by (unfold cfg_of; by rewrite <- Ho).
    split.
    + intros w. rewrite Hbw. by rewrite (no_cfg_bw _ _ _ w B1 Hco).
    + congruence.
    + rewrite Hr. by intros [].
    + unfold init, pend. rewrite Et. intros _. by apply (bw_idle _ _ _ B1).
Qed.

(** ** Groups *)

(** A group and its timer have changed, but not its members. *)
Lemma regrouped (E E' : bool → nat → Prop) s s' g G G' :
  world_but E s → groups s !! g = Some G → groups s' = <[g := G']> (groups s) → bevs s' = bevs s → cfgs s' = cfgs s →
  allocs s' = allocs s → timers_ok (timers s') → (refused s' = false → refused s = false) →
  (∀ y, y ≠ master_refill_event g → init s' y = init s y ∧ pend s' y = pend s y) →
  group_ok s' g G' → members G' = members G →
  (∀ w g', g' ≠ g → E w g' → E' w g') →
  (∀ v b w, bevs s !! v = Some b → group_of b = Some g → bw_group w b = true → group_waits E s w g → group_waits E' s' w g) →
  world_but E' s'.
Proof.
  intros [W1 W2 W3 W4 W5 W6 W7 W8 W9 W10] HG Eg Eb Ec Ea Ht Hr Hf Hok Hm HE Hw. split; rewrite ?Eg, ?Eb, ?Ec, ?Ea; try done.
  - intros v b Hb. destruct (W2 v b Hb) as [F B]. destruct (Hf (refill_bucket_event v) ltac:(done)) as [Ei Ep]. split.
    + destruct F as [F1 F2]. split; [done|]. intros w Hbw. destruct (F2 w Hbw) as (g' & Hg' & Hg'w). exists g'. split; [done|].
      destruct (decide (g' = g)) as [->|Hne]; [by apply (Hw v b)|].
      destruct Hg'w as [?|(G2 & ? & ?)]; [left; auto|right]. exists G2. by rewrite Eg, lookup_insert_ne.
    + destruct B as [B1 B2 B3 B4]. split; rewrite ?Ec, ?Ei, ?Ep; try done. intros w Hbw. destruct (B1 w Hbw). auto.
  - intros g' G2. destruct (decide (g' = g)) as [->|Hne].
    + rewrite lookup_insert_eq. by intros [= <-].
    + rewrite lookup_insert_ne by done. intros HG2. apply (group_ok_frame s); auto; apply Hf; congruence.
  - intros v g'. rewrite W5. destruct (decide (g' = g)) as [->|Hne].
    + rewrite lookup_insert_eq, HG. split; intros (? & [= <-] & ?); eexists; (split; [done|]); [by rewrite Hm|by rewrite <- Hm].
    + by rewrite lookup_insert_ne.
  - intros g' Hs. destruct (decide (g' = g)) as [->|Hne]; [apply W7; eauto|]. rewrite lookup_insert_ne in Hs by done. auto.
  - intros g' Hn. destruct (decide (g' = g)) as [->|Hne]; [by rewrite lookup_insert_eq in Hn|].
    rewrite lookup_insert_ne in Hn by done. destruct (Hf (master_refill_event g')) as [-> ->]; [congruence|]. by apply W9.
Qed.
Lemma group_changed (E E' : bool → nat → Prop) s g G G' :
  world_but E s → groups s !! g = Some G → group_ok s g G' → members G' = members G →
  (∀ w g', g' ≠ g → E w g' → E' w g') →
  (∀ v b w, bevs s !! v = Some b → group_of b = Some g → bw_group w b = true → group_waits E s w g →
     group_waits E' (set_group g G' s) w g) →
  world_but E' (set_group g G' s).
Proof.
  intros W HG Hok Hm HE Hw. apply (regrouped E E' s _ g G G'); try done; [apply (wo_timers _ _ W)|]. by apply (group_ok_frame s).
Qed.

(** The parts of the world that the loops over members leave alone. *)
Definition only_members s s' : Prop :=
  timers s' = timers s ∧ groups s' = groups s ∧ cfgs s' = cfgs s ∧ allocs s' = allocs s ∧ refused s' = refused s.
#[export] Instance only_members_po : PreOrder only_members.
Proof. split; [done|]. intros ? ? ? (? & ? & ? & ? & ?) (? & ? & ? & ? & ?). repeat split; congruence. Qed.

Lemma try_lock_ok v s (Q : bool → world T → Prop) :
  (∀ s', still v s s' → only_members s s' → Q (trylock (tries s)) s') → rwp (try_lock trylock) s Q.
Proof. intros HQ. eexists _, _. split; [reflexivity|]. apply HQ; [by apply still_same|done]. Qed.

Lemma member_ok E s v g G :
  world_but E s → groups s !! g = Some G → v ∈ members G → ∃ b, bevs s !! v = Some b ∧ group_of b = Some g ∧ bev_ok E s v b.
Proof.
  intros W HG Hv. destruct (proj2 (wo_members _ _ W v g)) as (b & Hb & Hg); [eauto|]. exists b. split; [done|].
  split; [done|]. by apply (wo_bevs _ _ W).
Qed.

(** Suspending one member. *)
Lemma suspend_member_ok E s v w g G :
  world_but E s → groups s !! g = Some G → v ∈ members G → group_suspended (group_ways G w) = true →
  rwp (if_unlocked trylock (λ v, bufferevent_suspend w v BEV_SUSPEND_BW_GROUP) v) s
    (λ _ s', world_but E s' ∧ only_members s s').
Proof.
  intros W HG Hv Hs. destruct (member_ok E s v g G W HG Hv) as (b & Hb & Hgr & [F B]).
  unfold if_unlocked. apply rwp_bind, (try_lock_ok v). intros s1 St Om.
  pose proof (at_still _ _ _ _ _ _ (at_start E v s b W Hb) St) as A1.
  assert (B1 : bandwidth_ok s1 v b) by (destruct Om as (Et & _ & _ & _ & Er); apply (bandwidth_still s); unfold init, pend; rewrite ?Et; done).
  assert (HG1 : groups s1 !! g = Some G) by (by rewrite (lc_groups _ _ _ (proj1 St))).
  destruct (trylock _).
  - apply rwp_bind, (rwp_suspend _ _ _ b); [apply A1|]. apply rwp_ret.
    pose proof (at_suspend_group _ _ _ _ _ w g A1 Hgr) as A2. split; [|by destruct Om].
    apply (at_end _ _ _ _ _ W (A2 ltac:(right; eauto))). apply (bandwidth_same s1 v b); [done|done|]. intros w'. apply bw_suspend_group.
  - apply rwp_ret. split; [|done]. by apply (at_end _ _ _ _ _ W A1).
Qed.

Lemma suspend_members_ok E w g G l s :
  world_but E s → groups s !! g = Some G → l ⊆ members G → group_suspended (group_ways G w) = true →
  rwp (for_each l (λ v, if_unlocked trylock (λ v, bufferevent_suspend w v BEV_SUSPEND_BW_GROUP) v;; mret tt)) s
    (λ _ s', world_but E s' ∧ only_members s s').
Proof. clear mm.
  revert s. induction l as [|v l IH]; intros s W HG Hl Hs; [by apply rwp_ret|]. cbn [for_each].
  apply rwp_bind, rwp_bind. eapply rwp_mono; [apply (suspend_member_ok E s v w g G); [done|done|set_solver|done]|].
  intros x s1 [W1 Om]. apply rwp_ret. eapply rwp_mono; [apply IH; [done|by destruct Om as (_ & -> & _)|set_solver|done]|].
  intros y s2 [W2 Om2]. split; [done|]. by etrans.
Qed.

Definition stopped (w : bool) (G : rate_limit_group) : rate_limit_group :=
  on_group_way w (λ y, Group_way true false (total y)) G.

(** The caller has changed the group; the world is in order once the group is marked as suspended. *)
Lemma group_suspend_ok E s w g G :
  groups s !! g = Some G → world_but E (set_group g (stopped w G) s) →
  rwp (bev_group_suspend trylock w g) s (λ _ s', world_but E s').
Proof.
  intros HG W. unfold bev_group_suspend. apply rwp_bind, (rwp_upd_group _ G); [done|].
  assert (HG1 : groups (set_group g (stopped w G) s) !! g = Some (stopped w G)) by apply lookup_insert_eq.
  apply rwp_bind, (rwp_get_group _ (stopped w G)); [done|].
  eapply rwp_mono; [apply (suspend_members_ok E w g (stopped w G) _ _ W HG1); [done|]|].
  - cbn. unfold set_way. by rewrite eqb_reflx.
  - by intros [] s' [? _].
Qed.

(** No direction of a bufferevent gets suspended by its group. *)
Definition no_new_waits s s' : Prop :=
  ∀ w v b', bevs s' !! v = Some b' → bw_group w b' = true → ∃ b, bevs s !! v = Some b ∧ bw_group w b = true.
#[export] Instance no_new_waits_po : PreOrder no_new_waits.
Proof.
  split; [intros s w v b' ? ?; eauto|]. intros s1 s2 s3 H12 H23 w v b' Hb Hw.
  destruct (H23 w v b' Hb Hw) as (b2 & Hb2 & Hw2). by apply (H12 w v b2).
Qed.


(** Telling one member to go on. *)
Lemma unsuspend_member_ok E s v w g G :
  world_but E s → groups s !! g = Some G → v ∈ members G →
  rwp (if_unlocked trylock (λ v, bufferevent_unsuspend w v BEV_SUSPEND_BW_GROUP) v) s
    (λ got s', world_but E s' ∧ only_members s s' ∧ got = trylock (tries s) ∧ no_new_waits s s' ∧
      (got = true → ∀ b, bevs s' !! v = Some b → bw_group w b = false)).
Proof.
  intros W HG Hv. destruct (member_ok E s v g G W HG Hv) as (b & Hb & Hgr & [F B]).
  unfold if_unlocked. apply rwp_bind, (try_lock_ok v). intros s1 St Om.
  pose proof (at_still _ _ _ _ _ _ (at_start E v s b W Hb) St) as A1.
  assert (B1 : bandwidth_ok s1 v b) by (destruct Om as (Et & _ & _ & _ & Er); apply (bandwidth_still s); unfold init, pend; rewrite ?Et; done).
  destruct (trylock (tries s)).
  - apply rwp_bind, (rwp_unsuspend _ _ _ b); [apply A1|]. apply rwp_ret.
    pose proof (at_unsuspend_group _ _ _ _ _ w A1) as A2. split.
    { apply (at_end _ _ _ _ _ W A2). apply (bandwidth_same s1 v b); [done|done|]. intros w'. apply bw_unsuspend_group. }
    split; [by destruct Om|]. split; [done|].
    assert (Hoff : ∀ b', bevs (set_bev v (unsuspend_bev w BEV_SUSPEND_BW_GROUP b) s1) !! v = Some b' → bw_group w b' = false).
    { intros b'. cbn. rewrite lookup_insert_eq. intros [= <-]. by rewrite bw_group_unsuspend, eqb_reflx. }
    split; [|done]. intros w' v' b' Hb' Hw'. cbn in Hb'. destruct (decide (v' = v)) as [->|Hne].
    { rewrite lookup_insert_eq in Hb'. injection Hb' as <-. rewrite bw_group_unsuspend in Hw'.
      apply andb_true_iff in Hw' as [_ ?]. eauto. }
    rewrite lookup_insert_ne, (proj2 St) in Hb' by done. eauto.
  - apply rwp_ret. split; [by apply (at_end _ _ _ _ _ W A1)|]. split; [done|]. split; [done|]. split; [|done].
    intros w' v' b' Hb'. rewrite (proj2 St) in Hb'. eauto.
Qed.

Lemma unsuspend_each_ok E w g G l again s :
  world_but E s → groups s !! g = Some G → l ⊆ members G →
  rwp (unsuspend_each trylock w l again) s (λ again' s', world_but E s' ∧ only_members s s' ∧ no_new_waits s s' ∧
    (again' = false → again = false ∧ ∀ v b, v ∈ l → bevs s' !! v = Some b → bw_group w b = false) ∧
    ((∀ i, trylock i = true) → again' = again)).
Proof. clear mm.
  revert again s. induction l as [|v l IH]; intros again s W HG Hl.
  - apply rwp_ret. do 3 (split; [done|]). split; [|done].
    intros ->. split; [done|]. intros v b Hv. by apply elem_of_nil in Hv.
  - cbn [unsuspend_each]. apply rwp_bind.
    eapply rwp_mono; [apply (unsuspend_member_ok E s v w g G); [done|done|apply Hl; by left]|].
    intros got s1 (W1 & Om & Hgot & Hnew & Hoff).
    eapply rwp_mono; [apply (IH (if got then again else true) s1); [done|by destruct Om as (_ & -> & _)|intros x Hx; apply Hl; by right]|].
    intros again' s2 (W2 & Om2 & Hnew2 & Hagain & Hall). split; [done|]. split; [by etrans|]. split; [by etrans|]. split.
    + intros Ha. destruct (Hagain Ha) as [Hg Hl']. destruct got; [|done]. split; [done|].
      intros v' b' [->|Hv']%elem_of_cons Hb'; [|by apply (Hl' v')].
      destruct (bw_group w b') eqn:Hw'; [|done]. destruct (Hnew2 w v b' Hb' Hw') as (b1 & Hb1 & Hw1).
      by rewrite (Hoff eq_refl b1 Hb1) in Hw1.
    + intros Ht. rewrite Hall by done. by rewrite Hgot, Ht.
Qed.

Lemma random_order_some l n : 0 <= n <= Zlen l → ∃ l', random_order l (Some n) = Some l' ∧ l' ≡ₚ l.
Proof.
  intros Hn. unfold random_order. rewrite (proj2 (Z.leb_le _ _)) by lia. eexists. split; [done|].
  rewrite (comm (++)). by rewrite take_drop.
Qed.

Lemma members_bound E s g G : world_but E s → groups s !! g = Some G → Zlen (members G) <= EVUTIL_WEAKRAND_MAX.
Proof.
  intros W HG. etrans; [|apply (wo_size _ _ W)].
  assert (Hnd : NoDup (members G)) by apply (wo_groups _ _ W g G HG).
  assert (list_to_set (members G) ⊆ dom (bevs s)) as Hsub%subseteq_size.
  { intros v Hv%elem_of_list_to_set. destruct (member_ok E s v g G W HG Hv) as (b & Hb & _). by apply elem_of_dom. }
  rewrite size_list_to_set, size_dom in Hsub by done. lia.
Qed.

Definition started (w : bool) (G : rate_limit_group) : rate_limit_group :=
  on_group_way w (λ y, Group_way false (pending_unsuspend y) (total y)) G.
(** The members of a group may be suspended for a moment though the group is not. *)
Definition excuse (w : bool) (g : nat) (E : bool → nat → Prop) : bool → nat → Prop := λ w' g', E w' g' ∨ w' = w ∧ g' = g.

Lemma set_group_twice g G G' s : set_group g G' (set_group g G s) = set_group g G' s.
Proof. unfold set_group. cbn. by rewrite insert_insert_eq. Qed.

Lemma random_element_ok E s g G :
  world_but E s → groups s !! g = Some G →
  rwp (bev_group_random_element_ g) s (λ o s', ∃ seed, world_but E s' ∧ s' = set_group g (with_seed seed G) s ∧
    ∃ l, random_order (members G) o = Some l ∧ l ≡ₚ members G).
Proof.
  intros W HG. pose proof (wo_groups _ _ W g G HG) as Gok. pose proof (members_bound E s g G W HG) as Hb.
  assert (Hseed : ∀ seed, world_but E (set_group g (with_seed seed G) s)).
  { intros seed. apply (group_changed E E s g G); try done; [by destruct Gok|].
    intros v b w _ _ _ [?|(G2 & HG2 & ?)]; [by left|right]. exists (with_seed seed G). cbn. rewrite lookup_insert_eq.
    split; [done|]. by simplify_eq. }
  unfold bev_group_random_element_. apply rwp_bind, (rwp_get_group _ G); [done|]. rewrite (go_n _ _ _ Gok).
  destruct (Z.eqb_spec (Zlen (members G)) 0) as [Hz|Hnz].
  - apply rwp_ret. exists (weakrand_seed G).
    assert (Hs : s = set_group g (with_seed (weakrand_seed G) G) s).
    { destruct s, G. unfold set_group. cbn. cbn in HG. by rewrite insert_id. }
    split; [done|]. split; [done|]. by exists (members G).
  - apply rwp_bind, rwp_assert.
    { apply negb_true_iff, bool_decide_eq_false. intros E0. by rewrite E0 in Hnz. }
    destruct (weakrand_range_some (Zlen (members G)) (weakrand_seed G)) as (which & seed & Er & Hw); [lia|].
    apply rwp_bind, (rwp_the _ (which, seed)); [done|]. apply rwp_bind, rwp_put_group, rwp_ret.
    exists seed. split; [apply Hseed|]. split; [done|]. apply random_order_some. lia.
Qed.

(** Only the flags of one direction have changed. *)
Definition tuned (w : bool) (G G' : rate_limit_group) : Prop :=
  rate_limit G' = rate_limit G ∧ rate_limit_cfg G' = rate_limit_cfg G ∧ members G' = members G ∧
  min_share G' = min_share G ∧ ∀ w', w' ≠ w → group_ways G' w' = group_ways G w'.

(** The group has something to spend: its members go on, except those whose locks are not to be had. *)
Lemma group_unsuspend_ok E s w g G :
  world_but E s → groups s !! g = Some G → 0 < LIM w (rate_limit G) →
  rwp (bev_group_unsuspend trylock w g) s (λ _ s', world_but E s' ∧ no_new_waits s s' ∧
    (∃ G', groups s' !! g = Some G' ∧ tuned w G G') ∧
    ((∀ i, trylock i = true) → ∀ v b, bevs s' !! v = Some b → group_of b = Some g → bw_group w b = false)).
Proof.
  intros W HG Hpos. pose proof (wo_groups _ _ W g G HG) as Gok. unfold bev_group_unsuspend.
  apply rwp_bind, (rwp_upd_group _ G); [done|]. fold (started w G). set (G1 := started w G). set (s1 := set_group g G1 s).
  assert (Hways1 : ∀ w', group_ways G1 w' =
      if Bool.eqb w w' then Group_way false (pending_unsuspend (group_ways G w)) (total (group_ways G w)) else group_ways G w') by done.
  assert (W1 : world_but (excuse w g E) s1).
  { apply (group_changed E _ s g G); [done|done| |done|by left|].
    - destruct Gok as [? ? Hempty ? ? ? ? ? ? Hpend]. split; try done; intros w' Hw'.
      * rewrite Hways1. destruct (Bool.eqb_spec w w') as [<-|]; [cbn in Hw'; lia|by apply Hempty].
      * revert Hw'. rewrite Hways1. destruct (Bool.eqb_spec w w'); [done|apply Hpend].
    - intros v b w' _ _ _ [?|(G2 & HG2 & Hw')]; [by left; left|]. simplify_eq.
      destruct (Bool.eqb_spec w w') as [<-|Hne]; [by left; right|]. right. exists G1. cbn. rewrite lookup_insert_eq. split; [done|].
      unfold set_way. by rewrite (proj2 (eqb_false_iff w w')). }
  assert (HG1 : groups s1 !! g = Some G1) by apply lookup_insert_eq.
  apply rwp_bind. eapply rwp_mono; [exact (random_element_ok _ s1 g G1 W1 HG1)|].
  intros o s2 (seed & W2 & -> & l & Hl & Hperm). set (G2 := with_seed seed G1) in *.
  assert (HG2 : groups (set_group g G2 s1) !! g = Some G2) by apply lookup_insert_eq.
  apply rwp_bind, (rwp_get_group _ G2); [done|]. apply rwp_bind, (rwp_the _ l); [done|]. apply rwp_bind.
  eapply rwp_mono; [apply (unsuspend_each_ok _ w g G2 l false _ W2 HG2); by rewrite Hperm|].
  intros again s3 (W3 & Om & Hnew & Hagain & Hall). destruct Om as (_ & Eg & _).
  assert (HG3 : groups s3 !! g = Some G2) by (by rewrite Eg).
  apply (rwp_upd_group _ G2); [done|].
  assert (Hmem : ∀ v b, bevs s3 !! v = Some b → group_of b = Some g → v ∈ l).
  { intros v b Hb Hgr. destruct (group_of_member _ _ _ _ _ W3 Hb Hgr) as (G' & HG' & Hv & _). rewrite HG3 in HG'. injection HG' as <-.
    by rewrite Hperm. }
  set (G3 := on_group_way w (λ y, Group_way (group_suspended y) again (total y)) G2).
  assert (Hways : ∀ w', group_ways G3 w' =
      if Bool.eqb w w' then Group_way (group_suspended (group_ways G2 w)) again (total (group_ways G2 w)) else group_ways G2 w') by done.
  split; [|split; [|split]].
  - apply (group_changed (excuse w g E) E s3 g G2); [done|done| |done|by intros w' g' ? [?|[]]|].
    + pose proof (wo_groups _ _ W3 g G2 HG3) as Gok3. destruct (Gok3) as [? ? Hempty ? ? ? ? ? ? Hpend]. split; try done; intros w' Hw'.
      * rewrite Hways. destruct (Bool.eqb_spec w w') as [<-|]; by apply Hempty.
      * revert Hw'. rewrite Hways. destruct (Bool.eqb_spec w w'); [intros _|apply Hpend].
        cbn. unfold set_way. by rewrite eqb_reflx.
    + intros v b w' Hb Hgr Hw' Hex. destruct (Bool.eqb_spec w w') as [<-|Hne].
      * right. exists G3. cbn. rewrite lookup_insert_eq. split; [done|]. unfold set_way. rewrite eqb_reflx. right. cbn.
        destruct again; [done|]. rewrite (proj2 (Hagain eq_refl) v b (Hmem v b Hb Hgr) Hb) in Hw'. done.
      * destruct Hex as [[?|[? _]]|(G' & HG' & Hp)]; [by left|congruence|]. rewrite HG3 in HG'. injection HG' as <-.
        right. exists G3. split; [apply lookup_insert_eq|].
        rewrite Hways. by destruct (Bool.eqb_spec w w').
  - intros w' v b Hb Hw. by apply (Hnew w' v b).
  - exists G3. cbn. rewrite lookup_insert_eq. split; [done|]. repeat split; try done. intros w' Hne. rewrite Hways.
    destruct (Bool.eqb_spec w w') as [<-|]; [done|]. change (group_ways G2 w') with (group_ways G1 w'). rewrite Hways1.
    by destruct (Bool.eqb_spec w w') as [<-|].
  - intros Ht v b Hb Hgr. apply (proj2 (Hagain (Hall Ht)) v b); [by apply (Hmem v b)|done].
Qed.

(** *** The bucket of a group *)

(** Only the bucket and the totals differ. *)
Record same_group (G G' : rate_limit_group) : Prop := {
  sg_members : members G' = members G;
  sg_n : n_members G' = n_members G;
  sg_cfg : rate_limit_cfg G' = rate_limit_cfg G;
  sg_share : min_share G' = min_share G;
  sg_configured : configured_min_share G' = configured_min_share G;
  sg_suspended w : group_suspended (group_ways G' w) = group_suspended (group_ways G w);
  sg_pending w : pending_unsuspend (group_ways G' w) = pending_unsuspend (group_ways G w)
}.

(** A group that has changed in this way is in order. *)
Lemma same_group_ok E s g G G' :
  world_but E s → groups s !! g = Some G → same_group G G' → bucket_ok (rate_limit_cfg G) (rate_limit G') →
  (∀ w, LIM w (rate_limit G') <= 0 → group_suspended (group_ways G w) = true) → world_but E (set_group g G' s).
Proof.
  intros W HG [M1 M2 M3 M4 M5 M6 M7] Hl Hz. destruct (wo_groups _ _ W g G HG) as [A1 A2 A3 A4 A5 A6 A7 A8 A9 A10].
  apply (group_changed E E s g G); [done|done| |done|done|].
  - split; rewrite ?M1, ?M2, ?M3, ?M4, ?M5; try done; intros w Hw; rewrite M6; [by apply Hz|]. rewrite M7 in Hw. by apply A10.
  - intros v b w _ _ _ [?|(G2 & HG2 & Hw)]; [by left|right]. simplify_eq. exists G'. cbn. rewrite lookup_insert_eq.
    split; [done|]. by rewrite M6, M7.
Qed.

Lemma stopped_ok E s w g G G' :
  world_but E s → groups s !! g = Some G → same_group G G' → bucket_ok (rate_limit_cfg G) (rate_limit G') →
  (∀ w', w' ≠ w → LIM w' (rate_limit G') = LIM w' (rate_limit G)) → world_but E (set_group g (stopped w G') s).
Proof.
  intros W HG [M1 M2 M3 M4 M5 M6 M7] Hl Hsame. destruct (wo_groups _ _ W g G HG) as [A1 A2 A3 A4 A5 A6 A7 A8 A9 A10].
  apply (group_changed E E s g G); [done|done| |done|done|].
  - split; cbn; rewrite ?M1, ?M2, ?M3, ?M4, ?M5; try done; intros w'; unfold set_way;
      destruct (Bool.eqb_spec w w') as [<-|Hne]; try done; rewrite M6, ?M7, ?Hsame by congruence; auto.
  - intros v b w' _ _ _ [?|(G2 & HG2 & Hw)]; [by left|right]. simplify_eq. exists (stopped w G'). cbn. rewrite lookup_insert_eq.
    split; [done|]. unfold set_way. destruct (Bool.eqb_spec w w') as [<-|Hne]; [by left|]. by rewrite M6, M7.
Qed.

(** The limit of a group has been changed: its members are suspended now, or go on, or neither. *)
Lemma settle_group_ok E s w g G G' (stop go : bool) :
  world_but E s → groups s !! g = Some G → same_group G G' → bucket_ok (rate_limit_cfg G) (rate_limit G') →
  (∀ w', w' ≠ w → LIM w' (rate_limit G') = LIM w' (rate_limit G)) →
  (stop = false → go = true → 0 < LIM w (rate_limit G')) →
  (stop = false → LIM w (rate_limit G') <= 0 → group_suspended (group_ways G w) = true) →
  rwp (put_group g G';; if stop then bev_group_suspend trylock w g else whenever go (bev_group_unsuspend trylock w g)) s
    (λ _ s', world_but E s').
Proof.
  intros W HG Sg Hl Hsame Hgo Hz. assert (HG' : groups (set_group g G' s) !! g = Some G') by apply lookup_insert_eq.
  apply rwp_bind, rwp_put_group. destruct stop.
  - apply (group_suspend_ok _ _ _ _ G'); [done|]. rewrite set_group_twice. by apply (stopped_ok E s w g G).
  - assert (W' : world_but E (set_group g G' s)).
    { apply (same_group_ok E s g G); try done. intros w' Hw'. destruct (decide (w' = w)) as [->|Hne]; [by apply Hz|].
      apply (wo_groups _ _ W g G HG). by rewrite <- Hsame. }
    apply rwp_whenever; intros Hg; [|done].
    eapply rwp_mono; [apply (group_unsuspend_ok E _ w g G'); auto|]. by intros [] s' [? _].
Qed.

Lemma decrement_group_ok E s w g G n :
  world_but E s → groups s !! g = Some G → may_decrement w (rate_limit_cfg G) (rate_limit G) n →
  rwp (decrement_group trylock w g n) s (λ _ s', world_but E s').
Proof.
  intros W HG Hmay. destruct (wo_groups _ _ W g G HG) as [A1 A2 A3 A4 A5 A6 A7 A8 A9 A10].
  destruct (decrement_ok _ w n _ (gc_ok _ A1) A2 Hmay) as [Hd Hl]. unfold decrement_group.
  apply rwp_bind, (rwp_get_group _ G); [done|]. apply rwp_bind, (rwp_the _ _ _ _ Hd).
  set (l := set_LIM w (LIM w (rate_limit G) - n) (rate_limit G)) in *.
  set (G' := on_group_way w _ _). apply (settle_group_ok E s w g G G' (LIM w l <=? 0) (group_suspended (group_ways G' w))); try done.
  - split; try done; intros w'; cbn; unfold set_way; by destruct (Bool.eqb_spec w w') as [<-|].
  - intros w' Hne. cbn. unfold l. rewrite LIM_set. by case_bool_decide.
  - intros Hle%Z.leb_gt _. done.
  - intros Hle%Z.leb_gt Hle'. cbn in Hle'. lia.
Qed.

Lemma group_decrement_ok E s w g G n :
  world_but E s → groups s !! g = Some G → may_decrement w (rate_limit_cfg G) (rate_limit G) n →
  rwp (bufferevent_rate_limit_group_decrement trylock w g n) s (λ _ s', world_but E s').
Proof.
  intros W HG Hmay. destruct (wo_groups _ _ W g G HG) as [A1 A2 A3 A4 A5 A6 A7 A8 A9 A10].
  destruct (decrement_ok _ w n _ (gc_ok _ A1) A2 Hmay) as [Hd Hl]. unfold bufferevent_rate_limit_group_decrement.
  apply rwp_bind, (rwp_get_group _ G); [done|]. apply rwp_bind, (rwp_the _ _ _ _ Hd).
  set (l := set_LIM w (LIM w (rate_limit G) - n) (rate_limit G)) in *.
  assert (Hs : rwp (put_group g (with_rate_limit l G);;
      if (0 <? LIM w (rate_limit G)) && (LIM w l <=? 0) then bev_group_suspend trylock w g
      else whenever ((LIM w (rate_limit G) <=? 0) && (0 <? LIM w l)) (bev_group_unsuspend trylock w g)) s (λ _ s', world_but E s')).
  { apply (settle_group_ok E s w g G); try done.
    - intros w' Hne. cbn. unfold l. rewrite LIM_set. by case_bool_decide.
    - intros _ [_ ?%Z.ltb_lt]%andb_true_iff. done.
    - cbn. intros Hw Hle. apply A3. rewrite (proj2 (Z.leb_le (LIM w l) 0)), andb_true_r in Hw by done. by apply Z.ltb_ge. }
  destruct Hs as (a & s1 & Hs & W1). exists 0, s1. split; [|done]. unfold mbind, rm_bind in *. cbn in *.
  rewrite Hs. done.
Qed.

(** *** Refilling a group *)

(** The clock is read; nothing else changes. *)
Lemma now_world_ok E s (Q : timeval → world T → Prop) :
  world_but E s →
  (∀ tv s', world_but E s' → bevs s' = bevs s → groups s' = groups s → cfgs s' = cfgs s → allocs s' = allocs s →
     (∀ x, init s' x = init s x ∧ pend s' x = pend s x) → refused s' = refused s → Q tv s') → rwp now s Q.
Proof.
  intros W HQ. destruct (time_law _ (wo_timers _ _ W)) as (tv & t' & Et & Ht' & Hf).
  eexists tv, _. unfold now, on_timers. rewrite Et. split; [done|]. apply HQ; try done.
  apply (local_ok E 0%nat s); [done| |].
  - split; try done. intros y _. apply Hf.
  - intros b Hb. apply (bev_ok_frame E s); try done; [by apply (wo_bevs _ _ W)|apply Hf..].
Qed.

Lemma refill_group_way_ok E s w g G :
  world_but E s → groups s !! g = Some G →
  rwp (refill_group_way trylock w g) s (λ _ s', world_but E s' ∧ no_new_waits s s' ∧
    (∃ G', groups s' !! g = Some G' ∧ tuned w G G') ∧
    ((∀ i, trylock i = true) → min_share G <= LIM w (rate_limit G) →
       ∀ v b, bevs s' !! v = Some b → group_of b = Some g → E w g ∨ bw_group w b = false)).
Proof.
  intros W HG. pose proof (wo_groups _ _ W g G HG) as Gok. unfold refill_group_way.
  apply rwp_bind, (rwp_get_group _ G); [done|]. pose proof (go_share _ _ _ Gok w) as Hshare.
  apply rwp_whenever; intros Hgo.
  - assert (Hpos : 0 < LIM w (rate_limit G)).
    { apply orb_true_iff in Hgo as [Hp|[_ Hle%Z.leb_le]%andb_true_iff]; [|lia].
      pose proof (go_pending _ _ _ Gok w Hp) as Hs. pose proof (go_empty _ _ _ Gok w) as Hz.
      destruct (Z_le_gt_dec (LIM w (rate_limit G)) 0) as [Hle|]; [|lia]. specialize (Hz Hle). congruence. }
    eapply rwp_mono; [by apply (group_unsuspend_ok E s w g G)|]. intros [] s' (W' & Hn & HG' & Hall). split; [done|]. split; [done|]. split; [done|].
    intros Ht _ v b Hb Hg. right. by apply (Hall Ht v b).
  - split; [done|]. split; [done|]. split; [by exists G|]. intros _ Hle v b Hb Hg. destruct (bw_group w b) eqn:Hw; [|by right].
    destruct (wo_bevs _ _ W v b Hb) as [F _]. destruct (fl_group _ _ _ F w Hw) as (g' & Hg' & [?|(G' & HG' & Hwait)]); simplify_eq; [by left|].
    apply orb_false_iff in Hgo as [Hp Hs]. rewrite (proj2 (Z.leb_le _ _)), andb_true_r in Hs by done. destruct Hwait; congruence.
Qed.

(** The bucket of the group is filled up by the ticks that have passed; then, where there is enough for
    one member at least, all go on. *)
Lemma group_refill_ok E s g G :
  world_but E s → groups s !! g = Some G →
  rwp (bev_group_refill_callback_ trylock g) s (λ _ s', world_but E s' ∧ no_new_waits s s' ∧
    ∃ tick G', 0 <= tick < 2 ^ 32 ∧ groups s' !! g = Some G' ∧ members G' = members G ∧
      rate_limit G' = (ev_token_bucket_update_ (rate_limit G) (rate_limit_cfg G) tick).2 ∧
      ((∀ i, trylock i = true) → ∀ w v b, min_share G <= LIM w (rate_limit G') →
         bevs s' !! v = Some b → group_of b = Some g → E w g ∨ bw_group w b = false)).
Proof.
  intros W HG. unfold bev_group_refill_callback_. apply rwp_bind, (now_world_ok E s _ W).
  intros tv s1 W1 Eb Eg _ _ _ _. rewrite <- Eg in HG. apply rwp_bind, (rwp_get_group _ G); [done|].
  pose proof (wo_groups _ _ W1 g G HG) as Gok. pose proof (go_cfg _ _ _ Gok) as Hg.
  destruct (get_tick_some tv (rate_limit_cfg G) (gc_msec _ Hg)) as (tick & Etick & Ht).
  apply rwp_bind, (rwp_the _ tick); [done|].
  destruct (update_grows _ (rate_limit G) tick (gc_ok _ Hg) (go_bucket _ _ _ Gok) Ht) as [Hl Hgrow].
  apply rwp_bind, rwp_put_group. set (G1 := with_rate_limit _ G). set (s2 := set_group g G1 s1).
  assert (W2 : world_but E s2).
  { apply (same_group_ok E s1 g G); try done. intros w Hw. apply (go_empty _ _ _ Gok). specialize (Hgrow w). cbn in Hw. lia. }
  assert (HG2 : groups s2 !! g = Some G1) by apply lookup_insert_eq.
  apply rwp_bind. eapply rwp_mono; [by apply (refill_group_way_ok E s2 false g G1)|].
  intros [] s3 (W3 & Hn3 & (G3 & HG3 & Hr3 & _ & Hm3 & Hs3 & _) & Hf3).
  eapply rwp_mono; [by apply (refill_group_way_ok E s3 true g G3)|].
  intros [] s4 (W4 & Hn4 & (G4 & HG4 & Hr4 & _ & Hm4 & _) & Hf4). split; [done|]. split.
  { assert (no_new_waits s s1) by (intros w v b'; rewrite Eb; eauto). etrans; [done|]. by etrans. }
  exists tick, G4. split; [done|]. split; [done|]. split; [by rewrite Hm4, Hm3|]. split; [by rewrite Hr4, Hr3|].
  rewrite Hr4, Hr3. change (min_share G) with (min_share G1).
  intros Hlock w v b Hle Hb Hgr. destruct w; [apply (Hf4 Hlock ltac:(rewrite Hr3, Hs3; done) v b Hb Hgr)|].
  destruct (bw_group false b) eqn:Hw; [|by right]. destruct (Hn4 false v b Hb Hw) as (b3 & Hb3 & Hw3).
  destruct (wo_bevs _ _ W3 v b3 Hb3) as [F3 _]. destruct (fl_group _ _ _ F3 false Hw3) as (g' & Hg' & _).
  assert (g' = g) as ->.
  { destruct (group_of_member _ _ _ _ _ W4 Hb Hgr) as (G' & HG' & Hv & _). rewrite HG4 in HG'. injection HG' as <-.
    rewrite Hm4 in Hv. destruct (member_ok _ _ _ _ _ W3 HG3 Hv) as (b' & Hb' & Hgr' & _). congruence. }
  rewrite <- Hw3. by apply (Hf3 Hlock Hle v b3).
Qed.

(** *** New groups and new settings *)

Lemma shares_ok E s g G share :
  world_but E s → groups s !! g = Some G → 1 <= share →
  rwp (bufferevent_rate_limit_group_set_min_share g share) s (λ _ s', world_but E s').
Proof.
  intros W HG Hs. unfold bufferevent_rate_limit_group_set_min_share.
  destruct (Z.ltb_spec EV_SSIZE_MAX share) as [|Hle]; [by apply rwp_ret|].
  apply rwp_bind, (rwp_get_group _ G); [done|]. apply rwp_bind, rwp_put_group, rwp_ret.
  pose proof (wo_groups _ _ W g G HG) as [A1 A2 A3 A4 A5 A6 A7 A8 A9 A10]. rewrite !clamp_min.
  apply (group_changed E E s g G); try done.
  - split; try done. intros w. cbn. pose proof (co_rate _ (gc_ok _ A1) false). pose proof (co_rate _ (gc_ok _ A1) true).
    cbn in *. destruct w; cbn; lia.
  - intros v b w _ _ _ [?|(G2 & HG2 & Hw)]; [by left|right]. simplify_eq. eexists. cbn. rewrite lookup_insert_eq. by split.
Qed.

(** The limits are cut to the new maxima, and the timer gets the new period. *)
Lemma set_cfg_ok E s g G c k :
  world_but E s → groups s !! g = Some G → cfgs s !! c = Some k →
  rwp (bufferevent_rate_limit_group_set_cfg g c) s (λ _ s', world_but E s').
Proof.
  intros W HG Hk. pose proof (wo_cfgs _ _ W c k Hk) as Hg. pose proof (wo_groups _ _ W g G HG) as [A1 A2 A3 A4 A5 A6 A7 A8 A9 A10].
  unfold bufferevent_rate_limit_group_set_cfg. apply rwp_bind, (rwp_get_cfg _ k); [done|]. apply rwp_bind, (rwp_get_group _ G); [done|].
  set (l := Ev_token_bucket _ _ _). set (G1 := with_rate_limit l (with_rate_limit_cfg k G)).
  assert (El : l = ev_token_bucket_init_ (rate_limit G) k 0 true) by done.
  assert (Hl : bucket_ok k l) by (rewrite El; apply init_ok; [apply Hg|lia|eauto]).
  assert (Hz : ∀ w, LIM w l <= 0 → group_suspended (group_ways G w) = true).
  { intros w Hw. apply A3. rewrite El, LIM_init in Hw by apply Hg. pose proof (co_rate _ (gc_ok _ Hg) w). lia. }
  apply rwp_bind, rwp_put_group.
  assert (Htimer : rwp (whenever (negb (evutil_timercmp Z.eqb (tick_timeout (rate_limit_cfg G)) (tick_timeout k)))
      (timer_add (master_refill_event g) (tick_timeout k);; mret tt)) (set_group g G1 s)
    (λ _ s2, bevs s2 = bevs s ∧ groups s2 = <[g := G1]> (groups s) ∧ cfgs s2 = cfgs s ∧ allocs s2 = allocs s ∧
      timers_ok (timers s2) ∧ (refused s2 = false → refused s = false) ∧ init s2 (master_refill_event g) = true ∧
      (refused s2 = false → pend s2 (master_refill_event g) = true) ∧
      ∀ y, y ≠ master_refill_event g → init s2 y = init s y ∧ pend s2 y = pend s y)).
  { apply rwp_whenever; intros _; [|split_and!; try done; by apply (wo_timers _ _ W)].
    apply rwp_bind, add_any; [apply (wo_timers _ _ W)|done|apply Hg|].
    intros r s2 [C1 C2 C3 C4 C5 C6 C7] _ Hi Hp. apply rwp_ret. split_and!; try done. by intros; apply Hp. }
  apply rwp_bind. eapply rwp_mono; [exact Htimer|]. intros [] s2 (Eb & Eg & Ec & Ea & Ht & Hr & Hi & Hp & Hf). clear Htimer.
  assert (HG2 : groups s2 !! g = Some G1) by (by rewrite Eg, lookup_insert_eq).
  apply rwp_bind, (rwp_get_group _ G1); [done|].
  assert (Eu : uint64 (configured_min_share G1) = configured_min_share G).
  { apply uint64_id. unfold EV_SSIZE_MAX in *. cbn. lia. }
  rewrite Eu. unfold bufferevent_rate_limit_group_set_min_share. rewrite (proj2 (Z.ltb_ge _ _)) by lia.
  apply rwp_bind, rwp_bind, (rwp_get_group _ G1); [done|]. apply rwp_bind, rwp_put_group, rwp_ret, rwp_ret. rewrite !clamp_min.
  match goal with |- world_but E (set_group g ?Gb s2) => apply (regrouped E E s _ g G Gb); try done end.
  - cbn. by rewrite Eg, insert_insert_eq.
  - split; try done. intros w. cbn. pose proof (co_rate _ (gc_ok _ Hg) false). pose proof (co_rate _ (gc_ok _ Hg) true).
    cbn in *. destruct w; cbn; lia.
  - intros v b w _ _ _ [?|(G2 & HG3 & Hw)]; [by left|right]. simplify_eq. eexists. cbn. rewrite lookup_insert_eq. by split.
Qed.

(** A group that nobody knows yet. *)
Lemma new_group_ok E s s' g G :
  world_but E s → groups s !! g = None → groups s' = <[g := G]> (groups s) → bevs s' = bevs s → cfgs s' = cfgs s →
  (allocs s <= allocs s')%nat → (g < allocs s')%nat → timers_ok (timers s') → (refused s' = false → refused s = false) →
  (∀ y, y ≠ master_refill_event g → init s' y = init s y ∧ pend s' y = pend s y) →
  group_ok s' g G → members G = [] → world_but E s'.
Proof.
  intros [W1 W2 W3 W4 W5 W6 W7 W8 W9 W10] HG Eg Eb Ec Ea Hga Ht Hr Hf Hok Hm. split; rewrite ?Eg, ?Eb, ?Ec; try done.
  - intros v b Hb. apply (bev_ok_frame E s); auto; try by apply Hf.
    intros w g' [?|(G' & HG' & ?)]; [by left|right]. exists G'. rewrite Eg. split; [|done]. rewrite lookup_insert_ne; [done|congruence].
  - intros g' G2. destruct (decide (g' = g)) as [->|Hne].
    + rewrite lookup_insert_eq. by intros [= <-].
    + rewrite lookup_insert_ne by done. intros HG2. apply (group_ok_frame s); auto; apply Hf; congruence.
  - intros v g'. rewrite W5. destruct (decide (g' = g)) as [->|Hne]; [|by rewrite lookup_insert_ne].
    rewrite lookup_insert_eq, HG. split; intros (? & [= <-] & Hv). rewrite Hm in Hv. by apply elem_of_nil in Hv.
  - intros g' Hs. destruct (decide (g' = g)) as [->|Hne]; [done|]. rewrite lookup_insert_ne in Hs by done.
    specialize (W7 g' Hs). lia.
  - intros c Hs. specialize (W8 c Hs). lia.
  - intros g' Hn. destruct (decide (g' = g)) as [->|Hne]; [by rewrite lookup_insert_eq in Hn|].
    rewrite lookup_insert_ne in Hn by done. destruct (Hf (master_refill_event g')) as [-> ->]; [congruence|]. by apply W9.
Qed.

Lemma calloc_world_ok E s (Q : option nat → world T → Prop) :
  world_but E s →
  (∀ o s', world_but E s' → groups s' = groups s → bevs s' = bevs s → cfgs s' = cfgs s → allocs s' = S (allocs s) →
     (o = None ∨ o = Some (allocs s)) → Q o s') →
  rwp (mm_calloc mm) s Q.
Proof.
  intros W HQ. apply (calloc_ok 0%nat). intros o s' St Et Er Eg Ec Eb Ea Ho. apply HQ; [|done..].
  apply (local_ok E 0%nat s); [done|apply St|]. intros b Hb. rewrite Eb in Hb. destruct (wo_bevs _ _ W _ b Hb) as [F B].
  split; [by eapply flags_local; [|apply St]|]. apply (bandwidth_still s); unfold init, pend; rewrite ?Et; done.
Qed.

Lemma group_new_ok E s c k :
  world_but E s → cfgs s !! c = Some k → usable (master_refill_event (allocs s)) →
  rwp (bufferevent_rate_limit_group_new mm seed_time pid c) s (λ o s', world_but E s' ∧
    ∀ g, o = Some g → is_Some (groups s' !! g)).
Proof.
  intros W Hk Hu. pose proof (wo_cfgs _ _ W c k Hk) as Hg. unfold bufferevent_rate_limit_group_new.
  apply rwp_bind, (now_world_ok E s _ W). intros tv s1 W1 _ _ Ec Ea _ _.
  apply rwp_bind, (rwp_get_cfg _ k); [by rewrite Ec|].
  destruct (get_tick_some tv k (gc_msec _ Hg)) as (tick & Etick & Ht). apply rwp_bind, (rwp_the _ tick); [done|].
  apply rwp_bind, (calloc_world_ok E s1 _ W1). intros o s2 W2 Eg2 _ _ Ea2 [->| ->]; [by apply rwp_ret|].
  set (g := allocs s1). set (l := ev_token_bucket_init_ zero_bucket k tick false).
  assert (HG : groups s2 !! g = None).
  { rewrite Eg2. apply eq_None_not_Some. intros Hs. pose proof (wo_fresh_groups _ _ W1 g Hs). unfold g in *. lia. }
  assert (Hl : bucket_ok k l) by (apply init_ok; [apply Hg|done|done]).
  assert (Hpos : ∀ w, 0 < LIM w l).
  { intros w. unfold l. rewrite LIM_init by apply Hg. pose proof (co_rate _ (gc_ok _ Hg) w). lia. }
  cbv zeta. apply rwp_bind, rwp_put_group. set (G0 := Rate_limit_group _ _ _ _ _ _ _ _).
  apply rwp_bind, assign_any; [apply (wo_timers _ _ W2)|unfold g; by rewrite Ea|by apply (wo_unused _ _ W2)|].
  intros s3 C3 Er3 Hi3 _. apply rwp_bind, add_any; [apply C3|done|apply Hg|]. intros r s4 C4 _ Hi4 Hp4.
  assert (Eg4 : groups s4 = <[g := G0]> (groups s2)) by (by rewrite (tc_groups _ _ _ C4), (tc_groups _ _ _ C3)).
  assert (HG4 : groups s4 !! g = Some G0) by (by rewrite Eg4, lookup_insert_eq).
  unfold bufferevent_rate_limit_group_set_min_share. cbn [Z.ltb Z.compare EV_SSIZE_MAX].
  apply rwp_bind, rwp_bind, (rwp_get_group _ G0); [done|]. apply rwp_bind, rwp_put_group, rwp_ret.
  set (G1 := with_share _ _ G0). set (s5 := set_group g G1 s4).
  assert (HG5 : groups s5 !! g = Some G1) by apply lookup_insert_eq.
  apply rwp_bind, (rwp_upd_group _ G1); [done|]. apply rwp_ret. split; [|intros ? [= <-]; cbn; rewrite lookup_insert_eq; eauto].
  match goal with |- world_but E (set_group g ?Gb s5) => apply (new_group_ok E s2 _ g Gb W2 HG) end.
  - cbn. by rewrite Eg4, !insert_insert_eq.
  - cbn. by rewrite (tc_bevs _ _ _ C4), (tc_bevs _ _ _ C3).
  - cbn. by rewrite (tc_cfgs _ _ _ C4), (tc_cfgs _ _ _ C3).
  - cbn. by rewrite (tc_allocs _ _ _ C4), (tc_allocs _ _ _ C3).
  - cbn. rewrite (tc_allocs _ _ _ C4), (tc_allocs _ _ _ C3). cbn. unfold g. lia.
  - apply C4.
  - intros Hr. pose proof (tc_refused _ _ _ C4 Hr) as Hr3. by rewrite Er3 in Hr3.
  - intros y Hy. destruct (tc_frame _ _ _ C3 y Hy), (tc_frame _ _ _ C4 y Hy). split.
    + transitivity (init s4 y); [done|]. by etrans.
    + transitivity (pend s4 y); [done|]. by etrans.
  - unfold G1. rewrite !clamp_min. pose proof (co_rate _ (gc_ok _ Hg) false). pose proof (co_rate _ (gc_ok _ Hg) true). cbn in *.
    split; try done; cbn.
    + intros w Hw. specialize (Hpos w). lia.
    + intros []; cbn; lia.
    + apply NoDup_nil_2.
    + intros Hr. by apply Hp4.
  - done.
Qed.

(** *** Members come and go *)

(** One bufferevent has changed its group; the groups differ in this member only. *)
Lemma regrouped_ok E s s' v b b' :
  world_but E s → bevs s !! v = Some b → timers s' = timers s → cfgs s' = cfgs s → allocs s' = allocs s →
  refused s' = refused s → bevs s' = <[v := b']> (bevs s) → bev_ok E s' v b' →
  (∀ g, is_Some (groups s' !! g) → is_Some (groups s !! g)) →
  (∀ g G, groups s !! g = Some G → ∃ G', groups s' !! g = Some G' ∧ group_ok s g G' ∧ group_ways G' = group_ways G ∧
     ∀ v', v' ≠ v → v' ∈ members G' ↔ v' ∈ members G) →
  (∀ g, group_of b' = Some g ↔ ∃ G', groups s' !! g = Some G' ∧ v ∈ members G') → world_but E s'.
Proof.
  intros [W1 W2 W3 W4 W5 W6 W7 W8 W9 W10] Hb Et Ec Ea Er Eb Hok Hback Hgr Hv.
  assert (Hi : ∀ x, init s' x = init s x ∧ pend s' x = pend s x) by (intros x; unfold init, pend; by rewrite Et).
  split; rewrite ?Et, ?Ec, ?Ea; try done.
  - intros v' b2. rewrite Eb. destruct (decide (v' = v)) as [->|Hne]; [rewrite lookup_insert_eq; by intros [= <-]|].
    rewrite lookup_insert_ne by done. intros Hb2. apply (bev_ok_frame E s); try apply Hi; auto; [by rewrite Er|].
    intros w g [?|(G & HG & Hw)]; [by left|right]. destruct (Hgr g G HG) as (G' & HG' & _ & Ew & _). exists G'. by rewrite Ew.
  - intros g G' HG'. destruct (Hback g) as [G HG]; [eauto|]. destruct (Hgr g G HG) as (G2 & HG2 & Gok & _). simplify_eq.
    apply (group_ok_frame s); [done|by rewrite Er|apply Hi..].
  - intros v' g. rewrite Eb. destruct (decide (v' = v)) as [->|Hne].
    + rewrite lookup_insert_eq, <- Hv. split; [by intros (? & [= <-] & ?)|eauto].
    + rewrite lookup_insert_ne, W5 by done. split; intros (G & HG & Hin).
      * destruct (Hgr g G HG) as (G' & HG' & _ & _ & Hm). exists G'. by rewrite Hm.
      * destruct (Hback g) as [G0 HG0]; [eauto|]. destruct (Hgr g G0 HG0) as (G' & HG' & _ & _ & Hm). simplify_eq.
        exists G0. by rewrite <- Hm.
  - rewrite Eb. rewrite map_size_insert_Some; [done|by eexists].
  - intros g Hs. by apply W7, Hback.
  - intros g Hn. destruct (Hi (master_refill_event g)) as [-> ->]. apply W9. apply eq_None_not_Some. intros [G HG].
    destruct (Hgr g G HG) as (G' & HG' & _). congruence.
  - intros v'. rewrite Eb. destruct (decide (v' = v)) as [->|Hne]; [|by rewrite lookup_insert_ne by done; apply W10].
    intros _. apply W10. eauto.
Qed.

Lemma no_group_flags (E : bool → nat → Prop) s b w : flags_ok E s b → group_of b = None → bw_group w b = false.
Proof. intros F Hg. destruct (bw_group w b) eqn:E0; [|done]. destruct (fl_group _ _ _ F w E0) as (? & ? & _). congruence. Qed.

(** The bucket and its timer do not care about the group. *)
Lemma bandwidth_regroup s s' v b b' r r' :
  bandwidth_ok s v b → rate_limiting b = Some r → rate_limiting b' = Some r' → limit r' = limit r → cfg r' = cfg r →
  (∀ w, bw w b' = bw w b) → timers s' = timers s → cfgs s' = cfgs s → refused s' = refused s → bandwidth_ok s' v b'.
Proof.
  intros [B1 B2 B3 B4] Hr Hr' Hl Hc Hbw Et Ec Er. unfold cfg_of in *. rewrite Hr in *.
  split; unfold cfg_of, init, pend; rewrite ?Hr', ?Et, ?Ec, ?Er; cbn in *; rewrite ?Hc; try done.
  - intros w. rewrite Hbw. apply B1.
  - intros r2 c [= <-] Hc'. rewrite Hc in Hc'. destruct (B2 r c eq_refl Hc') as (k & ? & ? & Hz). exists k. rewrite Hl.
    do 2 (split; [done|]). intros w. rewrite Hbw. apply Hz.
  - intros _. apply B3. eauto.
Qed.

Definition resumed (b : bufferevent_private) : bufferevent_private :=
  unsuspend_bev true BEV_SUSPEND_BW_GROUP (unsuspend_bev false BEV_SUSPEND_BW_GROUP b).

Lemma resumed_flags b : (∀ w, bw w (resumed b) = bw w b) ∧ (∀ w, bw_group w (resumed b) = false) ∧
  (going_ok b → going_ok (resumed b)).
Proof.
  split; [intros w; unfold resumed; by rewrite !bw_unsuspend_group|]. split.
  - intros []; unfold resumed; by rewrite !bw_group_unsuspend.
  - intros Hg. by apply going_unsuspend, going_unsuspend.
Qed.

Lemma resume_both s v b (Q : Z → world T → Prop) :
  bevs s !! v = Some b →
  (∀ s', timers s' = timers s → groups s' = groups s → cfgs s' = cfgs s → allocs s' = allocs s → refused s' = refused s →
     bevs s' = <[v := resumed b]> (bevs s) → Q 0 s') →
  rwp (whenever true (bufferevent_unsuspend false v BEV_SUSPEND_BW_GROUP;; bufferevent_unsuspend true v BEV_SUSPEND_BW_GROUP);; mret 0) s Q.
Proof.
  intros Hb HQ. cbn [whenever]. apply rwp_bind, rwp_bind, (rwp_unsuspend _ _ _ b); [done|].
  apply (rwp_unsuspend _ _ _ (unsuspend_bev false BEV_SUSPEND_BW_GROUP b)); [apply lookup_insert_eq|].
  apply rwp_ret, HQ; try done. cbn. by rewrite insert_insert_eq.
Qed.

(** A bufferevent that leaves its group is no longer suspended by it. *)
Lemma leave_ok (E : bool → nat → Prop) v s b :
  world_but E s → bevs s !! v = Some b →
  rwp (bufferevent_remove_from_rate_limit_group v) s (λ _ s', world_but E s' ∧
    (∀ g, is_Some (groups s !! g) → is_Some (groups s' !! g)) ∧
    ∃ b', bevs s' !! v = Some b' ∧ group_of b' = None ∧ (∀ w, bw_group w b' = false) ∧
      (is_Some (rate_limiting b) → is_Some (rate_limiting b'))).
Proof. clear trylock mm.
  intros W Hb. destruct (wo_bevs _ _ W v b Hb) as [F B]. destruct (resumed_flags b) as (Hbw & Hbg & Hgo).
  unfold bufferevent_remove_from_rate_limit_group, bufferevent_remove_from_rate_limit_group_internal_.
  apply rwp_bind, (rwp_get_bev _ b); [done|].
  assert (Hstay : group_of b = None → rwp (whenever true (bufferevent_unsuspend false v BEV_SUSPEND_BW_GROUP;;
      bufferevent_unsuspend true v BEV_SUSPEND_BW_GROUP);; mret 0) s (λ _ s', world_but E s' ∧
      (∀ g, is_Some (groups s !! g) → is_Some (groups s' !! g)) ∧
      ∃ b', bevs s' !! v = Some b' ∧ group_of b' = None ∧ (∀ w, bw_group w b' = false) ∧
        (is_Some (rate_limiting b) → is_Some (rate_limiting b')))).
  { intros Hg. apply (resume_both s v b); [done|]. intros s' Et Eg Ec Ea Er Eb. split.
    - apply (regrouped_ok E s s' v b (resumed b)); try done; rewrite ?Eg; try done.
      + split; [split; [by apply Hgo, F|intros w; by rewrite Hbg]|]. destruct B as [B1 B2 B3 B4].
        split; unfold cfg_of, init, pend in *; rewrite ?Et, ?Ec, ?Er; try done.
        * intros w. rewrite Hbw. apply B1.
        * intros r c Hr Hc. destruct (B2 r c Hr Hc) as (k & ? & ? & Hz). exists k. do 2 (split; [done|]). intros w. rewrite Hbw. apply Hz.
      + intros g G HG. exists G. split; [done|]. split; [by apply (wo_groups _ _ W)|done].
      + intros g. change (group_of (resumed b)) with (group_of b). rewrite <- (wo_members _ _ W v g).
        split; [eauto|]. intros (b0 & Hb0 & ?). congruence.
    - rewrite Eg. split; [done|]. exists (resumed b). rewrite Eb, lookup_insert_eq. split; [done|]. by split. }
  destruct (rate_limiting b) as [r|] eqn:Hr; [destruct (group r) as [g|] eqn:Hgr|].
  2,3: apply rwp_bind, rwp_ret, Hstay; unfold group_of; rewrite Hr; done.
  assert (Hg : group_of b = Some g) by (unfold group_of; by rewrite Hr). clear Hstay.
  destruct (group_of_member E s v b g W Hb Hg) as (G & HG & Hv & Gok).
  destruct (unlink_nodup v (members G) (go_nodup _ _ _ Gok) Hv) as (l & El & Hperm & Hnd & Hin & _).
  apply rwp_bind, rwp_bind, (rwp_get_group _ G); [done|]. apply rwp_bind, rwp_put_bev.
  apply rwp_bind, (rwp_the _ l); [done|]. apply rwp_put_group.
  set (b1 := with_rate_limiting _ b). set (G1 := with_members l _ G).
  destruct (resumed_flags b1) as (Hbw1 & Hbg1 & Hgo1).
  apply (resume_both _ v b1); [apply lookup_insert_eq|]. intros s' Et Eg Ec Ea Er Eb. cbn in *.
  rewrite insert_insert_eq in Eb.
  assert (Gok1 : group_ok s g G1).
  { destruct Gok as [A1 A2 A3 A4 A5 A6 A7 A8 A9 A10]. split; try done. cbn. rewrite A7, Hperm. cbn. lia. }
  split; [apply (regrouped_ok E s s' v b (resumed b1)); try done|].
  - split; [split; [by apply Hgo1, F|intros w; by rewrite Hbg1]|].
    by apply (bandwidth_regroup s s' v b (resumed b1) r (with_group None r)).
  - intros g'. rewrite Eg. destruct (decide (g' = g)) as [->|Hne]; [eauto|by rewrite lookup_insert_ne].
  - intros g' G' HG'. rewrite Eg. destruct (decide (g' = g)) as [->|Hne].
    + simplify_eq. exists G1. rewrite lookup_insert_eq. split; [done|]. split; [done|]. split; [done|]. intros v' Hne. cbn. rewrite Hin. tauto.
    + exists G'. rewrite lookup_insert_ne by done. split; [done|]. split; [by apply (wo_groups _ _ W)|done].
  - intros g'. change (group_of (resumed b1)) with (@None nat). split; [done|]. intros (G' & HG' & Hv'). rewrite Eg in HG'.
    destruct (decide (g' = g)) as [->|Hne].
    + rewrite lookup_insert_eq in HG'. injection HG' as <-. cbn in Hv'. by apply Hin in Hv' as [_ []].
    + rewrite lookup_insert_ne in HG' by done. destruct (proj2 (wo_members _ _ W v g')) as (b0 & Hb0 & Hg0); [eauto|]. congruence.
  - split.
    + intros g' Hs. rewrite Eg. destruct (decide (g' = g)) as [->|Hne]; [rewrite lookup_insert_eq; eauto|by rewrite lookup_insert_ne].
    + exists (resumed b1). rewrite Eb, lookup_insert_eq. split; [done|]. split; [done|]. split; [done|]. intros _. eexists. reflexivity.
Qed.

Definition suspend_if (c w : bool) (b : bufferevent_private) : bufferevent_private :=
  if c then suspend_bev w BEV_SUSPEND_BW_GROUP b else b.

Lemma suspend_if_ok w v c b s (Q : unit → world T → Prop) :
  bevs s !! v = Some b →
  (∀ s', timers s' = timers s → groups s' = groups s → cfgs s' = cfgs s → allocs s' = allocs s → refused s' = refused s →
     bevs s' = <[v := suspend_if c w b]> (bevs s) → Q tt s') →
  rwp (whenever c (bufferevent_suspend w v BEV_SUSPEND_BW_GROUP)) s Q.
Proof.
  intros Hb HQ. apply rwp_whenever; intros ->.
  - apply (rwp_suspend _ _ _ b); [done|]. by apply HQ.
  - apply HQ; try done. cbn. by rewrite insert_id.
Qed.

Lemma suspend_if_flags c w b :
  (∀ w', bw w' (suspend_if c w b) = bw w' b) ∧
  (∀ w', bw_group w' (suspend_if c w b) = (Bool.eqb w w' && c) || bw_group w' b) ∧
  (going_ok b → going_ok (suspend_if c w b)).
Proof.
  destruct c; cbn [suspend_if]; (split; [|split]); try done.
  - intros w'. apply bw_suspend_group.
  - intros w'. by rewrite bw_group_suspend, andb_true_r.
  - intros Hg. by apply going_suspend.
  - intros w'. by rewrite andb_false_r.
Qed.

(** A bufferevent that joins a group is suspended when the group is. *)
Lemma join_ok (E : bool → nat → Prop) v s b r g G :
  world_but E s → bevs s !! v = Some b → rate_limiting b = Some r → group_of b = None → groups s !! g = Some G →
  rwp (join_group v g) s (λ _ s', world_but E s').
Proof.
  intros W Hb Hr Hg HG. destruct (wo_bevs _ _ W v b Hb) as [F B]. pose proof (wo_groups _ _ W g G HG) as Gok.
  assert (Hout : ∀ g' G', groups s !! g' = Some G' → v ∉ members G').
  { intros g' G' HG' Hv. destruct (proj2 (wo_members _ _ W v g')) as (b0 & Hb0 & Hg0); [eauto|]. congruence. }
  unfold join_group. apply rwp_bind, (rwp_get_group _ G); [done|]. apply rwp_bind, (rwp_get_bev _ b); [done|].
  apply rwp_bind, (rwp_the _ r); [done|]. apply rwp_bind, rwp_put_bev. apply rwp_bind, rwp_put_group.
  set (b1 := with_rate_limiting _ b). set (G1 := with_members _ _ G).
  apply rwp_bind, (suspend_if_ok _ _ _ b1); [apply lookup_insert_eq|]. intros s2 Et2 Eg2 Ec2 Ea2 Er2 Eb2.
  set (b2 := suspend_if _ false b1) in *.
  apply rwp_bind, (suspend_if_ok _ _ _ b2); [rewrite Eb2; apply lookup_insert_eq|]. intros s3 Et3 Eg3 Ec3 Ea3 Er3 Eb3. apply rwp_ret.
  set (b3 := suspend_if _ true b2) in *.
  assert (Eb : bevs s3 = <[v := b3]> (bevs s)) by (rewrite Eb3, Eb2; cbn; by rewrite !insert_insert_eq).
  assert (Eg : groups s3 = <[g := G1]> (groups s)) by (by rewrite Eg3, Eg2).
  assert (El : rate_limiting b3 = Some (with_group (Some g) r)).
  { unfold b3, b2. by destruct (group_suspended (group_ways G false)), (group_suspended (group_ways G true)). }
  destruct (suspend_if_flags (group_suspended (group_ways G false)) false b1) as (Hbw1 & Hbg1 & Hgo1).
  destruct (suspend_if_flags (group_suspended (group_ways G true)) true b2) as (Hbw2 & Hbg2 & Hgo2).
  apply (regrouped_ok E s s3 v b b3); try done; try congruence.
  - by rewrite Et3, Et2.
  - by rewrite Ec3, Ec2.
  - by rewrite Ea3, Ea2.
  - by rewrite Er3, Er2.
  - split.
    + split; [by apply Hgo2, Hgo1, F|]. intros w Hw. exists g. split; [unfold group_of; by rewrite El|]. right. exists G1.
      rewrite Eg, lookup_insert_eq. split; [done|]. left. cbn. fold b3 in Hbg2. rewrite Hbg2 in Hw. fold b2 in Hbg1. rewrite Hbg1 in Hw.
      change (bw_group w b1) with (bw_group w b) in Hw. rewrite (no_group_flags E s b w F Hg), orb_false_r in Hw.
      by destruct w; cbn in Hw; rewrite ?orb_false_r in Hw.
    + apply (bandwidth_regroup s s3 v b b3 r (with_group (Some g) r)); try done.
      * intros w. fold b3 in Hbw2. rewrite Hbw2. fold b2 in Hbw1. by rewrite Hbw1.
      * by rewrite Et3, Et2.
      * by rewrite Ec3, Ec2.
      * by rewrite Er3, Er2.
  - intros g'. rewrite Eg. destruct (decide (g' = g)) as [->|Hne]; [eauto|by rewrite lookup_insert_ne].
  - intros g' G' HG'. rewrite Eg. destruct (decide (g' = g)) as [->|Hne].
    + simplify_eq. exists G1. rewrite lookup_insert_eq. split; [done|]. split; [|split; [done|]].
      * destruct Gok as [A1 A2 A3 A4 A5 A6 A7 A8 A9 A10]. split; try done; cbn.
        -- apply NoDup_cons. split; [by apply (Hout g)|done].
        -- rewrite A7. lia.
      * intros v' Hne. cbn. rewrite elem_of_cons. split; [by intros [->|?]|by right].
    + exists G'. rewrite lookup_insert_ne by done. split; [done|]. split; [by apply (wo_groups _ _ W)|done].
  - intros g'. unfold group_of. rewrite El. cbn. rewrite Eg. split.
    + intros [= <-]. exists G1. rewrite lookup_insert_eq. split; [done|]. cbn. apply elem_of_cons. by left.
    + intros (G' & HG' & Hv'). destruct (decide (g' = g)) as [->|Hne]; [done|]. rewrite lookup_insert_ne in HG' by done.
      by destruct (Hout g' G' HG').
Qed.

Lemma add_to_group_ok (E : bool → nat → Prop) v s b g :
  world_but E s → bevs s !! v = Some b → is_Some (groups s !! g) →
  rwp (bufferevent_add_to_rate_limit_group mm v (Some g)) s (λ _ s', world_but E s').
Proof.
  intros W Hb HG. destruct (wo_bevs _ _ W v b Hb) as [F B]. unfold bufferevent_add_to_rate_limit_group.
  apply rwp_bind, (rwp_get_bev _ b); [done|]. apply rwp_bind.
  eapply rwp_mono; [by apply (get_rate_limiting_ok E v s s b), at_start|].
  intros o s1 (b1 & A1 & Et & Er & Eg & Ec & Ew & <- & Ho).
  assert (Hbw : ∀ w, bw w b1 = bw w b) by (intros w; unfold bw; by rewrite Ew).
  destruct (rate_limiting b1) as [r|] eqn:Hr.
  2:{ apply rwp_ret. destruct Ho as [Ho|[_ Ho]]; [|done]. apply (at_end _ _ _ _ _ W A1). destruct B as [B1 B2 B3 B4].
      unfold cfg_of in *. rewrite <- Ho in *. split; unfold cfg_of, init, pend; rewrite ?Hr, ?Et, ?Er, ?Ec; try done.
      intros w. rewrite Hbw. apply B1. }
  assert (Hafter : rwp (whenever (bool_decide (rate_limiting b = None)) (timer_assign (refill_bucket_event v) false)) s1
    (λ _ s2, world_but E s2 ∧ bevs s2 !! v = Some b1 ∧ groups s2 = groups s)).
  { destruct Ho as [Ho|[Ho [= ->]]]; rewrite <- ?Ho.
    - rewrite bool_decide_false by done. apply rwp_ret. split; [|split; [apply A1|done]]. apply (at_end _ _ _ _ _ W A1).
      by apply (bandwidth_regroup s s1 v b b1 r r).
    - rewrite Ho, bool_decide_true by done. cbn [whenever]. apply timer_assign_ok; [by eapply at_timers|apply (wo_usable _ _ W); eauto| |].
      + unfold init, pend. rewrite Et. apply (bw_idle _ _ _ B). unfold cfg_of. by rewrite Ho.
      + intros s2 St Er2 Hi Hp. pose proof (at_still _ _ _ _ _ _ A1 St) as A2. split; [|split; [apply A2|by rewrite (lc_groups _ _ _ (proj1 St))]].
        apply (at_end _ _ _ _ _ W A2). split.
        * intros w. rewrite Hbw, (no_cfg_bw s v b w B); [done|]. unfold cfg_of. by rewrite Ho.
        * intros r c Hr' Hc. rewrite Hr in Hr'. by injection Hr' as <-.
        * done.
        * done. }
  apply rwp_bind. eapply rwp_mono; [exact Hafter|]. intros [] s2 (W2 & Hb2 & Eg2). clear Hafter.
  case_bool_decide as Hgr; [by apply rwp_ret|]. rewrite <- Eg2 in HG.
  assert (Hleave : rwp (whenever (bool_decide (is_Some (group r))) (bufferevent_remove_from_rate_limit_group v;; mret tt)) s2
    (λ _ s3, world_but E s3 ∧ is_Some (groups s3 !! g) ∧ ∃ b3 r3, bevs s3 !! v = Some b3 ∧ rate_limiting b3 = Some r3 ∧ group_of b3 = None)).
  { apply rwp_whenever; intros Hs; [|apply bool_decide_eq_false in Hs].
    - apply rwp_bind. eapply rwp_mono; [by apply (leave_ok E v s2 b1)|]. intros x s3 (W3 & Hg3 & b3 & Hb3 & Hgn & _ & Hr3).
      destruct Hr3 as [r3 Hr3]; [eauto|]. apply rwp_ret. split; [done|]. split; [by apply Hg3|]. by exists b3, r3.
    - split; [done|]. split; [done|]. exists b1, r. split; [done|]. split; [done|]. unfold group_of. rewrite Hr. cbn.
      by apply eq_None_not_Some. }
  apply rwp_bind. eapply rwp_mono; [exact Hleave|]. intros [] s3 (W3 & [G HG3] & b3 & r3 & Hb3 & Hr3 & Hg3).
  by apply (join_ok E v s3 b3 r3 g G).
Qed.

Lemma group_free_ok (E : bool → nat → Prop) s g G :
  world_but E s → groups s !! g = Some G → members G = [] →
  rwp (bufferevent_rate_limit_group_free g) s (λ _ s', world_but E s').
Proof.
  intros W HG Hm. pose proof (wo_groups _ _ W g G HG) as Gok. unfold bufferevent_rate_limit_group_free.
  apply rwp_bind, (rwp_get_group _ G); [done|]. apply rwp_bind, rwp_assert; [by rewrite (go_n _ _ _ Gok), Hm|].
  apply rwp_bind, del_any; [apply (wo_timers _ _ W)|apply Gok|]. intros s1 [C1 C2 C3 C4 C5 C6 C7] Er Hi Hp.
  eexists tt, _. split; [reflexivity|]. destruct W as [W1 W2 W3 W4 W5 W6 W7 W8 W9 W10]. split; cbn; rewrite ?C2, ?C3, ?C4, ?C5; try done.
  - intros v b Hb. destruct (C7 (refill_bucket_event v) ltac:(done)) as [Hi' Hp']. destruct (W2 v b Hb) as [[F1 F2] [B1 B2 B3 B4]].
    split; split; unfold init, pend in *; cbn; rewrite ?C4, ?Hi', ?Hp', ?Er; try done.
    intros w Hw. destruct (F2 w Hw) as (g' & Hg' & Hwait). exists g'. split; [done|].
    destruct Hwait as [?|(G' & HG' & Hp2)]; [by left|right]. exists G'. cbn. rewrite ?C3. split; [|done].
    rewrite lookup_delete_ne; [done|]. intros <-. destruct (proj1 (W5 v g)) as (G2 & HG2 & Hv); [eauto|]. simplify_eq.
    rewrite Hm in Hv. by apply elem_of_nil in Hv.
  - intros g' G' HG'. apply lookup_delete_Some in HG' as [Hne HG']. apply (group_ok_frame s); auto; apply C7; congruence.
  - intros v g'. rewrite W5. destruct (decide (g' = g)) as [->|Hne].
    + rewrite lookup_delete_eq. split; intros (? & ? & Hv); [|done]. simplify_eq. rewrite Hm in Hv. by apply elem_of_nil in Hv.
    + by rewrite lookup_delete_ne.
  - intros g' Hs. apply W7. destruct Hs as [? Hs]. apply lookup_delete_Some in Hs as [_ ?]. eauto.
  - intros g' Hn. destruct (decide (g' = g)) as [->|Hne]; [by intros _|]. rewrite lookup_delete_ne in Hn by done.
    destruct (C7 (master_refill_event g')) as [Hi' Hp']; [congruence|]. intros Hi2. change (pend s1 (master_refill_event g') = false).
    rewrite Hp'. apply W9; [done|]. by rewrite <- Hi'.
Qed.

(** *** The rest *)

Lemma decrement_buckets_ok (E : bool → nat → Prop) v s b w n :
  world_but E s → bevs s !! v = Some b →
  (∀ r c k, rate_limiting b = Some r → cfg r = Some c → cfgs s !! c = Some k → may_decrement w k (limit r) n) →
  (∀ g G, group_of b = Some g → groups s !! g = Some G → may_decrement w (rate_limit_cfg G) (rate_limit G) n) →
  rwp (bufferevent_decrement_buckets trylock w v n) s (λ _ s', world_but E s').
Proof.
  intros W Hb Hown Hgroup. destruct (wo_bevs _ _ W v b Hb) as [F B]. unfold bufferevent_decrement_buckets.
  apply rwp_bind, (rwp_get_bev _ b); [done|]. destruct (rate_limiting b) as [r|] eqn:Hr; [|by apply rwp_ret].
  apply rwp_bind. eapply rwp_mono.
  { apply (decrement_own_ok E v s s b r w n); [by apply at_start|done|done|apply (wo_cfgs _ _ W)|]. intros c k Hc Hk. by apply (Hown r c k). }
  intros x s1 (b1 & r1 & A1 & B1 & _ & Hr1 & Hg1 & _). pose proof (at_end _ _ _ _ _ W A1 B1) as W1.
  destruct (group r) as [g|] eqn:Hg; [|by apply rwp_ret]. assert (Hgr : group_of b = Some g) by (unfold group_of; by rewrite Hr).
  destruct (group_of_member E s v b g W Hb Hgr) as (G & HG & _).
  apply rwp_bind. eapply rwp_mono; [apply (decrement_group_ok E s1 w g G n W1)|].
  - by rewrite (lc_groups _ _ _ (at_local _ _ _ _ _ A1)).
  - by apply (Hgroup g).
  - intros [] s2 W2. by apply rwp_ret.
Qed.

Lemma set_max_single_ok (E : bool → nat → Prop) v s b w n :
  world_but E s → bevs s !! v = Some b → rwp (bufferevent_set_max_single w v n) s (λ _ s', world_but E s').
Proof.
  intros W Hb. destruct (wo_bevs _ _ W v b Hb) as [[F1 F2] B]. unfold bufferevent_set_max_single, upd_bev.
  apply rwp_bind, rwp_bind, (rwp_get_bev _ b); [done|]. apply rwp_put_bev, rwp_ret. set (b' := on_way w _ b).
  assert (Hs : ∀ w', suspended (ways b' w') = suspended (ways b w') ∧ going (ways b' w') = going (ways b w')).
  { intros w'. unfold b'. rewrite ways_on_way. by destruct (Bool.eqb_spec w w') as [<-|]. }
  apply (local_ok E v s); [done|by apply (local_set_bev v b)|]. intros b2 Hb2. cbn in Hb2. rewrite lookup_insert_eq in Hb2. injection Hb2 as <-.
  split.
  - split; [intros w'; destruct (Hs w') as [-> ->]; apply F1|]. intros w'. unfold bw_group. destruct (Hs w') as [-> _]. apply F2.
  - apply (bandwidth_same s v b); [done|done|]. intros w'. unfold bw. by destruct (Hs w') as [-> _].
Qed.

Lemma totals_ok (E : bool → nat → Prop) s g G :
  world_but E s → groups s !! g = Some G → rwp (bufferevent_rate_limit_group_reset_totals g) s (λ _ s', world_but E s').
Proof.
  intros W HG. unfold bufferevent_rate_limit_group_reset_totals. apply (rwp_upd_group _ G); [done|].
  pose proof (wo_groups _ _ W g G HG) as Gok. apply (same_group_ok E s g G); try done.
  - split; try done; by intros [].
  - apply Gok.
  - intros w Hw. by apply (go_empty _ _ _ Gok).
Qed.

(** The configurations that are in use stay. *)
Lemma cfgs_changed (E : bool → nat → Prop) s cs al :
  world_but E s → (∀ c k, cs !! c = Some k → good_cfg k) → (∀ c, is_Some (cs !! c) → (c < al)%nat) → (allocs s <= al)%nat →
  (∀ v b c, bevs s !! v = Some b → cfg_of b = Some c → cs !! c = cfgs s !! c) →
  world_but E (World (timers s) (bevs s) (groups s) cs al (tries s) (refused s)).
Proof.
  intros [W1 W2 W3 W4 W5 W6 W7 W8 W9 W10] Hgood Hal Hle Hused. split; cbn; try done.
  - intros v b Hb. destruct (W2 v b Hb) as [[F1 F2] [B1 B2 B3 B4]]. split; split; try done. intros r c Hr Hc. cbn.
    rewrite (Hused v b c Hb); [by apply B2|]. unfold cfg_of. by rewrite Hr.
  - intros g G HG. destruct (W3 g G HG). by split.
  - intros g Hs. specialize (W7 g Hs). lia.
Qed.

Lemma new_cfg_ok (E : bool → nat → Prop) s rr rb wr wb tick :
  world_but E s → tv_normal (default (Timeval 1 0) tick) → 1000 <= tv_micros (default (Timeval 1 0) tick) < 2 ^ 32 * 1000 →
  rwp (new_cfg mm rr rb wr wb tick) s (λ _ s', world_but E s').
Proof.
  intros W Hn Hm. unfold new_cfg. destruct (ev_token_bucket_cfg_new true rr rb wr wb tick) as [k|] eqn:Ek; [|by apply rwp_ret].
  assert (Hk : good_cfg k).
  { split; [by eapply cfg_new_ok| |].
    - apply (cfg_new_msec true rr rb wr wb (default (Timeval 1 0) tick)); [|done|done]. by destruct tick.
    - unfold ev_token_bucket_cfg_new in Ek. repeat case_match; simplify_eq. done. }
  apply rwp_bind, (calloc_world_ok E s _ W). intros o s1 W1 Eg Eb Ec Ea [->| ->]; [by apply rwp_ret|].
  apply rwp_bind. eexists tt, _. split; [reflexivity|]. apply rwp_ret.
  assert (Hnew : cfgs s1 !! allocs s = None).
  { rewrite Ec. apply eq_None_not_Some. intros Hs. pose proof (wo_fresh_cfgs _ _ W _ Hs). lia. }
  apply (cfgs_changed E s1); [done| | |done|].
  - intros c k' Hc. apply lookup_insert_Some in Hc as [[_ <-]|[_ ?]]; [done|]. by apply (wo_cfgs _ _ W1 c).
  - intros c [k' Hc]. apply lookup_insert_Some in Hc as [[<- _]|[_ ?]]; [lia|]. apply (wo_fresh_cfgs _ _ W1). eauto.
  - intros v b c Hb Hc. rewrite lookup_insert_ne; [done|]. intros <-.
    destruct (wo_bevs _ _ W1 v b Hb) as [_ B]. unfold cfg_of in Hc. destruct (rate_limiting b) as [r|] eqn:Hr; [|done].
    destruct (bw_bucket _ _ _ B r _ Hr Hc) as (? & ? & _). congruence.
Qed.

Lemma cfg_free_ok (E : bool → nat → Prop) s c :
  world_but E s → (∀ v b, bevs s !! v = Some b → cfg_of b ≠ Some c) →
  rwp (ev_token_bucket_cfg_free c) s (λ _ s', world_but E s').
Proof.
  intros W Hun. eexists tt, _. split; [reflexivity|]. apply (cfgs_changed E s); [done| | |done|].
  - intros c' k [_ ?]%lookup_delete_Some. by apply (wo_cfgs _ _ W c').
  - intros c' [k [_ ?]%lookup_delete_Some]. apply (wo_fresh_cfgs _ _ W). eauto.
  - intros v b c' Hb Hc. rewrite lookup_delete_ne; [done|]. intros <-. by apply (Hun v b).
Qed.

End ratelim.
