(* ===== verification/RateLimitSystem.v ===== *)
(** * Programs with rate limits

    Any sequence of calls of the interface, of reads and writes of the bufferevents and of expiring
    timers: the limits are kept, and whatever waits for bandwidth gets it. *)

From S2P Require Import Prelude Text Evutil Timeval Event EventBaseOk TokenBucket RateLimit RateLimitOk.

(** What a program, its bufferevents and the event base call. *)
Inductive rl_call :=
  | call_new_cfg (read_rate read_burst write_rate write_burst : Z) (tick_len : option timeval)
  | call_cfg_free (c : nat)
  | call_set_rate_limit (v : nat) (c : option nat)
  | call_group_new (c : nat)
  | call_group_set_cfg (g c : nat)
  | call_set_min_share (g : nat) (share : Z)
  | call_group_free (g : nat)
  | call_add_to_group (v g : nat)
  | call_remove_from_group (v : nat)
  | call_get_limit (w : bool) (v : nat)
  | call_get_max (w : bool) (v : nat)
  | call_set_max_single (w : bool) (v : nat) (size : Z)
  | call_decrement_limit (w : bool) (v : nat) (decr : Z)
  | call_group_decrement (w : bool) (g : nat) (decr : Z)
  | call_reset_totals (g : nat)
  | call_transferred (w : bool) (v : nat) (bytes : Z)
  | call_refill (v : nat)
  | call_group_refill (g : nat).

Section system.
Context {T : Type} `{TimersLaws T}.
Context (mm trylock : nat → bool) (seed_time : timeval) (pid : Z).
Implicit Types s : world T.

Definition rl_step (c : rl_call) : RM T unit :=
  match c with
  | call_new_cfg rr rb wr wb tick => new_cfg mm rr rb wr wb tick;; mret tt
  | call_cfg_free c => ev_token_bucket_cfg_free c
  | call_set_rate_limit v c => bufferevent_set_rate_limit mm v c;; mret tt
  | call_group_new c => bufferevent_rate_limit_group_new mm seed_time pid c;; mret tt
  | call_group_set_cfg g c => bufferevent_rate_limit_group_set_cfg g c;; mret tt
  | call_set_min_share g n => bufferevent_rate_limit_group_set_min_share g n;; mret tt
  | call_group_free g => bufferevent_rate_limit_group_free g
  | call_add_to_group v g => bufferevent_add_to_rate_limit_group mm v (Some g);; mret tt
  | call_remove_from_group v => bufferevent_remove_from_rate_limit_group v;; mret tt
  | call_get_limit w v => bufferevent_get_limit w v;; mret tt
  | call_get_max w v => bufferevent_get_rlim_max_ v w;; mret tt
  | call_set_max_single w v n => bufferevent_set_max_single w v n;; mret tt
  | call_decrement_limit w v n => bufferevent_decrement_limit w v n;; mret tt
  | call_group_decrement w g n => bufferevent_rate_limit_group_decrement trylock w g n;; mret tt
  | call_reset_totals g => bufferevent_rate_limit_group_reset_totals g
  | call_transferred w v n => bufferevent_decrement_buckets trylock w v n;; mret tt
  | call_refill v => refill_expires v
  | call_group_refill g => bev_group_refill_callback_ trylock g
  end.

Fixpoint rl_run (cs : list rl_call) : RM T unit :=
  match cs with [] => mret tt | c :: cs => rl_step c;; rl_run cs end.

(** What the documentation asks of a caller: objects exist; a configuration or a group is freed when
    nobody uses it; a tick takes a millisecond at least, and less than 49 days; a share is positive; a
    bucket is not refilled by hand beyond its maximum.  The timer of a bufferevent expires when it is
    pending. *)
Definition rl_allowed s (c : rl_call) : Prop :=
  match c with
  | call_new_cfg _ _ _ _ tick =>
      let tv := default (Timeval 1 0) tick in tv_normal tv ∧ 1000 <= tv_micros tv < 2 ^ 32 * 1000
  | call_cfg_free c => ∀ v b, bevs s !! v = Some b → cfg_of b ≠ Some c
  | call_set_rate_limit v c => is_Some (bevs s !! v) ∧ ∀ c', c = Some c' → is_Some (cfgs s !! c')
  | call_group_new c => is_Some (cfgs s !! c) ∧ usable (master_refill_event (allocs s))
  | call_group_set_cfg g c => is_Some (groups s !! g) ∧ is_Some (cfgs s !! c)
  | call_set_min_share g n => is_Some (groups s !! g) ∧ 1 <= n
  | call_group_free g => ∃ G, groups s !! g = Some G ∧ members G = []
  | call_add_to_group v g => is_Some (bevs s !! v) ∧ is_Some (groups s !! g)
  | call_remove_from_group v | call_get_limit _ v | call_get_max _ v | call_set_max_single _ v _ => is_Some (bevs s !! v)
  | call_decrement_limit w v n => ∃ b r c k, bevs s !! v = Some b ∧ rate_limiting b = Some r ∧ cfg r = Some c ∧
      cfgs s !! c = Some k ∧ may_decrement w k (limit r) n
  | call_group_decrement w g n => ∃ G, groups s !! g = Some G ∧ may_decrement w (rate_limit_cfg G) (rate_limit G) n
  | call_reset_totals g | call_group_refill g => is_Some (groups s !! g)
  | call_transferred w v n => ∃ b, bevs s !! v = Some b ∧
      (∀ r c k, rate_limiting b = Some r → cfg r = Some c → cfgs s !! c = Some k → may_decrement w k (limit r) n) ∧
      (∀ g G, group_of b = Some g → groups s !! g = Some G → may_decrement w (rate_limit_cfg G) (rate_limit G) n)
  | call_refill v => is_Some (bevs s !! v) ∧ pend s (refill_bucket_event v) = true
  end.
Fixpoint rl_obeys (cs : list rl_call) s : Prop :=
  match cs with
  | [] => True
  | c :: cs => rl_allowed s c ∧ ∀ s', rl_step c s = Some (tt, s') → rl_obeys cs s'
  end.

Lemma rwp_then {A} (m : RM T A) s (P : world T → Prop) : rwp m s (λ _ s', P s') → rwp (m;; mret tt) s (λ _ s', P s').
Proof. intros Hm. apply rwp_bind. eapply rwp_mono; [exact Hm|]. intros a s' HP. by apply rwp_ret. Qed.
Lemma rwp_at {A} (m : RM T A) v s :
  world_ok s → rwp m s (λ _ s', done_at no_excuse v s s') → rwp m s (λ _ s', world_ok s').
Proof. intros W Hm. eapply rwp_mono; [exact Hm|]. intros a s' (b & A' & B'). by apply (at_end _ _ _ _ _ W A' B'). Qed.

(** Every call is answered, and the invariant holds afterwards. *)
Lemma rl_step_ok c s : world_ok s → rl_allowed s c → rwp (rl_step c) s (λ _ s', world_ok s').
Proof.
  intros W Hc. destruct c; cbn [rl_step rl_allowed] in *.
  - destruct Hc. by apply rwp_then, new_cfg_ok.
  - by apply cfg_free_ok.
  - destruct Hc as [[b Hb] ?]. by apply rwp_then, (rwp_at _ v), (set_rate_limit_ok _ _ v s b).
  - destruct Hc as [[k Hk] ?]. apply rwp_then. eapply rwp_mono; [by apply (group_new_ok _ _ _ no_excuse s c k)|]. by intros ? ? [? _].
  - destruct Hc as [[G HG] [k Hk]]. by apply rwp_then, (set_cfg_ok _ s g G c k).
  - destruct Hc as [[G HG] ?]. by apply rwp_then, (shares_ok _ s g G).
  - destruct Hc as (G & HG & ?). by apply (group_free_ok _ s g G).
  - destruct Hc as [[b Hb] ?]. by apply rwp_then, (add_to_group_ok mm no_excuse v s b g).
  - destruct Hc as [b Hb]. apply rwp_then. eapply rwp_mono; [by apply (leave_ok no_excuse v s b)|]. by intros ? ? [? _].
  - destruct Hc as [b Hb]. by apply rwp_then, (rwp_at _ v), (get_limit_ok _ v s b).
  - destruct Hc as [b Hb]. apply rwp_then, (rwp_at _ v); [done|]. eapply rwp_mono; [by apply (get_rlim_max_ok no_excuse v s b)|].
    intros n s' (b' & A' & B' & _). by exists b'.
  - destruct Hc as [b Hb]. by apply rwp_then, (set_max_single_ok _ v s b).
  - destruct Hc as (b & r & c & k & ? & ? & ? & ? & ?). by apply rwp_then, (rwp_at _ v), (decrement_limit_ok _ v s b r c k).
  - destruct Hc as (G & HG & ?). by apply rwp_then, (group_decrement_ok _ _ s w g G).
  - destruct Hc as [G HG]. by apply (totals_ok _ s g G).
  - destruct Hc as (b & Hb & ? & ?). by apply rwp_then, (decrement_buckets_ok trylock no_excuse v s b).
  - destruct Hc as [[b Hb] Hp]. destruct (wo_bevs _ _ W v b Hb) as [_ B].
    pose proof (pending_law _ _ (wo_timers _ _ W) Hp) as Hi. destruct (cfg_of b) as [c|] eqn:Hco.
    + unfold cfg_of in Hco. destruct (rate_limiting b) as [r|] eqn:Hr; [|done]. destruct (bw_bucket _ _ _ B r c Hr Hco) as (k & Hk & _).
      eapply rwp_mono; [by apply (refill_expires_ok no_excuse v s b r c k)|]. intros [] s' (tick & b' & A' & B' & _).
      by apply (at_end _ _ _ _ _ W A' B').
    + by rewrite (bw_idle _ _ _ B Hco Hi) in Hp.
  - destruct Hc as [G HG]. eapply rwp_mono; [by apply (group_refill_ok trylock no_excuse s g G)|]. by intros ? ? [? _].
Qed.

Lemma rl_run_ok cs s : world_ok s → rl_obeys cs s → rwp (rl_run cs) s (λ _ s', world_ok s').
Proof.
  revert s. induction cs as [|c cs IH]; intros s W Hc; [by apply rwp_ret|]. destruct Hc as [Hc Hcs].
  destruct (rl_step_ok c s W Hc) as ([] & s1 & E & W1). cbn [rl_run]. apply rwp_bind. exists tt, s1. split; [done|].
  apply IH; auto.
Qed.

(** ** What the user sees *)

(** Bufferevents without rate limits, of which nothing is suspended for want of bandwidth; none of
    their timers and of the groups to come has been set up. *)
Record fresh_world s : Prop := {
  fw_timers : timers_ok (timers s);
  fw_unset x : init s x = false;
  fw_bevs v b : bevs s !! v = Some b → rate_limiting b = None ∧ going_ok b ∧
    (∀ w, bw w b = false ∧ bw_group w b = false) ∧ usable (refill_bucket_event v);
  fw_groups : groups s = ∅;
  fw_cfgs : cfgs s = ∅;
  fw_size : Z.of_nat (size (bevs s)) <= EVUTIL_WEAKRAND_MAX
}.

Lemma fresh_ok s : fresh_world s → world_ok s.
Proof.
  intros [F1 F2 F3 F4 F5 F6]. split; rewrite ?F4, ?F5; try done.
  - intros v b Hb. destruct (F3 v b Hb) as (Hr & Hg & Hf & _). split; split; try done.
    + intros w. by rewrite (proj2 (Hf w)).
    + intros w. by rewrite (proj1 (Hf w)).
    + intros r c Hr'. congruence.
    + rewrite Hr. by intros [].
    + rewrite F2. done.
  - intros v g. rewrite lookup_empty. split; [|by intros (? & ? & _)]. intros (b & Hb & Hg).
    destruct (F3 v b Hb) as (Hr & _). unfold group_of in Hg. by rewrite Hr in Hg.
  - intros g [? Hg]. by rewrite lookup_empty in Hg.
  - intros c [? Hc]. by rewrite lookup_empty in Hc.
  - intros g _. by rewrite F2.
  - intros v [b Hb]. by apply (F3 v b Hb).
Qed.

(** One direction of a bufferevent is in order. *)
Record way_in_order s (v : nat) (b : bufferevent_private) (w : bool) : Prop := {
  (* it goes on exactly when it is enabled and not suspended *)
  wi_going : going (ways b w) = true ↔ has (EV_OF w) (enabled b) = true ∧ suspended (ways b w) = 0;
  (* an empty bucket stops it; the bucket never holds more than its maximum *)
  wi_bucket r c : rate_limiting b = Some r → cfg r = Some c → ∃ k, cfgs s !! c = Some k ∧
    LIM w (limit r) <= maximum w k ∧ (LIM w (limit r) <= 0 → going (ways b w) = false);
  (* whatever waits for a bucket has a timer that will refill it *)
  wi_waits : has BEV_SUSPEND_BW (suspended (ways b w)) = true → refused s = false → pend s (refill_bucket_event v) = true;
  (* whatever waits for a group is a member of it, which is waiting, too, with a timer *)
  wi_group : has BEV_SUSPEND_BW_GROUP (suspended (ways b w)) = true → ∃ g G, group_of b = Some g ∧ groups s !! g = Some G ∧
    v ∈ members G ∧ (group_suspended (group_ways G w) = true ∨ pending_unsuspend (group_ways G w) = true) ∧
    (refused s = false → pend s (master_refill_event g) = true)
}.

Lemma world_in_order s v b w : world_ok s → bevs s !! v = Some b → way_in_order s v b w.
Proof.
  intros W Hb. destruct (wo_bevs _ _ W v b Hb) as [F B]. pose proof (fl_going _ _ _ F w) as Hg. split.
  - rewrite Hg. destruct (Z.eqb_spec (suspended (ways b w)) 0); rewrite ?andb_true_r, ?andb_false_r; intuition congruence.
  - intros r c Hr Hc. destruct (bw_bucket _ _ _ B r c Hr Hc) as (k & Hk & Hl & Hz). exists k. split; [done|].
    split; [apply (bk_limit _ _ Hl)|]. intros Hle. specialize (Hz w Hle). rewrite Hg.
    destruct (Z.eqb_spec (suspended (ways b w)) 0) as [E|]; [|by rewrite andb_false_r].
    unfold bw in Hz. by rewrite E in Hz.
  - intros Hw. apply (bw_timer _ _ _ B w Hw).
  - intros Hw. destruct (fl_group _ _ _ F w Hw) as (g & Hgr & Hwait). exists g.
    destruct (group_of_member _ _ _ _ _ W Hb Hgr) as (G & HG & Hv & Gok). exists G.
    destruct Hwait as [[]|(G' & HG' & ?)]. simplify_eq. do 4 (split; [done|]). apply Gok.
Qed.


(** What a bufferevent may read or write at once: never more than its bucket holds; and when the
    direction is not suspended at least one byte, so that a read of no bytes is never taken for the
    end of the stream, or else its group has no bandwidth, and the direction is suspended now. *)
Theorem get_rlim_max_positive s v b w :
  world_ok s → bevs s !! v = Some b → 1 <= max_single (ways b w) →
  ∃ n s' b', bufferevent_get_rlim_max_ v w s = Some (n, s') ∧ world_ok s' ∧ bevs s' !! v = Some b' ∧ 0 <= n ∧
    (∀ r, rate_limiting b' = Some r → is_Some (cfg r) → n <= Z.max 0 (LIM w (limit r))) ∧
    (suspended (ways b w) = 0 → 1 <= n ∨ n = 0 ∧ has BEV_SUSPEND_BW_GROUP (suspended (ways b' w)) = true).
Proof.
  intros W Hb Hm. destruct (get_rlim_max_ok no_excuse v s b w W Hb) as (n & s' & E & b' & A & B & H1 & H2 & H3).
  exists n, s', b'. split; [done|]. split; [by apply (at_end _ _ _ _ _ W A B)|]. split; [apply A|]. auto.
Qed.

(** When the timer of a bufferevent expires its bucket gets the rate for every tick that has
    passed, up to the maximum, and each direction goes on, as far as its bucket is concerned, if and
    only if there is something in it, in particular when the ticks that have passed make up for the
    debt; otherwise the timer is pending again unless event_add has been refused. *)
Theorem refill_resumes s v b r c k :
  world_ok s → bevs s !! v = Some b → rate_limiting b = Some r → cfg r = Some c → cfgs s !! c = Some k →
  ∃ s' tick b' r', refill_expires v s = Some (tt, s') ∧ world_ok s' ∧ bevs s' !! v = Some b' ∧ 0 <= tick < 2 ^ 32 ∧
    rate_limiting b' = Some r' ∧ limit r' = (naive_update (limit r) k tick).2 ∧
    ∀ w, has BEV_SUSPEND_BW (suspended (ways b' w)) = has BEV_SUSPEND_BW (suspended (ways b w)) && (LIM w (limit r') <=? 0) ∧
      (1 <= elapsed (limit r) tick <= INT_MAX → 0 < LIM w (limit r) + elapsed (limit r) tick * rate w k →
         has BEV_SUSPEND_BW (suspended (ways b' w)) = false) ∧
      (has BEV_SUSPEND_BW (suspended (ways b' w)) = true → refused s' = false → pend s' (refill_bucket_event v) = true).
Proof.
  intros W Hb Hr Hc Hk. destruct (refill_expires_ok no_excuse v s b r c k W Hb Hr Hc Hk) as ([] & s' & E & tick & b' & A & B & Ht & Hr' & Hbw).
  destruct (wo_bevs _ _ W v b Hb) as [_ B0]. destruct (bw_bucket _ _ _ B0 r c Hr Hc) as (k' & Hk' & Hl & _). simplify_eq.
  pose proof (gc_ok _ (wo_cfgs _ _ W c k Hk)) as Hkok. destruct (update_exact_aux (limit r) k tick Hkok Hl Ht) as [Eu _].
  exists s', tick, b', (with_limit (naive_update (limit r) k tick).2 r). rewrite Eu in *. cbn [with_limit limit].
  split; [done|]. split; [by apply (at_end _ _ _ _ _ W A B)|]. split; [apply A|]. do 3 (split; [done|]).
  intros w. specialize (Hbw w). unfold bw in Hbw. split; [done|]. split.
  - intros He Hpos. rewrite Hbw, LIM_update, bool_decide_true by done. pose proof (co_rate _ Hkok w).
    unfold naive. rewrite (proj2 (Z.leb_gt _ 0)) by lia. apply andb_false_r.
  - intros Hw. apply (bw_timer _ _ _ B w Hw).
Qed.

(** When the timer of a group expires its bucket gets the rate for every tick that has passed; if
    it then holds the smallest share and every member's lock can be had, no member is suspended by the
    group any more, and no member has become suspended. *)
Theorem group_refill_resumes s g G :
  world_ok s → groups s !! g = Some G →
  ∃ s' tick G', bev_group_refill_callback_ trylock g s = Some (tt, s') ∧ world_ok s' ∧ 0 <= tick < 2 ^ 32 ∧
    groups s' !! g = Some G' ∧ members G' = members G ∧ rate_limit G' = (naive_update (rate_limit G) (rate_limit_cfg G) tick).2 ∧
    no_new_waits s s' ∧
    ((∀ i, trylock i = true) → ∀ w v b, min_share G <= LIM w (rate_limit G') → v ∈ members G → bevs s' !! v = Some b →
       has BEV_SUSPEND_BW_GROUP (suspended (ways b w)) = false).
Proof.
  intros W HG. destruct (group_refill_ok trylock no_excuse s g G W HG) as ([] & s' & E & W' & Hn & tick & G' & Ht & HG' & Hm & Hl & Hall).
  pose proof (wo_groups _ _ W g G HG) as Gok.
  destruct (update_exact_aux (rate_limit G) (rate_limit_cfg G) tick (gc_ok _ (go_cfg _ _ _ Gok)) (go_bucket _ _ _ Gok) Ht) as [Eu _].
  exists s', tick, G'. rewrite <- Eu. do 7 (split; [done|]). intros Hlock w v b Hle Hv Hb.
  destruct (Hall Hlock w v b Hle Hb) as [[]|Hw]; [|exact Hw].
  rewrite <- Hm in Hv. destruct (member_ok _ _ _ _ _ W' HG' Hv) as (b' & Hb' & Hg & _). congruence.
Qed.

End system.

(** ** Timers in a table

    A simple implementation of the timers: a table, and a clock that shows one second more at every
    reading. *)

(** For each timer that has been set up, is it pending?  The number of readings of the clock. *)
Record table := Table { entries : gmap nat bool; readings : nat }.
Definition index (x : timer) : nat := match x with refill_bucket_event v => 2 * v | master_refill_event g => 2 * g + 1 end.
Lemma index_inj x y : index x = index y → x = y.
Proof. destruct x, y; cbn; intros; f_equal; lia. Qed.
Definition set_entry (x : timer) (p : bool) (t : table) : table := Table (<[index x := p]> (entries t)) (readings t).

#[export] Instance table_timers : Timers table := {
  event_assign x _ t := Some (set_entry x false t);
  event_add x _ t := Some (0, set_entry x true t);
  event_del x t := Some (set_entry x false t);
  event_initialized t x := bool_decide (is_Some (entries t !! index x));
  timer_pending t x := default false (entries t !! index x);
  gettimeofday_cached t := Some (Timeval (1000 + Z.of_nat (readings t)) 0, Table (entries t) (S (readings t)))
}.

Lemma set_entry_other x y p t : y ≠ x → entries (set_entry x p t) !! index y = entries t !! index y.
Proof. intros Hne. cbn. apply lookup_insert_ne. intros E. by apply Hne, index_inj. Qed.
Lemma set_entry_init x y p t :
  is_Some (entries t !! index x) →
  bool_decide (is_Some (entries (set_entry x p t) !! index y)) = bool_decide (is_Some (entries t !! index y)).
Proof.
  intros Hx. apply bool_decide_ext. destruct (decide (y = x)) as [->|Hne]; [|by rewrite set_entry_other].
  cbn. rewrite lookup_insert_eq. split; eauto.
Qed.

#[export] Instance table_laws : TimersLaws table.
Proof.
  refine {| timers_ok _ := True; usable _ := True |}.
  - intros x t _. cbn. by destruct (entries t !! index x).
  - intros x p t _ _ _. eexists. split; [reflexivity|]. split; [done|]. cbn. rewrite lookup_insert_eq. do 2 (split; [done|]).
    intros y Hy. by rewrite lookup_insert_ne by (intros E; by apply Hy, index_inj).
  - intros x tv t _ Hi%bool_decide_eq_true _. eexists _, _. split; [reflexivity|]. split; [done|].
    split; [left; cbn; by rewrite lookup_insert_eq|]. split; [intros y; by apply set_entry_init|].
    intros y Hy. cbn -[set_entry]. by rewrite set_entry_other.
  - intros x t _ Hi%bool_decide_eq_true. eexists. split; [reflexivity|]. split; [done|].
    split; [cbn; by rewrite lookup_insert_eq|]. split; [intros y; by apply set_entry_init|].
    intros y Hy. cbn -[set_entry]. by rewrite set_entry_other.
  - intros t _. eexists _, _. split; [reflexivity|]. by split.
Defined.

(** ** A program *)

(** Two bufferevents that read and write. *)
Definition plain_bev : bufferevent_private :=
  Bufferevent_private (Z.lor EV_READ EV_WRITE) (λ _, Way 0 MAX_SINGLE_READ_DEFAULT true) None.
Definition two_bevs : world table :=
  World (Table ∅ 0) (<[0%nat := plain_bev]> (<[1%nat := plain_bev]> ∅)) ∅ ∅ 0 0 false.

Lemma two_bevs_fresh : fresh_world two_bevs.
Proof.
  split; try done.
  intros v b Hb. assert (b = plain_bev) as ->.
  { cbn in Hb. apply lookup_insert_Some in Hb as [[_ <-]|[_ Hb]]; [done|]. by apply lookup_insert_Some in Hb as [[_ <-]|[_ ?]]. }
  split; [done|]. split; [by intros []|]. split; [by intros []|done].
Qed.

Definition never : nat → bool := λ _, true.
Definition rl_demo : list rl_call :=
  [call_new_cfg 100 200 100 200 None; call_set_rate_limit 0 (Some 0%nat); call_group_new 0; call_add_to_group 0 2;
   call_add_to_group 1 2; call_transferred false 0 130; call_transferred false 1 60; call_get_max false 1; call_refill 0;
   call_group_refill 2; call_get_max false 0; call_set_rate_limit 0 None; call_remove_from_group 0].

(** A call is allowed, by evaluation; then it is executed. *)
Ltac demo_allowed := repeat match goal with
  | |- is_Some _ => eexists; vm_compute; reflexivity
  | |- _ ∧ _ => split
  | |- ∃ _, _ => eexists
  | |- _ → _ => let E := fresh in intros E; vm_compute in E; try (discriminate E); try (injection E as <-)
  | |- ∀ _, _ => intros ?
  | |- _ = _ => vm_compute; reflexivity
  | |- _ => done
  | |- _ => vm_compute; intros; discriminate
  end.
Ltac demo_step := cbn [rl_obeys]; split;
  [ cbn [rl_allowed]; demo_allowed |
    let s' := fresh in let E := fresh in intros s' E; vm_compute in E; injection E as <- ].
Lemma rl_demo_obeys : rl_obeys never never (Timeval 0 0) 0 rl_demo two_bevs.
Proof. unfold rl_demo. do 13 demo_step. exact I. Qed.

(** ** The theorems on this program *)

Lemma rl_obeys_app {T} `{TimersLaws T} mm trylock seed_time pid l1 l2 (s : world T) :
  rl_obeys mm trylock seed_time pid (l1 ++ l2) s → rl_obeys mm trylock seed_time pid l1 s.
Proof. revert s. induction l1 as [|c l1 IH]; intros s; [done|]. cbn. intros [Hc Hl]. split; [done|]. auto. Qed.

(** The world after the first [n] calls. *)
Definition demo_world (n : nat) : world table :=
  match rl_run never never (Timeval 0 0) 0 (take n rl_demo) two_bevs with Some (_, s) => s | None => two_bevs end.
Lemma demo_world_ok n : world_ok (demo_world n).
Proof.
  assert (Ho : rl_obeys never never (Timeval 0 0) 0 (take n rl_demo) two_bevs).
  { apply (rl_obeys_app never never (Timeval 0 0) 0 _ (drop n rl_demo)). rewrite take_drop. apply rl_demo_obeys. }
  destruct (rl_run_ok never never (Timeval 0 0) 0 _ two_bevs (fresh_ok _ two_bevs_fresh) Ho) as ([] & s' & E & W).
  unfold demo_world. by rewrite E.
Qed.

(** What is seen of a bufferevent: its bucket, and which conditions suspend a direction. *)
Definition bucket_of (v : nat) (s : world table) : option ev_token_bucket := b ← bevs s !! v; limit <$> rate_limiting b.
Definition suspended_by (w : bool) (v : nat) (s : world table) : option Z := b ← bevs s !! v; Some (suspended (ways b w)).


(** The bucket holds 200 bytes; the share of one of the two members is 55, but 64 at least. *)
Lemma get_rlim_max_positive_witness :
  suspended_by false 0 (demo_world 10) = Some 0 ∧
  ∃ n s', bufferevent_get_rlim_max_ 0 false (demo_world 10) = Some (n, s') ∧ world_ok s' ∧ 1 <= n ∧ n = 64.
Proof.
  split; [vm_compute; reflexivity|].
  assert (∃ b, bevs (demo_world 10) !! 0%nat = Some b ∧ max_single (ways b false) = MAX_SINGLE_READ_DEFAULT ∧ suspended (ways b false) = 0)
    as (b & Hb & Hm & Hs) by (eexists; split_and!; vm_compute; reflexivity).
  destruct (get_rlim_max_positive (demo_world 10) 0 b false (demo_world_ok 10) Hb ltac:(by rewrite Hm))
    as (n & s' & b' & E & W & _ & _ & _ & H).
  exists n, s'. split; [done|]. split; [done|]. assert (n = 64) as -> by (vm_compute in E; by injection E as <- _). lia.
Defined.

(** The bucket is in debt; two ticks make up for it. *)
Lemma refill_resumes_witness :
  suspended_by false 0 (demo_world 8) = Some (Z.lor BEV_SUSPEND_BW BEV_SUSPEND_BW_GROUP) ∧
  bucket_of 0 (demo_world 8) = Some (Ev_token_bucket (-30) 100 1000) ∧
  ∃ s' b', refill_expires 0 (demo_world 8) = Some (tt, s') ∧ world_ok s' ∧ bevs s' !! 0%nat = Some b' ∧
    has BEV_SUSPEND_BW (suspended (ways b' false)) = false ∧ bucket_of 0 s' = Some (Ev_token_bucket 170 200 1002).
Proof.
  split; [vm_compute; reflexivity|]. split; [vm_compute; reflexivity|].
  assert (∃ b r c k, bevs (demo_world 8) !! 0%nat = Some b ∧ rate_limiting b = Some r ∧ cfg r = Some c ∧
    cfgs (demo_world 8) !! c = Some k) as (b & r & c & k & Hb & Hr & Hc & Hk) by (do 4 eexists; split_and!; vm_compute; reflexivity).
  destruct (refill_resumes (demo_world 8) 0 b r c k (demo_world_ok 8) Hb Hr Hc Hk)
    as (s' & tick & b' & r' & E & W & Hb' & _ & Hr' & _ & H).
  exists s', b'. split; [done|]. split; [done|]. split; [done|].
  assert (Hl : bucket_of 0 s' = Some (Ev_token_bucket 170 200 1002)) by (vm_compute in E; injection E as <-; vm_compute; reflexivity).
  split; [|done]. rewrite (proj1 (H false)). unfold bucket_of in Hl. rewrite Hb' in Hl. cbn [mbind option_bind] in Hl.
  rewrite Hr' in Hl. cbn in Hl. injection Hl as ->. apply andb_false_r.
Defined.

(** Both members go on when the group's bucket holds the smallest share again. *)
Lemma group_refill_resumes_witness :
  suspended_by false 1 (demo_world 9) = Some BEV_SUSPEND_BW_GROUP ∧
  ∃ s', bev_group_refill_callback_ never 2 (demo_world 9) = Some (tt, s') ∧ world_ok s' ∧
    ∀ b, bevs s' !! 1%nat = Some b → has BEV_SUSPEND_BW_GROUP (suspended (ways b false)) = false.
Proof.
  split; [vm_compute; reflexivity|].
  assert (Hd : (match groups (demo_world 9) !! 2%nat with Some G => (members G, min_share G) | None => ([], 0) end) = ([1%nat; 0%nat], 64))
    by (vm_compute; reflexivity).
  destruct (groups (demo_world 9) !! 2%nat) as [G|] eqn:HG; [injection Hd as Hm Hs|discriminate Hd].
  destruct (group_refill_resumes never (demo_world 9) 2 G (demo_world_ok 9) HG)
    as (s' & tick & G' & E & W & _ & HG' & _ & _ & _ & H).
  exists s'. split; [done|]. split; [done|]. intros b Hb. apply (H (λ _, eq_refl) false 1%nat b); [|rewrite Hm; by left|done].
  rewrite Hs. clear H W. vm_compute in E. injection E as <-. vm_compute in HG'. injection HG' as <-. vm_compute. discriminate.
Defined.
