(* ===== verification/EventApi.v ===== *)
(** * Adding and deleting events

    event_add, event_del, event_active and the other functions of the interface keep the base
    consistent (EventBaseOk.v) and never fail an assertion; what they answer and what they leave of
    the event. *)

From S2P Require Import Prelude Timeval Event MinHeap EvMap EventBase EventBaseOk.

(** ** An event on its way through a function *)

(** The four flags about queues. *)
Definition bits (c : event_callback) : bool * bool * bool * bool :=
  (has EVLIST_TIMEOUT (evcb_flags c), has EVLIST_INSERTED (evcb_flags c),
   has EVLIST_ACTIVE (evcb_flags c), has EVLIST_ACTIVE_LATER (evcb_flags c)).

(** From [b] to [b1] nothing but the flags of the event [ev] at [x], now [c], has changed. *)
Record stage (x : nat) (ev : event) (b : event_base) (c : event_callback) (b1 : event_base) : Prop := {
  st_ok : base_ok b1;
  st_touched : touched (of_event x) b b1;
  st_loop : loop b1 = loop b;
  st_event : has_event b1 x (with_evcallback c ev);
  st_requeued : requeued (ev_evcallback ev) c
}.

Lemma stage_start x ev b : base_ok b → evs b !! x = Some ev → stage x ev b (ev_evcallback ev) b.
Proof.
  intros Hok Hx. split; [done|apply touched_refl|done| |apply requeued_refl].
  exists (ev_timeout_pos ev). rewrite Hx. by destruct ev.
Qed.

Lemma stage_cb x ev b c b1 : stage x ev b c b1 → callback_at b1 (of_event x) = Some c.
Proof. intros [_ _ _ [pos Hx] _]. cbn. by rewrite Hx. Qed.

(** The next step clears or sets a flag. *)
Lemma stage_next x ev b c b1 c' b2 :
  stage x ev b c b1 → base_ok b2 → touched (of_event x) b1 b2 → loop b2 = loop b1 →
  has_event b2 x (with_evcallback c' ev) → requeued c c' → stage x ev b c' b2.
Proof.
  intros [] ? ? Hl ? ?. split; [done|by eapply touched_trans|by rewrite Hl|done|by eapply requeued_trans].
Qed.

Lemma stage_moved x ev b c b1 c' b2 :
  stage x ev b c b1 → base_ok b2 → moved (of_event x) c' b1 b2 → loop b2 = loop b1 → requeued c c' →
  stage x ev b c' b2.
Proof.
  intros Hs Hok Hm Hl Hr. eapply stage_next; [exact Hs|done|by eapply moved_touched|done| |done].
  destruct (st_event _ _ _ _ _ Hs) as [pos Hx]. exists pos. by rewrite (moved_event _ _ _ _ _ Hx Hm).
Qed.

(** A slot of the heap is free. *)
Definition room (b : event_base) : Prop := heap_n (timeheap b) < heap_a (timeheap b).

(** Each of the four steps of event_del_nolock_, guarded by the flags at its start. *)
Lemma stage_del_timeout x ev b c b1 t :
  stage x ev b c b1 → has EVLIST_TIMEOUT (evcb_flags c) = t →
  wp (when t (event_queue_remove_timeout x)) b1 (λ _ b2, ∃ c', stage x ev b c' b2 ∧
    bits c' = (false, (bits c).1.1.2, (bits c).1.2, (bits c).2) ∧
    (t = true ∧ tv_normal (ev_timeout ev) → room b2) ∧
    (¬ (t = true ∧ tv_normal (ev_timeout ev)) → timeheap b2 = timeheap b1)).
Proof.
  intros Hs Ht. apply wp_when; intros ->.
  - destruct (st_event _ _ _ _ _ Hs) as [pos Hx].
    eapply wp_mono; [by apply (remove_timeout_ok x _ _ (st_ok _ _ _ _ _ Hs) Hx)|].
    intros _ b2 (Hok & Htc & Hl & Hev & Hroom & Hheap). exists (drop_flag EVLIST_TIMEOUT c).
    split; [|split; [|split; [by intros [_ ?]; apply Hroom|intros Hn; apply Hheap; intros ?; by apply Hn]]].
    + eapply stage_next; [exact Hs|done|done|done|exact Hev|apply requeued_drop; auto with flags].
    + unfold bits. by flags.
  - exists c. split; [done|]. split; [|by split; [intros [? _]|]]. unfold bits. by rewrite Ht.
Qed.

Lemma stage_del_active x ev b c b1 :
  stage x ev b c b1 → has EVLIST_ACTIVE (evcb_flags c) = true →
  wp (event_queue_remove_active (of_event x)) b1 (λ _ b2, ∃ c', stage x ev b c' b2 ∧
    bits c' = ((bits c).1.1.1, (bits c).1.1.2, false, (bits c).2) ∧ timeheap b2 = timeheap b1).
Proof.
  intros Hs Ha. eapply wp_mono; [apply (remove_active_ok _ c); [by destruct Hs|by eapply stage_cb|done]|].
  intros _ b2 (Hok & Hm & Hl). exists (drop_flag EVLIST_ACTIVE c). split; [|split].
  - eapply stage_moved; [exact Hs|done|exact Hm|done|apply requeued_drop; auto with flags].
  - unfold bits. by flags.
  - by destruct Hm as (_ & _ & _ & _ & _ & -> & _).
Qed.

Lemma stage_del_later x ev b c b1 :
  stage x ev b c b1 → has EVLIST_ACTIVE_LATER (evcb_flags c) = true →
  wp (event_queue_remove_active_later (of_event x)) b1 (λ _ b2, ∃ c', stage x ev b c' b2 ∧
    bits c' = ((bits c).1.1.1, (bits c).1.1.2, (bits c).1.2, false)).
Proof.
  intros Hs Ha. eapply wp_mono; [apply (remove_active_later_ok _ c); [by destruct Hs|by eapply stage_cb|done]|].
  intros _ b2 (Hok & Hm & Hl). exists (drop_flag EVLIST_ACTIVE_LATER c). split.
  - eapply stage_moved; [exact Hs|done|exact Hm|done|apply requeued_drop; auto with flags].
  - unfold bits. by flags.
Qed.

(** The callback leaves whichever of the two queues it is on. *)
Lemma stage_deactivate x ev b c b1 a l :
  stage x ev b c b1 → has EVLIST_ACTIVE (evcb_flags c) = a → has EVLIST_ACTIVE_LATER (evcb_flags c) = l →
  wp (if a then event_queue_remove_active (of_event x)
      else when l (event_queue_remove_active_later (of_event x))) b1 (λ _ b2, ∃ c', stage x ev b c' b2 ∧
    bits c' = ((bits c).1.1.1, (bits c).1.1.2, false, false)).
Proof.
  intros Hs Ha Hl. pose proof (not_both _ _ _ (st_ok _ _ _ _ _ Hs) (stage_cb _ _ _ _ _ Hs)) as Hnb.
  destruct a.
  - eapply wp_mono; [by apply (stage_del_active x ev b c)|]. intros _ b2 (c' & Hs' & Hb & _). exists c'.
    split; [done|]. rewrite Hb. unfold bits. cbn. rewrite Ha in Hnb. cbn in Hnb. by rewrite Hnb.
  - apply wp_when; intros ->.
    + eapply wp_mono; [by apply (stage_del_later x ev b c)|]. intros _ b2 (c' & Hs' & Hb). exists c'.
      split; [done|]. rewrite Hb. unfold bits. cbn. by rewrite Ha.
    + exists c. split; [done|]. unfold bits. cbn. by rewrite Ha, Hl.
Qed.

Lemma stage_abort x ev b c b1 g :
  stage x ev b c b1 → (g = true → has EV_SIGNAL (ev_events ev) = true) →
  wp (when g (abort_calls x)) b1 (λ _ b2, stage x ev b c b2 ∧ b2 = with_signal_frame (signal_frame b2) b1).
Proof.
  intros Hs Hg. apply wp_when; intros Hgv; [|split; [done|by destruct b1]].
  destruct (st_event _ _ _ _ _ Hs) as [pos Hx].
  eapply wp_mono; [apply (abort_calls_ok x _ _ (st_ok _ _ _ _ _ Hs) Hx); cbn; auto|].
  intros _ b2 (Hok & E & Hf1 & Hf2 & Hf3). split; [|done]. eapply stage_next; [exact Hs|done| |by rewrite E| |apply requeued_refl].
  - split; try done; try by rewrite E. intros Hno. apply Hf3. intros k. by apply Hno.
  - exists pos. by rewrite E.
Qed.

(** ** event_del *)

Definition idle (c : event_callback) : Prop := bits c = (false, false, false, false).

(** event_del_nolock_ takes the event off everything. *)
Lemma del_nolock_ok backend x even ev b :
  base_ok b → evs b !! x = Some ev →
  wp (event_del_nolock_ backend x even) b (λ r b', if negb even && has EVLIST_FINALIZING (ev_flags ev)
    then r = 0 ∧ b' = b else ∃ c, stage x ev b c b' ∧ idle c).
Proof.
  intros Hok Hx. pose proof (bo_wf _ (bo_items _ Hok) x ev Hx) as [_ Hall Hbase _ _ _ _ _].
  unfold event_del_nolock_. apply wp_bind, (wp_get_event x ev); [done|]. rewrite Hbase. cbn [negb].
  destruct (negb even && has EVLIST_FINALIZING (ev_flags ev)); [by apply wp_ret|].
  apply wp_bind, wp_assert; [by rewrite Hall|].
  pose proof (stage_start x ev b Hok Hx) as S0. apply wp_bind.
  eapply wp_mono; [apply (stage_abort x ev b _ b _ S0); done|]. intros _ b1 [S1 _].
  apply wp_bind. eapply wp_mono; [apply (stage_del_timeout x ev b _ b1 _ S1); done|]. intros _ b2 (c2 & S2 & B2 & _).
  apply wp_bind. eapply wp_mono; [apply (stage_deactivate x ev b c2 b2 _ _ S2)|].
  1,2: unfold bits in B2; cbn in B2; by simplify_eq.
  intros _ b3 (c3 & S3 & B3). rewrite B2 in B3. cbn in B3. unfold bits in B3.
  destruct (has EVLIST_INSERTED (ev_flags ev)) eqn:Hi.
  - destruct (st_event _ _ _ _ _ S3) as [pos Hx3].
    eapply wp_mono; [apply (remove_from_list_ok backend x _ ev b3 (st_ok _ _ _ _ _ S3) Hx3); [cbn|done..]|].
    { simplify_eq. unfold ev_flags in *. cbn. congruence. }
    intros r b4 (Hok4 & Ht4 & Hl4 & _ & _ & Hx4). exists (drop_flag EVLIST_INSERTED c3). split.
    + eapply stage_next; [exact S3|done|done|done|exists pos; exact Hx4|apply requeued_drop; auto with flags].
    + unfold idle, bits. flags. simplify_eq. congruence.
  - apply wp_ret. exists c3. split; [done|]. unfold idle, bits. rewrite B3. unfold ev_flags in Hi. by rewrite Hi.
Qed.

(** ** event_add *)

Definition clock_ok (clock : nat → timeval) : Prop := ∀ k, tv_normal (clock k).
Definition cache_ok (b : event_base) : Prop := tv_sec (tv_cache (time b)) ≠ 0 → tv_normal (tv_cache (time b)).

Lemma base_ok_time b t : base_ok b → base_ok (with_time t b).
Proof. intros [[] ? ? ? ? ? ?]. split; [by split|done..]. Qed.

(** The deadline of a valid timeout is valid, and goes where the timeout says. *)
Lemma deadline_normal tv now abs n : tv_normal tv → tv_normal now →
  tv_normal (deadline tv now abs (is_common_timeout tv n)).
Proof.
  intros Ht Hn. unfold deadline. destruct abs; [done|]. rewrite normal_not_common by done.
  by apply timeradd_normal.
Qed.

Lemma common_fields i tv : common_at i tv → tv_usec tv = (1280 + i) * 2 ^ 20 + tv_usec (real_timeout tv).
Proof.
  intros [Hi _]. unfold real_timeout. cbn [tv_usec]. rewrite land_ones_mod, <- Hi, Z.mul_comm. by apply Z_div_mod_eq_full.
Qed.

Lemma deadline_common tv now i n :
  common_at i tv → 0 <= i < n → n <= MAX_COMMON_TIMEOUTS → tv_normal now →
  common_at i (deadline tv now false (is_common_timeout tv n)) ∧
  real_timeout (deadline tv now false (is_common_timeout tv n)) = evutil_timeradd now (real_timeout tv).
Proof.
  intros Hat Hi Hn Hnow. destruct (common_at_idx i tv n Hat Hi Hn) as [-> _]. unfold deadline.
  pose proof (timeradd_normal now (real_timeout tv) Hnow (proj2 Hat)) as Hs. set (s := evutil_timeradd _ _) in *.
  assert (E : Z.lor (tv_usec s) (Z.land (tv_usec tv) (Z.lnot MICROSECONDS_MASK)) = (1280 + i) * 2 ^ 20 + tv_usec s).
  { rewrite land_lnot_mask, (proj1 Hat), Z.lor_comm. apply lor_low; [done|]. unfold tv_normal in Hs. lia. }
  rewrite E. assert (Hr : real_timeout (Timeval (tv_sec s) ((1280 + i) * 2 ^ 20 + tv_usec s)) = s).
  { unfold real_timeout. cbn [tv_sec tv_usec]. rewrite land_ones_mod, Z.add_comm, Z_mod_plus_full, Z.mod_small
      by (unfold tv_normal in Hs; lia). by destruct s. }
  split; [|done]. split; [|by rewrite Hr]. cbn [tv_usec]. rewrite Z.div_add_l, Z.div_small by (unfold tv_normal in Hs; lia). lia.
Qed.

Lemma deadline_valid tv now abs n :
  valid_tv n tv → n <= MAX_COMMON_TIMEOUTS → tv_normal now →
  valid_tv n (deadline tv now abs (is_common_timeout tv n)) ∧
  (tv_normal (deadline tv now abs (is_common_timeout tv n)) ↔ tv_normal tv).
Proof.
  intros [Ht|(i & Hi & Hat)] Hn Hnow.
  - pose proof (deadline_normal tv now abs n Ht Hnow). split; [by left|done].
  - assert (Hc : common_at i (deadline tv now abs (is_common_timeout tv n))).
    { destruct abs; [exact Hat|]. by apply deadline_common. }
    split; [right; eauto|]. split; intros H; [by destruct (normal_not_at i _ H (proj1 Hi))|by destruct (normal_not_at i _ H (proj1 Hi))].
Qed.

(** The timeout of a persistent event is kept for its next round. *)
Definition rearmed (ev : event) (tv : timeval) (abs : bool) : ev_union :=
  if (ev_closure ev =? EV_CLOSURE_EVENT_PERSIST) && negb abs then ev_io tv else ev_ ev.

(** What event_add leaves of an event whose flags were [ev]'s: [t] and [i], is it now timed and
    inserted; [a], is it still active; [u], the union. *)
Record added (ev ev' : event) (t i a : bool) (u : ev_union) : Prop := {
  ad_requeued : requeued (ev_evcallback ev) (ev_evcallback ev');
  ad_bits : bits (ev_evcallback ev') = (t, i, a, has EVLIST_ACTIVE_LATER (ev_flags ev));
  ad_fd : ev_fd ev' = ev_fd ev;
  ad_events : ev_events ev' = ev_events ev;
  ad_res : ev_res ev' = ev_res ev;
  ad_ev : ev_ ev' = u
}.

Lemma write_persist_ok b x ev tv :
  base_ok b → evs b !! x = Some ev → ev_closure ev = EV_CLOSURE_EVENT_PERSIST →
  base_ok (with_evs (<[x := with_ev_ (ev_io tv) ev]> (evs b)) b).
Proof.
  intros Hok Hx Hc. pose proof (bo_wf _ (bo_items _ Hok) x ev Hx) as Hwf.
  destruct (ew_persist _ Hwf Hc) as [Hs _].
  apply (store_write_ok b x ev); [done|done|by split_and!|..].
  - destruct Hwf. split; try done; cbn; try congruence; eauto.
  - apply frame_ok_write; [by destruct (bo_items _ Hok)|]. intros n k. cbn. congruence.
Qed.

Lemma write_timeout_ok b x ev tv :
  base_ok b → evs b !! x = Some ev → has EVLIST_TIMEOUT (ev_flags ev) = false →
  base_ok (with_evs (<[x := with_timeout tv ev]> (evs b)) b).
Proof.
  intros Hok Hx Ht. pose proof (bo_wf _ (bo_items _ Hok) x ev Hx) as [].
  apply (store_write_ok b x ev); [done|done|split_and!; try done; congruence|by split|].
  apply frame_ok_write; [by destruct (bo_items _ Hok)|]. intros n k. by apply (bo_frame _ (bo_items _ Hok) x ev).
Qed.

Lemma gettime_ok clock b (Q : timeval → event_base → Prop) :
  clock_ok clock → cache_ok b →
  (∀ now t, tv_normal now → cache_ok (with_time t b) → tv_cache t = tv_cache (time b) →
     (tv_sec (tv_cache (time b)) ≠ 0 → now = tv_cache (time b)) → Q now (with_time t b)) →
  wp (gettime clock) b Q.
Proof.
  intros Hc Hb HQ. unfold wp, gettime. destruct (Z.eqb_spec (tv_sec (tv_cache (time b))) 0) as [H0|H0]; cbn [negb].
  - eexists _, _. split; [done|]. apply HQ; [apply Hc|exact Hb|done|done].
  - eexists _, _. split; [done|]. replace b with (with_time (time b) b) at 2 by by destruct b.
    apply HQ; [auto|by destruct b|done..].
Qed.

(** The active callback of an earlier timeout is taken back. *)
Lemma stage_cancel x ev b c b1 :
  stage x ev b c b1 →
  wp (when (has EVLIST_ACTIVE (evcb_flags c) && has EV_TIMEOUT (ev_res ev))
    (when (has EV_SIGNAL (ev_events ev)) (abort_calls x);;
     event_queue_remove_active (of_event x))) b1 (λ _ b2, ∃ c', stage x ev b c' b2 ∧
    bits c' = ((bits c).1.1.1, (bits c).1.1.2, (bits c).1.2 && negb (has EV_TIMEOUT (ev_res ev)), (bits c).2) ∧
    timeheap b2 = timeheap b1).
Proof.
  intros Hs. apply wp_when; intros Hg.
  - apply andb_true_iff in Hg as [Ha Hr]. apply wp_bind.
    eapply wp_mono; [apply (stage_abort x ev b c b1 _ Hs); done|]. intros _ b2 [Hs2 E].
    eapply wp_mono; [by apply (stage_del_active x ev b c b2)|]. intros _ b3 (c' & Hs3 & Hb & Hh).
    exists c'. split; [done|]. rewrite Hb, Hr, andb_false_r, Hh, E. done.
  - exists c. split; [done|]. split; [|done]. unfold bits. cbn. apply andb_false_iff in Hg as [Ha|Hr].
    + by rewrite Ha.
    + by rewrite Hr, andb_true_r.
Qed.

Lemma touched_common p b b' : touched p b b' → n_common_timeouts b' = n_common_timeouts b.
Proof. intros [_ _ H _ _ _]. unfold n_common_timeouts. apply (f_equal length) in H. rewrite !length_map in H. by rewrite H. Qed.
Lemma touched_cache p b b' : touched p b b' → cache_ok b → cache_ok b'.
Proof. intros []. unfold cache_ok. by rewrite to_cache. Qed.

Section add.
Context (mm : nat → Z → bool) (backend : history → backend_call → bool) (fdinfo_len : Z)
  (clock : nat → timeval) (clock_good : clock_ok clock).

Abbreviation add_timeout := (add_timeout mm clock).
Abbreviation event_add_rec := (event_add_rec mm backend fdinfo_len clock).

(** After the timer has been inserted: the timer of its common queue is set when it is the first. *)
Definition after_insert (add : nat → option timeval → bool → EM Z) (x : nat) (d : timeval) (common : bool) : EM unit :=
  if common then
    ctl ← get_common_timeout_list d;
    match ctl_events ctl with
    | y :: _ => when (bool_decide (x = y)) (common_timeout_schedule add ctl x)
    | [] => mret tt
    end
  else lift (λ b, min_heap_elt_is_top_ (evs b) x);; mret tt.

(** There is room in the heap for a timer that is to go there: a free slot, or its own. *)
Definition may_rearm (b : event_base) (ev : event) (tv : timeval) : Prop :=
  tv_normal tv → room b ∨ has EVLIST_TIMEOUT (ev_flags ev) = true ∧ tv_normal (ev_timeout ev).

(** The event before its deadline is set: it is not timed, and no callback of an earlier timeout
    waits. *)
Definition disarmed (ev : event) (tv : timeval) (abs : bool) (b0 b : event_base) (x : nat) (ev' : event) : Prop :=
  base_ok b ∧ touched (of_event x) b0 b ∧ loop b = loop b0 ∧ evs b !! x = Some ev' ∧
  added ev ev' false (has EVLIST_INSERTED (ev_flags ev))
    (has EVLIST_ACTIVE (ev_flags ev) && negb (has EV_TIMEOUT (ev_res ev))) (rearmed ev tv abs).

Lemma disarm_ok x tv abs ev b (m : EM unit) (Q : unit → event_base → Prop) :
  base_ok b → evs b !! x = Some ev → may_rearm b ev tv →
  (∀ b' ev', disarmed ev tv abs b b' x ev' → (tv_normal tv → room b') → wp m b' Q) →
  wp (when ((ev_closure ev =? EV_CLOSURE_EVENT_PERSIST) && negb abs) (upd_event (with_ev_ (ev_io tv)) x);;
      when (has EVLIST_TIMEOUT (ev_flags ev)) (event_queue_remove_timeout x);;
      ev ← get_event x;
      when (has EVLIST_ACTIVE (ev_flags ev) && has EV_TIMEOUT (ev_res ev))
        (when (has EV_SIGNAL (ev_events ev)) (abort_calls x);; event_queue_remove_active (of_event x));;
      m) b Q.
Proof.
  intros Hok Hx Hroom HQ. apply wp_bind.
  assert (Hstep1 : wp (when ((ev_closure ev =? EV_CLOSURE_EVENT_PERSIST) && negb abs) (upd_event (with_ev_ (ev_io tv)) x)) b
    (λ _ b1, base_ok b1 ∧ touched (of_event x) b b1 ∧ loop b1 = loop b ∧ timeheap b1 = timeheap b ∧
      evs b1 !! x = Some (with_ev_ (rearmed ev tv abs) ev))).
  { unfold rearmed. apply wp_when; intros Hg.
    - rewrite Hg. apply andb_true_iff in Hg as [Hg%Z.eqb_eq _]. apply (wp_upd_event _ _ _ ev); [done|].
      split; [by apply write_persist_ok|]. split; [by apply (touched_write x b ev)|]. split_and!; try done.
      apply lookup_insert_eq.
    - rewrite Hg, Hx. split_and!; try done. by destruct ev. }
  eapply wp_mono; [exact Hstep1|]. intros _ b1 (Hok1 & Ht1 & Hl1 & Hh1 & Hx1). clear Hstep1.
  pose proof (stage_start x _ b1 Hok1 Hx1) as S1.
  apply wp_bind. eapply wp_mono; [apply (stage_del_timeout x _ _ _ b1 _ S1); done|].
  intros _ b2 (c2 & S2 & B2 & R2 & K2). destruct (st_event _ _ _ _ _ S2) as [pos2 Hx2].
  apply wp_bind, (wp_get_event x _ _ _ Hx2). apply wp_bind.
  eapply wp_mono; [apply (stage_cancel x _ _ c2 b2 S2)|]. intros _ b3 (c3 & S3 & B3 & H3).
  rewrite B2 in B3. cbn [fst snd] in B3. destruct (st_event _ _ _ _ _ S3) as [pos3 Hx3].
  eapply HQ.
  - split; [apply S3|]. split; [eapply touched_trans; [exact Ht1|apply S3]|].
    split; [by rewrite (st_loop _ _ _ _ _ S3)|]. split; [exact Hx3|].
    split; try done. apply S3.
  - intros Hn. unfold room. rewrite H3. destruct (Hroom Hn) as [Hr|Hr]; [|by apply R2].
    destruct (decide (has EVLIST_TIMEOUT (ev_flags ev) = true ∧ 0 <= tv_usec (ev_timeout ev) < 1000000)) as [Hd|Hd];
      [by apply R2|]. rewrite K2 by done. by rewrite Hh1.
Qed.

Lemma add_timeout_ok add x tv abs ev b (Q : unit → event_base → Prop) :
  base_ok b → cache_ok b → evs b !! x = Some ev → valid_tv (n_common_timeouts b) tv → may_rearm b ev tv →
  (∀ now b', tv_normal now → base_ok b' → touched (of_event x) b b' → loop b' = loop b →
     (tv_sec (tv_cache (time b)) ≠ 0 → now = tv_cache (time b)) → let d := deadline tv now abs (is_common tv b) in
     (∃ ev', evs b' !! x = Some ev' ∧ ev_timeout ev' = d ∧
        added ev ev' true (has EVLIST_INSERTED (ev_flags ev))
          (has EVLIST_ACTIVE (ev_flags ev) && negb (has EV_TIMEOUT (ev_res ev))) (rearmed ev tv abs)) →
     wp (after_insert add x d (is_common tv b)) b' Q) →
  wp (add_timeout add x tv abs) b Q.
Proof.
  intros Hok Hcache Hx Hv Hroom HQ. unfold EventBase.add_timeout. apply wp_bind, (wp_get_event x ev); [done|].
  pose proof (bo_heap _ Hok) as (? & _ & Hlo0). pose proof (lo_max _ _ _ Hlo0) as Hmax. clear Hlo0.
  eapply disarm_ok; [done..|]. intros b3 ev3 (Hok3 & Ht3 & Hl3 & Hx3 & Had) Hroom3.
  pose proof (touched_common _ _ _ Ht3) as Hn3.
  apply wp_bind, gettime_ok; [done|by eapply touched_cache|]. intros now t Hnow Hc3 Et Hfresh.
  apply wp_bind, wp_gets.
  assert (Ecom : is_common tv (with_time t b3) = is_common tv b).
  { unfold is_common, n_common_timeouts in *. bcbn. by rewrite Hn3. }
  rewrite Ecom. set (d := deadline tv now abs (is_common tv b)).
  destruct (deadline_valid tv now abs _ Hv Hmax Hnow) as [Hdv Hdn].
  apply wp_bind, (wp_upd_event _ x (with_time t b3) ev3 _ Hx3).
  assert (Hnt : has EVLIST_TIMEOUT (ev_flags ev3) = false) by (destruct Had as [_ Hb _ _ _ _]; unfold bits in Hb; by injection Hb).
  pose proof (write_timeout_ok (with_time t b3) x ev3 d (base_ok_time _ _ Hok3) Hx3 Hnt) as Hok4.
  bcbn. set (ev4 := with_timeout d ev3) in *. set (b4 := with_evs _ (with_time t b3)) in *.
  assert (Ht4 : touched (of_event x) b b4).
  { eapply touched_trans; [exact Ht3|]. eapply (touched_trans _ _ (with_time t b3)); [by apply touched_core|by apply (touched_write x (with_time t b3) ev3 ev4)]. }
  apply wp_bind. eapply wp_mono; [apply (insert_timeout_ok mm x ev4 b4 Hok4)|].
  - apply lookup_insert_eq.
  - exact Hnt.
  - unfold b4, n_common_timeouts in *. bcbn. by rewrite Hn3.
  - intros Hn. by apply Hroom3, Hdn.
  - intros _ b5 (Hok5 & Ht5 & Hl5 & [pos5 Hx5] & _). apply HQ; [done|done|by eapply touched_trans|by rewrite Hl5| |].
    + intros Hc. rewrite (to_cache _ _ _ Ht3) in Hfresh. auto.
    + eexists. split; [exact Hx5|]. split; [done|]. destruct Had as [A1 A2 A3 A4 A5 A6]. split; try done.
      * eapply requeued_trans; [exact A1|]. apply requeued_add; auto with flags.
      * unfold bits in *. cbn [ev_evcallback with_pos with_evcallback ev4 with_timeout]. flags. by injection A2 as _ -> -> ->.
Qed.
(** The timer of a common queue, which the base has allocated. *)
Definition ctl_timer (b : event_base) (y : nat) : Prop :=
  ∃ ctl, ctl ∈ common_timeout_queues b ∧ timeout_event ctl = y.
Definition timers_normal (b : event_base) : Prop :=
  ∀ y t, ctl_timer b y → pending (evs b) y = Some t → tv_normal t.

(** The callback of the event at [y] waits to be called. *)
Definition active_at (b : event_base) (y : nat) : Prop :=
  ∃ e, evs b !! y = Some e ∧ has EVLIST_ACTIVE (ev_flags e) = true.

Lemma active_core b b' y : core <$> evs b' !! y = core <$> evs b !! y → active_at b' y → active_at b y.
Proof.
  intros Hc (e & He & Ha). rewrite He in Hc. destruct (evs b !! y) as [e0|] eqn:E; [|done].
  apply (inj Some), core_eq in Hc. exists e0. split; [done|]. by rewrite Hc in Ha.
Qed.

(** Nothing but [x] and the timers of the common queues has changed, and of these none has become
    active. *)
Record outside (x : nat) (b b' : event_base) : Prop := {
  ou_events : ∀ y, y ≠ x → ¬ ctl_timer b y → core <$> evs b' !! y = core <$> evs b !! y;
  ou_alone : cbs b' = cbs b;
  ou_common : map (λ c, (duration c, timeout_event c)) (common_timeout_queues b') =
              map (λ c, (duration c, timeout_event c)) (common_timeout_queues b);
  ou_queues : nactivequeues b' = nactivequeues b;
  ou_cache : tv_cache (time b') = tv_cache (time b);
  ou_frame : frames (signal_frame b') = frames (signal_frame b) ∧
    fst <$> frame (signal_frame b') = fst <$> frame (signal_frame b);
  ou_current : current_event (loop b') = current_event (loop b);
  ou_points : ∀ y k, points b' y k → points b y k;
  ou_exact : (∀ y k, y = x ∨ ctl_timer b y → ¬ points b y k) → signal_frame b' = signal_frame b;
  ou_active : ∀ y, y ≠ x → active_at b' y → active_at b y
}.

Lemma ctl_timer_same b b' y :
  map (λ c, (duration c, timeout_event c)) (common_timeout_queues b') =
    map (λ c, (duration c, timeout_event c)) (common_timeout_queues b) → ctl_timer b' y ↔ ctl_timer b y.
Proof.
  assert (∀ b, ctl_timer b y ↔ ∃ d, (d, y) ∈ map (λ c, (duration c, timeout_event c)) (common_timeout_queues b)) as H.
  { intros b0. split.
    - intros (ctl & Hin & <-). exists (duration ctl). apply list_elem_of_fmap. eauto.
    - intros (d & (ctl & [= -> ->] & Hin)%list_elem_of_fmap). exists ctl. done. }
  intros E. by rewrite !H, E.
Qed.

Lemma touched_outside x y b b' :
  touched (of_event y) b b' → y = x ∨ ctl_timer b y ∧ (active_at b' y → active_at b y) → outside x b b'.
Proof.
  intros Ht Hy. pose proof Ht as [H1 H2 H3 H4 H5 H6 H7 H8 H9]. split; try done.
  - intros z Hz Hc. apply H1. intros [= ->]. by destruct Hy as [?|[? _]].
  - apply map_eq. intros k. by apply H2.
  - intros z k. by apply (touched_points _ _ _ _ _ Ht).
  - intros Hno. apply H9. intros z k [= ->]. apply Hno. destruct Hy as [?|[? _]]; auto.
  - intros z Hz. destruct (decide (z = y)) as [->|Hne]; [by destruct Hy as [?|[_ ?]]|].
    apply active_core, H1. congruence.
Qed.
Lemma outside_trans x b1 b2 b3 : outside x b1 b2 → outside x b2 b3 → outside x b1 b3.
Proof.
  intros [A1 A2 A3 A4 A5 A6 A7 A8 A9 A10] [B1 B2 B3 B4 B5 B6 B7 B8 B9 B10]. split; try congruence; [| | | |auto].
  - intros y Hy Hc. rewrite B1, A1; [done..|]. by rewrite ctl_timer_same by exact A3.
  - destruct A6, B6. split; congruence.
  - auto.
  - intros Hno. rewrite B9, A9; [done|done|]. intros y k Hy Hk. apply (Hno y k); [|by apply A8].
    by rewrite ctl_timer_same in Hy by exact A3.
Qed.

Lemma pending_core st st' y : core <$> st' !! y = core <$> st !! y → pending st' y = pending st y.
Proof. unfold pending. destruct (st' !! y) as [[]|], (st !! y) as [[]|]; cbn; intros [=]; simplify_eq; done. Qed.

(** Only [x] has changed, and it is none of these timers or it has a normal deadline. *)
Lemma timers_normal_touched x b b' :
  timers_normal b → touched (of_event x) b b' →
  (ctl_timer b x → ∀ t, pending (evs b') x = Some t → tv_normal t) → timers_normal b'.
Proof.
  intros Hn Ht Hx y t Hy. rewrite ctl_timer_same in Hy by apply Ht.
  destruct (decide (y = x)) as [->|Hne]; [by apply Hx|].
  rewrite (pending_core (evs b) (evs b')); [by apply Hn|]. apply Ht. congruence.
Qed.

Lemma heap_timer_top b x d :
  base_ok b → pending (evs b) x = Some d → tv_normal d → ∃ r, min_heap_elt_is_top_ (evs b) x = Some r.
Proof.
  intros Hok Hp Hn. destruct (bo_heap _ Hok) as (hs & Hr & Hlo).
  assert (x ∈ hs) as Hin by (apply (lo_heap _ _ _ Hlo); eauto).
  destruct (heap_rep_idx _ _ _ _ Hr Hin) as (i & _ & Hi). unfold min_heap_elt_is_top_. rewrite Hi. eauto.
Qed.
(** What is asked of event_add when it sets the timer of a common queue. *)
Definition sets_timer (add : nat → option timeval → bool → EM Z) : Prop :=
  ∀ b y t, base_ok b → cache_ok b → timers_normal b → ctl_timer b y → tv_normal t →
    wp (add y (Some t) true) b (λ _ b', base_ok b' ∧ timers_normal b' ∧ touched (of_event y) b b' ∧ loop b' = loop b ∧
      (active_at b' y → active_at b y)).

Lemma after_insert_normal_ok add x d b :
  base_ok b → pending (evs b) x = Some d → tv_normal d →
  wp (after_insert add x d false) b (λ _ b', b' = b).
Proof.
  intros Hok Hp Hn. destruct (heap_timer_top b x d Hok Hp Hn) as [r Hr]. cbn [after_insert].
  apply wp_bind. apply (wp_lift _ _ r); [done|]. by apply wp_ret.
Qed.

Lemma after_insert_common_ok add x d i b :
  sets_timer add → base_ok b → cache_ok b → timers_normal b → pending (evs b) x = Some d →
  0 <= i < n_common_timeouts b → common_at i d →
  wp (after_insert add x d true) b (λ _ b', base_ok b' ∧ timers_normal b' ∧ outside x b b' ∧ loop b' = loop b ∧
    core <$> evs b' !! x = core <$> evs b !! x).
Proof.
  intros Hadd Hok Hc Hn Hp Hi Hat. destruct (bo_heap _ Hok) as (hs & Hr & Hlo).
  destruct (common_at_idx i d _ Hat Hi (lo_max _ _ _ Hlo)) as [_ Hidx].
  destruct (common_queue b x d i) as (ctl & Hctl & Hin); [by exists hs|done|done|done|].
  cbn [after_insert]. unfold get_common_timeout_list. rewrite Hidx.
  apply wp_bind. apply (wp_lift _ _ ctl); [done|].
  assert (Hsame : base_ok b ∧ timers_normal b ∧ outside x b b ∧ loop b = loop b ∧
    core <$> evs b !! x = core <$> evs b !! x) by done.
  destruct (ctl_events ctl) as [|y l]; [by apply wp_ret|]. apply wp_when; intros Hy; [|done].
  unfold common_timeout_schedule.
  assert (∃ ev, evs b !! x = Some ev ∧ ev_timeout ev = d) as (ev & Hx & Hd).
  { unfold pending in Hp. destruct (evs b !! x) as [ev|]; [|done]. cbn in Hp. exists ev. split; [done|].
    destruct (has EVLIST_TIMEOUT (ev_flags ev)); [by simplify_eq|done]. }
  apply wp_bind, (wp_get_event x ev _ _ Hx). rewrite Hd. apply wp_bind.
  assert (Hct : ctl_timer b (timeout_event ctl)) by (exists ctl; split; [by eapply list_elem_of_lookup_2|done]).
  assert (Hne : x ≠ timeout_event ctl).
  { intros ->. by destruct (normal_not_at i d (Hn _ _ Hct Hp) (proj1 Hi)). }
  eapply wp_mono; [apply Hadd; [done|done|done|done|apply Hat]|]. intros _ b' (Hok' & Hn' & Ht' & Hl' & Ha').
  apply wp_ret. split_and!; try done; [eapply touched_outside; [exact Ht'|by right]|].
  apply Ht'. congruence.
Qed.

(** min_heap_reserve_: a slot is free, or the request was refused. *)
Lemma heap_reserve_ok b :
  base_ok b → wp (heap_reserve mm) b (λ r b', base_ok b' ∧ evs b' = evs b ∧ loop b' = loop b ∧
    common_timeout_queues b' = common_timeout_queues b ∧ time b' = time b ∧
    (∀ x, touched (of_event x) b b') ∧ (r = 0 ∧ room b' ∨ r = -1)).
Proof.
  intros Hok. destruct (bo_heap _ Hok) as (hs & Hr & Hlo).
  destruct (reserve_ok (mm (allocs (maps b))) _ _ _ Hr) as (r & h & E & Hcase);
    [eapply heap_size_bound; [exact Hr|apply Hok]|].
  eexists _, _. split; [unfold heap_reserve, min_heap_size_; rewrite Z.add_comm, E; done|].
  split; [|split_and!; try done].
  2:{ unfold room, next_alloc. bcbn. destruct Hcase as [(-> & _ & ?)|[-> _]]; [left; split; [done|lia]|by right]. }
  apply base_rest. split.
  - apply base_rest in Hok as [Hrest _]. by eapply rest_recore_ok.
  - exists hs. unfold next_alloc. bcbn. destruct Hcase as [(_ & ? & _)|(_ & -> & _)]; done.
Qed.
(** The conditions for which an event is put on the list of a descriptor or a signal. *)
Definition to_insert (ev : event) : bool :=
  has (Z.lor IO_EVENTS EV_SIGNAL) (ev_events ev) &&
  negb (has (Z.lor EVLIST_INSERTED (Z.lor EVLIST_ACTIVE EVLIST_ACTIVE_LATER)) (ev_flags ev)).

(** The deadline was reckoned from the cached time, or from a reading of the clock. *)
Definition armed (b : event_base) (ev' : event) (tv : timeval) (abs : bool) : Prop :=
  ∃ now, tv_normal now ∧ (tv_sec (tv_cache (time b)) ≠ 0 → now = tv_cache (time b)) ∧
    ev_timeout ev' = deadline tv now abs (is_common tv b).

(** The outcome of event_add. *)
Definition add_outcome (b : event_base) (x : nat) (ev : event) (tv : option timeval) (abs : bool)
    (r : Z) (b' : event_base) : Prop :=
  (r = -1 ∧ core <$> evs b' !! x = core <$> evs b !! x) ∨
  (r = 0 ∧ has EVLIST_FINALIZING (ev_flags ev) = false ∧ ∃ ev', evs b' !! x = Some ev' ∧
    added ev ev' (has EVLIST_TIMEOUT (ev_flags ev) || bool_decide (is_Some tv))
      (has EVLIST_INSERTED (ev_flags ev) || to_insert ev)
      (has EVLIST_ACTIVE (ev_flags ev) && negb (bool_decide (is_Some tv) && has EV_TIMEOUT (ev_res ev)))
      (match tv with Some tv => rearmed ev tv abs | None => ev_ ev end) ∧
    match tv with Some tv => armed b ev' tv abs | None => ev_timeout ev' = ev_timeout ev end).

Definition kept (x : nat) (b b' : event_base) : Prop :=
  base_ok b' ∧ timers_normal b' ∧ outside x b b' ∧ loop b' = loop b.

Lemma kept_refl x b : base_ok b → timers_normal b → kept x b b.
Proof. done. Qed.
Lemma kept_touched x b b1 b2 :
  kept x b b1 → base_ok b2 → touched (of_event x) b1 b2 → loop b2 = loop b1 →
  (ctl_timer b x → ∀ t, pending (evs b2) x = Some t → tv_normal t) → kept x b b2.
Proof.
  intros (Hok1 & Hn1 & Ho1 & Hl1) Hok2 Ht Hl2 Hx. split; [done|]. split; [|split; [|congruence]].
  - eapply timers_normal_touched; [done|done|]. intros Hc. apply Hx.
    by rewrite <- (ctl_timer_same b b1) by apply Ho1.
  - eapply outside_trans; [done|]. eapply touched_outside; [done|by left].
Qed.

Lemma kept_trans x b1 b2 b3 : kept x b1 b2 → kept x b2 b3 → kept x b1 b3.
Proof.
  intros (_ & _ & Ho1 & Hl1) (Hok & Hn & Ho2 & Hl2). split; [done|]. split; [done|].
  split; [by eapply outside_trans|congruence].
Qed.

(** What is asked of the timeout. *)
Definition may_add (b : event_base) (x : nat) (ev : event) (tv : option timeval) (abs : bool) : Prop :=
  match tv with
  | None => True
  | Some tv => valid_tv (n_common_timeouts b) tv ∧
      (has EVLIST_TIMEOUT (ev_flags ev) = true → may_rearm b ev tv) ∧ (ctl_timer b x → tv_normal tv)
  end.

(** The event has been put on its list, or need not be. *)
Lemma add_list_ok x ev b :
  base_ok b → evs b !! x = Some ev →
  wp (if to_insert ev then insert_on_list mm backend fdinfo_len x ev else mret 0) b (λ r b', base_ok b' ∧
    touched (of_event x) b b' ∧ loop b' = loop b ∧ timeheap b' = timeheap b ∧
    (r = -1 ∧ evs b' = evs b ∨ r = 0 ∧ ∃ ev', evs b' !! x = Some ev' ∧
       ev_timeout ev' = ev_timeout ev ∧
       added ev ev' (has EVLIST_TIMEOUT (ev_flags ev)) (has EVLIST_INSERTED (ev_flags ev) || to_insert ev)
         (has EVLIST_ACTIVE (ev_flags ev)) (ev_ ev))).
Proof.
  intros Hok Hx. destruct (to_insert ev) eqn:Hi.
  - unfold to_insert in Hi. apply andb_true_iff in Hi as [Hev Hno]. rewrite !has_or in Hno.
    apply negb_true_iff, orb_false_iff in Hno as [Hni _].
    eapply wp_mono; [by apply (insert_on_list_ok mm backend fdinfo_len x ev)|].
    intros r b' (H1 & H2 & H3 & H4 & _ & _ & [[-> H]|[-> H]]); split_and!; try done; [by left|].
    right. split; [done|]. eexists. split; [exact H|]. split; [done|]. split; try done.
    + apply requeued_add; auto with flags.
    + unfold bits. cbn [ev_evcallback with_evcallback]. by flags.
  - apply wp_ret. split_and!; try done. right. split; [done|]. exists ev. split_and!; try done.
    split; try done; [apply requeued_refl|by rewrite orb_false_r].
Qed.

Lemma added_closure ev ev' t i a u : added ev ev' t i a u → ev_closure ev' = ev_closure ev.
Proof. intros [A1 _ _ _ _ _]. unfold ev_closure. by rewrite (proj1 A1). Qed.

Lemma added_trans e1 e2 e3 t i a u t' i' a' u' :
  added e1 e2 t i a u → added e2 e3 t' i' a' u' → added e1 e3 t' i' a' u'.
Proof.
  intros [A1 A2 A3 A4 A5 A6] [B1 B2 B3 B4 B5 B6]. split; try congruence.
  - by eapply requeued_trans.
  - rewrite B2. unfold bits in A2. f_equal. by injection A2.
Qed.

Lemma pending_is b x ev t : evs b !! x = Some ev → has EVLIST_TIMEOUT (ev_flags ev) = t →
  pending (evs b) x = if t then Some (ev_timeout ev) else None.
Proof. intros Hx <-. unfold pending. by rewrite Hx. Qed.
Lemma added_timed ev ev' t i a u : added ev ev' t i a u → has EVLIST_TIMEOUT (ev_flags ev') = t.
Proof. intros [_ Hb _ _ _ _]. unfold bits in Hb. by injection Hb. Qed.

Lemma rearm_ok add x t abs ev b :
  base_ok b → cache_ok b → timers_normal b → evs b !! x = Some ev →
  valid_tv (n_common_timeouts b) t → may_rearm b ev t → (ctl_timer b x → tv_normal t) →
  tv_normal t ∨ sets_timer add →
  wp (add_timeout add x t abs) b (λ _ b', kept x b b' ∧ (tv_normal t → touched (of_event x) b b') ∧
    ∃ ev', evs b' !! x = Some ev' ∧ armed b ev' t abs ∧
      added ev ev' true (has EVLIST_INSERTED (ev_flags ev))
        (has EVLIST_ACTIVE (ev_flags ev) && negb (has EV_TIMEOUT (ev_res ev))) (rearmed ev t abs)).
Proof.
  intros Hok Hc Hn Hx Hv Hroom Hctl Hset.
  pose proof (bo_heap _ Hok) as (? & _ & Hlo). pose proof (lo_max _ _ _ Hlo) as Hmax. clear Hlo.
  apply (add_timeout_ok add x t abs ev b); [done..|].
  intros now b' Hnow Hok' Ht' Hl' Hfresh d (ev' & Hx' & Hd & Had).
  destruct (deadline_valid t now abs _ Hv Hmax Hnow) as [Hdv Hdn]. change (deadline _ _ _ _) with d in Hdv, Hdn.
  pose proof (pending_is _ _ _ _ Hx' (added_timed _ _ _ _ _ _ Had)) as Hp. cbn in Hp. rewrite Hd in Hp.
  assert (Hk : kept x b b').
  { eapply kept_touched; [by apply kept_refl|done|done|done|]. intros Hct u. rewrite Hp. intros [= <-].
    by apply Hdn, Hctl. }
  assert (Har : armed b ev' t abs) by by exists now.
  destruct Hv as [Htn|(i & Hi & Hat)].
  - assert (Ec : is_common t b = false) by by apply normal_not_common. rewrite Ec.
    eapply wp_mono; [by apply (after_insert_normal_ok add x d), Hdn|]. intros _ b'' ->. split; [exact Hk|]. split; [by intros _|]. by exists ev'.
  - destruct Hset as [Htn|Hset]; [by destruct (normal_not_at i t Htn (proj1 Hi))|].
    assert (Ec : is_common t b = true) by (by apply (common_at_idx i)). rewrite Ec.
    assert (Hat' : common_at i d) by (unfold d; destruct abs; [exact Hat|by apply deadline_common]).
    eapply wp_mono; [apply (after_insert_common_ok add x d i b' Hset Hok')|].
    + by eapply touched_cache.
    + apply Hk.
    + done.
    + by rewrite (touched_common _ _ _ Ht').
    + exact Hat'.
    + intros _ b'' (Hok2 & Hn2 & Ho2 & Hl2 & Hcore). split; [|split].
      * split; [done|]. split; [done|]. split; [|by rewrite Hl2]. eapply outside_trans; [apply Hk|done].
      * intros Htn. by destruct (normal_not_at i t Htn (proj1 Hi)).
      * rewrite Hx' in Hcore. destruct (evs b'' !! x) as [e|]; [|done]. apply (inj Some), core_eq in Hcore.
        exists e. split; [done|]. rewrite Hcore. split; [exact Har|]. by destruct Had.
Qed.

Lemma add_step_ok add x tv abs ev b :
  base_ok b → cache_ok b → timers_normal b → evs b !! x = Some ev → may_add b x ev tv abs →
  (∀ t, tv = Some t → tv_normal t ∨ sets_timer add) →
  wp (event_add_step mm backend fdinfo_len clock add x tv abs) b (λ r b', kept x b b' ∧
    ((∀ t, tv = Some t → tv_normal t) → touched (of_event x) b b') ∧ add_outcome b x ev tv abs r b').
Proof.
  intros Hok Hc Hn Hx Hmay Hset. unfold event_add_step. apply wp_bind, (wp_get_event x ev); [done|].
  apply wp_bind, wp_assert; [by rewrite (ew_flags _ (bo_wf _ (bo_items _ Hok) x ev Hx))|].
  assert (Hkept : kept x b b) by done.
  destruct (has EVLIST_FINALIZING (ev_flags ev)) eqn:Hfin; [by apply wp_ret; split_and!; try done; left|].
  apply wp_bind.
  assert (Hres : wp (if bool_decide (is_Some tv) && negb (has EVLIST_TIMEOUT (ev_flags ev)) then heap_reserve mm else mret 0) b
    (λ r b1, base_ok b1 ∧ evs b1 = evs b ∧ loop b1 = loop b ∧ (∀ x, touched (of_event x) b b1) ∧
      (r = 0 ∧ (∀ t, tv = Some t → may_rearm b1 ev t) ∨ r = -1))).
  { destruct tv as [t|]; cbn [may_add] in Hmay; [|by apply wp_ret; split_and!; try done; left].
    rewrite bool_decide_true by eauto. cbn [andb]. destruct (has EVLIST_TIMEOUT (ev_flags ev)) eqn:Ht; cbn [negb].
    - apply wp_ret. split_and!; try done. left. split; [done|]. intros ? [= <-]. by apply Hmay.
    - eapply wp_mono; [by apply heap_reserve_ok|]. intros r b1 (H1 & H2 & H3 & _ & _ & H6 & [[-> Hr]| ->]);
        split_and!; try done; [left|by right]. split; [done|]. intros ? _ ?. by left. }
  eapply wp_mono; [exact Hres|]. clear Hres. intros r b1 (Hok1 & He1 & Hl1 & Ht1 & Hr).
  assert (Hx1 : evs b1 !! x = Some ev) by by rewrite He1.
  destruct Hr as [[-> Hroom1]| ->].
  2:{ apply wp_ret. split_and!; [|done|left; by rewrite He1].
      eapply kept_touched; [exact Hkept|done|done|done|]. rewrite He1. eauto. }
  change (0 =? -1) with false. cbv iota. apply wp_bind.
  eapply wp_mono; [apply (add_list_ok x ev b1 Hok1 Hx1)|]. intros r b2 (Hok2 & Ht2 & Hl2 & Hh2 & Hr).
  assert (Ht02 : touched (of_event x) b b2) by (eapply touched_trans; [apply Ht1|done]).
  assert (Hl02 : loop b2 = loop b) by congruence.
  destruct Hr as [[-> He2]|(-> & ev2 & Hx2 & Hd2 & Had2)].
  { assert (wp (mret (-1) : EM Z) b2 (λ (r0 : Z) b', kept x b b' ∧
      ((∀ t : timeval, tv = Some t → tv_normal t) → touched (of_event x) b b') ∧ add_outcome b x ev tv abs r0 b')) as H.
    { apply wp_ret. split_and!; [|done|left; by rewrite He2, He1].
      eapply kept_touched; [exact Hkept|done|done|done|]. rewrite He2, He1. eauto. }
    destruct tv; [|done]. apply wp_bind, wp_ret, H. }
  pose proof (pending_is _ _ _ _ Hx2 (added_timed _ _ _ _ _ _ Had2)) as Hp2. rewrite Hd2 in Hp2.
  assert (Hk2 : kept x b b2).
  { eapply kept_touched; [exact Hkept|done|done|done|]. intros Hct t Ht. apply (Hn x t Hct).
    rewrite Hp2 in Ht. by rewrite (pending_is _ _ _ _ Hx eq_refl). }
  destruct tv as [t|].
  2:{ apply wp_ret. split_and!; [done|done|]. right. split_and!; try done. exists ev2. split; [done|].
      split; [|done]. by rewrite orb_false_r, andb_true_r. }
  change (negb (0 =? -1)) with true. cbn [when]. destruct Hmay as (Hv & _ & Hctl). apply wp_bind.
  eapply wp_mono; [apply (rearm_ok add x t abs ev2 b2)|].
  - done.
  - by eapply touched_cache.
  - apply Hk2.
  - done.
  - by rewrite (touched_common _ _ _ Ht02).
  - intros Htn. rewrite Hd2, (added_timed _ _ _ _ _ _ Had2). unfold room. rewrite Hh2. by apply (Hroom1 t).
  - rewrite (ctl_timer_same b b2) by apply Ht02. done.
  - auto.
  - intros _ b3 (Hk3 & Ht3 & ev3 & Hx3 & Har & Had3). apply wp_ret. split_and!.
    + by eapply kept_trans.
    + intros Hnt. eapply touched_trans; [done|]. auto.
    + right. split_and!; try done. exists ev3. split; [done|]. split.
      * rewrite bool_decide_true, orb_true_r by eauto. cbn [andb].
        pose proof (ad_bits _ _ _ _ _ _ Had2) as Hb. unfold bits in Hb. injection Hb as _ Hbi Hba _.
        assert (Hu : rearmed ev2 t abs = rearmed ev t abs)
          by (unfold rearmed; by rewrite (added_closure _ _ _ _ _ _ Had2), (ad_ev _ _ _ _ _ _ Had2)).
        eapply added_trans; [exact Had2|]. rewrite <- Hu.
        change (evcb_flags (ev_evcallback ev2)) with (ev_flags ev2) in Hbi, Hba.
        by rewrite <- Hbi, <- Hba, <- (ad_res _ _ _ _ _ _ Had2).
      * destruct Har as (now & H1 & H2 & H3). exists now. split; [done|].
        rewrite (to_cache _ _ _ Ht02) in H2. split; [done|]. rewrite H3. unfold is_common.
        by rewrite (touched_common _ _ _ Ht02).
Qed.

(** The two levels of event_add_nolock_. *)
Lemma add_one_ok x tv abs ev b :
  base_ok b → cache_ok b → timers_normal b → evs b !! x = Some ev → may_add b x ev tv abs →
  (∀ t, tv = Some t → tv_normal t) →
  wp (event_add_rec 1 x tv abs) b (λ r b', kept x b b' ∧ touched (of_event x) b b' ∧ add_outcome b x ev tv abs r b').
Proof.
  intros Hok Hc Hn Hx Hm Ht. cbn [EventBase.event_add_rec].
  eapply wp_mono; [apply (add_step_ok _ x tv abs ev b); auto|]. intros r b' (? & ? & ?). auto.
Qed.

Lemma add_active b x ev tv abs r b' :
  evs b !! x = Some ev → add_outcome b x ev tv abs r b' → active_at b' x → active_at b x.
Proof.
  intros Hx [[_ Hc']|(_ & _ & ev' & Hx' & Had & _)]; [by apply active_core|]. intros (e & He & Ha). simplify_eq.
  exists ev. split; [done|]. pose proof (ad_bits _ _ _ _ _ _ Had) as Hb. unfold bits in Hb. injection Hb as _ _ Hb _.
  change (evcb_flags (ev_evcallback ev')) with (ev_flags ev') in Hb. rewrite Ha in Hb. by destruct (has EVLIST_ACTIVE (ev_flags ev)).
Qed.

Lemma add_one_sets_timer : sets_timer (event_add_rec 1).
Proof.
  intros b y t Hok Hc Hn Hy Ht. pose proof Hy as (ctl & [i Hctl]%list_elem_of_lookup & Hyc).
  destruct (bo_timers _ (bo_items _ Hok) i ctl Hctl) as (_ & ev & Hev & _). rewrite Hyc in Hev.
  eapply wp_mono; [apply (add_one_ok y (Some t) true ev); try done|].
  - split; [by left|]. split; [|done]. intros Htm _. right. split; [done|]. apply (Hn y); [done|].
    by rewrite (pending_is _ _ _ _ Hev Htm).
  - by intros ? [= <-].
  - intros r b' ((? & ? & _ & ?) & ? & Hout). do 4 (split; [done|]). by eapply add_active.
Qed.

Lemma add_nolock_ok x tv abs ev b :
  base_ok b → cache_ok b → timers_normal b → evs b !! x = Some ev → may_add b x ev tv abs →
  wp (event_add_nolock_ mm backend fdinfo_len clock x tv abs) b (λ r b', kept x b b' ∧
    ((∀ t, tv = Some t → tv_normal t) → touched (of_event x) b b') ∧ add_outcome b x ev tv abs r b').
Proof.
  intros Hok Hc Hn Hx Hm. unfold event_add_nolock_. apply (add_step_ok (event_add_rec 1)); try done.
  intros t _. right. apply add_one_sets_timer.
Qed.
End add.
