(* ===== verification/EventCheck.v ===== *)
(** * The source's own check

    A consistent base passes event_base_assert_ok_nolock_ and evmap_check_integrity_, the checks
    that libevent runs on itself in debugging builds. *)

From stdpp Require Import sorting.
From S2P Require Import Prelude Timeval Event MinHeap EvMap EventBase EventBaseOk.

Lemma forallb_elem {A} (p : A → bool) (l : list A) : (∀ a, a ∈ l → p a = true) → forallb p l = true.
Proof. intros H. apply forallb_forall. intros a Ha. by apply H, list_elem_of_In. Qed.

Lemma forallb_imap {A} (f : nat → A → bool) (l : list A) :
  (∀ i a, l !! i = Some a → f i a = true) → forallb id (imap f l) = true.
Proof.
  intros H. apply forallb_elem. intros c [i Hc]%list_elem_of_lookup. rewrite list_lookup_imap in Hc.
  destruct (l !! i) as [a|] eqn:E; [|done]. cbn in Hc. simplify_eq. by apply H.
Qed.

(** ** The maps *)

Lemma inserted_event st x fd evs :
  inserted st x = Some (fd, evs) →
  ∃ ev, st !! x = Some ev ∧ has EVLIST_INSERTED (ev_flags ev) = true ∧ ev_fd ev = fd ∧ ev_events ev = evs.
Proof.
  unfold inserted. destruct (st !! x) as [ev|]; [|done]. cbn. destruct (has EVLIST_INSERTED _) eqn:E; [|done].
  intros [= <- <-]. eauto.
Qed.

Lemma foreach_entry_ok {A} (f : Z → A → bool) (l : list (option A)) :
  (∀ i a, mjoin (l !! i) = Some a → f (Z.of_nat i) a = true) → foreach_entry f l = true.
Proof.
  intros H. apply forallb_imap. intros i [a|] Hi; [|done]. apply H. by rewrite Hi.
Qed.

Lemma maps_checked b : base_ok b → evmap_check_integrity_ (evs b) (maps b) = true.
Proof.
  intros Hok. destruct (bo_maps _ Hok) as [Hio Hsig _]. destruct (bo_inserted _ Hok) as [Hf Hs _].
  unfold evmap_check_integrity_. apply andb_true_intro. split; apply foreach_entry_ok; intros i ctx Hi.
  - assert (He : io_entry (maps b) (Z.of_nat i) = Some ctx) by (unfold io_entry; by rewrite Nat2Z.id).
    destruct (Hio (Z.of_nat i) ctx) as [_ _ Hc _]; [lia|done|].
    unfold evmap_io_check_integrity_fn. rewrite <- (Hc EV_READ), <- (Hc EV_WRITE), <- (Hc EV_CLOSED)
      by (unfold condition; auto). rewrite !Z.eqb_refl, !andb_true_r.
    apply forallb_elem. intros x Hx.
    assert (Hon : on_fd (maps b) (Z.of_nat i) x) by (split; [lia|eauto]).
    apply Hf in Hon as (_ & es & (ev & Hev & Hi1 & Hfd & <-)%inserted_event & Hes).
    pose proof (ew_events _ (bo_wf _ (bo_items _ Hok) x ev Hev)) as Hone. rewrite Hes, andb_true_r in Hone.
    rewrite Hev, Hi1, Hfd, Z.eqb_refl, Hone. exact Hes.
  - assert (He : sig_entry (maps b) (Z.of_nat i) = Some ctx) by (unfold sig_entry; by rewrite Nat2Z.id).
    apply forallb_elem. intros x Hx.
    assert (Hon : on_signal (maps b) (Z.of_nat i) x) by (split; [lia|eauto]).
    apply Hs in Hon as (_ & es & (ev & Hev & Hi1 & Hfd & <-)%inserted_event & Hes).
    pose proof (ew_events _ (bo_wf _ (bo_items _ Hok) x ev Hev)) as Hone. rewrite Hes in Hone. cbn [andb] in Hone.
    rewrite Hev, Hi1, Hfd, Z.eqb_refl, Hes. unfold IO_EVENTS in Hone. by rewrite Hone.
Qed.

(** ** The timers *)

Lemma pending_event st x t :
  pending st x = Some t → ∃ ev, st !! x = Some ev ∧ has EVLIST_TIMEOUT (ev_flags ev) = true ∧ ev_timeout ev = t.
Proof.
  unfold pending. destruct (st !! x) as [ev|]; [|done]. cbn. destruct (has EVLIST_TIMEOUT _) eqn:E; [|done].
  intros [= <-]. eauto.
Qed.

(** The parent of a place of the heap. *)
Lemma parent_place i : (0 < i)%nat → ∃ p, Z.quot (Z.of_nat i - 1) 2 = Z.of_nat p ∧ child p i.
Proof.
  intros Hi. rewrite Z.quot_div_nonneg by lia. exists ((i - 1) / 2)%nat. rewrite Nat2Z.inj_div, Nat2Z.inj_sub by lia.
  split; [done|]. unfold child. pose proof (Nat.div_mod_eq (i - 1) 2). pose proof (Nat.mod_upper_bound (i - 1) 2). lia.
Qed.

Lemma heap_passes b : base_ok b → heap_checked b = true.
Proof.
  intros Hok. destruct (bo_heap _ Hok) as (hs & Hr & Hlo). apply forallb_elem. intros i Hi%list_elem_of_In%in_seq.
  rewrite (rep_n _ _ _ _ (proj1 Hr 0%nat)) in Hi.
  destruct (lookup_lt_is_Some_2 hs i) as [x Hx]; [lia|].
  destruct (parent_place i) as (p & -> & Hp); [lia|].
  destruct (lookup_lt_is_Some_2 hs p) as [y Hy]; [apply child_lt in Hp; lia|].
  destruct (heap_rep_slot _ _ _ _ _ Hr Hx) as [-> Hix]. destruct (heap_rep_slot _ _ _ _ _ Hr Hy) as [-> _].
  assert (Hin : ∀ z k, hs !! k = Some z → ∃ ev, evs b !! z = Some ev ∧ has EVLIST_TIMEOUT (ev_flags ev) = true).
  { intros z k Hz. apply list_elem_of_lookup_2 in Hz. apply (lo_heap _ _ _ Hlo) in Hz as (t & Ht & _).
    destruct (pending_event _ _ _ Ht) as (ev & ? & ? & _). eauto. }
  destruct (Hin x i Hx) as (ev & Hev & Ht). destruct (Hin y p Hy) as (pev & Hpev & _). rewrite Hev, Hpev, Ht.
  pose proof (proj2 Hr p i Hp) as Hle.
  unfold keys, key in Hle. rewrite Hx, Hy, Hev, Hpev in Hle. rewrite Hle by (eapply lookup_lt_Some; exact Hx).
  unfold get_idx in Hix. rewrite Hev in Hix. cbn in Hix. destruct (ev_timeout_pos ev); [|done].
  simplify_eq. by rewrite Z.eqb_refl.
Qed.

(** A queue of a common timeout, from its element after [last] on. *)
Lemma common_list_passes b i (P : nat → option timeval) l last :
  n_common_timeouts b <= MAX_COMMON_TIMEOUTS → 0 <= i < n_common_timeouts b →
  (∀ x, x ∈ l → ∃ ev, evs b !! x = Some ev ∧ has EVLIST_TIMEOUT (ev_flags ev) = true ∧
     P x = Some (ev_timeout ev) ∧ common_at i (ev_timeout ev)) →
  StronglySorted (λ x y, ∀ t u, P x = Some t → P y = Some u → tv_le t u) l →
  (∀ t x u, last = Some t → x ∈ l → P x = Some u → tv_le t u) →
  common_list_checked b i last l = true.
Proof.
  intros Hmax Hi. revert last. induction l as [|x l IH]; intros last Hl Hs Hlast; [done|]. cbn [common_list_checked].
  destruct (Hl x) as (ev & Hev & Ht & HP & Hat); [by left|]. rewrite Hev, Ht.
  destruct (common_at_idx i _ _ Hat Hi Hmax) as [Hc Hidx]. unfold is_common. rewrite Hc, Hidx, Z.eqb_refl.
  apply StronglySorted_inv in Hs as [Hs Hf].
  assert (Hle : match last with Some t => evutil_timercmp Z.leb t (ev_timeout ev) | None => true end = true).
  { destruct last as [t|]; [|done]. eapply (Hlast t x); [done|by left|done]. }
  rewrite Hle. cbn [andb]. apply IH; [intros y Hy; apply Hl; by right|done|].
  intros t y u [= <-] Hy Hu. eapply Forall_forall in Hf; [|exact Hy]. by apply Hf.
Qed.

Lemma common_passes b : base_ok b →
  forallb id (imap (λ i ctl, common_list_checked b (Z.of_nat i) None (ctl_events ctl)) (common_timeout_queues b)) = true.
Proof.
  intros Hok. destruct (bo_heap _ Hok) as (hs & _ & Hlo). apply forallb_imap. intros i ctl Hi.
  pose proof (lookup_lt_Some _ _ _ Hi).
  apply (common_list_passes b (Z.of_nat i) (pending (evs b))); [apply (lo_max _ _ _ Hlo)|unfold n_common_timeouts; lia| | |done].
  - intros x Hx. apply (lo_common _ _ _ Hlo _ _ Hi) in Hx as (t & Ht & Hat).
    pose proof Ht as (ev & Hev & Htm & <-)%pending_event. exists ev. done.
  - apply (lo_sorted _ _ _ Hlo _ _ Hi).
Qed.

(** ** The queues *)

Lemma where_callback b p w :
  where_ <$> callback_at b p = Some w → ∃ c, callback_at b p = Some c ∧ where_ c = w.
Proof. destruct (callback_at b p) as [c|]; [|done]. intros [= <-]. eauto. Qed.

Lemma active_passes b : base_ok b →
  forallb id (imap (λ i q, active_checked b (Z.of_nat i) q) (activequeues b)) = true.
Proof.
  intros Hok. apply forallb_imap. intros i q Hi. apply forallb_elem. intros p Hp.
  apply (qo_active _ _ _ (bo_queues _ Hok) i q Hi) in Hp. apply where_callback in Hp as (c & -> & [= -> -> ->]).
  by rewrite Z.eqb_refl.
Qed.

Lemma later_passes b : base_ok b → later_checked b (active_later_queue b) = true.
Proof.
  intros Hok. apply forallb_elem. intros p Hp.
  apply (qo_later _ _ _ (bo_queues _ Hok)) in Hp as [pri Hp]. apply where_callback in Hp as (c & -> & [= -> -> _]).
  done.
Qed.

Lemma base_assert_ok b : base_ok b → event_base_assert_ok_nolock_ b = true.
Proof.
  intros Hok. unfold event_base_assert_ok_nolock_.
  by rewrite maps_checked, heap_passes, common_passes, active_passes, later_passes, (bo_active _ Hok), Z.eqb_refl.
Qed.
