(* ===== verification/EventCalls.v ===== *)
(** * The interface of the event base

    Setting up events, priorities and common timeouts; sequences of calls of the interface run
    without a failed assertion, keep the base consistent, and pass the source's own check
    event_base_assert_ok_nolock_. *)

From S2P Require Import Prelude Timeval Event MinHeap EvMap EventBase EventBaseOk EventApi.

(** ** Setting up an event *)

Definition idle_event (o : option event) : Prop := ∀ ev, o = Some ev → idle (ev_evcallback ev).

Lemma idle_flags c : idle c → has EVLIST_TIMEOUT (evcb_flags c) = false ∧ has EVLIST_INSERTED (evcb_flags c) = false ∧
  has EVLIST_ACTIVE (evcb_flags c) = false ∧ has EVLIST_ACTIVE_LATER (evcb_flags c) = false.
Proof. unfold idle, bits. intros [= -> -> -> ->]. done. Qed.

Lemma idle_pending st x : idle_event (st !! x) → pending st x = None.
Proof.
  intros H. unfold pending. destruct (st !! x) as [ev|]; [|done]. cbn.
  destruct (idle_flags _ (H ev eq_refl)) as (E & _). unfold ev_flags. by rewrite E.
Qed.
Lemma idle_inserted st x : idle_event (st !! x) → inserted st x = None.
Proof.
  intros H. unfold inserted. destruct (st !! x) as [ev|]; [|done]. cbn.
  destruct (idle_flags _ (H ev eq_refl)) as (_ & E & _). unfold ev_flags. by rewrite E.
Qed.
Lemma idle_weight c : idle c → weight (evcb_flags c) = 0.
Proof. intros H. destruct (idle_flags c H) as (H1 & H2 & H3 & H4). rewrite weight_bits, H1, H2, H3, H4. by case_match. Qed.

Lemma msum_put {A} (f : A → Z) (m : gmap nat A) k a :
  msum f (<[k := a]> m) = msum f m - from_option f 0 (m !! k) + f a.
Proof.
  destruct (m !! k) as [a0|] eqn:E; cbn; [by rewrite (msum_insert _ _ _ a0)|].
  rewrite msum_insert_new by done. lia.
Qed.

(** The priority of a callback that is not active. *)
Lemma queues_set_pri W qs later p l pri :
  queues_ok W qs later → (W p = None ∧ l = false ∨ ∃ pri0, W p = Some (false, l, pri0)) → 0 <= pri < Zlen qs →
  queues_ok (at_ W p (false, l, pri)) qs later.
Proof.
  intros [Ha Hl Hr Hn Hnl] Hp Hpri. unfold at_. split; try done.
  - intros i q Hq y. rewrite (Ha i q Hq). case_decide; [subst|done].
    destruct Hp as [[-> ->]|(pri0 & ->)]; by split; intros [=].
  - intros y. rewrite Hl. case_decide; [subst|done].
    destruct Hp as [[-> ->]|(pri0 & ->)]; (split; [intros [? [=]]|intros [? [=]]]); subst; eauto.
  - intros y a l0 pr. case_decide; [by intros [= <- <- <-]|apply Hr].
Qed.

(** Memory that the base holds no pointer to may be given to a new event. *)
Lemma replace_ok b x e' :
  base_ok b → idle_event (evs b !! x) → ¬ ctl_timer b x → event_wf e' → idle (ev_evcallback e') →
  0 <= ev_pri e' < nactivequeues b → (∀ n, ev_ncalls e' = Some n → n = 0) →
  Z.of_nat (size (<[x := e']> (evs b))) + 1 < 2 ^ 31 →
  base_ok (with_evs (<[x := e']> (evs b)) b).
Proof.
  intros [[Hwf Hal Hfr Htm Hsz] (hs & Hh & Hlo) Hq Hin Hm Hc Ha] Hold Hct Hwf' Hid Hpri Hnc Hsize.
  assert (Hlk : ∀ y, <[x := e']> (evs b) !! y = if decide (y = x) then Some e' else evs b !! y).
  { intros y. case_decide as Hy; [subst; by rewrite lookup_insert_eq|by rewrite lookup_insert_ne]. }
  destruct (idle_flags _ Hid) as (T & I & A & L).
  pose proof (idle_pending _ _ Hold) as Hp. pose proof (idle_inserted _ _ Hold) as Hi.
  assert (Hold_w : from_option (λ e, weight (ev_flags e)) 0 (evs b !! x) = 0).
  { destruct (evs b !! x) as [e|]; cbn; [|done]. by apply idle_weight, Hold. }
  split; bcbn.
  - split; bcbn; try done.
    + intros y ev. rewrite Hlk. case_decide; [by intros [= <-]|apply Hwf].
    + intros y ev n k. rewrite Hlk. case_decide; [|apply Hfr]. intros [= <-] _ Hn Hn0. by rewrite (Hnc n Hn) in Hn0.
    + intros i ctl Hctl. destruct (Htm i ctl Hctl) as (Hd & ev & E & Ht). split; [done|]. exists ev.
      rewrite Hlk, decide_False; [done|]. intros Hx. apply Hct. exists ctl. split; [by eapply list_elem_of_lookup_2|done].
  - exists hs. split.
    + eapply heap_rep_frame; [exact Hh|]. intros y Hy. rewrite Hlk, decide_False; [done|]. intros ->.
      apply (lo_heap _ _ _ Hlo) in Hy as (t & Ht & _). congruence.
    + eapply lists_ok_ext; [|exact Hlo]. intros y. unfold pending at 1. rewrite Hlk. case_decide; [subst|done].
      cbn. unfold ev_flags. by rewrite T, Hp.
  - eapply queues_ok_ext; [|apply (queues_set_pri _ _ _ (of_event x) false (ev_pri e') Hq); [|done]].
    + intros q. unfold at_. destruct q as [y|k]; cbn [callback_at]; bcbn; [rewrite Hlk|done].
      destruct (decide (y = x)) as [->|Hy]; [rewrite decide_True by done|rewrite decide_False by congruence; done].
      cbn. unfold where_. by rewrite A, L.
    + cbn. destruct (evs b !! x) as [e|]; [right|by left]. cbn. destruct (idle_flags _ (Hold e eq_refl)) as (_ & _ & A0 & L0).
      unfold where_. rewrite A0, L0. eauto.
  - eapply inserted_ok_ext; [|exact Hin]. intros y. unfold inserted at 1. rewrite Hlk. case_decide; [subst|done].
    cbn. unfold ev_flags. by rewrite I, Hi.
  - eapply evmap_ok_ext; [|exact Hm]. intros y ev Hev [fd Hon]. rewrite Hlk. case_decide; [subst|eauto].
    assert (Hno : inserted (evs b) x ≠ None); [|congruence].
    destruct Hon as [Hon|Hon]; [apply (io_fds _ _ Hin) in Hon|apply (io_sigs _ _ Hin) in Hon];
      destruct Hon as (_ & ? & -> & _); done.
  - unfold pending_total in *. rewrite msum_put, Hold_w. pose proof (idle_weight _ Hid) as Hw.
    change (evcb_flags (ev_evcallback e')) with (ev_flags e') in Hw. lia.
  - done.
Qed.

(** Memory that the base holds no pointer to may be freed. *)
Lemma forget_ok b x :
  base_ok b → idle_event (evs b !! x) → ¬ ctl_timer b x → base_ok (with_evs (delete x (evs b)) b).
Proof.
  intros [[Hwf Hal Hfr Htm Hsz] (hs & Hh & Hlo) Hq Hin Hm Hc Ha] Hold Hct.
  assert (Hlk : ∀ y, delete x (evs b) !! y = if decide (y = x) then None else evs b !! y).
  { intros y. case_decide as Hy; [subst; by rewrite lookup_delete_eq|by rewrite lookup_delete_ne]. }
  pose proof (idle_pending _ _ Hold) as Hp. pose proof (idle_inserted _ _ Hold) as Hi.
  split; bcbn.
  - split; bcbn; try done.
    + intros y ev. rewrite Hlk. case_decide; [done|apply Hwf].
    + intros y ev n k. rewrite Hlk. case_decide; [done|apply Hfr].
    + intros i ctl Hctl. destruct (Htm i ctl Hctl) as (Hd & ev & E & Ht). split; [done|]. exists ev.
      rewrite Hlk, decide_False; [done|]. intros Hx. apply Hct. exists ctl. split; [by eapply list_elem_of_lookup_2|done].
    + assert (Hle : (size (delete x (evs b)) <= size (evs b))%nat) by (rewrite map_size_delete; case_match; unfold id; lia).
      clear -Hle Hsz. lia.
  - exists hs. split.
    + eapply heap_rep_frame; [exact Hh|]. intros y Hy. rewrite Hlk, decide_False; [done|]. intros ->.
      apply (lo_heap _ _ _ Hlo) in Hy as (t & Ht & _). congruence.
    + eapply lists_ok_ext; [|exact Hlo]. intros y. unfold pending at 1. rewrite Hlk. case_decide; [subst|done]. by rewrite Hp.
  - assert (HW : ∀ a l pri, where_ <$> callback_at b (of_event x) = Some (a, l, pri) → a = false ∧ l = false).
    { cbn. intros a l pri. destruct (evs b !! x) as [e|]; [|done]. cbn. intros [= <- <- _].
      by destruct (idle_flags _ (Hold e eq_refl)) as (_ & _ & ? & ?). }
    destruct Hq as [Q1 Q2 Q3 Q4 Q5]. set (W' := λ p, where_ <$> callback_at (with_evs (delete x (evs b)) b) p).
    assert (HW' : ∀ p, W' p = if decide (p = of_event x) then None else where_ <$> callback_at b p).
    { intros [y|k]; unfold W'; cbn; [|done]. rewrite Hlk.
      destruct (decide (y = x)) as [->|Hy]; [by rewrite decide_True|]. by rewrite decide_False by congruence. }
    split; try done.
    + intros i q Hq p. rewrite HW', (Q1 _ _ Hq). case_decide as Hpx; [subst|done].
      split; [|done]. intros HE. by destruct (HW _ _ _ HE).
    + intros p. rewrite HW', Q2. case_decide as Hpx; [subst|done].
      split; [|by intros [? ?]]. intros [pri HE]. by destruct (HW _ _ _ HE).
    + intros p a l pri. rewrite HW'. case_decide; [done|apply Q3].
  - eapply inserted_ok_ext; [|exact Hin]. intros y. unfold inserted at 1. rewrite Hlk. case_decide; [subst|done]. by rewrite Hi.
  - eapply evmap_ok_ext; [|exact Hm]. intros y ev Hev [fd Hon]. rewrite Hlk. case_decide; [subst|eauto].
    assert (Hno : inserted (evs b) x ≠ None); [|congruence].
    destruct Hon as [Hon|Hon]; [apply (io_fds _ _ Hin) in Hon|apply (io_sigs _ _ Hin) in Hon];
      destruct Hon as (_ & ? & -> & _); done.
  - unfold pending_total in *. destruct (evs b !! x) as [e|] eqn:E; [|by rewrite delete_id].
    rewrite <- (insert_delete_id (evs b) x e E) in Hc. rewrite msum_insert_new in Hc by apply lookup_delete_eq.
    pose proof (idle_weight _ (Hold e eq_refl)) as Hw. change (evcb_flags (ev_evcallback e)) with (ev_flags e) in Hw. lia.
  - done.
Qed.

(** What event_assign makes of its arguments. *)
Definition assigned (old : event) (fd events : Z) (cb : callback) (arg pri : Z) (e : event) : Prop :=
  ev_evcallback e = Event_callback EVLIST_INIT pri (closure_of events) cb arg ∧ ev_fd e = fd ∧
  ev_events e = events ∧ ev_res e = 0 ∧ ev_base e = true ∧ ev_timeout_pos e = min_heap_idx (-1) ∧
  (ev_ e = ev_io evutil_timerclear ∨ ev_ e = ev_signal 0 None).

(** The documented obligations: the event is not pending; a descriptor the maps can hold; signals
    alone. *)
Definition may_assign (b : event_base) (x : nat) (fd events : Z) : Prop :=
  idle_event (evs b !! x) ∧ ¬ ctl_timer b x ∧ fd < 2 ^ 30 ∧
  has EV_SIGNAL events && has IO_EVENTS events = false ∧ (has EV_SIGNAL events = true → 0 <= fd) ∧
  Z.of_nat (size (evs b)) + 2 < 2 ^ 31.

Lemma size_insert_le (st : store) x e : (size (<[x := e]> st) <= S (size st))%nat.
Proof. destruct (st !! x) eqn:E; [rewrite map_size_insert_Some by eauto; lia|by rewrite map_size_insert_None]. Qed.

Lemma queues_nonempty b x ev : base_ok b → evs b !! x = Some ev → 0 <= ev_pri ev < nactivequeues b.
Proof.
  intros Hok Hx. eapply (qo_range _ _ _ (bo_queues _ Hok) (of_event x)). cbn. rewrite Hx. cbn. unfold where_. done.
Qed.

Lemma assign_ok x fd events cb arg b :
  base_ok b → 0 < nactivequeues b → may_assign b x fd events →
  wp (event_assign x fd events cb arg) b (λ r b', r = 0 ∧ base_ok b' ∧ touched (of_event x) b b' ∧ loop b' = loop b ∧
    ∃ e, evs b' !! x = Some e ∧ assigned (default new_block (evs b !! x)) fd events cb arg (nactivequeues b / 2) e).
Proof.
  intros Hok Hq (Hid & Hct & Hfd & Hone & Hsig & Hsz). unfold event_assign, wp. rewrite Hone.
  eexists _, _. split; [done|]. split; [done|].
  match goal with |- base_ok (with_evs (<[x := ?e]> _) _) ∧ _ => set (e' := e) end.
  split; [|split; [|split; [done|]]].
  - apply replace_ok; try done.
    + split; cbn; try done.
      * intros Hs. split; [auto|]. unfold ev_ncalls, e'. cbn. rewrite Hs. cbn. eauto.
      * by left.
      * unfold ev_io_timeout, e'. cbn. destruct (has EV_SIGNAL events), (has EV_PERSIST events); cbn; done.
    + cbn. dlia.
    + intros n. unfold ev_ncalls, e'. cbn. destruct (has EV_SIGNAL events), (has EV_PERSIST events); cbn; intros ?; by simplify_eq.
    + pose proof (size_insert_le (evs b) x e'). lia.
  - split; try done.
    + intros y Hy. bcbn. rewrite lookup_insert_ne; [done|congruence].
    + intros y k [= <-] (e & He & Hs & Hk). bcbn. rewrite lookup_insert_eq in He. injection He as <-.
      unfold ev_pncalls, e' in Hk. cbn in Hs, Hk. by rewrite Hs in Hk.
  - exists e'. split; [apply lookup_insert_eq|]. unfold assigned, e'. cbn. split_and!; try done.
    destruct (has EV_SIGNAL events), (has EV_PERSIST events); cbn; auto.
Qed.

(** Another priority for an event that is not active. *)
Lemma set_pri_ok b x ev pri :
  base_ok b → evs b !! x = Some ev → ¬ ctl_timer b x → has EVLIST_ACTIVE (ev_flags ev) = false →
  0 <= pri < nactivequeues b → base_ok (with_evs (<[x := with_pri pri ev]> (evs b)) b).
Proof.
  intros [[Hwf Hal Hfr Htm Hsz] (hs & Hh & Hlo) Hq Hin Hm Hc Ha] Hx Hct Hact Hpri.
  assert (Hlk : ∀ y, <[x := with_pri pri ev]> (evs b) !! y = if decide (y = x) then Some (with_pri pri ev) else evs b !! y).
  { intros y. case_decide as Hy; [subst; by rewrite lookup_insert_eq|by rewrite lookup_insert_ne]. }
  split; bcbn.
  - split; bcbn; try done.
    + intros y e. rewrite Hlk. case_decide; [intros [= <-]|apply Hwf]. destruct (Hwf x ev Hx). by split.
    + apply frame_ok_write; [done|]. intros n k. by apply (Hfr x ev).
    + intros i ctl Hctl. destruct (Htm i ctl Hctl) as (Hd & e & E & Ht). split; [done|]. exists e.
      rewrite Hlk, decide_False; [done|]. intros Hy. apply Hct. exists ctl. split; [by eapply list_elem_of_lookup_2|done].
    + by rewrite map_size_insert_Some by by rewrite Hx.
  - exists hs. split.
    + eapply heap_rep_fields; [exact Hh|]. intros y e _ He. rewrite Hlk. case_decide; [subst|eauto].
      rewrite Hx in He. simplify_eq. eexists. split; [done|]. done.
    + eapply lists_ok_ext; [|exact Hlo]. intros y. unfold pending. rewrite Hlk. case_decide; [subst; by rewrite Hx|done].
  - eapply queues_ok_ext; [|apply (queues_set_pri _ _ _ (of_event x) (has EVLIST_ACTIVE_LATER (ev_flags ev)) pri Hq); [|done]].
    + intros q. unfold at_. destruct q as [y|k]; cbn [callback_at]; bcbn; [rewrite Hlk|done].
      destruct (decide (y = x)) as [->|Hy]; [rewrite decide_True by done|rewrite decide_False by congruence; done].
      cbn. unfold where_, ev_flags in *. cbn. by rewrite Hact.
    + right. cbn. rewrite Hx. cbn. unfold where_, ev_flags in *. rewrite Hact. eauto.
  - eapply inserted_ok_ext; [|exact Hin]. intros y. unfold inserted. rewrite Hlk. case_decide; [subst; by rewrite Hx|done].
  - eapply evmap_ok_ext; [|exact Hm]. intros y e Hy _. rewrite Hlk. case_decide; [subst|eauto].
    rewrite Hx in Hy. simplify_eq. eexists. done.
  - unfold pending_total in *. rewrite (msum_insert _ _ _ ev) by done. change (ev_flags (with_pri pri ev)) with (ev_flags ev). lia.
  - done.
Qed.

(** event_priority_set *)
Lemma priority_set_ok x pri ev b :
  base_ok b → evs b !! x = Some ev → ¬ ctl_timer b x →
  wp (event_priority_set x pri) b (λ r b', base_ok b' ∧ touched (of_event x) b b' ∧ loop b' = loop b ∧
    signal_frame b' = signal_frame b ∧
    if has EVLIST_ACTIVE (ev_flags ev) || negb ((0 <=? pri) && (pri <? nactivequeues b)) then r = -1 ∧ b' = b
    else r = 0 ∧ evs b' !! x = Some (with_pri pri ev)).
Proof.
  intros Hok Hx Hct. unfold event_priority_set. apply wp_bind, (wp_get_event x ev); [done|]. apply wp_bind, wp_gets.
  assert (Hsame : base_ok b ∧ touched (of_event x) b b ∧ loop b = loop b ∧ signal_frame b = signal_frame b) by (split_and!; done).
  destruct (has EVLIST_ACTIVE (ev_flags ev)) eqn:Ha; cbn [orb]; [apply wp_ret; tauto|].
  assert (negb ((0 <=? pri) && (pri <? nactivequeues b)) = (pri <? 0) || (nactivequeues b <=? pri)) as -> by lia.
  destruct ((pri <? 0) || (nactivequeues b <=? pri)) eqn:Hr; [apply wp_ret; tauto|].
  apply wp_bind, (wp_upd_cb _ _ _ (ev_evcallback ev)); [cbn; by rewrite Hx|]. apply wp_ret.
  cbn [put_cb]. rewrite Hx. split; [|split; [by apply (touched_write x b ev)|do 3 (split; [done|]); apply lookup_insert_eq]].
  apply set_pri_ok; try done. lia.
Qed.

(** ** The queue for the next round *)

Lemma make_later_active_ok p l b :
  base_ok b → active_later_queue b = p :: l →
  wp (make_later_active p) b (λ _ b', base_ok b' ∧ active_later_queue b' = l ∧
    ∃ c, callback_at b p = Some c ∧ has EVLIST_ACTIVE_LATER (evcb_flags c) = true ∧ moved p (add_flag EVLIST_ACTIVE (drop_flag EVLIST_ACTIVE_LATER c)) b b').
Proof.
  intros Hok Hlater. pose proof (bo_queues _ Hok) as Hq.
  assert (Hin : p ∈ active_later_queue b) by (rewrite Hlater; by left).
  pose proof (proj1 (qo_later _ _ _ Hq p) Hin) as [pri HW].
  destruct (callback_at b p) as [c|] eqn:Hp; [|done]. cbn in HW. unfold where_ in HW. injection HW as Ha Hl Hpri.
  destruct (priority_queue b p c Hok Hp) as (Hlt & q & Hqa & Hqi). rewrite Hpri in Hlt, Hqa, Hqi.
  pose proof (qo_nodup_later _ _ _ Hq) as Hnd. rewrite Hlater in Hnd. apply NoDup_cons in Hnd as [Hnp Hnd].
  unfold make_later_active. set (c' := add_flag EVLIST_ACTIVE (drop_flag EVLIST_ACTIVE_LATER c)).
  apply wp_bind. eexists tt, _. split.
  { unfold later_remove. rewrite Hlater. cbn [unlink]. rewrite decide_True by done. done. }
  set (b1 := with_queues (activequeues b) l b).
  assert (Hp1 : callback_at b1 p = Some c) by (by destruct p).
  apply wp_bind, (wp_upd_cb _ p b1 c _ Hp1). fold c'. set (b2 := put_cb p c' b1).
  assert (Hp2 : callback_at b2 p = Some c').
  { unfold b2. by rewrite (callback_at_put _ _ _ _ _ Hp1), decide_True. }
  apply wp_bind, (wp_get_cb p c' _ _ Hp2). apply wp_bind, wp_gets.
  assert (Hb2 : activequeues b2 = activequeues b) by (unfold b2; rewrite put_cb_rest; done).
  assert (Hpri' : evcb_pri c' = pri) by exact Hpri.
  rewrite Hpri'. apply wp_bind, wp_assert; [unfold nactivequeues; by rewrite Hb2|]. apply wp_bind.
  eexists tt, _. split.
  { unfold active_insert_tail, queue_at in *. rewrite Hb2, Hqa. done. }
  apply wp_modify.
  match goal with |- base_ok ?b' ∧ _ => assert (Hm : moved p c' b b') end.
  { unfold moved, nactivequeues, set_queue. rewrite Hb2. bcbn. rewrite length_insert. unfold b2. rewrite put_cb_rest. bcbn.
    split_and!; try done; apply put_cb_same; done. }
  split; [|split; [unfold set_queue, b2; rewrite put_cb_rest; done|by exists c]].
  assert (Hleave : queues_ok (at_ (λ p, where_ <$> callback_at b p) p (false, false, pri)) (activequeues b) l).
  { apply (queues_leave_later _ _ _ l p pri Hq); [by rewrite Hp; cbn; unfold where_; rewrite Ha, Hl, Hpri|done|].
    intros y. rewrite Hlater, elem_of_cons. split; [intros Hy; split; [by right|by intros ->]|by intros [[->|?] ?]]. }
  assert (Hcb : requeued c c') by (eapply requeued_trans; [apply requeued_drop|apply requeued_add]; auto with flags).
  eapply (requeue_ok p c' c b); [done|done|done|exact Hm|by unfold c'; flags|by unfold c'; flags|..];
    unfold set_queue; bcbn; rewrite ?Hb2; unfold b2; rewrite put_cb_rest; bcbn.
  - eapply queues_ok_ext; [|by apply (queues_join_active _ _ _ p pri _ q Hleave); [unfold at_; rewrite decide_True|..]].
    intros y. unfold at_. case_decide; [|done]. unfold where_, c'. flags. by rewrite Hpri.
  - unfold c'. change (counts b1) with (counts b). weights.
  - change (counts b1) with (counts b). change (active_later_queue b1) with l. rewrite (concat_length_insert _ _ q), (bo_active _ Hok), Hlater, length_app by done. cbn [length]. lia.
Qed.

(** The invariant of the interface: the base is consistent, the cached time is valid, the timers
    of the common queues have plain deadlines, there is a queue. *)
Record api_ok (b : event_base) : Prop := {
  api_base : base_ok b;
  api_cache : cache_ok b;
  api_timers : timers_normal b;
  api_queues : 0 < nactivequeues b
}.

(** Only flags about the active queues have changed. *)
Definition relabelled (e e' : event) : Prop :=
  requeued (ev_evcallback e) (ev_evcallback e') ∧ e' = with_evcallback (ev_evcallback e') e ∧
  has EVLIST_TIMEOUT (ev_flags e') = has EVLIST_TIMEOUT (ev_flags e) ∧
  has EVLIST_INSERTED (ev_flags e') = has EVLIST_INSERTED (ev_flags e) ∧
  (idle (ev_evcallback e) → idle (ev_evcallback e')).

Lemma relabelled_refl e : relabelled e e.
Proof. split; [apply requeued_refl|]. by destruct e. Qed.
Lemma relabelled_trans e1 e2 e3 : relabelled e1 e2 → relabelled e2 e3 → relabelled e1 e3.
Proof.
  intros (A1 & A2 & A3 & A4 & A5) (B1 & B2 & B3 & B4 & B5). split; [by eapply requeued_trans|].
  split; [|split_and!; [congruence..|auto]]. rewrite B2, A2. done.
Qed.

(** Only where callbacks are queued has changed. *)
Record requeues (b b' : event_base) : Prop := {
  rq_pending : ∀ y, pending (evs b') y = pending (evs b) y;
  rq_common : common_timeout_queues b' = common_timeout_queues b;
  rq_time : time b' = time b;
  rq_queues : nactivequeues b' = nactivequeues b;
  rq_live : ∀ y, is_Some (evs b !! y) → is_Some (evs b' !! y);
  rq_events : ∀ y e', evs b' !! y = Some e' → ∃ e, evs b !! y = Some e ∧ relabelled e e';
  rq_alone : ∀ k c', cbs b' !! k = Some c' →
    has EVLIST_FINALIZING (evcb_flags c') = false ∧ evcb_closure c' = EV_CLOSURE_CB_SELF ∨ ∃ c, cbs b !! k = Some c ∧ requeued c c';
  rq_frame : signal_frame b' = signal_frame b;
  rq_current : current_event (loop b') = current_event (loop b)
}.

Lemma requeues_refl b : requeues b b.
Proof. split; try done; [intros y e; exists e; split; [done|apply relabelled_refl]|]. right. eexists. split; [done|apply requeued_refl]. Qed.

Lemma requeues_trans b1 b2 b3 : requeues b1 b2 → requeues b2 b3 → requeues b1 b3.
Proof.
  intros [A1 A2 A3 A4 A5 A6 A7 A8 A9] [B1 B2 B3 B4 B5 B6 B7 B8 B9]. split; try congruence; auto.
  - intros y e3 H3. destruct (B6 y e3 H3) as (e2 & H2 & R2). destruct (A6 y e2 H2) as (e1 & H1 & R1).
    exists e1. split; [done|]. by eapply relabelled_trans.
  - intros k c3 H3. destruct (B7 k c3 H3) as [?|(c2 & H2 & R2)]; [by left|].
    destruct (A7 k c2 H2) as [[Hf Hc]|(c1 & H1 & R1)]; [left|right].
    + destruct R2 as (E & _ & R & _). split; [congruence|by rewrite E].
    + exists c1. split; [done|]. by eapply requeued_trans.
Qed.

Lemma moved_requeues p c c0 b b' :
  callback_at b p = Some c0 → moved p c b b' → requeued c0 c →
  has EVLIST_TIMEOUT (evcb_flags c) = has EVLIST_TIMEOUT (evcb_flags c0) →
  has EVLIST_INSERTED (evcb_flags c) = has EVLIST_INSERTED (evcb_flags c0) →
  (∀ x, p = of_event x → idle c0 → idle c) → requeues b b'.
Proof.
  intros Hp (E1 & E2 & _ & E4 & _ & _ & E7 & E8 & E9 & E10) Hr Ht Hi Hid. split; try done.
  - intros y. rewrite E1. by eapply pending_put.
  - intros y [e He]. rewrite E1. destruct (evs_put_inv p c b y e He) as (e' & -> & _). eauto.
  - intros y e'. rewrite E1. intros He. destruct (evs_put _ _ _ _ _ He) as (e & Hy & [[-> ->]|[_ ->]]); exists e;
      (split; [done|]); [|apply relabelled_refl]. cbn in Hp. rewrite Hy in Hp. cbn in Hp. simplify_eq. split_and!; try done.
    by apply (Hid y).
  - intros k c'. rewrite E2. destruct p as [x|k0]; cbn [put_cb].
    + assert (Hk : cbs (put_cb (of_event x) c b) !! k = cbs b !! k) by (cbn; by destruct (evs b !! x)).
      cbn [put_cb] in Hk. rewrite Hk. right. exists c'. split; [done|apply requeued_refl].
    + cbn in Hp |- *. destruct (decide (k = k0)) as [->|Hne].
      * rewrite lookup_insert_eq. intros [= <-]. right. by exists c0.
      * rewrite lookup_insert_ne by done. right. exists c'. split; [done|apply requeued_refl].
Qed.

Lemma api_requeues b b' : api_ok b → base_ok b' → requeues b b' → api_ok b'.
Proof.
  intros [Hok Hc Hn Hq] Hok' [H1 H2 H3 H4 _ _ _ _ _]. split; [done|unfold cache_ok; by rewrite H3| |lia].
  intros y t (ctl & Hin & Hy). rewrite H1. rewrite H2 in Hin. apply Hn. by exists ctl.
Qed.

(** event_queue_make_later_events_active empties the queue. *)
Lemma make_later_loop_ok fuel b :
  base_ok b → (length (active_later_queue b) < fuel)%nat →
  wp (make_later_loop fuel) b (λ _ b', base_ok b' ∧ active_later_queue b' = [] ∧ requeues b b').
Proof.
  revert b. induction fuel as [|fuel IH]; intros b Hok Hf; [lia|]. cbn [make_later_loop].
  apply wp_bind, wp_gets. destruct (active_later_queue b) as [|p l] eqn:E; [by apply wp_ret; split_and!; [done|done|apply requeues_refl]|].
  apply wp_bind. eapply wp_mono; [by apply (make_later_active_ok p l)|].
  intros _ b1 (Hok1 & E1 & c & Hp & Hlc & Hm). eapply wp_mono; [apply IH; [done|rewrite E1; cbn in Hf; lia]|].
  intros _ b2 (Hok2 & E2 & Hr). split; [done|]. split; [done|]. eapply requeues_trans; [|exact Hr].
  eapply moved_requeues; [exact Hp|exact Hm|eapply requeued_trans; [apply requeued_drop|apply requeued_add]; auto with flags|by flags..|].
  intros x _ (_ & _ & _ & L)%idle_flags. congruence.
Qed.

Lemma make_later_events_active_ok b :
  base_ok b → wp event_queue_make_later_events_active b (λ _ b', base_ok b' ∧ active_later_queue b' = [] ∧ requeues b b').
Proof. intros Hok. apply wp_bind, wp_gets, make_later_loop_ok; [done|lia]. Qed.

(** ** A new base *)

Lemma base_new_ok : base_ok event_base_new.
Proof.
  split; cbn.
  - by split.
  - exists []. split; [apply heap_rep_ctor|]. split; try done.
    intros x. split; [by intros ?%elem_of_nil|intros (? & [=] & _)].
  - split; try done.
    + intros [|i] q Hi p; cbn in Hi; simplify_eq. split; [by intros ?%elem_of_nil|]. by destruct p.
    + intros p. split; [by intros ?%elem_of_nil|]. destruct p; cbn; intros [? [=]].
    + intros [x|k]; cbn; done.
    + intros [|i] q Hi; cbn in Hi; simplify_eq. constructor.
    + constructor.
  - split; try done.
    + intros fd x. split; [intros (_ & ctx & Hc & _)|intros (_ & ? & [=] & _)]. unfold io_entry in Hc. cbn in Hc. done.
    + intros fd x. split; [intros (_ & ctx & Hc & _)|intros (_ & ? & [=] & _)]. unfold sig_entry in Hc. cbn in Hc. done.
  - by split.
  - done.
  - done.
Qed.

Lemma api_new : api_ok event_base_new.
Proof. split; [apply base_new_ok|done| |done]. intros y t (ctl & Hin & _). by apply elem_of_nil in Hin. Qed.

(** More queues, before anything has been set up. *)
Lemma priority_init_ok mm n b b' :
  api_ok b → evs b = ∅ → cbs b = ∅ → event_base_priority_init mm n b = Some (0, b') → api_ok b'.
Proof.
  intros Hapi He Hc H. unfold event_base_priority_init in H.
  destruct (negb _ || _ || _) eqn:E; [done|]. destruct (n =? nactivequeues b); [by simplify_eq|].
  destruct (mm _ _); [|done]. simplify_eq.
  apply orb_false_iff in E as [[E1 E2%Z.ltb_ge]%orb_false_iff _]. apply negb_false_iff, Z.eqb_eq in E1.
  destruct Hapi as [[[] Hheap Hq Hin Hmaps Hct Hac] Hcache Htm Hn]. unfold N_ACTIVE_CALLBACKS in E1.
  assert (Hlater : active_later_queue b = []).
  { destruct (active_later_queue b) as [|p l] eqn:El; [done|]. rewrite E1 in Hac. cbn [length] in Hac. lia. }
  assert (Hrep : Zlen (replicate (Z.to_nat n) (A := list evcb_ptr) []) = n) by (lens).
  set (b' := next_alloc _). assert (HW : ∀ p, where_ <$> callback_at b' p = None).
  { intros [x|k]; cbn; [by rewrite He|by rewrite Hc]. }
  assert (Hcat : concat (replicate (Z.to_nat n) (A := list evcb_ptr) []) = []) by (clear; induction (Z.to_nat n); done).
  split; try done.
  - split; unfold next_alloc; bcbn; try done.
    + split.
      * intros i q [-> _]%lookup_replicate p. rewrite HW. split; [by intros ?%elem_of_nil|done].
      * intros p. rewrite HW. unfold b', next_alloc. bcbn. rewrite Hlater. split; [by intros ?%elem_of_nil|by intros [? ?]].
      * intros p a l pri. by rewrite HW.
      * intros i q [-> _]%lookup_replicate. constructor.
      * unfold b', next_alloc. bcbn. rewrite Hlater. constructor.
    + unfold b', next_alloc. bcbn. by destruct Hin.
    + unfold b', next_alloc. bcbn. eapply same_lists_ok; [apply same_lists_allocs|done|done].
    + unfold b', next_alloc. bcbn. rewrite Hcat, Hlater, E1. done.
  - unfold b', nactivequeues, next_alloc. bcbn. lia.
Qed.

(** ** Common timeouts *)

Lemma valid_tv_mono n m tv : valid_tv n tv → n <= m → valid_tv m tv.
Proof. intros [?|(i & ? & ?)] ?; [by left|right]. exists i. split; [lia|done]. Qed.

(** Another queue, with its timer [e] at [x]. *)
Lemma append_common_ok b x e tv k :
  base_ok b → evs b !! x = Some e → common_timer (n_common_timeouts b) e → common_at (n_common_timeouts b) tv →
  n_common_timeouts b < MAX_COMMON_TIMEOUTS →
  base_ok (with_common (common_timeout_queues b ++ [Common_timeout_list [] tv x]) k b).
Proof.
  intros [[Hwf Hal Hfr Htm Hsz] (hs & Hh & Hlo) Hq Hin Hm Hc Ha] Hx He Hat Hmax. unfold n_common_timeouts in *.
  assert (Hsnoc : ∀ i ctl, (common_timeout_queues b ++ [Common_timeout_list [] tv x]) !! i = Some ctl →
    common_timeout_queues b !! i = Some ctl ∨ i = length (common_timeout_queues b) ∧ ctl = Common_timeout_list [] tv x).
  { intros i ctl [?|[? Hi]]%lookup_app_Some; [by left|right]. apply list_lookup_singleton_Some in Hi as [Hi <-].
    split; [lia|done]. }
  split; bcbn; try done.
  - split; bcbn; try done. intros i ctl [Hi|[-> ->]]%Hsnoc; [by apply Htm|]. split; [done|]. exists e. done.
  - exists hs. split; [done|]. destruct Hlo as [L1 L2 L3 L4 L5 L6]. split.
    + done.
    + intros i ctl [Hi|[-> ->]]%Hsnoc y; [by apply L2|]. split; [by intros ?%elem_of_nil|].
      intros (t & Ht & Hat'). destruct (L3 y t Ht) as [Hn|(j & Hj & Hat'')].
      * by destruct (normal_not_at _ _ Hn (Nat2Z.is_nonneg _) Hat').
      * pose proof (common_at_inj _ _ _ Hat' Hat''). lia.
    + intros y t Ht. eapply valid_tv_mono; [by eapply L3|]. rewrite length_app. cbn [length]. lia.
    + intros i ctl [Hi|[-> ->]]%Hsnoc; [by eapply L4|constructor].
    + intros i ctl [Hi|[-> ->]]%Hsnoc; [by eapply L5|constructor].
    + rewrite length_app. cbn [length]. lia.
Qed.

(** The timer of a new queue. *)
Definition new_timer (n : Z) : event :=
  Event (Event_callback (Z.lor EVLIST_INIT EVLIST_INTERNAL) 0 EV_CLOSURE_EVENT common_timeout_cb n)
    (min_heap_idx (-1)) (-1) true (ev_signal 0 None) 0 0 evutil_timerclear.

Lemma new_event_none b : evs b !! new_event b = None.
Proof. apply not_elem_of_dom. unfold new_event. apply is_fresh. Qed.

Lemma ctl_timer_event b y : base_ok b → ctl_timer b y → is_Some (evs b !! y).
Proof.
  intros Hok (ctl & [i Hi]%list_elem_of_lookup & <-).
  destruct (bo_timers _ (bo_items _ Hok) i ctl Hi) as (_ & ev & -> & _). eauto.
Qed.

(** The three calls that set up the timer. *)
Lemma setup_timer_ok n b :
  base_ok b → 0 < nactivequeues b → Z.of_nat (size (evs b)) + 2 < 2 ^ 31 → let x := new_event b in
  wp (event_assign x (-1) 0 common_timeout_cb n;;
      upd_cb (add_flag EVLIST_INTERNAL) (of_event x);;
      event_priority_set x 0) b
    (λ _ b', b' = with_evs (<[x := new_timer n]> (evs b)) b ∧ base_ok b').
Proof.
  intros Hok Hq Hsz x. pose proof (new_event_none b) as Hx. fold x in Hx.
  assert (Hfin : base_ok (with_evs (<[x := new_timer n]> (evs b)) b)).
  { apply replace_ok; try done.
    - rewrite Hx. by intros ? [=].
    - intros Hc. apply (ctl_timer_event b x Hok) in Hc as [? ?]. congruence.
    - split; try done. by left.
    - by intros ? [= <-].
    - pose proof (size_insert_le (evs b) x (new_timer n)). lia. }
  apply wp_bind. eexists _, _. split; [reflexivity|]. rewrite Hx. cbn [default]. set (b1 := with_evs _ b).
  assert (Hx1 : ∃ e1, evs b1 !! x = Some e1 ∧ b1 = with_evs (<[x := e1]> (evs b)) b ∧
    with_pri 0 (with_evcallback (add_flag EVLIST_INTERNAL (ev_evcallback e1)) e1) = new_timer n ∧
    has EVLIST_ACTIVE (ev_flags (with_evcallback (add_flag EVLIST_INTERNAL (ev_evcallback e1)) e1)) = false).
  { eexists. split; [apply lookup_insert_eq|done]. }
  destruct Hx1 as (e1 & Hx1 & -> & He1 & Ha1).
  apply wp_bind, (wp_upd_cb _ _ _ (ev_evcallback e1)); [cbn; by rewrite lookup_insert_eq|].
  cbn [put_cb]. bcbn. rewrite lookup_insert_eq, insert_insert_eq.
  unfold event_priority_set. apply wp_bind. eapply wp_get_event; [apply lookup_insert_eq|].
  apply wp_bind, wp_gets. rewrite Ha1. change (nactivequeues (with_evs _ _)) with (nactivequeues b).
  rewrite (proj2 (Z.leb_gt _ _)) by done. cbn [orb]. change (0 <? 0) with false. cbv iota.
  apply wp_bind. eapply wp_upd_cb; [cbn; by rewrite lookup_insert_eq|]. apply wp_ret.
  cbn [put_cb]. bcbn. rewrite lookup_insert_eq, insert_insert_eq. split; [by rewrite <- He1|by rewrite <- He1 in Hfin].
Qed.

(** The microseconds of a duration that event_base_init_common_timeout handles: a million of them
    is not carried to the seconds. *)
Definition valid_duration (d : timeval) : Prop := 0 <= tv_usec d ∧ tv_usec d ≠ 1000000.

Lemma normalized_duration_ok b d : valid_duration d → tv_normal (normalized_duration b d).
Proof.
  intros [H1 H2]. unfold normalized_duration. destruct (Z.ltb_spec 1000000 (tv_usec d)) as [Hd|Hd].
  - unfold tv_normal. cbn [tv_usec]. apply Z.mod_pos_bound. lia.
  - unfold tv_normal. lia.
Qed.

Lemma common_duration_ok d n :
  tv_normal d → 0 <= n < MAX_COMMON_TIMEOUTS → common_at n (common_duration d n) ∧ real_timeout (common_duration d n) = d.
Proof.
  intros Hd Hn. unfold common_duration, MAX_COMMON_TIMEOUTS, tv_normal in *.
  rewrite common_usec_split by lia. change COMMON_TIMEOUT_MAGIC with (1280 * 2 ^ 20).
  replace (1280 * 2 ^ 20 + n * 2 ^ 20 + tv_usec d) with ((1280 + n) * 2 ^ 20 + tv_usec d) by ring.
  assert (Hr : real_timeout (Timeval (tv_sec d) ((1280 + n) * 2 ^ 20 + tv_usec d)) = d).
  { unfold real_timeout. cbn [tv_sec tv_usec]. rewrite land_ones_mod, Z.add_comm, Z_mod_plus_full, Z.mod_small by lia.
    by destruct d. }
  split; [|done]. split; [|rewrite Hr; exact Hd]. cbn [tv_usec]. rewrite Z.div_add_l, Z.div_small by lia. lia.
Qed.

(** More memory asked for. *)
Lemma base_ok_alloc b : base_ok b → base_ok (next_alloc b).
Proof.
  intros Hok. apply base_rest in Hok as [Hr Ht]. apply base_rest. split; [by eapply rest_recore_ok|done].
Qed.
Lemma base_ok_allocated b k : base_ok b → base_ok (with_common (common_timeout_queues b) k b).
Proof. intros Hok. apply base_rest in Hok as [Hr Ht]. apply base_rest. split; [by eapply rest_recore_ok|done]. Qed.

Lemma find_common b d ctl :
  List.find (same_duration d) (common_timeout_queues b) = Some ctl →
  ∃ i, common_timeout_queues b !! i = Some ctl ∧ same_duration d ctl = true.
Proof. intros [Hin Hs]%find_some. apply list_elem_of_In, list_elem_of_lookup in Hin as [i Hi]. eauto. Qed.

(** The same but for the queues of common timeouts, to which one may have been added. *)
Record commons_added (b b' : event_base) : Prop := {
  ca_pending : ∀ y, pending (evs b') y = pending (evs b) y;
  ca_events : ∀ y, is_Some (evs b !! y) → evs b' !! y = evs b !! y;
  ca_timers : ∀ y, ctl_timer b' y → ctl_timer b y ∨ evs b !! y = None;
  ca_time : time b' = time b;
  ca_queues : nactivequeues b' = nactivequeues b;
  ca_new : ∀ y, evs b !! y = None → is_Some (evs b' !! y) → ctl_timer b' y ∧ ¬ active_at b' y;
  ca_kept : ∀ y, ctl_timer b y → ctl_timer b' y;
  ca_number : n_common_timeouts b <= n_common_timeouts b';
  ca_alone : cbs b' = cbs b;
  ca_frame : signal_frame b' = signal_frame b;
  ca_current : current_event (loop b') = current_event (loop b)
}.

Lemma commons_refl b : commons_added b b.
Proof. split; auto; [|done]. by intros y -> [? ?]. Qed.
Lemma commons_alloc b : commons_added b (next_alloc b).
Proof. destruct (commons_refl b). by split. Qed.

Lemma api_commons b b' : api_ok b → base_ok b' → commons_added b b' → api_ok b'.
Proof.
  intros [Hok Hc Hn Hq] Hok' [H1 H2 H3 H4 H5 _ _ _ _ _ _]. split; [done|unfold cache_ok; by rewrite H4| |lia].
  intros y t Hy. rewrite H1. intros Hp. destruct (H3 y Hy) as [Hy'|Hy']; [by eapply Hn|].
  unfold pending in Hp. by rewrite Hy' in Hp.
Qed.

Lemma is_common_at b i tv :
  base_ok b → 0 <= i < n_common_timeouts b → common_at i tv → is_common tv b = true.
Proof.
  intros Hok Hi Hat. destruct (bo_heap _ Hok) as (hs & _ & Hlo). apply (common_at_idx i); [done|done|apply (lo_max _ _ _ Hlo)].
Qed.

Lemma em_bind_Some {A B} (m : EM A) (f : A → EM B) b r :
  (m ≫= f) b = Some r → ∃ a b1, m b = Some (a, b1) ∧ f a b1 = Some r.
Proof.
  unfold mbind, em_bind. destruct (m b) as [[a b1]|]; [|done]. cbn. eauto.
Qed.

(** The last part of event_base_init_common_timeout. *)
Lemma add_common_ok d b :
  base_ok b → 0 < nactivequeues b → Z.of_nat (size (evs b)) + 2 < 2 ^ 31 → tv_normal d →
  n_common_timeouts b < MAX_COMMON_TIMEOUTS →
  wp (add_common d) b (λ r b', base_ok b' ∧ commons_added b b' ∧ n_common_timeouts b' = n_common_timeouts b + 1 ∧
    r = Some (common_duration d (n_common_timeouts b))).
Proof.
  intros Hok Hq Hsz Hd Hmax. set (n := n_common_timeouts b). set (x := new_event b).
  pose proof (new_event_none b) as Hx. fold x in Hx.
  destruct (common_duration_ok d n Hd) as [Hat _]; [unfold n, n_common_timeouts in *; lia|].
  destruct (setup_timer_ok n b Hok Hq Hsz) as (r & b1 & E & Eb1 & Hok1). fold x in E, Eb1.
  apply em_bind_Some in E as (r1 & b2 & E1 & E). apply em_bind_Some in E as (r2 & b3 & E2 & E).
  unfold wp, add_common. fold n x. rewrite E1. cbn [mbind option_bind]. rewrite E2. cbn [mbind option_bind].
  rewrite E. cbn [mbind option_bind duration].
  set (tv := common_duration d n) in *. set (b4 := with_common _ _ b1).
  assert (Hn1 : n_common_timeouts b1 = n) by by rewrite Eb1.
  assert (Hx1 : evs b1 !! x = Some (new_timer n)) by (rewrite Eb1; apply lookup_insert_eq).
  assert (Hok4 : base_ok b4).
  { apply (append_common_ok b1 x (new_timer n)); rewrite ?Hn1; try done. }
  assert (Hn4 : n_common_timeouts b4 = n + 1).
  { unfold b4, n_common_timeouts in *. bcbn. rewrite length_app. cbn [length]. lia. }
  rewrite (is_common_at b4 n) by (done || unfold n, n_common_timeouts in *; lia).
  eexists _, _. split; [done|]. split; [done|]. split; [|done].
  unfold b4. rewrite Eb1. split; bcbn; try done.
  - intros y. unfold pending. destruct (decide (y = x)) as [->|Hy]; [by rewrite lookup_insert_eq, Hx|by rewrite lookup_insert_ne].
  - intros y [e He]. rewrite lookup_insert_ne; [done|]. intros ->. congruence.
  - intros y (c & [Hin|Hin%list_elem_of_singleton]%elem_of_app & <-); [left; by exists c|right]. by rewrite Hin.
  - intros y Hy [e He]. destruct (decide (y = x)) as [->|Hne]; [|rewrite lookup_insert_ne in He by done; congruence].
    split; [eexists; bcbn; split; [apply elem_of_app; right; by apply list_elem_of_singleton|done]|].
    intros (e' & He' & Ha). bcbn. rewrite lookup_insert_eq in He'. by injection He' as <-.
  - intros y (c & Hin & Hy). exists c. bcbn. split; [apply elem_of_app; by left|done].
  - unfold n_common_timeouts. bcbn. rewrite length_app. lia.
Qed.

Lemma init_common_ok mm d b :
  api_ok b → valid_duration d → Z.of_nat (size (evs b)) + 2 < 2 ^ 31 →
  wp (event_base_init_common_timeout mm d) b (λ r b', base_ok b' ∧ commons_added b b' ∧
    ∀ tv, r = Some tv → ∃ i, 0 <= i < n_common_timeouts b' ∧ common_at i tv ∧
      real_timeout tv = normalized_duration b d).
Proof.
  intros [Hok Hc Hn Hq] Hd Hsz. pose proof (normalized_duration_ok b d Hd) as Hnd.
  unfold wp, event_base_init_common_timeout. set (d' := normalized_duration b d) in *. cbv zeta.
  pose proof (commons_refl b) as Hself.
  destruct (List.find _ _) as [ctl|] eqn:Hfind.
  { apply find_common in Hfind as (i & Hi & Hs). destruct (bo_timers _ (bo_items _ Hok) i ctl Hi) as [Hat _].
    pose proof (lookup_lt_Some _ _ _ Hi) as Hlt. assert (Hr : 0 <= Z.of_nat i < n_common_timeouts b) by (unfold n_common_timeouts; lia).
    rewrite (is_common_at b (Z.of_nat i)) by done. eexists _, _. split; [done|]. split; [done|]. split; [done|].
    intros tv [= <-]. exists (Z.of_nat i). split; [done|]. split; [done|].
    unfold same_duration in Hs. apply andb_true_iff in Hs as [H1%Z.eqb_eq H2%Z.eqb_eq].
    unfold real_timeout. rewrite <- H1, <- H2. by destruct d'. }
  destruct (Z.eqb_spec (n_common_timeouts b) MAX_COMMON_TIMEOUTS) as [Hfull|Hfull].
  { eexists _, _. split; [done|]. done. }
  assert (Hmax : n_common_timeouts b < MAX_COMMON_TIMEOUTS).
  { destruct (bo_heap _ Hok) as (hs & _ & Hlo). pose proof (lo_max _ _ _ Hlo). unfold n_common_timeouts in *. lia. }
  destruct (_ && negb _); [eexists _, _; split; [done|]; split; [by apply base_ok_alloc|]; split; [apply commons_alloc|done]|].
  match goal with |- context [if ?c then next_alloc ?b0 else b] => set (b1 := if c then next_alloc b0 else b) end.
  assert (Hb1 : base_ok b1 ∧ evs b1 = evs b ∧ common_timeout_queues b1 = common_timeout_queues b ∧
    time b1 = time b ∧ nactivequeues b1 = nactivequeues b ∧ cbs b1 = cbs b ∧ signal_frame b1 = signal_frame b ∧
    loop b1 = loop b).
  { unfold b1. destruct (_ =? _); [|done]. split; [by apply base_ok_alloc, base_ok_allocated|done]. }
  clearbody b1. destruct Hb1 as (Hok1 & He1 & Hc1 & Ht1 & Hq1 & Ha1 & Hf1 & Hl1).
  assert (Hca : ∀ b', commons_added b1 b' → commons_added b b').
  { intros b' [H1 H2 H3 H4 H5 H6 H7 H8 H9 H10 H11]. unfold ctl_timer, n_common_timeouts in *. rewrite Hc1, He1, ?Hl1 in *.
    split; try congruence; done. }
  destruct (negb (mm _ _)).
  { eexists _, _. split; [done|]. split; [by apply base_ok_alloc|]. split; [|done]. apply Hca, commons_alloc. }
  destruct (add_common_ok d' (next_alloc b1)) as (r & b' & E & Hok' & Hcb & Hn' & Hr).
  - by apply base_ok_alloc.
  - unfold nactivequeues, next_alloc in *. bcbn. lia.
  - unfold next_alloc. bcbn. by rewrite He1.
  - done.
  - unfold n_common_timeouts, next_alloc in *. bcbn. by rewrite Hc1.
  - rewrite E. eexists _, _. split; [done|]. split; [done|]. split.
    + apply Hca. destruct Hcb. by split.
    + rewrite Hr. intros tv [= <-]. exists (n_common_timeouts (next_alloc b1)).
      split; [unfold n_common_timeouts, next_alloc in *; lia|].
      apply common_duration_ok; [done|]. unfold n_common_timeouts, next_alloc in *. bcbn. rewrite Hc1. lia.
Qed.

(** ** Callbacks of their own *)

Lemma deferred_init_ok c priority f arg b :
  base_ok b → (∀ cb, cbs b !! c = Some cb → idle cb) → 0 <= priority < nactivequeues b →
  wp (event_deferred_cb_init_ c priority (user_cb f) arg) b (λ _ b', base_ok b' ∧ requeues b b' ∧ evs b' = evs b).
Proof.
  intros [[Hwf Hal Hfr Htm Hsz] Hheap Hq Hin Hm Hc Ha] Hold Hpri. unfold event_deferred_cb_init_. apply wp_modify.
  set (cb := Event_callback 0 priority EV_CLOSURE_CB_SELF (user_cb f) arg).
  split.
  2:{ split; [|done]. destruct (requeues_refl (with_cbs (<[c := cb]> (cbs b)) b)) as [R1 R2 R3 R4 R5 R6 R7 R8 R9]. split; try done.
      intros k c' Hk. bcbn. destruct (decide (k = c)) as [->|Hne].
      - rewrite lookup_insert_eq in Hk. left. by injection Hk as <-.
      - rewrite lookup_insert_ne in Hk by done. right. exists c'. split; [done|apply requeued_refl]. }
  assert (Hid : idle cb) by done.
  assert (Hold_w : from_option (λ c, weight (evcb_flags c)) 0 (cbs b !! c) = 0).
  { destruct (cbs b !! c) as [cb0|]; cbn; [|done]. by apply idle_weight, Hold. }
  split; bcbn; try done.
  - split; bcbn; try done. intros k cb0. destruct (decide (k = c)) as [->|Hk].
    + rewrite lookup_insert_eq. intros [= <-]. split; [done|by left|by exists f|done].
    + rewrite lookup_insert_ne by done. apply Hal.
  - eapply queues_ok_ext; [|apply (queues_set_pri _ _ _ (alone c) false priority Hq); [|done]].
    + intros q. unfold at_. destruct q as [y|k]; cbn [callback_at]; bcbn; [done|].
      destruct (decide (k = c)) as [->|Hk]; [rewrite decide_True by done; by rewrite lookup_insert_eq|].
      rewrite decide_False by congruence. by rewrite lookup_insert_ne.
    + cbn. destruct (cbs b !! c) as [cb0|]; [right|by left]. cbn.
      destruct (idle_flags _ (Hold cb0 eq_refl)) as (_ & _ & A0 & L0). unfold where_. rewrite A0, L0. eauto.
  - unfold pending_total in *. rewrite msum_put, Hold_w. change (weight (evcb_flags cb)) with 0. lia.
Qed.

Lemma deferred_schedule_ok k c b :
  base_ok b → cbs b !! k = Some c →
  wp (event_deferred_cb_schedule_ (alone k)) b (λ _ b', base_ok b' ∧ requeues b b' ∧ evs b' = evs b).
Proof.
  intros Hok Hk. assert (Hp : callback_at b (alone k) = Some c) by done. unfold event_deferred_cb_schedule_. apply wp_bind, wp_gets.
  pose proof (requeues_refl b) as Hself.
  destruct (_ <? _).
  - eapply wp_mono; [by apply callback_activate_later_ok|]. intros r b' (Hok' & _ & H). split; [done|].
    destruct (_ || _); [by destruct H as [_ ->]|]. destruct H as [_ Hm]. split; [|apply Hm].
    eapply moved_requeues; [exact Hp|exact Hm|apply requeued_add; auto with flags|by flags..].
  - apply wp_bind. eapply wp_mono; [by apply callback_activate_ok|].
    intros r b' (Hok' & _ & c' & Hm & Hrq & Ht & Hi & _). pose proof (moved_requeues _ _ _ _ _ Hp Hm Hrq Ht Hi ltac:(done)) as Hr.
    assert (He : evs b' = evs b) by apply Hm.
    apply wp_bind, wp_when; intros _; [apply wp_modify|]; apply wp_ret; [|done].
    split; [by apply base_ok_loop|]. split; [|done]. eapply requeues_trans; [exact Hr|].
    destruct (requeues_refl b'). by split.
Qed.

Lemma cancel_alone_ok backend k c b :
  base_ok b → cbs b !! k = Some c →
  wp (event_deferred_cb_cancel_ backend (alone k)) b (λ _ b', base_ok b' ∧ requeues b b' ∧ evs b' = evs b).
Proof.
  intros Hok Hk. assert (Hp : callback_at b (alone k) = Some c) by done.
  unfold event_deferred_cb_cancel_, event_callback_cancel_nolock_.
  apply wp_bind, wp_bind, (wp_get_cb _ c); [done|].
  rewrite (aw_init _ (bo_alone _ (bo_items _ Hok) k c Hk)).
  pose proof (requeues_refl b) as Hself.
  destruct (_ && negb false); [by do 2 apply wp_ret|].
  pose proof (not_both b _ _ Hok Hp) as Hnb. destruct (has EVLIST_ACTIVE (evcb_flags c)) eqn:Ha.
  - cbn [andb] in Hnb. apply wp_bind, wp_assert; [by rewrite Hnb|]. apply wp_bind.
    eapply wp_mono; [by apply (remove_active_ok _ c)|]. intros _ b' (Hok' & Hm & _). do 2 apply wp_ret.
    split; [done|]. split; [|apply Hm]. eapply moved_requeues; [exact Hp|exact Hm|apply requeued_drop; auto with flags|by flags..].
  - apply wp_bind, wp_when; intros Hl; [|by do 2 apply wp_ret].
    eapply wp_mono; [by apply (remove_active_later_ok _ c)|]. intros _ b' (Hok' & Hm & _). do 2 apply wp_ret.
    split; [done|]. split; [|apply Hm]. eapply moved_requeues; [exact Hp|exact Hm|apply requeued_drop; auto with flags|by flags..].
Qed.

(** ** Other calls *)

(** Clearing the timeout kept for the next round. *)
Lemma write_zero_ok b x ev :
  base_ok b → evs b !! x = Some ev → base_ok (with_evs (<[x := with_ev_ ev_zero ev]> (evs b)) b).
Proof.
  intros Hok Hx. pose proof (bo_wf _ (bo_items _ Hok) x ev Hx) as Hwf.
  apply (store_write_ok b x ev); [done|done|by split_and!|..].
  - destruct Hwf as [W1 W2 W3 W4 W5 W6 W7 W8]. split; try done.
    + intros Hs. split; [by apply W6|]. by exists 0.
    + intros Hc. split; [by apply W8|]. by eexists.
  - apply frame_ok_write; [by destruct (bo_items _ Hok)|]. intros n k _. cbn. by intros [= <-].
Qed.

Lemma remove_timer_ok x ev b :
  base_ok b → evs b !! x = Some ev →
  wp (event_remove_timer x) b (λ r b', r = 0 ∧ base_ok b' ∧ touched (of_event x) b b' ∧ pending (evs b') x = None ∧
    ∃ ev' pos, evs b' !! x = Some (with_pos pos ev') ∧ requeued (ev_evcallback ev) (ev_evcallback ev') ∧
      ev' = with_ev_ (ev_ ev') (with_evcallback (ev_evcallback ev') ev) ∧
      (ev_ ev' = ev_zero ∨ ev_ ev' = ev_ ev) ∧
      has EVLIST_INSERTED (ev_flags ev') = has EVLIST_INSERTED (ev_flags ev) ∧
      (idle (ev_evcallback ev) → idle (ev_evcallback ev'))).
Proof.
  intros Hok Hx. unfold event_remove_timer, event_remove_timer_nolock_.
  apply wp_bind, (wp_get_event x ev); [done|]. rewrite (ew_base _ (bo_wf _ (bo_items _ Hok) x ev Hx)). cbn [negb].
  apply wp_bind, (wp_get_event x ev); [done|]. apply wp_bind, wp_when; intros Ht.
  - apply wp_bind. eapply wp_mono; [by apply (remove_timeout_ok x ev)|].
    intros _ b1 (Hok1 & Ht1 & _ & [pos Hx1] & _). apply (wp_upd_event _ _ _ _ _ Hx1), wp_ret.
    split; [done|]. split; [by eapply write_zero_ok|]. split.
    + eapply touched_trans; [exact Ht1|]. by apply (touched_write x b1 _ _ Hx1).
    + bcbn. unfold pending. rewrite lookup_insert_eq. split; [cbn; unfold ev_flags; cbn; by flags|].
      eexists (with_ev_ ev_zero (with_evcallback _ ev)), pos. split; [reflexivity|].
      split; [apply requeued_drop; auto with flags|]. split; [done|]. split; [by left|].
      split; [unfold ev_flags; cbn; by flags|]. intros (T & _)%idle_flags. unfold ev_flags in Ht. congruence.
  - apply wp_ret. split; [done|]. split; [done|]. split; [apply touched_refl|]. rewrite (pending_is b x ev _ Hx Ht). split; [done|].
    exists ev, (ev_timeout_pos ev). rewrite Hx. split; [by destruct ev|]. split; [apply requeued_refl|].
    split; [by destruct ev|]. split; [by right|done].
Qed.

Lemma active_ok x res ncalls ev b :
  base_ok b → evs b !! x = Some ev →
  wp (event_active x res ncalls) b (λ _ b', base_ok b' ∧ touched (of_event x) b b' ∧
    signal_frame b' = signal_frame b ∧ pending (evs b') x = pending (evs b) x ∧ ∃ ev', evs b' !! x = Some ev' ∧ activated ev ev' res).
Proof.
  intros Hok Hx. unfold event_active. apply wp_bind, (wp_get_event x ev); [done|].
  rewrite (ew_base _ (bo_wf _ (bo_items _ Hok) x ev Hx)). cbn [negb].
  eapply wp_mono; [by apply active_nolock_ok|]. intros _ b' (Hok' & Ht & _ & Hf & ev' & Hx' & Hact).
  split; [done|]. split; [done|]. split; [done|]. split; [|eauto]. destruct Hact as (H1 & _ & _ & H2 & _).
  rewrite (pending_is _ _ _ _ Hx' H1), (pending_is _ _ _ _ Hx eq_refl), H2. done.
Qed.

Lemma api_touched x b b' :
  api_ok b → base_ok b' → touched (of_event x) b b' → ¬ ctl_timer b x → api_ok b'.
Proof.
  intros [Hok Hc Hn Hq] Hok' Ht Hx. split; [done|by eapply touched_cache| |by rewrite (to_queues _ _ _ Ht)].
  eapply timers_normal_touched; [done|done|]. done.
Qed.

(** ** Finalizing *)

(** Another closure, or EVLIST_FINALIZING set: no queue and no list depends on them. *)
Lemma recast_ok b x ev c :
  base_ok b → evs b !! x = Some ev → ¬ ctl_timer b x → bits c = bits (ev_evcallback ev) →
  evcb_pri c = ev_pri ev → has EVLIST_INTERNAL (evcb_flags c) = has EVLIST_INTERNAL (ev_flags ev) →
  event_wf (with_evcallback c ev) →
  base_ok (with_evs (<[x := with_evcallback c ev]> (evs b)) b) ∧
  touched (of_event x) b (with_evs (<[x := with_evcallback c ev]> (evs b)) b).
Proof.
  intros Hok Hx Hct Hb Hp Hi Hwf. split; [|by apply (touched_write x b ev)].
  unfold bits in Hb. injection Hb as B1 B2 B3 B4.
  apply (store_put_ok b x ev); [done|done| |done|..].
  - split; unfold ev_flags, ev_pri in *; cbn; try done.
    + unfold where_. by rewrite B3, B4, Hp.
    + unfold weight. by rewrite B1, B2, B3, B4, !counted_has, Hi.
  - apply frame_ok_write; [by destruct (bo_items _ Hok)|]. intros n k. by apply (bo_frame _ (bo_items _ Hok) x ev).
  - intros i ctl Hctl Htm. destruct Hct. exists ctl. split; [by eapply list_elem_of_lookup_2|done].
Qed.

Definition finalize_code (free : bool) : Z :=
  if free then EV_CLOSURE_EVENT_FINALIZE_FREE else EV_CLOSURE_EVENT_FINALIZE.

(** What event_finalize leaves of the event. *)
Definition finalized (ev ev' : event) (free : bool) (cb : callback) : Prop :=
  has EVLIST_FINALIZING (ev_flags ev') = true ∧ ev_closure ev' = finalize_code free ∧
  evcb_cb_union (ev_evcallback ev') = cb ∧
  (has EVLIST_FINALIZING (ev_flags ev) = true ∨ has EVLIST_ACTIVE (ev_flags ev') = true) ∧
  has EVLIST_TIMEOUT (ev_flags ev') = has EVLIST_TIMEOUT (ev_flags ev) && has EVLIST_FINALIZING (ev_flags ev) ∧
  has EVLIST_INSERTED (ev_flags ev') = has EVLIST_INSERTED (ev_flags ev) && has EVLIST_FINALIZING (ev_flags ev) ∧
  has EVLIST_INTERNAL (ev_flags ev') = has EVLIST_INTERNAL (ev_flags ev).

(** The deletion at the start of event_finalize. *)
Lemma finalize_del_ok backend x ev b :
  base_ok b → evs b !! x = Some ev →
  wp (event_del_nolock_ backend x false) b (λ _ b1, base_ok b1 ∧ touched (of_event x) b b1 ∧
    ∃ ev1, evs b1 !! x = Some ev1 ∧
      has EVLIST_FINALIZING (ev_flags ev1) = has EVLIST_FINALIZING (ev_flags ev) ∧
      has EVLIST_TIMEOUT (ev_flags ev1) = has EVLIST_TIMEOUT (ev_flags ev) && has EVLIST_FINALIZING (ev_flags ev) ∧
      has EVLIST_INSERTED (ev_flags ev1) = has EVLIST_INSERTED (ev_flags ev) && has EVLIST_FINALIZING (ev_flags ev) ∧
      has EVLIST_INTERNAL (ev_flags ev1) = has EVLIST_INTERNAL (ev_flags ev)).
Proof.
  intros Hok Hx. eapply wp_mono; [by apply del_nolock_ok|]. intros r b1. cbn [negb andb].
  destruct (has EVLIST_FINALIZING (ev_flags ev)) eqn:Hf.
  - intros [_ ->]. split; [done|]. split; [apply touched_refl|]. exists ev. by rewrite !andb_true_r.
  - intros (c & [Hok1 Ht _ [pos Hx1] (_ & _ & Hfc & Hic & _)] & Hid). destruct (idle_flags _ Hid) as (T & I & _).
    split; [done|]. split; [done|]. eexists. split; [exact Hx1|]. rewrite !andb_false_r.
    unfold ev_flags in *. cbn. by rewrite Hfc, Hic.
Qed.

Lemma event_wf_recast ev c :
  event_wf ev → has EVLIST_INIT (evcb_flags c) = true → clear_bits EVLIST_ALL (evcb_flags c) = 0 →
  finalize_closure (evcb_closure c) → event_wf (with_evcallback c ev).
Proof.
  intros [] Hi Ha Hc. split; unfold ev_flags, ev_closure in *; cbn; try done; [by right|].
  intros Hp. destruct Hc as [Hc|Hc]; rewrite Hc in Hp; done.
Qed.

Lemma finalize_ok backend free x cb ev b :
  base_ok b → evs b !! x = Some ev → ¬ ctl_timer b x →
  wp (event_finalize_nolock_ backend free x cb) b (λ r b', r = 0 ∧ base_ok b' ∧ touched (of_event x) b b' ∧
    ∃ ev', evs b' !! x = Some ev' ∧ finalized ev ev' free cb).
Proof.
  intros Hok Hx Hct. unfold event_finalize_nolock_. change (if free then EV_CLOSURE_EVENT_FINALIZE_FREE else _) with (finalize_code free).
  assert (Hcode : finalize_closure (finalize_code free)) by (destruct free; [by right|by left]).
  apply wp_bind. eapply wp_mono; [by apply (finalize_del_ok backend x ev)|].
  intros _ b1 (Hok1 & Ht1 & ev1 & Hx1 & F1 & T1 & I1 & N1). pose proof (bo_wf _ (bo_items _ Hok1) x ev1 Hx1) as Hwf1.
  apply wp_bind, (wp_upd_cb _ _ _ (ev_evcallback ev1)); [cbn; by rewrite Hx1|]. cbn [put_cb]. rewrite Hx1.
  destruct (recast_ok b1 x ev1 (cb_with_closure (finalize_code free) cb (ev_evcallback ev1))) as [Hok2 Ht2]; try done.
  { by rewrite (ctl_timer_same b b1) by apply Ht1. }
  { apply event_wf_recast; [done|apply Hwf1|apply Hwf1|done]. }
  set (ev2 := with_evcallback _ ev1) in *. set (b2 := with_evs _ b1) in *.
  apply wp_bind. eapply wp_mono; [apply (active_nolock_ok x EV_FINALIZE 1 ev2 b2 Hok2); apply lookup_insert_eq|].
  intros _ b3 (Hok3 & Ht3 & _ & _ & ev3 & Hx3 & T3 & I3 & R3 & _ & _ & _ & _ & A3).
  pose proof (bo_wf _ (bo_items _ Hok3) x ev3 Hx3) as Hwf3.
  assert (Hcl3 : evcb_closure (ev_evcallback ev3) = finalize_code free ∧ evcb_cb_union (ev_evcallback ev3) = cb)
    by (by rewrite (proj1 R3)). destruct Hcl3 as [Hcl3 Hcb3].
  apply wp_bind, (wp_upd_cb _ _ _ (ev_evcallback ev3)); [cbn; by rewrite Hx3|]. apply wp_ret. cbn [put_cb]. rewrite Hx3.
  assert (Hb4 : bits (add_flag EVLIST_FINALIZING (ev_evcallback ev3)) = bits (ev_evcallback ev3)) by (unfold bits; by flags).
  destruct (recast_ok b3 x ev3 (add_flag EVLIST_FINALIZING (ev_evcallback ev3))) as [Hok4 Ht4]; try done.
  { rewrite (ctl_timer_same b2 b3) by apply Ht3. rewrite (ctl_timer_same b1 b2) by apply Ht2.
    by rewrite (ctl_timer_same b b1) by apply Ht1. }
  { unfold ev_flags. by flags. }
  { apply event_wf_recast; [done|pose proof (ew_init _ Hwf3); unfold ev_flags in *; by flags|by apply all_flags_add; [apply Hwf3|]|by rewrite <- Hcl3 in Hcode]. }
  split; [done|]. split; [done|]. split; [by repeat (eapply touched_trans; [eassumption|])|].
  eexists. split; [apply lookup_insert_eq|]. unfold bits in Hb4. injection Hb4 as BT BI BA _.
  change (ev_flags ev2) with (ev_flags ev1) in *. rewrite F1 in A3. unfold finalized, ev_flags, ev_closure in *.
  cbn [ev_evcallback with_evcallback add_flag cb_with_flags evcb_flags evcb_closure evcb_cb_union].
  rewrite BT, BI, BA, T3, I3, T1, I1. split; [by flags|]. split; [done|]. split; [done|]. split; [|split; [done|split; [done|]]].
  2:{ destruct R3 as (_ & _ & _ & N3 & _). unfold ev_flags in *. flags. by rewrite N3. }
  destruct (has EVLIST_FINALIZING (evcb_flags (ev_evcallback ev))); [by left|right; apply A3].
Qed.
