(* ===== verification/EventLive.v ===== *)
(** * What the loop relies on

    Beyond the invariant of the base: an event that is being finalized is on no list, a persistent
    event is timed by its own kind of timeout, the callback of a common timeout belongs to the timer
    of a common queue, and the address of the counter of a signal closure is held by the event whose
    callback is running only.  Each function of the interface keeps this. *)

From S2P Require Import Prelude Timeval Event MinHeap EvMap EventBase EventBaseOk EventApi EventCheck EventCalls.

(** ** The invariant *)

(** Two points in time of the same kind: both plain, or both of the same of [n] common queues. *)
Definition same_kind (n : Z) (tv t : timeval) : Prop :=
  tv_normal tv ∧ tv_normal t ∨ ∃ i, 0 <= i < n ∧ common_at i tv ∧ common_at i t.

Record item_live (n : Z) (e : event) : Prop := {
  il_off : has EVLIST_FINALIZING (ev_flags e) = true →
    has EVLIST_TIMEOUT (ev_flags e) = false ∧ has EVLIST_INSERTED (ev_flags e) = false;
  il_closure : finalize_closure (ev_closure e) ↔ has EVLIST_FINALIZING (ev_flags e) = true;
  il_persist : ∀ tv, ev_closure e = EV_CLOSURE_EVENT_PERSIST → ev_io_timeout e = Some tv →
    tv ≠ Timeval 0 0 → same_kind n tv (ev_timeout e)
}.

(** More calls of the callback of the signal event at [x] are due. *)
Definition busy (b : event_base) (x : nat) : Prop :=
  current_event (loop b) = Some (of_event x) ∧ ∃ k m, frame (signal_frame b) = Some (k, m) ∧ m ≠ 0.

(** What marks the timers of common queues. *)
Definition library_event (e : event) : Prop :=
  evcb_cb_union (ev_evcallback e) = common_timeout_cb ∨ has EVLIST_INTERNAL (ev_flags e) = true.

Record live (b : event_base) : Prop := {
  lv_events : ∀ x e, evs b !! x = Some e → item_live (n_common_timeouts b) e;
  lv_alone : ∀ k c, cbs b !! k = Some c →
    has EVLIST_FINALIZING (evcb_flags c) = true ↔ evcb_closure c = EV_CLOSURE_CB_FINALIZE;
  lv_timers : ∀ x e, evs b !! x = Some e → library_event e → ctl_timer b x;
  lv_frame : ∀ x k, points b x k → ∃ m, frame (signal_frame b) = Some (k, m) ∧ m ≠ 0 ∧
    current_event (loop b) = Some (of_event x)
}.

Definition signal_at (b : event_base) (x : nat) : Prop :=
  ∃ e, evs b !! x = Some e ∧ has EV_SIGNAL (ev_events e) = true.

(** event_free_finalize has been called and the event is on no list: it is about to be freed. *)
Definition doomed_event (e : event) : Prop :=
  has EVLIST_FINALIZING (ev_flags e) = true ∧ ev_closure e = EV_CLOSURE_EVENT_FINALIZE_FREE ∧ idle (ev_evcallback e).
Definition doomed (b : event_base) (x : nat) : Prop := ∃ e, evs b !! x = Some e ∧ doomed_event e.

(** No timer of a common queue has become active. *)
Definition quiet (b b' : event_base) : Prop :=
  ∀ y, ctl_timer b' y → active_at b' y → ctl_timer b y ∧ active_at b y.
Lemma quiet_trans b1 b2 b3 : quiet b1 b2 → quiet b2 b3 → quiet b1 b3.
Proof. intros A B y H1 H2. destruct (B y H1 H2). by apply A. Qed.

(** The calls of a signal that are under way go on, nobody else frees what is to be freed, the timers
    of the common queues are quiet. *)
Record held (b b' : event_base) : Prop := {
  hd_frame : signal_frame b' = signal_frame b;
  hd_current : current_event (loop b') = current_event (loop b);
  hd_queues : nactivequeues b' = nactivequeues b;
  hd_signal : ∀ x, busy b x → signal_at b x → signal_at b' x;
  hd_doomed : ∀ x, doomed b x → doomed b' x;
  hd_quiet : quiet b b'
}.

Lemma held_refl b : held b b.
Proof. by split. Qed.
Lemma held_busy b b' x : held b b' → busy b' x ↔ busy b x.
Proof. intros [H1 H2 _ _ _ _]. unfold busy. by rewrite H1, H2. Qed.
Lemma held_trans b1 b2 b3 : held b1 b2 → held b2 b3 → held b1 b3.
Proof.
  intros A B. pose proof A as [A1 A2 A3 A4 A5 A6]. pose proof B as [B1 B2 B3 B4 B5 B6].
  split; [congruence..| |auto|by eapply quiet_trans].
  intros x Hb Hs. apply B4; [by apply (held_busy _ _ _ A)|auto].
Qed.

Lemma points_busy b x k : live b → points b x k → busy b x.
Proof. intros Hl Hp. destruct (lv_frame _ Hl x k Hp) as (m & Hf & Hm & Hc). split; [done|]. by exists k, m. Qed.

(** ** Single events *)

Lemma same_kind_mono n m tv t : same_kind n tv t → n <= m → same_kind m tv t.
Proof. intros [?|(i & ? & ?)] ?; [by left|right]. exists i. split; [lia|done]. Qed.
Lemma item_live_mono n m e : item_live n e → n <= m → item_live m e.
Proof. intros [] ?. split; try done. intros. eapply same_kind_mono; eauto. Qed.

Lemma item_live_core n e e' : core e' = core e → item_live n e → item_live n e'.
Proof. intros Hc []. apply core_eq in Hc. rewrite Hc. by split. Qed.

Lemma signal_core b b' x : core <$> evs b' !! x = core <$> evs b !! x → signal_at b x → signal_at b' x.
Proof.
  intros Hc (e & He & Hs). rewrite He in Hc. destruct (evs b' !! x) as [e'|] eqn:E; [|done].
  apply (inj Some), core_eq in Hc. exists e'. split; [done|]. by rewrite Hc.
Qed.

Lemma doomed_core b b' x : core <$> evs b' !! x = core <$> evs b !! x → doomed b x → doomed b' x.
Proof.
  intros Hc (e & He & Hd). rewrite He in Hc. destruct (evs b' !! x) as [e'|] eqn:E; [|done].
  apply (inj Some), core_eq in Hc. exists e'. split; [done|]. by rewrite Hc.
Qed.

(** The closure and the timeout are the same. *)
Lemma item_live_next n e e' :
  item_live n e → requeued (ev_evcallback e) (ev_evcallback e') → ev_timeout e' = ev_timeout e →
  (has EVLIST_FINALIZING (ev_flags e) = true →
     has EVLIST_TIMEOUT (ev_flags e') = false ∧ has EVLIST_INSERTED (ev_flags e') = false) →
  (ev_closure e = EV_CLOSURE_EVENT_PERSIST → ev_ e' = ev_ e ∨ ev_ e' = ev_zero) → item_live n e'.
Proof.
  intros [I1 I2 I3] (Hc & _ & Hf & _) Ht Hoff Hu.
  assert (Hcl : ev_closure e' = ev_closure e) by (unfold ev_closure; by rewrite Hc).
  split; unfold ev_flags in *; rewrite ?Hf, ?Hcl, ?Ht; try done.
  intros tv Hp. unfold ev_io_timeout. destruct (Hu Hp) as [-> | ->]; [by apply I3|]. by intros [= <-].
Qed.

Lemma item_live_idle n e e' :
  item_live n e → requeued (ev_evcallback e) (ev_evcallback e') → ev_timeout e' = ev_timeout e →
  ev_ e' = ev_ e → idle (ev_evcallback e') → item_live n e'.
Proof.
  intros Hl Hr Ht Hu Hid. destruct (idle_flags _ Hid) as (T & I & _). eapply item_live_next; [done|done|done|done|by left].
Qed.

(** A new event. *)
Lemma item_live_new n e events :
  has EVLIST_FINALIZING (ev_flags e) = false → ev_closure e = closure_of events →
  (∀ tv, ev_closure e = EV_CLOSURE_EVENT_PERSIST → ev_io_timeout e = Some tv → tv = Timeval 0 0) → item_live n e.
Proof.
  intros Hf Hc Hu. split.
  - by rewrite Hf.
  - rewrite Hf, Hc. unfold closure_of, finalize_closure.
    split; [|done]. destruct (has EV_SIGNAL events), (has EV_PERSIST events); intros [|]; done.
  - intros tv Hp Hi Hn. destruct Hn. by apply Hu.
Qed.

(** The deadline is of the kind of the timeout. *)
Lemma deadline_kind n tv now :
  valid_tv n tv → n <= MAX_COMMON_TIMEOUTS → tv_normal now →
  same_kind n tv (deadline tv now false (is_common_timeout tv n)).
Proof.
  intros [Ht|(i & Hi & Hat)] Hn Hnow; [left|right].
  - split; [done|by apply deadline_normal].
  - exists i. split; [done|]. split; [done|]. by apply deadline_common.
Qed.

Lemma item_live_added n b ev ev' tv abs :
  base_ok b → item_live n ev → n = n_common_timeouts b → has EVLIST_FINALIZING (ev_flags ev) = false →
  match tv with Some tv => valid_tv n tv ∧ armed b ev' tv abs | None => ev_timeout ev' = ev_timeout ev end →
  (∀ t, tv = Some t → abs = true → ∀ u, ev_io_timeout ev = Some u → u ≠ Timeval 0 0 → same_kind n u t) →
  requeued (ev_evcallback ev) (ev_evcallback ev') →
  ev_ ev' = match tv with Some tv => rearmed ev tv abs | None => ev_ ev end → item_live n ev'.
Proof.
  intros Hok [I1 I2 I3] -> Hfin Htv Habs (Hc & _ & Hf & _) Hu. destruct (bo_heap _ Hok) as (hs & _ & Hlo).
  assert (Hcl : ev_closure ev' = ev_closure ev) by (unfold ev_closure; by rewrite Hc).
  assert (Hf' : has EVLIST_FINALIZING (ev_flags ev') = false) by (unfold ev_flags in *; by rewrite Hf).
  split; rewrite ?Hf'; [done|rewrite Hcl, I2, Hfin; done|]. rewrite Hcl. intros u Hp. unfold ev_io_timeout. rewrite Hu.
  destruct tv as [t|]; [|rewrite Htv; by apply I3]. destruct Htv as (Hv & now & Hnow & _ & Hd).
  unfold rearmed. rewrite Hp, Hd. destruct abs; cbn [negb andb Z.eqb]; [by apply Habs|].
  change (EV_CLOSURE_EVENT_PERSIST =? EV_CLOSURE_EVENT_PERSIST) with true. cbn [andb]. intros [= <-] _.
  apply deadline_kind; [done|apply (lo_max _ _ _ Hlo)|done].
Qed.

(** ** Functions that touch one event *)

(** No call of event_signal_closure is under way. *)
Definition settled (b : event_base) : Prop := live b ∧ frame (signal_frame b) = None.

Lemma settled_time t b : settled b → settled (with_time t b).
Proof. intros [[L1 L2 L3 L4] Hf]. split; [by split|done]. Qed.

Lemma settled_calm b x : settled b → ¬ busy b x.
Proof. intros [_ Hf] (_ & k & m & H & _). congruence. Qed.

Definition live_at (b : event_base) (x : nat) (o : option event) : Prop :=
  ∀ e, o = Some e → item_live (n_common_timeouts b) e ∧
    (library_event e → ctl_timer b x).

Lemma library_requeued e e' :
  requeued (ev_evcallback e) (ev_evcallback e') → library_event e' ↔ library_event e.
Proof. intros (Hr & _ & _ & Hi & _). unfold library_event, ev_flags. rewrite Hi, Hr. done. Qed.

Lemma live_at_next b x ev e' :
  live b → evs b !! x = Some ev → requeued (ev_evcallback ev) (ev_evcallback e') →
  item_live (n_common_timeouts b) e' → live_at b x (Some e').
Proof.
  intros Hl Hx Hr Hi e [= <-]. split; [done|]. intros H. by apply (lv_timers _ Hl x ev), (library_requeued ev e').
Qed.

Lemma live_events b b' x :
  live b → touched (of_event x) b b' → signal_frame b' = signal_frame b → live_at b x (evs b' !! x) → live b'.
Proof.
  intros [L1 L2 L3 L4] Ht Hf Hx. pose proof (touched_common _ _ _ Ht) as Hn. split.
  - intros y e He. rewrite Hn. destruct (decide (y = x)) as [->|Hne]; [by apply Hx|].
    pose proof (to_events _ _ _ Ht y ltac:(congruence)) as Hc. rewrite He in Hc.
    destruct (evs b !! y) as [e0|] eqn:E; [|done]. apply (inj Some) in Hc. eapply item_live_core; [exact Hc|by apply (L1 y)].
  - intros k c Hk. rewrite (to_alone _ _ _ Ht) in Hk by done. by apply (L2 k).
  - intros y e He Hcb. rewrite (ctl_timer_same b b') by apply Ht.
    destruct (decide (y = x)) as [->|Hne]; [by apply (Hx e)|].
    pose proof (to_events _ _ _ Ht y ltac:(congruence)) as Hc. rewrite He in Hc.
    destruct (evs b !! y) as [e0|] eqn:E; [|done]. apply (inj Some), core_eq in Hc. apply (L3 y e0 E). by rewrite Hc in Hcb.
  - intros y k Hp%(touched_points _ _ _ _ _ Ht). rewrite Hf, (to_current _ _ _ Ht). by apply L4.
Qed.

Lemma quiet_touched x b b' :
  touched (of_event x) b b' → (ctl_timer b x → active_at b' x → active_at b x) → quiet b b'.
Proof.
  intros Ht Hx y Hy Ha. rewrite (ctl_timer_same b b') in Hy by apply Ht. split; [done|].
  destruct (decide (y = x)) as [->|Hne]; [by apply Hx|]. eapply active_core; [|exact Ha]. apply Ht. congruence.
Qed.

Lemma live_touched x b b' :
  live b → touched (of_event x) b b' → ¬ ctl_timer b x → signal_frame b' = signal_frame b →
  (busy b x → signal_at b x → signal_at b' x) → (doomed b x → doomed b' x) →
  live_at b x (evs b' !! x) → live b' ∧ held b b'.
Proof.
  intros Hl Ht Hct Hf Hs Hd Hx. split; [by eapply live_events|]. split; [done|apply Ht|apply Ht|..].
  - intros y Hb Hsy. destruct (decide (y = x)) as [->|Hne]; [by apply Hs|].
    eapply signal_core; [|exact Hsy]. apply Ht. congruence.
  - intros y Hdy. destruct (decide (y = x)) as [->|Hne]; [by apply Hd|].
    eapply doomed_core; [|exact Hdy]. apply Ht. congruence.
  - by eapply quiet_touched.
Qed.

(** A function that may stop the calls of the event, when none are due. *)
Lemma live_touched_calm x b b' :
  live b → touched (of_event x) b b' → ¬ ctl_timer b x → ¬ busy b x → (doomed b x → doomed b' x) →
  live_at b x (evs b' !! x) → live b' ∧ held b b'.
Proof.
  intros Hl Ht Hct Hb Hd Hx. apply (live_touched x); try done. apply Ht. intros y k [= <-] Hp. by eapply Hb, points_busy.
Qed.

Lemma settled_touched x b b' :
  settled b → touched (of_event x) b b' → live_at b x (evs b' !! x) → settled b'.
Proof.
  intros Hs Ht Hx. pose proof Hs as [Hl Hf].
  assert (Hf' : signal_frame b' = signal_frame b).
  { apply Ht. intros y k [= <-] Hp. by eapply settled_calm, points_busy. }
  split; [by eapply live_events|by rewrite Hf'].
Qed.

Lemma common_timer_live n i e : common_timer i e → item_live n e.
Proof.
  intros (_ & Hf & He & Hcb). apply (item_live_new n e 0); unfold ev_closure; [done|by rewrite Hcb|]. rewrite Hcb. done.
Qed.

Lemma ctl_timer_item b x e : base_ok b → ctl_timer b x → evs b !! x = Some e → ∃ i, common_timer i e.
Proof.
  intros Hok (ctl & [i Hi]%list_elem_of_lookup & <-) Hx.
  destruct (bo_timers _ (bo_items _ Hok) i ctl Hi) as (_ & ev & E & Ht). simplify_eq. eauto.
Qed.

Lemma ctl_no_signal b x : base_ok b → ctl_timer b x → ¬ signal_at b x.
Proof.
  intros Hok Hc (e & He & Hs). destruct (ctl_timer_item _ _ _ Hok Hc He) as (i & _ & _ & Hev & _). by rewrite Hev in Hs.
Qed.

Lemma ctl_not_doomed b x : base_ok b → ctl_timer b x → ¬ doomed b x.
Proof.
  intros Hok Hc (e & He & Hf & _). destruct (ctl_timer_item _ _ _ Hok Hc He) as (i & _ & Hn & _). congruence.
Qed.

(** The timer of a common queue. *)
Lemma settled_timer x b b' :
  settled b → base_ok b' → touched (of_event x) b b' → ctl_timer b x → settled b'.
Proof.
  intros Hs Hok' Ht Hc. eapply settled_touched; [done|exact Ht|]. intros e He. split; [|done].
  destruct (ctl_timer_item b' x e) as [i Hi]; [done|by rewrite (ctl_timer_same b b') by apply Ht|done|].
  by eapply common_timer_live.
Qed.

Lemma points_signal b x k : points b x k → signal_at b x.
Proof. intros (e & ? & ? & _). by exists e. Qed.

(** event_add, which may also set the timer of a common queue. *)
Lemma live_outside x b b' :
  base_ok b → base_ok b' → live b → outside x b b' → ¬ ctl_timer b x → ¬ busy b x → (doomed b x → doomed b' x) →
  live_at b x (evs b' !! x) → live b' ∧ held b b'.
Proof.
  intros Hok Hok' Hl Ho Hctx Hb Hd Hx. pose proof Hl as [L1 L2 L3 L4].
  assert (Hf : signal_frame b' = signal_frame b).
  { apply Ho. intros y k [->|Hc] Hp; [by eapply Hb, points_busy|]. by apply (ctl_no_signal b y Hok Hc), (points_signal _ _ k). }
  assert (Hn : n_common_timeouts b' = n_common_timeouts b).
  { unfold n_common_timeouts. pose proof (f_equal length (ou_common _ _ _ Ho)) as H. rewrite !length_map in H. by rewrite H. }
  assert (Hold : ∀ y e, evs b' !! y = Some e → y = x ∨ ctl_timer b' y ∨
    ∃ e0, evs b !! y = Some e0 ∧ core e = core e0).
  { intros y e He. destruct (decide (y = x)) as [->|Hne]; [by left|right].
    destruct (decide (Exists (λ c, timeout_event c = y) (common_timeout_queues b'))) as [Hc|Hc].
    - left. by apply Exists_exists in Hc.
    - right. assert (Hc' : ¬ ctl_timer b y).
      { rewrite <- (ctl_timer_same b b') by apply Ho. intros Hct. by apply Hc, Exists_exists. }
      pose proof (ou_events _ _ _ Ho y Hne Hc') as Hce. rewrite He in Hce.
      destruct (evs b !! y) as [e0|]; [|done]. apply (inj Some) in Hce. eauto. }
  split.
  - split.
    + intros y e He. rewrite Hn. destruct (Hold y e He) as [->|[Hc|(e0 & E & Hc)]]; [by apply Hx| |].
      * destruct (ctl_timer_item _ _ _ Hok' Hc He) as [i Hi]. by eapply common_timer_live.
      * eapply item_live_core; [exact Hc|by apply (L1 y)].
    + intros k c Hk. rewrite (ou_alone _ _ _ Ho) in Hk. by apply (L2 k).
    + intros y e He Hcb. destruct (Hold y e He) as [->|[Hc|(e0 & E & Hc)]]; [|done|];
        rewrite (ctl_timer_same b b') by apply Ho; [by apply (Hx e)|].
      apply core_eq in Hc. apply (L3 y e0 E). by rewrite Hc in Hcb.
    + intros y k Hp%(ou_points _ _ _ Ho). rewrite Hf, (ou_current _ _ _ Ho). by apply L4.
  - split; [done|apply Ho|apply Ho|..].
    + intros y Hby Hsy. destruct (decide (y = x)) as [->|Hne]; [done|].
      eapply signal_core; [|exact Hsy]. apply Ho; [done|]. intros Hc. by apply (ctl_no_signal b y).
    + intros y Hdy. destruct (decide (y = x)) as [->|Hne]; [by apply Hd|].
      eapply doomed_core; [|exact Hdy]. apply Ho; [done|]. intros Hc. by apply (ctl_not_doomed b y Hok Hc).
    + intros y Hy Ha. rewrite (ctl_timer_same b b') in Hy by apply Ho. split; [done|].
      apply Ho; [by intros ->|done].
Qed.

Lemma live_requeues b b' :
  live b → requeues b b' → live b' ∧ (evs b' = evs b → held b b').
Proof.
  intros [L1 L2 L3 L4] [R1 R2 R3 R4 R5 R6 R7 R8 R9].
  assert (Hn : n_common_timeouts b' = n_common_timeouts b) by (unfold n_common_timeouts; by rewrite R2).
  split.
  - split.
    + intros y e' He'. destruct (R6 y e' He') as (e & He & Hr & Hw & HT & HI & _). rewrite Hn.
      pose proof (L1 y e He) as Hl. eapply item_live_next; [exact Hl|done|by rewrite Hw|by rewrite HT, HI; apply Hl|].
      intros _. left. by rewrite Hw.
    + intros k c' Hk. destruct (R7 k c' Hk) as [[-> ->]|(c & Hc & (Hr & _ & Hfc & _))]; [done|].
      rewrite Hfc, Hr. cbn. by apply (L2 k c Hc).
    + intros y e' He' Hcb. destruct (R6 y e' He') as (e & He & Hr & _). unfold ctl_timer. rewrite R2.
      apply (L3 y e He). by apply (library_requeued e e').
    + intros y k (e' & He' & Hs & Hp). rewrite R8, R9. apply (L4 y k). destruct (R6 y e' He') as (e & He & _ & Hw & _).
      exists e. rewrite Hw in Hs, Hp. done.
  - intros E. split; [done|done|done|..].
    + intros y _ (e & He & Hs). destruct (R5 y) as [e' He']; [by eexists|]. exists e'. split; [done|].
      destruct (R6 y e' He') as (e0 & He0 & _ & Hw & _). simplify_eq. by rewrite Hw.
    + intros y (e & He & Hf & Hc & Hi). destruct (R5 y) as [e' He']; [by eexists|]. exists e'. split; [done|].
      destruct (R6 y e' He') as (e0 & He0 & (Hr & _ & Hfe & _) & _ & _ & _ & Hid). simplify_eq.
      split_and!; [unfold ev_flags in *; congruence|unfold ev_closure in *; by rewrite Hr|by apply Hid].
    + intros y Hy Ha. unfold ctl_timer, active_at in *. by rewrite <- R2, <- E.
Qed.

Lemma live_commons b b' : base_ok b' → live b → commons_added b b' → live b' ∧ held b b'.
Proof.
  intros Hok' [L1 L2 L3 L4] [C1 C2 C3 C4 C5 C6 C7 C8 C9 C10 C11].
  assert (Hold : ∀ y e, evs b' !! y = Some e → evs b !! y = Some e ∨ ctl_timer b' y).
  { intros y e He. destruct (evs b !! y) as [e0|] eqn:E; [left|right].
    - rewrite C2 in He by (by rewrite E). congruence.
    - by apply C6; rewrite ?He. }
  split.
  - split.
    + intros y e He. destruct (Hold y e He) as [E|Hc].
      * eapply item_live_mono; [by apply (L1 y)|done].
      * destruct (ctl_timer_item _ _ _ Hok' Hc He) as [i Hi]. by eapply common_timer_live.
    + intros k c. rewrite C9. apply L2.
    + intros y e He Hcb. destruct (Hold y e He) as [E|Hc]; [|done]. apply C7. by apply (L3 y e).
    + intros y k (e & He & Hs & Hp). rewrite C10, C11. destruct (Hold y e He) as [E|Hc].
      * apply (L4 y k). by exists e.
      * destruct (ctl_no_signal b' y); [done|done|]. by exists e.
  - split; [done|done|done|..].
    + intros y _ (e & He & Hs). exists e. split; [|done]. by rewrite C2 by (by rewrite He).
    + intros y (e & He & Hs). exists e. split; [|done]. by rewrite C2 by (by rewrite He).
    + intros y Hy Ha. destruct (evs b !! y) as [e|] eqn:E.
      * split; [destruct (C3 y Hy); congruence|]. eapply active_core; [|exact Ha]. by rewrite C2 by (by rewrite E).
      * destruct Ha as (e & He & Ha). destruct (C6 y E) as [_ []]; [by eexists|]. by exists e.
Qed.
