(* ===== verification/EventSystem.v ===== *)
(** * Sequences of calls

    A program that calls the interface of the event base as the documentation asks: every call
    answers, the base stays consistent, and libevent's own check of it passes; what a call to
    event_add or event_del means for the event. *)

From S2P Require Import Prelude Timeval Event MinHeap EvMap EventBase EventBaseOk EventApi EventCheck EventCalls EventLive.

Inductive api_call :=
  | call_assign (x : nat) (fd events : Z) (f : nat) (arg : Z)
  | call_priority_set (x : nat) (pri : Z)
  | call_add (x : nat) (tv : option timeval)
  | call_remove_timer (x : nat)
  | call_del (x : nat)
  | call_active (x : nat) (res ncalls : Z)
  | call_finalize (x : nat) (free : bool) (f : nat)
  | call_free (x : nat)
  | call_init_common (d : timeval)
  | call_deferred_init (c : nat) (priority : Z) (f : nat) (arg : Z)
  | call_deferred_schedule (c : nat)
  | call_deferred_cancel (c : nat)
  | call_loopbreak
  | call_loopcontinue.

Inductive answer := code (r : Z) | common (tv : option timeval) | no_answer.

(** What the caller must see to; [ev] is a live event of its own. *)
Definition own_event (b : event_base) (x : nat) (ev : event) : Prop :=
  evs b !! x = Some ev ∧ ¬ ctl_timer b x.

(** A finalized event is freed by the program when its last callback has been called. *)
Definition may_free (ev : event) : Prop :=
  has EVLIST_FINALIZING (ev_flags ev) = true →
  ev_closure ev ≠ EV_CLOSURE_EVENT_FINALIZE_FREE ∧ idle (ev_evcallback ev).

(** The calls that the theorems are about.  What the documentation asks: events exist and are the
    program's own (not the timers of common queues), they are not set up or freed while pending, a
    signal event waits for its signal alone, durations are normalised or name a common queue, an event
    is finalized once, and its memory is not used again while event_free_finalize is to free it.
    Beyond the documentation, because the code does not survive it: descriptors are below 2^30
    ([EvMap.grow_entries_overflow]); the durations of common timeouts do not have exactly 1000000
    microseconds; an event that is in a common queue is added with an ordinary timeout only if the heap
    has a free place ([may_rearm]); and as long as more calls of its callback are due, the event of a
    signal may be activated or get another priority only, but not be added, deleted, assigned,
    finalized or freed: event_del from the callback stops the calls, but a second one writes through
    a dangling pointer ([EventTimeout.second_del_writes_through_dangling_pointer]). *)
Definition allowed (b : event_base) (c : api_call) : Prop :=
  match c with
  | call_assign x fd events _ _ => may_assign b x fd events ∧ ¬ busy b x ∧
      (∀ ev, evs b !! x = Some ev → ev_closure ev ≠ EV_CLOSURE_EVENT_FINALIZE_FREE)
  | call_add x tv => ¬ busy b x ∧ ∃ ev, own_event b x ev ∧
      match tv with
      | None => True
      | Some tv => valid_tv (n_common_timeouts b) tv ∧ (has EVLIST_TIMEOUT (ev_flags ev) = true → may_rearm b ev tv)
      end
  | call_priority_set x _ | call_active x _ _ => ∃ ev, own_event b x ev
  | call_remove_timer x | call_del x => ¬ busy b x ∧ ∃ ev, own_event b x ev
  | call_finalize x _ _ => ¬ busy b x ∧ ∃ ev, own_event b x ev ∧ has EVLIST_FINALIZING (ev_flags ev) = false
  | call_free x => ¬ busy b x ∧ ∃ ev, own_event b x ev ∧ may_free ev
  | call_init_common d => valid_duration d ∧ Z.of_nat (size (evs b)) + 2 < 2 ^ 31
  | call_deferred_init c pri _ _ => (∀ cb, cbs b !! c = Some cb → idle cb) ∧ 0 <= pri < nactivequeues b
  | call_deferred_schedule c | call_deferred_cancel c => is_Some (cbs b !! c)
  | call_loopbreak | call_loopcontinue => True
  end.

Section system.
Context (mm : nat → Z → bool) (backend : history → backend_call → bool) (fdinfo_len : Z) (clock : nat → timeval).

Definition api_step (c : api_call) : EM answer :=
  match c with
  | call_assign x fd events f arg => code <$> event_assign x fd events (user_cb f) arg
  | call_priority_set x pri => code <$> event_priority_set x pri
  | call_add x tv => code <$> event_add mm backend fdinfo_len clock x tv
  | call_remove_timer x => code <$> event_remove_timer x
  | call_del x => code <$> event_del backend x
  | call_active x res ncalls => event_active x res ncalls;; mret no_answer
  | call_finalize x free f => code <$> event_finalize_impl_ backend free x (user_cb f)
  | call_free x => event_free backend x;; mret no_answer
  | call_init_common d => common <$> event_base_init_common_timeout mm d
  | call_deferred_init c pri f arg => event_deferred_cb_init_ c pri (user_cb f) arg;; mret no_answer
  | call_deferred_schedule c => code <$> event_deferred_cb_schedule_ (alone c)
  | call_deferred_cancel c => event_deferred_cb_cancel_ backend (alone c);; mret no_answer
  | call_loopbreak => code <$> event_base_loopbreak
  | call_loopcontinue => code <$> event_base_loopcontinue
  end.

Fixpoint api_run (cs : list api_call) : EM (list answer) :=
  match cs with
  | [] => mret []
  | c :: cs => a ← api_step c; l ← api_run cs; mret (a :: l)
  end.

Fixpoint obeys (cs : list api_call) (b : event_base) : Prop :=
  match cs with
  | [] => True
  | c :: cs => allowed b c ∧ ∀ a b', api_step c b = Some (a, b') → obeys cs b'
  end.

Hypothesis clock_good : clock_ok clock.

Lemma own_event_add b x ev tv :
  own_event b x ev → match tv with
      | None => True
      | Some tv => valid_tv (n_common_timeouts b) tv ∧ (has EVLIST_TIMEOUT (ev_flags ev) = true → may_rearm b ev tv)
      end → may_add b x ev tv false.
Proof.
  intros [_ Hct] H. destruct tv as [tv|]; [|done]. destruct H as [Hv Hr]. split; [|split; [done|done]].
  destruct Hv as [?|?]; [by left|by right].
Qed.

Lemma event_add_ok b x ev tv :
  api_ok b → own_event b x ev → match tv with
      | None => True
      | Some tv => valid_tv (n_common_timeouts b) tv ∧ (has EVLIST_TIMEOUT (ev_flags ev) = true → may_rearm b ev tv)
      end →
  wp (event_add mm backend fdinfo_len clock x tv) b (λ r b', api_ok b' ∧ outside x b b' ∧ add_outcome b x ev tv false r b').
Proof.
  intros [Hok Hc Hn Hq] Hown Htv. pose proof (own_event_add _ _ _ _ Hown Htv) as Hmay. destruct Hown as [Hx _].
  unfold event_add. apply wp_bind, (wp_get_event x ev); [done|].
  rewrite (ew_base _ (bo_wf _ (bo_items _ Hok) x ev Hx)). cbn [negb].
  eapply wp_mono; [by apply add_nolock_ok|]. intros r b' ((Hok' & Hn' & Hou & _) & _ & Hout).
  split; [|done]. split; [done| |done|by rewrite (ou_queues _ _ _ Hou)]. unfold cache_ok. by rewrite (ou_cache _ _ _ Hou).
Qed.

Lemma stage_api b x ev c b' : api_ok b → stage x ev b c b' → ¬ ctl_timer b x → api_ok b'.
Proof. intros Hb [] Hc. by eapply api_touched. Qed.

Lemma event_del_ok b x ev :
  api_ok b → own_event b x ev →
  wp (event_del backend x) b (λ r b', api_ok b' ∧ if has EVLIST_FINALIZING (ev_flags ev) then r = 0 ∧ b' = b
    else ∃ c, stage x ev b c b' ∧ idle c).
Proof.
  intros Hb [Hx Hct]. unfold event_del. eapply wp_mono; [apply (del_nolock_ok backend x false ev b); [by destruct Hb|done]|].
  intros r b' H. cbn [negb andb] in H. destruct (has EVLIST_FINALIZING _); [by destruct H as [-> ->]|].
  split; [|done]. destruct H as (c & Hs & _). by eapply stage_api.
Qed.

(** Everything that holds between two calls. *)
Record prog_ok (b : event_base) : Prop := { po_api : api_ok b; po_live : live b }.

Definition keeps (b b' : event_base) : Prop := prog_ok b' ∧ held b b'.

Lemma keeps_touched x b b' :
  prog_ok b → base_ok b' → touched (of_event x) b b' → ¬ ctl_timer b x → ¬ busy b x →
  (doomed b x → doomed b' x) → live_at b x (evs b' !! x) → keeps b b'.
Proof.
  intros [Ha Hl] Hok Ht Hct Hb Hd Hx. destruct (live_touched_calm x b b' Hl Ht Hct Hb Hd Hx) as [Hl' Hh].
  split; [|done]. split; [by eapply api_touched|done].
Qed.

Lemma keeps_requeues b b' : prog_ok b → base_ok b' → requeues b b' → evs b' = evs b → keeps b b'.
Proof.
  intros [Ha Hl] Hok Hr He. destruct (live_requeues b b' Hl Hr) as [Hl' Hh]. split; [|auto].
  split; [by eapply api_requeues|done].
Qed.

Lemma not_doomed b x ev : evs b !! x = Some ev → ¬ doomed_event ev → ¬ doomed b x.
Proof. intros Hx Hn (e & He & Hd). simplify_eq. done. Qed.

(** An event on no list stays so when flags about queues are cleared. *)
Lemma doomed_next b b' x ev e' :
  evs b !! x = Some ev → evs b' !! x = Some e' → requeued (ev_evcallback ev) (ev_evcallback e') →
  (idle (ev_evcallback ev) → idle (ev_evcallback e')) → doomed b x → doomed b' x.
Proof.
  intros Hx Hx' (Hr & _ & Hf & _) Hid (e & He & D1 & D2 & D3). simplify_eq. exists e'. split; [done|].
  split_and!; [unfold ev_flags in *; congruence|unfold ev_closure in *; by rewrite Hr|auto].
Qed.

Lemma live_pos b x e pos : live_at b x (Some e) → live_at b x (Some (with_pos pos e)).
Proof. intros H e' [= <-]. destruct (H e eq_refl) as [[] ?]. split; [by split|done]. Qed.

Lemma assign_keeps x fd events f arg b :
  prog_ok b → allowed b (call_assign x fd events f arg) →
  wp (event_assign x fd events (user_cb f) arg) b (λ _ b', keeps b b').
Proof.
  intros Hp (Hm & Hb & Hcl). destruct Hp as [Hapi Hl] eqn:Ep. clear Ep. pose proof Hapi as [Hok _ _ Hq].
  eapply wp_mono; [by apply assign_ok|]. intros r b' (_ & Hok' & Ht & _ & e & He & Hcb & _ & _ & _ & _ & _ & Hu).
  eapply keeps_touched; [by split|done|done|apply Hm|done| |].
  { intros (e0 & He0 & _ & Hc0 & _). by destruct (Hcl e0 He0). }
  rewrite He. intros ? [= <-]. split; [|unfold library_event, ev_flags; rewrite Hcb; by intros [|]].
  apply (item_live_new _ e events); unfold ev_flags, ev_closure; rewrite ?Hcb; [done|done|].
  intros tv _. unfold ev_io_timeout. destruct Hu as [-> | ->]; [by intros [= <-]|done].
Qed.

Lemma priority_keeps x pri b ev :
  prog_ok b → own_event b x ev → wp (event_priority_set x pri) b (λ _ b', keeps b b').
Proof.
  intros [Hapi Hl] [Hx Hct]. pose proof Hapi as [Hok _ _ _]. pose proof (lv_events _ Hl x ev Hx) as Hi.
  eapply wp_mono; [by eapply priority_set_ok|]. intros r b' (Hok' & Ht & _ & Hf & Hr).
  assert (Hx' : evs b' !! x = Some ev ∨ evs b' !! x = Some (with_pri pri ev)).
  { destruct (_ || _); [left; by destruct Hr as [_ ->]|by right; destruct Hr]. }
  destruct (live_touched x b b' Hl Ht Hct Hf) as [Hl' Hh].
  - intros _ (e & He & Hs). simplify_eq. destruct Hx' as [Hx'|Hx']; eexists; (split; [exact Hx'|done]).
  - intros (e & He & Hd). simplify_eq. destruct Hx' as [Hx'|Hx']; eexists; (split; [exact Hx'|done]).
  - intros e He. assert (item_live (n_common_timeouts b) e ∧ (library_event e → library_event ev)) as [? Hlib].
    { destruct Hx' as [Hx'|Hx']; rewrite Hx' in He; injection He as <-; [done|]. split; [by destruct Hi; split|done]. }
    split; [done|]. intros H0. by apply (lv_timers _ Hl x ev), Hlib.
  - split; [|done]. split; [by eapply api_touched|done].
Qed.

(** An absolute point in time is of the kind of the timeout of a persistent event. *)
Definition fits (ev : event) (n : Z) (tv : option timeval) (abs : bool) : Prop :=
  ∀ t, tv = Some t → abs = true → ∀ u, ev_io_timeout ev = Some u → u ≠ Timeval 0 0 → same_kind n u t.

Lemma add_nolock_keeps x tv abs ev b :
  prog_ok b → own_event b x ev → ¬ busy b x → may_add b x ev tv abs → fits ev (n_common_timeouts b) tv abs →
  wp (event_add_nolock_ mm backend fdinfo_len clock x tv abs) b (λ r b', keeps b b' ∧ outside x b b' ∧
    add_outcome b x ev tv abs r b').
Proof.
  intros [Hapi Hl] [Hx Hct] Hb Hmay Hfits. pose proof Hapi as [Hok Hc Hn Hq].
  eapply wp_mono; [by apply add_nolock_ok|]. intros r b' ((Hok' & Hn' & Hou & _) & _ & Hout). split; [|done].
  assert (Hapi' : api_ok b').
  { split; [done| |done|by rewrite (ou_queues _ _ _ Hou)]. unfold cache_ok. by rewrite (ou_cache _ _ _ Hou). }
  assert (Hat : live_at b x (evs b' !! x)).
  { destruct Hout as [[_ Hc']|(_ & Hfin & ev' & Hx' & Had & Htv')].
    - rewrite Hx in Hc'. destruct (evs b' !! x) as [e|] eqn:He; [|done]. apply (inj Some), core_eq in Hc'. rewrite Hc'.
      apply live_pos. eapply live_at_next; [done|done|apply requeued_refl|by apply (lv_events _ Hl x)].
    - rewrite Hx'. eapply live_at_next; [done|done|apply Had|].
      apply (item_live_added _ b ev ev' tv abs); try done; [by apply (lv_events _ Hl x)| |apply Had|apply Had].
      destruct tv as [tv|]; [|done]. split; [|done]. apply Hmay. }
  assert (Hd : doomed b x → doomed b' x).
  { destruct Hout as [[_ Hc']|(_ & Hfin & _)]; [by apply doomed_core|]. intros (e & He & Hfe & _). congruence. }
  destruct (live_outside x b b') as [Hl' Hh]; [done..|]. by split.
Qed.

Lemma add_keeps x tv b :
  prog_ok b → allowed b (call_add x tv) →
  wp (event_add mm backend fdinfo_len clock x tv) b (λ _ b', keeps b b').
Proof.
  intros Hp (Hb & ev & Hown & Htv). pose proof Hown as [Hx _].
  unfold event_add. apply wp_bind, (wp_get_event x ev); [done|].
  rewrite (ew_base _ (bo_wf _ (bo_items _ (api_base _ (po_api _ Hp))) x ev Hx)). cbn [negb].
  eapply wp_mono; [apply (add_nolock_keeps x tv false ev b Hp Hown Hb); [by apply (own_event_add b x ev tv)|by intros ? _]|].
  by intros r b' [? _].
Qed.

Lemma remove_timer_keeps x b ev :
  prog_ok b → own_event b x ev → ¬ busy b x → wp (event_remove_timer x) b (λ _ b', keeps b b').
Proof.
  intros Hp Hown Hb. pose proof Hp as [Hapi Hl]. pose proof Hown as [Hx Hct]. pose proof (lv_events _ Hl x ev Hx) as Hi.
  eapply wp_mono; [eapply remove_timer_ok; [apply Hapi|done]|].
  intros r b' (_ & Hok' & Ht & Hpe & ev' & pos & Hx' & Hr & Hw & Hu & HI & Hid).
  eapply keeps_touched; try done; [by eapply doomed_next; [exact Hx|exact Hx'| |]|]. rewrite Hx'. apply live_pos. eapply live_at_next; [done|done|exact Hr|].
  eapply item_live_next; [exact Hi|exact Hr|by rewrite Hw| |intros _; by destruct Hu; [right|left]].
  intros Hf. split; [|by rewrite HI; apply Hi]. unfold pending in Hpe. rewrite Hx' in Hpe. cbn in Hpe.
  change (ev_flags (with_pos pos ev')) with (ev_flags ev') in Hpe. by destruct (has EVLIST_TIMEOUT (ev_flags ev')).
Qed.

Lemma keeps_loop l b : prog_ok b → current_event l = current_event (loop b) → keeps b (with_loop l b).
Proof.
  intros [[Hok Hc Hn Hq] [L1 L2 L3 L4]] Hl. split.
  - split; [by split; [apply base_ok_loop|..]|]. split; try done. intros x k Hp. bcbn. rewrite Hl. by apply L4.
  - by split.
Qed.

Lemma keeps_refl b : prog_ok b → keeps b b.
Proof. intros H. split; [done|apply held_refl]. Qed.

Lemma del_keeps x b ev :
  prog_ok b → own_event b x ev → ¬ busy b x →
  wp (event_del backend x) b (λ _ b', keeps b b' ∧
    if has EVLIST_FINALIZING (ev_flags ev) then b' = b
    else touched (of_event x) b b' ∧ ∃ e, evs b' !! x = Some e ∧ idle (ev_evcallback e) ∧
      has EVLIST_FINALIZING (ev_flags e) = false).
Proof.
  intros Hp Hown Hb. pose proof Hp as [Hapi Hl]. pose proof Hown as [Hx Hct]. pose proof (lv_events _ Hl x ev Hx) as Hi.
  eapply wp_mono; [by eapply event_del_ok|]. intros r b' [Hapi' H].
  destruct (has EVLIST_FINALIZING (ev_flags ev)) eqn:Hf; [destruct H as [_ ->]; by split; [apply keeps_refl|]|].
  destruct H as (c & [Hok' Ht _ [pos Hx'] Hr] & Hid). split.
  - eapply keeps_touched; try done; [intros (e & He & Hfe & _); congruence|]. rewrite Hx'. apply live_pos. eapply live_at_next; [done|done|exact Hr|].
    by eapply item_live_idle.
  - split; [done|]. eexists. split; [exact Hx'|]. split; [done|]. destruct Hr as (_ & _ & Hr & _).
    unfold ev_flags in *. cbn. congruence.
Qed.

Lemma activated_keeps x res b b' ev ev' :
  prog_ok b → own_event b x ev → base_ok b' → touched (of_event x) b b' → signal_frame b' = signal_frame b →
  evs b' !! x = Some ev' → activated ev ev' res → keeps b b'.
Proof.
  intros [Hapi Hl] [Hx Hct] Hok' Ht Hf Hx' (T & I & R & Htm & _ & He & Hu & Hact).
  pose proof (bo_items _ (api_base _ Hapi)) as Hit. pose proof (lv_events _ Hl x ev Hx) as Hi.
  destruct (live_touched x b b' Hl Ht Hct Hf) as [Hl' Hh].
  - intros _ (e & Hxe & Hs). simplify_eq. exists ev'. by rewrite He.
  - intros (e & Hxe & Hfe & Hd). simplify_eq. rewrite Hfe in Hact. subst ev'. by exists ev.
  - rewrite Hx'. eapply (live_at_next b x ev); [done|done|exact R|]. eapply item_live_next; [exact Hi|exact R|done| |].
    + rewrite T, I. apply Hi.
    + intros Hc. left. apply Hu. by apply (ew_persist _ (bo_wf _ Hit x ev Hx) Hc).
  - split; [|done]. split; [by eapply api_touched|done].
Qed.

Lemma active_keeps x res ncalls b ev :
  prog_ok b → own_event b x ev → wp (event_active x res ncalls) b (λ _ b', keeps b b').
Proof.
  intros Hp Hown. eapply wp_mono; [eapply active_ok; [apply Hp|apply Hown]|].
  intros a b' (Hok' & Ht & Hf & _ & ev' & Hx' & Hact). by eapply activated_keeps.
Qed.

Lemma finalize_keeps x free f b ev :
  prog_ok b → own_event b x ev → ¬ busy b x → has EVLIST_FINALIZING (ev_flags ev) = false →
  wp (event_finalize_impl_ backend free x (user_cb f)) b (λ _ b', keeps b b').
Proof.
  intros Hp [Hx Hct] Hb Hnf. pose proof Hp as [Hapi Hl]. pose proof Hapi as [Hok _ _ _].
  pose proof (lv_events _ Hl x ev Hx) as Hi. unfold event_finalize_impl_. apply wp_bind, (wp_get_event x ev); [done|].
  rewrite (ew_base _ (bo_wf _ (bo_items _ Hok) x ev Hx)). cbn [negb].
  eapply wp_mono; [by apply (finalize_ok backend free x _ ev)|].
  intros r b' (_ & Hok' & Ht & ev' & Hx' & F & C & U & _ & T & I & N). eapply keeps_touched; try done.
  { intros (e & He & Hfe & _). congruence. }
  rewrite Hx'. intros ? [= <-]. split.
  2:{ unfold library_event. rewrite U, N. intros [?|Hn]; [done|]. by destruct Hct; apply (lv_timers _ Hl x ev Hx); right. }
  assert (Hcode : finalize_closure (finalize_code free)) by (destruct free; [by right|by left]).
  split; rewrite ?C, ?F; [|done|].
  - intros _. by rewrite T, I, Hnf, !andb_false_r.
  - intros tv Hpe. rewrite Hpe in Hcode. by destruct Hcode.
Qed.

(** The memory of an event on no list is given back. *)
Lemma release_ok x b e :
  base_ok b → own_event b x e → idle (ev_evcallback e) →
  wp (mm_free_event x) b (λ _ b', base_ok b' ∧ touched (of_event x) b b' ∧ evs b' !! x = None ∧
    signal_frame b' = signal_frame b).
Proof.
  intros Hok [Hx Hct] Hid. unfold mm_free_event. apply wp_bind, (wp_get_event x e); [done|]. apply wp_modify.
  split; [|split; [|split; [apply lookup_delete_eq|done]]].
  - apply forget_ok; [done|rewrite Hx; by intros ? [= <-]|done].
  - split; try done; bcbn.
    + intros y Hy. rewrite lookup_delete_ne; [done|congruence].
    + intros y k [= <-] (e0 & He & _). bcbn. by rewrite lookup_delete_eq in He.
Qed.

Lemma release_keeps x b e :
  prog_ok b → own_event b x e → ¬ busy b x → ¬ doomed b x → idle (ev_evcallback e) →
  wp (mm_free_event x) b (λ _ b', keeps b b').
Proof.
  intros Hp Hown Hb Hd Hid. eapply wp_mono; [apply (release_ok x b e); [apply Hp|done|done]|].
  intros a b' (Hok' & Ht & Hx & _). eapply keeps_touched; [done|done|done|apply Hown|done|done|by rewrite Hx].
Qed.

Lemma free_keeps x b ev :
  prog_ok b → own_event b x ev → ¬ busy b x → may_free ev → wp (event_free backend x) b (λ _ b', keeps b b').
Proof.
  intros Hp Hown Hb Hfree. unfold event_free. apply wp_bind. eapply wp_mono; [by eapply del_keeps|].
  intros r b1 [[Hp1 Hh1] H]. assert (∃ e, own_event b1 x e ∧ ¬ doomed b1 x ∧ idle (ev_evcallback e)) as (e & Hown1 & Hd & Hid).
  { destruct Hown as [Hx Hct]. destruct (has EVLIST_FINALIZING (ev_flags ev)) eqn:Hf.
    - subst b1. destruct (Hfree Hf) as [Hc Hid]. exists ev. split; [done|]. split; [|done].
      apply (not_doomed b x ev Hx). by intros (_ & ? & _).
    - destruct H as (Ht & e & E & Hid & Hfe). exists e. split; [|split; [|done]].
      + split; [done|]. by rewrite (ctl_timer_same b b1) by apply Ht.
      + apply (not_doomed b1 x e E). intros (? & _). congruence. }
  assert (Hb1 : ¬ busy b1 x) by by rewrite (held_busy b b1).
  eapply wp_mono; [by eapply release_keeps|]. intros a b' [? ?]. split; [done|by eapply held_trans].
Qed.

(** Every allowed call answers and keeps the invariant. *)
Lemma api_step_ok c b : prog_ok b → allowed b c → wp (api_step c) b (λ _ b', keeps b b').
Proof.
  intros Hp. pose proof Hp as [Hapi Hl]. pose proof Hapi as [Hok Hc Hn Hq]. destruct c; cbn [allowed api_step].
  - intros Hm. apply wp_fmap. by apply assign_keeps.
  - intros (ev & Hown). apply wp_fmap. by eapply priority_keeps.
  - intros Ha. apply wp_fmap. by apply add_keeps.
  - intros (Hb & ev & Hown). apply wp_fmap. by eapply remove_timer_keeps.
  - intros (Hb & ev & Hown). apply wp_fmap. eapply wp_mono; [by eapply del_keeps|]. by intros r b' [? _].
  - intros (ev & Hown). apply wp_bind. eapply wp_mono; [by eapply active_keeps|]. intros a b' H. by apply wp_ret.
  - intros (Hb & ev & Hown & Hf). apply wp_fmap. by eapply finalize_keeps.
  - intros (Hb & ev & Hown & Hf). apply wp_bind. eapply wp_mono; [by eapply free_keeps|]. intros a b' H. by apply wp_ret.
  - intros [Hd Hsz]. apply wp_fmap. eapply wp_mono; [by apply init_common_ok|]. intros r b' (Hok' & Hca & _).
    destruct (live_commons b b' Hok' Hl Hca) as [Hl' Hh]. split; [|done]. split; [by eapply api_commons|done].
  - intros [Hid Hpri]. apply wp_bind. eapply wp_mono; [by apply deferred_init_ok|]. intros _ b' (Hok' & Hr & He).
    apply wp_ret. by apply keeps_requeues.
  - intros [cb Hcb]. apply wp_fmap. eapply wp_mono; [by eapply deferred_schedule_ok|]. intros _ b' (Hok' & Hr & He).
    by apply keeps_requeues.
  - intros [cb Hcb]. apply wp_bind. eapply wp_mono; [by eapply cancel_alone_ok|]. intros _ b' (Hok' & Hr & He).
    apply wp_ret. by apply keeps_requeues.
  - intros _. apply wp_fmap, wp_bind, wp_modify, wp_ret. by apply keeps_loop.
  - intros _. apply wp_fmap, wp_bind, wp_modify, wp_ret. by apply keeps_loop.
Qed.

Lemma api_run_ok cs b : prog_ok b → obeys cs b → wp (api_run cs) b (λ l b', keeps b b' ∧ length l = length cs).
Proof.
  revert b. induction cs as [|c cs IH]; intros b Hb Hob; [by apply wp_ret; split; [apply keeps_refl|]|].
  destruct Hob as [Ha Hob]. destruct (api_step_ok c b Hb Ha) as (a & b1 & E & [Hb1 Hh1]). cbn [api_run]. apply wp_bind. exists a, b1. split; [done|].
  apply wp_bind. eapply wp_mono; [by apply IH, (Hob a)|]. intros l b2 [[Hb2 Hh2] Hl]. apply wp_ret.
  split; [|cbn; by rewrite Hl]. split; [done|by eapply held_trans].
Qed.
End system.

(** ** What consistency means *)

(** The base holds no pointer to the event at [x]. *)
Record unreferenced (b : event_base) (x : nat) : Prop := {
  ur_heap : ∀ i, 0 <= i < heap_n (timeheap b) → ¬ slot (timeheap b) i = Some x;
  ur_common : ∀ ctl, ctl ∈ common_timeout_queues b → (x ∉ ctl_events ctl) ∧ (timeout_event ctl ≠ x);
  ur_active : ∀ q, q ∈ activequeues b → of_event x ∉ q;
  ur_later : of_event x ∉ active_later_queue b;
  ur_fds : ∀ fd, ¬ on_fd (maps b) fd x;
  ur_signals : ∀ sig, ¬ on_signal (maps b) sig x
}.

Lemma idle_unreferenced b x :
  base_ok b → idle_event (evs b !! x) → ¬ ctl_timer b x → unreferenced b x.
Proof.
  intros Hok Hid Hct. pose proof (idle_pending _ _ Hid) as Hp. pose proof (idle_inserted _ _ Hid) as Hi.
  assert (HW : ∀ a l pri, where_ <$> callback_at b (of_event x) = Some (a, l, pri) → a = false ∧ l = false).
  { cbn. destruct (evs b !! x) as [e|]; [|done]. intros a l pri [= <- <- _].
    destruct (idle_flags _ (Hid e eq_refl)) as (_ & _ & ? & ?). done. }
  destruct (bo_heap _ Hok) as (hs & Hr & Hlo). destruct (bo_queues _ Hok) as [Hqa Hql _ _ _].
  destruct (bo_inserted _ Hok) as [Hf Hs _]. split.
  - intros i Hn Hx. rewrite (rep_n _ _ _ _ (proj1 Hr 0%nat)) in Hn.
    destruct (lookup_lt_is_Some_2 hs (Z.to_nat i)) as [y Hy]; [lia|].
    destruct (heap_rep_slot _ _ _ _ _ Hr Hy) as [Hsl _]. rewrite Z2Nat.id, Hx in Hsl by lia. simplify_eq.
    apply list_elem_of_lookup_2, (lo_heap _ _ _ Hlo) in Hy as (t & Ht & _). congruence.
  - intros ctl Hc. split; [|intros Hx; apply Hct; by exists ctl]. apply list_elem_of_lookup in Hc as [i Hc].
    intros (t & Ht & _)%(lo_common _ _ _ Hlo _ _ Hc). congruence.
  - intros q [i Hq]%list_elem_of_lookup H. apply (Hqa _ _ Hq), HW in H as [[=] _].
  - intros H. apply Hql in H as [pri H]. apply HW in H as [_ [=]].
  - intros fd H. apply Hf in H as (_ & ? & H & _). congruence.
  - intros sig H. apply Hs in H as (_ & ? & H & _). congruence.
Qed.

(** What inserted events wait for is what is counted for their descriptors. *)
Lemma inserted_waiting b x ev bit :
  base_ok b → evs b !! x = Some ev → has EVLIST_INSERTED (ev_flags ev) = true → condition bit →
  has bit (ev_events ev) = true → 0 <= ev_fd ev → 0 < waiting (maps b) (ev_fd ev) bit.
Proof.
  intros Hok Hx Hi Hc Hb Hfd. destruct (bo_maps _ Hok) as [Hio _ _ _].
  assert (Hon : on_fd (maps b) (ev_fd ev) x).
  { apply (io_fds _ _ (bo_inserted _ Hok)). split; [done|]. exists (ev_events ev). split.
    - unfold inserted. rewrite Hx. cbn. by rewrite Hi.
    - unfold IO_EVENTS. rewrite !has_or. destruct Hc as [->|[->| ->]]; rewrite Hb; by rewrite ?orb_true_r. }
  destruct Hon as (_ & ctx & Hctx & Hin). unfold waiting. rewrite Hctx.
  rewrite (ioe_count _ _ _ (Hio _ _ Hfd Hctx) bit Hc).
  apply elem_of_Permutation in Hin as [l Hl]. rewrite (count_events_perm _ _ _ _ Hl), count_events_cons.
  unfold events_of. rewrite Hx. cbn. rewrite Hb. pose proof (count_events_nonneg (evs b) bit l). cbn. lia.
Qed.

Lemma waiting_inserted b fd bit :
  base_ok b → 0 <= fd → condition bit → 0 < waiting (maps b) fd bit →
  ∃ x ev, evs b !! x = Some ev ∧ has EVLIST_INSERTED (ev_flags ev) = true ∧ ev_fd ev = fd ∧ has bit (ev_events ev) = true.
Proof.
  intros Hok Hfd Hc Hw. destruct (bo_maps _ Hok) as [Hio _ _ _].
  unfold waiting in Hw. destruct (io_entry (maps b) fd) as [ctx|] eqn:Hctx; [|lia].
  rewrite (ioe_count _ _ _ (Hio _ _ Hfd Hctx) bit Hc) in Hw. unfold count_events in Hw.
  destruct (filter _ (io_events ctx)) as [|x l] eqn:Hfl; [cbn in Hw; lia|].
  assert (Hx : x ∈ filter (λ x, has bit (from_option ev_events 0 (evs b !! x)) = true) (io_events ctx)) by (rewrite Hfl; by left).
  apply list_elem_of_filter in Hx as [Hb Hin].
  assert (Hon : on_fd (maps b) fd x) by (split; [done|eauto]).
  apply (io_fds _ _ (bo_inserted _ Hok)) in Hon as (_ & es & (ev & Hev & Hi & Hf & _)%inserted_event & _).
  rewrite Hev in Hb. by exists x, ev.
Qed.

(** What an inserted event waits for is watched by the backend. *)
Lemma inserted_watched b x ev bit :
  base_ok b → evs b !! x = Some ev → has EVLIST_INSERTED (ev_flags ev) = true → condition bit →
  has bit (ev_events ev) = true → 0 <= ev_fd ev → watched (calls (maps b)) (ev_fd ev) bit = true.
Proof. intros Hok Hx Hi Hc Hb Hfd. apply (em_watch _ _ (bo_maps _ Hok)); [done|done|by eapply inserted_waiting]. Qed.

(** The backend watches nothing else, unless it has refused to stop. *)
Lemma watched_inserted b fd bit :
  base_ok b → 0 <= fd → condition bit → ¬ del_failed (calls (maps b)) → watched (calls (maps b)) fd bit = true →
  ∃ x ev, evs b !! x = Some ev ∧ has EVLIST_INSERTED (ev_flags ev) = true ∧ ev_fd ev = fd ∧ has bit (ev_events ev) = true.
Proof. intros Hok Hfd Hc Hnd Hw. apply waiting_inserted; [done..|]. by apply (em_watch _ _ (bo_maps _ Hok)). Qed.

(** ** The discipline, decided *)

Definition is_ctl_timer (b : event_base) (x : nat) : bool :=
  existsb (λ ctl, bool_decide (timeout_event ctl = x)) (common_timeout_queues b).
Definition check_own (b : event_base) (x : nat) (k : event → bool) : bool :=
  match evs b !! x with Some ev => negb (is_ctl_timer b x) && k ev | None => false end.
Definition is_idle (c : event_callback) : bool := bool_decide (idle c).
Definition is_idle_event (o : option event) : bool :=
  match o with Some ev => is_idle (ev_evcallback ev) | None => true end.
Definition is_normal (tv : timeval) : bool := (0 <=? tv_usec tv) && (tv_usec tv <? 1000000).
Definition is_valid_tv (n : Z) (tv : timeval) : bool :=
  is_normal tv ||
  (let i := tv_usec tv / 2 ^ 20 - 1280 in (0 <=? i) && (i <? n) && is_normal (real_timeout tv)).
Definition has_room (b : event_base) : bool := heap_n (timeheap b) <? heap_a (timeheap b).
Definition is_busy (b : event_base) (x : nat) : bool :=
  bool_decide (current_event (loop b) = Some (of_event x)) &&
  match frame (signal_frame b) with Some (_, m) => negb (m =? 0) | None => false end.

Definition is_allowed (b : event_base) (c : api_call) : bool :=
  match c with
  | call_assign x fd events _ _ =>
      is_idle_event (evs b !! x) && negb (is_ctl_timer b x) && (fd <? 2 ^ 30) &&
      negb (has EV_SIGNAL events && has IO_EVENTS events) && (negb (has EV_SIGNAL events) || (0 <=? fd)) &&
      (Z.of_nat (size (evs b)) + 2 <? 2 ^ 31) && negb (is_busy b x) &&
      from_option (λ ev, negb (ev_closure ev =? EV_CLOSURE_EVENT_FINALIZE_FREE)) true (evs b !! x)
  | call_add x tv => negb (is_busy b x) && check_own b x (λ ev,
      match tv with
      | None => true
      | Some tv => is_valid_tv (n_common_timeouts b) tv &&
          (negb (has EVLIST_TIMEOUT (ev_flags ev)) || has_room b || is_normal (ev_timeout ev))
      end)
  | call_priority_set x _ | call_active x _ _ => check_own b x (λ _, true)
  | call_remove_timer x | call_del x => negb (is_busy b x) && check_own b x (λ _, true)
  | call_finalize x _ _ => negb (is_busy b x) && check_own b x (λ ev, negb (has EVLIST_FINALIZING (ev_flags ev)))
  | call_free x => negb (is_busy b x) && check_own b x (λ ev, negb (has EVLIST_FINALIZING (ev_flags ev)) ||
      negb (ev_closure ev =? EV_CLOSURE_EVENT_FINALIZE_FREE) && is_idle (ev_evcallback ev))
  | call_init_common d =>
      (0 <=? tv_usec d) && negb (tv_usec d =? 1000000) && (Z.of_nat (size (evs b)) + 2 <? 2 ^ 31)
  | call_deferred_init c pri _ _ =>
      match cbs b !! c with Some cb => is_idle cb | None => true end && (0 <=? pri) && (pri <? nactivequeues b)
  | call_deferred_schedule c | call_deferred_cancel c => bool_decide (is_Some (cbs b !! c))
  | call_loopbreak | call_loopcontinue => true
  end.

Lemma is_ctl_timer_spec b x : is_ctl_timer b x = false → ¬ ctl_timer b x.
Proof.
  intros H (ctl & Hin & Hx). assert (is_ctl_timer b x = true); [|congruence].
  apply existsb_exists. exists ctl. split; [by apply list_elem_of_In|by apply bool_decide_eq_true].
Qed.

Lemma check_own_spec b x k : check_own b x k = true → ∃ ev, own_event b x ev ∧ k ev = true.
Proof.
  unfold check_own. destruct (evs b !! x) as [ev|] eqn:E; [|done]. intros [H1%negb_true_iff H2]%andb_true_iff.
  exists ev. split; [|done]. split; [done|by apply is_ctl_timer_spec].
Qed.

Lemma is_normal_spec tv : is_normal tv = true ↔ tv_normal tv.
Proof. unfold is_normal, tv_normal. lia. Qed.

Lemma is_valid_tv_spec n tv : is_valid_tv n tv = true → valid_tv n tv.
Proof.
  unfold is_valid_tv. intros [H|[[H1 H2]%andb_true_iff H3]%andb_true_iff]%orb_true_iff; [left; by apply is_normal_spec|].
  right. exists (tv_usec tv / 2 ^ 20 - 1280). split; [lia|]. split; [lia|by apply is_normal_spec].
Qed.

Lemma is_busy_spec b x : is_busy b x = false → ¬ busy b x.
Proof.
  intros H [Hc (k & m & Hf & Hm)]. unfold is_busy in H. rewrite bool_decide_true, Hf in H by done. cbn in H.
  apply negb_false_iff in H. lia.
Qed.

Lemma calm_own b x k :
  negb (is_busy b x) && check_own b x k = true → ¬ busy b x ∧ ∃ ev, own_event b x ev ∧ k ev = true.
Proof. intros [H1%negb_true_iff H2]%andb_true_iff. split; [by apply is_busy_spec|by apply check_own_spec]. Qed.

Lemma is_allowed_spec b c : is_allowed b c = true → allowed b c.
Proof.
  destruct c; cbn [is_allowed allowed]; try done; try by intros (ev & ? & _)%check_own_spec; exists ev.
  - rewrite !andb_true_iff, !negb_true_iff. intros [[[[[[[H1 H2] H3] H4] H5] H6] H7] H8].
    split_and!; [|by apply is_busy_spec|].
    + split_and!; [|by apply is_ctl_timer_spec|lia|done| |lia].
      * intros ev E. rewrite E in H1. by apply bool_decide_eq_true in H1.
      * intros Hs. rewrite Hs in H5. cbn in H5. lia.
    + intros ev E Hc. by rewrite E in H8; cbn in H8; rewrite Hc in H8.
  - intros (Hb & ev & Hown & H)%calm_own. split; [done|]. exists ev. split; [done|]. destruct tv as [tv|]; [|done].
    apply andb_true_iff in H as [H1 H2]. split; [by apply is_valid_tv_spec|]. intros Ht Hn. rewrite Ht in H2. cbn in H2.
    apply orb_true_iff in H2 as [H2|H2]; [left; unfold room, has_room in *; lia|right]. split; [done|by apply is_normal_spec].
  - intros (Hb & ev & Hown & _)%calm_own. eauto.
  - intros (Hb & ev & Hown & _)%calm_own. eauto.
  - intros (Hb & ev & Hown & Hf%negb_true_iff)%calm_own. eauto.
  - intros (Hb & ev & Hown & Hf)%calm_own. split; [done|]. exists ev. split; [done|]. intros Hfe. rewrite Hfe in Hf.
    apply andb_true_iff in Hf as [Hc%negb_true_iff Hi%bool_decide_eq_true]. by apply Z.eqb_neq in Hc.
  - rewrite !andb_true_iff, negb_true_iff. intros [[H1 H2%Z.eqb_neq] H3]. split; [split; [lia|done]|lia].
  - rewrite !andb_true_iff. intros [[H1 H2] H3]. split; [|lia]. intros cb0 E. rewrite E in H1.
    by apply bool_decide_eq_true in H1.
  - intros H. by apply bool_decide_eq_true in H.
  - intros H. by apply bool_decide_eq_true in H.
Qed.

Section checks.
Context (mm : nat → Z → bool) (backend : history → backend_call → bool) (fdinfo_len : Z) (clock : nat → timeval).

Fixpoint check_obeys (cs : list api_call) (b : event_base) : bool :=
  match cs with
  | [] => true
  | c :: cs => is_allowed b c &&
      match api_step mm backend fdinfo_len clock c b with Some (_, b') => check_obeys cs b' | None => false end
  end.

Lemma check_obeys_spec cs b : check_obeys cs b = true → obeys mm backend fdinfo_len clock cs b.
Proof.
  revert b. induction cs as [|c cs IH]; intros b; [done|]. cbn [check_obeys obeys].
  intros [Ha H]%andb_true_iff. split; [by apply is_allowed_spec|]. intros a b' E. rewrite E in H. by apply IH.
Qed.
End checks.

(** ** The properties *)

(** A base with [n] queues that nothing has been done with. *)
Definition fresh_base (mm : nat → Z → bool) (b : event_base) : Prop :=
  b = event_base_new ∨ ∃ n, event_base_priority_init mm n event_base_new = Some (0, b).

Lemma live_new : live event_base_new.
Proof. split; [done|done|done|]. by intros x k (e & He & _). Qed.

Lemma fresh_prog mm b : fresh_base mm b → prog_ok b.
Proof.
  intros Hf. split.
  - destruct Hf as [->|[n H]]; [apply api_new|]. by eapply priority_init_ok; [apply api_new|..|exact H].
  - destruct Hf as [->|[n H]]; [apply live_new|]. unfold event_base_priority_init in H.
    destruct (negb _ || _ || _); [done|]. destruct (n =? _); [injection H as <-; apply live_new|].
    destruct (mm _ _); [|done]. injection H as <-. split; [done|done|done|]. by intros x k (e & He & _).
Qed.

Lemma fresh_frame mm b : fresh_base mm b → frame (signal_frame b) = None.
Proof.
  intros [->|[n H]]; [done|]. unfold event_base_priority_init in H.
  destruct (negb _ || _ || _); [done|]. destruct (n =? _); [by injection H as <-|].
  destruct (mm _ _); [|done]. by injection H as <-.
Qed.
Lemma fresh_calls mm b : fresh_base mm b → calls (maps b) = [].
Proof.
  intros [->|[n H]]; [done|]. unfold event_base_priority_init in H.
  destruct (negb _ || _ || _); [done|]. destruct (n =? _); [by injection H as <-|].
  destruct (mm _ _); [|done]. by injection H as <-.
Qed.


Definition grants (k : nat) (n : Z) : bool := true.
Definition accepts (h : history) (c : backend_call) : bool := true.
Definition ticking (k : nat) : timeval := Timeval (100 + Z.of_nat k) 250000.
Lemma ticking_ok : clock_ok ticking.
Proof. intros k. unfold tv_normal. cbn. lia. Qed.

(** Two events in a common queue, a signal, a timer, a deferred callback. *)
Definition demo : list api_call := [
  call_init_common (Timeval 5 0);
  call_assign 1 4 (Z.lor EV_READ EV_PERSIST) 1 0; call_add 1 (Some (common_duration (Timeval 5 0) 0));
  call_assign 2 15 EV_SIGNAL 2 0; call_add 2 None;
  call_assign 3 (-1) 0 3 0; call_add 3 (Some (Timeval 1 500000));
  call_active 2 EV_SIGNAL 3; call_deferred_init 7 0 4 0; call_deferred_schedule 7;
  call_add 3 (Some (common_duration (Timeval 5 0) 0)); call_loopcontinue].


Definition demo_base : event_base :=
  match api_run grants accepts 0 ticking demo event_base_new with Some (_, b) => b | None => event_base_new end.
Lemma demo_api : api_ok demo_base.
Proof.
  unfold demo_base.
  destruct (api_run_ok grants accepts 0 ticking ticking_ok demo event_base_new) as (l & b & -> & [[Hb _] _] & _);
    [split; [apply api_new|apply live_new]|apply check_obeys_spec; vm_compute; reflexivity|done].
Qed.

Lemma idle_not_pending b x ev what :
  evs b !! x = Some ev → idle (ev_evcallback ev) → event_pending b x what = Some 0.
Proof.
  intros Hx Hid. destruct (idle_flags _ Hid) as (T & I & A & L). unfold event_pending. rewrite Hx. cbn [mbind option_bind].
  destruct (negb (ev_base ev)); [done|]. unfold ev_flags. by rewrite has_or, T, I, A, L.
Qed.

(** C19. event_del takes the event off the heap, the common queues, the active queues, the queue for
    the next round and the lists of its descriptor or signal: the base holds no pointer to it, so
    its memory may be freed or assigned again; it is pending for nothing; other events stay as they
    are. *)
Theorem event_del_releases backend b x ev :
  api_ok b → own_event b x ev → has EVLIST_FINALIZING (ev_flags ev) = false →
  ∃ r b', event_del backend x b = Some (r, b') ∧ api_ok b' ∧ unreferenced b' x ∧
    (∀ what, event_pending b' x what = Some 0) ∧
    (∀ y, y ≠ x → core <$> evs b' !! y = core <$> evs b !! y).
Proof.
  intros Hb Hown Hfin. destruct (event_del_ok backend b x ev Hb Hown) as (r & b' & E & Hb' & H).
  rewrite Hfin in H. destruct H as (c & [_ Ht _ [pos Hx] _] & Hid). exists r, b'. split; [done|]. split; [done|].
  split; [|split].
  - apply idle_unreferenced; [by destruct Hb'|by rewrite Hx; intros ? [= <-]|].
    rewrite (ctl_timer_same b b') by apply Ht. apply Hown.
  - intros what. by eapply idle_not_pending.
  - intros y Hy. apply Ht. congruence.
Qed.

Lemma event_del_releases_witness :
  ∃ ev, own_event demo_base 3 ev ∧ has EVLIST_TIMEOUT (ev_flags ev) = true ∧
  ∃ r b', event_del accepts 3 demo_base = Some (r, b') ∧ unreferenced b' 3.
Proof.
  destruct (check_own_spec demo_base 3 (λ ev, has EVLIST_TIMEOUT (ev_flags ev) && negb (has EVLIST_FINALIZING (ev_flags ev))))
    as (ev & Hown & [Ht Hf%negb_true_iff]%andb_true_iff); [vm_compute; reflexivity|].
  exists ev. split; [done|]. split; [done|].
  destruct (event_del_releases accepts demo_base 3 ev demo_api Hown Hf) as (r & b' & E & _ & H & _). eauto.
Defined.

(** The event is the element of the heap or of the queue that its deadline says. *)
Definition queued_timer (b : event_base) (x : nat) (t : timeval) : Prop :=
  (tv_normal t → ∃ i, 0 <= i < heap_n (timeheap b) ∧ slot (timeheap b) i = Some x) ∧
  (∀ i ctl, common_at (Z.of_nat i) t → common_timeout_queues b !! i = Some ctl → x ∈ ctl_events ctl).

Lemma pending_queued b x t : base_ok b → pending (evs b) x = Some t → queued_timer b x t.
Proof.
  intros Hok Hp. destruct (bo_heap _ Hok) as (hs & Hr & Hlo). split.
  - intros Hn. assert (Hin : x ∈ hs) by (apply (lo_heap _ _ _ Hlo); eauto).
    destruct (heap_rep_idx _ _ _ _ Hr Hin) as (k & Hk & _). exists (Z.of_nat k).
    rewrite (rep_n _ _ _ _ (proj1 Hr 0%nat)). split; [|by apply (heap_rep_slot _ _ _ _ _ Hr Hk)].
    apply lookup_lt_Some in Hk. lia.
  - intros i ctl Hat Hi. apply (lo_common _ _ _ Hlo _ _ Hi). eauto.
Qed.

Lemma pending_timeout b x ev :
  evs b !! x = Some ev → ev_base ev = true → has EVLIST_TIMEOUT (ev_flags ev) = true →
  event_pending b x EV_TIMEOUT = Some EV_TIMEOUT.
Proof.
  intros Hx Hb Ht. unfold event_pending. rewrite Hx. cbn [mbind option_bind]. rewrite Hb, Ht. cbn [negb]. f_equal.
  match goal with |- Z.land (Z.lor ?f _) _ = _ => generalize f end. intros f.
  change (Z.land EV_TIMEOUT _) with EV_TIMEOUT. rewrite Z.land_lor_distr_l, Z.land_diag.
  apply Z.bits_inj'. intros k Hk. rewrite Z.lor_spec, Z.land_spec. by destruct (Z.testbit f k), (Z.testbit EV_TIMEOUT k).
Qed.

Lemma real_normal t : tv_normal t → real_timeout t = t.
Proof.
  intros H. unfold real_timeout. rewrite land_ones_mod, Z.mod_small by (unfold tv_normal in H; lia). by destruct t.
Qed.

(** The deadline is the time of the call plus the duration. *)
Lemma deadline_micros b tv now :
  base_ok b → valid_tv (n_common_timeouts b) tv → tv_normal now →
  tv_micros (real_timeout (deadline tv now false (is_common tv b))) = tv_micros now + tv_micros (real_timeout tv).
Proof.
  intros Hok Hv Hn. destruct (bo_heap _ Hok) as (hs & _ & Hlo). pose proof (lo_max _ _ _ Hlo) as Hmax.
  destruct Hv as [Ht|(i & Hi & Hat)].
  - rewrite (real_normal tv Ht), real_normal by by apply deadline_normal.
    unfold deadline, is_common. rewrite normal_not_common by done. apply timeradd_micros.
  - unfold is_common. rewrite (proj2 (deadline_common tv now i _ Hat Hi Hmax Hn)). apply timeradd_micros.
Qed.

(** ** When event_add refuses *)

(** Why event_add answers -1: the event is being finalized; a request for memory has been refused
    during the call, or the call of the backend; 65535 events wait for the same condition of the
    descriptor already. *)
Definition too_many (ctx : evmap_io) (ev : event) : Prop :=
  let one bit := if has bit (ev_events ev) then 1 else 0 in
  0xffff < nread ctx + one EV_READ ∨ 0xffff < nwrite ctx + one EV_WRITE ∨ 0xffff < nclose ctx + one EV_CLOSED.
Inductive refuses (mm : nat → Z → bool) (b b' : event_base) (ev : event) : Prop :=
  | refuses_finalizing : has EVLIST_FINALIZING (ev_flags ev) = true → refuses mm b b' ev
  | refuses_memory k n : (allocs (maps b) <= k < allocs (maps b'))%nat → mm k n = false → refuses mm b b' ev
  | refuses_backend c : calls (maps b') = (c, false) :: calls (maps b) → refuses mm b b' ev
  | refuses_many ctx : get_slot (io (maps b)) (ev_fd ev) = Some (Some ctx) →
      too_many ctx ev → refuses mm b b' ev.

Section refusal.
Context (mm : nat → Z → bool) (backend : history → backend_call → bool) (fdinfo_len : Z) (clock : nat → timeval).

(** The same of the maps. *)
Definition map_refuses (m m' : evmaps) (ev : event) : Prop :=
  (∃ k n, (allocs m <= k < allocs m')%nat ∧ mm k n = false) ∨ (∃ c, calls m' = (c, false) :: calls m) ∨
  (∃ ctx, get_slot (io m) (ev_fd ev) = Some (Some ctx) ∧
      too_many ctx ev).

Lemma make_space_case {A} (map : list (option A)) slot size k o k' :
  evmap_make_space mm map slot size k = Some (o, k') →
  (o = None ∧ k' = S k ∧ ∃ n, mm k n = false) ∨
  (∃ map', o = Some map' ∧ (k <= k')%nat ∧ ∀ i a, map' !! i = Some (Some a) → map !! i = Some (Some a)).
Proof.
  unfold evmap_make_space. intros E. case_match; [|simplify_eq; right; eauto with lia].
  apply bind_Some in E as (n & _ & E). case_match; simplify_eq; [right|left; eauto].
  eexists. split; [done|]. split; [lia|]. intros i a Hi.
  destruct (decide (i < Z.to_nat n)%nat) as [Hn|Hn]; [|by rewrite lookup_resize_old in Hi by lia].
  destruct (decide (i < length map)%nat); [by rewrite lookup_resize in Hi|].
  rewrite lookup_resize_new in Hi by lia. done.
Qed.

Lemma slot_case {A} (map : list (option A)) slot size (ctor : A) k o k' :
  get_slot_and_ctor mm map slot size ctor k = Some (o, k') →
  (o = None ∧ k' = S k ∧ ∃ n, mm k n = false) ∨
  (∃ a map', o = Some (a, map') ∧ (k <= k')%nat ∧ (a = ctor ∨ get_slot map slot = Some (Some a))).
Proof.
  unfold get_slot_and_ctor, get_slot. intros E. destruct (slot <? 0); [done|].
  apply bind_Some in E as (e & He & E). destruct e as [a|]; simplify_eq; [right; eauto 10 with lia|].
  case_match; simplify_eq; [right|left]; eauto 10 with lia.
Qed.

Lemma io_add_refuses st x ev m m' :
  st !! x = Some ev → evmap_io_add_ mm backend fdinfo_len st (ev_fd ev) x m = Some (-1, m') → map_refuses m m' ev.
Proof.
  intros Hx E. unfold evmap_io_add_ in E. rewrite Hx in E. cbn [mbind option_bind] in E. rewrite Z.eqb_refl in E. cbn [negb] in E.
  destruct (Z.ltb_spec (ev_fd ev) 0); [done|].
  apply bind_Some in E as ([o k] & Hs & E). destruct (make_space_case _ _ _ _ _ _ Hs) as [(-> & -> & n & Hn)|(map & -> & Hk & Hold)].
  { injection E as <-. left. exists (allocs m), n. cbn. split; [lia|done]. }
  apply bind_Some in E as ([o k'] & Hc & E). destruct (slot_case _ _ _ _ _ _ _ Hc) as [(-> & -> & n & Hn)|(ctx & map' & -> & Hk' & Hctx)].
  { injection E as <-. left. exists k, n. cbn. split; [lia|done]. }
  injection E as E. unfold io_add_ctx in E. case_match eqn:Hmany.
  - right. right. destruct Hctx as [->|Hctx]; [exfalso; revert Hmany; cbn; by repeat case_match|].
    exists ctx. split.
    + unfold get_slot in *. destruct (ev_fd ev <? 0); [done|]. by apply Hold.
    + rewrite !orb_true_iff, !Z.ltb_lt in Hmany. unfold too_many.
      destruct (has EV_READ (ev_events ev)), (has EV_WRITE (ev_events ev)), (has EV_CLOSED (ev_events ev)); lia.
  - case_match; [|done]. unfold call_backend in E. destruct (backend _ _) eqn:Hb; [done|]. injection E as <-. right. left. eexists. reflexivity.
Qed.

Lemma signal_add_refuses st x ev m m' :
  evmap_signal_add_ mm backend st (ev_fd ev) x m = Some (-1, m') → map_refuses m m' ev.
Proof.
  intros E. unfold evmap_signal_add_ in E. apply bind_Some in E as (e & _ & E).
  apply bind_Some in E as ([o k] & Hs & E).
  assert (Ho : o = None ∧ k = S (allocs m) ∧ (∃ n, mm (allocs m) n = false) ∨ is_Some o ∧ (allocs m <= k)%nat).
  { destruct (Zlen (sigmap m) <=? ev_fd ev); [|simplify_eq; right; eauto].
    destruct (make_space_case _ _ _ _ _ _ Hs) as [?|(map & -> & ? & _)]; [by left|right; eauto]. }
  destruct Ho as [(-> & -> & n & Hn)|[[map ->] Hk]].
  { injection E as <-. left. exists (allocs m), n. cbn. split; [lia|done]. }
  apply bind_Some in E as ([o k'] & Hc & E). destruct (slot_case _ _ _ _ _ _ _ Hc) as [(-> & -> & n & Hn)|(ctx & map' & -> & _)].
  { injection E as <-. left. exists k, n. cbn. split; [lia|done]. }
  unfold call_backend in E. right. left. destruct (sig_events ctx); [|done].
  destruct (backend _ _); [done|]. injection E as <-. eexists. reflexivity.
Qed.

(** The maps of a base decide. *)
Lemma refuses_maps b b1 b' ev :
  io (maps b1) = io (maps b) → calls (maps b1) = calls (maps b) → (allocs (maps b) <= allocs (maps b1))%nat →
  map_refuses (maps b1) (maps b') ev → refuses mm b b' ev.
Proof.
  intros Hi Hc Ha [(k & n & Hk & Hn)|[(c & Hcalls)|(ctx & Hctx & H)]].
  - by eapply (refuses_memory _ _ _ _ k n); [lia|].
  - eapply (refuses_backend _ _ _ _ c). congruence.
  - rewrite Hi in Hctx. by eapply refuses_many.
Qed.

Lemma reserve_case b r b1 :
  heap_reserve mm b = Some (r, b1) →
  evs b1 = evs b ∧ io (maps b1) = io (maps b) ∧ calls (maps b1) = calls (maps b) ∧ allocs (maps b1) = S (allocs (maps b)) ∧
  (r = -1 → ∃ n, mm (allocs (maps b)) n = false).
Proof.
  unfold heap_reserve, min_heap_reserve_. intros E. repeat case_match; simplify_eq; split_and!; try done; eauto.
Qed.

(** What event_add_nolock_ does before the timeout is the whole of a refused call. *)
Lemma step_refuses add x tv abs b b' ev :
  evs b !! x = Some ev → event_add_step mm backend fdinfo_len clock add x tv abs b = Some (-1, b') → refuses mm b b' ev.
Proof.
  intros Hx E. unfold event_add_step in E. apply em_bind_Some in E as (e & b0 & He & E).
  apply bind_Some in He as (e' & He & [= -> ->]). rewrite Hx in He. injection He as <-.
  apply em_bind_Some in E as ([] & b0' & Ha & E). destruct (clear_bits EVLIST_ALL (ev_flags ev) =? 0); [|done]. injection Ha as <-.
  destruct (has EVLIST_FINALIZING (ev_flags ev)) eqn:Hf; [by apply refuses_finalizing|].
  apply em_bind_Some in E as (r & b1 & Er & E).
  assert (H1 : evs b1 = evs b0 ∧ io (maps b1) = io (maps b0) ∧ calls (maps b1) = calls (maps b0) ∧
    (allocs (maps b0) <= allocs (maps b1))%nat ∧ (r = -1 → refuses mm b0 b1 ev)).
  { destruct (bool_decide (is_Some tv) && _); [|injection Er as <- <-; by split_and!]. destruct (reserve_case _ _ _ Er) as (? & ? & ? & Hal & Hr).
    split_and!; try done; [lia|]. intros Hm. destruct (Hr Hm) as [n Hn]. eapply (refuses_memory _ _ _ _ (allocs (maps b0)) n); [lia|done]. }
  destruct H1 as (Hevs & Hio & Hcalls & Hal & Hr). destruct (Z.eqb_spec r (-1)) as [Hm|_]; [injection E as <-; auto|].
  apply em_bind_Some in E as (res & b2 & Eres & E).
  assert (Hres : res = -1 ∧ b' = b2).
  { destruct tv as [tv|]; [|by injection E]. apply em_bind_Some in E as (u & b3 & E3 & E4). injection E4 as -> <-.
    by injection E3 as _ <-. }
  destruct Hres as [-> ->]. clear E. destruct (has (Z.lor IO_EVENTS EV_SIGNAL) _ && _); [|done]. apply em_bind_Some in Eres as (z & b3 & Ez & E).
  apply em_bind_Some in E as (u & b4 & Ew & E). injection E as Hz <-.
  assert (z = -1) as -> by (destruct (Z.eqb_spec z 1); simplify_eq; done). injection Ew as _ <-.
  eapply refuses_maps; [exact Hio|exact Hcalls|exact Hal|].
  assert (Hrun : ∀ f, run_maps f b1 = Some (-1, b3) → f (evs b1) (maps b1) = Some (-1, maps b3)).
  { intros f Ef. apply bind_Some in Ef as ([r' m] & Ef & [= -> <-]). done. }
  destruct (has IO_EVENTS _); [apply Hrun in Ez; eapply io_add_refuses; [|exact Ez]; congruence|].
  destruct (has EV_SIGNAL _); [apply Hrun in Ez; by eapply signal_add_refuses|done].
Qed.

Lemma add_refuses x tv abs b b' ev :
  evs b !! x = Some ev → event_add_nolock_ mm backend fdinfo_len clock x tv abs b = Some (-1, b') → refuses mm b b' ev.
Proof. apply step_refuses. Qed.

Lemma event_add_nolock_eq x tv b r b' ev :
  evs b !! x = Some ev → ev_base ev = true → event_add mm backend fdinfo_len clock x tv b = Some (r, b') →
  event_add_nolock_ mm backend fdinfo_len clock x tv false b = Some (r, b').
Proof.
  intros Hx Hb E. apply em_bind_Some in E as (e & b0 & He & E). apply bind_Some in He as (e' & He & [= -> ->]).
  rewrite Hx in He. injection He as <-. change ((if negb (ev_base ev) then mret (-1) else event_add_nolock_ mm backend fdinfo_len clock x tv false) b0 = Some (r, b')) in E. by rewrite Hb in E.
Qed.

(** A refusal has a reason. *)
Lemma wp_refuses x tv abs b ev (Q : Z → event_base → Prop) :
  evs b !! x = Some ev → wp (event_add_nolock_ mm backend fdinfo_len clock x tv abs) b Q →
  wp (event_add_nolock_ mm backend fdinfo_len clock x tv abs) b (λ r b', Q r b' ∧ (r = -1 → refuses mm b b' ev)).
Proof.
  intros Hx (r & b' & E & HQ). exists r, b'. split; [done|]. split; [done|]. intros ->. by eapply add_refuses.
Qed.

Lemma refuses_same_maps b b1 b' ev : maps b1 = maps b → refuses mm b1 b' ev → refuses mm b b' ev.
Proof.
  intros E [Hf|k n Hk Hn|c Hc|ctx Hx Hm]; [by apply refuses_finalizing|rewrite E in Hk; by eapply refuses_memory|
    rewrite E in Hc; by eapply refuses_backend|rewrite E in Hx; by eapply refuses_many].
Qed.
End refusal.

(** C18. event_add with a timeout either answers -1 and leaves the event as it was, because the event is
    being finalized, a request for memory or the call of the backend has been refused during the call,
    or 65535 events wait for the same condition already; or it answers 0.  Then the event is pending for
    its timeout, sits in the heap or in the common queue the timeout names, with the deadline now plus
    the duration in microseconds, and no activation of an earlier timeout is left.  Other events than
    the timers of common queues are as before.  [may_rearm]: an event that is in a common queue is not
    added with an ordinary timeout while the heap has no free place, which the code does not survive. *)
Theorem event_add_arms mm backend fdinfo_len clock b x ev tv :
  clock_ok clock → api_ok b → own_event b x ev → valid_tv (n_common_timeouts b) tv →
  (has EVLIST_TIMEOUT (ev_flags ev) = true → may_rearm b ev tv) →
  ∃ r b', event_add mm backend fdinfo_len clock x (Some tv) b = Some (r, b') ∧ api_ok b' ∧
    (∀ y, y ≠ x → ¬ ctl_timer b y → core <$> evs b' !! y = core <$> evs b !! y) ∧
    (r = -1 ∧ core <$> evs b' !! x = core <$> evs b !! x ∧ refuses mm b b' ev ∨
     r = 0 ∧ event_pending b' x EV_TIMEOUT = Some EV_TIMEOUT ∧
     ∃ ev' now, evs b' !! x = Some ev' ∧ tv_normal now ∧
       (tv_sec (tv_cache (time b)) ≠ 0 → now = tv_cache (time b)) ∧
       tv_micros (real_timeout (ev_timeout ev')) = tv_micros now + tv_micros (real_timeout tv) ∧
       queued_timer b' x (ev_timeout ev') ∧
       (has EVLIST_ACTIVE (ev_flags ev') = true → has EV_TIMEOUT (ev_res ev') = false)).
Proof.
  intros Hc Hb Hown Hv Hr.
  destruct (event_add_ok mm backend fdinfo_len clock Hc b x ev (Some tv) Hb Hown (conj Hv Hr)) as (r & b' & E & Hb' & Hou & Hout).
  exists r, b'. split; [done|]. split; [done|]. split; [by intros; apply Hou|].
  destruct Hout as [[-> Hm]|(-> & _ & ev' & Hx' & Had & now & Hn & Hcache & Hd)]; [left|right].
  { split; [done|]. split; [done|]. eapply add_refuses; [apply Hown|]. eapply event_add_nolock_eq; [apply Hown| |exact E].
    apply (ew_base _ (bo_wf _ (bo_items _ (api_base _ Hb)) x ev (proj1 Hown))). }
  rewrite bool_decide_true, orb_true_r in Had by eauto. pose proof (added_timed _ _ _ _ _ _ Had) as Ht'.
  pose proof (ew_base _ (bo_wf _ (bo_items _ (api_base _ Hb')) x ev' Hx')) as Hbase.
  split; [done|]. split; [by eapply pending_timeout|]. exists ev', now. split; [done|]. split; [done|]. split; [done|].
  split; [rewrite Hd; apply deadline_micros; [by destruct Hb|done|done]|].
  split; [apply pending_queued; [by destruct Hb'|by rewrite (pending_is _ _ _ _ Hx' Ht')]|].
  destruct Had as [_ Hbits _ _ Hres _]. unfold bits in Hbits. injection Hbits as _ _ Ha _.
  change (evcb_flags (ev_evcallback ev')) with (ev_flags ev') in Ha. rewrite Ha, Hres. cbn [andb].
  intros [_ Hneg%negb_true_iff]%andb_true_iff. done.
Qed.

Lemma event_add_arms_witness :
  ∃ ev, own_event demo_base 1 ev ∧
  ∃ r b', event_add grants accepts 0 ticking 1 (Some (Timeval 2 0)) demo_base = Some (r, b') ∧ r = 0 ∧
    event_pending b' 1 EV_TIMEOUT = Some EV_TIMEOUT.
Proof.
  destruct (check_own_spec demo_base 1 (λ ev, has_room demo_base)) as (ev & Hown & Hroom); [vm_compute; reflexivity|].
  exists ev. split; [done|].
  destruct (event_add_arms grants accepts 0 ticking demo_base 1 ev (Timeval 2 0) ticking_ok demo_api Hown)
    as (r & b' & E & _ & _ & H).
  - left. unfold tv_normal. cbn. lia.
  - intros _ _. left. unfold room, has_room in *. lia.
  - exists r, b'. split; [exact E|]. destruct H as [[-> _]|(-> & H & _)]; [|split; [reflexivity|exact H]].
    exfalso. assert (Hz : match event_add grants accepts 0 ticking 1 (Some (Timeval 2 0)) demo_base with
      Some (r, _) => r =? 0 | None => false end = true) by (vm_compute; reflexivity).
    rewrite E in Hz. discriminate Hz.
Defined.
