(* ===== verification/RateLimitBase.v ===== *)
(** * Rate limits on an event base

    The timers of libevent's event base keep what the interface [Timers] promises, so that everything
    proved of the rate limits holds when they run on it. *)

From S2P Require Import Prelude Text Evutil Timeval Event MinHeap EvMap EventBase EventBaseOk EventApi EventCheck EventCalls EventLive EventSystem.
From S2P Require Import TokenBucket RateLimit RateLimitOk RateLimitSystem.

(** An event base, and the number of readings of the time of day. *)
Record clocked_base := Clocked_base { the_base : event_base; day_readings : nat }.

Section base.
Context (mm : nat → Z → bool) (backend : history → backend_call → bool) (fdinfo_len : Z) (clock : nat → timeval).
(** The time of day at the [k]-th reading, and [tv_clock_diff] then; the addresses of the timers, and
    the timers for which there is memory. *)
Context (wall clock_diff : nat → timeval) (addr : timer → nat) `{!Inj (=) (=) addr} (memory : list timer).
Hypothesis clock_good : clock_ok clock.

Definition callback_of (x : timer) : callback := user_cb (match x with refill_bucket_event _ => 0 | master_refill_event _ => 1 end).
Definition argument_of (x : timer) : Z := Z.of_nat (match x with refill_bucket_event v => v | master_refill_event g => g end).

Definition base_gettimeofday_cached (t : clocked_base) : timeval :=
  let c := tv_cache (time (the_base t)) in
  if tv_sec c =? 0 then wall (day_readings t) else evutil_timeradd c (clock_diff (day_readings t)).

Definition waiting (c : event_callback) : bool :=
  has EVLIST_TIMEOUT (evcb_flags c) || has EVLIST_INSERTED (evcb_flags c) ||
  has EVLIST_ACTIVE (evcb_flags c) || has EVLIST_ACTIVE_LATER (evcb_flags c).

#[export] Instance base_timers : Timers clocked_base := {
  RateLimit.event_assign x persist t :=
    '(r, b) ← EventBase.event_assign (addr x) (-1) (if persist then Z.lor EV_PERSIST EV_FINALIZE else EV_FINALIZE)
                (callback_of x) (argument_of x) (the_base t);
    Some (Clocked_base b (day_readings t));
  RateLimit.event_add x tv t :=
    '(r, b) ← EventBase.event_add mm backend fdinfo_len clock (addr x) (Some tv) (the_base t);
    Some (r, Clocked_base b (day_readings t));
  RateLimit.event_del x t :=
    '(r, b) ← EventBase.event_del backend (addr x) (the_base t); Some (Clocked_base b (day_readings t));
  RateLimit.event_initialized t x :=
    match evs (the_base t) !! addr x with Some ev => has EVLIST_INIT (ev_flags ev) | None => false end;
  RateLimit.timer_pending t x :=
    match evs (the_base t) !! addr x with Some ev => waiting (ev_evcallback ev) | None => false end;
  RateLimit.gettimeofday_cached t := Some (base_gettimeofday_cached t, Clocked_base (the_base t) (S (day_readings t)))
}.

(** The event of a timer: it has not been finalized, and its deadline is a plain point in time. *)
Record timer_event (ev : event) : Prop := {
  te_finalizing : has EVLIST_FINALIZING (ev_flags ev) = false;
  te_normal : has EVLIST_TIMEOUT (ev_flags ev) = true → tv_normal (ev_timeout ev)
}.

Definition room_for (b : event_base) : gset nat := dom (evs b) ∪ list_to_set (map addr memory).

Record base_timers_ok (t : clocked_base) : Prop := {
  bt_api : api_ok (the_base t);
  bt_own x : ¬ ctl_timer (the_base t) (addr x);
  bt_events x ev : evs (the_base t) !! addr x = Some ev → timer_event ev;
  bt_size : Z.of_nat (size (room_for (the_base t))) + 2 < 2 ^ 31
}.

Lemma idle_waiting c : idle c ↔ waiting c = false.
Proof.
  unfold idle, bits, waiting. split; [by intros [= -> -> -> ->]|].
  intros [[[-> ->]%orb_false_iff ->]%orb_false_iff ->]%orb_false_iff. done.
Qed.

Lemma is_init t x ev : base_timers_ok t → evs (the_base t) !! addr x = Some ev → has EVLIST_INIT (ev_flags ev) = true.
Proof. intros Ht Hx. apply (ew_init _ (bo_wf _ (bo_items _ (api_base _ (bt_api _ Ht))) (addr x) ev Hx)). Qed.

(** Only the event at [addr x], and timers of common queues, may have changed. *)
Lemma others_kept x b b' n n' :
  (∀ y, y ≠ addr x → ¬ ctl_timer b y → core <$> evs b' !! y = core <$> evs b !! y) → (∀ y, ¬ ctl_timer b (addr y)) →
  ∀ y, y ≠ x → event_initialized (Clocked_base b' n') y = event_initialized (Clocked_base b n) y ∧
    timer_pending (Clocked_base b' n') y = timer_pending (Clocked_base b n) y.
Proof.
  intros Hk Hct y Hy. assert (Ha : addr y ≠ addr x) by (intros E; by apply Hy, (inj addr)).
  specialize (Hk (addr y) Ha (Hct y)). cbn. destruct (evs b !! addr y) as [e|], (evs b' !! addr y) as [e'|]; try done.
  cbn in Hk. injection Hk as Hcore. destruct e, e'. cbn in *. by simplify_eq.
Qed.

Lemma kept_events x b b' :
  (∀ y, y ≠ addr x → ¬ ctl_timer b y → core <$> evs b' !! y = core <$> evs b !! y) → (∀ y, ¬ ctl_timer b (addr y)) →
  (∀ y ev, evs b !! addr y = Some ev → timer_event ev) → (∀ ev, evs b' !! addr x = Some ev → timer_event ev) →
  ∀ y ev, evs b' !! addr y = Some ev → timer_event ev.
Proof.
  intros Hk Hct Hev Hx y ev' Hy. destruct (decide (y = x)) as [->|Hne]; [by apply Hx|].
  assert (Ha : addr y ≠ addr x) by (intros E; by apply Hne, (inj addr)).
  specialize (Hk (addr y) Ha (Hct y)). rewrite Hy in Hk. destruct (evs b !! addr y) as [ev|] eqn:E; [|done].
  destruct (Hev y ev E) as [H1 H2]. cbn in Hk. injection Hk as Hcore. destruct ev, ev'. cbn in *. simplify_eq. by split.
Qed.

#[local] Instance ctl_timer_dec b y : Decision (ctl_timer b y).
Proof.
  destruct (decide (y ∈ map timeout_event (common_timeout_queues b))) as [Hin|Hin].
  - left. apply list_elem_of_fmap in Hin as (ctl & -> & Hin). by exists ctl.
  - right. intros (ctl & Hctl & <-). apply Hin. by apply list_elem_of_fmap_2.
Qed.

Lemma ctl_exists b y : api_ok b → ctl_timer b y → is_Some (evs b !! y).
Proof.
  intros Hb (ctl & Hin & <-). apply list_elem_of_lookup in Hin as [i Hctl].
  destruct (bo_timers _ (bo_items _ (api_base _ Hb)) i ctl Hctl) as (_ & ev & Hev & _). eauto.
Qed.

(** No event has appeared but the one at [addr x]. *)
Lemma room_kept x b b' :
  api_ok b → api_ok b' → (∀ y, y ≠ addr x → ¬ ctl_timer b y → core <$> evs b' !! y = core <$> evs b !! y) →
  (∀ y, ctl_timer b' y ↔ ctl_timer b y) → (is_Some (evs b' !! addr x) → is_Some (evs b !! addr x) ∨ x ∈ memory) →
  room_for b' ⊆ room_for b.
Proof.
  intros Hb Hb' Hk Hct Hx y [Hy|Hy]%elem_of_union; [|by apply elem_of_union_r]. apply elem_of_dom in Hy.
  destruct (decide (y = addr x)) as [->|Hne].
  - destruct (Hx Hy) as [?|Hm]; [by apply elem_of_union_l, elem_of_dom|]. apply elem_of_union_r, elem_of_list_to_set.
    by apply list_elem_of_fmap_2.
  - apply elem_of_union_l, elem_of_dom. destruct (decide (ctl_timer b y)) as [Hc|Hc]; [by apply ctl_exists|].
    specialize (Hk y Hne Hc). destruct (evs b !! y); [eauto|]. destruct Hy as [e He]. by rewrite He in Hk.
Qed.

Lemma base_assign x p t :
  base_timers_ok t → x ∈ memory → (event_initialized t x = true → timer_pending t x = false) →
  ∃ t', RateLimit.event_assign x p t = Some t' ∧ base_timers_ok t' ∧ event_initialized t' x = true ∧ timer_pending t' x = false ∧
    ∀ y, y ≠ x → event_initialized t' y = event_initialized t y ∧ timer_pending t' y = timer_pending t y.
Proof.
  intros Ht Hm Hidle. pose proof Ht as [Hapi Hown Hev Hsz]. destruct t as [b n]. cbn [the_base] in *.
  set (events := if p then Z.lor EV_PERSIST EV_FINALIZE else EV_FINALIZE).
  assert (Hsig : has EV_SIGNAL events = false) by (by destruct p).
  destruct (EventCalls.assign_ok (addr x) (-1) events (callback_of x) (argument_of x) b) as (r & b' & E & -> & Hok' & Ho & _ & e & He & Hcb & _);
    [apply Hapi|apply Hapi| |].
  { split_and!; [|done|lia|by rewrite Hsig|by rewrite Hsig|].
    - intros ev Hx. apply idle_waiting. cbn in Hidle. rewrite Hx in Hidle. apply Hidle.
      by apply (is_init (Clocked_base b n) x).
    - assert (size (evs b) ≤ size (room_for b))%nat; [|lia]. rewrite <- (size_dom (D := gset nat)). apply subseteq_size.
      apply union_subseteq_l. }
  assert (Hapi' : api_ok b') by (by apply (api_touched (addr x) b)).
  assert (Hk : ∀ y, y ≠ addr x → ¬ ctl_timer b y → core <$> evs b' !! y = core <$> evs b !! y).
  { intros y Hy _. apply (to_events _ _ _ Ho). congruence. }
  assert (Hct : ∀ y, ctl_timer b' y ↔ ctl_timer b y) by (intros y; apply ctl_timer_same, Ho).
  assert (Hflags : ev_flags e = EVLIST_INIT) by (unfold ev_flags; by rewrite Hcb).
  exists (Clocked_base b' n). cbn [RateLimit.event_assign base_timers the_base]. fold events. rewrite E. split; [done|]. split.
  - split; cbn [the_base]; [done|intros y; rewrite Hct; apply Hown| |].
    + apply (kept_events x b b'); [done|done|done|]. intros ev Hx. assert (ev = e) as -> by congruence.
      split; by rewrite Hflags.
    + pose proof (room_kept x b b' Hapi Hapi' Hk Hct ltac:(by right)) as Hr%subseteq_size. lia.
  - cbn. rewrite He. split; [by rewrite Hflags|]. split; [unfold waiting; by rewrite Hcb|].
    intros y Hy. by apply (others_kept x b b' n n).
Qed.

Lemma base_add x tv t :
  base_timers_ok t → event_initialized t x = true → tv_normal tv →
  ∃ r t', RateLimit.event_add x tv t = Some (r, t') ∧ base_timers_ok t' ∧
    (r = 0 ∧ timer_pending t' x = true ∨ r = -1 ∧ timer_pending t' x = timer_pending t x) ∧
    (∀ y, event_initialized t' y = event_initialized t y) ∧ ∀ y, y ≠ x → timer_pending t' y = timer_pending t y.
Proof.
  intros Ht Hi Htv. pose proof Ht as [Hapi Hown Hev Hsz]. destruct t as [b n]. cbn [the_base] in *.
  cbn in Hi. destruct (evs b !! addr x) as [ev|] eqn:Hx; [|done]. destruct (Hev x ev Hx) as [Hfin Hnorm].
  destruct (event_add_ok mm backend fdinfo_len clock clock_good b (addr x) ev (Some tv)) as (r & b' & E & Hapi' & Ho & Hout);
    [done|by split|split; [by left|intros Hto _; right; auto]|].
  assert (Hct : ∀ y, ctl_timer b' y ↔ ctl_timer b y) by (intros y; apply ctl_timer_same, Ho).
  pose proof (ou_events _ _ _ Ho) as Hk.
  assert (Hx' : ∃ ev', evs b' !! addr x = Some ev' ∧ timer_event ev' ∧ has EVLIST_INIT (ev_flags ev') = true ∧
    (r = 0 ∧ waiting (ev_evcallback ev') = true ∨ r = -1 ∧ waiting (ev_evcallback ev') = waiting (ev_evcallback ev))).
  { destruct Hout as [[-> Hc]|(-> & _ & ev' & Hx' & Had & now & Hnow & _ & Hd)].
    - rewrite Hx in Hc. destruct (evs b' !! addr x) as [ev'|]; [|done]. exists ev'. split; [done|]. cbn in Hc. injection Hc as Hc.
      destruct ev, ev'. cbn in *. simplify_eq. split; [by split|]. auto.
    - exists ev'. split; [done|]. destruct (ad_requeued _ _ _ _ _ _ Had) as (_ & Hinit & Hf & _). unfold ev_flags in *. split; [|split].
      + split; unfold ev_flags; [by rewrite Hf|]. intros _. rewrite Hd.
        by apply deadline_normal.
      + by rewrite Hinit.
      + left. split; [done|]. pose proof (ad_bits _ _ _ _ _ _ Had) as Hb. unfold bits in Hb. injection Hb as Hto _ _ _.
        unfold waiting. by rewrite Hto, orb_true_r. }
  destruct Hx' as (ev' & Hx' & Hev' & Hinit' & Hr).
  exists r, (Clocked_base b' n). cbn [RateLimit.event_add base_timers the_base]. rewrite E. split; [done|]. split; [|split; [|split]].
  - split; cbn [the_base]; [done|intros y; rewrite Hct; apply Hown| |].
    + apply (kept_events x b b'); [done|done|done|]. intros ev2 Hx2. by simplify_eq.
    + pose proof (room_kept x b b' Hapi Hapi' Hk Hct ltac:(left; eauto)) as Hs%subseteq_size. lia.
  - cbn. by rewrite Hx', Hx.
  - intros y. destruct (decide (y = x)) as [->|Hne]; [cbn; by rewrite Hx', Hx, Hi|].
    by apply (others_kept x b b' n n).
  - intros y Hne. by apply (others_kept x b b' n n).
Qed.

Lemma base_del x t :
  base_timers_ok t → event_initialized t x = true →
  ∃ t', RateLimit.event_del x t = Some t' ∧ base_timers_ok t' ∧ timer_pending t' x = false ∧
    (∀ y, event_initialized t' y = event_initialized t y) ∧ ∀ y, y ≠ x → timer_pending t' y = timer_pending t y.
Proof.
  intros Ht Hi. pose proof Ht as [Hapi Hown Hev Hsz]. destruct t as [b n]. cbn [the_base] in *.
  cbn in Hi. destruct (evs b !! addr x) as [ev|] eqn:Hx; [|done]. destruct (Hev x ev Hx) as [Hfin Hnorm].
  destruct (event_del_ok backend b (addr x) ev Hapi ltac:(by split)) as (r & b' & E & Hapi' & Hc). rewrite Hfin in Hc.
  destruct Hc as (c & Hs & Hidle). pose proof (st_touched _ _ _ _ _ Hs) as Ho.
  assert (Hk : ∀ y, y ≠ addr x → ¬ ctl_timer b y → core <$> evs b' !! y = core <$> evs b !! y).
  { intros y Hy _. apply (to_events _ _ _ Ho). congruence. }
  assert (Hct : ∀ y, ctl_timer b' y ↔ ctl_timer b y) by (intros y; apply ctl_timer_same, Ho).
  destruct (st_event _ _ _ _ _ Hs) as [pos Hx']. destruct (st_requeued _ _ _ _ _ Hs) as (_ & Hinit & Hf & _).
  destruct (idle_flags c Hidle) as (Hto & _).
  exists (Clocked_base b' n). cbn [RateLimit.event_del base_timers the_base]. rewrite E. split; [done|]. split; [|split; [|split]].
  - split; cbn [the_base]; [done|intros y; rewrite Hct; apply Hown| |].
    + apply (kept_events x b b'); [done|done|done|]. intros ev2 Hx2. rewrite Hx' in Hx2. injection Hx2 as <-.
      split; unfold ev_flags; cbn; [by rewrite Hf|by rewrite Hto].
    + pose proof (room_kept x b b' Hapi Hapi' Hk Hct ltac:(left; eauto)) as Hsub%subseteq_size. lia.
  - cbn. rewrite Hx'. cbn. by apply idle_waiting.
  - intros y. destruct (decide (y = x)) as [->|Hne]; [|by apply (others_kept x b b' n n)].
    cbn. rewrite Hx', Hx. unfold ev_flags. cbn. by rewrite Hinit.
  - intros y Hne. by apply (others_kept x b b' n n).
Qed.

(** The event base keeps the promises. *)
#[export] Instance base_laws : TimersLaws clocked_base.
Proof using Inj0 memory clock_good.
  refine {| timers_ok := base_timers_ok; usable x := x ∈ memory |}.
  - intros x t Ht Hp. cbn in *. destruct (evs (the_base t) !! addr x) as [ev|] eqn:Hx; [|done]. by apply (is_init t x).
  - intros x p t Ht Hx. by apply base_assign.
  - intros x tv t Ht Hi. by apply base_add.
  - intros x t Ht Hi. by apply base_del.
  - intros t Ht. eexists _, _. split; [reflexivity|]. split; [|by split]. by destruct Ht.
Defined.

(** Bufferevents whose timers are still unused memory of an event base. *)
Definition on_base (b : event_base) (bs : gmap nat bufferevent_private) : world clocked_base :=
  World (Clocked_base b 0) bs ∅ ∅ 0 0 false.

(** So the rate limits are kept on an event base in any state in which a program may leave it. *)
Corollary rate_limits_on_event_base (calloc trylock : nat → bool) (seed_time : timeval) (pid : Z) cs b bs :
  api_ok b → (∀ x, evs b !! addr x = None) → Z.of_nat (size (room_for b)) + 2 < 2 ^ 31 →
  (∀ v d, bs !! v = Some d → rate_limiting d = None ∧ going_ok d ∧ (∀ w, bw w d = false ∧ bw_group w d = false) ∧
     refill_bucket_event v ∈ memory) → Z.of_nat (size bs) <= EVUTIL_WEAKRAND_MAX →
  rl_obeys calloc trylock seed_time pid cs (on_base b bs) →
  ∃ s, rl_run calloc trylock seed_time pid cs (on_base b bs) = Some (tt, s) ∧ api_ok (the_base (timers s)) ∧
    ∀ v d w, bevs s !! v = Some d → way_in_order s v d w.
Proof using Inj0 memory clock_good.
  intros Hapi Hnew Hsz Hbs Hn Hobeys.
  assert (Hf : fresh_world (on_base b bs)).
  { split; try done.
    - split; cbn; [done| |congruence|done]. intros x Hc. destruct (ctl_exists _ _ Hapi Hc) as [e He]. by rewrite Hnew in He.
    - intros x. unfold init. cbn. by rewrite Hnew. }
  destruct (rl_run_ok calloc trylock seed_time pid cs _ (fresh_ok _ Hf) Hobeys) as ([] & s & E & W).
  exists s. split; [done|]. split; [apply (bt_api _ (wo_timers _ _ W))|]. intros v d w Hd. by apply world_in_order.
Qed.

End base.
