(* ===== verification/EventTimeout.v ===== *)
(** * Expired timers

    Models timeout_next, timeout_process, common_timeout_callback and event_signal_closure of
    libevent/event.c: how long the loop may wait, and which events it activates when it wakes up. *)

From stdpp Require Import sorting.
From S2P Require Import Prelude Timeval Event MinHeap EvMap EventBase EventBaseOk EventApi EventCheck EventCalls EventLive EventSystem.

Section timeout.
Context (mm : nat → Z → bool) (backend : history → backend_call → bool) (fdinfo_len : Z)
  (clock : nat → timeval).

(** [None] for NULL: there is no timer to wait for. *)
Definition timeout_next : EM (option timeval) :=
  top ← heap_top;
  match top with
  | None => mret None
  | Some x =>
      now ← gettime clock;
      ev ← get_event x;
      if evutil_timercmp Z.leb (ev_timeout ev) now then mret (Some evutil_timerclear)
      else
        let tv := evutil_timersub (ev_timeout ev) now in
        assert (0 <=? tv_sec tv);;
        assert (0 <=? tv_usec tv);;
        mret (Some tv)
  end.

(** The event is deleted and becomes active because of its timeout. *)
Definition expire (x : nat) : EM unit :=
  event_del_nolock_ backend x false;;
  event_active_nolock_ x EV_TIMEOUT 1.

Fixpoint timeout_loop (fuel : nat) (now : timeval) : EM unit :=
  match fuel with
  | O => fails
  | S fuel =>
      top ← heap_top;
      match top with
      | None => mret tt
      | Some x =>
          ev ← get_event x;
          if evutil_timercmp Z.gtb (ev_timeout ev) now then mret tt
          else expire x;; timeout_loop fuel now
      end
  end.

(** Each round takes one timer from the heap. *)
Definition timeout_process : EM unit :=
  empty ← gets (λ b, min_heap_empty_ (timeheap b));
  if empty : bool then mret tt
  else
    now ← gettime clock;
    n ← gets (λ b, heap_n (timeheap b));
    timeout_loop (S (Z.to_nat n)) now.

(** [ev->ev_timeout], without the number of its queue, is later than [now]. *)
Definition common_later (tv now : timeval) : bool :=
  (tv_sec now <? tv_sec tv) ||
  (tv_sec tv =? tv_sec now) && (tv_usec now <? Z.land (tv_usec tv) MICROSECONDS_MASK).

(** The first event that is not due, if any. *)
Fixpoint common_loop (fuel : nat) (i : Z) (now : timeval) : EM (option nat) :=
  match fuel with
  | O => fails
  | S fuel =>
      ctl ← lift (λ b, common_timeout_queues b !! Z.to_nat i);
      match ctl_events ctl with
      | [] => mret None
      | x :: _ =>
          ev ← get_event x;
          if common_later (ev_timeout ev) now then mret (Some x)
          else expire x;; common_loop fuel i now
      end
  end.

(** [i] is the number of the queue, the argument of its timer. *)
Definition common_timeout_callback (i : Z) : EM unit :=
  now ← gettime clock;
  ctl ← lift (λ b, common_timeout_queues b !! Z.to_nat i);
  head ← common_loop (S (length (ctl_events ctl))) i now;
  match head with
  | Some x =>
      ctl ← lift (λ b, common_timeout_queues b !! Z.to_nat i);
      common_timeout_schedule (event_add_nolock_ mm backend fdinfo_len clock) ctl x
  | None => mret tt
  end.

End timeout.

(** ** One expired timer *)

(** No event that is being finalized is pending. *)
Definition timers_live (b : event_base) : Prop :=
  ∀ x ev, evs b !! x = Some ev → has EVLIST_TIMEOUT (ev_flags ev) = true → has EVLIST_FINALIZING (ev_flags ev) = false.

(** The event has left every list but the active queue of its priority. *)
Definition expired_event (ev' : event) : Prop :=
  bits (ev_evcallback ev') = (false, false, true, false) ∧ ev_res ev' = EV_TIMEOUT.

Lemma expire_ok backend x ev b :
  base_ok b → evs b !! x = Some ev → has EVLIST_FINALIZING (ev_flags ev) = false →
  wp (expire backend x) b (λ _ b', base_ok b' ∧ touched (of_event x) b b' ∧
    (settled b → settled b') ∧ ∃ ev', evs b' !! x = Some ev' ∧ expired_event ev' ∧ ev_pri ev' = ev_pri ev).
Proof.
  intros Hok Hx Hfin. unfold expire. apply wp_bind.
  eapply wp_mono; [by apply (del_nolock_ok backend x false ev)|]. intros r b1 H. cbn [negb andb] in H. rewrite Hfin in H.
  destruct H as (c & [Hok1 Ht1 _ [pos Hx1] Hreq] & Hid). destruct (idle_flags _ Hid) as (T & I & A & L).
  eapply wp_mono; [by apply (active_nolock_ok x EV_TIMEOUT 1 _ b1 Hok1 Hx1)|].
  intros _ b2 (Hok2 & Ht2 & _ & _ & ev' & Hx2 & H1 & H2 & Hreq2 & Htv & _ & _ & Hu & H3).
  assert (Ht : touched (of_event x) b b2) by by eapply touched_trans.
  split; [done|]. split; [done|]. split.
  { intros Hs. eapply settled_touched; [done|exact Ht|]. rewrite Hx2. pose proof (requeued_trans _ _ _ Hreq Hreq2) as Hrq.
    eapply (live_at_next b x ev); [apply Hs|done|done|]. eapply item_live_next; [by eapply lv_events; [apply Hs|]|exact Hrq|done|congruence|].
    intros Hp. left. apply Hu. by apply (ew_persist _ (bo_wf _ (bo_items _ Hok) x ev Hx) Hp). }
  exists ev'. split; [done|].
  assert (Hf1 : has EVLIST_FINALIZING (evcb_flags c) = false) by (destruct Hreq as (_ & _ & -> & _); done).
  unfold ev_flags in *. cbn [ev_evcallback with_pos with_evcallback] in *. rewrite Hf1, A, L in H3. cbn [orb] in H3.
  destruct H3 as (H3 & H4 & H5). split.
  - split; [unfold bits; by rewrite H1, H2, H3, H4, T, I|]. rewrite H5. reflexivity.
  - unfold ev_pri. rewrite (proj1 Hreq2), (proj1 Hreq). done.
Qed.

Lemma touched_pending x b b' y : touched (of_event x) b b' → y ≠ x → pending (evs b') y = pending (evs b) y.
Proof. intros Ht Hy. apply pending_core, Ht. congruence. Qed.

Lemma expired_not_pending b x ev : evs b !! x = Some ev → expired_event ev → pending (evs b) x = None.
Proof.
  intros Hx [Hb _]. apply (pending_is _ _ _ false Hx). unfold bits in Hb. by injection Hb.
Qed.

Lemma timers_live_touched x b b' :
  timers_live b → touched (of_event x) b b' → pending (evs b') x = None → timers_live b'.
Proof.
  intros Hl Ht Hp y e Hy He. destruct (decide (y = x)) as [->|Hne].
  - rewrite (pending_is _ _ _ _ Hy He) in Hp. done.
  - pose proof (to_events _ _ _ Ht y) as Hc. rewrite Hy in Hc. cbn in Hc.
    destruct (evs b !! y) as [e0|] eqn:Ey; [|by specialize (Hc ltac:(congruence))].
    specialize (Hc ltac:(congruence)). apply (inj Some) in Hc. rewrite (core_eq _ _ Hc) in He |- *.
    exact (Hl y e0 Ey He).
Qed.

(** Due at [now], in the heap. *)
Definition due (b : event_base) (now : timeval) (x : nat) : Prop :=
  ∃ t, pending (evs b) x = Some t ∧ tv_normal t ∧ tv_le t now.

(** From [b] to [b'] the events that [P] describes have expired; nothing else has changed. *)
Record expired (P : nat → Prop) (b b' : event_base) : Prop := {
  ex_fired : ∀ x, P x → ∃ ev ev', evs b !! x = Some ev ∧ evs b' !! x = Some ev' ∧ expired_event ev' ∧ ev_pri ev' = ev_pri ev;
  ex_other : ∀ x, ¬ P x → core <$> evs b' !! x = core <$> evs b !! x;
  ex_common : map (λ c, (duration c, timeout_event c)) (common_timeout_queues b') =
              map (λ c, (duration c, timeout_event c)) (common_timeout_queues b);
  ex_queues : nactivequeues b' = nactivequeues b;
  ex_cache : tv_cache (time b') = tv_cache (time b)
}.

Lemma expired_none P b : (∀ x, ¬ P x) → expired P b b.
Proof. intros H. split; try done. intros x Hx. by destruct (H x). Qed.

(** One more has expired. *)
Lemma expired_step P P' x ev ev1 b b1 b2 :
  evs b !! x = Some ev → evs b1 !! x = Some ev1 → expired_event ev1 → ev_pri ev1 = ev_pri ev →
  touched (of_event x) b b1 → expired P' b1 b2 → (∀ y, P y ↔ y = x ∨ P' y) → ¬ P' x → expired P b b2.
Proof.
  intros Hx Hx1 He Hpri Ht [F1 F2 F3 F4 F5] HP Hnx. split.
  - intros y Hy. destruct (decide (y = x)) as [->|Hne].
    + specialize (F2 x Hnx). rewrite Hx1 in F2. destruct (evs b2 !! x) as [ev2|]; [|done].
      apply (inj Some), core_eq in F2. exists ev, ev2. rewrite F2. done.
    + apply HP in Hy as [?|Hy]; [done|]. destruct (F1 y Hy) as (e1 & e2 & E1 & E2 & Hex & Hpr).
      pose proof (to_events _ _ _ Ht y) as Hc. rewrite E1 in Hc.
      destruct (evs b !! y) as [e0|] eqn:Ey; [|by specialize (Hc ltac:(congruence))].
      specialize (Hc ltac:(congruence)). apply (inj Some), core_eq in Hc. exists e0, e2.
      split; [done|]. split; [done|]. split; [done|]. rewrite Hpr, Hc. done.
  - intros y Hy. rewrite F2; [|intros H; apply Hy, HP; by right]. apply Ht. intros [= ->]. apply Hy, HP. by left.
  - rewrite F3. apply Ht.
  - rewrite F4. apply Ht.
  - rewrite F5. apply Ht.
Qed.

(** [x] is gone from the heap. *)
Lemma heap_shrinks b b' x hs hs' :
  heap_rep (timeheap b) (evs b) hs → lists_ok (pending (evs b)) (common_timeout_queues b) hs →
  heap_rep (timeheap b') (evs b') hs' → lists_ok (pending (evs b')) (common_timeout_queues b') hs' →
  (∀ y, pending (evs b') y = without x (pending (evs b)) y) → x ∈ hs → hs ≡ₚ x :: hs'.
Proof.
  intros Hr Hlo Hr' Hlo' Hp Hx. apply NoDup_Permutation.
  - apply (rep_nodup _ _ _ _ (proj1 Hr 0%nat)).
  - constructor; [|apply (rep_nodup _ _ _ _ (proj1 Hr' 0%nat))].
    rewrite (lo_heap _ _ _ Hlo'), Hp. unfold without. rewrite decide_True by done. by intros (? & [=] & _).
  - intros y. rewrite elem_of_cons, (lo_heap _ _ _ Hlo'), Hp. unfold without. case_decide as Hy.
    + subst. split; [by left|done].
    + rewrite (lo_heap _ _ _ Hlo). split; [by right|]. by intros [?|?].
Qed.

Lemma timeout_loop_ok backend fuel now b hs :
  base_ok b → timers_live b → heap_rep (timeheap b) (evs b) hs →
  lists_ok (pending (evs b)) (common_timeout_queues b) hs → (length hs < fuel)%nat →
  wp (timeout_loop backend fuel now) b (λ _ b', base_ok b' ∧ timers_live b' ∧ (settled b → settled b') ∧
    expired (due b now) b b').
Proof.
  revert b hs. induction fuel as [|fuel IH]; intros b hs Hok Hlive Hr Hlo Hf; [lia|]. cbn [timeout_loop].
  apply wp_bind. apply (wp_lift _ _ (hs !! 0%nat)); [by eapply heap_rep_top|].
  assert (Hdue : ∀ x, due b now x → x ∈ hs ∧ tv_le (key (evs b) x) now).
  { intros x (t & Hp & Hn & Hle). split; [apply (lo_heap _ _ _ Hlo); eauto|].
    destruct (pending_event _ _ _ Hp) as (e & He & _ & <-). unfold key. by rewrite He. }
  destruct (hs !! 0%nat) as [x|] eqn:Hx0.
  2:{ apply wp_ret. do 3 (split; [done|]). apply expired_none. intros x [Hin _]%Hdue.
      destruct hs; [by apply elem_of_nil in Hin|done]. }
  assert (Hin : x ∈ hs) by by eapply list_elem_of_lookup_2.
  pose proof (proj1 (lo_heap _ _ _ Hlo x) Hin) as (t & Hp & Hn).
  destruct (pending_event _ _ _ Hp) as (ev & Hx & Ht & Htv).
  apply wp_bind, (wp_get_event x ev); [done|]. destruct (timercmp_gt_spec (ev_timeout ev) now) as [Hgt|Hle].
  { apply wp_ret. do 3 (split; [done|]). apply expired_none. intros y [Hy Hle]%Hdue.
    apply tv_lt_nge in Hgt. apply Hgt. pose proof (heap_rep_min _ _ _ _ _ Hr Hx0 Hy) as Hm. unfold key at 1 in Hm.
    rewrite Hx in Hm. by etrans. }
  assert (Hle' : tv_le (ev_timeout ev) now) by (rewrite tv_lt_nge in Hle; by apply dec_stable).
  apply wp_bind. eapply wp_mono; [by apply (expire_ok backend x ev), (Hlive x)|].
  intros _ b1 (Hok1 & Ht1 & Hse & ev1 & Hx1 & Hex & Hpri). pose proof (expired_not_pending _ _ _ Hx1 Hex) as Hp1.
  assert (Hpend : ∀ y, pending (evs b1) y = without x (pending (evs b)) y).
  { intros y. unfold without. case_decide; [by subst|]. by eapply touched_pending. }
  destruct (bo_heap _ Hok1) as (hs1 & Hr1 & Hlo1). pose proof (heap_shrinks _ _ _ _ _ Hr Hlo Hr1 Hlo1 Hpend Hin) as Hperm.
  eapply wp_mono; [apply (IH b1 hs1 Hok1)|].
  - by eapply timers_live_touched.
  - done.
  - done.
  - rewrite Hperm in Hf. cbn in Hf. lia.
  - intros _ b2 (Hok2 & Hlive2 & Hse2 & Hexp). do 2 (split; [done|]). split; [auto|].
    eapply (expired_step _ (due b1 now)); [exact Hx|exact Hx1|done|done|exact Ht1|exact Hexp| |].
    + intros y. unfold due. rewrite Hpend. unfold without. case_decide as Hy.
      * subst. split; [by left|]. intros _. exists (ev_timeout ev). done.
      * split; [by right|]. by intros [?|?].
    + intros (t0 & Hp0 & _). congruence.
Qed.

(** ** The timers of the heap *)

Lemma expired_api P b b' :
  api_ok b → base_ok b' → expired P b b' → api_ok b'.
Proof.
  intros [Hok Hc Hn Hq] Hok' [F1 F2 F3 F4 F5]. split; [done|unfold cache_ok; by rewrite F5| |by rewrite F4].
  intros y t Hy Hp. apply (Hn y t); [by rewrite <- (ctl_timer_same b b')|].
  rewrite <- Hp. symmetry. apply pending_core, F2. intros HP. destruct (F1 y HP) as (ev & ev' & _ & Hy' & Hex & _).
  rewrite (expired_not_pending _ _ _ Hy' Hex) in Hp. done.
Qed.

Lemma timeout_process_ok backend clock b :
  clock_ok clock → api_ok b → timers_live b →
  wp (timeout_process backend clock) b (λ _ b', api_ok b' ∧ timers_live b' ∧ (settled b → settled b') ∧
    ∃ now, tv_normal now ∧ (tv_sec (tv_cache (time b)) ≠ 0 → now = tv_cache (time b)) ∧ expired (due b now) b b').
Proof.
  intros Hclock Hapi Hlive. pose proof Hapi as [Hok Hc Hn Hq]. destruct (bo_heap _ Hok) as (hs & Hr & Hlo).
  unfold timeout_process. apply wp_bind, wp_gets. unfold min_heap_empty_.
  pose proof (rep_n _ _ _ _ (proj1 Hr 0%nat)) as Hlen. rewrite Hlen.
  destruct (Z.eqb_spec 0 (Zlen hs)) as [He|He].
  - apply wp_ret. do 3 (split; [done|]).
    exists (if tv_sec (tv_cache (time b)) =? 0 then clock 0%nat else tv_cache (time b)).
    split; [destruct (Z.eqb_spec (tv_sec (tv_cache (time b))) 0); [done|by apply Hc]|].
    split; [by intros H; rewrite (proj2 (Z.eqb_neq _ _) H)|].
    apply expired_none. intros x (t & Hp & Hnt & _). assert (Hx : x ∈ hs) by (apply (lo_heap _ _ _ Hlo); eauto).
    destruct hs; [by apply elem_of_nil in Hx|]. cbn [length] in He. lia.
  - apply wp_bind, gettime_ok; [done|done|]. intros now t Hnow Hc' Et Hfresh. apply wp_bind, wp_gets.
    eapply wp_mono; [apply (timeout_loop_ok backend _ now (with_time t b) hs)|].
    + by apply base_ok_time.
    + done.
    + done.
    + done.
    + change (timeheap (with_time t b)) with (timeheap b). rewrite Hlen. lia.
    + intros _ b' (Hok' & Hlive' & Hse & Hexp).
      assert (Hexp' : expired (due b now) b b').
      { destruct Hexp as [F1 F2 F3 F4 F5]. split; try done. rewrite F5. exact Et. }
      split; [by eapply expired_api|]. split; [done|]. split; [by intros; apply Hse, settled_time|]. by exists now.
Qed.

(** C15. timeout_process ends and activates, with EV_TIMEOUT, exactly the events of the heap whose
    deadline is not after the current time; each of them has left its other lists and goes to the
    queue of its priority.  Every other event is as before. *)
Theorem timeout_process_exact backend clock b :
  clock_ok clock → api_ok b → timers_live b →
  ∃ b' now, timeout_process backend clock b = Some (tt, b') ∧ api_ok b' ∧ tv_normal now ∧
    (tv_sec (tv_cache (time b)) ≠ 0 → now = tv_cache (time b)) ∧
    (∀ x t, pending (evs b) x = Some t → tv_normal t → tv_micros t <= tv_micros now →
       ∃ ev ev', evs b !! x = Some ev ∧ evs b' !! x = Some ev' ∧ ev_res ev' = EV_TIMEOUT ∧
         of_event x ∈ default [] (queue_at b' (ev_pri ev)) ∧ pending (evs b') x = None ∧ inserted (evs b') x = None) ∧
    (∀ x, (∀ t, pending (evs b) x = Some t → tv_normal t → tv_micros now < tv_micros t) →
       core <$> evs b' !! x = core <$> evs b !! x).
Proof.
  intros Hclock Hapi Hlive.
  destruct (timeout_process_ok backend clock b Hclock Hapi Hlive) as ([] & b' & E & Hapi' & _ & _ & now & Hn & Hc & [F1 F2 _ _ _]).
  exists b', now. split; [done|]. split; [done|]. split; [done|]. split; [done|]. split.
  - intros x t Hp Ht Hle. destruct (F1 x) as (ev & ev' & Hx & Hx' & Hex & Hpri).
    { exists t. split; [done|]. split; [done|]. by apply tv_le_micros. }
    exists ev, ev'. split; [done|]. split; [done|]. split; [apply Hex|].
    split; [|split; [by eapply expired_not_pending|]].
    + destruct Hex as [Hb _]. unfold bits in Hb. injection Hb as _ _ Ha _.
      assert (Hcb : callback_at b' (of_event x) = Some (ev_evcallback ev')) by (cbn; by rewrite Hx').
      destruct (active_queue b' _ _ (api_base _ Hapi') Hcb Ha) as (q & Hq & _ & Hin & _).
      unfold ev_pri in Hpri. rewrite Hpri in Hq. unfold ev_pri. by rewrite Hq.
    + destruct Hex as [Hb _]. unfold bits in Hb. injection Hb as _ Hi _ _. unfold inserted. rewrite Hx'. cbn.
      unfold ev_flags. by rewrite Hi.
  - intros x Hx. apply F2. intros (t & Hp & Ht & Hle). specialize (Hx t Hp Ht). apply tv_le_micros in Hle; [lia|done|done].
Qed.

(** Nothing that is pending is being finalized: decided. *)
Lemma timers_live_check b :
  bool_decide (map_Forall (λ _ ev, implb (has EVLIST_TIMEOUT (ev_flags ev)) (negb (has EVLIST_FINALIZING (ev_flags ev))) = true)
    (evs b)) = true → timers_live b.
Proof.
  intros H%bool_decide_eq_true x ev Hx Ht. specialize (H x ev Hx). cbv beta in H. rewrite Ht in H. by apply negb_true_iff.
Qed.

(** Two timers. *)
Definition two_timers : list api_call := [
  call_assign 1 (-1) 0 1 0; call_add 1 (Some (Timeval 0 100000));
  call_assign 2 (-1) 0 2 0; call_add 2 (Some (Timeval 50 0))].
Definition two_timers_base : event_base :=
  match api_run grants accepts 0 ticking two_timers event_base_new with Some (_, b) => b | None => event_base_new end.
Lemma two_timers_api : api_ok two_timers_base.
Proof.
  unfold two_timers_base.
  destruct (api_run_ok grants accepts 0 ticking ticking_ok two_timers event_base_new) as (l & b & -> & [[Hb _] _] & _);
    [split; [apply api_new|apply live_new]|apply check_obeys_spec; vm_compute; reflexivity|done].
Qed.

Lemma timeout_process_exact_witness :
  ∃ b' now, timeout_process accepts ticking two_timers_base = Some (tt, b') ∧
    pending (evs two_timers_base) 1 = Some (Timeval 101 350000) ∧
    (tv_micros (Timeval 101 350000) <= tv_micros now → pending (evs b') 1 = None).
Proof.
  assert (Hlive : timers_live two_timers_base) by (apply timers_live_check; vm_compute; reflexivity).
  destruct (timeout_process_exact accepts ticking two_timers_base ticking_ok two_timers_api Hlive)
    as (b' & now & E & _ & _ & _ & Hdue & _).
  exists b', now. split; [exact E|].
  assert (Hp : pending (evs two_timers_base) 1 = Some (Timeval 101 350000)) by (vm_compute; reflexivity).
  split; [exact Hp|]. intros Hle.
  destruct (Hdue 1%nat (Timeval 101 350000) Hp) as (ev & ev' & _ & _ & _ & _ & H & _); [|exact Hle|exact H].
  unfold tv_normal. cbn. lia.
Defined.

(** How long the loop may wait: to the first deadline of the heap. *)
Lemma timeout_next_ok clock b :
  clock_ok clock → api_ok b →
  wp (timeout_next clock) b (λ r b', (∃ t, tv_cache t = tv_cache (time b) ∧ b' = with_time t b) ∧
    match r with
    | None => ∀ x t, pending (evs b) x = Some t → ¬ tv_normal t
    | Some tv => ∃ now x t, tv_normal now ∧ pending (evs b) x = Some t ∧ tv_normal t ∧
        (∀ y u, pending (evs b) y = Some u → tv_normal u → tv_micros t <= tv_micros u) ∧
        tv_normal tv ∧ tv_micros tv = Z.max 0 (tv_micros t - tv_micros now)
    end).
Proof.
  intros Hclock [Hok Hc _ _]. destruct (bo_heap _ Hok) as (hs & Hr & Hlo).
  unfold timeout_next. apply wp_bind. apply (wp_lift _ _ (hs !! 0%nat)); [by eapply heap_rep_top|].
  destruct (hs !! 0%nat) as [x|] eqn:Hx0.
  2:{ apply wp_ret. split; [exists (time b); split; [done|by destruct b]|]. intros x t Hp Hn.
      assert (Hx : x ∈ hs) by (apply (lo_heap _ _ _ Hlo); eauto). destruct hs; [by apply elem_of_nil in Hx|done]. }
  assert (Hin : x ∈ hs) by by eapply list_elem_of_lookup_2.
  pose proof (proj1 (lo_heap _ _ _ Hlo x) Hin) as (t & Hp & Hn).
  destruct (pending_event _ _ _ Hp) as (ev & Hx & Ht & Htv).
  assert (Hmin : ∀ y u, pending (evs b) y = Some u → tv_normal u → tv_micros t <= tv_micros u).
  { intros y u Hu Hnu. apply tv_le_micros; [done|done|]. assert (Hy : y ∈ hs) by (apply (lo_heap _ _ _ Hlo); eauto).
    pose proof (heap_rep_min _ _ _ _ _ Hr Hx0 Hy) as Hm. unfold key in Hm. rewrite Hx in Hm.
    destruct (pending_event _ _ _ Hu) as (e & He & _ & <-). rewrite He, Htv in Hm. exact Hm. }
  apply wp_bind, gettime_ok; [done|done|]. intros now tm Hnow _ Etm _.
  apply wp_bind, (wp_get_event x ev); [done|]. rewrite Htv.
  destruct (evutil_timercmp Z.leb t now) eqn:Hle.
  - apply wp_ret. split; [by exists tm|]. exists now, x, t. do 4 (split; [done|]). split; [unfold tv_normal; cbn; lia|].
    pose proof (proj1 (tv_le_micros t now Hn Hnow) Hle) as Hm. change (tv_micros evutil_timerclear) with 0. lia.
  - assert (Hlt : tv_micros now < tv_micros t).
    { destruct (Z_lt_le_dec (tv_micros now) (tv_micros t)) as [?|Hm]; [done|]. apply tv_le_micros in Hm; [|done..].
      unfold tv_le in Hm. congruence. }
    pose proof (timersub_micros t now) as Hm. pose proof (timersub_normal t now Hn Hnow) as Hnt.
    set (tv := evutil_timersub t now) in *. unfold tv_normal, tv_micros in *.
    apply wp_bind, wp_assert; [apply Z.leb_le; lia|]. apply wp_bind, wp_assert; [apply Z.leb_le; lia|].
    apply wp_ret. split; [by exists tm|]. exists now, x, t. do 4 (split; [done|]). split; [done|]. lia.
Qed.

(** ** The queues of common timeouts *)

Lemma common_later_spec tv now : reflect (¬ tv_le (real_timeout tv) now) (common_later tv now).
Proof.
  apply iff_reflect. unfold common_later, real_timeout. rewrite land_ones_mod. unfold tv_le, evutil_timercmp. cbn [tv_sec tv_usec].
  destruct (Z.eqb_spec (tv_sec tv) (tv_sec now)); lia.
Qed.

(** Due at [now], in the [i]-th queue. *)
Definition due_common (i : Z) (b : event_base) (now : timeval) (x : nat) : Prop :=
  ∃ t, pending (evs b) x = Some t ∧ common_at i t ∧ tv_le (real_timeout t) now.

Lemma common_le i t u : common_at i t → common_at i u → tv_le t u → tv_le (real_timeout t) (real_timeout u).
Proof.
  intros H1 H2 Hle. pose proof (common_fields i t H1) as E1. pose proof (common_fields i u H2) as E2.
  unfold tv_le, evutil_timercmp in *. cbn [tv_sec real_timeout] in *. rewrite E1, E2 in Hle.
  destruct (tv_sec t =? tv_sec u); lia.
Qed.

(** The queue after its first event has expired. *)
Lemma common_shrinks b b' hs hs' i ctl ctl' x l :
  lists_ok (pending (evs b)) (common_timeout_queues b) hs → lists_ok (pending (evs b')) (common_timeout_queues b') hs' →
  common_timeout_queues b !! i = Some ctl → common_timeout_queues b' !! i = Some ctl' → ctl_events ctl = x :: l →
  (∀ y, pending (evs b') y = without x (pending (evs b)) y) → length (ctl_events ctl') = length l.
Proof.
  intros Hlo Hlo' Hi Hi' Hl Hp. apply Permutation_length, NoDup_Permutation.
  - by apply (lo_nodup _ _ _ Hlo' i).
  - pose proof (lo_nodup _ _ _ Hlo i _ Hi) as Hnd. rewrite Hl in Hnd. by apply NoDup_cons in Hnd as [_ ?].
  - intros y. rewrite (lo_common _ _ _ Hlo' _ _ Hi'), Hp. unfold without. case_decide as Hy.
    + subst. split; [by intros (? & [=] & _)|]. pose proof (lo_nodup _ _ _ Hlo i _ Hi) as Hnd. rewrite Hl in Hnd.
      by apply NoDup_cons in Hnd as [? _].
    + rewrite <- (lo_common _ _ _ Hlo _ _ Hi), Hl, elem_of_cons. split; [by intros [?|?]|by right].
Qed.

Lemma common_same_queue b b' i ctl :
  map (λ c, (duration c, timeout_event c)) (common_timeout_queues b') =
    map (λ c, (duration c, timeout_event c)) (common_timeout_queues b) →
  common_timeout_queues b !! i = Some ctl →
  ∃ ctl', common_timeout_queues b' !! i = Some ctl' ∧ timeout_event ctl' = timeout_event ctl.
Proof.
  intros E Hi. assert (Hm : map (λ c, (duration c, timeout_event c)) (common_timeout_queues b') !! i =
    Some (duration ctl, timeout_event ctl)) by (rewrite E, list_lookup_fmap, Hi; done).
  rewrite list_lookup_fmap in Hm. destruct (common_timeout_queues b' !! i) as [c|]; [|done]. cbn in Hm.
  injection Hm as _ ?. eauto.
Qed.

(** The first deadline of the [k]-th queue. *)
Definition first_deadline (st : store) (k : nat) (t : timeval) : Prop :=
  (∃ x, pending st x = Some t ∧ common_at (Z.of_nat k) t) ∧
  ∀ y u, pending st y = Some u → common_at (Z.of_nat k) u → tv_le t u.

(** What is left of the queue. *)
Definition first_left (k : nat) (now : timeval) (r : option nat) (b : event_base) : Prop :=
  match r with
  | None => ∀ y u, pending (evs b) y = Some u → ¬ common_at (Z.of_nat k) u
  | Some x => ∃ t, pending (evs b) x = Some t ∧ first_deadline (evs b) k t ∧ ¬ tv_le (real_timeout t) now
  end.

Lemma queue_first b hs k ctl x l t :
  lists_ok (pending (evs b)) (common_timeout_queues b) hs → common_timeout_queues b !! k = Some ctl →
  ctl_events ctl = x :: l → pending (evs b) x = Some t → common_at (Z.of_nat k) t → first_deadline (evs b) k t.
Proof.
  intros Hlo Hi Hl Hp Hat. split; [eauto|]. intros y u Hpu Hatu.
  destruct (decide (y = x)) as [->|Hne]; [by rewrite Hp in Hpu; simplify_eq|].
  pose proof (lo_sorted _ _ _ Hlo _ _ Hi) as Hs. rewrite Hl in Hs. apply StronglySorted_inv in Hs as [_ Hs].
  assert (Hy : y ∈ x :: l) by (rewrite <- Hl; apply (lo_common _ _ _ Hlo _ _ Hi); eauto).
  apply elem_of_cons in Hy as [?|Hy]; [done|]. eapply Forall_forall in Hs; [|exact Hy]. by apply Hs.
Qed.

Lemma common_loop_ok backend fuel k now b ctl :
  base_ok b → timers_live b → common_timeout_queues b !! k = Some ctl → (length (ctl_events ctl) < fuel)%nat →
  wp (common_loop backend fuel (Z.of_nat k) now) b (λ r b', base_ok b' ∧ timers_live b' ∧ (settled b → settled b') ∧
    expired (due_common (Z.of_nat k) b now) b b' ∧ first_left k now r b').
Proof.
  revert b ctl. induction fuel as [|fuel IH]; intros b ctl Hok Hlive Hi Hf; [lia|]. cbn [common_loop].
  apply wp_bind. apply (wp_lift _ _ ctl); [by rewrite Nat2Z.id|].
  destruct (bo_heap _ Hok) as (hs & _ & Hlo). pose proof (lo_common _ _ _ Hlo _ _ Hi) as Hmem.
  destruct (ctl_events ctl) as [|x l] eqn:Hl.
  { assert (Hnone : ∀ y u, pending (evs b) y = Some u → ¬ common_at (Z.of_nat k) u).
    { intros y u Hp Hat. assert (Hy : y ∈ ([] : list nat)) by (apply Hmem; eauto). by apply elem_of_nil in Hy. }
    apply wp_ret. split_and!; [done|done|done| |done]. apply expired_none. intros y (t & Hp & Hat & _). by apply (Hnone y t). }
  destruct (proj1 (Hmem x)) as (t & Hp & Hat); [by left|].
  destruct (pending_event _ _ _ Hp) as (ev & Hx & Ht & Htv).
  apply wp_bind, (wp_get_event x ev); [done|]. rewrite Htv. destruct (common_later_spec t now) as [Hlater|Hdue].
  { assert (Hfirst : first_deadline (evs b) k t) by (eapply queue_first; eauto).
    apply wp_ret. do 3 (split; [done|]). split; [|by exists t].
    apply expired_none. intros y (u & Hpu & Hatu & Hle). apply Hlater. etrans; [|exact Hle].
    apply (common_le (Z.of_nat k)); [done|done|]. by apply (proj2 Hfirst y). }
  apply wp_bind. eapply wp_mono; [by apply (expire_ok backend x ev), (Hlive x)|].
  intros _ b1 (Hok1 & Ht1 & Hse & ev1 & Hx1 & Hex & Hpri). pose proof (expired_not_pending _ _ _ Hx1 Hex) as Hp1.
  assert (Hpend : ∀ y, pending (evs b1) y = without x (pending (evs b)) y).
  { intros y. unfold without. case_decide; [by subst|]. by eapply touched_pending. }
  destruct (bo_heap _ Hok1) as (hs1 & _ & Hlo1).
  destruct (common_same_queue b b1 k ctl) as (ctl1 & Hi1 & _); [apply Ht1|done|].
  pose proof (common_shrinks _ _ _ _ _ _ _ _ _ Hlo Hlo1 Hi Hi1 Hl Hpend) as Hlen.
  eapply wp_mono; [apply (IH b1 ctl1 Hok1)|].
  - by eapply timers_live_touched.
  - done.
  - cbn in Hf. lia.
  - intros r b2 (Hok2 & Hlive2 & Hse2 & Hexp & Hfirst). do 2 (split; [done|]). split; [auto|]. split; [|done].
    eapply (expired_step _ (due_common (Z.of_nat k) b1 now)); [exact Hx|exact Hx1|done|done|exact Ht1|exact Hexp| |].
    + intros y. unfold due_common. rewrite Hpend. unfold without. case_decide as Hy.
      * subst. split; [by left|]. intros _. exists (ev_timeout ev). split; [done|]. split; [done|]. by apply dec_stable.
      * split; [by right|]. by intros [?|?].
    + intros (t0 & Hp0 & _). congruence.
Qed.

(** What common_timeout_callback does: the events of the queue that are due have expired, and the
    timer has the first deadline that is left, unless memory for it has been refused. *)
Definition common_processed (k : nat) (timer : nat) (now : timeval) (b b' : event_base) : Prop :=
  (∀ x, due_common (Z.of_nat k) b now x → ∃ ev', evs b' !! x = Some ev' ∧ expired_event ev') ∧
  (∀ x, ¬ due_common (Z.of_nat k) b now x → x ≠ timer → core <$> evs b' !! x = core <$> evs b !! x) ∧
  ((∀ y u, pending (evs b') y = Some u → ¬ common_at (Z.of_nat k) u) ∨
   ∃ t, first_deadline (evs b') k t ∧ ¬ tv_le (real_timeout t) now ∧
     (pending (evs b') timer = Some (real_timeout t) ∨ core <$> evs b' !! timer = core <$> evs b !! timer)).

Lemma timer_not_due b k ctl i now :
  timers_normal b → common_timeout_queues b !! k = Some ctl → 0 <= i → ¬ due_common i b now (timeout_event ctl).
Proof.
  intros Hn Hi Hpos (t & Hp & Hat & _). apply (normal_not_at i t); [|done|done].
  apply (Hn (timeout_event ctl)); [|done]. exists ctl. split; [by eapply list_elem_of_lookup_2|done].
Qed.

Lemma quiet_expired k b b' now :
  timers_normal b → expired (due_common (Z.of_nat k) b now) b b' → quiet b b'.
Proof.
  intros Hn [F1 F2 F3 F4 F5] y Hy Ha. rewrite (ctl_timer_same b b') in Hy by done. split; [done|].
  eapply active_core; [|exact Ha]. apply F2. intros (t & Hp & Hat & _).
  apply (normal_not_at (Z.of_nat k) t); [by apply (Hn y)|lia|done].
Qed.

(** The timer is set to the first deadline. *)
Lemma schedule_ok mm backend fdinfo_len clock k b ctl x t :
  clock_ok clock → api_ok b → common_timeout_queues b !! k = Some ctl → pending (evs b) x = Some t →
  common_at (Z.of_nat k) t →
  wp (common_timeout_schedule (event_add_nolock_ mm backend fdinfo_len clock) ctl x) b (λ _ b', api_ok b' ∧
    touched (of_event (timeout_event ctl)) b b' ∧ (settled b → settled b') ∧
    (active_at b' (timeout_event ctl) → active_at b (timeout_event ctl)) ∧
    (pending (evs b') (timeout_event ctl) = Some (real_timeout t) ∨
     core <$> evs b' !! timeout_event ctl = core <$> evs b !! timeout_event ctl)).
Proof.
  intros Hclock [Hok Hc Hn Hq] Hi Hp Hat. destruct (pending_event _ _ _ Hp) as (ev & Hx & Ht & Htv).
  unfold common_timeout_schedule. apply wp_bind, (wp_get_event x ev); [done|]. rewrite Htv.
  destruct (bo_timers _ (bo_items _ Hok) k ctl Hi) as (_ & te & Hte & _).
  assert (Hct : ctl_timer b (timeout_event ctl)) by (exists ctl; split; [by eapply list_elem_of_lookup_2|done]).
  apply wp_bind. eapply wp_mono; [apply (add_nolock_ok mm backend fdinfo_len clock Hclock _ (Some (real_timeout t)) true te b); try done|].
  - split; [left; apply Hat|]. split; [|intros _; apply Hat]. intros Htm _. right. split; [done|].
    apply (Hn _ _ Hct). by rewrite (pending_is _ _ _ _ Hte Htm).
  - intros r b' ((Hok' & Hn' & Hou & _) & Htc & Hout). apply wp_ret.
    assert (Htc' : touched (of_event (timeout_event ctl)) b b') by (apply Htc; intros ? [= <-]; apply Hat).
    split; [|split; [done|split; [by intros; eapply settled_timer|split; [by eapply add_active|]]]].
    + split; [done|by eapply touched_cache|done|by rewrite (to_queues _ _ _ Htc')].
    + destruct Hout as [[_ Hcore]|(_ & _ & te' & Hte' & Had & now & _ & _ & Hd)]; [by right|left].
      rewrite bool_decide_true, orb_true_r in Had by eauto.
      rewrite (pending_is _ _ _ _ Hte' (added_timed _ _ _ _ _ _ Had)), Hd. done.
Qed.

Lemma common_callback_ok mm backend fdinfo_len clock k b ctl :
  clock_ok clock → api_ok b → timers_live b → common_timeout_queues b !! k = Some ctl →
  wp (common_timeout_callback mm backend fdinfo_len clock (Z.of_nat k)) b (λ _ b', api_ok b' ∧ (settled b → settled b') ∧
    nactivequeues b' = nactivequeues b ∧ quiet b b' ∧ ∃ now, tv_normal now ∧ (tv_sec (tv_cache (time b)) ≠ 0 → now = tv_cache (time b)) ∧
      common_processed k (timeout_event ctl) now b b').
Proof.
  intros Hclock Hapi Hlive Hi. pose proof Hapi as [Hok Hc Hn Hq].
  unfold common_timeout_callback. apply wp_bind, gettime_ok; [done|done|]. intros now t Hnow Hc' Et Hfresh.
  apply wp_bind. apply (wp_lift _ _ ctl); [by rewrite Nat2Z.id|]. apply wp_bind.
  eapply wp_mono; [apply (common_loop_ok backend _ k now (with_time t b) ctl)|].
  - by apply base_ok_time.
  - done.
  - done.
  - lia.
  - intros r b1 (Hok1 & Hlive1 & Hse & Hexp & Hfirst). change (due_common _ (with_time t b) now) with (due_common (Z.of_nat k) b now) in Hexp.
    assert (Hexp1 : expired (due_common (Z.of_nat k) b now) b b1).
    { destruct Hexp as [F1 F2 F3 F4 F5]. split; try done. rewrite F5. exact Et. }
    clear Hexp. pose proof (expired_api _ _ _ Hapi Hok1 Hexp1) as Hapi1.
    pose proof (quiet_expired _ _ _ _ Hn Hexp1) as Hqu. destruct Hexp1 as [F1 F2 F3 F4 F5].
    assert (Hfired : ∀ x, due_common (Z.of_nat k) b now x → ∃ ev', evs b1 !! x = Some ev' ∧ expired_event ev').
    { intros x Hx. destruct (F1 x Hx) as (? & ev' & _ & ? & ? & _). eauto. }
    destruct r as [x|]; cbn [first_left] in Hfirst.
    + destruct Hfirst as (u & Hpu & [[? [_ Hatu]] Hmin] & Hlate).
      destruct (common_same_queue b b1 k ctl F3 Hi) as (ctl1 & Hi1 & Hte).
      apply wp_bind. apply (wp_lift _ _ ctl1); [by rewrite Nat2Z.id|].
      eapply wp_mono; [by apply (schedule_ok mm backend fdinfo_len clock k b1 ctl1 x u)|].
      intros _ b2 (Hapi2 & Ht2 & Hse2 & Hact2 & Htimer). rewrite Hte in Ht2, Hact2, Htimer. split; [done|].
      split; [by intros; apply Hse2, Hse, settled_time|].
      split; [by rewrite (to_queues _ _ _ Ht2)|]. split; [by eapply quiet_trans, quiet_touched|]. exists now.
      pose proof (timer_not_due b k ctl (Z.of_nat k) now Hn Hi (Nat2Z.is_nonneg k)) as Hnd.
      split; [done|]. split; [done|]. split; [|split].
      * intros y Hy. destruct (Hfired y Hy) as (ev' & Hy' & Hex).
        assert (Hne : y ≠ timeout_event ctl) by (intros ->; done).
        pose proof (to_events _ _ _ Ht2 y ltac:(congruence)) as Hcore. rewrite Hy' in Hcore.
        destruct (evs b2 !! y) as [e2|]; [|done]. apply (inj Some), core_eq in Hcore. exists e2. by rewrite Hcore.
      * intros y Hy Hne. rewrite <- (F2 y Hy). apply Ht2. congruence.
      * right. exists u.
        assert (Hnc : ∀ v, pending (evs b2) (timeout_event ctl) = Some v → tv_normal v).
        { intros v. apply (api_timers _ Hapi2). rewrite (ctl_timer_same b1 b2) by apply Ht2. exists ctl1.
          split; [by eapply list_elem_of_lookup_2|done]. }
        assert (Hsame : ∀ y v, common_at (Z.of_nat k) v → pending (evs b2) y = Some v ↔ pending (evs b1) y = Some v).
        { intros y v Hv. destruct (decide (y = timeout_event ctl)) as [->|Hne]; [|by rewrite (touched_pending _ _ _ _ Ht2 Hne)].
          split; intros Hpv; exfalso; apply (normal_not_at (Z.of_nat k) v); try done; [by apply Hnc|lia| |lia].
          apply (api_timers _ Hapi1 (timeout_event ctl)); [|done]. exists ctl1. split; [by eapply list_elem_of_lookup_2|done]. }
        split; [split; [exists x; split; [by apply Hsame|done]|intros y v Hy Hv; apply (Hmin y); [by apply Hsame|done]]|].
        split; [done|]. rewrite <- (F2 _ Hnd). exact Htimer.
    + apply wp_ret. split; [done|]. split; [by intros; apply Hse, settled_time|]. split; [done|]. split; [done|]. exists now. split; [done|]. split; [done|]. split; [done|]. split; [auto|by left].
Qed.

(** When the timer of a common timeout fires, exactly the events of its queue whose deadline has
    passed are activated, in one pass, every other event is left alone, and the timer is set to the
    first deadline that is left (or stays as it was when memory is refused). *)
Theorem common_timeout_exact mm backend fdinfo_len clock k b ctl :
  clock_ok clock → api_ok b → timers_live b → common_timeout_queues b !! k = Some ctl →
  ∃ b' now, common_timeout_callback mm backend fdinfo_len clock (Z.of_nat k) b = Some (tt, b') ∧ api_ok b' ∧
    tv_normal now ∧ (tv_sec (tv_cache (time b)) ≠ 0 → now = tv_cache (time b)) ∧
    common_processed k (timeout_event ctl) now b b'.
Proof.
  intros Hc Hb Hl Hi. destruct (common_callback_ok mm backend fdinfo_len clock k b ctl Hc Hb Hl Hi)
    as ([] & b' & E & Hb' & _ & _ & _ & now & H1 & H2 & H3). by exists b', now.
Qed.

(** Two events in a common queue, of which the first is due at the seventh reading of the clock. *)
Definition common_calls : list api_call := [
  call_init_common (Timeval 5 0);
  call_assign 1 (-1) 0 1 0; call_assign 2 (-1) 0 2 0; call_assign 3 (-1) 0 3 0;
  call_add 1 (Some (common_duration (Timeval 5 0) 0)); call_add 2 (Some (common_duration (Timeval 5 0) 0));
  call_add 3 (Some (Timeval 60 0)); call_add 3 (Some (Timeval 60 0)); call_add 3 (Some (Timeval 60 0))].
Definition common_base : event_base :=
  match api_run grants accepts 0 ticking common_calls event_base_new with Some (_, b) => b | None => event_base_new end.
Lemma common_base_api : api_ok common_base.
Proof.
  unfold common_base.
  destruct (api_run_ok grants accepts 0 ticking ticking_ok common_calls event_base_new) as (l & b & -> & [[Hb _] _] & _);
    [split; [apply api_new|apply live_new]|apply check_obeys_spec; vm_compute; reflexivity|done].
Qed.

Lemma common_timeout_exact_witness :
  ∃ ctl, common_timeout_queues common_base !! 0%nat = Some ctl ∧ ctl_events ctl = [1%nat; 2%nat] ∧
  ∃ b' now, common_timeout_callback grants accepts 0 ticking 0 common_base = Some (tt, b') ∧
    common_processed 0 (timeout_event ctl) now common_base b'.
Proof.
  assert (Hlive : timers_live common_base) by (apply timers_live_check; vm_compute; reflexivity).
  assert (Hctl : ctl_events <$> common_timeout_queues common_base !! 0%nat = Some [1%nat; 2%nat]) by (vm_compute; reflexivity).
  destruct (common_timeout_queues common_base !! 0%nat) as [ctl|] eqn:E; [|discriminate Hctl].
  exists ctl. split; [reflexivity|]. split; [by injection Hctl|].
  destruct (common_timeout_exact grants accepts 0 ticking 0 common_base ctl ticking_ok common_base_api Hlive E)
    as (b' & now & E' & _ & _ & _ & H). exists b', now. split; [exact E'|exact H].
Defined.

(** ** The calls of a signal's callback *)

Section closure.
(** What the program does when the callback of an event is called: descriptor, conditions, argument. *)
Context (user : callback → Z → Z → Z → EM unit).

Definition set_frame (f : option (nat * Z)) : EM unit :=
  modify (λ b, with_signal_frame (Frame_state (frames (signal_frame b)) f) b).

(** The rounds of the loop; [k] is the number of this call of event_signal_closure, whose local
    variable ncalls the callback may set to 0 through ev_pncalls. *)
Fixpoint signal_loop (fuel k x : nat) : EM unit :=
  match fuel with
  | O => fails
  | S fuel =>
      f ← gets (λ b, frame (signal_frame b));
      match f with
      | None => fails
      | Some (_, ncalls) =>
          if ncalls =? 0 then mret tt
          else
            let ncalls := int16 (ncalls - 1) in
            set_frame (Some (k, ncalls));;
            upd_event (λ e, with_ev_ (ev_signal ncalls
              (if ncalls =? 0 then None else default None (ev_pncalls e))) e) x;;
            ev ← get_event x;
            user (evcb_cb_union (ev_evcallback ev)) (ev_fd ev) (ev_res ev) (evcb_arg (ev_evcallback ev));;
            should_break ← gets (λ b, event_break (loop b));
            if should_break : bool then
              f ← gets (λ b, frame (signal_frame b));
              when (negb (from_option snd 0 f =? 0))
                (upd_event (λ e, with_ev_ (ev_signal (default 0 (ev_ncalls e)) None) e) x)
            else signal_loop fuel k x
      end
  end.

(** ncalls goes down in every round. *)
Definition event_signal_closure (x : nat) : EM unit :=
  ev ← get_event x;
  ncalls ← lift (λ _, int16 <$> ev_ncalls ev);
  k ← gets (λ b, frames (signal_frame b));
  modify (λ b, with_signal_frame (Frame_state (S k) (Some (k, ncalls))) b);;
  when (negb (ncalls =? 0)) (upd_event (with_ev_ (ev_signal ncalls (Some k))) x);;
  signal_loop (S (Z.to_nat (ncalls mod 2 ^ 16))) k x;;
  set_frame None.
End closure.

(** A callback that deletes its event while two more calls are due ends the loop; the event keeps the
    address of the counter of the call that has returned, and deleting it once more writes there. *)
Definition deletes_itself (x : nat) : callback → Z → Z → Z → EM unit :=
  λ _ _ _ _, event_del accepts x;; mret tt.

Definition signal_calls : list api_call := [
  call_assign 2 15 EV_SIGNAL 2 0; call_add 2 None; call_active 2 EV_SIGNAL 3].
Definition signal_base : event_base :=
  match api_run grants accepts 0 ticking signal_calls event_base_new with Some (_, b) => b | None => event_base_new end.

Lemma second_del_writes_through_dangling_pointer :
  match (event_del accepts 2;; mret tt) signal_base with Some _ => True | None => False end ∧
  match event_signal_closure (deletes_itself 2) 2 signal_base with
  | Some (_, b) => event_del accepts 2 b = None
  | None => False
  end.
Proof. vm_compute. done. Qed.
