(* ===== verification/EventDispatch.v ===== *)
(** * What the backend reports

    Models evmap_io_active_ and evmap_signal_active_ of libevent/evmap.c and
    event_base_active_by_fd and event_base_active_by_signal of libevent/event.c: which events become
    active when a descriptor is ready or a signal has been caught. *)

From S2P Require Import Prelude Timeval Event MinHeap EvMap EventBase EventBaseOk EventApi EventCheck EventCalls EventLive EventSystem.

(** ** The functions *)

(** LIST_FOREACH *)
Fixpoint each (f : nat → EM unit) (l : list nat) : EM unit :=
  match l with
  | [] => mret tt
  | x :: l => f x;; each f l
  end.

Definition evmap_io_active_ (fd events : Z) : EM unit :=
  m ← gets maps;
  if (fd <? 0) || (Zlen (io m) <=? fd) then mret tt
  else
    ctx ← lift (λ _, get_slot (io m) fd);
    match ctx with
    | None => mret tt
    | Some ctx =>
        each (λ x,
          ev ← get_event x;
          when (has events (ev_events ev)) (event_active_nolock_ x (Z.land (ev_events ev) events) 1))
          (io_events ctx)
    end.

Definition evmap_signal_active_ (sig ncalls : Z) : EM unit :=
  m ← gets maps;
  if (sig <? 0) || (Zlen (sigmap m) <=? sig) then mret tt
  else
    ctx ← lift (λ _, get_slot (sigmap m) sig);
    match ctx with
    | None => mret tt
    | Some ctx => each (λ x, event_active_nolock_ x EV_SIGNAL ncalls) (sig_events ctx)
    end.

Definition event_base_active_by_fd (fd events : Z) : EM unit := evmap_io_active_ fd (Z.land events IO_EVENTS).
Definition event_base_active_by_signal (sig : Z) : EM unit := evmap_signal_active_ sig 1.

(** ** What they do *)

(** From [b] to [b'] the events that [P] describes have become active for the result it says;
    nothing else has changed, the indices in the heap aside. *)
Record woken (P : nat → option Z) (b b' : event_base) : Prop := {
  wk_fired : ∀ x res, P x = Some res → ∃ ev ev', core <$> evs b !! x = Some (core ev) ∧
    core <$> evs b' !! x = Some (core ev') ∧ activated ev ev' res;
  wk_other : ∀ x, P x = None → core <$> evs b' !! x = core <$> evs b !! x
}.

(** What an event on the list gets, if anything. *)
Definition wakes (what : event → option Z) (f : nat → EM unit) : Prop :=
  (∀ e e', core e' = core e → what e' = what e) ∧
  ∀ x ev b, base_ok b → evs b !! x = Some ev → wp (f x) b (λ _ b',
    match what ev with
    | Some res => base_ok b' ∧ touched (of_event x) b b' ∧ signal_frame b' = signal_frame b ∧
        ∃ ev', evs b' !! x = Some ev' ∧ activated ev ev' res
    | None => b' = b
    end).

Definition woken_by (what : event → option Z) (st : store) (l : list nat) (x : nat) : option Z :=
  if decide (x ∈ l) then st !! x ≫= what else None.

Lemma own_event_core b b' x ev :
  own_event b x ev → core <$> evs b' !! x = core <$> evs b !! x → (ctl_timer b' x ↔ ctl_timer b x) →
  ∃ ev', own_event b' x ev' ∧ core ev' = core ev.
Proof.
  intros [Hx Hct] Hc Hiff. rewrite Hx in Hc. destruct (evs b' !! x) as [ev'|] eqn:E; [|done].
  apply (inj Some) in Hc. exists ev'. split; [|done]. split; [done|by rewrite Hiff].
Qed.

(** One event. *)
Lemma wake_ok what f x ev b :
  wakes what f → prog_ok b → own_event b x ev →
  wp (f x) b (λ _ b', keeps b b' ∧ touched (of_event x) b b' ∧
    match what ev with
    | Some res => ∃ ev', evs b' !! x = Some ev' ∧ activated ev ev' res
    | None => b' = b
    end).
Proof.
  intros [_ Hf] Hp Hown. eapply wp_mono; [apply Hf; [apply Hp|apply Hown]|]. intros a b' H.
  destruct (what ev) as [res|].
  - destruct H as (Hok' & Ht & Hfr & ev' & Hx' & Ha). split; [by eapply activated_keeps|]. eauto.
  - subst b'. split; [by apply keeps_refl|]. split; [apply touched_refl|done].
Qed.

Lemma woken_step what x l ev b b1 b2 :
  (∀ e e', core e' = core e → what e' = what e) → x ∉ l → evs b !! x = Some ev →
  (∀ y, y ≠ x → core <$> evs b1 !! y = core <$> evs b !! y) →
  match what ev with Some res => ∃ ev', evs b1 !! x = Some ev' ∧ activated ev ev' res | None => b1 = b end →
  woken (woken_by what (evs b1) l) b1 b2 → woken (woken_by what (evs b) (x :: l)) b b2.
Proof.
  intros Hw Hx Hev Hcore H1 [F O].
  assert (Hy : ∀ y, y ≠ x → woken_by what (evs b) (x :: l) y = woken_by what (evs b1) l y).
  { intros y Hne. unfold woken_by. pose proof (Hcore y Hne) as Hc. destruct (decide (y ∈ l)) as [Hl|Hl].
    - rewrite decide_True by by right. destruct (evs b !! y), (evs b1 !! y); try done. cbn. symmetry. apply Hw. by apply (inj Some) in Hc.
    - rewrite decide_False; [done|]. by intros [?|?]%elem_of_cons. }
  assert (Hself : core <$> evs b2 !! x = core <$> evs b1 !! x) by (apply O; unfold woken_by; by rewrite decide_False).
  assert (Hat : woken_by what (evs b) (x :: l) x = what ev) by (unfold woken_by; rewrite decide_True, Hev; [done|by left]).
  split.
  - intros y res. destruct (decide (y = x)) as [->|Hne].
    + rewrite Hat. intros E. rewrite E in H1. destruct H1 as (ev' & Hx1 & Ha). exists ev, ev'.
      rewrite Hself, Hx1, Hev. done.
    + rewrite Hy by done. intros H. destruct (F y res H) as (e & e' & E & E' & Ha). exists e, e'.
      by rewrite <- (Hcore y Hne).
  - intros y. destruct (decide (y = x)) as [->|Hne].
    + rewrite Hat. intros E. rewrite E in H1. by rewrite Hself, H1.
    + rewrite Hy by done. intros H. by rewrite (O y H), (Hcore y Hne).
Qed.

Lemma each_ok what f l b :
  wakes what f → prog_ok b → NoDup l → (∀ x, x ∈ l → ∃ ev, own_event b x ev) →
  wp (each f l) b (λ _ b', keeps b b' ∧ (∀ y, ctl_timer b' y ↔ ctl_timer b y) ∧ woken (woken_by what (evs b) l) b b').
Proof.
  intros Hf. revert b. induction l as [|x l IH]; intros b Hp Hnd Hall; cbn [each].
  - apply wp_ret. split; [by apply keeps_refl|]. split; [done|]. split; [|done].
    intros x res. unfold woken_by. rewrite decide_False; [done|apply not_elem_of_nil].
  - apply NoDup_cons in Hnd as [Hx Hnd]. destruct (Hall x) as [ev Hown]; [by left|].
    apply wp_bind. eapply wp_mono; [by eapply wake_ok|]. intros a b1 ([Hp1 Hh1] & Ht1 & Hev).
    assert (Hct : ∀ y, ctl_timer b1 y ↔ ctl_timer b y) by (intros y; apply ctl_timer_same, Ht1).
    assert (Hcore : ∀ y, y ≠ x → core <$> evs b1 !! y = core <$> evs b !! y) by (intros; apply Ht1; congruence).
    eapply wp_mono; [apply IH; [done|done|]|].
    { intros y Hy. destruct (Hall y) as [e He]; [by right|].
      destruct (own_event_core b b1 y e He) as (e' & He' & _); [apply Hcore; by intros ->|done|]. eauto. }
    intros a' b2 ([Hp2 Hh2] & Hct2 & Hwk). split; [split; [done|by eapply held_trans]|].
    split; [intros y; by rewrite Hct2|]. eapply woken_step; [apply Hf|done|apply Hown|done|exact Hev|exact Hwk].
Qed.

(** ** Descriptors *)

Definition io_what (events : Z) (ev : event) : option Z :=
  if has events (ev_events ev) then Some (Z.land (ev_events ev) events) else None.

Lemma wakes_active what res ncalls :
  (∀ e e', core e' = core e → what e' = what e) → (∀ ev, what ev = Some res) →
  wakes what (λ x, event_active_nolock_ x res ncalls).
Proof.
  intros Hw He. split; [done|]. intros x ev b Hok Hx. rewrite He.
  eapply wp_mono; [by apply active_nolock_ok|]. intros _ b' (? & ? & _ & ? & ?). done.
Qed.

Lemma wakes_io events : wakes (io_what events) (λ x,
  ev ← get_event x;
  when (has events (ev_events ev)) (event_active_nolock_ x (Z.land (ev_events ev) events) 1)).
Proof.
  split; [by intros e e' ->%core_eq|]. intros x ev b Hok Hx. apply wp_bind, (wp_get_event x ev); [done|].
  unfold io_what. apply wp_when; intros ->; [|done].
  eapply wp_mono; [by apply active_nolock_ok|]. intros _ b' (? & ? & _ & ? & ?). done.
Qed.

(** An inserted event is not the timer of a common queue. *)
Lemma inserted_own b x fd es : base_ok b → inserted (evs b) x = Some (fd, es) → ∃ ev, own_event b x ev.
Proof.
  intros Hok Hi. destruct (inserted_event _ _ _ _ Hi) as (ev & Hx & _ & _ & <-). exists ev. split; [done|]. intros Hc.
  destruct (ctl_timer_item _ _ _ Hok Hc Hx) as (i & _ & _ & Hev & _).
  pose proof (io_some _ _ (bo_inserted _ Hok) _ _ _ Hi) as H. rewrite Hev in H. discriminate H.
Qed.

(** The events on the list of [fd]. *)
Definition fd_list (m : evmaps) (fd : Z) : list nat :=
  if fd <? 0 then [] else from_option io_events [] (io_entry m fd).
Definition signal_list (m : evmaps) (sig : Z) : list nat :=
  if sig <? 0 then [] else from_option sig_events [] (sig_entry m sig).

Lemma fd_list_on m fd x : x ∈ fd_list m fd ↔ on_fd m fd x.
Proof.
  unfold fd_list, on_fd. destruct (Z.ltb_spec fd 0).
  - split; [by intros ?%elem_of_nil|lia].
  - destruct (io_entry m fd) as [ctx|]; cbn; split.
    + intros Hx. split; [done|]. eauto.
    + by intros (_ & ? & [= <-] & ?).
    + by intros ?%elem_of_nil.
    + by intros (_ & ? & [=] & _).
Qed.

Lemma signal_list_on m sig x : x ∈ signal_list m sig ↔ on_signal m sig x.
Proof.
  unfold signal_list, on_signal. destruct (Z.ltb_spec sig 0).
  - split; [by intros ?%elem_of_nil|lia].
  - destruct (sig_entry m sig) as [ctx|]; cbn; split.
    + intros Hx. split; [done|]. eauto.
    + by intros (_ & ? & [= <-] & ?).
    + by intros ?%elem_of_nil.
    + by intros (_ & ? & [=] & _).
Qed.

(** A slot of the map that may be missing. *)
Lemma wp_slot {A} (l : list (option A)) (fd : Z) (m : option A → EM unit) b (Q : unit → event_base → Prop) :
  ((fd <? 0) || (Zlen l <=? fd) = true → Q tt b) →
  (0 <= fd → wp (m (mjoin (l !! Z.to_nat fd))) b Q) →
  wp (if (fd <? 0) || (Zlen l <=? fd) then mret tt else ctx ← lift (λ _, get_slot l fd); m ctx) b Q.
Proof.
  intros H1 H2. destruct ((fd <? 0) || (Zlen l <=? fd)) eqn:E; [by apply wp_ret, H1|].
  apply orb_false_iff in E as [E1 E2]. destruct (lookup_lt_is_Some_2 l (Z.to_nat fd)) as [c Hc]; [lia|].
  apply wp_bind, (wp_lift _ _ c); [unfold get_slot; by rewrite E1|]. rewrite Hc in H2. cbn in H2. apply H2. lia.
Qed.

Lemma io_active_list fd events b :
  prog_ok b → wp (evmap_io_active_ fd events) b (λ _ b', keeps b b' ∧
    woken (woken_by (io_what events) (evs b) (fd_list (maps b) fd)) b b').
Proof.
  intros Hp. pose proof (api_base _ (po_api _ Hp)) as Hok. unfold evmap_io_active_. apply wp_bind, wp_gets.
  assert (Hnil : woken (woken_by (io_what events) (evs b) []) b b).
  { split; [|done]. intros x res. unfold woken_by. rewrite decide_False; [done|apply not_elem_of_nil]. }
  apply wp_slot.
  - intros E. split; [by apply keeps_refl|]. unfold fd_list, io_entry.
    destruct (fd <? 0); [done|]. cbn in E. rewrite lookup_ge_None_2 by lia. done.
  - intros Hfd. change (mjoin (io (maps b) !! Z.to_nat fd)) with (io_entry (maps b) fd).
    pose proof (fd_list_on (maps b) fd) as Hon. unfold fd_list in *. rewrite (proj2 (Z.ltb_ge fd 0)) in * by done.
    destruct (io_entry (maps b) fd) as [ctx|] eqn:Hctx; cbn [from_option] in *.
    2:{ apply wp_ret. split; [by apply keeps_refl|done]. }
    destruct (bo_maps _ Hok) as [Hio _ _].
    eapply wp_mono; [apply (each_ok (io_what events)); [apply wakes_io|done|apply (Hio fd ctx Hfd Hctx)|]|].
    + intros x Hx%Hon. apply (io_fds _ _ (bo_inserted _ Hok)) in Hx as (_ & es & Hi & _). by eapply inserted_own.
    + intros _ b' (? & _ & ?). done.
Qed.

Lemma signal_active_list sig ncalls b :
  prog_ok b → wp (evmap_signal_active_ sig ncalls) b (λ _ b', keeps b b' ∧
    woken (woken_by (λ _, Some EV_SIGNAL) (evs b) (signal_list (maps b) sig)) b b').
Proof.
  intros Hp. pose proof (api_base _ (po_api _ Hp)) as Hok. unfold evmap_signal_active_. apply wp_bind, wp_gets.
  assert (Hnil : woken (woken_by (λ _, Some EV_SIGNAL) (evs b) []) b b).
  { split; [|done]. intros x res. unfold woken_by. rewrite decide_False; [done|apply not_elem_of_nil]. }
  apply wp_slot.
  - intros E. split; [by apply keeps_refl|]. unfold signal_list, sig_entry.
    destruct (sig <? 0); [done|]. cbn in E. rewrite lookup_ge_None_2 by lia. done.
  - intros Hfd. change (mjoin (sigmap (maps b) !! Z.to_nat sig)) with (sig_entry (maps b) sig).
    pose proof (signal_list_on (maps b) sig) as Hon. unfold signal_list in *. rewrite (proj2 (Z.ltb_ge sig 0)) in * by done.
    destruct (sig_entry (maps b) sig) as [ctx|] eqn:Hctx; cbn [from_option] in *.
    2:{ apply wp_ret. split; [by apply keeps_refl|done]. }
    destruct (bo_maps _ Hok) as [_ Hsig _].
    eapply wp_mono; [apply (each_ok (λ _, Some EV_SIGNAL)); [by apply wakes_active|done|apply (Hsig sig ctx Hfd Hctx)|]|].
    + intros x Hx%Hon. apply (io_sigs _ _ (bo_inserted _ Hok)) in Hx as (_ & es & Hi & _). by eapply inserted_own.
    + intros _ b' (? & _ & ?). done.
Qed.

(** ** The properties *)

(** [x] is on the list of [fd], and its mask has a bit of the report [events] in common: a condition that
    it waits for, or EV_ET, which epoll_dispatch adds to every report. *)
Definition shares_bit (b : event_base) (fd events : Z) (x : nat) (ev : event) : Prop :=
  evs b !! x = Some ev ∧ has EVLIST_INSERTED (ev_flags ev) = true ∧ ev_fd ev = fd ∧
  has IO_EVENTS (ev_events ev) = true ∧ has events (ev_events ev) = true.

(** The event is active, in the queue of its priority, with the conditions [what] and those it was
    already active for; its timeout is as before. *)
Definition active_for (b' : event_base) (x : nat) (ev : event) (what : Z) : Prop :=
  ∃ ev', evs b' !! x = Some ev' ∧ of_event x ∈ default [] (queue_at b' (ev_pri ev)) ∧
    ev_res ev' = int16 (if has (Z.lor EVLIST_ACTIVE EVLIST_ACTIVE_LATER) (ev_flags ev)
                        then Z.lor (ev_res ev) what else what) ∧
    has EVLIST_TIMEOUT (ev_flags ev') = has EVLIST_TIMEOUT (ev_flags ev) ∧ ev_timeout ev' = ev_timeout ev ∧
    has EVLIST_INSERTED (ev_flags ev') = true.

Lemma woken_active b b' x ev res :
  prog_ok b → base_ok b' → evs b !! x = Some ev → has EVLIST_INSERTED (ev_flags ev) = true →
  (∃ e e', core <$> evs b !! x = Some (core e) ∧ core <$> evs b' !! x = Some (core e') ∧ activated e e' res) →
  active_for b' x ev res.
Proof.
  intros Hp Hok' Hx Hi (e & e1 & E & E1 & Ha). rewrite Hx in E. apply (inj Some) in E.
  destruct (evs b' !! x) as [e'|] eqn:Hx'; [|done]. apply (inj Some) in E1.
  assert (∃ p q, e = with_pos p ev ∧ e1 = with_pos q e') as (p & q & -> & ->).
  { exists (ev_timeout_pos e), (ev_timeout_pos e1). symmetry in E. split; by apply core_eq. }
  destruct Ha as (T & I & R & Htm & _ & _ & _ & H).
  change (ev_flags (with_pos ?p ?z)) with (ev_flags z) in *. cbn [with_pos ev_timeout ev_res ev_evcallback] in *.
  destruct (has EVLIST_FINALIZING (ev_flags ev)) eqn:Hf.
  { destruct (il_off _ _ (lv_events _ (po_live _ Hp) x ev Hx) Hf). congruence. }
  destruct H as (A & _ & Hres). exists e'. split; [done|].
  assert (Hpri : ev_pri ev = ev_pri e') by (unfold ev_pri; by rewrite (proj1 R)).
  split; [|split; [by rewrite has_or|split; [done|split; [done|congruence]]]].
  destruct (active_queue b' (of_event x) (ev_evcallback e') Hok') as (l & Hl & _ & Hin & _); [cbn; by rewrite Hx'|done|].
  rewrite Hpri. unfold ev_pri. by rewrite Hl.
Qed.

(** C17. When the backend reports a mask for a descriptor, exactly the events on that descriptor whose own
    mask has a bit in common with it become active, in the queue of their priority, each for the bits
    in common and, if it was active before, for those it was active for; every other event is left alone.
    EV_ET is such a bit: [edge_triggered_woken_for_nothing]. *)
Theorem io_active_exact b fd events :
  prog_ok b → 0 <= fd →
  ∃ b', evmap_io_active_ fd events b = Some (tt, b') ∧ prog_ok b' ∧
    (∀ x ev, shares_bit b fd events x ev → active_for b' x ev (Z.land (ev_events ev) events)) ∧
    (∀ x, (∀ ev, ¬ shares_bit b fd events x ev) → core <$> evs b' !! x = core <$> evs b !! x).
Proof.
  intros Hp Hfd. destruct (io_active_list fd events b Hp) as ([] & b' & E & [Hp' Hh] & [F O]).
  exists b'. split; [done|]. split; [done|]. pose proof (io_fds _ _ (bo_inserted _ (api_base _ (po_api _ Hp))) fd) as Hon. split.
  - intros x ev (Hx & Hi & Hf & Hio & Hev). eapply (woken_active b); [done|apply Hp'|done..|]. apply F.
    unfold woken_by. rewrite decide_True, Hx; [cbn; unfold io_what; by rewrite Hev|].
    apply fd_list_on, Hon. split; [done|]. exists (ev_events ev). unfold inserted. rewrite Hx. cbn. by rewrite Hi, Hf.
  - intros x Hn. apply O. unfold woken_by. case_decide as Hl; [|done].
    apply fd_list_on, Hon in Hl as (_ & es & (ev & Hx & Hi & Hf & <-)%inserted_event & Hio). rewrite Hx. cbn. unfold io_what.
    destruct (has events (ev_events ev)) eqn:Hev; [|done]. by destruct (Hn ev).
Qed.

Definition io_calls : list api_call := [
  call_assign 1 4 (Z.lor EV_READ EV_PERSIST) 1 0; call_add 1 None;
  call_assign 2 4 EV_WRITE 2 0; call_add 2 None; call_assign 3 5 EV_READ 3 0; call_add 3 None].
Definition io_base : event_base :=
  match api_run grants accepts 0 ticking io_calls event_base_new with Some (_, b) => b | None => event_base_new end.
Lemma io_base_prog : prog_ok io_base.
Proof.
  unfold io_base.
  destruct (api_run_ok grants accepts 0 ticking ticking_ok io_calls event_base_new) as (l & b & -> & [Hb _] & _);
    [split; [apply api_new|apply live_new]|apply check_obeys_spec; vm_compute; reflexivity|done].
Qed.

Lemma io_active_exact_witness :
  ∃ ev b', shares_bit io_base 4 EV_READ 1 ev ∧ evmap_io_active_ 4 EV_READ io_base = Some (tt, b') ∧
    active_for b' 1 ev (Z.land (ev_events ev) EV_READ) ∧ core <$> evs b' !! 2%nat = core <$> evs io_base !! 2%nat.
Proof.
  assert (H0 : 0 <= 4) by lia.
  destruct (io_active_exact io_base 4 EV_READ io_base_prog H0) as (b' & E & _ & H1 & H2).
  assert (Hev : match evs io_base !! 1%nat with
    | Some ev => has EVLIST_INSERTED (ev_flags ev) && (ev_fd ev =? 4) && has IO_EVENTS (ev_events ev) &&
        has EV_READ (ev_events ev)
    | None => false end = true) by (vm_compute; reflexivity).
  destruct (evs io_base !! 1%nat) as [ev|] eqn:Hx; [|discriminate Hev].
  apply andb_true_iff in Hev as [[[Hi Hf%Z.eqb_eq]%andb_true_iff Hio]%andb_true_iff He].
  assert (Hw : shares_bit io_base 4 EV_READ 1 ev) by exact (conj Hx (conj Hi (conj Hf (conj Hio He)))).
  exists ev, b'. split; [exact Hw|]. split; [exact E|]. split; [exact (H1 1%nat ev Hw)|].
  apply H2. intros e (Hx2 & _ & _ & _ & He2).
  assert (Hno : has EV_READ <$> (ev_events <$> evs io_base !! 2%nat) = Some false) by (vm_compute; reflexivity).
  rewrite Hx2 in Hno. cbn in Hno. congruence.
Defined.

(** epoll_dispatch adds EV_ET to every report.  So an edge-triggered event that waits for room to write
    is activated when the descriptor can be read only, and its callback is told EV_ET alone. *)
Definition edge_calls : list api_call := [
  call_assign 1 4 (Z.lor EV_READ EV_ET) 1 0; call_add 1 None;
  call_assign 2 4 (Z.lor EV_WRITE EV_ET) 2 0; call_add 2 None].
Example edge_triggered_woken_for_nothing :
  ('(_, b) ← api_run grants accepts 0 ticking edge_calls event_base_new;
   '(_, b') ← evmap_io_active_ 4 (Z.lor EV_READ EV_ET) b;
   ev ← evs b' !! 2%nat; Some (has EVLIST_ACTIVE (ev_flags ev), ev_res ev)) = Some (true, EV_ET).
Proof. vm_compute. reflexivity. Qed.
