(* ===== verification/EventProcess.v ===== *)
(** * Calling the callbacks

    Models event_persist_closure, event_process_active_single_queue and event_process_active of
    libevent/event.c: the callbacks of the active queues are called, those of the smallest number
    first.

    What the program does in a callback is a parameter, a computation on the base for every call;
    the calls are numbered, so it may depend on all that has happened.  A callback may make more
    callbacks active, so the loop has fuel; [running] says that it has run out. *)

From S2P Require Import Prelude Timeval Event MinHeap EvMap EventBase EventBaseOk EventApi EventCheck EventCalls EventLive EventSystem EventTimeout EventDispatch.

(** What a function of the program is called for, and with which arguments. *)
Inductive invocation :=
  | on_event (f : nat) (fd res arg : Z)            (* ev_callback *)
  | on_self (f : nat) (p : evcb_ptr) (arg : Z)     (* evcb_selfcb, evcb_cbfinalize *)
  | on_finalize (f : nat) (x : nat) (arg : Z).     (* evcb_evfinalize *)

Inductive progress (A : Type) := finished (a : A) | running.
Arguments finished {A} a.
Arguments running {A}.

(** The members of struct event_base that the configuration sets; [no_cache]:
    EVENT_BASE_FLAG_NO_CACHE_TIME. *)
Record dispatch_config := Dispatch_config {
  max_dispatch_time : timeval; max_dispatch_callbacks : Z; limit_callbacks_after_prio : Z; no_cache : bool
}.

(** The members of struct event_config that they come from. *)
Record event_config := Event_config {
  max_dispatch_interval : timeval; cfg_max_dispatch_callbacks : Z; cfg_limit_callbacks_after_prio : Z
}.

(** When there is memory for it. *)
Definition event_config_new : event_config := Event_config (Timeval (-1) 0) INT_MAX 1.

Definition event_config_set_max_dispatch_interval (cfg : event_config) (max_interval : option timeval)
    (max_callbacks min_priority : Z) : event_config :=
  Event_config
    (match max_interval with
     | Some tv => tv
     | None => Timeval (-1) (tv_usec (max_dispatch_interval cfg))
     end)
    (if 0 <=? max_callbacks then max_callbacks else INT_MAX)
    (if min_priority <? 0 then 0 else min_priority).

(** The part of event_base_new_with_config that sets the limits. *)
Definition dispatch_limits (cfg : option event_config) (no_cache : bool) : dispatch_config :=
  let time := from_option max_dispatch_interval (Timeval (-1) 0) cfg in
  let prio := from_option cfg_limit_callbacks_after_prio 1 cfg in
  let callbacks :=
    match cfg with
    | Some c => if 0 <=? cfg_max_dispatch_callbacks c then cfg_max_dispatch_callbacks c else INT_MAX
    | None => INT_MAX
    end in
  Dispatch_config time callbacks
    (if (callbacks =? INT_MAX) && (tv_sec time =? -1) then INT_MAX else prio) no_cache.

(** ** Functions *)

Section process.
Context (mm : nat → Z → bool) (backend : history → backend_call → bool) (fdinfo_len : Z)
  (clock : nat → timeval) (user : nat → invocation → EM unit).

Definition call_user (i : invocation) : EM unit :=
  k ← gets (λ b, frames (signal_frame b));
  modify (λ b, with_signal_frame (Frame_state (S k) (frame (signal_frame b))) b);;
  user k i.

(** [(ev_callback)(fd, res, arg)] *)
Definition invoke (cb : callback) (fd res arg : Z) : EM unit :=
  match cb with
  | user_cb f => call_user (on_event f fd res arg)
  | common_timeout_cb => common_timeout_callback mm backend fdinfo_len clock arg
  end.
(** Calls through the other members of the union. *)
Definition invoke_self (cb : callback) (p : evcb_ptr) (arg : Z) : EM unit :=
  match cb with user_cb f => call_user (on_self f p arg) | common_timeout_cb => fails end.
Definition invoke_finalize (cb : callback) (x : nat) (arg : Z) : EM unit :=
  match cb with user_cb f => call_user (on_finalize f x arg) | common_timeout_cb => fails end.

(** [run_at]; [io] is ev_io_timeout and [t] ev_timeout, common timeouts if [common]. *)
Definition persist_run_at (t io now : timeval) (res : Z) (common : bool) : timeval :=
  let delay := if common then real_timeout io else io in
  let usec_mask := if common then Z.land (tv_usec io) (Z.lnot MICROSECONDS_MASK) else 0 in
  let relative_to := if has EV_TIMEOUT res then (if common then real_timeout t else t) else now in
  let run_at := evutil_timeradd relative_to delay in
  let run_at := if evutil_timercmp Z.ltb run_at now then evutil_timeradd now delay else run_at in
  Timeval (tv_sec run_at) (Z.lor (tv_usec run_at) usec_mask).

(** The first part of event_persist_closure: the event is added again for its next timeout. *)
Definition persist_reschedule (x : nat) : EM unit :=
  ev ← get_event x;
  io ← lift (λ _, ev_io_timeout ev);
  when (negb (tv_sec io =? 0) || negb (tv_usec io =? 0))
    (assert (is_same_common_timeout (ev_timeout ev) io);;
     now ← gettime clock;
     common ← gets (is_common (ev_timeout ev));
     event_add_nolock_ mm backend fdinfo_len clock x
       (Some (persist_run_at (ev_timeout ev) io now (ev_res ev) common)) true;;
     mret tt).

Definition call_event (x : nat) : EM unit :=
  ev ← get_event x;
  invoke (evcb_cb_union (ev_evcallback ev)) (ev_fd ev) (ev_res ev) (evcb_arg (ev_evcallback ev)).

Definition event_persist_closure (x : nat) : EM unit := persist_reschedule x;; call_event x.

Definition set_current (p : option evcb_ptr) : EM unit := modify (λ b, let l := loop b in
  with_loop (Loop_state (event_gotterm l) (event_break l) (event_continue l) (event_running_priority l)
    (running_loop l) (n_deferreds_queued l) p) b).

(** The callback leaves its queue; the answer is [ev], [None] for NULL. *)
Definition take_active (p : evcb_ptr) : EM (option nat) :=
  cb ← get_cb p;
  if has EVLIST_INIT (evcb_flags cb) then
    match p with
    | of_event x =>
        ev ← get_event x;
        (if has EV_PERSIST (ev_events ev) || has EVLIST_FINALIZING (ev_flags ev)
         then event_queue_remove_active p
         else event_del_nolock_ backend x false;; mret tt);;
        mret (Some x)
    | alone _ => fails
    end
  else event_queue_remove_active p;; mret None.

(** The closures of events; [ev] must not be NULL. *)
Definition event_closure (closure : Z) (x : nat) : EM unit :=
  if closure =? EV_CLOSURE_EVENT_SIGNAL then event_signal_closure invoke x
  else if closure =? EV_CLOSURE_EVENT_PERSIST then event_persist_closure x
  else if closure =? EV_CLOSURE_EVENT then call_event x
  else if (closure =? EV_CLOSURE_EVENT_FINALIZE) || (closure =? EV_CLOSURE_EVENT_FINALIZE_FREE) then
    set_current None;;
    ev ← get_event x;
    assert (has EVLIST_FINALIZING (ev_flags ev));;
    invoke_finalize (evcb_cb_union (ev_evcallback ev)) x (evcb_arg (ev_evcallback ev));;
    when (closure =? EV_CLOSURE_EVENT_FINALIZE_FREE) (mm_free_event x)
  else fails.

(** The switch. *)
Definition call_closure (p : evcb_ptr) (ev : option nat) : EM unit :=
  cb ← get_cb p;
  let closure := evcb_closure cb in
  if closure =? EV_CLOSURE_CB_SELF then invoke_self (evcb_cb_union cb) p (evcb_arg cb)
  else if closure =? EV_CLOSURE_CB_FINALIZE then
    set_current None;;
    assert (has EVLIST_FINALIZING (evcb_flags cb));;
    invoke_self (evcb_cb_union cb) p (evcb_arg cb)
  else
    match ev with
    | Some x => event_closure closure x
    | None => fails
    end.

(** One round; the answer is the count. *)
Definition process_one (p : evcb_ptr) (count : Z) : EM Z :=
  ev ← take_active p;
  cb ← get_cb p;
  set_current (Some p);;
  call_closure p ev;;
  set_current None;;
  mret (if has EVLIST_INTERNAL (evcb_flags cb) then count else count + 1).

Definition past_end (cfg : dispatch_config) (endtime : option timeval) (count : Z) : EM bool :=
  match endtime with
  | Some t =>
      if count =? 0 then mret false
      else
        update_time_cache clock (no_cache cfg);;
        now ← gettime clock;
        mret (evutil_timercmp Z.geb now t)
  | None => mret false
  end.

Fixpoint single_queue_loop (cfg : dispatch_config) (fuel : nat) (i max_to_process : Z) (endtime : option timeval)
    (count : Z) : EM (progress Z) :=
  match fuel with
  | O => mret running
  | S fuel =>
      activeq ← lift (λ b, queue_at b i);
      match activeq with
      | [] => mret (finished count)
      | p :: _ =>
          count ← process_one p count;
          brk ← gets (λ b, event_break (loop b));
          if brk : bool then mret (finished (-1))
          else if max_to_process <=? count then mret (finished count)
          else
            late ← past_end cfg endtime count;
            if late : bool then mret (finished count)
            else
              continue ← gets (λ b, event_continue (loop b));
              if continue : bool then mret (finished count)
              else single_queue_loop cfg fuel i max_to_process endtime count
      end
  end.

Definition event_process_active_single_queue (cfg : dispatch_config) (fuel : nat) (i max_to_process : Z)
    (endtime : option timeval) : EM (progress Z) :=
  single_queue_loop cfg fuel i max_to_process endtime 0.

Definition set_running_priority (i : Z) : EM unit := modify (λ b, let l := loop b in
  with_loop (Loop_state (event_gotterm l) (event_break l) (event_continue l) i
    (running_loop l) (n_deferreds_queued l) (current_event l)) b).

(** The queues from number [i] on, [n] of them. *)
Fixpoint process_queues (cfg : dispatch_config) (fuel n : nat) (i : Z) (endtime : option timeval) (c : Z) : EM (progress Z) :=
  match n with
  | O => mret (finished c)
  | S n =>
      activeq ← lift (λ b, queue_at b i);
      match activeq with
      | [] => process_queues cfg fuel n (i + 1) endtime c
      | _ :: _ =>
          set_running_priority i;;
          r ← (if i <? limit_callbacks_after_prio cfg
               then event_process_active_single_queue cfg fuel i INT_MAX None
               else event_process_active_single_queue cfg fuel i (max_dispatch_callbacks cfg) endtime);
          match r with
          | running => mret running
          | finished c =>
              if (c <? 0) || (0 <? c) then mret (finished c) else process_queues cfg fuel n (i + 1) endtime c
          end
      end
  end.

Definition dispatch_end (cfg : dispatch_config) : EM (option timeval) :=
  if 0 <=? tv_sec (max_dispatch_time cfg) then
    update_time_cache clock (no_cache cfg);;
    now ← gettime clock;
    mret (Some (evutil_timeradd (max_dispatch_time cfg) now))
  else mret None.

Definition event_process_active (cfg : dispatch_config) (fuel : nat) : EM (progress Z) :=
  endtime ← dispatch_end cfg;
  n ← gets (λ b, length (activequeues b));
  r ← process_queues cfg fuel n 0 endtime 0;
  match r with
  | running => mret running
  | finished c => set_running_priority (-1);; mret (finished c)
  end.
End process.

(** ** The next timeout of a persistent event *)

(** The last deadline, if the event is called because of it, else the current time, plus the
    interval; the current time plus the interval if that has passed. *)
Definition next_micros (t io now : timeval) (res : Z) : Z :=
  let base := if has EV_TIMEOUT res then tv_micros (real_timeout t) else tv_micros now in
  let d := tv_micros (real_timeout io) in
  if base + d <? tv_micros now then tv_micros now + d else base + d.

(** The sum, before the number of the queue is added. *)
Lemma run_at_sum rel delay now :
  tv_normal rel → tv_normal delay → tv_normal now →
  let s := evutil_timeradd rel delay in
  let r := if evutil_timercmp Z.ltb s now then evutil_timeradd now delay else s in
  tv_normal r ∧ tv_micros r = (if tv_micros rel + tv_micros delay <? tv_micros now
    then tv_micros now + tv_micros delay else tv_micros rel + tv_micros delay).
Proof.
  intros Hr Hd Hn s r. pose proof (timeradd_normal rel delay Hr Hd) as Hs. pose proof (timeradd_micros rel delay) as Hm.
  assert (Hc : evutil_timercmp Z.ltb s now = (tv_micros rel + tv_micros delay <? tv_micros now)).
  { rewrite <- Hm. unfold s, evutil_timercmp, tv_micros, tv_normal in *. destruct (Z.eqb_spec (tv_sec (evutil_timeradd rel delay)) (tv_sec now)); lia. }
  unfold r. rewrite Hc. destruct (_ <? _); split; try done; [by apply timeradd_normal|by rewrite timeradd_micros].
Qed.

Lemma same_kind_common n io t : same_kind n io t → is_same_common_timeout t io = true.
Proof.
  unfold is_same_common_timeout. rewrite !land_lnot_mask. intros [[H1 H2]|(i & _ & [H1 _] & [H2 _])]; apply Z.eqb_eq.
  - unfold tv_normal in *. rewrite !Z.div_small by lia. done.
  - by rewrite H1, H2.
Qed.

Lemma run_at_spec n t io now res :
  same_kind n io t → n <= MAX_COMMON_TIMEOUTS → tv_normal now →
  let r := persist_run_at t io now res (is_common_timeout t n) in
  same_kind n io r ∧ tv_micros (real_timeout r) = next_micros t io now res.
Proof.
  intros [[Hi Ht]|(i & Hi & Hio & Hat)] Hn Hnow; unfold persist_run_at, next_micros; cbv zeta.
  - rewrite normal_not_common by done. rewrite (real_normal t), (real_normal io) by done.
    destruct (run_at_sum (if has EV_TIMEOUT res then t else now) io now) as [Hr Hm]; [by case_match|done|done|].
    cbv zeta in Hr, Hm. set (r := if evutil_timercmp _ _ _ then _ else _) in *. rewrite Z.lor_0_r.
    assert (Er : Timeval (tv_sec r) (tv_usec r) = r) by by destruct r. rewrite Er, real_normal by done.
    split; [by left|]. rewrite Hm. by destruct (has EV_TIMEOUT res).
  - rewrite (proj1 (common_at_idx i t n Hat Hi Hn)).
    destruct (run_at_sum (if has EV_TIMEOUT res then real_timeout t else now) (real_timeout io) now) as [Hr Hm];
      [case_match; [apply Hat|done]|apply Hio|done|].
    cbv zeta in Hr, Hm. set (r := if evutil_timercmp _ _ _ then _ else _) in *.
    assert (E : Z.lor (tv_usec r) (Z.land (tv_usec io) (Z.lnot MICROSECONDS_MASK)) = (1280 + i) * 2 ^ 20 + tv_usec r).
    { rewrite land_lnot_mask, (proj1 Hio), Z.lor_comm. apply lor_low; [done|]. unfold tv_normal in Hr. lia. }
    assert (Er : real_timeout (Timeval (tv_sec r) ((1280 + i) * 2 ^ 20 + tv_usec r)) = r).
    { unfold real_timeout. cbn [tv_sec tv_usec]. rewrite land_ones_mod, Z.add_comm, Z_mod_plus_full, Z.mod_small
        by (unfold tv_normal in Hr; lia). by destruct r. }
    rewrite E, Er. split; [right; exists i; split; [done|]; split; [done|]|rewrite Hm; by destruct (has EV_TIMEOUT res)].
    split; [|by rewrite Er]. cbn [tv_usec]. rewrite Z.div_add_l, Z.div_small by (unfold tv_normal in Hr; lia). lia.
Qed.

(** ** Between the callbacks *)

(** The invariant when no callback is running. *)
Definition at_rest (b : event_base) : Prop := api_ok b ∧ settled b.
Record rests (b b' : event_base) : Prop := {
  rs_rest : at_rest b';
  rs_queues : nactivequeues b' = nactivequeues b;
  rs_quiet : quiet b b'
}.

Lemma quiet_refl b b' : evs b' = evs b → common_timeout_queues b' = common_timeout_queues b → quiet b b'.
Proof. intros He Hc y Hy Ha. unfold ctl_timer, active_at in *. by rewrite <- He, <- Hc. Qed.

Lemma rests_refl b : at_rest b → rests b b.
Proof. by split. Qed.
Lemma rests_trans b1 b2 b3 : rests b1 b2 → rests b2 b3 → rests b1 b3.
Proof. intros [? ? ?] [? ? ?]. split; [done|congruence|by eapply quiet_trans]. Qed.

Lemma at_rest_prog b : at_rest b → prog_ok b.
Proof. intros [? [? _]]. by split. Qed.
Lemma at_rest_intro b : prog_ok b → frame (signal_frame b) = None → at_rest b.
Proof. by intros []. Qed.
Lemma keeps_rests b b' : at_rest b → keeps b b' → rests b b'.
Proof. intros [_ [_ Hf]] [Hp Hh]. split; [|apply Hh..]. apply at_rest_intro; [done|]. by rewrite (hd_frame _ _ Hh). Qed.

(** No signal event points to a counter. *)
Lemma rest_points b x k : at_rest b → ¬ points b x k.
Proof. intros [_ [Hl Hf]] Hp. destruct (lv_frame _ Hl x k Hp) as (m & H & _). congruence. Qed.

Lemma prog_loop l b : prog_ok b → (∀ x k, ¬ points b x k) → prog_ok (with_loop l b).
Proof.
  intros [[Hok Hc Hn Hq] [L1 L2 L3 L4]] Hno. split; [by split; [apply base_ok_loop|..]|]. split; try done.
  intros x k Hp. by destruct (Hno x k).
Qed.

Lemma rest_loop l b : at_rest b → rests b (with_loop l b).
Proof.
  intros Hr. split; [|done|done]. apply at_rest_intro; [|apply Hr].
  apply prog_loop; [by apply at_rest_prog|]. intros x k. by apply rest_points.
Qed.

Lemma rest_time t b : at_rest b → (tv_sec (tv_cache t) ≠ 0 → tv_normal (tv_cache t)) → rests b (with_time t b).
Proof.
  intros [[Hok Hc Hn Hq] Hs] Ht. split; [|done|done]. split; [|by apply settled_time].
  split; [by apply base_ok_time|done|done|done].
Qed.

(** The counter and the number of the calls. *)
Lemma prog_frame f b :
  prog_ok b → (∀ x k, points b x k → ∃ m, frame f = Some (k, m) ∧ m ≠ 0) → prog_ok (with_signal_frame f b).
Proof.
  intros [[Hok Hc Hn Hq] [L1 L2 L3 L4]] Hf. split.
  - split; try done. destruct Hok as [[H1 H2 H3 H4 H5] ? ? ? ? ? ?]. split; try done. split; try done.
    intros x ev n k Hx Hs Hnc Hnz Hp. destruct (Hf x k) as (m & E & _); [by exists ev|]. eauto.
  - split; try done. intros x k Hp. destruct (Hf x k Hp) as (m & E & Hm). exists m. split; [done|]. split; [done|].
    by destruct (L4 x k Hp) as (? & _ & _ & ?).
Qed.

(** What goes on while a callback runs. *)
Record goes_on (b b' : event_base) : Prop := {
  go_frame : frame (signal_frame b') = frame (signal_frame b);
  go_current : current_event (loop b') = current_event (loop b);
  go_queues : nactivequeues b' = nactivequeues b;
  go_signal : ∀ x, busy b x → signal_at b x → signal_at b' x;
  go_doomed : ∀ x, doomed b x → doomed b' x;
  go_quiet : quiet b b'
}.

Lemma goes_on_rests b b' : at_rest b → prog_ok b' → goes_on b b' → rests b b'.
Proof. intros [_ [_ Hf]] Hp Hg. split; [|apply Hg..]. apply at_rest_intro; [done|]. by rewrite (go_frame _ _ Hg). Qed.

Section process_ok.
Context (mm : nat → Z → bool) (backend : history → backend_call → bool) (fdinfo_len : Z)
  (clock : nat → timeval) (user : nat → invocation → EM unit).
Hypothesis clock_good : clock_ok clock.
Hypothesis user_ok : ∀ k i b, prog_ok b → wp (user k i) b (λ _ b', keeps b b').

Abbreviation call_it := (invoke mm backend fdinfo_len clock user).

Lemma call_user_ok i b : prog_ok b → wp (call_user user i) b (λ _ b', prog_ok b' ∧ goes_on b b').
Proof.
  intros Hp. unfold call_user. apply wp_bind, wp_gets, wp_bind, wp_modify. set (b1 := with_signal_frame _ b).
  assert (Hp1 : prog_ok b1).
  { apply prog_frame; [done|]. intros x k Hk. destruct (lv_frame _ (po_live _ Hp) x k Hk) as (m & ? & ? & _). by exists m. }
  eapply wp_mono; [by apply user_ok|]. intros a b' [Hp' [H1 H2 H3 H4 H5 H6]]. split; [done|].
  split; [by rewrite H1|done|done|exact H4|exact H5|exact H6].
Qed.

(** A callback of the program. *)
Lemma invoke_user_ok cb fd res arg b :
  prog_ok b → cb ≠ common_timeout_cb → wp (call_it cb fd res arg) b (λ _ b', prog_ok b' ∧ goes_on b b').
Proof. intros Hp Hcb. destruct cb as [f|]; [|done]. by apply call_user_ok. Qed.

Lemma invoke_self_ok cb p arg b :
  prog_ok b → (∃ f, cb = user_cb f) → wp (invoke_self user cb p arg) b (λ _ b', prog_ok b' ∧ goes_on b b').
Proof. intros Hp [f ->]. by apply call_user_ok. Qed.

(** Any callback, when none is running. *)
Lemma invoke_ok x ev b :
  at_rest b → evs b !! x = Some ev →
  wp (call_it (evcb_cb_union (ev_evcallback ev)) (ev_fd ev) (ev_res ev) (evcb_arg (ev_evcallback ev))) b
    (λ _ b', rests b b').
Proof.
  intros Hr Hx. pose proof (at_rest_prog _ Hr) as Hp. destruct (evcb_cb_union (ev_evcallback ev)) as [f|] eqn:Hcb.
  - eapply wp_mono; [by apply call_user_ok|]. intros a b' [Hp' Hg]. by apply goes_on_rests.
  - pose proof (lv_timers _ (po_live _ Hp) x ev Hx (or_introl Hcb)) as (ctl & [i Hi]%list_elem_of_lookup & Hxi).
    pose proof (api_base _ (po_api _ Hp)) as Hok.
    destruct (bo_timers _ (bo_items _ Hok) i ctl Hi) as (_ & e & He & _ & _ & _ & Hcbe).
    rewrite Hxi, Hx in He. injection He as <-. rewrite Hcbe. cbn [evcb_arg invoke].
    assert (Hlive : timers_live b).
    { intros y e He Ht. destruct (has EVLIST_FINALIZING (ev_flags e)) eqn:Hf; [|done].
      destruct (il_off _ _ (lv_events _ (po_live _ Hp) y e He) Hf). congruence. }
    eapply wp_mono; [by apply (common_callback_ok mm backend fdinfo_len clock i b ctl); [|apply Hp|..]|].
    intros a b' (Hapi' & Hse & Hq & Hqu & _). split; [split; [done|by apply Hse, Hr]|done|done].
Qed.

(** ** The calls of a signal's callback *)

(** Writing the counter of a signal event, and the address of the counter of the running closure. *)
Lemma write_signal_prog b x e n p :
  prog_ok b → evs b !! x = Some e → has EV_SIGNAL (ev_events e) = true →
  (∀ k, p = Some k → ∃ m, frame (signal_frame b) = Some (k, m) ∧ m ≠ 0 ∧ current_event (loop b) = Some (of_event x)) →
  prog_ok (with_evs (<[x := with_ev_ (ev_signal n p) e]> (evs b)) b).
Proof.
  intros [[Hok Hc Hn Hq] [L1 L2 L3 L4]] Hx Hs Hfr. pose proof (bo_wf _ (bo_items _ Hok) x e Hx) as Hwf.
  assert (Hlk : ∀ y, <[x := with_ev_ (ev_signal n p) e]> (evs b) !! y =
    if decide (y = x) then Some (with_ev_ (ev_signal n p) e) else evs b !! y).
  { intros y. case_decide as Hy; [subst; by rewrite lookup_insert_eq|by rewrite lookup_insert_ne]. }
  split; split; bcbn; try done.
  - apply (store_write_ok b x e); [done|done|by split_and!|..].
    + pose proof (ew_fd _ Hwf). split; try done; cbn; try apply Hwf.
      * intros _. split; [by apply (ew_signal _ Hwf)|by eexists].
      * intros Hp. destruct (ew_persist _ Hwf Hp). congruence.
    + apply frame_ok_write; [by destruct (bo_items _ Hok)|]. cbn. intros m k _ _ _ [= E]. destruct (Hfr k E) as (m' & ? & _). eauto.
  - intros y t Hy. unfold pending. bcbn. rewrite Hlk. case_decide; [subst|by apply Hn].
    intros Ht. apply (Hn x t Hy). unfold pending. by rewrite Hx.
  - intros y e0. rewrite Hlk. case_decide; [|by apply L1]. intros [= <-]. by destruct (L1 x e Hx).
  - intros y e0. rewrite Hlk. case_decide; [|by apply L3]. intros [= <-]. subst. by apply (L3 x e).
  - intros y k (e0 & He0 & Hs0 & Hp0). bcbn. rewrite Hlk in He0. case_decide; [subst|by apply L4; exists e0].
    injection He0 as <-. cbn in Hp0. apply Hfr. by injection Hp0.
Qed.

Lemma write_signal_points b x e n p y k :
  evs b !! x = Some e → points (with_evs (<[x := with_ev_ (ev_signal n p) e]> (evs b)) b) y k →
  y = x ∧ p = Some k ∨ y ≠ x ∧ points b y k.
Proof.
  intros Hx (e0 & He0 & Hs0 & Hp0). bcbn. destruct (decide (y = x)) as [->|Hne].
  - rewrite lookup_insert_eq in He0. injection He0 as <-. left. split; [done|]. by injection Hp0.
  - rewrite lookup_insert_ne in He0 by done. right. split; [done|]. by exists e0.
Qed.

Lemma quiet_write b b' x e w :
  evs b !! x = Some e → evs b' = <[x := with_ev_ w e]> (evs b) → common_timeout_queues b' = common_timeout_queues b →
  quiet b b'.
Proof.
  intros Hx He Hc y Hy (e' & Hy' & Ha). unfold ctl_timer in *. rewrite Hc in Hy. split; [done|]. rewrite He in Hy'.
  destruct (decide (y = x)) as [->|Hne]; [|rewrite lookup_insert_ne in Hy' by done; by exists e'].
  rewrite lookup_insert_eq in Hy'. injection Hy' as <-. by exists e.
Qed.

Definition signal_running (k x : nat) (n : Z) (b : event_base) : Prop :=
  prog_ok b ∧ frame (signal_frame b) = Some (k, n) ∧ current_event (loop b) = Some (of_event x) ∧
  (n ≠ 0 → signal_at b x).

Lemma running_points k x n b y j : signal_running k x n b → points b y j → y = x ∧ j = k ∧ n ≠ 0.
Proof.
  intros ([_ Hl] & Hf & Hc & _) Hp. destruct (lv_frame _ Hl y j Hp) as (m & Hf' & Hm & Hc').
  rewrite Hf in Hf'. rewrite Hc in Hc'. by simplify_eq.
Qed.

(** One more call is counted. *)
Lemma signal_step_ok k x n b e :
  signal_running k x n b → n ≠ 0 → evs b !! x = Some e → has EV_SIGNAL (ev_events e) = true →
  let n' := int16 (n - 1) in
  let e' := with_ev_ (ev_signal n' (if n' =? 0 then None else default None (ev_pncalls e))) e in
  signal_running k x n' (with_evs (<[x := e']> (evs b)) (with_signal_frame (Frame_state (frames (signal_frame b)) (Some (k, n'))) b)).
Proof.
  intros Hr Hn Hx Hs n' e'. pose proof Hr as (Hp & Hf & Hc & _).
  assert (Hpn : ∀ j, (if n' =? 0 then None else default None (ev_pncalls e)) = Some j → n' ≠ 0 ∧ points b x j).
  { intros j. destruct (Z.eqb_spec n' 0) as [|Hz]; [done|]. intros E. split; [done|]. exists e.
    destruct (ev_pncalls e) as [q|] eqn:Eq; [|done]. cbn in E. by subst. }
  pose proof (λ j y, write_signal_points b x e n' (if n' =? 0 then None else default None (ev_pncalls e)) y j Hx) as Hpts.
  assert (Hp1 : prog_ok (with_evs (<[x := e']> (evs b)) b)).
  { apply write_signal_prog; [done|done|done|]. intros j [_ Hj]%Hpn. exists n.
    destruct (running_points _ _ _ _ _ _ Hr Hj) as (_ & -> & _). done. }
  split; [|split; [done|split; [done|]]].
  - change (with_evs ?s (with_signal_frame ?f b)) with (with_signal_frame f (with_evs s b)).
    apply prog_frame; [done|]. intros y j [[-> Hj]|[Hne Hj]]%Hpts.
    + apply Hpn in Hj as [Hz Hj]. destruct (running_points _ _ _ _ _ _ Hr Hj) as (_ & -> & _). by exists n'.
    + by destruct (running_points _ _ _ _ _ _ Hr Hj).
  - intros _. exists e'. bcbn. by rewrite lookup_insert_eq.
Qed.

Lemma int16_pred n : -32768 <= n < 32768 → n ≠ 0 →
  -32768 <= int16 (n - 1) < 32768 ∧ (int16 (n - 1)) mod 2 ^ 16 = n mod 2 ^ 16 - 1.
Proof.
  intros Hn Hz. unfold int16, swrap. change (2 ^ (16 - 1)) with 32768. change (2 ^ 16) with 65536.
  split; [pose proof (Z.mod_pos_bound (n - 1 + 32768) 65536); lia|].
  rewrite Zminus_mod_idemp_l. replace (n - 1 + 32768 - 32768) with (n - 1) by lia.
  destruct (Z_lt_le_dec n 0).
  - rewrite <- (Z_mod_plus_full (n - 1) 1), <- (Z_mod_plus_full n 1), !Z.mod_small; lia.
  - rewrite !Z.mod_small; lia.
Qed.

Lemma signal_loop_ok fuel k x n b :
  signal_running k x n b → -32768 <= n < 32768 → (Z.to_nat (n mod 2 ^ 16) < fuel)%nat →
  wp (signal_loop call_it fuel k x) b (λ _ b', prog_ok b' ∧ (∀ y j, ¬ points b' y j) ∧ nactivequeues b' = nactivequeues b ∧
    quiet b b').
Proof.
  revert n b. induction fuel as [|fuel IH]; intros n b Hr Hn Hfuel; [lia|]. cbn [signal_loop].
  pose proof Hr as (Hp & Hf & Hc & Hs). apply wp_bind, wp_gets. rewrite Hf. destruct (Z.eqb_spec n 0) as [Hz|Hz].
  { apply wp_ret. split; [done|]. split; [|done]. intros y j Hj. by destruct (running_points _ _ _ _ _ _ Hr Hj) as (_ & _ & ?). }
  destruct (Hs Hz) as (e & Hx & Hes). destruct (int16_pred n Hn Hz) as [Hn' Hmod]. cbv zeta.
  pose proof (signal_step_ok k x n b e Hr Hz Hx Hes) as Hr1. cbv zeta in Hr1. set (n' := int16 (n - 1)) in *.
  apply wp_bind, wp_modify, wp_bind, (wp_upd_event _ _ _ e); [done|]. set (b1 := with_evs _ _) in *.
  set (e1 := with_ev_ _ e) in *. assert (Hx1 : evs b1 !! x = Some e1) by apply lookup_insert_eq.
  apply wp_bind, (wp_get_event x e1); [done|].
  apply wp_bind. eapply wp_mono; [apply invoke_user_ok; [apply Hr1|]|].
  { intros Hcb. apply (ctl_no_signal b1 x); [apply Hr1|by apply (lv_timers _ (po_live _ (proj1 Hr1)) x e1 Hx1 (or_introl Hcb))|by exists e1]. }
  intros a b2 [Hp2 Hg]. pose proof Hr1 as (_ & Hf1 & Hc1 & Hs1).
  assert (Hr2 : signal_running k x n' b2).
  { split; [done|]. split; [by rewrite (go_frame _ _ Hg)|]. split; [by rewrite (go_current _ _ Hg)|].
    intros Hz'. apply Hg; [|auto]. split; [done|]. by exists k, n'. }
  assert (Hq : nactivequeues b2 = nactivequeues b ∧ quiet b b2).
  { split; [by rewrite (go_queues _ _ Hg)|]. eapply quiet_trans; [|apply (go_quiet _ _ Hg)]. by eapply quiet_write. }
  apply wp_bind, wp_gets. destruct (event_break (loop b2)).
  - pose proof Hr2 as (_ & Hf2 & _ & Hs2). apply wp_bind, wp_gets. rewrite Hf2. cbn [from_option snd].
    apply wp_when; intros Hz'.
    + apply negb_true_iff, Z.eqb_neq in Hz'. destruct (Hs2 Hz') as (e2 & Hx2 & Hes2).
      apply (wp_upd_event _ _ _ e2); [done|]. split; [by apply write_signal_prog|]. split; [|split; [apply Hq|]].
      2:{ eapply quiet_trans; [apply Hq|]. by eapply quiet_write. }
      intros y j [[_ ?]|[Hne Hj]]%(write_signal_points _ _ _ _ _ _ _ Hx2); [done|].
      by destruct (running_points _ _ _ _ _ _ Hr2 Hj).
    + split; [done|]. split; [|done]. intros y j Hj. destruct (running_points _ _ _ _ _ _ Hr2 Hj) as (_ & _ & ?).
      by apply negb_false_iff, Z.eqb_eq in Hz'.
  - pose proof (Z.mod_pos_bound (int16 (n - 1)) (2 ^ 16) eq_refl) as Hpos. fold n' in Hmod, Hpos.
    eapply wp_mono; [apply (IH n' b2 Hr2 Hn'); lia|].
    intros a' b' (H1 & H2 & H3 & H4). split; [done|]. split; [done|]. destruct Hq. split; [congruence|by eapply quiet_trans].
Qed.

Lemma closure_signal e : event_wf e → ev_closure e = EV_CLOSURE_EVENT_SIGNAL → has EV_SIGNAL (ev_events e) = true.
Proof.
  intros Hwf Hc. destruct (ew_closure _ Hwf) as [H|[H|H]]; rewrite Hc in H; try done.
  unfold closure_of in H. destruct (has EV_SIGNAL (ev_events e)); [done|]. by destruct (has EV_PERSIST (ev_events e)).
Qed.

Lemma signal_closure_ok x e b :
  at_rest b → current_event (loop b) = Some (of_event x) → evs b !! x = Some e → ev_closure e = EV_CLOSURE_EVENT_SIGNAL →
  wp (event_signal_closure call_it x) b (λ _ b', rests b b').
Proof.
  intros Hr Hcur Hx Hcl. pose proof (at_rest_prog _ Hr) as Hp.
  pose proof (bo_wf _ (bo_items _ (api_base _ (po_api _ Hp))) x e Hx) as Hwf. pose proof (closure_signal e Hwf Hcl) as Hs.
  destruct (ew_signal _ Hwf Hs) as [_ [n0 Hn0]]. unfold event_signal_closure.
  apply wp_bind, (wp_get_event x e); [done|]. apply wp_bind, (wp_lift _ _ (int16 n0)); [by rewrite Hn0|].
  apply wp_bind, wp_gets. set (n := int16 n0). set (k := frames (signal_frame b)).
  assert (Hn : -32768 <= n < 32768).
  { unfold n, int16, swrap. pose proof (Z.mod_pos_bound (n0 + 2 ^ (16 - 1)) (2 ^ 16) eq_refl). lia. }
  apply wp_bind, wp_modify. set (b1 := with_signal_frame _ b).
  assert (Hp1 : prog_ok b1) by (apply prog_frame; [done|]; intros y j Hj; by destruct (rest_points _ _ _ Hr Hj)).
  assert (Hno1 : ∀ y j, ¬ points b1 y j) by (intros y j Hj; by destruct (rest_points _ y j Hr)).
  assert (Hrun : ∀ b2, prog_ok b2 → frame (signal_frame b2) = Some (k, n) → nactivequeues b2 = nactivequeues b → quiet b b2 →
    current_event (loop b2) = Some (of_event x) → (n ≠ 0 → signal_at b2 x) →
    wp (signal_loop call_it (S (Z.to_nat (n mod 2 ^ 16))) k x;; set_frame None) b2 (λ _ b', rests b b')).
  { intros b2 Hp2 Hf2 Hq2 Hqu2 Hc2 Hs2. apply wp_bind. eapply wp_mono; [by apply (signal_loop_ok _ k x n); [split_and!|lia|lia]|].
    intros _ b3 (Hp3 & Hno & Hq3 & Hqu3). apply wp_modify.
    split; [|unfold nactivequeues in *; bcbn; congruence|by eapply quiet_trans].
    apply at_rest_intro; [|done]. apply prog_frame; [done|]. intros y j Hj. by destruct (Hno y j). }
  apply wp_bind, wp_when; intros Hz; [|by apply Hrun; [..|intros _; exists e]].
  apply negb_true_iff, Z.eqb_neq in Hz. apply (wp_upd_event _ _ _ e); [done|]. apply Hrun; try done.
  - apply write_signal_prog; [done|done|done|]. intros j [= <-]. by exists n.
  - by eapply quiet_write.
  - intros _. eexists. split; [apply lookup_insert_eq|done].
Qed.
(** ** Persistent events *)

Lemma closure_own b x ev :
  at_rest b → evs b !! x = Some ev → ev_closure ev ≠ EV_CLOSURE_EVENT → own_event b x ev.
Proof.
  intros Hr Hx Hc. split; [done|]. intros Hct. pose proof (api_base _ (proj1 Hr)) as Hok.
  destruct (ctl_timer_item _ _ _ Hok Hct Hx) as (i & _ & _ & _ & He). apply Hc. unfold ev_closure. by rewrite He.
Qed.

Lemma persist_fin b x ev :
  at_rest b → evs b !! x = Some ev → ev_closure ev = EV_CLOSURE_EVENT_PERSIST → has EVLIST_FINALIZING (ev_flags ev) = false.
Proof.
  intros Hr Hx Hc. destruct (has EVLIST_FINALIZING (ev_flags ev)) eqn:Hf; [|done].
  apply (il_closure _ _ (lv_events _ (proj1 (proj2 Hr)) x ev Hx)) in Hf. rewrite Hc in Hf. by destruct Hf.
Qed.

(** The event has its next deadline. *)
Definition rescheduled (b b' : event_base) (x : nat) (ev : event) (io : timeval) : Prop :=
  ∃ now, tv_normal now ∧ (tv_sec (tv_cache (time b)) ≠ 0 → now = tv_cache (time b)) ∧
    (core <$> evs b' !! x = core <$> evs b !! x ∧ refuses mm b b' ev ∨
     ∃ ev', evs b' !! x = Some ev' ∧ has EVLIST_TIMEOUT (ev_flags ev') = true ∧
       has EVLIST_INSERTED (ev_flags ev') = has EVLIST_INSERTED (ev_flags ev) || to_insert ev ∧
       same_kind (n_common_timeouts b) io (ev_timeout ev') ∧
       tv_micros (real_timeout (ev_timeout ev')) = next_micros (ev_timeout ev) io now (ev_res ev)).

(** The call of event_add_nolock_. *)
Lemma persist_add_ok x ev io b tv :
  at_rest b → evs b !! x = Some ev → ev_closure ev = EV_CLOSURE_EVENT_PERSIST → ev_io_timeout ev = Some io →
  same_kind (n_common_timeouts b) io (ev_timeout ev) → same_kind (n_common_timeouts b) io tv →
  wp (event_add_nolock_ mm backend fdinfo_len clock x (Some tv) true) b (λ r b', rests b b' ∧
    (r = -1 ∧ core <$> evs b' !! x = core <$> evs b !! x ∧ refuses mm b b' ev ∨
     ∃ ev', evs b' !! x = Some ev' ∧ has EVLIST_TIMEOUT (ev_flags ev') = true ∧ ev_timeout ev' = tv ∧
       has EVLIST_INSERTED (ev_flags ev') = has EVLIST_INSERTED (ev_flags ev) || to_insert ev)).
Proof.
  intros Hr Hx Hcl Hio Hk Hk'. pose proof (at_rest_prog _ Hr) as Hp.
  assert (Hown : own_event b x ev) by (apply closure_own; [done|done|by rewrite Hcl]).
  assert (Hv : valid_tv (n_common_timeouts b) tv) by (destruct Hk' as [[_ ?]|(i & ? & _ & ?)]; [by left|right; eauto]).
  assert (Hmay : may_add b x ev (Some tv) true).
  { split; [done|]. split; [|by destruct Hown]. intros Ht Hn. right. split; [done|].
    destruct Hk' as [[Hi _]|(i & Hi & _ & Hat)]; [|by destruct (normal_not_at i tv Hn (proj1 Hi))].
    destruct Hk as [[_ ?]|(i & Hi' & Hat & _)]; [done|]. by destruct (normal_not_at i io Hi (proj1 Hi')). }
  eapply wp_mono; [apply wp_refuses; [exact Hx|]; apply (add_nolock_keeps mm backend fdinfo_len clock clock_good x (Some tv) true ev b); try done|].
  - apply settled_calm, Hr.
  - intros t [= <-] _ u Hu _. congruence.
  - intros r b' [(Hkeep & _ & Hout) Href]. split; [by apply keeps_rests|].
    destruct Hout as [[? ?]|(_ & _ & ev' & Hx' & Had & now & _ & _ & Hd)]; [left; split_and!; auto|right].
    pose proof (added_timed _ _ _ _ _ _ Had) as Ht. rewrite bool_decide_true, orb_true_r in Ht by eauto.
    exists ev'. split; [done|]. split; [done|]. split; [exact Hd|]. pose proof (ad_bits _ _ _ _ _ _ Had) as Hb.
    unfold bits in Hb. by injection Hb.
Qed.

Lemma persist_reschedule_ok x ev b :
  at_rest b → evs b !! x = Some ev → ev_closure ev = EV_CLOSURE_EVENT_PERSIST →
  wp (persist_reschedule mm backend fdinfo_len clock x) b (λ _ b', rests b b' ∧ is_Some (evs b' !! x) ∧
    ∃ io, ev_io_timeout ev = Some io ∧ if decide (io = Timeval 0 0) then b' = b else rescheduled b b' x ev io).
Proof.
  intros Hr Hx Hcl. pose proof Hr as [[Hok Hc Hn Hq] [Hl Hfr]]. unfold persist_reschedule.
  destruct (ew_persist _ (bo_wf _ (bo_items _ Hok) x ev Hx) Hcl) as [_ [io Hio]].
  apply wp_bind, (wp_get_event x ev); [done|]. apply wp_bind, (wp_lift _ _ io); [done|].
  destruct (decide (io = Timeval 0 0)) as [->|Hz].
  { apply wp_when; [done|]. intros _. split; [by apply rests_refl|]. split; [by eauto|]. exists (Timeval 0 0). by rewrite decide_True. }
  apply wp_when.
  2:{ intros H. destruct Hz. destruct io as [s u]. cbn in H. f_equal; lia. }
  intros _. pose proof (il_persist _ _ (lv_events _ Hl x ev Hx) io Hcl Hio Hz) as Hk.
  apply wp_bind, wp_assert; [by eapply same_kind_common|].
  apply wp_bind, gettime_ok; [done|done|]. intros now t Hnow Hc' Et Hfresh. apply wp_bind, wp_gets.
  destruct (bo_heap _ Hok) as (hs & _ & Hlo).
  destruct (run_at_spec (n_common_timeouts b) (ev_timeout ev) io now (ev_res ev) Hk (lo_max _ _ _ Hlo) Hnow) as [Hk' Hm].
  cbv zeta in Hk', Hm. pose proof (rest_time t b Hr Hc') as Hr1. set (b1 := with_time t b) in *.
  apply wp_bind. eapply wp_mono; [apply (persist_add_ok x ev io b1); try done; apply Hr1|].
  intros r b' [Hr' Hout]. apply wp_ret. split; [exact (rests_trans _ _ _ Hr1 Hr')|]. split.
  - destruct Hout as [(_ & Hcore & _)|(ev' & -> & _)]; [|by eauto].
    change (evs b1) with (evs b) in Hcore. rewrite Hx in Hcore. destruct (evs b' !! x); [by eauto|done].
  - exists io. split; [done|]. rewrite decide_False by done. exists now. split; [done|]. split; [done|].
    destruct Hout as [(_ & ? & Href)|(ev' & Hx' & Ht & Hd & Hi)]; [left; split; [done|by apply (refuses_same_maps mm b b1)]|right]. exists ev'. rewrite Hd. done.
Qed.
(** ** One callback *)

Definition owner (p : evcb_ptr) : option nat := match p with of_event x => Some x | alone _ => None end.

(** The callback is off its queue. *)
Record taken (p : evcb_ptr) (c : event_callback) (b b' : event_base) (c' : event_callback) : Prop := {
  tk_rests : rests b b';
  tk_at : callback_at b' p = Some c';
  tk_requeued : requeued c c';
  tk_off : has EVLIST_ACTIVE (evcb_flags c') = false;
  tk_idle : ∀ x, p = of_event x → has EVLIST_FINALIZING (evcb_flags c) = true → idle c'
}.

Lemma rest_touched x b b' :
  at_rest b → base_ok b' → touched (of_event x) b b' → live_at b x (evs b' !! x) →
  (ctl_timer b x → ∀ t, pending (evs b') x = Some t → tv_normal t) →
  (ctl_timer b x → active_at b' x → active_at b x) → rests b b'.
Proof.
  intros [[Hok Hc Hn Hq] Hs] Hok' Ht Hx Hct Ha. split; [|apply Ht|by eapply quiet_touched]. split; [|by eapply settled_touched].
  split; [done|by eapply touched_cache|by eapply timers_normal_touched|by rewrite (to_queues _ _ _ Ht)].
Qed.

(** Off the active queue, the event otherwise as it is. *)
Lemma take_event_ok x ev b :
  at_rest b → evs b !! x = Some ev → has EVLIST_ACTIVE (ev_flags ev) = true →
  wp (event_queue_remove_active (of_event x)) b (λ _ b', ∃ c', taken (of_event x) (ev_evcallback ev) b b' c').
Proof.
  intros Hr Hx Ha. pose proof Hr as [[Hok Hc Hn Hq] [Hl Hf]].
  assert (Hp : callback_at b (of_event x) = Some (ev_evcallback ev)) by (cbn; by rewrite Hx).
  pose proof (not_both b _ _ Hok Hp) as Hnb. change (evcb_flags (ev_evcallback ev)) with (ev_flags ev) in Hnb.
  rewrite Ha in Hnb. cbn [andb] in Hnb. pose proof (lv_events _ Hl x ev Hx) as Hi.
  eapply wp_mono; [by apply (remove_active_ok _ (ev_evcallback ev))|]. intros _ b' (Hok' & Hm & _).
  set (c' := drop_flag EVLIST_ACTIVE (ev_evcallback ev)) in *.
  pose proof (moved_event x c' ev b b' Hx Hm) as Hx'.
  assert (Hrq : requeued (ev_evcallback ev) c') by (apply requeued_drop; auto with flags).
  assert (HTI : has EVLIST_TIMEOUT (evcb_flags c') = has EVLIST_TIMEOUT (ev_flags ev) ∧
    has EVLIST_INSERTED (evcb_flags c') = has EVLIST_INSERTED (ev_flags ev)) by (unfold c', ev_flags; by flags).
  destruct HTI as [HT HI]. exists c'. split; [|by cbn; rewrite Hx'|done|by unfold c'; flags|].
  - eapply rest_touched; [done|done|by eapply moved_touched|..].
    + rewrite Hx'. eapply live_at_next; [done|done|exact Hrq|]. eapply item_live_next; [exact Hi|exact Hrq|done| |by left].
      intros Hfin. change (ev_flags (with_evcallback c' ev)) with (evcb_flags c'). rewrite HT, HI. by apply Hi.
    + intros Hct t. rewrite (pending_is _ _ _ _ Hx' HT).
      destruct (has EVLIST_TIMEOUT (ev_flags ev)) eqn:Ht; [|done]. intros [= <-]. apply (Hn x _ Hct).
      by rewrite (pending_is _ _ _ _ Hx Ht).
    + by exists ev.
  - intros y _ Hfin. destruct (il_off _ _ Hi Hfin) as [T I]. unfold idle, bits. rewrite HT, HI, T, I.
    unfold c', ev_flags in *. flags. by rewrite Hnb.
Qed.

Lemma take_active_ok p c b :
  at_rest b → callback_at b p = Some c → has EVLIST_ACTIVE (evcb_flags c) = true →
  wp (take_active backend p) b (λ o b', o = owner p ∧ ∃ c', taken p c b b' c').
Proof.
  intros Hr Hp Ha. pose proof Hr as [[Hok Hc Hn Hq] [Hl Hf]]. unfold take_active.
  apply wp_bind, (wp_get_cb p c); [done|]. destruct p as [x|k].
  - cbn in Hp. destruct (evs b !! x) as [ev|] eqn:Hx; [|done]. injection Hp as <-.
    change (evcb_flags (ev_evcallback ev)) with (ev_flags ev) in *. rewrite (ew_init _ (bo_wf _ (bo_items _ Hok) x ev Hx)).
    apply wp_bind, (wp_get_event x ev); [done|]. apply wp_bind. destruct (_ || _) eqn:Hpf.
    + eapply wp_mono; [by apply take_event_ok|]. intros a b' [c' H].
      apply wp_ret. split; [done|by exists c'].
    + apply orb_false_iff in Hpf as [_ Hnf]. apply wp_bind.
      eapply wp_mono; [by apply (del_nolock_ok backend x false ev)|]. intros r b' H. cbn [negb andb] in H. rewrite Hnf in H.
      destruct H as (c' & [Hok' Ht _ [pos Hx'] Hrq] & Hid). do 2 apply wp_ret. split; [done|]. exists c'.
      split; [|cbn; by rewrite Hx'|done|by destruct (idle_flags _ Hid) as (_ & _ & ? & _)|done]. eapply rest_touched; [done|done|exact Ht|..].
      * rewrite Hx'. apply live_pos. eapply live_at_next; [done|done|exact Hrq|].
        eapply item_live_idle; [by apply (lv_events _ Hl x)|exact Hrq|done..].
      * intros _ t. rewrite (idle_pending (evs b') x); [done|]. rewrite Hx'. by intros ? [= <-].
      * by exists ev.
  - rewrite (aw_init _ (bo_alone _ (bo_items _ Hok) k c Hp)). apply wp_bind.
    eapply wp_mono; [by apply remove_active_ok|]. intros _ b' (Hok' & Hm & _). apply wp_ret. split; [done|].
    exists (drop_flag EVLIST_ACTIVE c). assert (Hrq : requeued c (drop_flag EVLIST_ACTIVE c)) by (apply requeued_drop; auto with flags).
    assert (Hre : requeues b b') by (eapply moved_requeues; [exact Hp|exact Hm|exact Hrq|by flags..|done]).
    split; [|by eapply moved_at|done|by flags|done].
    apply keeps_rests; [done|]. apply keeps_requeues; [by apply at_rest_prog|done|done|apply Hm].
Qed.

Lemma finalize_user b x e :
  at_rest b → evs b !! x = Some e → finalize_closure (ev_closure e) → ∃ f, evcb_cb_union (ev_evcallback e) = user_cb f.
Proof.
  intros Hr Hx Hc. destruct (evcb_cb_union (ev_evcallback e)) as [f|] eqn:Hu; [by exists f|].
  assert (Hown : own_event b x e) by (apply closure_own; [done|done|]; destruct Hc as [-> | ->]; done).
  by destruct (proj2 Hown (lv_timers _ (proj1 (proj2 Hr)) x e Hx (or_introl Hu))).
Qed.

(** The last callback of an event that is finalized, which may then be freed. *)
Lemma finalize_closure_ok x e b :
  at_rest b → evs b !! x = Some e → finalize_closure (ev_closure e) → idle (ev_evcallback e) →
  wp (invoke_finalize user (evcb_cb_union (ev_evcallback e)) x (evcb_arg (ev_evcallback e));;
      when (ev_closure e =? EV_CLOSURE_EVENT_FINALIZE_FREE) (mm_free_event x)) b (λ _ b', rests b b').
Proof.
  intros Hr Hx Hc Hid. destruct (finalize_user b x e Hr Hx Hc) as [f ->]. pose proof (at_rest_prog _ Hr) as Hp.
  apply wp_bind. eapply wp_mono; [by apply call_user_ok|]. intros a b1 [Hp1 Hg].
  pose proof (goes_on_rests _ _ Hr Hp1 Hg) as Hr1. apply wp_when; [|by intros _].
  intros Hfree%Z.eqb_eq. assert (Hd : doomed b1 x).
  { apply Hg. exists e. split; [done|]. split; [|done]. apply (il_closure _ _ (lv_events _ (po_live _ Hp) x e Hx)), Hc. }
  pose proof Hd as (e1 & Hx1 & Hf1 & Hc1 & Hid1).
  assert (Hown : own_event b1 x e1) by (apply closure_own; [apply Hr1|done|by rewrite Hc1]).
  eapply wp_mono; [apply (release_ok x b1 e1); [apply Hp1|done|done]|].
  intros a' b2 (Hok2 & Ht & Hx2 & _). eapply rests_trans; [exact Hr1|].
  eapply rest_touched; [apply Hr1|done|exact Ht|by rewrite Hx2|..]; intros Hct; by destruct (proj2 Hown Hct).
Qed.

Lemma call_event_ok x ev b : at_rest b → evs b !! x = Some ev → wp (call_event mm backend fdinfo_len clock user x) b (λ _ b', rests b b').
Proof. intros Hr Hx. apply wp_bind, (wp_get_event x ev); [done|]. by apply (invoke_ok x ev). Qed.

Lemma event_closure_ok x e b :
  at_rest b → current_event (loop b) = Some (of_event x) → evs b !! x = Some e →
  (has EVLIST_FINALIZING (ev_flags e) = true → idle (ev_evcallback e)) →
  wp (event_closure mm backend fdinfo_len clock user (ev_closure e) x) b (λ _ b', rests b b').
Proof.
  intros Hr Hcur Hx Hid. pose proof Hr as [[Hok _ _ _] [Hl _]]. unfold event_closure.
  destruct (Z.eqb_spec (ev_closure e) EV_CLOSURE_EVENT_SIGNAL) as [H1|H1]; [by eapply signal_closure_ok|].
  destruct (Z.eqb_spec (ev_closure e) EV_CLOSURE_EVENT_PERSIST) as [H2|H2].
  { apply wp_bind. eapply wp_mono; [by apply persist_reschedule_ok|]. intros a b1 (Hr1 & [ev1 Hx1] & _).
    eapply wp_mono; [eapply call_event_ok; [apply Hr1|done]|]. intros a' b2 H. by eapply rests_trans. }
  destruct (Z.eqb_spec (ev_closure e) EV_CLOSURE_EVENT) as [H3|H3]; [by eapply call_event_ok|].
  assert (Hc : finalize_closure (ev_closure e)).
  { destruct (ew_closure _ (bo_wf _ (bo_items _ Hok) x e Hx)) as [Hc|Hc]; [|done]. unfold closure_of in Hc.
    destruct (has EV_SIGNAL (ev_events e)); [done|]. by destruct (has EV_PERSIST (ev_events e)). }
  assert (Hf : has EVLIST_FINALIZING (ev_flags e) = true) by by apply (il_closure _ _ (lv_events _ Hl x e Hx)).
  replace ((ev_closure e =? EV_CLOSURE_EVENT_FINALIZE) || (ev_closure e =? EV_CLOSURE_EVENT_FINALIZE_FREE)) with true
    by (by destruct Hc as [-> | ->]).
  apply wp_bind, wp_modify. set (b1 := with_loop _ b). assert (Hr1 : rests b b1) by by apply rest_loop.
  apply wp_bind, (wp_get_event x e); [done|]. apply wp_bind, wp_assert; [done|].
  eapply wp_mono; [apply finalize_closure_ok; [apply Hr1|done|done|by apply Hid]|]. intros a b2 H. by eapply rests_trans.
Qed.

Lemma call_closure_ok p c b :
  at_rest b → current_event (loop b) = Some p → callback_at b p = Some c →
  (∀ x, p = of_event x → has EVLIST_FINALIZING (evcb_flags c) = true → idle c) →
  wp (call_closure mm backend fdinfo_len clock user p (owner p)) b (λ _ b', rests b b').
Proof.
  intros Hr Hcur Hp Hid. pose proof Hr as [[Hok _ _ _] [Hl _]]. unfold call_closure.
  apply wp_bind, (wp_get_cb p c); [done|]. cbv zeta. destruct p as [x|k]; cbn [owner].
  - cbn in Hp. destruct (evs b !! x) as [e|] eqn:Hx; [|done]. injection Hp as <-.
    pose proof (bo_wf _ (bo_items _ Hok) x e Hx) as Hwf. change (evcb_closure (ev_evcallback e)) with (ev_closure e).
    assert (Hne : ev_closure e ≠ EV_CLOSURE_CB_SELF ∧ ev_closure e ≠ EV_CLOSURE_CB_FINALIZE).
    { destruct (ew_closure _ Hwf) as [-> |[-> | ->]]; [|done..]. unfold closure_of.
      destruct (has EV_SIGNAL (ev_events e)); [done|]. by destruct (has EV_PERSIST (ev_events e)). }
    destruct Hne as [N1%Z.eqb_neq N2%Z.eqb_neq]. rewrite N1, N2. apply event_closure_ok; [done..|by apply (Hid x)].
  - cbn in Hp. destruct (bo_alone _ (bo_items _ Hok) k c Hp) as [_ Hc Hu]. pose proof (at_rest_prog _ Hr) as Hprog.
    destruct Hc as [Hc|Hc]; rewrite Hc.
    + change (EV_CLOSURE_CB_SELF =? EV_CLOSURE_CB_SELF) with true. cbv iota.
      eapply wp_mono; [by apply invoke_self_ok|]. intros a b' [Hp' Hg]. by apply goes_on_rests.
    + change (EV_CLOSURE_CB_FINALIZE =? EV_CLOSURE_CB_SELF) with false.
      change (EV_CLOSURE_CB_FINALIZE =? EV_CLOSURE_CB_FINALIZE) with true. cbv iota.
      apply wp_bind, wp_modify. set (b1 := with_loop _ b). assert (Hr1 : rests b b1) by by apply rest_loop.
      apply wp_bind, wp_assert; [by apply (lv_alone _ Hl k c)|].
      eapply wp_mono; [apply invoke_self_ok; [apply at_rest_prog, Hr1|done]|]. intros a b' [Hp' Hg].
      eapply rests_trans; [exact Hr1|]. apply goes_on_rests; [apply Hr1|done|done].
Qed.

Lemma active_event b x c : callback_at b (of_event x) = Some c → active_at b x ↔ has EVLIST_ACTIVE (evcb_flags c) = true.
Proof.
  cbn. destruct (evs b !! x) as [e|] eqn:Hx; [|done]. intros [= <-]. unfold active_at. rewrite Hx.
  split; [intros (e' & [= <-] & Ha); exact Ha|by exists e].
Qed.

(** A callback that is not counted is that of the timer of a common queue. *)
Lemma internal_timer p c b :
  at_rest b → callback_at b p = Some c → has EVLIST_INTERNAL (evcb_flags c) = true →
  ∃ x, p = of_event x ∧ ctl_timer b x.
Proof.
  intros [[Hok _ _ _] [Hl _]] Hp Hi. destruct p as [x|k]; cbn in Hp.
  - destruct (evs b !! x) as [e|] eqn:Hx; [|done]. injection Hp as <-. exists x. split; [done|].
    apply (lv_timers _ Hl x e Hx). by right.
  - destruct (bo_alone _ (bo_items _ Hok) k c Hp). congruence.
Qed.

Lemma process_one_ok p c count b :
  at_rest b → callback_at b p = Some c → has EVLIST_ACTIVE (evcb_flags c) = true →
  wp (process_one mm backend fdinfo_len clock user p count) b (λ r b', rests b b' ∧
    if has EVLIST_INTERNAL (evcb_flags c)
    then r = count ∧ ∃ x, ctl_timer b x ∧ active_at b x ∧ ¬ (ctl_timer b' x ∧ active_at b' x)
    else r = count + 1).
Proof.
  intros Hr Hp Ha. unfold process_one. apply wp_bind. eapply wp_mono; [by apply take_active_ok|].
  intros o b1 [-> [c1 [Hr1 Hp1 Hrq Hoff Hid]]]. apply wp_bind, (wp_get_cb p c1); [done|].
  apply wp_bind, wp_modify. set (b2 := with_loop _ b1). assert (Hr2 : rests b1 b2) by (apply rest_loop, Hr1).
  assert (Hp2 : callback_at b2 p = Some c1) by (by destruct p).
  assert (HF : has EVLIST_FINALIZING (evcb_flags c1) = has EVLIST_FINALIZING (evcb_flags c) ∧
    has EVLIST_INTERNAL (evcb_flags c1) = has EVLIST_INTERNAL (evcb_flags c)) by (by destruct Hrq as (_ & _ & ? & ? & _)).
  destruct HF as [HF HI]. apply wp_bind. eapply wp_mono; [apply (call_closure_ok p c1 b2); [apply Hr2|done|done|]|].
  { intros x Hx. rewrite HF. by apply (Hid x). }
  intros a b3 Hr3. apply wp_bind, wp_modify, wp_ret. rewrite HI. set (b4 := with_loop _ b3).
  assert (Hr14 : rests b1 b4) by (eapply rests_trans; [exact Hr2|]; eapply rests_trans; [exact Hr3|]; apply rest_loop, Hr3).
  split; [exact (rests_trans _ _ _ Hr1 Hr14)|]. destruct (has EVLIST_INTERNAL (evcb_flags c)) eqn:Hint; [|done]. split; [done|].
  destruct (internal_timer p c b Hr Hp Hint) as (x & -> & Hct). exists x. split; [done|].
  split; [by apply (active_event b x c)|]. intros [Hct4 Ha4]. destruct (rs_quiet _ _ Hr14 x Hct4 Ha4) as [_ Ha1].
  apply (active_event b1 x c1 Hp1) in Ha1. congruence.
Qed.
(** ** The queues *)

Lemma rest_gettime b (Q : timeval → event_base → Prop) :
  at_rest b → (∀ now b', tv_normal now → rests b b' → Q now b') → wp (gettime clock) b Q.
Proof.
  intros Hr HQ. apply gettime_ok; [done|apply Hr|]. intros now t Hn Hc' _ _. apply HQ; [done|]. by apply rest_time.
Qed.

Lemma clear_cache_ok b : at_rest b → wp clear_time_cache b (λ _ b', rests b b').
Proof. intros Hr. apply wp_modify. by apply rest_time. Qed.

Lemma update_cache_ok nc b : at_rest b → wp (update_time_cache clock nc) b (λ _ b', rests b b').
Proof.
  intros Hr. unfold update_time_cache. apply wp_bind. eapply wp_mono; [by apply clear_cache_ok|].
  intros a b1 Hr1. apply wp_when; intros _; [|done]. apply wp_bind, rest_gettime; [apply Hr1|].
  intros now b2 Hn Hr2. apply wp_modify. eapply rests_trans; [exact Hr1|]. eapply rests_trans; [exact Hr2|].
  apply rest_time; [apply Hr2|done].
Qed.

Lemma past_end_ok cfg endtime count b :
  at_rest b → wp (past_end clock cfg endtime count) b (λ late b', rests b b' ∧ (late = true → is_Some endtime)).
Proof.
  intros Hr. unfold past_end. pose proof (rests_refl _ Hr) as Hr0. destruct endtime as [t|]; [|by apply wp_ret].
  destruct (count =? 0); [by apply wp_ret|].
  apply wp_bind. eapply wp_mono; [by apply update_cache_ok|]. intros a b1 Hr1.
  apply wp_bind, rest_gettime; [apply Hr1|]. intros now b2 _ Hr2. apply wp_ret. split; [exact (rests_trans _ _ _ Hr1 Hr2)|by eexists].
Qed.

Lemma queue_exists b i : 0 <= i < nactivequeues b → ∃ q, queue_at b i = Some q ∧ activequeues b !! Z.to_nat i = Some q.
Proof.
  intros Hi. destruct (lookup_lt_is_Some_2 (activequeues b) (Z.to_nat i)) as [q Hq]; [unfold nactivequeues in Hi; lia|].
  exists q. split; [|done]. unfold queue_at. by rewrite (proj2 (Z.ltb_ge i 0)) by lia.
Qed.

(** What is on a queue is active. *)
Lemma queue_head b i q p :
  base_ok b → activequeues b !! i = Some q → p ∈ q →
  ∃ c, callback_at b p = Some c ∧ has EVLIST_ACTIVE (evcb_flags c) = true ∧ evcb_pri c = Z.of_nat i.
Proof.
  intros Hok Hq Hin. apply (qo_active _ _ _ (bo_queues _ Hok) _ _ Hq) in Hin.
  destruct (callback_at b p) as [c|]; [|done]. cbn in Hin. unfold where_ in Hin. injection Hin as Ha _ Hpri. eauto.
Qed.

(** The timers of the common queues that wait to be called. *)
Definition active_timers (b : event_base) : list nat :=
  filter (λ y, from_option (λ e, has EVLIST_ACTIVE (ev_flags e)) false (evs b !! y) = true)
    (map timeout_event (common_timeout_queues b)).
Definition covers (l : list nat) (b : event_base) : Prop := ∀ y, ctl_timer b y → active_at b y → y ∈ l.

Lemma covers_active b : covers (active_timers b) b.
Proof.
  intros y (ctl & Hin & <-) (e & He & Ha). apply list_elem_of_filter. rewrite He. split; [done|]. by apply list_elem_of_fmap_2.
Qed.

Lemma active_timers_bound b : base_ok b → (length (active_timers b) <= Z.to_nat MAX_COMMON_TIMEOUTS)%nat.
Proof.
  intros Hok. destruct (bo_heap _ Hok) as (hs & _ & Hlo). pose proof (lo_max _ _ _ Hlo) as Hm.
  unfold active_timers. etrans; [apply length_filter|]. rewrite length_map. lia.
Qed.

Lemma covers_quiet l b b' : quiet b b' → covers l b → covers l b'.
Proof. intros Hq Hl y H1 H2. destruct (Hq y H1 H2). by apply Hl. Qed.

Lemma covers_less l b b' x :
  quiet b b' → covers l b → ctl_timer b x → active_at b x → ¬ (ctl_timer b' x ∧ active_at b' x) →
  covers (filter (λ y, y ≠ x) l) b' ∧ (length (filter (λ y, y ≠ x) l) < length l)%nat.
Proof.
  intros Hq Hl Hct Ha Hx. split.
  - intros y H1 H2. apply list_elem_of_filter. split; [intros ->; by apply Hx|by apply (covers_quiet l b b')].
  - pose proof (Hl x Hct Ha) as Hin. apply (length_filter_lt _ l x); [done|by intros []].
Qed.

(** How a pass over a queue ends. *)
Definition pass_ended (i mx : Z) (endtime : option timeval) (count : Z) (r : progress Z) (b' : event_base) : Prop :=
  ∃ c, r = finished c ∧
    (c = -1 ∧ event_break (loop b') = true ∨
     count <= c <= Z.max mx (count + 1) ∧
       (queue_at b' i = Some [] ∨ mx <= c ∨ event_continue (loop b') = true ∨ is_Some endtime)).

Lemma pass_ended_at i mx endtime count c b :
  count <= c <= Z.max mx (count + 1) →
  queue_at b i = Some [] ∨ mx <= c ∨ event_continue (loop b) = true ∨ is_Some endtime →
  pass_ended i mx endtime count (finished c) b.
Proof. intros H1 H2. exists c. split; [done|]. by right. Qed.

Lemma pass_ended_next i mx endtime count count' r b :
  count' = count ∨ count' = count + 1 → count' < mx → pass_ended i mx endtime count' r b → pass_ended i mx endtime count r b.
Proof. intros H Hm (c & -> & Hc). exists c. split; [done|]. destruct Hc as [?|[? ?]]; [by left|right]. split; [lia|done]. Qed.

(** The counts go up, or one timer less is waiting. *)
Definition rounds_left (mx count : Z) (l : list nat) (fuel : nat) : Prop := (Z.to_nat (mx - count) + length l < fuel)%nat.

Lemma round_done p c count b r b' l mx fuel :
  rests b b' → (if has EVLIST_INTERNAL (evcb_flags c)
    then r = count ∧ ∃ x, ctl_timer b x ∧ active_at b x ∧ ¬ (ctl_timer b' x ∧ active_at b' x)
    else r = count + 1) → callback_at b p = Some c →
  covers l b → rounds_left mx count l (S fuel) →
  (r = count ∨ r = count + 1) ∧ (r < mx → ∃ l', covers l' b' ∧ rounds_left mx r l' fuel).
Proof.
  unfold rounds_left. intros Hr H _ Hl Hf. destruct (has EVLIST_INTERNAL (evcb_flags c)).
  - destruct H as [-> (x & Hct & Ha & Hx)]. split; [by left|]. intros _.
    destruct (covers_less l b b' x (rs_quiet _ _ Hr) Hl Hct Ha Hx) as [Hl' Hlen]. eexists. split; [exact Hl'|]. lia.
  - subst r. split; [by right|]. intros Hm. exists l. split; [by eapply covers_quiet, Hl; apply Hr|]. lia.
Qed.

Lemma single_queue_loop_ok cfg fuel i mx endtime count b :
  at_rest b → 0 <= i < nactivequeues b →
  wp (single_queue_loop mm backend fdinfo_len clock user cfg fuel i mx endtime count) b (λ r b', rests b b' ∧
    ∀ l, covers l b → rounds_left mx count l fuel → pass_ended i mx endtime count r b').
Proof.
  revert count b. induction fuel as [|fuel IH]; intros count b Hr Hi; cbn [single_queue_loop].
  { apply wp_ret. split; [by apply rests_refl|]. unfold rounds_left. lia. }
  destruct (queue_exists b i Hi) as (q & Hq & Hqi). apply wp_bind, (wp_lift _ _ q); [done|].
  destruct q as [|p q].
  { apply wp_ret. split; [by apply rests_refl|]. intros l _ _. apply pass_ended_at; [lia|by left]. }
  destruct (queue_head b _ _ p (api_base _ (proj1 Hr)) Hqi) as (c & Hp & Ha & _); [by left|].
  apply wp_bind. eapply wp_mono; [by apply (process_one_ok p c)|]. intros count' b1 [Hr1 Hcount].
  assert (Hdone : ∀ l, covers l b → rounds_left mx count l (S fuel) → (count' = count ∨ count' = count + 1) ∧
    (count' < mx → ∃ l', covers l' b1 ∧ rounds_left mx count' l' fuel)) by (intros l; by apply (round_done p c)).
  apply wp_bind, wp_gets. destruct (event_break (loop b1)) eqn:Hbrk.
  { apply wp_ret. split; [done|]. intros l _ _. exists (-1). split; [done|]. by left. }
  destruct (Z.leb_spec mx count') as [Hmx|Hmx].
  { apply wp_ret. split; [done|]. intros l H1 H2. destruct (Hdone l H1 H2) as [Hc _]. apply pass_ended_at; [lia|by right; left]. }
  assert (Hfin : ∀ b2, rests b b2 → event_continue (loop b2) = true ∨ is_Some endtime →
    wp (mret (finished count')) b2 (λ r b', rests b b' ∧
      ∀ l, covers l b → rounds_left mx count l (S fuel) → pass_ended i mx endtime count r b')).
  { intros b2 Hr2 Hc2. apply wp_ret. split; [done|]. intros l H1 H2. destruct (Hdone l H1 H2) as [Hc _].
    apply pass_ended_at; [lia|by right; right]. }
  apply wp_bind. eapply wp_mono; [apply past_end_ok, Hr1|].
  intros late b2 [Hr2 Hlate]. pose proof (rests_trans _ _ _ Hr1 Hr2) as Hr12.
  destruct late; [apply Hfin; [done|by right; apply Hlate]|]. apply wp_bind, wp_gets.
  destruct (event_continue (loop b2)) eqn:Hcont; [by apply Hfin; [|left]|].
  eapply wp_mono; [apply IH; [apply Hr12|by rewrite (rs_queues _ _ Hr12)]|]. intros r b3 [Hr3 Hend].
  split; [exact (rests_trans _ _ _ Hr12 Hr3)|]. intros l H1 H2. destruct (Hdone l H1 H2) as [Hc Hl'].
  destruct (Hl' Hmx) as (l' & Hcov & Hleft). eapply pass_ended_next; [done|done|].
  apply (Hend l'); [|done]. eapply covers_quiet; [apply Hr2|done].
Qed.

(** Enough for a pass over any queue. *)
Definition enough_fuel (cfg : dispatch_config) (l : list nat) (fuel : nat) : Prop :=
  rounds_left INT_MAX 0 l fuel ∧ rounds_left (max_dispatch_callbacks cfg) 0 l fuel.

Lemma process_queues_ok cfg fuel n i endtime c b :
  at_rest b → 0 <= i → i + Z.of_nat n = nactivequeues b →
  wp (process_queues mm backend fdinfo_len clock user cfg fuel n i endtime c) b (λ r b', rests b b' ∧
    ∀ l, covers l b → enough_fuel cfg l fuel → ∃ c', r = finished c').
Proof.
  revert i c b. induction n as [|n IH]; intros i c b Hr Hi Hn; cbn [process_queues].
  { apply wp_ret. split; [by apply rests_refl|]. intros l _ _. by exists c. }
  destruct (queue_exists b i) as (q & Hq & _); [lia|]. apply wp_bind, (wp_lift _ _ q); [done|].
  destruct q as [|p q]; [apply IH; [done|lia|lia]|]. apply wp_bind, wp_modify. set (b1 := with_loop _ b).
  assert (Hr1 : rests b b1) by by apply rest_loop. apply wp_bind.
  assert (Hw : ∀ mx e, wp (event_process_active_single_queue mm backend fdinfo_len clock user cfg fuel i mx e) b1
    (λ r b', rests b b' ∧ ∀ l, covers l b → rounds_left mx 0 l fuel → ∃ c', r = finished c')).
  { intros mx e. eapply wp_mono; [apply single_queue_loop_ok; [apply Hr1|rewrite (rs_queues _ _ Hr1); lia]|].
    intros r b2 [Hr2 Hend]. split; [exact (rests_trans _ _ _ Hr1 Hr2)|]. intros l Hl Hf.
    destruct (Hend l) as (c' & -> & _); [by eapply covers_quiet, Hl; apply Hr1|done|by exists c']. }
  assert (Hnext : ∀ r b2, rests b b2 → ∀ P : list nat → Prop, (∀ l, covers l b → P l → ∃ c', r = finished c') →
    (∀ l, enough_fuel cfg l fuel → P l) → wp (match r with
      | finished c => if (c <? 0) || (0 <? c) then mret (finished c)
          else process_queues mm backend fdinfo_len clock user cfg fuel n (i + 1) endtime c
      | running => mret running end) b2 (λ r b', rests b b' ∧
      ∀ l, covers l b → enough_fuel cfg l fuel → ∃ c', r = finished c')).
  { intros r b2 Hr2 P HP HPl. destruct r as [c'|].
    2:{ apply wp_ret. split; [done|]. intros l Hl Hf. by apply (HP l Hl), HPl. }
    destruct (_ || _); [apply wp_ret; split; [done|]; intros l _ _; by exists c'|].
    eapply wp_mono; [apply IH; [apply Hr2|lia|rewrite (rs_queues _ _ Hr2); lia]|]. intros r b3 [Hr3 Hend].
    split; [exact (rests_trans _ _ _ Hr2 Hr3)|]. intros l Hl. apply Hend. by eapply covers_quiet, Hl; apply Hr2. }
  destruct (i <? limit_callbacks_after_prio cfg); (eapply wp_mono; [apply Hw|]); intros r b2 [Hr2 Hend];
    (eapply Hnext; [done|exact Hend|]); by intros l [].
Qed.

Lemma process_active_ok cfg fuel b :
  at_rest b → wp (event_process_active mm backend fdinfo_len clock user cfg fuel) b (λ r b', rests b b' ∧
    ∀ l, covers l b → enough_fuel cfg l fuel → ∃ c, r = finished c).
Proof.
  intros Hr. unfold event_process_active. apply wp_bind.
  assert (He : wp (dispatch_end clock cfg) b (λ _ b', rests b b')).
  { unfold dispatch_end. destruct (_ <=? _); [|by apply wp_ret, rests_refl]. apply wp_bind.
    eapply wp_mono; [by apply update_cache_ok|]. intros a b1 Hr1. apply wp_bind, rest_gettime; [apply Hr1|].
    intros now b2 _ Hr2. apply wp_ret. exact (rests_trans _ _ _ Hr1 Hr2). }
  eapply wp_mono; [exact He|]. intros endtime b1 Hr1. apply wp_bind, wp_gets, wp_bind.
  eapply wp_mono; [apply process_queues_ok; [apply Hr1|done|unfold nactivequeues; lia]|].
  intros r b2 [Hr2 Hend]. pose proof (rests_trans _ _ _ Hr1 Hr2) as Hr12.
  assert (Hend' : ∀ l, covers l b → enough_fuel cfg l fuel → ∃ c, r = finished c).
  { intros l Hl. apply Hend. by eapply covers_quiet, Hl; apply Hr1. }
  destruct r as [c|]; [|by apply wp_ret].
  apply wp_bind, wp_modify, wp_ret. split; [eapply rests_trans; [exact Hr12|]; apply rest_loop, Hr12|].
  intros l _ _. by exists c.
Qed.
End process_ok.

(** ** The properties *)

(** C16. event_persist_closure adds a persistent event with a timeout again before it calls the
    callback: unless event_add refuses, because a request for memory or the call of the backend has been
    refused or 65535 events wait for the same condition of its descriptor, and leaves the event as it
    was, the event is pending, in the
    heap or in its common queue, for one interval after the deadline it was called for (after the
    current time, if it was called for another reason), and for one interval after the current time
    when that point has passed already. *)
Theorem persist_deadline mm backend fdinfo_len clock b x ev io :
  clock_ok clock → at_rest b → evs b !! x = Some ev → ev_closure ev = EV_CLOSURE_EVENT_PERSIST →
  ev_io_timeout ev = Some io → io ≠ Timeval 0 0 →
  ∃ b' now, persist_reschedule mm backend fdinfo_len clock x b = Some (tt, b') ∧ at_rest b' ∧
    tv_normal now ∧ (tv_sec (tv_cache (time b)) ≠ 0 → now = tv_cache (time b)) ∧
    (core <$> evs b' !! x = core <$> evs b !! x ∧ refuses mm b b' ev ∨
     ∃ ev', evs b' !! x = Some ev' ∧ event_pending b' x EV_TIMEOUT = Some EV_TIMEOUT ∧
       queued_timer b' x (ev_timeout ev') ∧
       tv_micros (real_timeout (ev_timeout ev')) =
         (let d := tv_micros (real_timeout io) in
          let last := tv_micros (real_timeout (ev_timeout ev)) in
          if has EV_TIMEOUT (ev_res ev) && (tv_micros now <=? last + d) then last + d
          else tv_micros now + d)).
Proof.
  intros Hc Hr Hx Hcl Hio Hz.
  destruct (persist_reschedule_ok mm backend fdinfo_len clock Hc x ev b Hr Hx Hcl) as ([] & b' & E & [Hr' _ _] & _ & io' & Hio' & H).
  rewrite Hio in Hio'. injection Hio' as <-. rewrite decide_False in H by done. destruct H as (now & Hn & Hfresh & H).
  exists b', now. split; [done|]. split; [done|]. split; [done|]. split; [done|].
  destruct H as [?|(ev' & Hx' & Ht & _ & Hk & Hm)]; [by left|right]. pose proof (api_base _ (proj1 Hr')) as Hok'.
  exists ev'. split; [done|]. split; [eapply pending_timeout; [done|by apply (bo_wf _ (bo_items _ Hok') x)|done]|].
  split; [apply pending_queued; [done|by rewrite (pending_is _ _ _ _ Hx' Ht)]|]. rewrite Hm. unfold next_micros. cbv zeta.
  assert (Hd : 0 <= tv_usec (real_timeout io) ) by (destruct Hk as [[H _]|(i & _ & [_ H] & _)]; [rewrite real_normal by done|]; apply H).
  destruct (has EV_TIMEOUT (ev_res ev)); cbn [andb].
  - rewrite Z.leb_antisym. by destruct (_ <? _).
  - destruct (Z.ltb_spec (tv_micros now + tv_micros (real_timeout io)) (tv_micros now)); done.
Qed.

Lemma demo_rest : at_rest demo_base.
Proof.
  unfold demo_base.
  destruct (api_run_ok grants accepts 0 ticking ticking_ok demo event_base_new) as (l & b & -> & [Hb Hh] & _);
    [split; [apply api_new|apply live_new]|apply check_obeys_spec; vm_compute; reflexivity|].
  apply at_rest_intro; [done|]. by rewrite (hd_frame _ _ Hh).
Qed.

Lemma persist_deadline_witness :
  ∃ ev io, evs demo_base !! 1%nat = Some ev ∧ ev_io_timeout ev = Some io ∧ real_timeout io = Timeval 5 0 ∧
  ∃ b' now ev', persist_reschedule grants accepts 0 ticking 1 demo_base = Some (tt, b') ∧ evs b' !! 1%nat = Some ev' ∧
    tv_micros (real_timeout (ev_timeout ev')) = tv_micros now + 5000000.
Proof.
  assert (Hev : match evs demo_base !! 1%nat with
    | Some ev => (ev_closure ev =? EV_CLOSURE_EVENT_PERSIST) && negb (has EV_TIMEOUT (ev_res ev)) &&
        match ev_io_timeout ev with Some io => bool_decide (real_timeout io = Timeval 5 0) | None => false end
    | None => false end = true) by (vm_compute; reflexivity).
  destruct (evs demo_base !! 1%nat) as [ev|] eqn:Hx; [|discriminate Hev].
  apply andb_true_iff in Hev as [[Hcl%Z.eqb_eq Hres%negb_true_iff]%andb_true_iff Hio].
  destruct (ev_io_timeout ev) as [io|] eqn:Hu; [|discriminate Hio]. apply bool_decide_eq_true in Hio.
  assert (Hz : io ≠ Timeval 0 0) by (intros ->; discriminate Hio).
  destruct (persist_deadline grants accepts 0 ticking demo_base 1 ev io ticking_ok demo_rest Hx Hcl Hu Hz)
    as (b' & now & E & _ & _ & _ & H).
  exists ev, io. split; [reflexivity|]. split; [exact Hu|]. split; [exact Hio|]. exists b', now.
  destruct H as [[H _]|(ev' & Hx' & _ & _ & Hm)].
  - exfalso. assert (Hd : match persist_reschedule grants accepts 0 ticking 1 demo_base with
      | Some (_, b') => negb (from_option (λ e, tv_sec (ev_timeout e)) 0 (evs b' !! 1%nat) =?
          from_option (λ e, tv_sec (ev_timeout e)) 0 (evs demo_base !! 1%nat)) | None => false end = true)
      by (vm_compute; reflexivity).
    rewrite E in Hd. apply negb_true_iff, Z.eqb_neq in Hd. rewrite Hx in Hd, H.
    destruct (evs b' !! 1%nat) as [e|]; [|discriminate H]. apply (inj Some), core_eq in H. rewrite H in Hd. exact (Hd eq_refl).
  - exists ev'. split; [exact E|]. split; [exact Hx'|]. rewrite Hm, Hres, Hio. reflexivity.
Defined.
