(* ===== verification/EventLoop.v ===== *)
(** * The loop

    Models event_base_loop of libevent/event.c: it waits for descriptors, signals and timers and
    calls the callbacks, until nothing is left or it is told to stop.

    The waiting itself is a parameter: for every round and the time the backend may wait it says what
    became ready, or that it failed.  The loop may run for ever, so it has fuel, for the rounds and
    for the callbacks of a queue. *)

From S2P Require Import Prelude Timeval Event MinHeap EvMap EventBase EventBaseOk EventApi EventCheck EventCalls EventLive EventSystem EventTimeout EventDispatch EventProcess.

(** What evsel->dispatch reports, by evmap_io_active_ and evmap_signal_active_. *)
Inductive ready := io_ready (fd events : Z) | signal_ready (sig ncalls : Z).

Definition EVLOOP_ONCE : Z := 0x01.
Definition EVLOOP_NONBLOCK : Z := 0x02.
Definition EVLOOP_NO_EXIT_ON_EMPTY : Z := 0x04.

Section loop.
Context (mm : nat → Z → bool) (backend : history → backend_call → bool) (fdinfo_len : Z)
  (clock : nat → timeval) (dispatch : nat → option timeval → option (list ready)) (user : nat → invocation → EM unit).

Fixpoint report (l : list ready) : EM unit :=
  match l with
  | [] => mret tt
  | io_ready fd events :: l => evmap_io_active_ fd events;; report l
  | signal_ready sig ncalls :: l => evmap_signal_active_ sig ncalls;; report l
  end.

(** [event_continue = n_deferreds_queued = 0] *)
Definition start_round : EM unit := modify (λ b, let l := loop b in
  with_loop (Loop_state (event_gotterm l) (event_break l) false (event_running_priority l) (running_loop l) 0
    (current_event l)) b).
Definition set_running_loop (r : bool) : EM unit := modify (λ b, let l := loop b in
  with_loop (Loop_state (event_gotterm l) (event_break l) (event_continue l) (event_running_priority l) r
    (n_deferreds_queued l) (current_event l)) b).
(** [event_gotterm = event_break = 0] *)
Definition clear_stop : EM unit := modify (λ b, let l := loop b in
  with_loop (Loop_state false false (event_continue l) (event_running_priority l) (running_loop l)
    (n_deferreds_queued l) (current_event l)) b).

(** How long to wait: [None] for as long as it takes. *)
Definition wait_time (flags : Z) : EM (option timeval) :=
  n ← gets N_ACTIVE_CALLBACKS;
  if (n =? 0) && negb (has EVLOOP_NONBLOCK flags) then timeout_next clock else mret (Some evutil_timerclear).

(** The end of a round, after dispatch: [Some r], the loop ends with [r]. *)
Definition end_round (cfg : dispatch_config) (fuel : nat) (flags : Z) : EM (progress (option Z)) :=
  update_time_cache clock (no_cache cfg);;
  timeout_process backend clock;;
  n ← gets N_ACTIVE_CALLBACKS;
  if negb (n =? 0) then
    r ← event_process_active mm backend fdinfo_len clock user cfg fuel;
    match r with
    | running => mret running
    | finished n =>
        left ← gets N_ACTIVE_CALLBACKS;
        mret (finished (if has EVLOOP_ONCE flags && (left =? 0) && negb (n =? 0) then Some 0 else None))
    end
  else mret (finished (if has EVLOOP_NONBLOCK flags then Some 0 else None)).

(** Round [k]; [rounds] more. *)
Fixpoint loop_rounds (cfg : dispatch_config) (fuel rounds k : nat) (flags : Z) : EM (progress Z) :=
  match rounds with
  | O => mret running
  | S rounds =>
      start_round;;
      stop ← gets (λ b, event_gotterm (loop b) || event_break (loop b));
      if stop : bool then mret (finished 0)
      else
        tv ← wait_time flags;
        empty ← gets (λ b, negb (event_haveevents b) && (N_ACTIVE_CALLBACKS b =? 0));
        if negb (has EVLOOP_NO_EXIT_ON_EMPTY flags) && (empty : bool) then mret (finished 1)
        else
          event_queue_make_later_events_active;;
          clear_time_cache;;
          match dispatch k tv with
          | None => mret (finished (-1))
          | Some l =>
              report l;;
              r ← end_round cfg fuel flags;
              match r with
              | running => mret running
              | finished (Some r) => mret (finished r)
              | finished None => loop_rounds cfg fuel rounds (S k) flags
              end
          end
  end.

Definition event_base_loop (cfg : dispatch_config) (fuel rounds : nat) (flags : Z) : EM (progress Z) :=
  already ← gets (λ b, running_loop (loop b));
  if already : bool then mret (finished (-1))
  else
    set_running_loop true;;
    clear_time_cache;;
    clear_stop;;
    r ← loop_rounds cfg fuel rounds 0 flags;
    match r with
    | running => mret running
    | finished r => clear_time_cache;; set_running_loop false;; mret (finished r)
    end.
End loop.

(** ** The program *)

(** Which calls of the interface the k-th callback makes.  A call that is not [allowed] is left out:
    one that the documentation forbids, one of those that the code does not survive, or a call that
    adds, deletes, assigns, finalizes or frees the event of a signal while more calls of its callback
    are due. *)
Definition program := nat → invocation → list api_call.

Section program.
Context (mm : nat → Z → bool) (backend : history → backend_call → bool) (fdinfo_len : Z) (clock : nat → timeval).

Fixpoint acts (l : list api_call) : EM unit :=
  match l with
  | [] => mret tt
  | c :: l =>
      ok ← gets (λ b, is_allowed b c);
      when ok (api_step mm backend fdinfo_len clock c;; mret tt);;
      acts l
  end.

Definition runs (prog : program) : nat → invocation → EM unit := λ k i, acts (prog k i).

Lemma acts_ok l b : clock_ok clock → prog_ok b → wp (acts l) b (λ _ b', keeps b b').
Proof.
  intros Hc. revert b. induction l as [|c l IH]; intros b Hp; cbn [acts]; [by apply wp_ret, keeps_refl|].
  apply wp_bind, wp_gets, wp_bind, wp_when; intros Ha; [|by apply IH].
  apply wp_bind. eapply wp_mono; [apply api_step_ok; [done|done|by apply is_allowed_spec]|].
  intros a b1 [Hp1 Hh1]. apply wp_ret. eapply wp_mono; [by apply IH|]. intros a' b2 [Hp2 Hh2].
  split; [done|by eapply held_trans].
Qed.
End program.

(** ** The loop keeps the invariant *)

Section loop_ok.
Context (mm : nat → Z → bool) (backend : history → backend_call → bool) (fdinfo_len : Z)
  (clock : nat → timeval) (dispatch : nat → option timeval → option (list ready)) (user : nat → invocation → EM unit).
Hypothesis clock_good : clock_ok clock.
Hypothesis user_ok : ∀ k i b, prog_ok b → wp (user k i) b (λ _ b', keeps b b').

Lemma report_ok l b : at_rest b → wp (report l) b (λ _ b', rests b b').
Proof.
  revert b. induction l as [|r l IH]; intros b Hr; cbn [report]; [by apply wp_ret, rests_refl|].
  assert (H : ∀ m : EM unit, wp m b (λ _ b', keeps b b' ∧ True) → wp (m;; report l) b (λ _ b', rests b b')).
  { intros m Hm. apply wp_bind. eapply wp_mono; [exact Hm|]. intros a b1 [Hk _]. pose proof (keeps_rests _ _ Hr Hk) as Hr1.
    eapply wp_mono; [apply IH, Hr1|]. intros a' b2 Hr2. exact (rests_trans _ _ _ Hr1 Hr2). }
  destruct r; apply H; (eapply wp_mono; [first [by apply io_active_list, at_rest_prog|by apply signal_active_list, at_rest_prog]|]);
    by intros a b' [? _].
Qed.

Lemma rest_timers_live b : at_rest b → timers_live b.
Proof.
  intros [_ [Hl _]] y e He Ht. destruct (has EVLIST_FINALIZING (ev_flags e)) eqn:Hf; [|done].
  destruct (il_off _ _ (lv_events _ Hl y e He) Hf). congruence.
Qed.

Lemma rest_requeues b b' : at_rest b → base_ok b' → requeues b b' → at_rest b'.
Proof.
  intros [Hapi [Hl Hf]] Hok' Hr. split; [by eapply api_requeues|]. split; [by eapply live_requeues|].
  by rewrite (rq_frame _ _ Hr).
Qed.

Lemma wait_time_ok flags b : at_rest b → wp (wait_time clock flags) b (λ _ b', rests b b').
Proof.
  intros Hr. unfold wait_time. apply wp_bind, wp_gets. destruct (_ && _); [|by apply wp_ret, rests_refl].
  eapply wp_mono; [by apply timeout_next_ok; [|apply Hr]|]. intros tv b' [(t & Et & ->) _]. apply rest_time; [done|].
  rewrite Et. apply Hr.
Qed.

(** Why the loop has ended with [r]. *)
Definition ended (flags r : Z) (b : event_base) : Prop :=
  r = 1 ∧ has EVLOOP_NO_EXIT_ON_EMPTY flags = false ∧ event_haveevents b = false ∧ N_ACTIVE_CALLBACKS b = 0 ∨
  r = 0 ∧ (event_base_got_exit b = true ∨ event_base_got_break b = true ∨
    (has EVLOOP_ONCE flags = true ∨ has EVLOOP_NONBLOCK flags = true) ∧ N_ACTIVE_CALLBACKS b = 0) ∨
  r = -1 ∧ ∃ k tv, dispatch k tv = None.

Lemma end_round_ok cfg fuel flags b :
  at_rest b → wp (end_round mm backend fdinfo_len clock user cfg fuel flags) b (λ r b', at_rest b' ∧
    match r with finished (Some r) => ended flags r b' | _ => True end).
Proof.
  intros Hr. unfold end_round. apply wp_bind. eapply wp_mono; [by apply update_cache_ok|]. intros a b1 [Hr1 _ _].
  apply wp_bind. eapply wp_mono; [by apply timeout_process_ok; [|apply Hr1|apply rest_timers_live]|].
  intros a' b2 (Hapi2 & _ & Hse & _). assert (Hr2 : at_rest b2) by (split; [done|apply Hse, Hr1]).
  apply wp_bind, wp_gets. destruct (Z.eqb_spec (N_ACTIVE_CALLBACKS b2) 0) as [Hz|Hz]; cbn [negb].
  { apply wp_ret. split; [done|]. destruct (has EVLOOP_NONBLOCK flags) eqn:Hf; [|done]. right. left. split; [done|]. right. right. auto. }
  apply wp_bind. eapply wp_mono; [by apply process_active_ok|]. intros r b3 [[Hr3 _ _] _].
  destruct r as [n|]; [apply wp_bind, wp_gets|]; apply wp_ret; (split; [done|]); [|done].
  destruct (has EVLOOP_ONCE flags) eqn:Hf, (Z.eqb_spec (N_ACTIVE_CALLBACKS b3) 0), (n =? 0); try done. right. left. split; [done|]. right. right. auto.
Qed.

Lemma loop_rounds_ok cfg fuel rounds k flags b :
  at_rest b → wp (loop_rounds mm backend fdinfo_len clock dispatch user cfg fuel rounds k flags) b
    (λ r b', at_rest b' ∧ match r with finished r => ended flags r b' | running => True end).
Proof.
  revert k b. induction rounds as [|rounds IH]; intros k b Hr; cbn [loop_rounds]; [by apply wp_ret|].
  apply wp_bind, wp_modify. set (b1 := with_loop _ b). assert (Hr1 : rests b b1) by by apply rest_loop.
  apply wp_bind, wp_gets. destruct (event_gotterm (loop b1) || event_break (loop b1)) eqn:Hstop.
  { apply wp_ret. split; [apply Hr1|]. right. left. split; [done|]. apply orb_true_iff in Hstop as [?|?]; auto. }
  apply wp_bind.
  eapply wp_mono; [apply wait_time_ok, Hr1|]. intros tv b2 [Hr2 _ _]. apply wp_bind, wp_gets.
  destruct (negb _ && _) eqn:Hempty.
  { apply wp_ret. split; [done|]. left. apply andb_true_iff in Hempty as [H1%negb_true_iff H2].
    apply andb_true_iff in H2 as [H2%negb_true_iff H3%Z.eqb_eq]. done. }
  apply wp_bind.
  eapply wp_mono; [apply make_later_events_active_ok, Hr2|]. intros a b3 (Hok3 & _ & Hrq3).
  pose proof (rest_requeues _ _ Hr2 Hok3 Hrq3) as Hr3.
  apply wp_bind. eapply wp_mono; [by apply clear_cache_ok|]. intros a' b4 [Hr4 _ _].
  destruct (dispatch k tv) as [l|] eqn:Hd; [|apply wp_ret; split; [done|]; right; right; eauto].
  apply wp_bind. eapply wp_mono; [by apply report_ok|]. intros a'' b5 [Hr5 _ _].
  apply wp_bind. eapply wp_mono; [by apply end_round_ok|]. intros r b6 [Hr6 He].
  destruct r as [[r|]|]; [by apply wp_ret|by apply IH|by apply wp_ret].
Qed.

Lemma loop_ok cfg fuel rounds flags b :
  at_rest b → wp (event_base_loop mm backend fdinfo_len clock dispatch user cfg fuel rounds flags) b
    (λ r b', at_rest b' ∧ match r with
       | finished r => if running_loop (loop b) then r = -1 ∧ b' = b else running_loop (loop b') = false ∧ ended flags r b'
       | running => True end).
Proof.
  intros Hr. unfold event_base_loop. apply wp_bind, wp_gets. destruct (running_loop (loop b)); [by apply wp_ret|].
  apply wp_bind, wp_modify. set (b1 := with_loop _ b). assert (Hr1 : rests b b1) by by apply rest_loop.
  apply wp_bind. eapply wp_mono; [apply clear_cache_ok, Hr1|]. intros a b2 [Hr2 _ _].
  apply wp_bind, wp_modify. set (b3 := with_loop _ b2). assert (Hr3 : rests b2 b3) by by apply rest_loop.
  apply wp_bind. eapply wp_mono; [apply loop_rounds_ok, Hr3|]. intros r b4 [Hr4 He]. destruct r as [r|]; [|by apply wp_ret].
  apply wp_bind, wp_modify. destruct (rest_time (Time_state (Timeval 0 (tv_usec (tv_cache (time b4)))) (readings (time b4))) b4 Hr4)
    as [Hr5 _ _]; [done|]. apply wp_bind, wp_modify, wp_ret. split; [apply rest_loop, Hr5|]. by split.
Qed.
End loop_ok.

(** ** The properties *)

(** C7. Of a program that makes [allowed] calls only, before the loop and in its callbacks (so a
    callback of a signal does not delete or add its own event while more calls of it are due, which can
    leave a dangling pointer): whatever becomes ready and whatever the clock shows, event_base_loop
    fails no assertion and follows no dangling pointer, for as many rounds as it runs; afterwards
    libevent's check of the base passes and the number of added events is that of the pending ones.
    When it returns, the result says why: nothing is left (1), it was told to stop or had to run once
    only (0), the backend failed (-1). *)
Theorem event_loop_safe mm backend fdinfo_len clock dispatch prog cfg fuel rounds flags cs b0 :
  clock_ok clock → fresh_base mm b0 → obeys mm backend fdinfo_len clock cs b0 →
  ∃ l b, api_run mm backend fdinfo_len clock cs b0 = Some (l, b) ∧
  ∃ r b', event_base_loop mm backend fdinfo_len clock dispatch (runs mm backend fdinfo_len clock prog) cfg fuel rounds flags b
      = Some (r, b') ∧
    event_base_assert_ok_nolock_ b' = true ∧
    event_base_get_num_events EVENT_BASE_COUNT_ADDED b' = pending_total (evs b') (cbs b') ∧
    match r with
    | finished r => if running_loop (loop b) then r = -1 ∧ b' = b
                    else running_loop (loop b') = false ∧ ended dispatch flags r b'
    | running => True
    end.
Proof.
  intros Hc Hf Hob. destruct (api_run_ok mm backend fdinfo_len clock Hc cs b0 (fresh_prog _ _ Hf) Hob)
    as (l & b & E & [Hp Hh] & _). exists l, b. split; [done|].
  assert (Hr : at_rest b) by by apply at_rest_intro; [|rewrite (hd_frame _ _ Hh); apply fresh_frame in Hf].
  destruct (loop_ok mm backend fdinfo_len clock dispatch (runs mm backend fdinfo_len clock prog) Hc
    (λ k i b Hb, acts_ok mm backend fdinfo_len clock (prog k i) b Hc Hb) cfg fuel rounds flags b Hr) as (r & b' & E' & Hr' & H).
  exists r, b'. split; [done|]. pose proof (api_base _ (proj1 Hr')) as Hok'.
  split; [by apply base_assert_ok|]. split; [exact (bo_count _ Hok')|done].
Qed.

(** C9. A pass over an active queue ends, whichever [allowed] calls its callbacks make: the callbacks that
    are counted are at most [mx], or one if [mx] is less, and the callbacks of the common timeouts,
    which are not counted, make no other timer of a common timeout active, so that fuel for both is
    enough.  The result says why the pass ended: event_base_loopbreak was called (-1), or the queue is
    empty, [mx] callbacks have been called, event_base_loopcontinue was called, or there was a time
    limit. *)
Theorem queue_pass_ends mm backend fdinfo_len clock prog cfg fuel i mx endtime b :
  clock_ok clock → at_rest b → 0 <= i < nactivequeues b →
  (Z.to_nat mx + length (active_timers b) < fuel)%nat →
  ∃ c b', event_process_active_single_queue mm backend fdinfo_len clock (runs mm backend fdinfo_len clock prog)
      cfg fuel i mx endtime b = Some (finished c, b') ∧
    at_rest b' ∧ nactivequeues b' = nactivequeues b ∧
    (c = -1 ∧ event_break (loop b') = true ∨
     0 <= c <= Z.max mx 1 ∧
       (queue_at b' i = Some [] ∨ mx <= c ∨ event_continue (loop b') = true ∨ is_Some endtime)).
Proof.
  intros Hc Hr Hi Hf.
  destruct (single_queue_loop_ok mm backend fdinfo_len clock (runs mm backend fdinfo_len clock prog) Hc
    (λ k i b Hb, acts_ok mm backend fdinfo_len clock (prog k i) b Hc Hb) cfg fuel i mx endtime 0 b Hr Hi) as (r & b' & E & Hr' & H).
  destruct (H (active_timers b) (covers_active b)) as (c & -> & Hend); [unfold rounds_left; by rewrite Z.sub_0_r|].
  exists c, b'. split; [exact E|]. split; [apply Hr'|]. split; [apply Hr'|exact Hend].
Qed.

(** An event whose callback activates it again: the pass ends after three calls. *)
Definition again_calls : list api_call := [call_assign 1 (-1) 0 1 0; call_active 1 EV_READ 1].
Definition again : program := λ _ _, [call_active 1 EV_READ 1].
Definition again_base : event_base :=
  match api_run grants accepts 0 ticking again_calls event_base_new with Some (_, b) => b | None => event_base_new end.

Lemma again_rest : at_rest again_base.
Proof.
  unfold again_base.
  destruct (api_run_ok grants accepts 0 ticking ticking_ok again_calls event_base_new) as (l & b & -> & [Hb Hh] & _);
    [split; [apply api_new|apply live_new]|apply check_obeys_spec; vm_compute; reflexivity|].
  apply at_rest_intro; [done|]. by rewrite (hd_frame _ _ Hh).
Qed.

Lemma queue_pass_ends_witness :
  ∃ b', event_process_active_single_queue grants accepts 0 ticking (runs grants accepts 0 ticking again)
      (dispatch_limits None false) 4 0 3 None again_base = Some (finished 3, b') ∧
    at_rest b' ∧ queue_at b' 0 = Some [of_event 1].
Proof.
  assert (Hi : 0 <= 0 < nactivequeues again_base) by (vm_compute; split; [discriminate|reflexivity]).
  assert (Hf : (Z.to_nat 3 + length (active_timers again_base) < 4)%nat) by (apply Nat.ltb_lt; vm_compute; reflexivity).
  destruct (queue_pass_ends grants accepts 0 ticking again (dispatch_limits None false) 4 0 3 None again_base
    ticking_ok again_rest Hi Hf) as (c & b' & E & Hr & _).
  assert (Hrun : match event_process_active_single_queue grants accepts 0 ticking (runs grants accepts 0 ticking again)
      (dispatch_limits None false) 4 0 3 None again_base with
    | Some (finished c, b) => (c =? 3) && bool_decide (queue_at b 0 = Some [of_event 1])
    | _ => false end = true) by (vm_compute; reflexivity).
  rewrite E in Hrun. apply andb_true_iff in Hrun as [->%Z.eqb_eq Hq%bool_decide_eq_true].
  exists b'. split; [exact E|]. split; [exact Hr|exact Hq].
Defined.

(** event_process_active returns, whatever the callbacks do: with fuel for the callbacks of one
    pass and for the timers of the common queues, of which there are 256 at most, no queue runs out of
    it. *)
Theorem process_active_returns mm backend fdinfo_len clock prog cfg fuel b :
  clock_ok clock → at_rest b →
  (Z.to_nat (Z.max INT_MAX (max_dispatch_callbacks cfg)) + Z.to_nat MAX_COMMON_TIMEOUTS < fuel)%nat →
  ∃ c b', event_process_active mm backend fdinfo_len clock (runs mm backend fdinfo_len clock prog) cfg fuel b
      = Some (finished c, b') ∧ at_rest b' ∧ nactivequeues b' = nactivequeues b.
Proof.
  intros Hc Hr Hf.
  destruct (process_active_ok mm backend fdinfo_len clock (runs mm backend fdinfo_len clock prog) Hc
    (λ k i b Hb, acts_ok mm backend fdinfo_len clock (prog k i) b Hc Hb) cfg fuel b Hr) as (r & b' & E & Hr' & H).
  pose proof (active_timers_bound b (api_base _ (proj1 Hr))) as Hl.
  destruct (H (active_timers b) (covers_active b)) as (c & ->); [split; unfold rounds_left; lia|].
  exists c, b'. split; [exact E|]. split; apply Hr'.
Qed.

Lemma process_active_returns_witness :
  ∃ fuel c b', event_process_active grants accepts 0 ticking (runs grants accepts 0 ticking again)
      (dispatch_limits None false) fuel again_base = Some (finished c, b') ∧ at_rest b'.
Proof.
  exists (S (Z.to_nat (Z.max INT_MAX (max_dispatch_callbacks (dispatch_limits None false))) + Z.to_nat MAX_COMMON_TIMEOUTS)).
  destruct (process_active_returns grants accepts 0 ticking again (dispatch_limits None false) _ again_base
    ticking_ok again_rest (Nat.lt_succ_diag_r _)) as (c & b' & E & Hr & _).
  exists c, b'. split; [exact E|exact Hr].
Defined.

(** What becomes ready, and a program: the persistent event is deleted in a later callback, the timer
    has the signal event finalized and freed, and frees itself. *)
Definition demo_dispatch (k : nat) (tv : option timeval) : option (list ready) :=
  match k with
  | 0%nat => Some [io_ready 4 EV_READ; signal_ready 15 2]
  | _ => Some []
  end.
Definition demo_program : program := λ k i,
  match i with
  | on_event 1 _ _ _ => if (6 <? k)%nat then [call_del 1] else []
  | on_event 3 _ _ _ => [call_finalize 2 true 9; call_free 3]
  | _ => []
  end.

Lemma event_loop_safe_witness :
  clock_ok ticking ∧ fresh_base grants event_base_new ∧ obeys grants accepts 0 ticking demo event_base_new ∧
  ∃ b', event_base_loop grants accepts 0 ticking demo_dispatch (runs grants accepts 0 ticking demo_program)
      (dispatch_limits None false) 20 20 0 demo_base = Some (finished 1, b') ∧
    event_base_assert_ok_nolock_ b' = true ∧ evs b' !! 2%nat = None ∧ evs b' !! 3%nat = None.
Proof.
  assert (H1 : fresh_base grants event_base_new) by by left.
  assert (H2 : obeys grants accepts 0 ticking demo event_base_new) by (apply check_obeys_spec; vm_compute; reflexivity).
  destruct (event_loop_safe grants accepts 0 ticking demo_dispatch demo_program (dispatch_limits None false) 20 20 0
    demo event_base_new ticking_ok H1 H2) as (l & b & E & r & b' & E' & Hok & _).
  assert (Hb : b = demo_base) by (unfold demo_base; rewrite E; reflexivity). subst b.
  assert (Hrun : match event_base_loop grants accepts 0 ticking demo_dispatch (runs grants accepts 0 ticking demo_program)
      (dispatch_limits None false) 20 20 0 demo_base with
    | Some (finished r, b) => (r =? 1) && bool_decide (evs b !! 2%nat = None) && bool_decide (evs b !! 3%nat = None)
    | _ => false end = true) by (vm_compute; reflexivity).
  rewrite E' in Hrun. destruct r as [r|]; [|discriminate Hrun].
  apply andb_true_iff in Hrun as [[->%Z.eqb_eq Hx2%bool_decide_eq_true]%andb_true_iff Hx3%bool_decide_eq_true].
  split; [exact ticking_ok|]. split; [exact H1|]. split; [exact H2|]. exists b'. auto.
Defined.

(** Two calls of a signal's callback are due and the first asks for five more.  They are not made: the
    second sets ev_ncalls to the local counter again, and the event is called for nothing. *)
Definition lost_calls : list api_call := [call_assign 2 15 (Z.lor EV_SIGNAL EV_PERSIST) 2 0; call_add 2 None; call_active 2 EV_SIGNAL 2].
Definition asks_for_more : program := λ k i, if (k =? 1)%nat then [call_active 2 EV_SIGNAL 5] else [].
Definition lost_base : event_base :=
  match api_run grants accepts 0 ticking lost_calls event_base_new with Some (_, b) => b | None => event_base_new end.

(** Four calls are counted: two of event_signal_closure and two of the callback. *)
Lemma activation_during_calls_is_lost :
  match event_process_active grants accepts 0 ticking (runs grants accepts 0 ticking asks_for_more)
      (dispatch_limits None false) 10 lost_base with
  | Some (finished n, b) => n = 2 ∧ frames (signal_frame b) = 4%nat ∧ N_ACTIVE_CALLBACKS b = 0
  | _ => False
  end.
Proof. vm_compute. auto. Qed.

(** The timeout of an event that waits for a descriptor has passed, and before its callback is called
    the event is added again.  event_add answers 0, but the event is on the list of no descriptor:
    it now waits for the timeout only. *)
Definition reader_calls : list api_call :=
  [call_assign 1 4 (Z.lor EV_READ EV_PERSIST) 1 0; call_add 1 (Some (Timeval 0 1000))].
Definition reader_base : event_base :=
  match api_run grants accepts 0 ticking reader_calls event_base_new with Some (_, b) => b | None => event_base_new end.

Lemma added_again_not_watched :
  event_pending reader_base 1 (Z.lor EV_READ EV_TIMEOUT) = Some (Z.lor EV_READ EV_TIMEOUT) ∧
  match (timeout_process accepts ticking;; event_add grants accepts 0 ticking 1 (Some (Timeval 60 0))) reader_base with
  | Some (r, b) => r = 0 ∧ event_pending b 1 (Z.lor EV_READ EV_TIMEOUT) = Some EV_TIMEOUT ∧ inserted (evs b) 1 = None
  | None => False
  end.
Proof. vm_compute. auto. Qed.
