(* ===== verification/EpollTable.v ===== *)
(** * The operations of epoll

    Models libevent/epolltable-internal.h, the table from the conditions that were watched on a descriptor
    and the changes to them to the call of epoll_ctl that makes the changes, and struct event_change
    (libevent/changelist-internal.h).  The table is proved to be what its comment says. *)

From S2P Require Import Prelude Timeval Event EvMap.

(** ** Constants of the system *)

Definition EPOLL_CTL_ADD : Z := 1.
Definition EPOLL_CTL_DEL : Z := 2.
Definition EPOLL_CTL_MOD : Z := 3.
Definition EPOLLIN : Z := 0x001.
Definition EPOLLOUT : Z := 0x004.
Definition EPOLLERR : Z := 0x008.
Definition EPOLLHUP : Z := 0x010.
Definition EPOLLRDHUP : Z := 0x2000.
Definition EPOLLET : Z := 0x80000000.

(** ** Changes *)

Definition EV_CHANGE_ADD : Z := 0x01.
Definition EV_CHANGE_DEL : Z := 0x02.
Definition EV_CHANGE_SIGNAL : Z := EV_SIGNAL.
Definition EV_CHANGE_ET : Z := EV_ET.

Record event_change := Event_change {
  ch_fd : Z; old_events : Z; read_change : Z; write_change : Z; close_change : Z
}.

Definition EPOLL_OP_TABLE_INDEX (c : event_change) : Z :=
  let change (x : Z) := Z.land x (Z.lor EV_CHANGE_ADD EV_CHANGE_DEL) in
  Z.lor (change (close_change c))
    (Z.lor (Z.shiftl (change (read_change c)) 2)
      (Z.lor (Z.shiftl (change (write_change c)) 4)
        (Z.lor (Z.shiftl (Z.land (old_events c) (Z.lor EV_READ EV_WRITE)) 5)
          (Z.shiftl (Z.land (old_events c) EV_CLOSED) 1)))).

(** ** The table

    The events and the operation, by the conditions that were watched. *)

Definition operation : Type := Z * Z.
Local Infix ".|" := Z.lor (at level 40, left associativity).

Definition epoll_ops_NONE : list operation := [
  (0, 0); (EPOLLRDHUP, EPOLL_CTL_ADD); (EPOLLRDHUP, EPOLL_CTL_DEL); (0, 255);
  (EPOLLIN, EPOLL_CTL_ADD); (EPOLLIN .| EPOLLRDHUP, EPOLL_CTL_ADD); (EPOLLIN, EPOLL_CTL_ADD); (0, 255);
  (EPOLLIN, EPOLL_CTL_DEL); (EPOLLRDHUP, EPOLL_CTL_ADD); (EPOLLIN .| EPOLLRDHUP, EPOLL_CTL_DEL); (0, 255);
  (0, 255); (0, 255); (0, 255); (0, 255);
  (EPOLLOUT, EPOLL_CTL_ADD); (EPOLLOUT .| EPOLLRDHUP, EPOLL_CTL_ADD); (EPOLLOUT, EPOLL_CTL_ADD); (0, 255);
  (EPOLLIN .| EPOLLOUT, EPOLL_CTL_ADD); (EPOLLIN .| EPOLLOUT .| EPOLLRDHUP, EPOLL_CTL_ADD); (EPOLLIN .| EPOLLOUT, EPOLL_CTL_ADD); (0, 255);
  (EPOLLOUT, EPOLL_CTL_ADD); (EPOLLOUT .| EPOLLRDHUP, EPOLL_CTL_ADD); (EPOLLOUT, EPOLL_CTL_ADD); (0, 255);
  (0, 255); (0, 255); (0, 255); (0, 255);
  (EPOLLOUT, EPOLL_CTL_DEL); (EPOLLRDHUP, EPOLL_CTL_ADD); (EPOLLOUT .| EPOLLRDHUP, EPOLL_CTL_DEL); (0, 255);
  (EPOLLIN, EPOLL_CTL_ADD); (EPOLLIN .| EPOLLRDHUP, EPOLL_CTL_ADD); (EPOLLIN, EPOLL_CTL_ADD); (0, 255);
  (EPOLLIN .| EPOLLOUT, EPOLL_CTL_DEL); (EPOLLRDHUP, EPOLL_CTL_ADD); (EPOLLIN .| EPOLLOUT .| EPOLLRDHUP, EPOLL_CTL_DEL); (0, 255);
  (0, 255); (0, 255); (0, 255); (0, 255);
  (0, 255); (0, 255); (0, 255); (0, 255);
  (0, 255); (0, 255); (0, 255); (0, 255);
  (0, 255); (0, 255); (0, 255); (0, 255);
  (0, 255); (0, 255); (0, 255); (0, 255)].

Definition epoll_ops_READ : list operation := [
  (0, 0); (EPOLLIN .| EPOLLRDHUP, EPOLL_CTL_MOD); (EPOLLIN, EPOLL_CTL_MOD); (0, 255);
  (EPOLLIN, EPOLL_CTL_MOD); (EPOLLIN .| EPOLLRDHUP, EPOLL_CTL_MOD); (EPOLLIN, EPOLL_CTL_MOD); (0, 255);
  (EPOLLIN, EPOLL_CTL_DEL); (EPOLLRDHUP, EPOLL_CTL_MOD); (EPOLLIN .| EPOLLRDHUP, EPOLL_CTL_DEL); (0, 255);
  (0, 255); (0, 255); (0, 255); (0, 255);
  (EPOLLIN .| EPOLLOUT, EPOLL_CTL_MOD); (EPOLLIN .| EPOLLOUT .| EPOLLRDHUP, EPOLL_CTL_MOD); (EPOLLIN .| EPOLLOUT, EPOLL_CTL_MOD); (0, 255);
  (EPOLLIN .| EPOLLOUT, EPOLL_CTL_MOD); (EPOLLIN .| EPOLLOUT .| EPOLLRDHUP, EPOLL_CTL_MOD); (EPOLLIN .| EPOLLOUT, EPOLL_CTL_MOD); (0, 255);
  (EPOLLOUT, EPOLL_CTL_MOD); (EPOLLOUT .| EPOLLRDHUP, EPOLL_CTL_MOD); (EPOLLOUT, EPOLL_CTL_MOD); (0, 255);
  (0, 255); (0, 255); (0, 255); (0, 255);
  (EPOLLIN, EPOLL_CTL_MOD); (EPOLLIN .| EPOLLRDHUP, EPOLL_CTL_MOD); (EPOLLIN, EPOLL_CTL_MOD); (0, 255);
  (EPOLLIN, EPOLL_CTL_MOD); (EPOLLIN .| EPOLLRDHUP, EPOLL_CTL_MOD); (EPOLLIN, EPOLL_CTL_MOD); (0, 255);
  (EPOLLIN .| EPOLLOUT, EPOLL_CTL_DEL); (EPOLLRDHUP, EPOLL_CTL_MOD); (EPOLLIN .| EPOLLOUT .| EPOLLRDHUP, EPOLL_CTL_DEL); (0, 255);
  (0, 255); (0, 255); (0, 255); (0, 255);
  (0, 255); (0, 255); (0, 255); (0, 255);
  (0, 255); (0, 255); (0, 255); (0, 255);
  (0, 255); (0, 255); (0, 255); (0, 255);
  (0, 255); (0, 255); (0, 255); (0, 255)].

Definition epoll_ops_WRITE : list operation := [
  (0, 0); (EPOLLOUT .| EPOLLRDHUP, EPOLL_CTL_MOD); (EPOLLOUT, EPOLL_CTL_MOD); (0, 255);
  (EPOLLIN .| EPOLLOUT, EPOLL_CTL_MOD); (EPOLLIN .| EPOLLOUT .| EPOLLRDHUP, EPOLL_CTL_MOD); (EPOLLIN .| EPOLLOUT, EPOLL_CTL_MOD); (0, 255);
  (EPOLLOUT, EPOLL_CTL_MOD); (EPOLLOUT .| EPOLLRDHUP, EPOLL_CTL_MOD); (EPOLLOUT, EPOLL_CTL_MOD); (0, 255);
  (0, 255); (0, 255); (0, 255); (0, 255);
  (EPOLLOUT, EPOLL_CTL_MOD); (EPOLLOUT .| EPOLLRDHUP, EPOLL_CTL_MOD); (EPOLLOUT, EPOLL_CTL_MOD); (0, 255);
  (EPOLLIN .| EPOLLOUT, EPOLL_CTL_MOD); (EPOLLIN .| EPOLLOUT .| EPOLLRDHUP, EPOLL_CTL_MOD); (EPOLLIN .| EPOLLOUT, EPOLL_CTL_MOD); (0, 255);
  (EPOLLOUT, EPOLL_CTL_MOD); (EPOLLOUT .| EPOLLRDHUP, EPOLL_CTL_MOD); (EPOLLOUT, EPOLL_CTL_MOD); (0, 255);
  (0, 255); (0, 255); (0, 255); (0, 255);
  (EPOLLOUT, EPOLL_CTL_DEL); (EPOLLRDHUP, EPOLL_CTL_MOD); (EPOLLOUT .| EPOLLRDHUP, EPOLL_CTL_DEL); (0, 255);
  (EPOLLIN, EPOLL_CTL_MOD); (EPOLLIN .| EPOLLRDHUP, EPOLL_CTL_MOD); (EPOLLIN, EPOLL_CTL_MOD); (0, 255);
  (EPOLLIN .| EPOLLOUT, EPOLL_CTL_DEL); (EPOLLRDHUP, EPOLL_CTL_MOD); (EPOLLIN .| EPOLLOUT .| EPOLLRDHUP, EPOLL_CTL_DEL); (0, 255);
  (0, 255); (0, 255); (0, 255); (0, 255);
  (0, 255); (0, 255); (0, 255); (0, 255);
  (0, 255); (0, 255); (0, 255); (0, 255);
  (0, 255); (0, 255); (0, 255); (0, 255);
  (0, 255); (0, 255); (0, 255); (0, 255)].

Definition epoll_ops_READ_WRITE : list operation := [
  (0, 0); (EPOLLIN .| EPOLLOUT .| EPOLLRDHUP, EPOLL_CTL_MOD); (EPOLLIN .| EPOLLOUT, EPOLL_CTL_MOD); (0, 255);
  (EPOLLIN .| EPOLLOUT, EPOLL_CTL_MOD); (EPOLLIN .| EPOLLOUT .| EPOLLRDHUP, EPOLL_CTL_MOD); (EPOLLIN .| EPOLLOUT, EPOLL_CTL_MOD); (0, 255);
  (EPOLLOUT, EPOLL_CTL_MOD); (EPOLLOUT .| EPOLLRDHUP, EPOLL_CTL_MOD); (EPOLLOUT, EPOLL_CTL_MOD); (0, 255);
  (0, 255); (0, 255); (0, 255); (0, 255);
  (EPOLLIN .| EPOLLOUT, EPOLL_CTL_MOD); (EPOLLIN .| EPOLLOUT .| EPOLLRDHUP, EPOLL_CTL_MOD); (EPOLLIN .| EPOLLOUT, EPOLL_CTL_MOD); (0, 255);
  (EPOLLIN .| EPOLLOUT, EPOLL_CTL_MOD); (EPOLLIN .| EPOLLOUT .| EPOLLRDHUP, EPOLL_CTL_MOD); (EPOLLIN .| EPOLLOUT, EPOLL_CTL_MOD); (0, 255);
  (EPOLLOUT, EPOLL_CTL_MOD); (EPOLLOUT .| EPOLLRDHUP, EPOLL_CTL_MOD); (EPOLLOUT, EPOLL_CTL_MOD); (0, 255);
  (0, 255); (0, 255); (0, 255); (0, 255);
  (EPOLLIN, EPOLL_CTL_MOD); (EPOLLIN .| EPOLLRDHUP, EPOLL_CTL_MOD); (EPOLLIN, EPOLL_CTL_MOD); (0, 255);
  (EPOLLIN, EPOLL_CTL_MOD); (EPOLLIN .| EPOLLRDHUP, EPOLL_CTL_MOD); (EPOLLIN, EPOLL_CTL_MOD); (0, 255);
  (EPOLLIN .| EPOLLOUT, EPOLL_CTL_DEL); (EPOLLRDHUP, EPOLL_CTL_MOD); (EPOLLIN .| EPOLLOUT .| EPOLLRDHUP, EPOLL_CTL_DEL); (0, 255);
  (0, 255); (0, 255); (0, 255); (0, 255);
  (0, 255); (0, 255); (0, 255); (0, 255);
  (0, 255); (0, 255); (0, 255); (0, 255);
  (0, 255); (0, 255); (0, 255); (0, 255);
  (0, 255); (0, 255); (0, 255); (0, 255)].

Definition epoll_ops_CLOSED : list operation := [
  (0, 0); (EPOLLRDHUP, EPOLL_CTL_MOD); (EPOLLRDHUP, EPOLL_CTL_DEL); (0, 255);
  (EPOLLIN .| EPOLLRDHUP, EPOLL_CTL_MOD); (EPOLLIN .| EPOLLRDHUP, EPOLL_CTL_MOD); (EPOLLIN, EPOLL_CTL_MOD); (0, 255);
  (EPOLLRDHUP, EPOLL_CTL_MOD); (EPOLLRDHUP, EPOLL_CTL_MOD); (EPOLLIN .| EPOLLRDHUP, EPOLL_CTL_DEL); (0, 255);
  (0, 255); (0, 255); (0, 255); (0, 255);
  (EPOLLOUT .| EPOLLRDHUP, EPOLL_CTL_MOD); (EPOLLOUT .| EPOLLRDHUP, EPOLL_CTL_MOD); (EPOLLOUT, EPOLL_CTL_MOD); (0, 255);
  (EPOLLIN .| EPOLLOUT .| EPOLLRDHUP, EPOLL_CTL_MOD); (EPOLLIN .| EPOLLOUT .| EPOLLRDHUP, EPOLL_CTL_MOD); (EPOLLIN .| EPOLLOUT, EPOLL_CTL_MOD); (0, 255);
  (EPOLLOUT .| EPOLLRDHUP, EPOLL_CTL_MOD); (EPOLLOUT .| EPOLLRDHUP, EPOLL_CTL_MOD); (EPOLLOUT, EPOLL_CTL_MOD); (0, 255);
  (0, 255); (0, 255); (0, 255); (0, 255);
  (EPOLLRDHUP, EPOLL_CTL_MOD); (EPOLLRDHUP, EPOLL_CTL_MOD); (EPOLLOUT .| EPOLLRDHUP, EPOLL_CTL_DEL); (0, 255);
  (EPOLLIN .| EPOLLRDHUP, EPOLL_CTL_MOD); (EPOLLIN .| EPOLLRDHUP, EPOLL_CTL_MOD); (EPOLLIN, EPOLL_CTL_MOD); (0, 255);
  (EPOLLRDHUP, EPOLL_CTL_MOD); (EPOLLRDHUP, EPOLL_CTL_MOD); (EPOLLIN .| EPOLLOUT .| EPOLLRDHUP, EPOLL_CTL_DEL); (0, 255);
  (0, 255); (0, 255); (0, 255); (0, 255);
  (0, 255); (0, 255); (0, 255); (0, 255);
  (0, 255); (0, 255); (0, 255); (0, 255);
  (0, 255); (0, 255); (0, 255); (0, 255);
  (0, 255); (0, 255); (0, 255); (0, 255)].

Definition epoll_ops_READ_CLOSED : list operation := [
  (0, 0); (EPOLLIN .| EPOLLRDHUP, EPOLL_CTL_MOD); (EPOLLIN, EPOLL_CTL_MOD); (0, 255);
  (EPOLLIN .| EPOLLRDHUP, EPOLL_CTL_MOD); (EPOLLIN .| EPOLLRDHUP, EPOLL_CTL_MOD); (EPOLLIN, EPOLL_CTL_MOD); (0, 255);
  (EPOLLRDHUP, EPOLL_CTL_MOD); (EPOLLRDHUP, EPOLL_CTL_MOD); (EPOLLIN .| EPOLLRDHUP, EPOLL_CTL_DEL); (0, 255);
  (0, 255); (0, 255); (0, 255); (0, 255);
  (EPOLLIN .| EPOLLOUT .| EPOLLRDHUP, EPOLL_CTL_MOD); (EPOLLIN .| EPOLLOUT .| EPOLLRDHUP, EPOLL_CTL_MOD); (EPOLLIN .| EPOLLOUT, EPOLL_CTL_MOD); (0, 255);
  (EPOLLIN .| EPOLLOUT .| EPOLLRDHUP, EPOLL_CTL_MOD); (EPOLLIN .| EPOLLOUT .| EPOLLRDHUP, EPOLL_CTL_MOD); (EPOLLIN .| EPOLLOUT, EPOLL_CTL_MOD); (0, 255);
  (EPOLLOUT .| EPOLLRDHUP, EPOLL_CTL_MOD); (EPOLLOUT .| EPOLLRDHUP, EPOLL_CTL_MOD); (EPOLLOUT, EPOLL_CTL_MOD); (0, 255);
  (0, 255); (0, 255); (0, 255); (0, 255);
  (EPOLLIN .| EPOLLRDHUP, EPOLL_CTL_MOD); (EPOLLIN .| EPOLLRDHUP, EPOLL_CTL_MOD); (EPOLLIN, EPOLL_CTL_MOD); (0, 255);
  (EPOLLIN .| EPOLLRDHUP, EPOLL_CTL_MOD); (EPOLLIN .| EPOLLRDHUP, EPOLL_CTL_MOD); (EPOLLIN, EPOLL_CTL_MOD); (0, 255);
  (EPOLLRDHUP, EPOLL_CTL_MOD); (EPOLLRDHUP, EPOLL_CTL_MOD); (EPOLLIN .| EPOLLOUT .| EPOLLRDHUP, EPOLL_CTL_DEL); (0, 255);
  (0, 255); (0, 255); (0, 255); (0, 255);
  (0, 255); (0, 255); (0, 255); (0, 255);
  (0, 255); (0, 255); (0, 255); (0, 255);
  (0, 255); (0, 255); (0, 255); (0, 255);
  (0, 255); (0, 255); (0, 255); (0, 255)].

Definition epoll_ops_WRITE_CLOSED : list operation := [
  (0, 0); (EPOLLOUT .| EPOLLRDHUP, EPOLL_CTL_MOD); (EPOLLOUT, EPOLL_CTL_MOD); (0, 255);
  (EPOLLIN .| EPOLLOUT .| EPOLLRDHUP, EPOLL_CTL_MOD); (EPOLLIN .| EPOLLOUT .| EPOLLRDHUP, EPOLL_CTL_MOD); (EPOLLIN .| EPOLLOUT, EPOLL_CTL_MOD); (0, 255);
  (EPOLLOUT .| EPOLLRDHUP, EPOLL_CTL_MOD); (EPOLLOUT .| EPOLLRDHUP, EPOLL_CTL_MOD); (EPOLLOUT, EPOLL_CTL_MOD); (0, 255);
  (0, 255); (0, 255); (0, 255); (0, 255);
  (EPOLLOUT .| EPOLLRDHUP, EPOLL_CTL_MOD); (EPOLLOUT .| EPOLLRDHUP, EPOLL_CTL_MOD); (EPOLLOUT, EPOLL_CTL_MOD); (0, 255);
  (EPOLLIN .| EPOLLOUT .| EPOLLRDHUP, EPOLL_CTL_MOD); (EPOLLIN .| EPOLLOUT .| EPOLLRDHUP, EPOLL_CTL_MOD); (EPOLLIN .| EPOLLOUT, EPOLL_CTL_MOD); (0, 255);
  (EPOLLOUT .| EPOLLRDHUP, EPOLL_CTL_MOD); (EPOLLOUT .| EPOLLRDHUP, EPOLL_CTL_MOD); (EPOLLOUT, EPOLL_CTL_MOD); (0, 255);
  (0, 255); (0, 255); (0, 255); (0, 255);
  (EPOLLRDHUP, EPOLL_CTL_MOD); (EPOLLRDHUP, EPOLL_CTL_MOD); (EPOLLOUT .| EPOLLRDHUP, EPOLL_CTL_DEL); (0, 255);
  (EPOLLIN .| EPOLLRDHUP, EPOLL_CTL_MOD); (EPOLLIN .| EPOLLRDHUP, EPOLL_CTL_MOD); (EPOLLIN, EPOLL_CTL_MOD); (0, 255);
  (EPOLLRDHUP, EPOLL_CTL_MOD); (EPOLLRDHUP, EPOLL_CTL_MOD); (EPOLLIN .| EPOLLOUT .| EPOLLRDHUP, EPOLL_CTL_DEL); (0, 255);
  (0, 255); (0, 255); (0, 255); (0, 255);
  (0, 255); (0, 255); (0, 255); (0, 255);
  (0, 255); (0, 255); (0, 255); (0, 255);
  (0, 255); (0, 255); (0, 255); (0, 255);
  (0, 255); (0, 255); (0, 255); (0, 255)].

Definition epoll_ops_ALL : list operation := [
  (0, 0); (EPOLLIN .| EPOLLOUT .| EPOLLRDHUP, EPOLL_CTL_MOD); (EPOLLIN .| EPOLLOUT, EPOLL_CTL_MOD); (0, 255);
  (EPOLLIN .| EPOLLOUT .| EPOLLRDHUP, EPOLL_CTL_MOD); (EPOLLIN .| EPOLLOUT .| EPOLLRDHUP, EPOLL_CTL_MOD); (EPOLLIN .| EPOLLOUT, EPOLL_CTL_MOD); (0, 255);
  (EPOLLOUT .| EPOLLRDHUP, EPOLL_CTL_MOD); (EPOLLOUT .| EPOLLRDHUP, EPOLL_CTL_MOD); (EPOLLOUT, EPOLL_CTL_MOD); (0, 255);
  (0, 255); (0, 255); (0, 255); (0, 255);
  (EPOLLIN .| EPOLLOUT .| EPOLLRDHUP, EPOLL_CTL_MOD); (EPOLLIN .| EPOLLOUT .| EPOLLRDHUP, EPOLL_CTL_MOD); (EPOLLIN .| EPOLLOUT, EPOLL_CTL_MOD); (0, 255);
  (EPOLLIN .| EPOLLOUT .| EPOLLRDHUP, EPOLL_CTL_MOD); (EPOLLIN .| EPOLLOUT .| EPOLLRDHUP, EPOLL_CTL_MOD); (EPOLLIN .| EPOLLOUT, EPOLL_CTL_MOD); (0, 255);
  (EPOLLOUT .| EPOLLRDHUP, EPOLL_CTL_MOD); (EPOLLOUT .| EPOLLRDHUP, EPOLL_CTL_MOD); (EPOLLOUT, EPOLL_CTL_MOD); (0, 255);
  (0, 255); (0, 255); (0, 255); (0, 255);
  (EPOLLIN .| EPOLLRDHUP, EPOLL_CTL_MOD); (EPOLLIN .| EPOLLRDHUP, EPOLL_CTL_MOD); (EPOLLIN, EPOLL_CTL_MOD); (0, 255);
  (EPOLLIN .| EPOLLRDHUP, EPOLL_CTL_MOD); (EPOLLIN .| EPOLLRDHUP, EPOLL_CTL_MOD); (EPOLLIN, EPOLL_CTL_MOD); (0, 255);
  (EPOLLRDHUP, EPOLL_CTL_MOD); (EPOLLRDHUP, EPOLL_CTL_MOD); (EPOLLIN .| EPOLLOUT .| EPOLLRDHUP, EPOLL_CTL_DEL); (0, 255);
  (0, 255); (0, 255); (0, 255); (0, 255);
  (0, 255); (0, 255); (0, 255); (0, 255);
  (0, 255); (0, 255); (0, 255); (0, 255);
  (0, 255); (0, 255); (0, 255); (0, 255);
  (0, 255); (0, 255); (0, 255); (0, 255)].

Definition epoll_op_table : list operation :=
  epoll_ops_NONE ++ epoll_ops_READ ++ epoll_ops_WRITE ++ epoll_ops_READ_WRITE ++
  epoll_ops_CLOSED ++ epoll_ops_READ_CLOSED ++ epoll_ops_WRITE_CLOSED ++ epoll_ops_ALL.

(** ** What it has to say *)

Definition epoll_bit (bit : Z) : Z := if bit =? EV_READ then EPOLLIN else if bit =? EV_WRITE then EPOLLOUT else EPOLLRDHUP.

(** What is asked about one of the conditions: 0, 1 to add it, 2 to delete it, 3 is nonsense. *)
Definition change_of (c : event_change) (bit : Z) : Z :=
  Z.land (if bit =? EV_READ then read_change c else if bit =? EV_WRITE then write_change c else close_change c) 3.

(** Is the condition to be watched after the changes? *)
Definition wanted_after (change : Z) (old : bool) : bool := (change =? 1) || old && negb (change =? 2).
Definition wanted (c : event_change) (bit : Z) : bool := wanted_after (change_of c bit) (has bit (old_events c)).

(** The events of epoll for conditions. *)
Definition epoll_mask (r w c : bool) : Z := set_if c EPOLLRDHUP (set_if w EPOLLOUT (set_if r EPOLLIN 0)).
Definition wanted_mask (c : event_change) : Z := epoll_mask (wanted c EV_READ) (wanted c EV_WRITE) (wanted c EV_CLOSED).

(** ** Every entry *)

(** A test of all combinations. *)
Definition all_parts (P : Z → Z → Z → bool → bool → bool → bool) : bool :=
  forallb (λ cc, forallb (λ rc, forallb (λ wc, forallb (λ r, forallb (λ w, forallb (λ c, P cc rc wc r w c)
    [false; true]) [false; true]) [false; true]) (seqZ 0 4)) (seqZ 0 4)) (seqZ 0 4).

Lemma all_parts_spec P cc rc wc r w c :
  all_parts P = true → 0 <= cc < 4 → 0 <= rc < 4 → 0 <= wc < 4 → P cc rc wc r w c = true.
Proof.
  unfold all_parts. intros H Hcc Hrc Hwc.
  assert (Hb : ∀ b : bool, In b [false; true]) by (intros []; cbn; auto).
  assert (Hz : ∀ z, 0 <= z < 4 → In z (seqZ 0 4)) by (intros z Hz; apply list_elem_of_In, elem_of_seqZ; lia).
  rewrite forallb_forall in H. specialize (H _ (Hz _ Hcc)). rewrite forallb_forall in H. specialize (H _ (Hz _ Hrc)).
  rewrite forallb_forall in H. specialize (H _ (Hz _ Hwc)). rewrite forallb_forall in H. specialize (H _ (Hb r)). rewrite forallb_forall in H. specialize (H _ (Hb w)).
  rewrite forallb_forall in H. exact (H _ (Hb c)).
Qed.

(** The index from its parts. *)
Definition index_of (cc rc wc : Z) (r w c : bool) : Z :=
  cc + 4 * rc + 16 * wc + 64 * Z.b2z r + 128 * Z.b2z w + 256 * Z.b2z c.

(** The operation the comment in front of the table asks for. *)
Definition right_op (cc rc wc : Z) (r w c : bool) : operation :=
  if (cc =? 3) || (rc =? 3) || (wc =? 3) then (0, 255)
  else if (cc =? 0) && (rc =? 0) && (wc =? 0) then (0, 0)
  else
    let mask := epoll_mask (wanted_after rc r) (wanted_after wc w) (wanted_after cc c) in
    if mask =? 0 then (epoll_mask (rc =? 2) (wc =? 2) (cc =? 2), EPOLL_CTL_DEL)
    else (mask, if r || w || c then EPOLL_CTL_MOD else EPOLL_CTL_ADD).

Lemma table_right cc rc wc r w c :
  0 <= cc < 4 → 0 <= rc < 4 → 0 <= wc < 4 → epoll_op_table !! Z.to_nat (index_of cc rc wc r w c) = Some (right_op cc rc wc r w c).
Proof.
  intros Hcc Hrc Hwc.
  epose proof (all_parts_spec (λ cc rc wc r w c, bool_decide (epoll_op_table !! Z.to_nat (index_of cc rc wc r w c) = Some (right_op cc rc wc r w c)))
    cc rc wc r w c _ Hcc Hrc Hwc) as H. by apply bool_decide_eq_true in H.
  Unshelve. by vm_compute.
Qed.

Lemma land_3 x : 0 <= Z.land x 3 < 4.
Proof. change 3 with (Z.ones 2). rewrite Z.land_ones by done. by apply Z.mod_pos_bound. Qed.

Lemma has_land k mask x : 0 <= k → Z.testbit mask k = true → has (2 ^ k) (Z.land x mask) = has (2 ^ k) x.
Proof. intros Hk Hm. by rewrite !has_testbit, Z.land_spec, Hm, andb_true_r. Qed.

Lemma old_parts old :
  Z.land old (Z.lor EV_READ EV_WRITE) = 2 * Z.b2z (has EV_READ old) + 4 * Z.b2z (has EV_WRITE old) ∧
  Z.land old EV_CLOSED = 128 * Z.b2z (has EV_CLOSED old).
Proof.
  assert (Hlow : ∀ m, 0 <= m < 256 → Z.land old m = Z.land (old mod 256) m).
  { intros m Hm. change 256 with (2 ^ 8) in *. rewrite <- Z.land_ones, <- Z.land_assoc by done. f_equal.
    rewrite Z.land_comm, Z.land_ones, Z.mod_small by done. done. }
  unfold has. rewrite (Hlow (Z.lor _ _)), (Hlow EV_READ), (Hlow EV_WRITE), (Hlow EV_CLOSED) by done.
  pose proof (Z.mod_pos_bound old 256 ltac:(done)) as Hr. revert Hr. generalize (old mod 256). clear. intros o Ho.
  assert (H : forallb (λ o, (Z.land o (Z.lor EV_READ EV_WRITE) =? 2 * Z.b2z (negb (Z.land o EV_READ =? 0)) + 4 * Z.b2z (negb (Z.land o EV_WRITE =? 0)))
    && (Z.land o EV_CLOSED =? 128 * Z.b2z (negb (Z.land o EV_CLOSED =? 0)))) (seqZ 0 256) = true) by by vm_compute.
  rewrite forallb_forall in H. specialize (H o ltac:(apply list_elem_of_In, elem_of_seqZ; lia)).
  apply andb_true_iff in H as [H1 H2]. by apply Z.eqb_eq in H1, H2.
Qed.

Lemma index_parts c :
  EPOLL_OP_TABLE_INDEX c = index_of (change_of c EV_CLOSED) (change_of c EV_READ) (change_of c EV_WRITE)
    (has EV_READ (old_events c)) (has EV_WRITE (old_events c)) (has EV_CLOSED (old_events c)).
Proof.
  unfold EPOLL_OP_TABLE_INDEX, change_of. change (Z.lor EV_CHANGE_ADD EV_CHANGE_DEL) with 3. cbn [Z.eqb Pos.eqb EV_CLOSED EV_READ EV_WRITE].
  destruct (old_parts (old_events c)) as [H1 H2]. change (Z.lor 2 4) with (Z.lor EV_READ EV_WRITE). change 128 with EV_CLOSED. rewrite H1, H2.
  pose proof (land_3 (close_change c)) as Hc. pose proof (land_3 (read_change c)) as Hr. pose proof (land_3 (write_change c)) as Hw.
  revert Hc Hr Hw. generalize (Z.land (close_change c) 3), (Z.land (read_change c) 3), (Z.land (write_change c) 3).
  generalize (has EV_READ (old_events c)), (has EV_WRITE (old_events c)), (has EV_CLOSED (old_events c)). clear.
  intros r w c cc rc wc Hc Hr Hw. apply Z.eqb_eq.
  apply (all_parts_spec (λ cc rc wc r w c, Z.lor cc (Z.lor (Z.shiftl rc 2) (Z.lor (Z.shiftl wc 4)
    (Z.lor (Z.shiftl (2 * Z.b2z r + 4 * Z.b2z w) 5) (Z.shiftl (128 * Z.b2z c) 1)))) =? index_of cc rc wc r w c)); [by vm_compute|done..].
Qed.

(** What is done for a change. *)
Definition op_of (c : event_change) : operation :=
  let change := change_of c in
  let old bit := has bit (old_events c) in
  if bool_decide (change EV_CLOSED = 3 ∨ change EV_READ = 3 ∨ change EV_WRITE = 3) then (0, 255)
  else if bool_decide (change EV_CLOSED = 0 ∧ change EV_READ = 0 ∧ change EV_WRITE = 0) then (0, 0)
  else if wanted_mask c =? 0 then
    (epoll_mask (change EV_READ =? 2) (change EV_WRITE =? 2) (change EV_CLOSED =? 2), EPOLL_CTL_DEL)
  else (wanted_mask c, if old EV_READ || old EV_WRITE || old EV_CLOSED then EPOLL_CTL_MOD else EPOLL_CTL_ADD).

Lemma op_of_right c :
  op_of c = right_op (change_of c EV_CLOSED) (change_of c EV_READ) (change_of c EV_WRITE)
    (has EV_READ (old_events c)) (has EV_WRITE (old_events c)) (has EV_CLOSED (old_events c)).
Proof.
  unfold op_of, right_op. cbv zeta.
  replace (bool_decide (change_of c EV_CLOSED = 3 ∨ change_of c EV_READ = 3 ∨ change_of c EV_WRITE = 3))
    with ((change_of c EV_CLOSED =? 3) || (change_of c EV_READ =? 3) || (change_of c EV_WRITE =? 3)).
  2: { symmetry. destruct (Z.eqb_spec (change_of c EV_CLOSED) 3), (Z.eqb_spec (change_of c EV_READ) 3), (Z.eqb_spec (change_of c EV_WRITE) 3); cbn [orb];
       first [apply bool_decide_true; tauto|apply bool_decide_false; tauto]. }
  replace (bool_decide (change_of c EV_CLOSED = 0 ∧ change_of c EV_READ = 0 ∧ change_of c EV_WRITE = 0))
    with ((change_of c EV_CLOSED =? 0) && (change_of c EV_READ =? 0) && (change_of c EV_WRITE =? 0)); [done|].
  symmetry. destruct (Z.eqb_spec (change_of c EV_CLOSED) 0), (Z.eqb_spec (change_of c EV_READ) 0), (Z.eqb_spec (change_of c EV_WRITE) 0); cbn [andb];
    first [apply bool_decide_true; tauto|apply bool_decide_false; tauto].
Qed.

Lemma table_entry c : epoll_op_table !! Z.to_nat (EPOLL_OP_TABLE_INDEX c) = Some (op_of c).
Proof. rewrite index_parts, op_of_right. by apply table_right; apply land_3. Qed.

(** The table of epoll: for every change the entry at its index is nothing for no change, the operation 255
    without conditions when a condition is both added and deleted (the comment in front of the table
    asks for -1 there), the removal of the descriptor when nothing is wanted any more, and else the
    conditions wanted after the change, for a new descriptor or one already known. *)
Theorem epoll_op_table_correct c : epoll_op_table !! Z.to_nat (EPOLL_OP_TABLE_INDEX c) = Some (op_of c).
Proof. apply table_entry. Qed.
