(* ===== verification/Epoll.v ===== *)
(** * The epoll back end

    Models libevent/epoll.c: the calls of epoll_ctl for what libevent/evmap.c adds and deletes, at once or
    through a list of changes (the functions event_changelist_* of evmap.c) that is applied before the
    next wait, and the wait.  The kernel is a parameter. *)

From S2P Require Import Prelude Timeval Event EvMap EventLoop EpollTable.

(** ** The kernel

    What a kernel has registered for a descriptor, and epoll_ctl: an operation, a descriptor and events;
    [Some errno], or [None] when it succeeds. *)

Definition EPERM : Z := 1.
Definition ENOENT : Z := 2.
Definition EBADF : Z := 9.
Definition EEXIST : Z := 17.

Class Epoll (K : Type) := {
  interest : K → Z → option Z;
  epoll_ctl : K → Z → Z → Z → option Z * K
}.

(** The manual page. *)
Class EpollLaws (K : Type) `{Epoll K} := {
  ctl_other : ∀ k op fd events fd', fd' ≠ fd → interest (snd (epoll_ctl k op fd events)) fd' = interest k fd';
  ctl_failed : ∀ k op fd events e, fst (epoll_ctl k op fd events) = Some e → interest (snd (epoll_ctl k op fd events)) fd = interest k fd;
  ctl_registers : ∀ k op fd events, op = EPOLL_CTL_ADD ∨ op = EPOLL_CTL_MOD →
    fst (epoll_ctl k op fd events) = None → interest (snd (epoll_ctl k op fd events)) fd = Some events;
  ctl_removes : ∀ k fd events, fst (epoll_ctl k EPOLL_CTL_DEL fd events) = None →
    interest (snd (epoll_ctl k EPOLL_CTL_DEL fd events)) fd = None;
  ctl_nothing_to_remove : ∀ k fd events e, fst (epoll_ctl k EPOLL_CTL_DEL fd events) = Some e →
    e = ENOENT ∨ e = EBADF ∨ e = EPERM → interest k fd = None
}.

(** ** The list of changes

    The array of changes, of which only the part in use is kept, and its size; event_changelist_fdinfo of
    a signal or descriptor, which evmap.c keeps behind its entry. *)

Record event_changelist := Event_changelist {
  changes : list event_change;
  changes_size : Z;
  idxplus1 : gmap (bool * Z) Z
}.

Definition event_changelist_init_ (info : gmap (bool * Z) Z) : event_changelist := Event_changelist [] 0 info.
Definition fdinfo (cl : event_changelist) (p : bool * Z) : Z := default 0 (idxplus1 cl !! p).

(** The entry of the change. *)
Definition event_change_get_fdinfo (c : event_change) : bool * Z := (has EV_CHANGE_SIGNAL (read_change c), ch_fd c).

(** [None] is a failed assertion. *)
Fixpoint clear_fdinfo (l : list event_change) (i : Z) (info : gmap (bool * Z) Z) : option (gmap (bool * Z) Z) :=
  match l with
  | [] => Some info
  | c :: l =>
      let p := event_change_get_fdinfo c in
      if default 0 (info !! p) =? i + 1 then clear_fdinfo l (i + 1) (<[p := 0]> info) else None
  end.
Definition event_changelist_remove_all_ (cl : event_changelist) : option event_changelist :=
  info ← clear_fdinfo (changes cl) 0 (idxplus1 cl); Some (Event_changelist [] (changes_size cl) info).

Definition event_changelist_freemem_ (cl : event_changelist) : event_changelist := event_changelist_init_ (idxplus1 cl).

(** The checks of event_changelist_assert_ok; [fds] are the descriptors that have an entry. *)
Definition change_checked (cl : event_changelist) (i : nat) (c : event_change) : bool :=
  (0 <=? ch_fd c) && (fdinfo cl (event_change_get_fdinfo c) =? Z.of_nat i + 1).
Definition event_changelist_assert_ok_foreach_iter_fn (cl : event_changelist) (fd : Z) : bool :=
  let idx := fdinfo cl (false, fd) in
  (idx =? 0) || match changes cl !! Z.to_nat (idx - 1) with Some c => ch_fd c =? fd | None => false end.
Definition event_changelist_assert_ok (fds : list Z) (cl : event_changelist) : bool :=
  (Zlen (changes cl) <=? changes_size cl) && forallb id (imap (change_checked cl) (changes cl)) &&
  forallb (event_changelist_assert_ok_foreach_iter_fn cl) fds.

(** The sizes, in bytes, of the memory asked for. *)
Definition change_size : Z := 12.

Definition event_changelist_grow (mm : Z → bool) (cl : event_changelist) : option (bool * event_changelist) :=
  new_size ← (if changes_size cl <? 64 then Some 64 else int_chk (changes_size cl * 2));
  Some (if mm (new_size * change_size) then (true, Event_changelist (changes cl) new_size (idxplus1 cl)) else (false, cl)).

(** The index of the change, or no memory. *)
Definition event_changelist_get_or_construct (mm : Z → bool) (cl : event_changelist) (fd old : Z) (p : bool * Z) :
    option (option nat * event_changelist) :=
  if fdinfo cl p =? 0 then
    if changes_size cl <? Zlen (changes cl) then None
    else
      '(ok, cl) ← (if Zlen (changes cl) =? changes_size cl then event_changelist_grow mm cl else Some (true, cl));
      if negb ok then Some (None, cl)
      else
        let idx := length (changes cl) in
        Some (Some idx, Event_changelist (changes cl ++ [Event_change fd old 0 0 0]) (changes_size cl)
                          (<[p := Z.of_nat idx + 1]> (idxplus1 cl)))
  else
    let idx := Z.to_nat (fdinfo cl p - 1) in
    c ← changes cl !! idx;
    if ch_fd c =? fd then Some (Some idx, cl) else None.

Definition set_change (idx : nat) (f : event_change → event_change) (cl : event_changelist) : event_changelist :=
  Event_changelist (alter f idx (changes cl)) (changes_size cl) (idxplus1 cl).

Definition uint8 (x : Z) : Z := x mod 256.

(** What an addition and a deletion do to a change. *)
Definition change_add (events : Z) (c : event_change) : event_change :=
  let add := uint8 (Z.lor EV_CHANGE_ADD (Z.land events (Z.lor EV_ET (Z.lor EV_PERSIST EV_SIGNAL)))) in
  Event_change (ch_fd c) (old_events c)
    (if has (Z.lor EV_READ EV_SIGNAL) events then add else read_change c)
    (if has EV_WRITE events then add else write_change c)
    (if has EV_CLOSED events then add else close_change c).
Definition change_del (events : Z) (c : event_change) : event_change :=
  let del bit := if has bit (old_events c) then EV_CHANGE_DEL else 0 in
  Event_change (ch_fd c) (old_events c)
    (if has (Z.lor EV_READ EV_SIGNAL) events then del (Z.lor EV_READ EV_SIGNAL) else read_change c)
    (if has EV_WRITE events then del EV_WRITE else write_change c)
    (if has EV_CLOSED events then del EV_CLOSED else close_change c).

Definition event_changelist_add_ (mm : Z → bool) (cl : event_changelist) (fd old events : Z) (p : bool * Z) :
    option (Z * event_changelist) :=
  '(idx, cl) ← event_changelist_get_or_construct mm cl fd old p;
  Some (match idx with None => (-1, cl) | Some idx => (0, set_change idx (change_add events) cl) end).
Definition event_changelist_del_ (mm : Z → bool) (cl : event_changelist) (fd old events : Z) (p : bool * Z) :
    option (Z * event_changelist) :=
  '(idx, cl) ← event_changelist_get_or_construct mm cl fd old p;
  Some (match idx with None => (-1, cl) | Some idx => (0, set_change idx (change_del events) cl) end).

(** ** Changes to the kernel *)

Section epoll.
Context {K : Type} `{Epoll K}.

(** "Epoll MOD retried as ADD", "Epoll ADD retried as MOD" *)
Definition retried (k : K) (op fd events : Z) : Z * K :=
  match epoll_ctl k op fd events with (None, k) => (0, k) | (Some _, k) => (-1, k) end.

Definition epoll_apply_one_change (k : K) (c : event_change) : option (Z * K) :=
  '(events, op) ← epoll_op_table !! Z.to_nat (EPOLL_OP_TABLE_INDEX c);
  if events =? 0 then if op =? 0 then Some (0, k) else None (* assertion *)
  else
    let events := if has EV_CHANGE_ET (Z.lor (read_change c) (write_change c)) then Z.lor events EPOLLET else events in
    Some (match epoll_ctl k op (ch_fd c) events with
      | (None, k) => (0, k)
      | (Some errno, k) =>
          if op =? EPOLL_CTL_MOD then
            if errno =? ENOENT then retried k EPOLL_CTL_ADD (ch_fd c) events else (-1, k)
          else if op =? EPOLL_CTL_ADD then
            if errno =? EEXIST then retried k EPOLL_CTL_MOD (ch_fd c) events else (-1, k)
          else if op =? EPOLL_CTL_DEL then
            if (errno =? ENOENT) || (errno =? EBADF) || (errno =? EPERM) then (0, k) else (-1, k)
          else (-1, k)
      end).

Fixpoint apply_loop (k : K) (l : list event_change) (r : Z) : option (Z * K) :=
  match l with
  | [] => Some (r, k)
  | c :: l => '(r', k) ← epoll_apply_one_change k c; apply_loop k l (if r' <? 0 then -1 else r)
  end.
Definition epoll_apply_changes (k : K) (cl : event_changelist) : option (Z * K) := apply_loop k (changes cl) 0.

Definition epoll_nochangelist_add (k : K) (fd old events : Z) : option (Z * K) :=
  let add bit := if has bit events then uint8 (Z.lor EV_CHANGE_ADD (Z.land events EV_ET)) else 0 in
  epoll_apply_one_change k (Event_change fd old (add EV_READ) (add EV_WRITE) (add EV_CLOSED)).
Definition epoll_nochangelist_del (k : K) (fd old events : Z) : option (Z * K) :=
  let del bit := if has bit events then EV_CHANGE_DEL else 0 in
  epoll_apply_one_change k (Event_change fd old (del EV_READ) (del EV_WRITE) (del EV_CLOSED)).

(** ** epollops

    The back end as evmap.c calls it for descriptors; [sigs] is the one for signals.  The kernel is what
    the calls so far have made of it. *)

Definition epoll_call (k : K) (c : backend_call) : option (Z * K) :=
  match c with
  | evsel_add fd old events => epoll_nochangelist_add k fd old events
  | evsel_del fd old events => epoll_nochangelist_del k fd old events
  | _ => Some (0, k)
  end.
Fixpoint epoll_after (k : K) (h : history) : option K :=
  match h with
  | [] => Some k
  | (c, _) :: h => k ← epoll_after k h; snd <$> epoll_call k c
  end.
Definition epollops (sigs : history → backend_call → bool) (k : K) (h : history) (c : backend_call) : bool :=
  match c with
  | evsel_add _ _ _ | evsel_del _ _ _ =>
      match k ← epoll_after k h; epoll_call k c with Some (r, _) => negb (r =? -1) | None => false end
  | _ => sigs h c
  end.

(** ** The wait *)

Definition INITIAL_NEVENT : Z := 32.
Definition MAX_NEVENT : Z := 4096.
Definition MAX_EPOLL_TIMEOUT_MSEC : Z := 35 * 60 * 1000.
Definition EINTR : Z := 4.
Definition LONG_MAX : Z := 2 ^ 63 - 1.
Definition MAX_SECONDS_IN_MSEC_LONG : Z := Z.quot (LONG_MAX - 999) 1000.

Definition evutil_tv_to_msec_ (tv : timeval) : Z :=
  if (1000000 <? tv_usec tv) || (MAX_SECONDS_IN_MSEC_LONG <? tv_sec tv) then -1
  else tv_sec tv * 1000 + Z.quot (tv_usec tv + 999) 1000.

(** How many milliseconds epoll_wait may take, -1: as long as it likes. *)
Definition epoll_timeout (tv : option timeval) : Z :=
  match tv with
  | None => -1
  | Some tv =>
      let timeout := evutil_tv_to_msec_ tv in
      if (timeout <? 0) || (MAX_EPOLL_TIMEOUT_MSEC <? timeout) then MAX_EPOLL_TIMEOUT_MSEC else timeout
  end.

(** The conditions of libevent that what epoll_wait reports stands for. *)
Definition reported_events (what : Z) : Z :=
  if has (Z.lor EPOLLHUP EPOLLERR) what then Z.lor EV_READ EV_WRITE
  else set_if (has EPOLLRDHUP what) EV_CLOSED (set_if (has EPOLLOUT what) EV_WRITE (set_if (has EPOLLIN what) EV_READ 0)).

(** The descriptors for which evmap_io_active_ is called, and with what. *)
Fixpoint reports (l : list (Z * Z)) : list ready :=
  match l with
  | [] => []
  | (fd, what) :: l =>
      let ev := reported_events what in
      if ev =? 0 then reports l else io_ready fd (Z.lor ev EV_ET) :: reports l
  end.

(** [wait]: epoll_wait on the kernel with room for so many events and a timeout, an errno or descriptors
    and events.  [mm]: can the array grow?  The result, what is reported, the kernel, the list and the
    size of the array. *)
Definition epoll_dispatch (wait : K → Z → Z → Z + list (Z * Z)) (mm : Z → bool) (k : K) (cl : event_changelist) (nevents : Z)
    (tv : option timeval) : option (Z * list ready * K * event_changelist * Z) :=
  let timeout := epoll_timeout tv in
  '(_, k) ← epoll_apply_changes k cl;
  cl ← event_changelist_remove_all_ cl;
  match wait k nevents timeout with
  | inl errno => Some (if errno =? EINTR then 0 else -1, [], k, cl, nevents)
  | inr l =>
      if nevents <? Zlen l then None (* assertion *)
      else
        let nevents := if (Zlen l =? nevents) && (nevents <? MAX_NEVENT) && mm (nevents * 2 * 12) then nevents * 2 else nevents in
        Some (0, reports l, k, cl, nevents)
  end.
End epoll.
