(* ===== verification/EpollOk.v ===== *)
(** * What the kernel watches

    One change and its effect on the kernel, whatever the kernel has registered before. *)

From S2P Require Import Prelude Timeval Event EvMap EventLoop EpollTable Epoll.

Lemma has_epoll_mask r w c e bit :
  condition bit → e = 0 ∨ e = EPOLLET →
  has (epoll_bit bit) (Z.lor (epoll_mask r w c) e) = if bit =? EV_READ then r else if bit =? EV_WRITE then w else c.
Proof. intros [-> |[-> | ->]] [-> | ->]; by destruct r, w, c. Qed.

Lemma wanted_mask_zero c : wanted_mask c = 0 → ∀ bit, condition bit → wanted c bit = false.
Proof.
  unfold wanted_mask, epoll_mask, set_if. intros H.
  destruct (wanted c EV_READ) eqn:Er, (wanted c EV_WRITE) eqn:Ew, (wanted c EV_CLOSED) eqn:Ec; try done.
  by apply condition_cases.
Qed.
Lemma wanted_mask_some c : wanted_mask c ≠ 0 → ∃ bit, condition bit ∧ wanted c bit = true.
Proof.
  unfold wanted_mask, epoll_mask, set_if, condition. intros H.
  destruct (wanted c EV_READ) eqn:Er; [by eauto|]. destruct (wanted c EV_WRITE) eqn:Ew; [by eauto|].
  destruct (wanted c EV_CLOSED) eqn:Ec; [by eauto|done].
Qed.

(** The flags of a change do not count for the table. *)
Lemma flags_land events mask : Z.land mask 3 = 0 → Z.land mask 255 = mask → Z.land (uint8 (Z.lor EV_CHANGE_ADD (Z.land events mask))) 3 = 1.
Proof.
  intros H H'. unfold uint8. change 256 with (2 ^ 8). rewrite <- Z.land_ones by done. rewrite <- Z.land_assoc. change (Z.land (Z.ones 8) 3) with 3.
  rewrite Z.land_lor_distr_l, <- Z.land_assoc, H, Z.land_0_r. done.
Qed.

Section kernel.
Context {K : Type} `{EpollLaws K}.

(** The kernel watches for exactly the conditions [w], or at least for them. *)
Definition agrees (k : K) (fd : Z) (w : Z → bool) : Prop :=
  match interest k fd with
  | None => ∀ bit, condition bit → w bit = false
  | Some e => (∃ bit, condition bit ∧ w bit = true) ∧ ∀ bit, condition bit → has (epoll_bit bit) e = w bit
  end.
Definition covers (k : K) (fd : Z) (w : Z → bool) : Prop :=
  ∀ bit, condition bit → w bit = true → ∃ e, interest k fd = Some e ∧ has (epoll_bit bit) e = true.

Lemma agrees_covers k fd w : agrees k fd w → covers k fd w.
Proof.
  unfold agrees, covers. intros Ha bit Hb Hw. destruct (interest k fd) as [e|].
  - destruct Ha as [_ Ha]. exists e. by rewrite Ha.
  - rewrite Ha in Hw by done. done.
Qed.
Lemma agrees_ext k k' fd w w' :
  interest k' fd = interest k fd → (∀ bit, condition bit → w' bit = w bit) → agrees k fd w → agrees k' fd w'.
Proof.
  unfold agrees. intros -> Hw. destruct (interest k fd) as [e|].
  - intros [(bit & Hb & Ht) Ha]. split; [exists bit; by rewrite Hw|]. intros b Hb'. by rewrite Hw, Ha.
  - intros Ha bit Hb. by rewrite Hw, Ha.
Qed.
Lemma covers_ext k k' fd w w' :
  interest k' fd = interest k fd → (∀ bit, condition bit → w' bit = true → w bit = true) → covers k fd w → covers k' fd w'.
Proof. unfold covers. intros -> Hw Hc bit Hb Ht. by apply Hc, Hw. Qed.

(** ** One change *)

Definition changed_one (c : event_change) (k : K) (r : Z) (k' : K) : Prop :=
  (r = 0 ∨ r = -1) ∧ (∀ fd, fd ≠ ch_fd c → interest k' fd = interest k fd) ∧
  (r = -1 → interest k' (ch_fd c) = interest k (ch_fd c)) ∧
  ((∀ bit, condition bit → change_of c bit = 0) → r = 0 ∧ k' = k) ∧
  (r = 0 → (∃ bit, condition bit ∧ change_of c bit ≠ 0) → agrees k' (ch_fd c) (wanted c)).

Lemma registered_agrees k c e :
  wanted_mask c ≠ 0 → e = 0 ∨ e = EPOLLET → interest k (ch_fd c) = Some (Z.lor (wanted_mask c) e) → agrees k (ch_fd c) (wanted c).
Proof.
  intros Hm He Hi. unfold agrees. rewrite Hi. split; [by apply wanted_mask_some|]. intros bit Hb.
  unfold wanted_mask. rewrite has_epoll_mask by done. by destruct Hb as [-> |[-> | ->]].
Qed.
Lemma removed_agrees k c : wanted_mask c = 0 → interest k (ch_fd c) = None → agrees k (ch_fd c) (wanted c).
Proof. intros Hm Hi. unfold agrees. rewrite Hi. by apply wanted_mask_zero. Qed.

(** ADD or MOD, then the other one. *)
Lemma register_ok k op op' errno fd events :
  op = EPOLL_CTL_ADD ∨ op = EPOLL_CTL_MOD → op' = EPOLL_CTL_ADD ∨ op' = EPOLL_CTL_MOD →
  ∃ r k', (match epoll_ctl k op fd events with
    | (None, k) => (0, k)
    | (Some e, k) => if e =? errno then retried k op' fd events else (-1, k)
    end) = (r, k') ∧ (r = 0 ∧ interest k' fd = Some events ∨ r = -1 ∧ interest k' fd = interest k fd) ∧
    ∀ fd', fd' ≠ fd → interest k' fd' = interest k fd'.
Proof.
  intros Hop Hop'. pose proof (ctl_other k op fd events) as Ho. pose proof (ctl_failed k op fd events) as Hf. pose proof (ctl_registers k op fd events Hop) as Hr.
  destruct (epoll_ctl k op fd events) as [[e|] k1]; cbn [fst snd] in *; [|by eexists _, _; eauto 6].
  destruct (e =? errno); [|eexists _, _; split; [done|]; split; [right; eauto|done]]. unfold retried.
  pose proof (ctl_other k1 op' fd events) as Ho'. pose proof (ctl_failed k1 op' fd events) as Hf'. pose proof (ctl_registers k1 op' fd events Hop') as Hr'.
  destruct (epoll_ctl k1 op' fd events) as [[e'|] k2]; cbn [fst snd] in *; (eexists _, _; split; [done|]); (split; [|intros fd' Hne; by rewrite Ho', Ho]).
  - right. by rewrite (Hf' e'), (Hf e).
  - left. by rewrite Hr'.
Qed.

Lemma del_ok_one k fd events :
  ∃ r k', (match epoll_ctl k EPOLL_CTL_DEL fd events with
    | (None, k) => (0, k)
    | (Some e, k) => if (e =? ENOENT) || (e =? EBADF) || (e =? EPERM) then (0, k) else (-1, k)
    end) = (r, k') ∧ (r = 0 ∧ interest k' fd = None ∨ r = -1 ∧ interest k' fd = interest k fd) ∧
    ∀ fd', fd' ≠ fd → interest k' fd' = interest k fd'.
Proof.
  pose proof (ctl_other k EPOLL_CTL_DEL fd events) as Ho. pose proof (ctl_failed k EPOLL_CTL_DEL fd events) as Hf.
  pose proof (ctl_removes k fd events) as Hr. pose proof (ctl_nothing_to_remove k fd events) as Hn.
  destruct (epoll_ctl k EPOLL_CTL_DEL fd events) as [[e|] k1]; cbn [fst snd] in *; [|by eexists _, _; eauto 6].
  destruct (_ || _ || _) eqn:E; (eexists _, _; split; [done|]); (split; [|done]).
  - left. split; [done|]. rewrite (Hf e) by done. apply (Hn e); [done|].
    apply orb_true_iff in E as [[E|E]%orb_true_iff|E]; apply Z.eqb_eq in E; tauto.
  - right. split; [done|]. by rewrite (Hf e).
Qed.

Lemma apply_one_ok k c :
  (∀ bit, condition bit → change_of c bit ≠ 3) → ∃ r k', epoll_apply_one_change k c = Some (r, k') ∧ changed_one c k r k'.
Proof.
  intros H3. unfold epoll_apply_one_change. rewrite table_entry. cbn [mbind option_bind]. unfold op_of. cbv zeta.
  pose proof (H3 EV_CLOSED ltac:(right; by right)) as Hc. pose proof (H3 EV_READ ltac:(by left)) as Hr. pose proof (H3 EV_WRITE ltac:(right; by left)) as Hw.
  rewrite bool_decide_false by tauto.
  case_bool_decide as Hz; cbn [mbind option_bind].
  { exists 0, k. cbn. split; [done|]. split; [by left|]. split; [done|]. split; [done|]. split; [done|].
    intros _ (bit & [-> |[-> | ->]] & Hne); tauto. }
  assert (Hsome : ¬ ∀ bit, condition bit → change_of c bit = 0).
  { intros Hall. apply Hz. split_and!; apply Hall; unfold condition; tauto. }
  set (e := if has EV_CHANGE_ET (Z.lor (read_change c) (write_change c)) then EPOLLET else 0).
  assert (He : e = 0 ∨ e = EPOLLET) by (unfold e; case_match; tauto).
  assert (Hev : ∀ events, (if has EV_CHANGE_ET (Z.lor (read_change c) (write_change c)) then Z.lor events EPOLLET else events) = Z.lor events e).
  { intros events. unfold e. case_match; [done|]. by rewrite Z.lor_0_r. }
  destruct (Z.eqb_spec (wanted_mask c) 0) as [Hm|Hm]; cbn [mbind option_bind].
  - (* DEL *)
    set (mask := epoll_mask _ _ _). assert (Hmask : mask ≠ 0).
    { assert (Hdel : ∀ bit, condition bit → change_of c bit = 0 ∨ change_of c bit = 2).
      { intros bit Hb. pose proof (H3 bit Hb) as Hb3. pose proof (wanted_mask_zero c Hm bit Hb) as Hw'. unfold wanted, wanted_after in Hw'.
        pose proof (land_3 (if bit =? EV_READ then read_change c else if bit =? EV_WRITE then write_change c else close_change c)) as Hl.
        fold (change_of c bit) in Hl. apply orb_false_iff in Hw' as [Hw' _]. apply Z.eqb_neq in Hw'. lia. }
      unfold mask, epoll_mask. destruct (Hdel EV_READ ltac:(by left)) as [E1|E1], (Hdel EV_WRITE ltac:(right; by left)) as [E2|E2], (Hdel EV_CLOSED ltac:(right; by right)) as [E3|E3];
        rewrite E1, E2, E3; try done. tauto. }
    rewrite (proj2 (Z.eqb_neq mask 0)) by done. rewrite Hev. change (EPOLL_CTL_DEL =? EPOLL_CTL_MOD) with false. change (EPOLL_CTL_DEL =? EPOLL_CTL_ADD) with false. rewrite Z.eqb_refl. cbv iota.
    destruct (del_ok_one k (ch_fd c) (Z.lor mask e)) as (r & k' & E & Hres & Ho). rewrite E. eexists _, _. split; [done|].
    unfold changed_one. destruct Hres as [[-> Hi]|[-> Hi]]; split_and!; try done; try tauto. intros _ _. by apply removed_agrees.
  - rewrite (proj2 (Z.eqb_neq (wanted_mask c) 0)) by done. rewrite Hev.
    set (op := if _ || _ || _ then EPOLL_CTL_MOD else EPOLL_CTL_ADD).
    assert (Hex : ∃ r k', (match epoll_ctl k op (ch_fd c) (Z.lor (wanted_mask c) e) with
      | (None, k) => (0, k)
      | (Some errno, k) =>
          if op =? EPOLL_CTL_MOD then if errno =? ENOENT then retried k EPOLL_CTL_ADD (ch_fd c) (Z.lor (wanted_mask c) e) else (-1, k)
          else if op =? EPOLL_CTL_ADD then if errno =? EEXIST then retried k EPOLL_CTL_MOD (ch_fd c) (Z.lor (wanted_mask c) e) else (-1, k)
          else if op =? EPOLL_CTL_DEL then if (errno =? ENOENT) || (errno =? EBADF) || (errno =? EPERM) then (0, k) else (-1, k)
          else (-1, k) end) = (r, k') ∧
        (r = 0 ∧ interest k' (ch_fd c) = Some (Z.lor (wanted_mask c) e) ∨ r = -1 ∧ interest k' (ch_fd c) = interest k (ch_fd c)) ∧
        ∀ fd', fd' ≠ ch_fd c → interest k' fd' = interest k fd').
    { unfold op. destruct (_ || _ || _); [apply (register_ok k EPOLL_CTL_MOD EPOLL_CTL_ADD)|apply (register_ok k EPOLL_CTL_ADD EPOLL_CTL_MOD)]; tauto. }
    destruct Hex as (r & k' & E & Hres & Ho). rewrite E. eexists _, _. split; [done|].
    unfold changed_one. destruct Hres as [[-> Hi]|[-> Hi]]; split_and!; try done; try tauto. intros _ _. by eapply registered_agrees.
Qed.
(** ** Additions and deletions *)

Lemma one_agrees k c r k' w :
  changed_one c k r k' → r = 0 → (∃ bit, condition bit ∧ change_of c bit ≠ 0) → (∀ bit, condition bit → w bit = wanted c bit) →
  agrees k' (ch_fd c) w.
Proof. intros (_ & _ & _ & _ & Ha) -> Hc Hw. by apply (agrees_ext k' k' _ (wanted c)); [|apply Hw|apply Ha]. Qed.

Lemma nochangelist_add_ok k fd old events :
  (∃ bit, condition bit ∧ has bit events = true) →
  ∃ r k', epoll_nochangelist_add k fd old events = Some (r, k') ∧ (r = 0 ∨ r = -1) ∧
    (∀ fd', fd' ≠ fd → interest k' fd' = interest k fd') ∧ (r = -1 → interest k' fd = interest k fd) ∧
    (r = 0 → agrees k' fd (λ bit, has bit events || has bit old)).
Proof.
  intros (b & Hb & Hbe). unfold epoll_nochangelist_add. set (c := Event_change _ _ _ _ _).
  assert (Hch : ∀ bit, condition bit → change_of c bit = if has bit events then 1 else 0).
  { unfold change_of, c. intros bit [-> |[-> | ->]]; cbn [Z.eqb Pos.eqb EV_READ EV_WRITE EV_CLOSED read_change write_change close_change];
      case_match; [|done| |done| |done]; by apply flags_land. }
  destruct (apply_one_ok k c) as (r & k' & E & Hone); [intros bit Hbit; rewrite Hch by done; by case_match|].
  exists r, k'. split; [done|]. pose proof Hone as (Hr & Ho & Hf & _). split; [done|]. split; [done|]. split; [done|].
  intros H0r. change fd with (ch_fd c). eapply one_agrees; [done|done| |].
  - exists b. split; [done|]. by rewrite Hch, Hbe.
  - intros bit Hbit. unfold wanted, wanted_after. rewrite Hch by done. cbn [old_events c]. destruct (has bit events); [done|]. by rewrite andb_true_r.
Qed.

Lemma nochangelist_del_ok k fd old events :
  (∃ bit, condition bit ∧ has bit events = true) →
  ∃ r k', epoll_nochangelist_del k fd old events = Some (r, k') ∧ (r = 0 ∨ r = -1) ∧
    (∀ fd', fd' ≠ fd → interest k' fd' = interest k fd') ∧ (r = -1 → interest k' fd = interest k fd) ∧
    (r = 0 → agrees k' fd (λ bit, negb (has bit events) && has bit old)).
Proof.
  intros (b & Hb & Hbe). unfold epoll_nochangelist_del. set (c := Event_change _ _ _ _ _).
  assert (Hch : ∀ bit, condition bit → change_of c bit = if has bit events then 2 else 0).
  { unfold change_of, c. intros bit [-> |[-> | ->]]; cbn [Z.eqb Pos.eqb EV_READ EV_WRITE EV_CLOSED read_change write_change close_change];
      by case_match. }
  destruct (apply_one_ok k c) as (r & k' & E & Hone); [intros bit Hbit; rewrite Hch by done; by case_match|].
  exists r, k'. split; [done|]. pose proof Hone as (Hr & Ho & Hf & _). split; [done|]. split; [done|]. split; [done|].
  intros H0r. change fd with (ch_fd c). eapply one_agrees; [done|done| |].
  - exists b. split; [done|]. by rewrite Hch, Hbe.
  - intros bit Hbit. unfold wanted, wanted_after. rewrite Hch by done. cbn [old_events c]. destruct (has bit events); cbn; [by rewrite andb_false_r|by rewrite andb_true_r].
Qed.

(** ** A history of calls *)

Lemma has_recorded_events h fd bit : condition bit → has bit (recorded_events h fd) = recorded h fd bit.
Proof. intros Hb. unfold recorded_events. by rewrite has_conditions. Qed.

(** The kernel watches all that is recorded, and nothing else unless it has refused to stop. *)
Definition in_step (k : K) (h : history) : Prop :=
  ∀ fd, 0 <= fd → covers k fd (recorded h fd) ∧ (¬ del_failed h → agrees k fd (recorded h fd)).

Lemma in_step_same k h h' :
  (∀ fd bit, recorded h' fd bit = recorded h fd bit) → (¬ del_failed h' → ¬ del_failed h) → in_step k h → in_step k h'.
Proof.
  intros Hr Hd Hin fd Hfd. destruct (Hin fd Hfd) as [Hc Ha]. split.
  - eapply covers_ext; [done| |exact Hc]. intros bit _. by rewrite Hr.
  - intros Hnd. eapply agrees_ext; [done| |exact (Ha (Hd Hnd))]. intros bit _. by rewrite Hr.
Qed.

Lemma in_step_add k h fd old evs r k' :
  in_step k h → call_coherent h (evsel_add fd old evs) → epoll_nochangelist_add k fd old evs = Some (r, k') →
  in_step k' ((evsel_add fd old evs, negb (r =? -1)) :: h).
Proof.
  intros Hin (Hfd & -> & _ & Hne) E. destruct (nochangelist_add_ok k fd (recorded_events h fd) evs Hne) as (r' & k'' & E' & Hr & Ho & Hf & Ha).
  rewrite E in E'. injection E' as <- <-. intros fd' Hfd'. destruct (Hin fd' Hfd') as [Hc Hag].
  destruct (decide (fd' = fd)) as [->|Hnf].
  - destruct Hr as [-> | ->]; cbn [Z.eqb negb recorded].
    + assert (Hag' : agrees k' fd (λ bit, (fd =? fd) && has bit evs || recorded h fd bit)).
      { eapply agrees_ext; [done| |exact (Ha eq_refl)]. intros bit Hb. by rewrite Z.eqb_refl, has_recorded_events. }
      split; [by apply agrees_covers|done].
    + split; [eapply covers_ext; [by apply Hf| |exact Hc]; done|]. rewrite del_failed_add. intros Hd.
      eapply agrees_ext; [by apply Hf| |exact (Hag Hd)]. done.
  - assert (Hrec : ∀ bit, recorded ((evsel_add fd (recorded_events h fd) evs, negb (r =? -1)) :: h) fd' bit = recorded h fd' bit).
    { intros bit. cbn [recorded]. destruct (negb (r =? -1)); [|done]. by rewrite (proj2 (Z.eqb_neq fd' fd)). }
    split; [eapply covers_ext; [by apply Ho| |exact Hc]; intros bit _; by rewrite Hrec|].
    rewrite del_failed_add. intros Hd. eapply agrees_ext; [by apply Ho| |exact (Hag Hd)]. intros bit _. by rewrite Hrec.
Qed.

Lemma in_step_del k h fd old evs r k' :
  in_step k h → call_coherent h (evsel_del fd old evs) → epoll_nochangelist_del k fd old evs = Some (r, k') →
  in_step k' ((evsel_del fd old evs, negb (r =? -1)) :: h).
Proof.
  intros Hin (Hfd & -> & _ & Hne & _) E. destruct (nochangelist_del_ok k fd (recorded_events h fd) evs Hne) as (r' & k'' & E' & Hr & Ho & Hf & Ha).
  rewrite E in E'. injection E' as <- <-. intros fd' Hfd'. destruct (Hin fd' Hfd') as [Hc Hag].
  assert (Hrec : ∀ bit, recorded ((evsel_del fd (recorded_events h fd) evs, negb (r =? -1)) :: h) fd' bit =
    negb ((fd' =? fd) && has bit evs) && recorded h fd' bit) by (intros bit; cbn [recorded]; by destruct (negb (r =? -1))).
  assert (Hd : ¬ del_failed ((evsel_del fd (recorded_events h fd) evs, negb (r =? -1)) :: h) → r = 0 ∧ ¬ del_failed h).
  { intros Hd. destruct Hr as [-> | ->]; [split; [done|]|].
    - intros (f & o & e & Hin'). apply Hd. exists f, o, e. by right.
    - destruct Hd. eexists _, _, _. by left. }
  destruct (decide (fd' = fd)) as [->|Hnf].
  - assert (Hag' : r = 0 → agrees k' fd (recorded ((evsel_del fd (recorded_events h fd) evs, negb (r =? -1)) :: h) fd)).
    { intros H0r. eapply agrees_ext; [done| |exact (Ha H0r)]. intros bit Hb. by rewrite Hrec, Z.eqb_refl, has_recorded_events. }
    split; [|intros [H0r _]%Hd; auto]. destruct Hr as [H0r|H1r]; [by apply agrees_covers, Hag'|].
    eapply covers_ext; [by apply Hf| |exact Hc]. intros bit _. rewrite Hrec. by intros [_ ?]%andb_true_iff.
  - assert (Hrec' : ∀ bit, recorded ((evsel_del fd (recorded_events h fd) evs, negb (r =? -1)) :: h) fd' bit = recorded h fd' bit).
    { intros bit. by rewrite Hrec, (proj2 (Z.eqb_neq fd' fd)). }
    split; [eapply covers_ext; [by apply Ho| |exact Hc]; intros bit _; by rewrite Hrec'|].
    intros [_ Hnd]%Hd. eapply agrees_ext; [by apply Ho| |exact (Hag Hnd)]. intros bit _. by rewrite Hrec'.
Qed.

(** Every call has been answered by the back end. *)
Fixpoint answered (backend : history → backend_call → bool) (h : history) : Prop :=
  match h with [] => True | (c, ok) :: h => ok = backend h c ∧ answered backend h end.

Lemma history_in_step sigs k0 h :
  (∀ fd, interest k0 fd = None) → coherent h → answered (epollops sigs k0) h → ∃ k, epoll_after k0 h = Some k ∧ in_step k h.
Proof.
  intros Hk0. induction h as [|[c ok] h IH]; cbn [coherent answered].
  { intros _ _. exists k0. split; [done|]. intros fd Hfd. unfold covers, agrees. rewrite Hk0. done. }
  intros [Hc Hco] [-> Han]. destruct (IH Hco Han) as (k & Hk & Hin).
  cbn [epoll_after]. rewrite Hk. cbn [mbind option_bind]. destruct c as [fd old evs|fd old evs|sig|sig]; cbn [epollops epoll_call].
  - destruct (nochangelist_add_ok k fd old evs) as (r & k' & E & _); [by destruct Hc as (_ & _ & _ & ?)|].
    rewrite Hk. cbn [mbind option_bind epoll_call]. rewrite E. exists k'. split; [done|]. by eapply in_step_add.
  - destruct (nochangelist_del_ok k fd old evs) as (r & k' & E & _); [by destruct Hc as (_ & _ & _ & ? & _)|].
    rewrite Hk. cbn [mbind option_bind epoll_call]. rewrite E. exists k'. split; [done|]. by eapply in_step_del.
  - exists k. split; [done|]. apply (in_step_same k h); [done| |exact Hin]. intros Hd (f & o & e & Hin'). apply Hd. exists f, o, e. by right.
  - exists k. split; [done|]. apply (in_step_same k h); [done| |exact Hin]. intros Hd (f & o & e & Hin'). apply Hd. exists f, o, e. by right.
Qed.
End kernel.

(** ** A kernel *)

(** A kernel with a table of descriptors, those from 64 on are closed. *)
#[export] Instance table_epoll : Epoll (gmap Z Z) := {
  interest k fd := if 64 <=? fd then None else k !! fd;
  epoll_ctl k op fd events :=
    if 64 <=? fd then (Some EBADF, k)
    else if op =? EPOLL_CTL_ADD then match k !! fd with Some _ => (Some EEXIST, k) | None => (None, <[fd := events]> k) end
    else match k !! fd with
      | None => (Some ENOENT, k)
      | Some _ => (None, if op =? EPOLL_CTL_DEL then delete fd k else <[fd := events]> k)
      end
}.
#[export] Instance table_laws : EpollLaws (gmap Z Z).
Proof.
  split; cbn; intros; repeat case_match; simplify_eq/=; try done;
    rewrite ?lookup_insert_eq, ?lookup_delete_eq, ?lookup_insert_ne, ?lookup_delete_ne by done; try done.
  by match goal with H : _ = EPOLL_CTL_ADD ∨ _ |- _ => destruct H as [-> | ->] end.
Qed.

(** ** The wait *)

(** epoll_wait is never told to return before the time has passed, unless it is too long for the kernel. *)
Lemma epoll_timeout_bounds tv :
  tv_normal tv → 0 <= tv_sec tv →
  let t := epoll_timeout (Some tv) in
  0 <= t <= MAX_EPOLL_TIMEOUT_MSEC ∧ (t < MAX_EPOLL_TIMEOUT_MSEC → tv_micros tv <= t * 1000 < tv_micros tv + 1000).
Proof.
  intros Hn Hs. unfold tv_normal, tv_micros, epoll_timeout, evutil_tv_to_msec_, MAX_SECONDS_IN_MSEC_LONG, LONG_MAX, MAX_EPOLL_TIMEOUT_MSEC in *.
  change (Z.quot (2 ^ 63 - 1 - 999) 1000) with 9223372036854774. rewrite (proj2 (Z.ltb_ge 1000000 (tv_usec tv))) by lia. cbn [orb].
  pose proof (Z.quot_div_nonneg (tv_usec tv + 999) 1000 ltac:(lia) ltac:(lia)) as Hq. rewrite Hq.
  pose proof (Z.div_mod (tv_usec tv + 999) 1000 ltac:(lia)) as Hd. pose proof (Z.mod_pos_bound (tv_usec tv + 999) 1000 ltac:(lia)) as Hm.
  destruct (Z.ltb_spec 9223372036854774 (tv_sec tv)); cbn zeta.
  - change (-1 <? 0) with true. cbn [orb]. lia.
  - rewrite (proj2 (Z.ltb_ge _ 0)) by lia. cbn [orb]. destruct (Z.ltb_spec (35 * 60 * 1000) (tv_sec tv * 1000 + (tv_usec tv + 999) / 1000)); lia.
Qed.

(** What evmap_io_active_ is told of: the conditions a program can wait for, and always that the report is
    new. *)
Lemma reports_spec l fd ev :
  io_ready fd ev ∈ reports l → ∃ what, (fd, what) ∈ l ∧ ev = Z.lor (reported_events what) EV_ET ∧ reported_events what ≠ 0.
Proof.
  induction l as [|[fd' what] l IH]; cbn [reports]; [by intros ?%not_elem_of_nil|].
  destruct (Z.eqb_spec (reported_events what) 0) as [|Hne].
  - intros (w & Hw & ?)%IH. exists w. split; [by right|done].
  - intros [[= -> ->]|(w & Hw & ?)%IH]%elem_of_cons; [exists what; split; [by left|done]|exists w; split; [by right|done]].
Qed.
Lemma reported_reads what : has EPOLLIN what = true → has EV_READ (reported_events what) = true.
Proof. intros H. unfold reported_events, set_if. rewrite H. by repeat case_match. Qed.
Lemma reported_writes what : has EPOLLOUT what = true → has EV_WRITE (reported_events what) = true.
Proof. intros H. unfold reported_events, set_if. rewrite H. by repeat case_match. Qed.
