(* ===== verification/EpollSystem.v ===== *)
(** * An event base on top of epoll

    The functions of an event base record every call of the back end with the answer it has given; so when
    the back end is that of epoll, the kernel watches what the inserted events of the base wait for. *)

From S2P Require Import Prelude Timeval Event MinHeap EvMap EventBase EventBaseOk EventApi EventCheck EventCalls EventLive EventSystem.
From S2P Require Import EventTimeout EventDispatch EventProcess EventLoop EpollTable Epoll EpollOk.

(** ** The history is that of the back end *)

Section answered.
Context (mm : nat → Z → bool) (backend : history → backend_call → bool) (fdinfo_len : Z) (clock : nat → timeval).

Lemma call_answered c m ok m' : call_backend backend c m = (ok, m') → answered backend (calls m) → answered backend (calls m').
Proof. unfold call_backend. intros [= <- <-] Ha. by split. Qed.

Definition maps_answered (f : store → evmaps → option (Z * evmaps)) : Prop :=
  ∀ st m r m', f st m = Some (r, m') → answered backend (calls m) → answered backend (calls m').

Ltac solve_answered :=
  repeat (simplify_option_eq || case_match || simplify_eq); cbn [calls with_io with_sigmap with_allocs set_io set_signal] in *;
  try done; try (eapply call_answered; [eassumption|]; done).

Lemma io_add_answered fd x : maps_answered (λ st m, evmap_io_add_ mm backend fdinfo_len st fd x m).
Proof.
  intros st m r m' E Ha. unfold evmap_io_add_, io_add_ctx in E. solve_answered.
Qed.
Lemma io_del_answered fd x : maps_answered (λ st m, evmap_io_del_ backend st fd x m).
Proof. intros st m r m' E Ha. unfold evmap_io_del_ in E. solve_answered. Qed.
Lemma signal_add_answered sig x : maps_answered (λ st m, evmap_signal_add_ mm backend st sig x m).
Proof. intros st m r m' E Ha. unfold evmap_signal_add_ in E. solve_answered. Qed.
Lemma signal_del_answered sig x : maps_answered (λ st m, evmap_signal_del_ backend st sig x m).
Proof. intros st m r m' E Ha. unfold evmap_signal_del_ in E. solve_answered. Qed.

(** A computation of which every call of the back end has been answered by it. *)
Definition tracks {A} (m : EM A) : Prop :=
  ∀ b a b', m b = Some (a, b') → answered backend (calls (maps b)) → answered backend (calls (maps b')).

Lemma tracks_silent {A} (m : EM A) : (∀ b a b', m b = Some (a, b') → calls (maps b') = calls (maps b)) → tracks m.
Proof. intros H b a b' E Ha. by rewrite (H _ _ _ E). Qed.
Lemma tracks_ret {A} (a : A) : tracks (mret a).
Proof. apply tracks_silent. by intros b a' b' [= <- <-]. Qed.
Lemma tracks_bind {A B} (m : EM A) (f : A → EM B) : tracks m → (∀ a, tracks (f a)) → tracks (m ≫= f).
Proof. intros Hm Hf b r b' E Ha. apply bind_Some in E as ([a b1] & E1 & E2). eapply Hf, Hm; done. Qed.
Lemma tracks_fmap {A B} (f : A → B) (m : EM A) : tracks m → tracks (f <$> m).
Proof. intros Hm b r b' E Ha. apply bind_Some in E as ([a b1] & E1 & E2). injection E2 as <- <-. by eapply Hm. Qed.
Lemma tracks_fails {A} : tracks (fails : EM A).
Proof. by intros b a b' E. Qed.
Lemma tracks_gets {A} (f : event_base → A) : tracks (gets f).
Proof. apply tracks_silent. by intros b a' b' [= <- <-]. Qed.
Lemma tracks_lift {A} (f : event_base → option A) : tracks (lift f).
Proof. apply tracks_silent. intros b a' b' E. apply bind_Some in E as (a & E1 & E2). by injection E2 as <- <-. Qed.
Lemma tracks_modify f : (∀ b, calls (maps (f b)) = calls (maps b)) → tracks (modify f).
Proof. intros H. apply tracks_silent. by intros b a' b' [= <- <-]. Qed.
Lemma tracks_when c m : tracks m → tracks (when c m).
Proof. destruct c; [done|]. intros _. apply tracks_ret. Qed.
Lemma tracks_assert c : tracks (assert c).
Proof. destruct c; [apply tracks_ret|apply tracks_fails]. Qed.
Lemma tracks_run_maps f : maps_answered f → tracks (run_maps f).
Proof. intros Hf b r b' E Ha. apply bind_Some in E as ([z m'] & E1 & E2). injection E2 as <- <-. by eapply Hf. Qed.
End answered.

Create HintDb tracks.
#[export] Hint Resolve tracks_ret tracks_fails tracks_gets tracks_lift tracks_assert : tracks.
#[export] Hint Resolve io_add_answered io_del_answered signal_add_answered signal_del_answered : tracks.

(** Without a call of the back end. *)
Ltac silent :=
  apply tracks_silent; let E := fresh in intros ??? E;
  repeat (simplify_option_eq || case_match || simplify_eq); done.
Ltac track_step :=
  match goal with
  | |- ∀ _, _ => intro
  | |- tracks _ (_ ≫= _) => apply tracks_bind
  | |- tracks _ (_ <$> _) => apply tracks_fmap
  | |- tracks _ (when _ _) => apply tracks_when
  | |- tracks _ (modify _) => apply tracks_modify; intro; repeat case_match; done
  | |- tracks _ (run_maps _) => apply tracks_run_maps
  | |- tracks _ (let '(_, _) := ?x in _) => destruct x
  | _ => solve [eauto 2 with tracks]
  | |- context [match ?x with _ => _ end] => destruct x
  end.
Ltac track := repeat track_step.

Section functions.
Context (mm : nat → Z → bool) (backend : history → backend_call → bool) (fdinfo_len : Z) (clock : nat → timeval).
Local Abbreviation tracks := (tracks backend).

Lemma track_get_event x : tracks (get_event x).
Proof. unfold get_event. track. Qed.
Lemma track_get_cb p : tracks (get_cb p).
Proof. unfold get_cb. track. Qed.
Lemma track_upd_event f x : tracks (upd_event f x).
Proof. unfold upd_event. silent. Qed.
Lemma track_upd_cb f p : tracks (upd_cb f p).
Proof. destruct p; [apply track_upd_event|]. unfold upd_cb. silent. Qed.
Hint Resolve track_get_event track_get_cb track_upd_event track_upd_cb : tracks.
Lemma track_decr flags : tracks (DECR_EVENT_COUNT flags).
Proof. unfold DECR_EVENT_COUNT. track. Qed.
Lemma track_incr flags : tracks (INCR_EVENT_COUNT flags).
Proof. unfold INCR_EVENT_COUNT. track. Qed.
Lemma track_active_remove pri p : tracks (active_remove pri p).
Proof. unfold active_remove. silent. Qed.
Lemma track_active_insert pri p : tracks (active_insert_tail pri p).
Proof. unfold active_insert_tail. silent. Qed.
Lemma track_later_remove p : tracks (later_remove p).
Proof. unfold later_remove. silent. Qed.
Hint Resolve track_decr track_incr track_active_remove track_active_insert track_later_remove : tracks.
Lemma track_remove_inserted x : tracks (event_queue_remove_inserted x).
Proof. unfold event_queue_remove_inserted. track. Qed.
Lemma track_remove_active p : tracks (event_queue_remove_active p).
Proof. unfold event_queue_remove_active, decr_active. track. Qed.
Lemma track_remove_later p : tracks (event_queue_remove_active_later p).
Proof. unfold event_queue_remove_active_later, decr_active. track. Qed.
Lemma track_insert_inserted x : tracks (event_queue_insert_inserted x).
Proof. unfold event_queue_insert_inserted. track. Qed.
Lemma track_insert_active p : tracks (event_queue_insert_active p).
Proof. unfold event_queue_insert_active, incr_active. track. Qed.
Lemma track_insert_later p : tracks (event_queue_insert_active_later p).
Proof. unfold event_queue_insert_active_later, incr_active, later_insert_tail. track. Qed.
Hint Resolve track_remove_inserted track_remove_active track_remove_later track_insert_inserted track_insert_active track_insert_later : tracks.
Lemma track_gettime : tracks (gettime clock).
Proof. unfold gettime. silent. Qed.
Lemma track_set_common i l : tracks (set_common_events i l).
Proof. unfold set_common_events. silent. Qed.
Lemma track_heap_reserve : tracks (heap_reserve mm).
Proof. unfold heap_reserve. silent. Qed.
Lemma track_heap_push x : tracks (heap_push mm x).
Proof. unfold heap_push. silent. Qed.
Lemma track_heap_erase x : tracks (heap_erase x).
Proof. unfold heap_erase. silent. Qed.
Lemma track_common_list tv : tracks (get_common_timeout_list tv).
Proof. unfold get_common_timeout_list. track. Qed.
Lemma track_write_counter k : tracks (write_counter k).
Proof. unfold write_counter. silent. Qed.
Hint Resolve track_gettime track_set_common track_heap_reserve track_heap_push track_heap_erase track_common_list track_write_counter : tracks.
Lemma track_inorder i x : tracks (insert_common_timeout_inorder i x).
Proof. unfold insert_common_timeout_inorder. track. Qed.
Hint Resolve track_inorder : tracks.
Lemma track_remove_timeout x : tracks (event_queue_remove_timeout x).
Proof. unfold event_queue_remove_timeout. track. Qed.
Lemma track_insert_timeout x : tracks (event_queue_insert_timeout mm x).
Proof. unfold event_queue_insert_timeout. track. Qed.
Lemma track_abort_calls x : tracks (abort_calls x).
Proof. unfold abort_calls. track. Qed.
Hint Resolve track_remove_timeout track_insert_timeout track_abort_calls : tracks.

Lemma track_add_timeout add x tv abs : (∀ x tv abs, tracks (add x tv abs)) → tracks (add_timeout mm clock add x tv abs).
Proof. intros Hadd. unfold add_timeout, common_timeout_schedule. track. Qed.
Lemma track_add_step add x tv abs : (∀ x tv abs, tracks (add x tv abs)) → tracks (event_add_step mm backend fdinfo_len clock add x tv abs).
Proof. intros Hadd. pose proof (track_add_timeout add) as Hat. unfold event_add_step. track. Qed.
Lemma track_add x tv : tracks (event_add mm backend fdinfo_len clock x tv).
Proof.
  unfold event_add, event_add_nolock_. track. do 2 (apply track_add_step; intros). apply tracks_fails.
Qed.
Lemma track_del_nolock x even : tracks (event_del_nolock_ backend x even).
Proof. unfold event_del_nolock_. track. Qed.
Hint Resolve track_add track_del_nolock : tracks.
Lemma track_add_nolock x tv abs : tracks (event_add_nolock_ mm backend fdinfo_len clock x tv abs).
Proof. unfold event_add_nolock_. do 2 (apply track_add_step; intros). apply tracks_fails. Qed.
Lemma track_remove_timer x : tracks (event_remove_timer x).
Proof. unfold event_remove_timer, event_remove_timer_nolock_. track. Qed.
Lemma track_activate_cb p : tracks (event_callback_activate_nolock_ p).
Proof. unfold event_callback_activate_nolock_. track. Qed.
Lemma track_activate_later p : tracks (event_callback_activate_later_nolock_ p).
Proof. unfold event_callback_activate_later_nolock_. track. Qed.
Hint Resolve track_add_nolock track_remove_timer track_activate_cb track_activate_later : tracks.
Lemma track_active_nolock x res ncalls : tracks (event_active_nolock_ x res ncalls).
Proof. unfold event_active_nolock_. track. Qed.
Hint Resolve track_active_nolock : tracks.
Lemma track_cancel p even : tracks (event_callback_cancel_nolock_ backend p even).
Proof. unfold event_callback_cancel_nolock_. track. Qed.
Lemma track_schedule p : tracks (event_deferred_cb_schedule_ p).
Proof. unfold event_deferred_cb_schedule_. track. Qed.
Lemma track_assign x fd events cb arg : tracks (event_assign x fd events cb arg).
Proof. unfold event_assign. silent. Qed.
Lemma track_priority_set x pri : tracks (event_priority_set x pri).
Proof. unfold event_priority_set. track. Qed.
Lemma track_mm_free x : tracks (mm_free_event x).
Proof. unfold mm_free_event. track. Qed.
Hint Resolve track_cancel track_schedule track_assign track_priority_set track_mm_free : tracks.
Lemma track_finalize free x cb : tracks (event_finalize_impl_ backend free x cb).
Proof. unfold event_finalize_impl_, event_finalize_nolock_. track. Qed.
Lemma track_add_common d : tracks (add_common d).
Proof.
  intros b a b' E Ha. unfold add_common in E.
  apply bind_Some in E as ([r1 b1] & E1 & E). apply bind_Some in E as ([r2 b2] & E2 & E). apply bind_Some in E as ([r3 b3] & E3 & E).
  pose proof (track_priority_set _ _ _ _ _ E3 (track_upd_cb _ _ _ _ _ E2 (track_assign _ _ _ _ _ _ _ _ E1 Ha))) as H3.
  case_match; [|done]. by injection E as <- <-.
Qed.
Lemma track_init_common d : tracks (event_base_init_common_timeout mm d).
Proof.
  intros b a b' E Ha. unfold event_base_init_common_timeout in E. cbv zeta in E.
  repeat case_match; simplify_eq; try done; exact (track_add_common _ _ _ _ E Ha).
Qed.
Hint Resolve track_finalize track_init_common : tracks.

Lemma track_api_step c : tracks (api_step mm backend fdinfo_len clock c).
Proof.
  destruct c; unfold api_step, event_active, event_free, event_del, event_deferred_cb_init_, event_deferred_cb_cancel_,
    event_base_loopbreak, event_base_loopcontinue; track.
Qed.
Lemma track_api_run cs : tracks (api_run mm backend fdinfo_len clock cs).
Proof. pose proof track_api_step. induction cs as [|c cs IH]; cbn [api_run]; track. Qed.
Lemma track_acts l : tracks (acts mm backend fdinfo_len clock l).
Proof. pose proof track_api_step. induction l as [|c l IH]; cbn [acts]; track. Qed.

(** ** The loop *)

Lemma track_clear_time : tracks clear_time_cache.
Proof. unfold clear_time_cache. track. Qed.
Hint Resolve track_clear_time : tracks.
Lemma track_update_time no_cache : tracks (update_time_cache clock no_cache).
Proof. unfold update_time_cache. track. Qed.
Lemma track_expire x : tracks (expire backend x).
Proof. unfold expire. track. Qed.
Hint Resolve track_update_time track_expire : tracks.
Lemma track_timeout_loop fuel now : tracks (timeout_loop backend fuel now).
Proof. induction fuel; cbn [timeout_loop]; unfold heap_top; track. Qed.
Lemma track_common_loop fuel i now : tracks (common_loop backend fuel i now).
Proof. induction fuel; cbn [common_loop]; track. Qed.
Hint Resolve track_timeout_loop track_common_loop : tracks.
Lemma track_timeout_process : tracks (timeout_process backend clock).
Proof. unfold timeout_process. track. Qed.
Lemma track_timeout_next : tracks (timeout_next clock).
Proof. unfold timeout_next, heap_top. track. Qed.
Lemma track_common_callback i : tracks (common_timeout_callback mm backend fdinfo_len clock i).
Proof. unfold common_timeout_callback, common_timeout_schedule. track. Qed.
Hint Resolve track_timeout_process track_timeout_next track_common_callback : tracks.
Lemma track_each f l : (∀ x, tracks (f x)) → tracks (each f l).
Proof. intros Hf. induction l; cbn [each]; track. Qed.
Lemma track_report l : tracks (report l).
Proof.
  induction l as [|[] l IH]; cbn [report]; unfold evmap_io_active_, evmap_signal_active_; [track|..];
    (apply tracks_bind; [|done]); track; apply track_each; track.
Qed.
Lemma track_make_later : tracks event_queue_make_later_events_active.
Proof.
  unfold event_queue_make_later_events_active. track. generalize (S (length a)). intros n.
  induction n; cbn [make_later_loop]; unfold make_later_active; track.
Qed.
Hint Resolve track_report track_make_later : tracks.

Section user.
Context (user : nat → invocation → EM unit) (track_user : ∀ k i, tracks (user k i)).
Hint Resolve track_user : tracks.

Lemma track_call_user i : tracks (call_user user i).
Proof. unfold call_user. track. Qed.
Hint Resolve track_call_user : tracks.
Lemma track_invoke cb fd res arg : tracks (invoke mm backend fdinfo_len clock user cb fd res arg).
Proof. unfold invoke. track. Qed.
Lemma track_invoke_self cb p arg : tracks (invoke_self user cb p arg).
Proof. unfold invoke_self. track. Qed.
Lemma track_invoke_finalize cb x arg : tracks (invoke_finalize user cb x arg).
Proof. unfold invoke_finalize. track. Qed.
Hint Resolve track_invoke track_invoke_self track_invoke_finalize : tracks.
Lemma track_set_frame f : tracks (set_frame f).
Proof. unfold set_frame. track. Qed.
Lemma track_set_current p : tracks (set_current p).
Proof. unfold set_current. track. Qed.
Hint Resolve track_set_frame track_set_current : tracks.
Lemma track_signal_loop u fuel k x : (∀ cb fd res arg, tracks (u cb fd res arg)) → tracks (signal_loop u fuel k x).
Proof. intros Hu. induction fuel; cbn [signal_loop]; track. Qed.
Lemma track_signal_closure u x : (∀ cb fd res arg, tracks (u cb fd res arg)) → tracks (event_signal_closure u x).
Proof. intros Hu. unfold event_signal_closure. track. by apply track_signal_loop. Qed.
Lemma track_call_event x : tracks (call_event mm backend fdinfo_len clock user x).
Proof. unfold call_event. track. Qed.
Lemma track_persist x : tracks (event_persist_closure mm backend fdinfo_len clock user x).
Proof. unfold event_persist_closure, persist_reschedule. pose proof track_call_event. track. Qed.
Lemma track_take_active p : tracks (take_active backend p).
Proof. unfold take_active. track. Qed.
Hint Resolve track_call_event track_persist track_take_active : tracks.
Lemma track_event_closure closure x : tracks (event_closure mm backend fdinfo_len clock user closure x).
Proof. unfold event_closure. track. apply track_signal_closure. track. Qed.
Hint Resolve track_event_closure : tracks.
Lemma track_call_closure p ev : tracks (call_closure mm backend fdinfo_len clock user p ev).
Proof. unfold call_closure. track. Qed.
Hint Resolve track_call_closure : tracks.
Lemma track_process_one p count : tracks (process_one mm backend fdinfo_len clock user p count).
Proof. unfold process_one. track. Qed.
Lemma track_past_end cfg endtime count : tracks (past_end clock cfg endtime count).
Proof. unfold past_end. track. Qed.
Hint Resolve track_process_one track_past_end : tracks.
Lemma track_single cfg fuel i mx endtime count : tracks (single_queue_loop mm backend fdinfo_len clock user cfg fuel i mx endtime count).
Proof. revert count. induction fuel; intros count; cbn [single_queue_loop]; track. Qed.
Lemma track_running i : tracks (set_running_priority i).
Proof. unfold set_running_priority. track. Qed.
Hint Resolve track_single track_running : tracks.
Lemma track_queues cfg fuel n i endtime c : tracks (process_queues mm backend fdinfo_len clock user cfg fuel n i endtime c).
Proof. revert i c. induction n; intros i c; cbn [process_queues]; unfold event_process_active_single_queue; track. Qed.
Hint Resolve track_queues : tracks.
Lemma track_process cfg fuel : tracks (event_process_active mm backend fdinfo_len clock user cfg fuel).
Proof. unfold event_process_active, dispatch_end. track. Qed.
Hint Resolve track_process : tracks.

Lemma track_end_round cfg fuel flags : tracks (end_round mm backend fdinfo_len clock user cfg fuel flags).
Proof. unfold end_round. track. Qed.
Lemma track_wait_time flags : tracks (wait_time clock flags).
Proof. unfold wait_time. track. Qed.
Hint Resolve track_end_round track_wait_time : tracks.
Lemma track_rounds dispatch cfg fuel rounds k flags : tracks (loop_rounds mm backend fdinfo_len clock dispatch user cfg fuel rounds k flags).
Proof. revert k. induction rounds; intros k; cbn [loop_rounds]; unfold start_round; track. Qed.
Hint Resolve track_rounds : tracks.
Lemma track_loop dispatch cfg fuel rounds flags : tracks (event_base_loop mm backend fdinfo_len clock dispatch user cfg fuel rounds flags).
Proof. unfold event_base_loop, set_running_loop, clear_stop. track. Qed.
End user.
End functions.

(** ** What the kernel watches *)

Definition watches {K} `{Epoll K} (k : K) (fd bit : Z) : Prop := ∃ e, interest k fd = Some e ∧ has (epoll_bit bit) e = true.
Definition wants (b : event_base) (fd bit : Z) : Prop :=
  ∃ x ev, evs b !! x = Some ev ∧ has EVLIST_INSERTED (ev_flags ev) = true ∧ ev_fd ev = fd ∧ has bit (ev_events ev) = true.

Lemma in_step_wanted {K} `{EpollLaws K} k b fd :
  base_ok b → in_step k (calls (maps b)) → 0 <= fd →
  (∀ bit, condition bit → wants b fd bit → watches k fd bit) ∧
  (¬ del_failed (calls (maps b)) → (∀ bit, condition bit → watches k fd bit → wants b fd bit) ∧
     (is_Some (interest k fd) → ∃ bit, condition bit ∧ wants b fd bit)).
Proof.
  intros Hok Hin Hfd. destruct (Hin fd Hfd) as [Hc Ha]. destruct (em_history _ _ (bo_maps _ Hok)) as [_ Hrec].
  assert (Hw : ∀ bit, condition bit → recorded (calls (maps b)) fd bit = true → wants b fd bit).
  { intros bit Hb Hr. rewrite Hrec in Hr by done. apply Z.ltb_lt in Hr. by apply waiting_inserted. }
  split.
  - intros bit Hb (x & ev & Hx & Hi & <- & Hbit). apply Hc; [done|]. rewrite Hrec by done. apply Z.ltb_lt. by eapply inserted_waiting.
  - intros Hd. specialize (Ha Hd). unfold agrees in Ha. split.
    + intros bit Hb (e & He & Hbit). rewrite He in Ha. destruct Ha as [_ Ha]. apply Hw; [done|]. by rewrite <- Ha.
    + intros [e He]. rewrite He in Ha. destruct Ha as [(bit & Hb & Hr) _]. exists bit. auto.
Qed.

(** C8. An event base on top of epoll, of a program that makes [allowed] calls only, before the loop and in
    its callbacks, and closes no descriptor that is watched (the kernel's set changes by epoll_ctl
    alone): whatever becomes ready and whichever calls of epoll_ctl fail, after any number of rounds of
    event_base_loop the kernel watches every descriptor for all that the inserted events on it wait for;
    and for nothing else, unless it has refused to stop watching. *)
Theorem epoll_watches {K} `{EpollLaws K} mm fdinfo_len clock dispatch prog cfg fuel rounds flags cs sigs (k0 : K) b0 :
  clock_ok clock → fresh_base mm b0 → (∀ fd, interest k0 fd = None) →
  obeys mm (epollops sigs k0) fdinfo_len clock cs b0 →
  ∃ l b r b' k, api_run mm (epollops sigs k0) fdinfo_len clock cs b0 = Some (l, b) ∧
    event_base_loop mm (epollops sigs k0) fdinfo_len clock dispatch (runs mm (epollops sigs k0) fdinfo_len clock prog)
      cfg fuel rounds flags b = Some (r, b') ∧
    epoll_after k0 (calls (maps b')) = Some k ∧
    ∀ fd, 0 <= fd →
      (∀ bit, condition bit → wants b' fd bit → watches k fd bit) ∧
      (¬ del_failed (calls (maps b')) → (∀ bit, condition bit → watches k fd bit → wants b' fd bit) ∧
         (is_Some (interest k fd) → ∃ bit, condition bit ∧ wants b' fd bit)).
Proof.
  intros Hc Hf Hk0 Hob. set (backend := epollops sigs k0) in *.
  destruct (api_run_ok mm backend fdinfo_len clock Hc cs b0 (fresh_prog _ _ Hf) Hob) as (l & b & E & [Hp Hh] & _).
  assert (Hr : at_rest b) by by apply at_rest_intro; [|rewrite (hd_frame _ _ Hh); apply fresh_frame in Hf].
  destruct (loop_ok mm backend fdinfo_len clock dispatch (runs mm backend fdinfo_len clock prog) Hc
    (λ k i b Hb, acts_ok mm backend fdinfo_len clock (prog k i) b Hc Hb) cfg fuel rounds flags b Hr) as (r & b' & E' & Hr' & _).
  assert (Han : answered backend (calls (maps b'))).
  { eapply track_loop; [|exact E'|]; [intros; apply track_acts|]. eapply track_api_run; [exact E|]. by rewrite (fresh_calls _ _ Hf). }
  pose proof (api_base _ (proj1 Hr')) as Hok'. destruct (em_history _ _ (bo_maps _ Hok')) as [Hco _].
  destruct (history_in_step sigs k0 _ Hk0 Hco Han) as (k & Hk & Hin). exists l, b, r, b', k.
  do 3 (split; [done|]). intros fd Hfd. by apply in_step_wanted.
Qed.

(** Two sockets: what 1 waits for is added to and taken from what 2 waits for on the same socket. *)
Definition sockets : list api_call := [
  call_assign 1 4 (Z.lor EV_READ EV_PERSIST) 1 0; call_add 1 None;
  call_assign 2 4 (Z.lor EV_WRITE EV_PERSIST) 2 0; call_add 2 None;
  call_assign 3 7 EV_READ 3 0; call_add 3 None; call_assign 4 100 EV_READ 4 0; call_add 4 None].
Definition sockets_program : program := λ k i, match i with on_event 2 _ _ _ => [call_del 2] | _ => [] end.
Definition sockets_ready (k : nat) (tv : option timeval) : option (list ready) :=
  match k with 0%nat => Some [io_ready 4 EV_WRITE; io_ready 7 EV_READ] | _ => None end.

Lemma epoll_watches_witness :
  let backend := epollops accepts (∅ : gmap Z Z) in
  obeys grants backend 0 ticking sockets event_base_new ∧
  ∃ l b r b' (k : gmap Z Z), api_run grants backend 0 ticking sockets event_base_new = Some (l, b) ∧
    event_base_loop grants backend 0 ticking sockets_ready (runs grants backend 0 ticking sockets_program)
      (dispatch_limits None false) 20 20 0 b = Some (r, b') ∧
    epoll_after ∅ (calls (maps b')) = Some k ∧ k = {[4 := EPOLLIN]}.
Proof.
  assert (H1 : fresh_base grants event_base_new) by by left.
  assert (H2 : obeys grants (epollops accepts (∅ : gmap Z Z)) 0 ticking sockets event_base_new) by (apply check_obeys_spec; vm_compute; reflexivity).
  split; [exact H2|].
  destruct (epoll_watches grants 0 ticking sockets_ready sockets_program (dispatch_limits None false) 20 20 0 sockets accepts (∅ : gmap Z Z)
    event_base_new ticking_ok H1) as (l & b & r & b' & k & E1 & E2 & E3 & _); [|exact H2|].
  { intros fd. cbn. by case_match. }
  exists l, b, r, b', k. split; [exact E1|]. split; [exact E2|]. split; [exact E3|].
  assert (Hrun : match api_run grants (epollops accepts (∅ : gmap Z Z)) 0 ticking sockets event_base_new with
    | Some (_, b) => match event_base_loop grants (epollops accepts (∅ : gmap Z Z)) 0 ticking sockets_ready
          (runs grants (epollops accepts (∅ : gmap Z Z)) 0 ticking sockets_program) (dispatch_limits None false) 20 20 0 b with
        | Some (_, b') => bool_decide (epoll_after (∅ : gmap Z Z) (calls (maps b')) = Some {[4 := EPOLLIN]}) | None => false end
    | None => false end = true) by (vm_compute; reflexivity).
  rewrite E1, E2, E3 in Hrun. apply bool_decide_eq_true in Hrun. by injection Hrun.
Defined.
