(* ===== verification/Changelist.v ===== *)
(** * Changes that wait for the next dispatch

    With EVENT_BASE_FLAG_EPOLL_USE_CHANGELIST what evmap.c adds and deletes goes into a list first.  The
    kernel ends up with what it would have been told at once. *)

From S2P Require Import Prelude Timeval Event EvMap EventBaseOk EventLoop EpollTable Epoll EpollOk.

(** ** Adding to the list *)

Section list_of_changes.

(** The entries point to the changes, and every change is that of its descriptor. *)
Record changes_ok (cl : event_changelist) : Prop := {
  co_entry : ∀ i c, changes cl !! i = Some c → fdinfo cl (false, ch_fd c) = Z.of_nat i + 1;
  co_info : ∀ p, fdinfo cl p ≠ 0 → ∃ c, p = (false, ch_fd c) ∧ changes cl !! Z.to_nat (fdinfo cl p - 1) = Some c ∧ 0 < fdinfo cl p;
  co_no_signal : ∀ c, c ∈ changes cl → has EV_CHANGE_SIGNAL (read_change c) = false ∧ has EV_SIGNAL (old_events c) = false;
  co_sensible : ∀ c bit, c ∈ changes cl → condition bit → change_of c bit ≠ 3;
  co_range : ∀ c, c ∈ changes cl → 0 <= ch_fd c < 2 ^ 29;
  co_size : Zlen (changes cl) <= changes_size cl
}.

(** The change of a descriptor, if there is one. *)
Definition pending_change (cl : event_changelist) (fd : Z) : option event_change :=
  if fdinfo cl (false, fd) =? 0 then None else changes cl !! Z.to_nat (fdinfo cl (false, fd) - 1).

Lemma changes_nodup cl : changes_ok cl → NoDup (ch_fd <$> changes cl).
Proof.
  intros [He _ _ _ _ _]. apply NoDup_alt. intros i j fd Hi Hj. rewrite list_lookup_fmap in Hi, Hj.
  destruct (changes cl !! i) as [c|] eqn:Ei; [|done]. destruct (changes cl !! j) as [d|] eqn:Ej; [|done].
  injection Hi as Hi. injection Hj as Hj. pose proof (He i c Ei) as H1. pose proof (He j d Ej) as H2. rewrite Hi in H1. rewrite Hj, H1 in H2. lia.
Qed.

Lemma changes_few cl : changes_ok cl → Zlen (changes cl) <= 2 ^ 29.
Proof.
  intros Hok. rewrite <- (length_fmap ch_fd). pose proof (changes_nodup cl Hok) as Hnd.
  assert (Hsub : (ch_fd <$> changes cl) ⊆ seqZ 0 (2 ^ 29)).
  { intros fd (c & -> & Hc)%list_elem_of_fmap. apply elem_of_seqZ. pose proof (co_range _ Hok c Hc). lia. }
  pose proof (submseteq_length _ _ (NoDup_submseteq _ _ Hnd Hsub)) as Hl. rewrite length_seqZ in Hl. lia.
Qed.
Lemma pending_at cl fd i c : changes_ok cl → changes cl !! i = Some c → ch_fd c = fd → pending_change cl fd = Some c.
Proof.
  intros Hok Hi <-. unfold pending_change. rewrite (co_entry _ Hok i c Hi). rewrite (proj2 (Z.eqb_neq _ _)) by lia.
  by replace (Z.to_nat (Z.of_nat i + 1 - 1)) with i by lia.
Qed.
Lemma pending_inv cl fd c :
  changes_ok cl → pending_change cl fd = Some c →
  changes cl !! Z.to_nat (fdinfo cl (false, fd) - 1) = Some c ∧ ch_fd c = fd ∧ fdinfo cl (false, fd) ≠ 0.
Proof.
  intros Hok. unfold pending_change. destruct (Z.eqb_spec (fdinfo cl (false, fd)) 0) as [|Hne]; [done|]. intros Hc.
  destruct (co_info _ Hok _ Hne) as (d & [= ->] & Hd & _). by rewrite Hc in Hd; injection Hd as ->.
Qed.
Lemma pending_none cl fd : changes_ok cl → pending_change cl fd = None → fdinfo cl (false, fd) = 0 ∧ ∀ c, c ∈ changes cl → ch_fd c ≠ fd.
Proof.
  intros Hok Hp. split.
  - unfold pending_change in Hp. destruct (Z.eqb_spec (fdinfo cl (false, fd)) 0) as [|Hne]; [done|].
    destruct (co_info _ Hok _ Hne) as (d & _ & Hd & _). by rewrite Hd in Hp.
  - intros c [i Hi]%list_elem_of_lookup Hfd. by rewrite (pending_at cl fd i c) in Hp.
Qed.

(** The check of the source. *)
Lemma assert_ok cl fds : changes_ok cl → event_changelist_assert_ok fds cl = true.
Proof.
  intros Hok. unfold event_changelist_assert_ok. rewrite !andb_true_iff. split; [split|].
  - apply Z.leb_le, Hok.
  - apply forallb_forall. intros b [i Hi]%list_elem_of_In%list_elem_of_lookup. rewrite list_lookup_imap in Hi.
    destruct (changes cl !! i) as [c|] eqn:Hc; [|done]. injection Hi as <-. unfold id, change_checked, event_change_get_fdinfo.
    assert (Hin : c ∈ changes cl) by by eapply list_elem_of_lookup_2. destruct (co_no_signal _ Hok c Hin) as [-> _].
    rewrite (co_entry _ Hok i c Hc), Z.eqb_refl, andb_true_r. apply Z.leb_le. by apply (co_range _ Hok).
  - apply forallb_forall. intros fd _. unfold event_changelist_assert_ok_foreach_iter_fn.
    destruct (Z.eqb_spec (fdinfo cl (false, fd)) 0) as [|Hne]; [done|]. destruct (co_info _ Hok _ Hne) as (c & [= ->] & -> & _). apply Z.eqb_refl.
Qed.

(** A new change. *)
Lemma fdinfo_insert cl l n p v q :
  fdinfo (Event_changelist l n (<[p := v]> (idxplus1 cl))) q = if decide (q = p) then v else fdinfo cl q.
Proof. unfold fdinfo. cbn. case_decide as E; [by rewrite E, lookup_insert_eq|by rewrite lookup_insert_ne]. Qed.

Definition new_change (fd old : Z) : event_change := Event_change fd old 0 0 0.

Lemma add_change_ok cl n fd old :
  changes_ok cl → pending_change cl fd = None → 0 <= fd < 2 ^ 29 → has EV_SIGNAL old = false → Zlen (changes cl) + 1 <= n →
  let cl' := Event_changelist (changes cl ++ [new_change fd old]) n (<[(false, fd) := Zlen (changes cl) + 1]> (idxplus1 cl)) in
  changes_ok cl' ∧ pending_change cl' fd = Some (new_change fd old) ∧ ∀ fd', fd' ≠ fd → pending_change cl' fd' = pending_change cl fd'.
Proof.
  intros Hok Hp Hfd Hs Hn cl'. destruct (pending_none _ _ Hok Hp) as [Hz Hno].
  assert (Hinfo : ∀ q, fdinfo cl' q = if decide (q = (false, fd)) then Zlen (changes cl) + 1 else fdinfo cl q) by (intros q; apply fdinfo_insert).
  assert (Hok' : changes_ok cl').
  { split.
    - intros i c Hi. rewrite Hinfo. apply lookup_snoc_Some in Hi as [[Hlt Hi]|[-> <-]].
      + rewrite decide_False; [by apply Hok|]. intros [= E]. apply (Hno c); [|done]. by apply list_elem_of_lookup_2 in Hi.
      + cbn. by rewrite decide_True.
    - intros p. rewrite Hinfo. case_decide as E.
      + intros _. exists (new_change fd old). split; [done|]. split; [|lia]. cbn. replace (Z.to_nat _) with (length (changes cl)) by lia. by rewrite list_lookup_middle.
      + intros Hne. destruct (co_info _ Hok p Hne) as (c & -> & Hc & Hpos). exists c. split; [done|]. split; [|done]. cbn. by apply lookup_app_l_Some.
    - intros c [Hc| ->%list_elem_of_singleton]%elem_of_app; [by apply Hok|done].
    - intros c bit [Hc| ->%list_elem_of_singleton]%elem_of_app Hb; [by apply Hok|]. by destruct Hb as [-> |[-> | ->]].
    - intros c [Hc| ->%list_elem_of_singleton]%elem_of_app; [by apply Hok|done].
    - cbn. rewrite length_app. cbn. lia. }
  split; [done|]. split.
  - eapply (pending_at cl' fd (length (changes cl))); [done| |done]. cbn. by rewrite list_lookup_middle.
  - intros fd' Hne. unfold pending_change. rewrite Hinfo, decide_False by congruence. destruct (Z.eqb_spec (fdinfo cl (false, fd')) 0) as [|Hne']; [done|].
    destruct (co_info _ Hok _ Hne') as (c & _ & Hc & _). rewrite Hc. cbn. by apply lookup_app_l_Some.
Qed.

Lemma get_or_construct_ok mm cl fd old :
  changes_ok cl → 0 <= fd < 2 ^ 29 → has EV_SIGNAL old = false →
  event_changelist_get_or_construct mm cl fd old (false, fd) = Some (None, cl) ∨
  ∃ idx cl', event_changelist_get_or_construct mm cl fd old (false, fd) = Some (Some idx, cl') ∧ changes_ok cl' ∧
    changes cl' !! idx = Some (default (new_change fd old) (pending_change cl fd)) ∧
    (∀ fd', pending_change cl' fd' = if decide (fd' = fd) then Some (default (new_change fd old) (pending_change cl fd)) else pending_change cl fd').
Proof.
  intros Hok Hfd Hs. unfold event_changelist_get_or_construct. destruct (pending_change cl fd) as [c|] eqn:Hp.
  - destruct (pending_inv _ _ _ Hok Hp) as (Hc & Hcf & Hne). rewrite (proj2 (Z.eqb_neq _ _)) by done.
    rewrite Hc. cbn [mbind option_bind]. rewrite Hcf, Z.eqb_refl. right. eexists _, _. split; [done|]. split; [done|]. split; [done|].
    intros fd'. by case_decide as E; [rewrite E|].
  - destruct (pending_none _ _ Hok Hp) as [Hz _]. rewrite Hz. cbn [Z.eqb]. pose proof (co_size _ Hok) as Hsz. pose proof (changes_few _ Hok) as Hfew.
    rewrite (proj2 (Z.ltb_ge _ _)) by done.
    assert (Hgrown : ∀ n, Zlen (changes cl) + 1 <= n → ∃ idx cl',
      Some (Some (length (changes cl)), Event_changelist (changes cl ++ [new_change fd old]) n (<[(false, fd) := Z.of_nat (length (changes cl)) + 1]> (idxplus1 cl)))
        = Some (Some idx, cl') ∧ changes_ok cl' ∧ changes cl' !! idx = Some (default (new_change fd old) None) ∧
      (∀ fd', pending_change cl' fd' = if decide (fd' = fd) then Some (default (new_change fd old) None) else pending_change cl fd')).
    { intros n Hn. destruct (add_change_ok cl n fd old Hok Hp Hfd Hs Hn) as (Hok' & H1 & H2). eexists _, _. split; [done|]. split; [done|].
      split; [cbn; by rewrite list_lookup_middle|]. intros fd'. case_decide as E; [by rewrite E|by apply H2]. }
    destruct (Z.eqb_spec (Zlen (changes cl)) (changes_size cl)) as [Heq|Hneq].
    + unfold event_changelist_grow.
      assert (Hgrow : ∃ n, (if changes_size cl <? 64 then Some 64 else int_chk (changes_size cl * 2)) = Some n ∧ changes_size cl < n).
      { destruct (Z.ltb_spec (changes_size cl) 64) as [Hlt|Hge]; [eauto|]. exists (changes_size cl * 2).
        rewrite int_chk_Some by (unfold INT_MIN, INT_MAX; lia). split; [done|lia]. }
      destruct Hgrow as (n & -> & Hn). cbn [mbind option_bind]. destruct (mm _); cbn [negb]; [|by left]. right. cbn [changes changes_size idxplus1].
      apply Hgrown. lia.
    + cbn [mbind option_bind negb]. right. apply Hgrown. lia.
Qed.

(** Changing a change. *)
Lemma set_change_ok cl idx c f :
  changes_ok cl → changes cl !! idx = Some c → ch_fd (f c) = ch_fd c → old_events (f c) = old_events c →
  has EV_CHANGE_SIGNAL (read_change (f c)) = false → (∀ bit, condition bit → change_of (f c) bit ≠ 3) →
  changes_ok (set_change idx f cl) ∧
  ∀ fd, pending_change (set_change idx f cl) fd = if decide (fd = ch_fd c) then Some (f c) else pending_change cl fd.
Proof.
  intros Hok Hi Hfd Hold Hs H3.
  assert (Hlk : ∀ j d, changes (set_change idx f cl) !! j = Some d → if decide (j = idx) then d = f c else changes cl !! j = Some d).
  { intros j d Hj. cbn in Hj. case_decide as E; [subst; rewrite list_lookup_alter_eq, Hi in Hj; by injection Hj|by rewrite list_lookup_alter_ne in Hj]. }
  assert (Hin : ∀ d, d ∈ changes (set_change idx f cl) → d = f c ∨ d ∈ changes cl).
  { intros d [j Hj]%list_elem_of_lookup. apply Hlk in Hj. case_decide; [by left|right]. by eapply list_elem_of_lookup_2. }
  assert (Hcin : c ∈ changes cl) by by eapply list_elem_of_lookup_2.
  assert (Hok' : changes_ok (set_change idx f cl)).
  { split.
    - intros j d Hj. change (fdinfo (set_change idx f cl)) with (fdinfo cl). apply Hlk in Hj. case_decide; [subst; rewrite Hfd|]; by apply Hok.
    - intros p Hp. destruct (co_info _ Hok p Hp) as (d & -> & Hd & Hpos). change (fdinfo (set_change idx f cl)) with (fdinfo cl) in *.
      destruct (decide (Z.to_nat (fdinfo cl (false, ch_fd d) - 1) = idx)) as [E|E].
      + exists (f c). rewrite E, Hi in Hd. injection Hd as ->. rewrite Hfd. cbn. rewrite E, list_lookup_alter_eq, Hi. by split_and!.
      + exists d. split; [done|]. cbn. by rewrite list_lookup_alter_ne.
    - intros d [->|Hd]%Hin; [|by apply Hok]. split; [done|]. rewrite Hold. by apply Hok.
    - intros d bit [->|Hd]%Hin Hb; [by apply H3|by apply Hok].
    - intros d [->|Hd]%Hin; [rewrite Hfd|]; by apply Hok.
    - cbn. rewrite length_alter. by apply Hok. }
  split; [done|]. intros fd. case_decide as E.
  - rewrite E. eapply (pending_at _ _ idx); [done| |done]. cbn. by rewrite list_lookup_alter_eq, Hi.
  - unfold pending_change. change (fdinfo (set_change idx f cl)) with (fdinfo cl). destruct (Z.eqb_spec (fdinfo cl (false, fd)) 0) as [|Hne]; [done|].
    cbn. rewrite list_lookup_alter_ne; [done|]. intros Heq. destruct (co_info _ Hok _ Hne) as (d & [= ->] & Hd & _).
    rewrite <- Heq, Hi in Hd. injection Hd as ->. done.
Qed.
End list_of_changes.

(** ** What a change says *)

Lemma has_lor_read events : has EV_SIGNAL events = false → has (Z.lor EV_READ EV_SIGNAL) events = has EV_READ events.
Proof. intros Hs. by rewrite has_or, Hs, orb_false_r. Qed.

Lemma flags_no_signal events :
  has EV_SIGNAL events = false → has EV_CHANGE_SIGNAL (uint8 (Z.lor EV_CHANGE_ADD (Z.land events (Z.lor EV_ET (Z.lor EV_PERSIST EV_SIGNAL))))) = false.
Proof.
  change EV_CHANGE_SIGNAL with (2 ^ 3). change EV_SIGNAL with (2 ^ 3) at 1. rewrite !has_testbit by done. intros Hs.
  unfold uint8. change 256 with (2 ^ 8). rewrite Z.mod_pow2_bits_low, Z.lor_spec, Z.land_spec, Hs by done. done.
Qed.

Lemma change_add_spec events c :
  has EV_SIGNAL events = false → has EV_CHANGE_SIGNAL (read_change c) = false →
  has EV_CHANGE_SIGNAL (read_change (change_add events c)) = false ∧
  (∀ bit, condition bit → change_of (change_add events c) bit = if has bit events then 1 else change_of c bit) ∧
  ∀ bit, condition bit → wanted (change_add events c) bit = has bit events || wanted c bit.
Proof.
  intros Hs Hc.
  assert (Hch : ∀ bit, condition bit → change_of (change_add events c) bit = if has bit events then 1 else change_of c bit).
  { unfold change_of, change_add. rewrite (has_lor_read events Hs). intros bit [-> |[-> | ->]];
      cbn [Z.eqb Pos.eqb EV_READ EV_WRITE EV_CLOSED read_change write_change close_change]; case_match; try done; by apply flags_land. }
  split; [|split; [exact Hch|]].
  - cbn. rewrite (has_lor_read events Hs). case_match; [by apply flags_no_signal|done].
  - intros bit Hb. unfold wanted, wanted_after. rewrite Hch by done. cbn [old_events change_add]. by destruct (has bit events).
Qed.

Lemma change_del_spec events c :
  has EV_SIGNAL events = false → has EV_CHANGE_SIGNAL (read_change c) = false → has EV_SIGNAL (old_events c) = false →
  has EV_CHANGE_SIGNAL (read_change (change_del events c)) = false ∧
  (∀ bit, condition bit → change_of (change_del events c) bit = if has bit events then (if has bit (old_events c) then 2 else 0) else change_of c bit) ∧
  ∀ bit, condition bit → wanted (change_del events c) bit = negb (has bit events) && wanted c bit.
Proof.
  intros Hs Hc Ho.
  assert (Hch : ∀ bit, condition bit → change_of (change_del events c) bit = if has bit events then (if has bit (old_events c) then 2 else 0) else change_of c bit).
  { unfold change_of, change_del. rewrite (has_lor_read events Hs), (has_lor_read (old_events c) Ho). intros bit [-> |[-> | ->]];
      cbn [Z.eqb Pos.eqb EV_READ EV_WRITE EV_CLOSED read_change write_change close_change]; by repeat case_match. }
  split; [|split; [exact Hch|]].
  - cbn. rewrite (has_lor_read events Hs). by repeat case_match.
  - intros bit Hb. unfold wanted, wanted_after. rewrite Hch by done. cbn [old_events change_del].
    by destruct (has bit events), (has bit (old_events c)).
Qed.

(** ** The kernel *)

Section kernel.
Context {K : Type} `{EpollLaws K}.

Lemma apply_loop_ok l (k : K) r0 :
  NoDup (ch_fd <$> l) → (∀ c bit, c ∈ l → condition bit → change_of c bit ≠ 3) →
  ∃ r k', apply_loop k l r0 = Some (r, k') ∧ (r = 0 → r0 = 0) ∧ (∀ fd, fd ∉ ch_fd <$> l → interest k' fd = interest k fd) ∧
    (r = 0 → ∀ c, c ∈ l → agrees k (ch_fd c) (λ bit, has bit (old_events c)) → agrees k' (ch_fd c) (wanted c)).
Proof.
  revert k r0. induction l as [|c l IH]; intros k r0 Hnd H3; cbn [apply_loop].
  { exists r0, k. split; [done|]. split; [done|]. split; [done|]. by intros _ c Hc%not_elem_of_nil. }
  cbn [fmap list_fmap] in *. apply NoDup_cons in Hnd as [Hni Hnd].
  destruct (apply_one_ok k c) as (r1 & k1 & -> & Hone); [intros bit; apply H3; by left|]. cbn [mbind option_bind].
  destruct (IH k1 (if r1 <? 0 then -1 else r0) Hnd) as (r & k' & -> & Hr & Hoth & Hall); [intros d bit Hd; apply H3; by right|].
  pose proof Hone as (Hr1 & Ho1 & _ & Hz1 & Ha1).
  assert (Hr0 : r = 0 → r1 = 0 ∧ r0 = 0). { intros E. specialize (Hr E). by destruct Hr1 as [-> | ->]. }
  exists r, k'. split; [done|]. split; [intros E; by apply Hr0|]. split.
  - intros fd [Hne Hni']%not_elem_of_cons. by rewrite Hoth, Ho1.
  - intros E d [->|Hd]%elem_of_cons Hold.
    + apply (agrees_ext k1 k' _ (wanted c)); [by apply Hoth|done|].
      destruct (decide (change_of c EV_READ = 0 ∧ change_of c EV_WRITE = 0 ∧ change_of c EV_CLOSED = 0)) as [(E1 & E2 & E3)|Hne].
      * assert (Hno : ∀ bit, condition bit → change_of c bit = 0) by (intros bit [-> |[-> | ->]]; done).
        destruct (Hz1 Hno) as [_ ->]. eapply agrees_ext; [done| |exact Hold]. intros bit Hb. unfold wanted, wanted_after. rewrite Hno by done.
        cbn. by rewrite andb_true_r.
      * apply Ha1; [by apply Hr0|]. destruct (decide (change_of c EV_READ = 0)); [|exists EV_READ; split; [by left|done]].
        destruct (decide (change_of c EV_WRITE = 0)); [|exists EV_WRITE; split; [right; by left|done]].
        exists EV_CLOSED. split; [right; by right|]. tauto.
    + apply Hall; [done|done|]. eapply agrees_ext; [|done|exact Hold]. apply Ho1. intros Heq. apply Hni. rewrite <- Heq. by apply list_elem_of_fmap_2.
Qed.

Lemma clear_fdinfo_ok (l : list event_change) (i : Z) (info : gmap (bool * Z) Z) :
  NoDup (ch_fd <$> l) → (∀ c, c ∈ l → has EV_CHANGE_SIGNAL (read_change c) = false) →
  (∀ j c, l !! j = Some c → default 0 (info !! (false, ch_fd c)) = i + Z.of_nat j + 1) →
  ∃ info', clear_fdinfo l i info = Some info' ∧
    ∀ p, default 0 (info' !! p) = if decide (p ∈ (λ c, (false, ch_fd c)) <$> l) then 0 else default 0 (info !! p).
Proof.
  revert i info. induction l as [|c l IH]; intros i info Hnd Hs Hinfo; cbn [clear_fdinfo].
  { exists info. split; [done|]. intros p. rewrite decide_False; [done|apply not_elem_of_nil]. }
  cbn [fmap list_fmap] in Hnd. apply NoDup_cons in Hnd as [Hni Hnd]. unfold event_change_get_fdinfo. rewrite Hs by by left.
  rewrite (Hinfo 0%nat c) by done. replace (i + Z.of_nat 0 + 1) with (i + 1) by lia. rewrite Z.eqb_refl.
  destruct (IH (i + 1) (<[(false, ch_fd c) := 0]> info) Hnd) as (info' & -> & Hi).
  { intros d Hd. apply Hs. by right. }
  { intros j d Hj. rewrite lookup_insert_ne.
    - rewrite (Hinfo (S j) d) by done. lia.
    - intros [= Heq]. apply Hni. rewrite Heq. apply list_elem_of_fmap_2. by eapply list_elem_of_lookup_2. }
  exists info'. split; [done|]. intros p. rewrite Hi. cbn [fmap list_fmap].
  destruct (decide (p ∈ (λ c, (false, ch_fd c)) <$> l)) as [Hp|Hp]; [rewrite decide_True; [done|by right]|].
  destruct (decide (p = (false, ch_fd c))) as [->|Hne].
  - rewrite lookup_insert_eq, decide_True; [done|by left].
  - rewrite lookup_insert_ne by done. rewrite decide_False; [done|]. by intros [?|?]%elem_of_cons.
Qed.
End kernel.

(** ** Calls and dispatches *)

Inductive cl_op := cl_call (c : backend_call) | cl_dispatch.

(** [cs_clean]: no change has failed so far. *)
Record cl_state (K : Type) := Cl_state { cs_h : history; cs_cl : event_changelist; cs_k : K; cs_clean : bool }.
Arguments Cl_state {K} _ _ _ _.
Arguments cs_h {K} _.
Arguments cs_cl {K} _.
Arguments cs_k {K} _.
Arguments cs_clean {K} _.

Section system.
Context {K : Type} `{EpollLaws K} (mm : nat → Z → bool).

(** epollops_changelist, and what epoll_dispatch does before it waits. *)
Definition cl_step (op : cl_op) (st : cl_state K) : option (cl_state K) :=
  let '(Cl_state h cl k clean) := st in
  match op with
  | cl_call (evsel_add fd old events as c) =>
      '(r, cl) ← event_changelist_add_ (mm (length h)) cl fd old events (false, fd);
      Some (Cl_state ((c, negb (r =? -1)) :: h) cl k clean)
  | cl_call (evsel_del fd old events as c) =>
      '(r, cl) ← event_changelist_del_ (mm (length h)) cl fd old events (false, fd);
      Some (Cl_state ((c, negb (r =? -1)) :: h) cl k clean)
  | cl_call c => Some (Cl_state ((c, true) :: h) cl k clean)
  | cl_dispatch =>
      '(r, k) ← epoll_apply_changes k cl;
      cl ← event_changelist_remove_all_ cl;
      Some (Cl_state h cl k (clean && (r =? 0)))
  end.
Fixpoint cl_run (ops : list cl_op) (st : cl_state K) : option (cl_state K) :=
  match ops with [] => Some st | op :: ops => st ← cl_step op st; cl_run ops st end.

(** The calls are those of evmap.c. *)
Definition in_range (c : backend_call) : Prop :=
  match c with evsel_add fd _ _ | evsel_del fd _ _ => fd < 2 ^ 29 | _ => True end.
Definition cl_allowed (op : cl_op) (st : cl_state K) : Prop :=
  match op with cl_call c => call_coherent (cs_h st) c ∧ in_range c | cl_dispatch => True end.
Fixpoint cl_obeys (ops : list cl_op) (st : cl_state K) : Prop :=
  match ops with [] => True | op :: ops => cl_allowed op st ∧ ∀ st', cl_step op st = Some st' → cl_obeys ops st' end.

Definition cl_start (k : K) : cl_state K := Cl_state [] (event_changelist_init_ ∅) k true.

(** The kernel and the changes make up what is recorded. *)
Definition synced (k : K) (h : history) (cl : event_changelist) (fd : Z) : Prop :=
  match pending_change cl fd with
  | Some c => agrees k fd (λ bit, has bit (old_events c)) ∧ ∀ bit, condition bit → wanted c bit = recorded h fd bit
  | None => agrees k fd (recorded h fd)
  end.
Record cl_inv (st : cl_state K) : Prop := {
  ci_changes : changes_ok (cs_cl st);
  ci_coherent : coherent (cs_h st);
  ci_synced : cs_clean st = true → ¬ del_failed (cs_h st) → ∀ fd, 0 <= fd → synced (cs_k st) (cs_h st) (cs_cl st) fd
}.

Lemma no_signal_recorded h fd : has EV_SIGNAL (recorded_events h fd) = false.
Proof. apply no_signal_conditions. Qed.

Lemma synced_ext k h h' cl fd : (∀ bit, recorded h' fd bit = recorded h fd bit) → synced k h cl fd → synced k h' cl fd.
Proof.
  intros Hr. unfold synced. destruct (pending_change cl fd) as [c|].
  - intros [Ha Hw]. split; [done|]. intros bit Hb. by rewrite Hw, Hr.
  - intros Ha. eapply agrees_ext; [done| |exact Ha]. intros bit _. by rewrite Hr.
Qed.

(** A change to the change of [fd], made or found. *)
Lemma call_ok k h cl (clean : bool) fd old f c res :
  cl_inv (Cl_state h cl k clean) → 0 <= fd < 2 ^ 29 → old = recorded_events h fd →
  (c = evsel_add fd old res ∨ c = evsel_del fd old res) → call_coherent h c →
  (∀ d, has EV_CHANGE_SIGNAL (read_change d) = false → has EV_SIGNAL (old_events d) = false → (∀ bit, condition bit → change_of d bit ≠ 3) →
     ch_fd (f d) = ch_fd d ∧ old_events (f d) = old_events d ∧ has EV_CHANGE_SIGNAL (read_change (f d)) = false ∧
     (∀ bit, condition bit → change_of (f d) bit ≠ 3) ∧
     ∀ bit, condition bit → (∀ bit, condition bit → wanted d bit = recorded h fd bit) → wanted (f d) bit = recorded ((c, true) :: h) fd bit) →
  ∃ r cl', ('(idx, cl) ← event_changelist_get_or_construct (mm (length h)) cl fd old (false, fd);
       Some (match idx with None => (-1, cl) | Some idx => (0, set_change idx f cl) end)) = Some (r, cl') ∧
    cl_inv (Cl_state ((c, negb (r =? -1)) :: h) cl' k clean).
Proof.
  intros [Hch Hco Hsy] Hfd Hold Hc Hcall Hf. cbn [cs_h cs_cl cs_k cs_clean] in *.
  destruct (get_or_construct_ok (mm (length h)) cl fd old Hch Hfd) as [-> |(idx & cl' & -> & Hok' & Hidx & Hp)]; [rewrite Hold; apply no_signal_recorded|..];
    cbn [mbind option_bind].
  - eexists _, _. split; [done|]. cbn [Z.eqb negb]. split; cbn [cs_h cs_cl cs_k cs_clean]; [done|by split|]. intros Hcl Hd fd' Hfd'.
    destruct Hc as [-> | ->].
    + eapply synced_ext; [|apply Hsy; [done| |done]]; [done|]. by rewrite del_failed_add in Hd.
    + destruct Hd. eexists _, _, _. by left.
  - set (d := default (new_change fd old) (pending_change cl fd)) in *.
    assert (Hdfd : ch_fd d = fd).
    { unfold d. destruct (pending_change cl fd) as [e|] eqn:E; [|done]. by apply pending_inv in E as (_ & ? & _). }
    assert (Hdin : d ∈ changes cl') by by eapply list_elem_of_lookup_2.
    destruct (co_no_signal _ Hok' d Hdin) as [Hs1 Hs2].
    destruct (Hf d Hs1 Hs2) as (F1 & F2 & F3 & F4 & F5); [intros bit; by apply Hok'|].
    destruct (set_change_ok cl' idx d f Hok' Hidx F1 F2 F3 F4) as [Hok'' Hpend].
    eexists _, _. split; [done|]. cbn [Z.eqb negb]. split; cbn [cs_h cs_cl cs_k cs_clean]; [done|by split|]. intros Hcl Hd fd' Hfd'.
    assert (Hd' : ¬ del_failed h) by (destruct Hc as [-> | ->]; by rewrite del_failed_cons in Hd).
    specialize (Hsy Hcl Hd'). unfold synced. rewrite Hpend, Hdfd. destruct (decide (fd' = fd)) as [->|Hne].
    + specialize (Hsy fd Hfd'). unfold synced in Hsy. rewrite F2. unfold d in *. destruct (pending_change cl fd) as [e|]; cbn [default] in *.
      * destruct Hsy as [Ha Hw]. split; [done|]. intros bit Hb. by apply F5.
      * split.
        -- eapply agrees_ext; [done| |exact Hsy]. intros bit Hb. cbn [old_events new_change]. by rewrite Hold, has_recorded_events.
        -- intros bit Hb. apply F5; [done|]. intros b Hb'. unfold wanted, wanted_after, new_change. cbn [old_events]. rewrite Hold, has_recorded_events by done.
           destruct Hb' as [-> |[-> | ->]]; cbn; by rewrite andb_true_r.
    + rewrite Hp, decide_False by done. eapply (synced_ext k h); [|exact (Hsy fd' Hfd')].
      intros bit. destruct Hc as [-> | ->]; cbn [recorded]; by rewrite (proj2 (Z.eqb_neq fd' fd)).
Qed.

Lemma step_ok op st : cl_inv st → cl_allowed op st → ∃ st', cl_step op st = Some st' ∧ cl_inv st' ∧ (op = cl_dispatch → changes (cs_cl st') = []).
Proof.
  destruct st as [h cl k clean]. intros Hinv Hall. destruct op as [[fd old evs|fd old evs|sig|sig]|]; cbn [cl_step].
  - destruct Hall as [Hco Hr]. pose proof Hco as (Hfd & Hold & Hs & _). unfold event_changelist_add_.
    destruct (call_ok k h cl clean fd old (change_add evs) (evsel_add fd old evs) evs) as (r & cl' & -> & Hinv'); [done|by split|done|by left|done| |].
    { intros d H1 H2 H3. destruct (change_add_spec evs d Hs H1) as (S1 & S2 & S3). do 3 (split; [done|]). split.
      - intros bit Hb. rewrite S2 by done. case_match; [done|auto].
      - intros bit Hb Hw. rewrite S3, Hw by done. cbn [recorded]. by rewrite Z.eqb_refl. }
    eexists. split; [done|]. by split.
  - destruct Hall as [Hco Hr]. pose proof Hco as (Hfd & Hold & Hs & _). unfold event_changelist_del_.
    destruct (call_ok k h cl clean fd old (change_del evs) (evsel_del fd old evs) evs) as (r & cl' & -> & Hinv'); [done|by split|done|by right|done| |].
    { intros d H1 H2 H3. destruct (change_del_spec evs d Hs H1 H2) as (S1 & S2 & S3). do 3 (split; [done|]). split.
      - intros bit Hb. rewrite S2 by done. repeat case_match; [done|done|auto].
      - intros bit Hb Hw. rewrite S3, Hw by done. cbn [recorded]. by rewrite Z.eqb_refl. }
    eexists. split; [done|]. by split.
  - eexists. split; [done|]. split; [|done]. destruct Hinv as [H1 H2 H3]. split; cbn in *; [done|by split|]. intros Hcl Hd fd Hfd.
    eapply (synced_ext k h); [done|]. apply H3; [done| |done]. intros (f & o & e & Hin). apply Hd. exists f, o, e. by right.
  - eexists. split; [done|]. split; [|done]. destruct Hinv as [H1 H2 H3]. split; cbn in *; [done|by split|]. intros Hcl Hd fd Hfd.
    eapply (synced_ext k h); [done|]. apply H3; [done| |done]. intros (f & o & e & Hin). apply Hd. exists f, o, e. by right.
  - destruct Hinv as [Hch Hco Hsy]. cbn [cs_h cs_cl cs_k cs_clean] in *. unfold epoll_apply_changes.
    destruct (apply_loop_ok (changes cl) k 0) as (r & k' & -> & _ & Hoth & Happ); [by apply changes_nodup|intros c bit; by apply Hch|].
    cbn [mbind option_bind]. unfold event_changelist_remove_all_.
    destruct (clear_fdinfo_ok (changes cl) 0 (idxplus1 cl)) as (info & -> & Hinfo); [by apply changes_nodup|intros c Hc; by apply Hch| |].
    { intros j c Hj. rewrite Z.add_0_l. exact (co_entry _ Hch j c Hj). }
    cbn [mbind option_bind]. eexists. split; [done|]. split; [|done].
    assert (Hz : ∀ p, fdinfo (Event_changelist [] (changes_size cl) info) p = 0).
    { intros p. unfold fdinfo. cbn [idxplus1]. rewrite Hinfo. case_decide as Hp; [done|]. destruct (decide (fdinfo cl p = 0)) as [E|Hne]; [exact E|].
      destruct (co_info _ Hch p Hne) as (c & -> & Hc & _). destruct Hp. apply list_elem_of_fmap. exists c. split; [done|]. by eapply list_elem_of_lookup_2. }
    split; cbn [cs_h cs_cl cs_k cs_clean]; [|done|].
    + split; try (by intros c Hc%not_elem_of_nil); try (by intros c bit Hc%not_elem_of_nil).
      * intros i c Hi. cbn in Hi. by rewrite lookup_nil in Hi.
      * intros p Hp. by rewrite Hz in Hp.
      * cbn. pose proof (co_size _ Hch). lia.
    + intros [Hcl Hr%Z.eqb_eq]%andb_true_iff Hd fd Hfd. specialize (Hsy Hcl Hd fd Hfd). unfold synced in *.
      unfold pending_change at 1. rewrite Hz. cbn [Z.eqb]. destruct (pending_change cl fd) as [c|] eqn:Hp.
      * destruct (pending_inv _ _ _ Hch Hp) as (Hc & <- & _). destruct Hsy as [Ha Hw].
        eapply agrees_ext; [done| |apply (Happ Hr c); [by eapply list_elem_of_lookup_2|exact Ha]]. intros bit Hb. by rewrite Hw.
      * destruct (pending_none _ _ Hch Hp) as [_ Hno]. eapply agrees_ext; [|done|exact Hsy]. apply Hoth.
        intros (c & -> & Hc)%list_elem_of_fmap. by apply (Hno c).
Qed.
End system.

(** ** The property *)

(** Two kernels have the same descriptors, for the same conditions. *)
Definition same_watch {K} `{Epoll K} (k1 k2 : K) (fd : Z) : Prop :=
  match interest k1 fd, interest k2 fd with
  | None, None => True
  | Some e1, Some e2 => ∀ bit, condition bit → has (epoll_bit bit) e1 = has (epoll_bit bit) e2
  | _, _ => False
  end.
Lemma agrees_same_watch {K} `{Epoll K} (k1 k2 : K) fd w : agrees k1 fd w → agrees k2 fd w → same_watch k1 k2 fd.
Proof.
  unfold agrees, same_watch. destruct (interest k1 fd) as [e1|], (interest k2 fd) as [e2|].
  - intros [_ H1] [_ H2] bit Hb. by rewrite H1, H2.
  - intros [(bit & Hb & Hw) _] H2. by rewrite H2 in Hw.
  - intros H1 [(bit & Hb & Hw) _]. by rewrite H1 in Hw.
  - done.
Qed.

Lemma start_inv {K} `{EpollLaws K} (k0 : K) : (∀ fd, interest k0 fd = None) → cl_inv (cl_start k0).
Proof.
  intros Hk. split; cbn; [|done|].
  - split; cbn; try (by intros c Hc%not_elem_of_nil); try (by intros c bit Hc%not_elem_of_nil); [| |done].
    + intros i c Hi. by rewrite lookup_nil in Hi.
    + intros p Hp. unfold fdinfo in Hp. cbn in Hp. by rewrite lookup_empty in Hp.
  - intros _ _ fd _. unfold synced, pending_change, fdinfo. cbn [idxplus1 event_changelist_init_]. rewrite lookup_empty. cbn. unfold agrees. by rewrite Hk.
Qed.

Lemma run_ok {K} `{EpollLaws K} mm ops (st : cl_state K) :
  cl_inv st → cl_obeys mm (ops ++ [cl_dispatch]) st → ∃ st', cl_run mm (ops ++ [cl_dispatch]) st = Some st' ∧ cl_inv st' ∧ changes (cs_cl st') = [].
Proof.
  revert st. induction ops as [|op ops IH]; intros st Hinv [Ha Hob]; cbn [app cl_run].
  - destruct (step_ok mm cl_dispatch st Hinv Ha) as (st' & -> & Hinv' & Hch). exists st'. cbn. auto.
  - destruct (step_ok mm op st Hinv Ha) as (st' & E & Hinv' & _). rewrite E. cbn [mbind option_bind]. apply IH; [done|by apply Hob].
Qed.

(** C13. The list of changes: whatever evmap.c adds and deletes for descriptors below 2^29 in any number of
    rounds, no assertion about the list fails (nor would that of event_changelist_assert_ok), and after
    a dispatch the list is empty.  If no call of epoll_ctl has failed when the list was applied and no
    deletion has been refused, the kernel then watches every descriptor for exactly those of the
    conditions reading, writing and closing that are recorded; these are also those it would watch had
    epoll_ctl been called for each change at once, provided that these calls are answered in the same
    way.  Whether the descriptor is edge-triggered may differ: [edge_triggering_differs]. *)
Theorem changelist_equivalent {K} `{EpollLaws K} mm sigs ops (k0 : K) :
  (∀ fd, interest k0 fd = None) → cl_obeys mm (ops ++ [cl_dispatch]) (cl_start k0) →
  ∃ st, cl_run mm (ops ++ [cl_dispatch]) (cl_start k0) = Some st ∧ changes (cs_cl st) = [] ∧ (∀ fds, event_changelist_assert_ok fds (cs_cl st) = true) ∧
    (cs_clean st = true → ¬ del_failed (cs_h st) →
      (∀ fd, 0 <= fd → agrees (cs_k st) fd (recorded (cs_h st) fd)) ∧
      (answered (epollops sigs k0) (cs_h st) → ∃ k, epoll_after k0 (cs_h st) = Some k ∧ ∀ fd, 0 <= fd → same_watch (cs_k st) k fd)).
Proof.
  intros Hk Hob. destruct (run_ok mm ops _ (start_inv k0 Hk) Hob) as (st & E & [Hch Hco Hsy] & Hnil).
  exists st. split; [done|]. split; [done|]. split; [intros fds; by apply assert_ok|]. intros Hcl Hd.
  assert (Hag : ∀ fd, 0 <= fd → agrees (cs_k st) fd (recorded (cs_h st) fd)).
  { intros fd Hfd. specialize (Hsy Hcl Hd fd Hfd). unfold synced in Hsy. destruct (pending_change _ fd) as [c|] eqn:Hp; [|done].
    apply pending_inv in Hp as (Hc & _); [|done]. by rewrite Hnil, lookup_nil in Hc. }
  split; [done|]. intros Han. destruct (history_in_step sigs k0 _ Hk Hco Han) as (k & Hkk & Hin). exists k. split; [done|].
  intros fd Hfd. destruct (Hin fd Hfd) as [_ Ha]. by eapply agrees_same_watch; [apply Hag|apply Ha].
Qed.

(** A descriptor added for reading, for writing too and no more for reading, another one added and taken
    away again, before the first dispatch; and one more change after it. *)
Definition some_changes : list cl_op := [
  cl_call (evsel_add 4 0 EV_READ); cl_call (evsel_add 4 EV_READ EV_WRITE); cl_call (evsel_add 9 0 (Z.lor EV_READ EV_ET));
  cl_call (evsel_del 4 (Z.lor EV_READ EV_WRITE) EV_READ); cl_call (evsel_del 9 EV_READ EV_READ); cl_dispatch;
  cl_call (evsel_add 4 EV_WRITE EV_CLOSED); cl_call (evsel_del 4 (Z.lor EV_WRITE EV_CLOSED) EV_WRITE)].

Definition check_call (h : history) (c : backend_call) : bool :=
  let conditions evs := has EV_READ evs || has EV_WRITE evs || has EV_CLOSED evs in
  match c with
  | evsel_add fd old evs => (0 <=? fd) && (fd <? 2 ^ 29) && (old =? recorded_events h fd) && negb (has EV_SIGNAL evs) && conditions evs
  | evsel_del fd old evs => (0 <=? fd) && (fd <? 2 ^ 29) && (old =? recorded_events h fd) && negb (has EV_SIGNAL evs) && conditions evs &&
      forallb (λ bit, negb (has bit evs) || recorded h fd bit) [EV_READ; EV_WRITE; EV_CLOSED]
  | _ => true
  end.
Fixpoint check_ops {K} `{Epoll K} mm (ops : list cl_op) (st : cl_state K) : bool :=
  match ops with
  | [] => true
  | op :: ops => (match op with cl_call c => check_call (cs_h st) c | cl_dispatch => true end) &&
      match cl_step mm op st with Some st' => check_ops mm ops st' | None => false end
  end.

Lemma some_condition evs : has EV_READ evs || has EV_WRITE evs || has EV_CLOSED evs = true → ∃ bit, condition bit ∧ has bit evs = true.
Proof. intros [[H|H]%orb_true_iff|H]%orb_true_iff; unfold condition; eauto 6. Qed.
Lemma check_call_spec h c : check_call h c = true → call_coherent h c ∧ in_range c.
Proof.
  destruct c as [fd old evs|fd old evs|sig|sig]; cbn [check_call call_coherent in_range]; [| |done..]; rewrite ?andb_true_iff.
  - intros [[[[H1%Z.leb_le H2%Z.ltb_lt] H3%Z.eqb_eq] H4%negb_true_iff] H5%some_condition]. done.
  - intros [[[[[H1%Z.leb_le H2%Z.ltb_lt] H3%Z.eqb_eq] H4%negb_true_iff] H5%some_condition] H6]. split; [|done]. do 4 (split; [done|]).
    rewrite forallb_forall in H6. intros bit Hb Hbit.
    assert (Hin : In bit [EV_READ; EV_WRITE; EV_CLOSED]) by (destruct Hb as [-> |[-> | ->]]; cbn; auto).
    apply H6 in Hin. by rewrite Hbit in Hin.
Qed.
Lemma check_ops_spec {K} `{Epoll K} mm ops (st : cl_state K) : check_ops mm ops st = true → cl_obeys mm ops st.
Proof.
  revert st. induction ops as [|op ops IH]; intros st; cbn [check_ops cl_obeys]; [done|]. intros [Ha Hs]%andb_true_iff. split.
  - destruct op; [by apply check_call_spec|done].
  - intros st' E. rewrite E in Hs. by apply IH.
Qed.

Lemma changelist_equivalent_witness :
  let k0 : gmap Z Z := ∅ in
  ∃ st, cl_run (λ _ _, true) (some_changes ++ [cl_dispatch]) (cl_start k0) = Some st ∧ changes (cs_cl st) = [] ∧
    cs_k st = {[4 := EPOLLRDHUP]} ∧ epoll_after k0 (cs_h st) = Some {[4 := EPOLLRDHUP]}.
Proof.
  assert (Hob : cl_obeys (λ _ _, true) (some_changes ++ [cl_dispatch]) (cl_start (∅ : gmap Z Z))) by (apply check_ops_spec; vm_compute; reflexivity).
  destruct (changelist_equivalent (λ _ _, true) (λ _ _, true) some_changes (∅ : gmap Z Z)) as (st & E & Hnil & _ & _); [by intros fd; cbn; case_match|exact Hob|].
  exists st. split; [exact E|]. split; [exact Hnil|].
  assert (Hrun : match cl_run (λ _ _, true) (some_changes ++ [cl_dispatch]) (cl_start (∅ : gmap Z Z)) with
    | Some st => bool_decide (cs_k st = {[4 := EPOLLRDHUP]}) && bool_decide (epoll_after (∅ : gmap Z Z) (cs_h st) = Some {[4 := EPOLLRDHUP]})
    | None => false end = true) by (vm_compute; reflexivity).
  rewrite E in Hrun. apply andb_true_iff in Hrun as [H1%bool_decide_eq_true H2%bool_decide_eq_true]. by split.
Defined.

(** ** Edge-triggered events *)

(** When one of two edge-triggered events of a descriptor is deleted, the other one becomes level-triggered. *)
Example et_lost :
  let et evs := Z.lor evs EV_ET in
  match epoll_nochangelist_add (∅ : gmap Z Z) 4 0 (et EV_READ) with
  | Some (0, k) => match epoll_nochangelist_add k 4 EV_READ (et EV_WRITE) with
    | Some (0, k) => interest k 4 = Some (Z.lor EPOLLIN (Z.lor EPOLLOUT EPOLLET)) ∧
        match epoll_nochangelist_del k 4 (Z.lor EV_READ EV_WRITE) (et EV_WRITE) with
        | Some (0, k) => interest k 4 = Some EPOLLIN
        | _ => False
        end
    | _ => False
    end
  | _ => False
  end.
Proof. by vm_compute. Qed.

(** It stays edge-triggered if the changes are collected in a list, which forgets the deletion of what
    has been added since the last dispatch. *)
Example edge_triggering_differs :
  let et evs := Z.lor evs EV_ET in
  let ops := [cl_call (evsel_add 4 0 (et EV_READ)); cl_call (evsel_add 4 EV_READ (et EV_WRITE));
    cl_call (evsel_del 4 (Z.lor EV_READ EV_WRITE) (et EV_WRITE)); cl_dispatch] in
  check_ops (λ _ _, true) ops (cl_start (∅ : gmap Z Z)) = true ∧
  match cl_run (λ _ _, true) ops (cl_start (∅ : gmap Z Z)) with
  | Some st => cs_k st = {[4 := Z.lor EPOLLIN EPOLLET]} ∧ epoll_after (∅ : gmap Z Z) (cs_h st) = Some {[4 := EPOLLIN]}
  | None => False
  end.
Proof. vm_compute. split; [reflexivity|]. split; reflexivity. Qed.

(** An event for EV_CLOSED alone is never edge-triggered. *)
Example et_of_closed :
  match epoll_nochangelist_add (∅ : gmap Z Z) 4 0 (Z.lor EV_CLOSED EV_ET) with
  | Some (0, k) => interest k 4 = Some EPOLLRDHUP
  | _ => False
  end.
Proof. by vm_compute. Qed.
