(* ===== verification/Bufferevent.v ===== *)
(** * Bufferevents on sockets

    Models libevent/bufferevent.c and bufferevent_sock.c for bufferevents of the type
    bufferevent_ops_socket, which is the only one the program uses: two events of an event base and
    two evbuffers.  What arrives on the socket goes to the input buffer, what the application adds
    to the output buffer goes to the socket.

    An operation is a computation on the event base, the bufferevent and a record of what has gone
    through it.  Parameters are the kernel (the k-th read, write and getsockopt) and the callbacks of
    the application, any computation for the k-th call.  Locks are left out, as in the event base;
    rate limits and the asynchronous look-up of names are not modelled. *)

From S2P Require Import Prelude EvBuffer EvBufferMove EvBufferSpace.
From S2P Require Import Timeval Event MinHeap EvMap EventBase.

(** ** Data *)

Record event_watermark := Event_watermark { low : Z; high : Z }.

(** The members of struct bufferevent and struct bufferevent_private, in groups.  [ev_read],
    [ev_write] and [deferred] are the addresses of the members of that name. *)
Record bev_parts := Bev_parts { ev_read : nat; ev_write : nat; deferred : nat; options : Z;
  max_single_read : Z; max_single_write : Z }.
(** [read_watermarks_cb]: the position of the entry in the list of callbacks. *)
Record bev_marks := Bev_marks { wm_read : event_watermark; wm_write : event_watermark;
  read_watermarks_cb : option nat }.
Record bev_callbacks := Bev_callbacks { readcb : option nat; writecb : option nat; errorcb : option nat; bev_cbarg : Z }.
Record bev_timeouts := Bev_timeouts { timeout_read : timeval; timeout_write : timeval }.
Record bev_state := Bev_state { enabled : Z; read_suspended : Z; write_suspended : Z; connecting : bool;
  connection_refused : bool }.
Record bev_pending := Bev_pending { readcb_pending : bool; writecb_pending : bool; eventcb_pending : Z;
  errno_pending : Z }.

Record bufferevent := Bufferevent {
  input : evbuffer; output : evbuffer;
  parts : bev_parts; marks : bev_marks; cbs_of : bev_callbacks; timeouts : bev_timeouts; status : bev_state;
  pend : bev_pending; bev_refcnt : Z
}.

(** What has gone through: received from the socket and taken by the application, given by the
    application and sent to the socket; the numbers of the calls of the kernel and of the
    application; has event_add or event_del failed, or the connection?; the last errno. *)
Record bev_trace := Bev_trace { received : list byte; consumed : list byte; given : list byte; sent : list byte;
  syscalls : nat; calls : nat; refused : bool; errno : Z }.

Record bev_system := Bev_system { base : event_base; bev : bufferevent; trace : bev_trace }.

Definition BM (A : Type) : Type := bev_system → option (A * bev_system).
#[export] Instance bm_ret : MRet BM := λ A a s, Some (a, s).
#[export] Instance bm_bind : MBind BM := λ A B f m s, '(a, s) ← m s; f a s.
#[export] Instance bm_fmap : FMap BM := λ A B f m s, '(a, s) ← m s; Some (f a, s).
Definition bfails {A} : BM A := λ _, None.
Definition ask {A} (f : bufferevent → A) : BM A := λ s, Some (f (bev s), s).
Definition change (f : bufferevent → bufferevent) : BM unit := λ s, Some (tt, Bev_system (base s) (f (bev s)) (trace s)).
Definition record (f : bev_trace → bev_trace) : BM unit := λ s, Some (tt, Bev_system (base s) (bev s) (f (trace s))).
Definition on_base {A} (m : EM A) : BM A := λ s, '(a, b) ← m (base s); Some (a, Bev_system b (bev s) (trace s)).
Definition bwhen (c : bool) (m : BM unit) : BM unit := if c then m else mret tt.
Definition bassert (c : bool) : BM unit := if c then mret tt else bfails.

Definition with_input (i : evbuffer) (v : bufferevent) : bufferevent :=
  Bufferevent i (output v) (parts v) (marks v) (cbs_of v) (timeouts v) (status v) (pend v) (bev_refcnt v).
Definition with_output (o : evbuffer) (v : bufferevent) : bufferevent :=
  Bufferevent (input v) o (parts v) (marks v) (cbs_of v) (timeouts v) (status v) (pend v) (bev_refcnt v).
Definition with_marks (m : bev_marks) (v : bufferevent) : bufferevent :=
  Bufferevent (input v) (output v) (parts v) m (cbs_of v) (timeouts v) (status v) (pend v) (bev_refcnt v).
Definition with_cbs_of (c : bev_callbacks) (v : bufferevent) : bufferevent :=
  Bufferevent (input v) (output v) (parts v) (marks v) c (timeouts v) (status v) (pend v) (bev_refcnt v).
Definition with_timeouts (t : bev_timeouts) (v : bufferevent) : bufferevent :=
  Bufferevent (input v) (output v) (parts v) (marks v) (cbs_of v) t (status v) (pend v) (bev_refcnt v).
Definition with_status (t : bev_state) (v : bufferevent) : bufferevent :=
  Bufferevent (input v) (output v) (parts v) (marks v) (cbs_of v) (timeouts v) t (pend v) (bev_refcnt v).
Definition with_pend (p : bev_pending) (v : bufferevent) : bufferevent :=
  Bufferevent (input v) (output v) (parts v) (marks v) (cbs_of v) (timeouts v) (status v) p (bev_refcnt v).
Definition with_refcnt (n : Z) (v : bufferevent) : bufferevent :=
  Bufferevent (input v) (output v) (parts v) (marks v) (cbs_of v) (timeouts v) (status v) (pend v) n.

Definition set_enabled (e : Z) : bufferevent → bufferevent := λ v, let t := status v in
  with_status (Bev_state e (read_suspended t) (write_suspended t) (connecting t) (connection_refused t)) v.
Definition set_read_suspended (n : Z) : bufferevent → bufferevent := λ v, let t := status v in
  with_status (Bev_state (enabled t) n (write_suspended t) (connecting t) (connection_refused t)) v.
Definition set_write_suspended (n : Z) : bufferevent → bufferevent := λ v, let t := status v in
  with_status (Bev_state (enabled t) (read_suspended t) n (connecting t) (connection_refused t)) v.
Definition set_connecting (c : bool) : bufferevent → bufferevent := λ v, let t := status v in
  with_status (Bev_state (enabled t) (read_suspended t) (write_suspended t) c (connection_refused t)) v.
Definition set_connection_refused (c : bool) : bufferevent → bufferevent := λ v, let t := status v in
  with_status (Bev_state (enabled t) (read_suspended t) (write_suspended t) (connecting t) c) v.

Definition BEV_EVENT_READING : Z := 0x01.
Definition BEV_EVENT_WRITING : Z := 0x02.
Definition BEV_EVENT_EOF : Z := 0x10.
Definition BEV_EVENT_ERROR : Z := 0x20.
Definition BEV_EVENT_TIMEOUT : Z := 0x40.
Definition BEV_EVENT_CONNECTED : Z := 0x80.
Definition BEV_OPT_CLOSE_ON_FREE : Z := 1.
Definition BEV_OPT_THREADSAFE : Z := 2.
Definition BEV_OPT_DEFER_CALLBACKS : Z := 4.
Definition BEV_OPT_UNLOCK_CALLBACKS : Z := 8.
Definition BEV_TRIG_IGNORE_WATERMARKS : Z := 65536.
Definition BEV_SUSPEND_WM : Z := 0x01.
Definition MAX_SINGLE_READ_DEFAULT : Z := 16384.
Definition MAX_SINGLE_WRITE_DEFAULT : Z := 16384.

(** Of Linux: EINTR, EAGAIN; ECONNREFUSED. *)
Definition EVUTIL_ERR_RW_RETRIABLE (e : Z) : bool := (e =? 4) || (e =? 11).
Definition EVUTIL_ERR_CONNECT_REFUSED (e : Z) : bool := e =? 111.

(** The names of the functions of this file that are called through pointers. *)
Definition READCB : nat := 0.
Definition WRITECB : nat := 1.
Definition DEFERRED_CB : nat := 2.
Definition FINALIZE_CB : nat := 3.
Definition OUTBUF_CB : Z := 1.
Definition INBUF_WM_CB : Z := 2.

(** A call of the application. *)
Inductive bev_call :=
  | data_read (f : nat) (arg : Z)            (* readcb *)
  | data_written (f : nat) (arg : Z)         (* writecb *)
  | event_happened (f : nat) (what arg : Z). (* errorcb *)

(** ** Operations *)

Section bufferevent.
Context (mm : nat → Z → bool) (backend : history → backend_call → bool) (fdinfo_len : Z) (clock : nat → timeval).
(** The allocator of the evbuffers; the [k]-th call of the kernel: what ioctl(FIONREAD) says, what
    readv reads when so many bytes are asked for, what writev takes, the errno after it, what getsockopt
    says of a connection; the [k]-th call of the application. *)
Context (alloc : nat → Z → option (nat → byte)) (fionread : nat → Z) (readv : nat → Z → option (list byte))
  (writev : nat → list byte → Z) (error : nat → Z) (finished_connecting : nat → Z)
  (user : nat → bev_call → BM unit).

Definition syscall : BM nat := λ s,
  let t := trace s in
  Some (syscalls t, Bev_system (base s) (bev s)
    (Bev_trace (received t) (consumed t) (given t) (sent t) (S (syscalls t)) (calls t) (refused t) (error (syscalls t)))).
Definition call_app (i : bev_call) : BM unit := λ s,
  let t := trace s in
  user (calls t) i (Bev_system (base s) (bev s)
    (Bev_trace (received t) (consumed t) (given t) (sent t) (syscalls t) (S (calls t)) (refused t) (errno t))).
Definition note_received (d : list byte) : BM unit := record (λ t,
  Bev_trace (received t ++ d) (consumed t) (given t) (sent t) (syscalls t) (calls t) (refused t) (errno t)).
Definition note_consumed (d : list byte) : BM unit := record (λ t,
  Bev_trace (received t) (consumed t ++ d) (given t) (sent t) (syscalls t) (calls t) (refused t) (errno t)).
Definition note_given (d : list byte) : BM unit := record (λ t,
  Bev_trace (received t) (consumed t) (given t ++ d) (sent t) (syscalls t) (calls t) (refused t) (errno t)).
Definition note_sent (d : list byte) : BM unit := record (λ t,
  Bev_trace (received t) (consumed t) (given t) (sent t ++ d) (syscalls t) (calls t) (refused t) (errno t)).
Definition note_refused (r : Z) : BM unit := record (λ t,
  Bev_trace (received t) (consumed t) (given t) (sent t) (syscalls t) (calls t) (refused t || (r =? -1)) (errno t)).

Definition set_errno (e : Z) : BM unit := record (λ t,
  Bev_trace (received t) (consumed t) (given t) (sent t) (syscalls t) (calls t) (refused t) e).

Definition bufferevent_add_event_ (x : nat) (tv : timeval) : BM Z :=
  r ← on_base (event_add mm backend fdinfo_len clock x (if evutil_timerisset tv then Some tv else None));
  note_refused r;; mret r.

(** event_del, for a member of the bufferevent. *)
Definition bev_event_del (x : nat) : BM Z := r ← on_base (event_del backend x); note_refused r;; mret r.

Definition be_socket_enable (event : Z) : BM Z :=
  p ← ask parts;
  t ← ask timeouts;
  r ← (if has EV_READ event then bufferevent_add_event_ (ev_read p) (timeout_read t) else mret 0);
  if r =? -1 then mret (-1)
  else
    r ← (if has EV_WRITE event then bufferevent_add_event_ (ev_write p) (timeout_write t) else mret 0);
    mret (if r =? -1 then -1 else 0).

Definition be_socket_disable (event : Z) : BM Z :=
  p ← ask parts;
  r ← (if has EV_READ event then bev_event_del (ev_read p) else mret 0);
  if r =? -1 then mret (-1)
  else
    connecting ← ask (λ v, connecting (status v));
    r ← (if has EV_WRITE event && negb connecting then bev_event_del (ev_write p) else mret 0);
    mret (if r =? -1 then -1 else 0).

Definition bufferevent_suspend_read_ (what : Z) : BM unit :=
  n ← ask (λ v, read_suspended (status v));
  bwhen (n =? 0) (be_socket_disable EV_READ;; mret tt);;
  change (set_read_suspended (Z.lor n what)).
Definition bufferevent_unsuspend_read_ (what : Z) : BM unit :=
  t ← ask status;
  let n := clear_bits what (read_suspended t) in
  change (set_read_suspended n);;
  bwhen ((n =? 0) && has EV_READ (enabled t)) (be_socket_enable EV_READ;; mret tt).
Definition bufferevent_suspend_write_ (what : Z) : BM unit :=
  n ← ask (λ v, write_suspended (status v));
  bwhen (n =? 0) (be_socket_disable EV_WRITE;; mret tt);;
  change (set_write_suspended (Z.lor n what)).
Definition bufferevent_unsuspend_write_ (what : Z) : BM unit :=
  t ← ask status;
  let n := clear_bits what (write_suspended t) in
  change (set_write_suspended n);;
  bwhen ((n =? 0) && has EV_WRITE (enabled t)) (be_socket_enable EV_WRITE;; mret tt).

Definition bufferevent_wm_suspend_read : BM unit := bufferevent_suspend_read_ BEV_SUSPEND_WM.
Definition bufferevent_wm_unsuspend_read : BM unit := bufferevent_unsuspend_read_ BEV_SUSPEND_WM.

(** *** Callbacks of the buffers *)

Definition bufferevent_inbuf_wm_cb : BM unit :=
  v ← ask id;
  if high (wm_read (marks v)) <=? total_len (input v) then bufferevent_wm_suspend_read else bufferevent_wm_unsuspend_read.

Definition bufferevent_socket_outbuf_cb (n_added : Z) : BM unit :=
  v ← ask id;
  writing ← on_base (lift (λ b, event_pending b (ev_write (parts v)) EV_WRITE));
  bwhen (negb (n_added =? 0) && has EV_WRITE (enabled (status v)) && (writing =? 0) &&
         (write_suspended (status v) =? 0))
    (bufferevent_add_event_ (ev_write (parts v)) (timeout_write (timeouts v));; mret tt).

Fixpoint run_cbs (l : list cb_call) : BM unit :=
  match l with
  | [] => mret tt
  | c :: l =>
      (if called c =? OUTBUF_CB then bufferevent_socket_outbuf_cb (n_added c)
       else if called c =? INBUF_WM_CB then bufferevent_inbuf_wm_cb
       else mret tt);;
      run_cbs l
  end.

(** The callbacks that a function of buffer.c calls, as the last thing it does. *)
Definition new_calls (b b' : evbuffer) : list cb_call := drop (length (cb_log b)) (cb_log b').

Definition on_input {A} (f : evbuffer → option (A * evbuffer)) : BM A :=
  λ s, '(a, i) ← f (input (bev s));
    (change (with_input i);; run_cbs (new_calls (input (bev s)) i);; mret a) s.
Definition on_output {A} (f : evbuffer → option (A * evbuffer)) : BM A :=
  λ s, '(a, o) ← f (output (bev s));
    (change (with_output o);; run_cbs (new_calls (output (bev s)) o);; mret a) s.

(** *** References *)

Definition bufferevent_incref : BM unit := change (λ v, with_refcnt (bev_refcnt v + 1) v).

(** The callbacks that are not running are cancelled; one is called to finalize the rest. *)
Fixpoint finalize_callbacks (ps : list evcb_ptr) (cb : callback) (n_pending : Z) : EM Z :=
  match ps with
  | [] => mret n_pending
  | p :: ps =>
      current ← gets (λ b, current_event (loop b));
      if decide (current = Some p)
      then event_callback_finalize_nolock_ backend p cb;; finalize_callbacks ps cb (n_pending + 1)
      else event_callback_cancel_nolock_ backend p false;; finalize_callbacks ps cb n_pending
  end.

Definition event_callback_finalize_many_ (ps : list evcb_ptr) (cb : callback) : EM Z :=
  n ← finalize_callbacks ps cb 0;
  match ps with
  | p :: _ => (if n =? 0 then event_callback_finalize_nolock_ backend p cb else mret tt);; mret 0
  | [] => fails
  end.

(** 1 if the bufferevent is to be freed.  The buffers do not defer their callbacks. *)
Definition bufferevent_decref_and_unlock_ : BM Z :=
  v ← ask id;
  bassert (0 <? bev_refcnt v);;
  let n := bev_refcnt v - 1 in
  change (with_refcnt n);;
  if negb (n =? 0) then mret 0
  else
    let p := parts v in
    on_base (event_callback_finalize_many_ [of_event (ev_read p); of_event (ev_write p); alone (deferred p)]
      (user_cb FINALIZE_CB));;
    mret 1.

(** *** Calls of the application *)

Definition SCHEDULE_DEFERRED : BM unit :=
  p ← ask parts;
  r ← on_base (event_deferred_cb_schedule_ (alone (deferred p)));
  bwhen (negb (r =? 0)) bufferevent_incref.

Definition defers (opts : Z) : BM bool := p ← ask parts; mret (has BEV_OPT_DEFER_CALLBACKS (Z.lor (options p) opts)).

Definition bufferevent_run_readcb_ (opts : Z) : BM unit :=
  c ← ask cbs_of;
  match readcb c with
  | None => mret tt
  | Some f =>
      later ← defers opts;
      if later : bool then
        change (λ v, let p := pend v in
          with_pend (Bev_pending true (writecb_pending p) (eventcb_pending p) (errno_pending p)) v);;
        SCHEDULE_DEFERRED
      else call_app (data_read f (bev_cbarg c))
  end.
Definition bufferevent_run_writecb_ (opts : Z) : BM unit :=
  c ← ask cbs_of;
  match writecb c with
  | None => mret tt
  | Some f =>
      later ← defers opts;
      if later : bool then
        change (λ v, let p := pend v in
          with_pend (Bev_pending (readcb_pending p) true (eventcb_pending p) (errno_pending p)) v);;
        SCHEDULE_DEFERRED
      else call_app (data_written f (bev_cbarg c))
  end.
Definition bufferevent_run_eventcb_ (what opts : Z) : BM unit :=
  c ← ask cbs_of;
  match errorcb c with
  | None => mret tt
  | Some f =>
      later ← defers opts;
      if later : bool then
        (λ s, change (λ v, let p := pend v in
          with_pend (Bev_pending (readcb_pending p) (writecb_pending p) (Z.lor (eventcb_pending p) what)
            (errno (trace s))) v) s);;
        SCHEDULE_DEFERRED
      else call_app (event_happened f what (bev_cbarg c))
  end.

Definition bufferevent_trigger_nolock_ (iotype opts : Z) : BM unit :=
  v ← ask id;
  bwhen (has EV_READ iotype && (has BEV_TRIG_IGNORE_WATERMARKS opts || (low (wm_read (marks v)) <=? total_len (input v))))
    (bufferevent_run_readcb_ opts);;
  v ← ask id;
  bwhen (has EV_WRITE iotype && (has BEV_TRIG_IGNORE_WATERMARKS opts || (total_len (output v) <=? low (wm_write (marks v)))))
    (bufferevent_run_writecb_ opts).

(** The callback of [deferred]. *)
Definition bufferevent_run_deferred_callbacks_locked : BM unit :=
  let pending_now := v ← ask id; mret (pend v, cbs_of v) in
  '(p, c) ← pending_now;
  (if has BEV_EVENT_CONNECTED (eventcb_pending p) then
     match errorcb c with
     | Some f =>
         change (with_pend (Bev_pending (readcb_pending p) (writecb_pending p)
           (clear_bits BEV_EVENT_CONNECTED (eventcb_pending p)) (errno_pending p)));;
         call_app (event_happened f BEV_EVENT_CONNECTED (bev_cbarg c))
     | None => mret tt
     end
   else mret tt);;
  '(p, c) ← pending_now;
  (if readcb_pending p then
     match readcb c with
     | Some f =>
         change (with_pend (Bev_pending false (writecb_pending p) (eventcb_pending p) (errno_pending p)));;
         call_app (data_read f (bev_cbarg c))
     | None => mret tt
     end
   else mret tt);;
  '(p, c) ← pending_now;
  (if writecb_pending p then
     match writecb c with
     | Some f =>
         change (with_pend (Bev_pending (readcb_pending p) false (eventcb_pending p) (errno_pending p)));;
         call_app (data_written f (bev_cbarg c))
     | None => mret tt
     end
   else mret tt);;
  '(p, c) ← pending_now;
  (if negb (eventcb_pending p =? 0) then
     match errorcb c with
     | Some f =>
         change (with_pend (Bev_pending (readcb_pending p) (writecb_pending p) 0 0));;
         set_errno (errno_pending p);;
         call_app (event_happened f (eventcb_pending p) (bev_cbarg c))
     | None => mret tt
     end
   else mret tt);;
  bufferevent_decref_and_unlock_;; mret tt.

(** *** The interface *)

Definition bufferevent_setcb (r w e : option nat) (arg : Z) : BM unit := change (with_cbs_of (Bev_callbacks r w e arg)).

Definition bufferevent_get_input : BM evbuffer := ask input.
Definition bufferevent_get_output : BM evbuffer := ask output.
Definition bufferevent_get_enabled : BM Z := ask (λ v, enabled (status v)).

(** 0 or -1; the bytes are [given] when they have been added. *)
Definition bufferevent_write (data : list byte) : BM Z :=
  r ← on_output (λ o, evbuffer_add alloc o data);
  bwhen (negb (r =? -1)) (note_given data);;
  mret (if r =? -1 then -1 else 0).

Definition bufferevent_read (size : Z) : BM (Z * list byte) :=
  '(r, data) ← on_input (λ i, evbuffer_remove i size);
  note_consumed data;;
  mret (r, data).

Definition bufferevent_enable (event : Z) : BM Z :=
  bufferevent_incref;;
  t ← ask status;
  let impl_events := if read_suspended t =? 0 then event else clear_bits EV_READ event in
  let impl_events := if write_suspended t =? 0 then impl_events else clear_bits EV_WRITE impl_events in
  change (set_enabled (Z.lor (enabled t) event));;
  r ← (if negb (impl_events =? 0) then be_socket_enable impl_events else mret 0);
  bufferevent_decref_and_unlock_;;
  mret (if r <? 0 then -1 else 0).

Definition bufferevent_disable (event : Z) : BM Z :=
  t ← ask status;
  change (set_enabled (clear_bits event (enabled t)));;
  r ← be_socket_disable event;
  mret (if r <? 0 then -1 else 0).

Definition bufferevent_disable_hard_ (event : Z) : BM Z :=
  t ← ask status;
  change (set_enabled (clear_bits event (enabled t)));;
  change (set_connecting false);;
  r ← be_socket_disable event;
  mret (if r <? 0 then -1 else 0).

(** The entry that keeps the high watermark of the input is added if there is none; enabled; disabled. *)
Definition add_wm_cb (v : bufferevent) : bufferevent :=
  match read_watermarks_cb (marks v) with
  | None => with_marks (Bev_marks (wm_read (marks v)) (wm_write (marks v)) (Some 0%nat))
      (with_input (evbuffer_add_cb (input v) INBUF_WM_CB 0) v)
  | Some _ => v
  end.
Definition enable_wm_cb (v : bufferevent) : bufferevent :=
  with_input (evbuffer_cb_set_flags (input v) (default 0%nat (read_watermarks_cb (marks v)))
    (Z.lor EVBUFFER_CB_ENABLED EVBUFFER_CB_NODEFER)) v.
Definition disable_wm_cb (v : bufferevent) : bufferevent :=
  match read_watermarks_cb (marks v) with
  | Some i => with_input (evbuffer_cb_clear_flags (input v) i EVBUFFER_CB_ENABLED) v
  | None => v
  end.

Definition set_wm_read (m : event_watermark) (v : bufferevent) : bufferevent :=
  with_marks (Bev_marks m (wm_write (marks v)) (read_watermarks_cb (marks v))) v.
Definition set_wm_write (m : event_watermark) (v : bufferevent) : bufferevent :=
  with_marks (Bev_marks (wm_read (marks v)) m (read_watermarks_cb (marks v))) v.

Definition bufferevent_setwatermark (events lowmark highmark : Z) : BM unit :=
  bwhen (has EV_WRITE events) (change (set_wm_write (Event_watermark lowmark highmark)));;
  bwhen (has EV_READ events)
    (change (set_wm_read (Event_watermark lowmark highmark));;
     if negb (highmark =? 0) then
       change add_wm_cb;;
       change enable_wm_cb;;
       v ← ask id;
       if highmark <=? total_len (input v) then bufferevent_wm_suspend_read else bufferevent_wm_unsuspend_read
     else
       change disable_wm_cb;;
       bufferevent_wm_unsuspend_read).

(** The low and the high mark; -1 ([None]) unless [events] is one of EV_READ and EV_WRITE. *)
Definition bufferevent_getwatermark (events : Z) : BM (option (Z * Z)) :=
  m ← ask marks;
  mret (if events =? EV_WRITE then Some (low (wm_write m), high (wm_write m))
        else if events =? EV_READ then Some (low (wm_read m), high (wm_read m)) else None).

(** be_socket_flush does nothing. *)
Definition be_socket_flush : BM Z := mret 0.
Definition bufferevent_flush : BM Z := be_socket_flush.

Definition bufferevent_trigger (iotype opts : Z) : BM unit :=
  let all := Z.lor BEV_TRIG_IGNORE_WATERMARKS BEV_OPT_DEFER_CALLBACKS in
  bufferevent_incref;;
  bufferevent_trigger_nolock_ iotype (Z.land opts all);;
  bufferevent_decref_and_unlock_;; mret tt.
Definition bufferevent_trigger_event (what opts : Z) : BM unit :=
  let all := Z.lor BEV_TRIG_IGNORE_WATERMARKS BEV_OPT_DEFER_CALLBACKS in
  bufferevent_incref;;
  bufferevent_run_eventcb_ what (Z.land opts all);;
  bufferevent_decref_and_unlock_;; mret tt.

(** The timer of [x] is set to [tv], or removed, if it waits for [what]. *)
Definition adjust_timeout (x : nat) (what : Z) (tv : timeval) : BM Z :=
  waiting ← on_base (lift (λ b, event_pending b x what));
  if waiting =? 0 then mret 0
  else if evutil_timerisset tv then r ← bufferevent_add_event_ x tv; mret (if r <? 0 then -1 else 0)
  else on_base (event_remove_timer x);; mret 0.

Definition bufferevent_generic_adj_existing_timeouts_ : BM Z :=
  p ← ask parts;
  t ← ask timeouts;
  r ← adjust_timeout (ev_read p) EV_READ (timeout_read t);
  r' ← adjust_timeout (ev_write p) EV_WRITE (timeout_write t);
  mret (if (r =? -1) || (r' =? -1) then -1 else 0).

Definition bufferevent_set_timeouts (tv_read tv_write : option timeval) : BM Z :=
  change (with_timeouts (Bev_timeouts (default evutil_timerclear tv_read) (default evutil_timerclear tv_write)));;
  bufferevent_generic_adj_existing_timeouts_.

Definition bufferevent_priority_set (priority : Z) : BM Z :=
  p ← ask parts;
  r ← on_base (event_priority_set (ev_read p) priority);
  if r =? -1 then mret (-1)
  else
    r ← on_base (event_priority_set (ev_write p) priority);
    if r =? -1 then mret (-1)
    else on_base (event_deferred_cb_set_priority_ (alone (deferred p)) priority);; mret 0.

Definition bufferevent_getfd : BM Z :=
  p ← ask parts;
  ev ← on_base (get_event (ev_read p));
  mret (ev_fd ev).

Definition READ_EVENTS : Z := Z.lor EV_READ (Z.lor EV_PERSIST EV_FINALIZE).
Definition WRITE_EVENTS : Z := Z.lor EV_WRITE (Z.lor EV_PERSIST EV_FINALIZE).

Definition be_socket_setfd (fd : Z) : BM unit :=
  p ← ask parts;
  bev_event_del (ev_read p);;
  bev_event_del (ev_write p);;
  change (λ v, with_input (evbuffer_unfreeze (input v) false) v);;
  change (λ v, with_output (evbuffer_unfreeze (output v) true) v);;
  on_base (event_assign (ev_read p) fd READ_EVENTS (user_cb READCB) 0);;
  on_base (event_assign (ev_write p) fd WRITE_EVENTS (user_cb WRITECB) 0);;
  t ← ask status;
  bwhen (0 <=? fd) (bufferevent_enable (enabled t);; mret tt).
Definition bufferevent_setfd (fd : Z) : BM Z := be_socket_setfd fd;; mret 0.

Definition bufferevent_free : BM unit :=
  bufferevent_setcb None None None 0;;
  bufferevent_decref_and_unlock_;; mret tt.

(** *** Reading *)

Definition bufferevent_get_read_max_ : BM Z := p ← ask parts; mret (max_single_read p).
Definition bufferevent_get_write_max_ : BM Z := p ← ask parts; mret (max_single_write p).

(** evbuffer_read on the socket, which is asked for what evbuffer_read computes from [howmuch]. *)
Definition read_socket (howmuch : Z) : BM Z :=
  k ← syscall;
  let got := readv k (read_howmuch (fionread k) howmuch) in
  change (λ v, with_input (evbuffer_unfreeze (input v) false) v);;
  res ← on_input (λ i, evbuffer_read alloc i (fionread k) howmuch got);
  change (λ v, with_input (evbuffer_freeze (input v) false) v);;
  bwhen (0 <? res) (note_received (default [] got));;
  mret res.

(** The bytes that can still be read, as an ev_ssize_t. *)
Definition room_to_high (v : bufferevent) : Z := swrap 64 (high (wm_read (marks v)) - total_len (input v)).

Definition read_failed (what : Z) : BM unit :=
  bufferevent_disable EV_READ;;
  bufferevent_run_eventcb_ what 0.

Definition bufferevent_readcb (event : Z) : BM unit :=
  bufferevent_incref;;
  (if event =? EV_TIMEOUT then read_failed (Z.lor BEV_EVENT_READING BEV_EVENT_TIMEOUT)
   else
     v ← ask id;
     if negb (high (wm_read (marks v)) =? 0) && (room_to_high v <=? 0) then bufferevent_wm_suspend_read
     else
       let howmuch := if high (wm_read (marks v)) =? 0 then -1 else room_to_high v in
       readmax ← bufferevent_get_read_max_;
       let howmuch := if (howmuch <? 0) || (readmax <? howmuch) then readmax else howmuch in
       if negb (read_suspended (status v) =? 0) then mret tt
       else
         res ← read_socket (int32 howmuch);
         if 0 <? res then bufferevent_trigger_nolock_ EV_READ 0
         else if res =? -1 then
           err ← (λ s, Some (errno (trace s), s));
           if EVUTIL_ERR_RW_RETRIABLE err then mret tt
           else if EVUTIL_ERR_CONNECT_REFUSED err then change (set_connection_refused true)
           else read_failed (Z.lor BEV_EVENT_READING BEV_EVENT_ERROR)
         else read_failed (Z.lor BEV_EVENT_READING BEV_EVENT_EOF));;
  bufferevent_decref_and_unlock_;; mret tt.

(** *** Writing *)

Definition write_failed (what : Z) : BM unit :=
  bufferevent_disable EV_WRITE;;
  bufferevent_run_eventcb_ what 0.

Definition del_write : BM unit := p ← ask parts; bev_event_del (ev_write p);; mret tt.

(** evbuffer_write_atmost on the socket; what leaves the buffer has been sent. *)
Definition write_socket (atmost : Z) : BM Z :=
  k ← syscall;
  change (λ v, with_output (evbuffer_unfreeze (output v) true) v);;
  before ← ask (λ v, bytes (output v));
  res ← on_output (λ o, evbuffer_write_atmost o (writev k) atmost);
  change (λ v, with_output (evbuffer_freeze (output v) true) v);;
  note_sent (take (Z.to_nat res) before);;
  mret res.

(** What follows the writing: the event may go, the application is told.  [connected]: the connection
    has just been made. *)
Definition after_write (connected : bool) (res : Z) : BM unit :=
  v ← ask id;
  bwhen (total_len (output v) =? 0) del_write;;
  bwhen (negb (res =? 0) || negb connected) (bufferevent_trigger_nolock_ EV_WRITE 0).

(** What is left to do when the connection is there. *)
Definition write_out (connected : bool) : BM unit :=
  atmost ← bufferevent_get_write_max_;
  v ← ask id;
  if negb (write_suspended (status v) =? 0) then mret tt
  else if total_len (output v) =? 0 then after_write connected 0
  else
    res ← write_socket atmost;
    if 0 <? res then after_write connected res
    else if res =? -1 then
      err ← (λ s, Some (errno (trace s), s));
      if EVUTIL_ERR_RW_RETRIABLE err then
        v ← ask id;
        bwhen (total_len (output v) =? 0) del_write
      else write_failed (Z.lor BEV_EVENT_WRITING BEV_EVENT_ERROR)
    else write_failed (Z.lor BEV_EVENT_WRITING BEV_EVENT_EOF).

(** What getsockopt says of the connection, or the failure that bufferevent_readcb has seen. *)
Definition connect_result : BM Z :=
  k ← syscall;
  t ← ask status;
  change (set_connection_refused false);;
  mret (if connection_refused t then -1 else finished_connecting k).

Definition bufferevent_writecb (event : Z) : BM unit :=
  bufferevent_incref;;
  (if event =? EV_TIMEOUT then write_failed (Z.lor BEV_EVENT_WRITING BEV_EVENT_TIMEOUT)
   else
     t ← ask status;
     if connecting t then
       c ← connect_result;
       if c =? 0 then mret tt
       else
         change (set_connecting false);;
         if c <? 0 then
           p ← ask parts;
           bev_event_del (ev_write p);;
           bev_event_del (ev_read p);;
           note_refused c;;
           bufferevent_run_eventcb_ BEV_EVENT_ERROR 0
         else
           bufferevent_run_eventcb_ BEV_EVENT_CONNECTED 0;;
           t ← ask status;
           if negb (has EV_WRITE (enabled t)) || negb (write_suspended t =? 0) then del_write
           else write_out true
     else write_out false);;
  bufferevent_decref_and_unlock_;; mret tt.

(** *** Connecting *)

(** [sa]: is there an address?  [sock]: what evutil_socket_ answers; [r]: what evutil_socket_connect_
    answers, 0 while it is under way, 1 when it is done, 2 when it is refused, -1 when it failed. *)
Definition bufferevent_socket_connect (sa : bool) (sock r : Z) : BM Z :=
  bufferevent_incref;;
  fd ← bufferevent_getfd;
  result ←
    (if (fd <? 0) && (negb sa || (sock <? 0)) then mret (-1)
     else
       let fd := if fd <? 0 then sock else fd in
       let r := if sa then r else 0 in
       if r <? 0 then bufferevent_run_eventcb_ BEV_EVENT_ERROR 0;; mret (-1)
       else
         bufferevent_setfd fd;;
         if r =? 0 then
           e ← be_socket_enable EV_WRITE;
           if e =? 0 then change (set_connecting true);; mret 0 else mret (-1)
         else if r =? 1 then
           change (set_connecting true);;
           bufferevent_trigger_nolock_ EV_WRITE BEV_OPT_DEFER_CALLBACKS;;
           mret 0
         else
           bufferevent_run_eventcb_ BEV_EVENT_ERROR BEV_OPT_DEFER_CALLBACKS;;
           bufferevent_disable (Z.lor EV_WRITE EV_READ);;
           mret 0);
  bufferevent_decref_and_unlock_;;
  mret result.

(** *** Creation *)

(** On new memory, when there is enough of it; [threads]: can a lock be allocated?  The addresses are
    those of the events and of the deferred callback. *)
Definition bufferevent_init_common_ (threads : bool) (r w c : nat) (opts : Z) : EM (option bufferevent) :=
  if has BEV_OPT_THREADSAFE opts && negb threads then mret None
  else if Z.land opts (Z.lor BEV_OPT_DEFER_CALLBACKS BEV_OPT_UNLOCK_CALLBACKS) =? BEV_OPT_UNLOCK_CALLBACKS then mret None
  else
    n ← gets nactivequeues;
    event_deferred_cb_init_ c (n / 2) (user_cb DEFERRED_CB) 0;;
    mret (Some (Bufferevent evbuffer_new evbuffer_new
      (Bev_parts r w c opts MAX_SINGLE_READ_DEFAULT MAX_SINGLE_WRITE_DEFAULT)
      (Bev_marks (Event_watermark 0 0) (Event_watermark 0 0) None)
      (Bev_callbacks None None None 0)
      (Bev_timeouts evutil_timerclear evutil_timerclear)
      (Bev_state EV_WRITE 0 0 false false)
      (Bev_pending false false 0 0)
      1)).

Definition bufferevent_socket_new (threads : bool) (r w c : nat) (fd opts : Z) : EM (option bufferevent) :=
  o ← bufferevent_init_common_ threads r w c opts;
  match o with
  | None => mret None
  | Some v =>
      event_assign r fd READ_EVENTS (user_cb READCB) 0;;
      event_assign w fd WRITE_EVENTS (user_cb WRITECB) 0;;
      let o := evbuffer_add_cb (output v) OUTBUF_CB 0 in
      mret (Some (with_output (evbuffer_freeze o true) (with_input (evbuffer_freeze (input v) false) v)))
  end.
End bufferevent.
