(* ===== verification/BuffereventOk.v ===== *)
(** * Bufferevents: the invariant

    What holds between the calls of a bufferevent on a socket without timeouts: the events wait for
    the socket exactly when the bufferevent is to read or write, reading stops at the high watermark,
    no data is lost or left behind. *)

From S2P Require Import Prelude EvBuffer EvBufferMove EvBufferSpace EvBufferCalls.
From S2P Require Import Timeval Event MinHeap EvMap EventBase EventBaseOk EventApi EventCheck EventCalls EventLive EventSystem EventTimeout EventProcess.
From S2P Require Import Bufferevent.

(** ** The events *)

(** The event waits for its descriptor. *)
Definition watched (b : event_base) (x : nat) : bool := from_option (λ e, has EVLIST_INSERTED (ev_flags e)) false (evs b !! x).

(** The event at [x] was assigned [fd] and [events], and has no timeout. *)
Definition io_flags (c : event_callback) : Prop :=
  has EVLIST_TIMEOUT (evcb_flags c) = false ∧ has EVLIST_FINALIZING (evcb_flags c) = false ∧
  has EVLIST_ACTIVE_LATER (evcb_flags c) = false ∧
  (has EVLIST_ACTIVE (evcb_flags c) = true → has EVLIST_INSERTED (evcb_flags c) = true).
Definition io_event (b : event_base) (x : nat) (fd events : Z) : Prop :=
  ¬ ctl_timer b x ∧ ∃ e, evs b !! x = Some e ∧ ev_fd e = fd ∧ ev_events e = events ∧ io_flags (ev_evcallback e).

(** [x] is the only event that has changed. *)
Definition elsewhere (x : nat) (b b' : event_base) : Prop :=
  (∀ y fd events, y ≠ x → io_event b y fd events → io_event b' y fd events ∧ watched b' y = watched b y).

Lemma core_elsewhere x b b' :
  map (λ c, (duration c, timeout_event c)) (common_timeout_queues b') =
    map (λ c, (duration c, timeout_event c)) (common_timeout_queues b) →
  (∀ y, y ≠ x → ¬ ctl_timer b y → core <$> evs b' !! y = core <$> evs b !! y) → elsewhere x b b'.
Proof.
  intros Hc Ho y fd events Hy [Hct (e & He & Hfd & Hev & Hf)]. specialize (Ho y Hy Hct). rewrite He in Ho.
  destruct (evs b' !! y) as [e'|] eqn:He'; [|done]. apply (inj Some), core_eq in Ho.
  split; [split; [by rewrite (ctl_timer_same b b')|]|unfold watched; by rewrite He, He', Ho].
  exists e'. rewrite He', Ho. done.
Qed.

Lemma touched_elsewhere x b b' : touched (of_event x) b b' → elsewhere x b b'.
Proof. intros Ht. apply core_elsewhere; [apply Ht|]. intros y Hy _. apply Ht. congruence. Qed.

Lemma size_touched x (m m' : store) :
  (∀ y, y ≠ x → core <$> m' !! y = core <$> m !! y) →
  (size m' <= S (size m))%nat ∧ (is_Some (m !! x) → is_Some (m' !! x) → size m' = size m).
Proof.
  intros H. assert (Hd : ∀ y, y ≠ x → y ∈ dom m' ↔ y ∈ dom m).
  { intros y Hy. rewrite !elem_of_dom. specialize (H y Hy). destruct (m' !! y), (m !! y); try done; by split; intros []. }
  rewrite <- !size_dom. split.
  - etrans; [apply (subseteq_size _ (dom m ∪ {[x]}))|]; [|].
    2:{ rewrite size_union_alt. pose proof (subseteq_size ({[x]} ∖ dom m) {[x]} ltac:(set_solver)) as Hs. rewrite size_singleton in Hs. lia. }
    intros y Hy. destruct (decide (y = x)) as [->|Hne]; [set_solver|]. apply Hd in Hy; [set_solver|done].
  - intros H1 H2. apply (f_equal size), leibniz_equiv, set_equiv. intros y. destruct (decide (y = x)) as [->|Hne]; [|by apply Hd].
    by rewrite !elem_of_dom.
Qed.

Lemma wp_and {A} (m : EM A) b (P Q : A → event_base → Prop) : wp m b P → wp m b Q → wp m b (λ a b', P a b' ∧ Q a b').
Proof. intros (a & b' & E & H) (a' & b'' & E' & H'). rewrite E in E'. simplify_eq. by exists a', b''. Qed.

Section events.
Context (mm : nat → Z → bool) (backend : history → backend_call → bool) (fdinfo_len : Z) (clock : nat → timeval).
Hypothesis clock_good : clock_ok clock.

Lemma rest_busy b x : at_rest b → ¬ busy b x.
Proof. intros [_ Hs]. by apply settled_calm. Qed.

Lemma io_own b x fd events e : io_event b x fd events → evs b !! x = Some e → own_event b x e.
Proof. by intros [? _] ?. Qed.

Lemma io_add b x fd events :
  at_rest b → io_event b x fd events → has IO_EVENTS events = true →
  wp (event_add mm backend fdinfo_len clock x None) b (λ r b', at_rest b' ∧ elsewhere x b b' ∧ io_event b' x fd events ∧
    (r = 0 ∧ watched b' x = true ∨ r = -1 ∧ watched b' x = watched b x)).
Proof.
  intros Hr [Hct (e & He & Hfd & Hev & T & F & L & A)] Hio. pose proof (at_rest_prog _ Hr) as Hp.
  pose proof (api_base _ (proj1 Hr)) as Hok. assert (Hown : own_event b x e) by done.
  unfold event_add. apply wp_bind, (wp_get_event x e); [done|]. rewrite (ew_base _ (bo_wf _ (bo_items _ Hok) x e He)). cbn [negb].
  eapply wp_mono; [apply (add_nolock_keeps mm backend fdinfo_len clock clock_good x None false e b Hp Hown (rest_busy _ _ Hr)); [done|by intros ?]|].
  intros r b' (Hk & Hou & Hout). pose proof (rs_rest _ _ (keeps_rests _ _ Hr Hk)) as Hr'. split; [done|].
  split; [apply core_elsewhere; apply Hou|]. assert (Hct' : ¬ ctl_timer b' x) by (rewrite (ctl_timer_same b b'); [done|apply Hou]).
  destruct Hout as [[-> Hc]|(-> & _ & e' & He' & Had & _)].
  - rewrite He in Hc. destruct (evs b' !! x) as [e'|] eqn:He'; [|done]. apply (inj Some), core_eq in Hc.
    split; [|right; split; [done|]; unfold watched; by rewrite He, He', Hc].
    split; [done|]. exists e'. rewrite He', Hc. done.
  - assert (Hi : has EVLIST_INSERTED (ev_flags e) || to_insert e = true).
    { unfold to_insert. rewrite !has_or. rewrite Hev. rewrite Hio. unfold ev_flags in *. rewrite L.
      destruct (has EVLIST_INSERTED _) eqn:I; [done|]. destruct (has EVLIST_ACTIVE _); [by specialize (A eq_refl)|].
      done. }
    pose proof (ad_bits _ _ _ _ _ _ Had) as Hb. rewrite Hi in Hb. unfold bits in Hb. unfold ev_flags in *. injection Hb as B1 B2 B3 B4.
    rewrite T in B1. cbn in B1. split; [|left; split; [done|]; unfold watched; rewrite He'; exact B2].
    split; [done|]. exists e'. split; [done|]. split; [by rewrite (ad_fd _ _ _ _ _ _ Had)|].
    split; [by rewrite (ad_events _ _ _ _ _ _ Had)|]. destruct (ad_requeued _ _ _ _ _ _ Had) as (_ & _ & R & _).
    split; [done|]. split; [by rewrite R|]. split; [by rewrite B4|done].
Qed.

Lemma io_del b x fd events :
  at_rest b → io_event b x fd events →
  wp (event_del backend x) b (λ r b', at_rest b' ∧ elsewhere x b b' ∧ io_event b' x fd events ∧ watched b' x = false ∧
    size (evs b') = size (evs b)).
Proof.
  intros Hr [Hct (e & He & Hfd & Hev & T & F & L & A)]. pose proof (at_rest_prog _ Hr) as Hp.
  assert (Hown : own_event b x e) by done. change (evcb_flags (ev_evcallback e)) with (ev_flags e) in F.
  eapply wp_mono; [apply (wp_and _ _ _ _ (del_keeps backend x b e Hp Hown (rest_busy _ _ Hr)) (event_del_ok backend b x e (proj1 Hr) Hown))|].
  intros r b' [[Hk H1] [_ H2]]. rewrite F in H1, H2. destruct H1 as [Ht _], H2 as (c & [_ _ _ [pos Hx'] Hrq] & Hid).
  pose proof (rs_rest _ _ (keeps_rests _ _ Hr Hk)) as Hr'. split; [done|]. split; [by apply touched_elsewhere|].
  destruct (idle_flags _ Hid) as (I1 & I2 & I3 & I4). destruct Hrq as (_ & _ & Rf & _).
  split; [|split; [unfold watched; rewrite Hx'; exact I2|]].
  2:{ apply (size_touched x); [|by eauto..]. intros y Hy. apply Ht. congruence. }
  split; [rewrite (ctl_timer_same b b'); [done|apply Ht]|]. eexists. split; [exact Hx'|]. split; [done|]. split; [done|].
  split; [exact I1|]. split; [cbn; by rewrite Rf|]. split; [exact I4|]. cbn. by rewrite I3.
Qed.

Lemma io_pending b x fd events what :
  at_rest b → io_event b x fd events → Z.land events (Z.land (Z.lor IO_EVENTS EV_SIGNAL) what) ≠ 0 →
  Z.land what (Z.lor EV_TIMEOUT (Z.lor IO_EVENTS EV_SIGNAL)) = what →
  ∃ z, event_pending b x what = Some z ∧ (z =? 0) = negb (watched b x).
Proof.
  intros Hr [_ (e & He & _ & Hev & T & F & L & A)] Hw Hwhat. unfold event_pending, watched. rewrite He. cbn [mbind option_bind from_option].
  rewrite (ew_base _ (bo_wf _ (bo_items _ (api_base _ (proj1 Hr))) x e He)). cbn [negb]. rewrite !has_or. unfold ev_flags in *.
  rewrite T, L, Hwhat, Hev. eexists. split; [reflexivity|]. destruct (has EVLIST_INSERTED _) eqn:I.
  - cbn [negb]. apply Z.eqb_neq. intros Hz. apply Hw. rewrite Z.land_assoc. rewrite orb_false_r in Hz.
    destruct (has EVLIST_ACTIVE _); [|done]. rewrite Z.land_lor_distr_l in Hz. by apply Z.lor_eq_0_iff in Hz as [? _].
  - destruct (has EVLIST_ACTIVE _); [by specialize (A eq_refl)|]. done.
Qed.

Lemma unwatched_idle b x fd events : io_event b x fd events → watched b x = false → idle_event (evs b !! x).
Proof.
  intros [_ (e & He & _ & _ & T & F & L & A)] Hw. unfold watched in Hw. rewrite He in Hw |- *. intros ? [= <-]. cbn in Hw.
  unfold idle, bits. unfold ev_flags in Hw. rewrite T, L, Hw. destruct (has EVLIST_ACTIVE _); [|done]. by rewrite (A eq_refl) in Hw.
Qed.

(** Assigned, while it waits for nothing. *)
Lemma io_assign b x fd events f :
  at_rest b → ¬ ctl_timer b x → idle_event (evs b !! x) →
  (∀ e, evs b !! x = Some e → has EVLIST_FINALIZING (ev_flags e) = false) →
  has EV_SIGNAL events = false → fd < 2 ^ 30 → Z.of_nat (size (evs b)) + 2 < 2 ^ 31 →
  wp (event_assign x fd events (user_cb f) 0) b (λ _ b', at_rest b' ∧ elsewhere x b b' ∧ io_event b' x fd events ∧
    watched b' x = false ∧ (∀ y, ctl_timer b' y ↔ ctl_timer b y) ∧ (∀ y, y ≠ x → core <$> evs b' !! y = core <$> evs b !! y) ∧
    nactivequeues b' = nactivequeues b ∧ (size (evs b') <= S (size (evs b)))%nat ∧ (is_Some (evs b !! x) → size (evs b') = size (evs b))).
Proof.
  intros Hr Hct Hid Hfin Hsig Hfd Hsz. pose proof (at_rest_prog _ Hr) as Hp. pose proof (proj1 Hr) as [Hok _ _ Hq].
  assert (Hm : may_assign b x fd events) by (split_and!; try done; by rewrite Hsig).
  assert (Ha : allowed b (call_assign x fd events f 0)).
  { split; [done|]. split; [by apply rest_busy|]. intros e He Hc. pose proof (il_closure _ _ (lv_events _ (po_live _ Hp) x e He)) as [H1 _].
    specialize (Hfin e He). rewrite H1 in Hfin; [done|]. by right. }
  eapply wp_mono; [apply (wp_and _ _ _ _ (assign_keeps x fd events f 0 b Hp Ha) (assign_ok x fd events (user_cb f) 0 b Hok Hq Hm))|].
  intros r b' [Hk (_ & _ & Ht & _ & e & He & Hcb & Hf1 & Hf2 & _)]. split; [apply (rs_rest _ _ (keeps_rests _ _ Hr Hk))|].
  split; [by apply touched_elsewhere|].
  assert (Hcb' : evcb_flags (ev_evcallback e) = EVLIST_INIT) by by rewrite Hcb.
  split; [split; [by rewrite (ctl_timer_same b b') by apply Ht|]|split; [unfold watched; rewrite He; unfold ev_flags; cbn; by rewrite Hcb'|]].
  - exists e. split; [done|]. split; [done|]. split; [done|]. unfold io_flags. by rewrite Hcb'.
  - split; [intros y; by rewrite (ctl_timer_same b b') by apply Ht|]. assert (Hc : ∀ y, y ≠ x → core <$> evs b' !! y = core <$> evs b !! y) by (intros y Hy; apply Ht; congruence).
    split; [done|]. split; [apply Hk|]. destruct (size_touched x _ _ Hc). eauto.
Qed.
End events.

(** ** Running an operation to the end *)

Definition bwp {A} (m : BM A) (s : bev_system) (Q : A → bev_system → Prop) : Prop := ∃ a s', m s = Some (a, s') ∧ Q a s'.

Lemma bwp_mono {A} (m : BM A) s (Q Q' : A → bev_system → Prop) : bwp m s Q → (∀ a s', Q a s' → Q' a s') → bwp m s Q'.
Proof. intros (a & s' & E & H) HQ. exists a, s'. auto. Qed.
Lemma bwp_ret {A} (a : A) s (Q : A → bev_system → Prop) : Q a s → bwp (mret a) s Q.
Proof. intros H. by exists a, s. Qed.
Lemma bwp_bind {A B} (m : BM A) (f : A → BM B) s Q : bwp m s (λ a s', bwp (f a) s' Q) → bwp (m ≫= f) s Q.
Proof. intros (a & s1 & E & c & s2 & E2 & H). exists c, s2. split; [|done]. unfold mbind, bm_bind. by rewrite E. Qed.
Lemma bwp_ask {A} (f : bufferevent → A) s (Q : A → bev_system → Prop) : Q (f (bev s)) s → bwp (ask f) s Q.
Proof. intros H. by exists (f (bev s)), s. Qed.
Lemma bwp_change f s (Q : unit → bev_system → Prop) : Q tt (Bev_system (base s) (f (bev s)) (trace s)) → bwp (change f) s Q.
Proof. intros H. by eexists tt, _. Qed.
Lemma bwp_record f s (Q : unit → bev_system → Prop) : Q tt (Bev_system (base s) (bev s) (f (trace s))) → bwp (record f) s Q.
Proof. intros H. by eexists tt, _. Qed.
Lemma bwp_base {A} (m : EM A) s (Q : A → bev_system → Prop) :
  wp m (base s) (λ a b, Q a (Bev_system b (bev s) (trace s))) → bwp (on_base m) s Q.
Proof. intros (a & b & E & H). eexists a, _. split; [unfold on_base; by rewrite E|done]. Qed.
Lemma bwp_when c m s (Q : unit → bev_system → Prop) : (c = true → bwp m s Q) → (c = false → Q tt s) → bwp (bwhen c m) s Q.
Proof. destruct c; intros H1 H2; [auto|]. by apply bwp_ret, H2. Qed.
Lemma bwp_assert c s (Q : unit → bev_system → Prop) : c = true → Q tt s → bwp (bassert c) s Q.
Proof. intros -> H. by exists tt, s. Qed.

(** ** The invariant *)

(** The entry that keeps the high watermark. *)
Definition wm_entry (v : bufferevent) : Prop :=
  match read_watermarks_cb (marks v) with
  | None => callbacks (input v) = [] ∧ high (wm_read (marks v)) = 0
  | Some i => i = 0%nat ∧ ∃ fl, callbacks (input v) = [CbEntry INBUF_WM_CB 0 fl] ∧
      (on (CbEntry INBUF_WM_CB 0 fl) ↔ high (wm_read (marks v)) ≠ 0)
  end.

Record static (v : bufferevent) : Prop := {
  sb_ne : ev_read (parts v) ≠ ev_write (parts v);
  sb_now : has BEV_OPT_DEFER_CALLBACKS (options (parts v)) = false;
  sb_max : 0 < max_single_read (parts v) <= INT_MAX ∧ 0 < max_single_write (parts v);
  sb_timeouts : timeouts v = Bev_timeouts evutil_timerclear evutil_timerclear;
  sb_in : wf (input v) ∧ calm (input v) ∧ freeze_start (input v) = false;
  sb_out : wf (output v) ∧ calm (output v) ∧ freeze_end (output v) = false ∧
    callbacks (output v) = [CbEntry OUTBUF_CB 0 EVBUFFER_CB_ENABLED] ∧ Zlen (bytes (output v)) <= INT_MAX;
  sb_high : 0 <= high (wm_read (marks v)) <= EV_SSIZE_MAX ∧ wm_entry v;
  sb_read : read_suspended (status v) = 0 ∨ read_suspended (status v) = BEV_SUSPEND_WM;
  sb_write : write_suspended (status v) = 0;
  sb_ref : 0 < bev_refcnt v
}.

(** Reading is suspended exactly when the high watermark is reached. *)
Definition full (v : bufferevent) : bool :=
  negb (high (wm_read (marks v)) =? 0) && (high (wm_read (marks v)) <=? total_len (input v)).
Definition at_mark (v : bufferevent) : Prop := read_suspended (status v) = if full v then BEV_SUSPEND_WM else 0.

Definition reads (v : bufferevent) : bool := has EV_READ (enabled (status v)) && (read_suspended (status v) =? 0).
Definition writes (v : bufferevent) : bool := has EV_WRITE (enabled (status v)).

Definition events_ok (s : bev_system) : Prop :=
  at_rest (base s) ∧ (∃ fd, io_event (base s) (ev_read (parts (bev s))) fd READ_EVENTS) ∧
  (∃ fd, io_event (base s) (ev_write (parts (bev s))) fd WRITE_EVENTS).

Definition reading (s : bev_system) : bool := watched (base s) (ev_read (parts (bev s))).
Definition writing (s : bev_system) : bool := watched (base s) (ev_write (parts (bev s))).

(** Unless a call has failed, the events wait as they should. *)
Definition waits_ok (s : bev_system) : Prop :=
  refused (trace s) = false → reading s = reads (bev s) ∧ (connecting (status (bev s)) = true → writing s = true).

(** Nothing is written when writing is disabled. *)
Definition no_stray (s : bev_system) : Prop :=
  refused (trace s) = false → writing s = true → connecting (status (bev s)) = true ∨ writes (bev s) = true.

(** Data does not stay behind. *)
Definition flows (s : bev_system) : Prop :=
  refused (trace s) = false → writes (bev s) = true → bytes (output (bev s)) ≠ [] → writing s = true.

Definition conserved (s : bev_system) : Prop :=
  received (trace s) = consumed (trace s) ++ bytes (input (bev s)) ∧
  given (trace s) = sent (trace s) ++ bytes (output (bev s)).

Record sound (s : bev_system) : Prop := {
  so_events : events_ok s;
  so_static : static (bev s);
  so_waits : waits_ok s
}.
Record bev_ok (s : bev_system) : Prop := {
  ok_sound : sound s;
  ok_mark : at_mark (bev s);
  ok_flows : flows s;
  ok_data : conserved s
}.

(** The same bytes have gone through. *)
Definition same_data (t t' : bev_trace) : Prop :=
  received t' = received t ∧ consumed t' = consumed t ∧ given t' = given t ∧ sent t' = sent t.
(** A failure is not forgotten. *)
Definition later (t t' : bev_trace) : Prop := refused t' = false → refused t = false.

(** Only the base has changed, and of the trace the record of failures. *)
Record events_only (s s' : bev_system) : Prop := {
  eo_events : events_ok s';
  eo_bev : bev s' = bev s;
  eo_data : same_data (trace s) (trace s');
  eo_later : later (trace s) (trace s')
}.

Lemma events_only_refl s : events_ok s → events_only s s.
Proof. intros H. split; [done|done|done|]. by intros ?. Qed.
Lemma events_only_trans s1 s2 s3 : events_only s1 s2 → events_only s2 s3 → events_only s1 s3.
Proof.
  intros [A1 A2 (A3 & A4 & A5 & A6) A7] [B1 B2 (B3 & B4 & B5 & B6) B7].
  split; [done|congruence|split_and!; congruence|]. intros H. by apply A7, B7.
Qed.

Section operations.
Context (mm : nat → Z → bool) (backend : history → backend_call → bool) (fdinfo_len : Z) (clock : nat → timeval).
Hypothesis clock_good : clock_ok clock.

Lemma note_refused_ok r s (Q : unit → bev_system → Prop) :
  (∀ t', same_data (trace s) t' → later (trace s) t' → (refused t' = false → r ≠ -1) → Q tt (Bev_system (base s) (bev s) t')) →
  bwp (note_refused r) s Q.
Proof.
  intros HQ. apply bwp_record, HQ; [done| |]; unfold later; cbn; intros [? ?]%orb_false_iff; [done|]. by apply Z.eqb_neq.
Qed.

(** The two events of a bufferevent. *)
Inductive side := reader | writer.
Definition event_of (d : side) (v : bufferevent) : nat := match d with reader => ev_read (parts v) | writer => ev_write (parts v) end.
Definition events_of (d : side) : Z := match d with reader => READ_EVENTS | writer => WRITE_EVENTS end.
Definition waiting (d : side) (s : bev_system) : bool := watched (base s) (event_of d (bev s)).
Definition other (d : side) : side := match d with reader => writer | writer => reader end.

Lemma event_of_other d v : static v → event_of (other d) v ≠ event_of d v.
Proof. intros Hs. destruct d; cbn; [symmetry|]; apply Hs. Qed.

Lemma events_side s d : events_ok s → at_rest (base s) ∧ ∃ fd, io_event (base s) (event_of d (bev s)) fd (events_of d).
Proof. intros (H1 & H2 & H3). by destruct d. Qed.
Lemma events_sides s : at_rest (base s) → (∀ d, ∃ fd, io_event (base s) (event_of d (bev s)) fd (events_of d)) → events_ok s.
Proof. intros H1 H2. split; [done|]. split; [apply (H2 reader)|apply (H2 writer)]. Qed.

Lemma moved_side s b' t' d :
  events_ok s → static (bev s) → at_rest b' → elsewhere (event_of d (bev s)) (base s) b' →
  (∃ fd, io_event b' (event_of d (bev s)) fd (events_of d)) → same_data (trace s) t' → later (trace s) t' →
  let s' := Bev_system b' (bev s) t' in
  events_only s s' ∧ waiting (other d) s' = waiting (other d) s.
Proof.
  intros He Hs Hr Hel Hd Ht Hl s'. destruct (events_side s (other d) He) as (_ & fd & Ho).
  destruct (Hel _ _ _ (event_of_other d _ Hs) Ho) as [Ho' Hw]. split; [|exact Hw]. split; [|done|done|done].
  apply events_sides; [done|]. intros d'. destruct d, d'; eauto.
Qed.

Abbreviation add_event := (bufferevent_add_event_ mm backend fdinfo_len clock).

Lemma add_event_ok d s :
  events_ok s → static (bev s) →
  bwp (add_event (event_of d (bev s)) evutil_timerclear) s (λ r s', events_only s s' ∧
    waiting (other d) s' = waiting (other d) s ∧ (r = 0 ∨ r = -1) ∧
    (refused (trace s') = false → r = 0 ∧ waiting d s' = true)).
Proof.
  intros He Hs. destruct (events_side s d He) as (Hr & fd & Hio). unfold bufferevent_add_event_.
  change (evutil_timerisset evutil_timerclear) with false. cbv iota. apply bwp_bind, bwp_base.
  eapply wp_mono; [apply (io_add mm backend fdinfo_len clock clock_good _ _ fd (events_of d) Hr Hio); by destruct d|].
  intros r b' (Hr' & Hel & Hio' & Hout). apply bwp_bind, note_refused_ok. intros t' Ht Hl Hnr. apply bwp_ret.
  destruct (moved_side s b' t' d He Hs Hr' Hel (ex_intro _ fd Hio') Ht Hl) as [H1 H2]. split; [done|]. split; [done|].
  split; [destruct Hout as [[? _]|[? _]]; auto|]. intros Hn. specialize (Hnr Hn). by destruct Hout as [[? ?]|[? _]].
Qed.

Lemma del_event_ok d s :
  events_ok s → static (bev s) →
  bwp (bev_event_del backend (event_of d (bev s))) s (λ r s', events_only s s' ∧
    waiting (other d) s' = waiting (other d) s ∧ waiting d s' = false ∧ size (evs (base s')) = size (evs (base s)) ∧
    (refused (trace s') = false → r ≠ -1)).
Proof.
  intros He Hs. destruct (events_side s d He) as (Hr & fd & Hio). unfold bev_event_del. apply bwp_bind, bwp_base.
  eapply wp_mono; [apply (io_del backend _ _ fd (events_of d) Hr Hio)|].
  intros r b' (Hr' & Hel & Hio' & Hw & Hid). apply bwp_bind, note_refused_ok. intros t' Ht Hl Hnr. apply bwp_ret.
  destruct (moved_side s b' t' d He Hs Hr' Hel (ex_intro _ fd Hio') Ht Hl) as [H1 H2]. done.
Qed.

(** *** Enabling and disabling *)

Lemma enable_ok e s :
  events_ok s → static (bev s) →
  bwp (be_socket_enable mm backend fdinfo_len clock e) s (λ r s', events_only s s' ∧ (r = 0 ∨ r = -1) ∧
    (refused (trace s') = false → r = 0 ∧ reading s' = reading s || has EV_READ e ∧ writing s' = writing s || has EV_WRITE e)).
Proof.
  intros He Hs. unfold be_socket_enable. apply bwp_bind, bwp_ask, bwp_bind, bwp_ask. rewrite (sb_timeouts _ Hs). cbn [timeout_read timeout_write].
  apply bwp_bind. assert (H1 : bwp (if has EV_READ e then add_event (ev_read (parts (bev s))) evutil_timerclear else mret 0) s (λ r s1,
    events_only s s1 ∧ (r = 0 ∨ r = -1) ∧
    (refused (trace s1) = false → r = 0 ∧ reading s1 = reading s || has EV_READ e ∧ writing s1 = writing s))).
  { destruct (has EV_READ e); [|apply bwp_ret; rewrite orb_false_r; split; [by apply events_only_refl|auto]].
    eapply bwp_mono; [apply (add_event_ok reader s He Hs)|]. intros r s1 (H1 & H2 & H3 & H4). rewrite orb_true_r.
    split; [done|]. split; [done|]. intros Hn. destruct (H4 Hn). auto. }
  eapply bwp_mono; [exact H1|]. intros r s1 (E1 & Hr & Hw). destruct Hr as [-> | ->]; cycle 1.
  { apply bwp_ret. split; [done|]. split; [by right|]. intros Hn. by destruct (Hw Hn). }
  change (0 =? -1) with false. cbv iota. apply bwp_bind. pose proof (eo_bev _ _ E1) as Eb.
  destruct (has EV_WRITE e).
  - rewrite <- Eb. eapply bwp_mono; [apply (add_event_ok writer s1 (eo_events _ _ E1)); by rewrite Eb|].
    intros r s2 (E2 & Ho & Hr & Hw2). apply bwp_ret. split; [by eapply events_only_trans|]. split; [destruct Hr as [-> | ->]; auto|].
    intros Hn. destruct (Hw2 Hn) as [-> Hww], (Hw (eo_later _ _ E2 Hn)) as (_ & Hrd & _). split; [done|]. rewrite orb_true_r.
    split; [etrans; [exact Ho|exact Hrd]|exact Hww].
  - apply bwp_ret, bwp_ret. split; [done|]. split; [by left|]. intros Hn. rewrite orb_false_r. by apply Hw.
Qed.

Lemma disable_ok e s :
  events_ok s → static (bev s) →
  bwp (be_socket_disable backend e) s (λ r s', events_only s s' ∧ (r = 0 ∨ r = -1) ∧
    (refused (trace s') = false → r = 0 ∧ reading s' = reading s && negb (has EV_READ e) ∧
      writing s' = writing s && negb (has EV_WRITE e && negb (connecting (status (bev s)))))).
Proof.
  intros He Hs. unfold be_socket_disable. apply bwp_bind, bwp_ask, bwp_bind.
  assert (H1 : bwp (if has EV_READ e then bev_event_del backend (ev_read (parts (bev s))) else mret 0) s (λ r s1,
    events_only s s1 ∧ (refused (trace s1) = false → r ≠ -1 ∧ reading s1 = reading s && negb (has EV_READ e) ∧ writing s1 = writing s))).
  { destruct (has EV_READ e); [|apply bwp_ret; rewrite andb_true_r; split; [by apply events_only_refl|auto]].
    eapply bwp_mono; [apply (del_event_ok reader s He Hs)|]. intros r s1 (H1 & H2 & H3 & _ & H4). rewrite andb_false_r. auto. }
  eapply bwp_mono; [exact H1|]. intros r s1 (E1 & Hw). destruct (Z.eqb_spec r (-1)) as [Hr|Hr].
  { apply bwp_ret. split; [done|]. split; [by right|]. intros Hn. by destruct (Hw Hn). }
  apply bwp_bind, bwp_ask, bwp_bind. pose proof (eo_bev _ _ E1) as Eb. rewrite Eb.
  destruct (has EV_WRITE e && _).
  - rewrite <- Eb. eapply bwp_mono; [apply (del_event_ok writer s1 (eo_events _ _ E1)); by rewrite Eb|].
    intros r2 s2 (E2 & Ho & Hww & _ & Hr2). apply bwp_ret. split; [by eapply events_only_trans|]. split; [destruct (r2 =? -1); auto|].
    intros Hn. specialize (Hr2 Hn). destruct (Hw (eo_later _ _ E2 Hn)) as (_ & Hrd & _). rewrite (proj2 (Z.eqb_neq _ _)) by done.
    split; [done|]. rewrite andb_false_r. split; [etrans; [exact Ho|exact Hrd]|exact Hww].
  - apply bwp_ret, bwp_ret. split; [done|]. split; [by left|]. intros Hn. rewrite andb_true_r. split; [done|]. by apply Hw.
Qed.

(** *** The high watermark *)

(** Reading may have been suspended or resumed; nothing else has changed. *)
Record resuspends (s s' : bev_system) : Prop := {
  rd_sound : sound s';
  rd_bev : bev s' = set_read_suspended (read_suspended (status (bev s'))) (bev s);
  rd_data : same_data (trace s) (trace s');
  rd_later : later (trace s) (trace s');
  rd_writing : refused (trace s') = false → writing s' = writing s
}.

Lemma static_resuspended n v : n = 0 ∨ n = BEV_SUSPEND_WM → static v → static (set_read_suspended n v).
Proof. intros Hn []. by split. Qed.

Lemma events_resuspended n s : events_ok s → events_ok (Bev_system (base s) (set_read_suspended n (bev s)) (trace s)).
Proof. done. Qed.

Lemma suspend_ok s :
  sound s → bwp (bufferevent_wm_suspend_read backend) s (λ _ s', resuspends s s' ∧ read_suspended (status (bev s')) = BEV_SUSPEND_WM).
Proof.
  intros [He Hs Hw]. unfold bufferevent_wm_suspend_read, bufferevent_suspend_read_. apply bwp_bind, bwp_ask, bwp_bind.
  assert (Hend : ∀ s1, events_only s s1 → (refused (trace s1) = false → reading s1 = false ∧ writing s1 = writing s) →
    bwp (change (set_read_suspended (Z.lor (read_suspended (status (bev s))) BEV_SUSPEND_WM))) s1
      (λ _ s', resuspends s s' ∧ read_suspended (status (bev s')) = BEV_SUSPEND_WM)).
  { intros s1 [E1 E2 E3 E4] Hn1. apply bwp_change. rewrite E2.
    assert (Hv : Z.lor (read_suspended (status (bev s))) BEV_SUSPEND_WM = BEV_SUSPEND_WM) by by destruct (sb_read _ Hs) as [-> | ->].
    rewrite Hv. split; [|done]. destruct s1 as [b1 v1 t1]. cbn in E2. subst v1. split; [|done|done|done|by apply Hn1].
    split; [done|apply static_resuspended; auto|]. intros Hn. destruct (Hn1 Hn) as [H1 H2], (Hw (E4 Hn)) as [_ H3].
    split; [change (watched b1 (ev_read (parts (bev s))) = false) in H1; etrans; [exact H1|]; unfold reads; cbn; by rewrite andb_false_r|].
    intros Hc. etrans; [exact H2|]. by apply H3. }
  apply bwp_when; intros Hz; [|apply Hend; [by apply events_only_refl|]].
  - apply bwp_bind. eapply bwp_mono; [apply disable_ok; [done|done]|]. intros r s1 (E1 & _ & H1). apply bwp_ret, Hend; [done|].
    intros Hn. destruct (H1 Hn) as (_ & -> & ->). unfold has. cbn. by rewrite andb_false_r, andb_true_r.
  - intros Hn. split; [|done]. destruct (Hw Hn) as [-> _]. unfold reads. by rewrite Hz, andb_false_r.
Qed.

Lemma unsuspend_ok s :
  sound s → bwp (bufferevent_wm_unsuspend_read mm backend fdinfo_len clock) s (λ _ s', resuspends s s' ∧ read_suspended (status (bev s')) = 0).
Proof.
  intros [He Hs Hw]. unfold bufferevent_wm_unsuspend_read, bufferevent_unsuspend_read_. apply bwp_bind, bwp_ask.
  assert (Hv : clear_bits BEV_SUSPEND_WM (read_suspended (status (bev s))) = 0) by by destruct (sb_read _ Hs) as [-> | ->].
  rewrite Hv. apply bwp_bind, bwp_change. set (s0 := Bev_system _ _ _).
  assert (Hs0 : static (bev s0)) by (apply static_resuspended; auto).
  assert (Hend : ∀ s1, events_only s0 s1 → (refused (trace s1) = false → reading s1 = has EV_READ (enabled (status (bev s))) ∧ writing s1 = writing s) →
    resuspends s s1 ∧ read_suspended (status (bev s1)) = 0).
  { intros s1 [E1 E2 E3 E4] Hn1. rewrite E2. split; [|done].
    split; [split; [done|by rewrite E2|]|by rewrite E2|done|done|by apply Hn1].
    intros Hn. destruct (Hn1 Hn) as [-> ->]. unfold reads. rewrite E2. cbn. rewrite andb_true_r. split; [done|]. by apply Hw, E4. }
  change (enabled (status (bev s0))) with (enabled (status (bev s))). rewrite Z.eqb_refl. cbn [andb].
  apply bwp_when; intros Hz.
  - apply bwp_bind. eapply bwp_mono; [by apply (enable_ok EV_READ s0)|]. intros r s1 (E1 & _ & H1). apply bwp_ret, Hend; [done|].
    intros Hn. destruct (H1 Hn) as (_ & -> & ->). rewrite Hz. unfold has. cbn. by rewrite orb_true_r, orb_false_r.
  - apply Hend; [by apply events_only_refl|]. intros Hn. split; [|done]. destruct (Hw Hn) as [Hr _].
    etrans; [exact Hr|]. unfold reads. by rewrite Hz.
Qed.

(** Reading is suspended, or resumed, as the length of the input asks. *)
Lemma at_high_ok h s :
  sound s → h = high (wm_read (marks (bev s))) → h ≠ 0 →
  bwp (if h <=? total_len (input (bev s)) then bufferevent_wm_suspend_read backend else bufferevent_wm_unsuspend_read mm backend fdinfo_len clock) s
    (λ _ s', resuspends s s' ∧ at_mark (bev s')).
Proof.
  intros Hs -> Hh. unfold at_mark, full.
  destruct (Z.leb_spec (high (wm_read (marks (bev s)))) (total_len (input (bev s)))) as [Hle|Hle];
    (eapply bwp_mono; [by apply suspend_ok || by apply unsuspend_ok|]); intros a s' [H1 H2];
    (split; [done|]); rewrite H2, (rd_bev _ _ H1); cbn; rewrite (proj2 (Z.eqb_neq _ _)) by done; cbn;
    [by rewrite (proj2 (Z.leb_le _ _))|by rewrite (proj2 (Z.leb_gt _ _))].
Qed.

Lemma resuspends_refl s : sound s → resuspends s s.
Proof.
  intros H. split; try done; [|by intros ?]. by destruct s as [b [i o p m c t [] pe n] tr].
Qed.

(** *** Callbacks of the buffers *)

Lemma new_calls_tells b na nd b' :
  tells b na nd b' → ∃ f, (∀ e, called (f e) = cb e ∧ n_added (f e) = na) ∧
    new_calls b b' = if (na =? 0) && (nd =? 0) then [] else f <$> filter on (callbacks b).
Proof.
  intros (_ & _ & f & Hf & Hlog). exists f. split; [done|]. unfold new_calls. by rewrite Hlog, drop_app_length.
Qed.

(** A change of the input that its callbacks have been told of. *)
Lemma on_input_ok {A} (f : evbuffer → option (A * evbuffer)) s a i na nd :
  sound s → at_mark (bev s) → f (input (bev s)) = Some (a, i) → wf i → freeze_start i = false →
  tells (input (bev s)) na nd i → (na = 0 → nd = 0 → total_len i = total_len (input (bev s))) →
  bwp (on_input mm backend fdinfo_len clock f) s (λ a' s', a' = a ∧ at_mark (bev s') ∧
    resuspends (Bev_system (base s) (with_input i (bev s)) (trace s)) s').
Proof.
  intros Hs Hm Hf Hwf Hfr Ht Hno. unfold bwp, on_input. rewrite Hf. cbn [mbind option_bind].
  change (bwp (change (with_input i);; run_cbs mm backend fdinfo_len clock (new_calls (input (bev s)) i);; mret a) s
    (λ a' s', a' = a ∧ at_mark (bev s') ∧ resuspends (Bev_system (base s) (with_input i (bev s)) (trace s)) s')).
  apply bwp_bind, bwp_change. set (s0 := Bev_system _ _ _). destruct Hs as [He Hst Hw].
  destruct (new_calls_tells _ _ _ _ Ht) as (g & Hg & ->). destruct Ht as (Hcb & Hcalm & _).
  assert (Hs0 : sound s0).
  { split; [done| |done]. destruct Hst as [S1 S2 S3 S4 S5 S6 [S7 S8] S9 S10 S11]. split; try done. split; [done|].
    unfold wm_entry in *. cbn. by rewrite Hcb. }
  assert (Hsame : high (wm_read (marks (bev s))) = 0 ∨ (na = 0 ∧ nd = 0) → bwp (mret a) s0 (λ a' s', a' = a ∧ at_mark (bev s') ∧ resuspends s0 s')).
  { intros Hor. apply bwp_ret. split; [done|]. split; [|by apply resuspends_refl].
    unfold at_mark, full in *. cbn. destruct Hor as [E|[E1 E2]]; [rewrite E in *; exact Hm|]. by rewrite Hno. }
  apply bwp_bind. destruct (_ && _) eqn:Ez.
  { apply andb_true_iff in Ez as [E1%Z.eqb_eq E2%Z.eqb_eq]. apply bwp_ret, Hsame. auto. }
  pose proof (proj2 (sb_high _ Hst)) as Hent. unfold wm_entry in Hent.
  destruct (read_watermarks_cb (marks (bev s))) as [k|]; cycle 1.
  { destruct Hent as [-> E]. apply bwp_ret, Hsame. by left. }
  destruct Hent as (-> & fl & -> & Hon). rewrite filter_cons, filter_nil. case_decide as Hd; cycle 1.
  { apply bwp_ret, Hsame. left. destruct (decide (high (wm_read (marks (bev s))) = 0)) as [|Hne]; [done|]. by apply Hon in Hne. }
  cbn [fmap list_fmap run_cbs]. rewrite (proj1 (Hg _)). cbn [cb]. change (INBUF_WM_CB =? OUTBUF_CB) with false.
  change (INBUF_WM_CB =? INBUF_WM_CB) with true. cbv iota. apply bwp_bind. unfold bufferevent_inbuf_wm_cb. apply bwp_bind, bwp_ask.
  eapply bwp_mono; [apply (at_high_ok (high (wm_read (marks (bev s)))) s0 Hs0); [done|by apply Hon]|]. intros [] s' [H1 H2].
  apply bwp_ret, bwp_ret. done.
Qed.

(** A change of the output. *)
Lemma on_output_ok {A} (f : evbuffer → option (A * evbuffer)) s a o na nd :
  sound s → f (output (bev s)) = Some (a, o) → wf o → freeze_end o = false → Zlen (bytes o) <= INT_MAX →
  tells (output (bev s)) na nd o →
  bwp (on_output mm backend fdinfo_len clock f) s (λ a' s', a' = a ∧ sound s' ∧
    events_only (Bev_system (base s) (with_output o (bev s)) (trace s)) s' ∧
    (refused (trace s') = false → writing s' = writing s || (negb (na =? 0) && writes (bev s)))).
Proof.
  intros [He Hst Hw] Hf Hwf Hfr Hlen Ht. unfold bwp, on_output. rewrite Hf. cbn [mbind option_bind].
  change (bwp (change (with_output o);; run_cbs mm backend fdinfo_len clock (new_calls (output (bev s)) o);; mret a) s
    (λ a' s', a' = a ∧ sound s' ∧ events_only (Bev_system (base s) (with_output o (bev s)) (trace s)) s' ∧
    (refused (trace s') = false → writing s' = writing s || (negb (na =? 0) && writes (bev s))))).
  apply bwp_bind, bwp_change. set (s0 := Bev_system _ _ _).
  destruct (new_calls_tells _ _ _ _ Ht) as (g & Hg & ->). destruct Ht as (Hcb & Hcalm & _).
  assert (Hs0 : static (bev s0)).
  { destruct Hst as [S1 S2 S3 S4 S5 [S6 [S7 [S8 [S9 S10]]]] S11 S12 S13 S14]. split; try done. cbn. by rewrite Hcb. }
  assert (Hend : ∀ s1, events_only s0 s1 → (refused (trace s1) = false → reading s1 = reading s) →
    (refused (trace s1) = false → writing s1 = writing s || (negb (na =? 0) && writes (bev s))) →
    bwp (mret a) s1 (λ a' s', a' = a ∧ sound s' ∧ events_only s0 s' ∧
      (refused (trace s') = false → writing s' = writing s || (negb (na =? 0) && writes (bev s))))).
  { intros s1 E1 Hr Hwr. apply bwp_ret. split; [done|]. split; [|done]. destruct E1 as [E1 E2 E3 E4].
    split; [done|by rewrite E2|]. intros Hn. rewrite (Hr Hn), (Hwr Hn), E2. destruct (Hw (E4 Hn)) as [H1 H2]. split; [done|].
    intros Hc. by rewrite (H2 Hc). }
  apply bwp_bind. destruct (sb_out _ Hst) as (_ & _ & _ & Hcbs & _). rewrite Hcbs.
  destruct (_ && (nd =? 0)) eqn:Ez.
  { apply andb_true_iff in Ez as [E1 E2]. apply bwp_ret, Hend; [by apply events_only_refl|done|]. rewrite E1. by rewrite orb_false_r. }
  rewrite filter_cons, filter_nil, decide_True by done. cbn [fmap list_fmap run_cbs]. rewrite (proj1 (Hg _)), (proj2 (Hg _)). cbn [cb].
  change (OUTBUF_CB =? OUTBUF_CB) with true. cbv iota. apply bwp_bind. unfold bufferevent_socket_outbuf_cb. apply bwp_bind, bwp_ask, bwp_bind.
  destruct (events_side s0 writer He) as (Hr & fd & Hio).
  destruct (io_pending (base s0) (ev_write (parts (bev s0))) fd WRITE_EVENTS EV_WRITE Hr Hio) as (z & Hz & Hzw); [done|done|].
  apply bwp_base. apply (wp_lift _ _ z); [done|]. rewrite Hzw.
  change (watched (base s0) (ev_write (parts (bev s0)))) with (writing s). change (status (id (bev s0))) with (status (bev s)).
  rewrite (sb_write _ Hst). rewrite andb_true_r. fold (writes (bev s)). apply bwp_when; intros Hc.
  - apply bwp_bind. change (timeout_write (timeouts (id (bev s0)))) with (timeout_write (timeouts (bev s))).
    rewrite (sb_timeouts _ Hst). cbn [timeout_write].
    eapply bwp_mono; [apply (add_event_ok writer s0 He Hs0)|]. intros r s1 (E1 & Ho & _ & H1). apply bwp_ret, bwp_ret, Hend; [done|done|].
    intros Hn. destruct (H1 Hn) as [_ H2]. apply andb_true_iff in Hc as [Hc _]. rewrite Hc, orb_true_r. exact H2.
  - apply bwp_ret, Hend; [by apply events_only_refl|done|]. intros Hn. change (writing s = writing s || (negb (na =? 0) && writes (bev s))).
    destruct (writing s); [done|]. cbn [orb] in *. by rewrite andb_true_r in Hc.
Qed.
End operations.
