(* ===== verification/BuffereventCalls.v ===== *)
(** * Bufferevents: the interface

    What a program may call, and that each call answers, does what it says and keeps the invariant
    of BuffereventOk. *)

From S2P Require Import Prelude EvBuffer EvBufferMove EvBufferSpace EvBufferCalls.
From S2P Require Import Timeval Event MinHeap EvMap EventBase EventBaseOk EventApi EventCheck EventCalls EventLive EventSystem EventTimeout EventProcess.
From S2P Require Import Bufferevent BuffereventOk.

(** What the call of an operation leaves as it was: the invariant holds, the bufferevent is the
    same one, and no connection is begun. *)
Record bev_keeps (s s' : bev_system) : Prop := {
  bk_ok : bev_ok s';
  bk_parts : parts (bev s') = parts (bev s);
  bk_refs : bev_refcnt (bev s') = bev_refcnt (bev s);
  bk_later : later (trace s) (trace s');
  bk_connecting : connecting (status (bev s')) = true → connecting (status (bev s)) = true;
  bk_stray : no_stray s → no_stray s'
}.

Lemma bev_keeps_refl s : bev_ok s → bev_keeps s s.
Proof. intros H. split; try done. by intros ?. Qed.
Lemma bev_keeps_trans s1 s2 s3 : bev_keeps s1 s2 → bev_keeps s2 s3 → bev_keeps s1 s3.
Proof.
  intros [A1 A2 A3 A4 A5 A6] [B1 B2 B3 B4 B5 B6]. split; [done|congruence|congruence| |auto|auto].
  intros H. by apply A4, B4.
Qed.

(** Another value for a member that the invariant does not mention, such as the end of the buffer
    that the socket uses being frozen. *)
Record same_buffer (i i' : evbuffer) : Prop := {
  sm_chains : chains i' = chains i;
  sm_lwd : lwd i' = lwd i;
  sm_length : total_len i' = total_len i;
  sm_callbacks : callbacks i' = callbacks i;
  sm_calm : calm i → calm i'
}.
Record alike (v v' : bufferevent) : Prop := {
  al_input : same_buffer (input v) (input v') ∧ freeze_start (input v') = freeze_start (input v);
  al_output : same_buffer (output v) (output v') ∧ freeze_end (output v') = freeze_end (output v);
  al_parts : parts v' = parts v;
  al_high : wm_read (marks v') = wm_read (marks v);
  al_entry : read_watermarks_cb (marks v') = read_watermarks_cb (marks v);
  al_timeouts : timeouts v' = timeouts v;
  al_enabled : enabled (status v') = enabled (status v);
  al_suspended : read_suspended (status v') = read_suspended (status v);
  al_writing : write_suspended (status v') = write_suspended (status v);
  al_connecting : connecting (status v') = connecting (status v)
}.

Lemma same_bytes i i' : same_buffer i i' → bytes i' = bytes i.
Proof. intros []. unfold bytes. congruence. Qed.
Lemma same_wf i i' : same_buffer i i' → wf i → wf i'.
Proof. intros []. by apply wf_same. Qed.
Lemma same_buffer_refl i : same_buffer i i.
Proof. by split. Qed.
#[local] Hint Resolve same_buffer_refl : core.

Lemma thaw_input fe v : alike v (with_input (with_freeze (freeze_start (input v)) fe (input v)) v).
Proof. by split; [split; [by split|]|split; [by split|]|..]. Qed.
Lemma thaw_output fs v : alike v (with_output (with_freeze fs (freeze_end (output v)) (output v)) v).
Proof. by split; [split; [by split|]|split; [by split|]|..]. Qed.

Lemma refused_alike c v : alike v (set_connection_refused c v).
Proof. by split; [split; [by split|]|split; [by split|]|..]. Qed.

Lemma alike_ok b v v' t :
  alike v v' → 0 < bev_refcnt v' → bev_ok (Bev_system b v t) → bev_ok (Bev_system b v' t).
Proof.
  intros [[A1 F1] [A2 F2] A3 A4 A5 A6 A7 A8 A9 A10] Hr [[He [S1 S2 S3 S4 S5 S6 S7 S8 S9 S10] Hw] Hm Hf Hd]. cbn [bev base trace] in *.
  pose proof (same_bytes _ _ A1) as B1. pose proof (same_bytes _ _ A2) as B2.
  split; [split; [unfold events_ok in *; cbn in *; by rewrite A3| |]| | |].
  - split; cbn [bev]; unfold wm_entry in *; rewrite ?F1, ?F2, ?B2, ?(sm_callbacks _ _ A1), ?(sm_callbacks _ _ A2), ?A3, ?A4, ?A5, ?A6, ?A8, ?A9; try done.
    + destruct S5 as (? & ? & ?). split; [by eapply same_wf|]. split; [by apply (sm_calm _ _ A1)|done].
    + destruct S6 as (? & ? & ? & ? & ?). split; [by eapply same_wf|]. split; [by apply (sm_calm _ _ A2)|done].
  - unfold waits_ok, reading, writing, reads in *. cbn in *. by rewrite A3, A7, A8, A10.
  - unfold at_mark, full in *. cbn in *. by rewrite (sm_length _ _ A1), A4, A8.
  - unfold flows, writing, writes in *. cbn in *. by rewrite B2, A3, A7.
  - unfold conserved in *. cbn in *. by rewrite B1, B2.
Qed.

Lemma alike_keeps b v v' t :
  alike v v' → bev_refcnt v' = bev_refcnt v → bev_ok (Bev_system b v t) → bev_keeps (Bev_system b v t) (Bev_system b v' t).
Proof.
  intros Ha Hr Hok. split; [apply (alike_ok b v); [done| |done]|apply Ha|done|by intros ?| |].
  - rewrite Hr. apply (sb_ref _ (so_static _ (ok_sound _ Hok))).
  - cbn. by rewrite (al_connecting _ _ Ha).
  - unfold no_stray, writing, writes. cbn. by rewrite (al_parts _ _ Ha), (al_connecting _ _ Ha), (al_enabled _ _ Ha).
Qed.

(** Reading has been suspended or resumed. *)
Lemma resuspends_keeps s s' : bev_ok s → resuspends s s' → at_mark (bev s') → bev_keeps s s'.
Proof.
  intros [Hs Hm Hf Hd] [R1 R2 (D1 & D2 & D3 & D4) R4 R5] Hm'. split; [split; [done|done| |]| | |done| |]; try by rewrite R2.
  - intros Hn. rewrite R2. rewrite (R5 Hn). by apply Hf, R4.
  - unfold conserved. rewrite D1, D2, D3, D4, R2. done.
  - intros Hst Hn. rewrite R2, (R5 Hn). by apply Hst, R4.
Qed.

(** The bytes that have gone through are recorded. *)
Lemma recorded_ok s t' :
  sound s → at_mark (bev s) → flows s → refused t' = refused (trace s) → conserved (Bev_system (base s) (bev s) t') →
  bev_ok (Bev_system (base s) (bev s) t').
Proof.
  intros [He Hs Hw] Hm Hf Hr Hd. split; [split; [done|done|]|done| |done].
  - unfold waits_ok in *. cbn. rewrite Hr. exact Hw.
  - unfold flows in *. cbn. rewrite Hr. exact Hf.
Qed.

(** The input has changed, and then the record of the bytes. *)
Lemma input_keeps s i s' t' :
  bev_ok s → resuspends (Bev_system (base s) (with_input i (bev s)) (trace s)) s' → at_mark (bev s') →
  refused t' = refused (trace s') → conserved (Bev_system (base s') (bev s') t') →
  bev_keeps s (Bev_system (base s') (bev s') t') ∧ input (bev s') = i.
Proof.
  intros [Hs Hm Hf Hd] [R1 R2 R3 R4 R5] Hm' Hr Hc. split; [|by rewrite R2].
  assert (Hw : refused (trace s') = false → writing s' = writing s) by exact R5.
  split; cbn [bev trace base]; [|by rewrite R2..| |by rewrite R2|].
  - apply recorded_ok; try done. intros Hn. rewrite R2, (Hw Hn). by apply Hf, R4.
  - intros Hn. apply R4. by rewrite <- Hr.
  - intros Hst Hn Hwr. cbn [trace bev base] in *. rewrite Hr in Hn. rewrite R2.
    change (writing s' = true) in Hwr. rewrite (Hw Hn) in Hwr. apply (Hst (R4 Hn) Hwr).
Qed.

(** The output has changed: what it holds, unless it held it before, is waited for. *)
Lemma output_keeps s o na s' t' :
  bev_ok s → sound s' → events_only (Bev_system (base s) (with_output o (bev s)) (trace s)) s' →
  (refused (trace s') = false → writing s' = writing s || (negb (na =? 0) && writes (bev s))) →
  (bytes o ≠ [] → bytes (output (bev s)) ≠ [] ∨ na ≠ 0) →
  refused t' = refused (trace s') → conserved (Bev_system (base s') (bev s') t') →
  bev_keeps s (Bev_system (base s') (bev s') t').
Proof.
  intros [Hs Hm Hf Hd] Hs' [E1 E2 E3 E4] Hw Hna Hr Hc. split; cbn [bev trace base]; [|by rewrite E2..| |by rewrite E2|].
  - apply recorded_ok; try done; [by rewrite E2|]. intros Hn Hwr Hb. rewrite E2 in Hwr, Hb. rewrite (Hw Hn).
    change (writes (bev s) = true) in Hwr. rewrite Hwr, andb_true_r. destruct (Hna Hb) as [Hb'|Hn0].
    + by rewrite (Hf (E4 Hn) Hwr Hb').
    + rewrite (proj2 (Z.eqb_neq _ _)) by done. by rewrite orb_true_r.
  - intros Hn. apply E4. by rewrite <- Hr.
  - intros Hst Hn Hwr. cbn [trace bev base] in *. rewrite Hr in Hn. rewrite E2.
    change (writing s' = true) in Hwr. rewrite (Hw Hn) in Hwr.
    destruct (writing s) eqn:Ew; [by apply (Hst (E4 Hn))|]. right. by apply andb_true_iff in Hwr as [_ Hwr].
Qed.

(** A reference is given back that is not the last one. *)
Lemma decref_ok backend s (Q : Z → bev_system → Prop) :
  1 < bev_refcnt (bev s) → Q 0 (Bev_system (base s) (with_refcnt (bev_refcnt (bev s) - 1) (bev s)) (trace s)) →
  bwp (bufferevent_decref_and_unlock_ backend) s Q.
Proof.
  intros Hn HQ. unfold bufferevent_decref_and_unlock_. apply bwp_bind, bwp_ask, bwp_bind, bwp_assert; [apply Z.ltb_lt; cbn; lia|].
  apply bwp_bind, bwp_change. change (bev_refcnt (id (bev s))) with (bev_refcnt (bev s)).
  rewrite (proj2 (Z.eqb_neq _ 0)) by lia. by apply bwp_ret.
Qed.

(** With a reference of its own an operation runs as without it. *)
Lemma refcnt_alike n v : alike v (with_refcnt n v).
Proof. done. Qed.

Lemma incref_ok s : bev_ok s → bev_ok (Bev_system (base s) (with_refcnt (bev_refcnt (bev s) + 1) (bev s)) (trace s)).
Proof.
  intros H. pose proof (sb_ref _ (so_static _ (ok_sound _ H))). destruct s as [b v t].
  apply (alike_ok b v); [apply refcnt_alike|cbn in *; lia|done].
Qed.

Lemma with_reference_ok backend s (m : BM unit) (Q : bev_system → Prop) :
  bev_ok s →
  (let s0 := Bev_system (base s) (with_refcnt (bev_refcnt (bev s) + 1) (bev s)) (trace s) in
   bev_ok s0 → bwp m s0 (λ _ s', bev_keeps s0 s' ∧
     Q (Bev_system (base s') (with_refcnt (bev_refcnt (bev s)) (bev s')) (trace s')))) →
  bwp (bufferevent_incref;; m;; bufferevent_decref_and_unlock_ backend;; mret tt) s (λ _ s', bev_keeps s s' ∧ Q s').
Proof.
  intros Hok Hm. pose proof (sb_ref _ (so_static _ (ok_sound _ Hok))) as Hn. apply bwp_bind, bwp_change, bwp_bind.
  pose proof (incref_ok s Hok) as Hok0. eapply bwp_mono; [by apply Hm|]. intros [] s' [Hk HQ]. pose proof Hk as [K1 K2 K3 K4 K5 K6].
  apply bwp_bind, decref_ok; [rewrite K3; cbn; lia|]. rewrite K3. cbn [bev with_refcnt bev_refcnt] in *.
  replace (bev_refcnt (bev s) + 1 - 1) with (bev_refcnt (bev s)) by lia. apply bwp_ret. split; [|done].
  destruct s' as [b' v' t']. split; [|done|done|done|done|exact K6]. apply (alike_ok b' v'); [apply refcnt_alike|done|done].
Qed.

Section interface.
Context (mm : nat → Z → bool) (backend : history → backend_call → bool) (fdinfo_len : Z) (clock : nat → timeval)
  (alloc : nat → Z → option (nat → byte)).
Hypothesis clock_good : clock_ok clock.

(** The data is taken as a whole or not at all. *)
Lemma write_ok d s :
  bev_ok s → Zlen (bytes (output (bev s))) + Zlen d <= INT_MAX →
  bwp (bufferevent_write mm backend fdinfo_len clock alloc d) s (λ r s', bev_keeps s s' ∧
    (r = 0 ∧ bytes (output (bev s')) = bytes (output (bev s)) ++ d ∧ given (trace s') = given (trace s) ++ d ∨
     r = -1 ∧ alloc_failed alloc (output (bev s)) (output (bev s')) (Zlen d) ∧ bytes (output (bev s')) = bytes (output (bev s)) ∧ given (trace s') = given (trace s))).
Proof.
  intros Hok Hlen. pose proof Hok as [Hs Hm Hf Hd]. destruct (sb_out _ (so_static _ Hs)) as (Hwf & Hcalm & Hfe & _ & Hmax).
  destruct (add_ok alloc (output (bev s)) d Hwf) as (r & o & Ho & (Hwf' & (_ & Hfe' & _) & Hr) & Hfail).
  destruct (add_tells alloc _ d r o Hcalm Hwf) as (na & Ht & Hna); [unfold INT_MAX in *; lia|done|].
  unfold bufferevent_write. apply bwp_bind.
  assert (Hbo : Zlen (bytes o) <= INT_MAX) by (destruct Hr as [[_ ->]|[_ ->]]; rewrite ?length_app; lia).
  eapply bwp_mono; [apply (on_output_ok mm backend fdinfo_len clock clock_good _ s r o na 0 Hs Ho Hwf'); [congruence|done|done]|].
  intros r' s' (-> & Hs' & E & Hw). pose proof E as [_ E2 (D1 & D2 & D3 & D4) _]. cbn [trace] in D1, D2, D3, D4.
  assert (Hkeep : ∀ t', refused t' = refused (trace s') → conserved (Bev_system (base s') (bev s') t') →
    bev_keeps s (Bev_system (base s') (bev s') t')).
  { intros t' Ht' Hc. eapply (output_keeps s o na); try done. intros Hne. destruct Hr as [[-> Hb]|[_ Hb]]; [|left; congruence].
    destruct (decide (bytes (output (bev s)) = [])) as [E0|]; [right|by left]. apply Hna; [done|].
    rewrite E0 in Hb. cbn in Hb. destruct d; [congruence|]. cbn [length]. lia. }
  destruct Hd as [Hd1 Hd2]. assert (Hout : output (bev s') = o) by by rewrite E2. assert (Hin : input (bev s') = input (bev s)) by by rewrite E2.
  destruct Hr as [[-> Hb]|[-> Hb]]; cbn [negb Z.eqb]; apply bwp_bind.
  - apply bwp_record, bwp_ret. split; [|left; cbn; rewrite Hout, D3; done]. apply Hkeep; [done|].
    unfold conserved. cbn. rewrite D1, D2, D3, D4, Hin, Hout, Hb, Hd1, Hd2. by rewrite (assoc_L (++)).
  - apply bwp_ret, bwp_ret. split; [|right; rewrite Hout; split_and!; try done].
    + destruct s' as [b' v' t']. apply (Hkeep t'); [done|]. unfold conserved. cbn in *. rewrite D1, D2, D3, D4, Hin, Hout, Hb. done.
    + destruct (Hfail eq_refl) as [?|[H|?]]; [congruence| |done]. destruct Hwf as (_ & L & _). rewrite L in H. unfold SIZE_MAX, INT_MAX in *. lia.
Qed.

(** The first bytes of the input, which are taken off it. *)
Lemma read_out_ok n s :
  bev_ok s → 0 <= n →
  bwp (bufferevent_read mm backend fdinfo_len clock n) s (λ '(r, d) s', bev_keeps s s' ∧
    r = int32 (Z.min n (Zlen (bytes (input (bev s))))) ∧ d = take (Z.to_nat n) (bytes (input (bev s))) ∧
    bytes (input (bev s')) = drop (Z.to_nat n) (bytes (input (bev s))) ∧ consumed (trace s') = consumed (trace s) ++ d).
Proof.
  intros Hok Hn. pose proof Hok as [Hs Hm Hf [Hd1 Hd2]]. destruct (sb_in _ (so_static _ Hs)) as (Hwf & Hcalm & Hfs).
  destruct (remove_ok (input (bev s)) n Hwf Hn Hfs) as (i & Hi & Hwf' & [Hfs' _] & Hb).
  pose proof (wf_total _ Hwf) as Ht. destruct (remove_tells _ _ _ _ _ Hcalm Hi) as (nd & Htell & Hnd); [unfold SIZE_MAX in *; lia|done|].
  unfold bufferevent_read. apply bwp_bind.
  eapply bwp_mono; [apply (on_input_ok mm backend fdinfo_len clock clock_good _ s _ i 0 nd Hs Hm Hi Hwf'); [congruence|done|]|].
  { intros _ Hz. pose proof Hwf as (_ & L & _). pose proof Hwf' as (_ & L' & _). rewrite L, L', Hb.
    destruct (decide (n = 0)) as [->|]; [by rewrite drop_0|].
    destruct (decide (total_len (input (bev s)) = 0)) as [E|E]; [|by destruct Hnd; [done|lia|..]].
    rewrite E in L. rewrite (nil_length_inv (bytes (input (bev s)))) by lia. by rewrite drop_nil. }
  intros [r d] s' (Heq & Hm' & R). injection Heq as -> ->. pose proof (rd_data _ _ R) as (D1 & D2 & D3 & D4). cbn [trace] in D1, D2, D3, D4.
  apply bwp_bind, bwp_record, bwp_ret. pose proof (rd_bev _ _ R) as E2.
  assert (Hin : input (bev s') = i) by by rewrite E2. assert (Hout : output (bev s') = output (bev s)) by by rewrite E2.
  split; [|split_and!; try done; cbn; [by rewrite Hin|by rewrite D2]].
  eapply input_keeps; try done. unfold conserved. cbn. rewrite D1, D2, D3, D4, Hin, Hout, Hb, Hd1, Hd2.
  rewrite <- (assoc_L (++)), take_drop. done.
Qed.

(** *** Enabling and disabling *)

(** What is enabled has changed, and the events with it. *)
Lemma enabled_keeps s en s' :
  bev_ok s → events_only (Bev_system (base s) (set_enabled en (bev s)) (trace s)) s' →
  (refused (trace s') = false → reading s' = has EV_READ en && (read_suspended (status (bev s)) =? 0) ∧
    (writing s = true → connecting (status (bev s)) = true ∨ has EV_WRITE en = true → writing s' = true) ∧
    (writing s' = true → writing s = true ∧ (connecting (status (bev s)) = true ∨ writes (bev s) = true → connecting (status (bev s)) = true ∨ has EV_WRITE en = true) ∨ has EV_WRITE en = true) ∧
    (has EV_WRITE en = true → writing s' = true ∨ writes (bev s) = true)) →
  bev_keeps s s'.
Proof.
  intros [[He Hst Hw] Hm Hf Hd] [E1 E2 (D1 & D2 & D3 & D4) E4] Hn. cbn [trace] in D1, D2, D3, D4.
  split; [split; [split; [done| |]| | |]|by rewrite E2..| |by rewrite E2|].
  - rewrite E2. destruct Hst. by split.
  - intros Hr. destruct (Hn Hr) as (H1 & H2 & _), (Hw (E4 Hr)) as [_ H4]. rewrite E2. split; [exact H1|].
    intros Hc. apply H2; [by apply H4|by left].
  - rewrite E2. exact Hm.
  - intros Hr. rewrite E2. intros Hwr Hb. destruct (Hn Hr) as (_ & H2 & _ & H3). destruct (H3 Hwr) as [|Hwr0]; [done|].
    apply H2; [|by right]. by apply Hf; [apply E4| |].
  - unfold conserved. rewrite D1, D2, D3, D4, E2. exact Hd.
  - exact E4.
  - intros Hst' Hr Hwr. rewrite E2. destruct (Hn Hr) as (_ & _ & H3 & _). destruct (H3 Hwr) as [[Hw0 H5]|]; [|by right].
    apply H5, (Hst' (E4 Hr) Hw0).
Qed.

Lemma flag_read : flag EV_READ. Proof. by exists 1. Qed.
Lemma flag_write : flag EV_WRITE. Proof. by exists 2. Qed.

(** What enabling does to the events, whatever they wait for. *)
Lemma enable_events e s :
  events_ok s → static (bev s) →
  bwp (bufferevent_enable mm backend fdinfo_len clock e) s (λ r s',
    events_only (Bev_system (base s) (set_enabled (Z.lor (enabled (status (bev s))) e) (bev s)) (trace s)) s' ∧ (r = 0 ∨ r = -1) ∧
    (refused (trace s') = false → r = 0 ∧ reading s' = reading s || has EV_READ e && (read_suspended (status (bev s)) =? 0) ∧
      writing s' = writing s || has EV_WRITE e)).
Proof.
  intros He Hst. pose proof (sb_ref _ Hst) as Hn. unfold bufferevent_enable. apply bwp_bind, bwp_change, bwp_bind, bwp_ask.
  change (status (bev (Bev_system (base s) (with_refcnt (bev_refcnt (bev s) + 1) (bev s)) (trace s)))) with (status (bev s)).
  rewrite (sb_write _ Hst). change (0 =? 0) with true. cbv iota. set (impl := if read_suspended (status (bev s)) =? 0 then e else clear_bits EV_READ e).
  assert (Him : has EV_READ impl = has EV_READ e && (read_suspended (status (bev s)) =? 0) ∧ has EV_WRITE impl = has EV_WRITE e).
  { unfold impl. destruct (_ =? 0); rewrite ?andb_true_r, ?andb_false_r; [done|].
    rewrite !has_drop by (apply flag_read || apply flag_write). split; [by rewrite andb_false_r|by rewrite andb_true_r]. }
  destruct Him as [Hir Hiw]. apply bwp_bind, bwp_change. cbn [bev base trace]. set (s1 := Bev_system _ _ _).
  assert (Hst1 : static (bev s1)) by (destruct Hst; split; try done; cbn; lia). apply bwp_bind.
  assert (H1 : bwp (if negb (impl =? 0) then be_socket_enable mm backend fdinfo_len clock impl else mret 0) s1 (λ r s',
    events_only s1 s' ∧ (r = 0 ∨ r = -1) ∧
    (refused (trace s') = false → r = 0 ∧ reading s' = reading s1 || has EV_READ impl ∧ writing s' = writing s1 || has EV_WRITE impl))).
  { destruct (Z.eqb_spec impl 0) as [->|]; cbn [negb]; [|by apply enable_ok].
    apply bwp_ret. split; [by apply events_only_refl|]. split; [by left|]. intros _. by rewrite !orb_false_r. }
  eapply bwp_mono; [exact H1|]. intros r s' ([E1 E2 E3 E4] & Hr & Hw'). apply bwp_bind, decref_ok; [rewrite E2; cbn; lia|]. apply bwp_ret.
  assert (Hb : with_refcnt (bev_refcnt (bev s') - 1) (bev s') = set_enabled (Z.lor (enabled (status (bev s))) e) (bev s)).
  { rewrite E2. cbn. replace (bev_refcnt (bev s) + 1 - 1) with (bev_refcnt (bev s)) by lia. by destruct (bev s). }
  split; [split; [|exact Hb|exact E3|exact E4]|].
  - exact E1.
  - split; [destruct Hr as [-> | ->]; auto|]. intros Hnr. destruct (Hw' Hnr) as (-> & Hr' & Hw''). split; [done|]. rewrite <- Hir, <- Hiw. by split.
Qed.

Lemma bev_enable_ok e s :
  bev_ok s →
  bwp (bufferevent_enable mm backend fdinfo_len clock e) s (λ r s', bev_keeps s s' ∧ (r = 0 ∨ r = -1) ∧
    (refused (trace s') = false → r = 0) ∧ enabled (status (bev s')) = Z.lor (enabled (status (bev s))) e).
Proof.
  intros Hok. pose proof (ok_sound _ Hok) as [He Hst Hw]. eapply bwp_mono; [by apply enable_events|]. intros r s' (E & Hr & Hw').
  split; [|split; [done|split; [intros Hn; by apply Hw'|by rewrite (eo_bev _ _ E)]]].
  eapply enabled_keeps; [done|exact E|]. intros Hnr. destruct (Hw' Hnr) as (_ & -> & ->), (Hw (eo_later _ _ E Hnr)) as [-> _].
  unfold reads, writes. rewrite !has_add by (apply flag_read || apply flag_write).
  destruct (has EV_READ (enabled _)), (has EV_READ e), (has EV_WRITE e), (writing s), (has EV_WRITE (enabled _)), (_ =? 0); cbn; tauto.
Qed.

Lemma bev_disable_ok e s :
  bev_ok s →
  bwp (bufferevent_disable backend e) s (λ r s', bev_keeps s s' ∧ (r = 0 ∨ r = -1) ∧
    (refused (trace s') = false → r = 0) ∧ enabled (status (bev s')) = clear_bits e (enabled (status (bev s)))).
Proof.
  intros Hok. pose proof (ok_sound _ Hok) as [He Hst Hw]. unfold bufferevent_disable. apply bwp_bind, bwp_ask, bwp_bind, bwp_change.
  set (s1 := Bev_system _ _ _). assert (Hst1 : static (bev s1)) by (destruct Hst; by split).
  apply bwp_bind. eapply bwp_mono; [by apply (disable_ok backend e s1)|]. intros r s' (E & Hr & Hw'). pose proof (eo_bev _ _ E) as E2. apply bwp_ret.
  split; [|split; [destruct Hr as [-> | ->]; auto|split; [|by rewrite E2]]]; [|intros Hnr; by destruct (Hw' Hnr) as [-> _]].
  apply (enabled_keeps s (clear_bits e (enabled (status (bev s))))); [done|done|]. intros Hnr. destruct (Hw' Hnr) as (_ & -> & ->), (Hw (eo_later _ _ E Hnr)) as [Hr0 _].
  change (reading s1) with (reading s). change (writing s1) with (writing s). rewrite Hr0. change (connecting (status (bev s1))) with (connecting (status (bev s))).
  unfold reads, writes. rewrite !has_drop by (apply flag_read || apply flag_write).
  destruct (has EV_READ (enabled _)), (has EV_READ e), (has EV_WRITE e), (writing s), (has EV_WRITE (enabled _)), (_ =? 0), (connecting _); cbn; tauto.
Qed.

Lemma setcb_ok r w e arg s :
  bev_ok s → bwp (bufferevent_setcb r w e arg) s (λ _ s', bev_keeps s s' ∧ cbs_of (bev s') = Bev_callbacks r w e arg).
Proof. intros Hok. apply bwp_change. split; [|done]. destruct s as [b v t]. by apply alike_keeps. Qed.

(** *** Watermarks *)

(** The high watermark of the input has changed, and with it the entry that keeps it. *)
Definition high_set (m : event_watermark) (v v' : bufferevent) : Prop :=
  same_frame (input v) (input v') ∧ bytes (input v') = bytes (input v) ∧ wf (input v') ∧ calm (input v') ∧
  output v' = output v ∧ parts v' = parts v ∧ timeouts v' = timeouts v ∧ status v' = status v ∧ bev_refcnt v' = bev_refcnt v ∧
  wm_read (marks v') = m ∧ wm_entry v'.

Lemma high_set_sound s v' m :
  sound s → high_set m (bev s) v' → 0 <= high m <= EV_SSIZE_MAX → sound (Bev_system (base s) v' (trace s)).
Proof.
  intros [He [] Hw] ((F1 & F2 & _) & Hb & Hwf & Hc & Ho & Hp & Ht & Hst & Hr & Hm & Hen) Hh.
  split; [unfold events_ok in *; cbn in *; by rewrite Hp| |].
  - split; cbn [bev]; rewrite ?Hp, ?Ht, ?Ho, ?Hst, ?Hr, ?Hm; try done. split; [done|]. split; [done|]. rewrite F1. by destruct sb_in as (_ & _ & ?).
  - unfold waits_ok, reading, writing, reads in *. cbn in *. by rewrite Hp, Hst.
Qed.

(** The mark has been set, and reading suspended or resumed for it. *)
Lemma high_set_keeps s v' m s' :
  bev_ok s → high_set m (bev s) v' → resuspends (Bev_system (base s) v' (trace s)) s' → at_mark (bev s') → bev_keeps s s'.
Proof.
  intros [Hs Hm Hf [Hd1 Hd2]] (F & Hb & Hwf & Hc & Ho & Hp & Ht & Hst & Hr & Hmk & Hen) [R1 R2 (D1 & D2 & D3 & D4) R4 R5] Hm'.
  cbn [trace bev] in *.
  assert (Hw : refused (trace s') = false → writing s' = writing s).
  { intros Hn. rewrite (R5 Hn). unfold writing. cbn. by rewrite Hp. }
  split; [split; [done|done| |]| | |exact R4| |].
  - intros Hn. rewrite R2, (Hw Hn). unfold writes. cbn. rewrite Hst, Ho. by apply Hf, R4.
  - unfold conserved. rewrite D1, D2, D3, D4, R2. cbn. by rewrite Hb, Ho.
  - by rewrite R2.
  - by rewrite R2.
  - rewrite R2. cbn. by rewrite Hst.
  - intros Hst' Hn. rewrite (Hw Hn), R2. unfold writes. cbn. rewrite Hst. by apply Hst', R4.
Qed.

Lemma on_enabled fl : on (CbEntry INBUF_WM_CB 0 (Z.lor fl (Z.ldiff (Z.lor EVBUFFER_CB_ENABLED EVBUFFER_CB_NODEFER) EVBUFFER_CB_INTERNAL_FLAGS))).
Proof.
  unfold on. cbn [cb_flags]. apply Z.bits_inj_iff'. intros n Hn. rewrite Z.land_spec, Z.lor_spec.
  destruct (decide (n = 0)) as [->|]; [by rewrite orb_true_r|].
  replace (Z.testbit EVBUFFER_CB_ENABLED n) with false; [by rewrite andb_false_r|]. symmetry. change EVBUFFER_CB_ENABLED with (2 ^ 0). by apply Z.pow2_bits_false.
Qed.
Lemma off_disabled fl : ¬ on (CbEntry INBUF_WM_CB 0 (Z.ldiff fl (Z.ldiff EVBUFFER_CB_ENABLED EVBUFFER_CB_INTERNAL_FLAGS))).
Proof.
  unfold on. cbn [cb_flags]. intros H. apply (f_equal (λ z, Z.testbit z 0)) in H.
  rewrite Z.land_spec, Z.ldiff_spec in H. by rewrite andb_false_r in H.
Qed.

Lemma mark_on lo hi v :
  static v → hi ≠ 0 → high_set (Event_watermark lo hi) v (enable_wm_cb (add_wm_cb (set_wm_read (Event_watermark lo hi) v))).
Proof.
  intros Hst Hne. destruct (sb_in _ Hst) as (Hwf & Hcalm & Hfs). pose proof (proj2 (sb_high _ Hst)) as Hent. unfold wm_entry in Hent.
  unfold enable_wm_cb, add_wm_cb. cbn [set_wm_read with_marks marks read_watermarks_cb].
  destruct (read_watermarks_cb (marks v)) as [k|] eqn:Ek; unfold high_set, wm_entry; cbn; rewrite ?Ek; cbn.
  - destruct Hent as (-> & fl & Hcb & _). rewrite Hcb. split_and!; try done. eexists. split; [done|]. split; [done|]. intros _. apply on_enabled.
  - destruct Hent as [Hcb _]. rewrite Hcb. split_and!; try done. by eexists.
Qed.

Lemma mark_off lo v :
  static v → high_set (Event_watermark lo 0) v (disable_wm_cb (set_wm_read (Event_watermark lo 0) v)).
Proof.
  intros Hst. destruct (sb_in _ Hst) as (Hwf & Hcalm & Hfs). pose proof (proj2 (sb_high _ Hst)) as Hent. unfold wm_entry in Hent.
  unfold disable_wm_cb. cbn [set_wm_read with_marks marks read_watermarks_cb].
  destruct (read_watermarks_cb (marks v)) as [k|] eqn:Ek; unfold high_set, wm_entry; cbn; rewrite ?Ek; cbn.
  - destruct Hent as (-> & fl & Hcb & _). rewrite Hcb. split_and!; try done. eexists. split; [done|]. split; [|done]. intros H. by apply off_disabled in H.
  - destruct Hent as [Hcb _]. by rewrite Hcb.
Qed.

(** Marks, of the input if [events] has EV_READ and of the output if it has EV_WRITE.  Reading is
    suspended at once if the input is that long. *)
Lemma setwatermark_ok events lo hi s :
  bev_ok s → 0 <= hi <= EV_SSIZE_MAX →
  bwp (bufferevent_setwatermark mm backend fdinfo_len clock events lo hi) s (λ _ s', bev_keeps s s' ∧
    wm_read (marks (bev s')) = (if has EV_READ events then Event_watermark lo hi else wm_read (marks (bev s))) ∧
    wm_write (marks (bev s')) = (if has EV_WRITE events then Event_watermark lo hi else wm_write (marks (bev s)))).
Proof.
  intros Hok Hhi. unfold bufferevent_setwatermark. apply bwp_bind.
  assert (H1 : bwp (bwhen (has EV_WRITE events) (change (set_wm_write (Event_watermark lo hi)))) s (λ _ s',
    bev_keeps s s' ∧ wm_read (marks (bev s')) = wm_read (marks (bev s)) ∧
    wm_write (marks (bev s')) = (if has EV_WRITE events then Event_watermark lo hi else wm_write (marks (bev s))))).
  { apply bwp_when; intros ->; [|split; [by apply bev_keeps_refl|done]]. apply bwp_change. split; [|done].
    destruct s as [b v t]. by apply alike_keeps. }
  eapply bwp_mono; [exact H1|]. clear H1. intros _ s1 (Hk1 & Hr1 & Hw1). pose proof (bk_ok _ _ Hk1) as Hok1.
  pose proof (ok_sound _ Hok1) as Hs1. pose proof (so_static _ Hs1) as Hst1.
  apply bwp_when; intros He; rewrite He; [|by split]. apply bwp_bind, bwp_change.
  assert (Hend : ∀ v' s', high_set (Event_watermark lo hi) (bev s1) v' → wm_write (marks v') = wm_write (marks (bev s1)) →
    resuspends (Bev_system (base s1) v' (trace s1)) s' → at_mark (bev s') →
    bev_keeps s s' ∧ wm_read (marks (bev s')) = Event_watermark lo hi ∧
    wm_write (marks (bev s')) = (if has EV_WRITE events then Event_watermark lo hi else wm_write (marks (bev s)))).
  { intros v' s' Hset Hwr R Hm. split; [eapply bev_keeps_trans; [exact Hk1|]; by eapply high_set_keeps|].
    rewrite (rd_bev _ _ R), <- Hw1. split; [apply Hset|exact Hwr]. }
  destruct (Z.eqb_spec hi 0) as [->|Hne]; cbn [negb].
  - apply bwp_bind, bwp_change. pose proof (mark_off lo (bev s1) Hst1) as Hset.
    eapply bwp_mono; [apply unsuspend_ok; [exact clock_good|]; exact (high_set_sound s1 _ _ Hs1 Hset Hhi)|].
    intros [] s' [R Hrs]. eapply Hend; [exact Hset| |exact R|].
    + unfold disable_wm_cb. by destruct (read_watermarks_cb _).
    + unfold at_mark, full. rewrite Hrs, (rd_bev _ _ R). cbn [bev set_read_suspended with_status marks].
      destruct Hset as (_ & _ & _ & _ & _ & _ & _ & _ & _ & E & _). by rewrite E.
  - apply bwp_bind, bwp_change, bwp_bind, bwp_change, bwp_bind, bwp_ask. pose proof (mark_on lo hi (bev s1) Hst1 Hne) as Hset.
    eapply bwp_mono; [apply (at_high_ok mm backend fdinfo_len clock clock_good hi); [exact (high_set_sound s1 _ _ Hs1 Hset Hhi)| |done]|].
    { cbn [bev id]. destruct Hset as (_ & _ & _ & _ & _ & _ & _ & _ & _ & E & _). by rewrite E. }
    intros [] s' [R Hm]. eapply Hend; [exact Hset| |exact R|exact Hm].
    unfold enable_wm_cb, add_wm_cb. cbn. by destruct (read_watermarks_cb _).
Qed.
End interface.
