(* ===== verification/BuffereventRun.v ===== *)
(** * Bufferevents: reading and writing

    The callbacks of the two events of a bufferevent, and connecting, keep the invariant if the
    callbacks of the application do. *)

From S2P Require Import Prelude EvBuffer EvBufferMove EvBufferSpace EvBufferCalls.
From S2P Require Import Timeval Event MinHeap EvMap EventBase EventBaseOk EventApi EventCheck EventCalls EventLive EventSystem EventTimeout EventProcess.
From S2P Require Import Bufferevent BuffereventOk BuffereventCalls.

(** Only the counters and the errno of the trace have changed. *)
Lemma traced_keeps b v t t' :
  same_data t t' → refused t' = refused t → bev_ok (Bev_system b v t) → bev_keeps (Bev_system b v t) (Bev_system b v t').
Proof.
  intros (D1 & D2 & D3 & D4) Hr Hok. split; [|done|done| |done|].
  - pose proof Hok as [Hs Hm Hf Hd]. apply (recorded_ok (Bev_system b v t)); try done.
    unfold conserved in *. cbn in *. by rewrite D1, D2, D3, D4.
  - intros Hn. cbn in *. by rewrite <- Hr.
  - unfold no_stray. cbn. by rewrite Hr.
Qed.

Section run.
Context (mm : nat → Z → bool) (backend : history → backend_call → bool) (fdinfo_len : Z) (clock : nat → timeval).
Context (alloc : nat → Z → option (nat → byte)) (fionread : nat → Z) (readv : nat → Z → option (list byte))
  (writev : nat → list byte → Z) (error : nat → Z) (finished_connecting : nat → Z) (user : nat → bev_call → BM unit).
Hypothesis clock_good : clock_ok clock.

(** The kernel delivers at most what it is asked for, and takes at most what it is given. *)
Definition kernel_ok : Prop :=
  (∀ k n d, 0 <= n → readv k n = Some d → Zlen d <= n) ∧ (∀ k d, -1 <= writev k d <= Zlen d) ∧ (∀ k, -1 <= finished_connecting k).
(** A callback of the application may call whatever keeps the invariant. *)
Definition user_ok : Prop := ∀ k i s, bev_ok s → bwp (user k i) s (λ _ s', bev_keeps s s').
Hypothesis kernel_good : kernel_ok.
Hypothesis user_good : user_ok.

Lemma call_app_ok i s : bev_ok s → bwp (call_app user i) s (λ _ s', bev_keeps s s').
Proof.
  intros Hok. destruct s as [b v t]. set (t0 := Bev_trace (received t) (consumed t) (given t) (sent t) (syscalls t) (S (calls t)) (refused t) (errno t)).
  assert (Hk : bev_keeps (Bev_system b v t) (Bev_system b v t0)) by by apply traced_keeps.
  eapply bwp_mono; [apply (user_good (calls t) i (Bev_system b v t0)), Hk|]. intros a s' Hk'. by eapply bev_keeps_trans.
Qed.

Lemma at_once s opts : static (bev s) → has BEV_OPT_DEFER_CALLBACKS opts = false →
  has BEV_OPT_DEFER_CALLBACKS (Z.lor (options (parts (bev s))) opts) = false.
Proof. intros Hs Ho. rewrite has_add by by exists 2. by rewrite (sb_now _ Hs), Ho. Qed.

(** A callback that the application has set is called, unless it is to be deferred. *)
Lemma notify_ok opts s (f : option nat) (call : nat → bev_call) (delayed : nat → BM unit) :
  bev_ok s → has BEV_OPT_DEFER_CALLBACKS opts = false →
  bwp (match f with
       | None => mret tt
       | Some f => later ← defers opts; if later : bool then delayed f else call_app user (call f)
       end) s (λ _ s', bev_keeps s s').
Proof.
  intros Hok Ho. destruct f as [f|]; [|by apply bwp_ret, bev_keeps_refl].
  apply bwp_bind. unfold defers. apply bwp_bind, bwp_ask, bwp_ret. rewrite at_once by (apply Hok || done). by apply call_app_ok.
Qed.
Lemma run_readcb_ok opts s : bev_ok s → has BEV_OPT_DEFER_CALLBACKS opts = false →
  bwp (bufferevent_run_readcb_ user opts) s (λ _ s', bev_keeps s s').
Proof. intros Hok Ho. apply bwp_bind, bwp_ask. by apply (notify_ok opts s _ (λ f, data_read f _)). Qed.
Lemma run_writecb_ok opts s : bev_ok s → has BEV_OPT_DEFER_CALLBACKS opts = false →
  bwp (bufferevent_run_writecb_ user opts) s (λ _ s', bev_keeps s s').
Proof. intros Hok Ho. apply bwp_bind, bwp_ask. by apply (notify_ok opts s _ (λ f, data_written f _)). Qed.
Lemma run_eventcb_ok what opts s : bev_ok s → has BEV_OPT_DEFER_CALLBACKS opts = false →
  bwp (bufferevent_run_eventcb_ user what opts) s (λ _ s', bev_keeps s s').
Proof. intros Hok Ho. apply bwp_bind, bwp_ask. by apply (notify_ok opts s _ (λ f, event_happened f what _)). Qed.

Lemma trigger_ok iotype opts s : bev_ok s → has BEV_OPT_DEFER_CALLBACKS opts = false →
  bwp (bufferevent_trigger_nolock_ user iotype opts) s (λ _ s', bev_keeps s s').
Proof.
  intros Hok Ho. apply bwp_bind, bwp_ask, bwp_bind.
  assert (H1 : ∀ (c : bool), bwp (bwhen c (bufferevent_run_readcb_ user opts)) s (λ _ s', bev_keeps s s')).
  { intros c. apply bwp_when; intros _; [by apply run_readcb_ok|by apply bev_keeps_refl]. }
  eapply bwp_mono; [apply H1|]. intros [] s1 Hk1. apply bwp_bind, bwp_ask. apply bwp_when; intros _; [|done].
  eapply bwp_mono; [apply run_writecb_ok; [apply Hk1|done]|]. intros [] s2 Hk2. by eapply bev_keeps_trans.
Qed.

(** An error ends the reading, or the writing. *)
Lemma failed_ok e what s :
  bev_ok s → bwp (bufferevent_disable backend e;; bufferevent_run_eventcb_ user what 0) s (λ _ s', bev_keeps s s').
Proof.
  intros Hok. apply bwp_bind. eapply bwp_mono; [by apply bev_disable_ok|]. intros r s1 (Hk1 & _).
  eapply bwp_mono; [apply run_eventcb_ok; [apply Hk1|done]|]. intros [] s2 Hk2. by eapply bev_keeps_trans.
Qed.

(** *** Reading *)

Lemma read_howmuch_le f h : 0 <= h → read_howmuch f h <= h.
Proof.
  intros Hh. unfold read_howmuch.
  destruct ((f <=? 0) || _); match goal with |- context [?n <? h] => destruct (Z.ltb_spec h 0), (Z.ltb_spec n h) end; cbn [orb]; lia.
Qed.

(** Bytes [d] have come from the socket. *)
Definition reads_in (d : list byte) (s s' : bev_system) : Prop :=
  bev_keeps s s' ∧ bytes (input (bev s')) = bytes (input (bev s)) ++ d ∧ received (trace s') = received (trace s) ++ d ∧
  marks (bev s') = marks (bev s).

Lemma syscall_ok s (Q : nat → bev_system → Prop) :
  bev_ok s → (∀ t', bev_keeps s (Bev_system (base s) (bev s) t') → same_data (trace s) t' → Q (syscalls (trace s)) (Bev_system (base s) (bev s) t')) →
  bwp (syscall error) s Q.
Proof.
  intros Hok HQ. destruct s as [b v t]. eexists _, _. split; [reflexivity|]. apply HQ; [|done]. by apply traced_keeps.
Qed.

Lemma read_socket_ok howmuch s :
  bev_ok s → total_len (input (bev s)) + EVBUFFER_MAX_READ <= SIZE_MAX →
  bwp (read_socket mm backend fdinfo_len clock alloc fionread readv error howmuch) s (λ r s', ∃ d, reads_in d s s' ∧
    (0 <= howmuch → Zlen d <= howmuch)).
Proof.
  intros Hok Hroom. unfold read_socket. apply bwp_bind, syscall_ok; [done|]. intros t1 Hk1 HD.
  set (k := syscalls (trace s)). set (got := readv k _). apply bwp_bind, bwp_change. cbn [bev base trace].
  set (s2 := Bev_system _ _ _).
  assert (Hk2 : bev_keeps (Bev_system (base s) (bev s) t1) s2) by (apply alike_keeps; [apply thaw_input|done|apply Hk1]).
  pose proof (bk_ok _ _ Hk2) as Hok2. pose proof Hok2 as [Hs2 Hm2 Hf2 [Hd1 Hd2]].
  destruct (sb_in _ (so_static _ Hs2)) as (Hwf & Hcalm & Hfs).
  assert (Hlen : ∀ d, got = Some d → Zlen d <= read_howmuch (fionread k) howmuch) by (intros d; apply kernel_good, read_howmuch_range).
  destruct (read_ok alloc (input (bev s2)) (fionread k) howmuch got Hwf) as (r & i & Hi & Hwf' & [Hfs' _] & Hr); [done|done|done|].
  destruct (read_tells alloc _ _ _ _ r i Hcalm Hi) as (na & Ht & Hna).
  set (d := if 0 <? r then default [] got else []).
  assert (Hd : bytes i = bytes (input (bev s2)) ++ d ∧ r < 2 ^ 64 ∧ Zlen d <= read_howmuch (fionread k) howmuch).
  { pose proof (read_howmuch_range (fionread k) howmuch) as Hrange. unfold EVBUFFER_MAX_READ in Hrange. subst d.
    destruct Hr as [Hr|(-> & Hb & _)]; [|change (0 <? -1) with false; cbv iota; cbn [length]; rewrite app_nil_r; split; [done|lia]].
    destruct got as [d|]; [|destruct Hr as [-> ->]; change (0 <? -1) with false; cbv iota; cbn [length]; rewrite app_nil_r; split; [done|lia]].
    specialize (Hlen d eq_refl). destruct Hr as [-> ->]. destruct (Z.ltb_spec 0 (Zlen d)) as [|Hz]; cbv iota; cbn [default id]; unfold id; [split; [done|lia]|].
    rewrite (nil_length_inv d) by lia. cbn [length]. split; [done|lia]. }
  destruct Hd as (Hb & Hr64 & Hdl). apply bwp_bind.
  eapply bwp_mono; [apply (on_input_ok mm backend fdinfo_len clock clock_good _ s2 r i na 0 Hs2 Hm2 Hi Hwf'); [congruence|exact Ht|]|].
  { intros Hz _. destruct (Z.ltb_spec 0 r) as [Hp|Hp]; [by destruct Hna|]. pose proof Hwf as (_ & L & _). pose proof Hwf' as (_ & L' & _).
    rewrite L, L', Hb. subst d. by rewrite app_nil_r. }
  intros r' s3 (-> & Hm3 & R). pose proof (rd_data _ _ R) as (D1 & D2 & D3 & D4). pose proof (rd_bev _ _ R) as E3. cbn [trace s2] in D1, D2, D3, D4.
  assert (Hend : ∀ t5, received t5 = received t1 ++ d → consumed t5 = consumed t1 → given t5 = given t1 → sent t5 = sent t1 →
    refused t5 = refused (trace s3) → reads_in d s (Bev_system (base s3) (with_input (evbuffer_freeze (input (bev s3)) false) (bev s3)) t5)).
  { intros t5 F1 F2 F3 F4 F5. destruct HD as (HD & _ & _ & _).
    assert (Hin : input (bev s3) = i) by by rewrite E3. assert (Hout : output (bev s3) = output (bev s2)) by by rewrite E3.
    destruct (input_keeps s2 i s3 t5 Hok2 R Hm3 F5) as [Hk3 _].
    { unfold conserved. cbn [trace bev]. rewrite F1, F2, F3, F4, Hin, Hout, Hb. cbn [trace s2] in Hd1, Hd2. by rewrite Hd1, Hd2, (assoc_L (++)). }
    split; [|cbn; rewrite F1, HD, Hin; split; [exact Hb|split; [done|by rewrite E3]]].
    eapply bev_keeps_trans; [exact Hk1|]. eapply bev_keeps_trans; [exact Hk2|]. eapply bev_keeps_trans; [exact Hk3|].
    apply alike_keeps; [apply thaw_input|done|apply Hk3]. }
  assert (Hmax : 0 <= howmuch → Zlen d <= howmuch) by (intros Hh; pose proof (read_howmuch_le (fionread k) howmuch Hh); lia).
  apply bwp_bind, bwp_change, bwp_bind. apply bwp_when; intros Hz; subst d; rewrite Hz in *.
  - apply bwp_record, bwp_ret. eexists. split; [apply Hend; cbn; by rewrite ?D1|done].
  - apply bwp_ret. eexists. split; [apply Hend; cbn; rewrite ?app_nil_r; done|done].
Qed.

Lemma room_exact v : static v → full v = false → high (wm_read (marks v)) ≠ 0 →
  room_to_high v = high (wm_read (marks v)) - total_len (input v) ∧ 0 < room_to_high v.
Proof.
  intros Hs Hf Hh. unfold full in Hf. rewrite (proj2 (Z.eqb_neq _ _)) in Hf by done. cbn [negb andb] in Hf. apply Z.leb_gt in Hf.
  pose proof (wf_total _ (proj1 (sb_in _ Hs))) as Ht. pose proof (proj1 (sb_high _ Hs)) as Hb. unfold room_to_high.
  unfold EV_SSIZE_MAX in Hb. unfold swrap. change (64 - 1) with 63. rewrite Z.mod_small; lia.
Qed.

Lemma full_suspended v : at_mark v → full v = true → read_suspended (status v) = BEV_SUSPEND_WM.
Proof. unfold at_mark. by intros -> ->. Qed.

(** The socket is readable, or the time is up. *)
Lemma readcb_ok event s :
  bev_ok s → total_len (input (bev s)) + EVBUFFER_MAX_READ <= SIZE_MAX →
  bwp (bufferevent_readcb mm backend fdinfo_len clock alloc fionread readv error user event) s (λ _ s', bev_keeps s s').
Proof.
  intros Hok Hroom. unfold bufferevent_readcb.
  eapply bwp_mono; [eapply (with_reference_ok backend s _ (λ _, True)); [done|]|by intros a s' [? _]]. intros s0 Hok0.
  enough (H : bwp (if event =? EV_TIMEOUT then read_failed backend user (Z.lor BEV_EVENT_READING BEV_EVENT_TIMEOUT) else _) s0 (λ _ s', bev_keeps s0 s'))
    by (eapply bwp_mono; [exact H|]; by intros a s').
  destruct (event =? EV_TIMEOUT); [by apply failed_ok|]. apply bwp_bind, bwp_ask. cbn [id].
  pose proof Hok0 as [Hs0 Hm0 _ _]. pose proof (so_static _ Hs0) as Hst0.
  destruct (negb (high (wm_read (marks (bev s0))) =? 0) && (room_to_high (bev s0) <=? 0)) eqn:Efull.
  { eapply bwp_mono; [by apply suspend_ok|]. intros [] s' [R Hrs]. apply resuspends_keeps; [done|done|].
    assert (Hf : full (bev s0) = true).
    { destruct (full (bev s0)) eqn:Ef; [done|]. apply andb_true_iff in Efull as [E1%negb_true_iff%Z.eqb_neq E2%Z.leb_le].
      destruct (room_exact _ Hst0 Ef E1). lia. }
    unfold at_mark. rewrite Hrs. replace (full (bev s')) with true; [done|]. rewrite (rd_bev _ _ R). by symmetry. }
  set (h1 := if high _ =? 0 then -1 else _). apply bwp_bind. unfold bufferevent_get_read_max_. apply bwp_bind, bwp_ask, bwp_ret.
  set (h2 := if _ || _ then _ else h1). destruct (read_suspended (status (bev s0)) =? 0) eqn:Ers; cbn [negb]; [|by apply bwp_ret, bev_keeps_refl].
  apply bwp_bind. eapply bwp_mono; [by apply read_socket_ok|]. intros r s1 (d & (Hk1 & _) & _). pose proof (bk_ok _ _ Hk1) as Hok1.
  assert (Hthen : ∀ (m : BM unit), bwp m s1 (λ _ s', bev_keeps s1 s') → bwp m s1 (λ _ s', bev_keeps s0 s')).
  { intros m Hm. eapply bwp_mono; [exact Hm|]. intros a s' Hk. by eapply bev_keeps_trans. }
  destruct (0 <? r); [by apply Hthen, trigger_ok|]. destruct (r =? -1); [|by apply Hthen, failed_ok].
  apply bwp_bind. exists (errno (trace s1)), s1. split; [done|]. destruct (EVUTIL_ERR_RW_RETRIABLE _); [by apply bwp_ret|].
  destruct (EVUTIL_ERR_CONNECT_REFUSED _); [|by apply Hthen, failed_ok]. apply bwp_change. eapply bev_keeps_trans; [exact Hk1|].
  destruct s1 as [b v t]. by apply alike_keeps; [apply refused_alike|..].
Qed.

(** *** Writing *)

(** The bytes that the kernel takes leave the buffer. *)
Lemma write_socket_ok atmost s :
  bev_ok s → bwp (write_socket mm backend fdinfo_len clock writev error atmost) s (λ r s', bev_keeps s s' ∧
    ∃ n, bytes (output (bev s')) = drop n (bytes (output (bev s))) ∧ sent (trace s') = sent (trace s) ++ take n (bytes (output (bev s))) ∧
      (0 <= atmost → Z.of_nat n <= atmost)).
Proof.
  intros Hok. unfold write_socket. apply bwp_bind, syscall_ok; [done|]. intros t1 Hk1 HD. set (k := syscalls (trace s)).
  apply bwp_bind, bwp_change, bwp_bind, bwp_ask. cbn [bev base trace].
  set (s2 := Bev_system _ _ _). change (bytes (output (bev s2))) with (bytes (output (bev s))).
  assert (Hk2 : bev_keeps (Bev_system (base s) (bev s) t1) s2) by (apply alike_keeps; [apply thaw_output|done|apply Hk1]).
  pose proof (bk_ok _ _ Hk2) as Hok2. pose proof Hok2 as [Hs2 Hm2 Hf2 [Hd1 Hd2]].
  destruct (sb_out _ (so_static _ Hs2)) as (Hwf & Hcalm & Hfe & _ & Hmax).
  destruct (write_atmost_ok (output (bev s2)) (writev k) atmost Hwf) as (r & o & j & Ho & Hwf' & (_ & Hfe' & _) & Hrj & Hj & Hja & Hb & _);
    [done|done|apply kernel_good|].
  destruct (write_tells _ _ _ r o Hcalm Ho) as (nd & Ht); [pose proof (wf_total _ Hwf); unfold SIZE_MAX in *; lia|].
  apply bwp_bind. eapply bwp_mono; [apply (on_output_ok mm backend fdinfo_len clock clock_good _ s2 r o 0 nd Hs2 Ho Hwf'); [congruence| |exact Ht]|].
  { rewrite Hb, length_drop. lia. }
  intros r' s3 (-> & Hs3 & E & Hw). pose proof E as [_ E3 (D1 & D2 & D3 & D4) _]. cbn [trace s2] in D1, D2, D3, D4, Hd1, Hd2.
  apply bwp_bind, bwp_change, bwp_bind, bwp_record, bwp_ret. cbn [bev base trace].
  set (t5 := Bev_trace _ _ _ _ _ _ _ _). destruct HD as (_ & _ & _ & HD).
  assert (Hin : input (bev s3) = input (bev s2)) by by rewrite E3. assert (Hout : output (bev s3) = o) by by rewrite E3.
  change (bytes (output (bev s2))) with (bytes (output (bev s))) in *.
  assert (Hk3 : bev_keeps s2 (Bev_system (base s3) (bev s3) t5)).
  { eapply (output_keeps s2 o 0); try done.
    - intros Hne. left. change (bytes (output (bev s)) ≠ []). intros E0. rewrite E0, drop_nil in Hb. done.
    - unfold conserved. cbn [trace bev t5 received consumed given sent]. rewrite D1, D2, D3, D4, Hin, Hout, Hb. split; [done|].
      rewrite <- (assoc_L (++)), take_drop. done. }
  split.
  - eapply bev_keeps_trans; [exact Hk1|]. eapply bev_keeps_trans; [exact Hk2|]. eapply bev_keeps_trans; [exact Hk3|].
    apply alike_keeps; [apply thaw_output|done|apply Hk3].
  - exists (Z.to_nat r). cbn. rewrite Hout, D4, HD. split; [exact Hb|]. split; [done|]. lia.
Qed.

(** The write event is taken away when there is nothing to write. *)
Lemma del_write_ok s :
  bev_ok s → connecting (status (bev s)) = false → bytes (output (bev s)) = [] ∨ writes (bev s) = false →
  bwp (del_write backend) s (λ _ s', bev_keeps s s' ∧ bev s' = bev s ∧ (refused (trace s') = false → writing s' = false)).
Proof.
  intros [[He Hst Hw] Hm Hf Hd] Hc Hor. unfold del_write. apply bwp_bind, bwp_ask, bwp_bind.
  eapply bwp_mono; [by apply (del_event_ok backend writer s)|]. intros r s' ([E1 E2 (D1 & D2 & D3 & D4) E4] & Ho & Hwr & _). apply bwp_ret.
  assert (Hwf : writing s' = false) by exact Hwr.
  split; [|by split]. split; try by rewrite E2.
  - split; [split; [done|by rewrite E2|]|by rewrite E2| |].
    + intros Hn. rewrite E2, Hc. split; [|done]. destruct (Hw (E4 Hn)) as [Hr _]. rewrite <- Hr. exact Ho.
    + intros Hn. rewrite E2. intros Hwr' Hb. destruct Hor; [done|congruence].
    + unfold conserved. by rewrite D1, D2, D3, D4, E2.
  - exact E4.
  - intros _ _. by rewrite Hwf.
Qed.

Lemma total_bytes s : bev_ok s → total_len (output (bev s)) = 0 → bytes (output (bev s)) = [].
Proof. intros Hok. apply bytes_nil. apply (sb_out _ (so_static _ (ok_sound _ Hok))). Qed.

Lemma write_out_ok connected s :
  bev_ok s → connecting (status (bev s)) = false →
  bwp (write_out mm backend fdinfo_len clock writev error user connected) s (λ _ s', bev_keeps s s').
Proof.
  intros Hok Hc. unfold write_out. apply bwp_bind. unfold bufferevent_get_write_max_. apply bwp_bind, bwp_ask, bwp_ret, bwp_bind, bwp_ask.
  cbn [id]. rewrite (sb_write _ (so_static _ (ok_sound _ Hok))). change (negb (0 =? 0)) with false. cbv iota.
  assert (Hempty : ∀ s1, bev_keeps s s1 → bwp (v ← ask id; bwhen (total_len (output v) =? 0) (del_write backend)) s1 (λ _ s', bev_keeps s s')).
  { intros s1 Hk. apply bwp_bind, bwp_ask. cbn [id]. apply bwp_when; intros Ez; [|done]. apply Z.eqb_eq in Ez. pose proof (bk_ok _ _ Hk) as Hok1.
    eapply bwp_mono; [apply (del_write_ok s1 Hok1)|].
    - destruct (connecting (status (bev s1))) eqn:E; [|done]. by rewrite (bk_connecting _ _ Hk) in Hc.
    - left. by apply total_bytes.
    - intros a s' (Hk' & _). by eapply bev_keeps_trans. }
  assert (Hfin : ∀ res s1, bev_keeps s s1 → bwp (after_write backend user connected res) s1 (λ _ s', bev_keeps s s')).
  { intros res s1 Hk. unfold after_write. apply bwp_bind, bwp_ask, bwp_bind. cbn [id].
    eapply bwp_mono; [exact (Hempty s1 Hk)|]. intros [] s2 Hk2. apply bwp_when; intros _; [|done].
    eapply bwp_mono; [apply trigger_ok; [apply Hk2|done]|]. intros [] s3 Hk3. by eapply bev_keeps_trans. }
  destruct (total_len (output (bev s)) =? 0); [by apply Hfin, bev_keeps_refl|].
  apply bwp_bind. eapply bwp_mono; [by apply write_socket_ok|]. intros r s1 (Hk1 & _).
  assert (Hthen : ∀ (m : BM unit), bwp m s1 (λ _ s', bev_keeps s1 s') → bwp m s1 (λ _ s', bev_keeps s s')).
  { intros m Hm. eapply bwp_mono; [exact Hm|]. intros a s' Hk. by eapply bev_keeps_trans. }
  destruct (0 <? r); [by apply Hfin|]. destruct (r =? -1); [|by apply Hthen, failed_ok, Hk1].
  apply bwp_bind. exists (errno (trace s1)), s1. split; [done|]. destruct (EVUTIL_ERR_RW_RETRIABLE _); [by apply Hempty|by apply Hthen, failed_ok, Hk1].
Qed.

(** *** The end of connecting *)

(** The state of the bufferevent while it connects, or has ceased to. *)
Lemma not_connecting_ok b v t :
  bev_ok (Bev_system b v t) → bev_ok (Bev_system b (set_connecting false v) t).
Proof.
  intros [[He [] Hw] Hm Hf Hd]. split; [split; [done|by split|]|done|done|done].
  intros Hn. split; [by apply Hw|done].
Qed.

(** All but [no_stray]. *)
Definition bev_leads (s s' : bev_system) : Prop :=
  bev_ok s' ∧ parts (bev s') = parts (bev s) ∧ bev_refcnt (bev s') = bev_refcnt (bev s) ∧ later (trace s) (trace s').
Lemma keeps_leads s s' : bev_keeps s s' → bev_leads s s'.
Proof. by intros []. Qed.
Lemma leads_trans s1 s2 s3 : bev_leads s1 s2 → bev_leads s2 s3 → bev_leads s1 s3.
Proof. intros (A1 & A2 & A3 & A4) (B1 & B2 & B3 & B4). split_and!; [done|congruence..|]. intros H. by apply A4, B4. Qed.
Lemma leads_keeps s s' :
  bev_leads s s' → connecting (status (bev s')) = false → no_stray s' → bev_keeps s s'.
Proof. intros (A1 & A2 & A3 & A4) Hc Hn. split; try done. by rewrite Hc. Qed.

(** The connection has failed: both events go. *)
Lemma connect_failed_ok s :
  bev_ok s → connecting (status (bev s)) = false →
  bwp (p ← ask parts; bev_event_del backend (ev_write p);; bev_event_del backend (ev_read p);; note_refused (-1);;
       bufferevent_run_eventcb_ user BEV_EVENT_ERROR 0) s
    (λ _ s', bev_leads s s' ∧ connecting (status (bev s')) = false ∧ refused (trace s') = true).
Proof.
  intros Hok Hc. pose proof Hok as [[He Hst Hw] Hm Hf Hd]. apply bwp_bind, bwp_ask, bwp_bind.
  eapply bwp_mono; [by apply (del_event_ok backend writer s)|]. intros r s1 (E & _). pose proof (eo_bev _ _ E) as Eb. apply bwp_bind.
  rewrite <- Eb. eapply bwp_mono; [apply (del_event_ok backend reader s1); [apply E|by rewrite Eb]|]. intros r' s2 (E' & _).
  pose proof (events_only_trans _ _ _ E E') as [E1 E2 (D1 & D2 & D3 & D4) E4]. apply bwp_bind, bwp_record. set (s3 := Bev_system _ _ _).
  assert (Hr : refused (trace s3) = true) by (cbn; by rewrite orb_true_r).
  assert (Hno : ∀ P : Prop, refused (trace s3) = false → P) by (intros P; by rewrite Hr).
  assert (Hok3 : bev_ok s3).
  { split; [split; [exact E1|cbn; by rewrite E2|]|cbn; by rewrite E2| |]; try (intros H; by apply Hno).
    unfold conserved. cbn. by rewrite D1, D2, D3, D4, E2. }
  eapply bwp_mono; [by apply run_eventcb_ok|]. intros [] s4 [K1 K2 K3 K4 K5 K6].
  assert (Hr4 : refused (trace s4) = true) by (destruct (refused (trace s4)) eqn:E0; [done|]; by apply Hno, K4).
  split; [split; [done|]; split; [by rewrite K2; cbn; rewrite E2|]; split; [by rewrite K3; cbn; rewrite E2|] |split; [|done]].
  - intros H. by rewrite Hr4 in H.
  - destruct (connecting (status (bev s4))) eqn:E0; [|done]. specialize (K5 eq_refl). cbn in K5. rewrite E2 in K5. congruence.
Qed.

(** The connection is there. *)
Lemma connected_ok s :
  bev_ok s → connecting (status (bev s)) = false →
  bwp (bufferevent_run_eventcb_ user BEV_EVENT_CONNECTED 0;;
       t ← ask status;
       if negb (has EV_WRITE (enabled t)) || negb (write_suspended t =? 0) then del_write backend
       else write_out mm backend fdinfo_len clock writev error user true) s
    (λ _ s', bev_leads s s' ∧ connecting (status (bev s')) = false ∧ no_stray s').
Proof.
  intros Hok Hc. apply bwp_bind. eapply bwp_mono; [by apply run_eventcb_ok|]. intros [] s1 Hk1. pose proof (bk_ok _ _ Hk1) as Hok1.
  assert (Hc1 : connecting (status (bev s1)) = false) by (destruct (connecting (status (bev s1))) eqn:E; [|done]; by rewrite (bk_connecting _ _ Hk1) in Hc).
  apply bwp_bind, bwp_ask. rewrite (sb_write _ (so_static _ (ok_sound _ Hok1))). change (negb (0 =? 0)) with false. rewrite orb_false_r.
  destruct (has EV_WRITE (enabled (status (bev s1)))) eqn:Ew; cbn [negb].
  - eapply bwp_mono; [by apply write_out_ok|]. intros [] s2 Hk2. split; [by eapply leads_trans; apply keeps_leads|].
    split; [destruct (connecting (status (bev s2))) eqn:E; [|done]; by rewrite (bk_connecting _ _ Hk2) in Hc1|].
    apply (bk_stray _ _ Hk2). intros _ _. by right.
  - eapply bwp_mono; [apply del_write_ok; [done|done|by right]|]. intros [] s2 (Hk2 & Eb & Hwr). split; [by eapply leads_trans; apply keeps_leads|].
    split; [by rewrite Eb|]. intros Hn. by rewrite Hwr.
Qed.

Lemma connect_result_ok s :
  bev_ok s → bwp (connect_result error finished_connecting) s (λ c s', bev_keeps s s' ∧ -1 <= c).
Proof.
  intros Hok. unfold connect_result. apply bwp_bind, syscall_ok; [done|]. intros t1 Hk1 _.
  apply bwp_bind, bwp_ask, bwp_bind, bwp_change, bwp_ret. split.
  - eapply bev_keeps_trans; [exact Hk1|]. cbn [bev base trace]. apply alike_keeps; [apply refused_alike|done|apply Hk1].
  - cbn. destruct (connection_refused _); [done|apply kernel_good].
Qed.

(** The socket is writable, connected or not, or the time is up. *)
Lemma writecb_ok event s :
  bev_ok s → bwp (bufferevent_writecb mm backend fdinfo_len clock writev error finished_connecting user event) s (λ _ s', bev_keeps s s').
Proof.
  intros Hok. unfold bufferevent_writecb.
  eapply bwp_mono; [eapply (with_reference_ok backend s _ (λ _, True)); [done|]|by intros a s' [? _]]. intros s0 Hok0.
  enough (H : bwp (if event =? EV_TIMEOUT then write_failed backend user (Z.lor BEV_EVENT_WRITING BEV_EVENT_TIMEOUT) else _) s0 (λ _ s', bev_keeps s0 s'))
    by (eapply bwp_mono; [exact H|]; by intros a s').
  destruct (event =? EV_TIMEOUT); [by apply failed_ok|]. apply bwp_bind, bwp_ask.
  destruct (connecting (status (bev s0))) eqn:Ec; [|by apply write_out_ok].
  apply bwp_bind. eapply bwp_mono; [by apply connect_result_ok|]. intros c s1 [Hk1 Hmin]. destruct (Z.eqb_spec c 0); [by apply bwp_ret|].
  apply bwp_bind, bwp_change. set (s2 := Bev_system _ _ _). pose proof (bk_ok _ _ Hk1) as Hok1.
  assert (Hl2 : bev_leads s0 s2).
  { eapply leads_trans; [by apply keeps_leads|]. destruct s1 as [b v t]. split; [by apply not_connecting_ok|]. split; [done|]. split; [done|]. by intros ?. }
  assert (Hok2 : bev_ok s2) by apply Hl2.
  destruct (Z.ltb_spec c 0).
  - assert (c = -1) as -> by lia. eapply bwp_mono; [by apply connect_failed_ok|]. intros a s3 (Hl3 & Hc3 & Hr). eapply leads_keeps; [by eapply leads_trans|done|].
    intros Hn. by rewrite Hr in Hn.
  - eapply bwp_mono; [by apply connected_ok|]. intros a s3 (Hl3 & Hc3 & Hn). eapply leads_keeps; [by eapply leads_trans|done|done].
Qed.
End run.
