(* ===== verification/BuffereventSystem.v ===== *)
(** * Bufferevents in use

    A program that creates a bufferevent, calls its interface and lets its events run: what holds at
    every time. *)

From S2P Require Import Prelude EvBuffer EvBufferMove EvBufferSpace EvBufferCalls.
From S2P Require Import Timeval Event MinHeap EvMap EventBase EventBaseOk EventApi EventCheck EventCalls EventLive EventSystem EventTimeout EventProcess.
From S2P Require Import Bufferevent BuffereventOk BuffereventCalls BuffereventRun.

(** ** What a program calls *)

Inductive bev_op :=
  | op_write (d : list byte) | op_read (n : Z)
  | op_enable (events : Z) | op_disable (events : Z)
  | op_setwatermark (events lo hi : Z)
  | op_setcb (r w e : option nat) (arg : Z)
  | op_setfd (fd : Z).

(** The obligations for an event that is assigned. *)
Definition fits (b : event_base) (fd : Z) : Prop := 0 <= fd < 2 ^ 30 ∧ Z.of_nat (size (evs b)) + 3 < 2 ^ 31.

(** What the documentation asks: the output stays below 2 GB, marks are sizes, a socket is given up
    when it is connected. *)
Definition op_allowed (s : bev_system) (o : bev_op) : Prop :=
  match o with
  | op_write d => Zlen (bytes (output (bev s))) + Zlen d <= INT_MAX
  | op_read n => 0 <= n
  | op_setwatermark _ _ hi => 0 <= hi <= EV_SSIZE_MAX
  | op_setfd fd => connecting (status (bev s)) = false ∧ fits (base s) fd
  | _ => True
  end.

Section system.
Context (mm : nat → Z → bool) (backend : history → backend_call → bool) (fdinfo_len : Z) (clock : nat → timeval).
Context (alloc : nat → Z → option (nat → byte)) (fionread : nat → Z) (readv : nat → Z → option (list byte))
  (writev : nat → list byte → Z) (error : nat → Z) (finished_connecting : nat → Z) (user : nat → bev_call → BM unit).

(** The answer, and the data read. *)
Definition run_op (o : bev_op) : BM (Z * list byte) :=
  match o with
  | op_write d => r ← bufferevent_write mm backend fdinfo_len clock alloc d; mret (r, [])
  | op_read n => bufferevent_read mm backend fdinfo_len clock n
  | op_enable e => r ← bufferevent_enable mm backend fdinfo_len clock e; mret (r, [])
  | op_disable e => r ← bufferevent_disable backend e; mret (r, [])
  | op_setwatermark e lo hi => bufferevent_setwatermark mm backend fdinfo_len clock e lo hi;; mret (0, [])
  | op_setcb r w e arg => bufferevent_setcb r w e arg;; mret (0, [])
  | op_setfd fd => r ← bufferevent_setfd mm backend fdinfo_len clock fd; mret (r, [])
  end.

(** The calls that a callback of the application makes. *)
Fixpoint run_ops (os : list bev_op) : BM unit :=
  match os with
  | [] => mret tt
  | o :: os => run_op o;; run_ops os
  end.
Fixpoint obeys_ops (os : list bev_op) (s : bev_system) : Prop :=
  match os with
  | [] => True
  | o :: os => op_allowed s o ∧ ∀ a s', run_op o s = Some (a, s') → obeys_ops os s'
  end.

Hypothesis clock_good : clock_ok clock.
Hypothesis user_good : user_ok user.

(** *** Another socket *)

Lemma both_deleted s (Q : bev_system → Prop) (k : BM unit) :
  events_ok s → static (bev s) →
  (∀ s', events_only s s' → (∀ d, waiting d s' = false) → size (evs (base s')) = size (evs (base s)) → bwp k s' (λ _ s'', Q s'')) →
  bwp (bev_event_del backend (ev_read (parts (bev s)));; bev_event_del backend (ev_write (parts (bev s)));; k) s (λ _ s'', Q s'').
Proof.
  intros He Hst Hk. apply bwp_bind. eapply bwp_mono; [by apply (del_event_ok backend reader s)|]. intros r s1 (E & _ & Hr & Hz & _).
  pose proof (eo_bev _ _ E) as Eb. apply bwp_bind. rewrite <- Eb.
  eapply bwp_mono; [apply (del_event_ok backend writer s1); [apply E|by rewrite Eb]|]. intros r' s2 (E' & Ho & Hw & Hz' & _).
  apply Hk; [by eapply events_only_trans| |congruence]. intros []; [|exact Hw]. etrans; [exact Ho|exact Hr].
Qed.

(** The two events are assigned to [fd] while they wait for nothing. *)
Lemma both_assigned r w fd b :
  at_rest b → r ≠ w → (∀ x, x = r ∨ x = w → ¬ ctl_timer b x ∧ idle_event (evs b !! x) ∧
    (∀ e, evs b !! x = Some e → has EVLIST_FINALIZING (ev_flags e) = false)) →
  fd < 2 ^ 30 → Z.of_nat (size (evs b)) + 3 < 2 ^ 31 →
  wp (event_assign r fd READ_EVENTS (user_cb READCB) 0;; event_assign w fd WRITE_EVENTS (user_cb WRITECB) 0) b
    (λ _ b', at_rest b' ∧ io_event b' r fd READ_EVENTS ∧ io_event b' w fd WRITE_EVENTS ∧ watched b' r = false ∧ watched b' w = false).
Proof.
  intros Hr Hne Hx Hfd Hsz. destruct (Hx r (or_introl eq_refl)) as (Hc & Hi & Hf), (Hx w (or_intror eq_refl)) as (Hc' & Hi' & Hf').
  apply wp_bind. eapply wp_mono; [apply (io_assign b r fd READ_EVENTS READCB); [done|done|done|done|done|done|lia]|].
  intros a b1 (Hr1 & _ & Hio1 & Hw1 & Hct & Ho & _ & Hsz1 & _). specialize (Ho w (not_eq_sym Hne)).
  assert (Hsame : ∀ e, evs b1 !! w = Some e → ∃ e0, evs b !! w = Some e0 ∧ ev_evcallback e = ev_evcallback e0).
  { intros e He. rewrite He in Ho. destruct (evs b !! w) as [e0|]; [|done]. apply (inj Some), core_eq in Ho. exists e0. split; [done|]. by rewrite Ho. }
  eapply wp_mono; [apply (io_assign b1 w fd WRITE_EVENTS WRITECB)|].
  - done.
  - by rewrite Hct.
  - intros e He. destruct (Hsame e He) as (e0 & He0 & ->). by apply Hi'.
  - intros e He. destruct (Hsame e He) as (e0 & He0 & E). unfold ev_flags. rewrite E. by apply Hf'.
  - done.
  - done.
  - lia.
  - intros a' b2 (Hr2 & Hel & Hio2 & Hw2 & _). destruct (Hel r fd READ_EVENTS Hne Hio1) as [Hio1' Hw1']. by rewrite Hw1'.
Qed.

Lemma io_event_unwatched b x fd events : io_event b x fd events → watched b x = false →
  ¬ ctl_timer b x ∧ idle_event (evs b !! x) ∧ (∀ e, evs b !! x = Some e → has EVLIST_FINALIZING (ev_flags e) = false).
Proof.
  intros Hio Hw. split; [apply Hio|]. split; [by eapply unwatched_idle|]. destruct Hio as (_ & e & He & _ & _ & _ & F & _).
  intros e' He'. rewrite He in He'. by injection He' as <-.
Qed.

Lemma bwp_base_then {A B C} (m1 : EM A) (m2 : EM B) (k : BM C) s Q :
  wp (m1;; m2) (base s) (λ _ b, bwp k (Bev_system b (bev s) (trace s)) Q) → bwp (on_base m1;; on_base m2;; k) s Q.
Proof.
  intros (a & b & E & H). unfold mbind, em_bind in E. destruct (m1 (base s)) as [[a1 b1]|] eqn:E1; [|done]. cbn in E.
  apply bwp_bind, bwp_base. exists a1, b1. split; [done|]. apply bwp_bind, bwp_base. by exists a, b.
Qed.

Lemma wp_then {A B C} (m1 : EM A) (m2 : EM B) (k : EM C) b (P : B → event_base → Prop) Q :
  wp (m1;; m2) b P → (∀ a b', P a b' → wp k b' Q) → wp (m1;; m2;; k) b Q.
Proof.
  intros (a & b' & E & H) Hk. unfold mbind, em_bind in E. destruct (m1 b) as [[a1 b1]|] eqn:E1; [|done]. cbn in E.
  apply wp_bind. exists a1, b1. split; [done|]. apply wp_bind. exists a, b'. split; [done|]. by eapply Hk.
Qed.

Lemma setfd_ok fd s :
  bev_ok s → connecting (status (bev s)) = false → fits (base s) fd →
  bwp (bufferevent_setfd mm backend fdinfo_len clock fd) s (λ r s', r = 0 ∧ bev_keeps s s').
Proof.
  intros Hok Hc [Hfd Hsz]. pose proof Hok as [[He Hst Hw] Hm Hf Hd]. unfold bufferevent_setfd, be_socket_setfd. apply bwp_bind, bwp_bind, bwp_ask.
  apply (both_deleted s (λ s', bwp (mret 0) s' (λ r s', r = 0 ∧ bev_keeps s s')) _ He Hst).
  intros s1 [E1 E2 (D1 & D2 & D3 & D4) E4] Hno Hz.
  apply bwp_bind, bwp_change, bwp_bind, bwp_change. cbn [bev base trace]. rewrite E2. set (v2 := with_output _ _).
  assert (Hok2 : bev_ok (Bev_system (base s) v2 (trace s))).
  { destruct s as [b v t]. apply (alike_ok b v); [|by apply Hst|done]. subst v2. split; try done; split; try done; by split. }
  destruct Hok2 as [[_ Hst2 _] Hm2 _ [C1 C2]]. cbn [bev trace] in *.
  destruct (events_side s1 reader E1) as (Hr1 & fd1 & Hio1), (events_side s1 writer E1) as (_ & fd2 & Hio2).
  pose proof (Hno reader) as Hno1. pose proof (Hno writer) as Hno2. unfold waiting, event_of in *. rewrite E2 in *.
  apply bwp_base_then. cbn [base bev trace].
  eapply wp_mono; [apply (both_assigned (ev_read (parts (bev s))) (ev_write (parts (bev s))) fd (base s1) Hr1 (sb_ne _ Hst)); [|lia|lia]|].
  { intros x [-> | ->]; eapply io_event_unwatched; eauto. }
  intros _ b3 (Hr3 & Hi3 & Hi4 & Hw3 & Hw4). apply bwp_bind, bwp_ask. cbn [bev]. set (s3 := Bev_system b3 v2 (trace s1)).
  rewrite (proj2 (Z.leb_le _ _)) by lia. cbn [bwhen]. apply bwp_bind.
  assert (He3 : events_ok s3) by (split; [done|split; by eexists]).
  eapply bwp_mono; [by apply enable_events|]. intros r s4 ([F1 F2 (G1 & G2 & G3 & G4) F4] & _ & H4). apply bwp_ret, bwp_ret. split; [done|].
  change (status (bev s3)) with (status v2) in *. rewrite Z.lor_diag in F2. cbn [bev s3] in F2.
  assert (E : set_enabled (enabled (status v2)) v2 = v2) by (by destruct v2 as [? ? ? ? ? ? []]). rewrite E in F2. cbn [trace s3] in G1, G2, G3, G4.
  assert (Hwait : refused (trace s4) = false → reading s4 = reads v2 ∧ writing s4 = writes v2).
  { intros Hn. destruct (H4 Hn) as (_ & -> & ->). unfold reading, writing. change (base s3) with b3. change (bev s3) with v2.
    change (parts v2) with (parts (bev s)). by rewrite Hw3, Hw4. }
  split; [|by rewrite F2..| |by rewrite F2|].
  - split; [split; [done|by rewrite F2|]|by rewrite F2| |].
    + intros Hn. rewrite F2. destruct (Hwait Hn) as [-> _]. split; [done|]. change (status v2) with (status (bev s)). by rewrite Hc.
    + intros Hn. rewrite F2. intros Hwr _. by destruct (Hwait Hn) as [_ ->].
    + unfold conserved. rewrite F2, G1, G2, G3, G4, D1, D2, D3, D4. done.
  - intros Hn. apply E4, F4, Hn.
  - intros _ Hn Hwr. right. rewrite F2. by destruct (Hwait Hn) as [_ <-].
Qed.

(** *** Connecting *)

(** The obligations for the socket that is to be connected. *)
Definition socket_fits (s : bev_system) (sock : Z) : Prop :=
  ∀ e, evs (base s) !! ev_read (parts (bev s)) = Some e → ev_fd e < 2 ^ 30 ∧ sock < 2 ^ 30 ∧ Z.of_nat (size (evs (base s))) + 3 < 2 ^ 31.

(** Writing has been enabled in the base, for the connection to be made. *)
Lemma begin_ok s :
  bev_ok s → connecting (status (bev s)) = false →
  bwp (e ← be_socket_enable mm backend fdinfo_len clock EV_WRITE;
       if e =? 0 then change (set_connecting true);; mret 0 else mret (-1)) s
    (λ r s', bev_leads s s' ∧ (r = 0 ∧ connecting (status (bev s')) = true ∨ r = -1 ∧ connecting (status (bev s')) = false) ∧ no_stray s').
Proof.
  intros Hok Hc. pose proof Hok as [[He Hst Hw] Hm Hf Hd]. apply bwp_bind. eapply bwp_mono; [by apply enable_ok|].
  intros r s1 ([E1 E2 (D1 & D2 & D3 & D4) E4] & Hr & H1).
  assert (Hw1 : refused (trace s1) = false → reading s1 = reading s ∧ writing s1 = true).
  { intros Hn. destruct (H1 Hn) as (_ & -> & ->). unfold has. cbn. by rewrite orb_false_r, orb_true_r. }
  destruct s1 as [b1 v1 t1]. cbn in E2, D1, D2, D3, D4, E4. subst v1.
  assert (Hok1 : ∀ c, (c = true ∨ refused t1 = true) → bev_ok (Bev_system b1 (set_connecting c (bev s)) t1) ∧ no_stray (Bev_system b1 (set_connecting c (bev s)) t1)).
  { intros c Hor. split; [split; [split; [exact E1|destruct Hst; by split|]|done| |]|].
    - intros Hn. cbn in Hn. destruct (Hw1 Hn) as [Hrd Hwr], (Hw (E4 Hn)) as [Hr0 _]. split; [|by intros _]. etrans; [exact Hrd|exact Hr0].
    - intros Hn _ _. by apply Hw1.
    - unfold conserved. cbn. by rewrite D1, D2, D3, D4.
    - intros Hn _. cbn in *. left. destruct Hor as [|Hr1]; [done|]. by rewrite Hr1 in Hn. }
  assert (Hleads : ∀ c, (c = true ∨ refused t1 = true) → bev_leads s (Bev_system b1 (set_connecting c (bev s)) t1)).
  { intros c Hor. split; [by apply Hok1|]. split; [done|]. split; [done|exact E4]. }
  destruct Hr as [-> | ->]; cbn [Z.eqb].
  - apply bwp_bind, bwp_change, bwp_ret. split; [apply Hleads; by left|]. split; [by left|]. apply Hok1. by left.
  - assert (Hr1 : refused t1 = true) by (destruct (refused t1) eqn:Er; [done|]; by destruct (H1 Er)).
    assert (Eb : set_connecting false (bev s) = bev s) by (destruct (bev s) as [? ? ? ? ? ? []]; cbn in *; by subst).
    apply bwp_ret. rewrite <- Eb. split; [apply Hleads; by right|]. split; [by right|]. apply Hok1. by right.
Qed.

(** evutil_socket_connect_ fails or is under way. *)
Lemma connect_ok sa sock r s :
  bev_ok s → no_stray s → connecting (status (bev s)) = false → r <= 0 → socket_fits s sock →
  bwp (bufferevent_socket_connect mm backend fdinfo_len clock user sa sock r) s
    (λ res s', bev_leads s s' ∧ (res = 0 ∨ res = -1) ∧ no_stray s' ∧ (connecting (status (bev s')) = true → res = 0)).
Proof.
  intros Hok Hst Hc Hr Hfits. pose proof (sb_ref _ (so_static _ (ok_sound _ Hok))) as Hn. unfold bufferevent_socket_connect.
  apply bwp_bind, bwp_change. pose proof (incref_ok s Hok) as Hok0. set (s0 := Bev_system _ _ _) in *.
  apply bwp_bind. unfold bufferevent_getfd. apply bwp_bind, bwp_ask. destruct (events_side s0 reader (so_events _ (ok_sound _ Hok0))) as (_ & fd0 & _ & e & He & Hfd & _).
  apply bwp_bind, bwp_base, (wp_get_event _ e); [exact He|]. apply bwp_ret. destruct (Hfits e He) as (Hf1 & Hf2 & Hsz).
  rewrite Hfd in *. cbn [base bev trace]. fold s0. apply bwp_bind.
  assert (Hkeep : ∀ s', bev_keeps s0 s' → bev_leads s0 s' ∧ no_stray s' ∧ connecting (status (bev s')) = false).
  { intros s' Hk. split; [by apply keeps_leads|]. split; [by apply (bk_stray _ _ Hk)|].
    destruct (connecting (status (bev s'))) eqn:E; [|done]. apply (bk_connecting _ _ Hk) in E. cbn in E. congruence. }
  eapply (bwp_mono _ _ (λ res s', bev_leads s0 s' ∧ (res = 0 ∨ res = -1) ∧ no_stray s' ∧ (connecting (status (bev s')) = true → res = 0))).
  2:{ intros res s' ((K1 & K2 & K3 & K4) & Hres & Hns & Hcn). cbn in K2, K3, K4. apply bwp_bind, decref_ok; [lia|]. apply bwp_ret.
      rewrite K3. replace (bev_refcnt (bev s) + 1 - 1) with (bev_refcnt (bev s)) by lia. destruct s' as [b' v' t'].
      split; [split; [|by split]|by split]. apply (alike_ok b' v'); [apply refcnt_alike|done|done]. }
  assert (Hquit : ∀ s', bev_keeps s0 s' → bwp (mret (-1) : BM Z) s' (λ res s', bev_leads s0 s' ∧ (res = 0 ∨ res = -1) ∧ no_stray s' ∧ (connecting (status (bev s')) = true → res = 0))).
  { intros s' Hk. destruct (Hkeep s' Hk) as (? & ? & Hcn). apply bwp_ret. split; [done|]. split; [by right|]. split; [done|]. by rewrite Hcn. }
  destruct ((fd0 <? 0) && (negb sa || (sock <? 0))) eqn:Eno; [by apply Hquit, bev_keeps_refl|].
  set (fd := if fd0 <? 0 then sock else fd0). assert (Hfd' : 0 <= fd < 2 ^ 30).
  { subst fd. destruct (Z.ltb_spec fd0 0); [|lia]. cbn [andb] in Eno. apply orb_false_iff in Eno as [_ E%Z.ltb_ge]. lia. }
  set (r' := if sa then r else 0). assert (r' <= 0) by (subst r'; destruct sa; lia).
  destruct (Z.ltb_spec r' 0) as [Hneg|Hz].
  - apply bwp_bind. eapply bwp_mono; [by apply run_eventcb_ok|]. intros [] s1 Hk1. by apply Hquit.
  - assert (r' = 0) as -> by lia. change (0 =? 0) with true. cbv iota. apply bwp_bind.
    eapply bwp_mono; [apply (setfd_ok fd s0); [done|done|by split]|]. intros z s1 (_ & Hk1). destruct (Hkeep s1 Hk1) as (Hl1 & _ & Hc1).
    eapply bwp_mono; [apply begin_ok; [apply Hk1|done]|]. intros res s2 (Hl2 & Hres & Hns). split; [by eapply leads_trans|].
    split; [tauto|]. split; [done|]. destruct Hres as [[-> _]|[_ E]]; [done|]. by rewrite E.
Qed.

(** *** Creation *)

Definition nothing_yet : bev_trace := Bev_trace [] [] [] [] 0 0 false 0.

(** Memory for the events and the deferred callback that nothing uses; callbacks are not deferred. *)
Definition may_create (b : event_base) (threads : bool) (r w c : nat) (fd opts : Z) : Prop :=
  r ≠ w ∧ (∀ x, x = r ∨ x = w → ¬ ctl_timer b x ∧ idle_event (evs b !! x) ∧
    (∀ e, evs b !! x = Some e → has EVLIST_FINALIZING (ev_flags e) = false)) ∧
  (∀ cb, cbs b !! c = Some cb → idle cb) ∧ fd < 2 ^ 30 ∧ Z.of_nat (size (evs b)) + 3 < 2 ^ 31 ∧
  has BEV_OPT_THREADSAFE opts && negb threads = false ∧
  has BEV_OPT_DEFER_CALLBACKS opts = false ∧ has BEV_OPT_UNLOCK_CALLBACKS opts = false.

Lemma new_static r w c opts :
  r ≠ w → has BEV_OPT_DEFER_CALLBACKS opts = false →
  static (Bufferevent (evbuffer_freeze evbuffer_new false) (evbuffer_freeze (evbuffer_add_cb evbuffer_new OUTBUF_CB 0) true)
    (Bev_parts r w c opts MAX_SINGLE_READ_DEFAULT MAX_SINGLE_WRITE_DEFAULT) (Bev_marks (Event_watermark 0 0) (Event_watermark 0 0) None)
    (Bev_callbacks None None None 0) (Bev_timeouts evutil_timerclear evutil_timerclear) (Bev_state EV_WRITE 0 0 false false)
    (Bev_pending false false 0 0) 1).
Proof.
  intros Hne Ho. pose proof wf_new as Hwf. split; try done; cbn. by left.
Qed.

Lemma socket_new_ok threads r w c fd opts b :
  at_rest b → may_create b threads r w c fd opts →
  wp (bufferevent_socket_new threads r w c fd opts) b (λ o b', ∃ v, o = Some v ∧
    bev_ok (Bev_system b' v nothing_yet) ∧ no_stray (Bev_system b' v nothing_yet) ∧ connecting (status v) = false).
Proof.
  intros Hr (Hne & Hx & Hcb & Hfd & Hsz & Hth & Hdf & Hul). pose proof (proj1 Hr) as [Hok _ _ Hq]. unfold bufferevent_socket_new, bufferevent_init_common_.
  rewrite Hth. assert (Hno : Z.land opts (Z.lor BEV_OPT_DEFER_CALLBACKS BEV_OPT_UNLOCK_CALLBACKS) = 0).
  { assert (H : has (Z.lor BEV_OPT_DEFER_CALLBACKS BEV_OPT_UNLOCK_CALLBACKS) opts = false) by by rewrite has_or, Hdf, Hul.
    unfold has in H. by apply negb_false_iff, Z.eqb_eq in H. }
  rewrite Hno. change (0 =? BEV_OPT_UNLOCK_CALLBACKS) with false. cbv iota. apply wp_bind, wp_bind, wp_gets, wp_bind.
  eapply wp_mono; [apply deferred_init_ok; [done|done|]|].
  { split; [apply Z.div_pos; lia|apply Z.div_lt; lia]. }
  intros [] b1 (Hok1 & Hrq & Hev).
  pose proof (rs_rest _ _ (keeps_rests _ _ Hr (keeps_requeues b b1 (at_rest_prog _ Hr) Hok1 Hrq Hev))) as Hr1.
  assert (Hct : ∀ x, ctl_timer b1 x ↔ ctl_timer b x) by (intros x; rewrite (ctl_timer_same b b1); [done|by rewrite (rq_common _ _ Hrq)]).
  apply wp_ret. eapply wp_then; [apply (both_assigned r w fd b1 Hr1 Hne); [|done|by rewrite Hev]|].
  { intros x Hor. rewrite Hct, Hev. by apply Hx. }
  intros _ b2 (Hr2 & Hi1 & Hi2 & Hw1 & Hw2). apply wp_ret. eexists. split; [reflexivity|].
  split; [|split; [|done]].
  - split; [split| | |].
    + split; [done|]. split; eexists; [exact Hi1|exact Hi2].
    + by apply new_static.
    + intros _. split; [exact Hw1|done].
    + done.
    + by intros _ _.
    + done.
  - intros _ Hwr. unfold writing in Hwr. cbn in Hwr. by rewrite Hw2 in Hwr.
Qed.

(** *** Calls *)

Lemma run_op_ok o s : bev_ok s → op_allowed s o → bwp (run_op o) s (λ _ s', bev_keeps s s').
Proof.
  intros Hok. destruct o; cbn [op_allowed run_op]; intros Ha.
  - apply bwp_bind. eapply bwp_mono; [by apply write_ok|]. intros r s' [H _]. by apply bwp_ret.
  - eapply bwp_mono; [by apply read_out_ok|]. by intros [r d] s' [H _].
  - apply bwp_bind. eapply bwp_mono; [by apply bev_enable_ok|]. intros r s' [H _]. by apply bwp_ret.
  - apply bwp_bind. eapply bwp_mono; [by apply bev_disable_ok|]. intros r s' [H _]. by apply bwp_ret.
  - apply bwp_bind. eapply bwp_mono; [by apply setwatermark_ok|]. intros r s' [H _]. by apply bwp_ret.
  - apply bwp_bind. eapply bwp_mono; [by apply setcb_ok|]. intros u s' [H _]. by apply bwp_ret.
  - destruct Ha as [Ha1 Ha2]. apply bwp_bind. eapply bwp_mono; [by apply setfd_ok|]. intros u s' [_ H]. by apply bwp_ret.
Qed.

Lemma run_ops_ok os s : bev_ok s → obeys_ops os s → bwp (run_ops os) s (λ _ s', bev_keeps s s').
Proof.
  revert s. induction os as [|o os IH]; intros s Hok Hob; [by apply bwp_ret, bev_keeps_refl|]. destruct Hob as [Ha Hob]. cbn [run_ops].
  destruct (run_op_ok o s Hok Ha) as (a & s1 & E & Hk). apply bwp_bind. exists a, s1. split; [done|].
  eapply bwp_mono; [apply IH; [apply Hk|by eapply Hob]|]. intros u s2 Hk2. by eapply bev_keeps_trans.
Qed.
End system.

(** ** Whole runs *)

Section runs.
Context (mm : nat → Z → bool) (backend : history → backend_call → bool) (fdinfo_len : Z) (clock : nat → timeval).
Context (alloc : nat → Z → option (nat → byte)) (fionread : nat → Z) (readv : nat → Z → option (list byte))
  (writev : nat → list byte → Z) (error : nat → Z) (finished_connecting : nat → Z).
(** What the callbacks of the application call when they see the bufferevent. *)
Context (app : nat → bev_call → bufferevent → list bev_op).

Definition runs_app : nat → bev_call → BM unit := λ k i s,
  run_ops mm backend fdinfo_len clock alloc (app k i (bev s)) s.
Abbreviation connect := (bufferevent_socket_connect mm backend fdinfo_len clock runs_app).
Abbreviation on_readable := (bufferevent_readcb mm backend fdinfo_len clock alloc fionread readv error runs_app EV_READ).
Abbreviation on_writable := (bufferevent_writecb mm backend fdinfo_len clock writev error finished_connecting runs_app EV_WRITE).

(** The program calls an operation or connects; the event loop runs the callback of an event that
    waits; the rest of the event base changes. *)
Inductive bev_move : bev_system → bev_system → Prop :=
  | move_call o a s s' : op_allowed s o → run_op mm backend fdinfo_len clock alloc o s = Some (a, s') → bev_move s s'
  | move_connect sa sock r a s s' :
      connecting (status (bev s)) = false → r <= 0 → socket_fits s sock → connect sa sock r s = Some (a, s') → bev_move s s'
  | move_trigger iotype opts a s s' :
      has BEV_OPT_DEFER_CALLBACKS opts = false → bufferevent_trigger backend runs_app iotype opts s = Some (a, s') → bev_move s s'
  | move_readable s s' :
      reading s = true → total_len (input (bev s)) + EVBUFFER_MAX_READ <= SIZE_MAX → on_readable s = Some (tt, s') → bev_move s s'
  | move_writable s s' : writing s = true → on_writable s = Some (tt, s') → bev_move s s'
  | move_elsewhere b' s :
      at_rest b' → (∀ d fd, io_event (base s) (event_of d (bev s)) fd (events_of d) →
        io_event b' (event_of d (bev s)) fd (events_of d) ∧ watched b' (event_of d (bev s)) = watched (base s) (event_of d (bev s))) →
      bev_move s (Bev_system b' (bev s) (trace s)).

Hypothesis clock_good : clock_ok clock.
Hypothesis kernel_good : kernel_ok readv writev finished_connecting.
(** The callbacks keep to the documented obligations. *)
Hypothesis app_obeys : ∀ k i s, bev_ok s → obeys_ops mm backend fdinfo_len clock alloc (app k i (bev s)) s.

Lemma runs_app_ok : user_ok runs_app.
Proof. intros k i s Hok. unfold runs_app. apply run_ops_ok; [done|done|by apply app_obeys]. Qed.

Lemma bev_trigger_ok iotype opts s :
  bev_ok s → has BEV_OPT_DEFER_CALLBACKS opts = false → bwp (bufferevent_trigger backend runs_app iotype opts) s (λ _ s', bev_keeps s s').
Proof.
  intros Hok Ho. unfold bufferevent_trigger.
  eapply bwp_mono; [eapply (with_reference_ok backend s _ (λ _, True)); [done|]|by intros a s' [? _]]. intros s0 Hok0.
  eapply bwp_mono; [apply trigger_ok; [exact runs_app_ok|done|]|by intros a s'].
  set (m := Z.lor BEV_TRIG_IGNORE_WATERMARKS BEV_OPT_DEFER_CALLBACKS). change BEV_OPT_DEFER_CALLBACKS with (2 ^ 2) in *.
  rewrite has_testbit in Ho |- * by done. by rewrite Z.land_spec, Ho.
Qed.

(** The invariant of a run. *)
Definition bev_inv (s : bev_system) : Prop := bev_ok s ∧ no_stray s.

Lemma keeps_inv s s' : bev_inv s → bev_keeps s s' → bev_inv s'.
Proof. intros [_ H] []. split; auto. Qed.

Lemma answers {A} (m : BM A) s a s' (Q : A → bev_system → Prop) : m s = Some (a, s') → bwp m s Q → Q a s'.
Proof. intros E (a' & s2 & E' & H). rewrite E in E'. by simplify_eq. Qed.

Lemma move_keeps s s' : bev_inv s → bev_move s s' → bev_inv s'.
Proof.
  intros Hi Hm. pose proof Hi as [Hok Hst]. destruct Hm as [o a s s' Ha E|sa sock r a s s' Hc Hr Hf E|iot opts a s s' Ho E|s s' Hr Hroom E|s s' Hw E|b' s Hr Hsame].
  - apply (keeps_inv s); [done|]. by apply (answers _ _ _ _ (λ _ s', bev_keeps s s') E), run_op_ok.
  - destruct (answers _ _ _ _ _ E (connect_ok mm backend fdinfo_len clock runs_app clock_good runs_app_ok sa sock r s Hok Hst Hc Hr Hf)) as ((? & _) & _ & ? & _). by split.
  - apply (keeps_inv s); [done|]. by apply (answers _ _ _ _ (λ _ s', bev_keeps s s') E), bev_trigger_ok.
  - apply (keeps_inv s); [done|]. apply (answers _ _ _ _ (λ _ s', bev_keeps s s') E), (readcb_ok mm backend fdinfo_len clock alloc fionread readv writev error finished_connecting runs_app clock_good kernel_good runs_app_ok EV_READ s Hok Hroom).
  - apply (keeps_inv s); [done|]. apply (answers _ _ _ _ (λ _ s', bev_keeps s s') E), (writecb_ok mm backend fdinfo_len clock readv writev error finished_connecting runs_app clock_good kernel_good runs_app_ok EV_WRITE s Hok).
  - destruct Hok as [[[_ He] Hs Hw] Hm Hf Hd]. unfold event_of, events_of in Hsame.
    destruct He as [[fd1 He1] [fd2 He2]]. destruct (Hsame reader fd1 He1) as [Hi1 Hw1], (Hsame writer fd2 He2) as [Hi2 Hw2].
    split; [split; [split; [|done|]|done| |done]|]; unfold waits_ok, flows, no_stray, reading, writing, events_ok in *; cbn in *; rewrite ?Hw1, ?Hw2; eauto.
Qed.

Lemma moves_keep s s' : bev_inv s → rtc bev_move s s' → bev_inv s'.
Proof. intros H Hr. induction Hr; [done|]. by apply IHHr, (move_keeps x). Qed.

(** What holds at every time. *)
Definition reliable (s : bev_system) : Prop :=
  received (trace s) = consumed (trace s) ++ bytes (input (bev s)) ∧
  given (trace s) = sent (trace s) ++ bytes (output (bev s)) ∧
  (refused (trace s) = false →
    reading s = has EV_READ (enabled (status (bev s))) && negb (full (bev s)) ∧
    (writing s = true → connecting (status (bev s)) = true ∨ has EV_WRITE (enabled (status (bev s))) = true) ∧
    (connecting (status (bev s)) = true → writing s = true) ∧
    (has EV_WRITE (enabled (status (bev s))) = true → bytes (output (bev s)) ≠ [] → writing s = true)).

Lemma inv_reliable s : bev_inv s → reliable s.
Proof.
  intros [[[He Hs Hw] Hm Hf [Hd1 Hd2]] Hst]. split; [done|]. split; [done|]. intros Hn. destruct (Hw Hn) as [Hr Hc].
  split; [|split; [by apply Hst|split; [done|by apply Hf]]]. rewrite Hr. unfold reads. unfold at_mark in Hm. rewrite Hm. by destruct (full (bev s)).
Qed.

(** C10. A bufferevent on a socket, without deferred or unlocked callbacks and without timeouts, neither
    loses nor invents data, and does not stall.  The program may write, read, enable and disable, set
    watermarks, callbacks and the socket, from its callbacks, too, and also trigger callbacks, and connect
    when the connection is not made at once; it keeps to [op_allowed] (the output below 2 GB, no other
    socket while connecting), does not free or flush the bufferevent, and the input stays below
    SIZE_MAX.  Then, whatever comes from the socket, each of these operations and each callback of an
    event returns; what was received is what the application has read and the input buffer, what was
    given is what has been sent and the output buffer, in order; and unless the base has refused an event
    or the connection has failed, the socket is watched for reading exactly while reading is enabled and
    the input is below the high watermark, and for writing whenever writing is enabled and there is
    output.  (A connection that is made at once is left out because it may never be reported:
    [connection_not_reported].) *)
Theorem bufferevent_reliable threads r w c fd opts b :
  at_rest b → may_create b threads r w c fd opts →
  ∃ v b', bufferevent_socket_new threads r w c fd opts b = Some (Some v, b') ∧
    ∀ s, rtc bev_move (Bev_system b' v nothing_yet) s →
      reliable s ∧
      (∀ o, op_allowed s o → is_Some (run_op mm backend fdinfo_len clock alloc o s)) ∧
      (total_len (input (bev s)) + EVBUFFER_MAX_READ <= SIZE_MAX → is_Some (on_readable s)) ∧
      is_Some (on_writable s).
Proof.
  intros Hr Hm. destruct (socket_new_ok threads r w c fd opts b Hr Hm) as (o & b' & E & v & -> & Hok & Hst & _).
  exists v, b'. split; [done|]. intros s Hrun. pose proof (moves_keep _ _ (conj Hok Hst) Hrun) as Hi. pose proof Hi as [Hok' _].
  split; [by apply inv_reliable|].
  assert (Hsome : ∀ {A} (m : BM A) (Q : A → bev_system → Prop), bwp m s Q → is_Some (m s)) by (intros A m Q (a & s' & H & _); by eauto).
  split; [intros op Ha; by eapply Hsome, run_op_ok|].
  split; [intros Hroom; eapply Hsome, (readcb_ok mm backend fdinfo_len clock alloc fionread readv writev error finished_connecting runs_app clock_good kernel_good runs_app_ok EV_READ s Hok' Hroom)|].
  eapply Hsome, (writecb_ok mm backend fdinfo_len clock readv writev error finished_connecting runs_app clock_good kernel_good runs_app_ok EV_WRITE s Hok').
Qed.
End runs.

(** A program that sends back what it receives. *)
Definition echo (k : nat) (i : bev_call) (v : bufferevent) : list bev_op :=
  match i with
  | data_read _ _ =>
      let d := take 1000 (bytes (input v)) in
      if Zlen (bytes (output v)) + Zlen d <=? INT_MAX then [op_write d; op_read 1000] else []
  | _ => []
  end.

Lemma echo_obeys mm backend fdinfo_len clock alloc k i s :
  obeys_ops mm backend fdinfo_len clock alloc (echo k i (bev s)) s.
Proof.
  destruct i; try done. cbn [echo]. destruct (Z.leb_spec (Zlen (bytes (output (bev s))) + Zlen (take 1000 (bytes (input (bev s))))) INT_MAX); [|done].
  split; [done|]. intros a s' _. by split.
Qed.

(** Three bytes arrive, then nothing; everything is taken. *)
Definition ping : list byte := [Byte.x70; Byte.x6e; Byte.x67].
Definition ping_readv (k : nat) (n : Z) : option (list byte) := Some (take (Z.to_nat n) (if (k =? 0)%nat then ping else [])).
Definition take_all (k : nat) (d : list byte) : Z := Zlen d.
Definition new_memory (k : nat) (n : Z) : option (nat → byte) := Some (λ _, Byte.x00).

Abbreviation echo_op := (run_op grants accepts 0 ticking new_memory).
Definition echo_steps (s : bev_system) : option bev_system :=
  '(_, s) ← echo_op (op_setcb (Some 1%nat) None None 0) s;
  '(_, s) ← echo_op (op_enable EV_READ) s;
  if reading s && (total_len (input (bev s)) + EVBUFFER_MAX_READ <=? SIZE_MAX) then
    '(_, s) ← bufferevent_readcb grants accepts 0 ticking new_memory (λ _, 0) ping_readv (λ _, 0)
      (runs_app grants accepts 0 ticking new_memory echo) EV_READ s;
    if writing s then
      '(_, s) ← bufferevent_writecb grants accepts 0 ticking take_all (λ _, 0) (λ _, 1)
        (runs_app grants accepts 0 ticking new_memory echo) EV_WRITE s;
      Some s
    else None
  else None.

Lemma ping_ok : kernel_ok ping_readv take_all (λ _, 1).
Proof.
  split; [|split; [unfold take_all; intros; lia|done]]. intros k n d Hn [= <-]. rewrite length_take. lia.
Qed.

Lemma new_rest : at_rest event_base_new.
Proof. apply at_rest_intro; [split; [apply api_new|apply live_new]|done]. Qed.

Lemma bufferevent_reliable_witness :
  ∃ v b s, bufferevent_socket_new false 0 1 0 7 0 event_base_new = Some (Some v, b) ∧ echo_steps (Bev_system b v nothing_yet) = Some s ∧
    reliable s ∧ sent (trace s) = ping ∧ refused (trace s) = false ∧ reading s = true ∧ writing s = false.
Proof.
  assert (Hm : may_create event_base_new false 0 1 0 7 0).
  { split; [done|]. split; [|by split_and!]. intros x _. split; [|split; intros ? ?; done].
    intros (ctl & Hin & _). by apply elem_of_nil in Hin. }
  destruct (bufferevent_reliable grants accepts 0 ticking new_memory (λ _, 0) ping_readv take_all (λ _, 0) (λ _, 1) echo
    ticking_ok ping_ok (λ k i s _, echo_obeys grants accepts 0 ticking new_memory k i s) false 0 1 0 7 0 event_base_new new_rest Hm) as (v & b & E & Hreach).
  assert (Hrun : match bufferevent_socket_new false 0 1 0 7 0 event_base_new with
    | Some (Some v, b) => match echo_steps (Bev_system b v nothing_yet) with
        | Some s => bool_decide (sent (trace s) = ping) && negb (refused (trace s)) && reading s && negb (writing s)
        | None => false end
    | _ => false end = true) by (vm_compute; reflexivity).
  rewrite E in Hrun. destruct (echo_steps (Bev_system b v nothing_yet)) as [s|] eqn:Es; [|discriminate Hrun].
  exists v, b, s. split; [exact E|]. split; [exact Es|].
  apply andb_true_iff in Hrun as [[[H1%bool_decide_eq_true H2%negb_true_iff]%andb_true_iff H3]%andb_true_iff H4%negb_true_iff].
  split; [|auto]. apply Hreach. unfold echo_steps in Es.
  destruct (echo_op (op_setcb _ _ _ _) _) as [[a1 s1]|] eqn:E1; [|discriminate Es]. cbn [mbind option_bind] in Es.
  destruct (echo_op (op_enable _) _) as [[a2 s2]|] eqn:E2; [|discriminate Es]. cbn [mbind option_bind] in Es.
  destruct (reading s2) eqn:Er; [|discriminate Es]. destruct (_ <=? SIZE_MAX) eqn:El; [|discriminate Es]. cbn [andb] in Es.
  destruct (bufferevent_readcb _ _ _ _ _ _ _ _ _ _ _) as [[[] s3]|] eqn:E3; [|discriminate Es]. cbn [mbind option_bind] in Es.
  destruct (writing s3) eqn:Ew; [|discriminate Es].
  destruct (bufferevent_writecb _ _ _ _ _ _ _ _ _ _) as [[[] s4]|] eqn:E4; [|discriminate Es]. injection Es as <-.
  eapply rtc_l; [eapply move_call; [|exact E1]; exact I|]. eapply rtc_l; [eapply move_call; [|exact E2]; exact I|].
  eapply rtc_l; [eapply move_readable; [exact Er|by apply Z.leb_le|exact E3]|].
  apply rtc_once. by eapply move_writable.
Defined.

(** A connection that is made at once while writing is disabled: bufferevent_socket_connect answers 0
    and counts on ev_write to report it, but only the other branch adds that event.  The program is
    never told that it is connected. *)
Definition connected_at_once : option (Z * bev_system) :=
  '(o, b) ← bufferevent_socket_new false 0 1 0 7 0 event_base_new;
  v ← o;
  '(_, s) ← echo_op (op_setcb None None (Some 3%nat) 0) (Bev_system b v nothing_yet);
  '(_, s) ← echo_op (op_disable EV_WRITE) s;
  bufferevent_socket_connect grants accepts 0 ticking (runs_app grants accepts 0 ticking new_memory echo) true (-1) 1 s.

Lemma connection_not_reported :
  from_option (λ '(r, s), (r =? 0) && connecting (status (bev s)) && negb (writing s) && negb (refused (trace s)) &&
    (calls (trace s) =? 0)%nat) false connected_at_once = true.
Proof. vm_compute. reflexivity. Qed.
