(* ===== verification/LibeventHandle.v ===== *)
(** * The network handle (class LibeventHandle, multi_net_io/src/libevent_handle.cc and
    include/libevent_handle.h)

    Connections are kept in a map from an id to the connection's data; messages are
    framed by a four-byte size.  The buffers of a connection are any [ByteStream].  The
    functions run on one thread here: a lock that is not free makes the thread spin for
    ever, which is [None], like undefined behaviour. *)

From stdpp Require Import sorting.
From S2P Require Import Prelude RwLock ByteStream.

Section LibeventHandle.
Context {S : Type} `{!ByteStream S}.

Definition sizeof_BufferControlBlock : Z := 4.

Record BevInfor := mkInfo {
  ip : list byte;
  port : Z;
  bev : Z;                   (* the bufferevent's address *)
  input : S;                 (* bufferevent_get_input(bev) *)
  output : S;                (* bufferevent_get_output(bev) *)
  read_watermark : Z;        (* the low watermark of EV_READ *)
  is_listen : bool;
  block_size : Z;            (* block.size *)
  cache_block : bool;
  read_singal : Z;
  write_singal : Z
}.

Record t := mkHandle {
  isFree : bool;
  local_port : Z;
  max_bev_id : Z;
  bev_map_rw_lock_singal : Z;
  bev_map : gmap Z BevInfor;
  listen_vector_rw_lock_singal : Z;
  listen_id_vector : list Z;
  callback_set : bool        (* callback_funtion != NULL *)
}.

Definition set_io (i : BevInfor) (inp : S) (wm blk : Z) (cache : bool) (rsig : Z) : BevInfor :=
  mkInfo (ip i) (port i) (bev i) inp (output i) wm (is_listen i) blk cache rsig (write_singal i).

Definition set_input (i : BevInfor) (inp : S) : BevInfor :=
  set_io i inp (read_watermark i) (block_size i) (cache_block i) (read_singal i).

Definition set_read_singal (i : BevInfor) (z : Z) : BevInfor :=
  set_io i (input i) (read_watermark i) (block_size i) (cache_block i) z.

Definition set_output (i : BevInfor) (o : S) (wsig : Z) : BevInfor :=
  mkInfo (ip i) (port i) (bev i) (input i) o (read_watermark i) (is_listen i) (block_size i)
    (cache_block i) (read_singal i) wsig.

Definition set_map (h : t) (lock : Z) (m : gmap Z BevInfor) : t :=
  mkHandle (isFree h) (local_port h) (max_bev_id h) lock m (listen_vector_rw_lock_singal h)
    (listen_id_vector h) (callback_set h).

Definition set_info (h : t) (id : Z) (i : BevInfor) : t :=
  set_map h (bev_map_rw_lock_singal h) (<[id := i]> (bev_map h)).

Definition set_listen (h : t) (lock : Z) (v : list Z) : t :=
  mkHandle (isFree h) (local_port h) (max_bev_id h) (bev_map_rw_lock_singal h) (bev_map h)
    lock v (callback_set h).

(** ** Framed reads and writes on one connection *)

(** [bufferevent_read(info.bev, data, n)] *)
Definition bufferevent_read (i : BevInfor) (n : Z) : option (Z * list byte * BevInfor) :=
  '(r, d, s) ← str_remove (input i) (uint64 n); Some (r, d, set_input i s).

(** [int len = evbuffer_get_length(input)] *)
Definition evbuffer_len (s : S) : Z := int32 (str_length s).

Definition readBufferControlBlock_NoWait (info : BevInfor) : option (Z * BevInfor) :=
  l ← rw_w_lock (read_singal info);
  let info := set_read_singal info l in
  let len := evbuffer_len (input info) in
  if uint64 len <? sizeof_BufferControlBlock then
    Some (0, set_read_singal info (rw_w_unlock (read_singal info)))
  else
    let info := set_io info (input info) (read_watermark info) 0 true (read_singal info) in
    '(read_size, d, info) ← bufferevent_read info sizeof_BufferControlBlock;
    if read_size <? 0 then
      Some (-1, set_read_singal info (rw_w_unlock (read_singal info)))
    else
      (* the bytes stored over the zeroed block *)
      blk ← splice (le_bytes 4 0) 0 d;
      Some (read_size, set_io info (input info) (read_watermark info) (int32 (le_val blk))
              (cache_block info) (read_singal info)).

(** The bytes stored through [data] come back with the result. *)
Definition readBuffer_NoWait (info : BevInfor) : option (Z * list byte * BevInfor) :=
  if negb (cache_block info) then Some (-1, [], info)
  else
    let max_size := block_size info in
    let len := evbuffer_len (input info) in
    if len <? max_size then
      let info := set_read_singal info (rw_w_unlock (read_singal info)) in
      Some (0, [], set_io info (input info) max_size (block_size info) (cache_block info)
                     (read_singal info))
    else
      let info := set_io info (input info) 0 (block_size info) (cache_block info) (read_singal info) in
      '(read_size, d, info) ← bufferevent_read info max_size;
      if read_size <? 0 then
        Some (-1, d, set_read_singal info (rw_w_unlock (read_singal info)))
      else
        let info := set_io info (input info) (read_watermark info) (block_size info) false
                      (read_singal info) in
        Some (read_size, d, set_read_singal info (rw_w_unlock (read_singal info))).

(** The blocking variants: the data that arrives during the successive [sleep]s is
    [arrivals]; [None] when the thread is still waiting after them.  [small len] is the
    loop's condition. *)
Fixpoint wait_length (small : Z → bool) (arrivals : list (list byte)) (s : S) :
    option (list (list byte) * S) :=
  if negb (small (evbuffer_len s)) then Some (arrivals, s)
  else
    match arrivals with
    | [] => None
    | d :: arrivals =>
        '(_, s) ← str_add s d; wait_length small arrivals s
    end.

Definition readBufferControlBlock_Wait (arrivals : list (list byte)) (info : BevInfor) :
    option (Z * BevInfor * list (list byte)) :=
  l ← rw_w_lock (read_singal info);
  let info := set_read_singal info l in
  '(arrivals, s) ← wait_length (λ len, uint64 len <? sizeof_BufferControlBlock) arrivals (input info);
  let info := set_io info s (read_watermark info) 0 true (read_singal info) in
  '(read_size, d, info) ← bufferevent_read info sizeof_BufferControlBlock;
  if read_size <? 0 then
    Some (-1, set_read_singal info (rw_w_unlock (read_singal info)), arrivals)
  else
    blk ← splice (le_bytes 4 0) 0 d;
    Some (read_size, set_io info (input info) (read_watermark info) (int32 (le_val blk))
            (cache_block info) (read_singal info), arrivals).

Definition readBuffer_Wait (arrivals : list (list byte)) (info : BevInfor) :
    option (Z * list byte * BevInfor) :=
  if negb (cache_block info) then Some (-1, [], info)
  else
    let max_size := block_size info in
    (* do { sleep } while (len < max_size): at least one sleep *)
    '(arrivals, s) ← match arrivals with
                      | [] => None
                      | d :: arrivals => '(_, s) ← str_add (input info) d; Some (arrivals, s)
                      end;
    '(_, s) ← wait_length (λ len, len <? max_size) arrivals s;
    '(read_size, d, info) ← bufferevent_read (set_input info s) max_size;
    if read_size <? 0 then
      Some (-1, d, set_read_singal info (rw_w_unlock (read_singal info)))
    else
      let info := set_read_singal info (rw_w_unlock (read_singal info)) in
      Some (read_size, d, set_io info (input info) (read_watermark info) (block_size info) false
              (read_singal info)).

(** [writeBufferOnce]: the size block, then the data. *)
Definition writeBufferOnce (info : BevInfor) (data : list byte) (data_size : Z) :
    option (bool * BevInfor) :=
  l ← rw_w_lock (write_singal info);
  '(r, o) ← str_add (output info) (le_bytes 4 data_size);
  if r <? 0 then Some (false, set_output info o (rw_w_unlock l))
  else
    d ← slice data 0 data_size;
    '(r, o) ← str_add o d;
    if r <? 0 then Some (false, set_output info o (rw_w_unlock l))
    else Some (true, set_output info o (rw_w_unlock l)).

(** ** Operations on the handle *)

(** [init_handle(port)]; [base_ok]: event_base_new succeeded. *)
Definition init_handle (h : t) (base_ok : bool) (p : Z) : bool * t :=
  if base_ok then
    (true, mkHandle false p 0 0 (bev_map h) 0 (listen_id_vector h) false)
  else
    (false, mkHandle false (local_port h) (max_bev_id h) (bev_map_rw_lock_singal h) (bev_map h)
              (listen_vector_rw_lock_singal h) (listen_id_vector h) (callback_set h)).

Definition set_event_callback (h : t) : t :=
  mkHandle (isFree h) (local_port h) (max_bev_id h) (bev_map_rw_lock_singal h) (bev_map h)
    (listen_vector_rw_lock_singal h) (listen_id_vector h) true.

Definition is_free (h : t) : bool := isFree h.
Definition is_init (h : t) : bool := negb (isFree h).
Definition get_connection_count (h : t) : Z := Z.of_nat (size (bev_map h)).

(** A new connection's data; [cache_block] and [block] are not initialised, their
    values are [junk]. *)
Definition new_info (ipv : list byte) (p b : Z) (listen : bool) (junk : bool * Z) : BevInfor :=
  mkInfo ipv p b str_new str_new 0 listen (snd junk) (fst junk) 0 0.

(** Storing a new connection under the next id, then [set_connection_cb].  max_bev_id is an atomic
    int, which wraps around. *)
Definition add_info (h : t) (i : BevInfor) : option (Z * t) :=
  let peer_id := max_bev_id h in
  let h := mkHandle (isFree h) (local_port h) (int32 (max_bev_id h + 1)) (bev_map_rw_lock_singal h)
             (bev_map h) (listen_vector_rw_lock_singal h) (listen_id_vector h) (callback_set h) in
  l ← rw_w_lock (bev_map_rw_lock_singal h);
  Some (peer_id, set_map h (rw_w_unlock l) (<[peer_id := i]> (bev_map h))).

(** [b]: the result of bufferevent_socket_new; [rc]: of bufferevent_socket_connect. *)
Definition add_bufferevent_connect (h : t) (ipv : list byte) (p : Z) (b : option Z) (rc : Z)
    (junk : bool * Z) : option (Z * t) :=
  match b with
  | None => Some (-1, h)
  | Some b =>
      if rc <? 0 then Some (-1, h)
      else add_info h (new_info ipv p b false junk)
  end.

Definition add_bufferevent_listen (h : t) (ipv : list byte) (p b : Z) (junk : bool * Z) :
    option (Z * t) :=
  '(peer_id, h) ← add_info h (new_info ipv p b true junk);
  l ← rw_w_lock (listen_vector_rw_lock_singal h);
  Some (peer_id, set_listen h (rw_w_unlock l) (listen_id_vector h ++ [peer_id])).

Definition try_connect (h : t) (ipv : list byte) (p : Z) (b : option Z) (rc : Z)
    (junk : bool * Z) : option (Z * t) :=
  add_bufferevent_connect h ipv p b rc junk.

(** [listen_id_vector.erase(listen_id_vector.begin() + id)] *)
Definition erase_at (v : list Z) (i : Z) : option (list Z) :=
  if (0 <=? i) && (i <? Zlen v) then Some (take (Z.to_nat i) v ++ drop (Z.to_nat i + 1) v)
  else None.

Definition remove_buffevent (h : t) (id : Z) : option (Z * t) :=
  l ← rw_w_lock (bev_map_rw_lock_singal h);
  match bev_map h !! id with
  | None => Some (-1, set_map h (rw_w_unlock l) (bev_map h))
  | Some info =>
      h ← (if is_listen info then
             ll ← rw_w_lock (listen_vector_rw_lock_singal h);
             v ← erase_at (listen_id_vector h) id;
             Some (set_listen h (rw_w_unlock ll) v)
           else Some h);
      Some (id, set_map h (rw_w_unlock l) (delete id (bev_map h)))
  end.

(** [free_handle]; [while(bev_map.empty())] takes the first element of an empty map. *)
Definition free_handle (h : t) : option (bool * t) :=
  if isFree h then Some (false, h)
  else
    l ← rw_w_lock (bev_map_rw_lock_singal h);
    if decide (bev_map h = ∅) then None
    else
      Some (true, mkHandle true (local_port h) (max_bev_id h) (rw_w_unlock l) ∅
                    (listen_vector_rw_lock_singal h) [] (callback_set h)).

(** [send]; when the id is unknown the function returns without [rw_r_unlock]. *)
Definition send (h : t) (id : Z) (data : list byte) (n : Z) : option (bool * t) :=
  if id <? 0 then Some (false, h)
  else
    l ← rw_r_lock (bev_map_rw_lock_singal h);
    match bev_map h !! id with
    | None => Some (false, set_map h l (bev_map h))
    | Some info =>
        '(_, info) ← writeBufferOnce info data n;
        Some (true, set_info (set_map h (rw_r_unlock l) (bev_map h)) id info)
    end.

(** Looking a connection up under the read lock. *)
Definition find_info (h : t) (id : Z) : option (option BevInfor * t) :=
  l ← rw_r_lock (bev_map_rw_lock_singal h);
  Some (bev_map h !! id, set_map h (rw_r_unlock l) (bev_map h)).

Definition get_recive_buffer_length (h : t) (id : Z) : option (Z * t) :=
  '(o, h) ← find_info h id;
  match o with
  | None => Some (0, h)
  | Some info =>
      rl ← rw_r_lock (read_singal info);
      Some (evbuffer_len (input info), set_info h id (set_read_singal info (rw_r_unlock rl)))
  end.

(** [buffer_str.length() <= block.size] compares as [size_t]; an [append] of a negative
    size throws. *)
Definition grow_str (buffer_str : list byte) (n : Z) : option (list byte) :=
  if Zlen buffer_str <=? uint64 n then
    if n <? 0 then None else Some (buffer_str ++ replicate (Z.to_nat n) x00)
  else Some buffer_str.

Definition recive_str_NoWait (h : t) (id : Z) (buffer_str : list byte) :
    option (Z * list byte * t) :=
  '(o, h) ← find_info h id;
  match o with
  | None => Some (-1, buffer_str, h)
  | Some _ =>
      '(len, h) ← get_recive_buffer_length h id;
      if uint64 len <=? sizeof_BufferControlBlock then Some (0, buffer_str, h)
      else
        info ← bev_map h !! id;
        info ← (if negb (cache_block info)
                then '(_, i) ← readBufferControlBlock_NoWait info; Some i else Some info);
        buffer_str ← grow_str buffer_str (block_size info);
        '(r, d, info) ← readBuffer_NoWait info;
        buffer_str ← splice (buffer_str ++ [x00]) 0 d;
        Some (r, take (length buffer_str - 1) buffer_str, set_info h id info)
  end.

Definition recive_str_Wait (arrivals : list (list byte)) (h : t) (id : Z) (buffer_str : list byte) :
    option (Z * list byte * t) :=
  '(o, h) ← find_info h id;
  match o with
  | None => Some (-1, buffer_str, h)
  | Some info =>
      '(_, info, arrivals) ← readBufferControlBlock_Wait arrivals info;
      buffer_str ← grow_str buffer_str (block_size info);
      '(r, d, info) ← readBuffer_Wait arrivals info;
      buffer_str ← splice (buffer_str ++ [x00]) 0 d;
      Some (r, take (length buffer_str - 1) buffer_str, set_info h id info)
  end.

(** [wait_recive]; the bytes stored through [recive_bytes]. *)
Definition wait_recive (arrivals : list (list byte)) (h : t) (id : Z) :
    option (Z * list byte * t) :=
  '(o, h) ← find_info h id;
  match o with
  | None => Some (-1, [], h)
  | Some info =>
      '(_, info, arrivals) ← readBufferControlBlock_Wait arrivals info;
      '(r, d, info) ← readBuffer_Wait arrivals info;
      Some (r, d, set_info h id info)
  end.

Definition get_listen_connection_count (h : t) : option (Z * t) :=
  l ← rw_r_lock (listen_vector_rw_lock_singal h);
  Some (Zlen (listen_id_vector h), set_listen h (rw_r_unlock l) (listen_id_vector h)).

Definition get_listen_connection_array (h : t) : option (list Z * t) :=
  l ← rw_r_lock (listen_vector_rw_lock_singal h);
  Some (listen_id_vector h, set_listen h (rw_r_unlock l) (listen_id_vector h)).

(** The entries of the map in the order of their ids. *)
Definition key_le (x y : Z * BevInfor) : Prop := fst x <= fst y.
#[export] Instance key_le_dec : RelDecision key_le := λ x y, Z.le_dec (fst x) (fst y).
Definition entries (h : t) : list (Z * BevInfor) := merge_sort key_le (map_to_list (bev_map h)).

Definition get_connection_id_addr (h : t) (ipv : list byte) (p : Z) (tryConnect : bool)
    (b : option Z) (rc : Z) (junk : bool * Z) : option (Z * t) :=
  l ← rw_r_lock (bev_map_rw_lock_singal h);
  match find (λ e, bool_decide (ip (snd e) = ipv) && (p =? port (snd e))) (entries h) with
  | Some (id, _) => Some (id, set_map h (rw_r_unlock l) (bev_map h))
  | None =>
      let h := set_map h (rw_r_unlock l) (bev_map h) in
      if tryConnect then try_connect h ipv p b rc junk else Some (-1, h)
  end.

(** The overload on a bufferevent; a missing entry runs off the end of the function. *)
Definition get_connection_id_bev (h : t) (b : Z) : option (Z * t) :=
  l ← rw_r_lock (bev_map_rw_lock_singal h);
  match find (λ e, bev (snd e) =? b) (entries h) with
  | Some (id, _) => Some (id, set_map h (rw_r_unlock l) (bev_map h))
  | None => None
  end.

(** [bev_map[id]] on a missing id creates an entry; [dflt] is what it holds. *)
Definition get_connection_ip (dflt : BevInfor) (h : t) (id : Z) : option (list byte * t) :=
  l ← rw_r_lock (bev_map_rw_lock_singal h);
  let info := default dflt (bev_map h !! id) in
  Some (ip info ++ [x00], set_map h (rw_r_unlock l) (<[id := info]> (bev_map h))).

Definition get_connection_port (dflt : BevInfor) (h : t) (id : Z) : option (Z * t) :=
  l ← rw_r_lock (bev_map_rw_lock_singal h);
  let info := default dflt (bev_map h !! id) in
  Some (port info, set_map h (rw_r_unlock l) (<[id := info]> (bev_map h))).

(** [ntohl] on a little-endian machine. *)
Definition ntohl (v : Z) : Z := le_val (rev (le_bytes 4 v)).

(** [connlistener_cb]: a peer with network-order port field [sin_port]; [b] is the
    bufferevent made for the socket. *)
Definition connlistener_cb (h : t) (ipv : list byte) (sin_port : Z) (b : Z) (junk : bool * Z) :
    option t :=
  '(id, h) ← get_connection_id_addr h ipv (int32 (ntohl sin_port)) false None 0 junk;
  if 0 <=? id then Some h
  else
    '(_, h) ← add_bufferevent_listen h ipv sin_port b junk;
    Some h.

(** [default_bufferevent_read_cb]: the id the user callback is invoked with, if any. *)
Definition default_bufferevent_read_cb (h : t) (b : Z) : option (option Z * t) :=
  '(id, h) ← get_connection_id_bev h b;
  Some (if callback_set h then Some id else None, h).

(** ** The framed stream of a connection *)

(** The receive step of [recive_str_NoWait] on the data of the connection. *)
Definition recv_info (info : BevInfor) (buffer_str : list byte) :
    option (Z * list byte * BevInfor) :=
  if uint64 (evbuffer_len (input info)) <=? sizeof_BufferControlBlock then Some (0, buffer_str, info)
  else
    info ← (if negb (cache_block info)
            then '(_, i) ← readBufferControlBlock_NoWait info; Some i else Some info);
    buffer_str ← grow_str buffer_str (block_size info);
    '(r, d, info) ← readBuffer_NoWait info;
    buffer_str ← splice (buffer_str ++ [x00]) 0 d;
    Some (r, take (length buffer_str - 1) buffer_str, info).

Lemma info_eta info : set_read_singal info (read_singal info) = info.
Proof. by destruct info. Qed.

Lemma set_map_eta h : set_map h (bev_map_rw_lock_singal h) (bev_map h) = h.
Proof. by destruct h. Qed.

Lemma set_info_same h id info : bev_map h !! id = Some info → set_info h id info = h.
Proof. intros Hi. unfold set_info. rewrite insert_id by done. apply set_map_eta. Qed.

Lemma find_info_ok h id :
  0 <= bev_map_rw_lock_singal h → find_info h id = Some (bev_map h !! id, h).
Proof.
  intros Hl. unfold find_info. rewrite rw_r_lock_ok by done. simpl.
  by rewrite rw_r_unlock_pos, set_map_eta.
Qed.

Lemma get_recive_buffer_length_ok h id info :
  0 <= bev_map_rw_lock_singal h → bev_map h !! id = Some info → 0 <= read_singal info →
  get_recive_buffer_length h id = Some (evbuffer_len (input info), h).
Proof.
  intros Hl Hi Hr. unfold get_recive_buffer_length. rewrite find_info_ok by done. simpl.
  rewrite Hi, rw_r_lock_ok by done. simpl. rewrite rw_r_unlock_pos by done.
  by rewrite info_eta, set_info_same.
Qed.

Lemma recive_str_NoWait_info h id info buffer_str :
  0 <= bev_map_rw_lock_singal h → bev_map h !! id = Some info → 0 <= read_singal info →
  recive_str_NoWait h id buffer_str =
    '(r, b, info') ← recv_info info buffer_str; Some (r, b, set_info h id info').
Proof.
  intros Hl Hi Hr. unfold recive_str_NoWait, recv_info. rewrite find_info_ok by done. simpl.
  rewrite Hi. erewrite get_recive_buffer_length_ok by done. simpl.
  destruct (_ <=? _); simpl; [by rewrite set_info_same|]. rewrite Hi. simpl.
  destruct (if negb _ then _ else _) as [i|]; simpl; [|done].
  destruct (grow_str _ _) as [b|]; simpl; [|done].
  destruct (readBuffer_NoWait i) as [[[r d] i']|]; simpl; [|done].
  by destruct (splice _ _ _).
Qed.

(** The bytes not yet delivered, with a size block that was already taken put back. *)
Definition pending (info : BevInfor) : list byte :=
  if cache_block info then le_bytes 4 (block_size info) ++ str_bytes (input info)
  else str_bytes (input info).

Definition frame (m : list byte) : list byte := le_bytes 4 (Zlen m) ++ m.

Record conn_inv (info : BevInfor) : Prop := {
  ci_input : str_inv (input info);
  ci_read : read_singal info = 0;
  ci_block : cache_block info = true → 0 <= block_size info <= INT_MAX;
  ci_len : Zlen (str_bytes (input info)) <= INT_MAX
}.

Lemma evbuffer_len_ok s :
  str_inv s → Zlen (str_bytes s) <= INT_MAX → evbuffer_len s = Zlen (str_bytes s).
Proof.
  intros Hs Hm. unfold evbuffer_len. rewrite str_length_ok by done.
  apply int32_id. unfold INT_MIN, INT_MAX in *. lia.
Qed.

Lemma evbuffer_len_u s :
  str_inv s → Zlen (str_bytes s) <= INT_MAX → uint64 (evbuffer_len s) = Zlen (str_bytes s).
Proof.
  intros Hs Hm. rewrite evbuffer_len_ok by done. apply uint64_id. unfold INT_MAX in *. lia.
Qed.

Lemma frame_length m : Zlen (frame m) = 4 + Zlen m.
Proof. unfold frame. rewrite length_app, le_bytes_length. lia. Qed.

Lemma grow_str_nil n : 0 <= n → n < 2 ^ 64 → grow_str [] n = Some (replicate (Z.to_nat n) x00).
Proof.
  intros H1 H2. unfold grow_str. rewrite uint64_id by lia. change (Zlen []) with 0. simpl.
  destruct (Z.leb_spec 0 n); [|lia]. destruct (Z.ltb_spec n 0); [lia|done].
Qed.

(** Taking the size block. *)
Lemma readBufferControlBlock_ok info n rest :
  conn_inv info → cache_block info = false → 0 <= n <= INT_MAX →
  str_bytes (input info) = le_bytes 4 n ++ rest →
  ∃ s r, readBufferControlBlock_NoWait info =
      Some (r, set_io info s (read_watermark info) n true (-1)) ∧
    str_inv s ∧ str_bytes s = rest.
Proof.
  intros Hi Hc Hn Hb. destruct Hi as [Hs Hr _ Hmax]. unfold readBufferControlBlock_NoWait.
  rewrite Hr. rewrite rw_w_lock_ok by done. simpl.
  rewrite evbuffer_len_u, Hb by done. unfold sizeof_BufferControlBlock.
  rewrite length_app, le_bytes_length.
  destruct (Z.ltb_spec (Z.of_nat (4 + length rest)) 4); [lia|].
  unfold bufferevent_read. simpl.
  destruct (str_remove_ok (input info) 4) as (s & Heq & Hs' & Hb'); [done..|].
  change (uint64 4) with 4. rewrite Heq. simpl.
  rewrite Hb in *. rewrite length_app, le_bytes_length.
  destruct (Z.ltb_spec (Z.min 4 (Z.of_nat (4 + length rest))) 0); [lia|].
  change (Z.to_nat 4) with 4%nat in *.
  rewrite take_app_le, (take_ge (le_bytes 4 n)) by (by rewrite le_bytes_length).
  rewrite drop_app_le, (drop_ge (le_bytes 4 n)) in Hb' by (by rewrite le_bytes_length).
  rewrite (splice_app_eq [] (le_bytes 4 0) (le_bytes 4 n) []); [|by rewrite app_nil_r|done|by rewrite !le_bytes_length].
  cbn [mbind option_bind app]. rewrite app_nil_r. eexists _, _. split; [|split; [exact Hs'|exact Hb']].
  unfold INT_MAX in *. rewrite le_val_bytes4, int32_id by (unfold INT_MIN, INT_MAX; lia). done.
Qed.

Lemma rw_w_unlock_01 z : z = 0 ∨ z = -1 → rw_w_unlock z = 0.
Proof. intros [->| ->]; done. Qed.

Lemma readBuffer_NoWait_full info :
  cache_block info = true → str_inv (input info) → read_singal info = 0 ∨ read_singal info = -1 →
  0 <= block_size info <= Zlen (str_bytes (input info)) →
  Zlen (str_bytes (input info)) <= INT_MAX →
  ∃ s, readBuffer_NoWait info =
      Some (block_size info, take (Z.to_nat (block_size info)) (str_bytes (input info)),
            set_io info s 0 (block_size info) false 0) ∧
    str_inv s ∧ str_bytes s = drop (Z.to_nat (block_size info)) (str_bytes (input info)).
Proof.
  intros Hc Hs Hr Hn Hmax. unfold readBuffer_NoWait. rewrite Hc. simpl.
  rewrite evbuffer_len_ok by done. destruct (Z.ltb_spec (Zlen (str_bytes (input info))) (block_size info)); [lia|].
  unfold bufferevent_read. simpl. unfold INT_MAX in *. rewrite uint64_id by lia.
  destruct (str_remove_ok (input info) (block_size info)) as (s & Heq & Hs' & Hb'); [done|lia|unfold INT_MAX; lia|].
  rewrite Heq. simpl. rewrite Z.min_l by lia. destruct (Z.ltb_spec (block_size info) 0); [lia|].
  rewrite rw_w_unlock_01 by done. eauto.
Qed.

Lemma readBuffer_NoWait_short info :
  cache_block info = true → str_inv (input info) → read_singal info = 0 ∨ read_singal info = -1 →
  Zlen (str_bytes (input info)) < block_size info → Zlen (str_bytes (input info)) <= INT_MAX →
  readBuffer_NoWait info =
    Some (0, [], set_io info (input info) (block_size info) (block_size info) true 0).
Proof.
  intros Hc Hs Hr Hn Hmax. unfold readBuffer_NoWait. rewrite Hc. simpl. rewrite evbuffer_len_ok by done.
  destruct (Z.ltb_spec (Zlen (str_bytes (input info))) (block_size info)); [|lia].
  by rewrite rw_w_unlock_01, Hc by done.
Qed.

(** The state between the two reads: the size block [n] has been taken. *)
Lemma take_block info n body :
  conn_inv info → 4 < Zlen (str_bytes (input info)) → 0 <= n <= INT_MAX →
  pending info = le_bytes 4 n ++ body →
  ∃ info1, (if negb (cache_block info)
            then '(_, i) ← readBufferControlBlock_NoWait info; Some i else Some info) = Some info1 ∧
    cache_block info1 = true ∧ block_size info1 = n ∧ str_inv (input info1) ∧
    str_bytes (input info1) = body ∧ (read_singal info1 = 0 ∨ read_singal info1 = -1) ∧
    Zlen body <= INT_MAX.
Proof.
  intros Hi Hlen Hn Hp. unfold pending in Hp. pose proof (ci_len info Hi) as Hmax.
  destruct (cache_block info) eqn:Hc; simpl.
  - destruct Hi as [Hs Hr Hb _]. specialize (Hb Hc).
    apply app_inj_1 in Hp as [Hp1 Hp2]; [|by rewrite !le_bytes_length].
    exists info. split; [done|]. split; [done|]. split.
    + rewrite <- (le_val_bytes4 n), <- Hp1, le_val_bytes4; [done|..]; unfold INT_MAX in *; lia.
    + rewrite <- Hp2. auto.
  - destruct (readBufferControlBlock_ok info n body) as (s & r & Heq & Hs & Hb); [done..|].
    rewrite Heq. simpl. eexists. split; [done|]. simpl. split; [done|]. split; [done|].
    split; [done|]. split; [done|]. split; [by right|].
    rewrite Hp, length_app in Hmax. lia.
Qed.

(** A complete message of more than four bytes at the front of the stream is delivered. *)
Lemma recv_info_complete info m rest :
  conn_inv info → pending info = frame m ++ rest → 4 < Zlen m <= INT_MAX →
  ∃ info', recv_info info [] = Some (Zlen m, m, info') ∧ conn_inv info' ∧
    cache_block info' = false ∧ pending info' = rest.
Proof.
  intros Hi Hp Hm. unfold frame in Hp. rewrite <- (assoc_L (++)) in Hp.
  assert (4 < Zlen (str_bytes (input info))) as Hlen.
  { pose proof (f_equal length Hp) as Hl. unfold pending in Hl.
    destruct (cache_block info); rewrite !length_app, !le_bytes_length in Hl; lia. }
  unfold recv_info. rewrite evbuffer_len_u by apply Hi. unfold sizeof_BufferControlBlock.
  destruct (Z.leb_spec (Zlen (str_bytes (input info))) 4); [lia|].
  destruct (take_block info (Zlen m) (m ++ rest)) as (i1 & -> & Hc & Hb & Hs & Hby & Hr & Hmax);
    [done|done|lia|done|]. cbn [mbind option_bind]. rewrite Hb, grow_str_nil by (unfold INT_MAX in *; lia).
  cbn [mbind option_bind]. rewrite length_app in Hmax.
  destruct (readBuffer_NoWait_full i1) as (s & -> & Hs' & Hb'); [done|done|done|..].
  1, 2: rewrite Hb || idtac; rewrite Hby, length_app; lia.
  cbn [mbind option_bind]. rewrite Hb, Hby, !Nat2Z.id, take_app_length.
  rewrite (splice_app_eq [] (replicate (length m) x00) m [x00]); [|done|done|by rewrite length_replicate].
  cbn [mbind option_bind app]. rewrite length_app. simpl.
  replace (length m + 1 - 1)%nat with (length m) by lia. rewrite take_app_length.
  eexists. split; [done|]. rewrite Hb, Hby, Nat2Z.id, drop_app_length in Hb'.
  split; [|split; [done|done]]. constructor; simpl; [done|done|done|].
  rewrite Hb'. lia.
Qed.

(** An incomplete message is left alone. *)
Lemma recv_info_incomplete info m k :
  conn_inv info → pending info = take k (frame m) → (k < length (frame m))%nat →
  Zlen m <= INT_MAX →
  ∃ b info', recv_info info [] = Some (0, b, info') ∧ conn_inv info' ∧
    pending info' = pending info.
Proof.
  intros Hi Hp Hk Hm. unfold recv_info. rewrite evbuffer_len_u by apply Hi.
  unfold sizeof_BufferControlBlock.
  destruct (Z.leb_spec (Zlen (str_bytes (input info))) 4) as [|Hlen]; [by eauto|].
  assert (4 <= k)%nat as Hk4.
  { pose proof (f_equal length Hp) as Hl. unfold pending in Hl. rewrite length_take in Hl.
    destruct (cache_block info); rewrite ?length_app, ?le_bytes_length in Hl; lia. }
  unfold frame in Hp. rewrite take_app_ge in Hp by (rewrite le_bytes_length; lia).
  rewrite le_bytes_length in Hp. pose proof (frame_length m).
  destruct (take_block info (Zlen m) (take (k - 4) m)) as (i1 & -> & Hc & Hb & Hs & Hby & Hr & Hmax);
    [done|done|lia|done|]. cbn [mbind option_bind]. rewrite Hb, grow_str_nil by (unfold INT_MAX in *; lia).
  cbn [mbind option_bind].
  rewrite readBuffer_NoWait_short; [|done|done|done|rewrite Hb, Hby, length_take; lia|by rewrite Hby].
  cbn [mbind option_bind]. rewrite splice_Some by (simpl; lia). cbn [mbind option_bind].
  eexists _, _. split; [done|]. split.
  - constructor; simpl; [done|done|intros _; rewrite Hb; lia|by rewrite Hby].
  - rewrite Hp. unfold pending. simpl. by rewrite Hb, Hby.
Qed.

(** ** Sending and receiving over the handle *)

(** The spin lock of the map is free and the connection [id] is in it. *)
Definition connected (h : t) (id : Z) (info : BevInfor) : Prop :=
  bev_map_rw_lock_singal h = 0 ∧ bev_map h !! id = Some info.

(** What can happen to a connection: the chunks that arrive from the network, and calls
    of [recive_str_NoWait] with an empty string, which deliver a message when they
    return a positive size. *)
Inductive session (id : Z) : t → list (list byte) → list (list byte) → t → Prop :=
| session_end h : session id h [] [] h
| session_arrive h info d s cs ms h' :
    bev_map h !! id = Some info → str_add (input info) d = Some (0, s) →
    session id (set_info h id (set_input info s)) cs ms h' → session id h (d :: cs) ms h'
| session_idle h r b h1 cs ms h' :
    recive_str_NoWait h id [] = Some (r, b, h1) → r <= 0 →
    session id h1 cs ms h' → session id h cs ms h'
| session_recive h r m h1 cs ms h' :
    recive_str_NoWait h id [] = Some (r, m, h1) → 0 < r →
    session id h1 cs ms h' → session id h cs (m :: ms) h'.

Definition stream (ms : list (list byte)) : list byte := concat (frame <$> ms).

(** The sizes for which [recive_str_NoWait] works whatever the chunks are. *)
Definition sendable (m : list byte) : Prop := 4 < Zlen m <= INT_MAX.

Lemma stream_cons m ms : stream (m :: ms) = frame m ++ stream ms.
Proof. done. Qed.

Lemma set_info_twice h id i j : set_info (set_info h id i) id j = set_info h id j.
Proof. unfold set_info, set_map. simpl. by rewrite insert_insert_eq. Qed.

Lemma connected_set_info h id i j : connected h id i → connected (set_info h id j) id j.
Proof. intros [Hl Hi]. split; simpl; [done|by rewrite lookup_insert_eq]. Qed.

Lemma recive_connected h id info buffer_str :
  connected h id info → read_singal info = 0 →
  recive_str_NoWait h id buffer_str =
    '(r, b, info') ← recv_info info buffer_str; Some (r, b, set_info h id info').
Proof. intros [Hl Hi] Hr. apply recive_str_NoWait_info; [lia|done|lia]. Qed.

(** The front of the stream is a complete message, or the pending bytes are a proper
    prefix of one. *)
Lemma stream_cases p fut ms :
  p ++ fut = stream ms →
  (∃ m ms' rest, ms = m :: ms' ∧ p = frame m ++ rest ∧ rest ++ fut = stream ms') ∨
  (∃ m ms' k, ms = m :: ms' ∧ p = take k (frame m) ∧ (k < length (frame m))%nat) ∨
  p = [] ∧ ms = [].
Proof.
  destruct ms as [|m ms]; intros Hp.
  { apply app_nil in Hp as [-> _]. auto. }
  rewrite stream_cons in Hp. destruct (decide (length (frame m) <= length p)%nat) as [Hl|Hl].
  - left. exists m, ms, (drop (length (frame m)) p).
    assert (take (length (frame m)) p = frame m) as Ht.
    { apply (f_equal (take (length (frame m)))) in Hp.
      by rewrite take_app_le, take_app_length in Hp by done. }
    split; [done|]. split; [by rewrite <- Ht at 1; rewrite take_drop|].
    apply (app_inv_head (frame m)). rewrite <- Hp, (assoc_L (++)). f_equal.
    by rewrite <- Ht at 1; rewrite take_drop.
  - right. left. exists m, ms, (length p). split; [done|]. split; [|lia].
    apply (f_equal (take (length p))) in Hp. by rewrite take_app_length, take_app_le in Hp by lia.
Qed.

Lemma recv_info_idle info :
  conn_inv info → pending info = [] → recv_info info [] = Some (0, [], info).
Proof.
  intros Hi Hp. unfold recv_info. rewrite evbuffer_len_u by apply Hi.
  unfold pending in Hp. destruct (cache_block info); [|by rewrite Hp].
  apply (f_equal length) in Hp. rewrite length_app, le_bytes_length in Hp. simpl in Hp. lia.
Qed.

(** One receive call on a connection whose stream is well formed. *)
Lemma recv_info_stream info fut ms :
  conn_inv info → pending info ++ fut = stream ms → Forall sendable ms →
  ∃ r b info', recv_info info [] = Some (r, b, info') ∧ conn_inv info' ∧
    ((r = 0 ∧ pending info' = pending info ∧
      ∀ m ms', ms = m :: ms' → Zlen (pending info) < Zlen (frame m)) ∨
     (0 < r ∧ r = Zlen b ∧ ∃ ms', ms = b :: ms' ∧ pending info' ++ fut = stream ms' ∧
        pending info = frame b ++ pending info')).
Proof.
  intros Hi Hp Hms. destruct (stream_cases _ _ _ Hp) as
    [(m & ms' & rest & -> & Hpe & Hrest) | [(m & ms' & k & -> & Hpe & Hk) | [Hpe ->]]].
  - apply Forall_cons in Hms as [Hm _]. unfold sendable in Hm.
    destruct (recv_info_complete info m rest) as (info' & Heq & Hi' & _ & Hp'); [done..|].
    eexists _, _, _. split; [done|]. split; [done|]. right. split; [lia|]. split; [done|].
    exists ms'. by rewrite Hp', Hpe.
  - apply Forall_cons in Hms as [Hm _]. unfold sendable in Hm.
    destruct (recv_info_incomplete info m k) as (b & info' & Heq & Hi' & Hp'); [done|done|done|lia|].
    eexists _, _, _. split; [done|]. split; [done|]. left. split; [done|]. split; [done|].
    intros ? ? [= <- <-]. rewrite Hpe, length_take. lia.
  - eexists _, _, _. split; [by apply recv_info_idle|]. split; [done|]. left. done.
Qed.

Lemma pending_arrive info s d :
  str_bytes s = str_bytes (input info) ++ d → pending (set_input info s) = pending info ++ d.
Proof. intros Hb. unfold pending. simpl. rewrite Hb. by destruct (cache_block info). Qed.

Lemma conn_inv_arrive info s d :
  conn_inv info → str_inv s → str_bytes s = str_bytes (input info) ++ d →
  Zlen (str_bytes (input info) ++ d) <= INT_MAX → conn_inv (set_input info s).
Proof. intros [H1 H2 H3 H4] Hs Hb Hl. constructor; simpl; [done|done|done|by rewrite Hb]. Qed.

Lemma pending_input info : Zlen (str_bytes (input info)) <= Zlen (pending info).
Proof. unfold pending. destruct (cache_block info); [rewrite length_app|]; lia. Qed.

Lemma session_stream id h cs ms h' :
  session id h cs ms h' → ∀ info fut todo,
    connected h id info → conn_inv info → Forall sendable todo →
    pending info ++ concat cs ++ fut = stream todo →
    Zlen (pending info ++ concat cs) <= INT_MAX →
    ∃ info' rest, connected h' id info' ∧ conn_inv info' ∧ todo = ms ++ rest ∧
      pending info' ++ fut = stream rest.
Proof.
  induction 1 as [h | h i0 d s cs ms h' Hi0 Hadd _ IH | h r b h1 cs ms h' Hr Hr0 _ IH
                 | h r m h1 cs ms h' Hr Hr0 _ IH];
    intros info fut todo Hc Hi Ht Hp Hl.
  - exists info, todo. done.
  - destruct (Hc) as [Hc1 Hc2]. rewrite Hc2 in Hi0. simplify_eq.
    destruct (str_add_ok _ _ _ _ (ci_input i0 Hi) Hadd) as [Hs [[_ Hb]|[? _]]]; [|done].
    pose proof (pending_input i0) as Hpi. simpl in *. rewrite !length_app in Hl.
    apply (IH (set_input i0 s) fut todo); [by eapply connected_set_info| |done|..].
    + eapply conn_inv_arrive; [done..|]. rewrite length_app. lia.
    + rewrite (pending_arrive _ _ d), <- Hp by done. by rewrite <- !(assoc_L (++)).
    + rewrite (pending_arrive _ _ d), !length_app by done. lia.
  - destruct (recv_info_stream info (concat cs ++ fut) todo) as (r' & b' & i' & Heq & Hi' & Hcase); [done..|].
    rewrite (recive_connected h id info) in Hr by (try done; apply Hi).
    rewrite Heq in Hr. simpl in Hr. simplify_eq.
    destruct Hcase as [(_ & Hp' & _)|(Hpos & _)]; [|lia].
    apply (IH i'); [by eapply connected_set_info|done|done|by rewrite Hp'..].
  - destruct (recv_info_stream info (concat cs ++ fut) todo) as (r' & b' & i' & Heq & Hi' & Hcase); [done..|].
    rewrite (recive_connected h id info) in Hr by (try done; apply Hi).
    rewrite Heq in Hr. simpl in Hr. simplify_eq.
    destruct Hcase as [(-> & _)|(_ & _ & ms' & -> & Hp' & Hpe)]; [lia|].
    apply Forall_cons in Ht as [_ Ht].
    destruct (IH i' fut ms') as (i2 & rest & H1 & H2 & -> & H4);
      [by eapply connected_set_info|done|done|done|..].
    + rewrite Hpe, !length_app in Hl. rewrite length_app. lia.
    + by exists i2, rest.
Qed.

(** Receiving in a loop until nothing is pending. *)
Lemma session_drain id ms h info :
  connected h id info → conn_inv info → Forall sendable ms → pending info = stream ms →
  ∃ h', session id h [] ms h' ∧ ∃ info', connected h' id info' ∧ pending info' = [].
Proof.
  revert h info. induction ms as [|m ms IH]; intros h info Hc Hi Ht Hp.
  { exists h. split; [constructor|]. by exists info. }
  destruct (recv_info_stream info [] (m :: ms)) as (r & b & i & Heq & Hi' & Hcase);
    [done|by rewrite app_nil_r|done|].
  destruct Hcase as [(_ & _ & Hlt)|(Hr & _ & ms' & [= <- <-] & Hp' & _)].
  { exfalso. specialize (Hlt m ms eq_refl). rewrite Hp, stream_cons, length_app in Hlt. lia. }
  rewrite app_nil_r in Hp'. apply Forall_cons in Ht as [_ Ht].
  destruct (IH (set_info h id i) i) as (h' & Hs & Hd); [by eapply connected_set_info|done..|].
  exists h'. split; [|done]. eapply session_recive; [|exact Hr|exact Hs].
  rewrite (recive_connected h id info) by (done || apply Hi). by rewrite Heq.
Qed.

(** The handle-level operations on a connection with a known stream, for the clients. *)
Lemma recive_stream_front h id info m ms :
  connected h id info → conn_inv info → Forall sendable (m :: ms) →
  pending info = stream (m :: ms) →
  ∃ info', recive_str_NoWait h id [] = Some (Zlen m, m, set_info h id info') ∧
    connected (set_info h id info') id info' ∧ conn_inv info' ∧ pending info' = stream ms.
Proof.
  intros Hc Hi [Hm _]%Forall_cons Hp.
  destruct (recv_info_complete info m (stream ms)) as (info' & Heq & Hi' & _ & Hp'); [done..|].
  exists info'. rewrite (recive_connected h id info) by (done || apply Hi). rewrite Heq.
  split; [done|]. split; [by eapply connected_set_info|done].
Qed.

Lemma recive_length h id info :
  connected h id info → conn_inv info →
  get_recive_buffer_length h id = Some (Zlen (str_bytes (input info)), h).
Proof.
  intros [Hl Hid] Hi. rewrite (get_recive_buffer_length_ok h id info); [|lia|done|rewrite (ci_read info Hi); lia].
  by rewrite evbuffer_len_ok by apply Hi.
Qed.

Lemma pending_length info : Zlen (pending info) <= Zlen (str_bytes (input info)) + 4.
Proof. unfold pending. destruct (cache_block info); lens. Qed.

(** C1. Framing is transparent for messages of more than four bytes each, of at most INT_MAX bytes
    with their frames in total, on a connection with nothing pending: whatever the sizes of the chunks
    in which the stream of the framed messages [ms] arrives, and however receive calls are interleaved
    with the arrivals, the messages delivered so far are a prefix of [ms], in order and intact, and the
    rest of what has arrived is still pending; once the whole stream has arrived, further receive calls
    deliver the rest of [ms].  (Shorter messages may stay in the buffer for ever:
    [short_message_never_delivered].) *)
Theorem framed_stream_delivers id h info cs got h' ms :
  connected h id info → conn_inv info → pending info = [] →
  Forall sendable ms → Zlen (stream ms) <= INT_MAX →
  session id h cs got h' → concat cs `prefix_of` stream ms →
  ∃ rest, ms = got ++ rest ∧
    (∃ info', connected h' id info' ∧ conn_inv info' ∧
       stream got ++ pending info' = concat cs) ∧
    (concat cs = stream ms → ∃ h'', session id h' [] rest h'').
Proof.
  intros Hc Hi Hp Ht Hl Hs [fut Hpre].
  destruct (session_stream _ _ _ _ _ Hs info fut ms) as (i & rest & Hc' & Hi' & -> & Hrest);
    [done|done|done|by rewrite Hp|..].
  { rewrite Hp. simpl. rewrite Hpre, length_app in Hl. lia. }
  assert (stream (got ++ rest) = stream got ++ stream rest) as Happ.
  { unfold stream. by rewrite fmap_app, concat_app. }
  exists rest. split; [done|]. split.
  - exists i. split; [done|]. split; [done|]. apply (app_inv_tail fut).
    by rewrite <- Hpre, Happ, <- (assoc_L (++)), Hrest.
  - intros Hall. rewrite <- Hall in Hpre. rewrite <- (app_nil_r (concat cs)) in Hpre at 1.
    apply app_inv_head in Hpre. subst fut. rewrite app_nil_r in Hrest.
    apply Forall_app in Ht as [_ Ht].
    destruct (session_drain id rest h' i) as (h'' & ? & _); [done..|]. by exists h''.
Qed.

(** [n] receive calls and their return values. *)
Fixpoint recive_times (n : nat) (h : t) (id : Z) : option (list Z * t) :=
  match n with
  | O => Some ([], h)
  | Datatypes.S n =>
      '(r, _, h) ← recive_str_NoWait h id [];
      '(rs, h) ← recive_times n h id;
      Some (r :: rs, h)
  end.

(** Short messages: once the size block of a message has been taken, a body of at
    most four bytes is not delivered even when it has arrived completely; the receive
    call returns 0 and changes nothing, however often it is made. *)
Theorem short_message_never_delivered h id info m :
  connected h id info → conn_inv info → cache_block info = true →
  pending info = frame m → Zlen m <= 4 →
  ∀ n, recive_times n h id = Some (replicate n 0, h).
Proof.
  intros Hc Hi Hcb Hp Hm n. induction n as [|n IH]; [done|].
  cbn [recive_times]. rewrite (recive_connected h id info) by (done || apply Hi).
  unfold recv_info. rewrite evbuffer_len_u by apply Hi. unfold sizeof_BufferControlBlock.
  assert (str_bytes (input info) = m) as ->.
  { unfold pending in Hp. rewrite Hcb in Hp. unfold frame in Hp.
    by apply app_inj_1 in Hp as [_ ?]; [|by rewrite !le_bytes_length]. }
  destruct (Z.leb_spec (Zlen m) 4); [|lia]. destruct Hc as [_ Hid].
  cbn [mbind option_bind]. by rewrite set_info_same, IH.
Qed.

(** ** Sending *)

Lemma writeBufferOnce_ok info data b info' :
  write_singal info = 0 → str_inv (output info) →
  writeBufferOnce info data (Zlen data) = Some (b, info') →
  write_singal info' = 0 ∧ str_inv (output info') ∧ input info' = input info ∧
  ∃ sent, str_bytes (output info') = str_bytes (output info) ++ sent ∧
    if b then sent = frame data else sent = [] ∨ sent = le_bytes 4 (Zlen data).
Proof.
  intros Hw Ho. unfold writeBufferOnce. rewrite Hw. rewrite rw_w_lock_ok by done.
  cbn [mbind option_bind].
  destruct (str_add (output info) _) as [[r o]|] eqn:E1; [|done]. cbn [mbind option_bind].
  destruct (str_add_ok _ _ _ _ Ho E1) as [Ho1 Hr].
  destruct (Z.ltb_spec r 0).
  { intros [= <- <-]. destruct Hr as [[-> _]|[_ Hb]]; [lia|]. simpl.
    do 3 (split; [done|]). exists []. rewrite app_nil_r. auto. }
  destruct Hr as [[-> Hb]|[-> _]]; [|lia].
  rewrite slice_Some by lia. cbn [mbind option_bind].
  change (Z.to_nat 0) with 0%nat. rewrite drop_0, take_ge by lia.
  destruct (str_add o data) as [[r o2]|] eqn:E2; [|done]. cbn [mbind option_bind].
  destruct (str_add_ok _ _ _ _ Ho1 E2) as [Ho2 Hr].
  destruct (Z.ltb_spec r 0); intros [= <- <-]; simpl; (split; [done|]); (split; [done|]); (split; [done|]).
  - destruct Hr as [[-> _]|[_ Hb2]]; [lia|]. exists (le_bytes 4 (Zlen data)).
    rewrite Hb2, Hb. auto.
  - destruct Hr as [[_ Hb2]|[-> _]]; [|lia]. exists (frame data). split; [|done].
    rewrite Hb2, Hb. by rewrite <- (assoc_L (++)).
Qed.

Lemma bev_map_lock_held h b rc i v ipv p junk :
  0 < bev_map_rw_lock_singal h →
  add_info h i = None ∧ remove_buffevent h v = None ∧ add_bufferevent_listen h ipv p b junk = None ∧
  add_bufferevent_connect h ipv p (Some b) (Z.max 0 rc) junk = None.
Proof.
  intros Hl.
  assert (∀ i, add_info h i = None) as Ha.
  { intros j. unfold add_info. simpl. by rewrite rw_w_lock_spin. }
  unfold add_bufferevent_listen, add_bufferevent_connect, remove_buffevent.
  rewrite !Ha, (rw_w_lock_spin (bev_map_rw_lock_singal h)) by done. destruct (Z.ltb_spec (Z.max 0 rc) 0); [lia|done].
Qed.

Lemma send_neg h id data n : id < 0 → send h id data n = Some (false, h).
Proof. intros Hid. unfold send. destruct (Z.ltb_spec id 0); [done|lia]. Qed.

Lemma send_known h id data info ok info' :
  bev_map_rw_lock_singal h = 0 → 0 <= id → bev_map h !! id = Some info →
  writeBufferOnce info data (Zlen data) = Some (ok, info') →
  send h id data (Zlen data) = Some (true, set_info h id info').
Proof.
  intros Hl Hid Hi Heq. unfold send. rewrite Hl. destruct (Z.ltb_spec id 0); [lia|]. simpl.
  rewrite Hi, Heq. simpl. unfold set_info, set_map. simpl. by rewrite Hl.
Qed.

(** C33. [send] on every branch.  A negative id: refused, nothing changes.  An unknown
    id: refused, and (a defect) the read lock is not released, after which no connection
    can be added or removed any more.  A known id: only this connection's output
    changes, by the whole frame of the message or, when a write fails, by nothing or the
    size alone, which the result [true] does not show. *)
Theorem send_spec h id data :
  bev_map_rw_lock_singal h = 0 →
  (id < 0 → send h id data (Zlen data) = Some (false, h)) ∧
  (0 <= id → bev_map h !! id = None →
     ∃ h', send h id data (Zlen data) = Some (false, h') ∧ bev_map h' = bev_map h ∧
       ∀ i v ipv p b rc junk,
         add_info h' i = None ∧ remove_buffevent h' v = None ∧
         add_bufferevent_listen h' ipv p b junk = None ∧
         add_bufferevent_connect h' ipv p (Some b) (Z.max 0 rc) junk = None) ∧
  (∀ info ok info', 0 <= id → bev_map h !! id = Some info → write_singal info = 0 →
     str_inv (output info) → writeBufferOnce info data (Zlen data) = Some (ok, info') →
     send h id data (Zlen data) = Some (true, set_info h id info') ∧
     write_singal info' = 0 ∧ str_inv (output info') ∧ input info' = input info ∧
     ∃ sent, str_bytes (output info') = str_bytes (output info) ++ sent ∧
       if ok then sent = frame data else sent = [] ∨ sent = le_bytes 4 (Zlen data)).
Proof.
  intros Hl. split; [by apply send_neg|]. split.
  - intros Hid Hn. unfold send. rewrite Hl. destruct (Z.ltb_spec id 0); [lia|]. simpl. rewrite Hn.
    eexists. split; [done|]. split; [done|]. intros. by apply bev_map_lock_held.
  - intros info ok info' Hid Hi Hw Ho Heq.
    split; [by eapply send_known|by apply writeBufferOnce_ok].
Qed.

(** ** Connection ids *)

(** Ids are given out once, and the vector of accepted connections lists exactly the
    entries marked [is_listen]. *)
Record ids_inv (h : t) : Prop := {
  ids_range id i : bev_map h !! id = Some i → 0 <= id < max_bev_id h;
  ids_max : 0 <= max_bev_id h;
  ids_nodup : NoDup (listen_id_vector h);
  ids_listen id : id ∈ listen_id_vector h ↔ ∃ i, bev_map h !! id = Some i ∧ is_listen i = true
}.

Definition unlocked (h : t) : Prop :=
  bev_map_rw_lock_singal h = 0 ∧ listen_vector_rw_lock_singal h = 0.

(** The handle after a connection was stored. *)
Definition with_connection (h : t) (i : BevInfor) : t :=
  mkHandle (isFree h) (local_port h) (int32 (max_bev_id h + 1)) (bev_map_rw_lock_singal h)
    (<[max_bev_id h := i]> (bev_map h)) (listen_vector_rw_lock_singal h)
    (if is_listen i then listen_id_vector h ++ [max_bev_id h] else listen_id_vector h)
    (callback_set h).

Lemma add_info_ok h i :
  bev_map_rw_lock_singal h = 0 →
  add_info h i = Some (max_bev_id h,
    mkHandle (isFree h) (local_port h) (int32 (max_bev_id h + 1)) (bev_map_rw_lock_singal h)
      (<[max_bev_id h := i]> (bev_map h)) (listen_vector_rw_lock_singal h)
      (listen_id_vector h) (callback_set h)).
Proof. intros Hl. unfold add_info. simpl. by rewrite Hl. Qed.

Lemma add_bufferevent_listen_ok h ipv p b junk :
  unlocked h → add_bufferevent_listen h ipv p b junk =
    Some (max_bev_id h, with_connection h (new_info ipv p b true junk)).
Proof.
  intros [Hl Hv]. unfold add_bufferevent_listen. rewrite add_info_ok by done. simpl.
  rewrite Hv. simpl. unfold set_listen, with_connection. simpl. by rewrite Hv.
Qed.

Lemma add_bufferevent_connect_ok h ipv p b rc junk :
  unlocked h → 0 <= rc → add_bufferevent_connect h ipv p (Some b) rc junk =
    Some (max_bev_id h, with_connection h (new_info ipv p b false junk)).
Proof.
  intros [Hl Hv] Hrc. unfold add_bufferevent_connect. destruct (Z.ltb_spec rc 0); [lia|].
  by rewrite add_info_ok.
Qed.

Lemma fresh_id h : ids_inv h → bev_map h !! max_bev_id h = None.
Proof.
  intros Hi. destruct (bev_map h !! _) as [i|] eqn:E; [|done].
  apply (ids_range h Hi) in E. lia.
Qed.

Lemma fresh_listen h : ids_inv h → max_bev_id h ∉ listen_id_vector h.
Proof. intros Hi (i & E & _)%(ids_listen h Hi). by rewrite fresh_id in E. Qed.

Lemma with_connection_inv h i : ids_inv h → max_bev_id h < INT_MAX → ids_inv (with_connection h i).
Proof.
  intros Hi Hlt. pose proof (fresh_id h Hi) as Hf. pose proof (fresh_listen h Hi) as Hfl.
  pose proof (ids_max h Hi). constructor; simpl; rewrite ?int32_id by (unfold INT_MIN, INT_MAX in *; lia).
  - intros id j [[<- <-]|[Hne Hj]]%lookup_insert_Some; [lia|].
    apply (ids_range h Hi) in Hj. lia.
  - lia.
  - destruct (is_listen i); [|apply Hi]. apply NoDup_app. split; [apply Hi|]. split; [|apply NoDup_singleton].
    intros x Hx ->%list_elem_of_singleton. done.
  - intros id. destruct (decide (id = max_bev_id h)) as [->|Hne].
    + rewrite lookup_insert_eq. destruct (is_listen i) eqn:El.
      * rewrite elem_of_app, list_elem_of_singleton. split; [by eauto|by right].
      * split; [done|]. intros (j & [= <-] & Hj). congruence.
    + rewrite lookup_insert_ne by done. rewrite <- (ids_listen h Hi).
      destruct (is_listen i); [|done]. rewrite elem_of_app, list_elem_of_singleton.
      split; [by intros [?|?]|by left].
Qed.

(** C34. Until the ids of an int are used up, a new connection, made by connecting or by accepting, is
    stored under the next id, which is greater than every id there is, and the next one is greater
    again, so that no id is given out twice; the other connections are left alone and the invariant
    of the ids is kept.  A failed connect changes nothing. *)
Theorem add_connection_spec h ipv p b rc junk :
  ids_inv h → unlocked h → max_bev_id h < INT_MAX →
  (∀ r, r = add_bufferevent_listen h ipv p b junk ∨
        r = add_bufferevent_connect h ipv p (Some b) rc junk ∧ 0 <= rc →
     ∃ h' i, r = Some (max_bev_id h, h') ∧ max_bev_id h' = max_bev_id h + 1 ∧
       (∀ j, is_Some (bev_map h !! j) → 0 <= j < max_bev_id h) ∧
       bev_map h' = <[max_bev_id h := i]> (bev_map h) ∧ ip i = ipv ∧ port i = p ∧ bev i = b ∧
       str_bytes (input i) = [] ∧ str_bytes (output i) = [] ∧ ids_inv h' ∧ unlocked h') ∧
  add_bufferevent_connect h ipv p None rc junk = Some (-1, h) ∧
  (rc < 0 → add_bufferevent_connect h ipv p (Some b) rc junk = Some (-1, h)).
Proof.
  intros Hi Hu Hlt. pose proof (ids_max h Hi). split; [|split; [done|]].
  - intros r Hr.
    assert (∃ l, r = Some (max_bev_id h, with_connection h (new_info ipv p b l junk))) as (l & ->).
    { destruct Hr as [->|[-> Hrc]].
      - exists true. by apply add_bufferevent_listen_ok.
      - exists false. by apply add_bufferevent_connect_ok. }
    eexists _, _. split; [done|]. split; [simpl; apply int32_id; unfold INT_MIN, INT_MAX in *; lia|].
    split; [intros j [i Hj]; by apply (ids_range h Hi) in Hj|]. split; [done|].
    do 3 (split; [done|]). do 2 (split; [apply str_new_ok|]). split; [by apply with_connection_inv|done].
  - intros Hrc. unfold add_bufferevent_connect. destruct (Z.ltb_spec rc 0); [done|lia].
Qed.

(** Then the ids go on with the negative ones, which [send] refuses. *)
Lemma ids_wrap_around h ipv p b rc junk data :
  unlocked h → max_bev_id h = INT_MAX → 0 <= rc →
  ∃ h', add_bufferevent_connect h ipv p (Some b) rc junk = Some (INT_MAX, h') ∧ max_bev_id h' = INT_MIN ∧
    ∃ h'', add_bufferevent_connect h' ipv p (Some b) rc junk = Some (INT_MIN, h'') ∧
      is_Some (bev_map h'' !! INT_MIN) ∧ send h'' INT_MIN data (Zlen data) = Some (false, h'').
Proof.
  intros Hu Hm Hrc. rewrite add_bufferevent_connect_ok, Hm by done. eexists. split; [done|].
  assert (E : max_bev_id (with_connection h (new_info ipv p b false junk)) = INT_MIN) by (simpl; by rewrite Hm).
  split; [done|]. rewrite add_bufferevent_connect_ok, E by done. eexists. split; [done|]. split.
  - simpl. rewrite Hm. change (int32 (INT_MAX + 1)) with INT_MIN. rewrite lookup_insert_eq. eauto.
  - by apply send_neg.
Qed.

(** The first matching entry is the one with the least id. *)
Lemma elem_of_entries h id i : (id, i) ∈ entries h ↔ bev_map h !! id = Some i.
Proof. unfold entries. rewrite merge_sort_Permutation. apply elem_of_map_to_list. Qed.

#[local] Instance key_le_total : Total key_le.
Proof. intros x y. unfold key_le. lia. Qed.
#[local] Instance key_le_trans : Transitive key_le.
Proof. intros x y z. unfold key_le. lia. Qed.

Lemma find_sorted (f : Z * BevInfor → bool) l e :
  StronglySorted key_le l → find f l = Some e →
  e ∈ l ∧ f e = true ∧ ∀ e', e' ∈ l → f e' = true → key_le e e'.
Proof.
  induction 1 as [|x l Hl IH Hx]; simpl; [done|]. destruct (f x) eqn:Ef.
  - intros [= <-]. split; [left|]. split; [done|].
    intros e' [->|He']%elem_of_cons _; [by unfold key_le|]. by eapply Forall_forall in Hx.
  - intros Hf. destruct (IH Hf) as (H1 & H2 & H3). split; [by right|]. split; [done|].
    intros e' [->|He']%elem_of_cons; [congruence|by apply H3].
Qed.

Lemma find_entries h f :
  match find f (entries h) with
  | Some (id, i) => bev_map h !! id = Some i ∧ f (id, i) = true ∧
      ∀ id' i', bev_map h !! id' = Some i' → f (id', i') = true → id <= id'
  | None => ∀ id i, bev_map h !! id = Some i → f (id, i) = false
  end.
Proof.
  destruct (find f (entries h)) as [[id i]|] eqn:E.
  - apply find_sorted in E as (H1 & H2 & H3); [|apply (StronglySorted_merge_sort _)].
    split; [by apply elem_of_entries|]. split; [done|]. intros id' i' Hi' Hf.
    by apply (H3 (id', i')); [apply elem_of_entries|].
  - intros id i Hi. apply (find_none f _ E (id, i)). by apply list_elem_of_In, elem_of_entries.
Qed.

(** [connection h ipv p id]: [id] is the least id of a connection to that address. *)
Definition connection (h : t) (ipv : list byte) (p id : Z) : Prop :=
  (∃ i, bev_map h !! id = Some i ∧ ip i = ipv ∧ port i = p) ∧
  ∀ id' i', bev_map h !! id' = Some i' → ip i' = ipv → port i' = p → id <= id'.

Lemma connection_unique h ipv p id id' :
  connection h ipv p id → connection h ipv p id' → id = id'.
Proof. intros [(i & ? & ? & ?) Ha] [(i' & ? & ? & ?) Hb].
  apply Z.le_antisymm; [by apply (Ha id' i')|by apply (Hb id i)]. Qed.

Lemma get_connection_id_cases h ipv p try b rc junk :
  bev_map_rw_lock_singal h = 0 →
  (∃ id, connection h ipv p id ∧
     get_connection_id_addr h ipv p try b rc junk = Some (id, h)) ∨
  (∀ id i, bev_map h !! id = Some i → ¬ (ip i = ipv ∧ port i = p)) ∧
    get_connection_id_addr h ipv p try b rc junk =
      if try then try_connect h ipv p b rc junk else Some (-1, h).
Proof.
  intros Hl. unfold get_connection_id_addr. rewrite Hl.
  change (rw_r_lock 0) with (Some 1). cbn [mbind option_bind].
  assert (set_map h (rw_r_unlock 1) (bev_map h) = h) as -> by (change (rw_r_unlock 1) with 0; rewrite <- Hl; apply set_map_eta).
  pose proof (find_entries h (λ e, bool_decide (ip (snd e) = ipv) && (p =? port (snd e)))) as Hf.
  destruct (find _ _) as [[id i]|].
  - destruct Hf as (H1 & [H2 H3]%andb_true_iff & H4). left. exists id. split; [|done].
    apply bool_decide_eq_true_1 in H2. apply Z.eqb_eq in H3. split; [by exists i|].
    intros id' i' Hi' Hip Hp. apply (H4 id' i' Hi'). simpl.
    by rewrite bool_decide_eq_true_2, Hp, Z.eqb_refl.
  - right. split; [|by destruct try]. intros id i Hi [Hip Hp]. specialize (Hf id i Hi). simpl in Hf.
    by rewrite bool_decide_eq_true_2, Hp, Z.eqb_refl in Hf.
Qed.

Lemma with_connection_connection h i :
  ids_inv h → (∀ id j, bev_map h !! id = Some j → ¬ (ip j = ip i ∧ port j = port i)) →
  connection (with_connection h i) (ip i) (port i) (max_bev_id h).
Proof.
  intros Hi Hno. split; simpl; [exists i; by rewrite lookup_insert_eq|].
  intros id' i' [[<- _]|[_ Hi']]%lookup_insert_Some Hip Hp; [done|]. by destruct (Hno id' i' Hi').
Qed.

(** Looking a connection up by address connects at most once: the call returns the
    least id of a connection to that address, making a new one only when there is none,
    and every later call with the address returns the same id and changes nothing. *)
Theorem get_connection_id_once h ipv p b rc junk :
  ids_inv h → unlocked h → max_bev_id h < INT_MAX → 0 <= rc →
  ∃ id h', get_connection_id_addr h ipv p true (Some b) rc junk = Some (id, h') ∧
    connection h' ipv p id ∧ ids_inv h' ∧ unlocked h' ∧
    (h' = h ∨ (∀ id', ¬ connection h ipv p id') ∧
       bev_map h' = <[id := new_info ipv p b false junk]> (bev_map h)) ∧
    ∀ try b' rc' junk', get_connection_id_addr h' ipv p try b' rc' junk' = Some (id, h').
Proof.
  intros Hi Hu Hlt Hrc. pose proof Hu as [Hl _].
  assert (∀ h' id, bev_map_rw_lock_singal h' = 0 → connection h' ipv p id →
    ∀ try b' rc' junk', get_connection_id_addr h' ipv p try b' rc' junk' = Some (id, h')) as Hagain.
  { intros h' id Hl' Hc try b' rc' junk'.
    destruct (get_connection_id_cases h' ipv p try b' rc' junk' Hl') as [(id' & Hc' & ->)|[Hno _]].
    - by rewrite (connection_unique h' ipv p id' id).
    - destruct Hc as [(i & Hid & Hip & Hp) _]. by destruct (Hno id i Hid). }
  destruct (get_connection_id_cases h ipv p true (Some b) rc junk Hl) as [(id & Hc & ->)|[Hno ->]].
  - exists id, h. do 4 (split; [done|]). split; [by left|]. by apply Hagain.
  - unfold try_connect. rewrite add_bufferevent_connect_ok by done.
    assert (connection (with_connection h (new_info ipv p b false junk)) ipv p (max_bev_id h)) as Hc.
    { apply (with_connection_connection h (new_info ipv p b false junk)); done. }
    eexists _, _. split; [done|]. split; [done|]. split; [by apply with_connection_inv|].
    split; [done|]. split; [|by apply Hagain].
    right. split; [|done]. intros id' [(i & Hid & Hip & Hp) _]. by destruct (Hno id' i Hid).
Qed.

Lemma ntohl_port p : 0 < p < 65536 → ¬ (0 <= int32 (ntohl p) < 65536).
Proof.
  intros Hp. unfold ntohl. change (le_bytes 4 p) with
    [byte_of_Z p; byte_of_Z (p / 256); byte_of_Z (p / 256 / 256); byte_of_Z (p / 256 / 256 / 256)].
  replace (p / 256 / 256) with 0 by dlia. change (0 / 256) with 0. cbn [rev app le_val].
  rewrite !Z_of_byte_of_Z. change (0 mod 256) with 0.
  assert (p / 256 mod 256 = p / 256) as -> by (apply Z.mod_small; dlia).
  unfold int32, swrap. dlia.
Qed.

(** C36. A defect of the accept callback: it looks the peer up under the byte-swapped
    32-bit image of the port but stores the 16-bit port field, so (ports being 16 bits
    wide) a peer is never found again; every accept of the same peer makes one more
    connection. *)
Theorem connlistener_never_finds_the_peer h ipv sin_port b junk :
  unlocked h → ids_inv h → 0 < sin_port < 65536 →
  (∀ id i, bev_map h !! id = Some i → 0 <= port i < 65536) →
  ∃ h', connlistener_cb h ipv sin_port b junk = Some h' ∧
    bev_map h' = <[max_bev_id h := new_info ipv sin_port b true junk]> (bev_map h) ∧
    listen_id_vector h' = listen_id_vector h ++ [max_bev_id h] ∧
    get_connection_count h' = get_connection_count h + 1.
Proof.
  intros Hu Hi Hp Hports. unfold connlistener_cb.
  destruct (get_connection_id_cases h ipv (int32 (ntohl sin_port)) false None 0 junk)
    as [(id & [(i & Hid & _ & Hpi) _] & _)|[_ ->]]; [apply Hu| |].
  - exfalso. apply Hports in Hid. rewrite Hpi in Hid. by apply (ntohl_port sin_port).
  - cbn [mbind option_bind]. change (0 <=? -1) with false. cbn iota.
    rewrite add_bufferevent_listen_ok by done. cbn [mbind option_bind].
    eexists. split; [done|]. split; [done|]. split; [done|]. unfold get_connection_count. simpl.
    rewrite map_size_insert_None by (by apply fresh_id). lia.
Qed.

(** ** Removing a connection *)

Lemma erase_at_spec v i :
  erase_at v i = if decide (0 <= i < Zlen v) then Some (delete (Z.to_nat i) v) else None.
Proof.
  unfold erase_at. destruct (decide _) as [Hd|Hd].
  - rewrite (proj2 (Z.leb_le _ _)), (proj2 (Z.ltb_lt _ _)) by lia. simpl.
    by rewrite delete_take_drop, Nat.add_1_r.
  - destruct (Z.leb_spec 0 i), (Z.ltb_spec i (Zlen v)); simpl; try done. lia.
Qed.

Definition without_connection (h : t) (id : Z) (v : list Z) : t :=
  mkHandle (isFree h) (local_port h) (max_bev_id h) (bev_map_rw_lock_singal h)
    (delete id (bev_map h)) (listen_vector_rw_lock_singal h) v (callback_set h).

Lemma without_connection_inv h id v :
  ids_inv h → NoDup v → (∀ j, j ∈ v ↔ j ∈ listen_id_vector h ∧ j ≠ id) →
  ids_inv (without_connection h id v).
Proof.
  intros Hi Hv Hel. constructor; simpl.
  - intros j i [_ Hj]%lookup_delete_Some. by apply (ids_range h Hi) in Hj.
  - apply Hi.
  - done.
  - intros j. rewrite Hel, (ids_listen h Hi). destruct (decide (j = id)) as [->|Hne].
    + rewrite lookup_delete_eq. split; [by intros [_ ?]|by intros (? & ? & _)].
    + rewrite lookup_delete_ne by done. split; [by intros [? _]|done].
Qed.

Lemma remove_buffevent_listen h id info :
  unlocked h → bev_map h !! id = Some info → is_listen info = true →
  remove_buffevent h id = v ← erase_at (listen_id_vector h) id; Some (id, without_connection h id v).
Proof.
  intros [Hl Hv] Hid Hli. unfold remove_buffevent. rewrite Hl, (rw_w_lock_ok 0) by done.
  cbn [mbind option_bind]. rewrite Hid, Hli, Hv, (rw_w_lock_ok 0) by done. cbn [mbind option_bind].
  destruct (erase_at _ _); [|done]. cbn [mbind option_bind]. unfold set_map, set_listen, without_connection.
  simpl. by rewrite Hl, Hv.
Qed.

(** C35. Removing a connection.  An unknown id is refused.  A connection made by
    connecting is deleted and the invariant kept.  An accepted one is looked up in the
    vector of accepted connections by using the id as an index (a defect): this is
    undefined behaviour when the vector is shorter, and otherwise the invariant is kept
    only if the vector happens to hold the id at that index. *)
Theorem remove_buffevent_spec h id :
  ids_inv h → unlocked h →
  match bev_map h !! id with
  | None => remove_buffevent h id = Some (-1, h)
  | Some info =>
      if is_listen info then
        match listen_id_vector h !! Z.to_nat id with
        | None => remove_buffevent h id = None
        | Some x => ∃ h', remove_buffevent h id = Some (id, h') ∧ unlocked h' ∧
            bev_map h' = delete id (bev_map h) ∧ (ids_inv h' ↔ x = id)
        end
      else ∃ h', remove_buffevent h id = Some (id, h') ∧ unlocked h' ∧
             bev_map h' = delete id (bev_map h) ∧ ids_inv h'
  end.
Proof.
  intros Hi Hu. destruct (bev_map h !! id) as [info|] eqn:Hid.
  2: { unfold remove_buffevent. destruct Hu as [Hl _]. rewrite Hl, (rw_w_lock_ok 0) by done.
       cbn [mbind option_bind]. rewrite Hid. change (rw_w_unlock _) with 0. rewrite <- Hl.
       by rewrite set_map_eta. }
  pose proof (ids_range h Hi _ _ Hid) as Hrange. destruct (is_listen info) eqn:Hli.
  - rewrite (remove_buffevent_listen h id info), erase_at_spec by done.
    destruct (listen_id_vector h !! Z.to_nat id) as [x|] eqn:Hx.
    + rewrite decide_True by (apply lookup_lt_Some in Hx; lia). cbn [mbind option_bind].
      eexists. split; [done|]. split; [done|]. split; [done|].
      apply list_elem_of_split_length in Hx as (l1 & l2 & Hv & Hn).
      pose proof (ids_nodup h Hi) as Hnd. rewrite Hv, Hn, delete_middle in *.
      apply NoDup_middle in Hnd as [Hnd Hel]. split.
      * intros Hi'. destruct (decide (id = x)) as [|Hne]; [done|]. exfalso.
        assert (id ∈ listen_id_vector h) as Hin by (apply (ids_listen h Hi); eauto).
        rewrite Hv in Hin. assert (id ∈ l1 ++ l2) as Hin' by (by apply Hel).
        apply (ids_listen _ Hi') in Hin' as (i & Hdel & _). simpl in Hdel.
        by rewrite lookup_delete_eq in Hdel.
      * intros ->. apply without_connection_inv; [done|done|]. by rewrite Hv.
    + rewrite decide_False; [done|]. apply lookup_ge_None in Hx. lia.
  - exists (without_connection h id (listen_id_vector h)). split; [|split; [done|split; [done|]]].
    + unfold remove_buffevent. destruct Hu as [Hl _]. rewrite Hl, (rw_w_lock_ok 0) by done.
      cbn [mbind option_bind]. rewrite Hid, Hli. cbn [mbind option_bind].
      unfold set_map, without_connection. by rewrite Hl.
    + apply without_connection_inv; [done|apply Hi|]. intros j. split; [|by intros [? _]].
      intros Hj. split; [done|]. intros ->. apply (ids_listen h Hi) in Hj as (i & Hj & ?). congruence.
Qed.

(** [free_handle] of a handle without connections takes the first element of the empty
    map (undefined behaviour), because the condition of its loop is inverted; with
    connections the loop is skipped, so none of them is released. *)
Lemma free_handle_inverted h :
  unlocked h → isFree h = false →
  (bev_map h = ∅ → free_handle h = None) ∧
  (bev_map h ≠ ∅ → ∃ h', free_handle h = Some (true, h') ∧ bev_map h' = ∅ ∧ is_free h' = true).
Proof.
  intros [Hl Hv] Hf. unfold free_handle. rewrite Hf, Hl. split; intros Hm; simpl.
  - by rewrite decide_True.
  - rewrite decide_False by done. eauto.
Qed.

End LibeventHandle.

#[global] Arguments BevInfor : clear implicits.
#[global] Arguments t : clear implicits.

(** ** The properties at concrete handles, with plain lists as buffers *)

Definition info0 (listen cache : bool) (blk : Z) (inp : list byte) : BevInfor (list byte) :=
  mkInfo (bs "10.0.0.1") 8080 7 inp [] 0 listen blk cache 0 0.

Definition handle0 (i : BevInfor (list byte)) (v : list Z) : t (list byte) :=
  mkHandle false 9000 1 0 {[0 := i]} 0 v true.

Lemma handle0_ids_inv listen cache blk inp :
  ids_inv (handle0 (info0 listen cache blk inp) (if listen then [0] else [])).
Proof.
  constructor; simpl.
  - intros id i [<- _]%lookup_singleton_Some. lia.
  - lia.
  - destruct listen; repeat constructor; by intros ?%elem_of_nil.
  - intros id. split.
    + destruct listen; [|by intros ?%elem_of_nil]. intros ->%list_elem_of_singleton.
      eexists. by split.
    + intros (i & [<- <-]%lookup_singleton_Some & Hl). simpl in Hl. subst listen. left.
Qed.

Lemma framed_stream_delivers_witness :
  let ms := [bs "hello"; bs "second message"] in
  let h := handle0 (info0 false false 0 []) [] in
  let cs := [take 6 (stream ms); drop 6 (stream ms)] in
  ∃ h', session 0 h cs [bs "hello"] h' ∧
  ∃ rest, ms = [bs "hello"] ++ rest ∧
    (∃ info', connected h' 0 info' ∧ conn_inv info' ∧
       stream [bs "hello"] ++ pending info' = concat cs) ∧
    (concat cs = stream ms → ∃ h'', session 0 h' [] rest h'').
Proof.
  intros ms h cs.
  assert (∃ h', session 0 h cs [bs "hello"] h') as [h' Hs].
  { eexists. eapply session_arrive; [reflexivity|reflexivity|].
    eapply session_idle; [vm_compute; reflexivity|lia|].
    eapply session_arrive; [reflexivity|reflexivity|].
    eapply session_recive; [vm_compute; reflexivity|lia|]. apply session_end. }
  exists h'. split; [exact Hs|].
  apply (framed_stream_delivers 0 h (info0 false false 0 []) cs [bs "hello"] h' ms).
  - split; reflexivity.
  - constructor; vm_compute; naive_solver.
  - reflexivity.
  - repeat constructor; vm_compute; done.
  - vm_compute; done.
  - exact Hs.
  - exists []. reflexivity.
Defined.

Lemma short_message_never_delivered_witness :
  recive_times 3 (handle0 (info0 false true 2 (bs "ok")) []) 0 =
    Some ([0; 0; 0], handle0 (info0 false true 2 (bs "ok")) []).
Proof.
  apply (short_message_never_delivered _ 0 (info0 false true 2 (bs "ok")) (bs "ok")).
  - split; reflexivity.
  - constructor; vm_compute; naive_solver.
  - reflexivity.
  - reflexivity.
  - vm_compute; done.
Defined.

Lemma send_spec_witness :
  ∃ h', send (handle0 (info0 false false 0 []) []) 5 (bs "data") 4 = Some (false, h') ∧
    bev_map_rw_lock_singal h' = 1 ∧ ∀ i, add_info h' i = None.
Proof.
  destruct (send_spec (handle0 (info0 false false 0 []) []) 5 (bs "data") eq_refl) as (_ & H & _).
  destruct (H ltac:(lia) eq_refl) as (h' & Hs & _ & Hb). exists h'. split; [exact Hs|].
  split; [|intros i; apply (Hb i 0 [] 0 0 0 (false, 0))].
  vm_compute in Hs. by injection Hs as <-.
Defined.

Lemma add_connection_spec_witness :
  let h := handle0 (info0 false false 0 []) [] in
  ids_inv h ∧ unlocked h ∧ max_bev_id h = 1 ∧
  (∃ h' i, add_bufferevent_listen h (bs "10.0.0.2") 81 9 (false, 0) = Some (1, h') ∧ max_bev_id h' = 2 ∧
    bev_map h' = <[1 := i]> (bev_map h) ∧ port i = 81 ∧ ids_inv h') ∧
  add_bufferevent_connect h (bs "10.0.0.2") 81 None 0 (false, 0) = Some (-1, h).
Proof.
  intros h. split; [apply (handle0_ids_inv false)|]. split; [done|]. split; [done|].
  destruct (add_connection_spec h (bs "10.0.0.2") 81 9 0 (false, 0)) as (H & Hnone & _); [apply (handle0_ids_inv false)|done|done|].
  destruct (H _ (or_introl eq_refl)) as (h' & i & E & Hm & _ & Hmap & _ & Hp & _ & _ & _ & Hinv & _).
  split; [|exact Hnone]. exists h', i. split; [exact E|]. split; [exact Hm|]. split; [exact Hmap|]. by split.
Defined.

Lemma get_connection_id_once_witness :
  let h := handle0 (info0 false false 0 []) [] in
  ∃ id h', get_connection_id_addr h (bs "10.0.0.2") 81 true (Some 9) 0 (false, 0) = Some (id, h') ∧
    connection h' (bs "10.0.0.2") 81 id.
Proof.
  intros h.
  destruct (get_connection_id_once h (bs "10.0.0.2") 81 9 0 (false, 0)) as (id & h' & H1 & H2 & _);
    [apply (handle0_ids_inv false)|done|done|lia|]. by exists id, h'.
Defined.

Lemma connlistener_never_finds_the_peer_witness :
  let h := handle0 (info0 true false 0 []) [0] in
  ∃ h', connlistener_cb h (bs "10.0.0.1") 8080 9 (false, 0) = Some h' ∧
    get_connection_count h' = get_connection_count h + 1.
Proof.
  intros h.
  destruct (connlistener_never_finds_the_peer h (bs "10.0.0.1") 8080 9 (false, 0))
    as (h' & H1 & _ & _ & H2); [done|apply (handle0_ids_inv true)|lia| |by exists h'].
  unfold h, handle0. simpl. intros id i [<- <-]%lookup_singleton_Some. simpl. lia.
Defined.

Lemma remove_buffevent_spec_witness :
  ids_inv (handle0 (info0 true false 0 []) [0]) ∧
  ∃ h', remove_buffevent (handle0 (info0 true false 0 []) [0]) 0 = Some (0, h') ∧ unlocked h' ∧
    bev_map h' = delete 0 {[0 := info0 true false 0 []]} ∧ (ids_inv h' ↔ 0 = 0).
Proof.
  split; [apply (handle0_ids_inv true)|].
  exact (remove_buffevent_spec (handle0 (info0 true false 0 []) [0]) 0
           (handle0_ids_inv true false 0 []) (conj eq_refl eq_refl)).
Defined.
