(* ===== verification/EventMessHandle.v ===== *)
(** * The message handle (class EventMessageHandle, multi_net_io/src/event_mess_handle.cc and
    include/event_mess_handle.h)

    Message groups, each with its own network handle, ports and message types.  A received
    message goes to the callback registered for its type or to the list of unprocessed
    messages, from which the application reads.  [None] is undefined behaviour (a null or
    dangling pointer, a bad offset) or a thread that spins for ever. *)

From S2P Require Import Prelude RwLock ByteStream.
From S2P Require LibeventHandle EventMessage.

Section EventMessHandle.
Context {S : Type} `{!ByteStream S}.

Record CallbackInfor := mkCallback {
  cb_function : option Z;          (* the function registered, if any *)
  cb_arg : Z;
  unprocessed_mess_list : list EventMessage.t
}.

Record GroupInfor := mkGroup {
  handle : LibeventHandle.t S;
  host_port_map : gmap (list byte) Z;
  mess_callback_map : gmap (list byte) CallbackInfor
}.

(** A group is held by pointer; [None] is the pointer of a deleted one. *)
Record t := mk {
  this_free : bool;
  local_host_name : list byte;
  host_config_map : gmap (list byte) (list byte);
  mess_group_map : gmap (list byte) (option GroupInfor)
}.

Definition set_groups (h : t) (g : gmap (list byte) (option GroupInfor)) : t :=
  mk (this_free h) (local_host_name h) (host_config_map h) g.

Definition set_group (h : t) (name : list byte) (g : GroupInfor) : t :=
  set_groups h (<[name := Some g]> (mess_group_map h)).

Definition set_handle (g : GroupInfor) (lh : LibeventHandle.t S) : GroupInfor :=
  mkGroup lh (host_port_map g) (mess_callback_map g).

Definition set_callback (g : GroupInfor) (ty : list byte) (c : CallbackInfor) : GroupInfor :=
  mkGroup (handle g) (host_port_map g) (<[ty := c]> (mess_callback_map g)).

Definition set_unprocessed (c : CallbackInfor) (l : list EventMessage.t) : CallbackInfor :=
  mkCallback (cb_function c) (cb_arg c) l.

(** The functions registered as callbacks are the application's: what [cb] does to the
    application's state and to the handle when it is invoked with a message and its
    argument. *)
Context {A : Type}.
Variable run_cb : Z → A → t → EventMessage.t → Z → option (A * t * EventMessage.t).

(** ** Configuration

    The parsed documents; a JSON string is given by its bytes. *)

Record host_item := HostItem { hi_name : list byte; hi_ip : list byte; hi_local : bool }.
Record group_item := GroupItem {
  gi_name : list byte; gi_hosts : list (list byte * Z); gi_types : list (list byte)
}.

Fixpoint read_hosts (hosts : list host_item) (h : t) : t :=
  match hosts with
  | [] => h
  | HostItem name ip is_local :: hosts =>
      read_hosts hosts
        (mk (this_free h) (if is_local then name else local_host_name h)
           (<[name := ip]> (host_config_map h)) (mess_group_map h))
  end.

(** A new [LibeventHandle]: the constructor only sets [isFree]. *)
Definition new_handle : LibeventHandle.t S := LibeventHandle.mkHandle true 0 0 0 ∅ 0 [] false.

(** [base_ok port]: whether event_base_new succeeds for the group's handle. *)
Definition init_group (base_ok : Z → bool) (local_host : list byte) (g : group_item) : GroupInfor :=
  let ports := fold_left (λ m hp, <[fst hp := snd hp]> m) (gi_hosts g) (∅ : gmap (list byte) Z) in
  let local_port := default 0 (ports !! local_host) in
  let ports := <[local_host := local_port]> ports in
  let '(_, lh) := LibeventHandle.init_handle new_handle (base_ok local_port) local_port in
  let lh := LibeventHandle.set_event_callback lh in
  mkGroup lh ports
    (fold_left (λ m ty, <[ty := mkCallback None 0 []]> m) (gi_types g)
       (∅ : gmap (list byte) CallbackInfor)).

Fixpoint init_group_infor_map (base_ok : Z → bool) (groups : list group_item) (h : t) : t :=
  match groups with
  | [] => h
  | g :: groups =>
      init_group_infor_map base_ok groups
        (set_group h (gi_name g) (init_group base_ok (local_host_name h) g))
  end.

Definition read_config (base_ok : Z → bool) (hosts : list host_item) (groups : list group_item)
    (h : t) : t :=
  init_group_infor_map base_ok groups (read_hosts hosts h).

(** The result is [None] where the function ends without a [return]. *)
Definition init_handle (base_ok : Z → bool) (hosts : list host_item) (groups : list group_item)
    (h : t) : option bool * t :=
  if this_free h then
    (None, read_config base_ok hosts groups
             (mk false (local_host_name h) (host_config_map h) (mess_group_map h)))
  else (Some false, h).

Definition free_handle (h : t) : option bool * t :=
  if this_free h then (Some false, h)
  else (None, mk true (local_host_name h) (host_config_map h) ((λ _, None) <$> mess_group_map h)).

Definition is_free (h : t) : bool := this_free h.
Definition is_init (h : t) : bool := negb (this_free h).

(** ** Lookups *)

(** [mess_group_map[name]->...] *)
Definition group (h : t) (name : list byte) : option GroupInfor := mjoin (mess_group_map h !! name).

Definition check_mess_type (h : t) (m : EventMessage.t) : option (bool * EventMessage.t) :=
  g ← EventMessage.read_cstr m (EventMessage.group_name m);
  match mess_group_map h !! g with
  | None => Some (false, EventMessage.set_error m EventMessage.GROUP_NOT_FOUND)
  | Some gp =>
      gi ← gp;
      ty ← EventMessage.read_cstr m (EventMessage.mess_type m);
      match mess_callback_map gi !! ty with
      | None => Some (false, EventMessage.set_error m EventMessage.MESS_TYPE_NOT_FOUND)
      | Some _ => Some (true, m)
      end
  end.

(** The group and type entry a message that passed the check belongs to. *)
Definition lookup_type (h : t) (m : EventMessage.t) :
    option (list byte * list byte * GroupInfor * CallbackInfor) :=
  g ← EventMessage.read_cstr m (EventMessage.group_name m);
  gi ← group h g;
  ty ← EventMessage.read_cstr m (EventMessage.mess_type m);
  c ← mess_callback_map gi !! ty;
  Some (g, ty, gi, c).

Definition set_type (h : t) (g ty : list byte) (gi : GroupInfor) (c : CallbackInfor) : t :=
  set_group h g (set_callback gi ty c).

(** The local [EventMessage mess] with only the two names set. *)
Definition named (g ty : list byte) : EventMessage.t :=
  EventMessage.mk (EventMessage.Ext g) (EventMessage.Ext ty) EventMessage.Null EventMessage.Null
    EventMessage.Null 0 EventMessage.SUCCESS false false false [] 0.

Definition register_recive_handler (h : t) (g ty : list byte) (cb : option Z) (arg : Z) :
    option (bool * t) :=
  '(ok, m) ← check_mess_type h (named g ty);
  if negb ok then Some (false, h)
  else
    '(g, ty, gi, c) ← lookup_type h m;
    Some (true, set_type h g ty gi (mkCallback cb arg (unprocessed_mess_list c))).

Definition get_unprocessed_message_count (h : t) (g ty : list byte) : option Z :=
  '(ok, m) ← check_mess_type h (named g ty);
  if negb ok then Some 0
  else
    '(_, _, _, c) ← lookup_type h m;
    Some (uint32 (Zlen (unprocessed_mess_list c))).

Definition get_ip (h : t) (hostname : list byte) : option (list byte) :=
  host_config_map h !! hostname.

(** [host_port_map[hostname]] makes an entry with port 0 when there is none. *)
Definition get_port (h : t) (hostname group_name : list byte) : option (Z * t) :=
  match mess_group_map h !! group_name with
  | None => Some (0, h)
  | Some gp =>
      gi ← gp;
      let port := default 0 (host_port_map gi !! hostname) in
      Some (port, set_group h group_name
                    (mkGroup (handle gi) (<[hostname := port]> (host_port_map gi)) (mess_callback_map gi)))
  end.

Definition get_libeventhandle (h : t) (group_name : list byte) : option (option (LibeventHandle.t S)) :=
  match mess_group_map h !! group_name with
  | None => Some None
  | Some gp => gi ← gp; Some (Some (handle gi))
  end.

(** ** Reading *)

Definition readMessage (h : t) (m : EventMessage.t) : option (Z * t * EventMessage.t) :=
  if negb (EventMessage.will_recive m)
  then Some (-1, h, EventMessage.set_error m EventMessage.INCOMPLETE_MESSAGE)
  else
    '(ok, m) ← check_mess_type h m;
    if negb ok then Some (-1, h, m)
    else
      '(g, ty, gi, c) ← lookup_type h m;
      match unprocessed_mess_list c with
      | [] => Some (0, h, EventMessage.set_error m EventMessage.NONE_UNPROCESSED_MESSAGE)
      | front :: l =>
          m ← EventMessage.copy m front;
          Some (1, set_type h g ty gi (set_unprocessed c l), m)
      end.

(** The first message the filter accepts, and the list without it; the filter is the
    application's and may itself go wrong. *)
Fixpoint take_first (filter : EventMessage.t → option bool) (l : list EventMessage.t) :
    option (option (EventMessage.t * list EventMessage.t)) :=
  match l with
  | [] => Some None
  | x :: l =>
      accept ← filter x;
      if (accept : bool) then Some (Some (x, l))
      else r ← take_first filter l; Some (option_map (λ yl, (fst yl, x :: snd yl)) r)
  end.

Definition readMessage_filter (h : t) (m : EventMessage.t) (filter : EventMessage.t → option bool) :
    option (Z * t * EventMessage.t) :=
  if negb (EventMessage.will_recive m)
  then Some (-1, h, EventMessage.set_error m EventMessage.INCOMPLETE_MESSAGE)
  else
    '(ok, m) ← check_mess_type h m;
    if negb ok then Some (-1, h, m)
    else
      '(g, ty, gi, c) ← lookup_type h m;
      if decide (unprocessed_mess_list c = []) then
        Some (0, h, EventMessage.set_error m EventMessage.NONE_UNPROCESSED_MESSAGE)
      else
        r ← take_first filter (unprocessed_mess_list c);
        match r with
        | Some (x, l) =>
            m ← EventMessage.copy m x;
            Some (1, set_type h g ty gi (set_unprocessed c l), m)
        | None => Some (0, h, EventMessage.set_error m EventMessage.NONE_REQUESTED_MESSAGE)
        end.

(** ** Sending *)

(** [b], [rc], [junk]: as for LibeventHandle.get_connection_id_addr. *)
Definition sendMessage (h : t) (m : EventMessage.t) (b : option Z) (rc : Z) (junk : bool * Z) :
    option (Z * t * EventMessage.t) :=
  if negb (EventMessage.will_send m)
  then Some (-1, h, EventMessage.set_error m EventMessage.INCOMPLETE_MESSAGE)
  else
    '(ok, m) ← check_mess_type h m;
    if negb ok then Some (-1, h, m)
    else
      g ← EventMessage.read_cstr m (EventMessage.group_name m);
      host ← EventMessage.read_cstr m (EventMessage.recive_host_name m);
      let ip := get_ip h host in
      '(port, h) ← get_port h host g;
      match ip with
      | Some ip =>
          if port =? 0 then Some (-1, h, EventMessage.set_error m EventMessage.INVALID_HOST)
          else
            let m := EventMessage.set_send_host_name m (EventMessage.Ext (local_host_name h)) in
            m ← EventMessage.init_buffer_str m;
            gi ← group h g;
            '(connect_id, lh) ← LibeventHandle.get_connection_id_addr (handle gi) ip port true b rc junk;
            '(return_bool, lh) ← LibeventHandle.send lh connect_id (EventMessage.buffer_str m)
                                   (int32 (EventMessage.buffer_size m));
            Some (1, set_group h g (set_handle gi lh), m)
      | None => Some (-1, h, EventMessage.set_error m EventMessage.INVALID_HOST)
      end.

(** ** Dispatching received messages *)

(** The message that goes into the list is made by the copy constructor, which does not initialise
    error_no, will_send and will_recive (a defect); they are those of [clear] here, and nothing in the
    handle reads them again ([stored_flags_unread]). *)
Definition try_run_callback (a : A) (h : t) (m : EventMessage.t) :
    option (bool * A * t * EventMessage.t) :=
  '(ok, m) ← check_mess_type h m;
  if negb ok then Some (false, a, h, m)
  else
    '(g, ty, gi, c) ← lookup_type h m;
    match cb_function c with
    | Some cb => '(a, h, m) ← run_cb cb a h m (cb_arg c); Some (true, a, h, m)
    | None =>
        m' ← EventMessage.copy EventMessage.clear m;
        Some (true, a, set_type h g ty gi (set_unprocessed c (unprocessed_mess_list c ++ [m'])), m)
    end.

(** The loop that takes messages off a connection of the network handle of group [gname];
    [fuel] bounds its iterations. *)
Fixpoint read_callback_message_from_libevent (fuel : nat) (a : A) (h : t) (gname : list byte)
    (connect_id : Z) : option (bool * A * t) :=
  match fuel with
  | O => None
  | Datatypes.S fuel =>
      gi ← group h gname;
      '(len, lh) ← LibeventHandle.get_recive_buffer_length (handle gi) connect_id;
      if negb (0 <? len) then Some (true, a, set_group h gname (set_handle gi lh))
      else
        '(recive_size, buffer_str, lh) ← LibeventHandle.recive_str_NoWait lh connect_id [];
        let h := set_group h gname (set_handle gi lh) in
        if recive_size <=? 0 then Some (false, a, h)
        else
          mess ← EventMessage.init_message_ptr
                   (EventMessage.set_buffer EventMessage.clear buffer_str (uint32 recive_size));
          '(ok, a, h, _) ← try_run_callback a h mess;
          if negb ok then Some (false, a, h)
          else read_callback_message_from_libevent fuel a h gname connect_id
  end.

Definition libevent_callback (fuel : nat) (a : A) (h : t) (gname : list byte) (connect_id : Z) :
    option (A * t) :=
  '(_, a, h) ← read_callback_message_from_libevent fuel a h gname connect_id;
  Some (a, h).

(** ** What the application sees

    [view h g ty]: the callback registered for a type of a group and its unprocessed
    messages; [net h g]: the network handle of a group. *)

Definition view (h : t) (g ty : list byte) : option (option Z * list EventMessage.t) :=
  gi ← group h g; c ← mess_callback_map gi !! ty; Some (cb_function c, unprocessed_mess_list c).

Definition net (h : t) (g : list byte) : option (LibeventHandle.t S) := handle <$> group h g.

(** The message object a received message with content [c] is stored as. *)
Definition received (c : EventMessage.content) : EventMessage.t :=
  EventMessage.decoded EventMessage.clear c.

Lemma received_fields c :
  EventMessage.names_ok c →
  EventMessage.read_cstr (received c) (EventMessage.group_name (received c)) = Some (EventMessage.c_group c) ∧
  EventMessage.read_cstr (received c) (EventMessage.send_host_name (received c)) = Some (EventMessage.c_send c) ∧
  EventMessage.read_mem (received c) (EventMessage.message (received c)) (Zlen (EventMessage.c_payload c)) =
    Some (EventMessage.c_payload c).
Proof.
  intros Hc. by destruct (EventMessage.read_fields (received c) c) as (H1 & H2 & H3 & _ & H5);
    [apply EventMessage.read_decoded|].
Qed.

(** The queue of a type without callback holds the contents [q]. *)
Definition queued (h : t) (g ty : list byte) (q : list EventMessage.content) : Prop :=
  view h g ty = Some (None, received <$> q).

Lemma group_set_group h g gi g' :
  group (set_group h g gi) g' = if decide (g = g') then Some gi else group h g'.
Proof.
  unfold group, set_group. simpl. destruct (decide (g = g')) as [->|].
  - by rewrite lookup_insert_eq.
  - by rewrite lookup_insert_ne.
Qed.

Lemma net_set_type h g ty gi c g' :
  group h g = Some gi → net (set_type h g ty gi c) g' = net h g'.
Proof.
  intros Hg. unfold net, set_type. rewrite group_set_group. destruct (decide _) as [<-|]; [|done].
  by rewrite Hg.
Qed.

Lemma view_set_type h g ty gi c g' ty' :
  group h g = Some gi →
  view (set_type h g ty gi c) g' ty' =
    if decide (g = g' ∧ ty = ty') then Some (cb_function c, unprocessed_mess_list c)
    else view h g' ty'.
Proof.
  intros Hg. unfold view, set_type. rewrite group_set_group.
  destruct (decide (g = g')) as [<-|Hne]; [|by rewrite decide_False by (by intros [? ?])].
  rewrite Hg. simpl. destruct (decide (ty = ty')) as [<-|Hne].
  - rewrite decide_True by done. by rewrite lookup_insert_eq.
  - rewrite decide_False by (by intros [? ?]). by rewrite lookup_insert_ne.
Qed.

Lemma view_set_handle h g gi lh g' ty' :
  group h g = Some gi → view (set_group h g (set_handle gi lh)) g' ty' = view h g' ty'.
Proof.
  intros Hg. unfold view. rewrite group_set_group. destruct (decide _) as [<-|]; [|done].
  by rewrite Hg.
Qed.

Lemma net_set_handle h g gi lh : net (set_group h g (set_handle gi lh)) g = Some lh.
Proof. unfold net. rewrite group_set_group. by rewrite decide_True. Qed.

(** The message names group [g] and type [ty]. *)
Definition names (m : EventMessage.t) (g ty : list byte) : Prop :=
  EventMessage.read_cstr m (EventMessage.group_name m) = Some g ∧
  EventMessage.read_cstr m (EventMessage.mess_type m) = Some ty.

Lemma group_inv h g gi : group h g = Some gi → mess_group_map h !! g = Some (Some gi).
Proof. unfold group. destruct (mess_group_map h !! g) as [[]|]; simpl; congruence. Qed.

Lemma view_inv h g ty cb l :
  view h g ty = Some (cb, l) → ∃ gi c, group h g = Some gi ∧ mess_callback_map gi !! ty = Some c ∧
    cb_function c = cb ∧ unprocessed_mess_list c = l.
Proof.
  unfold view. destruct (group h g) as [gi|]; simpl; [|done].
  destruct (mess_callback_map gi !! ty) as [c|] eqn:E; simpl; [|done].
  intros [= <- <-]. by exists gi, c.
Qed.

Lemma check_mess_type_ok h m g ty gi c :
  names m g ty → group h g = Some gi → mess_callback_map gi !! ty = Some c →
  check_mess_type h m = Some (true, m) ∧ lookup_type h m = Some (g, ty, gi, c).
Proof.
  intros [Hn Ht] Hg Hc. unfold check_mess_type, lookup_type. rewrite Hn, Ht. simpl.
  rewrite (group_inv _ _ _ Hg), Hg. simpl. by rewrite Hc.
Qed.

Lemma check_mess_type_bad h m g ty :
  names m g ty → view h g ty = None → (∀ gp, mess_group_map h !! g = Some gp → gp ≠ None) →
  check_mess_type h m = Some (false, EventMessage.set_error m
    (if mess_group_map h !! g is Some _ then EventMessage.MESS_TYPE_NOT_FOUND
     else EventMessage.GROUP_NOT_FOUND)).
Proof.
  intros [Hn Ht] Hv Hlive. unfold check_mess_type. rewrite Hn, Ht. simpl.
  unfold view, group in Hv.
  destruct (mess_group_map h !! g) as [[gi|]|]; simpl in *; [|by destruct (Hlive None)|done].
  by destruct (mess_callback_map gi !! ty).
Qed.

Lemma received_names c : EventMessage.names_ok c → names (received c) (EventMessage.c_group c) (EventMessage.c_type c).
Proof.
  intros Hc. destruct (EventMessage.read_fields (received c) c) as (H1 & H2 & _); [|done].
  by apply EventMessage.read_decoded.
Qed.

Lemma copy_received m c :
  EventMessage.wire_size c < 2 ^ 32 →
  EventMessage.copy m (received c) = Some (EventMessage.decoded m c).
Proof. intros Hs. unfold EventMessage.copy. by rewrite (EventMessage.init_message_ptr_wire _ c). Qed.

(** The group pointers in use are live. *)
Definition live (h : t) : Prop := ∀ g gp, mess_group_map h !! g = Some gp → gp ≠ None.
Lemma live_set_group h name gi : live h → live (set_group h name gi).
Proof. intros Hl g gp. simpl. intros [[_ <-]|[_ ?]]%lookup_insert_Some; [done|by eapply Hl]. Qed.

(** A message of a type without callback is queued, behind the others. *)
Lemma try_run_callback_queue a h c q :
  EventMessage.names_ok c → EventMessage.wire_size c < 2 ^ 32 →
  queued h (EventMessage.c_group c) (EventMessage.c_type c) q →
  ∃ h', try_run_callback a h (received c) = Some (true, a, h', received c) ∧
    (∀ g, net h' g = net h g) ∧
    (∀ g ty, view h' g ty =
      if decide (EventMessage.c_group c = g ∧ EventMessage.c_type c = ty)
      then Some (None, received <$> (q ++ [c])) else view h g ty) ∧
    (live h → live h').
Proof.
  intros Hn Hs Hq. apply view_inv in Hq as (gi & ci & Hg & Hc & Hcb & Hl).
  destruct (check_mess_type_ok h (received c) _ _ gi ci (received_names c Hn) Hg Hc) as [Hck Hlk].
  unfold try_run_callback. rewrite Hck. cbn [mbind option_bind negb]. rewrite Hlk.
  cbn [mbind option_bind]. rewrite Hcb. rewrite copy_received by done. cbn [mbind option_bind].
  eexists. split; [done|]. split.
  - intros g. by apply net_set_type.
  - split; [|apply live_set_group].
    intros g ty. rewrite view_set_type by done. cbn [cb_function set_unprocessed unprocessed_mess_list].
    by rewrite Hcb, Hl, fmap_app.
Qed.

(** A message is read from the list by [EventMessage.copy], which takes the buffer only: whatever the
    copy constructor has left in the other fields has no effect. *)
Lemma stored_flags_unread dst x e will_s will_r :
  EventMessage.copy dst (EventMessage.mk (EventMessage.group_name x) (EventMessage.mess_type x)
    (EventMessage.send_host_name x) (EventMessage.recive_host_name x) (EventMessage.message x)
    (EventMessage.message_size x) e will_s will_r (EventMessage.cursor x) (EventMessage.buffer_str x)
    (EventMessage.buffer_size x)) = EventMessage.copy dst x.
Proof. done. Qed.

(** ** Delivery *)

Definition deliverable (c : EventMessage.content) : Prop :=
  EventMessage.names_ok c ∧ EventMessage.wire_size c <= INT_MAX.

Lemma deliverable_sendable c : deliverable c → LibeventHandle.sendable (EventMessage.wire c).
Proof.
  intros [_ Hs]. unfold LibeventHandle.sendable. rewrite EventMessage.wire_length.
  split; [unfold EventMessage.wire_size; lia|done].
Qed.

Definition for_type (g ty : list byte) (c : EventMessage.content) : Prop :=
  EventMessage.c_group c = g ∧ EventMessage.c_type c = ty.
#[local] Instance for_type_dec g ty c : Decision (for_type g ty c).
Proof. unfold for_type. apply _. Defined.

(** The next frame is taken off the connection and handed to try_run_callback. *)
Lemma read_callback_front fuel a h gname lh id info c cs :
  net h gname = Some lh → LibeventHandle.connected lh id info → LibeventHandle.conn_inv info →
  Forall deliverable (c :: cs) →
  LibeventHandle.pending info = LibeventHandle.stream (EventMessage.wire <$> c :: cs) →
  ∃ h1 lh' info', read_callback_message_from_libevent (Datatypes.S fuel) a h gname id =
      ('(ok, a, h, _) ← try_run_callback a h1 (received c);
       if negb ok then Some (false, a, h) else read_callback_message_from_libevent fuel a h gname id) ∧
    net h1 gname = Some lh' ∧ LibeventHandle.connected lh' id info' ∧
    LibeventHandle.conn_inv info' ∧
    LibeventHandle.pending info' = LibeventHandle.stream (EventMessage.wire <$> cs) ∧
    (∀ g ty, view h1 g ty = view h g ty) ∧ (live h → live h1).
Proof.
  intros Hnet Hc Hi Hd Hp.
  assert (Forall LibeventHandle.sendable (EventMessage.wire <$> c :: cs)) as Hsend.
  { apply Forall_fmap. eapply Forall_impl; [exact Hd|]. apply deliverable_sendable. }
  apply Forall_cons in Hd as [[Hn Hw] Hd].
  unfold net in Hnet. destruct (group h gname) as [gi|] eqn:Hg; [|done]. injection Hnet as Hlh.
  cbn [read_callback_message_from_libevent]. rewrite Hg. cbn [mbind option_bind]. rewrite Hlh.
  rewrite (LibeventHandle.recive_length lh id info) by done. cbn [mbind option_bind].
  assert (0 < Zlen (str_bytes (LibeventHandle.input info))) as Hlen.
  { pose proof (LibeventHandle.pending_length info) as Hl. rewrite Hp, fmap_cons in Hl.
    rewrite LibeventHandle.stream_cons, length_app, Nat2Z.inj_add, LibeventHandle.frame_length in Hl.
    apply Forall_cons in Hsend as [[H4 _] _]. lia. }
  rewrite (proj2 (Z.ltb_lt _ _) Hlen). cbn [negb].
  rewrite fmap_cons in Hsend, Hp.
  destruct (LibeventHandle.recive_stream_front lh id info (EventMessage.wire c) (EventMessage.wire <$> cs))
    as (info' & Hr & Hc' & Hi' & Hp'); [done..|].
  rewrite Hr. cbn [mbind option_bind]. rewrite EventMessage.wire_length.
  assert (28 <= EventMessage.wire_size c) by (unfold EventMessage.wire_size; lia).
  unfold INT_MAX in Hw. destruct (Z.leb_spec (EventMessage.wire_size c) 0); [lia|].
  rewrite uint32_id by lia.
  rewrite (EventMessage.init_message_ptr_wire _ c) by (done || (simpl; lia)). cbn [mbind option_bind].
  change (EventMessage.decoded _ c) with (received c).
  eexists (set_group h gname (set_handle gi (LibeventHandle.set_info lh id info'))), _, info'.
  split; [done|]. split; [apply net_set_handle|]. do 3 (split; [done|]).
  split; [intros g ty; by apply view_set_handle|apply live_set_group].
Qed.

Lemma read_callback_step fuel a h gname lh id info c cs q :
  net h gname = Some lh → LibeventHandle.connected lh id info → LibeventHandle.conn_inv info →
  Forall deliverable (c :: cs) →
  LibeventHandle.pending info = LibeventHandle.stream (EventMessage.wire <$> c :: cs) →
  queued h (EventMessage.c_group c) (EventMessage.c_type c) q →
  ∃ h' lh' info', read_callback_message_from_libevent (Datatypes.S fuel) a h gname id =
      read_callback_message_from_libevent fuel a h' gname id ∧
    net h' gname = Some lh' ∧ LibeventHandle.connected lh' id info' ∧
    LibeventHandle.conn_inv info' ∧
    LibeventHandle.pending info' = LibeventHandle.stream (EventMessage.wire <$> cs) ∧
    (∀ g ty, view h' g ty =
      if decide (for_type g ty c) then Some (None, received <$> (q ++ [c])) else view h g ty) ∧
    (live h → live h').
Proof.
  intros Hnet Hc Hi Hd Hp Hq.
  destruct (read_callback_front fuel a h gname lh id info c cs)
    as (h1 & lh' & info' & -> & Hn1 & Hc' & Hi' & Hp' & Hv1 & Hl1); [done..|].
  apply Forall_cons in Hd as [[Hn Hw] Hd]. unfold INT_MAX in Hw.
  destruct (try_run_callback_queue a h1 c q) as (h' & Ht & Hn' & Hv' & Hl'); [done|lia|by unfold queued; rewrite Hv1|].
  rewrite Ht. cbn [mbind option_bind negb]. exists h', lh', info'.
  split; [done|]. split; [by rewrite Hn'|]. do 3 (split; [done|]). split; [|by intros ?%Hl1%Hl'].
  intros g ty. rewrite Hv'. unfold for_type. by rewrite Hv1.
Qed.

(** A message of a type that nobody has registered ends the loop; it is lost, and what follows it
    stays unread. *)
Definition unregistered (h : t) (c : EventMessage.content) : Prop :=
  view h (EventMessage.c_group c) (EventMessage.c_type c) = None.

Lemma read_callback_unregistered fuel a h gname lh id info c cs :
  net h gname = Some lh → LibeventHandle.connected lh id info → LibeventHandle.conn_inv info →
  Forall deliverable (c :: cs) →
  LibeventHandle.pending info = LibeventHandle.stream (EventMessage.wire <$> c :: cs) →
  unregistered h c → live h →
  ∃ h' lh' info', read_callback_message_from_libevent (Datatypes.S fuel) a h gname id = Some (false, a, h') ∧
    net h' gname = Some lh' ∧ LibeventHandle.connected lh' id info' ∧
    LibeventHandle.pending info' = LibeventHandle.stream (EventMessage.wire <$> cs) ∧
    ∀ g ty, view h' g ty = view h g ty.
Proof.
  intros Hnet Hc Hi Hd Hp Hu Hl.
  destruct (read_callback_front fuel a h gname lh id info c cs)
    as (h1 & lh' & info' & -> & Hn1 & Hc' & Hi' & Hp' & Hv1 & Hl1); [done..|].
  apply Forall_cons in Hd as [[Hn Hw] Hd]. exists h1, lh', info'. split; [|done].
  unfold try_run_callback. rewrite (check_mess_type_bad h1 _ _ _ (received_names c Hn)); [done|by rewrite Hv1|].
  by apply Hl1.
Qed.

(** A message of a type with a callback is handed to it, and not queued; the loop goes on in the state
    that the callback has left. *)
Lemma read_callback_called fuel a h gname lh id info c cs cb l :
  net h gname = Some lh → LibeventHandle.connected lh id info → LibeventHandle.conn_inv info →
  Forall deliverable (c :: cs) →
  LibeventHandle.pending info = LibeventHandle.stream (EventMessage.wire <$> c :: cs) →
  view h (EventMessage.c_group c) (EventMessage.c_type c) = Some (Some cb, l) →
  ∃ h1 arg, read_callback_message_from_libevent (Datatypes.S fuel) a h gname id =
      ('(a, h, _) ← run_cb cb a h1 (received c) arg; read_callback_message_from_libevent fuel a h gname id) ∧
    ∀ g ty, view h1 g ty = view h g ty.
Proof.
  intros Hnet Hc Hi Hd Hp Hv.
  destruct (read_callback_front fuel a h gname lh id info c cs)
    as (h1 & lh' & info' & -> & Hn1 & Hc' & Hi' & Hp' & Hv1 & Hl1); [done..|].
  apply Forall_cons in Hd as [[Hn Hw] Hd]. exists h1. rewrite <- Hv1 in Hv. apply view_inv in Hv as (gi & ci & Hg & Hci & Hcb & _).
  destruct (check_mess_type_ok h1 (received c) _ _ gi ci (received_names c Hn) Hg Hci) as [Hck Hlk].
  exists (cb_arg ci). split; [|done]. unfold try_run_callback. rewrite Hck. cbn [mbind option_bind negb]. rewrite Hlk.
  cbn [mbind option_bind]. rewrite Hcb. by destruct (run_cb cb a h1 (received c) (cb_arg ci)) as [[[? ?] ?]|].
Qed.

Lemma read_callback_end fuel a h gname lh id info :
  net h gname = Some lh → LibeventHandle.connected lh id info → LibeventHandle.conn_inv info →
  LibeventHandle.pending info = [] →
  ∃ h', read_callback_message_from_libevent (Datatypes.S fuel) a h gname id = Some (true, a, h') ∧
    net h' gname = Some lh ∧ ∀ g ty, view h' g ty = view h g ty.
Proof.
  intros Hnet Hc Hi Hp. unfold net in Hnet. destruct (group h gname) as [gi|] eqn:Hg; [|done].
  injection Hnet as Hlh. cbn [read_callback_message_from_libevent]. rewrite Hg.
  cbn [mbind option_bind]. rewrite Hlh, (LibeventHandle.recive_length lh id info) by done.
  cbn [mbind option_bind]. pose proof (LibeventHandle.pending_input info) as Hl. rewrite Hp in Hl.
  rewrite (proj2 (Z.ltb_ge _ _)) by (simpl in Hl; lia). cbn [negb]. eexists. split; [done|].
  split; [apply net_set_handle|]. intros g ty. by apply view_set_handle.
Qed.

(** C2. What the dispatch loop does with a connection on which complete frames of serialised messages
    have arrived, and nothing is left of an earlier one: the messages [cs] of registered types without
    a callback, and then either nothing, or a message of an unregistered type and others.  With enough
    fuel the loop ends; the list of each type is extended by exactly its messages of [cs] in order, and
    other types are untouched.  If there was nothing else the result is true and nothing stays unread;
    otherwise the result is false, the message of the unregistered type is lost and the others stay
    unread.  (Messages of a type with a callback go to it: [read_callback_called].) *)
Theorem message_delivery fuel a h gname lh id info cs rest :
  net h gname = Some lh → LibeventHandle.connected lh id info → LibeventHandle.conn_inv info →
  Forall deliverable (cs ++ rest) → live h →
  LibeventHandle.pending info = LibeventHandle.stream (EventMessage.wire <$> cs ++ rest) →
  Forall (λ c, ∃ q, queued h (EventMessage.c_group c) (EventMessage.c_type c) q) cs →
  (∀ d, head rest = Some d → unregistered h d) →
  (length cs < fuel)%nat →
  ∃ h' lh' info', read_callback_message_from_libevent fuel a h gname id = Some (bool_decide (rest = []), a, h') ∧
    net h' gname = Some lh' ∧ LibeventHandle.connected lh' id info' ∧
    LibeventHandle.pending info' = LibeventHandle.stream (EventMessage.wire <$> tail rest) ∧
    (∀ g ty q, queued h g ty q → queued h' g ty (q ++ filter (for_type g ty) cs)) ∧
    (∀ g ty, Forall (λ c, ¬ for_type g ty c) cs → view h' g ty = view h g ty).
Proof.
  revert fuel h lh info. induction cs as [|c cs IH]; intros fuel h lh info Hnet Hc Hi Hd Hl Hp Hq Hu Hf;
    (destruct fuel as [|fuel]; [simpl in Hf; lia|]).
  - assert (∀ h', (∀ g ty, view h' g ty = view h g ty) →
      (∀ g ty q, queued h g ty q → queued h' g ty (q ++ filter (for_type g ty) [])) ∧
      (∀ g ty, Forall (λ c, ¬ for_type g ty c) [] → view h' g ty = view h g ty)) as Hsame.
    { intros h' Hv. split; [|intros g ty _; apply Hv]. intros g ty q Hqu. unfold queued. by rewrite Hv, app_nil_r. }
    destruct rest as [|d ds].
    + destruct (read_callback_end fuel a h gname lh id info) as (h' & Hr & Hn' & Hv); [done..|].
      exists h', lh, info. do 4 (split; [done|]). by apply Hsame.
    + destruct (read_callback_unregistered fuel a h gname lh id info d ds) as (h' & lh' & info' & Hr & Hn' & Hc' & Hp' & Hv); [auto..|].
      exists h', lh', info'. do 4 (split; [done|]). by apply Hsame.
  - apply Forall_cons in Hq as [[q Hqc] Hq].
    destruct (read_callback_step fuel a h gname lh id info c (cs ++ rest) q)
      as (h1 & lh1 & info1 & Hr & Hnet1 & Hc1 & Hi1 & Hp1 & Hv1 & Hl1); [done..|].
    rewrite Hr. apply Forall_cons in Hd as [_ Hd].
    assert (∀ g ty q, queued h g ty q →
      queued h1 g ty (q ++ if decide (for_type g ty c) then [c] else [])) as Hstep.
    { intros g ty q' Hq'. unfold queued. rewrite Hv1. destruct (decide (for_type g ty c)) as [[<- <-]|].
      - unfold queued in *. rewrite Hqc in Hq'. injection Hq' as Hqq. by rewrite !fmap_app, Hqq.
      - by rewrite app_nil_r. }
    destruct (IH fuel h1 lh1 info1) as (h' & lh' & info' & Hr' & Hn' & Hc' & Hp' & Hq' & Hv'); [by auto..| | |simpl in Hf; lia|].
    { eapply Forall_impl; [exact Hq|]. intros d [qd Hqd]. eexists. by apply Hstep. }
    { intros d Hhd. specialize (Hu d Hhd). unfold unregistered in *. rewrite Hv1, decide_False; [done|].
      intros [E1 E2]. unfold queued in Hqc. rewrite E1, E2, Hu in Hqc. done. }
    exists h', lh', info'. do 4 (split; [done|]). split.
    + intros g ty q0 Hq0. rewrite filter_cons. pose proof (Hq' _ _ _ (Hstep _ _ _ Hq0)) as Hres.
      rewrite <- (assoc_L (++)) in Hres. by destruct (decide (for_type g ty c)).
    + intros g ty [Hne Hall]%Forall_cons. rewrite Hv' by done. rewrite Hv1. by rewrite decide_False.
Qed.

(** ** Reading *)

(** What a read with names of no registered type answers. *)
Definition missing_error (h : t) (g : list byte) : EventMessage.EventMessageErrorNo :=
  if mess_group_map h !! g is Some _ then EventMessage.MESS_TYPE_NOT_FOUND
  else EventMessage.GROUP_NOT_FOUND.

(** C37. [readMessage] on every branch: a message not prepared for receiving, an unknown
    group or type and an empty list give their error codes and change nothing;
    otherwise the oldest unprocessed message of the type is removed and its content is
    what the message object then says. *)
Theorem readMessage_spec h m g ty :
  names m g ty → live h →
  (EventMessage.will_recive m = false →
     readMessage h m = Some (-1, h, EventMessage.set_error m EventMessage.INCOMPLETE_MESSAGE)) ∧
  (EventMessage.will_recive m = true →
     (view h g ty = None →
        readMessage h m = Some (-1, h, EventMessage.set_error m (missing_error h g))) ∧
     (∀ cb, view h g ty = Some (cb, []) →
        readMessage h m = Some (0, h, EventMessage.set_error m EventMessage.NONE_UNPROCESSED_MESSAGE)) ∧
     (∀ cb c q, view h g ty = Some (cb, received <$> c :: q) → deliverable c →
        ∃ h' m', readMessage h m = Some (1, h', m') ∧ EventMessage.read m' = Some c ∧
          (∀ g' ty', view h' g' ty' =
             if decide (g = g' ∧ ty = ty') then Some (cb, received <$> q) else view h g' ty') ∧
          (∀ g', net h' g' = net h g'))).
Proof.
  intros Hm Hlive. unfold readMessage. split; [by intros ->|]. intros ->. cbn [negb].
  split; [|split].
  - intros Hv. by rewrite (check_mess_type_bad h m g ty) by (done || apply Hlive).
  - intros cb (gi & ci & Hg & Hc & _ & Hl)%view_inv.
    destruct (check_mess_type_ok h m g ty gi ci) as [-> Hk]; [done..|]. cbn [mbind option_bind negb].
    rewrite Hk. cbn [mbind option_bind]. by rewrite Hl.
  - intros cb c q (gi & ci & Hg & Hc & Hcb & Hl)%view_inv [Hn Hw].
    destruct (check_mess_type_ok h m g ty gi ci) as [-> Hk]; [done..|]. cbn [mbind option_bind negb].
    rewrite Hk. cbn [mbind option_bind]. rewrite Hl, fmap_cons.
    rewrite copy_received by (unfold INT_MAX in Hw; lia). cbn [mbind option_bind].
    eexists _, _. split; [done|]. split; [by apply EventMessage.read_decoded|]. split.
    + intros g' ty'. rewrite view_set_type by done. cbn [cb_function unprocessed_mess_list set_unprocessed].
      by rewrite Hcb.
    + intros g'. by apply net_set_type.
Qed.

Lemma take_first_split f l1 x l2 :
  Forall (λ y, f y = Some false) l1 → f x = Some true →
  take_first f (l1 ++ x :: l2) = Some (Some (x, l1 ++ l2)).
Proof.
  intros Hl Hx. induction Hl as [|y l1 Hy Hl IH]; simpl; [by rewrite Hx|]. by rewrite Hy, IH.
Qed.

Lemma take_first_none f l : Forall (λ y, f y = Some false) l → take_first f l = Some None.
Proof. induction 1 as [|y l Hy Hl IH]; simpl; [done|]. by rewrite Hy, IH. Qed.

Lemma readMessage_filter_first h m g ty cb f q1 c q2 :
  names m g ty → EventMessage.will_recive m = true →
  Forall (λ d, f (received d) = Some false) q1 → f (received c) = Some true → deliverable c →
  view h g ty = Some (cb, received <$> q1 ++ c :: q2) →
  ∃ h', readMessage_filter h m f = Some (1, h', EventMessage.decoded m c) ∧
    ∀ g' ty', view h' g' ty' =
      if decide (g = g' ∧ ty = ty') then Some (cb, received <$> q1 ++ q2) else view h g' ty'.
Proof.
  intros Hm Hw Hf Hx [Hn Hs] Hv. unfold readMessage_filter. rewrite Hw. cbn [negb].
  apply view_inv in Hv as (gi & ci & Hg & Hc & Hcb & Hl).
  destruct (check_mess_type_ok h m g ty gi ci) as [-> Hk]; [done..|]. cbn [mbind option_bind negb].
  rewrite Hk. cbn [mbind option_bind]. rewrite Hl, fmap_app, fmap_cons.
  rewrite decide_False by (by intros [_ ?]%app_nil).
  rewrite take_first_split by (done || by apply Forall_fmap). cbn [mbind option_bind].
  rewrite copy_received by (unfold INT_MAX in Hs; lia). cbn [mbind option_bind].
  eexists. split; [done|]. intros g' ty'. rewrite view_set_type by done.
  cbn [cb_function unprocessed_mess_list set_unprocessed]. by rewrite Hcb, fmap_app.
Qed.

Lemma readMessage_filter_none h m g ty cb f q :
  names m g ty → EventMessage.will_recive m = true →
  Forall (λ d, f (received d) = Some false) q → view h g ty = Some (cb, received <$> q) →
  readMessage_filter h m f = Some (0, h, EventMessage.set_error m
    (if decide (q = []) then EventMessage.NONE_UNPROCESSED_MESSAGE
     else EventMessage.NONE_REQUESTED_MESSAGE)).
Proof.
  intros Hm Hw Hf Hv. unfold readMessage_filter. rewrite Hw. cbn [negb].
  apply view_inv in Hv as (gi & ci & Hg & Hc & Hcb & Hl).
  destruct (check_mess_type_ok h m g ty gi ci) as [-> Hk]; [done..|]. cbn [mbind option_bind negb].
  rewrite Hk. cbn [mbind option_bind]. rewrite Hl.
  destruct q as [|d q]; [by rewrite !decide_True|]. rewrite !decide_False by done.
  by rewrite take_first_none by (by apply Forall_fmap).
Qed.

(** Reading with a filter removes the oldest message the filter accepts and keeps
    the others in their order; when it accepts none, nothing changes. *)
Theorem readMessage_filter_spec h m g ty cb f q1 c q2 :
  names m g ty → EventMessage.will_recive m = true →
  Forall (λ d, f (received d) = Some false) q1 →
  (view h g ty = Some (cb, received <$> q1 ++ c :: q2) → f (received c) = Some true → deliverable c →
     ∃ h' m', readMessage_filter h m f = Some (1, h', m') ∧ EventMessage.read m' = Some c ∧
       (∀ g' ty', view h' g' ty' =
          if decide (g = g' ∧ ty = ty') then Some (cb, received <$> q1 ++ q2) else view h g' ty')) ∧
  (view h g ty = Some (cb, received <$> q1) →
     readMessage_filter h m f = Some (0, h, EventMessage.set_error m
       (if decide (q1 = []) then EventMessage.NONE_UNPROCESSED_MESSAGE
        else EventMessage.NONE_REQUESTED_MESSAGE))).
Proof.
  intros Hm Hw Hf. split.
  - intros Hv Hx Hd. destruct (readMessage_filter_first h m g ty cb f q1 c q2) as (h' & Hr & Hv'); [done..|].
    exists h', (EventMessage.decoded m c). split; [done|]. split; [|done].
    apply EventMessage.read_decoded, Hd.
  - intros Hv. by eapply readMessage_filter_none.
Qed.

(** ** Sending *)

(** The port configured for a host in a group; 0 when there is none. *)
Definition port_of (h : t) (g host : list byte) : Z :=
  default 0 (gi ← group h g; host_port_map gi !! host).

Lemma get_port_ok h host g gi :
  group h g = Some gi →
  ∃ h', get_port h host g = Some (port_of h g host, h') ∧
    (∀ g', net h' g' = net h g') ∧ (∀ g' ty', view h' g' ty' = view h g' ty') ∧
    local_host_name h' = local_host_name h ∧ ∃ gi', group h' g = Some gi' ∧ handle gi' = handle gi.
Proof.
  intros Hg. unfold get_port. rewrite (group_inv _ _ _ Hg). cbn [mbind option_bind].
  unfold port_of. rewrite Hg. cbn [mbind option_bind]. eexists. split; [done|].
  split; [|split; [|split; [done|]]].
  - intros g'. unfold net. rewrite group_set_group. destruct (decide _) as [<-|]; [|done]. by rewrite Hg.
  - intros g' ty'. unfold view. rewrite group_set_group. destruct (decide _) as [<-|]; [|done].
    by rewrite Hg.
  - eexists. split; [by rewrite group_set_group, decide_True|done].
Qed.

(** The message can be sent: its names are known and it says [c] with the local host as
    the sender. *)
Record sendable_mess (h : t) (m : EventMessage.t) (c : EventMessage.content) : Prop := {
  sm_will : EventMessage.will_send m = true;
  sm_ready : EventMessage.ready
               (EventMessage.set_send_host_name m (EventMessage.Ext (local_host_name h))) c;
  sm_ok : deliverable c;
  sm_known : view h (EventMessage.c_group c) (EventMessage.c_type c) ≠ None
}.

Lemma sendMessage_unfold h m c b rc junk gi :
  sendable_mess h m c → group h (EventMessage.c_group c) = Some gi →
  (∃ h', (∀ g', net h' g' = net h g') ∧ (∀ g' ty', view h' g' ty' = view h g' ty') ∧
     ∃ gi', group h' (EventMessage.c_group c) = Some gi' ∧ handle gi' = handle gi ∧
     sendMessage h m b rc junk =
       match get_ip h (EventMessage.c_recive c) with
       | Some ip =>
           if port_of h (EventMessage.c_group c) (EventMessage.c_recive c) =? 0
           then Some (-1, h', EventMessage.set_error m EventMessage.INVALID_HOST)
           else
             m' ← EventMessage.init_buffer_str
                    (EventMessage.set_send_host_name m (EventMessage.Ext (local_host_name h)));
             '(id, lh) ← LibeventHandle.get_connection_id_addr (handle gi) ip
                (port_of h (EventMessage.c_group c) (EventMessage.c_recive c)) true b rc junk;
             '(_, lh) ← LibeventHandle.send lh id (EventMessage.buffer_str m')
                          (int32 (EventMessage.buffer_size m'));
             Some (1, set_group h' (EventMessage.c_group c) (set_handle gi' lh), m')
       | None => Some (-1, h', EventMessage.set_error m EventMessage.INVALID_HOST)
       end).
Proof.
  intros [Hw Hr [Hn _] Hk] Hg.
  destruct (view h _ _) as [[cb l]|] eqn:Hv; [|done]. apply view_inv in Hv as (gi0 & ci & Hg0 & Hc & _).
  rewrite Hg in Hg0. injection Hg0 as <-. destruct Hr as (R1 & R2 & _ & R4 & _).
  destruct Hn as (N1 & N2 & _ & N4). simpl in R1, R2, R4.
  assert (names m (EventMessage.c_group c) (EventMessage.c_type c)) as Hnm.
  { split; [rewrite R1|rewrite R2]; simpl; by rewrite decide_True. }
  destruct (check_mess_type_ok h m _ _ gi ci Hnm Hg Hc) as [Hck _].
  destruct (get_port_ok h (EventMessage.c_recive c) _ gi Hg) as (h' & Hp & Hn' & Hv' & Hlh & gi' & Hg' & Hh').
  exists h'. split; [done|]. split; [done|]. exists gi'. split; [done|]. split; [done|].
  unfold sendMessage. rewrite Hw, Hck. cbn [mbind option_bind negb].
  rewrite (proj1 Hnm), R4. cbn [mbind option_bind EventMessage.read_cstr].
  rewrite decide_True by done. cbn [mbind option_bind]. rewrite Hp. cbn [mbind option_bind].
  rewrite Hlh, Hg'. cbn [mbind option_bind]. by rewrite Hh'.
Qed.

Lemma sendMessage_ok h m c b rc junk lh ip id lh1 info ok info' :
  sendable_mess h m c → net h (EventMessage.c_group c) = Some lh →
  get_ip h (EventMessage.c_recive c) = Some ip →
  port_of h (EventMessage.c_group c) (EventMessage.c_recive c) ≠ 0 →
  LibeventHandle.get_connection_id_addr lh ip
    (port_of h (EventMessage.c_group c) (EventMessage.c_recive c)) true b rc junk = Some (id, lh1) →
  0 <= id → LibeventHandle.connected lh1 id info →
  LibeventHandle.writeBufferOnce info (EventMessage.wire c) (Zlen (EventMessage.wire c)) =
    Some (ok, info') →
  ∃ h' m', sendMessage h m b rc junk = Some (1, h', m') ∧
    EventMessage.buffer_str m' = EventMessage.wire c ∧
    net h' (EventMessage.c_group c) = Some (LibeventHandle.set_info lh1 id info') ∧
    (∀ g', g' ≠ EventMessage.c_group c → net h' g' = net h g') ∧
    (∀ g' ty', view h' g' ty' = view h g' ty').
Proof.
  intros Hm Hnet Hip Hport Hconn Hid [Hl Hi] Hwr. unfold net in Hnet.
  destruct (group h (EventMessage.c_group c)) as [gi|] eqn:Hg; [|done]. injection Hnet as <-.
  destruct (sendMessage_unfold h m c b rc junk gi Hm Hg) as (h' & Hn' & Hv' & gi' & Hg' & Hh' & ->).
  rewrite Hip, (proj2 (Z.eqb_neq _ _) Hport). destruct Hm as [_ Hr [Hn Hs] _]. unfold INT_MAX in Hs.
  destruct (EventMessage.init_buffer_str_wire _ c Hr Hn) as (m' & -> & Hb & Hbs & He); [lia|].
  cbn [mbind option_bind]. rewrite Hconn. cbn [mbind option_bind].
  rewrite Hb, Hbs, int32_id, <- EventMessage.wire_length
    by (unfold INT_MIN, INT_MAX, EventMessage.wire_size in *; lia).
  rewrite (LibeventHandle.send_known lh1 id _ info ok info') by done. cbn [mbind option_bind].
  eexists _, m'. split; [done|]. split; [done|]. split; [apply net_set_handle|]. split.
  - intros g' Hne. unfold net. rewrite group_set_group. rewrite decide_False by congruence. apply Hn'.
  - intros g' ty'. rewrite view_set_handle by done. apply Hv'.
Qed.

Lemma sendMessage_unsent h m c b rc junk lh ip id lh1 :
  sendable_mess h m c → net h (EventMessage.c_group c) = Some lh →
  get_ip h (EventMessage.c_recive c) = Some ip →
  port_of h (EventMessage.c_group c) (EventMessage.c_recive c) ≠ 0 →
  LibeventHandle.get_connection_id_addr lh ip
    (port_of h (EventMessage.c_group c) (EventMessage.c_recive c)) true b rc junk = Some (id, lh1) →
  id < 0 →
  ∃ h' m', sendMessage h m b rc junk = Some (1, h', m') ∧
    EventMessage.error_no m' = EventMessage.error_no m ∧
    net h' (EventMessage.c_group c) = Some lh1.
Proof.
  intros Hm Hnet Hip Hport Hconn Hid. unfold net in Hnet.
  destruct (group h (EventMessage.c_group c)) as [gi|] eqn:Hg; [|done]. injection Hnet as <-.
  destruct (sendMessage_unfold h m c b rc junk gi Hm Hg) as (h' & Hn' & Hv' & gi' & Hg' & Hh' & ->).
  rewrite Hip, (proj2 (Z.eqb_neq _ _) Hport). destruct Hm as [_ Hr [Hn Hs] _]. unfold INT_MAX in Hs.
  destruct (EventMessage.init_buffer_str_wire _ c Hr Hn) as (m' & -> & Hb & Hbs & He); [lia|].
  cbn [mbind option_bind]. rewrite Hconn. cbn [mbind option_bind].
  rewrite LibeventHandle.send_neg by done. cbn [mbind option_bind].
  eexists _, m'. split; [done|]. split; [done|]. apply net_set_handle.
Qed.

(** [sendMessage] of a complete message of a known group and a registered type.  An unknown host or
    one without a port is an [INVALID_HOST] error that reaches no connection.  Otherwise the serialised
    message is handed to writeBufferOnce on the connection to the host, and no other connection
    changes; the result is 1 whatever writeBufferOnce answers, and also (a defect) when the connection
    could not be made and nothing was sent at all. *)
Theorem sendMessage_spec h m c b rc junk lh :
  sendable_mess h m c → net h (EventMessage.c_group c) = Some lh →
  let g := EventMessage.c_group c in
  let host := EventMessage.c_recive c in
  (get_ip h host = None ∨ port_of h g host = 0 →
     ∃ h', sendMessage h m b rc junk =
         Some (-1, h', EventMessage.set_error m EventMessage.INVALID_HOST) ∧
       (∀ g', net h' g' = net h g')) ∧
  (∀ ip id lh1, get_ip h host = Some ip → port_of h g host ≠ 0 →
     LibeventHandle.get_connection_id_addr lh ip (port_of h g host) true b rc junk = Some (id, lh1) →
     (∀ info ok info', 0 <= id → LibeventHandle.connected lh1 id info →
        LibeventHandle.writeBufferOnce info (EventMessage.wire c) (Zlen (EventMessage.wire c)) =
          Some (ok, info') →
        ∃ h' m', sendMessage h m b rc junk = Some (1, h', m') ∧
          EventMessage.buffer_str m' = EventMessage.wire c ∧
          net h' g = Some (LibeventHandle.set_info lh1 id info') ∧
          (∀ g', g' ≠ g → net h' g' = net h g') ∧
          (∀ g' ty', view h' g' ty' = view h g' ty')) ∧
     (id < 0 → ∃ h' m', sendMessage h m b rc junk = Some (1, h', m') ∧
        EventMessage.error_no m' = EventMessage.error_no m ∧ net h' g = Some lh1)).
Proof.
  intros Hm Hnet g host. subst g host. pose proof Hnet as Hnet0. unfold net in Hnet.
  destruct (group h (EventMessage.c_group c)) as [gi|] eqn:Hg; [|done]. injection Hnet as <-.
  destruct (sendMessage_unfold h m c b rc junk gi Hm Hg) as (h' & Hn' & Hv' & gi' & Hg' & Hh' & Heq).
  split.
  - intros Hbad. exists h'. rewrite Heq. split; [|done].
    destruct Hbad as [-> | ->]; [done|]. by destruct (get_ip _ _).
  - intros ip id lh1 Hip Hport Hconn. split.
    + intros info ok info' Hid Hc Hwr. by eapply sendMessage_ok.
    + intros Hid. by eapply sendMessage_unsent.
Qed.

End EventMessHandle.

#[global] Arguments GroupInfor : clear implicits.
#[global] Arguments t : clear implicits.

(** ** The properties at a concrete handle, with plain lists as buffers *)

Definition content0 : EventMessage.content :=
  EventMessage.Content (bs "G") (bs "T") (bs "A") (bs "B") (bs "payload").

Definition handle1 (inp : list byte) (q : list EventMessage.t) : t (list byte) :=
  mk false (bs "A") {[bs "B" := bs "10.0.0.1"]}
    {[bs "G" := Some (mkGroup (LibeventHandle.handle0 (LibeventHandle.info0 false false 0 inp) [])
                        {[bs "B" := 8080]} {[bs "T" := mkCallback None 0 q]})]}.

Definition no_cb (cb : Z) (a : unit) (h : t (list byte)) (m : EventMessage.t) (arg : Z) :
    option (unit * t (list byte) * EventMessage.t) := Some (a, h, m).

Lemma deliverable0 : deliverable content0.
Proof. split; [|done]. repeat split; apply (bool_decide_unpack _); vm_compute; exact I. Qed.

(** The second message is of a type nobody has registered, and the third one stays unread. *)
Definition content1 : EventMessage.content :=
  EventMessage.Content (bs "G") (bs "U") (bs "A") (bs "B") (bs "unknown").
Lemma deliverable1 : deliverable content1.
Proof. split; [|done]. repeat split; apply (bool_decide_unpack _); vm_compute; exact I. Qed.
Lemma handle1_live inp q : live (handle1 inp q).
Proof. unfold live, handle1. simpl. intros g gp [<- <-]%lookup_singleton_Some. done. Qed.

Lemma message_delivery_witness :
  let arrived := LibeventHandle.stream (EventMessage.wire <$> [content0; content1; content0]) in
  let h := handle1 arrived [] in
  ∃ h' lh' info', read_callback_message_from_libevent no_cb 2 tt h (bs "G") 0 = Some (false, tt, h') ∧
    queued h' (bs "G") (bs "T") [content0] ∧ net h' (bs "G") = Some lh' ∧ LibeventHandle.connected lh' 0 info' ∧
    LibeventHandle.pending info' = LibeventHandle.stream [EventMessage.wire content0].
Proof.
  intros arrived h.
  destruct (message_delivery no_cb 2 tt h (bs "G")
              (LibeventHandle.handle0 (LibeventHandle.info0 false false 0 arrived) []) 0
              (LibeventHandle.info0 false false 0 arrived)
              [content0] [content1; content0]) as (h' & lh' & info' & Hr & Hn & Hc & Hp & Hq & _).
  - reflexivity.
  - split; reflexivity.
  - constructor; vm_compute; naive_solver.
  - apply Forall_cons_2; [apply deliverable0|]. apply Forall_cons_2; [apply deliverable1|]. apply Forall_singleton, deliverable0.
  - apply handle1_live.
  - reflexivity.
  - apply Forall_singleton. by exists [].
  - by intros ? [= <-].
  - simpl. lia.
  - exists h', lh', info'. split; [exact Hr|].
    split; [exact (Hq (bs "G") (bs "T") [] eq_refl)|]. split; [exact Hn|]. split; [exact Hc|exact Hp].
Defined.

Lemma readMessage_spec_witness :
  let m := EventMessage.prepare_recive EventMessage.clear (bs "G") (bs "T") in
  ∃ h' m', readMessage (handle1 [] (received <$> [content0])) m = Some (1, h', m') ∧
    EventMessage.read m' = Some content0.
Proof.
  intros m.
  destruct (readMessage_spec (handle1 [] (received <$> [content0])) m (bs "G") (bs "T"))
    as (_ & H); [split; reflexivity| |].
  - apply handle1_live.
  - destruct (H eq_refl) as (_ & _ & H3).
    destruct (H3 None content0 [] eq_refl deliverable0) as (h' & m' & H1 & H2 & _). by exists h', m'.
Defined.

Lemma readMessage_filter_spec_witness :
  let m := EventMessage.prepare_recive EventMessage.clear (bs "G") (bs "T") in
  ∃ h' m', readMessage_filter (handle1 [] (received <$> [content0])) m (λ _, Some true) = Some (1, h', m') ∧
    EventMessage.read m' = Some content0.
Proof.
  intros m.
  destruct (readMessage_filter_spec (handle1 [] (received <$> [content0])) m (bs "G") (bs "T") None
              (λ _, Some true) [] content0 []) as (H & _); [split; reflexivity|reflexivity|constructor|].
  destruct (H eq_refl eq_refl deliverable0) as (h' & m' & H1 & H2 & _). by exists h', m'.
Defined.

Lemma sendMessage_spec_witness :
  let m := EventMessage.prepare_send EventMessage.clear (bs "G") (bs "T") (bs "B") (bs "payload") 7 in
  ∃ h' m', sendMessage (handle1 [] []) m None 0 (false, 0) = Some (1, h', m') ∧
    EventMessage.buffer_str m' = EventMessage.wire content0.
Proof.
  intros m.
  destruct (sendMessage_spec (handle1 [] []) m content0 None 0 (false, 0)
              (LibeventHandle.handle0 (LibeventHandle.info0 false false 0 []) [])) as (_ & H).
  - constructor; [reflexivity| |exact deliverable0|done].
    repeat split. by exists [].
  - reflexivity.
  - destruct (H (bs "10.0.0.1") 0 (LibeventHandle.handle0 (LibeventHandle.info0 false false 0 []) []))
      as (H1 & _); [reflexivity|done|vm_compute; reflexivity|].
    destruct (H1 (LibeventHandle.info0 false false 0 []) true
      (LibeventHandle.set_output (LibeventHandle.info0 false false 0 [])
         (LibeventHandle.frame (EventMessage.wire content0)) 0)) as (h' & m' & H2 & H3 & _).
    + lia.
    + split; reflexivity.
    + reflexivity.
    + by exists h', m'.
Defined.
