(* ===== verification/LockManager.v ===== *)
(** * The page lock server (class RemotePageLockManager, centralized-lock-table/server/
    remote_page_lock_manager.cc) and its wire formats (centralized-lock-table/include/
    lock_common.h)

    A table from the fold of a page to its lock, the decision taken on each request, and
    the message callback that answers requests. *)

From S2P Require Import Prelude ByteStream.
From S2P Require LibeventHandle EventMessage EventMessHandle.

(** ** Data *)

Inductive PageLockType := R_LOCK | W_LOCK | UNLOCK.
Inductive PageReplyType := LOCK_SUCCESS | LOCK_FAIL | UNLOCK_SUCCESS | UNLOCK_FAIL.

#[export] Instance PageLockType_eq_dec : EqDecision PageLockType.
Proof. solve_decision. Defined.
#[export] Instance PageReplyType_eq_dec : EqDecision PageReplyType.
Proof. solve_decision. Defined.

Definition lock_val (t : PageLockType) : Z := match t with R_LOCK => 0 | W_LOCK => 1 | UNLOCK => 2 end.
Definition lock_of_val (z : Z) : option PageLockType :=
  if z =? 0 then Some R_LOCK else if z =? 1 then Some W_LOCK else if z =? 2 then Some UNLOCK else None.
Definition reply_val (t : PageReplyType) : Z :=
  match t with LOCK_SUCCESS => 0 | LOCK_FAIL => 1 | UNLOCK_SUCCESS => 2 | UNLOCK_FAIL => 3 end.
Definition reply_of_val (z : Z) : option PageReplyType :=
  if z =? 0 then Some LOCK_SUCCESS else if z =? 1 then Some LOCK_FAIL
  else if z =? 2 then Some UNLOCK_SUCCESS else if z =? 3 then Some UNLOCK_FAIL else None.

Abbreviation host := (list byte) (only parsing).

Record WaitInfor := mkWait { name : host; type : PageLockType }.

Record PageLock_t := mkLock {
  m_fold : Z;
  l_space_id : Z;
  l_page_no : Z;
  version_no : Z;
  lock_type : PageLockType;
  lock_holder : list host;
  wait_list : list WaitInfor
}.

Record PageLockRequest := mkRequest {
  space_id : Z; page_no : Z; r_version_no : Z; r_lock_type : PageLockType
}.

Record PageLockReply := mkReply {
  p_space_id : Z; p_page_no : Z; reply_type : PageReplyType
}.

(** The lock table; uthash's HASH_FIND_INT and HASH_ADD_INT use the low four bytes of the
    key. *)
Abbreviation table := (gmap Z PageLock_t).

(** ** Operations *)

Definition lock_compatibility_matrix : list (list bool) := [[true; false]; [false; false]].

(** The operands are [uint32_t]: the sum wraps before it is widened. *)
Definition cal_fold (m_space m_page_no : Z) : Z :=
  uint32 (uint32 (uint32 (Z.shiftl m_space 20) + m_space) + m_page_no).

Definition insert_page_lock_t (h : table) (asker : host) (request : PageLockRequest) : Z * table :=
  let page_lock := mkLock (cal_fold (space_id request) (page_no request)) (space_id request)
                     (page_no request) 0 (r_lock_type request) [asker] [] in
  (1, <[uint32 (m_fold page_lock) := page_lock]> h).

Definition update_unlock_page_lock_t (asker : host) (page_lock : PageLock_t) : PageLock_t :=
  let holders := filter (λ x, x ≠ asker) (lock_holder page_lock) in
  match holders, wait_list page_lock with
  | [], w :: waiting =>
      mkLock (m_fold page_lock) (l_space_id page_lock) (l_page_no page_lock) (version_no page_lock)
        (type w) [name w] waiting
  | _, _ =>
      mkLock (m_fold page_lock) (l_space_id page_lock) (l_page_no page_lock) (version_no page_lock)
        UNLOCK holders (wait_list page_lock)
  end.

Definition update_success_page_lock_t (asker : host) (request : PageLockRequest) (page_lock : PageLock_t) :
    PageLock_t :=
  mkLock (m_fold page_lock) (l_space_id page_lock) (l_page_no page_lock)
    (if decide (r_lock_type request = W_LOCK) then uint64 (version_no page_lock + 1)
     else version_no page_lock)
    (r_lock_type request) (lock_holder page_lock ++ [asker]) (wait_list page_lock).

(** The waiter that is not found is built but not stored. *)
Definition update_fail_page_lock_t (asker : host) (request : PageLockRequest) (page_lock : PageLock_t) :
    PageLock_t :=
  let upgrade w :=
    if decide (name w = asker) then
      if lock_val (type w) <? lock_val (r_lock_type request)
      then mkWait (name w) (r_lock_type request) else w
    else w in
  mkLock (m_fold page_lock) (l_space_id page_lock) (l_page_no page_lock) (version_no page_lock)
    (lock_type page_lock) (lock_holder page_lock) (upgrade <$> wait_list page_lock).

(** The return value, the reply and the table; [None]: an index outside of the matrix. *)
Definition check_lock_request (h : table) (asker : host) (request : PageLockRequest) :
    option (Z * PageLockReply * table) :=
  let fold := uint32 (cal_fold (space_id request) (page_no request)) in
  let reply := mkReply (space_id request) (page_no request) in
  match h !! fold with
  | None =>
      let '(_, h) := insert_page_lock_t h asker request in
      Some (0, reply LOCK_SUCCESS, h)
  | Some page_lock =>
      if decide (r_lock_type request = UNLOCK) then
        Some (2, reply UNLOCK_SUCCESS, <[fold := update_unlock_page_lock_t asker page_lock]> h)
      else if decide (lock_type page_lock = UNLOCK) then
        Some (1, reply LOCK_SUCCESS, <[fold := update_success_page_lock_t asker request page_lock]> h)
      else
        row ← lock_compatibility_matrix !! Z.to_nat (lock_val (r_lock_type request));
        ok ← row !! Z.to_nat (lock_val (lock_type page_lock));
        if (ok : bool) then
          Some (1, reply LOCK_SUCCESS, <[fold := update_success_page_lock_t asker request page_lock]> h)
        else
          Some (-1, reply LOCK_FAIL, <[fold := update_fail_page_lock_t asker request page_lock]> h)
  end.

(** ** Wire formats: the structs as they lie in memory; [pad] are the four padding bytes. *)

Definition sizeof_PageLockRequest : Z := 24.
Definition sizeof_PageLockReply : Z := 12.

Definition encode_request (r : PageLockRequest) (pad : list byte) : list byte :=
  le_bytes 4 (space_id r) ++ le_bytes 4 (page_no r) ++ le_bytes 8 (r_version_no r) ++
  le_bytes 4 (lock_val (r_lock_type r)) ++ pad.

Definition decode_request (m : list byte) : option PageLockRequest :=
  s ← le_val <$> slice m 0 4; p ← le_val <$> slice m 4 4; v ← le_val <$> slice m 8 8;
  ty ← slice m 16 4 ≫= λ d, lock_of_val (le_val d);
  Some (mkRequest s p v ty).

Definition encode_reply (r : PageLockReply) : list byte :=
  le_bytes 4 (p_space_id r) ++ le_bytes 4 (p_page_no r) ++ le_bytes 4 (reply_val (reply_type r)).

Definition decode_reply (m : list byte) : option PageLockReply :=
  s ← le_val <$> slice m 0 4; p ← le_val <$> slice m 4 4;
  ty ← slice m 8 4 ≫= λ d, reply_of_val (le_val d);
  Some (mkReply s p ty).

(** ** The abstract lock service

    Pages are free, shared by readers or held by one writer. *)

Abbreviation page := (Z * Z)%type.
Inductive lstate := Free | Shared (hs : list host) | Exclusive (a : host).
Abbreviation locks := (gmap page lstate).

Definition req_page (r : PageLockRequest) : page := (space_id r, page_no r).
Definition page_fold (p : page) : Z := uint32 (cal_fold (fst p) (snd p)).
Definition state_of (m : locks) (p : page) : lstate := default Free (m !! p).

Definition spec_step (m : locks) (a : host) (r : PageLockRequest) : PageReplyType * locks :=
  let p := req_page r in
  match r_lock_type r, state_of m p with
  | R_LOCK, Free => (LOCK_SUCCESS, <[p := Shared [a]]> m)
  | R_LOCK, Shared hs => (LOCK_SUCCESS, <[p := Shared (hs ++ [a])]> m)
  | W_LOCK, Free => (LOCK_SUCCESS, <[p := Exclusive a]> m)
  | UNLOCK, _ => (UNLOCK_SUCCESS, <[p := Free]> m)
  | _, _ => (LOCK_FAIL, m)
  end.

(** An unlock request comes from the only holder of the page. *)
Definition disciplined (m : locks) (a : host) (r : PageLockRequest) : Prop :=
  r_lock_type r = UNLOCK →
  match state_of m (req_page r) with
  | Free => False
  | Shared hs => Forall (λ x, x = a) hs
  | Exclusive b => b = a
  end.

Fixpoint serve (h : table) (rs : list (host * PageLockRequest)) : option (list PageReplyType * table) :=
  match rs with
  | [] => Some ([], h)
  | (a, r) :: rs =>
      '(_, reply, h) ← check_lock_request h a r;
      '(out, h) ← serve h rs;
      Some (reply_type reply :: out, h)
  end.

Fixpoint spec_serve (m : locks) (rs : list (host * PageLockRequest)) : list PageReplyType * locks :=
  match rs with
  | [] => ([], m)
  | (a, r) :: rs =>
      let '(x, m) := spec_step m a r in
      let '(out, m) := spec_serve m rs in
      (x :: out, m)
  end.

Fixpoint disciplined_run (m : locks) (rs : list (host * PageLockRequest)) : Prop :=
  match rs with
  | [] => True
  | (a, r) :: rs => disciplined m a r ∧ disciplined_run (snd (spec_step m a r)) rs
  end.

(** An entry of the table represents an abstract state. *)
Definition represents (e : PageLock_t) (st : lstate) : Prop :=
  wait_list e = [] ∧
  match st with
  | Free => lock_type e = UNLOCK ∧ lock_holder e = []
  | Shared hs => lock_type e = R_LOCK ∧ lock_holder e = hs
  | Exclusive a => lock_type e = W_LOCK ∧ lock_holder e = [a]
  end.

Section refinement.
(** The pages in use; no two of them have the same fold. *)
Variable P : page → Prop.
Hypothesis P_inj : ∀ p q, P p → P q → page_fold p = page_fold q → p = q.

Definition refines (h : table) (m : locks) : Prop :=
  ∀ p, P p → match h !! page_fold p with
             | None => state_of m p = Free
             | Some e => represents e (state_of m p)
             end.

Lemma state_of_insert m p st q :
  state_of (<[p := st]> m) q = if decide (p = q) then st else state_of m q.
Proof.
  unfold state_of. destruct (decide (p = q)) as [->|].
  - by rewrite lookup_insert_eq.
  - by rewrite lookup_insert_ne.
Qed.

Lemma refines_insert h m p e st :
  P p → refines h m → represents e st → refines (<[page_fold p := e]> h) (<[p := st]> m).
Proof.
  intros Hp Hr He q Hq. rewrite state_of_insert. destruct (decide (p = q)) as [<-|Hne].
  - by rewrite lookup_insert_eq.
  - rewrite lookup_insert_ne; [by apply Hr|]. intros Hf. by apply Hne, P_inj.
Qed.

(** Only the entry changes, and not its abstract state. *)
Lemma refines_same h m p e :
  P p → refines h m → represents e (state_of m p) → refines (<[page_fold p := e]> h) m.
Proof.
  intros Hp Hr He q Hq. destruct (decide (p = q)) as [<-|Hne].
  - by rewrite lookup_insert_eq.
  - rewrite lookup_insert_ne; [by apply Hr|]. intros Hf. by apply Hne, P_inj.
Qed.

Lemma filter_holders (a : host) hs :
  Forall (λ x, x = a) hs → filter (λ x, x ≠ a) hs = [].
Proof. induction 1 as [|x hs -> _ IH]; [done|]. by rewrite filter_cons, decide_False by auto. Qed.

Lemma check_lock_request_refines h m a r :
  P (req_page r) → refines h m → disciplined m a r →
  ∃ code reply h', check_lock_request h a r = Some (code, reply, h') ∧
    reply = mkReply (space_id r) (page_no r) (fst (spec_step m a r)) ∧
    refines h' (snd (spec_step m a r)).
Proof.
  intros Hp Hr Hd. unfold check_lock_request.
  change (uint32 (cal_fold (space_id r) (page_no r))) with (page_fold (req_page r)).
  pose proof (Hr _ Hp) as He. unfold disciplined in Hd. unfold spec_step.
  destruct (h !! page_fold (req_page r)) as [e|] eqn:Hh.
  - destruct He as [Hw He]. destruct (r_lock_type r) eqn:Ht; destruct (state_of m (req_page r)) as [|hs|b] eqn:Hst;
      destruct He as [Hlt Hlh]; rewrite ?Hlt; cbn; (do 3 eexists; split; [reflexivity|]); (split; [done|]); cbn.
    + apply refines_insert; [done..|]. split; [done|]. cbn. by rewrite Ht, Hlh.
    + apply refines_insert; [done..|]. split; [done|]. cbn. by rewrite Ht, Hlh.
    + apply refines_same; [done..|]. rewrite Hst. split; cbn; [by rewrite Hw|done].
    + apply refines_insert; [done..|]. split; [done|]. cbn. by rewrite Ht, Hlh.
    + apply refines_same; [done..|]. rewrite Hst. split; cbn; [by rewrite Hw|done].
    + apply refines_same; [done..|]. rewrite Hst. split; cbn; [by rewrite Hw|done].
    + by destruct (Hd eq_refl).
    + apply refines_insert; [done..|]. unfold update_unlock_page_lock_t.
      rewrite Hlh, filter_holders, Hw by auto. done.
    + apply refines_insert; [done..|]. unfold update_unlock_page_lock_t.
      rewrite Hlh, filter_holders, Hw by (constructor; auto). done.
  - rewrite He in *. cbn. unfold page_fold, req_page in *. simpl in *.
    do 3 eexists. split; [reflexivity|]. split; [by destruct (r_lock_type r); try destruct (Hd eq_refl)|].
    change (uint32 (cal_fold (space_id r) (page_no r))) with (page_fold (req_page r)).
    destruct (r_lock_type r) eqn:Ht; try destruct (Hd eq_refl); cbn; apply refines_insert; done.
Qed.

Lemma serve_refines h m rs :
  Forall (λ ar, P (req_page (snd ar))) rs → refines h m → disciplined_run m rs →
  ∃ h', serve h rs = Some (fst (spec_serve m rs), h') ∧ refines h' (snd (spec_serve m rs)).
Proof.
  intros Hrs. revert h m. induction Hrs as [|[a r] rs Hp Hrs IH]; intros h m Hr Hd; simpl; [by exists h|].
  destruct Hd as [Hd Hds].
  destruct (check_lock_request_refines h m a r) as (code & reply & h1 & -> & -> & Hr1); [done..|].
  cbn [mbind option_bind]. destruct (spec_step m a r) as [x m1]. simpl in *.
  destruct (IH h1 m1 Hr1 Hds) as (h' & -> & Hr'). cbn [mbind option_bind].
  destruct (spec_serve m1 rs) as [out m']. exists h'. done.
Qed.

Lemma refines_empty : refines ∅ ∅.
Proof. intros p _. by rewrite lookup_empty. Qed.
End refinement.

(** ** Properties of the lock table *)

(** C3. Refinement: as long as pages have different folds and only the sole holder of a
    page unlocks it, the server started with an empty table answers every sequence of
    requests as the abstract lock service does (readers share, a writer is alone, a held
    page is refused), and its table represents the service's state. *)
Theorem lock_service_refinement (P : page → Prop) rs :
  (∀ p q, P p → P q → page_fold p = page_fold q → p = q) →
  Forall (λ ar, P (req_page (snd ar))) rs → disciplined_run ∅ rs →
  ∃ h', serve ∅ rs = Some (fst (spec_serve ∅ rs), h') ∧
    ∀ p, P p → match h' !! page_fold p with
               | None => state_of (snd (spec_serve ∅ rs)) p = Free
               | Some e => represents e (state_of (snd (spec_serve ∅ rs)) p)
               end.
Proof.
  intros Hinj Hrs Hd. destruct (serve_refines P Hinj ∅ ∅ rs Hrs (refines_empty P) Hd) as (h' & Hs & Hr).
  by exists h'.
Qed.

Lemma lock_service_refinement_witness :
  let rs := [(bs "a", mkRequest 1 1 0 R_LOCK); (bs "b", mkRequest 1 1 0 W_LOCK);
             (bs "a", mkRequest 1 1 0 UNLOCK); (bs "b", mkRequest 1 1 0 W_LOCK)] in
  ∃ h', serve ∅ rs = Some ([LOCK_SUCCESS; LOCK_FAIL; UNLOCK_SUCCESS; LOCK_SUCCESS], h').
Proof.
  intros rs. destruct (lock_service_refinement (λ p, p = (1, 1)) rs) as (h' & Hs & _).
  - intros p q -> ->. done.
  - repeat constructor.
  - repeat split; try done. intros _. cbn. by repeat constructor.
  - exists h'. exact Hs.
Defined.

(** C29. Without that discipline exclusion is lost: when a host [a] unlocks a page that
    another host [b] holds (as one of several readers, or without holding it at all), the
    page is marked as unlocked with [b] still among the holders, and the next write
    request succeeds. *)
Theorem unlock_breaks_exclusion h a b w r1 r2 e :
  h !! page_fold (req_page r1) = Some e → req_page r2 = req_page r1 →
  r_lock_type r1 = UNLOCK → r_lock_type r2 = W_LOCK → b ∈ lock_holder e → a ≠ b →
  ∃ h' e', serve h [(a, r1); (w, r2)] = Some ([UNLOCK_SUCCESS; LOCK_SUCCESS], h') ∧
    h' !! page_fold (req_page r1) = Some e' ∧ lock_type e' = W_LOCK ∧
    b ∈ lock_holder e' ∧ w ∈ lock_holder e'.
Proof.
  intros He Hreq H1 H2 Hb Hne. unfold serve, check_lock_request.
  change (uint32 (cal_fold (space_id r1) (page_no r1))) with (page_fold (req_page r1)).
  change (uint32 (cal_fold (space_id r2) (page_no r2))) with (page_fold (req_page r2)).
  rewrite He, H1. rewrite decide_True by done. cbn [mbind option_bind]. rewrite Hreq, lookup_insert_eq.
  assert (∃ l, update_unlock_page_lock_t a e =
    mkLock (m_fold e) (l_space_id e) (l_page_no e) (version_no e) UNLOCK l (wait_list e) ∧ b ∈ l) as (l & -> & Hl).
  { unfold update_unlock_page_lock_t. assert (b ∈ filter (λ x, x ≠ a) (lock_holder e)) as Hin.
    { apply list_elem_of_filter. by split. }
    destruct (filter _ _) as [|x l]; [by apply elem_of_nil in Hin|]. by exists (x :: l). }
  rewrite decide_False by congruence. cbn [lock_type]. rewrite decide_True by done.
  cbn [mbind option_bind reply_type]. eexists _, _. split; [reflexivity|]. split; [apply lookup_insert_eq|].
  cbn. rewrite H2. split; [done|]. split; apply elem_of_app; [by left|right; left].
Qed.

Lemma unlock_breaks_exclusion_witness :
  ∃ h h' e', serve h [(bs "a", mkRequest 1 1 0 UNLOCK); (bs "w", mkRequest 1 1 0 W_LOCK)] =
      Some ([UNLOCK_SUCCESS; LOCK_SUCCESS], h') ∧
    h' !! page_fold (1, 1) = Some e' ∧ lock_type e' = W_LOCK ∧
    bs "b" ∈ lock_holder e' ∧ bs "w" ∈ lock_holder e'.
Proof.
  exists {[page_fold (1, 1) := mkLock (page_fold (1, 1)) 1 1 0 R_LOCK [bs "a"; bs "b"] []]}.
  apply (unlock_breaks_exclusion _ (bs "a") (bs "b") (bs "w") (mkRequest 1 1 0 UNLOCK)
           (mkRequest 1 1 0 W_LOCK) (mkLock (page_fold (1, 1)) 1 1 0 R_LOCK [bs "a"; bs "b"] [])).
  - apply lookup_singleton_eq.
  - reflexivity.
  - reflexivity.
  - reflexivity.
  - right. left.
  - discriminate.
Defined.

(** One step, entry by entry: a new page, or the update of the entry found. *)
Lemma check_lock_request_cases h a r :
  ∃ code x h', check_lock_request h a r = Some (code, mkReply (space_id r) (page_no r) x, h') ∧
    match h !! page_fold (req_page r) with
    | None => code = 0 ∧ x = LOCK_SUCCESS ∧ h' = <[page_fold (req_page r) :=
        mkLock (cal_fold (space_id r) (page_no r)) (space_id r) (page_no r) 0 (r_lock_type r) [a] []]> h
    | Some e => ∃ e', h' = <[page_fold (req_page r) := e']> h ∧
        ((r_lock_type r = UNLOCK ∧ code = 2 ∧ x = UNLOCK_SUCCESS ∧ e' = update_unlock_page_lock_t a e) ∨
         (r_lock_type r ≠ UNLOCK ∧ code = 1 ∧ x = LOCK_SUCCESS ∧
            (lock_type e = UNLOCK ∨ lock_type e = R_LOCK ∧ r_lock_type r = R_LOCK) ∧
            e' = update_success_page_lock_t a r e) ∨
         (r_lock_type r ≠ UNLOCK ∧ code = -1 ∧ x = LOCK_FAIL ∧ lock_type e ≠ UNLOCK ∧
            e' = update_fail_page_lock_t a r e))
    end.
Proof.
  unfold check_lock_request.
  change (uint32 (cal_fold (space_id r) (page_no r))) with (page_fold (req_page r)).
  destruct (h !! page_fold (req_page r)) as [e|].
  - destruct (r_lock_type r) eqn:Hr, (lock_type e) eqn:He; cbn; do 3 eexists; (split; [reflexivity|]);
      eexists; (split; [reflexivity|]); naive_solver.
  - do 3 eexists. split; [reflexivity|]. done.
Qed.

Definition no_waiters (h : table) : Prop := map_Forall (λ _ e, wait_list e = []) h.

Lemma check_lock_request_no_waiters h a r code reply h' :
  no_waiters h → check_lock_request h a r = Some (code, reply, h') → no_waiters h'.
Proof.
  intros Hn Hc. destruct (check_lock_request_cases h a r) as (code' & x & h'' & Heq & Hcase).
  rewrite Heq in Hc. injection Hc as <- <- <-.
  destruct (h !! page_fold (req_page r)) as [e|] eqn:He.
  - assert (wait_list e = []) as Hw by (by eapply (map_Forall_lookup_1 _ _ _ _ Hn)).
    destruct Hcase as (e' & -> & Hcase). apply map_Forall_insert_2; [|done].
    destruct Hcase as [(_ & _ & _ & ->)|[(_ & _ & _ & _ & ->)|(_ & _ & _ & _ & ->)]]; simpl.
    + unfold update_unlock_page_lock_t. rewrite Hw. by destruct (filter _ _).
    + done.
    + by rewrite Hw.
  - destruct Hcase as (_ & _ & ->). by apply map_Forall_insert_2.
Qed.

(** C38. The server answers every sequence of requests, and no request is ever put on a
    wait list: the lists stay empty, so the hand-over to the first waiter on unlock is
    never taken and a refused host has to ask again. *)
Theorem waiters_never_recorded rs :
  ∃ out h', serve ∅ rs = Some (out, h') ∧ length out = length rs ∧
    ∀ k e, h' !! k = Some e → wait_list e = [].
Proof.
  assert (∀ h, no_waiters h → ∃ out h', serve h rs = Some (out, h') ∧ length out = length rs ∧ no_waiters h') as H.
  { induction rs as [|[a r] rs IH]; intros h Hn; simpl; [by exists [], h|].
    destruct (check_lock_request_cases h a r) as (code & x & h1 & Heq & _). rewrite Heq.
    cbn [mbind option_bind]. apply check_lock_request_no_waiters in Heq; [|done].
    destruct (IH h1 Heq) as (out & h' & -> & Hl & Hn'). cbn [mbind option_bind].
    eexists _, _. split; [done|]. simpl. split; [by f_equal|done]. }
  destruct (H ∅ (map_Forall_empty _)) as (out & h' & Hs & Hl & Hn). by exists out, h'.
Qed.

(** The version numbers: a page's version starts at 0 (also when its first request
    writes), is increased by one by each granted write request on a known page and by
    nothing else; the page an entry stands for never changes. *)
Theorem version_rule h a r code reply h' :
  check_lock_request h a r = Some (code, reply, h') →
  (∀ k, k ≠ page_fold (req_page r) → h' !! k = h !! k) ∧
  ∃ e', h' !! page_fold (req_page r) = Some e' ∧
    match h !! page_fold (req_page r) with
    | None => version_no e' = 0 ∧ (l_space_id e', l_page_no e') = req_page r
    | Some e => version_no e' =
          (if decide (r_lock_type r = W_LOCK ∧ reply_type reply = LOCK_SUCCESS)
           then uint64 (version_no e + 1) else version_no e) ∧
        (l_space_id e', l_page_no e') = (l_space_id e, l_page_no e)
    end.
Proof.
  intros Hc. destruct (check_lock_request_cases h a r) as (code' & x & h'' & Heq & Hcase).
  rewrite Heq in Hc. injection Hc as <- <- <-.
  destruct (h !! page_fold (req_page r)) as [e|] eqn:He.
  - destruct Hcase as (e' & -> & Hcase). split; [intros k Hk; by rewrite lookup_insert_ne|].
    exists e'. rewrite lookup_insert_eq. split; [done|].
    destruct Hcase as [(Hr & _ & -> & ->)|[(Hr & _ & -> & _ & ->)|(Hr & _ & -> & _ & ->)]]; simpl.
    + rewrite decide_False by (intros [? ?]; congruence). unfold update_unlock_page_lock_t.
      by destruct (filter _ _), (wait_list e).
    + split; [|done]. destruct (decide (r_lock_type r = W_LOCK));
        [by rewrite decide_True|rewrite decide_False by (by intros [? ?]); done].
    + by rewrite decide_False by (by intros [? ?]).
  - destruct Hcase as (_ & _ & ->). split; [intros k Hk; by rewrite lookup_insert_ne|].
    rewrite lookup_insert_eq. eexists. split; [done|]. done.
Qed.

Lemma version_rule_witness :
  ∃ e', (<[page_fold (1, 1) := mkLock (page_fold (1, 1)) 1 1 0 W_LOCK [bs "a"] []]> (∅ : table))
          !! page_fold (1, 1) = Some e' ∧ version_no e' = 0 ∧ (l_space_id e', l_page_no e') = (1, 1).
Proof.
  exact (proj2 (version_rule ∅ (bs "a") (mkRequest 1 1 0 W_LOCK) 0 (mkReply 1 1 LOCK_SUCCESS)
                  (<[page_fold (1, 1) := mkLock (page_fold (1, 1)) 1 1 0 W_LOCK [bs "a"] []]> ∅) eq_refl)).
Defined.

Lemma cal_fold_eq s p :
  0 <= s < 2 ^ 32 → 0 <= p < 2 ^ 32 → cal_fold s p = (s * (2 ^ 20 + 1) + p) mod 2 ^ 32.
Proof.
  intros Hs Hp. unfold cal_fold, uint32, wrap. rewrite Z.shiftl_mul_pow2 by lia.
  rewrite Z.add_mod_idemp_l by lia.
  rewrite <- Z.add_assoc, Z.add_mod_idemp_l by lia. f_equal. lia.
Qed.

(** C39. Folds: within a space different pages have different folds; across spaces every
    page shares its fold with a page of the next space, and then a write lock on one page
    makes the server refuse the other one although nobody holds it. *)
Theorem fold_collisions s p a b v :
  0 <= s → s + 1 < 2 ^ 32 → 0 <= p < 2 ^ 32 →
  let q := (p + (2 ^ 20 + 1)) mod 2 ^ 32 in
  (∀ p', 0 <= p' < 2 ^ 32 → cal_fold s p = cal_fold s p' → p = p') ∧
  cal_fold (s + 1) p = cal_fold s q ∧
  ∃ h', serve ∅ [(a, mkRequest (s + 1) p v W_LOCK); (b, mkRequest s q v W_LOCK)] =
    Some ([LOCK_SUCCESS; LOCK_FAIL], h').
Proof.
  intros Hs Hs1 Hp q. assert (0 <= q < 2 ^ 32) as Hq by (unfold q; apply Z.mod_pos_bound; lia).
  assert (cal_fold (s + 1) p = cal_fold s q) as Hcol.
  { rewrite !cal_fold_eq by lia. unfold q. rewrite Z.add_mod_idemp_r by lia. f_equal. lia. }
  split; [|split; [done|]].
  - intros p' Hp' Heq. rewrite !cal_fold_eq in Heq by lia. dlia.
  - unfold serve, check_lock_request, insert_page_lock_t. simpl. rewrite lookup_empty. simpl.
    rewrite <- Hcol. assert (uint32 (cal_fold (s + 1) p) = cal_fold (s + 1) p) as ->.
    { apply uint32_id. rewrite cal_fold_eq by lia. apply Z.mod_pos_bound. lia. }
    rewrite lookup_insert_eq. simpl. eauto.
Qed.

Lemma fold_collisions_witness :
  cal_fold 1 5 = cal_fold 0 1048582 ∧
  ∃ h', serve ∅ [(bs "a", mkRequest 1 5 0 W_LOCK); (bs "b", mkRequest 0 1048582 0 W_LOCK)] =
    Some ([LOCK_SUCCESS; LOCK_FAIL], h').
Proof. apply (fold_collisions 0 5 (bs "a") (bs "b") 0); lia. Defined.

(** ** The server: requests arrive as messages and are answered by messages *)

Definition REMOTE_LOCK_GROUP_NAME : list byte := bs "centralized_lock".
Definition REMOTE_LOCK_REQUEST_MESS_TYPE : list byte := bs "PageLockRequest".
Definition REMOTE_LOCK_REPLY_MESS_TYPE : list byte := bs "PageLockReply".

(** The number that stands for the callback function in the message handle. *)
Definition LOCK_REQUEST_CB : Z := 1.

Section server.
Context {S : Type} `{!ByteStream S}.

(** [None] also when the reply cannot be sent: [assert(false)]. *)
Definition lock_request_callback (b : option Z) (rc : Z) (junk : bool * Z) (lock_manager : table)
    (mess_handle : EventMessHandle.t S) (mess : EventMessage.t) :
    option (table * EventMessHandle.t S * EventMessage.t) :=
  asker ← EventMessage.read_cstr mess (EventMessage.send_host_name mess);
  mem ← EventMessage.read_mem mess (EventMessage.message mess) sizeof_PageLockRequest;
  request ← decode_request mem;
  '(_, reply, lock_manager) ← check_lock_request lock_manager asker request;
  g ← EventMessage.read_cstr mess (EventMessage.group_name mess);
  let replyMsg := EventMessage.prepare_send EventMessage.clear g REMOTE_LOCK_REPLY_MESS_TYPE asker
                    (encode_reply reply) sizeof_PageLockReply in
  '(r, mess_handle, _) ← EventMessHandle.sendMessage mess_handle replyMsg b rc junk;
  if r <? 0 then None else Some (lock_manager, mess_handle, mess).

(** The callbacks of the server's message handle. *)
Definition server_run_cb (b : option Z) (rc : Z) (junk : bool * Z) (cb : Z) (lock_manager : table)
    (h : EventMessHandle.t S) (m : EventMessage.t) (arg : Z) :
    option (table * EventMessHandle.t S * EventMessage.t) :=
  if cb =? LOCK_REQUEST_CB then lock_request_callback b rc junk lock_manager h m else None.

Definition lock_manager_init (base_ok : Z → bool) (hosts : list EventMessHandle.host_item)
    (groups : list EventMessHandle.group_item) (msg_handle : EventMessHandle.t S) :
    option (table * EventMessHandle.t S) :=
  let '(_, msg_handle) := EventMessHandle.init_handle base_ok hosts groups msg_handle in
  '(_, msg_handle) ← EventMessHandle.register_recive_handler msg_handle REMOTE_LOCK_GROUP_NAME
                       REMOTE_LOCK_REQUEST_MESS_TYPE (Some LOCK_REQUEST_CB) 0;
  Some (∅, msg_handle).

Definition lock_manager_free (msg_handle : EventMessHandle.t S) : EventMessHandle.t S :=
  snd (EventMessHandle.free_handle msg_handle).
End server.

(** ** Codecs *)

Record request_ok (r : PageLockRequest) : Prop := {
  ro_space : 0 <= space_id r < 2 ^ 32;
  ro_page : 0 <= page_no r < 2 ^ 32;
  ro_version : 0 <= r_version_no r < 2 ^ 64
}.

Lemma lock_of_val_of t : lock_of_val (lock_val t) = Some t.
Proof. by destruct t. Qed.
Lemma reply_of_val_of t : reply_of_val (reply_val t) = Some t.
Proof. by destruct t. Qed.
Lemma lock_val_range t : 0 <= lock_val t < 2 ^ 32.
Proof. by destruct t. Qed.
Lemma reply_val_range t : 0 <= reply_val t < 2 ^ 32.
Proof. by destruct t. Qed.

Lemma le_val_bytes8 z : 0 <= z < 2 ^ 64 → le_val (le_bytes 8 z) = z.
Proof. intros. rewrite le_val_bytes. apply Z.mod_small. lia. Qed.

(** Reading a field of a struct: the field is [d], preceded by [a]. *)
Lemma field_at (a d k m : list byte) off n :
  m = a ++ d ++ k → Zlen a = off → Zlen d = n → slice m off n = Some d.
Proof. intros -> <- <-. by apply slice_app. Qed.

Lemma decode_encode_request r pad rest :
  request_ok r → decode_request (encode_request r pad ++ rest) = Some r.
Proof.
  intros [Hs Hp Hv]. unfold decode_request, encode_request.
  set (s := le_bytes 4 (space_id r)). set (p := le_bytes 4 (page_no r)).
  set (v := le_bytes 8 (r_version_no r)). set (ty := le_bytes 4 (lock_val (r_lock_type r))).
  rewrite (field_at [] s (p ++ v ++ ty ++ pad ++ rest) _ 0 4); [|by rewrite <- !(assoc_L (++))|done|done].
  rewrite (field_at s p (v ++ ty ++ pad ++ rest) _ 4 4); [|by rewrite <- !(assoc_L (++))|done|done].
  rewrite (field_at (s ++ p) v (ty ++ pad ++ rest) _ 8 8); [|by rewrite <- !(assoc_L (++))|done|done].
  rewrite (field_at (s ++ p ++ v) ty (pad ++ rest) _ 16 4); [|by rewrite <- !(assoc_L (++))|done|done].
  cbn [mbind option_bind fmap option_fmap option_map]. subst s p v ty.
  rewrite !le_val_bytes4, le_val_bytes8, lock_of_val_of by (done || apply lock_val_range).
  by destruct r.
Qed.

Lemma decode_encode_reply r rest :
  0 <= p_space_id r < 2 ^ 32 → 0 <= p_page_no r < 2 ^ 32 →
  decode_reply (encode_reply r ++ rest) = Some r.
Proof.
  intros Hs Hp. unfold decode_reply, encode_reply.
  set (s := le_bytes 4 (p_space_id r)). set (p := le_bytes 4 (p_page_no r)).
  set (ty := le_bytes 4 (reply_val (reply_type r))).
  rewrite (field_at [] s (p ++ ty ++ rest) _ 0 4); [|by rewrite <- !(assoc_L (++))|done|done].
  rewrite (field_at s p (ty ++ rest) _ 4 4); [|by rewrite <- !(assoc_L (++))|done|done].
  rewrite (field_at (s ++ p) ty rest _ 8 4); [|by rewrite <- !(assoc_L (++))|done|done].
  cbn [mbind option_bind fmap option_fmap option_map]. subst s p ty.
  rewrite !le_val_bytes4, reply_of_val_of by (done || apply reply_val_range). by destruct r.
Qed.

Lemma encode_reply_length r : length (encode_reply r) = 12%nat.
Proof. unfold encode_reply. by rewrite !length_app, !le_bytes_length. Qed.

Lemma encode_request_length r pad : length pad = 4%nat → length (encode_request r pad) = 24%nat.
Proof. intros Hp. unfold encode_request. by rewrite !length_app, !le_bytes_length, Hp. Qed.

(** ** Answering a request *)

Section answering.
Context {S : Type} `{!ByteStream S}.

(** The reply to the request message [c], as a message. *)
Definition reply_content (h : EventMessHandle.t S) (c : EventMessage.content) (reply : PageLockReply) :
    EventMessage.content :=
  EventMessage.Content (EventMessage.c_group c) REMOTE_LOCK_REPLY_MESS_TYPE
    (EventMessHandle.local_host_name h) (EventMessage.c_send c) (encode_reply reply).

Lemma reply_sendable h c reply :
  EventMessHandle.deliverable (reply_content h c reply) →
  EventMessHandle.view h (EventMessage.c_group c) REMOTE_LOCK_REPLY_MESS_TYPE ≠ None →
  EventMessHandle.sendable_mess h
    (EventMessage.prepare_send EventMessage.clear (EventMessage.c_group c) REMOTE_LOCK_REPLY_MESS_TYPE
       (EventMessage.c_send c) (encode_reply reply) sizeof_PageLockReply) (reply_content h c reply).
Proof.
  intros Hd Hv. constructor; [done| |done|done].
  repeat split. exists []. by rewrite app_nil_r.
Qed.

(** C27. A request message is answered: the callback takes the decision of
    [check_lock_request] for the sender, stores the new table, and writes the frame of a
    message that carries exactly that reply to the connection to the sender. *)
Theorem lock_request_answered b rc junk mgr h c r pad code reply mgr' lh ip id lh1 info ok info' :
  EventMessHandle.deliverable c → EventMessage.c_payload c = encode_request r pad →
  length pad = 4%nat → request_ok r →
  check_lock_request mgr (EventMessage.c_send c) r = Some (code, reply, mgr') →
  let rep := reply_content h c reply in
  EventMessHandle.deliverable rep →
  EventMessHandle.view h (EventMessage.c_group c) REMOTE_LOCK_REPLY_MESS_TYPE ≠ None →
  EventMessHandle.net h (EventMessage.c_group c) = Some lh →
  EventMessHandle.get_ip h (EventMessage.c_send c) = Some ip →
  EventMessHandle.port_of h (EventMessage.c_group c) (EventMessage.c_send c) ≠ 0 →
  LibeventHandle.get_connection_id_addr lh ip
    (EventMessHandle.port_of h (EventMessage.c_group c) (EventMessage.c_send c)) true b rc junk =
    Some (id, lh1) →
  0 <= id → LibeventHandle.connected lh1 id info →
  LibeventHandle.writeBufferOnce info (EventMessage.wire rep) (Zlen (EventMessage.wire rep)) = Some (ok, info') →
  decode_reply (EventMessage.c_payload rep) = Some reply ∧
  ∃ h', lock_request_callback b rc junk mgr h (EventMessHandle.received c) =
      Some (mgr', h', EventMessHandle.received c) ∧
    EventMessHandle.net h' (EventMessage.c_group c) = Some (LibeventHandle.set_info lh1 id info') ∧
    (∀ g ty, EventMessHandle.view h' g ty = EventMessHandle.view h g ty).
Proof.
  intros [Hn Hsz] Hpay Hpad Hr Hck rep Hrep Hv Hnet Hip Hport Hconn Hid Hc Hwr. split.
  { destruct (check_lock_request_cases mgr (EventMessage.c_send c) r) as (code' & x & m' & Heq & _).
    rewrite Heq in Hck. injection Hck as <- <- <-. unfold rep, reply_content. simpl.
    rewrite <- (app_nil_r (encode_reply _)). destruct Hr. by apply decode_encode_reply. }
  destruct (EventMessHandle.received_fields c Hn) as (Hg & Hs & Hmem).
  unfold lock_request_callback. rewrite Hs. cbn [mbind option_bind].
  rewrite Hpay in Hmem. rewrite (encode_request_length r pad Hpad) in Hmem.
  change sizeof_PageLockRequest with (Z.of_nat 24). rewrite Hmem. cbn [mbind option_bind].
  rewrite <- (app_nil_r (encode_request r pad)), decode_encode_request by done.
  cbn [mbind option_bind]. rewrite Hck. cbn [mbind option_bind]. rewrite Hg. cbn [mbind option_bind].
  destruct (EventMessHandle.sendMessage_ok h
    (EventMessage.prepare_send EventMessage.clear (EventMessage.c_group c) REMOTE_LOCK_REPLY_MESS_TYPE
       (EventMessage.c_send c) (encode_reply reply) sizeof_PageLockReply) rep b rc junk lh ip id lh1 info ok info')
    as (h' & m' & Hsend & _ & Hn' & _ & Hv'); [by apply reply_sendable|done..|].
  rewrite Hsend. cbn [mbind option_bind]. eexists. split; [done|]. split; [done|]. done.
Qed.
End answering.

(** A server handle that knows the host ["B"], with request and reply types. *)
Definition server0 : EventMessHandle.t (list byte) :=
  EventMessHandle.mk false (bs "A") {[bs "B" := bs "10.0.0.1"]}
    {[REMOTE_LOCK_GROUP_NAME := Some (EventMessHandle.mkGroup
        (LibeventHandle.handle0 (LibeventHandle.info0 false false 0 []) [])
        {[bs "B" := 8080]}
        {[REMOTE_LOCK_REPLY_MESS_TYPE := EventMessHandle.mkCallback None 0 []]})]}.

Definition request_content0 : EventMessage.content :=
  EventMessage.Content REMOTE_LOCK_GROUP_NAME REMOTE_LOCK_REQUEST_MESS_TYPE (bs "B") (bs "A")
    (encode_request (mkRequest 3 4 0 W_LOCK) [x00; x00; x00; x00]).

Lemma lock_request_answered_witness :
  ∃ mgr' h', lock_request_callback None 0 (false, 0) ∅ server0 (EventMessHandle.received request_content0) =
    Some (mgr', h', EventMessHandle.received request_content0).
Proof.
  eexists.
  destruct (lock_request_answered None 0 (false, 0) ∅ server0 request_content0 (mkRequest 3 4 0 W_LOCK)
    [x00; x00; x00; x00] 0 (mkReply 3 4 LOCK_SUCCESS)
    (snd (insert_page_lock_t ∅ (bs "B") (mkRequest 3 4 0 W_LOCK)))
    (LibeventHandle.handle0 (LibeventHandle.info0 false false 0 []) []) (bs "10.0.0.1") 0
    (LibeventHandle.handle0 (LibeventHandle.info0 false false 0 []) [])
    (LibeventHandle.info0 false false 0 []) true
    (LibeventHandle.set_output (LibeventHandle.info0 false false 0 [])
       (LibeventHandle.frame (EventMessage.wire
          (reply_content server0 request_content0 (mkReply 3 4 LOCK_SUCCESS)))) 0)) as (_ & h' & H & _).
  - split; [|done]. repeat split; apply (bool_decide_unpack _); vm_compute; exact I.
  - reflexivity.
  - reflexivity.
  - constructor; simpl; lia.
  - reflexivity.
  - split; [|done]. repeat split; apply (bool_decide_unpack _); vm_compute; exact I.
  - vm_compute. discriminate.
  - reflexivity.
  - reflexivity.
  - vm_compute. discriminate.
  - vm_compute. reflexivity.
  - lia.
  - split; reflexivity.
  - reflexivity.
  - exists h'. exact H.
Defined.
