(* ===== verification/LockClient.v ===== *)
(** * The page lock client (class RemotePageLockClient, centralized-lock-table/client/
    remote_page_lock_client.cc and remote_page_lock_client.h)

    The client sends a request message and reads the unprocessed replies through a filter
    until one for its page has arrived. *)

From S2P Require Import Prelude ByteStream.
From S2P Require LibeventHandle EventMessage EventMessHandle LockManager.

Import LockManager.

Section LockClient.
Context {S : Type} `{!ByteStream S}.

(** [PageLockReplyFilter::operator()]: the two fields are read through the message
    pointer. *)
Definition PageLockReplyFilter (f_space_id f_page_no : Z) (mess : EventMessage.t) : option bool :=
  m ← EventMessage.read_mem mess (EventMessage.message mess) 8;
  s ← le_val <$> slice m 0 4; p ← le_val <$> slice m 4 4;
  Some ((s =? f_space_id) && (p =? f_page_no)).

(** [env]: what happens to the handle during the successive sleeps; [None] when the
    client is still waiting after them. *)
Fixpoint wait_for_lock_reply (env : list (EventMessHandle.t S → EventMessHandle.t S))
    (network_handle : EventMessHandle.t S) (reply : PageLockReply) :
    option (Z * PageLockReply * EventMessHandle.t S) :=
  let reply_msg := EventMessage.prepare_recive EventMessage.clear REMOTE_LOCK_GROUP_NAME
                     REMOTE_LOCK_REPLY_MESS_TYPE in
  '(return_val, network_handle, reply_msg) ←
    EventMessHandle.readMessage_filter network_handle reply_msg
      (PageLockReplyFilter (p_space_id reply) (p_page_no reply));
  if return_val =? -1 then Some (-1, reply, network_handle)
  else if return_val =? 1 then
    m ← EventMessage.read_mem reply_msg (EventMessage.message reply_msg) sizeof_PageLockReply;
    reply ← decode_reply m;
    Some (1, reply, network_handle)
  else
    match env with
    | [] => None
    | e :: env => wait_for_lock_reply env (e network_handle) reply
    end.

(** [b], [rc], [junk]: as for sendMessage; [reply0]: what the caller's reply holds; [pad]:
    the padding bytes of the caller's request. *)
Definition request_page_lock (env : list (EventMessHandle.t S → EventMessHandle.t S))
    (b : option Z) (rc : Z) (junk : bool * Z) (lock_server_host pad : list byte)
    (network_handle : EventMessHandle.t S) (request : PageLockRequest) (reply0 : PageLockReply) :
    option (Z * PageLockReply * EventMessHandle.t S) :=
  let request_msg := EventMessage.prepare_send EventMessage.clear REMOTE_LOCK_GROUP_NAME
                       REMOTE_LOCK_REQUEST_MESS_TYPE lock_server_host
                       (encode_request request pad) sizeof_PageLockRequest in
  '(r, network_handle, _) ← EventMessHandle.sendMessage network_handle request_msg b rc junk;
  if r <? 0 then Some (-1, reply0, network_handle)
  else wait_for_lock_reply env network_handle
         (mkReply (space_id request) (page_no request) (reply_type reply0)).

(** ** The replies in the queue *)

(** A queued message that carries the reply [rep]. *)
Definition carries (c : EventMessage.content) (rep : PageLockReply) : Prop :=
  EventMessHandle.deliverable c ∧ EventMessage.c_payload c = encode_reply rep ∧
  0 <= p_space_id rep < 2 ^ 32 ∧ 0 <= p_page_no rep < 2 ^ 32.

Lemma payload_prefix m c n :
  EventMessage.names_ok c → 0 <= n <= Zlen (EventMessage.c_payload c) →
  EventMessage.read_mem (EventMessage.decoded m c) (EventMessage.message (EventMessage.decoded m c)) n =
    Some (take (Z.to_nat n) (EventMessage.c_payload c)).
Proof.
  intros Hn Hr.
  destruct (EventMessage.read_fields (EventMessage.decoded m c) c) as (_ & _ & _ & _ & Hm);
    [by apply EventMessage.read_decoded|].
  unfold EventMessage.read_mem, EventMessage.decoded in *.
  cbn [EventMessage.message EventMessage.message_size EventMessage.buffer_str] in *.
  apply slice_inv in Hm as (H1 & H2 & H3 & H4). rewrite slice_Some by lia. f_equal.
  rewrite H4, take_take. f_equal. lia.
Qed.

Lemma filter_reply sp pg c rep :
  carries c rep →
  PageLockReplyFilter sp pg (EventMessHandle.received c) =
    Some ((p_space_id rep =? sp) && (p_page_no rep =? pg)).
Proof.
  intros ([Hn _] & Hp & Hs & Hpg). unfold PageLockReplyFilter, EventMessHandle.received.
  assert (Zlen (EventMessage.c_payload c) = 12) as Hl by (by rewrite Hp, encode_reply_length).
  rewrite payload_prefix by (done || lia). cbn [mbind option_bind]. rewrite Hp. unfold encode_reply.
  change (Z.to_nat 8) with 8%nat. rewrite (assoc_L (++)), take_app_le by (by rewrite length_app, !le_bytes_length).
  rewrite take_ge by (by rewrite length_app, !le_bytes_length).
  rewrite (field_at [] (le_bytes 4 (p_space_id rep)) (le_bytes 4 (p_page_no rep)) _ 0 4) by done.
  rewrite (field_at (le_bytes 4 (p_space_id rep)) (le_bytes 4 (p_page_no rep)) [] _ 4 4);
    [|by rewrite app_nil_r|done|done].
  cbn [fmap option_fmap option_map mbind option_bind]. by rewrite !le_val_bytes4.
Qed.

Definition same_page (r1 r2 : PageLockReply) : Prop :=
  p_space_id r1 = p_space_id r2 ∧ p_page_no r1 = p_page_no r2.

(** The messages [q] carry replies for other pages. *)
Definition others (q : list EventMessage.content) (reply : PageLockReply) : Prop :=
  Forall (λ c, ∃ rep, carries c rep ∧ ¬ same_page rep reply) q.

Definition replies (h : EventMessHandle.t S) : option (option Z * list EventMessage.t) :=
  EventMessHandle.view h REMOTE_LOCK_GROUP_NAME REMOTE_LOCK_REPLY_MESS_TYPE.

Lemma others_filtered q reply :
  others q reply →
  Forall (λ d, PageLockReplyFilter (p_space_id reply) (p_page_no reply) (EventMessHandle.received d) =
    Some false) q.
Proof.
  intros Hq. eapply Forall_impl; [exact Hq|]. intros c (rep & Hc & Hne). rewrite (filter_reply _ _ c rep Hc).
  f_equal. apply andb_false_iff. unfold same_page in Hne.
  destruct (Z.eqb_spec (p_space_id rep) (p_space_id reply)); [right|by left].
  apply Z.eqb_neq. naive_solver.
Qed.

Lemma query_names m :
  EventMessHandle.names (EventMessage.prepare_recive m REMOTE_LOCK_GROUP_NAME REMOTE_LOCK_REPLY_MESS_TYPE)
    REMOTE_LOCK_GROUP_NAME REMOTE_LOCK_REPLY_MESS_TYPE.
Proof. split; reflexivity. Qed.

Lemma wait_found env h reply cb q1 c q2 rep :
  replies h = Some (cb, EventMessHandle.received <$> q1 ++ c :: q2) → others q1 reply →
  carries c rep → same_page rep reply →
  ∃ h', wait_for_lock_reply env h reply = Some (1, rep, h') ∧
    replies h' = Some (cb, EventMessHandle.received <$> q1 ++ q2).
Proof.
  intros Hv Ho Hc [Hs Hp]. pose proof Hc as (Hd & Hpay & Hrs & Hrp).
  set (reply_msg := EventMessage.prepare_recive EventMessage.clear REMOTE_LOCK_GROUP_NAME
    REMOTE_LOCK_REPLY_MESS_TYPE).
  destruct (EventMessHandle.readMessage_filter_first h reply_msg REMOTE_LOCK_GROUP_NAME
    REMOTE_LOCK_REPLY_MESS_TYPE cb (PageLockReplyFilter (p_space_id reply) (p_page_no reply)) q1 c q2)
    as (h' & Hr & Hv'); [apply query_names|done|by apply others_filtered| |done|done|].
  { rewrite (filter_reply _ _ c rep Hc). by rewrite Hs, Hp, !Z.eqb_refl. }
  exists h'. split; [|unfold replies; rewrite Hv'; by rewrite decide_True].
  assert (Zlen (EventMessage.c_payload c) = 12) as Hl by (by rewrite Hpay, encode_reply_length).
  destruct env; cbn [wait_for_lock_reply]; fold reply_msg; rewrite Hr; cbn [mbind option_bind];
    change (1 =? -1) with false; change (1 =? 1) with true; cbn iota;
    rewrite payload_prefix by (apply Hd || (unfold sizeof_PageLockReply; lia));
    cbn [mbind option_bind]; rewrite take_ge by (unfold sizeof_PageLockReply; lia);
    rewrite Hpay, <- (app_nil_r (encode_reply rep)), decode_encode_reply by done; done.
Qed.

Lemma wait_sleep e env h reply cb q :
  replies h = Some (cb, EventMessHandle.received <$> q) → others q reply →
  wait_for_lock_reply (e :: env) h reply = wait_for_lock_reply env (e h) reply.
Proof.
  intros Hv Ho. cbn [wait_for_lock_reply].
  rewrite (EventMessHandle.readMessage_filter_none h _ REMOTE_LOCK_GROUP_NAME
    REMOTE_LOCK_REPLY_MESS_TYPE cb _ q (query_names _) eq_refl (others_filtered q reply Ho) Hv).
  done.
Qed.

(** The handle after the given sleeps. *)
Definition after (env : list (EventMessHandle.t S → EventMessHandle.t S)) (h : EventMessHandle.t S) :
    EventMessHandle.t S := fold_left (λ h e, e h) env h.

(** C28. Waiting for a reply: if during the sleeps [env] only replies for other pages are
    in the queue and after them the oldest reply for the requested page is [rep], the
    call returns 1 with exactly [rep], takes only that message out of the queue and
    leaves the replies for other pages, in their order, to their own waiters. *)
Theorem wait_for_lock_reply_spec env env' h reply cb q1 c q2 rep :
  (∀ k, (k < length env)%nat → ∃ cb q,
     replies (after (take k env) h) = Some (cb, EventMessHandle.received <$> q) ∧ others q reply) →
  replies (after env h) = Some (cb, EventMessHandle.received <$> q1 ++ c :: q2) →
  others q1 reply → carries c rep → same_page rep reply →
  ∃ h', wait_for_lock_reply (env ++ env') h reply = Some (1, rep, h') ∧
    replies h' = Some (cb, EventMessHandle.received <$> q1 ++ q2).
Proof.
  revert h. induction env as [|e env IH]; intros h Hsleep Hv Ho Hc Hs.
  - simpl. by eapply wait_found.
  - destruct (Hsleep 0%nat) as (cb0 & q0 & Hv0 & Ho0); [simpl; lia|].
    change ((e :: env) ++ env') with (e :: (env ++ env')).
    rewrite (wait_sleep e (env ++ env') h reply cb0 q0 Hv0 Ho0).
    apply IH; [|done..]. intros k Hk. apply (Hsleep (Datatypes.S k)). simpl. lia.
Qed.

(** A request that reaches nobody: when the connection to the lock server cannot be
    made, [sendMessage] still reports success, so [request_page_lock] does not return an
    error but waits for a reply as if the request had been sent. *)
Theorem request_waits_for_nothing env rc junk lock_server_host pad h request reply0 lh ip :
  let c := EventMessage.Content REMOTE_LOCK_GROUP_NAME REMOTE_LOCK_REQUEST_MESS_TYPE
             (EventMessHandle.local_host_name h) lock_server_host (encode_request request pad) in
  length pad = 4%nat → EventMessHandle.deliverable c →
  EventMessHandle.view h REMOTE_LOCK_GROUP_NAME REMOTE_LOCK_REQUEST_MESS_TYPE ≠ None →
  EventMessHandle.net h REMOTE_LOCK_GROUP_NAME = Some lh →
  EventMessHandle.get_ip h lock_server_host = Some ip →
  EventMessHandle.port_of h REMOTE_LOCK_GROUP_NAME lock_server_host ≠ 0 →
  LibeventHandle.get_connection_id_addr lh ip
    (EventMessHandle.port_of h REMOTE_LOCK_GROUP_NAME lock_server_host) true None rc junk =
    Some (-1, lh) →
  ∃ h', EventMessHandle.net h' REMOTE_LOCK_GROUP_NAME = Some lh ∧
    request_page_lock env None rc junk lock_server_host pad h request reply0 =
    wait_for_lock_reply env h' (mkReply (space_id request) (page_no request) (reply_type reply0)).
Proof.
  intros c Hpad Hd Hv Hnet Hip Hport Hconn. unfold request_page_lock.
  set (m := EventMessage.prepare_send EventMessage.clear REMOTE_LOCK_GROUP_NAME
    REMOTE_LOCK_REQUEST_MESS_TYPE lock_server_host (encode_request request pad) sizeof_PageLockRequest).
  assert (EventMessHandle.sendable_mess h m c) as Hm.
  { constructor; [done| |done|done].
    split; [done|]. split; [done|]. split; [done|]. split; [done|]. split.
    - exists []. by rewrite app_nil_r.
    - unfold c. cbn [EventMessage.c_payload]. by rewrite encode_request_length. }
  destruct (EventMessHandle.sendMessage_unsent h m c None rc junk lh ip (-1) lh) as (h' & m' & Heq & _ & Hn');
    [done..|].
  exists h'. split; [done|]. rewrite Heq. done.
Qed.
End LockClient.

(** ** The properties at concrete handles *)

(** A client handle with the given unprocessed replies; it knows the host ["S"] but is
    connected to another one only. *)
Definition client0 (q : list EventMessage.t) : EventMessHandle.t (list byte) :=
  EventMessHandle.mk false (bs "C") {[bs "S" := bs "10.0.0.9"]}
    {[REMOTE_LOCK_GROUP_NAME := Some (EventMessHandle.mkGroup
        (LibeventHandle.handle0 (LibeventHandle.info0 false false 0 []) [])
        {[bs "S" := 8080]}
        {[REMOTE_LOCK_REPLY_MESS_TYPE := EventMessHandle.mkCallback None 0 q;
          REMOTE_LOCK_REQUEST_MESS_TYPE := EventMessHandle.mkCallback None 0 []]})]}.

Definition reply0 (sp pg : Z) (ty : PageReplyType) : EventMessage.content :=
  EventMessage.Content REMOTE_LOCK_GROUP_NAME REMOTE_LOCK_REPLY_MESS_TYPE (bs "S") (bs "C")
    (encode_reply (mkReply sp pg ty)).

Lemma carries0 sp pg ty :
  0 <= sp < 2 ^ 32 → 0 <= pg < 2 ^ 32 → carries (reply0 sp pg ty) (mkReply sp pg ty).
Proof.
  intros Hs Hp. split; [|done]. split.
  - repeat split; apply (bool_decide_unpack _); vm_compute; exact I.
  - unfold EventMessage.wire_size, reply0. cbn [EventMessage.c_payload EventMessage.c_group
      EventMessage.c_type EventMessage.c_send EventMessage.c_recive].
    rewrite encode_reply_length. vm_compute. discriminate.
Qed.

(** The reply for page (1, 2) arrives during the first sleep, behind one for (7, 8). *)
Lemma wait_for_lock_reply_spec_witness :
  let r1 := reply0 7 8 LOCK_SUCCESS in
  let r2 := reply0 1 2 LOCK_FAIL in
  ∃ h', wait_for_lock_reply [λ _, client0 (EventMessHandle.received <$> [r1; r2])]
          (client0 (EventMessHandle.received <$> [r1])) (mkReply 1 2 LOCK_SUCCESS) =
        Some (1, mkReply 1 2 LOCK_FAIL, h') ∧
    replies h' = Some (None, EventMessHandle.received <$> [r1]).
Proof.
  intros r1 r2.
  assert (others [r1] (mkReply 1 2 LOCK_SUCCESS)) as Ho.
  { apply Forall_singleton. exists (mkReply 7 8 LOCK_SUCCESS). split; [apply carries0; lia|].
    intros [H _]. done. }
  apply (wait_for_lock_reply_spec [λ _, client0 (EventMessHandle.received <$> [r1; r2])] []
           (client0 (EventMessHandle.received <$> [r1])) (mkReply 1 2 LOCK_SUCCESS) None [r1] r2 []).
  - intros [|k] Hk; [|simpl in Hk; lia]. exists None, [r1]. split; [reflexivity|exact Ho].
  - reflexivity.
  - exact Ho.
  - apply carries0; lia.
  - split; reflexivity.
Defined.

Lemma request_waits_for_nothing_witness :
  ∃ h', request_page_lock [] None 0 (false, 0) (bs "S") [x00; x00; x00; x00] (client0 [])
          (mkRequest 1 2 0 W_LOCK) (mkReply 0 0 LOCK_FAIL) =
        wait_for_lock_reply [] h' (mkReply 1 2 LOCK_FAIL).
Proof.
  destruct (request_waits_for_nothing [] 0 (false, 0) (bs "S") [x00; x00; x00; x00] (client0 [])
    (mkRequest 1 2 0 W_LOCK) (mkReply 0 0 LOCK_FAIL)
    (LibeventHandle.handle0 (LibeventHandle.info0 false false 0 []) []) (bs "10.0.0.9")) as (h' & _ & H).
  - reflexivity.
  - split; [|done]. repeat split; apply (bool_decide_unpack _); vm_compute; exact I.
  - vm_compute. discriminate.
  - reflexivity.
  - reflexivity.
  - vm_compute. discriminate.
  - vm_compute. reflexivity.
  - exists h'. exact H.
Defined.
