(* ===== verification/JsonRpcPacket.v ===== *)
(** * JSON-RPC packets (class JsonRpcPacket, multi_net_io/src/json_rpc_packet.cc and
    include/json_rpc_packet.h)

    A packet is built by calls on a JSON writer and read by a handler of JSON reader
    events, which copies the values into one caller-supplied buffer.  The JSON text itself
    (rapidjson's writer and reader) is not modelled: the document is an abstract value that
    the reader turns back into the events the writer was given. *)

From S2P Require Import Prelude MultiBuffer.

Inductive PacketItemType := FIRST | NORMAL | LAST | SINGLE.
Inductive PacketSegmentType := HEADER | BODY | PTR_NOTE.
Inductive ParseType := OBJECT | ARRAY | KEY | PTR_KEY | PTR_OFFSET.

#[export] Instance ParseType_eq_dec : EqDecision ParseType.
Proof. solve_decision. Defined.

(** [type == FIRST || type == SINGLE] and [type == LAST || type == SINGLE] *)
Definition opens (ty : PacketItemType) : bool := match ty with FIRST | SINGLE => true | _ => false end.
Definition closes (ty : PacketItemType) : bool := match ty with LAST | SINGLE => true | _ => false end.

Definition segment_val (s : PacketSegmentType) : Z :=
  match s with HEADER => 0 | BODY => 1 | PTR_NOTE => 2 end.

Record ParseItem := mkItem { type : ParseType; key : list byte }.

(** The calls on the writer, and the events of the reader. *)
Inductive event :=
| StartObject | EndObject | StartArray | EndArray
| Key (k : list byte) | Int (n : Z) | Uint (n : Z) | String (s : list byte).

(** ** Writing *)

Definition writer := list event.

Definition clear_packet (w : writer) : writer := [].

(** The [size] bytes at [h]. *)
Definition set_packet_header (w : writer) (h : list byte) (size : Z) : option writer :=
  s ← slice h 0 size;
  Some (w ++ [StartArray; StartObject; Key (bs "SegmentType"); Int (segment_val HEADER);
              Key (bs "PacketHeader"); String s; EndObject]).

Definition set_packet_item (w : writer) (k val : list byte) (val_size : Z) (ty : PacketItemType) :
    option writer :=
  let w := if opens ty
           then w ++ [StartObject; Key (bs "SegmentType"); Int (segment_val BODY)] else w in
  s ← slice val 0 val_size;
  let w := w ++ [Key k; String s] in
  Some (if closes ty then w ++ [EndObject] else w).

Definition set_note_for_ptr (w : writer) (item_key : list byte) (offset : Z) (val : list byte)
    (val_size : Z) (ty : PacketItemType) : option writer :=
  let w := if opens ty
           then w ++ [StartObject; Key (bs "SegmentType"); Int (segment_val PTR_NOTE);
                      Key (bs "note_arry"); StartArray] else w in
  s ← slice val 0 val_size;
  let w := w ++ [StartObject; Key (bs "ptr_key"); String item_key; Key (bs "ptr_offset"); Int offset;
                 Key (bs "ptr_val"); String s; EndObject] in
  Some (if closes ty
        then w ++ [EndArray; EndObject; EndArray] else w).

(** ** Reading: BufferReadHandler *)

(** The head of [parse_stack] is its top. *)
Record handler := mkHandler {
  object_ptrs : list Z;
  name_id_map : gmap (list byte) Z;
  parse_stack : list ParseItem;
  objectBuffer : FixedBuffer.t
}.

Definition set_stack (h : handler) (st : list ParseItem) : handler :=
  mkHandler (object_ptrs h) (name_id_map h) st (objectBuffer h).

(** [BufferReadHandler::clear] *)
Definition handler_clear (h : handler) : handler :=
  mkHandler [] ∅ [] (FixedBuffer.clear (objectBuffer h)).

(** Appending a value and recording where it lies; [None] for undefined behaviour. *)
Definition store (h : handler) (k data : list byte) : option handler :=
  '(offset, b) ← FixedBuffer.append (objectBuffer h) data (int32 (Zlen data));
  let ptrs := object_ptrs h ++ [offset] in
  Some (mkHandler ptrs (<[k := int32 (Zlen ptrs - 1)]> (name_id_map h)) (parse_stack h) b).

Definition on_Uint (h : handler) (u : Z) : option (bool * handler) :=
  match parse_stack h with
  | [] => None
  | item :: st =>
      let h := set_stack h st in
      if decide (key item = bs "ptr_offset") then
        Some (true, set_stack h (mkItem PTR_OFFSET (le_bytes 4 u) :: st))
      else if decide (key item = bs "SegmentType") then Some (true, h)
      else h ← store h (key item) (le_bytes 4 u); Some (true, h)
  end.

Definition on_String (h : handler) (s : list byte) : option (bool * handler) :=
  match parse_stack h with
  | [] => None
  | item :: st =>
      let h := set_stack h st in
      if decide (key item = bs "ptr_key") then
        Some (true, set_stack h (mkItem PTR_KEY s :: st))
      else if decide (key item = bs "ptr_val") then
        match st with
        | item_offset :: item_key :: st =>
            ptr_offset ← word_at (key item_offset ++ [x00]) 0;
            '(val_offset, b) ← FixedBuffer.append (objectBuffer h) s (int32 (Zlen s));
            let address := FixedBuffer.get_address b val_offset in
            let index := default 0 (name_id_map h !! key item_key) in
            let names := <[key item_key := index]> (name_id_map h) in
            start_offset ← object_ptrs h !! Z.to_nat index;
            '(_, b) ← FixedBuffer.put b (le_bytes 8 address)
                        (int32 (uint32 (start_offset + ptr_offset))) 8;
            Some (true, mkHandler (object_ptrs h) names st b)
        | _ => None
        end
      else h ← store h (key item) s; Some (true, h)
  end.

Definition on_StartObject (h : handler) : option (bool * handler) :=
  Some (true, set_stack h (mkItem OBJECT [] :: parse_stack h)).

Definition on_Key (h : handler) (k : list byte) : option (bool * handler) :=
  Some (true, set_stack h (mkItem KEY k :: parse_stack h)).

Definition on_EndObject (h : handler) : option (bool * handler) :=
  match parse_stack h with
  | [] => None
  | item :: st => Some (bool_decide (type item = OBJECT), set_stack h st)
  end.

(** [junk]: the uninitialised type of the local item, tested when the stack is empty (a defect: every packet
    begins with an array). *)
Definition on_StartArray (junk : ParseType) (h : handler) : option (bool * handler) :=
  let ty := match parse_stack h with [] => junk | item :: _ => type item end in
  st ← (if decide (ty = KEY) then match parse_stack h with [] => None | _ :: st => Some st end
        else Some (parse_stack h));
  Some (true, set_stack h (mkItem ARRAY [] :: st)).

Definition on_EndArray (h : handler) : option (bool * handler) :=
  match parse_stack h with
  | [] => None
  | item :: st => Some (bool_decide (type item = ARRAY), set_stack h st)
  end.

(** [Int]: only prints. *)
Definition on_Int (h : handler) (n : Z) : option (bool * handler) := Some (true, h).

Definition on_event (junk : ParseType) (h : handler) (e : event) : option (bool * handler) :=
  match e with
  | StartObject => on_StartObject h | EndObject => on_EndObject h
  | StartArray => on_StartArray junk h | EndArray => on_EndArray h
  | Key k => on_Key h k | Int n => on_Int h n | Uint n => on_Uint h n | String s => on_String h s
  end.

(** The reader stops at the first event the handler answers with false. *)
Fixpoint run_events (junk : ParseType) (evs : list event) (h : handler) : option handler :=
  match evs with
  | [] => Some h
  | e :: evs =>
      '(ok, h) ← on_event junk h e;
      if (ok : bool) then run_events junk evs h else Some h
  end.

Definition append_tail_offset (h : handler) : handler :=
  mkHandler (object_ptrs h ++ [FixedBuffer.size (objectBuffer h)]) (name_id_map h) (parse_stack h)
    (objectBuffer h).

(** [parse]; [events] are those the reader finds in the text. *)
Definition parse (junk : ParseType) (h : handler) (events : list event) (addr : Z) (buffer : list byte)
    (size : Z) : option handler :=
  let h := mkHandler (object_ptrs h) (name_id_map h) (parse_stack h)
             (FixedBuffer.setBuffer (objectBuffer h) addr buffer size) in
  h ← run_events junk events h;
  Some (append_tail_offset h).

Definition get_packet_item_ptr_at (h : handler) (i : Z) : option Z :=
  offset ← object_ptrs h !! Z.to_nat i;
  Some (FixedBuffer.get_address (objectBuffer h) offset).

Definition get_packet_item_size_at (h : handler) (i : Z) : option Z :=
  next ← object_ptrs h !! Z.to_nat (i + 1);
  offset ← object_ptrs h !! Z.to_nat i;
  int_chk (next - offset).

(** Looking a key up makes an entry 0 when there is none. *)
Definition get_packet_item_ptr (h : handler) (k : list byte) : option (Z * handler) :=
  let index := default 0 (name_id_map h !! k) in
  a ← get_packet_item_ptr_at h index;
  Some (a, mkHandler (object_ptrs h) (<[k := index]> (name_id_map h)) (parse_stack h) (objectBuffer h)).

Definition get_packet_item_size (h : handler) (k : list byte) : option (Z * handler) :=
  let index := default 0 (name_id_map h !! k) in
  n ← get_packet_item_size_at h index;
  Some (n, mkHandler (object_ptrs h) (<[k := index]> (name_id_map h)) (parse_stack h) (objectBuffer h)).

Definition get_packet_header_ptr (h : handler) : option (Z * handler) :=
  get_packet_item_ptr h (bs "PacketHeader").
Definition get_packet_header_size (h : handler) : option (Z * handler) :=
  get_packet_item_size h (bs "PacketHeader").

(** A new packet's handler. *)
Definition new_handler : handler := mkHandler [] ∅ [] FixedBuffer.new.

(** ** Whole packets *)

(* key and value *)
Abbreviation item := (list byte * list byte)%type.
(* item key, offset and value *)
Abbreviation note := (list byte * Z * list byte)%type.

(** The calls an application makes for its items and notes. *)
Fixpoint write_items (w : writer) (first : bool) (items : list item) : option writer :=
  match items with
  | [] => Some w
  | (k, v) :: items =>
      let last := bool_decide (items = []) in
      let ty := if first then if last then SINGLE else FIRST else if last then LAST else NORMAL in
      w ← set_packet_item w k v (Zlen v) ty;
      write_items w false items
  end.

Fixpoint write_notes (w : writer) (first : bool) (notes : list note) : option writer :=
  match notes with
  | [] => Some w
  | (k, o, v) :: notes =>
      let last := bool_decide (notes = []) in
      let ty := if first then if last then SINGLE else FIRST else if last then LAST else NORMAL in
      w ← set_note_for_ptr w k o v (Zlen v) ty;
      write_notes w false notes
  end.

Definition write_packet (h : list byte) (items : list item) (notes : list note) : option writer :=
  w ← set_packet_header (clear_packet []) h (Zlen h);
  w ← write_items w true items;
  write_notes w true notes.

(** JSON values and the events that write or read them. *)
#[warnings="-register-all"]
Inductive jvalue :=
| JInt (n : Z) | JString (s : list byte)
| JArray (l : list jvalue) | JObject (l : list (list byte * jvalue)).

Fixpoint events (v : jvalue) : list event :=
  match v with
  | JInt n => [Int n]
  | JString s => [String s]
  | JArray l => [StartArray] ++ concat (map events l) ++ [EndArray]
  | JObject l => [StartObject] ++ concat (map (λ kv, Key (fst kv) :: events (snd kv)) l) ++ [EndObject]
  end.

(** The reader reports a non-negative number as unsigned. *)
Definition as_read (e : event) : event :=
  match e with Int n => if 0 <=? n then Uint n else Int n | e => e end.

Definition item_value (i : item) : list byte * jvalue := (fst i, JString (snd i)).
Definition note_value (n : note) : jvalue :=
  let '(k, o, v) := n in
  JObject [(bs "ptr_key", JString k); (bs "ptr_offset", JInt o); (bs "ptr_val", JString v)].

Definition packet_value (h : list byte) (items : list item) (notes : list note) : jvalue :=
  JArray [JObject [(bs "SegmentType", JInt 0); (bs "PacketHeader", JString h)];
          JObject ((bs "SegmentType", JInt 1) :: map item_value items);
          JObject [(bs "SegmentType", JInt 2); (bs "note_arry", JArray (map note_value notes))]].

Definition field_events (i : item) : list event := [Key (fst i); String (snd i)].
Definition note_events (n : note) : list event := events (note_value n).

Lemma slice_all {A} (l : list A) : slice l 0 (Zlen l) = Some l.
Proof. apply (slice_app_eq [] l []); [by rewrite app_nil_r|done|done]. Qed.

Lemma write_items_rest w items :
  items ≠ [] →
  write_items w false items = Some (w ++ concat (map field_events items) ++ [EndObject]).
Proof.
  revert w. induction items as [|[k v] items IH]; intros w Hne; [done|]. cbn [write_items].
  unfold set_packet_item. rewrite slice_all. destruct items as [|i items].
  - rewrite bool_decide_eq_true_2 by done. cbn [mbind option_bind opens closes write_items write_notes].
    by rewrite <- (assoc_L (++)).
  - rewrite bool_decide_eq_false_2 by done. cbn [mbind option_bind].
    cbn [opens closes]. rewrite IH by done.
    by rewrite <- !(assoc_L (++)).
Qed.

Lemma write_items_all w items :
  items ≠ [] →
  write_items w true items = Some (w ++ events (JObject ((bs "SegmentType", JInt 1) :: map item_value items))).
Proof.
  intros Hne. assert (∀ l, concat (map (λ kv, Key (fst kv) :: events (snd kv)) (map item_value l)) =
    concat (map field_events l)) as Hc by (intros l; rewrite map_map; done).
  cbn [events map concat fst snd]. rewrite Hc. destruct items as [|[k v] items]; [done|]. cbn [write_items].
  unfold set_packet_item. rewrite slice_all. destruct items as [|i items].
  - rewrite bool_decide_eq_true_2 by done. cbn [mbind option_bind opens closes write_items write_notes].
    by rewrite <- !(assoc_L (++)).
  - rewrite bool_decide_eq_false_2 by done. cbn [mbind option_bind].
    cbn [opens closes].
    rewrite write_items_rest by done. by rewrite <- !(assoc_L (++)).
Qed.

Lemma write_notes_rest w notes :
  notes ≠ [] →
  write_notes w false notes = Some (w ++ concat (map note_events notes) ++ [EndArray; EndObject; EndArray]).
Proof.
  revert w. induction notes as [|[[k o] v] notes IH]; intros w Hne; [done|]. cbn [write_notes].
  unfold set_note_for_ptr. rewrite slice_all. destruct notes as [|i notes].
  - rewrite bool_decide_eq_true_2 by done. cbn [mbind option_bind opens closes write_items write_notes].
    by rewrite <- (assoc_L (++)).
  - rewrite bool_decide_eq_false_2 by done. cbn [mbind option_bind].
    cbn [opens closes]. rewrite IH by done.
    by rewrite <- !(assoc_L (++)).
Qed.

Lemma write_notes_all w notes :
  notes ≠ [] →
  write_notes w true notes = Some (w ++ events (JObject [(bs "SegmentType", JInt 2);
    (bs "note_arry", JArray (map note_value notes))]) ++ [EndArray]).
Proof.
  intros Hne. assert (∀ l, concat (map events (map note_value l)) = concat (map note_events l)) as Hc
    by (intros l; rewrite map_map; done).
  cbn [events map concat fst snd]. rewrite Hc. destruct notes as [|[[k o] v] notes]; [done|]. cbn [write_notes].
  unfold set_note_for_ptr. rewrite slice_all. destruct notes as [|i notes].
  - rewrite bool_decide_eq_true_2 by done. cbn [mbind option_bind opens closes write_items write_notes].
    by rewrite <- !(assoc_L (++)).
  - rewrite bool_decide_eq_false_2 by done. cbn [mbind option_bind].
    cbn [opens closes].
    rewrite write_notes_rest by done. cbn [concat map]. rewrite <- !(assoc_L (++)). cbn [app].
    by rewrite <- !(assoc_L (++)).
Qed.

(** The calls write one complete JSON value. *)
Lemma write_packet_value h items notes :
  items ≠ [] → notes ≠ [] → write_packet h items notes = Some (events (packet_value h items notes)).
Proof.
  intros Hi Hn. unfold write_packet, set_packet_header. rewrite slice_all. cbn [mbind option_bind].
  rewrite write_items_all by done. cbn [mbind option_bind]. rewrite write_notes_all by done. f_equal.
  unfold packet_value. cbn [events map concat fst snd]. by rewrite <- ?(assoc_L (++)).
Qed.

(** ** Reading a packet *)

Definition note_read (n : note) : list event :=
  let '(k, o, v) := n in
  [StartObject; Key (bs "ptr_key"); String k; Key (bs "ptr_offset"); Uint o; Key (bs "ptr_val"); String v;
   EndObject].

Definition note_ok (n : note) : Prop := 0 <= snd (fst n) < 2 ^ 32.

Lemma packet_events h items notes :
  Forall note_ok notes →
  map as_read (events (packet_value h items notes)) =
    [StartArray; StartObject; Key (bs "SegmentType"); Uint 0; Key (bs "PacketHeader"); String h; EndObject;
     StartObject; Key (bs "SegmentType"); Uint 1] ++ concat (map field_events items) ++
    [EndObject; StartObject; Key (bs "SegmentType"); Uint 2; Key (bs "note_arry"); StartArray] ++
    concat (map note_read notes) ++ [EndArray; EndObject; EndArray].
Proof.
  intros Hn.
  assert (map as_read (concat (map (λ kv, Key (fst kv) :: events (snd kv)) (map item_value items))) =
    concat (map field_events items)) as Hi.
  { rewrite map_map. induction items as [|i items IH]; [done|]. cbn [map concat].
    rewrite map_app, IH. done. }
  assert (map as_read (concat (map events (map note_value notes))) = concat (map note_read notes)) as Hno.
  { rewrite map_map. induction Hn as [|[[k o] v] notes Ho Hn IH]; [done|]. cbn [map concat].
    rewrite map_app, IH. f_equal. unfold note_ok in Ho. simpl in *. by destruct (Z.leb_spec 0 o); [|lia]. }
  unfold packet_value. cbn [events map concat fst snd]. rewrite !map_app. cbn [events map concat fst snd app].
  rewrite !map_app. rewrite Hi. cbn [map app as_read]. rewrite ?map_app, Hno. cbn [map app as_read].
  rewrite <- !(assoc_L (++)). cbn [app]. rewrite <- ?(assoc_L (++)). done.
Qed.

(** Keys the handler stores under their own name. *)
Definition plain_key (k : list byte) : Prop :=
  k ≠ bs "ptr_key" ∧ k ≠ bs "ptr_val" ∧ k ≠ bs "ptr_offset" ∧ k ≠ bs "SegmentType".

Lemma run_true junk e evs h h' :
  on_event junk h e = Some (true, h') → run_events junk (e :: evs) h = run_events junk evs h'.
Proof. intros He. cbn [run_events]. by rewrite He. Qed.

(** The buffer after a value was appended to it. *)
Definition appended (b b' : FixedBuffer.t) (v : list byte) : Prop :=
  FixedBuffer.wf b' ∧ FixedBuffer.base b' = FixedBuffer.base b ∧
  FixedBuffer.length_ b' = FixedBuffer.length_ b ∧
  FixedBuffer.tail_offset b' = FixedBuffer.tail_offset b + Zlen v ∧
  FixedBuffer.contents b' = FixedBuffer.contents b ++ v.

Lemma append_value b v :
  FixedBuffer.wf b → FixedBuffer.tail_offset b + Zlen v <= FixedBuffer.length_ b →
  ∃ b', FixedBuffer.append b v (int32 (Zlen v)) = Some (FixedBuffer.tail_offset b, b') ∧ appended b b' v.
Proof.
  intros Hb Hf. pose proof Hb as [_ Ht Hm].
  rewrite int32_id by (unfold INT_MIN; lia).
  destruct (FixedBuffer.fixed_append_fits b v (Zlen v)) as (b' & Ha & H); [done|lia|done|].
  exists b'. rewrite Nat2Z.id, take_ge in H by lia. done.
Qed.

Lemma run_field junk evs k v h :
  plain_key k → FixedBuffer.wf (objectBuffer h) →
  FixedBuffer.tail_offset (objectBuffer h) + Zlen v <= FixedBuffer.length_ (objectBuffer h) →
  Zlen (object_ptrs h) < INT_MAX →
  ∃ b', appended (objectBuffer h) b' v ∧
    run_events junk (Key k :: String v :: evs) h =
    run_events junk evs (mkHandler (object_ptrs h ++ [FixedBuffer.tail_offset (objectBuffer h)])
      (<[k := Zlen (object_ptrs h)]> (name_id_map h)) (parse_stack h) b').
Proof.
  intros (Hk1 & Hk2 & _ & _) Hb Hf Hl.
  destruct (append_value (objectBuffer h) v) as (b' & Ha & Hb'); [done..|]. exists b'. split; [done|].
  erewrite run_true by reflexivity. erewrite run_true; [done|]. cbn [on_event]. unfold on_String.
  cbn [parse_stack set_stack key]. rewrite !decide_False by done. unfold store.
  cbn [set_stack objectBuffer object_ptrs name_id_map parse_stack]. rewrite Ha. cbn [mbind option_bind].
  do 4 f_equal. rewrite length_app. unfold INT_MAX in Hl. simpl.
  rewrite int32_id by (unfold INT_MIN, INT_MAX; lia). f_equal. lia.
Qed.

Definition values (items : list item) : list (list byte) := map snd items.
Definition keys (items : list item) : list (list byte) := map fst items.

Lemma run_fields junk evs items h :
  Forall plain_key (keys items) → NoDup (keys items) → FixedBuffer.wf (objectBuffer h) →
  FixedBuffer.tail_offset (objectBuffer h) + Zlen (concat (values items)) <=
    FixedBuffer.length_ (objectBuffer h) →
  Zlen (object_ptrs h) + Zlen items <= INT_MAX →
  ∃ names b', appended (objectBuffer h) b' (concat (values items)) ∧
    run_events junk (concat (map field_events items) ++ evs) h =
      run_events junk evs (mkHandler
        (object_ptrs h ++ layout (FixedBuffer.tail_offset (objectBuffer h)) (values items))
        names (parse_stack h) b') ∧
    (∀ i k v, items !! i = Some (k, v) → names !! k = Some (Zlen (object_ptrs h) + Z.of_nat i)) ∧
    (∀ k, k ∉ keys items → names !! k = name_id_map h !! k).
Proof.
  revert h. induction items as [|[k v] items IH]; intros h Hk Hnd Hb Hf Hl.
  { exists (name_id_map h), (objectBuffer h). simpl. rewrite app_nil_r. split.
    - repeat split; try apply Hb; try done; [simpl; lia|by rewrite app_nil_r].
    - destruct h. done. }
  cbn [keys map fst] in Hk, Hnd. apply Forall_cons in Hk as [Hk1 Hk]. apply NoDup_cons in Hnd as [Hnk Hnd].
  cbn [values map snd concat] in Hf. rewrite length_app in Hf. rewrite length_cons in Hl.
  cbn [map concat]. rewrite <- (assoc_L (++)). change (field_events (k, v)) with [Key k; String v]. cbn [app].
  destruct (run_field junk (concat (map field_events items) ++ evs) k v h) as (b1 & Hb1 & ->); [done|done|lia|lia|].
  destruct Hb1 as (W1 & B1 & L1 & T1 & C1).
  destruct (IH (mkHandler (object_ptrs h ++ [FixedBuffer.tail_offset (objectBuffer h)])
    (<[k := Zlen (object_ptrs h)]> (name_id_map h)) (parse_stack h) b1)) as (names & b' & Hb' & -> & Hn & Hfr);
    [done|done|done|simpl; fold values; unfold values in *; lia|simpl; rewrite length_app; simpl; lia|].
  destruct Hb' as (W2 & B2 & L2 & T2 & C2). cbn [object_ptrs objectBuffer parse_stack name_id_map] in *.
  exists names, b'. split; [|split; [|split]].
  - repeat split; try apply W2; [congruence|congruence|..].
    + rewrite T2, T1. cbn [values map snd concat]. rewrite length_app. unfold values. lia.
    + rewrite C2, C1. cbn [values map snd concat]. by rewrite <- (assoc_L (++)).
  - f_equal. f_equal. rewrite T1. cbn [values map snd layout]. by rewrite <- (assoc_L (++)).
  - intros [|i] k' v' Hi; simpl in Hi.
    + injection Hi as <- <-. rewrite Hfr by done. rewrite lookup_insert_eq. f_equal. lia.
    + rewrite (Hn _ _ _ Hi). rewrite length_app. simpl. f_equal. lia.
  - intros k' Hk'. cbn [keys map fst] in Hk'. apply not_elem_of_cons in Hk' as [Hne Hk'].
    rewrite Hfr by done. by rewrite lookup_insert_ne.
Qed.

(** The buffer after a note: [v] is appended and its address stored at [p]. *)
Definition noted (b b' : FixedBuffer.t) (p : Z) (v : list byte) : Prop :=
  FixedBuffer.wf b' ∧ FixedBuffer.base b' = FixedBuffer.base b ∧
  FixedBuffer.length_ b' = FixedBuffer.length_ b ∧
  FixedBuffer.tail_offset b' = FixedBuffer.tail_offset b + Zlen v ∧
  splice (FixedBuffer.contents b ++ v) p
    (le_bytes 8 (FixedBuffer.base b + FixedBuffer.tail_offset b)) = Some (FixedBuffer.contents b').

Lemma put_inside b data p :
  FixedBuffer.wf b → 0 <= p → p + 8 <= FixedBuffer.tail_offset b → length data = 8%nat →
  ∃ b', FixedBuffer.put b data p 8 = Some (true, b') ∧ FixedBuffer.wf b' ∧
    FixedBuffer.base b' = FixedBuffer.base b ∧ FixedBuffer.length_ b' = FixedBuffer.length_ b ∧
    FixedBuffer.tail_offset b' = FixedBuffer.tail_offset b ∧
    splice (FixedBuffer.contents b) p data = Some (FixedBuffer.contents b').
Proof.
  intros Hb Hp Ht Hd. pose proof Hb as [Hl Htl Hm].
  destruct (FixedBuffer.put_fits b data p 8) as (m & Hs & ->); [done|lia|lia|lia|].
  rewrite take_ge in Hs by lia. pose proof (splice_length _ _ _ _ Hs) as Hlen.
  rewrite Z.max_l by lia. eexists. split; [done|]. cbn.
  split; [constructor; simpl; lia|]. do 3 (split; [done|]).
  unfold FixedBuffer.contents. cbn. apply splice_take; [done|lia|lia].
Qed.

(** Where the note [(k, o, v)] points: the key's value starts at [start]. *)
Definition resolves (names : gmap (list byte) Z) (ptrs : list Z) (k : list byte) (start : Z) : Prop :=
  ∃ idx, names !! k = Some idx ∧ ptrs !! Z.to_nat idx = Some start.

Lemma run_note junk evs k o v h start :
  0 <= o < 2 ^ 32 → 0 <= start → FixedBuffer.wf (objectBuffer h) →
  resolves (name_id_map h) (object_ptrs h) k start →
  start + o + 8 <= FixedBuffer.tail_offset (objectBuffer h) →
  FixedBuffer.tail_offset (objectBuffer h) + Zlen v <= FixedBuffer.length_ (objectBuffer h) →
  ∃ b', noted (objectBuffer h) b' (start + o) v ∧
    run_events junk (note_read (k, o, v) ++ evs) h =
    run_events junk evs (mkHandler (object_ptrs h) (name_id_map h) (parse_stack h) b').
Proof.
  intros Ho Hst Hb (idx & Hidx & Hptr) Hin Hf. pose proof Hb as [_ Hbt Hbm].
  destruct (append_value (objectBuffer h) v) as (b1 & Ha & W1 & B1 & L1 & T1 & C1); [done..|].
  destruct (put_inside b1 (le_bytes 8 (FixedBuffer.base b1 + FixedBuffer.tail_offset (objectBuffer h)))
    (start + o)) as (b2 & Hp & W2 & B2 & L2 & T2 & C2); [done|lia|lia|done|].
  exists b2. split.
  { split; [done|]. split; [congruence|]. split; [congruence|]. split; [congruence|].
    rewrite <- C1, <- B1. done. }
  unfold note_read. cbn [app]. do 2 (erewrite run_true by reflexivity).
  erewrite run_true.
  2: { cbn [on_event]. unfold on_String. cbn [parse_stack set_stack key]. by rewrite decide_True by done. }
  erewrite run_true by reflexivity. erewrite run_true.
  2: { cbn [on_event]. unfold on_Uint. cbn [parse_stack set_stack key]. by rewrite decide_True by done. }
  erewrite run_true by reflexivity. erewrite run_true.
  2: { cbn [on_event]. unfold on_String. cbn [parse_stack set_stack key objectBuffer object_ptrs name_id_map].
       rewrite decide_False, decide_True by done. unfold word_at.
       rewrite (slice_app_eq [] (le_bytes 4 o) [x00]) by done. cbn [fmap option_fmap option_map mbind option_bind].
       rewrite le_val_bytes4 by done. rewrite Ha. cbn [mbind option_bind].
       rewrite Hidx. cbn [from_option id]. rewrite Hptr. cbn [mbind option_bind].
       rewrite uint32_id, int32_id by (unfold INT_MIN, INT_MAX in *; lia).
       unfold FixedBuffer.get_address. rewrite Hp. cbn [mbind option_bind]. rewrite insert_id by done. done. }
  erewrite run_true by reflexivity. done.
Qed.

(** The positions a list of notes patches. *)
Definition patches (names : gmap (list byte) Z) (ptrs : list Z) (notes : list note) (j : Z) : Prop :=
  ∃ k o v start, (k, o, v) ∈ notes ∧ resolves names ptrs k start ∧ start + o <= j < start + o + 8.

Definition note_values (notes : list note) : list (list byte) := map snd notes.

Lemma run_notes junk evs notes h :
  FixedBuffer.wf (objectBuffer h) → Forall note_ok notes →
  Forall (λ n, ∃ start, 0 <= start ∧ resolves (name_id_map h) (object_ptrs h) (fst (fst n)) start ∧
            start + snd (fst n) + 8 <= FixedBuffer.tail_offset (objectBuffer h)) notes →
  FixedBuffer.tail_offset (objectBuffer h) + Zlen (concat (note_values notes)) <=
    FixedBuffer.length_ (objectBuffer h) →
  ∃ b', FixedBuffer.wf b' ∧ FixedBuffer.base b' = FixedBuffer.base (objectBuffer h) ∧
    FixedBuffer.tail_offset b' = FixedBuffer.tail_offset (objectBuffer h) + Zlen (concat (note_values notes)) ∧
    run_events junk (concat (map note_read notes) ++ evs) h =
      run_events junk evs (mkHandler (object_ptrs h) (name_id_map h) (parse_stack h) b') ∧
    ∀ j : nat, Z.of_nat j < FixedBuffer.tail_offset (objectBuffer h) →
      ¬ patches (name_id_map h) (object_ptrs h) notes (Z.of_nat j) →
      FixedBuffer.contents b' !! j = FixedBuffer.contents (objectBuffer h) !! j.
Proof.
  revert h. induction notes as [|[[k o] v] notes IH]; intros h Hb Hok Hres Hf.
  { exists (objectBuffer h). simpl. split; [done|]. split; [done|]. split; [lia|]. split; [by destruct h|done]. }
  apply Forall_cons in Hok as [Ho Hok]. apply Forall_cons in Hres as [(start & Hst & Hr & Hin) Hres].
  cbn [fst snd] in *. cbn [note_values map snd concat] in Hf. rewrite length_app in Hf.
  cbn [map concat]. rewrite <- (assoc_L (++)).
  destruct (run_note junk (concat (map note_read notes) ++ evs) k o v h start)
    as (b1 & (W1 & B1 & L1 & T1 & C1) & ->); [exact Ho|done|done|done|lia|lia|].
  destruct (IH (mkHandler (object_ptrs h) (name_id_map h) (parse_stack h) b1))
    as (b' & W2 & B2 & T2 & -> & Hc); cbn [objectBuffer object_ptrs name_id_map parse_stack]; [done|done| |..].
  { eapply Forall_impl; [exact Hres|]. intros n (st & ? & ? & ?). exists st. rewrite T1. split; [done|]. split; [done|lia]. }
  { unfold note_values in *. lia. }
  cbn [objectBuffer object_ptrs name_id_map parse_stack] in *.
  exists b'. split; [done|]. split; [congruence|]. split.
  { rewrite T2, T1. cbn [note_values map snd concat]. rewrite length_app. unfold note_values. lia. }
  split; [done|]. intros j Hj Hnp. rewrite Hc; [|lia|].
  - rewrite (splice_lookup_ne _ _ _ _ j C1).
    + rewrite lookup_app_l; [done|]. unfold FixedBuffer.contents. rewrite length_take. destruct Hb. lia.
    + rewrite le_bytes_length. destruct (decide (Z.of_nat j < start + o)); [by left|right].
      destruct (decide (start + o + 8 <= Z.of_nat j)); [lia|]. exfalso. apply Hnp.
      exists k, o, v, start. split; [left|]. split; [done|lia].
  - intros (k' & o' & v' & s' & Hin' & Hr' & Hj'). apply Hnp. exists k', o', v', s'. split; [by right|done].
Qed.

(** ** Offsets of the fields *)

Definition offset_of (vals : list (list byte)) (i : nat) : Z := Zlen (concat (take i vals)).

Lemma layout_lookup pos vals (i : nat) :
  (i < length vals)%nat → layout pos vals !! i = Some (pos + offset_of vals i).
Proof.
  revert pos i. induction vals as [|v vals IH]; intros pos [|i] Hi; simpl in *; [lia|lia| |].
  - unfold offset_of. simpl. f_equal. lia.
  - rewrite IH by lia. unfold offset_of. simpl. rewrite length_app. f_equal. lia.
Qed.

Lemma layout_length pos vals : length (layout pos vals) = length vals.
Proof. revert pos. induction vals; intros; simpl; [done|by f_equal]. Qed.

Lemma offset_of_S vals i v :
  vals !! i = Some v → offset_of vals (S i) = offset_of vals i + Zlen v.
Proof.
  intros Hi. unfold offset_of. rewrite (take_S_r _ _ _ Hi), concat_app, length_app. simpl.
  rewrite app_nil_r. lia.
Qed.

Lemma offset_of_mono vals i j : (i <= j)%nat → offset_of vals i <= offset_of vals j.
Proof.
  intros Hij. unfold offset_of. replace j with (i + (j - i))%nat by lia.
  rewrite <- (take_drop i (take (i + (j - i)) vals)). rewrite take_take, Nat.min_l by lia.
  rewrite concat_app, length_app. lia.
Qed.

Lemma offset_of_all vals i : (length vals <= i)%nat → offset_of vals i = Zlen (concat vals).
Proof. intros Hi. unfold offset_of. by rewrite take_ge. Qed.

(** A field of the concatenation. *)
Lemma concat_field vals i v (j : nat) :
  vals !! i = Some v → (j < length v)%nat →
  concat vals !! (Z.to_nat (offset_of vals i) + j)%nat = v !! j.
Proof.
  intros Hi Hj. unfold offset_of. rewrite Nat2Z.id. pose proof (take_drop_middle _ _ _ Hi) as Hd.
  set (l := take i vals) in *. clearbody l. rewrite <- Hd, concat_app. cbn [concat].
  rewrite lookup_app_r, lookup_app_l by lia. f_equal. lia.
Qed.

(** Positions in two fields are equal only when the fields are. *)
Lemma same_field vals i i' v v' j j' :
  vals !! i = Some v → vals !! i' = Some v' → 0 <= j < Zlen v → 0 <= j' < Zlen v' →
  offset_of vals i + j = offset_of vals i' + j' → i = i'.
Proof.
  intros Hi Hi' Hj Hj' Heq. destruct (Nat.lt_trichotomy i i') as [Hlt|[->|Hlt]]; [|done|]; exfalso.
  - pose proof (offset_of_mono vals (S i) i' Hlt) as Hm. rewrite (offset_of_S _ _ _ Hi) in Hm. lia.
  - pose proof (offset_of_mono vals (S i') i Hlt) as Hm. rewrite (offset_of_S _ _ _ Hi') in Hm. lia.
Qed.

(** ** Whole packets, read back *)

Definition fields (h : list byte) (items : list item) : list item := (bs "PacketHeader", h) :: items.

(** Keys differ, values fit, and each note patches eight bytes inside the value it names. *)
Record packet_ok (h : list byte) (items : list item) (notes : list note) (size : Z) : Prop := {
  po_items : items ≠ [];
  po_notes : notes ≠ [];
  po_plain : Forall plain_key (keys items);
  po_nodup : NoDup (keys (fields h items));
  po_fits : Zlen (concat (values (fields h items))) + Zlen (concat (note_values notes)) <= size;
  po_size : size <= INT_MAX;
  po_count : Zlen items < INT_MAX;
  po_note : Forall (λ n : note, note_ok n ∧ ∃ i v, fields h items !! i = Some (fst (fst n), v) ∧
              snd (fst n) + 8 <= Zlen v) notes
}.

Lemma header_plain : plain_key (bs "PacketHeader").
Proof. repeat split; discriminate. Qed.

(** The handler after the packet was read, before the closing events. *)
Lemma run_packet junk h items notes addr buffer :
  junk ≠ KEY → packet_ok h items notes (Zlen buffer) →
  ∃ names b', let ptrs := layout 0 (values (fields h items)) in
    run_events junk (map as_read (events (packet_value h items notes)))
      (mkHandler [] ∅ [] (FixedBuffer.setBuffer FixedBuffer.new addr buffer (Zlen buffer))) =
      Some (mkHandler ptrs names [] b') ∧
    FixedBuffer.base b' = addr ∧
    FixedBuffer.tail_offset b' =
      Zlen (concat (values (fields h items))) + Zlen (concat (note_values notes)) ∧
    (∀ i k v, fields h items !! i = Some (k, v) → names !! k = Some (Z.of_nat i)) ∧
    (∀ j : nat, Z.of_nat j < Zlen (concat (values (fields h items))) →
       ¬ patches names ptrs notes (Z.of_nat j) →
       FixedBuffer.contents b' !! j = concat (values (fields h items)) !! j).
Proof.
  intros Hjunk [_ _ Hplain Hnd Hfits Hsize Hcount Hnote].
  set (b0 := FixedBuffer.setBuffer FixedBuffer.new addr buffer (Zlen buffer)).
  destruct (FixedBuffer.setBuffer_wf FixedBuffer.new addr buffer (Zlen buffer)) as [W0 C0]; [done|done|].
  fold b0 in W0, C0. assert (FixedBuffer.tail_offset b0 = 0) as T0 by done.
  assert (FixedBuffer.length_ b0 = Zlen buffer) as L0 by done.
  rewrite packet_events by (eapply Forall_impl; [exact Hnote|]; by intros n [? _]).
  (* the opening events and the header's segment type *)
  cbn [app]. erewrite run_true.
  2: { cbn [on_event]. unfold on_StartArray. cbn [parse_stack]. by rewrite decide_False by done. }
  do 2 (erewrite run_true by reflexivity). erewrite run_true.
  2: { cbn [on_event]. unfold on_Uint. cbn [parse_stack set_stack key]. by rewrite decide_False, decide_True by done. }
  unfold set_stack. cbn [parse_stack object_ptrs name_id_map objectBuffer].
  cbn [values fields map snd concat] in Hfits |- *. rewrite length_app in Hfits |- *.
  destruct (run_field junk (EndObject :: StartObject :: Key (bs "SegmentType") :: Uint 1 ::
    concat (map field_events items) ++ EndObject :: StartObject :: Key (bs "SegmentType") :: Uint 2 ::
    Key (bs "note_arry") :: StartArray :: concat (map note_read notes) ++ [EndArray; EndObject; EndArray])
    (bs "PacketHeader") h (mkHandler [] ∅ [mkItem OBJECT []; mkItem ARRAY []] b0))
    as (b1 & (W1 & B1 & L1 & T1 & C1) & Hrun1);
    [apply header_plain|done|cbn [objectBuffer]; unfold values in *; lia|done|].
  cbn [objectBuffer parse_stack object_ptrs name_id_map] in *. rewrite Hrun1.
  do 3 (erewrite run_true by reflexivity). erewrite run_true.
  2: { cbn [on_event]. unfold on_Uint. cbn [parse_stack set_stack key]. by rewrite decide_False, decide_True by done. }
  unfold set_stack. cbn [parse_stack object_ptrs name_id_map objectBuffer].
  cbn [keys fields map fst] in Hnd. apply NoDup_cons in Hnd as [Hnh Hnd].
  match goal with |- context [run_events junk (concat (map field_events items) ++ ?e) ?h0] =>
    destruct (run_fields junk e items h0) as (names & b2 & (W2 & B2 & L2 & T2 & C2) & -> & Hn & Hfr) end;
    cbn [objectBuffer parse_stack object_ptrs name_id_map] in *.
  { done. }
  { done. }
  { done. }
  { rewrite L1, T1, T0. unfold values in *. lia. }
  { simpl. lia. }
  do 3 (erewrite run_true by reflexivity). erewrite run_true.
  2: { cbn [on_event]. unfold on_Uint. cbn [parse_stack set_stack key]. by rewrite decide_False, decide_True by done. }
  unfold set_stack. cbn [parse_stack object_ptrs name_id_map objectBuffer].
  do 2 (erewrite run_true by reflexivity).
  unfold set_stack. cbn [parse_stack object_ptrs name_id_map objectBuffer].
  assert (([] ++ [FixedBuffer.tail_offset b0]) ++ layout (FixedBuffer.tail_offset b1) (values items) =
    layout 0 (h :: values items)) as Hptrs by (rewrite T1, T0; done).
  rewrite Hptrs. rewrite C1, C0 in C2. cbn [app] in C2. rewrite T1, T0 in T2.
  assert (∀ i k v, fields h items !! i = Some (k, v) → names !! k = Some (Z.of_nat i)) as Hnames.
  { intros [|i] k v Hi; simpl in Hi; [|rewrite (Hn _ _ _ Hi); simpl; f_equal; lia].
    injection Hi as <- <-. by rewrite Hfr, lookup_insert_eq. }
  match goal with |- context [run_events junk (concat (map note_read notes) ++ ?e) ?h0] =>
    destruct (run_notes junk e notes h0) as (b3 & W3 & B3 & T3 & -> & Hc) end;
    cbn [objectBuffer parse_stack object_ptrs name_id_map] in *.
  { done. }
  { eapply Forall_impl; [exact Hnote|]. by intros n [? _]. }
  { eapply Forall_impl; [exact Hnote|]. intros n (_ & i & v & Hi & Hlen).
    assert (values (fields h items) !! i = Some v) as Hv.
    { change (values (fields h items)) with (snd <$> fields h items). by rewrite list_lookup_fmap, Hi. }
    exists (offset_of (h :: values items) i). split; [unfold offset_of; lia|]. split.
    - exists (Z.of_nat i). split; [by apply (Hnames i _ v)|]. rewrite Nat2Z.id.
      rewrite layout_lookup; [by rewrite Z.add_0_l|]. apply lookup_lt_Some in Hv. done.
    - rewrite T2. pose proof (offset_of_S _ _ _ Hv) as HS.
      pose proof (offset_of_mono (values (fields h items)) (S i) (S i `max` length (values (fields h items))) ltac:(lia)) as Hm.
      rewrite (offset_of_all _ (S i `max` _)) in Hm by lia.
      change (values (fields h items)) with (h :: values items) in *. cbn [concat] in Hm. rewrite length_app in Hm. lia. }
  { rewrite L2, L1, T2. unfold values in *. lia. }
  do 3 (erewrite run_true by reflexivity).
  exists names, b3. split; [done|]. split; [by rewrite B3, B2, B1|]. split; [rewrite T3, T2; unfold values in *; lia|]. split; [done|].
  intros j Hj Hnp. rewrite Hc; [by rewrite C2|rewrite T2; unfold values in *; lia|done].
Qed.

Section rapidjson.
(** The JSON text: [render] is what the writer produces for its calls, [reader] the events
    the reader finds in it. *)
Variable text : Type.
Variable render : list event → text.
Variable reader : text → list event.
(** Reading the text of a JSON value gives the events of the value back. *)
Hypothesis reader_render : ∀ v, reader (render (events v)) = map as_read (events v).

(** C26. A packet with at least one item and one note ([packet_ok]: distinct plain keys, everything within
    the buffer, notes within the values they patch), written by one side and parsed by the other with a
    JSON library that reads what it has written: every field is found under its key, at the offset that
    follows from the sizes of the fields before it, with its bytes intact outside of the windows its
    notes patch; its size is right for all fields but the last one, whose reported size also counts the
    values of the notes (a defect).  The parser reads the type of an item that it has not initialised,
    [junk] (another defect); the theorem holds if this is not KEY, and if it is, the parser takes an
    element from an empty stack ([junk_key_undefined]). *)
Theorem packet_roundtrip junk h items notes addr buffer :
  junk ≠ KEY → packet_ok h items notes (Zlen buffer) →
  ∃ w hd, write_packet h items notes = Some w ∧
    parse junk new_handler (reader (render w)) addr buffer (Zlen buffer) = Some hd ∧
    ∀ i k v, fields h items !! i = Some (k, v) →
      let off := offset_of (values (fields h items)) i in
      (∃ hd', get_packet_item_ptr hd k = Some (addr + off, hd')) ∧
      (∃ hd', get_packet_item_size hd k =
         Some (Zlen v + (if decide (S i = length (fields h items))
                         then Zlen (concat (note_values notes)) else 0), hd')) ∧
      ∀ j : nat, (j < length v)%nat →
        (∀ o v', (k, o, v') ∈ notes → ¬ o <= Z.of_nat j < o + 8) →
        FixedBuffer.contents (objectBuffer hd) !! (Z.to_nat off + j)%nat = v !! j.
Proof.
  intros Hjunk Hok. pose proof Hok as [Hi0 Hn0 _ _ Hfits Hsize _ Hnote].
  exists (events (packet_value h items notes)).
  destruct (run_packet junk h items notes addr buffer Hjunk Hok) as (names & b & Hrun & Hbase & Htail & Hnames & Hc).
  eexists. split; [by apply write_packet_value|]. split.
  { unfold parse. rewrite reader_render. unfold new_handler. cbn [object_ptrs name_id_map parse_stack objectBuffer].
    rewrite Hrun. reflexivity. }
  intros i k v Hi. cbn zeta. set (vals := values (fields h items)) in *.
  assert (∀ i k v, fields h items !! i = Some (k, v) → vals !! i = Some v) as Hval.
  { intros i' k' v' Hi'. change vals with (snd <$> fields h items). by rewrite list_lookup_fmap, Hi'. }
  pose proof (Hval _ _ _ Hi) as Hv. pose proof (lookup_lt_Some _ _ _ Hv) as Hlt.
  assert (length vals = length (fields h items)) as Hlen by apply length_map.
  assert (∀ i', (i' < length vals)%nat → layout 0 vals !! i' = Some (offset_of vals i')) as Hlay.
  { intros i' Hi'. rewrite layout_lookup by done. f_equal. }
  split; [|split].
  - unfold get_packet_item_ptr, append_tail_offset. cbn [name_id_map object_ptrs objectBuffer parse_stack].
    rewrite (Hnames _ _ _ Hi). cbn [from_option id]. unfold get_packet_item_ptr_at. cbn [object_ptrs objectBuffer].
    rewrite Nat2Z.id, lookup_app_l by (rewrite layout_length; lia). rewrite Hlay by lia. cbn [mbind option_bind].
    unfold FixedBuffer.get_address. rewrite Hbase. eauto.
  - unfold get_packet_item_size, append_tail_offset. cbn [name_id_map object_ptrs objectBuffer parse_stack].
    rewrite (Hnames _ _ _ Hi). cbn [from_option id]. unfold get_packet_item_size_at. cbn [object_ptrs objectBuffer].
    rewrite (lookup_app_l _ _ (Z.to_nat (Z.of_nat i))) by (rewrite layout_length; lia). rewrite Nat2Z.id, (Hlay i) by lia.
    replace (Z.to_nat (Z.of_nat i + 1)) with (S i) by lia.
    pose proof (offset_of_S _ _ _ Hv) as HS. pose proof (offset_of_mono vals (S i) (length vals) ltac:(lia)) as Hm.
    rewrite (offset_of_all vals (length vals)) in Hm by lia.
    assert (0 <= offset_of vals i) by (unfold offset_of; lia).
    destruct (decide (S i = length (fields h items))) as [He|He].
    + rewrite lookup_app_r by (rewrite layout_length; lia). rewrite layout_length.
      replace (S i - length vals)%nat with 0%nat by lia. cbn [lookup list_lookup mbind option_bind].
      unfold FixedBuffer.size. rewrite Htail. rewrite offset_of_all in HS by lia.
      rewrite int_chk_Some by (unfold INT_MIN; lia). cbn [mbind option_bind]. eexists. do 2 f_equal. lia.
    + rewrite lookup_app_l by (rewrite layout_length; lia). rewrite Hlay by lia. cbn [mbind option_bind].
      rewrite int_chk_Some by (unfold INT_MIN; lia). cbn [mbind option_bind]. eexists. do 2 f_equal. lia.
  - intros j Hj Hnp. unfold append_tail_offset. cbn [objectBuffer].
    assert (0 <= offset_of vals i) by (unfold offset_of; lia).
    pose proof (offset_of_S _ _ _ Hv) as HS. pose proof (offset_of_mono vals (S i) (length vals) ltac:(lia)) as Hm.
    rewrite (offset_of_all vals (length vals)) in Hm by lia.
    rewrite Hc; [by apply concat_field|lia|].
    intros (k' & o & v' & start & Hin & (idx & Hidx & Hptr) & Hwin).
    destruct (proj1 (Forall_forall _ _) Hnote _ Hin) as (Ho & i' & v1 & Hi' & Hlen').
    cbn [fst snd] in *. rewrite (Hnames _ _ _ Hi') in Hidx. injection Hidx as <-.
    pose proof (lookup_lt_Some _ _ _ (Hval _ _ _ Hi')) as Hlt'.
    rewrite Nat2Z.id, Hlay in Hptr by lia. injection Hptr as <-. unfold note_ok in Ho. simpl in Ho.
    assert (i = i') as <-.
    { apply (same_field vals i i' v v1 (Z.of_nat j) (Z.of_nat (Z.to_nat (offset_of vals i) + j) - offset_of vals i'));
        [done|by eapply Hval|lia|lia|lia]. }
    rewrite Hi in Hi'. injection Hi' as <- <-. apply (Hnp o v' Hin). lia.
Qed.
End rapidjson.

Lemma packet_roundtrip_witness :
  let notes := [(bs "arg", 0, bs "pointee")] in
  ∃ w hd, write_packet (bs "hdr") [(bs "arg", bs "01234567rest")] notes = Some w ∧
    parse OBJECT new_handler (map as_read w) 4096 (replicate 64 x00) 64 = Some hd ∧
    ∃ hd', get_packet_item_size hd (bs "arg") = Some (12 + 7, hd').
Proof.
  intros notes.
  destruct (packet_roundtrip (list event) (λ l, l) (map as_read) (λ v, eq_refl) OBJECT (bs "hdr")
              [(bs "arg", bs "01234567rest")] notes 4096 (replicate 64 x00)) as (w & hd & Hw & Hp & Hf).
  - discriminate.
  - constructor.
    + discriminate.
    + discriminate.
    + repeat constructor; discriminate.
    + apply (bool_decide_unpack _). vm_compute. exact I.
    + vm_compute. discriminate.
    + vm_compute. discriminate.
    + vm_compute. reflexivity.
    + apply Forall_singleton. split; [unfold note_ok; simpl; lia|].
      exists 1%nat, (bs "01234567rest"). split; [reflexivity|]. vm_compute. discriminate.
  - exists w, hd. split; [exact Hw|]. split; [exact Hp|].
    destruct (Hf 1%nat (bs "arg") (bs "01234567rest") eq_refl) as (_ & Hs & _). exact Hs.
Defined.

(** Every packet starts with an array, so the type of the local item is read before anything has been
    stored there.  Were it KEY, an element would be taken from the empty stack. *)
Lemma junk_key_undefined evs h :
  parse_stack h = [] → run_events KEY (StartArray :: evs) h = None.
Proof. intros Hs. cbn. unfold on_StartArray. by rewrite Hs. Qed.
Example packet_starts_with_array :
  (head <$> write_packet (bs "hdr") [(bs "arg", bs "rest")] [(bs "arg", 0, bs "pointee")]) = Some (Some StartArray).
Proof. vm_compute. reflexivity. Qed.

(** A pointer note: the note's value is appended to the buffer and the eight bytes at
    the given offset of the value it names are overwritten by the address at which the
    appended value starts; the fields and their offsets stay as they were. *)
Theorem note_patches_pointer junk evs k o v h start :
  0 <= o < 2 ^ 32 → 0 <= start → FixedBuffer.wf (objectBuffer h) →
  resolves (name_id_map h) (object_ptrs h) k start →
  start + o + 8 <= FixedBuffer.tail_offset (objectBuffer h) →
  FixedBuffer.tail_offset (objectBuffer h) + Zlen v <= FixedBuffer.length_ (objectBuffer h) →
  ∃ b', let tail := FixedBuffer.tail_offset (objectBuffer h) in
    run_events junk (note_read (k, o, v) ++ evs) h =
      run_events junk evs (mkHandler (object_ptrs h) (name_id_map h) (parse_stack h) b') ∧
    FixedBuffer.get b' (start + o) 8 = Some (le_bytes 8 (FixedBuffer.get_address (objectBuffer h) tail)) ∧
    FixedBuffer.get b' tail (Zlen v) = Some v.
Proof.
  intros Ho Hs Hb Hr Hin Hf. destruct (run_note junk evs k o v h start) as (b' & (W & B & L & T & C) & Hrun); [done..|].
  exists b'. cbn zeta. split; [done|]. pose proof Hb as [HL HT _]. pose proof W as [WL WT _].
  assert (Zlen (FixedBuffer.contents b') = FixedBuffer.tail_offset b') as Hlen.
  { unfold FixedBuffer.contents. rewrite length_take. lia. }
  assert (∀ off n d, slice (FixedBuffer.contents b') off n = Some d → FixedBuffer.get b' off n = Some d) as Hget.
  { intros off n d (H1 & H2 & H3 & ->)%slice_inv. unfold FixedBuffer.get. rewrite slice_Some by lia. f_equal.
    unfold FixedBuffer.contents. rewrite skipn_firstn_comm, take_take. f_equal. lia. }
  split; apply Hget.
  - pose proof (slice_splice _ _ _ _ C) as Hsl. by rewrite le_bytes_length in Hsl.
  - apply splice_inv in C as (H1 & H2 & Hc). rewrite slice_Some by lia. f_equal. rewrite Hc.
    rewrite le_bytes_length. rewrite (assoc_L (++)), drop_app_ge.
    2: { rewrite length_app, length_take, le_bytes_length. lia. }
    rewrite length_app, length_take, length_app, le_bytes_length, drop_drop.
    assert (length (FixedBuffer.contents (objectBuffer h)) = Z.to_nat (FixedBuffer.tail_offset (objectBuffer h))) as Hlc.
    { unfold FixedBuffer.contents. rewrite length_take. lia. }
    rewrite drop_app_ge by lia. rewrite Hlc.
    replace (_ - _)%nat with 0%nat by lia. by rewrite drop_0, take_ge by lia.
Qed.

Lemma note_patches_pointer_witness :
  let h := mkHandler [0] {[bs "p" := 0]} [] (FixedBuffer.mk 32 10 4096 (replicate 32 x00)) in
  ∃ b', run_events OBJECT (note_read (bs "p", 2, bs "value") ++ []) h =
      Some (mkHandler [0] {[bs "p" := 0]} [] b') ∧
    FixedBuffer.get b' 2 8 = Some (le_bytes 8 4106) ∧ FixedBuffer.get b' 10 5 = Some (bs "value").
Proof.
  intros h. apply (note_patches_pointer OBJECT [] (bs "p") 2 (bs "value") h 0).
  - lia.
  - lia.
  - constructor; vm_compute; intuition congruence.
  - exists 0. split; reflexivity.
  - vm_compute. discriminate.
  - vm_compute. discriminate.
Defined.
