(* ===== verification/IdServer.v ===== *)
(** * The id service (id-increment/server.cpp)

    Ids are handed out under a mutex, so requests are served one after the other; the
    response is the id in decimal. *)

From S2P Require Import Prelude.

(** ** Decimal numerals: std::to_string of a non-negative number *)

Fixpoint digits (fuel : nat) (z : Z) : list byte :=
  match fuel with
  | O => []
  | S fuel =>
      (if z <? 10 then [] else digits fuel (z / 10)) ++ [byte_of_Z (48 + z mod 10)]
  end.

(** A [long long] has at most 19 digits. *)
Definition to_string (z : Z) : list byte := digits 19 z.

(** The number a numeral denotes. *)
Definition numeral (s : list byte) : Z := fold_left (λ acc b, acc * 10 + (Z_of_byte b - 48)) s 0.

Lemma digits_numeral fuel z : 0 <= z < 10 ^ Z.of_nat fuel → numeral (digits fuel z) = z.
Proof.
  revert z. induction fuel as [|fuel IH]; intros z Hz.
  { change (numeral (digits 0 z)) with 0. simpl in Hz. lia. }
  rewrite Nat2Z.inj_succ, Z.pow_succ_r in Hz by lia. cbn [digits]. unfold numeral in *. rewrite fold_left_app.
  cbn [fold_left]. rewrite Z_of_byte_of_Z. pose proof (Z.mod_pos_bound z 10 ltac:(lia)).
  rewrite (Z.mod_small (48 + z mod 10)) by lia. destruct (Z.ltb_spec z 10).
  - simpl. rewrite Z.mod_small by lia. lia.
  - rewrite IH by (split; [apply Z.div_pos; lia|apply Z.div_lt_upper_bound; lia]). dlia.
Qed.

Definition LLONG_MAX : Z := 9223372036854775807.

Lemma to_string_numeral z : 0 <= z <= LLONG_MAX → numeral (to_string z) = z.
Proof. intros Hz. apply digits_numeral. unfold LLONG_MAX in Hz. lia. Qed.

(** ** The service *)

Record state := mkState { id : Z; idmap : gmap Z (list byte) }.

(** The initial values of the globals. *)
Definition init : state := mkState 1 ∅.

(** [IDInc] for the peer [remote]: the response and the new state; [None] when [id++]
    overflows. *)
Definition IDInc (st : state) (remote : list byte) : option (list byte * state) :=
  let response := to_string (id st) in
  let m := <[id st := remote]> (idmap st) in
  if id st + 1 <=? LLONG_MAX then Some (response, mkState (id st + 1) m) else None.

Fixpoint serve (st : state) (remotes : list (list byte)) : option (list (list byte) * state) :=
  match remotes with
  | [] => Some ([], st)
  | r :: remotes =>
      '(resp, st) ← IDInc st r;
      '(resps, st) ← serve st remotes;
      Some (resp :: resps, st)
  end.

Lemma serve_from st remotes :
  0 <= id st → id st + Zlen remotes <= LLONG_MAX →
  ∃ resps st', serve st remotes = Some (resps, st') ∧
    (numeral <$> resps) = seqZ (id st) (Zlen remotes) ∧ id st' = id st + Zlen remotes ∧
    (∀ i r, remotes !! i = Some r → idmap st' !! (id st + Z.of_nat i) = Some r) ∧
    (∀ k, k < id st → idmap st' !! k = idmap st !! k).
Proof.
  revert st. induction remotes as [|r remotes IH]; intros st H0 Hmax.
  { exists [], st. simpl. repeat split; [lia|done]. }
  rewrite length_cons in Hmax. cbn [serve]. unfold IDInc. destruct (Z.leb_spec (id st + 1) LLONG_MAX); [|lia].
  cbn [mbind option_bind].
  destruct (IH (mkState (id st + 1) (<[id st := r]> (idmap st)))) as (resps & st' & -> & Hr & Hid & Hm & Hk);
    cbn [id idmap] in *; [lia|lia|]. cbn [mbind option_bind]. eexists _, st'. split; [done|].
  split; [|split; [|split]].
  - rewrite fmap_cons, Hr, to_string_numeral by (unfold LLONG_MAX in *; lia).
    rewrite length_cons, Nat2Z.inj_succ, (seqZ_cons (id st)) by lia. by rewrite Z.pred_succ.
  - rewrite Hid, length_cons. lia.
  - intros [|i] q Hq; simpl in Hq.
    + injection Hq as <-. rewrite Z.add_0_r, Hk by lia. apply lookup_insert_eq.
    + rewrite <- (Hm i q Hq). f_equal. lia.
  - intros k Hlt. rewrite Hk, lookup_insert_ne by lia. done.
Qed.

(** C40. The first [n] requests are answered with the decimal numerals of 1, ..., [n] in
    order, so no id is given out twice, and the server remembers for each id the peer it
    was given to. *)
Theorem ids_unique remotes :
  Zlen remotes < LLONG_MAX →
  ∃ resps st', serve init remotes = Some (resps, st') ∧
    (numeral <$> resps) = seqZ 1 (Zlen remotes) ∧ NoDup resps ∧
    ∀ i r, remotes !! i = Some r → idmap st' !! (1 + Z.of_nat i) = Some r.
Proof.
  intros Hn. destruct (serve_from init remotes) as (resps & st' & Hs & Hr & _ & Hm & _); simpl; [lia|lia|].
  exists resps, st'. split; [done|]. split; [done|]. split; [|done].
  apply (NoDup_fmap_1 numeral). rewrite Hr. apply NoDup_seqZ.
Qed.

Lemma ids_unique_witness :
  ∃ resps st', serve init [bs "10.0.0.1:5"; bs "10.0.0.2:6"] = Some (resps, st') ∧
    (numeral <$> resps) = [1; 2] ∧ NoDup resps ∧
    ∀ i r, [bs "10.0.0.1:5"; bs "10.0.0.2:6"] !! i = Some r → idmap st' !! (1 + Z.of_nat i) = Some r.
Proof. apply (ids_unique [bs "10.0.0.1:5"; bs "10.0.0.2:6"]). vm_compute. reflexivity. Defined.
